(* ===== verification/_CoqProject ===== *)
-Q . S2P
Prelude.v
PyState.v
PyStr.v
LogRedaction.v
PyDecimal.v
PyTime.v
Graph.v
Domain.v
PluginApi.v
Registry.v
Wire.v
Runtime.v
Auth.v
Json.v
AdminAccount.v
AdminSecurity.v
AdminSecurityFacts.v
AdminGuard.v
Market.v
Analytics.v
Cache.v
CacheFacts.v
CacheReads.v
CacheSynthetic.v
CacheCoherence.v
Snapshots.v
Synthetic.v
SyntheticFacts.v
Fx.v
Policy.v
PolicyFacts.v
Builtin.v
Staking.v
Router.v
RouterFacts.v
CollectorHistory.v
Quota.v
Ttl.v
PyIso.v
DashboardLogs.v
DashboardLogsFacts.v
Schema.v
StorageRecords.v
Service.v
Storage.v
StorageFacts.v
StorageTables.v
StorageRestore.v
StorageRestoreFacts.v
StorageHistory.v
ApiKeys.v
ApiKeysFacts.v
ServiceFacts.v
ServiceCandidate.v
CollectorSchedule.v
Collector.v
CollectorFacts.v
Catalog.v
CatalogFacts.v
CatalogDocument.v
CatalogStore.v
CatalogEdits.v
CatalogDemo.v
CatalogDocumentFacts.v
CatalogRegistryFacts.v
CatalogStoreFacts.v
Descriptors.v
Compiler.v
CompilerFacts.v
CatalogRuntime.v
CatalogRuntimeFacts.v
CatalogActivation.v
CatalogActivationFacts.v
CatalogJobs.v
CatalogJobsFacts.v
