(* ===== verification/Prelude.v ===== *)
(** * QuickPrice: a verification library for the quotation server

    QuickPrice ([src/quickprice/]) collects quotes, histories, dividends and
    yields of a catalogue of instruments from several vendors, keeps them in
    memory and serves them over HTTP.  This library models the part of the
    program that decides what a client is shown: which instruments exist, which
    provider answers, under which quota, how a derived price is computed, what
    the caches keep, and who may ask.

    ** How the program works, and which file models which part

    A request or a collector asks the _router_ ([providers/router.py]) for a
    symbol and a capability.  The router walks the provider chain that the
    built-in _policy_ ([equities.py], [instrument_policy.py]) gave the symbol;
    every provider is guarded by a circuit breaker, and a vendor adapter spends
    its _quota_ ([providers/quota.py]) and may replay the _TTL cache_
    ([providers/_ttl.py]) before it calls the vendor.  Some providers derive a
    price from two others: the _synthetic_ recipes ([providers/synthetic.py])
    and the _FX hub_ ([fx.py], [providers/fx.py]).  The result is a _domain_
    record ([domain.py]); it is published in the snapshot store and the history
    rings of the _cache_ ([cache.py]), from which the _analytics_
    ([analytics.py], [staking.py]) derive rolling changes and yields, with the
    session _calendar_ of [market.py].  The _service_ ([service.py]) owns the
    market state of the current _generation_ ([runtime.py]): collectors publish
    into it, requests read the wire models ([schemas.py]) it caches, and an
    activation replaces it by a candidate prepared beside it.  The _registry_ ([registry.py],
    [plugin_api.py], [builtin_plugin.py]) fixes the catalogue at start-up.
    An administrator may change it through the _managed catalogue_
    ([catalog.py], [managed_config.py]): definitions in generations, the active
    one of which decides the registry of the process.
    Client requests pass the key check and the rate limiter of [auth.py];
    the administrator's pass the sessions of [admin_security.py].

    - [Prelude]: exceptions and the error monad, sorted-list, dictionary and
      insertion-order lemmas, tactics and hints shared by every file.
    - [PyState]: the state and exception monad of methods that write many
      fields and may raise in between, with its [wp] rules.
    - [PyStr], [PyDecimal], [PyTime]: the parts of Python's [str], [decimal]
      and [datetime] that the program uses.
    - [Graph]: depth-first traversals (reachability, closure, cycle check), the
      common core of the registry's cycle check and the cache's recipe graph.
    - [Domain]: [domain.py].
    - [PluginApi], [Registry]: [plugin_api.py] and [registry.py]; [Builtin]:
      [builtin_plugin.py] and the plugin discovery of [registry.py].
    - [Auth]: [auth.py].  [Json], [AdminAccount]: JSON values and
      [admin_account.py]; [AdminSecurity], [AdminSecurityFacts]:
      [admin_security.py]; [AdminGuard]: the middleware of [api.py] in front of
      the administrator's routes.
    - [LogRedaction], [DashboardLogs], [DashboardLogsFacts]: the log of
      [dashboard_logs.py]: the redaction of credentials, the backlog with its
      subscribers and streams, and what a client gets.
    - [Market], [Analytics], [Staking]: [market.py], [analytics.py] and the
      estimate of [staking.py].
    - [Cache]: [cache.py], with Modules [SnapshotStore] and [HistoryCache].  Its
      theorems are in [Snapshots] (snapshot store), [CacheFacts] (every write
      preserves the rings), [CacheReads] (load, prune, references),
      [CacheSynthetic] (recipe graph, invalidation, retention) and
      [CacheCoherence] (cached references equal fresh ones).
    - [Synthetic] and [SyntheticFacts]: [providers/synthetic.py].
    - [Fx]: [fx.py] and [providers/fx.py]; [Policy]: [equities.py] and
      [instrument_policy.py]; [PolicyFacts]: theorems on both.
    - [Router] and [RouterFacts]: [providers/router.py] and the parts of
      [providers/base.py] it uses.
    - [Quota]: [providers/quota.py], with Modules [QuotaBudget] and
      [SlidingWindowRateGate].  [Ttl]: [providers/_ttl.py].
    - [PyIso]: [datetime.isoformat] and the civil calendar under it.
    - [Schema]: [storage/schema.py], the migrations and their verification,
      statement by statement on a connection whose statements may raise, and
      [initialize] of [storage/database.py].
    - [StorageRecords], [Storage]: [storage/records.py] and
      [storage/database.py]: the records, the tables, one function per write
      command, the writer thread and the callers' futures.  [StorageFacts]
      (the writer), [StorageTables] (what the writes do to the tables).
    - [StorageRestore]: the queries and the two restore paths of
      [database.py]; theorems in [StorageRestoreFacts] (what is read back) and
      [StorageHistory] (the streaming restore against [Cache]).
    - [Wire], [Runtime], [Service]: [schemas.py], [runtime.py] and the
      publication, reading and candidate preparation of [service.py]; theorems
      in [ServiceFacts] (one generation) and [ServiceCandidate] (activations).
    - [CollectorHistory], [CollectorSchedule], [Collector]: [collectors.py]: the
      backfill of a symbol's history, the scheduler of the polls, and the
      collector's operations on its own state and the service; theorems on the
      last in [CollectorFacts].
    - [ApiKeys], [ApiKeysFacts]: [api_keys.py], the key manager over
      the tables and the writer.
    - [Catalog]: [catalog.py], the models of the managed catalogue, their
      validators and their JSON; theorems in [CatalogFacts].
    - [CatalogDocument], [CatalogStore], [CatalogEdits]: the catalogue part of
      [managed_config.py]: the formats of the file and the reconciliation with
      the installed registry, [InstrumentPolicyStore] with its lease, and the
      requests that replace the file; theorems in [CatalogDocumentFacts],
      [CatalogRegistryFacts] (the registry of a stored catalogue) and
      [CatalogStoreFacts]; [CatalogDemo] is the concrete catalogue of their
      witnesses.
    - [Descriptors], [Compiler], [CompilerFacts]: [providers/descriptors.py]
      (which provider serves what, and under which names) and
      [providers/compiler.py]: the plan of routes of a set of definitions, with
      the vendor credits it will spend.
    - [CatalogRuntime], [CatalogRuntimeFacts]: [catalog_runtime.py]: what an
      activation checks before it commits (changes, credit admission, reuse of
      collectors, the warm-up and its deadline).
    - [CatalogActivation], [CatalogActivationFacts]:
      [_commit_catalog_activation] of [service.py], the transaction that moves
      the file of the catalogue, the generation and the collector.
    - [CatalogJobs], [CatalogJobsFacts]: the jobs of [catalog_runtime.py]: their
      table, and [_run_job], which composes the validation, the warm-up and the
      activation.

    ** How the code is modelled

    An object with state is a record; a method is a function from the state and
    the arguments to the new state and a [result] (a value or the exception
    raised, with its class and message).  A constructor [X(...)] that validates
    is [X_init].  A method that holds a lock is one atomic transition.  Where a
    method awaits a collaborator (a provider, a loader, a persistence
    callback), the collaborator's outcome, and what other tasks did to the
    state meanwhile, are arguments of the transition: the theorems hold for all
    of them.  Clock readings are arguments too.  Code that is not in the
    repository (SHA-256, scrypt, HMAC, CRC-32, the time zone database, base64)
    is a parameter.

    The database is a record of tables: a map from the primary key to the row,
    or a list where the table has only a row id.  A constraint of the schema (a
    [CHECK], a [UNIQUE], a foreign key) is a test of the operation that writes
    the row, which raises the engine's error.  A statement is one function on
    the tables, a batch of the writer runs its commands in order on the tables
    of the open transaction, and a failed batch leaves the tables as they
    were.  What SQLite itself decides (the outcome of a commit, of a checkpoint,
    of opening the file) is a class of parameters, [SqlEngine].  The writer
    thread, the threads that submit commands and the one that closes the store
    are an event list, interpreted by [storage_step].  A caller that awaits its
    command sees one of three outcomes: it was refused, it completed, or the
    wait was cancelled and the command may still run.  Timestamps in the tables
    are kept as instants and JSON columns as JSON values.

    The market state of a generation is an object that generations share by
    reference, so the service holds a heap of states (a list, indexed by
    location) and every generation the location of its own; the history cache
    is one object that all of them share.  What is handed to the storage is
    recorded in order.  What other tasks do between two steps of the service is
    a list of publications, over which the theorems quantify.  A float of a
    wire model keeps the decimal it is converted from.  A collector and the
    service it publishes to are a pair of states; what the collector awaits (an
    answer of the router, a command of the storage) is a computation on the
    pair, so it may publish, or activate another generation, meanwhile.

    The file of the catalogue is what its path holds (with owner and mode) and
    how an atomic write ended; a method of the store is one transition.  A
    document is a JSON value, so [json.dumps] and [json.loads] are parameters;
    that a document is read back from its text is a hypothesis on that
    document.  Models of pydantic are records, built by [X_init].

    The activation is a computation on the state of the store, the service and
    the collectors together with the variables of the method.  How what it
    awaits ends is a record of outcomes; at every await the other tasks take a
    turn, read from a list of requests on the file, publications and collectors
    that end.  A second cancellation that strikes its handler while it waits for
    the file is not modelled.

    Instants, durations and monotonic clocks are integers in microseconds
    (Python's [datetime] resolution), where the source has [datetime],
    [timedelta] or float seconds.  A price is an exact decimal with the
    rounding of the default context (28 digits, half even).  A token of the
    rate limiter is an integer number of units, so a refill is exact.  Text is
    ASCII.  A [dict] is a [gmap] where its order is never read, and the list of
    its items where it is ([OrderedDict], the session table).

    Recursion that is not structural has fuel: [Graph.fuel_for] is one more
    than the number of nodes, which the traversal lemmas show is enough because
    each step adds a node to the visited set; [PyDecimal.ndigits] and
    [strip_zeros] use the bit length and the digit count; the retention closure
    of the cache uses the number of recipe inputs.  No theorem is conditional
    on the fuel.

    ** What the theorems show

    - Cache: the rings are sorted, aligned and bounded after any run of
      operations; the recipe graph is acyclic and indexed both ways; an
      observation drops every cached reference derived from it; a cached
      reference is the one a fresh computation gives; live rolling changes agree
      with the history served; load, prune and retain are characterised exactly.
    - Synthetic and FX: the two-pointer merge is the pointwise synthesis; the
      cache's virtual reference is the last point of the synthesised history; a
      synthetic quote is fresh, positive and names its components; a pair is
      triangulated over its USD spokes.
    - Router: a dispatch returns the first usable answer in route order and
      accounts for every provider passed over; circuit states are well formed
      and the back-off window is as configured; concurrent equal requests share
      one call.
    - Quota, TTL, Auth: no window exceeds its limit for any sequence of calls,
      a checkpoint restores what it saved, a cached outcome is replayed, an
      identity is never admitted above rate and burst, a wait of [Retry-After]
      is enough, and a key is accepted exactly when its digest matches.
    - Registry, Policy, Builtin: built registries are coherent, cycles are
      detected exactly, and the shipped catalogue is routed to providers that
      can serve it.
    - Market, Analytics, Staking: the next open is the earliest, the session is
      closed since the last close, rolling changes use the latest observation
      before the window, and staking estimates keep their metric.
    - Administrator: whatever steps the threads interleave, the session table is
      bounded, an authorized session comes from an accepted login on the same
      browser, account revision and token within its lifetimes, a one-time code
      admits one login, an account change revokes every session before it, and
      the account file is replaced only against the revision its caller saw.
      Whatever the guard hands on, except the login, carries such a session, and
      what may change something also the token, origin, scheme and a bounded
      JSON body.
    - Log: no configured value survives redaction, and redaction makes up no
      word; whatever the interleaving, a client gets events in their order, each
      once, and misses only what its full queue dropped; an event is one frame.

    - Storage: the results the callers get are those of the commands run one
      after another in the order they were submitted; a queue is drained by its
      writer and every accepted command answered; the tables stay well formed,
      and no step removes or rewrites what it must keep (keys, their
      revocation, audit events, usage events); a clean-up removes exactly the
      rows past their retention.  Whatever befell the statements of earlier
      starts, rollbacks included, the file holds a whole number of migrations
      and the next undisturbed start completes them.  A restore returns every row asked for, once, in its order,
      whatever the batches, and the streaming restore leaves in the cache what
      loading each symbol's history at once would.
    - API keys: since the last start, if no caller was cancelled while the storage
      worked for it, the keys in memory are the rows of the table, and a
      candidate is authenticated exactly when the table holds an active key with
      its digest; a key whose revocation returned is never accepted again,
      whatever callers are cancelled.

    - Service: an accepted quote is served at once and never replaced by an
      older one; every read is the projection of the stored snapshot with the
      freshness of the moment; readiness agrees with a scan of all reads; a
      yield is replaced only by a source that may replace it; the running
      aggregate is the open, high, low and close of its points; a candidate is
      invisible until it is activated, and a replaced generation is fenced off
      until an activation makes it current again, as a rollback does.

    - Collectors: polls of a symbol never overlap and keep their interval, no
      symbol is passed over, coalescing publishes what publishing at once would,
      a poll has one of three outcomes, a backfill ends with the bars the
      vendor has (exactly, for minute bars or from a start on their grid; else
      but for two bars that fall between two pages), and a collector of a replaced generation changes nothing
      whatever it was waiting for.

    - Managed catalogue: a generation is accepted exactly when it is well formed
      (unique names, available inputs, no chain of synthetic instruments over
      four, so no cycle); documents survive writing and reading; whatever the
      file holds, the built-in instruments keep their core, and a document that
      was written is read back with nothing to migrate; the registry of the
      process exists and holds exactly the active definitions; a request
      replaces the file only if it saw it and holds or finds free the lease; an
      activation can be taken back exactly, and rollback undoes it.
    - Activation: every chain of a compiled plan can serve its capability, the
      credits of a plan are those of its chains, a candidate is admitted exactly
      when what it adds fits the budgets; a warm-up has time for its worst case
      and lets through only what is fit to be served, and fails with its
      children's errors, its timeout, its cancellation or a missing result; and
      the activation moves file, generation and collector together or not at
      all, whichever step fails and whatever other tasks do meanwhile, but for
      the four failures that [orderly] leaves out.  Under the same conditions a
      job ends in one of three states that tell the truth about it, and the
      table never drops the one that runs.

    Twelve theorems describe behaviour the code does not intend:
    [overflow_blocks_fallback], [late_observation_stale], the [None] case of
    [ttl_replays], [warm_install_serves_older] (a candidate serves a warm quote
    older than the one it has, as fresh), [late_submission_unanswered] (a command submitted between
    the writer's exit and the end of [close] is never answered) and
    [cancelled_revocation_unpublished] (a revocation whose caller is cancelled
    is durable but not seen by the running process), [page_boundary_gap] (a
    backfill that starts off the grid of the bars misses the one between two
    pages), [checkpoint_half_second] (checkpoints are compared as texts),
    [previous_default_reverted] (a route set to an earlier default is undone),
    [torn_write_parts] and [cancelled_retirement_parts] (an activation that fails
    with the file replaced, or while it retires the former collector, leaves the
    file at the target and the runtime at the former generation), and
    [cancelled_audit_misreports] (a job whose audit is cancelled reports its
    activation as cancelled).

    ** What is not modelled

    Vendor adapters, the routes of the HTTP layer and process wiring do I/O over
    libraries that are not in the repository; they appear as parameters.  The
    conversion between domain records and storage records, the reader connections
    and the thread pool of the store are not modelled: a read is a query on the
    tables of the last commit.  Metrics do not influence what is served.
    [annualize_index_growth] needs the decimal library's [ln] and [exp].  The
    start and stop of the service and the tasks of the collectors with their
    reconciliation between generations, the search and verification of symbols
    at the vendors, the construction of the provider graph, and the files of
    managed settings and provider keys are not modelled. *)

From stdpp Require Export base option list sorting gmap sets strings.
From Stdlib Require Export ZArith Lia.

#[global] Set Warnings "-notation-overridden".

Declare Scope qp_scope.
Delimit Scope qp_scope with qp.

(** ** Exceptions and the error monad *)

(** The subclasses of [ProviderError] declared by [providers/base.py] and
    [providers/synthetic.py]; [PEBase] is the base class itself. *)
Inductive perr_class :=
| PEBase
| PEUnavailable
| PENetworkUnavailable
| PERateLimited
| PEBusy
| PEMalformed
| PEUnsupported
| PESyntheticComponent.

Inductive Capability := QUOTE | HISTORY | DIVIDEND | YIELD.

#[export] Instance perr_class_eq_dec : EqDecision perr_class.
Proof. solve_decision. Defined.

#[export] Instance Capability_eq_dec : EqDecision Capability.
Proof. solve_decision. Defined.

Definition capability_value (c : Capability) : string :=
  match c with
  | QUOTE => "quote"
  | HISTORY => "history"
  | DIVIDEND => "dividend"
  | YIELD => "yield"
  end.

Definition capability_index (c : Capability) : nat :=
  match c with QUOTE => 0 | HISTORY => 1 | DIVIDEND => 2 | YIELD => 3 end.

Definition capability_of_index (n : nat) : option Capability :=
  match n with
  | 0 => Some QUOTE | 1 => Some HISTORY | 2 => Some DIVIDEND | 3 => Some YIELD
  | _ => None
  end.

#[export, refine] Instance Capability_countable : Countable Capability :=
  inj_countable capability_index capability_of_index _.
Proof. by intros []. Defined.

(** A raised Python exception: its class and its message. *)
Inductive exn :=
| ValueError (msg : string)
| TypeError (msg : string)
| KeyError (key : string)
| RuntimeError (msg : string)
| OverflowError (msg : string)
| OtherError (cls : string)
| NamedError (cls msg : string)
| RetryError (cls : string) (retry_after : Z)
| ProviderError (cls : perr_class) (provider msg : string) (status : option Z)
| AllProvidersFailed (symbol : string) (cap : Capability)
    (attempts : list (string * string)).

Inductive result (A : Type) :=
| Ok (a : A)
| Raise (e : exn).
Arguments Ok {A} a.
Arguments Raise {A} e.

#[export] Instance result_ret : MRet result := @Ok.
#[export] Instance result_bind : MBind result := λ A B k m,
  match m with Ok a => k a | Raise e => Raise e end.
#[export] Instance result_fmap : FMap result := λ A B f m,
  match m with Ok a => Ok (f a) | Raise e => Raise e end.

(** [if b: raise e] *)
Definition raise_if (b : bool) (e : exn) : result unit :=
  if b then Raise e else Ok tt.

Lemma raise_bind {A} b e (k : result A) r : (_ ← raise_if b e; k) = Ok r ↔ b = false ∧ k = Ok r.
Proof. destruct b; cbn; [by split; [|intros [? _]]|]. tauto. Qed.

Definition is_ok {A} (m : result A) : Prop := ∃ a, m = Ok a.

(** Evaluate a fallible function over a list, left to right. *)
Fixpoint map_result {A B} (f : A → result B) (l : list A) : result (list B) :=
  match l with
  | [] => Ok []
  | x :: l' => y ← f x; ys ← map_result f l'; Ok (y :: ys)
  end.

(** A loop whose body may raise: [for x in l: a = f(a, x)]. *)
Fixpoint fold_result {A B} (f : A → B → result A) (a : A) (l : list B) : result A :=
  match l with
  | [] => Ok a
  | x :: l' => a' ← f a x; fold_result f a' l'
  end.

(** ** Python list and dict idioms *)

(** [next((x for x in l if P x), None)] *)
Definition next_where {A} (P : A → Prop) `{!∀ x, Decision (P x)} (l : list A) : option A :=
  head (filter P l).

(** [sorted(l, key=key)], a stable sort. *)
Fixpoint insert_by {A} (key : A → Z) (x : A) (l : list A) : list A :=
  match l with
  | [] => [x]
  | y :: l' => if decide (key x ≤ key y)%Z then x :: l else y :: insert_by key x l'
  end.

Definition sort_by {A} (key : A → Z) (l : list A) : list A :=
  foldr (insert_by key) [] l.

(** The values of a dict in the order of its sorted integer keys. *)
Definition ordered_values {A} (m : gmap Z A) : list A :=
  (sort_by fst (map_to_list m)).*2.

(** [{key(x): x for x in l}]: a later element overwrites an earlier one. *)
Definition dict_of {A} (key : A → Z) (l : list A) : gmap Z A :=
  foldl (λ m x, <[key x := x]> m) ∅ l.

(** [l[-n:]] for a non-negative [n]; [l[-0:]] is the whole list. *)
Definition slice_last {A} (n : Z) (l : list A) : list A :=
  if decide (n = 0%Z) then l else drop (length l - Z.to_nat n) l.

(** A stable sort by a three-way comparison. *)
Fixpoint insert_row {A} (order : A → A → comparison) (x : A) (l : list A) : list A :=
  match l with
  | [] => [x]
  | y :: l' => match order x y with Gt => y :: insert_row order x l' | _ => x :: l end
  end.

Definition sort_rows {A} (order : A → A → comparison) (l : list A) : list A :=
  foldr (insert_row order) [] l.

Lemma insert_row_perm {A} (order : A → A → comparison) x l : insert_row order x l ≡ₚ x :: l.
Proof.
  induction l as [|y l IH]; cbn; [done|]. destruct (order x y); [done..|].
  rewrite IH. apply Permutation_swap.
Qed.

Lemma sort_rows_perm {A} (order : A → A → comparison) l : sort_rows order l ≡ₚ l.
Proof. induction l as [|x l IH]; cbn; [done|]. by rewrite insert_row_perm, IH. Qed.

(** [dict.fromkeys(l)]: the distinct elements in first-seen order. *)
Definition dedup {A} `{EqDecision A} (l : list A) : list A :=
  foldl (λ acc x, if decide (x ∈ acc) then acc else acc ++ [x]) [] l.

(** ** Orders on lists *)

Abbreviation ssorted key := (StronglySorted (λ a b, (key a < key b)%Z)).
Abbreviation wsorted key := (StronglySorted (λ a b, (key a ≤ key b)%Z)).

(** ** Tactics and hints *)

Create HintDb qp discriminated.
Create Rewrite HintDb qp.

Ltac destruct_result :=
  repeat match goal with
  | H : mbind _ ?m = Ok _ |- _ => destruct m eqn:?; simpl in H; [|discriminate H]
  | H : context [raise_if ?b _] |- _ => destruct b eqn:?; simpl in H; try discriminate H
  end.

(** Unfold the outcome of a straight-line fallible computation. *)
Ltac inv_ok H :=
  unfold mbind, result_bind, raise_if in H;
  repeat (case_match; simplify_eq/=; try discriminate).

(** ** Generic lemmas: the error monad *)

Lemma result_bind_ok {A B} (m : result A) (k : A → result B) b :
  mbind k m = Ok b ↔ ∃ a, m = Ok a ∧ k a = Ok b.
Proof. destruct m; simpl; naive_solver. Qed.

Lemma raise_if_ok b e u : raise_if b e = Ok u ↔ b = false.
Proof. destruct b, u; simpl; naive_solver. Qed.

Lemma map_result_ok {A B} (f : A → result B) l l' :
  map_result f l = Ok l' ↔ Forall2 (λ x y, f x = Ok y) l l'.
Proof.
  revert l'. induction l as [|x l IH]; intros l'; simpl.
  - split; [intros [= <-]; constructor | by intros ->%Forall2_nil_inv_l].
  - rewrite result_bind_ok. setoid_rewrite result_bind_ok. setoid_rewrite IH.
    split.
    + intros (y & ? & ys & ? & [= <-]). by constructor.
    + intros (y & ys & ? & ? & ->)%Forall2_cons_inv_l. eauto 10.
Qed.

Lemma fold_result_app {A B} (f : A → B → result A) l1 : ∀ l2 a,
  fold_result f a (l1 ++ l2) = (b ← fold_result f a l1; fold_result f b l2).
Proof. induction l1 as [|x l1 IH]; intros l2 a; cbn; [done|]. destruct (f a x); cbn; [apply IH|done]. Qed.

Section dedup.
Context {A : Type} `{EqDecision A}.
Implicit Types (l acc : list A) (x : A).

Lemma dedup_acc l acc :
  NoDup acc →
  let l' := foldl (λ acc x, if decide (x ∈ acc) then acc else acc ++ [x]) acc l in
  NoDup l' ∧ ∀ x, x ∈ l' ↔ x ∈ acc ∨ x ∈ l.
Proof.
  revert acc. induction l as [|y l IH]; intros acc Hacc; cbn.
  { split; [done|]. intros x. rewrite elem_of_nil. tauto. }
  destruct (IH (if decide (y ∈ acc) then acc else acc ++ [y])) as [Hnd Hin].
  { case_decide; [done|]. apply NoDup_app. split_and!; [done| |apply NoDup_singleton].
    by intros x Hx ->%list_elem_of_singleton. }
  split; [done|]. intros x. rewrite Hin, elem_of_cons.
  case_decide; [|rewrite elem_of_app, list_elem_of_singleton; tauto].
  split; [tauto|]. intros [?|[->|?]]; tauto.
Qed.

Lemma elem_of_dedup l x : x ∈ dedup l ↔ x ∈ l.
Proof.
  destruct (dedup_acc l []) as [_ H]; [constructor|]. unfold dedup. rewrite H, elem_of_nil. tauto.
Qed.

Lemma NoDup_dedup l : NoDup (dedup l).
Proof. by apply (dedup_acc l []), NoDup_nil_2. Qed.
End dedup.

Lemma map_result_ext {A B} (f g : A → result B) l :
  (∀ x, x ∈ l → f x = g x) → map_result f l = map_result g l.
Proof.
  induction l as [|x l IH]; intros H; simpl; [done|].
  rewrite H by (by left). rewrite IH by (intros; apply H; by right). done.
Qed.

(** ** Generic lemmas: sorting *)

Section sorting.
Context {A : Type} (key : A → Z).
Implicit Types (l : list A) (x : A).

Lemma insert_by_perm x l : insert_by key x l ≡ₚ x :: l.
Proof.
  induction l as [|y l IH]; simpl; [done|]. case_decide; [done|].
  rewrite IH. apply Permutation_swap.
Qed.

Lemma sort_by_perm l : sort_by key l ≡ₚ l.
Proof.
  induction l as [|x l IH]; simpl; [done|]. by rewrite insert_by_perm, IH.
Qed.

Lemma elem_of_sort_by x l : x ∈ sort_by key l ↔ x ∈ l.
Proof. by rewrite sort_by_perm. Qed.

Lemma insert_by_sorted x l : wsorted key l → wsorted key (insert_by key x l).
Proof.
  induction 1 as [|y l Hs IH Hall]; simpl; [by repeat constructor|].
  case_decide as Hd.
  - constructor; [by constructor|]. constructor; [done|].
    eapply Forall_impl; [done|]. simpl; lia.
  - constructor; [done|]. rewrite insert_by_perm. constructor; [lia|done].
Qed.

Lemma sort_by_sorted l : wsorted key (sort_by key l).
Proof.
  induction l as [|x l IH]; simpl; [constructor|]. by apply insert_by_sorted.
Qed.

Lemma sort_by_id l : wsorted key l → sort_by key l = l.
Proof.
  induction 1 as [|x l Hs IH Hall]; simpl; [done|]. rewrite IH.
  destruct l as [|y l]; simpl; [done|]. inversion Hall; subst.
  by rewrite decide_True by done.
Qed.

Lemma ssorted_wsorted l : ssorted key l → wsorted key l.
Proof.
  induction 1; constructor; [done|]. eapply Forall_impl; [done|]. simpl; lia.
Qed.

Lemma ssorted_sort_id l : ssorted key l → sort_by key l = l.
Proof. intros ?. by apply sort_by_id, ssorted_wsorted. Qed.

Lemma ssorted_app l1 l2 :
  ssorted key (l1 ++ l2) ↔
  ssorted key l1 ∧ ssorted key l2 ∧ ∀ x y, x ∈ l1 → y ∈ l2 → (key x < key y)%Z.
Proof.
  induction l1 as [|z l1 IH]; simpl.
  - split; [|naive_solver]. intros; split_and!; [constructor|done|].
    intros ?? []%elem_of_nil.
  - split.
    + intros [Hs Hall]%StronglySorted_inv. apply IH in Hs as (? & ? & Hlt).
      rewrite Forall_app in Hall. destruct Hall as [Hall1 Hall2].
      rewrite Forall_forall in Hall2.
      split_and!; [by constructor|done|].
      intros x y [->|?]%elem_of_cons ?; eauto.
    + intros (Hs1 & Hs2 & Hlt). apply StronglySorted_inv in Hs1 as [Hs1' Hall].
      constructor.
      * apply IH. split_and!; [done..|]. intros; apply Hlt; [|done]. by right.
      * rewrite Forall_app; split; [done|]. apply Forall_forall; intros y ?.
        apply Hlt; [by left|done].
Qed.

Lemma ssorted_filter P `{!∀ x, Decision (P x)} l :
  ssorted key l → ssorted key (filter P l).
Proof.
  induction 1 as [|x l Hs IH Hall]; [constructor|]. rewrite filter_cons.
  case_decide; [|done]. constructor; [done|].
  rewrite Forall_forall in Hall |- *. intros y [_ Hy]%list_elem_of_filter. by apply Hall.
Qed.

Lemma ssorted_keys_inj l x y : ssorted key l → x ∈ l → y ∈ l → key x = key y → x = y.
Proof.
  induction 1 as [|z l Hs IH Hall]; [by intros []%elem_of_nil|].
  rewrite Forall_forall in Hall.
  intros [->|Hx]%elem_of_cons [->|Hy]%elem_of_cons Hk; [done| | |by apply IH].
  - specialize (Hall _ Hy); lia.
  - specialize (Hall _ Hx); lia.
Qed.

Lemma ssorted_nodup l : ssorted key l → NoDup (key <$> l).
Proof.
  induction 1 as [|x l Hs IH Hall]; simpl; constructor; [|done].
  intros (y & Hy & Hin)%list_elem_of_fmap.
  rewrite Forall_forall in Hall. specialize (Hall _ Hin). lia.
Qed.

(** Two strictly sorted lists with the same elements are equal. *)
Lemma ssorted_ext l1 l2 :
  ssorted key l1 → ssorted key l2 → (∀ x, x ∈ l1 ↔ x ∈ l2) → l1 = l2.
Proof.
  intros H1. revert l2. induction H1 as [|x l1 Hs1 IH Hall1]; intros l2 H2 Hext.
  - destruct l2 as [|y l2]; [done|]. exfalso.
    apply (not_elem_of_nil y), Hext. by left.
  - destruct H2 as [|y l2 Hs2 Hall2].
    { exfalso. apply (not_elem_of_nil x), Hext. by left. }
    rewrite Forall_forall in Hall1, Hall2.
    assert (x = y) as <-.
    { assert (x ∈ y :: l2) as [->|Hx]%elem_of_cons by (apply Hext; by left); [done|].
      assert (y ∈ x :: l1) as [->|Hy]%elem_of_cons by (apply Hext; by left); [done|].
      specialize (Hall1 _ Hy). specialize (Hall2 _ Hx). lia. }
    f_equal. apply IH; [done|]. intros z. specialize (Hext z).
    rewrite !elem_of_cons in Hext. split; intros Hz.
    + destruct (proj1 Hext (or_intror Hz)) as [->|]; [|done].
      specialize (Hall1 _ Hz). lia.
    + destruct (proj2 Hext (or_intror Hz)) as [->|]; [|done].
      specialize (Hall2 _ Hz). lia.
Qed.

Lemma ssorted_of_nodup l : wsorted key l → NoDup (key <$> l) → ssorted key l.
Proof.
  induction 1 as [|x l Hs IH Hall]; simpl; [constructor|].
  intros [Hnin Hnd]%NoDup_cons. constructor; [by apply IH|].
  rewrite Forall_forall in Hall |- *. intros y Hy.
  specialize (Hall _ Hy). assert (key x ≠ key y); [|lia].
  intros Heq. apply Hnin. rewrite Heq. by apply list_elem_of_fmap_2.
Qed.

Lemma wsorted_snoc_inv l x : wsorted key (l ++ [x]) → ∀ y, y ∈ l → (key y ≤ key x)%Z.
Proof.
  induction l as [|z l IH]; simpl; [by intros _ ? []%elem_of_nil|].
  intros [Hs Hall]%StronglySorted_inv y [->|Hy]%elem_of_cons; [|by apply IH].
  rewrite Forall_app, Forall_cons in Hall. by destruct Hall as (_ & ? & _).
Qed.

End sorting.

(** ** Generic lemmas: first and last matches *)

Section matches.
Context {A : Type}.
Implicit Types (l : list A).

Lemma filter_reverse P `{!∀ x : A, Decision (P x)} l :
  filter P (reverse l) = reverse (filter P l).
Proof.
  induction l as [|x l IH]; [done|].
  rewrite reverse_cons, filter_app, IH, !filter_cons, filter_nil.
  case_decide; [by rewrite reverse_cons | by rewrite app_nil_r].
Qed.

(** [next((x for x in reversed(l) if P x), None)] is the last match. *)
Lemma next_where_reverse P `{!∀ x : A, Decision (P x)} l :
  next_where P (reverse l) = last (filter P l).
Proof. unfold next_where. by rewrite filter_reverse, head_reverse. Qed.

Lemma last_filter_app P `{!∀ x : A, Decision (P x)} l1 l2 :
  last (filter P (l1 ++ l2)) =
  match last (filter P l2) with Some x => Some x | None => last (filter P l1) end.
Proof. rewrite filter_app. apply last_app. Qed.

Lemma last_is_Some l : is_Some (last l) ↔ l ≠ [].
Proof.
  destruct l as [|x l]; [by split; [intros []|]|]. split; [done|intros _].
  induction l as [|y l IH] using rev_ind; [by eexists|].
  rewrite app_comm_cons, last_snoc. eauto.
Qed.

Lemma last_elem_of l x : last l = Some x → x ∈ l.
Proof. intros (l' & ->)%last_Some. set_solver. Qed.

Lemma filter_none P `{!∀ x : A, Decision (P x)} l :
  (∀ x, x ∈ l → ¬ P x) → filter P l = [].
Proof.
  induction l as [|x l IH]; intros Hl; [done|].
  rewrite filter_cons_False by (apply Hl; by left).
  apply IH. intros; apply Hl; by right.
Qed.

Lemma filter_all P `{!∀ x : A, Decision (P x)} l :
  (∀ x, x ∈ l → P x) → filter P l = l.
Proof.
  induction l as [|x l IH]; intros Hl; [done|].
  rewrite filter_cons_True by (apply Hl; by left). f_equal.
  apply IH. intros; apply Hl; by right.
Qed.

End matches.

(** ** Generic lemmas: dictionaries with integer keys *)

Section dicts.
Context {A : Type} (key : A → Z).
Implicit Types (l : list A) (m : gmap Z A).

Lemma dict_of_snoc l x : dict_of key (l ++ [x]) = <[key x := x]> (dict_of key l).
Proof. unfold dict_of. by rewrite foldl_app. Qed.

Lemma dict_of_lookup l k :
  dict_of key l !! k = last (filter (λ x, key x = k) l).
Proof.
  induction l as [|x l IH] using rev_ind; [done|].
  rewrite dict_of_snoc, filter_app, filter_cons, filter_nil.
  rewrite lookup_insert. case_decide as Hk.
  - by rewrite last_snoc.
  - by rewrite app_nil_r.
Qed.

Lemma dict_of_lookup_sorted l x :
  ssorted key l → dict_of key l !! (key x) = Some x ↔ x ∈ l.
Proof.
  intros Hs. rewrite dict_of_lookup. split.
  - intros H%last_elem_of. apply list_elem_of_filter in H. naive_solver.
  - intros Hx. destruct (last (filter (λ y, key y = key x) l)) as [y|] eqn:Hy.
    + apply last_elem_of, list_elem_of_filter in Hy as [Hk Hin].
      f_equal. by eapply ssorted_keys_inj.
    + apply last_None in Hy. exfalso. apply (not_elem_of_nil x).
      rewrite <- Hy. by apply list_elem_of_filter.
Qed.

Lemma dict_of_key l k x : dict_of key l !! k = Some x → key x = k.
Proof.
  rewrite dict_of_lookup. intros [? ?]%last_elem_of%list_elem_of_filter. done.
Qed.

Definition keyed m : Prop := ∀ k x, m !! k = Some x → key x = k.

Lemma keyed_dict_of l : keyed (dict_of key l).
Proof. intros k x. apply dict_of_key. Qed.

Lemma elem_of_ordered_values m x : x ∈ ordered_values m ↔ ∃ k, m !! k = Some x.
Proof.
  unfold ordered_values. rewrite list_elem_of_fmap. split.
  - intros ([k y] & -> & Hin). exists k.
    by apply elem_of_sort_by, elem_of_map_to_list in Hin.
  - intros [k Hk]. exists (k, x). split; [done|].
    by apply elem_of_sort_by, elem_of_map_to_list.
Qed.

Lemma ordered_values_sorted m : keyed m → ssorted key (ordered_values m).
Proof.
  intros Hm. unfold ordered_values.
  assert (Hs : ssorted fst (sort_by fst (map_to_list m))).
  { apply ssorted_of_nodup; [apply sort_by_sorted|].
    rewrite sort_by_perm. apply NoDup_fst_map_to_list. }
  assert (Hk : ∀ p, p ∈ sort_by fst (map_to_list m) → key p.2 = p.1).
  { intros [k x] Hin%elem_of_sort_by%elem_of_map_to_list. by apply Hm. }
  induction (sort_by fst (map_to_list m)) as [|p l IH]; simpl; [constructor|].
  apply StronglySorted_inv in Hs as [Hs Hall]. rewrite Forall_forall in Hall.
  constructor.
  - apply IH; [done|]. intros; apply Hk. by right.
  - apply Forall_forall. intros y (q & -> & Hq)%list_elem_of_fmap.
    rewrite !Hk by (by left || by right). by apply Hall.
Qed.

(** Ordering the dictionary of a strictly sorted list gives the list back. *)
Lemma ordered_values_dict_of l : ssorted key l → ordered_values (dict_of key l) = l.
Proof.
  intros Hs. apply (ssorted_ext key); [apply ordered_values_sorted, keyed_dict_of|done|].
  intros x. rewrite elem_of_ordered_values. split.
  - intros [k Hk]. rewrite <- (dict_of_key _ _ _ Hk) in Hk.
    by apply dict_of_lookup_sorted in Hk.
  - intros Hx. exists (key x). by apply dict_of_lookup_sorted.
Qed.

Lemma dict_of_ordered_values m : keyed m → dict_of key (ordered_values m) = m.
Proof.
  intros Hm. apply map_eq; intros k. apply option_eq; intros x.
  assert (Hs := ordered_values_sorted _ Hm). split.
  - intros Hk. pose proof (dict_of_key _ _ _ Hk) as <-.
    apply dict_of_lookup_sorted in Hk as Hin; [|done].
    apply elem_of_ordered_values in Hin as [k' Hk'].
    by rewrite (Hm _ _ Hk').
  - intros Hk. pose proof (Hm _ _ Hk) as <-.
    apply dict_of_lookup_sorted; [done|]. apply elem_of_ordered_values. eauto.
Qed.

End dicts.

#[export] Hint Resolve keyed_dict_of ordered_values_sorted sort_by_sorted : qp.
