(* ===== verification/PyState.v ===== *)
(** * Methods of mutable objects

    A method of an object with many fields reads and writes its state and may
    raise at any point, keeping what it wrote before.  [comp S A] is such a
    computation; [wp m Q s] says that running [m] from [s] ends in a state and an
    outcome that satisfy [Q], and its rules follow the constructs. *)

From S2P Require Import Prelude.

(** A computation over the state [S]: an assignment survives a later [raise]. *)
Definition comp (S A : Type) : Type := S → S * result A.

#[export] Instance comp_ret {S} : MRet (comp S) := λ A a s, (s, Ok a).
#[export] Instance comp_bind {S} : MBind (comp S) := λ A B k m s,
  let '(s', r) := m s in
  match r with Ok a => k a s' | Raise e => (s', Raise e) end.

Definition raise {S A} (e : exn) : comp S A := λ s, (s, Raise e).
Definition gets {S A} (f : S → A) : comp S A := λ s, (s, Ok (f s)).
Definition modify {S} (f : S → S) : comp S unit := λ s, (f s, Ok tt).

(** A computation without effects that may raise. *)
Definition lift {S A} (m : result A) : comp S A := λ s, (s, m).

(** [if b: m] *)
Definition when {S} (b : bool) (m : comp S unit) : comp S unit := if b then m else mret tt.

(** [for x in l: f(x)] *)
Fixpoint for_each {S A} (f : A → comp S unit) (l : list A) : comp S unit :=
  match l with
  | [] => mret tt
  | x :: l' => _ ← f x; for_each f l'
  end.

(** [try: m except e: handler(e)], for the exceptions that [catches] selects. *)
Definition try_except {S A} (catches : exn → bool) (m : comp S A) (handler : exn → comp S A) : comp S A :=
  λ s, let '(s', r) := m s in
       match r with
       | Ok a => (s', Ok a)
       | Raise e => if catches e then handler e s' else (s', Raise e)
       end.

(** ** Reasoning *)

Definition wp {S A} (m : comp S A) (Q : S → result A → Prop) (s : S) : Prop := Q (m s).1 (m s).2.

Section rules.
Context {S : Type}.

Lemma wp_ret {A} (a : A) (Q : S → result A → Prop) s : Q s (Ok a) → wp (mret a) Q s.
Proof. done. Qed.

Lemma wp_raise {A} e (Q : S → result A → Prop) s : Q s (Raise e) → wp (raise e) Q s.
Proof. done. Qed.

Lemma wp_gets {A} (f : S → A) (Q : S → result A → Prop) s : Q s (Ok (f s)) → wp (gets f) Q s.
Proof. done. Qed.

Lemma wp_modify (f : S → S) (Q : S → result unit → Prop) s : Q (f s) (Ok tt) → wp (modify f) Q s.
Proof. done. Qed.

Lemma wp_lift {A} (m : result A) (Q : S → result A → Prop) s : Q s m → wp (lift m) Q s.
Proof. done. Qed.

Lemma wp_bind {A B} (m : comp S A) (k : A → comp S B) (Q : S → result B → Prop) s :
  wp m (λ s' r, match r with Ok a => wp (k a) Q s' | Raise e => Q s' (Raise e) end) s →
  wp (m ≫= k) Q s.
Proof. unfold wp, mbind, comp_bind. by destruct (m s) as [s' [a|e]]. Qed.

Lemma wp_when (b : bool) (m : comp S unit) (Q : S → result unit → Prop) s :
  (if b then wp m Q s else Q s (Ok tt)) → wp (when b m) Q s.
Proof. by destruct b. Qed.

Lemma wp_try {A} (catches : exn → bool) (m : comp S A) (handler : exn → comp S A) (Q : S → result A → Prop) s :
  wp m (λ s' r, match r with
                | Ok a => Q s' (Ok a)
                | Raise e => if catches e then wp (handler e) Q s' else Q s' (Raise e)
                end) s →
  wp (try_except catches m handler) Q s.
Proof. unfold wp, try_except. destruct (m s) as [s1 [a|e]]; cbn; [done|]. by destruct (catches e). Qed.

Lemma wp_mono {A} (m : comp S A) (Q R : S → result A → Prop) s :
  (∀ s' r, Q s' r → R s' r) → wp m Q s → wp m R s.
Proof. unfold wp. auto. Qed.

Lemma wp_and {A} (m : comp S A) (Q R : S → result A → Prop) s :
  wp m Q s → wp m R s → wp m (λ s' r, Q s' r ∧ R s' r) s.
Proof. done. Qed.

(** A loop keeps what its body keeps. *)
Lemma wp_for_each {A} (f : A → comp S unit) (I : S → Prop) l : ∀ s,
  (∀ x s, x ∈ l → I s → wp (f x) (λ s' _, I s') s) →
  I s → wp (for_each f l) (λ s' _, I s') s.
Proof.
  induction l as [|x l IH]; intros s Hf Hs; [done|]. apply wp_bind.
  eapply wp_mono; [|apply Hf; [by left|done]]. intros s' [u|e] Hs'; [|done].
  apply IH; [|done]. intros y s'' Hy. apply Hf. by right.
Qed.

(** A computation that keeps an invariant whatever its outcome. *)
Definition keeps {A} (I : S → Prop) (m : comp S A) : Prop := ∀ s, I s → I (m s).1.

Lemma keeps_bind {A B} I (m : comp S A) (k : A → comp S B) :
  keeps I m → (∀ a, keeps I (k a)) → keeps I (m ≫= k).
Proof.
  intros Hm Hk s Hs. unfold mbind, comp_bind. specialize (Hm s Hs).
  destruct (m s) as [s' [a|e]]; [|done]. by apply Hk.
Qed.

Lemma keeps_pure {A} I (m : comp S A) : (∀ s, (m s).1 = s) → keeps I m.
Proof. intros H s Hs. by rewrite H. Qed.

Lemma keeps_modify I (f : S → S) : (∀ s, I s → I (f s)) → keeps I (modify f).
Proof. done. Qed.

Lemma keeps_when I (b : bool) (m : comp S unit) : keeps I m → keeps I (when b m).
Proof. destruct b; intros Hm s Hs; [by apply Hm|done]. Qed.

Lemma keeps_for_each {A} I (f : A → comp S unit) l : (∀ x, keeps I (f x)) → keeps I (for_each f l).
Proof. intros Hf. induction l; [by intros s Hs|]. by apply keeps_bind. Qed.

End rules.

(** One step of symbolic execution of a [wp]. *)
Ltac wp_step :=
  match goal with
  | |- wp (mbind _ _) _ _ => apply wp_bind
  | |- wp (mret _) _ _ => apply wp_ret
  | |- wp (raise _) _ _ => apply wp_raise
  | |- wp (gets _) _ _ => apply wp_gets
  | |- wp (modify _) _ _ => apply wp_modify
  | |- wp (lift _) _ _ => apply wp_lift
  | |- wp (when _ _) _ _ => apply wp_when
  end; cbv beta.

Ltac wp_run := repeat wp_step.
