(* ===== verification/PyStr.v ===== *)
(** * Python text operations on ASCII strings

    The [str] methods the program calls ([strip], [upper], [lower], [replace]
    of one character, [split], [join], [startswith], substring test), as
    functions on [string].  One character of the model is one ASCII code
    point; text outside ASCII is not modelled. *)

From S2P Require Import Prelude.
From Stdlib Require Import Ascii String.

Local Open Scope string_scope.
Local Open Scope Z_scope.

Definition code (c : ascii) : Z := Z.of_N (N_of_ascii c).

(** ASCII characters for which [str.isspace] holds. *)
Definition is_space (c : ascii) : bool :=
  bool_decide (9 ≤ code c ≤ 13) || bool_decide (28 ≤ code c ≤ 32).

Definition is_upper (c : ascii) : bool := bool_decide (65 ≤ code c ≤ 90).
Definition is_lower (c : ascii) : bool := bool_decide (97 ≤ code c ≤ 122).
Definition is_digit (c : ascii) : bool := bool_decide (48 ≤ code c ≤ 57).

Definition char_upper (c : ascii) : ascii :=
  if is_lower c then ascii_of_N (N_of_ascii c - 32) else c.
Definition char_lower (c : ascii) : ascii :=
  if is_upper c then ascii_of_N (N_of_ascii c + 32) else c.

Fixpoint str_map (f : ascii → ascii) (s : string) : string :=
  match s with "" => "" | String c s' => String (f c) (str_map f s') end.

Fixpoint str_all (f : ascii → bool) (s : string) : bool :=
  match s with "" => true | String c s' => f c && str_all f s' end.

Fixpoint lstrip (s : string) : string :=
  match s with "" => "" | String c s' => if is_space c then lstrip s' else s end.

Fixpoint rstrip (s : string) : string :=
  match s with
  | "" => ""
  | String c s' =>
    match rstrip s' with
    | "" => if is_space c then "" else String c ""
    | r => String c r
    end
  end.

Definition strip (s : string) : string := rstrip (lstrip s).
Definition upper (s : string) : string := str_map char_upper s.
Definition lower (s : string) : string := str_map char_lower s.

Definition replace_char (a b : ascii) (s : string) : string :=
  str_map (λ c, if decide (c = a) then b else c) s.

(** [s.split(sep)] for a one-character separator. *)
Fixpoint split_on (sep : ascii) (s : string) : list string :=
  match s with
  | "" => [""]
  | String c s' =>
    if decide (c = sep) then "" :: split_on sep s'
    else match split_on sep s' with
         | [] => [String c ""]
         | w :: ws => String c w :: ws
         end
  end.

(** [s.split(sep, 1)]: the text before the first separator, and what follows
    it when there is one. *)
Fixpoint split_once (sep : ascii) (s : string) : string * option string :=
  match s with
  | "" => ("", None)
  | String c s' =>
    if decide (c = sep) then ("", Some s')
    else let '(a, b) := split_once sep s' in (String c a, b)
  end.

Definition startswith (p s : string) : bool := String.prefix p s.

Fixpoint contains (sub s : string) : bool :=
  startswith sub s ||
  match s with "" => false | String _ s' => contains sub s' end.

Fixpoint join (sep : string) (l : list string) : string :=
  match l with [] => "" | [x] => x | x :: l' => (x ++ sep ++ join sep l')%string end.

(** [sorted(set(l))] *)
Definition sorted_set (l : list string) : list string := sort_rows String.compare (dedup l).

(** Truth value of a string. *)
Definition truthy (s : string) : bool := negb (bool_decide (s = "")).

(** [repr(s)]: single quotes unless the text has one and no double quote, with
    backslashes, the quote and control characters escaped. *)
Definition hex_digit (n : Z) : ascii :=
  ascii_of_N (Z.to_N (if decide (n < 10) then 48 + n else 87 + n)).

Definition repr_char (quote c : ascii) : string :=
  if decide (c = quote \/ c = "\"%char) then String "\" (String c "")
  else if decide (code c = 9) then "\t"
  else if decide (code c = 10) then "\n"
  else if decide (code c = 13) then "\r"
  else if decide (code c < 32 \/ code c = 127) then
    String "\" (String "x" (String (hex_digit (code c / 16)) (String (hex_digit (code c mod 16)) "")))
  else String c "".

Fixpoint repr_body (quote : ascii) (s : string) : string :=
  match s with "" => "" | String c s' => (repr_char quote c ++ repr_body quote s')%string end.

Definition py_repr (s : string) : string :=
  let double := ascii_of_N 34 in
  let quote := if contains "'" s && negb (contains (String double "") s) then double
               else "'"%char in
  (String quote (repr_body quote s) ++ String quote "")%string.

(** ** Lemmas *)

Section strip.
Implicit Types s : string.

Lemma lstrip_idem s : lstrip (lstrip s) = lstrip s.
Proof.
  induction s as [|c s IH]; simpl; [done|].
  destruct (is_space c) eqn:E; [done|]. simpl. by rewrite E.
Qed.

Lemma rstrip_idem s : rstrip (rstrip s) = rstrip s.
Proof.
  induction s as [|c s IH]; simpl; [done|].
  destruct (rstrip s) as [|c' s'] eqn:E.
  - destruct (is_space c) eqn:Ec; simpl; [done|]. by rewrite Ec.
  - change (rstrip (String c (String c' s'))) with
      (match rstrip (String c' s') with
       | "" => if is_space c then "" else String c "" | r => String c r end).
    by rewrite IH.
Qed.

Lemma lstrip_rstrip s : lstrip s = s → lstrip (rstrip s) = rstrip s.
Proof.
  destruct s as [|c s]; simpl; [done|]. destruct (is_space c) eqn:Ec.
  - intros H. exfalso.
    assert (String.length (lstrip s) ≤ String.length s)%nat as Hl.
    { clear. induction s as [|c s IH]; simpl; [done|]. case_match; simpl; lia. }
    rewrite H in Hl. simpl in Hl. lia.
  - intros _. destruct (rstrip s); simpl; by rewrite Ec.
Qed.

Lemma strip_idem s : strip (strip s) = strip s.
Proof.
  unfold strip. rewrite lstrip_rstrip by apply lstrip_idem. apply rstrip_idem.
Qed.

Lemma str_map_strip f s :
  (∀ c, is_space (f c) = is_space c) → strip (str_map f s) = str_map f (strip s).
Proof.
  intros Hf. unfold strip.
  assert (∀ s, lstrip (str_map f s) = str_map f (lstrip s)) as ->.
  { clear s. induction s as [|c s IH]; simpl; [done|]. rewrite Hf. by case_match. }
  generalize (lstrip s). clear s. induction s as [|c s IH]; simpl; [done|].
  rewrite IH, Hf. destruct (rstrip s); simpl; [by case_match|done].
Qed.

Lemma str_map_map f g s : str_map f (str_map g s) = str_map (λ c, f (g c)) s.
Proof. induction s; simpl; congruence. Qed.

Lemma str_map_ext f g s : (∀ c, f c = g c) → str_map f s = str_map g s.
Proof. intros H. induction s; simpl; congruence. Qed.

Lemma char_upper_space c : is_space (char_upper c) = is_space c.
Proof. by destruct c as [[] [] [] [] [] [] [] []]. Qed.

Lemma char_upper_idem c : char_upper (char_upper c) = char_upper c.
Proof. by destruct c as [[] [] [] [] [] [] [] []]. Qed.

Lemma strip_upper s : strip (upper s) = upper (strip s).
Proof. apply str_map_strip, char_upper_space. Qed.

Lemma upper_idem s : upper (upper s) = upper s.
Proof. unfold upper. rewrite str_map_map. apply str_map_ext, char_upper_idem. Qed.

Lemma upper_strip_idem s : upper (strip (upper (strip s))) = upper (strip s).
Proof. by rewrite strip_upper, strip_idem, upper_idem. Qed.

End strip.

#[export] Hint Rewrite strip_idem upper_idem upper_strip_idem : qp.
