(* ===== verification/LogRedaction.v ===== *)
(** * Credential redaction ([redact] of [dashboard_logs.py])

    Substitution as [str.replace] and [re.sub] do it, the two patterns of the
    module as functions that say how much of a text they match and what they
    replace it by, and the order in which a message passes through them.  The
    alphabet is that of the other files, ASCII; the patterns ignore case there. *)

From S2P Require Import Prelude PyStr.
From Stdlib Require Import Ascii.

Local Open Scope string_scope.
Local Open Scope list_scope.
Local Open Scope nat_scope.

(** Texts are lists here: replacing is about sublists. *)
Definition text := list ascii.

Notation chars := String.list_ascii_of_string.

Definition REDACTED : text := chars "REDACTED".
Definition MARK : text := "["%char :: REDACTED ++ ["]"%char].

(** ** Substitution *)

(** What a pattern makes of a text whose preceding character is known: how long
    the match at its beginning is, and what it is replaced by. *)
Definition pattern := option ascii → text → option (nat * text).

(** [re.sub]: leftmost matches, which do not overlap; [skip] is what is left of
    the current one. *)
Fixpoint sub (p : pattern) (prev : option ascii) (skip : nat) (s : text) : text :=
  match s with
  | [] => []
  | c :: s' =>
    match skip with
    | S skip' => sub p (Some c) skip' s'
    | O =>
      match p prev s with
      | Some (n, r) => r ++ sub p (Some c) (pred n) s'
      | None => c :: sub p (Some c) 0 s'
      end
    end
  end.

Fixpoint prefixb (w s : text) : bool :=
  match w, s with
  | [], _ => true
  | a :: w', c :: s' => bool_decide (a = c) && prefixb w' s'
  | _ :: _, [] => false
  end.

(** [replace(secret, "[REDACTED]")] *)
Definition literal (secret : text) : pattern := λ _ s,
  if prefixb secret s then Some (length secret, MARK) else None.

(** ** The patterns *)

(** [[^...]*], greedy: the number of characters for which [f] holds. *)
Fixpoint run_length (f : ascii → bool) (s : text) : nat :=
  match s with [] => 0 | c :: s' => if f c then S (run_length f s') else 0 end.

Fixpoint prefix_ignorecase (w s : text) : bool :=
  match w, s with
  | [], _ => true
  | a :: w', c :: s' => bool_decide (char_lower a = char_lower c) && prefix_ignorecase w' s'
  | _ :: _, [] => false
  end.

Definition among (l : string) (c : ascii) : bool := bool_decide (c ∈ chars l).

(** [https?://|/] *)
Definition url_head (s : text) : option nat :=
  next_where (λ n, 0 < n)
    [if prefix_ignorecase (chars "https://") s then 8 else 0;
     if prefix_ignorecase (chars "http://") s then 7 else 0;
     if prefix_ignorecase (chars "/") s then 1 else 0].

(** [_URL_QUERY] *)
Definition url_query : pattern := λ _ s,
  head ← url_head s;
  let path := head + run_length (λ c, negb (is_space c || among "?#" c)) (drop head s) in
  match drop path s with
  | c :: query =>
    if decide (c = "?"%char) then
      Some (path + 1 + run_length (λ c, negb (is_space c || among "#" c)) query, take path s ++ ["?"%char] ++ MARK)
    else None
  | [] => None
  end.

Definition is_word (c : ascii) : bool := is_upper c || is_lower c || is_digit c || bool_decide (c = "_"%char).

Definition starts_word (s : text) : bool := match s with c :: _ => is_word c | [] => false end.

(** The names of [_SECRET_ASSIGNMENT], in the order of its alternatives. *)
Definition secret_names : list string :=
  ["x-api-key"; "api-key"; "api_key"; "apikey"; "authorization"; "access-token"; "access_token"; "accesstoken";
   "token"; "password"; "secret"].

(** [(?:bearer\s+)?[^\s,;]+] *)
Definition secret_value (s : text) : option nat :=
  let value t := run_length (λ c, negb (is_space c || among ",;" c)) t in
  let bearer := 6 + run_length is_space (drop 6 s) in
  if prefix_ignorecase (chars "bearer") s && bool_decide (6 < bearer) &&
     bool_decide (0 < value (drop bearer s))
  then Some (bearer + value (drop bearer s))
  else if decide (0 < value s) then Some (value s) else None.

(** [\s*(?::|=)\s*|\s+] and what follows it: the lengths of both. *)
Definition secret_rest (s : text) : option (nat * nat) :=
  let spaces := run_length is_space s in
  let assigned :=
    match drop spaces s with
    | c :: t => if among ":=" c then Some (spaces + 1 + run_length is_space t) else None
    | [] => None
    end in
  let with_value n := v ← secret_value (drop n s); Some (n, v) in
  match assigned ≫= with_value with
  | Some r => Some r
  | None => if decide (0 < spaces) then with_value spaces else None
  end.

(** [_SECRET_ASSIGNMENT] *)
Definition secret_assignment : pattern := λ prev s,
  if match prev with Some c => is_word c | None => false end then None
  else
    name ← next_where (λ w, prefix_ignorecase (chars w) s &&
                            negb (starts_word (drop (String.length w) s)) = true) secret_names;
    let n := String.length name in
    '(separator, value) ← secret_rest (drop n s);
    Some (n + separator + value, take (n + separator) s ++ MARK).

(** ** Messages *)

Definition apply_pattern (s : text) (p : pattern) : text := sub p None 0 s.

(** Configured values of less than four characters are left alone. *)
Definition redact_patterns (redacted_values : list text) : list pattern :=
  (literal <$> List.filter (λ secret, bool_decide (4 ≤ length secret)) redacted_values) ++
  [url_query; secret_assignment].

Definition redact_text (redacted_values : list text) (s : text) : text :=
  foldl apply_pattern s (redact_patterns redacted_values).

Definition redact (redacted_values : list string) (value : string) : string :=
  String.string_of_list_ascii
    (redact_text (chars <$> redacted_values) (chars value)).

(** [_redacted_values]: the longest first.  The code sorts a set: values of the
    same length are in the order of the set there, in that of their first
    appearance here. *)
Definition redacted_values (items : list (option string)) : list string :=
  sort_by (λ value, - Z.of_nat (String.length value))%Z
    (dedup (List.filter truthy ((λ item, strip (default "" item)) <$> items))).

Example redact_query : redact [] "GET http://Host/a?api_key=1#x /b?c HTTP/1.1" =
  "GET http://Host/a?[REDACTED]#x /b?[REDACTED] HTTP/1.1".
Proof. vm_compute. reflexivity. Qed.

Example redact_assignment : redact [] "Authorization: Bearer abc, token=x; tokens=1 password  : ,y Secret z" =
  "Authorization: [REDACTED], token=[REDACTED]; tokens=1 password  [REDACTED] ,y Secret [REDACTED]".
Proof. vm_compute. reflexivity. Qed.

Example redact_values : redact (redacted_values [Some " s3cret"; None; Some "s3cret-long"; Some "abc"]) "s3cret-longer s3cret abc" =
  "[REDACTED]er [REDACTED] abc".
Proof. vm_compute. reflexivity. Qed.

(** ** Occurrences *)

Definition occurs (w s : text) : Prop := ∃ a b, s = a ++ w ++ b.

Lemma occurs_app_l w x y : occurs w x → occurs w (x ++ y).
Proof. intros (a & b & ->). exists a, (b ++ y). by rewrite <- !app_assoc. Qed.

Lemma occurs_app_r w x y : occurs w y → occurs w (x ++ y).
Proof. intros (a & b & ->). exists (x ++ a), b. by rewrite app_assoc. Qed.

(** A text without a character lies on one side of it. *)
Lemma occurs_around w c x y : c ∉ w → occurs w (x ++ c :: y) → occurs w x ∨ occurs w y.
Proof.
  intros Hc (a & b & Heq). symmetry in Heq.
  apply app_eq_inv in Heq as [(k & -> & Heq)|(k & -> & Heq)].
  - right. destruct k as [|c' k]; cbn in Heq.
    + destruct w as [|c' w]; [by exists [], y|]. simplify_eq/=. destruct Hc. by left.
    + injection Heq as -> ->. by exists k, b.
  - left. apply app_eq_inv in Heq as [(k' & -> & Heq)|(k' & -> & Heq)]; [|by exists a, k'].
    destruct k' as [|c' k']; [by exists a, []; rewrite !app_nil_r|].
    simplify_eq/=. destruct Hc. apply elem_of_app. right. by left.
Qed.

(** What replacing cannot bring about. *)
Definition plain (w : text) : Prop := "["%char ∉ w ∧ "]"%char ∉ w ∧ ¬ occurs w REDACTED.

Lemma occurs_mark w x y : plain w → occurs w (x ++ MARK ++ y) → occurs w x ∨ occurs w y.
Proof.
  intros (Hopen & Hclose & Hword) Ho. unfold MARK in Ho. cbn [app] in Ho. rewrite <- app_assoc in Ho.
  apply occurs_around in Ho as [Ho|Ho]; [by left| |done]. cbn [app] in Ho.
  by apply occurs_around in Ho as [Ho|Ho]; [|right|].
Qed.

(** ** Every replacement ends in the mark *)

(** A match is replaced by a beginning of it and the mark. *)
Definition marking (p : pattern) : Prop :=
  ∀ prev s n r, p prev s = Some (n, r) → ∃ q, r = q ++ MARK ∧ q `prefix_of` s.

Lemma literal_marking secret : marking (literal secret).
Proof. intros prev s n r. unfold literal. destruct (prefixb secret s); [|done]. intros [= <- <-]. exists []. split; [done|apply prefix_nil]. Qed.

Lemma take_snoc_prefix n (s : text) c t : drop n s = c :: t → take n s ++ [c] `prefix_of` s.
Proof. intros Hd. exists t. rewrite <- (take_drop n s) at 1. by rewrite Hd, <- app_assoc. Qed.

Lemma url_query_marking : marking url_query.
Proof.
  intros prev s n r H. unfold url_query in H. destruct (url_head s) as [head|]; [|done]. cbn in H.
  destruct (drop _ s) as [|c query] eqn:Hd; [done|]. case_decide as Hc; [|done]. injection H as _ <-. subst c.
  refine (ex_intro _ (take _ s ++ ["?"%char]) (conj _ _)); [by rewrite <- app_assoc|]. by eapply take_snoc_prefix.
Qed.

Lemma secret_assignment_marking : marking secret_assignment.
Proof.
  intros prev s n r H. unfold secret_assignment in H. destruct (match prev with Some _ => _ | None => _ end); [done|].
  destruct (next_where _ _) as [name|]; [|done]. cbn in H. destruct (secret_rest _) as [[separator value]|]; [|done].
  injection H as _ <-. eexists. split; [done|]. exists (drop (String.length name + separator) s). by rewrite take_drop.
Qed.

Section sub.
Context (p : pattern) (w : text) (Hplain : plain w).

(** Replacing brings nothing about that was not there. *)
Lemma sub_occurs (Hp : marking p) s : ∀ prev skip q,
  (skip = 0 ∨ q = []) → occurs w (q ++ sub p prev skip s) → occurs w (q ++ drop skip s).
Proof.
  induction s as [|c s IH]; intros prev skip q Hskip Ho; [by destruct skip|].
  destruct skip as [|skip]; cbn [sub drop] in *.
  - destruct (p prev (c :: s)) as [[n r]|] eqn:Hm.
    + apply Hp in Hm as (q' & -> & [t Ht]). rewrite <- app_assoc, app_assoc in Ho.
      apply occurs_mark in Ho as [Ho|Ho]; [| |done].
      * rewrite Ht, app_assoc. by apply occurs_app_l.
      * apply (IH _ _ []) in Ho; [|by right]. cbn in Ho. apply occurs_app_r, (occurs_app_r _ [c]).
        rewrite <- (take_drop (pred n) s). by apply occurs_app_r.
    + rewrite cons_middle, app_assoc in Ho. apply IH in Ho; [|by left]. by rewrite <- app_assoc in Ho.
  - destruct Hskip as [?| ->]; [done|]. apply (IH _ _ []) in Ho; [done|by right].
Qed.

End sub.

Lemma foldl_occurs w patterns : plain w → Forall marking patterns →
  ∀ s, occurs w (foldl apply_pattern s patterns) → occurs w s.
Proof.
  intros Hw. induction 1 as [|p patterns Hp _ IH]; intros s Hs; cbn in Hs; [done|].
  apply IH in Hs. apply (sub_occurs p w Hw Hp s None 0 []); [by left|done].
Qed.

(** ** A configured value is replaced wherever it stands *)

Lemma prefixb_spec w : ∀ s, prefixb w s = true ↔ w `prefix_of` s.
Proof.
  induction w as [|a w IH]; intros [|c s]; cbn; [|split; [|done]; intros _; apply prefix_nil| |].
  - split; [intros _; apply prefix_nil|done].
  - split; [done|]. intros H. by apply prefix_nil_inv in H.
  - rewrite andb_true_iff, IH, bool_decide_eq_true. split.
    + intros [-> H]. by apply prefix_cons.
    + intros H. split; [by eapply prefix_cons_inv_1|by eapply prefix_cons_inv_2].
Qed.

(** No value begins in the text [q] before [s]. *)
Definition clean (w q s : text) : Prop := ∀ q1 q2, q = q1 ++ q2 → q2 ≠ [] → ¬ w `prefix_of` q2 ++ s.

Lemma clean_nil w s : clean w [] s.
Proof. intros q1 q2 Hq Hne. by destruct q1, q2. Qed.

Lemma clean_occurs w q s : w ≠ [] → clean w q s → ¬ occurs w q.
Proof.
  intros Hw Hc (a & b & ->). apply (Hc a (w ++ b)); [done|by destruct w|].
  rewrite <- app_assoc. by exists (b ++ s).
Qed.

Lemma clean_snoc w q c s : clean w q (c :: s) → ¬ w `prefix_of` c :: s → clean w (q ++ [c]) s.
Proof.
  intros Hq Hm q1 q2 Heq Hne Hpre.
  destruct (exists_last Hne) as (q2' & c' & ->). rewrite app_assoc in Heq. apply app_inj_tail in Heq as [-> <-].
  rewrite <- app_assoc in Hpre. cbn in Hpre. destruct q2' as [|c2 q2']; [done|].
  by apply (Hq q1 (c2 :: q2')).
Qed.

Lemma literal_clears w s : plain w → w ≠ [] → ∀ prev skip q,
  (skip = 0 ∨ q = []) → clean w q (drop skip s) → ¬ occurs w (q ++ sub (literal w) prev skip s).
Proof.
  intros Hplain Hw. induction s as [|c s IH]; intros prev skip q Hskip Hq Ho.
  - rewrite app_nil_r in Ho. by eapply clean_occurs.
  - destruct skip as [|skip]; cbn [sub drop] in *.
    + unfold literal in Ho at 1. destruct (prefixb w (c :: s)) eqn:Hm.
      * apply occurs_mark in Ho as [Ho|Ho]; [by eapply clean_occurs| |done].
        revert Ho. apply (IH _ _ []); [by right|apply clean_nil].
      * rewrite cons_middle, app_assoc in Ho. revert Ho. apply IH; [by left|]. rewrite drop_0.
        apply clean_snoc; [done|]. intros Hpre%prefixb_spec. congruence.
    + destruct Hskip as [?| ->]; [done|]. revert Ho. apply (IH _ _ []); [by right|apply clean_nil].
Qed.

Lemma redact_patterns_marking values : Forall marking (redact_patterns values).
Proof.
  unfold redact_patterns. apply Forall_app. split; [apply Forall_fmap, Forall_forall; intros; apply literal_marking|].
  repeat constructor; [apply url_query_marking|apply secret_assignment_marking].
Qed.

Lemma redact_text_clears (values : list text) (w s : text) :
  w ∈ values → 4 ≤ length w → plain w → ¬ occurs w (redact_text values s).
Proof.
  intros Hin Hlen Hw. unfold redact_text.
  assert (literal w ∈ redact_patterns values) as (before & after & Heq)%list_elem_of_split.
  { apply elem_of_app. left. apply list_elem_of_fmap. exists w. split; [done|].
    rewrite list_elem_of_In. apply List.filter_In. split; [by apply list_elem_of_In|by apply bool_decide_eq_true]. }
  pose proof (redact_patterns_marking values) as Hmark. rewrite Heq in Hmark |- *.
  apply Forall_app in Hmark as [_ [_ Hmark]%Forall_cons]. rewrite foldl_app. cbn.
  intros Ho%foldl_occurs; [|done..]. revert Ho.
  apply (literal_clears w _ Hw ltac:(intros ->; cbn in Hlen; lia) None 0 []); [by left|apply clean_nil].
Qed.

Lemma chars_redact values value : chars (redact values value) = redact_text (chars <$> values) (chars value).
Proof. apply String.list_ascii_of_string_of_list_ascii. Qed.

Lemma length_chars s : length (chars s) = String.length s.
Proof. induction s as [|c s IH]; cbn; [done|]. by rewrite IH. Qed.

Lemma not_occurs c w s : c ∈ w → c ∉ s → ¬ occurs w s.
Proof. intros Hw Hs (a & b & ->). apply Hs. set_solver. Qed.

(** C14: a configured value of at least four characters never survives redaction,
    wherever and however often it stands in a message and whatever the other
    values are, unless it has a bracket in it or is a part of [REDACTED]. *)
Theorem redact_complete (values : list string) (w value : string) :
  w ∈ values → 4 ≤ String.length w → plain (chars w) → ¬ occurs (chars w) (chars (redact values value)).
Proof.
  intros Hin Hlen Hw. rewrite chars_redact. apply redact_text_clears; [by apply list_elem_of_fmap_2| |done].
  by rewrite length_chars.
Qed.

(** Two values, one in the other, and one of the message's words. *)
Lemma redact_complete_witness :
  ¬ occurs (chars "s3cret") (chars (redact ["s3cret-long"; "s3cret"] "s3cret-longer s3cret abc")).
Proof.
  apply (redact_complete _ "s3cret"); [right; left|cbn; lia|].
  split_and!; [set_solver..|]. apply (not_occurs "s"%char); [left|vm_compute; set_solver].
Defined.

(** Redaction makes no word up: a plain text that occurs in the result stood in
    the message. *)
Theorem redact_faithful (values : list string) (w value : string) :
  plain (chars w) → occurs (chars w) (chars (redact values value)) → occurs (chars w) (chars value).
Proof. intros Hw. rewrite chars_redact. apply foldl_occurs; [done|apply redact_patterns_marking]. Qed.

Lemma redact_faithful_witness : occurs (chars "abc") (chars "s3cret abc").
Proof.
  apply (redact_faithful ["s3cret"]).
  - split_and!; [set_solver..|]. apply (not_occurs "a"%char); [left|vm_compute; set_solver].
  - exists (chars "[REDACTED] "), []. vm_compute. reflexivity.
Defined.
