(* ===== verification/PyDecimal.v ===== *)
(** * Python's [decimal.Decimal] at the default context

    Finite decimals as an integer coefficient and a power of ten, with the
    rounding the default context applies to every result: 28 significant
    digits, ties to even.  Division is the long division of the standard
    library (a guard digit, a sticky digit, and trailing zeros removed from an
    exact quotient).  Signed zeros and the exponent limits (999999) are not
    modelled: every value the program computes with has passed
    [domain.decimal], whose range check keeps results far from them. *)

From S2P Require Import Prelude.

Local Open Scope Z_scope.

Record decimal := Dec { coef : Z; dexp : Z }.

#[export] Instance decimal_eq_dec : EqDecision decimal.
Proof. solve_decision. Defined.

Definition prec : Z := 28.

(** Number of decimal digits of a non-negative integer ([len(str(n))]). *)
Fixpoint ndigits_fuel (fuel : nat) (n : Z) : Z :=
  match fuel with
  | O => 1
  | S f => if decide (n < 10) then 1 else 1 + ndigits_fuel f (n / 10)
  end.

Definition ndigits (n : Z) : Z := ndigits_fuel (Z.to_nat (Z.log2 n)) n.

(** Drop [s] digits, rounding half to even. *)
Definition round_half_even (c s : Z) : Z :=
  let q := c / 10 ^ s in
  let r := c mod 10 ^ s in
  if decide (10 ^ s < 2 * r ∨ (2 * r = 10 ^ s ∧ Z.odd q)) then q + 1 else q.

(** [Decimal._fix]: bring the coefficient to at most [prec] digits. *)
Definition dec_fix (d : decimal) : decimal :=
  let c := Z.abs (coef d) in
  let n := ndigits c in
  if decide (n ≤ prec) then d
  else
    let s := n - prec in
    let q := round_half_even c s in
    if decide (q = 10 ^ prec) then Dec (Z.sgn (coef d) * 10 ^ (prec - 1)) (dexp d + s + 1)
    else Dec (Z.sgn (coef d) * q) (dexp d + s).

(** The coefficient of [d] at the exponent [k ≤ dexp d]. *)
Definition dscale (k : Z) (d : decimal) : Z := coef d * 10 ^ (dexp d - k).

Definition dmin_exp (a b : decimal) : Z := Z.min (dexp a) (dexp b).

Definition dcompare (a b : decimal) : comparison :=
  let k := dmin_exp a b in Z.compare (dscale k a) (dscale k b).

Definition dle (a b : decimal) : Prop :=
  dscale (dmin_exp a b) a ≤ dscale (dmin_exp a b) b.
Definition dlt (a b : decimal) : Prop :=
  dscale (dmin_exp a b) a < dscale (dmin_exp a b) b.
(** Numerical equality (Python's [==]). *)
Definition deq (a b : decimal) : Prop :=
  dscale (dmin_exp a b) a = dscale (dmin_exp a b) b.

#[export] Instance dle_dec a b : Decision (dle a b).
Proof. unfold dle. apply _. Defined.
#[export] Instance dlt_dec a b : Decision (dlt a b).
Proof. unfold dlt. apply _. Defined.
#[export] Instance deq_dec a b : Decision (deq a b).
Proof. unfold deq. apply _. Defined.

Definition dzero : decimal := Dec 0 0.
Definition dint (n : Z) : decimal := Dec n 0.
Definition is_zero (d : decimal) : Prop := coef d = 0.
Definition is_pos (d : decimal) : Prop := 0 < coef d.
Definition is_neg (d : decimal) : Prop := coef d < 0.

#[export] Instance is_zero_dec d : Decision (is_zero d).
Proof. unfold is_zero. apply _. Defined.
#[export] Instance is_pos_dec d : Decision (is_pos d).
Proof. unfold is_pos. apply _. Defined.
#[export] Instance is_neg_dec d : Decision (is_neg d).
Proof. unfold is_neg. apply _. Defined.

(** [max(a, b)] and [min(a, b)]: the first argument is kept on a tie. *)
Definition dmax (a b : decimal) : decimal := if decide (dlt a b) then b else a.
Definition dmin (a b : decimal) : decimal := if decide (dlt b a) then b else a.

Definition dmul (a b : decimal) : decimal :=
  dec_fix (Dec (coef a * coef b) (dexp a + dexp b)).

Definition dadd (a b : decimal) : decimal :=
  let k := dmin_exp a b in dec_fix (Dec (dscale k a + dscale k b) k).

Definition dsub (a b : decimal) : decimal :=
  let k := dmin_exp a b in dec_fix (Dec (dscale k a - dscale k b) k).

(** Remove trailing zeros while the exponent is below [ideal]. *)
Fixpoint strip_zeros (fuel : nat) (ideal : Z) (c e : Z) : decimal :=
  match fuel with
  | O => Dec c e
  | S f => if decide (e < ideal ∧ c mod 10 = 0) then strip_zeros f ideal (c / 10) (e + 1)
           else Dec c e
  end.

(** [a / b]; division by zero raises an [ArithmeticError]. *)
Definition ddiv (a b : decimal) : result decimal :=
  if decide (is_zero b) then Raise (OtherError "ZeroDivisionError")
  else if decide (is_zero a) then Ok (Dec 0 (dexp a - dexp b))
  else
    let ca := Z.abs (coef a) in
    let cb := Z.abs (coef b) in
    let sign := Z.sgn (coef a) * Z.sgn (coef b) in
    let shift := ndigits cb - ndigits ca + prec + 1 in
    let e := dexp a - dexp b - shift in
    let num := if decide (0 ≤ shift) then ca * 10 ^ shift else ca in
    let den := if decide (0 ≤ shift) then cb else cb * 10 ^ (- shift) in
    let q := num / den in
    let r := num mod den in
    let d :=
      if decide (r = 0) then strip_zeros (Z.to_nat (shift + 1)) (dexp a - dexp b) q e
      else if decide (q mod 5 = 0) then Dec (q + 1) e else Dec q e in
    Ok (dec_fix (Dec (sign * coef d) (dexp d))).

(** The quotient where the divisor is known not to be zero. *)
Definition ddiv_nz (a b : decimal) : decimal :=
  match ddiv a b with Ok d => d | Raise _ => dzero end.

(** [float(d)] is finite and keeps a non-zero value non-zero: the magnitude is
    below the point where binary64 rounds to infinity and above the point
    where it rounds to zero. *)
Definition float_overflow_bound : Z := 2 ^ 1024 - 2 ^ 970.

Definition float_representable (d : decimal) : Prop :=
  let c := Z.abs (coef d) in
  let e := dexp d in
  c = 0 ∨
  (if decide (0 ≤ e) then c * 10 ^ e < float_overflow_bound
   else c < float_overflow_bound * 10 ^ (- e)) ∧
  (if decide (0 ≤ e) then 1 < c * 10 ^ e * 2 ^ 1075
   else 10 ^ (- e) < c * 2 ^ 1075).

#[export] Instance float_representable_dec d : Decision (float_representable d).
Proof. unfold float_representable. destruct (decide (0 ≤ dexp d)); apply _. Defined.

(** A value handed to [domain.decimal]: a finite decimal, a NaN or infinity,
    or something [Decimal(str(value))] rejects. *)
Inductive decimal_input :=
| DFinite (d : decimal)
| DNonFinite
| DInvalid.

Example div_third : ddiv (dint 1) (dint 3) = Ok (Dec 3333333333333333333333333333 (-28)).
Proof. reflexivity. Qed.
Example div_exact : ddiv (dint 1) (dint 8) = Ok (Dec 125 (-3)).
Proof. reflexivity. Qed.
Example div_two_thirds : ddiv (dint 2) (dint 3) = Ok (Dec 6666666666666666666666666667 (-28)).
Proof. reflexivity. Qed.

(** ** Powers of ten and digit counts *)

Lemma pow10_pos n : 0 ≤ n → 0 < 10 ^ n.
Proof. intros. apply Z.pow_pos_nonneg; lia. Qed.

Lemma pow10_add a b : 0 ≤ a → 0 ≤ b → 10 ^ (a + b) = 10 ^ a * 10 ^ b.
Proof. intros. by apply Z.pow_add_r. Qed.

Lemma pow10_le a b : a ≤ b → 10 ^ a ≤ 10 ^ b.
Proof. apply Z.pow_le_mono_r. lia. Qed.

Lemma pow10_lt_inv a b : 0 ≤ b → 10 ^ a < 10 ^ b → a < b.
Proof. intros. apply (Z.pow_lt_mono_r_iff 10); lia. Qed.

Lemma ndigits_fuel_spec f n :
  0 < n → n < 2 ^ Z.of_nat (S f) →
  10 ^ (ndigits_fuel f n - 1) ≤ n < 10 ^ ndigits_fuel f n ∧ 1 ≤ ndigits_fuel f n.
Proof.
  revert n. induction f as [|f IH]; intros n Hn Hlt; cbn [ndigits_fuel].
  - change (2 ^ Z.of_nat 1) with 2 in Hlt. cbn. lia.
  - case_decide as Hd; [cbn; lia|].
    destruct (IH (n / 10)) as [[Hl Hu] H1].
    + apply Z.div_str_pos. lia.
    + apply Z.div_lt_upper_bound; [lia|].
      replace (Z.of_nat (S (S f))) with (Z.of_nat (S f) + 1) in Hlt by lia.
      rewrite Z.pow_add_r in Hlt by lia. lia.
    + set (k := ndigits_fuel f (n / 10)) in *.
      replace (1 + k - 1) with (k - 1 + 1) by lia.
      replace (1 + k) with (k + 1) by lia.
      rewrite !pow10_add by lia. change (10 ^ 1) with 10.
      pose proof (Z.mul_div_le n 10 ltac:(lia)).
      pose proof (Z.mul_succ_div_gt n 10 ltac:(lia)). lia.
Qed.

Lemma ndigits_spec n :
  0 < n → 10 ^ (ndigits n - 1) ≤ n < 10 ^ ndigits n ∧ 1 ≤ ndigits n.
Proof.
  intros Hn. apply ndigits_fuel_spec; [done|].
  pose proof (Z.log2_spec n Hn). pose proof (Z.log2_nonneg n).
  rewrite Nat2Z.inj_succ, Z2Nat.id by lia. lia.
Qed.

Lemma ndigits_le n k : 0 < n → 0 ≤ k → n < 10 ^ k → ndigits n ≤ k.
Proof.
  intros Hn Hk Hlt. destruct (ndigits_spec n Hn) as [[Hl _] H1].
  pose proof (pow10_lt_inv (ndigits n - 1) k). lia.
Qed.

Lemma ndigits_ge n k : 0 < n → 0 ≤ k → 10 ^ k ≤ n → k < ndigits n.
Proof.
  intros Hn Hk Hle. destruct (ndigits_spec n Hn) as [[_ Hu] H1].
  pose proof (pow10_lt_inv k (ndigits n)). lia.
Qed.

(** ** Rounding *)

Lemma round_half_even_spec c s :
  0 ≤ c → 0 ≤ s →
  c / 10 ^ s ≤ round_half_even c s ≤ c / 10 ^ s + 1 ∧
  2 * Z.abs (round_half_even c s * 10 ^ s - c) ≤ 10 ^ s ∧
  (c mod 10 ^ s = 0 → round_half_even c s = c / 10 ^ s).
Proof.
  intros Hc Hs. unfold round_half_even. pose proof (pow10_pos s Hs) as Hp.
  pose proof (Z.mod_pos_bound c (10 ^ s) Hp).
  pose proof (Z.div_mod c (10 ^ s) ltac:(lia)).
  set (q := c / 10 ^ s) in *. set (r := c mod 10 ^ s) in *. clearbody q r.
  case_decide as Hd; split_and!; nia.
Qed.

(** [dec_fix] on a positive coefficient, as a rounding of [c] by [s] digits. *)
Lemma dec_fix_pos_spec c e :
  0 < c → ∃ c' s, dec_fix (Dec c e) = Dec c' (e + s) ∧ 0 ≤ s ∧
    0 < c' < 10 ^ prec ∧ 2 * Z.abs (c' * 10 ^ s - c) ≤ 10 ^ s ∧
    (∀ k, 0 ≤ k → 10 ^ k ≤ c → 10 ^ k ≤ c' * 10 ^ s) ∧
    (∀ k, 0 ≤ k → c ≤ 10 ^ k → c' * 10 ^ s ≤ 10 ^ k).
Proof.
  intros Hc. unfold dec_fix. cbn [coef dexp]. rewrite Z.abs_eq, Z.sgn_pos by lia.
  destruct (ndigits_spec c Hc) as [[Hl Hu] H1].
  set (n := ndigits c) in *. clearbody n.
  case_decide as Hn.
  { exists c, 0. rewrite Z.add_0_r. change (10 ^ 0) with 1.
    pose proof (pow10_le n prec Hn). split_and!; try done; intros; lia. }
  unfold prec in *. set (s := n - 28) in *. assert (Hs : 0 < s) by lia.
  destruct (round_half_even_spec c s ltac:(lia) ltac:(lia)) as (Hq & Herr & Hex).
  pose proof (pow10_pos s ltac:(lia)) as Hp.
  assert (Hql : 10 ^ 27 ≤ c / 10 ^ s).
  { apply Z.div_le_lower_bound; [lia|]. rewrite <- pow10_add by lia.
    replace (s + 27) with (n - 1) by lia. done. }
  assert (Hqu : c / 10 ^ s < 10 ^ 28).
  { apply Z.div_lt_upper_bound; [lia|]. rewrite <- pow10_add by lia.
    replace (s + 28) with n by lia. done. }
  set (q := round_half_even c s) in *.
  assert (Hge : ∀ k, 0 ≤ k → 10 ^ k ≤ c → 10 ^ k ≤ q * 10 ^ s).
  { intros k Hk Hkc. assert (k < n) by (apply pow10_lt_inv; lia).
    transitivity (10 ^ 27 * 10 ^ s).
    - rewrite <- pow10_add by lia. apply pow10_le. lia.
    - apply Z.mul_le_mono_nonneg_r; lia. }
  assert (Hle : ∀ k, 0 ≤ k → c ≤ 10 ^ k → q * 10 ^ s ≤ 10 ^ k).
  { intros k Hk Hkc. destruct (decide (c = 10 ^ k)) as [Hck|Hne].
    - assert (s ≤ k). { assert (n - 1 ≤ k); [|lia]. apply Z.lt_succ_r.
        apply pow10_lt_inv; [lia|]. rewrite Z.pow_succ_r by lia. lia. }
      assert (Hm : 10 ^ k = 10 ^ (k - s) * 10 ^ s) by (rewrite <- pow10_add by lia; f_equal; lia).
      rewrite Hex by (rewrite Hck, Hm; apply Z.mod_mul; lia).
      rewrite Hck, Hm, Z.div_mul by lia. lia.
    - assert (n ≤ k). { assert (n - 1 < k); [|lia]. apply pow10_lt_inv; lia. }
      transitivity (10 ^ 28 * 10 ^ s).
      + apply Z.mul_le_mono_nonneg_r; lia.
      + rewrite <- pow10_add by lia. apply pow10_le. lia. }
  case_decide as Hq28.
  - exists (10 ^ (28 - 1)), (s + 1). rewrite Z.mul_1_l, Z.add_assoc.
    assert (10 ^ (28 - 1) * 10 ^ (s + 1) = q * 10 ^ s) as Heq.
    { rewrite Hq28, <- !pow10_add by lia. f_equal; lia. }
    rewrite Heq. rewrite (pow10_add s 1) by lia. change (10 ^ 1) with 10.
    split_and!; try done; lia.
  - exists q, s. rewrite Z.mul_1_l. split_and!; try done; lia.
Qed.

Lemma dec_fix_opp c e :
  dec_fix (Dec (- c) e) = let d := dec_fix (Dec c e) in Dec (- coef d) (dexp d).
Proof.
  unfold dec_fix; cbn [coef dexp]. rewrite Z.abs_opp, Z.sgn_opp.
  repeat case_decide; cbn [coef dexp]; try done; f_equal; lia.
Qed.

Lemma dec_fix_zero e : dec_fix (Dec 0 e) = Dec 0 e.
Proof. done. Qed.

Lemma dec_fix_sgn c e : Z.sgn (coef (dec_fix (Dec c e))) = Z.sgn c.
Proof.
  destruct (Z.lt_trichotomy c 0) as [Hc|[->|Hc]].
  - replace c with (- (- c)) by lia. rewrite dec_fix_opp. cbn [coef].
    destruct (dec_fix_pos_spec (- c) e ltac:(lia)) as (c' & s & -> & _ & ? & _).
    cbn [coef]. rewrite !Z.sgn_neg by lia. done.
  - done.
  - destruct (dec_fix_pos_spec c e Hc) as (c' & s & -> & _ & ? & _).
    cbn [coef]. rewrite !Z.sgn_pos by lia. done.
Qed.

(** ** Signs of results *)

Lemma dmul_sgn a b : Z.sgn (coef (dmul a b)) = Z.sgn (coef a) * Z.sgn (coef b).
Proof. unfold dmul. by rewrite dec_fix_sgn, Z.sgn_mul. Qed.

Lemma dmul_pos a b : is_pos a → is_pos b → is_pos (dmul a b).
Proof.
  unfold is_pos. intros. apply Z.sgn_pos_iff. rewrite dmul_sgn, !Z.sgn_pos; lia.
Qed.

Lemma dsub_sgn a b :
  Z.sgn (coef (dsub a b)) = Z.sgn (dscale (dmin_exp a b) a - dscale (dmin_exp a b) b).
Proof. unfold dsub. by rewrite dec_fix_sgn. Qed.

(** ** Comparison at a common exponent *)

Lemma dscale_shift j k d :
  j ≤ k → k ≤ dexp d → dscale j d = dscale k d * 10 ^ (k - j).
Proof.
  intros. unfold dscale. rewrite <- Z.mul_assoc, <- pow10_add by lia.
  do 2 f_equal. lia.
Qed.

Lemma dmin_exp_l a b : dmin_exp a b ≤ dexp a.
Proof. unfold dmin_exp. lia. Qed.
Lemma dmin_exp_r a b : dmin_exp a b ≤ dexp b.
Proof. unfold dmin_exp. lia. Qed.
#[export] Hint Resolve dmin_exp_l dmin_exp_r : qp.

Lemma dle_at k a b :
  k ≤ dexp a → k ≤ dexp b → dle a b ↔ dscale k a ≤ dscale k b.
Proof.
  intros. unfold dle. assert (k ≤ dmin_exp a b) by (unfold dmin_exp; lia).
  rewrite (dscale_shift k (dmin_exp a b) a), (dscale_shift k (dmin_exp a b) b)
    by (done || apply dmin_exp_l || apply dmin_exp_r).
  apply Z.mul_le_mono_pos_r, pow10_pos. lia.
Qed.

Lemma dlt_at k a b :
  k ≤ dexp a → k ≤ dexp b → dlt a b ↔ dscale k a < dscale k b.
Proof.
  intros. unfold dlt. assert (k ≤ dmin_exp a b) by (unfold dmin_exp; lia).
  rewrite (dscale_shift k (dmin_exp a b) a), (dscale_shift k (dmin_exp a b) b)
    by (done || apply dmin_exp_l || apply dmin_exp_r).
  apply Z.mul_lt_mono_pos_r, pow10_pos. lia.
Qed.

Lemma dlt_not_le a b : dlt a b ↔ ¬ dle b a.
Proof. unfold dlt, dle, dmin_exp. rewrite (Z.min_comm (dexp b)). lia. Qed.

Lemma dle_refl a : dle a a.
Proof. unfold dle. lia. Qed.

Lemma dle_trans a b c : dle a b → dle b c → dle a c.
Proof.
  set (k := Z.min (dexp a) (Z.min (dexp b) (dexp c))).
  rewrite !(dle_at k) by lia. lia.
Qed.

Lemma dle_total a b : dle a b ∨ dle b a.
Proof. unfold dle, dmin_exp. rewrite (Z.min_comm (dexp b)). lia. Qed.

#[export] Instance dle_preorder : PreOrder dle.
Proof. split; [exact dle_refl | exact dle_trans]. Qed.

Lemma dlt_le a b : dlt a b → dle a b.
Proof. unfold dlt, dle. lia. Qed.

Lemma dmax_le a b : dle a (dmax a b) ∧ dle b (dmax a b).
Proof.
  unfold dmax. case_decide as H; [by auto using dlt_le, dle_refl|].
  split; [apply dle_refl|]. rewrite dlt_not_le in H. by destruct (decide (dle b a)).
Qed.

Lemma dmin_le a b : dle (dmin a b) a ∧ dle (dmin a b) b.
Proof.
  unfold dmin. case_decide as H; [by auto using dlt_le, dle_refl|].
  split; [apply dle_refl|]. rewrite dlt_not_le in H. by destruct (decide (dle a b)).
Qed.

Lemma is_pos_lt d : is_pos d ↔ dlt dzero d.
Proof.
  unfold is_pos, dlt, dscale. cbn [dzero coef dexp]. split; intros H.
  - apply Z.mul_pos_pos; [done|]. apply pow10_pos. pose proof (dmin_exp_r dzero d). lia.
  - destruct (decide (0 < coef d)); [done|].
    pose proof (pow10_pos (dexp d - dmin_exp dzero d)
      ltac:(pose proof (dmin_exp_r dzero d); lia)). nia.
Qed.

Lemma dle_pos a b : is_pos a → dle a b → is_pos b.
Proof.
  rewrite !is_pos_lt, !dlt_not_le. intros H1 H2 H3. apply H1. by transitivity b.
Qed.

(** ** Division *)

Lemma dec_fix_ge_one c e :
  0 < c → dle (dint 1) (Dec c e) → dle (dint 1) (dec_fix (Dec c e)).
Proof.
  intros Hc H. destruct (dec_fix_pos_spec c e Hc) as (c' & s & -> & Hs & Hc' & _ & Hge & _).
  destruct (decide (e ≤ 0)) as [He|He].
  - rewrite (dle_at e) in H |- * by (cbn; lia). unfold dscale in *; cbn [coef dexp dint] in *.
    replace (e - e) with 0 in H by lia. replace (e + s - e) with s by lia.
    replace (0 - e) with (- e) in * by lia. rewrite Z.mul_1_l in *.
    apply Hge; [lia|]. rewrite Z.mul_1_r in H. lia.
  - rewrite (dle_at 0) by (cbn; lia). unfold dscale; cbn [coef dexp dint].
    pose proof (pow10_pos (e + s - 0) ltac:(lia)). change (1 * 10 ^ (0 - 0)) with 1. nia.
Qed.

Lemma dec_fix_le_one c e :
  0 < c → dle (Dec c e) (dint 1) → dle (dec_fix (Dec c e)) (dint 1).
Proof.
  intros Hc H. destruct (dec_fix_pos_spec c e Hc) as (c' & s & -> & Hs & Hc' & _ & _ & Hle).
  destruct (decide (e ≤ 0)) as [He|He].
  - rewrite (dle_at e) in H |- * by (cbn; lia). unfold dscale in *; cbn [coef dexp dint] in *.
    replace (e - e) with 0 in H by lia. replace (e + s - e) with s by lia.
    replace (0 - e) with (- e) in * by lia. rewrite Z.mul_1_l in *.
    apply Hle; [lia|]. rewrite Z.mul_1_r in H. lia.
  - exfalso. rewrite (dle_at 0) in H by (cbn; lia). unfold dscale in H; cbn [coef dexp dint] in H.
    change (1 * 10 ^ (0 - 0)) with 1 in H.
    pose proof (pow10_le 1 (e - 0) ltac:(lia)). change (10 ^ 1) with 10 in *. nia.
Qed.

Lemma strip_zeros_spec f ideal c e :
  ∃ c' n, strip_zeros f ideal c e = Dec c' (e + n) ∧ 0 ≤ n ∧ c = c' * 10 ^ n.
Proof.
  revert c e. induction f as [|f IH]; intros c e; cbn [strip_zeros].
  { exists c, 0. rewrite Z.add_0_r. change (10 ^ 0) with 1. split_and!; [done|lia|lia]. }
  case_decide as Hd.
  - destruct (IH (c / 10) (e + 1)) as (c' & n & -> & Hn & Hc).
    exists c', (n + 1). rewrite pow10_add by lia. change (10 ^ 1) with 10.
    pose proof (Z.div_mod c 10 ltac:(lia)).
    split_and!; [f_equal; lia|lia|]. rewrite Z.mul_assoc, <- Hc. lia.
  - exists c, 0. rewrite Z.add_0_r. change (10 ^ 0) with 1. split_and!; [done|lia|lia].
Qed.

(** The unrounded quotient of two positive decimals: a coefficient that is the
    exact quotient or its truncation with a sticky digit. *)
Lemma ddiv_raw a b :
  is_pos a → is_pos b →
  ∃ num den q q' e n, 0 < num ∧ 0 < den ∧ den ≤ num ∧ 0 < q ∧ 0 < q' ∧ 0 ≤ n ∧
    ddiv a b = Ok (dec_fix (Dec q' (e + n))) ∧ q = q' * 10 ^ n ∧
    num / den ≤ q ∧ (q - 1) * den < num ∧
    (∀ m, num ≤ m * den → q ≤ m) ∧
    (∀ m, m * den ≤ num → m ≤ q) ∧
    ((num = coef a * 10 ^ (dexp a - dexp b - e) ∧ den = coef b ∧ 0 ≤ dexp a - dexp b - e) ∨
     (num = coef a ∧ den = coef b * 10 ^ (e - (dexp a - dexp b)) ∧ 0 ≤ e - (dexp a - dexp b))).
Proof.
  unfold is_pos. intros Ha Hb. unfold ddiv.
  rewrite decide_False by (unfold is_zero; lia). rewrite decide_False by (unfold is_zero; lia).
  rewrite !Z.abs_eq, !Z.sgn_pos by lia.
  destruct (ndigits_spec _ Ha) as [[Hal Hau] Ha1].
  destruct (ndigits_spec _ Hb) as [[Hbl Hbu] Hb1].
  set (na := ndigits (coef a)) in *. set (nb := ndigits (coef b)) in *. clearbody na nb.
  unfold prec. set (shift := nb - na + 28 + 1). cbv zeta.
  set (e := dexp a - dexp b - shift).
  set (num := if decide (0 ≤ shift) then _ else _).
  set (den := if decide (0 ≤ shift) then _ else _).
  assert (0 < num ∧ 0 < den ∧ den ≤ num) as (Hnum & Hden & Hnd).
  { unfold num, den. case_decide as Hs.
    - pose proof (pow10_pos shift Hs). split_and!; [nia|done|].
      assert (10 ^ nb ≤ 10 ^ (na - 1) * 10 ^ shift).
      { rewrite <- pow10_add by lia. apply pow10_le. lia. } nia.
    - pose proof (pow10_pos (- shift) ltac:(lia)). split_and!; [lia|nia|].
      assert (10 ^ nb * 10 ^ (- shift) ≤ 10 ^ (na - 1)).
      { rewrite <- pow10_add by lia. apply pow10_le. lia. } nia. }
  assert (Hcase : (num = coef a * 10 ^ (dexp a - dexp b - e) ∧ den = coef b ∧ 0 ≤ dexp a - dexp b - e) ∨
     (num = coef a ∧ den = coef b * 10 ^ (e - (dexp a - dexp b)) ∧ 0 ≤ e - (dexp a - dexp b))).
  { unfold num, den, e. case_decide; [left|right]; split_and!; try done; try lia;
      do 2 f_equal; lia. }
  clearbody num den.
  pose proof (Z.div_mod num den ltac:(lia)) as Hdm.
  pose proof (Z.mod_pos_bound num den Hden) as Hmod.
  assert (1 ≤ num / den) as Hq1 by (apply Z.div_le_lower_bound; lia).
  case_decide as Hr.
  - destruct (strip_zeros_spec (Z.to_nat (shift + 1)) (dexp a - dexp b) (num / den) e)
      as (q' & n & -> & Hn & Hq). cbn [coef dexp]. rewrite !Z.mul_1_l.
    pose proof (pow10_pos n Hn).
    exists num, den, (num / den), q', e, n.
    split_and!; try done; try lia; intros; nia.
  - case_decide as H5; cbn [coef dexp]; rewrite !Z.mul_1_l.
    + exists num, den, (num / den + 1), (num / den + 1), e, 0.
      rewrite Z.add_0_r. change (10 ^ 0) with 1.
      split_and!; try done; try lia; intros; nia.
    + exists num, den, (num / den), (num / den), e, 0.
      rewrite Z.add_0_r. change (10 ^ 0) with 1.
      split_and!; try done; try lia; intros; nia.
Qed.

Lemma ddiv_pos a b : is_pos a → is_pos b → ∃ d, ddiv a b = Ok d ∧ is_pos d.
Proof.
  intros Ha Hb. destruct (ddiv_raw a b Ha Hb) as (num & den & q & q' & e & n & H).
  destruct H as (? & ? & ? & ? & ? & ? & -> & _). eexists; split; [done|].
  apply Z.sgn_pos_iff. rewrite dec_fix_sgn, Z.sgn_pos; lia.
Qed.

Lemma dle_Dec_shift c c' e n : 0 ≤ n → c = c' * 10 ^ n →
  (∀ d, dle d (Dec c e) ↔ dle d (Dec c' (e + n))) ∧
  (∀ d, dle (Dec c e) d ↔ dle (Dec c' (e + n)) d).
Proof.
  intros Hn ->. split; intros d; set (k := Z.min e (dexp d));
    rewrite !(dle_at k) by (cbn; lia); unfold dscale; cbn [coef dexp];
    rewrite <- Z.mul_assoc, <- pow10_add by lia;
    replace (e + n - k) with (n + (e - k)) by lia; done.
Qed.

(** A quotient is at least one exactly when... the dividend dominates. *)
Lemma ddiv_ge_one a b d :
  is_pos a → is_pos b → dle b a → ddiv a b = Ok d → dle (dint 1) d.
Proof.
  intros Ha Hb Hle Hd.
  destruct (ddiv_raw a b Ha Hb) as (num & den & q & q' & e & n & H).
  destruct H as (? & ? & ? & ? & ? & Hn & Heq & Hq & _ & _ & _ & Hge & Hcase).
  rewrite Heq in Hd. injection Hd as <-. apply dec_fix_ge_one; [done|].
  apply (dle_Dec_shift q q' e n Hn Hq).
  destruct (decide (0 ≤ e)) as [He|He].
  { rewrite (dle_at 0) by (cbn; lia). unfold dscale; cbn [coef dexp dint].
    pose proof (pow10_pos (e - 0) ltac:(lia)). change (1 * 10 ^ (0 - 0)) with 1. nia. }
  rewrite (dle_at e) by (cbn; lia). unfold dscale; cbn [coef dexp dint].
  rewrite Z.sub_diag, Z.mul_1_l, Z.mul_1_r. replace (0 - e) with (- e) by lia.
  apply Hge. unfold is_pos in *.
  set (k := dmin_exp a b) in *.
  rewrite (dle_at k) in Hle by (unfold k, dmin_exp; lia). unfold dscale in Hle.
  assert (k ≤ dexp a ∧ k ≤ dexp b ∧ (k = dexp a ∨ k = dexp b)) as (Hka & Hkb & Hk)
    by (unfold k, dmin_exp; lia). clearbody k.
  destruct Hcase as [(-> & -> & Hs)|(-> & -> & Hs)].
  - destruct Hk as [Hk|Hk]; subst k.
    + rewrite Z.sub_diag in Hle. change (10 ^ 0) with 1 in Hle.
      pose proof (pow10_pos (dexp a - dexp b - e) Hs).
      replace (- e) with ((dexp b - dexp a) + (dexp a - dexp b - e)) by lia.
      rewrite pow10_add by lia. nia.
    + rewrite Z.sub_diag in Hle. change (10 ^ 0) with 1 in Hle.
      pose proof (pow10_pos (- e) ltac:(lia)).
      replace (dexp a - dexp b - e) with ((dexp a - dexp b) + - e) by lia.
      rewrite pow10_add by lia. nia.
  - replace (10 ^ (- e) * (coef b * 10 ^ (e - (dexp a - dexp b)))) with
      (coef b * (10 ^ ((- e) + (e - (dexp a - dexp b)))))
      by (rewrite (pow10_add (- e)) by lia; ring).
    assert (k = dexp a) as -> by lia. rewrite Z.sub_diag in Hle.
    change (10 ^ 0) with 1 in Hle.
    replace ((- e) + (e - (dexp a - dexp b))) with (dexp b - dexp a) by lia. lia.
Qed.

Lemma ddiv_le_one a b d :
  is_pos a → is_pos b → dle a b → ddiv a b = Ok d → dle d (dint 1).
Proof.
  intros Ha Hb Hle Hd.
  destruct (ddiv_raw a b Ha Hb) as (num & den & q & q' & e & n & H).
  destruct H as (? & ? & ? & ? & ? & Hn & Heq & Hq & _ & Hlt & Hup & _ & Hcase).
  rewrite Heq in Hd. injection Hd as <-. apply dec_fix_le_one; [done|].
  apply (dle_Dec_shift q q' e n Hn Hq). unfold is_pos in *.
  set (k := dmin_exp a b) in *.
  rewrite (dle_at k) in Hle by (unfold k, dmin_exp; lia). unfold dscale in Hle.
  assert (k ≤ dexp a ∧ k ≤ dexp b ∧ (k = dexp a ∨ k = dexp b)) as (Hka & Hkb & Hk)
    by (unfold k, dmin_exp; lia). clearbody k.
  assert (num ≤ den * 10 ^ (Z.max 0 (- e)) ∧ (0 < e → num * 10 ^ e ≤ den)) as [Hnd Hpos].
  { destruct Hcase as [(-> & -> & Hs)|(-> & -> & Hs)]; destruct Hk as [Hk|Hk]; subst k;
      rewrite Z.sub_diag in Hle; change (10 ^ 0) with 1 in Hle.
    - pose proof (pow10_pos (dexp a - dexp b - e) Hs). split.
      + rewrite Z.max_r by lia.
        replace (- e) with ((dexp b - dexp a) + (dexp a - dexp b - e)) by lia.
        rewrite pow10_add by lia. nia.
      + intros. exfalso. lia.
    - split.
      + pose proof (pow10_pos (Z.max 0 (- e)) ltac:(lia)).
        assert (10 ^ (dexp a - dexp b - e) ≤ 10 ^ (dexp a - dexp b + Z.max 0 (- e)))
          by (apply pow10_le; lia).
        rewrite pow10_add in * by lia. nia.
      + intros. rewrite <- Z.mul_assoc, <- pow10_add by lia.
        replace (dexp a - dexp b - e + e) with (dexp a - dexp b) by lia. lia.
    - split.
      + rewrite <- Z.mul_assoc, <- pow10_add by lia.
        assert (10 ^ (dexp b - dexp a) ≤ 10 ^ (e - (dexp a - dexp b) + Z.max 0 (- e)))
          by (apply pow10_le; lia). nia.
      + intros. pose proof (pow10_pos e ltac:(lia)).
        replace (e - (dexp a - dexp b)) with ((dexp b - dexp a) + e) by lia.
        rewrite pow10_add by lia. nia.
    - split.
      + rewrite <- Z.mul_assoc, <- pow10_add by lia.
        pose proof (pow10_pos (dexp a - dexp b) ltac:(lia)).
        assert (1 ≤ 10 ^ (e - (dexp a - dexp b) + Z.max 0 (- e))) by (apply (pow10_le 0); lia).
        nia.
      + intros. pose proof (pow10_pos (e - (dexp a - dexp b)) Hs).
        replace e with ((dexp a - dexp b) + (e - (dexp a - dexp b))) at 1 by lia.
        rewrite pow10_add by lia. nia. }
  destruct (decide (e ≤ 0)) as [He|He].
  - rewrite Z.max_r in Hnd by lia. rewrite (dle_at e) by (cbn; lia).
    unfold dscale; cbn [coef dexp dint].
    rewrite Z.sub_diag, Z.mul_1_l, Z.mul_1_r. replace (0 - e) with (- e) by lia.
    apply Hup. lia.
  - exfalso. specialize (Hpos ltac:(lia)).
    assert (10 ^ 1 ≤ 10 ^ e) by (apply pow10_le; lia). change (10 ^ 1) with 10 in *.
    nia.
Qed.
