(* ===== verification/PyTime.v ===== *)
(** * Instants, durations and dates

    A timezone-aware [datetime] is compared by its UTC instant; the model keeps
    that instant as an integer number of microseconds since 1970-01-01T00:00Z,
    which is the resolution of Python's [datetime].  A [timedelta] is an integer
    number of microseconds and a [date] a day number of the same epoch.  A wall
    clock reading (an aware value seen in its own timezone) uses the same
    encoding of its naive fields. *)

From S2P Require Import Prelude.

Local Open Scope Z_scope.

Inductive datetime :=
| Aware (utc : Z)
| Naive (wall : Z).

#[export] Instance datetime_eq_dec : EqDecision datetime.
Proof. solve_decision. Defined.

Definition second_us : Z := 1000000.
Definition minute_us : Z := 60000000.
Definition hour_us : Z := 3600000000.
Definition day_us : Z := 86400000000.

Definition seconds (n : Z) : Z := n * second_us.
Definition minutes (n : Z) : Z := n * minute_us.
Definition hours (n : Z) : Z := n * hour_us.
Definition days (n : Z) : Z := n * day_us.

(** Fields of an instant. *)
Definition day_of (t : Z) : Z := t / day_us.
Definition hour_of (t : Z) : Z := (t / hour_us) mod 24.
Definition minute_of (t : Z) : Z := (t / minute_us) mod 60.

(** [date.weekday()]: Monday is 0; 1970-01-01 was a Thursday. *)
Definition weekday (day : Z) : Z := (day + 3) mod 7.

(** [t.replace(second=0, microsecond=0)] *)
Definition replace_second0 (t : Z) : Z := t - t mod minute_us.

(** [t.replace(minute=m, second=0, microsecond=0)] *)
Definition replace_minute (m t : Z) : Z := t - t mod hour_us + m * minute_us.

(** [datetime.combine(day, time(h, m))] *)
Definition combine (day h m : Z) : Z := day * day_us + h * hour_us + m * minute_us.

Ltac unfold_time :=
  unfold seconds, minutes, hours, days, replace_second0, replace_minute, combine,
    day_of, hour_of, minute_of, day_us, hour_us, minute_us, second_us in *.

(** Linear arithmetic with division and remainder by constants. *)
Ltac lia_time := unfold_time; Z.to_euclidean_division_equations; lia.

(** ** Lemmas *)

Lemma weekday_range d : 0 ≤ weekday d < 7.
Proof. apply Z.mod_pos_bound. lia. Qed.

Lemma replace_second0_le t : replace_second0 t ≤ t < replace_second0 t + minute_us.
Proof.
  unfold replace_second0.
  pose proof (Z.mod_pos_bound t minute_us ltac:(done)). lia.
Qed.

Lemma replace_second0_idem t : replace_second0 (replace_second0 t) = replace_second0 t.
Proof. lia_time. Qed.

(** Flooring to a minute is blind to the seconds of a cutoff. *)
Lemma le_replace_second0 t c :
  t mod minute_us = 0 → t ≤ c ↔ t ≤ replace_second0 c.
Proof. intros. lia_time. Qed.

Lemma replace_second0_sub t d :
  d mod minute_us = 0 → replace_second0 (t - d) = replace_second0 t - d.
Proof. intros. lia_time. Qed.

(** Flooring the minute field to a multiple of [m] that divides sixty is
    flooring the instant. *)
Lemma replace_minute_floor5 t :
  replace_minute (minute_of t - minute_of t mod 5) t = t - t mod (5 * minute_us).
Proof. lia_time. Qed.

Lemma replace_minute_floor1 t :
  replace_minute (minute_of t - minute_of t mod 1) t = t - t mod minute_us.
Proof. lia_time. Qed.
