(* ===== verification/Graph.v ===== *)
(** * Depth-first traversals over symbol graphs

    The recursion schemes three components share: collecting everything
    reachable from a symbol, looking for a path to a target, and the
    visiting/visited cycle check.  Each is the recursive closure of the source
    with the recursion depth bounded by fuel; [fuel_for] is a bound that is
    always enough. *)

From S2P Require Import Prelude.

Local Open Scope nat_scope.

(** [K] contains every node that has a successor; a traversal nests at most
    once per node of [K], plus one call for a leaf. *)
Definition fuel_for (K : gset string) : nat := S (size K).

Section graph.
Context (succ : string → list string).

(** [def walk(x): if x in visited: return; visited.add(x); for y in succ(x): walk(y)] *)
Fixpoint walk (fuel : nat) (visited : gset string) (x : string) : gset string :=
  match fuel with
  | O => visited
  | S f =>
    if decide (x ∈ visited) then visited
    else foldl (walk f) ({[x]} ∪ visited) (succ x)
  end.

(** [any(f(y) for y in l)], threading the visited set and stopping at a hit. *)
Fixpoint any_hit (f : string → gset string → bool * gset string) (l : list string)
    (visited : gset string) : bool * gset string :=
  match l with
  | [] => (false, visited)
  | y :: l' =>
    let '(hit, visited') := f y visited in
    if hit then (true, visited') else any_hit f l' visited'
  end.

(** The [reaches_target] closure: is there a path from [candidate] to [target]? *)
Fixpoint reaches (fuel : nat) (target candidate : string) (visited : gset string)
    : bool * gset string :=
  match fuel with
  | O => (false, visited)
  | S f =>
    if decide (candidate = target) then (true, visited)
    else if decide (candidate ∈ visited) then (false, visited)
    else any_hit (reaches f target) (succ candidate) ({[candidate]} ∪ visited)
  end.

(** ** Reachability *)

Definition edge (x y : string) : Prop := y ∈ succ x.

(** Every node outside [K] is a leaf. *)
Definition covers (K : gset string) : Prop := ∀ x, x ∉ K → succ x = [].

(** New nodes of a traversal have all their successors in it. *)
Definition closed_from (v v' : gset string) : Prop :=
  v ⊆ v' ∧ ∀ x y, x ∈ v' → x ∉ v → y ∈ succ x → y ∈ v'.

Lemma closed_from_refl v : closed_from v v.
Proof. split; [done|]. by intros x y ? ?. Qed.

Lemma closed_from_trans v1 v2 v3 :
  closed_from v1 v2 → closed_from v2 v3 → closed_from v1 v3.
Proof.
  intros [H12 Hc12] [H23 Hc23]. split; [set_solver|].
  intros x y Hx Hn Hy. destruct (decide (x ∈ v2)); [|eauto].
  apply H23. eauto.
Qed.

(** Adding a node whose successors have been collected. *)
Lemma closed_from_node x v v' :
  closed_from ({[x]} ∪ v) v' → (∀ y, y ∈ succ x → y ∈ v') → closed_from v v'.
Proof.
  intros [Hs Hc] Hx. split; [set_solver|]. intros z y Hz Hn Hy.
  destruct (decide (z = x)) as [->|]; [by apply Hx|].
  eapply Hc; [done|set_solver|done].
Qed.

Lemma size_step (K v : gset string) x :
  x ∈ K → x ∉ v → size (K ∖ ({[x]} ∪ v)) < size (K ∖ v).
Proof. intros. apply subset_size. set_solver. Qed.

Lemma size_mono (K v v' : gset string) : v ⊆ v' → size (K ∖ v') ≤ size (K ∖ v).
Proof. intros. apply subseteq_size. set_solver. Qed.

Lemma walk_spec K fuel v x :
  covers K → size (K ∖ v) < fuel →
  closed_from v (walk fuel v x) ∧ x ∈ walk fuel v x.
Proof.
  intros HK. revert v x. induction fuel as [|f IH]; intros v x Hf; [lia|]. simpl.
  case_decide as Hx; [by split; [apply closed_from_refl|]|].
  assert (Hfold : ∀ l v0, l = [] ∨ size (K ∖ v0) < f →
    closed_from v0 (foldl (walk f) v0 l) ∧ ∀ y, y ∈ l → y ∈ foldl (walk f) v0 l).
  { induction l as [|y l IHl]; intros v0 Hv0; simpl.
    { split; [apply closed_from_refl|]. by intros y ?%elem_of_nil. }
    destruct Hv0 as [|Hv0]; [done|]. destruct (IH v0 y Hv0) as [Hc Hy].
    destruct (IHl (walk f v0 y)) as [Hc' Hl].
    { right. pose proof (size_mono K _ _ (proj1 Hc)). lia. }
    split; [by eapply closed_from_trans|].
    intros z [->|Hz]%elem_of_cons; [by apply (proj1 Hc')|auto]. }
  destruct (Hfold (succ x) ({[x]} ∪ v)) as [Hc Hsucc].
  { destruct (decide (x ∈ K)) as [HxK|HxK]; [|left; by apply HK].
    right. pose proof (size_step K v x HxK Hx). lia. }
  split; [by eapply closed_from_node|]. apply (proj1 Hc). set_solver.
Qed.

(** A set closed under successors contains everything reachable from it. *)
Lemma closed_rtc (v : gset string) x y :
  (∀ a b, a ∈ v → b ∈ succ a → b ∈ v) → x ∈ v → rtc edge x y → y ∈ v.
Proof. intros Hc Hx H. induction H; eauto. Qed.

Lemma walk_rtc K fuel x y :
  covers K → size K < fuel → rtc edge x y → y ∈ walk fuel ∅ x.
Proof.
  intros HK Hf. destruct (walk_spec K fuel ∅ x HK) as [[_ Hc] Hx].
  { by rewrite difference_empty_L. }
  apply closed_rtc; [|done]. intros a b Ha Hb. eapply Hc; [done|set_solver|done].
Qed.

Lemma walk_sound fuel v x y : y ∈ walk fuel v x → y ∈ v ∨ rtc edge x y.
Proof.
  revert v x. induction fuel as [|f IH]; intros v x; simpl; [by left|].
  case_decide as Hx; [by left|].
  assert (Hfold : ∀ l v0, y ∈ foldl (walk f) v0 l → y ∈ v0 ∨ ∃ z, z ∈ l ∧ rtc edge z y).
  { induction l as [|z l IHl]; intros v0; simpl; [by left|].
    intros [Hy|(w & ? & ?)]%IHl; [|right; exists w; split; [by right|done]].
    apply IH in Hy as [|Hy]; [by left|]. right. exists z. split; [by left|done]. }
  intros [Hy|(z & Hz & Hzy)]%Hfold.
  - apply elem_of_union in Hy as [->%elem_of_singleton|]; [by right|by left].
  - right. by eapply rtc_l.
Qed.

Lemma reaches_false K fuel target c v v' :
  covers K → size (K ∖ v) < fuel → target ∉ v →
  reaches fuel target c v = (false, v') →
  closed_from v v' ∧ c ∈ v' ∧ target ∉ v'.
Proof.
  intros HK. revert c v v'. induction fuel as [|f IH]; intros c v v' Hf Ht; [lia|]. simpl.
  case_decide as Hct; [done|]. case_decide as Hcv.
  { intros [= <-]. split_and!; [apply closed_from_refl|done..]. }
  assert (Hany : ∀ l v0 v1, l = [] ∨ size (K ∖ v0) < f → target ∉ v0 →
    any_hit (reaches f target) l v0 = (false, v1) →
    closed_from v0 v1 ∧ target ∉ v1 ∧ ∀ y, y ∈ l → y ∈ v1).
  { induction l as [|y l IHl]; intros v0 v1 Hv0 Ht0; simpl.
    { intros [= <-]. split_and!; [apply closed_from_refl|done|]. by intros y ?%elem_of_nil. }
    destruct Hv0 as [|Hv0]; [done|].
    destruct (reaches f target y v0) as [hit v2] eqn:Hr. destruct hit; [done|].
    intros Hl. destruct (IH y v0 v2 Hv0 Ht0 Hr) as (Hc & Hy & Ht2).
    destruct (IHl v2 v1) as (Hc' & Ht1 & Hin); [|done..|].
    { right. pose proof (size_mono K _ _ (proj1 Hc)). lia. }
    split_and!; [by eapply closed_from_trans|done|].
    intros z [->|Hz]%elem_of_cons; [by apply (proj1 Hc')|auto]. }
  intros Hr. destruct (Hany (succ c) ({[c]} ∪ v) v') as (Hc & Ht' & Hsucc); [|set_solver|done|].
  { destruct (decide (c ∈ K)) as [HcK|HcK]; [|left; by apply HK].
    right. pose proof (size_step K v c HcK Hcv). lia. }
  split_and!; [by eapply closed_from_node| |done]. apply (proj1 Hc). set_solver.
Qed.

Lemma reaches_true fuel target c v v' :
  reaches fuel target c v = (true, v') → rtc edge c target.
Proof.
  revert c v v'. induction fuel as [|f IH]; intros c v v'; [done|]. simpl.
  case_decide as Hct; [by subst|]. case_decide; [done|].
  assert (Hany : ∀ l v0 v1, any_hit (reaches f target) l v0 = (true, v1) →
    ∃ y, y ∈ l ∧ rtc edge y target).
  { induction l as [|y l IHl]; intros v0 v1; simpl; [done|].
    destruct (reaches f target y v0) as [hit v2] eqn:Hr. destruct hit.
    - intros _. exists y. split; [by left|eauto].
    - intros (z & ? & ?)%IHl. exists z. split; [by right|done]. }
  intros (y & Hy & Hp)%Hany. by eapply rtc_l.
Qed.

(** The test from scratch decides reachability. *)
Lemma reaches_iff K fuel target c :
  covers K → size K < fuel → (reaches fuel target c ∅).1 = true ↔ rtc edge c target.
Proof.
  intros HK Hf. destruct (reaches fuel target c ∅) as [hit v] eqn:Hr. simpl. split.
  - intros ->. by eapply reaches_true.
  - destruct hit; [done|]. intros Hp. exfalso.
    destruct (reaches_false K fuel target c ∅ v HK) as ([_ Hc] & Hcv & Ht); [|set_solver|done|].
    { by rewrite difference_empty_L. }
    apply Ht. eapply closed_rtc; [|exact Hcv|exact Hp].
    intros a b Ha Hb. eapply Hc; [done|set_solver|done].
Qed.

End graph.

(** ** Acyclic graphs and replacing the successors of one node *)

(** No node is reachable from one of its successors. *)
Definition acyclic (succ : string → list string) : Prop :=
  ∀ x y, y ∈ succ x → ¬ rtc (edge succ) y x.

Lemma acyclic_mono succ succ' :
  (∀ x y, y ∈ succ' x → y ∈ succ x) → acyclic succ → acyclic succ'.
Proof.
  intros Hsub Ha x y Hy Hr. apply (Ha x y); [by apply Hsub|].
  revert Hr. apply (rtc_congruence id). intros a b. apply Hsub.
Qed.

Section replace_node.
Context (succ succ' : string → list string) (s : string).
Hypothesis Hother : ∀ x, x ≠ s → succ' x = succ x.

Lemma rtc_to_node y : rtc (edge succ') y s → rtc (edge succ) y s.
Proof.
  remember s as t eqn:Ht in |- * at 1. induction 1 as [|y z t' Hyz _ IH]; subst; [done|].
  destruct (decide (y = s)) as [->|Hne]; [done|]. eapply rtc_l; [|by apply IH].
  unfold edge in *. by rewrite <- Hother.
Qed.

Lemma rtc_through_node x y :
  rtc (edge succ') x y →
  rtc (edge succ) x y ∨ rtc (edge succ') x s ∧ ∃ i, i ∈ succ' s ∧ rtc (edge succ') i y.
Proof.
  induction 1 as [|x z y Hxz Hzy IH]; [by left|].
  destruct (decide (x = s)) as [->|Hne]; [right; eauto using rtc_refl|].
  destruct IH as [IH|[Hzs Hi]].
  - left. eapply rtc_l; [|done]. unfold edge in *. by rewrite <- Hother.
  - right. split; [by eapply rtc_l|done].
Qed.

Lemma acyclic_replace :
  (∀ i, i ∈ succ' s → ¬ rtc (edge succ) i s) → acyclic succ → acyclic succ'.
Proof.
  intros Hnew Ha x z Hxz Hzx.
  destruct (decide (x = s)) as [->|Hne]; [by eapply Hnew, rtc_to_node|].
  destruct (rtc_through_node z x Hzx) as [H|[Hzs (i & Hi & Hix)]].
  - apply (Ha x z); [by rewrite <- Hother|done].
  - apply (Hnew i Hi), rtc_to_node. etrans; [exact Hix|]. by eapply rtc_l.
Qed.

End replace_node.

(** ** Three-colour cycle detection

    [def visit(symbol)]: a node being visited twice on one path is a cycle, a
    node outside [outputs] a leaf.  The state is the pair of the visiting and
    the visited sets. *)

Section detection.
Context (succ : string → list string) (outputs : gset string) (cycle : exn).

Fixpoint visit (fuel : nat) (st : gset string * gset string) (symbol : string)
    : result (gset string * gset string) :=
  match fuel with
  | O => Ok st
  | S f =>
    if decide (symbol ∈ st.2 ∨ symbol ∉ outputs) then Ok st
    else if decide (symbol ∈ st.1) then Raise cycle
    else
      st' ← fold_result (visit f) ({[symbol]} ∪ st.1, st.2) (succ symbol);
      Ok (st'.1 ∖ {[symbol]}, {[symbol]} ∪ st'.2)
  end.

(** The loop over the output symbols. *)
Definition detect_cycles (roots : list string) : result (gset string * gset string) :=
  fold_result (visit (S (size outputs))) (∅, ∅) roots.

Hypothesis Hleaf : ∀ x, x ∉ outputs → succ x = [].

(** Visited nodes have all their successors visited and lie on no cycle. *)
Definition visited_ok (visited : gset string) : Prop :=
  (∀ x y, x ∈ visited → y ∈ succ x → y ∈ outputs → y ∈ visited) ∧
  ∀ x y, x ∈ visited → y ∈ succ x → ¬ rtc (edge succ) y x.

Lemma visited_closed visited x y :
  visited_ok visited → x ∈ visited ∨ x ∉ outputs → rtc (edge succ) x y →
  y ∈ visited ∨ y ∉ outputs.
Proof.
  intros [Hc _] Hx Hr. induction Hr as [|x z y Hxz _ IH]; [done|]. apply IH.
  destruct Hx as [Hx|Hx].
  - destruct (decide (z ∈ outputs)); [left; by eapply Hc|by right].
  - unfold edge in Hxz. rewrite (Hleaf x Hx) in Hxz. by apply elem_of_nil in Hxz.
Qed.

(** What a successful visit leaves. *)
Definition visit_post (st st' : gset string * gset string) (symbol : string) : Prop :=
  st'.1 = st.1 ∧ st.2 ⊆ st'.2 ∧ (symbol ∈ outputs → symbol ∈ st'.2) ∧
  st'.1 ## st'.2 ∧ visited_ok st'.2.

Lemma visit_ok fuel st symbol st' :
  (size (outputs ∖ st.1) < fuel)%nat → st.1 ## st.2 → visited_ok st.2 →
  visit fuel st symbol = Ok st' → visit_post st st' symbol.
Proof.
  revert st symbol st'. induction fuel as [|f IH]; intros st symbol st' Hf Hd Hok; [lia|].
  cbn [visit]. destruct (decide _) as [Hv|Hv].
  { intros [= <-]. split_and!; try done. tauto. }
  destruct (decide (symbol ∈ st.1)) as [|Hnv]; [done|].
  assert (Hs : symbol ∈ outputs ∧ symbol ∉ st.2).
  { destruct (decide (symbol ∈ outputs)), (decide (symbol ∈ st.2)); tauto. }
  destruct Hs as [Hso Hs2]. intros (st1 & H1 & [= <-])%result_bind_ok.
  assert (Hfold : ∀ l sa sb, sa.1 = {[symbol]} ∪ st.1 → sa.1 ## sa.2 → visited_ok sa.2 →
    fold_result (visit f) sa l = Ok sb →
    sb.1 = sa.1 ∧ sa.2 ⊆ sb.2 ∧ (∀ y, y ∈ l → y ∈ outputs → y ∈ sb.2) ∧
    sb.1 ## sb.2 ∧ visited_ok sb.2).
  { induction l as [|y l IHl]; intros sa sb Hsa Hda Hoka; cbn [fold_result].
    - intros [= <-]. split_and!; try done. by intros y ?%elem_of_nil.
    - intros (sm & Hm & Hb)%result_bind_ok.
      destruct (IH sa y sm) as (E1 & Hsub & Hy & Hdm & Hokm); try done.
      { rewrite Hsa. assert (size (outputs ∖ ({[symbol]} ∪ st.1)) < size (outputs ∖ st.1))%nat
          by (by apply size_step). lia. }
      destruct (IHl sm sb) as (E2 & Hsub2 & Hl & Hdb & Hokb); try done; [congruence|].
      split_and!; [congruence|set_solver| |done|done].
      intros z [->|Hz]%elem_of_cons Hzo; [by apply Hsub2, Hy|by apply Hl]. }
  destruct (Hfold (succ symbol) ({[symbol]} ∪ st.1, st.2) st1) as (E1 & Hsub & Hl & Hd1 & Hok1);
    try done; [set_solver|]. cbn in E1, Hsub.
  split_and!; cbn.
  - rewrite E1. set_solver.
  - set_solver.
  - set_solver.
  - rewrite E1 in *. set_solver.
  - assert (Hns : symbol ∉ st1.2) by (rewrite E1 in Hd1; set_solver).
    assert (Hacy : ∀ y, y ∈ succ symbol → ¬ rtc (edge succ) y symbol).
    { intros y Hy Hr. destruct (visited_closed st1.2 y symbol Hok1) as [|]; [|done..].
      destruct (decide (y ∈ outputs)); [left; by apply Hl|by right]. }
    destruct Hok1 as [Hc Ha]. split.
    + intros x y [->%elem_of_singleton|Hx]%elem_of_union Hy Hyo; apply elem_of_union; right;
        [by apply Hl|by eapply Hc].
    + intros x y [->%elem_of_singleton|Hx]%elem_of_union Hy; [by apply Hacy|by apply Ha].
Qed.

(** A raised exception reports an actual cycle. *)
Lemma visit_raise fuel st symbol e :
  (∀ v, v ∈ st.1 → tc (edge succ) v symbol) →
  visit fuel st symbol = Raise e → e = cycle ∧ ∃ x, tc (edge succ) x x.
Proof.
  revert st symbol. induction fuel as [|f IH]; intros st symbol Hst; [done|]. cbn [visit].
  destruct (decide _); [done|]. destruct (decide (symbol ∈ st.1)) as [Hs|Hs].
  { intros [= <-]. split; [done|]. exists symbol. by apply Hst. }
  assert (Hpost : ∀ fuel st y st', visit fuel st y = Ok st' → st'.1 = st.1).
  { clear. intros fuel. induction fuel as [|f IH]; intros st y st'; cbn [visit]; [by intros [= <-]|].
    destruct (decide _); [by intros [= <-]|]. destruct (decide (y ∈ st.1)) as [|Hy]; [done|].
    intros (st1 & H1 & [= <-])%result_bind_ok. cbn.
    assert (Hfold : ∀ l sa sb, fold_result (visit f) sa l = Ok sb → sb.1 = sa.1).
    { induction l as [|z l IHl]; intros sa sb; cbn [fold_result]; [by intros [= <-]|].
      intros (sm & Hm & Hb)%result_bind_ok. rewrite (IHl _ _ Hb). by eapply IH. }
    rewrite (Hfold _ _ _ H1). cbn. set_solver. }
  assert (Hfold : ∀ l sa, sa.1 = {[symbol]} ∪ st.1 → (∀ y, y ∈ l → y ∈ succ symbol) →
    fold_result (visit f) sa l = Raise e → e = cycle ∧ ∃ x, tc (edge succ) x x).
  { induction l as [|y l IHl]; intros sa Hsa Hl; cbn [fold_result]; [done|].
    destruct (visit f sa y) as [sm|e'] eqn:Hy; cbn [mbind result_bind].
    - apply IHl; [rewrite (Hpost _ _ _ _ Hy); exact Hsa|]. intros; apply Hl; by right.
    - intros [= ->]. eapply IH; [|exact Hy]. rewrite Hsa.
      assert (edge succ symbol y) as Hey by (apply Hl; by left).
      intros v [->%elem_of_singleton|Hv]%elem_of_union; [by apply tc_once|].
      eapply tc_r; [by apply Hst|done]. }
  destruct (fold_result _ _ _) as [st1|e'] eqn:H1; cbn; [done|]. intros [= ->].
  eapply (Hfold (succ symbol)); [| |exact H1]; done.
Qed.

Lemma tc_cycle x : tc (edge succ) x x → ¬ acyclic succ.
Proof.
  intros Hx Ha. inversion Hx as [a b Hab|a b c Hab Hbc]; subst.
  - by apply (Ha x x Hab).
  - apply (Ha x b Hab). by apply tc_rtc.
Qed.

(** Detection from every output symbol decides acyclicity. *)
Lemma detect_cycles_spec roots :
  (∀ x, x ∈ outputs → x ∈ roots) →
  match detect_cycles roots with
  | Ok _ => acyclic succ
  | Raise e => e = cycle ∧ ¬ acyclic succ
  end.
Proof.
  intros Hroots.
  assert (Hfold : ∀ l st, st.1 = ∅ → visited_ok st.2 →
    match fold_result (visit (S (size outputs))) st l with
    | Ok st' => visited_ok st'.2 ∧ ∀ y, y ∈ l ∨ y ∈ st.2 → y ∈ outputs → y ∈ st'.2
    | Raise e => e = cycle ∧ ¬ acyclic succ
    end).
  { induction l as [|y l IHl]; intros st Hst Hok; cbn [fold_result].
    { split; [done|]. intros y [?%elem_of_nil|?]; done. }
    destruct (visit _ st y) as [st1|e] eqn:Hy; cbn [mbind result_bind].
    - apply visit_ok in Hy as (E & Hsub & Hyo & Hd & Hok1);
        [|rewrite Hst, difference_empty_L; lia|rewrite Hst; set_solver|done].
      specialize (IHl st1 ltac:(congruence) Hok1).
      destruct (fold_result _ st1 l) as [st2|e]; [|done]. destruct IHl as [Hok2 Hin].
      split; [done|]. intros z [[->|Hz]%elem_of_cons|Hz] Hzo; apply Hin; auto.
    - apply visit_raise in Hy as [-> (x & Hx)]; [|rewrite Hst; set_solver].
      split; [done|by eapply tc_cycle]. }
  unfold detect_cycles. specialize (Hfold roots (∅, ∅) eq_refl).
  destruct (fold_result _ _ _) as [st|e]; cbn in Hfold.
  - destruct Hfold as [[Hc Ha] Hin]; [split; set_solver|]. intros x y Hy.
    destruct (decide (x ∈ outputs)) as [Hx|Hx]; [|rewrite (Hleaf x Hx) in Hy; by apply elem_of_nil in Hy].
    apply Ha; [|done]. apply Hin; [left; by apply Hroots|done].
  - apply Hfold. split; set_solver.
Qed.

End detection.
