(* ===== verification/Domain.v ===== *)
(** * The immutable domain objects ([domain.py])

    Each dataclass is a record whose numeric and time fields are type
    parameters: [XOf decimal_input datetime] is what a caller passes, and
    [X := XOf decimal Z] what [__post_init__] leaves once it has validated the
    value.  [X_init] is the constructor with its checks in the order of the
    source. *)

From S2P Require Import Prelude PyStr PyDecimal PyTime.

Local Open Scope string_scope.
Local Open Scope Z_scope.

Definition ensure_utc (value : datetime) : result Z :=
  match value with
  | Naive _ => Raise (ValueError "timestamps must be timezone-aware")
  | Aware utc => Ok utc
  end.

Definition decimal_of (value : decimal_input) : result decimal :=
  match value with
  | DInvalid => Raise (ValueError "invalid decimal value")
  | DNonFinite => Raise (ValueError "numeric value must be finite")
  | DFinite d =>
    _ ← raise_if (negb (bool_decide (float_representable d)))
          (ValueError "numeric value is not representable as a finite JSON number");
    Ok d
  end.

Definition option_result {A B} (f : A → result B) (o : option A) : result (option B) :=
  match o with None => Ok None | Some a => b ← f a; Ok (Some b) end.

Record SourceComponentOf (N T : Type) := {
  sc_symbol : string;
  sc_provider : string;
  sc_price : N;
  sc_as_of : T;
  sc_feed : option string;
  sc_role : option string;
}.
Arguments sc_symbol {N T}. Arguments sc_provider {N T}. Arguments sc_price {N T}.
Arguments sc_as_of {N T}. Arguments sc_feed {N T}. Arguments sc_role {N T}.
Abbreviation SourceComponent := (SourceComponentOf decimal Z).

Definition SourceComponent_init (c : SourceComponentOf decimal_input datetime)
    : result SourceComponent :=
  price ← decimal_of (sc_price c);
  as_of ← ensure_utc (sc_as_of c);
  _ ← raise_if (negb (bool_decide (is_pos price)))
        (ValueError "component price must be finite and positive");
  Ok {| sc_symbol := sc_symbol c; sc_provider := sc_provider c; sc_price := price;
        sc_as_of := as_of; sc_feed := sc_feed c; sc_role := sc_role c |}.

Record ProviderQuoteOf (N T : Type) := {
  pq_symbol : string;
  pq_price : N;
  pq_as_of : T;
  pq_provider : string;
  pq_feed : string;
  pq_price_basis : string;
  pq_market_status : string;
  pq_is_derived : bool;
  pq_components : list SourceComponent;
  pq_fallback_level : Z;
  pq_license_scope : string;
  pq_coverage : option string;
  pq_market_status_as_of : option T;
}.
Arguments pq_symbol {N T}. Arguments pq_price {N T}. Arguments pq_as_of {N T}.
Arguments pq_provider {N T}. Arguments pq_feed {N T}. Arguments pq_price_basis {N T}.
Arguments pq_market_status {N T}. Arguments pq_is_derived {N T}.
Arguments pq_components {N T}. Arguments pq_fallback_level {N T}.
Arguments pq_license_scope {N T}. Arguments pq_coverage {N T}.
Arguments pq_market_status_as_of {N T}.
Abbreviation ProviderQuote := (ProviderQuoteOf decimal Z).

Definition ProviderQuote_init (q : ProviderQuoteOf decimal_input datetime)
    : result ProviderQuote :=
  price ← decimal_of (pq_price q);
  as_of ← ensure_utc (pq_as_of q);
  status_as_of ← option_result ensure_utc (pq_market_status_as_of q);
  _ ← raise_if (negb (bool_decide (is_pos price)))
        (ValueError "price must be finite and positive");
  _ ← raise_if (bool_decide (pq_fallback_level q < 0))
        (ValueError "fallback level cannot be negative");
  _ ← raise_if (negb (bool_decide (pq_market_status q ∈ ["open"; "closed"; "unknown"])))
        (ValueError ("invalid market_status: " +:+ pq_market_status q));
  Ok {| pq_symbol := pq_symbol q; pq_price := price; pq_as_of := as_of;
        pq_provider := pq_provider q; pq_feed := pq_feed q;
        pq_price_basis := pq_price_basis q; pq_market_status := pq_market_status q;
        pq_is_derived := pq_is_derived q; pq_components := pq_components q;
        pq_fallback_level := pq_fallback_level q; pq_license_scope := pq_license_scope q;
        pq_coverage := pq_coverage q; pq_market_status_as_of := status_as_of |}.

Record PricePointOf (N T : Type) := {
  pp_symbol : string;
  pp_timestamp : T;
  pp_price : N;
  pp_provider : string;
  pp_is_derived : bool;
  pp_interval : string;
}.
Arguments pp_symbol {N T}. Arguments pp_timestamp {N T}. Arguments pp_price {N T}.
Arguments pp_provider {N T}. Arguments pp_is_derived {N T}. Arguments pp_interval {N T}.
Abbreviation PricePoint := (PricePointOf decimal Z).

Definition PricePoint_init (p : PricePointOf decimal_input datetime) : result PricePoint :=
  timestamp ← ensure_utc (pp_timestamp p);
  price ← decimal_of (pp_price p);
  _ ← raise_if (negb (bool_decide (is_pos price)))
        (ValueError "price must be finite and positive");
  Ok {| pp_symbol := pp_symbol p; pp_timestamp := timestamp; pp_price := price;
        pp_provider := pp_provider p; pp_is_derived := pp_is_derived p;
        pp_interval := pp_interval p |}.

Record AggregatePriceOf (N T : Type) := {
  ap_symbol : string;
  ap_bucket_start : T;
  ap_interval_seconds : Z;
  ap_open : N;
  ap_high : N;
  ap_low : N;
  ap_close : N;
  ap_sample_count : Z;
  ap_provider : string;
  ap_is_derived : bool;
}.
Arguments ap_symbol {N T}. Arguments ap_bucket_start {N T}.
Arguments ap_interval_seconds {N T}. Arguments ap_open {N T}. Arguments ap_high {N T}.
Arguments ap_low {N T}. Arguments ap_close {N T}. Arguments ap_sample_count {N T}.
Arguments ap_provider {N T}. Arguments ap_is_derived {N T}.
Abbreviation AggregatePrice := (AggregatePriceOf decimal Z).

Definition AggregatePrice_init (a : AggregatePriceOf decimal_input datetime)
    : result AggregatePrice :=
  bucket_start ← ensure_utc (ap_bucket_start a);
  open ← decimal_of (ap_open a);
  high ← decimal_of (ap_high a);
  low ← decimal_of (ap_low a);
  close ← decimal_of (ap_close a);
  _ ← raise_if (bool_decide (ap_interval_seconds a ≤ 0 ∨ ap_sample_count a ≤ 0))
        (ValueError "aggregate interval and sample count must be positive");
  _ ← raise_if (bool_decide (¬ is_pos low ∨ dlt high (dmax open close) ∨
                             dlt (dmin open close) low))
        (ValueError "invalid aggregate OHLC values");
  Ok {| ap_symbol := ap_symbol a; ap_bucket_start := bucket_start;
        ap_interval_seconds := ap_interval_seconds a; ap_open := open; ap_high := high;
        ap_low := low; ap_close := close; ap_sample_count := ap_sample_count a;
        ap_provider := ap_provider a; ap_is_derived := ap_is_derived a |}.

Record DividendEventOf (N : Type) := {
  de_symbol : string;
  de_ex_date : Z;
  de_payment_date : option Z;
  de_amount : N;
  de_currency : string;
  de_frequency : string;
  de_provider : string;
  de_event_type : string;
  de_declared_date : option Z;
}.
Arguments de_symbol {N}. Arguments de_ex_date {N}. Arguments de_payment_date {N}.
Arguments de_amount {N}. Arguments de_currency {N}. Arguments de_frequency {N}.
Arguments de_provider {N}. Arguments de_event_type {N}. Arguments de_declared_date {N}.
Abbreviation DividendEvent := (DividendEventOf decimal).

Definition DividendEvent_init (e : DividendEventOf decimal_input) : result DividendEvent :=
  amount ← decimal_of (de_amount e);
  _ ← raise_if (bool_decide (is_neg amount))
        (ValueError "dividend amount cannot be negative");
  Ok {| de_symbol := de_symbol e; de_ex_date := de_ex_date e;
        de_payment_date := de_payment_date e; de_amount := amount;
        de_currency := de_currency e; de_frequency := de_frequency e;
        de_provider := de_provider e; de_event_type := de_event_type e;
        de_declared_date := de_declared_date e |}.

(** ** Staking and yield semantics *)

Inductive RewardAccrualMode :=
| VALUE_ACCRUING | REBASING_BALANCE | DISTRIBUTED_UNITS | CLAIMABLE_REWARDS.

Inductive YieldRateType := APR | APY.

#[export] Instance RewardAccrualMode_eq_dec : EqDecision RewardAccrualMode.
Proof. solve_decision. Defined.
#[export] Instance YieldRateType_eq_dec : EqDecision YieldRateType.
Proof. solve_decision. Defined.

Definition RewardAccrualMode_value (m : RewardAccrualMode) : string :=
  match m with
  | VALUE_ACCRUING => "value_accruing"
  | REBASING_BALANCE => "rebasing_balance"
  | DISTRIBUTED_UNITS => "distributed_units"
  | CLAIMABLE_REWARDS => "claimable_rewards"
  end.

Definition YieldRateType_value (t : YieldRateType) : string :=
  match t with APR => "apr" | APY => "apy" end.

(** An enum argument: a member, or a value the enum class is called with. *)
Inductive enum_input (E : Type) := EnumMember (e : E) | EnumValue (s : string).
Arguments EnumMember {E}. Arguments EnumValue {E}.

Definition enum_coerce {E} (value_of : E → string) (members : list E)
    (i : enum_input E) : result E :=
  match i with
  | EnumMember e => Ok e
  | EnumValue s =>
    match head (filter (λ e, value_of e = s) members) with
    | Some e => Ok e
    | None => Raise (ValueError (s +:+ " is not a valid enum value"))
    end
  end.

Definition coerce_rate_type : enum_input YieldRateType → result YieldRateType :=
  enum_coerce YieldRateType_value [APR; APY].
Definition coerce_accrual_mode : enum_input RewardAccrualMode → result RewardAccrualMode :=
  enum_coerce RewardAccrualMode_value
    [VALUE_ACCRUING; REBASING_BALANCE; DISTRIBUTED_UNITS; CLAIMABLE_REWARDS].

Record AccrualIndexPointOf (N T : Type) := {
  ai_symbol : string;
  ai_underlying_asset : string;
  ai_value : N;
  ai_as_of : T;
  ai_provider : string;
  ai_kind : string;
}.
Arguments ai_symbol {N T}. Arguments ai_underlying_asset {N T}. Arguments ai_value {N T}.
Arguments ai_as_of {N T}. Arguments ai_provider {N T}. Arguments ai_kind {N T}.
Abbreviation AccrualIndexPoint := (AccrualIndexPointOf decimal Z).

Definition AccrualIndexPoint_init (p : AccrualIndexPointOf decimal_input datetime)
    : result AccrualIndexPoint :=
  value ← decimal_of (ai_value p);
  as_of ← ensure_utc (ai_as_of p);
  _ ← raise_if (negb (truthy (strip (ai_symbol p))) ||
                negb (truthy (strip (ai_underlying_asset p))))
        (ValueError "accrual index symbols must not be empty");
  _ ← raise_if (negb (truthy (strip (ai_provider p))) || negb (truthy (strip (ai_kind p))))
        (ValueError "accrual index provider and kind must not be empty");
  _ ← raise_if (negb (bool_decide (is_pos value)))
        (ValueError "accrual index value must be positive");
  Ok {| ai_symbol := ai_symbol p; ai_underlying_asset := ai_underlying_asset p;
        ai_value := value; ai_as_of := as_of; ai_provider := ai_provider p;
        ai_kind := ai_kind p |}.

Record YieldQuality := {
  yq_stale : bool;
  yq_staleness_ms : Z;
  yq_confidence : string;
}.

Definition YieldQuality_init (q : YieldQuality) : result YieldQuality :=
  _ ← raise_if (bool_decide (yq_staleness_ms q < 0))
        (ValueError "yield staleness cannot be negative");
  _ ← raise_if (negb (bool_decide (yq_confidence q ∈ ["high"; "medium"; "low"])))
        (ValueError "yield confidence must be high, medium, or low");
  Ok q.

(** The checks [YieldMetric] and [YieldEstimate] share. *)
Definition positive_window (w : decimal_input) : result decimal :=
  d ← decimal_of w;
  _ ← raise_if (negb (bool_decide (is_pos d)))
        (ValueError "yield observation window must be positive");
  Ok d.

Definition check_underlying (u : option string) : result unit :=
  raise_if (match u with None => false | Some s => negb (truthy (strip s)) end)
    (ValueError "underlying asset must not be empty").

Record YieldMetricOf (N T R A : Type) := {
  ym_symbol : string;
  ym_value : N;
  ym_as_of : T;
  ym_method : string;
  ym_provider : string;
  ym_is_proxy : bool;
  ym_components : list SourceComponent;
  ym_rate_type : option R;
  ym_observation_window_days : option N;
  ym_accrual_mode : option A;
  ym_underlying_asset : option string;
  ym_is_estimate : bool;
  ym_accrual_index : option AccrualIndexPoint;
  ym_quality : option YieldQuality;
  ym_fallback_level : Z;
}.
Arguments ym_symbol {N T R A}. Arguments ym_value {N T R A}. Arguments ym_as_of {N T R A}.
Arguments ym_method {N T R A}. Arguments ym_provider {N T R A}.
Arguments ym_is_proxy {N T R A}. Arguments ym_components {N T R A}.
Arguments ym_rate_type {N T R A}. Arguments ym_observation_window_days {N T R A}.
Arguments ym_accrual_mode {N T R A}. Arguments ym_underlying_asset {N T R A}.
Arguments ym_is_estimate {N T R A}. Arguments ym_accrual_index {N T R A}.
Arguments ym_quality {N T R A}. Arguments ym_fallback_level {N T R A}.
Abbreviation YieldMetric := (YieldMetricOf decimal Z YieldRateType RewardAccrualMode).

Definition YieldMetric_init
    (m : YieldMetricOf decimal_input datetime (enum_input YieldRateType)
           (enum_input RewardAccrualMode)) : result YieldMetric :=
  value ← decimal_of (ym_value m);
  as_of ← ensure_utc (ym_as_of m);
  rate_type ← option_result coerce_rate_type (ym_rate_type m);
  accrual_mode ← option_result coerce_accrual_mode (ym_accrual_mode m);
  window ← option_result positive_window (ym_observation_window_days m);
  _ ← check_underlying (ym_underlying_asset m);
  _ ← raise_if (bool_decide (ym_fallback_level m < 0))
        (ValueError "yield fallback level cannot be negative");
  Ok {| ym_symbol := ym_symbol m; ym_value := value; ym_as_of := as_of;
        ym_method := ym_method m; ym_provider := ym_provider m;
        ym_is_proxy := ym_is_proxy m; ym_components := ym_components m;
        ym_rate_type := rate_type; ym_observation_window_days := window;
        ym_accrual_mode := accrual_mode; ym_underlying_asset := ym_underlying_asset m;
        ym_is_estimate := ym_is_estimate m; ym_accrual_index := ym_accrual_index m;
        ym_quality := ym_quality m; ym_fallback_level := ym_fallback_level m |}.

Record ChangeValueOf (N T : Type) := {
  cv_percent : N;
  cv_reference_price : N;
  cv_reference_as_of : T;
}.
Arguments cv_percent {N T}. Arguments cv_reference_price {N T}.
Arguments cv_reference_as_of {N T}.
Abbreviation ChangeValue := (ChangeValueOf decimal Z).

Definition ChangeValue_init (c : ChangeValueOf decimal_input datetime) : result ChangeValue :=
  percent ← decimal_of (cv_percent c);
  reference_price ← decimal_of (cv_reference_price c);
  reference_as_of ← ensure_utc (cv_reference_as_of c);
  _ ← raise_if (negb (bool_decide (is_pos reference_price)))
        (ValueError "change values must be finite with a positive reference");
  Ok {| cv_percent := percent; cv_reference_price := reference_price;
        cv_reference_as_of := reference_as_of |}.

Record DividendMetricOf (N : Type) := {
  dm_yield_percent : N;
  dm_ex_date : Z;
  dm_payment_date : option Z;
  dm_amount : N;
  dm_currency : string;
  dm_frequency : string;
  dm_method : string;
  dm_provider : string;
}.
Arguments dm_yield_percent {N}. Arguments dm_ex_date {N}. Arguments dm_payment_date {N}.
Arguments dm_amount {N}. Arguments dm_currency {N}. Arguments dm_frequency {N}.
Arguments dm_method {N}. Arguments dm_provider {N}.
Abbreviation DividendMetric := (DividendMetricOf decimal).

Definition DividendMetric_init (m : DividendMetricOf decimal_input) : result DividendMetric :=
  yield_percent ← decimal_of (dm_yield_percent m);
  amount ← decimal_of (dm_amount m);
  Ok {| dm_yield_percent := yield_percent; dm_ex_date := dm_ex_date m;
        dm_payment_date := dm_payment_date m; dm_amount := amount;
        dm_currency := dm_currency m; dm_frequency := dm_frequency m;
        dm_method := dm_method m; dm_provider := dm_provider m |}.

(** The values the [inputs] mapping of an estimate carries: [float(d)] of a
    decimal, an integer, or text. *)
Inductive InputValue :=
| IFloat (d : decimal)
| IInt (n : Z)
| IStr (s : string)
| IIsoTime (t : Z)
| IIsoDate (d : Z).

Record YieldEstimateOf (N T R A : Type) := {
  ye_percent : N;
  ye_as_of : T;
  ye_method : string;
  ye_provider : string;
  ye_is_proxy : bool;
  ye_inputs : list (string * InputValue);
  ye_rate_type : option R;
  ye_observation_window_days : option N;
  ye_accrual_mode : option A;
  ye_underlying_asset : option string;
  ye_is_estimate : bool;
  ye_accrual_index : option AccrualIndexPoint;
  ye_quality : option YieldQuality;
  ye_components : list SourceComponent;
  ye_fallback_level : Z;
}.
Arguments ye_percent {N T R A}. Arguments ye_as_of {N T R A}. Arguments ye_method {N T R A}.
Arguments ye_provider {N T R A}. Arguments ye_is_proxy {N T R A}.
Arguments ye_inputs {N T R A}. Arguments ye_rate_type {N T R A}.
Arguments ye_observation_window_days {N T R A}. Arguments ye_accrual_mode {N T R A}.
Arguments ye_underlying_asset {N T R A}. Arguments ye_is_estimate {N T R A}.
Arguments ye_accrual_index {N T R A}. Arguments ye_quality {N T R A}.
Arguments ye_components {N T R A}. Arguments ye_fallback_level {N T R A}.
Abbreviation YieldEstimate := (YieldEstimateOf decimal Z YieldRateType RewardAccrualMode).
Abbreviation YieldEstimateArgs :=
  (YieldEstimateOf decimal_input datetime (enum_input YieldRateType)
     (enum_input RewardAccrualMode)).

Definition YieldEstimate_init (e : YieldEstimateArgs) : result YieldEstimate :=
  percent ← decimal_of (ye_percent e);
  as_of ← ensure_utc (ye_as_of e);
  rate_type ← option_result coerce_rate_type (ye_rate_type e);
  accrual_mode ← option_result coerce_accrual_mode (ye_accrual_mode e);
  window ← option_result positive_window (ye_observation_window_days e);
  _ ← check_underlying (ye_underlying_asset e);
  _ ← raise_if (bool_decide (ye_fallback_level e < 0))
        (ValueError "yield fallback level cannot be negative");
  Ok {| ye_percent := percent; ye_as_of := as_of; ye_method := ye_method e;
        ye_provider := ye_provider e; ye_is_proxy := ye_is_proxy e;
        ye_inputs := ye_inputs e; ye_rate_type := rate_type;
        ye_observation_window_days := window; ye_accrual_mode := accrual_mode;
        ye_underlying_asset := ye_underlying_asset e; ye_is_estimate := ye_is_estimate e;
        ye_accrual_index := ye_accrual_index e; ye_quality := ye_quality e;
        ye_components := ye_components e; ye_fallback_level := ye_fallback_level e |}.

Record QuoteSnapshot := {
  qs_quote : ProviderQuote;
  qs_changes : list (string * option ChangeValue);
  qs_dividend : option DividendMetric;
  qs_estimated_annual_yield : option YieldEstimate;
  qs_published_at : Z;
}.

Definition QuoteSnapshot_init (quote : ProviderQuote)
    (changes : list (string * option ChangeValue)) (dividend : option DividendMetric)
    (estimated_annual_yield : option YieldEstimate) (published_at : datetime)
    : result QuoteSnapshot :=
  published ← ensure_utc published_at;
  Ok {| qs_quote := quote; qs_changes := changes; qs_dividend := dividend;
        qs_estimated_annual_yield := estimated_annual_yield;
        qs_published_at := published |}.

(** ** What a constructed value satisfies *)

Definition valid_quote (q : ProviderQuote) : Prop :=
  is_pos (pq_price q) ∧ 0 ≤ pq_fallback_level q ∧
  pq_market_status q ∈ ["open"; "closed"; "unknown"] ∧ float_representable (pq_price q).

Definition valid_point (p : PricePoint) : Prop :=
  is_pos (pp_price p) ∧ float_representable (pp_price p).

Definition valid_aggregate (a : AggregatePrice) : Prop :=
  is_pos (ap_low a) ∧ dle (ap_low a) (ap_open a) ∧ dle (ap_low a) (ap_close a) ∧
  dle (ap_open a) (ap_high a) ∧ dle (ap_close a) (ap_high a) ∧
  0 < ap_interval_seconds a ∧ 0 < ap_sample_count a.

Lemma decimal_of_ok i d : decimal_of i = Ok d ↔ i = DFinite d ∧ float_representable d.
Proof.
  destruct i as [d'| |]; simpl; [|naive_solver..].
  unfold raise_if. case_bool_decide; simpl; naive_solver.
Qed.

Lemma ensure_utc_ok t u : ensure_utc t = Ok u ↔ t = Aware u.
Proof. destruct t; simpl; naive_solver. Qed.

(** A failed check is the only way [raise_if] stops a constructor. *)
Lemma raise_if_bind {A} b e (k : result A) r :
  (_ ← raise_if b e; k) = Ok r ↔ b = false ∧ k = Ok r.
Proof. destruct b; simpl; naive_solver. Qed.

Lemma PricePoint_init_ok p r :
  PricePoint_init p = Ok r → valid_point r ∧ pp_symbol r = pp_symbol p ∧
    pp_timestamp p = Aware (pp_timestamp r) ∧ pp_price p = DFinite (pp_price r) ∧
    pp_interval r = pp_interval p ∧ pp_provider r = pp_provider p ∧
    pp_is_derived r = pp_is_derived p.
Proof.
  unfold PricePoint_init. intros (t & Ht%ensure_utc_ok & H)%result_bind_ok.
  apply result_bind_ok in H as (d & [Hd Hrep]%decimal_of_ok & H).
  apply raise_if_bind in H as [Hpos [= <-]].
  apply negb_false_iff, bool_decide_eq_true in Hpos.
  unfold valid_point; simpl. naive_solver.
Qed.

Lemma ProviderQuote_init_ok q r :
  ProviderQuote_init q = Ok r → valid_quote r ∧ pq_symbol r = pq_symbol q ∧
    pq_as_of q = Aware (pq_as_of r) ∧ pq_price q = DFinite (pq_price r) ∧
    pq_fallback_level r = pq_fallback_level q ∧ pq_components r = pq_components q ∧
    pq_market_status r = pq_market_status q ∧ pq_is_derived r = pq_is_derived q ∧
    pq_provider r = pq_provider q.
Proof.
  unfold ProviderQuote_init. intros (d & [Hd Hrep]%decimal_of_ok & H)%result_bind_ok.
  apply result_bind_ok in H as (t & Ht%ensure_utc_ok & H).
  apply result_bind_ok in H as (s & Hs & H).
  apply raise_if_bind in H as [Hpos H]. apply raise_if_bind in H as [Hf H].
  apply raise_if_bind in H as [Hm [= <-]].
  apply negb_false_iff, bool_decide_eq_true in Hpos, Hm.
  apply bool_decide_eq_false in Hf.
  unfold valid_quote; simpl. split_and!; try done. lia.
Qed.

Lemma AggregatePrice_init_ok a r : AggregatePrice_init a = Ok r → valid_aggregate r.
Proof.
  unfold AggregatePrice_init. intros (t & Ht & H)%result_bind_ok.
  apply result_bind_ok in H as (o & _ & H). apply result_bind_ok in H as (h & _ & H).
  apply result_bind_ok in H as (l & _ & H). apply result_bind_ok in H as (c & _ & H).
  apply raise_if_bind in H as [Hi H]. apply raise_if_bind in H as [Hb [= <-]].
  apply bool_decide_eq_false in Hi, Hb.
  unfold valid_aggregate; simpl.
  apply Decidable.not_or in Hb as [Hpos [Hh Hl]%Decidable.not_or].
  assert (∀ x y, ¬ dlt x y → dle y x) as Hnlt.
  { intros x y. rewrite dlt_not_le. by destruct (decide (dle y x)). }
  apply Hnlt in Hh, Hl.
  destruct (dmax_le o c), (dmin_le o c).
  split_and!; try lia; try (by etrans); by destruct (decide (is_pos l)).
Qed.
