(* ===== verification/PluginApi.v ===== *)
(** * Declarations shared with instrument plugins ([plugin_api.py])

    Collection intervals and age limits that the source keeps as float seconds
    are integers in microseconds, the resolution of the timestamps they are
    compared with. *)

From S2P Require Import Prelude PyStr PyDecimal PyTime Domain.

Local Open Scope string_scope.
Local Open Scope Z_scope.

Inductive AssetClass := CRYPTO | EQUITY | BOND | FX.

Inductive YieldStrategy :=
| LATEST_DISTRIBUTION_ANNUALIZED
| TREASURY_3M_PROXY_MINUS_EXPENSE
| TREASURY_PROXY_MINUS_EXPENSE
| STAKING_PROVIDER_METRIC.

Inductive MarketCalendar := ALWAYS_OPEN | US_EQUITY | FX_24X5.

#[export] Instance AssetClass_eq_dec : EqDecision AssetClass.
Proof. solve_decision. Defined.
#[export] Instance YieldStrategy_eq_dec : EqDecision YieldStrategy.
Proof. solve_decision. Defined.
#[export] Instance MarketCalendar_eq_dec : EqDecision MarketCalendar.
Proof. solve_decision. Defined.

Definition MarketCalendar_value (c : MarketCalendar) : string :=
  match c with
  | ALWAYS_OPEN => "always_open"
  | US_EQUITY => "us_equity"
  | FX_24X5 => "fx_24x5"
  end.

(** [MarketCalendar(calendar)] *)
Definition MarketCalendar_of : enum_input MarketCalendar → result MarketCalendar :=
  enum_coerce MarketCalendar_value [ALWAYS_OPEN; US_EQUITY; FX_24X5].

Record InstrumentSpec := {
  is_symbol : string;
  is_base : string;
  is_quote : string;
  is_name : string;
  is_description : string;
  is_asset_class : AssetClass;
  is_asset_type : string;
  is_price_basis : string;
  is_change_basis : string;
  is_yield_strategy : option YieldStrategy;
  is_dividend_strategy : option string;
  is_reward_accrual_mode : option RewardAccrualMode;
  is_underlying_asset : option string;
  is_aliases : list string;
  is_market_calendar : MarketCalendar;
  is_stale_after_seconds : Z;
  is_quote_poll_seconds : Z;
  is_history_enabled : bool;
  is_history_poll_seconds : option Z;
}.

Record ProviderBinding := {
  pb_symbol : string;
  pb_capability : Capability;
  pb_providers : list string;
}.

(** The [operation] of a synthetic recipe. *)
Inductive operation := INVERSE | MULTIPLY | DIVIDE.

#[export] Instance operation_eq_dec : EqDecision operation.
Proof. solve_decision. Defined.

Definition operation_value (o : operation) : string :=
  match o with INVERSE => "inverse" | MULTIPLY => "multiply" | DIVIDE => "divide" end.

Record PluginRecipe := {
  pr_symbol : string;
  pr_left_symbol : string;
  pr_right_symbol : string;
  pr_operation : operation;
  pr_max_skew_seconds : Z;
  pr_left_max_age_seconds : option Z;
  pr_right_max_age_seconds : option Z;
  pr_provider_name : string;
  pr_quote_enabled : bool;
  pr_history_enabled : bool;
}.

(** A plugin; its installer is a callable or an import path that the catalog
    never looks into, so only its presence is kept. *)
Record InstrumentPlugin := {
  ip_plugin_id : string;
  ip_version : string;
  ip_instruments : list InstrumentSpec;
  ip_has_installer : bool;
  ip_provider_bindings : list ProviderBinding;
  ip_synthetic_recipes : list PluginRecipe;
}.

(** [ProviderInstallContext.add_provider]: the named providers of a context,
    a provider object being its identity. *)
Definition add_provider (providers : gmap string Z) (name : string) (provider : Z)
    : result (gmap string Z) :=
  let normalized := strip name in
  _ ← raise_if (negb (truthy normalized)) (ValueError "provider name cannot be empty");
  match providers !! normalized with
  | Some existing =>
    if decide (existing = provider) then Ok (<[normalized := provider]> providers)
    else Raise (ValueError ("duplicate provider: " +:+ normalized))
  | None => Ok (<[normalized := provider]> providers)
  end.
