(* ===== verification/Registry.v ===== *)
(** * The instrument registry ([registry.py])

    Assembling the catalog from plugins: identity, alias, classification and
    synthetic-route validation, and symbol resolution.  Loading plugins from
    entry points is in [Builtin]. *)

From S2P Require Import Prelude PyStr PyTime Graph Domain PluginApi.
From Stdlib Require Import Ascii.

Local Open Scope string_scope.
Local Open Scope list_scope.
Local Open Scope Z_scope.

Definition normalize_symbol (value : string) : string :=
  replace_char "/"%char ":"%char (upper (strip value)).

(** [_SYMBOL_PATTERN]: two parts, each a letter or digit followed by letters,
    digits, dots, underscores and hyphens. *)
Definition word_char (c : Ascii.ascii) : bool := is_upper c || is_digit c.

Definition tail_char (c : Ascii.ascii) : bool :=
  word_char c || bool_decide (c = "."%char ∨ c = "_"%char ∨ c = "-"%char).

Definition symbol_part (s : string) : bool :=
  match s with "" => false | String c s' => word_char c && str_all tail_char s' end.

Definition symbol_pattern (s : string) : bool :=
  match split_once ":"%char s with
  | (base, Some quote) => symbol_part base && symbol_part quote
  | (_, None) => false
  end.

(** ** Synthetic routes *)

(** The recipes that produce a symbol, and the legs they read. *)
Definition recipe_legs (r : PluginRecipe) : list string :=
  [normalize_symbol (pr_left_symbol r); normalize_symbol (pr_right_symbol r)].

Definition route_successors (recipes : list PluginRecipe) (symbol : string) : list string :=
  concat (recipe_legs <$> filter (λ r, normalize_symbol (pr_symbol r) = symbol) recipes).

Definition route_outputs (recipes : list PluginRecipe) : list string :=
  dedup ((λ r, normalize_symbol (pr_symbol r)) <$> recipes).

Definition check_cycles (recipes : list PluginRecipe) (msg : string) : result unit :=
  _ ← detect_cycles (route_successors recipes) (list_to_set (route_outputs recipes))
        (ValueError msg) (route_outputs recipes);
  Ok tt.

Definition validate_binding (plugin_id : string) (b : ProviderBinding) : result unit :=
  _ ← raise_if (negb (truthy (strip (pb_symbol b))) || bool_decide (pb_providers b = []))
        (ValueError ("plugin " +:+ plugin_id +:+ " has an empty provider binding"));
  raise_if (existsb (λ p, negb (truthy (strip p))) (pb_providers b))
    (ValueError ("plugin " +:+ plugin_id +:+ " has an invalid provider name")).

Definition validate_recipe (r : PluginRecipe) : result unit :=
  _ ← raise_if (bool_decide (pr_max_skew_seconds r < 0))
        (ValueError ("synthetic recipe " +:+ pr_symbol r +:+ " has negative maximum skew"));
  raise_if (negb (pr_quote_enabled r) && negb (pr_history_enabled r))
    (ValueError ("synthetic recipe " +:+ pr_symbol r +:+ " enables no capabilities")).

Definition validate_plugin_routes (plugin : InstrumentPlugin) : result unit :=
  _ ← fold_result (λ _, validate_binding (ip_plugin_id plugin)) tt (ip_provider_bindings plugin);
  _ ← fold_result (λ _, validate_recipe) tt (ip_synthetic_recipes plugin);
  check_cycles (ip_synthetic_recipes plugin)
    ("plugin " +:+ ip_plugin_id plugin +:+ " has a synthetic dependency cycle").

Definition validate_cross_plugin_synthetic_routes (plugins : list InstrumentPlugin) : result unit :=
  check_cycles (concat (ip_synthetic_recipes <$> plugins))
    "instrument plugins have a synthetic dependency cycle".

(** ** Instruments *)

Definition check (b : bool) (msg : string) : result unit := raise_if b (ValueError msg).

Definition validate_instrument (item : InstrumentSpec) : result InstrumentSpec :=
  let symbol := normalize_symbol (is_symbol item) in
  let blank := λ s, negb (truthy (strip s)) in
  let is_staking := contains "staking" (lower (is_asset_type item)) in
  let no_yield := bool_decide (is_yield_strategy item = None) in
  _ ← check (bool_decide (symbol ≠ is_symbol item) || negb (symbol_pattern symbol))
        ("invalid canonical instrument symbol: " +:+ py_repr (is_symbol item));
  _ ← check (bool_decide (is_base item ≠ upper (strip (is_base item)) ∨
                          is_quote item ≠ upper (strip (is_quote item))))
        ("base and quote must be uppercase for " +:+ symbol);
  _ ← check (bool_decide (symbol ≠ is_base item +:+ ":" +:+ is_quote item))
        ("symbol does not match base and quote for " +:+ symbol);
  _ ← check (blank (is_name item)) ("instrument " +:+ symbol +:+ " requires a name");
  _ ← check (blank (is_description item)) ("instrument " +:+ symbol +:+ " requires a description");
  _ ← check (blank (is_asset_type item) || blank (is_price_basis item))
        ("instrument " +:+ symbol +:+ " has incomplete classification");
  _ ← check (bool_decide (is_stale_after_seconds item ≤ 0 ∨ is_quote_poll_seconds item ≤ 0))
        ("instrument " +:+ symbol +:+ " has an invalid collection interval");
  _ ← check (match is_history_poll_seconds item with
             | Some p => negb (bool_decide (seconds 1 ≤ p ≤ seconds 86400))
             | None => false
             end)
        ("instrument " +:+ symbol +:+ " has an invalid history collection interval");
  _ ← check (bool_decide (is_asset_class item = BOND) && no_yield)
        ("bond instrument " +:+ symbol +:+ " requires a yield strategy");
  _ ← check (is_staking && bool_decide (is_reward_accrual_mode item = None))
        ("staking instrument " +:+ symbol +:+ " requires a reward accrual mode");
  _ ← check (is_staking && no_yield)
        ("staking instrument " +:+ symbol +:+ " requires a yield strategy");
  _ ← check (is_staking && blank (default "" (is_underlying_asset item)))
        ("staking instrument " +:+ symbol +:+ " requires an underlying asset");
  _ ← check (bool_decide (is_reward_accrual_mode item ≠ None) && no_yield)
        ("income-bearing instrument " +:+ symbol +:+ " requires a yield strategy");
  _ ← check (match is_underlying_asset item with
             | Some u => blank u || bool_decide (u ≠ upper (strip u))
             | None => false
             end)
        ("instrument " +:+ symbol +:+ " has an invalid underlying asset");
  Ok item.

(** ** The registry *)

Record Registry := {
  rg_plugins : list InstrumentPlugin;
  rg_order : list string;
  rg_instruments : gmap string InstrumentSpec;
  rg_aliases : gmap string string;
}.

(** The loop state: the dictionaries being filled and the plugin ids seen. *)
Record building := {
  bd_order : list string;
  bd_instruments : gmap string InstrumentSpec;
  bd_aliases : gmap string string;
  bd_plugin_ids : list string;
}.

Definition taken (b : building) (symbol : string) : bool :=
  bool_decide (is_Some (bd_instruments b !! symbol) ∨ is_Some (bd_aliases b !! symbol)).

Definition add_alias (item : InstrumentSpec) (b : building) (raw_alias : string)
    : result building :=
  let alias := normalize_symbol raw_alias in
  _ ← check (negb (symbol_pattern alias))
        ("invalid alias for " +:+ is_symbol item +:+ ": " +:+ py_repr raw_alias);
  _ ← check (taken b alias) ("duplicate instrument alias: " +:+ alias);
  Ok {| bd_order := bd_order b; bd_instruments := bd_instruments b;
        bd_aliases := <[alias := is_symbol item]> (bd_aliases b);
        bd_plugin_ids := bd_plugin_ids b |}.

Definition add_instrument (b : building) (raw_item : InstrumentSpec) : result building :=
  item ← validate_instrument raw_item;
  _ ← check (taken b (is_symbol item)) ("duplicate instrument identity: " +:+ is_symbol item);
  fold_result (add_alias item)
    {| bd_order := bd_order b ++ [is_symbol item];
       bd_instruments := <[is_symbol item := item]> (bd_instruments b);
       bd_aliases := bd_aliases b; bd_plugin_ids := bd_plugin_ids b |}
    (is_aliases item).

Definition add_plugin (b : building) (plugin : InstrumentPlugin) : result building :=
  let plugin_id := strip (ip_plugin_id plugin) in
  _ ← check (negb (truthy plugin_id)) "plugin_id cannot be empty";
  _ ← check (bool_decide (plugin_id ∈ bd_plugin_ids b)) ("duplicate plugin_id: " +:+ plugin_id);
  _ ← check (negb (truthy (strip (ip_version plugin))))
        ("plugin " +:+ plugin_id +:+ " must declare a version");
  _ ← check (bool_decide (ip_instruments plugin ≠ []) && negb (ip_has_installer plugin) &&
             bool_decide (ip_provider_bindings plugin = []) &&
             bool_decide (ip_synthetic_recipes plugin = []))
        ("plugin " +:+ plugin_id +:+ " does not declare provider installation");
  _ ← validate_plugin_routes plugin;
  fold_result add_instrument
    {| bd_order := bd_order b; bd_instruments := bd_instruments b; bd_aliases := bd_aliases b;
       bd_plugin_ids := plugin_id :: bd_plugin_ids b |}
    (ip_instruments plugin).

Definition build_registry (plugins : list InstrumentPlugin) : result Registry :=
  _ ← check (bool_decide (plugins = [])) "at least one instrument plugin is required";
  b ← fold_result add_plugin
        {| bd_order := []; bd_instruments := ∅; bd_aliases := ∅; bd_plugin_ids := [] |} plugins;
  _ ← validate_cross_plugin_synthetic_routes plugins;
  Ok {| rg_plugins := plugins; rg_order := bd_order b; rg_instruments := bd_instruments b;
        rg_aliases := bd_aliases b |}.

Definition symbols (rg : Registry) : list string := rg_order rg.

Definition resolve (rg : Registry) (value : string) : option InstrumentSpec :=
  let symbol := normalize_symbol value in
  rg_instruments rg !! default symbol (rg_aliases rg !! symbol).

Definition canonical_symbol (rg : Registry) (value : string) : option string :=
  is_symbol <$> resolve rg value.

Definition getitem (rg : Registry) (symbol : string) : result InstrumentSpec :=
  match resolve rg symbol with
  | Some item => Ok item
  | None => Raise (KeyError (normalize_symbol symbol))
  end.

(** ** Lemmas *)

Lemma check_ok b msg u : check b msg = Ok u → b = false.
Proof. apply raise_if_ok. Qed.

Lemma check_bind {A} b msg (k : result A) r :
  (_ ← check b msg; k) = Ok r → b = false ∧ k = Ok r.
Proof. intros H. by apply raise_if_bind in H. Qed.

Lemma fold_result_ind {A B} (P : A → Prop) (f : A → B → result A) a l a' :
  (∀ a x a', x ∈ l → P a → f a x = Ok a' → P a') → P a → fold_result f a l = Ok a' → P a'.
Proof.
  revert a. induction l as [|x l IH]; intros a Hf Ha; cbn [fold_result]; [by intros [= <-]|].
  intros (a1 & H1 & H2)%result_bind_ok.
  apply (IH a1); [intros; eapply Hf; [by right|done..]|by eapply Hf; [left|..]|done].
Qed.

Lemma char_colon_space c : is_space (if decide (c = "/"%char) then ":"%char else c) = is_space c.
Proof. by destruct c as [[] [] [] [] [] [] [] []]. Qed.

Lemma normalize_symbol_idem s : normalize_symbol (normalize_symbol s) = normalize_symbol s.
Proof.
  unfold normalize_symbol, replace_char, upper.
  rewrite (str_map_strip _ (str_map char_upper (strip s))) by apply char_colon_space.
  fold (upper (strip s)). rewrite strip_upper, strip_idem. unfold upper.
  rewrite !str_map_map. apply str_map_ext. by intros [[] [] [] [] [] [] [] []].
Qed.

(** The accepted dictionaries. *)
Definition building_ok (b : building) : Prop :=
  (∀ s item, bd_instruments b !! s = Some item →
     is_symbol item = s ∧ normalize_symbol s = s ∧ symbol_pattern s = true ∧
     s = is_base item +:+ ":" +:+ is_quote item ∧
     (is_asset_class item = BOND → is_yield_strategy item ≠ None)) ∧
  (∀ a s, bd_aliases b !! a = Some s →
     normalize_symbol a = a ∧ symbol_pattern a = true ∧ is_Some (bd_instruments b !! s) ∧
     bd_instruments b !! a = None) ∧
  NoDup (bd_order b) ∧ ∀ s, s ∈ bd_order b ↔ is_Some (bd_instruments b !! s).

Lemma taken_false b s : taken b s = false → bd_instruments b !! s = None ∧ bd_aliases b !! s = None.
Proof.
  unfold taken. intros H%bool_decide_eq_false.
  rewrite !eq_None_not_Some. tauto.
Qed.

Lemma validate_instrument_ok raw item :
  validate_instrument raw = Ok item →
  item = raw ∧ normalize_symbol (is_symbol item) = is_symbol item ∧
  symbol_pattern (is_symbol item) = true ∧
  is_symbol item = is_base item +:+ ":" +:+ is_quote item ∧
  (is_asset_class item = BOND → is_yield_strategy item ≠ None).
Proof.
  unfold validate_instrument. cbv zeta. intros [H1 H]%check_bind.
  apply check_bind in H as [_ H]. apply check_bind in H as [H3 H].
  do 5 apply check_bind in H as [_ H]. apply check_bind in H as [H9 H].
  do 5 apply check_bind in H as [_ H]. injection H as <-.
  apply orb_false_iff in H1 as [H1%bool_decide_eq_false H2%negb_false_iff].
  destruct (decide (normalize_symbol (is_symbol raw) = is_symbol raw)) as [E|]; [|tauto].
  rewrite E in *. apply bool_decide_eq_false in H3.
  split_and!; try done.
  - by destruct (decide (is_symbol raw = is_base raw +:+ ":" +:+ is_quote raw)).
  - intros Hb Hy. rewrite Hb, Hy in H9. done.
Qed.

(** Adding one alias only adds that alias. *)
Lemma add_alias_ok item b raw b' :
  building_ok b → bd_instruments b !! is_symbol item = Some item →
  add_alias item b raw = Ok b' →
  building_ok b' ∧ bd_instruments b' = bd_instruments b ∧ bd_order b' = bd_order b ∧
  bd_aliases b ⊆ bd_aliases b' ∧ bd_aliases b' !! normalize_symbol raw = Some (is_symbol item).
Proof.
  intros (Hi & Ha & Hnd & Ho) Hitem. unfold add_alias. intros [Hp%negb_false_iff H]%check_bind.
  apply check_bind in H as [[Hn1 Hn2]%taken_false [= <-]]. cbn. split_and!.
  - split_and!; [done| |done|done]. cbn. intros a s. rewrite lookup_insert.
    case_decide as Hd; [subst; intros [= <-]|apply Ha].
    split_and!; [apply normalize_symbol_idem|done|by eexists|done].
  - done.
  - done.
  - by apply insert_subseteq.
  - by rewrite lookup_insert_eq.
Qed.

Lemma add_aliases_ok item l b b' :
  building_ok b → bd_instruments b !! is_symbol item = Some item →
  fold_result (add_alias item) b l = Ok b' →
  building_ok b' ∧ bd_instruments b' = bd_instruments b ∧ bd_aliases b ⊆ bd_aliases b' ∧
  ∀ a, a ∈ l → bd_aliases b' !! normalize_symbol a = Some (is_symbol item).
Proof.
  revert b. induction l as [|a l IH]; intros b Hb Hitem; cbn [fold_result].
  { intros [= <-]. split_and!; try done. by intros a ?%elem_of_nil. }
  intros (b1 & H1 & H2)%result_bind_ok.
  destruct (add_alias_ok _ _ _ _ Hb Hitem H1) as (Hb1 & E1 & _ & Hsub1 & Hl1).
  destruct (IH b1 Hb1) as (Hb' & E2 & Hsub2 & Hl2); [by rewrite E1|done|].
  split_and!; [done|congruence|by etrans|]. intros a' [->|Ha']%elem_of_cons; [|by apply Hl2].
  by eapply lookup_weaken.
Qed.

(** The invariant between plugins: every alias of an accepted instrument leads
    to it. *)
Definition catalog_ok (b : building) : Prop :=
  building_ok b ∧ ∀ s item a, bd_instruments b !! s = Some item → a ∈ is_aliases item →
    bd_aliases b !! normalize_symbol a = Some s.

Lemma add_instrument_ok b raw b' :
  catalog_ok b → add_instrument b raw = Ok b' → catalog_ok b'.
Proof.
  intros [(Hi & Ha & Hnd & Ho) Hal]. unfold add_instrument.
  intros (item & (-> & Hv1 & Hv2 & Hv3 & Hv4)%validate_instrument_ok & H)%result_bind_ok.
  apply check_bind in H as [[Hn1 Hn2]%taken_false H].
  set (b1 := {| bd_order := _ |}) in H.
  assert (Hb1 : building_ok b1).
  { unfold b1. split_and!; cbn.
    - intros s it. rewrite lookup_insert. case_decide as Hd; [subst; intros [= <-]|apply Hi].
      split_and!; done.
    - intros a s Has. destruct (Ha a s Has) as (H1 & H2 & H3 & H4). split_and!; [done..| |].
      + rewrite lookup_insert. case_decide; [by eexists|done].
      + rewrite lookup_insert_ne; [done|]. intros Heq. subst a. congruence.
    - apply NoDup_app. split_and!; [done| |apply NoDup_singleton].
      intros s Hs ->%list_elem_of_singleton. apply Ho in Hs as [? ?]. congruence.
    - intros s. rewrite elem_of_app, list_elem_of_singleton, Ho, lookup_insert.
      case_decide as Hd; [subst; split; [by eexists|by right]|].
      split; [by intros [?| ->]|by left]. }
  destruct (add_aliases_ok raw (is_aliases raw) b1 b' Hb1) as (Hb' & E & Hsub & Hl);
    [cbn; by rewrite lookup_insert_eq|done|]. split; [done|].
  rewrite E. cbn. intros s it a. rewrite lookup_insert. case_decide as Hd.
  - subst. intros [= <-] Hin. by apply Hl.
  - intros Hs Hin. eapply lookup_weaken; [|exact Hsub]. by apply (Hal s it).
Qed.

Lemma add_plugin_ok b plugin b' : catalog_ok b → add_plugin b plugin = Ok b' → catalog_ok b'.
Proof.
  intros Hb. unfold add_plugin. cbv zeta. intros [_ H]%check_bind.
  do 3 apply check_bind in H as [_ H]. apply result_bind_ok in H as ([] & _ & H).
  eapply (fold_result_ind catalog_ok); [| |exact H].
  - intros b0 x b1 _. apply add_instrument_ok.
  - exact Hb.
Qed.

Lemma check_cycles_spec recipes msg :
  match check_cycles recipes msg with
  | Ok _ => acyclic (route_successors recipes)
  | Raise e => e = ValueError msg ∧ ¬ acyclic (route_successors recipes)
  end.
Proof.
  unfold check_cycles.
  pose proof (detect_cycles_spec (route_successors recipes) (list_to_set (route_outputs recipes))
    (ValueError msg)) as H.
  assert (Hout : ∀ x, x ∈ route_outputs recipes ↔
    ∃ r, r ∈ recipes ∧ normalize_symbol (pr_symbol r) = x).
  { intros x. unfold route_outputs. rewrite elem_of_dedup, list_elem_of_fmap. naive_solver. }
  specialize (H ltac:(intros x Hx; unfold route_successors; rewrite filter_none; [done|];
    intros r Hr Hn; apply Hx, elem_of_list_to_set, Hout; eauto) (route_outputs recipes)
    ltac:(by intros x ?%elem_of_list_to_set)).
  destruct (detect_cycles _ _ _ _); exact H.
Qed.

Lemma build_registry_ok plugins rg :
  build_registry plugins = Ok rg →
  catalog_ok {| bd_order := rg_order rg; bd_instruments := rg_instruments rg;
                bd_aliases := rg_aliases rg; bd_plugin_ids := [] |} ∧
  acyclic (route_successors (concat (ip_synthetic_recipes <$> plugins))).
Proof.
  unfold build_registry. intros [_ H]%check_bind. apply result_bind_ok in H as (b & Hb & H).
  apply result_bind_ok in H as ([] & Hc & [= <-]). cbn. split.
  - assert (Hok : catalog_ok b).
    { eapply (fold_result_ind catalog_ok); [| |exact Hb].
      - intros b0 p b1 _. apply add_plugin_ok.
      - split; [split_and!|].
        + cbn. by intros s item ?%lookup_empty_Some.
        + cbn. by intros a s ?%lookup_empty_Some.
        + constructor.
        + cbn. intros s. rewrite lookup_empty, elem_of_nil. split; [done|by intros []].
        + cbn. by intros s item a ?%lookup_empty_Some. }
    exact Hok.
  - unfold validate_cross_plugin_synthetic_routes in Hc.
    pose proof (check_cycles_spec (concat (ip_synthetic_recipes <$> plugins))
      "instrument plugins have a synthetic dependency cycle") as Hs.
    by rewrite Hc in Hs.
Qed.

(** ** Properties *)

(** A registry that was accepted is coherent: every instrument is filed
    once under its canonical [BASE:QUOTE] symbol, bonds have a yield strategy,
    every spelling of a symbol or of one of its aliases resolves to the
    instrument that declared it, resolving the answer's own symbol gives the
    same instrument, and the synthetic recipes of all plugins together are
    acyclic. *)
Theorem registry_coherent (plugins : list InstrumentPlugin) (rg : Registry) :
  build_registry plugins = Ok rg →
  NoDup (symbols rg) ∧
  (∀ s, s ∈ symbols rg ↔ is_Some (rg_instruments rg !! s)) ∧
  (∀ s item, rg_instruments rg !! s = Some item →
     is_symbol item = s ∧ symbol_pattern s = true ∧ s = is_base item +:+ ":" +:+ is_quote item ∧
     (is_asset_class item = BOND → is_yield_strategy item ≠ None) ∧
     ∀ v, normalize_symbol v = s ∨ (∃ a, a ∈ is_aliases item ∧ normalize_symbol v = normalize_symbol a) →
       resolve rg v = Some item) ∧
  (∀ v item, resolve rg v = Some item →
     rg_instruments rg !! is_symbol item = Some item ∧ resolve rg (is_symbol item) = Some item) ∧
  acyclic (route_successors (concat (ip_synthetic_recipes <$> plugins))).
Proof.
  intros [[(Hi & Ha & Hnd & Ho) Hal] Hac]%build_registry_ok. cbn in *.
  assert (Hcanon : ∀ s item, rg_instruments rg !! s = Some item → normalize_symbol s = s ∧
    ∀ v, normalize_symbol v = s → resolve rg v = Some item).
  { intros s item Hs. destruct (Hi s item Hs) as (_ & Hn & _). split; [done|].
    intros v Hv. unfold resolve. rewrite Hv. destruct (rg_aliases rg !! s) as [s'|] eqn:E; [|done].
    destruct (Ha s s' E) as (_ & _ & _ & Hnone). congruence. }
  split_and!; [done|done| | |done].
  - intros s item Hs. destruct (Hi s item Hs) as (H1 & H2 & H3 & H4 & H5).
    split_and!; [done..|]. intros v [Hv|(a & Hain & Hv)]; [by apply (Hcanon s item)|].
    unfold resolve. rewrite Hv, (Hal s item a Hs Hain). done.
  - intros v item Hv. unfold resolve in Hv. cbv zeta in Hv.
    set (s := default _ _) in Hv. destruct (Hi s item Hv) as (E & Hn & _). rewrite E.
    split; [done|]. by apply (Hcanon s item).
Qed.

(** The route validation of a plugin set reports a dependency cycle exactly
    when its synthetic recipes have one. *)
Theorem cycle_detection_exact (plugins : list InstrumentPlugin) :
  match validate_cross_plugin_synthetic_routes plugins with
  | Ok _ => acyclic (route_successors (concat (ip_synthetic_recipes <$> plugins)))
  | Raise e => e = ValueError "instrument plugins have a synthetic dependency cycle" ∧
      ¬ acyclic (route_successors (concat (ip_synthetic_recipes <$> plugins)))
  end.
Proof. apply check_cycles_spec. Qed.

Definition demo_instrument (aliases : list string) : InstrumentSpec :=
  {| is_symbol := "BTC:USDT"; is_base := "BTC"; is_quote := "USDT"; is_name := "Bitcoin";
     is_description := "Bitcoin in Tether"; is_asset_class := CRYPTO; is_asset_type := "crypto";
     is_price_basis := "last"; is_change_basis := "rolling"; is_yield_strategy := None;
     is_dividend_strategy := None; is_reward_accrual_mode := None; is_underlying_asset := None;
     is_aliases := aliases; is_market_calendar := ALWAYS_OPEN;
     is_stale_after_seconds := seconds 30; is_quote_poll_seconds := seconds 1;
     is_history_enabled := true; is_history_poll_seconds := None |}.

Definition demo_plugin (item : InstrumentSpec) : InstrumentPlugin :=
  {| ip_plugin_id := "demo"; ip_version := "1"; ip_instruments := [item];
     ip_has_installer := true; ip_provider_bindings := []; ip_synthetic_recipes := [] |}.

(** A one-word alias is no symbol: the plugin is rejected. *)
Example one_word_alias :
  build_registry [demo_plugin (demo_instrument ["btc"])] =
  Raise (ValueError "invalid alias for BTC:USDT: 'btc'").
Proof. vm_compute. reflexivity. Qed.

Lemma registry_coherent_witness :
  match build_registry [demo_plugin (demo_instrument ["XBT/USD"])] with
  | Ok rg => resolve rg " xbt:usd" = Some (demo_instrument ["XBT/USD"]) ∧ NoDup (symbols rg)
  | Raise _ => False
  end.
Proof.
  destruct (build_registry _) as [rg|e] eqn:E; [|vm_compute in E; discriminate].
  destruct (registry_coherent _ _ E) as (Hnd & _ & _ & _ & _). split; [|exact Hnd].
  vm_compute in E. injection E as <-. vm_compute. reflexivity.
Defined.
