(* ===== verification/Wire.v ===== *)
(** * The wire models ([schemas.py])

    What a snapshot and an instrument look like to a client, and the two
    projections that build them.  A field of type [float] keeps the decimal it
    is converted from; the models add no check of their own, since every field
    already has its declared type. *)

From S2P Require Import Prelude PyStr PyDecimal PyTime Domain PluginApi.

Local Open Scope string_scope.
Local Open Scope list_scope.
Local Open Scope Z_scope.

(** [float(d)] of a decimal, by the decimal. *)
Abbreviation float_of := decimal.

Record SourceComponentModel := {
  scm_symbol : string;
  scm_provider : string;
  scm_feed : option string;
  scm_role : option string;
  scm_price : float_of;
  scm_as_of : Z;
}.

Record SourceModel := {
  sm_provider : string;
  sm_feed : string;
  sm_fallback_level : Z;
  sm_is_derived : bool;
  sm_components : list SourceComponentModel;
  sm_license_scope : string;
  sm_coverage : option string;
}.

Record QualityModel := {
  qm_stale : bool;
  qm_staleness_ms : Z;
}.

Record ChangeModel := {
  cm_percent : float_of;
  cm_reference_price : float_of;
  cm_reference_as_of : Z;
}.

Record DividendModel := {
  dvm_yield_percent : float_of;
  dvm_ex_date : Z;
  dvm_payment_date : option Z;
  dvm_amount : float_of;
  dvm_currency : string;
  dvm_frequency : string;
  dvm_method : string;
  dvm_provider : string;
}.

Record AccrualIndexModel := {
  aim_symbol : string;
  aim_underlying_asset : string;
  aim_value : float_of;
  aim_as_of : Z;
  aim_provider : string;
  aim_kind : string;
}.

Record YieldQualityModel := {
  yqm_stale : bool;
  yqm_staleness_ms : Z;
  yqm_stale_after_seconds : Z;
  yqm_confidence : string;
}.

Record YieldModel := {
  yem_percent : float_of;
  yem_as_of : Z;
  yem_method : string;
  yem_provider : string;
  yem_is_proxy : bool;
  yem_fallback_level : Z;
  yem_rate_type : option string;
  yem_observation_window_days : option float_of;
  yem_accrual_mode : option string;
  yem_underlying_asset : option string;
  yem_is_estimate : bool;
  yem_accrual_index : option AccrualIndexModel;
  yem_quality : option YieldQualityModel;
  yem_components : list SourceComponentModel;
  yem_inputs : list (string * InputValue);
}.

Record QuoteModel := {
  qt_symbol : string;
  qt_base : string;
  qt_quote : string;
  qt_name : string;
  qt_description : string;
  qt_asset_class : string;
  qt_asset_type : string;
  qt_reward_accrual_mode : option string;
  qt_underlying_asset : option string;
  qt_price : float_of;
  qt_price_basis : string;
  qt_as_of : Z;
  qt_market_status : string;
  qt_changes : list (string * option ChangeModel);
  qt_dividend : option DividendModel;
  qt_estimated_annual_yield : option YieldModel;
  qt_source : SourceModel;
  qt_quality : QualityModel;
}.

Record InstrumentModel := {
  im_symbol : string;
  im_base : string;
  im_quote : string;
  im_name : string;
  im_description : string;
  im_asset_class : string;
  im_asset_type : string;
  im_reward_accrual_mode : option string;
  im_underlying_asset : option string;
  im_price_basis : string;
  im_change_basis : string;
  im_change_windows : list (string * string);
  im_dividend_method : option string;
  im_yield_method : option string;
}.

(** ** Enum values *)

Definition AssetClass_value (c : AssetClass) : string :=
  match c with CRYPTO => "crypto" | EQUITY => "equity" | BOND => "bond" | FX => "fx" end.

Definition YieldStrategy_value (s : YieldStrategy) : string :=
  match s with
  | LATEST_DISTRIBUTION_ANNUALIZED => "latest_distribution_annualized"
  | TREASURY_3M_PROXY_MINUS_EXPENSE => "treasury_3m_proxy_minus_expense"
  | TREASURY_PROXY_MINUS_EXPENSE => "treasury_proxy_minus_expense"
  | STAKING_PROVIDER_METRIC => "staking_provider_metric"
  end.

(** ** Ages *)

(** [max(0, int((now - as_of).total_seconds() * 1000))] *)
Definition staleness_ms (now as_of : Z) : Z := Z.max 0 (Z.quot (now - as_of) 1000).

(** [int(threshold_seconds * 1000)] *)
Definition threshold_ms (threshold : Z) : Z := Z.quot threshold 1000.

(** ** Projections *)

Definition instrument_to_wire (i : InstrumentSpec) : InstrumentModel :=
  {| im_symbol := is_symbol i; im_base := is_base i; im_quote := is_quote i;
     im_name := is_name i; im_description := is_description i;
     im_asset_class := AssetClass_value (is_asset_class i);
     im_asset_type := is_asset_type i;
     im_reward_accrual_mode := RewardAccrualMode_value <$> is_reward_accrual_mode i;
     im_underlying_asset := is_underlying_asset i;
     im_price_basis := is_price_basis i; im_change_basis := is_change_basis i;
     im_change_windows :=
       [("1h", "rolling_1_hour"); ("4h", "rolling_4_hours"); ("1d", "rolling_24_hours");
        ("1w", "rolling_7_days"); ("1mo", "rolling_30_days"); ("1y", "rolling_365_days")];
     im_dividend_method := is_dividend_strategy i;
     im_yield_method := YieldStrategy_value <$> is_yield_strategy i |}.

Definition component_to_wire (c : SourceComponent) : SourceComponentModel :=
  {| scm_symbol := sc_symbol c; scm_provider := sc_provider c; scm_feed := sc_feed c;
     scm_role := sc_role c; scm_price := sc_price c; scm_as_of := sc_as_of c |}.

Definition change_to_wire (v : ChangeValue) : ChangeModel :=
  {| cm_percent := cv_percent v; cm_reference_price := cv_reference_price v;
     cm_reference_as_of := cv_reference_as_of v |}.

Definition dividend_to_wire (d : DividendMetric) : DividendModel :=
  {| dvm_yield_percent := dm_yield_percent d; dvm_ex_date := dm_ex_date d;
     dvm_payment_date := dm_payment_date d; dvm_amount := dm_amount d;
     dvm_currency := dm_currency d; dvm_frequency := dm_frequency d;
     dvm_method := dm_method d; dvm_provider := dm_provider d |}.

Definition accrual_index_to_wire (i : AccrualIndexPoint) : AccrualIndexModel :=
  {| aim_symbol := ai_symbol i; aim_underlying_asset := ai_underlying_asset i;
     aim_value := ai_value i; aim_as_of := ai_as_of i; aim_provider := ai_provider i;
     aim_kind := ai_kind i |}.

(** [bool(supplied_quality and supplied_quality.stale)] *)
Definition supplied_stale (y : YieldEstimate) : bool :=
  match ye_quality y with Some q => yq_stale q | None => false end.

Definition supplied_confidence (y : YieldEstimate) : string :=
  match ye_quality y with
  | Some q => yq_confidence q
  | None => if ye_is_proxy y then "low" else "medium"
  end.

Definition yield_quality_to_wire (y : YieldEstimate) (now threshold : Z) : YieldQualityModel :=
  let age := staleness_ms now (ye_as_of y) in
  {| yqm_stale := supplied_stale y || bool_decide (threshold_ms threshold < age);
     yqm_staleness_ms := age;
     yqm_stale_after_seconds := threshold;
     yqm_confidence := supplied_confidence y |}.

Definition yield_to_wire (y : YieldEstimate) (now threshold : Z) : YieldModel :=
  {| yem_percent := ye_percent y; yem_as_of := ye_as_of y; yem_method := ye_method y;
     yem_provider := ye_provider y; yem_is_proxy := ye_is_proxy y;
     yem_fallback_level := ye_fallback_level y;
     yem_rate_type := YieldRateType_value <$> ye_rate_type y;
     yem_observation_window_days := ye_observation_window_days y;
     yem_accrual_mode := RewardAccrualMode_value <$> ye_accrual_mode y;
     yem_underlying_asset := ye_underlying_asset y;
     yem_is_estimate := ye_is_estimate y;
     yem_accrual_index := accrual_index_to_wire <$> ye_accrual_index y;
     yem_quality := Some (yield_quality_to_wire y now threshold);
     yem_components := component_to_wire <$> ye_components y;
     yem_inputs := ye_inputs y |}.

Definition source_to_wire (q : ProviderQuote) : SourceModel :=
  {| sm_provider := pq_provider q; sm_feed := pq_feed q;
     sm_fallback_level := pq_fallback_level q; sm_is_derived := pq_is_derived q;
     sm_components := component_to_wire <$> pq_components q;
     sm_license_scope := pq_license_scope q; sm_coverage := pq_coverage q |}.

Definition snapshot_to_wire (s : QuoteSnapshot) (i : InstrumentSpec) (now stale_after_seconds : Z)
    (yield_stale_after_seconds : option Z) : QuoteModel :=
  let quote := qs_quote s in
  let age := staleness_ms now (pq_as_of quote) in
  {| qt_symbol := is_symbol i; qt_base := is_base i; qt_quote := is_quote i;
     qt_name := is_name i; qt_description := is_description i;
     qt_asset_class := AssetClass_value (is_asset_class i);
     qt_asset_type := is_asset_type i;
     qt_reward_accrual_mode := RewardAccrualMode_value <$> is_reward_accrual_mode i;
     qt_underlying_asset := is_underlying_asset i;
     qt_price := pq_price quote; qt_price_basis := pq_price_basis quote;
     qt_as_of := pq_as_of quote; qt_market_status := pq_market_status quote;
     qt_changes := (λ kv : string * option ChangeValue, (kv.1, change_to_wire <$> kv.2)) <$> qs_changes s;
     qt_dividend := dividend_to_wire <$> qs_dividend s;
     qt_estimated_annual_yield :=
       (λ y, yield_to_wire y now (default stale_after_seconds yield_stale_after_seconds))
         <$> qs_estimated_annual_yield s;
     qt_source := source_to_wire quote;
     qt_quality := {| qm_stale := bool_decide (threshold_ms stale_after_seconds < age);
                      qm_staleness_ms := age |} |}.

(** [cached.model_copy(update={"market_status": ..., "quality": ...,
    "estimated_annual_yield": ...})] *)
Definition with_freshness (m : QuoteModel) (status : string) (quality : QualityModel)
    (annual_yield : option YieldModel) : QuoteModel :=
  {| qt_symbol := qt_symbol m; qt_base := qt_base m; qt_quote := qt_quote m;
     qt_name := qt_name m; qt_description := qt_description m;
     qt_asset_class := qt_asset_class m; qt_asset_type := qt_asset_type m;
     qt_reward_accrual_mode := qt_reward_accrual_mode m;
     qt_underlying_asset := qt_underlying_asset m; qt_price := qt_price m;
     qt_price_basis := qt_price_basis m; qt_as_of := qt_as_of m;
     qt_market_status := status; qt_changes := qt_changes m; qt_dividend := qt_dividend m;
     qt_estimated_annual_yield := annual_yield; qt_source := qt_source m;
     qt_quality := quality |}.

(** [annual_yield.model_copy(update={"quality": ...})] *)
Definition with_yield_quality (m : YieldModel) (quality : option YieldQualityModel) : YieldModel :=
  {| yem_percent := yem_percent m; yem_as_of := yem_as_of m; yem_method := yem_method m;
     yem_provider := yem_provider m; yem_is_proxy := yem_is_proxy m;
     yem_fallback_level := yem_fallback_level m; yem_rate_type := yem_rate_type m;
     yem_observation_window_days := yem_observation_window_days m;
     yem_accrual_mode := yem_accrual_mode m; yem_underlying_asset := yem_underlying_asset m;
     yem_is_estimate := yem_is_estimate m; yem_accrual_index := yem_accrual_index m;
     yem_quality := quality; yem_components := yem_components m; yem_inputs := yem_inputs m |}.

(** ** Lemmas *)

Lemma staleness_le now as_of : as_of ≤ now → staleness_ms now as_of = (now - as_of) / 1000.
Proof.
  intros H. unfold staleness_ms. rewrite Z.quot_div_nonneg by lia.
  pose proof (Z.div_pos (now - as_of) 1000). lia.
Qed.

(** A value is stale once it is at least a whole millisecond past its
    threshold. *)
Lemma stale_iff now as_of threshold : 0 ≤ threshold →
  threshold_ms threshold < staleness_ms now as_of ↔ (threshold / 1000 + 1) * 1000 ≤ now - as_of.
Proof.
  intros H. unfold threshold_ms. rewrite Z.quot_div_nonneg by lia.
  pose proof (Z.div_pos threshold 1000 H ltac:(lia)) as Hq.
  destruct (decide (as_of ≤ now)) as [Hle|Hgt].
  - rewrite staleness_le by done. split; intros Hlt.
    + pose proof (Z.mul_div_le (now - as_of) 1000). lia.
    + assert (threshold / 1000 + 1 ≤ (now - as_of) / 1000); [|lia].
      apply Z.div_le_lower_bound; lia.
  - unfold staleness_ms.
    assert (Z.quot (now - as_of) 1000 ≤ 0) by (apply Z.quot_le_upper_bound; lia). lia.
Qed.
