(* ===== verification/Runtime.v ===== *)
(** * Runtime generations ([runtime.py])

    A generation is the view of the data plane that a request or a collector
    captures; the manager holds the current one and replaces it by one pointer
    assignment under its lock.  The catalogue and the route plan of a generation
    are only carried, so they are their identities; the market state is the
    location of a mutable object of the service. *)

From S2P Require Import Prelude PyStr PyDecimal PyTime Domain PluginApi Registry Wire.
From Stdlib Require Import Ascii.

Local Open Scope string_scope.
Local Open Scope list_scope.
Local Open Scope Z_scope.

(** ** The interpreter *)

Record FreeThreadedStatus := {
  fts_py_gil_disabled : bool;
  fts_gil_enabled : option bool;
}.

Definition free_threaded_ready (s : FreeThreadedStatus) : bool :=
  fts_py_gil_disabled s && bool_decide (fts_gil_enabled s = Some false).

(** [compiled] is the build's [Py_GIL_DISABLED] flag, [checker] the result of
    [sys._is_gil_enabled()] when the interpreter has it. *)
Definition inspect_free_threaded_runtime (compiled : option Z) (checker : option bool)
    : FreeThreadedStatus :=
  {| fts_py_gil_disabled := bool_decide (compiled = Some 1); fts_gil_enabled := checker |}.

(** ** The identity of a registry *)

(** SHA-256 in hexadecimal and [format(seconds, ".12g")]. *)
Class RuntimePrimitives := {
  rt_sha256 : string → string;
  rt_format_12g : Z → string;
}.

Section revision.
Context `{RuntimePrimitives}.

Definition unit_separator : string := String (ascii_of_N 31) "".
Definition newline : string := String (ascii_of_N 10) "".

Definition registry_row (item : InstrumentSpec) : string :=
  join unit_separator
    [is_symbol item; is_name item; is_description item;
     AssetClass_value (is_asset_class item); is_asset_type item; is_price_basis item;
     default "" (YieldStrategy_value <$> is_yield_strategy item);
     default "" (is_dividend_strategy item);
     default "" (RewardAccrualMode_value <$> is_reward_accrual_mode item);
     default "" (is_underlying_asset item);
     MarketCalendar_value (is_market_calendar item);
     rt_format_12g (is_stale_after_seconds item); rt_format_12g (is_quote_poll_seconds item);
     if is_history_enabled item then "1" else "0";
     join "," (is_aliases item)].

(** The instruments in the order of the registry ([registry.values()]). *)
Definition registry_values (rg : Registry) : list InstrumentSpec :=
  omap (λ s, resolve rg s) (Registry.symbols rg).

Definition registry_revision (rg : Registry) : string :=
  rt_sha256 (join newline (registry_row <$> registry_values rg)).

End revision.

(** ** Generations *)

Record RuntimeGeneration := {
  gn_generation_id : string;
  gn_revision : string;
  gn_registry : Registry;
  gn_activated_at : Z;
  gn_catalog : option Z;
  gn_route_plan : option Z;
  gn_data_state : option nat;
}.

(** [_current] of [RuntimeGenerationManager] *)
Record RuntimeGenerationManager := { gm_current : RuntimeGeneration }.

(** The constructor; [uuid] and [now] are what [uuid7] and the clock return. *)
Definition RuntimeGenerationManager_init `{RuntimePrimitives} (rg : Registry)
    (revision : option string) (catalog route_plan : option Z) (data_state : option nat)
    (uuid : string) (now : Z) : RuntimeGenerationManager :=
  {| gm_current :=
       {| gn_generation_id := uuid;
          gn_revision :=
            match revision with
            | Some r => if truthy r then r else registry_revision rg
            | None => registry_revision rg
            end;
          gn_registry := rg; gn_activated_at := now; gn_catalog := catalog;
          gn_route_plan := route_plan; gn_data_state := data_state |} |}.

Definition capture (m : RuntimeGenerationManager) : RuntimeGeneration := gm_current m.

Definition is_current (m : RuntimeGenerationManager) (generation_id : option string) : bool :=
  match generation_id with
  | None => true
  | Some id => bool_decide (gn_generation_id (gm_current m) = id)
  end.

(** [activate]: the new manager, with the previous and the new generation. *)
Definition activate (m : RuntimeGenerationManager) (rg : Registry) (revision : string)
    (catalog route_plan : option Z) (data_state : option nat) (generation_id : option string)
    (uuid : string) (now : Z)
    : RuntimeGenerationManager * (RuntimeGeneration * RuntimeGeneration) :=
  let replacement :=
    {| gn_generation_id :=
         match generation_id with
         | Some id => if truthy id then id else uuid
         | None => uuid
         end;
       gn_revision := revision; gn_registry := rg; gn_activated_at := now;
       gn_catalog := catalog; gn_route_plan := route_plan; gn_data_state := data_state |} in
  ({| gm_current := replacement |}, (gm_current m, replacement)).

(** ** The compatibility view *)

(** [RuntimeRegistryView] delegates every read to the current registry. *)
Definition view_symbols (m : RuntimeGenerationManager) : list string :=
  Registry.symbols (gn_registry (capture m)).
Definition view_resolve (m : RuntimeGenerationManager) (value : string) : option InstrumentSpec :=
  resolve (gn_registry (capture m)) value.
Definition view_canonical_symbol (m : RuntimeGenerationManager) (value : string) : option string :=
  canonical_symbol (gn_registry (capture m)) value.
Definition view_getitem (m : RuntimeGenerationManager) (symbol : string) : result InstrumentSpec :=
  getitem (gn_registry (capture m)) symbol.
Definition view_length (m : RuntimeGenerationManager) : nat :=
  length (Registry.symbols (gn_registry (capture m))).
