(* ===== verification/Auth.v ===== *)
(** * API-key verification and token buckets ([auth.py])

    A bucket's float tokens are exact integers here: times are microseconds and
    one token is [TOKEN] units, so that a rate of [r] per minute refills [r]
    units per microsecond.  An [OrderedDict] is the list of its items, oldest
    first.  The SHA-256 digest and the key manager are parameters. *)

From S2P Require Import Prelude PyStr PyTime.

Local Open Scope string_scope.
Local Open Scope list_scope.
Local Open Scope Z_scope.

(** ** Token buckets *)

Definition TOKEN : Z := 60 * second_us.

Record bucket := { tokens : Z; updated_at : Z }.

Record limiter_config := {
  rate_per_minute : Z;
  capacity : Z;  (* in units *)
  max_identities : Z;
  idle_ttl : Z;
}.

Definition limiter_init (rate cap max_ids idle : Z) : result limiter_config :=
  _ ← raise_if (bool_decide (max_ids ≤ 0 ∨ idle ≤ 0))
        (ValueError "limiter bounds must be positive");
  Ok {| rate_per_minute := rate; capacity := cap * TOKEN; max_identities := max_ids;
        idle_ttl := idle |}.

Abbreviation buckets := (list (string * bucket)).

(** The loop that pops the oldest identities idle since [stale_before]. *)
Fixpoint drop_stale (stale_before : Z) (l : buckets) : buckets :=
  match l with
  | [] => []
  | (i, b) :: l' => if decide (updated_at b < stale_before) then drop_stale stale_before l' else l
  end.

Fixpoint find_bucket (identity : string) (l : buckets) : option bucket :=
  match l with
  | [] => None
  | (i, b) :: l' => if decide (i = identity) then Some b else find_bucket identity l'
  end.

Definition without (identity : string) (l : buckets) : buckets :=
  filter (λ ib, ib.1 ≠ identity) l.

Inductive consume_outcome :=
| Allowed
| RateLimited (retry_after : Z)
| ZeroDivision.  (* a rate of zero *)

#[export] Instance consume_outcome_eq_dec : EqDecision consume_outcome.
Proof. solve_decision. Defined.

(** [RateLimitError(int(wait) + 1)] *)
Definition retry_after (rate remaining : Z) : Z := Z.max 1 (remaining / (rate * second_us) + 1).

(** [consume] *)
Definition consume (cfg : limiter_config) (identity : string) (now : Z) (l : buckets)
    : buckets * consume_outcome :=
  let l1 := drop_stale (now - idle_ttl cfg) l in
  let '(l2, b) :=
    match find_bucket identity l1 with
    | None =>
      (if decide (max_identities cfg ≤ Z.of_nat (length l1)) then tail l1 else l1,
       {| tokens := capacity cfg; updated_at := now |})
    | Some b => (without identity l1, b)
    end in
  let elapsed := Z.max 0 (now - updated_at b) in
  let t := Z.min (capacity cfg) (tokens b + elapsed * rate_per_minute cfg) in
  if decide (TOKEN ≤ t) then
    (l2 ++ [(identity, {| tokens := t - TOKEN; updated_at := now |})], Allowed)
  else
    (l2 ++ [(identity, {| tokens := t; updated_at := now |})],
     if decide (rate_per_minute cfg = 0) then ZeroDivision
     else RateLimited (retry_after (rate_per_minute cfg) (TOKEN - t))).

(** ** Authentication *)

Section authenticator.
Context (sha256_hex : string → string).  (* [hashlib.sha256(...).hexdigest()] *)

Definition hash_api_key (raw_key : string) : result string :=
  _ ← raise_if (negb (truthy raw_key)) (ValueError "API key cannot be empty");
  Ok ("sha256:" +:+ sha256_hex raw_key).

Definition is_hex (c : Ascii.ascii) : bool := is_digit c || bool_decide (97 ≤ code c ≤ 102).

Definition drop_prefix (n : nat) (s : string) : string := String.substring n (String.length s - n) s.

Definition validate_hash (value : string) : result string :=
  let normalized := lower value in
  let digest := drop_prefix 7 normalized in
  _ ← raise_if (negb (startswith "sha256:" normalized && bool_decide (String.length digest = 64%nat) &&
                      str_all is_hex digest))
        (ValueError "QUICKPRICE_API_KEY_HASHES accepts only sha256:<64 hex chars>");
  Ok normalized.

Record Authenticator := {
  au_enabled : bool;
  au_manager : option (string → option string);  (* digest to key context *)
  au_hashes : list string;
  au_valid_cfg : limiter_config;
  au_invalid_cfg : limiter_config;
  au_valid : buckets;
  au_invalid : buckets;
}.

Definition with_limiters (a : Authenticator) (valid invalid : buckets) : Authenticator :=
  {| au_enabled := au_enabled a; au_manager := au_manager a; au_hashes := au_hashes a;
     au_valid_cfg := au_valid_cfg a; au_invalid_cfg := au_invalid_cfg a;
     au_valid := valid; au_invalid := invalid |}.

Inductive auth_outcome :=
| Authenticated (context : string)
| AuthenticationError
| RateLimitError (retry : Z)
| AuthCrash.

Definition zeros : string := String.concat "" (replicate 64 "0").

Definition candidate_of (raw_key : option string) : string :=
  match raw_key with
  | Some k => if truthy k then "sha256:" +:+ sha256_hex k else "sha256:" +:+ zeros
  | None => "sha256:" +:+ zeros
  end.

(** Every configured digest is compared. *)
Definition matches (hashes : list string) (candidate : string) : bool :=
  foldl (λ matched configured, bool_decide (candidate = configured) || matched) false hashes.

Definition key_context (a : Authenticator) (candidate : string) : option string :=
  match au_manager a with
  | Some manager => manager candidate
  | None => if matches (au_hashes a) candidate then Some candidate else None
  end.

Definition auth_limited (o : consume_outcome) (otherwise : auth_outcome) : auth_outcome :=
  match o with
  | Allowed => otherwise
  | RateLimited r => RateLimitError r
  | ZeroDivision => AuthCrash
  end.

Definition authenticate (a : Authenticator) (raw_key : option string) (client_ip : string) (now : Z)
    : Authenticator * auth_outcome :=
  let candidate := candidate_of raw_key in
  match key_context a candidate with
  | None =>
    if au_enabled a then
      let '(invalid, o) := consume (au_invalid_cfg a) client_ip now (au_invalid a) in
      (with_limiters a (au_valid a) invalid, auth_limited o AuthenticationError)
    else (a, AuthenticationError)
  | Some context =>
    if au_enabled a then
      let '(valid, o) := consume (au_valid_cfg a) candidate now (au_valid a) in
      (with_limiters a valid (au_invalid a), auth_limited o (Authenticated context))
    else (a, Authenticated context)
  end.

Definition configured (a : Authenticator) (manager_configured : bool) : bool :=
  match au_manager a with
  | Some _ => manager_configured
  | None => bool_decide (au_hashes a ≠ [])
  end.

End authenticator.

(** ** Lemmas: what one identity can spend *)

Section limiter.
Context (cfg : limiter_config).
Hypothesis Hrate : 0 ≤ rate_per_minute cfg.
Hypothesis Hcap : 0 ≤ capacity cfg.
(** An identity forgotten after idling would have been full anyway. *)
Hypothesis Hidle : capacity cfg ≤ rate_per_minute cfg * idle_ttl cfg.

(** Distinct identities, non-negative tokens within capacity, no bucket dated
    after [now], oldest first. *)
Definition limiter_ok (now : Z) (l : buckets) : Prop :=
  NoDup l.*1 ∧ ∀ i b, (i, b) ∈ l → 0 ≤ tokens b ≤ capacity cfg ∧ updated_at b ≤ now.

(** What [identity] could spend at [now]. *)
Definition available (identity : string) (now : Z) (l : buckets) : Z :=
  match find_bucket identity l with
  | None => capacity cfg
  | Some b => Z.min (capacity cfg) (tokens b + (now - updated_at b) * rate_per_minute cfg)
  end.

Lemma find_bucket_in i b l : find_bucket i l = Some b → (i, b) ∈ l.
Proof.
  induction l as [|[j c] l IH]; cbn; [done|]. case_decide as Hd; [intros [= <-]; subst; by left|].
  intros H%IH. by right.
Qed.

Lemma find_bucket_none i l : find_bucket i l = None ↔ i ∉ l.*1.
Proof.
  induction l as [|[j c] l IH]; cbn; [split; [intros _; apply not_elem_of_nil|done]|].
  rewrite not_elem_of_cons. case_decide as Hd; [split; [done|]; intros [? _]; congruence|].
  rewrite IH. split; [intros; split; [congruence|done]|by intros [_ ?]].
Qed.

Lemma find_bucket_app i l1 l2 :
  find_bucket i (l1 ++ l2) =
  match find_bucket i l1 with Some b => Some b | None => find_bucket i l2 end.
Proof. induction l1 as [|[j c] l IH]; cbn; [done|]. by case_decide. Qed.

Lemma find_bucket_without i j l : i ≠ j → find_bucket i (without j l) = find_bucket i l.
Proof.
  intros Hne. induction l as [|[k c] l IH]; [done|]. unfold without. rewrite filter_cons. cbn.
  fold (without j l). destruct (decide (k ≠ j)) as [Hk|Hk].
  - cbn. case_decide; [done|exact IH].
  - rewrite IH. case_decide; [|done]. subst. exfalso. apply Hk. done.
Qed.

Lemma drop_stale_suffix c l : ∃ dropped, l = dropped ++ drop_stale c l ∧
  ∀ i b, (i, b) ∈ dropped → updated_at b < c.
Proof.
  induction l as [|[i b] l IH]; cbn; [exists []; split; [done|by intros ?? ?%elem_of_nil]|].
  case_decide as Hd; [|exists []; split; [done|by intros ?? ?%elem_of_nil]].
  destruct IH as (d & E & Hl). exists ((i, b) :: d). split; [cbn; by rewrite <- E|].
  intros j c' [[= -> ->]|Hj]%elem_of_cons; [done|by eapply Hl].
Qed.

Lemma limiter_ok_app now l1 l2 : limiter_ok now (l1 ++ l2) → limiter_ok now l2.
Proof.
  intros [Hn Hb]. rewrite fmap_app, NoDup_app in Hn. split; [apply Hn|].
  intros i b Hin. apply (Hb i b), elem_of_app. by right.
Qed.

Lemma limiter_ok_later now now' l : now ≤ now' → limiter_ok now l → limiter_ok now' l.
Proof.
  intros Hle [Hn Hb]. split; [done|]. intros i b Hin. destruct (Hb i b Hin). split; [done|lia].
Qed.

(** Dropping stale identities does not change what anyone can spend. *)
Lemma available_drop_stale i now l :
  limiter_ok now l →
  available i now (drop_stale (now - idle_ttl cfg) l) = available i now l.
Proof.
  intros Hok. destruct (drop_stale_suffix (now - idle_ttl cfg) l) as (d & E & Hd).
  set (l' := drop_stale _ l) in *. clearbody l'. subst l. unfold available.
  rewrite find_bucket_app. destruct (find_bucket i d) as [b|] eqn:Hf; [|done].
  apply find_bucket_in in Hf. specialize (Hd i b Hf).
  destruct Hok as [Hn Hb]. destruct (Hb i b) as [Ht _]; [apply elem_of_app; by left|].
  rewrite fmap_app, NoDup_app in Hn. destruct Hn as (_ & Hdis & _).
  assert (find_bucket i l' = None) as ->.
  { apply find_bucket_none, Hdis. apply list_elem_of_fmap. by exists (i, b). }
  symmetry. apply Z.min_l.
  assert (rate_per_minute cfg * idle_ttl cfg ≤ (now - updated_at b) * rate_per_minute cfg) by nia. lia.
Qed.

Lemma NoDup_without i (l : buckets) : NoDup l.*1 → NoDup (without i l).*1.
Proof.
  induction l as [|[j b] l IH]; [done|]. rewrite fmap_cons. intros [Hnin Hnd]%NoDup_cons.
  unfold without. rewrite filter_cons. case_decide; [|by apply IH]. cbn. constructor; [|by apply IH].
  intros (x & Hx & [_ Hin]%list_elem_of_filter)%list_elem_of_fmap. apply Hnin.
  apply list_elem_of_fmap. by exists x.
Qed.

Lemma elem_of_without i l x : x ∈ without i l ↔ x ∈ l ∧ x.1 ≠ i.
Proof. unfold without. rewrite list_elem_of_filter. tauto. Qed.

(** Storing a bucket dated [now] with [u] tokens. *)
Definition store (identity : string) (u now : Z) (l : buckets) : buckets :=
  without identity l ++ [(identity, {| tokens := u; updated_at := now |})].

Lemma find_without i l : find_bucket i (without i l) = None.
Proof.
  apply find_bucket_none. intros (x & Hx & Hin)%list_elem_of_fmap.
  by destruct (proj1 (elem_of_without i l x) Hin) as [_ []].
Qed.

Lemma store_spec identity u now l :
  limiter_ok now l → 0 ≤ u ≤ capacity cfg →
  limiter_ok now (store identity u now l) ∧
  (∀ j, j ≠ identity → available j now (store identity u now l) = available j now l) ∧
  available identity now (store identity u now l) = u.
Proof.
  intros [Hnd Hb] Hu. unfold store. split_and!.
  - split.
    + rewrite fmap_app. apply NoDup_app. split_and!; [by apply NoDup_without| |apply NoDup_singleton].
      intros x Hx ->%list_elem_of_singleton.
      by apply (proj1 (find_bucket_none identity (without identity l)) (find_without identity l)).
    + intros i c [Hin|Hin]%elem_of_app.
      * by apply (Hb i c), (proj1 (elem_of_without identity l (i, c)) Hin).
      * apply list_elem_of_singleton in Hin. injection Hin as -> ->. cbn. split; [done|lia].
  - intros j Hj. unfold available. rewrite find_bucket_app, find_bucket_without by done.
    destruct (find_bucket j l); [done|]. cbn. by rewrite decide_False.
  - unfold available. rewrite find_bucket_app, find_without. cbn. rewrite decide_True by done.
    cbn. rewrite Z.sub_diag. lia.
Qed.

Definition spent (t : Z) : Z := if decide (TOKEN ≤ t) then TOKEN else 0.

Lemma without_absent i l : find_bucket i l = None → without i l = l.
Proof.
  rewrite find_bucket_none. intros Hn. unfold without. apply filter_all.
  intros [j b] Hin Heq. cbn in Heq. subst. apply Hn, list_elem_of_fmap. by exists (i, b).
Qed.

(** A call that evicts nobody stores what is left of what was available. *)
Lemma consume_eq identity now l :
  let l1 := drop_stale (now - idle_ttl cfg) l in
  let t := available identity now l1 in
  limiter_ok now l1 →
  (find_bucket identity l1 = None → Z.of_nat (length l1) < max_identities cfg) →
  (consume cfg identity now l).1 = store identity (t - spent t) now l1 ∧
  (consume cfg identity now l).2 =
    (if decide (TOKEN ≤ t) then Allowed
     else if decide (rate_per_minute cfg = 0) then ZeroDivision
     else RateLimited (retry_after (rate_per_minute cfg) (TOKEN - t))).
Proof.
  intros l1 t [Hnd Hb] Hroom. unfold consume. fold l1. unfold spent.
  assert (Hmatch : match find_bucket identity l1 with
    | None => (if decide (max_identities cfg ≤ Z.of_nat (length l1)) then tail l1 else l1,
               {| tokens := capacity cfg; updated_at := now |})
    | Some b => (without identity l1, b)
    end = (without identity l1, default {| tokens := capacity cfg; updated_at := now |}
             (find_bucket identity l1))).
  { destruct (find_bucket identity l1) eqn:Hf; [done|]. specialize (Hroom eq_refl).
    rewrite decide_False by lia. by rewrite without_absent. }
  rewrite Hmatch. set (b := default _ _).
  assert (Ht : Z.min (capacity cfg) (tokens b + Z.max 0 (now - updated_at b) * rate_per_minute cfg) = t).
  { unfold t, available, b. destruct (find_bucket identity l1) as [c|] eqn:Hf; cbn.
    - apply find_bucket_in in Hf. destruct (Hb _ _ Hf). by rewrite Z.max_r by lia.
    - rewrite Z.sub_diag. lia. }
  rewrite Ht. unfold store. destruct (decide (TOKEN ≤ t)); cbn; [done|]. by rewrite Z.sub_0_r.
Qed.

Lemma available_range i now l : limiter_ok now l → 0 ≤ available i now l ≤ capacity cfg.
Proof.
  intros [_ Hb]. unfold available. destruct (find_bucket i l) as [b|] eqn:Hf; [|lia].
  apply find_bucket_in in Hf. destruct (Hb _ _ Hf). nia.
Qed.

Lemma limiter_ok_drop now l : limiter_ok now l → limiter_ok now (drop_stale (now - idle_ttl cfg) l).
Proof.
  intros Hok. destruct (drop_stale_suffix (now - idle_ttl cfg) l) as (d & E & _).
  apply (limiter_ok_app now d). by rewrite <- E.
Qed.

(** Time refills at the configured rate. *)
Lemma available_later i now now' l :
  limiter_ok now l → now ≤ now' →
  available i now' l ≤ available i now l + (now' - now) * rate_per_minute cfg.
Proof.
  intros [_ Hb] Hle. unfold available. destruct (find_bucket i l) as [b|]; [|nia]. nia.
Qed.

(** ** Runs *)

Fixpoint admissions (identity : string) (l : buckets) (calls : list (string * Z)) : Z :=
  match calls with
  | [] => 0
  | (i, now) :: calls' =>
    let '(l', o) := consume cfg i now l in
    (if decide (i = identity ∧ o = Allowed) then 1 else 0) + admissions identity l' calls'
  end.

(** The calls come at non-decreasing times from [now] up to [until]. *)
Fixpoint calls_between (now until : Z) (calls : list (string * Z)) : Prop :=
  match calls with
  | [] => now ≤ until
  | (_, t) :: calls' => now ≤ t ∧ calls_between t until calls'
  end.

(** Only identities of [ids] ever call, and they all fit. *)
Lemma room (ids : gset string) l identity :
  NoDup l.*1 → (∀ i, i ∈ l.*1 → i ∈ ids) → identity ∈ ids →
  Z.of_nat (size ids) ≤ max_identities cfg → find_bucket identity l = None →
  Z.of_nat (length l) < max_identities cfg.
Proof.
  intros Hnd Hin Hid Hsize Hf. apply find_bucket_none in Hf.
  assert (size ({[identity]} ∪ list_to_set l.*1 : gset string) ≤ size ids)%nat as Hs.
  { apply subseteq_size. intros x [->%elem_of_singleton|Hx%elem_of_list_to_set]%elem_of_union; auto. }
  rewrite size_union, size_singleton, size_list_to_set, length_fmap in Hs; [lia|done|set_solver].
Qed.

Lemma admissions_bound (ids : gset string) identity now until l calls :
  limiter_ok now l → (∀ i, i ∈ l.*1 → i ∈ ids) → (∀ i t, (i, t) ∈ calls → i ∈ ids) →
  Z.of_nat (size ids) ≤ max_identities cfg → calls_between now until calls →
  TOKEN * admissions identity l calls ≤
    available identity now l + (until - now) * rate_per_minute cfg.
Proof.
  intros Hok Hin Hcalls Hsize. revert now l Hok Hin Hcalls.
  induction calls as [|[i t] calls IH]; intros now l Hok Hin Hcalls Hbt; cbn [admissions].
  { cbn in Hbt. pose proof (available_range identity now l Hok). nia. }
  destruct Hbt as [Hnow Hbt]. pose proof (limiter_ok_later now t l Hnow Hok) as Hokt.
  set (l1 := drop_stale (t - idle_ttl cfg) l). pose proof (limiter_ok_drop t l Hokt) as Hok1.
  fold l1 in Hok1.
  assert (Hin1 : ∀ j, j ∈ l1.*1 → j ∈ ids).
  { intros j Hj. apply Hin. destruct (drop_stale_suffix (t - idle_ttl cfg) l) as (d & -> & _).
    fold l1. rewrite fmap_app. apply elem_of_app. by right. }
  assert (Hi : i ∈ ids) by (apply (Hcalls i t); by left).
  destruct (consume_eq i t l Hok1) as [E1 E2].
  { intros Hf. eapply room; [apply Hok1|exact Hin1|done|done|exact Hf]. }
  fold l1 in E1, E2. set (a := available i t l1) in *.
  pose proof (available_range i t l1 Hok1) as Ha. fold a in Ha.
  assert (Hu : 0 ≤ a - spent a ≤ capacity cfg) by (unfold spent, TOKEN, second_us in *; case_decide; lia).
  destruct (store_spec i (a - spent a) t l1 Hok1 Hu) as (Hok' & Hother & Hself).
  destruct (consume cfg i t l) as [l' o]. cbn in E1, E2. subst l' o.
  set (l' := store i (a - spent a) t l1) in *.
  assert (Hin' : ∀ j, j ∈ l'.*1 → j ∈ ids).
  { intros j Hj. unfold l', store in Hj. rewrite fmap_app in Hj.
    apply elem_of_app in Hj as [(x & -> & Hx)%list_elem_of_fmap|Hj].
    - apply Hin1, list_elem_of_fmap. exists x. split; [done|].
      by apply (elem_of_without i l1 x).
    - cbn in Hj. by apply list_elem_of_singleton in Hj as ->. }
  assert (IH' := IH t l' Hok' Hin' (λ j t' Hj, Hcalls j t' (list_elem_of_further _ _ _ Hj)) Hbt).
  pose proof (available_later identity now t l Hok Hnow) as Hlater.
  assert (Hdrop : available identity t l1 = available identity t l)
    by (by apply available_drop_stale).
  destruct (decide (i = identity)) as [->|Hne].
  - fold a in Hdrop. rewrite Hself in IH'. unfold spent in IH'.
    destruct (decide (TOKEN ≤ a)).
    + rewrite decide_True by done. lia.
    + rewrite decide_False by (intros [_ ?]; by case_decide). lia.
  - rewrite decide_False by tauto. rewrite Hother in IH' by done. lia.
Qed.

(** The invariant of a run in which only identities of [ids] call. *)
Definition run_ok (ids : gset string) (now : Z) (l : buckets) : Prop :=
  limiter_ok now l ∧ ∀ i, i ∈ l.*1 → i ∈ ids.

Lemma run_ok_drop ids now t l :
  run_ok ids now l → now ≤ t → run_ok ids t (drop_stale (t - idle_ttl cfg) l).
Proof.
  intros [Hok Hin] Hle. split; [by apply limiter_ok_drop, (limiter_ok_later now)|].
  intros j Hj. apply Hin. destruct (drop_stale_suffix (t - idle_ttl cfg) l) as (d & -> & _).
  rewrite fmap_app. apply elem_of_app. by right.
Qed.

Lemma run_ok_consume ids now t i l :
  run_ok ids now l → now ≤ t → i ∈ ids → Z.of_nat (size ids) ≤ max_identities cfg →
  let l1 := drop_stale (t - idle_ttl cfg) l in
  let a := available i t l1 in
  (consume cfg i t l).1 = store i (a - spent a) t l1 ∧
  (consume cfg i t l).2 =
    (if decide (TOKEN ≤ a) then Allowed
     else if decide (rate_per_minute cfg = 0) then ZeroDivision
     else RateLimited (retry_after (rate_per_minute cfg) (TOKEN - a))) ∧
  0 ≤ a - spent a ≤ capacity cfg ∧ run_ok ids t l1 ∧ run_ok ids t (consume cfg i t l).1.
Proof.
  intros Hrun Hle Hi Hsize l1 a. pose proof (run_ok_drop ids now t l Hrun Hle) as Hrun1.
  fold l1 in Hrun1. destruct Hrun1 as [Hok1 Hin1].
  destruct (consume_eq i t l Hok1) as [E1 E2].
  { intros Hf. eapply room; [apply Hok1|exact Hin1|done|done|exact Hf]. }
  fold l1 in E1, E2. fold a in E1, E2. pose proof (available_range i t l1 Hok1) as Ha. fold a in Ha.
  assert (Hu : 0 ≤ a - spent a ≤ capacity cfg)
    by (unfold spent, TOKEN, second_us in *; case_decide; lia).
  destruct (store_spec i (a - spent a) t l1 Hok1 Hu) as (Hok' & _ & _).
  split_and!; [done|done|lia|lia|by split|]. rewrite E1. split; [done|].
  intros j Hj. unfold store in Hj. rewrite fmap_app in Hj.
  apply elem_of_app in Hj as [(x & -> & Hx)%list_elem_of_fmap|Hj].
  - apply Hin1, list_elem_of_fmap. exists x. split; [done|]. by apply (elem_of_without i l1 x).
  - cbn in Hj. by apply list_elem_of_singleton in Hj as ->.
Qed.

Definition after (l : buckets) (calls : list (string * Z)) : buckets :=
  foldl (λ l c, (consume cfg c.1 c.2 l).1) l calls.

Lemma run_ok_after ids now until l calls :
  run_ok ids now l → (∀ i t, (i, t) ∈ calls → i ∈ ids) →
  Z.of_nat (size ids) ≤ max_identities cfg → calls_between now until calls →
  run_ok ids until (after l calls).
Proof.
  revert now l. induction calls as [|[i t] calls IH]; intros now l Hrun Hids Hsize Hbt; cbn.
  - destruct Hrun as [Hok Hin]. split; [by eapply limiter_ok_later|done].
  - destruct Hbt as [Hle Hbt]. apply (IH t); [|intros j u Hj; apply (Hids j u); by right|done..].
    eapply run_ok_consume; [done..|apply (Hids i t); by left|done].
Qed.

Lemma retry_enough i now later l ids retry :
  run_ok ids now l → i ∈ ids → Z.of_nat (size ids) ≤ max_identities cfg →
  0 < rate_per_minute cfg → TOKEN ≤ capacity cfg →
  (consume cfg i now l).2 = RateLimited retry → now + seconds retry ≤ later →
  (consume cfg i later (consume cfg i now l).1).2 = Allowed.
Proof.
  intros Hrun Hi Hsize Hr Hc Hlim Hlater.
  destruct (run_ok_consume ids now now i l Hrun ltac:(lia) Hi Hsize) as (E1 & E2 & Hu & Hrun1 & Hrun').
  set (l1 := drop_stale (now - idle_ttl cfg) l) in *. set (a := available i now l1) in *.
  rewrite E2 in Hlim. destruct (decide (TOKEN ≤ a)) as [|Ha]; [done|].
  rewrite decide_False in Hlim by lia. injection Hlim as <-.
  assert (Hret : 1 ≤ retry_after (rate_per_minute cfg) (TOKEN - a)) by (unfold retry_after; lia).
  assert (Hle : now ≤ later) by (unfold seconds, second_us in *; lia).
  destruct (run_ok_consume ids now later i _ Hrun' Hle Hi Hsize) as (_ & -> & _).
  rewrite available_drop_stale by (eapply limiter_ok_later; [exact Hle|apply Hrun']).
  rewrite decide_True; [done|]. rewrite E1.
  destruct Hrun1 as [Hok1 _]. unfold spent in *. rewrite decide_False in * by done.
  unfold available, store. rewrite find_bucket_app, find_without. cbn. rewrite decide_True by done.
  cbn. apply Z.min_glb; [done|].
  assert (TOKEN - a < retry_after (rate_per_minute cfg) (TOKEN - a) * (rate_per_minute cfg * second_us)).
  { unfold retry_after. set (d := rate_per_minute cfg * second_us).
    assert (0 < d) by (unfold d, second_us; lia).
    pose proof (Z.mul_succ_div_gt (TOKEN - a) d ltac:(lia)). nia. }
  unfold seconds, second_us in *. nia.
Qed.

End limiter.

(** ** Properties *)

(** C33: with a capacity no larger than what an identity refills while it may idle,
    at most [max_identities] distinct callers, and clock readings that never
    decrease from one call to the next, no identity is admitted in any interval
    more often than its capacity plus what the rate refills over the interval,
    whatever the calls before it and by others within it.  (A reading older than
    one already recorded refills twice: [late_clock_refills_twice].) *)
Theorem rate_limit_bound (cfg : limiter_config) (ids : gset string) (identity : string)
    (before window : list (string * Z)) (t0 t1 t2 : Z) :
  0 ≤ rate_per_minute cfg → 0 ≤ capacity cfg →
  capacity cfg ≤ rate_per_minute cfg * idle_ttl cfg →
  Z.of_nat (size ids) ≤ max_identities cfg → (∀ i t, (i, t) ∈ before ++ window → i ∈ ids) →
  calls_between t0 t1 before → calls_between t1 t2 window →
  TOKEN * admissions cfg identity (after cfg [] before) window ≤
    capacity cfg + (t2 - t1) * rate_per_minute cfg.
Proof.
  intros Hr Hc Hidle Hsize Hids Hb Hw.
  assert (Hrun : run_ok cfg ids t1 (after cfg [] before)).
  { eapply run_ok_after; [done..| | |done|exact Hb].
    - split; [split; [constructor|by intros ?? ?%elem_of_nil]|by intros ? ?%elem_of_nil].
    - intros i t Hit. apply (Hids i t), elem_of_app. by left. }
  destruct Hrun as [Hok Hin].
  pose proof (admissions_bound cfg Hr Hc Hidle ids identity t1 t2 _ window Hok Hin) as H.
  specialize (H ltac:(intros i t Hit; apply (Hids i t), elem_of_app; by right) Hsize Hw).
  pose proof (available_range cfg Hr Hc identity t1 _ Hok). lia.
Qed.

(** One request per second with a burst of two. *)
Definition demo_limiter : limiter_config :=
  {| rate_per_minute := 60; capacity := 2 * TOKEN; max_identities := 3; idle_ttl := seconds 600 |}.

Lemma rate_limit_bound_witness :
  let calls := [("a", 0); ("a", 1); ("b", 2); ("a", 3); ("a", seconds 2)] in
  admissions demo_limiter "a" [] calls = 3 ∧
  TOKEN * admissions demo_limiter "a" [] calls ≤ 2 * TOKEN + (seconds 2 - 0) * 60.
Proof.
  cbv zeta. split; [vm_compute; reflexivity|].
  apply (rate_limit_bound demo_limiter {["a"; "b"]} "a" []
    [("a", 0); ("a", 1); ("b", 2); ("a", 3); ("a", seconds 2)] 0 0 (seconds 2)).
  - done.
  - done.
  - vm_compute. discriminate.
  - vm_compute. discriminate.
  - intros i t. cbn [app]. rewrite !elem_of_cons, elem_of_nil. intros H.
    destruct_or?; simplify_eq; set_solver.
  - done.
  - cbn. repeat split; lia_time.
Defined.

(** The delay a refused caller is told to wait is enough: its next call
    after that delay is admitted. *)
Theorem retry_after_sufficient (cfg : limiter_config) (ids : gset string) (identity : string)
    (before : list (string * Z)) (t0 now later retry : Z) :
  0 < rate_per_minute cfg → TOKEN ≤ capacity cfg ≤ rate_per_minute cfg * idle_ttl cfg →
  Z.of_nat (size ids) ≤ max_identities cfg → identity ∈ ids →
  (∀ i t, (i, t) ∈ before → i ∈ ids) → calls_between t0 now before →
  let l := after cfg [] before in
  (consume cfg identity now l).2 = RateLimited retry → now + seconds retry ≤ later →
  (consume cfg identity later (consume cfg identity now l).1).2 = Allowed.
Proof.
  intros Hr Hc Hsize Hid Hids Hb l Hlim Hlater.
  assert (Hc0 : 0 ≤ capacity cfg) by (unfold TOKEN, second_us in *; lia).
  eapply (retry_enough cfg); try done; try lia.
  eapply run_ok_after; [lia|done|lia| |exact Hids|done|exact Hb].
  split; [split; [constructor|by intros ?? ?%elem_of_nil]|by intros ? ?%elem_of_nil].
Qed.

Lemma retry_after_sufficient_witness :
  let l := after demo_limiter [] [("a", 0); ("a", 0)] in
  (consume demo_limiter "a" 5 l).2 = RateLimited 1 ∧
  (consume demo_limiter "a" (5 + seconds 1) (consume demo_limiter "a" 5 l).1).2 = Allowed.
Proof.
  cbv zeta. assert (Hlim : (consume demo_limiter "a" 5 (after demo_limiter [] [("a", 0); ("a", 0)])).2 =
    RateLimited 1) by (vm_compute; reflexivity).
  split; [exact Hlim|].
  apply (retry_after_sufficient demo_limiter {["a"]} "a" [("a", 0); ("a", 0)] 0 5 (5 + seconds 1) 1).
  - done.
  - split; vm_compute; discriminate.
  - vm_compute; discriminate.
  - set_solver.
  - intros i t. rewrite !elem_of_cons, elem_of_nil. intros H. destruct_or?; simplify_eq; set_solver.
  - cbn. lia.
  - exact Hlim.
  - done.
Defined.

(** A call whose clock was read before an already recorded one dates the bucket
    back, so the interval between them refills it twice: two admissions of a
    one-token bucket at the same instant. *)
Example late_clock_refills_twice :
  let cfg := {| rate_per_minute := 60; capacity := TOKEN; max_identities := 3;
                idle_ttl := seconds 600 |} in
  let calls := [("a", seconds 11); ("a", seconds 10); ("a", seconds 11)] in
  admissions cfg "a" [] calls = 2.
Proof. vm_compute. reflexivity. Qed.

(** Without a key manager, a request authenticates as the digest of its key
    exactly when that digest is configured and the key's own bucket admits it; a
    missing or unknown key is charged to the client address in the other
    limiter and never touches the buckets of valid keys. *)
Theorem authenticate_correct (sha256_hex : string → string) (a : Authenticator)
    (raw_key : option string) (client_ip : string) (now : Z) :
  au_manager a = None → au_enabled a = true →
  let candidate := candidate_of sha256_hex raw_key in
  let '(a', o) := authenticate sha256_hex a raw_key client_ip now in
  (candidate ∈ au_hashes a →
     au_invalid a' = au_invalid a ∧
     au_valid a' = (consume (au_valid_cfg a) candidate now (au_valid a)).1 ∧
     (o = Authenticated candidate ↔
        (consume (au_valid_cfg a) candidate now (au_valid a)).2 = Allowed)) ∧
  (candidate ∉ au_hashes a →
     au_valid a' = au_valid a ∧
     au_invalid a' = (consume (au_invalid_cfg a) client_ip now (au_invalid a)).1 ∧
     ∀ c, o ≠ Authenticated c).
Proof.
  intros Hm He. cbv zeta. unfold authenticate, key_context. rewrite Hm, He.
  set (candidate := candidate_of sha256_hex raw_key).
  assert (Hmatch : matches (au_hashes a) candidate = true ↔ candidate ∈ au_hashes a).
  { unfold matches. assert (∀ l b, foldl (λ m c, bool_decide (candidate = c) || m) b l = true ↔
      b = true ∨ candidate ∈ l) as ->; [|tauto || naive_solver].
    induction l as [|c l IH]; intros b; cbn; [rewrite elem_of_nil; tauto|].
    rewrite IH, orb_true_iff, bool_decide_eq_true, elem_of_cons. tauto. }
  destruct (matches (au_hashes a) candidate).
  - destruct (consume _ candidate now _) as [valid o] eqn:E. cbn. split.
    + intros _. split_and!; [done..|]. by destruct o.
    + intros Hn. exfalso. by apply Hn, Hmatch.
  - destruct (consume _ client_ip now _) as [invalid o] eqn:E. cbn. split.
    + intros Hin%Hmatch. done.
    + intros _. split_and!; [done..|]. intros c. by destruct o.
Qed.

Lemma authenticate_correct_witness :
  let a := {| au_enabled := true; au_manager := None; au_hashes := ["sha256:k"];
              au_valid_cfg := demo_limiter; au_invalid_cfg := demo_limiter;
              au_valid := []; au_invalid := [] |} in
  (authenticate id a (Some "k") "10.0.0.1" 5).2 = Authenticated "sha256:k" ∧
  au_invalid (authenticate id a (Some "k") "10.0.0.1" 5).1 = [].
Proof.
  cbv zeta. set (a := {| au_enabled := true; au_manager := None |}).
  pose proof (authenticate_correct id a (Some "k") "10.0.0.1" 5 eq_refl eq_refl) as H.
  destruct (authenticate id a (Some "k") "10.0.0.1" 5) as [a' o]. destruct H as [H _].
  destruct H as (Hi & _ & Ho); [by left|]. split; [|exact Hi].
  apply Ho. vm_compute. reflexivity.
Defined.
