(* ===== verification/Json.v ===== *)
(** * JSON values

    What the [json] module of the Python library reads and writes, as the
    program uses it: documents of the account file, payloads of the stored
    records, and the dictionaries of the administrator's interface. *)

From S2P Require Import Prelude PyStr.
From Stdlib Require Import Ascii QArith.

Local Open Scope string_scope.
Local Open Scope list_scope.
Local Open Scope Z_scope.

(** A value of [json.loads]; an object is the list of its items, a float is its
    exact value, or none for a NaN or an infinity. *)
Inductive json :=
| JNull
| JBool (b : bool)
| JInt (n : Z)
| JFloat (value : option Q)
| JString (s : string)
| JArray (l : list json)
| JObject (items : list (string * json)).

Fixpoint json_get (key : string) (items : list (string * json)) : json :=
  match items with
  | [] => JNull
  | (k, v) :: items' => if decide (k = key) then v else json_get key items'
  end.

(** No NaN and no infinity, which [allow_nan=False] rejects. *)
Fixpoint json_finite (j : json) : bool :=
  match j with
  | JFloat None => false
  | JArray l => forallb json_finite l
  | JObject items => forallb (λ kv, json_finite kv.2) items
  | _ => true
  end.

(** ** Text *)

Definition double_quote : string := String (ascii_of_N 34) "".

(** [json.dumps] of one character of a string. *)
Definition json_char (c : ascii) : string :=
  if decide (code c = 34) then "\" +:+ double_quote
  else if decide (code c = 92) then "\\"
  else if decide (code c = 8) then "\b"
  else if decide (code c = 9) then "\t"
  else if decide (code c = 10) then "\n"
  else if decide (code c = 12) then "\f"
  else if decide (code c = 13) then "\r"
  else if decide (32 ≤ code c ≤ 126) then String c ""
  else "\u00" +:+ String (hex_digit (code c / 16)) (String (hex_digit (code c mod 16)) "").

Fixpoint json_chars (s : string) : string :=
  match s with "" => "" | String c s' => json_char c +:+ json_chars s' end.

Definition json_text (s : string) : string := double_quote +:+ json_chars s +:+ double_quote.

Definition json_bool (b : bool) : string := if b then "true" else "false".
