(* ===== verification/AdminAccount.v ===== *)
(** * The administrator account ([admin_account.py])

    One account is kept in a local JSON file and, parsed, in memory; its
    revision is the digest of the file.  SHA-256, scrypt, base64 and the JSON
    reader are parameters; the JSON writer is written out for the one document
    the program writes.  The file system is what [lstat] and the read deliver
    and how the atomic write ended, on a POSIX system (the Windows access
    control lists are not modelled). *)

From S2P Require Import Prelude PyStr Json.
From Stdlib Require Import Ascii QArith.

Local Open Scope string_scope.
Local Open Scope list_scope.
Local Open Scope Z_scope.

(** ** Values read from a file *)

(** [value == 1]: a true boolean and the float 1.0 are equal to it. *)
Definition json_is_one (j : json) : bool :=
  match j with
  | JBool b => b
  | JInt n => bool_decide (n = 1)
  | JFloat (Some q) => Qeq_bool q 1
  | _ => false
  end.

(** [int(text)]: digits with single underscores between them, and a sign. *)
Fixpoint int_digits (acc digits : Z) (need : bool) (s : string) : option Z :=
  match s with
  | "" => if need || bool_decide (4300 < digits) then None else Some acc
  | String c s' =>
    if is_digit c then int_digits (acc * 10 + (code c - 48)) (digits + 1) false s'
    else if decide (c = "_"%char) then if need then None else int_digits acc digits true s'
    else None
  end.

Definition py_int (text : string) : option Z :=
  match strip text with
  | String "-"%char s => Z.opp <$> int_digits 0 0 true s
  | String "+"%char s => int_digits 0 0 true s
  | s => int_digits 0 0 true s
  end.

(** ** Accounts *)

Definition MAX_ACCOUNT_FILE_BYTES : Z := 16 * 1024.

(** [len(content)] *)
Definition size_of (content : string) : Z := Z.of_nat (String.length content).
Definition SCRYPT_NAME : string := "scrypt".
Definition SCRYPT_N : Z := 2 ^ 15.
Definition SCRYPT_R : Z := 8.
Definition SCRYPT_P : Z := 1.
Definition ACCOUNT_FIELDS : list string :=
  ["version"; "username"; "password_verifier"; "password_change_required"].

Record AdminAccount := {
  aa_username : string;
  aa_password_verifier : string;
  aa_password_change_required : bool;
  aa_revision : string;
}.

#[export] Instance AdminAccount_eq_dec : EqDecision AdminAccount.
Proof. solve_decision. Defined.

Definition AdminAccountError (msg : string) : exn := NamedError "AdminAccountError" msg.
Definition not_configured_account : exn :=
  NamedError "AdminAccountNotConfiguredError" "administrator account is not configured".

(** [^[A-Za-z0-9._-]{1,64}$] *)
Definition username_char (c : ascii) : bool :=
  is_upper c || is_lower c || is_digit c || bool_decide (c ∈ ["."; "_"; "-"]%char).

Definition validate_admin_username (username : string) : result string :=
  _ ← raise_if (negb (str_all username_char username &&
                      bool_decide (1 ≤ String.length username ≤ 64)%nat))
        (ValueError "administrator username must contain 1 to 64 ASCII letters, digits, '.', '_', or '-'");
  Ok username.

(** [^[0-9a-f]{64}$] *)
Definition revision_pattern (revision : string) : bool :=
  str_all (λ c, is_digit c || bool_decide (97 ≤ code c ≤ 102)) revision &&
  bool_decide (String.length revision = 64%nat).

(** The library functions the account file relies on. *)
Class AccountPrimitives := {
  sha256_hex : string → string;  (* [hashlib.sha256(...).hexdigest()] *)
  scrypt : Z → Z → Z → string → string → string;  (* n, r, p, salt, password *)
  urlsafe_b64encode : string → string;
  urlsafe_b64decode : string → option string;
  json_loads : string → option json;
}.

Section account.
Context `{AccountPrimitives}.

(** [rstrip("=")] *)
Fixpoint rstrip_char (c : ascii) (s : string) : string :=
  match s with
  | "" => ""
  | String a s' =>
    match rstrip_char c s' with
    | "" => if decide (a = c) then "" else String a ""
    | r => String a r
    end
  end.

Definition b64encode (value : string) : string := rstrip_char "="%char (urlsafe_b64encode value).

Definition b64decode (value : string) : option string :=
  urlsafe_b64decode
    (value +:+ String.concat "" (replicate ((4 - String.length value mod 4) mod 4)%nat "=")).

(** [str(n)] of the three cost parameters. *)
Definition verifier_prefix : list string := [SCRYPT_NAME; "32768"; "8"; "1"].

(** [create_admin_password_verifier], for the salt that [os.urandom] draws. *)
Definition create_admin_password_verifier (salt password : string) : result string :=
  _ ← raise_if (negb (bool_decide (8 ≤ String.length password ≤ 256)%nat))
        (ValueError "administrator password must contain 8 to 256 characters");
  let digest := scrypt SCRYPT_N SCRYPT_R SCRYPT_P salt password in
  Ok (join "$" (verifier_prefix ++ [b64encode salt; b64encode digest])).

Definition parse_admin_password_verifier (value : string)
    : result (Z * Z * Z * string * string) :=
  match split_on "$" value with
  | [name; raw_n; raw_r; raw_p; raw_salt; raw_digest] =>
    match py_int raw_n, py_int raw_r, py_int raw_p, b64decode raw_salt, b64decode raw_digest with
    | Some n, Some r, Some p, Some salt, Some digest =>
      _ ← raise_if (bool_decide (name ≠ SCRYPT_NAME ∨ (n, r, p) ≠ (SCRYPT_N, SCRYPT_R, SCRYPT_P)))
            (ValueError "unsupported administrator password verifier parameters");
      _ ← raise_if (bool_decide (String.length salt ≠ 16%nat ∨ String.length digest ≠ 32%nat))
            (ValueError "invalid administrator password verifier length");
      Ok (n, r, p, salt, digest)
    | _, _, _, _, _ => Raise (ValueError "invalid administrator password verifier")
    end
  | _ => Raise (ValueError "invalid administrator password verifier")
  end.

Definition verify_admin_password (password verifier : string) : result bool :=
  parsed ← parse_admin_password_verifier verifier;
  let '(n, r, p, salt, expected) := parsed in
  let bounded := if decide (String.length password ≤ 256)%nat then password else "" in
  let candidate := scrypt n r p salt bounded in
  Ok (bool_decide (8 ≤ String.length bounded ≤ 256)%nat && bool_decide (candidate = expected)).

Definition revision (content : string) : string := sha256_hex content.

Definition empty_revision : string := revision "".

(** [_serialize_account]; [json.dumps] sorts the keys. *)
Definition serialize_account (username password_verifier : string) (change_required : bool)
    : result string :=
  name ← validate_admin_username username;
  _ ← parse_admin_password_verifier password_verifier;
  Ok ("{" +:+ json_text "password_change_required" +:+ ":" +:+ json_bool change_required +:+ "," +:+
      json_text "password_verifier" +:+ ":" +:+ json_text password_verifier +:+ "," +:+
      json_text "username" +:+ ":" +:+ json_text name +:+ "," +:+
      json_text "version" +:+ ":1}" +:+ String (ascii_of_N 10) "").

(** The document [serialize_account] writes. *)
Definition account_document (username password_verifier : string) (change_required : bool) : json :=
  JObject [("password_change_required", JBool change_required);
           ("password_verifier", JString password_verifier);
           ("username", JString username); ("version", JInt 1)].

(** [set(document) == _ACCOUNT_FIELDS] *)
Definition has_account_fields (items : list (string * json)) : bool :=
  bool_decide ((list_to_set items.*1 : gset string) = list_to_set ACCOUNT_FIELDS).

(** A [ValueError] of the validators becomes an error of the file. *)
Definition reading_account {A} (m : result A) : result A :=
  match m with
  | Raise (ValueError _) => Raise (AdminAccountError "administrator account file is invalid")
  | _ => m
  end.

(** [_parse_account] *)
Definition parse_account (content : string) : result AdminAccount :=
  _ ← raise_if (negb (truthy content)) not_configured_account;
  _ ← raise_if (bool_decide (MAX_ACCOUNT_FILE_BYTES < size_of content))
        (AdminAccountError "administrator account file is too large");
  match json_loads content with
  | None => Raise (AdminAccountError "administrator account file is invalid")
  | Some (JObject items) =>
    _ ← raise_if (negb (has_account_fields items))
          (AdminAccountError "administrator account file has an invalid schema");
    _ ← raise_if (negb (json_is_one (json_get "version" items)))
          (AdminAccountError "administrator account file version is unsupported");
    match json_get "username" items, json_get "password_verifier" items with
    | JString username, JString verifier =>
      name ← reading_account (validate_admin_username username);
      _ ← reading_account (parse_admin_password_verifier verifier);
      match json_get "password_change_required" items with
      | JBool change_required =>
        Ok {| aa_username := name; aa_password_verifier := verifier;
              aa_password_change_required := change_required;
              aa_revision := revision content |}
      | _ => Raise (AdminAccountError "administrator account file is invalid")
      end
    | _, _ => Raise (AdminAccountError "administrator account file is invalid")
    end
  | Some _ => Raise (AdminAccountError "administrator account file has an invalid schema")
  end.

(** ** The file *)

(** What the path holds. *)
Inductive account_path :=
| PathMissing
| PathSymlink
| PathOther  (* neither a link nor a regular file *)
| PathFile (mode : Z) (owned : bool) (content : string).

Definition read_account_file (path : account_path) : result string :=
  match path with
  | PathMissing => Ok ""
  | PathSymlink => Raise (AdminAccountError "administrator account path cannot be a symbolic link")
  | PathOther => Raise (AdminAccountError "administrator account path must be a regular file")
  | PathFile mode owned content =>
    _ ← raise_if (bool_decide (Z.land mode 63 ≠ 0))
          (AdminAccountError "administrator account file permissions must be 0600");
    _ ← raise_if (negb owned) (AdminAccountError "administrator account file owner is invalid");
    _ ← raise_if (bool_decide (MAX_ACCOUNT_FILE_BYTES < size_of content))
          (AdminAccountError "administrator account file is too large");
    Ok content
  end.

(** How the system calls of [_atomic_write] ended: an exception leaves the
    path as it was or, when the directory could not be synchronised, after the
    replacement. *)
Inductive write_outcome :=
| Written
| WriteFailed (replaced : bool) (e : exn).

Definition atomic_write (content : string) (outcome : write_outcome) (path : account_path)
    : account_path * result unit :=
  if decide (MAX_ACCOUNT_FILE_BYTES < size_of content) then
    (path, Raise (AdminAccountError "administrator account file is too large"))
  else
    let written := PathFile 384 true content in
    match path, outcome with
    | PathSymlink, _ =>
      (path, Raise (AdminAccountError "administrator account path cannot be a symbolic link"))
    | _, Written => (written, Ok tt)
    | _, WriteFailed replaced e => (if replaced then written else path, Raise e)
    end.

(** ** The store *)

Record AdminAccountStore := {
  st_path : account_path;
  st_account : option AdminAccount;
}.

Definition store_init (path : account_path) : result AdminAccountStore :=
  content ← read_account_file path;
  if truthy content then
    account ← parse_account content; Ok {| st_path := path; st_account := Some account |}
  else Ok {| st_path := path; st_account := None |}.

Definition store_configured (s : AdminAccountStore) : bool := bool_decide (is_Some (st_account s)).

Definition current (s : AdminAccountStore) : option AdminAccount := st_account s.

Definition require_current (s : AdminAccountStore) : result AdminAccount :=
  match current s with Some account => Ok account | None => Raise not_configured_account end.

Record account_snapshot := {
  as_configured : bool;
  as_username : option string;
  as_password_change_required : bool;
  as_revision : string;
}.

Definition snapshot (s : AdminAccountStore) : account_snapshot :=
  {| as_configured := bool_decide (is_Some (st_account s));
     as_username := aa_username <$> st_account s;
     as_password_change_required :=
       match st_account s with Some a => aa_password_change_required a | None => false end;
     as_revision :=
       match st_account s with Some a => aa_revision a | None => empty_revision end |}.

(** The write and the parse that end [bootstrap] and [replace]. *)
Definition commit_account (content : string) (outcome : write_outcome) (s : AdminAccountStore)
    : AdminAccountStore * result AdminAccount :=
  let '(path, written) := atomic_write content outcome (st_path s) in
  let s1 := {| st_path := path; st_account := st_account s |} in
  match written with
  | Raise e => (s1, Raise e)
  | Ok _ =>
    match parse_account content with
    | Raise e => (s1, Raise e)
    | Ok account => ({| st_path := path; st_account := Some account |}, Ok account)
    end
  end.

Definition bootstrap (username password_verifier : string) (change_required : bool)
    (outcome : write_outcome) (s : AdminAccountStore) : AdminAccountStore * result AdminAccount :=
  match serialize_account username password_verifier change_required with
  | Raise e => (s, Raise e)
  | Ok content =>
    match read_account_file (st_path s) with
    | Raise e => (s, Raise e)
    | Ok current_content =>
      if truthy current_content then
        match parse_account current_content with
        | Raise e => (s, Raise e)
        | Ok account => ({| st_path := st_path s; st_account := Some account |}, Ok account)
        end
      else commit_account content outcome s
    end
  end.

Definition replace_checks (username password_verifier : string) (change_required : bool)
    (expected_revision : string) (s : AdminAccountStore) : result string :=
  _ ← raise_if (negb (revision_pattern expected_revision))
        (ValueError "expected_revision must be a SHA-256 hexadecimal digest");
  content ← serialize_account username password_verifier change_required;
  current_content ← read_account_file (st_path s);
  _ ← raise_if (bool_decide (revision current_content ≠ expected_revision))
        (NamedError "AdminAccountRevisionError" "administrator account changed concurrently");
  _ ← raise_if (negb (truthy current_content)) not_configured_account;
  _ ← parse_account current_content;
  Ok content.

Definition replace (username password_verifier : string) (change_required : bool)
    (expected_revision : string) (outcome : write_outcome) (s : AdminAccountStore)
    : AdminAccountStore * result AdminAccount :=
  match replace_checks username password_verifier change_required expected_revision s with
  | Raise e => (s, Raise e)
  | Ok content => commit_account content outcome s
  end.

End account.

(** ** Lemmas *)

Section facts.
Context `{AccountPrimitives}.

Lemma serialize_ok username verifier change content :
  serialize_account username verifier change = Ok content →
  validate_admin_username username = Ok username ∧ is_ok (parse_admin_password_verifier verifier) ∧
  content ≠ "".
Proof.
  unfold serialize_account, validate_admin_username.
  destruct (negb _); cbn; [done|].
  destruct (parse_admin_password_verifier verifier) as [v|] eqn:Hv; cbn; [|done].
  intros [= <-]. split_and!; [done|by exists v|done].
Qed.

Lemma atomic_write_ok content write path path' :
  atomic_write content write path = (path', Ok ()) →
  path' = PathFile 384 true content ∧ size_of content ≤ MAX_ACCOUNT_FILE_BYTES.
Proof.
  unfold atomic_write. case_decide; [done|]. destruct path, write; intros [= <-]; split; done || lia.
Qed.

Lemma atomic_write_failed content write path path' e :
  atomic_write content write path = (path', Raise e) → path' = path ∨ ∃ e', write = WriteFailed true e'.
Proof.
  unfold atomic_write. case_decide; [intros [= <- _]; by left|].
  destruct path, write as [|[] ?]; intros [= <- _]; eauto.
Qed.

(** What the file and the memory hold after a write. *)
Lemma read_written content :
  size_of content ≤ MAX_ACCOUNT_FILE_BYTES →
  read_account_file (PathFile 384 true content) = Ok content.
Proof.
  intros Hl. cbn.
  by rewrite (bool_decide_false (MAX_ACCOUNT_FILE_BYTES < size_of content)) by lia.
Qed.

Lemma parse_serialized username verifier change content :
  serialize_account username verifier change = Ok content →
  json_loads content = Some (account_document username verifier change) →
  size_of content ≤ MAX_ACCOUNT_FILE_BYTES →
  parse_account content =
    Ok {| aa_username := username; aa_password_verifier := verifier;
          aa_password_change_required := change; aa_revision := revision content |}.
Proof.
  intros (Hu & [v Hv] & Hne)%serialize_ok Hj Hl. unfold parse_account, truthy.
  rewrite (bool_decide_false (content = "")) by done.
  rewrite (bool_decide_false (MAX_ACCOUNT_FILE_BYTES < size_of content)) by lia.
  cbn [negb raise_if mbind result_bind]. rewrite Hj. unfold account_document. set (items := [_; _; _; _]).
  assert (has_account_fields items = true) as ->
    by (unfold has_account_fields; apply bool_decide_eq_true; set_solver).
  assert (json_get "version" items = JInt 1) as -> by reflexivity.
  assert (json_get "username" items = JString username) as -> by reflexivity.
  assert (json_get "password_verifier" items = JString verifier) as -> by reflexivity.
  assert (json_get "password_change_required" items = JBool change) as -> by reflexivity.
  unfold json_is_one. rewrite (bool_decide_true (1 = 1)) by done.
  cbn [negb raise_if mbind result_bind]. rewrite Hu, Hv. done.
Qed.

Lemma replace_checks_ok username verifier change expected s content :
  replace_checks username verifier change expected s = Ok content →
  serialize_account username verifier change = Ok content ∧
  ∃ old, read_account_file (st_path s) = Ok old ∧ revision old = expected ∧ old ≠ "".
Proof.
  unfold replace_checks. destruct (negb (revision_pattern _)); cbn; [done|].
  destruct (serialize_account _ _ _) as [c|]; cbn; [|done].
  destruct (read_account_file _) as [old|]; cbn; [|done].
  destruct (decide (revision old = expected)) as [Hr|Hr];
    [rewrite (bool_decide_false (revision old ≠ expected)) by tauto
    |by rewrite (bool_decide_true (revision old ≠ expected))]. cbn.
  destruct (truthy old) eqn:Ht; cbn; [|done]. destruct (parse_account old); cbn; [|done].
  intros [= <-]. split; [done|]. exists old. split_and!; [done..|].
  intros ->. done.
Qed.

Lemma replace_ok username verifier change expected write s s' account :
  replace username verifier change expected write s = (s', Ok account) →
  ∃ content old, serialize_account username verifier change = Ok content ∧
    read_account_file (st_path s) = Ok old ∧ revision old = expected ∧ old ≠ "" ∧
    size_of content ≤ MAX_ACCOUNT_FILE_BYTES ∧ parse_account content = Ok account ∧
    s' = {| st_path := PathFile 384 true content; st_account := Some account |}.
Proof.
  unfold replace. destruct (replace_checks _ _ _ _ _) as [content|] eqn:Hc; [|done].
  apply replace_checks_ok in Hc as (Hs & old & Hr & Hrev & Hne). unfold commit_account.
  destruct (atomic_write _ _ _) as [path [[]|]] eqn:Hw; [|done].
  apply atomic_write_ok in Hw as [-> Hl]. destruct (parse_account content) as [a|] eqn:Hp; [|done].
  intros [= <- <-]. exists content, old. by split_and!.
Qed.

End facts.

(** ** Properties *)

(** Given that the JSON reader inverts the writer on the new document, a
    replacement succeeds only against the revision its caller saw: it then
    leaves that document in the file and the account it describes in memory, as
    a restart would, and a second caller who saw the same revision fails unless
    the two files have the same digest.  A replacement that fails keeps the
    account in memory, and the file too unless the directory could not be
    synchronised after the rename. *)
Theorem replace_guarded `{AccountPrimitives} (username verifier expected : string) (change : bool)
    (write : write_outcome) (s s' : AdminAccountStore) (r : result AdminAccount) :
  (∀ content, serialize_account username verifier change = Ok content →
              json_loads content = Some (account_document username verifier change)) →
  replace username verifier change expected write s = (s', r) →
  match r with
  | Ok account =>
    ∃ content old, serialize_account username verifier change = Ok content ∧
      read_account_file (st_path s) = Ok old ∧ old ≠ "" ∧ revision old = expected ∧
      account = {| aa_username := username; aa_password_verifier := verifier;
                   aa_password_change_required := change; aa_revision := revision content |} ∧
      s' = {| st_path := PathFile 384 true content; st_account := Some account |} ∧
      store_init (st_path s') = Ok s' ∧
      ∀ username' verifier' change' write' s'' account',
        replace username' verifier' change' expected write' s' = (s'', Ok account') →
        revision content = revision old
  | Raise _ =>
    st_account s' = st_account s ∧ (st_path s' = st_path s ∨ ∃ e, write = WriteFailed true e)
  end.
Proof.
  intros Hjson Hrep. destruct r as [account|e].
  - destruct (replace_ok _ _ _ _ _ _ _ _ Hrep) as (content & old & Hs & Hr & Hrev & Hne & Hl & Hp & ->).
    exists content, old. pose proof Hp as Hacc.
    rewrite (parse_serialized _ _ _ _ Hs (Hjson _ Hs) Hl) in Hacc. injection Hacc as <-.
    split_and!; [done..| |].
    + unfold store_init. cbn [st_path]. rewrite read_written by done. cbn. rewrite Hp.
      destruct (serialize_ok _ _ _ _ Hs) as (_ & _ & Hn). unfold truthy.
      by rewrite (bool_decide_false (content = "")).
    + intros u v c w s'' a (c2 & old2 & _ & Hr2 & Hrev2 & _)%replace_ok. cbn [st_path] in Hr2.
      rewrite read_written in Hr2 by done. injection Hr2 as <-. congruence.
  - unfold replace in Hrep. destruct (replace_checks _ _ _ _ _) as [content|] eqn:Hc;
      [|injection Hrep as <- _; auto].
    apply replace_checks_ok in Hc as (Hs & _). unfold commit_account in Hrep.
    destruct (atomic_write _ _ _) as [path [[]|e']] eqn:Hw.
    + apply atomic_write_ok in Hw as [_ Hl].
      by rewrite (parse_serialized _ _ _ _ Hs (Hjson _ Hs) Hl) in Hrep.
    + apply atomic_write_failed in Hw. injection Hrep as <- _. by split.
Qed.

(** ** A concrete account *)

(** Toy primitives: a checksum of 64 hexadecimal digits, a hash that keeps the
    first 32 characters, and base64 as the identity. *)
Definition demo_sha256 (s : string) : string :=
  let n := foldl (λ acc c, (acc * 257 + code c) mod (2 ^ 61 - 1)) 7 (String.list_ascii_of_string s) in
  String.string_of_list_ascii
    (map (λ i, hex_digit (Z.land (Z.shiftr n (4 * Z.of_nat i)) 15)) (seq 0 16) ++ replicate 48 "0"%char).

Definition demo_scrypt (n r p : Z) (salt password : string) : string :=
  String.substring 0 32 (password +:+ salt +:+ "................................").

Definition demo_writer : AccountPrimitives :=
  {| sha256_hex := demo_sha256; scrypt := demo_scrypt; urlsafe_b64encode := id;
     urlsafe_b64decode := Some; json_loads := λ _, None |}.

Definition ok_or {A} (d : A) (m : result A) : A := match m with Ok a => a | Raise _ => d end.

Definition demo_verifier (password : string) : string :=
  ok_or "" (@create_admin_password_verifier demo_writer "0123456789abcdef" password).

Definition demo_content (password : string) (change_required : bool) : string :=
  ok_or "" (@serialize_account demo_writer "root" (demo_verifier password) change_required).

Definition demo_json (content : string) : option json :=
  let doc password change_required :=
    if decide (content = demo_content password change_required)
    then Some (account_document "root" (demo_verifier password) change_required) else None in
  match doc "correct horse" true with Some j => Some j | None => doc "battery staple" false end.

Definition demo_account : AccountPrimitives :=
  {| sha256_hex := demo_sha256; scrypt := demo_scrypt; urlsafe_b64encode := id;
     urlsafe_b64decode := Some; json_loads := demo_json |}.

#[local] Existing Instance demo_account.

Definition demo_path : account_path := PathFile 384 true (demo_content "correct horse" true).

Definition demo_store : AdminAccountStore :=
  ok_or {| st_path := demo_path; st_account := None |} (store_init demo_path).

Definition demo_replaced : AdminAccountStore :=
  (replace "root" (demo_verifier "battery staple") false (revision (demo_content "correct horse" true))
     Written demo_store).1.

Lemma replace_guarded_witness :
  ∃ content old, serialize_account "root" (demo_verifier "battery staple") false = Ok content ∧
    read_account_file (st_path demo_store) = Ok old ∧ old ≠ "" ∧
    revision old = revision (demo_content "correct horse" true) ∧
    default {| aa_username := ""; aa_password_verifier := ""; aa_password_change_required := false;
               aa_revision := "" |} (st_account demo_replaced) =
      {| aa_username := "root"; aa_password_verifier := demo_verifier "battery staple";
         aa_password_change_required := false; aa_revision := revision content |} ∧
    demo_replaced = {| st_path := PathFile 384 true content; st_account := st_account demo_replaced |} ∧
    store_init (st_path demo_replaced) = Ok demo_replaced.
Proof.
  assert (Hjson : ∀ content, serialize_account "root" (demo_verifier "battery staple") false = Ok content →
    json_loads content = Some (account_document "root" (demo_verifier "battery staple") false)).
  { intros content Hc. replace content with (demo_content "battery staple" false).
    - vm_compute. reflexivity.
    - unfold demo_content.
      change (@serialize_account demo_writer "root" (demo_verifier "battery staple") false)
        with (serialize_account "root" (demo_verifier "battery staple") false).
      by rewrite Hc. }
  assert (Hrep : replace "root" (demo_verifier "battery staple") false
    (revision (demo_content "correct horse" true)) Written demo_store =
    (demo_replaced, Ok (default {| aa_username := ""; aa_password_verifier := "";
       aa_password_change_required := false; aa_revision := "" |} (st_account demo_replaced))))
    by (vm_compute; reflexivity).
  destruct (replace_guarded "root" (demo_verifier "battery staple")
    (revision (demo_content "correct horse" true)) false Written demo_store demo_replaced
    (Ok (default {| aa_username := ""; aa_password_verifier := "";
       aa_password_change_required := false; aa_revision := "" |} (st_account demo_replaced)))
    Hjson Hrep) as (content & old & H1 & H2 & H3 & H4 & H5 & H6 & H7 & _).
  exists content, old. split_and!; [exact H1|exact H2|exact H3|exact H4|exact H5| |exact H7].
  rewrite H6. reflexivity.
Defined.
