(* ===== verification/AdminSecurity.v ===== *)
(** * Administrator authentication ([admin_security.py])

    Login with password and one-time code, the bounded table of process-local
    sessions, and the account change that revokes them.  A method holds the
    lock only around its last part; what other threads do before that is a
    list of atomic steps it is interleaved with.  HMAC, SHA-256, scrypt, the
    IP address and URL parsers are parameters, and so are the random tokens a
    session is created with. *)

From S2P Require Import Prelude PyStr PyTime Json Auth AdminAccount.
From Stdlib Require Import Ascii.

Local Open Scope string_scope.
Local Open Scope list_scope.
Local Open Scope Z_scope.

(** ** Constants and errors *)

Definition SESSION_LIMIT : nat := 64.
Definition SCRYPT_WORK_LIMIT : nat := 2.
Definition ACCOUNT_CHANGE_MAX_SESSION_AGE : Z := seconds 300.
Definition COOKIE_PRODUCTION : string := "__Host-quickprice_admin".
Definition COOKIE_DEVELOPMENT : string := "quickprice_admin".

Definition AdminNotConfiguredError : exn :=
  NamedError "AdminNotConfiguredError" "administrator authentication is not configured".
Definition AdminAuthenticationError (msg : string) : exn := NamedError "AdminAuthenticationError" msg.
Definition AdminAuthorizationError (msg : string) : exn := NamedError "AdminAuthorizationError" msg.
Definition AdminPasswordChangeRequiredError : exn :=
  NamedError "AdminPasswordChangeRequiredError"
    "administrator password must be changed before continuing".
Definition AdminRateLimitError (retry_after : Z) : exn :=
  RetryError "AdminRateLimitError" (Z.max 1 retry_after).

(** ** Sessions *)

(** [as_object] is the identity of the Python object. *)
Record AdminSession := {
  as_object : nat;
  as_session_digest : string;
  as_csrf_token : string;
  as_user_agent_digest : string;
  as_created_monotonic : Z;
  as_last_seen_monotonic : Z;
  as_absolute_expires_monotonic : Z;
  as_created_at_epoch : Z;
  as_client_ip : string;
  as_username : string;
  as_account_revision : string;
  as_password_change_required : bool;
}.

Record AdminLoginResult := {
  lg_session_token : string;
  lg_csrf_token : string;
  lg_expires_at_epoch : Z;
  lg_username : string;
  lg_password_change_required : bool;
}.

Definition seen_at (now : Z) (x : AdminSession) : AdminSession :=
  {| as_object := as_object x; as_session_digest := as_session_digest x;
     as_csrf_token := as_csrf_token x; as_user_agent_digest := as_user_agent_digest x;
     as_created_monotonic := as_created_monotonic x; as_last_seen_monotonic := now;
     as_absolute_expires_monotonic := as_absolute_expires_monotonic x;
     as_created_at_epoch := as_created_at_epoch x; as_client_ip := as_client_ip x;
     as_username := as_username x; as_account_revision := as_account_revision x;
     as_password_change_required := as_password_change_required x |}.

(** The items of a dict in insertion order. *)
Abbreviation session_table := (list (string * AdminSession)).

Fixpoint table_get (digest : string) (l : session_table) : option AdminSession :=
  match l with
  | [] => None
  | (d, x) :: l' => if decide (d = digest) then Some x else table_get digest l'
  end.

Definition table_pop (digest : string) (l : session_table) : session_table :=
  filter (λ dx : string * AdminSession, dx.1 ≠ digest) l.

(** Assignment keeps the place of a key that is present. *)
Fixpoint table_set (digest : string) (x : AdminSession) (l : session_table) : session_table :=
  match l with
  | [] => [(digest, x)]
  | (d, y) :: l' => if decide (d = digest) then (d, x) :: l' else (d, y) :: table_set digest x l'
  end.

(** [min(table, key=last_seen)]: the first of the least recently seen. *)
Fixpoint oldest (l : session_table) : option (string * Z) :=
  match l with
  | [] => None
  | (d, x) :: l' =>
    match oldest l' with
    | Some (d', seen) =>
      if decide (as_last_seen_monotonic x ≤ seen) then Some (d, as_last_seen_monotonic x)
      else Some (d', seen)
    | None => Some (d, as_last_seen_monotonic x)
    end
  end.

(** [_prune_locked] *)
Definition expired (idle now : Z) (x : AdminSession) : bool :=
  bool_decide (as_absolute_expires_monotonic x ≤ now ∨ idle ≤ now - as_last_seen_monotonic x).

Definition prune (idle now : Z) (l : session_table) : session_table :=
  filter (λ dx : string * AdminSession, expired idle now dx.2 = false) l.

(** ** Configuration *)

Record security_config := {
  cf_configured : bool;
  cf_totp_secret : option string;  (* decoded *)
  cf_expected_origin : option string;
  cf_require_https : bool;
  cf_idle_seconds : Z;
  cf_absolute_seconds : Z;
  cf_production : bool;
  cf_trusted_proxy_ips : list string;
  cf_cookie_name : string;
}.

(** What [urllib.parse.urlsplit] delivers; [up_port] is none where reading the
    port raises. *)
Record url_parts := {
  up_scheme : string;
  up_hostname : option string;
  up_username : option string;
  up_password : option string;
  up_path : string;
  up_query : string;
  up_fragment : string;
  up_port_valid : bool;
}.

Definition truthy_option (v : option string) : bool :=
  match v with Some s => truthy s | None => false end.

(** ** One-time codes *)

Definition remove_space (s : string) : string :=
  String.concat "" (map (λ c, String c "") (filter (λ c, is_space c = false) (String.list_ascii_of_string s))).

(** [struct.pack(">Q", step)] *)
Definition pack_u64 (step : Z) : result (list Z) :=
  _ ← raise_if (bool_decide (step < 0 ∨ 2 ^ 64 ≤ step)) (OtherError "struct.error");
  Ok (map (λ i, Z.land (Z.shiftr step (8 * (7 - Z.of_nat i))) 255) (seq 0 8)).

(** [struct.unpack(">I", bytes)[0]] *)
Definition unpack_u32 (bytes : list Z) : result Z :=
  match bytes with
  | [a; b; c; d] => Ok (a * 2 ^ 24 + b * 2 ^ 16 + c * 2 ^ 8 + d)
  | _ => Raise (OtherError "struct.error")
  end.

Definition digit_char (n : Z) : ascii := ascii_of_N (Z.to_N (48 + n mod 10)).

(** [f"{n:06d}"] for [0 <= n < 1000000]. *)
Definition six_digits (n : Z) : string :=
  String (digit_char (n / 100000)) (String (digit_char (n / 10000)) (String (digit_char (n / 1000))
    (String (digit_char (n / 100)) (String (digit_char (n / 10)) (String (digit_char n) ""))))).

(** The further library functions of this component. *)
Class SecurityPrimitives := {
  b32decode : string → option string;
  hmac_sha1 : string → list Z → list Z;
  ip_address : string → option string;  (* the normalised text of an address *)
  urlsplit : string → result url_parts;
}.

Section security.
Context `{AccountPrimitives, SecurityPrimitives}.

Definition decode_totp_secret (value : string) : result string :=
  let normalized := remove_space (upper value) in
  let n := String.length normalized in
  _ ← raise_if (negb (bool_decide (16 ≤ n ≤ 128)%nat)) (ValueError "invalid administrator TOTP secret");
  match b32decode (normalized +:+ String.concat "" (replicate ((8 - n mod 8) mod 8)%nat "=")) with
  | None => Raise (ValueError "invalid administrator TOTP secret")
  | Some decoded =>
    _ ← raise_if (bool_decide (String.length decoded < 16)%nat)
          (ValueError "administrator TOTP secret must contain at least 128 bits");
    Ok decoded
  end.

Definition totp_code (key : string) (counter : Z) : result string :=
  message ← pack_u64 counter;
  let digest := hmac_sha1 key message in
  let offset := Z.to_nat (Z.land (default 0 (last digest)) 15) in
  value ← unpack_u32 (take 4 (drop offset digest));
  Ok (six_digits (Z.land value (2 ^ 31 - 1) mod 1000000)).

(** ** Construction *)

Definition security_init (account_store : option AdminAccountStore) (totp_secret expected_origin : option string)
    (require_https : bool) (idle absolute : Z) (production : bool) (trusted_proxy_ips : list string)
    : result security_config :=
  _ ← raise_if (bool_decide (idle < 300 ∨ absolute < 900 ∨ absolute < idle))
        (ValueError "invalid administrator session lifetime");
  let account_configured :=
    match account_store with Some s => store_configured s | None => false end in
  let values := [account_configured; truthy_option totp_secret; truthy_option expected_origin] in
  _ ← raise_if (existsb id values && negb (forallb id values))
        (ValueError "administrator account, TOTP secret, and origin must be configured together");
  secret ← match totp_secret with
           | Some v => Some <$> decode_totp_secret v
           | None => Ok None
           end;
  let origin := match expected_origin with
                | Some o => if truthy o then Some (rstrip_char "/"%char o) else None
                | None => None
                end in
  _ ← match origin with
      | Some o =>
        if truthy o then
          parts ← urlsplit o;
          _ ← raise_if (negb (up_port_valid parts)) (ValueError "administrator origin has an invalid port");
          raise_if (bool_decide (up_scheme parts ∉ ["http"; "https"]) || negb (truthy_option (up_hostname parts)) ||
                    bool_decide (up_username parts ≠ None ∨ up_password parts ≠ None) ||
                    truthy (up_path parts) || truthy (up_query parts) || truthy (up_fragment parts))
            (ValueError "administrator origin must be an HTTP(S) origin without a path")
        else Ok tt
      | None => Ok tt
      end;
  _ ← raise_if (production && truthy_option origin &&
                negb (match origin with Some o => startswith "https://" o | None => false end))
        (ValueError "production administrator origin must use HTTPS");
  proxies ← map_result (λ item, match ip_address item with
                         | Some ip => Ok ip
                         | None => Raise (ValueError "administrator trusted proxies must be explicit IP addresses")
                         end) trusted_proxy_ips;
  Ok {| cf_configured := forallb id values; cf_totp_secret := secret; cf_expected_origin := origin;
        cf_require_https := require_https; cf_idle_seconds := idle; cf_absolute_seconds := absolute;
        cf_production := production; cf_trusted_proxy_ips := dedup proxies;
        cf_cookie_name := if production then COOKIE_PRODUCTION else COOKIE_DEVELOPMENT |}.

End security.

(** ** State *)

Record limiters := {
  ip_login : buckets;
  global_login : buckets;
  account_change : buckets;
  global_account_change : buckets;
  mutation : buckets;
  global_mutation : buckets;
  request : buckets;
  global_request : buckets;
}.

Record AdminSecurity := {
  account_store : option AdminAccountStore;
  sessions : session_table;
  last_totp_counter : Z;
  rate_limiters : limiters;
  scrypt_held : nat;  (* slots of the semaphore in use *)
  next_object : nat;
}.

Definition no_limiters : limiters := Build_limiters [] [] [] [] [] [] [] [].

(** The state [__init__] leaves. *)
Definition initial (store : option AdminAccountStore) : AdminSecurity :=
  {| account_store := store; sessions := []; last_totp_counter := -1;
     rate_limiters := no_limiters; scrypt_held := 0; next_object := 0 |}.

Definition set_sessions (l : session_table) (s : AdminSecurity) : AdminSecurity :=
  {| account_store := account_store s; sessions := l; last_totp_counter := last_totp_counter s;
     rate_limiters := rate_limiters s; scrypt_held := scrypt_held s; next_object := next_object s |}.

Definition set_counter (c : Z) (s : AdminSecurity) : AdminSecurity :=
  {| account_store := account_store s; sessions := sessions s; last_totp_counter := c;
     rate_limiters := rate_limiters s; scrypt_held := scrypt_held s; next_object := next_object s |}.

Definition set_limiters (l : limiters) (s : AdminSecurity) : AdminSecurity :=
  {| account_store := account_store s; sessions := sessions s;
     last_totp_counter := last_totp_counter s; rate_limiters := l;
     scrypt_held := scrypt_held s; next_object := next_object s |}.

Definition set_store (st : option AdminAccountStore) (s : AdminSecurity) : AdminSecurity :=
  {| account_store := st; sessions := sessions s; last_totp_counter := last_totp_counter s;
     rate_limiters := rate_limiters s; scrypt_held := scrypt_held s; next_object := next_object s |}.

Definition set_held (n : nat) (s : AdminSecurity) : AdminSecurity :=
  {| account_store := account_store s; sessions := sessions s;
     last_totp_counter := last_totp_counter s; rate_limiters := rate_limiters s;
     scrypt_held := n; next_object := next_object s |}.

(** Methods: a state monad with exceptions; an exception keeps the changes
    made before it. *)
Definition act (A : Type) : Type := AdminSecurity → AdminSecurity * result A.

#[export] Instance act_ret : MRet act := λ A a s, (s, Ok a).
#[export] Instance act_bind : MBind act := λ A B k m s,
  match m s with
  | (s', Ok a) => k a s'
  | (s', Raise e) => (s', Raise e)
  end.

Definition raise {A} (e : exn) : act A := λ s, (s, Raise e).
Definition lift {A} (m : result A) : act A := λ s, (s, m).
Definition get : act AdminSecurity := λ s, (s, Ok s).
Definition modify (f : AdminSecurity → AdminSecurity) : act unit := λ s, (f s, Ok tt).

(** ** Rate limits *)

(** [TokenBucketLimiter(rate, capacity, max_identities=n, idle_ttl_seconds=3600)] *)
Definition hourly_limiter (rate cap n : Z) : limiter_config :=
  {| rate_per_minute := rate; capacity := cap * TOKEN; max_identities := n; idle_ttl := seconds 3600 |}.

Definition ip_login_limiter : limiter_config := hourly_limiter 5 3 4096.
Definition global_login_limiter : limiter_config := hourly_limiter 30 10 1.
Definition account_change_limiter : limiter_config := hourly_limiter 5 3 (Z.of_nat SESSION_LIMIT).
Definition global_account_change_limiter : limiter_config := hourly_limiter 30 10 1.
Definition mutation_limiter : limiter_config := hourly_limiter 120 20 (Z.of_nat SESSION_LIMIT).
Definition global_mutation_limiter : limiter_config := hourly_limiter 600 100 1.
Definition request_limiter : limiter_config := hourly_limiter 120 30 4096.
Definition global_request_limiter : limiter_config := hourly_limiter 600 100 1.

Definition consumed (o : consume_outcome) : result unit :=
  match o with
  | Allowed => Ok tt
  | RateLimited retry => Raise (AdminRateLimitError retry)
  | ZeroDivision => Raise (OtherError "ZeroDivisionError")
  end.

(** One limiter per identity, then the global one; [clock] holds the readings
    of the two calls. *)
Definition consume_both (local_cfg global_cfg : limiter_config) (identity : string) (clock : Z * Z)
    (local global : buckets) : buckets * buckets * result unit :=
  let '(local', o) := consume local_cfg identity clock.1 local in
  match consumed o with
  | Raise e => (local', global, Raise e)
  | Ok _ =>
    let '(global', o') := consume global_cfg "global" clock.2 global in
    (local', global', consumed o')
  end.

Definition throttle_login (client_ip : string) (clock : Z * Z) : act unit := λ s,
  let l := rate_limiters s in
  let '(a, b, r) := consume_both ip_login_limiter global_login_limiter client_ip clock
                      (ip_login l) (global_login l) in
  (set_limiters (Build_limiters a b (account_change l) (global_account_change l) (mutation l)
                   (global_mutation l) (request l) (global_request l)) s, r).

Definition throttle_account_change (digest : string) (clock : Z * Z) : act unit := λ s,
  let l := rate_limiters s in
  let '(a, b, r) := consume_both account_change_limiter global_account_change_limiter digest clock
                      (account_change l) (global_account_change l) in
  (set_limiters (Build_limiters (ip_login l) (global_login l) a b (mutation l)
                   (global_mutation l) (request l) (global_request l)) s, r).

Definition throttle_mutation (digest : string) (clock : Z * Z) : act unit := λ s,
  let l := rate_limiters s in
  let '(a, b, r) := consume_both mutation_limiter global_mutation_limiter digest clock
                      (mutation l) (global_mutation l) in
  (set_limiters (Build_limiters (ip_login l) (global_login l) (account_change l)
                   (global_account_change l) a b (request l) (global_request l)) s, r).

Definition throttle_browser_request (client_ip : string) (clock : Z * Z) : act unit := λ s,
  let l := rate_limiters s in
  let '(a, b, r) := consume_both request_limiter global_request_limiter client_ip clock
                      (request l) (global_request l) in
  (set_limiters (Build_limiters (ip_login l) (global_login l) (account_change l)
                   (global_account_change l) (mutation l) (global_mutation l) a b) s, r).

(** ** Steps under the lock *)

Section operations.
Context `{AccountPrimitives, SecurityPrimitives} (cfg : security_config).

Definition require_configured : act unit :=
  lift (raise_if (negb (cf_configured cfg)) AdminNotConfiguredError).

Definition require_account : act AdminAccount :=
  _ ← require_configured;
  s ← get;
  match account_store s ≫= current with
  | Some account => mret account
  | None => raise AdminNotConfiguredError
  end.

Definition session_digest (raw : string) : string := sha256_hex raw.
Definition user_agent_digest (value : string) : string := sha256_hex (String.substring 0 1024 value).

(** The two tokens drawn for a session. *)
Record fresh_tokens := { ft_session : string; ft_csrf : string }.

Definition new_session (object : nat) (account : AdminAccount) (client_ip user_agent : string)
    (epoch monotonic : Z) (tokens : fresh_tokens) : AdminSession :=
  {| as_object := object; as_session_digest := session_digest (ft_session tokens);
     as_csrf_token := ft_csrf tokens; as_user_agent_digest := user_agent_digest user_agent;
     as_created_monotonic := monotonic; as_last_seen_monotonic := monotonic;
     as_absolute_expires_monotonic := monotonic + seconds (cf_absolute_seconds cfg);
     as_created_at_epoch := epoch; as_client_ip := client_ip; as_username := aa_username account;
     as_account_revision := aa_revision account;
     as_password_change_required := aa_password_change_required account |}.

(** [_create_session_locked] *)
Definition create_session (account : AdminAccount) (client_ip user_agent : string)
    (epoch monotonic : Z) (tokens : fresh_tokens) : act AdminLoginResult := λ s,
  let kept := if decide (SESSION_LIMIT ≤ length (sessions s))%nat then
                match oldest (sessions s) with
                | Some (digest, _) => table_pop digest (sessions s)
                | None => sessions s
                end
              else sessions s in
  let x := new_session (next_object s) account client_ip user_agent epoch monotonic tokens in
  ({| account_store := account_store s; sessions := table_set (as_session_digest x) x kept;
      last_totp_counter := last_totp_counter s; rate_limiters := rate_limiters s;
      scrypt_held := scrypt_held s; next_object := S (next_object s) |},
   Ok {| lg_session_token := ft_session tokens; lg_csrf_token := ft_csrf tokens;
         lg_expires_at_epoch := epoch + seconds (cf_absolute_seconds cfg);
         lg_username := aa_username account;
         lg_password_change_required := aa_password_change_required account |}).

(** The semaphore that bounds concurrent password hashing. *)
Definition scrypt_acquire : act unit :=
  s ← get;
  if decide (SCRYPT_WORK_LIMIT ≤ scrypt_held s)%nat then raise (AdminRateLimitError 1)
  else modify (set_held (S (scrypt_held s))).

Definition scrypt_release : act unit := modify (λ s, set_held (pred (scrypt_held s)) s).

Definition prune_locked (now : Z) : act unit :=
  modify (λ s, set_sessions (prune (seconds (cf_idle_seconds cfg)) now (sessions s)) s).

Record login_request := {
  lr_username : string;
  lr_password : string;
  lr_otp : string;
  lr_client_ip : string;
  lr_user_agent : string;
}.

(** The credential checks of [login] before the lock. *)
Definition username_matches (username : string) (account : AdminAccount) : bool :=
  let bounded := if decide (String.length username ≤ 64)%nat then username else "" in
  bool_decide (bounded = aa_username account).

Definition bounded_otp (otp : string) : string :=
  if bool_decide (String.length otp = 6%nat) && str_all is_digit otp then otp else "".

Definition current_counter (epoch : Z) : Z := epoch / seconds 30.

Definition matching_counter (otp : string) (epoch : Z) : result Z :=
  fold_result (λ matching counter,
      code ← totp_code (default "" (cf_totp_secret cfg)) counter;
      Ok (if decide (code = bounded_otp otp) then counter else matching))
    (-1) [current_counter epoch - 1; current_counter epoch; current_counter epoch + 1].

(** The section of [login] under the lock. *)
Definition login_locked (account : AdminAccount) (req : login_request) (password_valid : bool)
    (counter epoch monotonic : Z) (tokens : fresh_tokens) : act AdminLoginResult :=
  _ ← prune_locked monotonic;
  s ← get;
  if negb (username_matches (lr_username req) account) || negb password_valid ||
     bool_decide (counter < 0 ∨ counter ≤ last_totp_counter s) then
    raise (AdminAuthenticationError "administrator authentication failed")
  else
    _ ← modify (set_counter counter);
    create_session account (lr_client_ip req) (lr_user_agent req) epoch monotonic tokens.

(** The same with the checks computed, which only depend on what was read. *)
Definition login_commit (account : AdminAccount) (req : login_request) (epoch monotonic : Z)
    (tokens : fresh_tokens) : act AdminLoginResult :=
  password_valid ← lift (verify_admin_password (lr_password req) (aa_password_verifier account));
  counter ← lift (matching_counter (lr_otp req) epoch);
  login_locked account req password_valid counter epoch monotonic tokens.

Record authorize_request := {
  ar_session_token : option string;
  ar_user_agent : string;
  ar_csrf_token : option string;
  ar_mutation : bool;
  ar_allow_password_change_required : bool;
}.

Definition bounded_token (token : option string) : string :=
  match token with
  | Some t => if truthy t && bool_decide (String.length t ≤ 256)%nat then t else ""
  | None => ""
  end.

Definition csrf_matches (x : AdminSession) (token : option string) : bool :=
  match token with
  | Some t => truthy t && bool_decide (String.length t ≤ 256)%nat && bool_decide (as_csrf_token x = t)
  | None => false
  end.

(** The session is bound to this browser and to this revision of the account. *)
Definition bound_to (x : AdminSession) (user_agent : string) (account : AdminAccount) : bool :=
  bool_decide (as_user_agent_digest x = user_agent_digest user_agent) &&
  bool_decide (as_account_revision x = aa_revision account).

Definition authorize_locked (account : AdminAccount) (req : authorize_request) (monotonic : Z)
    (clock : Z * Z) : act AdminSession :=
  let digest := session_digest (bounded_token (ar_session_token req)) in
  _ ← prune_locked monotonic;
  s ← get;
  match table_get digest (sessions s) with
  | Some x =>
    if negb (bound_to x (ar_user_agent req) account) then
      _ ← modify (λ s, set_sessions (table_pop digest (sessions s)) s);
      raise (AdminAuthorizationError "administrator session is invalid")
    else if as_password_change_required x && negb (ar_allow_password_change_required req) then
      raise AdminPasswordChangeRequiredError
    else if ar_mutation req && negb (csrf_matches x (ar_csrf_token req)) then
      raise (AdminAuthorizationError "administrator CSRF token is invalid")
    else
      _ ← (if ar_mutation req then throttle_mutation digest clock else mret tt);
      let x' := seen_at monotonic x in
      _ ← modify (λ s, set_sessions (table_set digest x' (sessions s)) s);
      mret x'
  | None =>
    _ ← modify (λ s, set_sessions (table_pop digest (sessions s)) s);
    raise (AdminAuthorizationError "administrator session is invalid")
  end.

(** [self._sessions.get(session.session_digest) is session] *)
Definition is_current (s : AdminSecurity) (session : AdminSession) : bool :=
  match table_get (as_session_digest session) (sessions s) with
  | Some x => bool_decide (as_object x = as_object session)
  | None => false
  end.

Definition invalid_session {A} : act A :=
  raise (AdminAuthorizationError "administrator session is invalid").

(** The first locked section of [change_account]. *)
Definition change_check (session : AdminSession) (user_agent : string) (account : AdminAccount)
    : act unit :=
  s ← get;
  if negb (is_current s session && bound_to session user_agent account) then invalid_session
  else mret tt.

(** The second one: check again, replace the account, revoke every session. *)
Definition change_locked (session : AdminSession) (new_username new_verifier client_ip user_agent : string)
    (epoch monotonic : Z) (tokens : fresh_tokens) (write : write_outcome) : act AdminLoginResult :=
  s ← get;
  match account_store s with
  | None => raise AdminNotConfiguredError
  | Some store =>
    match current store with
    | None => invalid_session
    | Some account =>
      if negb (is_current s session && bound_to session user_agent account) then invalid_session
      else
        let '(store', replaced) :=
          replace new_username new_verifier false (as_account_revision session) write store in
        _ ← modify (set_store (Some store'));
        replacement ← lift replaced;
        _ ← modify (set_sessions []);
        create_session replacement client_ip user_agent epoch monotonic tokens
    end
  end.

Definition logout (session_token : option string) : act unit :=
  modify (λ s, set_sessions (table_pop (session_digest (default "" session_token)) (sessions s)) s).

Definition invalidate_sessions : act unit := modify (set_sessions []).

(** ** Interleavings *)

(** The atomic steps of all threads.  A login step carries the account the
    thread read before it took the lock, which may have been replaced since. *)
Inductive event :=
| EThrottleLogin (client_ip : string) (clock : Z * Z)
| EThrottleChange (digest : string) (clock : Z * Z)
| EThrottleRequest (client_ip : string) (clock : Z * Z)
| EScryptAcquire
| EScryptRelease
| ELogin (account : AdminAccount) (req : login_request) (epoch monotonic : Z) (tokens : fresh_tokens)
| EAuthorize (account : AdminAccount) (req : authorize_request) (monotonic : Z) (clock : Z * Z)
| EChange (session : AdminSession) (new_username new_verifier client_ip user_agent : string)
    (epoch monotonic : Z) (tokens : fresh_tokens) (write : write_outcome)
| ELogout (session_token : option string)
| EInvalidate
| EAccountFile (path : account_path).  (* another process writes the file *)

Definition set_path (path : account_path) (s : AdminSecurity) : AdminSecurity :=
  set_store ((λ st, {| st_path := path; st_account := st_account st |}) <$> account_store s) s.

Definition step (s : AdminSecurity) (e : event) : AdminSecurity :=
  match e with
  | EThrottleLogin client_ip clock => (throttle_login client_ip clock s).1
  | EThrottleChange digest clock => (throttle_account_change digest clock s).1
  | EThrottleRequest client_ip clock => (throttle_browser_request client_ip clock s).1
  | EScryptAcquire => (scrypt_acquire s).1
  | EScryptRelease => (scrypt_release s).1
  | ELogin account req epoch monotonic tokens =>
    (login_commit account req epoch monotonic tokens s).1
  | EAuthorize account req monotonic clock => (authorize_locked account req monotonic clock s).1
  | EChange session username verifier ip ua epoch monotonic tokens write =>
    (change_locked session username verifier ip ua epoch monotonic tokens write s).1
  | ELogout token => (logout token s).1
  | EInvalidate => (invalidate_sessions s).1
  | EAccountFile path => (set_path path s)
  end.

Definition run (s : AdminSecurity) (es : list event) : AdminSecurity := foldl step s es.

Definition interleave (es : list event) : act unit := modify (λ s, run s es).

(** ** The methods *)

(** Hashing under a slot; [during] is what other threads do meanwhile. *)
Definition with_slot {A} (during : list event) (work : result A) : act A :=
  _ ← scrypt_acquire;
  _ ← interleave during;
  _ ← scrypt_release;
  lift work.

Definition verify_password (during : list event) (password : string) (account : AdminAccount)
    : act bool :=
  with_slot during (verify_admin_password password (aa_password_verifier account)).

Definition create_password_verifier (during : list event) (salt password : string) : act string :=
  with_slot during (create_admin_password_verifier salt password).

(** [login]; [hashing] and [waiting] are the steps of other threads while the
    password is hashed and before the lock is taken. *)
Definition login (req : login_request) (clock : Z * Z) (epoch monotonic : Z) (tokens : fresh_tokens)
    (hashing waiting : list event) : act AdminLoginResult :=
  _ ← require_configured;
  _ ← throttle_login (lr_client_ip req) clock;
  account ← require_account;
  password_valid ← verify_password hashing (lr_password req) account;
  counter ← lift (matching_counter (lr_otp req) epoch);
  _ ← interleave waiting;
  login_locked account req password_valid counter epoch monotonic tokens.

Definition authorize (req : authorize_request) (monotonic : Z) (clock : Z * Z) (waiting : list event)
    : act AdminSession :=
  _ ← require_configured;
  account ← require_account;
  _ ← interleave waiting;
  authorize_locked account req monotonic clock.

Definition account_metadata : act account_snapshot :=
  _ ← require_configured;
  s ← get;
  match account_store s with
  | Some store => mret (snapshot store)
  | None => raise AdminNotConfiguredError
  end.

Record change_request := {
  cr_session : AdminSession;
  cr_current_password : string;
  cr_new_username : string;
  cr_new_password : string;
  cr_client_ip : string;
  cr_user_agent : string;
}.

(** [change_account]; [salt] is drawn for the new verifier, [write] is how the
    file write ends. *)
Definition change_account (req : change_request) (clock : Z * Z) (epoch monotonic : Z) (salt : string)
    (tokens : fresh_tokens) (write : write_outcome) (reading verifying hashing waiting : list event)
    : act AdminLoginResult :=
  let session := cr_session req in
  let age := monotonic - as_created_monotonic session in
  _ ← lift (raise_if (bool_decide (age < 0 ∨ ACCOUNT_CHANGE_MAX_SESSION_AGE < age))
              (AdminAuthenticationError "administrator account change requires recent authentication"));
  account ← require_account;
  _ ← interleave reading;
  _ ← change_check session (cr_user_agent req) account;
  _ ← throttle_account_change (as_session_digest session) clock;
  valid ← verify_password verifying (cr_current_password req) account;
  _ ← lift (raise_if (negb valid) (AdminAuthenticationError "administrator authentication failed"));
  _ ← lift (validate_admin_username (cr_new_username req));
  _ ← lift (raise_if (bool_decide (cr_new_password req = cr_current_password req))
              (ValueError "new administrator password must differ from the current password"));
  verifier ← create_password_verifier hashing salt (cr_new_password req);
  _ ← interleave waiting;
  change_locked session (cr_new_username req) verifier (cr_client_ip req) (cr_user_agent req)
    epoch monotonic tokens write.

(** [expires_at_epoch] *)
Definition expires_at_epoch (session : AdminSession) (epoch monotonic : Z) : Z :=
  epoch + Z.max 0 (as_absolute_expires_monotonic session - monotonic).

(** ** Requests *)

Definition AdminHttpsRequired : exn := AdminAuthorizationError "administrator HTTPS is required".

Definition validate_browser_request (origin sec_fetch_site : option string) (effective_scheme : string)
    (mutation : bool) : result unit :=
  _ ← raise_if (negb (cf_configured cfg)) AdminNotConfiguredError;
  _ ← raise_if (cf_require_https cfg && bool_decide (lower effective_scheme ≠ "https")) AdminHttpsRequired;
  _ ← raise_if (bool_decide (origin ≠ cf_expected_origin cfg))
        (AdminAuthorizationError "administrator origin is invalid");
  raise_if (mutation && match sec_fetch_site with
                        | Some site => bool_decide (lower site ≠ "same-origin")
                        | None => false
                        end)
    (AdminAuthorizationError "cross-site administrator request rejected").

Definition validate_same_origin_action (origin sec_fetch_site : option string)
    (effective_scheme : string) : result unit :=
  let cross_site := match sec_fetch_site with
                    | Some site => bool_decide (lower site ≠ "same-origin")
                    | None => false
                    end in
  let other_origin := bool_decide (origin ≠ cf_expected_origin cfg) in
  _ ← raise_if (negb (cf_configured cfg)) AdminNotConfiguredError;
  _ ← raise_if (cf_require_https cfg && bool_decide (lower effective_scheme ≠ "https")) AdminHttpsRequired;
  _ ← raise_if (bool_decide (origin ≠ None) && other_origin)
        (AdminAuthorizationError "administrator origin is invalid");
  _ ← raise_if cross_site (AdminAuthorizationError "cross-site administrator request rejected");
  raise_if (other_origin && (bool_decide (sec_fetch_site = None) || cross_site))
    (AdminAuthorizationError "administrator same-origin signal is missing").

Definition trusts_proxy (peer_ip : option string) : bool :=
  match ip_address (default "" peer_ip) with
  | Some normalized => bool_decide (normalized ∈ cf_trusted_proxy_ips cfg)
  | None => false
  end.

Fixpoint string_contains (c : ascii) (s : string) : bool :=
  match s with "" => false | String a s' => bool_decide (a = c) || string_contains c s' end.

Definition resolve_client_ip (peer_ip forwarded_ip : option string) : string :=
  let peer := match peer_ip with Some p => if truthy p then p else "unknown" | None => "unknown" end in
  let normalized_peer := default peer (ip_address peer) in
  match forwarded_ip with
  | Some forwarded =>
    if bool_decide (normalized_peer ∈ cf_trusted_proxy_ips cfg) && truthy forwarded &&
       negb (string_contains ","%char forwarded)
    then default peer (ip_address (strip forwarded))
    else peer
  | None => peer
  end.

End operations.
