(* ===== verification/AdminSecurityFacts.v ===== *)
(** * Properties of administrator authentication

    The session table under any interleaving of the threads' steps, where an
    authorized session comes from, that a one-time code admits one login, and
    what an account change revokes. *)

From S2P Require Import Prelude PyStr PyTime Json Auth AdminAccount AdminSecurity.
From Stdlib Require Import Ascii.

Local Open Scope string_scope.
Local Open Scope list_scope.
Local Open Scope Z_scope.

(** ** Methods *)

Section act.
Context {A B : Type}.

Lemma act_bind_ok (m : act A) (k : A → act B) s s' b :
  (m ≫= k) s = (s', Ok b) → ∃ s1 a, m s = (s1, Ok a) ∧ k a s1 = (s', Ok b).
Proof. unfold mbind, act_bind. destruct (m s) as [s1 [a|e]]; [by exists s1, a|done]. Qed.

Lemma lift_ok (m : result A) s s' a : lift m s = (s', Ok a) → s' = s ∧ m = Ok a.
Proof. by intros [= <- ->]. Qed.
End act.

(** Take a successful method apart. *)
Ltac act_ok H :=
  let s := fresh "s" in let a := fresh "a" in let H1 := fresh "H" in
  apply act_bind_ok in H as (s & a & H1 & H).

Lemma raise_if_true b e s s' u :
  lift (raise_if b e) s = (s', Ok u) → s' = s ∧ b = false.
Proof. intros [-> H]%lift_ok. by destruct b. Qed.

(** ** The session table *)

Lemma table_get_elem d l x : table_get d l = Some x → (d, x) ∈ l.
Proof.
  induction l as [|[e y] l IH]; cbn; [done|]. case_decide as Hd; [intros [= ->]; subst; by left|].
  intros Hx. right. by apply IH.
Qed.

Lemma table_get_none d l : table_get d l = None ↔ d ∉ l.*1.
Proof.
  induction l as [|[e y] l IH]; cbn; [split; [intros _; apply not_elem_of_nil|done]|].
  rewrite not_elem_of_cons. case_decide as Hd; [split; [done|intros [? _]; congruence]|].
  rewrite IH. naive_solver.
Qed.

Lemma elem_of_table_set d x l e y :
  (e, y) ∈ table_set d x l → (e, y) = (d, x) ∨ (e, y) ∈ l.
Proof.
  induction l as [|[f z] l IH]; cbn; [intros ->%list_elem_of_singleton; by left|].
  case_decide as Hd.
  - intros [->|Hin]%elem_of_cons; [left; by subst|right; by right].
  - intros [->|Hin]%elem_of_cons; [right; by left|]. destruct (IH Hin); [by left|right; by right].
Qed.

Lemma table_set_keys d x l :
  (table_set d x l).*1 = if decide (d ∈ l.*1) then l.*1 else l.*1 ++ [d].
Proof.
  induction l as [|[f z] l IH]; [done|]. cbn [table_set]. destruct (decide (f = d)) as [->|Hne].
  - rewrite decide_True by (cbn; by left). done.
  - cbn. rewrite IH. destruct (decide (d ∈ l.*1)) as [Hin|Hnin].
    + rewrite decide_True by (cbn; by right). done.
    + rewrite decide_False; [done|]. cbn. intros [?|?]%elem_of_cons; congruence.
Qed.

Lemma NoDup_table_set d x l : NoDup l.*1 → NoDup (table_set d x l).*1.
Proof.
  intros Hn. rewrite table_set_keys. case_decide; [done|].
  apply NoDup_app. split_and!; [done| |apply NoDup_singleton].
  intros e He ->%list_elem_of_singleton. done.
Qed.

Lemma length_table_set d x l :
  length (table_set d x l) = if decide (d ∈ l.*1) then length l else S (length l).
Proof.
  rewrite <- (length_fmap fst), table_set_keys.
  case_decide; rewrite ?length_app, length_fmap; cbn; lia.
Qed.

Lemma elem_of_table_pop d l x : x ∈ table_pop d l ↔ x ∈ l ∧ x.1 ≠ d.
Proof. unfold table_pop. rewrite list_elem_of_filter. tauto. Qed.

Lemma elem_of_prune idle now l x : x ∈ prune idle now l ↔ x ∈ l ∧ expired idle now x.2 = false.
Proof. unfold prune. rewrite list_elem_of_filter. tauto. Qed.

Lemma keys_filter (P : string * AdminSession → Prop) `{!∀ x, Decision (P x)} (l : session_table) :
  NoDup l.*1 → NoDup (filter P l).*1.
Proof.
  induction l as [|x l IH]; [done|]. rewrite fmap_cons. intros [Hnin Hnd]%NoDup_cons.
  rewrite filter_cons. case_decide; [|by apply IH]. rewrite fmap_cons. constructor; [|by apply IH].
  intros (y & Hy & [_ Hin]%list_elem_of_filter)%list_elem_of_fmap. apply Hnin.
  rewrite Hy. by apply list_elem_of_fmap_2.
Qed.

Lemma oldest_elem l d seen : oldest l = Some (d, seen) → d ∈ l.*1.
Proof.
  revert d seen. induction l as [|[e y] l IH]; intros d seen; [done|]. cbn.
  destruct (oldest l) as [[d' seen']|]; [|intros [= <- _]; by left].
  case_decide; [intros [= <- _]; by left|]. intros [= <- <-]. right. by eapply IH.
Qed.

Lemma oldest_some l : l ≠ [] → is_Some (oldest l).
Proof. destruct l as [|[d x] l]; [done|]. cbn. destruct (oldest l) as [[]|]; [case_decide|]; eauto. Qed.

Lemma length_table_pop d l : d ∈ l.*1 → (length (table_pop d l) < length l)%nat.
Proof.
  intros ([e x] & -> & Hin)%list_elem_of_fmap. unfold table_pop.
  apply (length_filter_lt _ l (e, x)); [done|]. cbn. tauto.
Qed.

Lemma length_filter_table (P : string * AdminSession → Prop) `{!∀ x, Decision (P x)} (l : session_table) :
  (length (filter P l) ≤ length l)%nat.
Proof. apply length_filter. Qed.

Definition same_session (x y : AdminSession) : Prop := y = seen_at (as_last_seen_monotonic y) x.

Lemma same_session_refl x : same_session x x.
Proof. by destruct x. Qed.

Lemma same_session_trans x y z : same_session x y → same_session y z → same_session x z.
Proof. unfold same_session. intros -> ->. by destruct x. Qed.

Lemma seen_at_same now x : same_session x (seen_at now x).
Proof. by destruct x. Qed.

#[export] Hint Resolve same_session_refl seen_at_same : qp.

(** ** Steps *)

Section facts.
Context `{AccountPrimitives, SecurityPrimitives} (cfg : security_config).

(** What holds of the table between steps. *)
Definition table_ok (l : session_table) : Prop :=
  NoDup l.*1 ∧ (length l ≤ SESSION_LIMIT)%nat ∧
  ∀ d x, (d, x) ∈ l → d = as_session_digest x ∧
    as_absolute_expires_monotonic x = as_created_monotonic x + seconds (cf_absolute_seconds cfg).

Lemma table_ok_nil : table_ok [].
Proof. split_and!; [constructor|cbn; lia|by intros ?? ?%elem_of_nil]. Qed.

Lemma table_ok_filter (P : string * AdminSession → Prop) `{!∀ x, Decision (P x)} l :
  table_ok l → table_ok (filter P l).
Proof.
  intros (Hn & Hl & Hx). split_and!; [by apply keys_filter| |].
  - pose proof (length_filter_table P l). lia.
  - intros d x [_ Hin]%list_elem_of_filter. by apply Hx.
Qed.

Lemma table_ok_set d x l :
  table_ok l → (d ∉ l.*1 → (length l < SESSION_LIMIT)%nat) → d = as_session_digest x →
  as_absolute_expires_monotonic x = as_created_monotonic x + seconds (cf_absolute_seconds cfg) →
  table_ok (table_set d x l).
Proof.
  intros (Hn & Hl & Hx) Hroom Hd Habs. split_and!; [by apply NoDup_table_set| |].
  - rewrite length_table_set. case_decide as Hin; [done|]. specialize (Hroom Hin). lia.
  - intros e y [[= -> ->]|Hin]%elem_of_table_set; [done|by apply Hx].
Qed.

(** The table [create_session] inserts into. *)
Definition with_room (l : session_table) : session_table :=
  if decide (SESSION_LIMIT ≤ length l)%nat then
    match oldest l with Some (digest, _) => table_pop digest l | None => l end
  else l.

Lemma with_room_sub l x : x ∈ with_room l → x ∈ l.
Proof.
  unfold with_room. case_decide; [|done]. destruct (oldest l) as [[d seen]|]; [|done].
  by intros [? _]%elem_of_table_pop.
Qed.

Lemma with_room_ok l : table_ok l → table_ok (with_room l) ∧ (length (with_room l) < SESSION_LIMIT)%nat.
Proof.
  intros Hok. unfold with_room. case_decide as Hl; [|split; [done|lia]].
  destruct (oldest_some l) as [[d seen] Ho]; [intros ->; cbn in Hl; unfold SESSION_LIMIT in *; lia|].
  rewrite Ho. split; [by apply table_ok_filter|]. apply oldest_elem, length_table_pop in Ho.
  destruct Hok as (_ & ? & _). lia.
Qed.

Lemma create_session_spec account ip ua epoch mono tokens s s' r :
  create_session cfg account ip ua epoch mono tokens s = (s', r) →
  let x := new_session cfg (next_object s) account ip ua epoch mono tokens in
  sessions s' = table_set (as_session_digest x) x (with_room (sessions s)) ∧
  account_store s' = account_store s ∧ last_totp_counter s' = last_totp_counter s ∧
  ∃ result, r = Ok result ∧ lg_session_token result = ft_session tokens ∧
    lg_csrf_token result = ft_csrf tokens.
Proof. intros [= <- <-]. cbn. split_and!; [done..|]. by eexists. Qed.

(** The session a step creates. *)
Definition grants (s : AdminSecurity) (e : event) : option AdminSession :=
  match e with
  | ELogin account req epoch mono tokens =>
    match (login_commit cfg account req epoch mono tokens s).2 with
    | Ok _ => Some (new_session cfg (next_object s) account (lr_client_ip req) (lr_user_agent req)
                      epoch mono tokens)
    | Raise _ => None
    end
  | EChange session username verifier ip ua epoch mono tokens write =>
    match change_locked cfg session username verifier ip ua epoch mono tokens write s with
    | (s', Ok _) => (λ account, new_session cfg (next_object s) account ip ua epoch mono tokens) <$>
                      (account_store s' ≫= current)
    | _ => None
    end
  | _ => None
  end.

Lemma login_locked_spec account req valid counter epoch mono tokens s s' r :
  login_locked cfg account req valid counter epoch mono tokens s = (s', r) →
  let pruned := prune (seconds (cf_idle_seconds cfg)) mono (sessions s) in
  account_store s' = account_store s ∧
  match r with
  | Ok result =>
    username_matches (lr_username req) account = true ∧ valid = true ∧ 0 ≤ counter ∧
    last_totp_counter s < counter ∧ last_totp_counter s' = counter ∧
    let x := new_session cfg (next_object s) account (lr_client_ip req) (lr_user_agent req)
               epoch mono tokens in
    sessions s' = table_set (as_session_digest x) x (with_room pruned)
  | Raise _ => last_totp_counter s' = last_totp_counter s ∧ sessions s' = pruned
  end.
Proof.
  unfold login_locked, prune_locked, modify, get, raise, mbind, act_bind. cbn.
  destruct (username_matches (lr_username req) account); cbn; [|by intros [= <- <-]].
  destruct valid; cbn; [|by intros [= <- <-]].
  destruct (decide (counter < 0 ∨ counter ≤ last_totp_counter s)) as [Hc|Hc].
  - rewrite (bool_decide_true (counter < 0 ∨ counter ≤ last_totp_counter s)) by done.
    by intros [= <- <-].
  - rewrite (bool_decide_false (counter < 0 ∨ counter ≤ last_totp_counter s)) by done.
    intros [= <- <-]. cbn. split_and!; done || lia.
Qed.

Lemma login_commit_spec account req epoch mono tokens s s' r :
  login_commit cfg account req epoch mono tokens s = (s', r) →
  s' = s ∧ (∃ e, r = Raise e) ∨
  ∃ valid counter,
    verify_admin_password (lr_password req) (aa_password_verifier account) = Ok valid ∧
    matching_counter cfg (lr_otp req) epoch = Ok counter ∧
    login_locked cfg account req valid counter epoch mono tokens s = (s', r).
Proof.
  unfold login_commit, lift, mbind, act_bind.
  destruct (verify_admin_password _ _) as [valid|e]; [|intros [= <- <-]; eauto].
  destruct (matching_counter _ _ _) as [counter|e]; [|intros [= <- <-]; eauto].
  intros Hl. right. by exists valid, counter.
Qed.

Lemma throttle_mutation_frame digest clock s :
  sessions (throttle_mutation digest clock s).1 = sessions s ∧
  account_store (throttle_mutation digest clock s).1 = account_store s ∧
  last_totp_counter (throttle_mutation digest clock s).1 = last_totp_counter s ∧
  next_object (throttle_mutation digest clock s).1 = next_object s.
Proof. unfold throttle_mutation. by destruct (consume_both _ _ _ _ _ _) as [[? ?] ?]. Qed.

Lemma authorize_locked_spec account req mono clock s s' r :
  authorize_locked cfg account req mono clock s = (s', r) →
  let pruned := prune (seconds (cf_idle_seconds cfg)) mono (sessions s) in
  let digest := session_digest (bounded_token (ar_session_token req)) in
  account_store s' = account_store s ∧ last_totp_counter s' = last_totp_counter s ∧
  match r with
  | Ok x' => ∃ x, table_get digest pruned = Some x ∧ bound_to x (ar_user_agent req) account = true ∧
      (as_password_change_required x = true → ar_allow_password_change_required req = true) ∧
      (ar_mutation req = true → csrf_matches x (ar_csrf_token req) = true) ∧
      x' = seen_at mono x ∧ sessions s' = table_set digest x' pruned
  | Raise _ => sessions s' = pruned ∨ sessions s' = table_pop digest pruned
  end.
Proof.
  unfold authorize_locked, prune_locked, modify, get, raise, mbind, act_bind, mret, act_ret. cbn.
  set (pruned := prune _ _ _). set (digest := session_digest _).
  destruct (table_get digest pruned) as [x|] eqn:Hg; [|intros [= <- <-]; cbn; auto].
  destruct (bound_to _ _ _) eqn:Hb; cbn; [|intros [= <- <-]; cbn; auto].
  destruct (as_password_change_required x && _) eqn:Hp; [intros [= <- <-]; cbn; auto|].
  destruct (ar_mutation req && _) eqn:Hm; [intros [= <- <-]; cbn; auto|].
  assert (Hp' : as_password_change_required x = true → ar_allow_password_change_required req = true).
  { intros E. rewrite E in Hp. by destruct (ar_allow_password_change_required req). }
  assert (Hm' : ar_mutation req = true → csrf_matches x (ar_csrf_token req) = true).
  { intros E. rewrite E in Hm. by destruct (csrf_matches x (ar_csrf_token req)). }
  clear Hp Hm. destruct (ar_mutation req).
  - pose proof (throttle_mutation_frame digest clock (set_sessions pruned s)) as (Hs & Ha & Ht & _).
    destruct (throttle_mutation digest clock (set_sessions pruned s)) as [s1 [u|e]]; cbn in Hs, Ha, Ht.
    + intros [= <- <-]. cbn. split_and!; [done..|]. exists x. rewrite Hs. by split_and!.
    + intros [= <- <-]. split_and!; [done..|]. by left.
  - intros [= <- <-]. cbn. split_and!; [done..|]. exists x. by split_and!.
Qed.

Lemma change_locked_spec session username verifier ip ua epoch mono tokens write s s' r :
  change_locked cfg session username verifier ip ua epoch mono tokens write s = (s', r) →
  last_totp_counter s' = last_totp_counter s ∧
  match r with
  | Ok result => ∃ store store' account replacement,
      account_store s = Some store ∧ current store = Some account ∧
      is_current s session = true ∧ bound_to session ua account = true ∧
      replace username verifier false (as_account_revision session) write store =
        (store', Ok replacement) ∧
      account_store s' = Some store' ∧ lg_session_token result = ft_session tokens ∧
      let x := new_session cfg (next_object s) replacement ip ua epoch mono tokens in
      sessions s' = [(as_session_digest x, x)]
  | Raise _ => sessions s' = sessions s
  end.
Proof.
  unfold change_locked, invalid_session, modify, get, raise, lift, mbind, act_bind. cbn.
  destruct (account_store s) as [store|]; [|by intros [= <- <-]].
  destruct (current store) as [account|] eqn:Ha; [|by intros [= <- <-]].
  destruct (is_current s session); [|by intros [= <- <-]].
  destruct (bound_to session ua account) eqn:Hb; [|by intros [= <- <-]]. cbn.
  destruct (replace _ _ _ _ _ _) as [store' [replacement|e]] eqn:Hr; [|by intros [= <- <-]].
  intros Hc. injection Hc as <- <-. cbn. split; [done|].
  exists store, store', account, replacement. by split_and!.
Qed.

(** [replace] leaves the account it returns as the current one. *)
Lemma replace_current username verifier change revision write store store' account :
  replace username verifier change revision write store = (store', Ok account) →
  current store' = Some account.
Proof.
  unfold replace. destruct (replace_checks _ _ _ _ _) as [content|e]; [|done].
  unfold commit_account. destruct (atomic_write _ _ _) as [path [u|e]]; [|done].
  destruct (parse_account content) as [a|e]; [|done]. by intros [= <- <-].
Qed.

Lemma replace_failed username verifier change revision write store store' e :
  replace username verifier change revision write store = (store', Raise e) →
  current store' = current store.
Proof.
  unfold replace. destruct (replace_checks _ _ _ _ _) as [content|?]; [|by intros [= <- <-]].
  unfold commit_account. destruct (atomic_write _ _ _) as [path [u|?]]; [|by intros [= <- <-]].
  destruct (parse_account content) as [a|?]; [done|]. by intros [= <- <-].
Qed.

Lemma grants_change s session username verifier ip ua epoch mono tokens write s' result :
  change_locked cfg session username verifier ip ua epoch mono tokens write s = (s', Ok result) →
  ∃ x, grants s (EChange session username verifier ip ua epoch mono tokens write) = Some x ∧
    sessions s' = [(as_session_digest x, x)].
Proof.
  intros Hc. cbn. rewrite Hc.
  destruct (change_locked_spec _ _ _ _ _ _ _ _ _ _ _ _ Hc) as
    (_ & store & store' & account & rep & _ & _ & _ & _ & Hr & -> & _ & Hs).
  cbn. rewrite (replace_current _ _ _ _ _ _ _ _ Hr). cbn. eauto.
Qed.

(** Steps that leave the sessions and the counter alone. *)
Definition neutral (e : event) : Prop :=
  match e with
  | ELogin _ _ _ _ _ | EAuthorize _ _ _ _ | EChange _ _ _ _ _ _ _ _ _ | ELogout _ | EInvalidate => False
  | _ => True
  end.

Lemma neutral_step s e :
  neutral e → sessions (step cfg s e) = sessions s ∧
    last_totp_counter (step cfg s e) = last_totp_counter s ∧
    account_store (step cfg s e) ≫= current = account_store s ≫= current.
Proof.
  destruct e; cbn; try done; intros _.
  - unfold throttle_login. by destruct (consume_both _ _ _ _ _ _) as [[? ?] ?].
  - unfold throttle_account_change. by destruct (consume_both _ _ _ _ _ _) as [[? ?] ?].
  - unfold throttle_browser_request. by destruct (consume_both _ _ _ _ _ _) as [[? ?] ?].
  - unfold scrypt_acquire, get, raise, modify, mbind, act_bind. cbn. by case_decide.
  - by destruct (account_store s) as [[]|].
Qed.

Lemma table_ok_new l object account ip ua epoch mono tokens :
  table_ok l →
  let x := new_session cfg object account ip ua epoch mono tokens in
  table_ok (table_set (as_session_digest x) x (with_room l)).
Proof. intros [Hok Hlen]%with_room_ok x. by apply table_ok_set. Qed.

Lemma table_ok_step s e : table_ok (sessions s) → table_ok (sessions (step cfg s e)).
Proof.
  intros Hok.
  assert (Hprune : ∀ now, table_ok (prune (seconds (cf_idle_seconds cfg)) now (sessions s)))
    by (intros; by apply table_ok_filter).
  destruct e as [| | | | |account req epoch mono tokens|account req mono clock|session u v ip ua epoch mono tokens w|token| |];
    try (match goal with |- table_ok (sessions (step _ _ ?e)) =>
           rewrite (proj1 (neutral_step s e I)); exact Hok end); cbn [step].
  - destruct (login_commit _ _ _ _ _ _ _) as [s' r] eqn:Hl.
    apply login_commit_spec in Hl as [[-> _]|(valid & counter & _ & _ & Hl)]; [done|].
    apply login_locked_spec in Hl as [_ Hl]. cbn [fst]. destruct r as [result|].
    + destruct Hl as (_ & _ & _ & _ & _ & ->). by apply table_ok_new.
    + by destruct Hl as [_ ->].
  - destruct (authorize_locked _ _ _ _ _ _) as [s' r] eqn:Ha.
    apply authorize_locked_spec in Ha as (_ & _ & Ha). cbn [fst]. destruct r as [x'|].
    + destruct Ha as (x & Hg & _ & _ & _ & -> & ->). pose proof (table_get_elem _ _ _ Hg) as Hin.
      destruct (Hprune mono) as (_ & _ & Hx). destruct (Hx _ _ Hin) as [Hd Habs].
      apply table_ok_set; [done| |done|done].
      intros Hnin. apply table_get_none in Hnin. congruence.
    + destruct Ha as [->| ->]; [done|]. by apply table_ok_filter.
  - destruct (change_locked _ _ _ _ _ _ _ _ _ _ _) as [s' r] eqn:Hc.
    apply change_locked_spec in Hc as [_ Hc]. cbn [fst]. destruct r as [result|]; [|by rewrite Hc].
    destruct Hc as (? & ? & ? & rep & _ & _ & _ & _ & _ & _ & _ & ->).
    apply (table_ok_set _ _ [] table_ok_nil); [|done..]. intros _. cbn. unfold SESSION_LIMIT. lia.
  - by apply table_ok_filter.
  - apply table_ok_nil.
Qed.

Lemma table_ok_run s es : table_ok (sessions s) → table_ok (sessions (run cfg s es)).
Proof.
  revert s. induction es as [|e es IH]; intros s Hok; [done|]. by apply IH, table_ok_step.
Qed.

(** ** Where sessions come from *)

Lemma sessions_step s e d x :
  (d, x) ∈ sessions (step cfg s e) →
  (∃ x0, (d, x0) ∈ sessions s ∧ same_session x0 x) ∨ (grants s e = Some x ∧ d = as_session_digest x).
Proof.
  assert (Hold : ∀ now, (d, x) ∈ prune (seconds (cf_idle_seconds cfg)) now (sessions s) →
                        ∃ x0, (d, x0) ∈ sessions s ∧ same_session x0 x).
  { intros now [Hin _]%elem_of_prune. eauto with qp. }
  destruct e as [| | | | |account req epoch mono tokens|account req mono clock|session u v ip ua epoch mono tokens w|token| |];
    try (match goal with |- _ ∈ sessions (step _ _ ?e) → _ =>
           rewrite (proj1 (neutral_step s e I)); eauto with qp end); cbn [step].
  - destruct (login_commit _ _ _ _ _ _ _) as [s' r] eqn:Hl. pose proof Hl as Hcommit.
    apply login_commit_spec in Hl as [[-> _]|(valid & counter & _ & _ & Hl)]; [eauto with qp|].
    apply login_locked_spec in Hl as [_ Hl]. cbn [fst]. destruct r as [result|].
    + destruct Hl as (_ & _ & _ & _ & _ & ->).
      intros [[= -> ->]|Hin]%elem_of_table_set; [|left; by eapply Hold, with_room_sub].
      right. split; [|done]. cbn [grants]. by rewrite Hcommit.
    + destruct Hl as [_ ->]. eauto.
  - destruct (authorize_locked _ _ _ _ _ _) as [s' r] eqn:Ha.
    apply authorize_locked_spec in Ha as (_ & _ & Ha). cbn [fst]. destruct r as [x'|].
    + destruct Ha as (x0 & Hg & _ & _ & _ & -> & ->).
      intros [[= -> ->]|Hin]%elem_of_table_set; [|by eauto]. left.
      apply table_get_elem, elem_of_prune in Hg as [Hg _]. eauto with qp.
    + destruct Ha as [->| ->]; [by eauto|]. intros [Hin _]%elem_of_table_pop. eauto.
  - destruct (change_locked _ _ _ _ _ _ _ _ _ _ _) as [s' r] eqn:Hc. cbn [fst]. destruct r as [result|].
    + destruct (grants_change _ _ _ _ _ _ _ _ _ _ _ _ Hc) as (y & Hy & ->).
      intros [= -> ->]%list_elem_of_singleton. by right.
    + apply change_locked_spec in Hc as [_ ->]. eauto with qp.
  - intros [Hin _]%elem_of_table_pop. eauto with qp.
  - by intros ?%elem_of_nil.
Qed.

Lemma run_cons s e es : run cfg s (e :: es) = run cfg (step cfg s e) es.
Proof. done. Qed.

Lemma run_app s es1 es2 : run cfg s (es1 ++ es2) = run cfg (run cfg s es1) es2.
Proof. apply foldl_app. Qed.

(** A session was there at the start or was created by one of the steps. *)
Lemma sessions_run s es d x :
  (d, x) ∈ sessions (run cfg s es) →
  (∃ x0, (d, x0) ∈ sessions s ∧ same_session x0 x) ∨
  ∃ es1 e es2 x0, es = es1 ++ e :: es2 ∧ grants (run cfg s es1) e = Some x0 ∧
    d = as_session_digest x0 ∧ same_session x0 x.
Proof.
  revert x. induction es as [|e es IH] using rev_ind; intros x; [eauto with qp|].
  rewrite run_app. cbn. intros [(x0 & Hin & Hsame)|[Hg Hd]]%sessions_step.
  - destruct (IH x0 Hin) as [(y & Hy & Hs)|(es1 & f & es2 & y & -> & Hg & Hd & Hs)].
    + left. exists y. split; [done|]. by eapply same_session_trans.
    + right. exists es1, f, (es2 ++ [e]), y. split_and!; [|done..|by eapply same_session_trans].
      by rewrite <- app_assoc.
  - right. exists es, e, [], x. split_and!; auto with qp.
Qed.

(** ** One-time codes *)

Lemma totp_code_length key counter code : totp_code key counter = Ok code → String.length code = 6%nat.
Proof.
  unfold totp_code. destruct (pack_u64 counter); cbn; [|done].
  destruct (unpack_u32 _); cbn; [|done]. by intros [= <-].
Qed.

Lemma bounded_otp_code otp key counter :
  totp_code key counter = Ok (bounded_otp otp) → bounded_otp otp = otp.
Proof.
  intros Hc%totp_code_length. unfold bounded_otp in *. by destruct (_ && _).
Qed.

Lemma matching_counter_spec otp epoch c :
  matching_counter cfg otp epoch = Ok c → 0 ≤ c →
  totp_code (default "" (cf_totp_secret cfg)) c = Ok otp ∧ Z.abs (c - current_counter epoch) ≤ 1.
Proof.
  unfold matching_counter. set (key := default "" (cf_totp_secret cfg)). cbn. intros Hm Hpos.
  assert (totp_code key c = Ok (bounded_otp otp) ∧ Z.abs (c - current_counter epoch) ≤ 1) as [Hc Habs].
  { destruct (totp_code key (current_counter epoch - 1)) as [c1|] eqn:E1; cbn in Hm; [|done].
    destruct (totp_code key (current_counter epoch)) as [c2|] eqn:E2; cbn in Hm; [|done].
    destruct (totp_code key (current_counter epoch + 1)) as [c3|] eqn:E3; cbn in Hm; [|done].
    injection Hm as <-. repeat case_decide; subst; first [lia|split; [done|lia]]. }
  split; [|done]. rewrite (bounded_otp_code otp key c Hc) in Hc. done.
Qed.

(** What an accepted login proved. *)
Definition login_evidence (account : AdminAccount) (req : login_request) (epoch c : Z) : Prop :=
  (aa_username account ≠ "" → lr_username req = aa_username account) ∧
  verify_admin_password (lr_password req) (aa_password_verifier account) = Ok true ∧
  totp_code (default "" (cf_totp_secret cfg)) c = Ok (lr_otp req) ∧
  Z.abs (c - current_counter epoch) ≤ 1.

Lemma login_locked_evidence account req valid c epoch mono tokens s s' r :
  verify_admin_password (lr_password req) (aa_password_verifier account) = Ok valid →
  matching_counter cfg (lr_otp req) epoch = Ok c →
  login_locked cfg account req valid c epoch mono tokens s = (s', Ok r) →
  login_evidence account req epoch c ∧ last_totp_counter s < c ∧ last_totp_counter s' = c.
Proof.
  intros Hv Hm (_ & Hu & -> & Hpos & Hlt & Hset & _)%login_locked_spec. split; [|done].
  destruct (matching_counter_spec _ _ _ Hm Hpos) as [Hcode Habs]. split_and!; [|done..].
  intros Hne. unfold username_matches in Hu. apply bool_decide_eq_true in Hu. by case_decide.
Qed.

Lemma counter_step s e : last_totp_counter s ≤ last_totp_counter (step cfg s e).
Proof.
  destruct e as [| | | | |account req epoch mono tokens|account req mono clock|session u v ip ua epoch mono tokens w|token| |];
    try (match goal with |- _ ≤ last_totp_counter (step _ _ ?e) =>
           rewrite (proj1 (proj2 (neutral_step s e I))); lia end); cbn [step].
  - destruct (login_commit _ _ _ _ _ _ _) as [s' r] eqn:Hl.
    apply login_commit_spec in Hl as [[-> _]|(valid & counter & _ & _ & Hl)]; [cbn; lia|].
    apply login_locked_spec in Hl as [_ Hl]. cbn [fst]. destruct r as [result|]; [lia|].
    destruct Hl as [-> _]. lia.
  - destruct (authorize_locked _ _ _ _ _ _) as [s' r] eqn:Ha.
    apply authorize_locked_spec in Ha as (_ & Ht & _). cbn [fst]. lia.
  - destruct (change_locked _ _ _ _ _ _ _ _ _ _ _) as [s' r] eqn:Hc.
    apply change_locked_spec in Hc as [Ht _]. cbn [fst]. lia.
  - cbn. lia.
  - cbn. lia.
Qed.

Lemma counter_run s es : last_totp_counter s ≤ last_totp_counter (run cfg s es).
Proof.
  revert s. induction es as [|e es IH]; intros s; cbn; [lia|].
  pose proof (counter_step s e). specialize (IH (step cfg s e)). unfold run in IH. lia.
Qed.

(** The logins a run accepts, with the counters of their codes. *)
Fixpoint accepted (s : AdminSecurity) (es : list event) : list (Z * event) :=
  match es with
  | [] => []
  | e :: es' =>
    let s' := step cfg s e in
    match e, grants s e with
    | ELogin _ _ _ _ _, Some _ => (last_totp_counter s', e) :: accepted s' es'
    | _, _ => accepted s' es'
    end
  end.

Definition is_login (c : Z) (e : event) : Prop :=
  ∃ account req epoch mono tokens,
    e = ELogin account req epoch mono tokens ∧ login_evidence account req epoch c.

Lemma grants_login s account req epoch mono tokens x :
  grants s (ELogin account req epoch mono tokens) = Some x →
  let c := last_totp_counter (step cfg s (ELogin account req epoch mono tokens)) in
  login_evidence account req epoch c ∧ last_totp_counter s < c.
Proof.
  cbn [grants step]. destruct (login_commit _ _ _ _ _ _ _) as [s' [r|]] eqn:Hl; cbn [fst snd]; [|done].
  intros _. apply login_commit_spec in Hl as [[_ [e ?]]|(valid & c & Hv & Hm & Hl)]; [done|].
  destruct (login_locked_evidence _ _ _ _ _ _ _ _ _ _ Hv Hm Hl) as (Hev & Hlt & ->). done.
Qed.

Lemma accepted_spec s es :
  ssorted fst (accepted s es) ∧
  ∀ c e, (c, e) ∈ accepted s es → last_totp_counter s < c ∧ is_login c e.
Proof.
  revert s. induction es as [|e es IH]; intros s; [split; [constructor|by intros ?? ?%elem_of_nil]|].
  pose proof (counter_step s e) as Hstep. destruct (IH (step cfg s e)) as [Hs Hin].
  assert (Hrest : ssorted fst (accepted (step cfg s e) es) ∧
                  ∀ c f, (c, f) ∈ accepted (step cfg s e) es → last_totp_counter s < c ∧ is_login c f).
  { split; [done|]. intros c f Hcf. destruct (Hin c f Hcf). split; [lia|done]. }
  destruct e as [| | | | |account req epoch mono tokens| | | | |]; try exact Hrest. cbn [accepted].
  destruct (grants s _) as [x|] eqn:Hg; [|exact Hrest].
  apply grants_login in Hg as [Hev Hlt]. split.
  - constructor; [done|]. apply Forall_forall. intros [c f] Hcf. cbn. by apply (Hin c f).
  - intros c f [[= -> ->]|Hcf]%elem_of_cons; [|by apply Hrest]. split; [done|].
    by exists account, req, epoch, mono, tokens.
Qed.

(** ** Methods as runs *)

Lemma require_account_ok s s' account :
  require_account cfg s = (s', Ok account) → s' = s ∧ account_store s ≫= current = Some account.
Proof.
  unfold require_account. intros Hr. act_ok Hr. apply raise_if_true in H1 as [-> _].
  act_ok Hr. injection H1 as <- <-. destruct (account_store s ≫= current) as [acc|] eqn:E; [|done].
  by injection Hr as <- <-.
Qed.

Lemma with_slot_ok {A} during (work : result A) s s' a :
  with_slot cfg during work s = (s', Ok a) →
  s' = run cfg s (EScryptAcquire :: during ++ [EScryptRelease]) ∧ work = Ok a.
Proof.
  unfold with_slot. intros Hw. act_ok Hw. act_ok Hw. act_ok Hw. apply lift_ok in Hw as [-> ->].
  injection H2 as <- <-. injection H3 as <- <-. split; [|done].
  rewrite run_cons, run_app. cbn [step]. by rewrite H1.
Qed.

(** A successful login is a run that ends with an accepted login step. *)
Lemma login_ok req clock epoch mono tokens hashing waiting s s' r :
  login cfg req clock epoch mono tokens hashing waiting s = (s', Ok r) →
  ∃ account es, account_store s ≫= current = Some account ∧
    (∀ e, e ∈ es → e ∈ hashing ++ waiting ∨ neutral e) ∧
    s' = step cfg (run cfg s es) (ELogin account req epoch mono tokens) ∧
    is_Some (grants (run cfg s es) (ELogin account req epoch mono tokens)).
Proof.
  unfold login. intros Hl. act_ok Hl. apply raise_if_true in H1 as [-> _].
  act_ok Hl. assert (E1 : s0 = step cfg s (EThrottleLogin (lr_client_ip req) clock)) by (cbn; by rewrite H1).
  act_ok Hl. apply require_account_ok in H2 as [-> Hacc].
  act_ok Hl. apply with_slot_ok in H2 as [-> Hv].
  act_ok Hl. apply lift_ok in H2 as [-> Hm].
  act_ok Hl. injection H2 as <- <-.
  exists a1, (EThrottleLogin (lr_client_ip req) clock ::
             (EScryptAcquire :: hashing ++ [EScryptRelease]) ++ waiting).
  rewrite run_cons, <- E1, run_app.
  assert (Hc : login_commit cfg a1 req epoch mono tokens
                 (run cfg (run cfg s0 (EScryptAcquire :: hashing ++ [EScryptRelease])) waiting) = (s', Ok r)).
  { unfold login_commit, lift, mbind, act_bind. by rewrite Hv, Hm. }
  split_and!.
  - rewrite <- Hacc, E1. symmetry. by apply neutral_step.
  - intros e. rewrite !elem_of_cons, !elem_of_app, !elem_of_cons, elem_of_app, list_elem_of_singleton.
    intros [->|[[->|[?| ->]]|?]]; cbn; auto.
  - cbn [step]. by rewrite Hc.
  - cbn [grants]. by rewrite Hc.
Qed.

(** Only an account change replaces the current account. *)
Definition keeps_account (e : event) : Prop :=
  match e with EChange _ _ _ _ _ _ _ _ _ => False | _ => True end.

Lemma current_step s e :
  keeps_account e → account_store (step cfg s e) ≫= current = account_store s ≫= current.
Proof.
  destruct e as [| | | | |account req epoch mono tokens|account req mono clock|session u v ip ua epoch mono tokens w|token| |];
    try (match goal with |- _ → account_store (step _ _ ?e) ≫= _ = _ =>
           intros _; apply (neutral_step s e I) end); cbn [step]; try done; intros _.
  - destruct (login_commit _ _ _ _ _ _ _) as [s' r] eqn:Hl.
    apply login_commit_spec in Hl as [[-> _]|(valid & counter & _ & _ & Hl)]; [done|].
    apply login_locked_spec in Hl as [Hl _]. cbn. by rewrite Hl.
  - destruct (authorize_locked _ _ _ _ _ _) as [s' r] eqn:Ha.
    apply authorize_locked_spec in Ha as (Ha & _). cbn. by rewrite Ha.
Qed.

Lemma current_run s es :
  (∀ e, e ∈ es → keeps_account e) →
  account_store (run cfg s es) ≫= current = account_store s ≫= current.
Proof.
  revert s. induction es as [|e es IH]; intros s Hes; [done|].
  rewrite run_cons, IH by (intros; apply Hes; by right). apply current_step, Hes. by left.
Qed.

Lemma authorize_ok req mono clock waiting s s' x :
  authorize cfg req mono clock waiting s = (s', Ok x) →
  ∃ account x0,
    account_store s ≫= current = Some account ∧
    let digest := session_digest (bounded_token (ar_session_token req)) in
    (digest, x0) ∈ sessions (run cfg s waiting) ∧ x = seen_at mono x0 ∧
    expired (seconds (cf_idle_seconds cfg)) mono x0 = false ∧
    bound_to x0 (ar_user_agent req) account = true ∧
    (as_password_change_required x0 = true → ar_allow_password_change_required req = true) ∧
    (ar_mutation req = true → csrf_matches x0 (ar_csrf_token req) = true).
Proof.
  unfold authorize. intros Ha. act_ok Ha. apply raise_if_true in H1 as [-> _].
  act_ok Ha. apply require_account_ok in H1 as [-> Hacc]. act_ok Ha. injection H1 as <- <-.
  apply authorize_locked_spec in Ha as (_ & _ & x0 & Hg & Hb & Hp & Hm & -> & _).
  apply table_get_elem, elem_of_prune in Hg as [Hin Hexp]. exists a0, x0. by split_and!.
Qed.

(** Methods that leave the hashing slots alone. *)
Definition keeps_held {A} (m : act A) : Prop := ∀ s, scrypt_held (m s).1 = scrypt_held s.

Lemma admin_keeps_bind {A B} (m : act A) (k : A → act B) :
  keeps_held m → (∀ a, keeps_held (k a)) → keeps_held (m ≫= k).
Proof.
  intros Hm Hk s. unfold mbind, act_bind. specialize (Hm s).
  destruct (m s) as [s1 [a|e]]; cbn in *; [by rewrite Hk|done].
Qed.

Lemma keeps_lift {A} (m : result A) : keeps_held (lift m).
Proof. done. Qed.

Lemma keeps_raise {A} e : keeps_held (raise e : act A).
Proof. done. Qed.

Lemma keeps_mutation digest clock : keeps_held (throttle_mutation digest clock).
Proof. intros s. unfold throttle_mutation. by destruct (consume_both _ _ _ _ _ _) as [[? ?] ?]. Qed.

Lemma keeps_change session u v ip ua epoch mono tokens w :
  keeps_held (change_locked cfg session u v ip ua epoch mono tokens w).
Proof.
  apply admin_keeps_bind; [done|]. intros s.
  destruct (account_store s) as [store|]; [|done]. destruct (current store); [|done].
  destruct (negb _); [done|]. destruct (replace _ _ _ _ _ _) as [store' replaced].
  repeat (apply admin_keeps_bind; [done|intros]). done.
Qed.

Lemma held_step s e :
  (scrypt_held s ≤ SCRYPT_WORK_LIMIT)%nat → (scrypt_held (step cfg s e) ≤ SCRYPT_WORK_LIMIT)%nat.
Proof.
  intros Hs. destruct e as [| | | | |account req epoch mono tokens|account req mono clock|session u v ip ua epoch mono tokens w|token| |];
    cbn [step].
  - unfold throttle_login. by destruct (consume_both _ _ _ _ _ _) as [[? ?] ?].
  - unfold throttle_account_change. by destruct (consume_both _ _ _ _ _ _) as [[? ?] ?].
  - unfold throttle_browser_request. by destruct (consume_both _ _ _ _ _ _) as [[? ?] ?].
  - unfold scrypt_acquire, get, raise, modify, mbind, act_bind. cbn. case_decide; cbn; lia.
  - cbn. lia.
  - assert (Hk : keeps_held (login_commit cfg account req epoch mono tokens)); [|by rewrite Hk].
    repeat (apply admin_keeps_bind; [done|intros]). by destruct (_ || _).
  - assert (Hk : keeps_held (authorize_locked cfg account req mono clock)); [|by rewrite Hk].
    repeat (apply admin_keeps_bind; [done|intros]). destruct (table_get _ _); [|done].
    repeat (match goal with |- keeps_held (if ?b then _ else _) => destruct b end; [done|]).
    apply admin_keeps_bind; [|done]. destruct (ar_mutation req); [apply keeps_mutation|done].
  - by rewrite keeps_change.
  - done.
  - done.
  - done.
Qed.

Lemma change_account_ok req clock epoch mono salt tokens write reading verifying hashing waiting s s' r :
  change_account cfg req clock epoch mono salt tokens write reading verifying hashing waiting s =
    (s', Ok r) →
  ∃ account s1 verifier,
    account_store s ≫= current = Some account ∧
    verify_admin_password (cr_current_password req) (aa_password_verifier account) = Ok true ∧
    cr_new_password req ≠ cr_current_password req ∧
    0 ≤ mono - as_created_monotonic (cr_session req) ≤ ACCOUNT_CHANGE_MAX_SESSION_AGE ∧
    change_locked cfg (cr_session req) (cr_new_username req) verifier (cr_client_ip req)
      (cr_user_agent req) epoch mono tokens write s1 = (s', Ok r).
Proof.
  unfold change_account. intros Hc. act_ok Hc. apply raise_if_true in H1 as [-> Hage].
  act_ok Hc. apply require_account_ok in H1 as [-> Hacc]. act_ok Hc. clear H1. act_ok Hc. clear H1.
  act_ok Hc. clear H1. act_ok Hc. apply with_slot_ok in H1 as [_ Hv].
  act_ok Hc. apply raise_if_true in H1 as [_ Hvalid]. act_ok Hc. clear H1.
  act_ok Hc. apply raise_if_true in H1 as [_ Hne]. act_ok Hc. clear H1. act_ok Hc. clear H1.
  apply bool_decide_eq_false in Hage, Hne. apply negb_false_iff in Hvalid. subst.
  eexists _, _, _. split_and!; [exact Hacc|exact Hv|exact Hne|lia|lia|exact Hc].
Qed.

Lemma grants_revision s account req epoch mono tokens x :
  grants s (ELogin account req epoch mono tokens) = Some x → as_account_revision x = aa_revision account.
Proof. cbn. destruct (login_commit _ _ _ _ _ _ _).2; [|done]. by intros [= <-]. Qed.

(** Between two account changes, an authorized session was there at the start
    or comes from a login. *)
Lemma authorized_after s es req mono clock waiting s' y :
  (∀ e, e ∈ es ++ waiting → keeps_account e) →
  authorize cfg req mono clock waiting (run cfg s es) = (s', Ok y) →
  ∃ account, account_store s ≫= current = Some account ∧
  ∃ y0, same_session y0 y ∧ as_account_revision y0 = aa_revision account ∧
    ((session_digest (bounded_token (ar_session_token req)), y0) ∈ sessions s ∨
     ∃ es1 account' lreq lepoch lmono ltokens es2,
       es ++ waiting = es1 ++ ELogin account' lreq lepoch lmono ltokens :: es2 ∧
       grants (run cfg s es1) (ELogin account' lreq lepoch lmono ltokens) = Some y0).
Proof.
  intros Hkeep (account & x & Hacc & Hin & -> & _ & Hb & _)%authorize_ok.
  exists account. split.
  { rewrite current_run in Hacc; [done|]. intros e He. apply Hkeep, elem_of_app. by left. }
  rewrite <- run_app in Hin. unfold bound_to in Hb. apply andb_true_iff in Hb as [_ Hrev].
  apply bool_decide_eq_true in Hrev.
  apply sessions_run in Hin as [(y0 & Hy0 & Hs)|(es1 & e & es2 & y0 & Heq & Hg & _ & Hs)];
    exists y0; (split; [eapply same_session_trans; [exact Hs|apply seen_at_same]|]);
    (split; [by rewrite Hs in Hrev|]); [by left|right].
  assert (He : keeps_account e).
  { apply Hkeep. rewrite Heq. apply elem_of_app. right. by left. }
  destruct e as [| | | | |account' lreq lepoch lmono ltokens| | | | |]; try done.
  by exists es1, account', lreq, lepoch, lmono, ltokens, es2.
Qed.

End facts.

(** ** Properties *)

(** Whatever the threads do, the table never holds more than 64 sessions,
    each is stored once under its own digest and ends a fixed time after it was
    created, and at most two passwords are hashed at once. *)
Theorem admin_state_bounded `{AccountPrimitives, SecurityPrimitives} (cfg : security_config)
    (store : option AdminAccountStore) (es : list event) :
  let s := run cfg (initial store) es in
  table_ok cfg (sessions s) ∧ (scrypt_held s ≤ SCRYPT_WORK_LIMIT)%nat.
Proof.
  cbv zeta. split; [apply table_ok_run, table_ok_nil|].
  assert (Hrun : ∀ s, (scrypt_held s ≤ SCRYPT_WORK_LIMIT)%nat →
                      (scrypt_held (run cfg s es) ≤ SCRYPT_WORK_LIMIT)%nat).
  { induction es as [|e es' IH]; intros s Hs; [done|]. rewrite run_cons. by apply IH, held_step. }
  apply Hrun. cbn. lia.
Qed.

(** Where a session that is accepted comes from: it was created, while the run
    was under way, by a login or an account change that was accepted; it is the
    caller's, and alive. *)
Definition authentic `{AccountPrimitives, SecurityPrimitives} (cfg : security_config)
    (store : option AdminAccountStore) (es waiting : list event) (req : authorize_request) (mono : Z)
    (x : AdminSession) : Prop :=
  ∃ account es1 e es2 x0 seen,
    account_store (run cfg (initial store) es) ≫= current = Some account ∧
    es ++ waiting = es1 ++ e :: es2 ∧ grants cfg (run cfg (initial store) es1) e = Some x0 ∧
    x = seen_at mono x0 ∧
    as_session_digest x0 = session_digest (bounded_token (ar_session_token req)) ∧
    as_user_agent_digest x0 = user_agent_digest (ar_user_agent req) ∧
    as_account_revision x0 = aa_revision account ∧
    (as_session_digest x0, seen_at seen x0) ∈ sessions (run cfg (initial store) (es ++ waiting)) ∧
    mono < as_created_monotonic x0 + seconds (cf_absolute_seconds cfg) ∧
    mono < seen + seconds (cf_idle_seconds cfg) ∧
    (as_password_change_required x0 = true → ar_allow_password_change_required req = true) ∧
    (ar_mutation req = true → ar_csrf_token req = Some (as_csrf_token x0)).

Lemma authorize_authentic `{AccountPrimitives, SecurityPrimitives} (cfg : security_config)
    (store : option AdminAccountStore) (es waiting : list event) (req : authorize_request)
    (mono : Z) (clock : Z * Z) (s' : AdminSecurity) (x : AdminSession) :
  authorize cfg req mono clock waiting (run cfg (initial store) es) = (s', Ok x) →
  authentic cfg store es waiting req mono x.
Proof.
  intros (account & y & Hacc & Hin & -> & Hexp & Hb & Hp & Hm)%authorize_ok.
  rewrite <- run_app in Hin.
  destruct (table_ok_run cfg (initial store) (es ++ waiting) (table_ok_nil cfg)) as (_ & _ & Hok).
  destruct (Hok _ _ Hin) as [_ Habs].
  apply sessions_run in Hin as Horigin.
  destruct Horigin as [(z & Hz & _)|(es1 & e & es2 & x0 & Heq & Hg & Hd & Hsame)]; [by apply elem_of_nil in Hz|].
  exists account, es1, e, es2, x0, (as_last_seen_monotonic y). unfold same_session in Hsame.
  rewrite <- Hsame, <- Hd. rewrite Hsame in Habs, Hb, Hp, Hm. cbn in Habs, Hp, Hm.
  unfold bound_to in Hb. cbn in Hb. apply andb_true_iff in Hb as [Hua Hrev].
  apply bool_decide_eq_true in Hua, Hrev. unfold expired in Hexp.
  apply bool_decide_eq_false in Hexp. rewrite Hsame in Hexp at 1. cbn in Hexp.
  split_and!; try done; [by rewrite Hsame|lia|lia|].
  intros Hmut%Hm. unfold csrf_matches in Hmut. destruct (ar_csrf_token req) as [t|]; [|done].
  apply andb_true_iff in Hmut as [_ Ht]. apply bool_decide_eq_true in Ht. by subst.
Qed.

(** A session that [authorize] returns was created, while the run so far
    was under way, by an accepted login or account change; the caller holds its
    token and uses the same browser, the account is still at the revision the
    session was created for, neither the absolute nor the idle lifetime has
    passed, a mutation carries its CSRF token, and a password change that is
    due was waived. *)
Theorem authorize_sound `{AccountPrimitives, SecurityPrimitives} (cfg : security_config)
    (store : option AdminAccountStore) (es waiting : list event) (req : authorize_request)
    (mono : Z) (clock : Z * Z) (s' : AdminSecurity) (x : AdminSession) :
  authorize cfg req mono clock waiting (run cfg (initial store) es) = (s', Ok x) →
  ∃ account es1 e es2 x0 seen,
    account_store (run cfg (initial store) es) ≫= current = Some account ∧
    es ++ waiting = es1 ++ e :: es2 ∧ grants cfg (run cfg (initial store) es1) e = Some x0 ∧
    x = seen_at mono x0 ∧
    as_session_digest x0 = session_digest (bounded_token (ar_session_token req)) ∧
    as_user_agent_digest x0 = user_agent_digest (ar_user_agent req) ∧
    as_account_revision x0 = aa_revision account ∧
    (as_session_digest x0, seen_at seen x0) ∈ sessions (run cfg (initial store) (es ++ waiting)) ∧
    mono < as_created_monotonic x0 + seconds (cf_absolute_seconds cfg) ∧
    mono < seen + seconds (cf_idle_seconds cfg) ∧
    (as_password_change_required x0 = true → ar_allow_password_change_required req = true) ∧
    (ar_mutation req = true → ar_csrf_token req = Some (as_csrf_token x0)).
Proof. apply authorize_authentic. Qed.

(** A successful login proved the user name, the password and a code whose
    time step is at most one away from the current one and later than that of
    any login before it; every login accepted afterwards, in any interleaving,
    proves the same with a strictly later time step, so no code opens two
    sessions. *)
Theorem one_time_codes `{AccountPrimitives, SecurityPrimitives} (cfg : security_config)
    (s s' : AdminSecurity) (req : login_request) (clock : Z * Z) (epoch mono : Z)
    (tokens : fresh_tokens) (hashing waiting : list event) (r : AdminLoginResult) :
  login cfg req clock epoch mono tokens hashing waiting s = (s', Ok r) →
  ∃ account counter,
    account_store s ≫= current = Some account ∧ login_evidence cfg account req epoch counter ∧
    last_totp_counter s < counter ∧
    ∀ es, ssorted fst (accepted cfg s' es) ∧
          ∀ c e, (c, e) ∈ accepted cfg s' es → counter < c ∧ is_login cfg c e.
Proof.
  intros (account & es & Hacc & _ & -> & [x Hg])%login_ok.
  apply grants_login in Hg as [Hev Hlt]. pose proof (counter_run cfg s es) as Hrun.
  eexists account, _. split_and!; [done|exact Hev|lia|]. intros es'. apply accepted_spec.
Qed.

(** A successful account change was made within five minutes of the login,
    with the current password and a different new one; it leaves one session,
    the new one.  Until the next change, whatever else runs (logins that had
    verified the previous account among it), a session that [authorize] returns
    is that one or was opened by a login to an account of the new revision. *)
Theorem change_account_revokes `{AccountPrimitives, SecurityPrimitives} (cfg : security_config)
    (s s' : AdminSecurity) (req : change_request) (clock : Z * Z) (epoch mono : Z) (salt : string)
    (tokens : fresh_tokens) (write : write_outcome) (reading verifying hashing waiting : list event)
    (r : AdminLoginResult) :
  change_account cfg req clock epoch mono salt tokens write reading verifying hashing waiting s =
    (s', Ok r) →
  ∃ account replacement x,
    account_store s ≫= current = Some account ∧
    verify_admin_password (cr_current_password req) (aa_password_verifier account) = Ok true ∧
    cr_new_password req ≠ cr_current_password req ∧
    0 ≤ mono - as_created_monotonic (cr_session req) ≤ seconds 300 ∧
    account_store s' ≫= current = Some replacement ∧
    sessions s' = [(session_digest (lg_session_token r), x)] ∧
    as_account_revision x = aa_revision replacement ∧
    ∀ es areq amono aclock await s'' y,
      (∀ e, e ∈ es ++ await → keeps_account e) →
      authorize cfg areq amono aclock await (run cfg s' es) = (s'', Ok y) →
      same_session x y ∨
      ∃ es1 account' lreq lepoch lmono ltokens es2 y0,
        es ++ await = es1 ++ ELogin account' lreq lepoch lmono ltokens :: es2 ∧
        grants cfg (run cfg s' es1) (ELogin account' lreq lepoch lmono ltokens) = Some y0 ∧
        aa_revision account' = aa_revision replacement ∧ same_session y0 y.
Proof.
  intros (account & s1 & verifier & Hacc & Hv & Hne & Hage & Hc)%change_account_ok.
  destruct (change_locked_spec cfg _ _ _ _ _ _ _ _ _ _ _ _ Hc) as
    (_ & store & store' & acc & rep & _ & _ & _ & _ & Hrep & Hst & Htok & Hs).
  apply replace_current in Hrep.
  set (x := new_session cfg (next_object s1) rep (cr_client_ip req) (cr_user_agent req) epoch mono tokens) in *.
  exists account, rep, x. rewrite Hst, Htok. unfold ACCOUNT_CHANGE_MAX_SESSION_AGE in Hage.
  split_and!; [done|done|done|lia|lia|done|exact Hs|done|].
  intros es areq amono aclock await s'' y Hkeep Hy. eapply authorized_after in Hy; [|exact Hkeep].
  destruct Hy as (account' & Hcur & y0 & Hsame & Hrev & [Hin|Hgrant]).
  - left. rewrite Hs in Hin. apply list_elem_of_singleton in Hin. injection Hin as _ ->. done.
  - right. rewrite Hst in Hcur. cbn in Hcur. rewrite Hrep in Hcur. injection Hcur as <-.
    destruct Hgrant as (es1 & acc' & lreq & lepoch & lmono & ltokens & es2 & Heq & Hg).
    exists es1, acc', lreq, lepoch, lmono, ltokens, es2, y0. split_and!; [done|done| |done].
    rewrite <- Hrev. symmetry. by eapply grants_revision.
Qed.

(** ** A concrete session *)

#[local] Existing Instance demo_account.

(** The code of a time step is its decimal text. *)
Definition demo_security : SecurityPrimitives :=
  {| b32decode := Some; hmac_sha1 := λ _ message, drop 4 message ++ replicate 16 0;
     ip_address := Some;
     urlsplit := λ _, Ok {| up_scheme := "https"; up_hostname := Some "host"; up_username := None;
                            up_password := None; up_path := ""; up_query := ""; up_fragment := "";
                            up_port_valid := true |} |}.

#[local] Existing Instance demo_security.

Definition demo_config : security_config :=
  {| cf_configured := true; cf_totp_secret := Some "0123456789ABCDEF";
     cf_expected_origin := Some "https://host"; cf_require_https := true; cf_idle_seconds := 900;
     cf_absolute_seconds := 3600; cf_production := true; cf_trusted_proxy_ips := [];
     cf_cookie_name := COOKIE_PRODUCTION |}.

Example demo_configured :
  security_init (Some demo_store) (Some "0123456789abcdef") (Some "https://host/") true 900 3600 true [] =
  Ok demo_config.
Proof. vm_compute. reflexivity. Qed.

Definition demo_login : login_request :=
  {| lr_username := "root"; lr_password := "correct horse"; lr_otp := "000100";
     lr_client_ip := "10.0.0.1"; lr_user_agent := "browser" |}.

Definition demo_tokens (name : string) : fresh_tokens :=
  {| ft_session := name +:+ "-session"; ft_csrf := name +:+ "-csrf" |}.

Definition demo_initial : AdminSecurity := initial (Some demo_store).

(** A login in time step 100, at one minute of the monotonic clock. *)
Definition demo_logged_in : AdminSecurity :=
  (login demo_config demo_login (0, 0) (seconds 3000) (seconds 60) (demo_tokens "a") [] [] demo_initial).1.

Lemma one_time_codes_witness :
  ∃ account counter,
    account_store demo_initial ≫= current = Some account ∧
    login_evidence demo_config account demo_login (seconds 3000) counter ∧
    last_totp_counter demo_initial < counter ∧
    ∀ es, ssorted fst (accepted demo_config demo_logged_in es) ∧
          ∀ c e, (c, e) ∈ accepted demo_config demo_logged_in es → counter < c ∧ is_login demo_config c e.
Proof.
  apply (one_time_codes demo_config demo_initial demo_logged_in demo_login (0, 0) (seconds 3000)
    (seconds 60) (demo_tokens "a") [] []
    {| lg_session_token := "a-session"; lg_csrf_token := "a-csrf"; lg_expires_at_epoch := seconds 6600;
       lg_username := "root"; lg_password_change_required := true |}).
  vm_compute. reflexivity.
Defined.

Definition demo_admin : AdminAccount :=
  default {| aa_username := ""; aa_password_verifier := ""; aa_password_change_required := false;
             aa_revision := "" |} (current demo_store).

Definition demo_events : list event :=
  [ELogin demo_admin demo_login (seconds 3000) (seconds 60) (demo_tokens "a")].

Definition demo_authorize : authorize_request :=
  {| ar_session_token := Some "a-session"; ar_user_agent := "browser"; ar_csrf_token := Some "a-csrf";
     ar_mutation := true; ar_allow_password_change_required := true |}.

(** The session of [demo_logged_in]. *)
Definition demo_session : AdminSession :=
  new_session demo_config 0 demo_admin "10.0.0.1" "browser" (seconds 3000) (seconds 60) (demo_tokens "a").

Lemma authorize_sound_witness :
  ∃ account es1 e es2 x0 seen,
    account_store (run demo_config demo_initial demo_events) ≫= current = Some account ∧
    demo_events ++ [] = es1 ++ e :: es2 ∧ grants demo_config (run demo_config demo_initial es1) e = Some x0 ∧
    seen_at (seconds 70) demo_session = seen_at (seconds 70) x0 ∧
    as_session_digest x0 = session_digest (bounded_token (ar_session_token demo_authorize)) ∧
    as_user_agent_digest x0 = user_agent_digest (ar_user_agent demo_authorize) ∧
    as_account_revision x0 = aa_revision account ∧
    (as_session_digest x0, seen_at seen x0) ∈ sessions (run demo_config demo_initial (demo_events ++ [])) ∧
    seconds 70 < as_created_monotonic x0 + seconds (cf_absolute_seconds demo_config) ∧
    seconds 70 < seen + seconds (cf_idle_seconds demo_config) ∧
    (as_password_change_required x0 = true → ar_allow_password_change_required demo_authorize = true) ∧
    (ar_mutation demo_authorize = true → ar_csrf_token demo_authorize = Some (as_csrf_token x0)).
Proof.
  apply (authorize_sound demo_config (Some demo_store) demo_events [] demo_authorize (seconds 70) (0, 0)
    (authorize demo_config demo_authorize (seconds 70) (0, 0) [] (run demo_config demo_initial demo_events)).1).
  vm_compute. reflexivity.
Defined.

Definition demo_change : change_request :=
  {| cr_session := demo_session; cr_current_password := "correct horse"; cr_new_username := "root";
     cr_new_password := "battery staple"; cr_client_ip := "10.0.0.1"; cr_user_agent := "browser" |}.

Definition demo_changed : AdminSecurity :=
  (change_account demo_config demo_change (0, 0) (seconds 3030) (seconds 90) "0123456789abcdef"
     (demo_tokens "b") Written [] [] [] [] demo_logged_in).1.

Lemma change_account_revokes_witness :
  ∃ account replacement x,
    account_store demo_logged_in ≫= current = Some account ∧
    verify_admin_password (cr_current_password demo_change) (aa_password_verifier account) = Ok true ∧
    cr_new_password demo_change ≠ cr_current_password demo_change ∧
    0 ≤ seconds 90 - as_created_monotonic (cr_session demo_change) ≤ seconds 300 ∧
    account_store demo_changed ≫= current = Some replacement ∧
    sessions demo_changed = [(session_digest "b-session", x)] ∧
    as_account_revision x = aa_revision replacement ∧
    ∀ es areq amono aclock await s'' y,
      (∀ e, e ∈ es ++ await → keeps_account e) →
      authorize demo_config areq amono aclock await (run demo_config demo_changed es) = (s'', Ok y) →
      same_session x y ∨
      ∃ es1 account' lreq lepoch lmono ltokens es2 y0,
        es ++ await = es1 ++ ELogin account' lreq lepoch lmono ltokens :: es2 ∧
        grants demo_config (run demo_config demo_changed es1)
          (ELogin account' lreq lepoch lmono ltokens) = Some y0 ∧
        aa_revision account' = aa_revision replacement ∧ same_session y0 y.
Proof.
  apply (change_account_revokes demo_config demo_logged_in demo_changed demo_change (0, 0) (seconds 3030)
    (seconds 90) "0123456789abcdef" (demo_tokens "b") Written [] [] [] []
    {| lg_session_token := "b-session"; lg_csrf_token := "b-csrf"; lg_expires_at_epoch := seconds 6630;
       lg_username := "root"; lg_password_change_required := false |}).
  vm_compute. reflexivity.
Defined.
