(* ===== verification/AdminGuard.v ===== *)
(** * The guard of the administrator interface ([_AdminRequestGuardMiddleware] of [api.py])

    What stands between the network and every route under [/admin-api/]: the
    request limiter, the checks of origin, scheme and session, the routes a due
    password change leaves open, and the limits on bodies.  The application
    behind it is not modelled: the guard answers itself or hands the request on.
    That catalogue imports are handed on one at a time (a semaphore) is left
    out. *)

From S2P Require Import Prelude PyStr PyTime AdminAccount AdminSecurity AdminSecurityFacts.
From Stdlib Require Import Ascii.

Local Open Scope string_scope.
Local Open Scope list_scope.
Local Open Scope Z_scope.

(** ** Requests *)

(** An ASGI scope: header names are in lower case, and the cookies are those
    that Starlette reads from the headers. *)
Record http_scope := {
  hs_type : string;
  hs_path : string;
  hs_method : option string;
  hs_scheme : option string;
  hs_headers : list (string * string);
  hs_client : option string;
  hs_cookies : string → option string;
}.

(** [{key.lower(): value ...}.get(name)]: the last one. *)
Definition header (s : http_scope) (name : string) : option string :=
  snd <$> last (List.filter (λ h : string * string, bool_decide (lower h.1 = name)) (hs_headers s)).

(** [request.headers.get(name)]: the first one. *)
Definition first_header (s : http_scope) (name : string) : option string :=
  snd <$> head (List.filter (λ h : string * string, bool_decide (h.1 = name)) (hs_headers s)).

(** [value.decode("ascii", errors="ignore")] *)
Fixpoint decode_ascii (s : string) : string :=
  match s with
  | "" => ""
  | String c s' => if bool_decide (code c < 128) then String c (decode_ascii s') else decode_ascii s'
  end.

(** White space for [bytes]. *)
Definition is_byte_space (c : ascii) : bool := bool_decide (9 ≤ code c ≤ 13) || bool_decide (code c = 32).

Fixpoint lstrip_bytes (s : string) : string :=
  match s with "" => "" | String c s' => if is_byte_space c then lstrip_bytes s' else s end.

Fixpoint rstrip_bytes (s : string) : string :=
  match s with
  | "" => ""
  | String c s' =>
    match rstrip_bytes s' with
    | "" => if is_byte_space c then "" else String c ""
    | r => String c r
    end
  end.

(** [bytes.strip] *)
Definition strip_bytes (s : string) : string := rstrip_bytes (lstrip_bytes s).

(** [int(value)] of [bytes]: as for text, but the text around the number is
    white space for bytes. *)
Definition int_bytes (s : string) : option Z :=
  let stripped := strip_bytes s in
  if bool_decide (strip stripped = stripped) then py_int stripped else None.

Fixpoint endswith (suffix s : string) : bool :=
  bool_decide (s = suffix) || match s with "" => false | String _ s' => endswith suffix s' end.

Definition method_of (s : http_scope) : string := upper (default "GET" (hs_method s)).

Definition IMPORT_PATH : string := "/admin-api/instrument-catalog/import".

Definition guarded (s : http_scope) : bool :=
  bool_decide (hs_type s = "http") && startswith "/admin-api/" (hs_path s).

Definition is_login (s : http_scope) : bool :=
  bool_decide (method_of s = "POST") && bool_decide (hs_path s = "/admin-api/session").

Definition provider_search (s : http_scope) : bool :=
  bool_decide (method_of s ∈ ["GET"; "HEAD"]) && startswith "/admin-api/provider-catalog/" (hs_path s) &&
  endswith "/search" (hs_path s).

Definition bodyless (s : http_scope) : bool := bool_decide (method_of s ∈ ["GET"; "HEAD"; "OPTIONS"]).

Definition authorization_level (s : http_scope) : string :=
  if provider_search s then "same_origin_action" else if bodyless s then "read" else "mutation".

Definition password_change_routes : list (string * string) :=
  [("GET", "/admin-api/session"); ("DELETE", "/admin-api/session"); ("GET", "/admin-api/account");
   ("PATCH", "/admin-api/account")].

(** ** Answers *)

(** The guard answers with an error, or hands the request on: with a session
    and its level, and with the number of bytes its body may have. *)
Inductive verdict :=
| Answer (status : Z) (code message : string) (retry_after : option Z)
| HandOn (session : option (AdminSession * string)) (limit : option Z).

Definition rate_limited (retry_after : Z) : verdict :=
  Answer 429 "admin_rate_limited" "administrator request rate limit exceeded" (Some retry_after).

Definition body_too_large : verdict :=
  Answer 413 "request_too_large" "administrator request body exceeds the safe limit" None.

(** The [except] clauses around the authorization. *)
Definition refusal (e : exn) : option verdict :=
  match e with
  | NamedError cls _ =>
    if decide (cls = "AdminNotConfiguredError") then
      Some (Answer 503 "admin_not_configured" "administrator access is unavailable" None)
    else if decide (cls = "AdminAuthorizationError" ∨ cls = "AdminPasswordChangeRequiredError") then
      Some (Answer 401 "admin_unauthorized" "administrator authorization failed" None)
    else None
  | RetryError cls retry_after => if decide (cls = "AdminRateLimitError") then Some (rate_limited retry_after) else None
  | _ => None
  end.

Definition catching (m : act verdict) : act verdict := λ s,
  match m s with
  | (s', Ok v) => (s', Ok v)
  | (s', Raise e) => (s', match refusal e with Some v => Ok v | None => Raise e end)
  end.

(** ** The guard *)

Section guard.
Context `{AccountPrimitives, SecurityPrimitives} (cfg : security_config).
Context (maximum_bytes catalog_import_maximum_bytes : Z).

(** Clock readings, and what other threads do while an authorization waits for
    the lock. *)
Record guard_env := {
  ge_request_clock : Z * Z;
  ge_monotonic : Z;
  ge_mutation_clock : Z * Z;
  ge_waiting : list event;
}.

Definition body_limit (s : http_scope) : Z :=
  if decide (hs_path s = IMPORT_PATH) then catalog_import_maximum_bytes else maximum_bytes.

Definition client_address (s : http_scope) : string :=
  resolve_client_ip cfg (hs_client s)
    (match header s "x-real-ip" with Some forwarded => if truthy forwarded then Some (decode_ascii forwarded) else None
     | None => None end).

Definition effective_scheme (s : http_scope) : string :=
  let scheme := default "http" (hs_scheme s) in
  match header s "x-forwarded-proto" with
  | Some forwarded =>
    let candidate := lower (decode_ascii forwarded) in
    if trusts_proxy cfg (hs_client s) && bool_decide (candidate ∈ ["http"; "https"]) then candidate else scheme
  | None => scheme
  end.

Definition check_origin (s : http_scope) : result unit :=
  let origin := first_header s "origin" in
  let site := first_header s "sec-fetch-site" in
  if negb (bodyless s) then validate_browser_request cfg origin site (effective_scheme s) true
  else if provider_search s then validate_same_origin_action cfg origin site (effective_scheme s)
  else Ok tt.

Definition authorization_of (s : http_scope) : authorize_request :=
  {| ar_session_token := hs_cookies s (cf_cookie_name cfg);
     ar_user_agent := default "" (first_header s "user-agent");
     ar_csrf_token := first_header s "x-csrf-token";
     ar_mutation := negb (bodyless s) || provider_search s;
     ar_allow_password_change_required := true |}.

(** The limits on a body that are known before it is read. *)
Definition check_body (s : http_scope) (session : option (AdminSession * string)) : verdict :=
  if bodyless s then HandOn session None
  else if decide (lower (strip_bytes (split_once ";" (default "" (header s "content-type"))).1) ≠ "application/json") then
    Answer 415 "json_required" "administrator mutations require application/json" None
  else if decide (is_Some (header s "transfer-encoding")) then body_too_large
  else
    match header s "content-length" with
    | None => HandOn session (Some (body_limit s))
    | Some raw =>
      match int_bytes raw with
      | Some n => if decide (n < 0 ∨ body_limit s < n) then body_too_large else HandOn session (Some (body_limit s))
      | None => body_too_large
      end
    end.

Definition authorized (s : http_scope) (e : guard_env) : act verdict :=
  catching
    (_ ← lift (check_origin s);
     session ← authorize cfg (authorization_of s) (ge_monotonic e) (ge_mutation_clock e) (ge_waiting e);
     mret (if as_password_change_required session && negb (bool_decide ((method_of s, hs_path s) ∈ password_change_routes))
           then Answer 403 "admin_password_change_required" "administrator password change is required" None
           else check_body s (Some (session, authorization_level s)))).

(** [__call__] *)
Definition guard (s : http_scope) (e : guard_env) : act verdict :=
  if negb (guarded s) then mret (HandOn None None)
  else λ st,
    let '(st', throttled) := throttle_browser_request (client_address s) (ge_request_clock e) st in
    match throttled with
    | Raise err =>
      (st', match err with
            | RetryError cls retry_after =>
              if decide (cls = "AdminRateLimitError") then Ok (rate_limited retry_after) else Raise err
            | _ => Raise err
            end)
    | Ok _ => if is_login s then (st', Ok (check_body s None)) else authorized s e st'
    end.

End guard.

(** ** Bodies *)

(** What an application receives: a part of the body of this length, or
    something else. *)
Inductive message :=
| HttpRequest (body : Z)
| OtherMessage.

Definition body_bytes (m : message) : Z := match m with HttpRequest body => body | OtherMessage => 0 end.

(** [limited_receive]: the messages that the application receives until the
    guard stops it, and whether it got them all. *)
Fixpoint limited_receive (maximum received : Z) (messages : list message) : list message * bool :=
  match messages with
  | [] => ([], true)
  | OtherMessage :: messages' =>
    let '(delivered, complete) := limited_receive maximum received messages' in (OtherMessage :: delivered, complete)
  | HttpRequest n :: messages' =>
    if decide (maximum < received + n) then ([], false)
    else
      let '(delivered, complete) := limited_receive maximum (received + n) messages' in
      (HttpRequest n :: delivered, complete)
  end.

Definition total_bytes (messages : list message) : Z := foldr (λ m n, body_bytes m + n) 0 messages.

(** ** What the guard lets through *)

Section theorems.
Context `{AccountPrimitives, SecurityPrimitives} (cfg : security_config) (store : option AdminAccountStore).
Context (maximum_bytes catalog_import_maximum_bytes : Z).

Lemma catching_ok m st st' v : catching m st = (st', Ok v) →
  (∃ e, m st = (st', Raise e) ∧ refusal e = Some v) ∨ m st = (st', Ok v).
Proof.
  unfold catching. destruct (m st) as [st1 [w|e]]; [intros [= <- <-]; by right|].
  destruct (refusal e) as [w|] eqn:He; [|done]. intros [= <- <-]. left. by exists e.
Qed.

Lemma refusal_answers e session limit : refusal e ≠ Some (HandOn session limit).
Proof. destruct e; cbn; try done; repeat case_decide; done. Qed.

(** A body that is announced at all is announced as JSON and within its limit. *)
Definition body_announced (s : http_scope) : Prop :=
  lower (strip_bytes (split_once ";" (default "" (header s "content-type"))).1) = "application/json" ∧
  header s "transfer-encoding" = None ∧
  ∀ raw, header s "content-length" = Some raw →
    ∃ n, int_bytes raw = Some n ∧ 0 ≤ n ≤ body_limit maximum_bytes catalog_import_maximum_bytes s.

Lemma check_body_ok s session session' limit :
  check_body maximum_bytes catalog_import_maximum_bytes s session = HandOn session' limit →
  session' = session ∧
  if bodyless s then limit = None
  else limit = Some (body_limit maximum_bytes catalog_import_maximum_bytes s) ∧ body_announced s.
Proof.
  unfold check_body, body_announced. destruct (bodyless s); [by intros [= <- <-]|].
  case_decide as Hjson; [done|]. case_decide as Hte; [done|].
  assert (header s "transfer-encoding" = None) as -> by (by destruct (header s "transfer-encoding"); [destruct Hte|]).
  destruct (header s "content-length") as [raw|].
  - destruct (int_bytes raw) as [n|] eqn:Hn; [|done]. case_decide as Hr; [done|]. intros [= <- <-].
    split_and!; try done. intros raw' [= <-]. exists n. split; [done|]. lia.
  - intros [= <- <-]. by split_and!.
Qed.

(** What shows that a request comes from the administrator's own pages. *)
Definition secure_transport (s : http_scope) : Prop :=
  cf_configured cfg = true ∧ (cf_require_https cfg = true → lower (effective_scheme cfg s) = "https").

Definition site_signal (s : http_scope) : Prop :=
  ∀ site, first_header s "sec-fetch-site" = Some site → lower site = "same-origin".

Definition same_site (s : http_scope) : Prop :=
  secure_transport s ∧ site_signal s ∧ first_header s "origin" = cf_expected_origin cfg.

Definition same_site_signalled (s : http_scope) : Prop :=
  secure_transport s ∧ site_signal s ∧
  (first_header s "origin" = cf_expected_origin cfg ∨
   first_header s "origin" = None ∧ is_Some (first_header s "sec-fetch-site")).

Lemma secure_transport_ok s : negb (cf_configured cfg) = false →
  cf_require_https cfg && bool_decide (lower (effective_scheme cfg s) ≠ "https") = false → secure_transport s.
Proof.
  intros Hconf%negb_false_iff Hhttps. split; [done|]. intros Hreq. rewrite Hreq in Hhttps.
  by apply bool_decide_eq_false, dec_stable in Hhttps.
Qed.

Lemma site_signal_ok s :
  match first_header s "sec-fetch-site" with Some site => bool_decide (lower site ≠ "same-origin") | None => false end
  = false → site_signal s.
Proof. intros H1 site Hsite. rewrite Hsite in H1. by apply bool_decide_eq_false, dec_stable in H1. Qed.

Lemma check_origin_mutation s : check_origin cfg s = Ok tt → bodyless s = false → same_site s.
Proof.
  unfold check_origin, validate_browser_request. intros Hc Hb. rewrite Hb in Hc. cbn [negb] in Hc.
  apply raise_bind in Hc as [Hconf Hc]. apply raise_bind in Hc as [Hhttps Hc]. apply raise_bind in Hc as [Horigin Hc].
  apply bool_decide_eq_false, dec_stable in Horigin. split_and!; [by apply secure_transport_ok| |done].
  apply site_signal_ok. cbn [andb] in Hc. by destruct (match first_header s "sec-fetch-site" with Some _ => _ | None => _ end).
Qed.

Lemma provider_search_bodyless s : provider_search s = true → bodyless s = true.
Proof.
  unfold provider_search, bodyless. intros [[Hs _]%andb_true_iff _]%andb_true_iff.
  apply bool_decide_eq_true in Hs. apply bool_decide_eq_true. set_solver.
Qed.

Lemma check_origin_search s : check_origin cfg s = Ok tt → provider_search s = true → same_site_signalled s.
Proof.
  unfold check_origin, validate_same_origin_action. intros Hc Hs. pose proof (provider_search_bodyless s Hs) as Hb.
  rewrite Hb, Hs in Hc. cbn [negb] in Hc. cbv zeta in Hc.
  apply raise_bind in Hc as [Hconf Hc]. apply raise_bind in Hc as [Hhttps Hc]. apply raise_bind in Hc as [Horigin Hc].
  apply raise_bind in Hc as [Hsite Hc]. split_and!; [by apply secure_transport_ok|by apply site_signal_ok|].
  destruct (decide (first_header s "origin" = cf_expected_origin cfg)) as [Ho|Ho]; [by left|right].
  rewrite (bool_decide_eq_true_2 (first_header s "origin" ≠ cf_expected_origin cfg)) in Horigin, Hc by done.
  destruct (first_header s "origin"); [done|]. split; [done|].
  by destruct (first_header s "sec-fetch-site"); [|done].
Qed.

Lemma authorized_ok s e st st' session limit :
  authorized cfg maximum_bytes catalog_import_maximum_bytes s e st = (st', Ok (HandOn session limit)) →
  check_origin cfg s = Ok tt ∧
  ∃ x, authorize cfg (authorization_of cfg s) (ge_monotonic e) (ge_mutation_clock e) (ge_waiting e) st = (st', Ok x) ∧
    (as_password_change_required x = true → (method_of s, hs_path s) ∈ password_change_routes) ∧
    check_body maximum_bytes catalog_import_maximum_bytes s (Some (x, authorization_level s)) = HandOn session limit.
Proof.
  intros [(err & _ & He)|Hok]%catching_ok; [by destruct (refusal_answers err session limit)|].
  apply act_bind_ok in Hok as (st1 & [] & [-> Horigin]%lift_ok & Hok). split; [done|].
  apply act_bind_ok in Hok as (st2 & x & Hx & Hok). exists x.
  destruct (as_password_change_required x && _) eqn:Hdue; [done|]. injection Hok as <- Hok. split_and!; try done.
  intros Hreq. rewrite Hreq in Hdue. cbn [andb] in Hdue. apply negb_false_iff in Hdue.
  by apply bool_decide_eq_true in Hdue.
Qed.


(** What a request that is handed on has shown. *)
Definition admitted (s : http_scope) (e : guard_env) (es : list event) (session : option (AdminSession * string))
    : Prop :=
  if is_login s then session = None
  else ∃ x, session = Some (x, authorization_level s) ∧
    authentic cfg store (es ++ [EThrottleRequest (client_address cfg s) (ge_request_clock e)]) (ge_waiting e)
      (authorization_of cfg s) (ge_monotonic e) x ∧
    (bodyless s = false → same_site s) ∧ (provider_search s = true → same_site_signalled s) ∧
    (as_password_change_required x = true → (method_of s, hs_path s) ∈ password_change_routes).

Lemma throttled_run es address clock st' r :
  throttle_browser_request address clock (run cfg (initial store) es) = (st', r) →
  st' = run cfg (initial store) (es ++ [EThrottleRequest address clock]).
Proof. intros Ht. unfold run. rewrite foldl_snoc. cbn. fold (run cfg (initial store) es). by rewrite Ht. Qed.
End theorems.

(** C13: a request to the administrator interface that the guard hands on, in any
    run, is either the login itself, or carries a session that was created by a
    login or an account change of that run and that is alive, the caller's own
    and at the account's revision; a request that may change something also
    carries that session's CSRF token, the expected origin, the required scheme
    and a JSON body within its limit, a vendor search shows that it comes from
    the same site, and a due password change admits four routes only. *)
Theorem guard_sound `{AccountPrimitives, SecurityPrimitives} (cfg : security_config) (store : option AdminAccountStore)
    (maximum_bytes import_bytes : Z) (es : list event) (s : http_scope) (e : guard_env) (st' : AdminSecurity)
    (session : option (AdminSession * string)) (limit : option Z) :
  guarded s = true →
  guard cfg maximum_bytes import_bytes s e (run cfg (initial store) es) = (st', Ok (HandOn session limit)) →
  admitted cfg store s e es session ∧
  if bodyless s then limit = None
  else limit = Some (body_limit maximum_bytes import_bytes s) ∧ body_announced maximum_bytes import_bytes s.
Proof.
  intros Hg. unfold guard. rewrite Hg. cbn [negb].
  destruct (throttle_browser_request _ _ _) as [st1 [[]|err]] eqn:Ht; [|by destruct err; repeat case_decide].
  apply throttled_run in Ht. unfold admitted. destruct (is_login s).
  - intros [= _ Hbody]. by apply check_body_ok in Hbody.
  - intros (Horigin & x & Hx & Hdue & Hbody)%authorized_ok. apply check_body_ok in Hbody as [-> Hbody].
    split; [|done]. exists x. rewrite Ht in Hx. split_and!; try done.
    + by eapply authorize_authentic.
    + by apply check_origin_mutation.
    + by apply check_origin_search.
Qed.

Lemma total_bytes_cons m messages : total_bytes (m :: messages) = body_bytes m + total_bytes messages.
Proof. done. Qed.

Lemma total_bytes_nonneg messages : Forall (λ m, 0 ≤ body_bytes m) messages → 0 ≤ total_bytes messages.
Proof. induction 1; [done|]. rewrite total_bytes_cons. lia. Qed.

Lemma limited_receive_from maximum messages : ∀ received,
  Forall (λ m, 0 ≤ body_bytes m) messages → received ≤ maximum →
  let '(delivered, complete) := limited_receive maximum received messages in
  delivered `prefix_of` messages ∧ received + total_bytes delivered ≤ maximum ∧
  (complete = true ↔ received + total_bytes messages ≤ maximum) ∧ (complete = true → delivered = messages).
Proof.
  induction messages as [|m messages IH]; intros received Hpos Hmax; [cbn; rewrite Z.add_0_r; by split_and!|].
  apply Forall_cons in Hpos as [Hm Hpos]. pose proof (total_bytes_nonneg _ Hpos) as Htotal.
  destruct m as [n|]; cbn [limited_receive body_bytes] in *; [case_decide as Hn|].
  - rewrite total_bytes_cons. cbn [body_bytes]. split_and!; [apply prefix_nil|cbn; lia| |done]. split; [done|lia].
  - specialize (IH (received + n) Hpos ltac:(lia)). destruct (limited_receive _ _ _) as [delivered complete].
    destruct IH as (? & ? & Hiff & Hall). rewrite !total_bytes_cons. cbn [body_bytes]. rewrite !Z.add_assoc.
    split_and!; [by apply prefix_cons|done..|]. intros Hc. by rewrite Hall.
  - specialize (IH received Hpos Hmax). destruct (limited_receive _ _ _) as [delivered complete].
    destruct IH as (? & ? & Hiff & Hall). rewrite !total_bytes_cons. cbn [body_bytes]. rewrite !Z.add_0_l.
    split_and!; [by apply prefix_cons|done..|]. intros Hc. by rewrite Hall.
Qed.

(** An application receives a beginning of what was sent, never more of a body
    than the limit, and everything exactly when the body is within the limit. *)
Theorem limited_receive_bounded (maximum : Z) (messages : list message) :
  Forall (λ m, 0 ≤ body_bytes m) messages → 0 ≤ maximum →
  let '(delivered, complete) := limited_receive maximum 0 messages in
  delivered `prefix_of` messages ∧ total_bytes delivered ≤ maximum ∧
  (complete = true ↔ total_bytes messages ≤ maximum) ∧ (complete = true → delivered = messages).
Proof. exact (limited_receive_from maximum messages 0). Qed.

Lemma limited_receive_bounded_witness :
  [HttpRequest 4; OtherMessage; HttpRequest 6] `prefix_of` [HttpRequest 4; OtherMessage; HttpRequest 6] ∧
  total_bytes [HttpRequest 4; OtherMessage; HttpRequest 6] ≤ 10 ∧
  (true = true ↔ total_bytes [HttpRequest 4; OtherMessage; HttpRequest 6] ≤ 10) ∧
  (true = true → [HttpRequest 4; OtherMessage; HttpRequest 6] = [HttpRequest 4; OtherMessage; HttpRequest 6]).
Proof.
  refine (limited_receive_bounded 10 [HttpRequest 4; OtherMessage; HttpRequest 6] _ _); [|done].
  repeat constructor; cbn; lia.
Defined.

(** ** A concrete request *)

#[local] Existing Instance demo_account.
#[local] Existing Instance demo_security.

(** The demo account has a password change due. *)
Definition demo_scope (path : string) : http_scope :=
  {| hs_type := "http"; hs_path := path; hs_method := Some "patch"; hs_scheme := Some "https";
     hs_headers := [("origin", "https://host"); ("sec-fetch-site", "same-origin"); ("user-agent", "browser");
                    ("x-csrf-token", "a-csrf"); ("content-type", "application/json; charset=utf-8");
                    ("content-length", "120")];
     hs_client := Some "10.0.0.1";
     hs_cookies := λ name, if decide (name = COOKIE_PRODUCTION) then Some "a-session" else None |}.

Definition demo_guard : guard_env :=
  {| ge_request_clock := (0, 0); ge_monotonic := seconds 70; ge_mutation_clock := (0, 0); ge_waiting := [] |}.

Definition demo_outcome (path : string) :=
  guard demo_config 65536 1048576 (demo_scope path) demo_guard (run demo_config demo_initial demo_events).

Lemma guard_sound_witness :
  admitted demo_config (Some demo_store) (demo_scope "/admin-api/account") demo_guard demo_events
    (Some (seen_at (seconds 70) demo_session, "mutation")) ∧
  Some 65536 = Some (body_limit 65536 1048576 (demo_scope "/admin-api/account")) ∧ body_announced 65536 1048576 (demo_scope "/admin-api/account").
Proof.
  refine (guard_sound demo_config (Some demo_store) 65536 1048576 demo_events (demo_scope "/admin-api/account")
    demo_guard (demo_outcome "/admin-api/account").1
    (Some (seen_at (seconds 70) demo_session, "mutation")) (Some 65536) _ _); vm_compute; reflexivity.
Defined.

Example demo_due :
  (demo_outcome "/admin-api/api-keys").2 =
  Ok (Answer 403 "admin_password_change_required" "administrator password change is required" None).
Proof. vm_compute. reflexivity. Qed.

(** Without the session's CSRF token, and with too large a body. *)
Example demo_refused :
  (guard demo_config 65536 1048576
     {| hs_type := "http"; hs_path := "/admin-api/api-keys"; hs_method := Some "POST"; hs_scheme := Some "https";
        hs_headers := [("origin", "https://host"); ("user-agent", "browser")]; hs_client := Some "10.0.0.1";
        hs_cookies := hs_cookies (demo_scope "") |} demo_guard (run demo_config demo_initial demo_events)).2 =
  Ok (Answer 401 "admin_unauthorized" "administrator authorization failed" None).
Proof. vm_compute. reflexivity. Qed.

Example demo_stopped : limited_receive 10 0 [HttpRequest 4; OtherMessage; HttpRequest 7] = ([HttpRequest 4; OtherMessage], false).
Proof. reflexivity. Qed.
