(* ===== verification/Market.v ===== *)
(** * Market sessions ([market.py])

    The schedule works on New York wall-clock time.  Two aware datetimes that
    share a timezone object are compared by their wall fields, so the model
    keeps the wall reading as an integer of its own.  The timezone database is
    a parameter: [ny_wall t] is the wall reading of the instant [t]
    ([astimezone]) and [ny_utc w] the instant of the wall reading [w]. *)

From S2P Require Import Prelude PyStr PyDecimal PyTime Domain PluginApi.

Local Open Scope string_scope.
Local Open Scope list_scope.
Local Open Scope Z_scope.

(** The first [Some] of a search loop over [range(n)]. *)
Fixpoint first_some {A B} (f : A → option B) (l : list A) : option B :=
  match l with
  | [] => None
  | x :: l' => match f x with Some y => Some y | None => first_some f l' end
  end.

Definition range (n : nat) : list Z := Z.of_nat <$> seq 0 n.

(** [local.hour * 60 + local.minute] *)
Definition minute_of_day (local : Z) : Z := hour_of local * 60 + minute_of local.

(** The session status at a wall-clock reading. *)
Definition status_at_wall (calendar : MarketCalendar) (local : Z) : string :=
  let minute := minute_of_day local in
  let wd := weekday (day_of local) in
  match calendar with
  | US_EQUITY =>
    if decide (wd < 5 ∧ 570 ≤ minute < 960) then "open" else "closed"
  | FX_24X5 =>
    if decide ((wd = 6 ∧ 1020 ≤ minute) ∨ wd ∈ [0; 1; 2; 3] ∨ (wd = 4 ∧ minute < 1020))
    then "open" else "closed"
  | ALWAYS_OPEN => "open"
  end.

Definition next_open_candidate (local days_ahead : Z) : option Z :=
  let day := day_of (local + days days_ahead) in
  if decide (5 ≤ weekday day) then None
  else
    let candidate := combine day 9 30 in
    if decide (local < candidate) then Some candidate else None.

(** [close_weekdays] and [close_at] of a calendar. *)
Definition close_weekdays (calendar : MarketCalendar) : list Z :=
  match calendar with US_EQUITY => range 5 | _ => [4] end.
Definition close_hour (calendar : MarketCalendar) : Z :=
  match calendar with US_EQUITY => 16 | _ => 17 end.

Definition close_candidate (calendar : MarketCalendar) (current days_back : Z) : option Z :=
  let day := day_of (current - days days_back) in
  if decide (weekday day ∉ close_weekdays calendar) then None
  else
    let candidate := combine day (close_hour calendar) 0 in
    if decide (candidate ≤ current) then Some candidate else None.

Section market.
Context (ny_wall ny_utc : Z → Z).

(** Microseconds until the next regular open. *)
Definition seconds_until_next_us_equity_open (when : datetime) : result Z :=
  current_utc ← ensure_utc when;
  let local := ny_wall current_utc in
  match first_some (next_open_candidate local) (range 8) with
  | Some candidate => Ok (Z.max second_us (ny_utc candidate - current_utc))
  | None => Raise (RuntimeError "unable to resolve the next US equity session open")
  end.

Definition scheduled_market_status (calendar : enum_input MarketCalendar) (when : datetime)
    : result string :=
  calendar ← MarketCalendar_of calendar;
  t ← ensure_utc when;
  Ok (status_at_wall calendar (ny_wall t)).

Definition most_recent_scheduled_close (calendar : enum_input MarketCalendar)
    (when : datetime) : result (option Z) :=
  calendar ← MarketCalendar_of calendar;
  if decide (calendar = ALWAYS_OPEN) then Ok None
  else
    t ← ensure_utc when;
    Ok (ny_utc <$> first_some (close_candidate calendar (ny_wall t)) (range 8)).

End market.

(** ** Wall-clock arithmetic *)

Lemma minute_of_day_spec t : minute_of_day t = (t mod day_us) / minute_us.
Proof. unfold minute_of_day. lia_time. Qed.

Lemma combine_spec d h m : combine d h m = d * day_us + (h * 60 + m) * minute_us.
Proof. lia_time. Qed.

Lemma day_split t : t = day_of t * day_us + t mod day_us ∧ 0 ≤ t mod day_us < day_us.
Proof. lia_time. Qed.

Lemma day_of_add t k : day_of (t + days k) = day_of t + k.
Proof. lia_time. Qed.

Lemma day_of_sub t k : day_of (t - days k) = day_of t - k.
Proof. lia_time. Qed.

Lemma minute_ge t m : m ≤ minute_of_day t ↔ m * minute_us ≤ t mod day_us.
Proof. rewrite minute_of_day_spec. generalize (t mod day_us). intros. lia_time. Qed.

Lemma first_some_spec {A B} (f : A → option B) l y :
  first_some f l = Some y → ∃ l1 x l2, l = l1 ++ x :: l2 ∧ f x = Some y ∧
    ∀ z, z ∈ l1 → f z = None.
Proof.
  induction l as [|x l IH]; cbn; [done|]. destruct (f x) eqn:E.
  - intros [= <-]. exists [], x, l. split_and!; [done..|]. by intros ? ?%elem_of_nil.
  - intros (l1 & z & l2 & -> & Hz & Hn)%IH. exists (x :: l1), z, l2.
    split_and!; [done..|]. intros w [->|Hw]%elem_of_cons; auto.
Qed.

Lemma first_some_is_Some {A B} (f : A → option B) l x :
  x ∈ l → is_Some (f x) → is_Some (first_some f l).
Proof.
  induction l as [|z l IH]; [by intros ?%elem_of_nil|].
  intros [->|Hx]%elem_of_cons [y Hy]; cbn; [by rewrite Hy|].
  destruct (f z); eauto.
Qed.

Lemma elem_of_range x n : x ∈ range n ↔ 0 ≤ x < Z.of_nat n.
Proof.
  unfold range. rewrite list_elem_of_fmap. setoid_rewrite elem_of_seq. split.
  - intros (y & -> & ?). lia.
  - intros. exists (Z.to_nat x). lia.
Qed.

(** A search over [range n] finds its hit at an index all smaller indices miss. *)
Lemma first_some_range {B} (f : Z → option B) n y :
  first_some f (range n) = Some y →
  ∃ k, 0 ≤ k < Z.of_nat n ∧ f k = Some y ∧ ∀ j, 0 ≤ j < k → f j = None.
Proof.
  intros (l1 & k & l2 & Hl & Hk & Hn)%first_some_spec. exists k.
  assert (range n !! length l1 = Some k) as Hlk by (rewrite Hl; by rewrite list_lookup_middle).
  unfold range in Hlk. rewrite list_lookup_fmap, fmap_Some in Hlk.
  destruct Hlk as (i & Hi & ->). apply lookup_seq in Hi as [-> Hi].
  split_and!; [lia|lia|done|]. intros j Hj. apply Hn.
  assert (range n !! Z.to_nat j = Some j) as Hj'.
  { unfold range. rewrite list_lookup_fmap, fmap_Some. exists (Z.to_nat j).
    split; [apply lookup_seq; lia|lia]. }
  rewrite Hl, lookup_app_l in Hj' by lia. by eapply list_elem_of_lookup_2.
Qed.

Lemma next_open_candidate_spec local k c :
  next_open_candidate local k = Some c ↔
  c = combine (day_of local + k) 9 30 ∧ weekday (day_of local + k) < 5 ∧ local < c.
Proof.
  unfold next_open_candidate. rewrite day_of_add.
  case_decide; [|case_decide]; split.
  - done.
  - intros (_ & ? & _). lia.
  - intros [= <-]. split_and!; [done|lia|done].
  - intros (-> & _ & _). done.
  - done.
  - by intros (-> & _ & ?).
Qed.

Lemma next_open_exists local : is_Some (first_some (next_open_candidate local) (range 8)).
Proof.
  assert (∃ k, 1 ≤ k ≤ 3 ∧ weekday (day_of local + k) < 5) as (k & Hk & Hw).
  { unfold weekday. generalize (day_of local); intros d.
    destruct (decide ((d + 1 + 3) mod 7 < 5)); [exists 1; lia|].
    destruct (decide ((d + 2 + 3) mod 7 < 5)); [exists 2; lia|].
    exists 3. Z.to_euclidean_division_equations; lia. }
  apply (first_some_is_Some _ _ k); [apply elem_of_range; lia|].
  eexists. apply next_open_candidate_spec. split_and!; [done|done|].
  rewrite combine_spec. pose proof (day_split local). unfold_time. lia.
Qed.

Lemma close_candidate_spec cal cur k c :
  close_candidate cal cur k = Some c ↔
  weekday (day_of cur - k) ∈ close_weekdays cal ∧
  c = combine (day_of cur - k) (close_hour cal) 0 ∧ c ≤ cur.
Proof.
  unfold close_candidate. rewrite day_of_sub.
  case_decide as Hw; [split; [done|by intros (? & _)]|].
  case_decide; split.
  - intros [= <-]. split_and!; [|done..]. by destruct (decide (weekday (day_of cur - k) ∈ close_weekdays cal)).
  - by intros (_ & -> & _).
  - done.
  - by intros (_ & -> & ?).
Qed.

Lemma elem_of_close_weekdays cal wd :
  0 ≤ wd < 7 → wd ∈ close_weekdays cal ↔
  match cal with US_EQUITY => wd < 5 | _ => wd = 4 end.
Proof.
  intros. destruct cal; simpl; rewrite ?elem_of_range, ?list_elem_of_singleton; lia.
Qed.

Lemma close_exists cal cur :
  is_Some (first_some (close_candidate cal cur) (range 8)).
Proof.
  assert (∃ k, 1 ≤ k ≤ 7 ∧ weekday (day_of cur - k) = 4) as (k & Hk & Hw).
  { unfold weekday. generalize (day_of cur); intros d.
    pose proof (Z.mod_pos_bound (d - 4 + 3) 7 ltac:(lia)).
    destruct (decide ((d - 4 + 3) mod 7 = 0)).
    - exists 7. Z.to_euclidean_division_equations; lia.
    - exists ((d - 4 + 3) mod 7). Z.to_euclidean_division_equations; lia. }
  apply (first_some_is_Some _ _ k); [apply elem_of_range; lia|].
  eexists. apply close_candidate_spec. split_and!; [|done|].
  - rewrite elem_of_close_weekdays by apply weekday_range. destruct cal; lia.
  - rewrite combine_spec. pose proof (day_split cur).
    assert (close_hour cal ≤ 17) by (by destruct cal). unfold_time. lia.
Qed.

(** Every wall reading between the chosen close and a closed reading is closed. *)
Lemma closed_since_close cal cur c w :
  cal ≠ ALWAYS_OPEN → status_at_wall cal cur = "closed" →
  first_some (close_candidate cal cur) (range 8) = Some c →
  c ≤ w ≤ cur → status_at_wall cal w = "closed".
Proof.
  intros Hcal Hst (k & Hk & Hc & Hskip)%first_some_range Hw.
  apply close_candidate_spec in Hc as (Hwd & -> & Hle).
  rewrite elem_of_close_weekdays in Hwd by apply weekday_range.
  assert (Hmiss : ∀ j, 0 ≤ j < k → ∀ c', ¬ (close_candidate cal cur j = Some c')).
  { intros j Hj c'. by rewrite Hskip. }
  setoid_rewrite close_candidate_spec in Hmiss.
  setoid_rewrite elem_of_close_weekdays in Hmiss; [|apply weekday_range..].
  pose proof (day_split w) as [Hws Hwr]. pose proof (day_split cur) as [Hcs Hcr].
  set (j := day_of cur - day_of w).
  assert (0 ≤ j ≤ k) as Hj.
  { unfold j. assert (0 ≤ close_hour cal ≤ 17) by (by destruct cal).
    rewrite combine_spec in *; unfold_time; lia. }
  assert (day_of w = day_of cur - j) as Hdw by (unfold j; lia).
  unfold status_at_wall in *.
  assert (j < k → j = 0 ∨ combine (day_of cur - j) 17 0 ≤ cur) as Hearlier.
  { intros. destruct (decide (j = 0)); [by left|right].
    rewrite combine_spec. unfold_time. lia. }
  destruct cal; [done| |]; cbn [close_hour] in *.
  - case_decide as Hcur; [done|].
    rewrite decide_False; [done|]. rewrite minute_ge. intros [Hww [Hm1 Hm2]].
    assert (w mod day_us < 960 * minute_us) as Hm2'.
    { apply Z.lt_nge. intros ?%minute_ge. lia. } clear Hm2.
    destruct (decide (j = k)) as [->|].
    + rewrite combine_spec in Hw. rewrite <- Hdw in Hw. unfold_time. lia.
    + specialize (Hmiss j ltac:(lia) (combine (day_of cur - j) 16 0)).
      rewrite <- Hdw in Hmiss. assert (¬ combine (day_of w) 16 0 ≤ cur) as Hlt by (intros ?; by eapply Hmiss).
      destruct (Hearlier ltac:(lia)) as [Hj0|Hj1].
      * assert (day_of w = day_of cur) as Hd by lia. apply Hcur. rewrite <- Hd.
        rewrite combine_spec in Hlt. split; [done|]. split.
        -- apply minute_ge. unfold_time. lia.
        -- apply Z.lt_nge. intros ?%minute_ge. unfold_time. lia.
      * rewrite !combine_spec in *. rewrite <- Hdw in Hj1. unfold_time. lia.
  - case_decide as Hcur; [done|].
    rewrite decide_False; [done|]. intros Hopen.
    assert (Hcur' : weekday (day_of cur) = 4 ∧ 1020 ≤ minute_of_day cur ∨ weekday (day_of cur) = 5 ∨
        weekday (day_of cur) = 6 ∧ minute_of_day cur < 1020).
    { pose proof (weekday_range (day_of cur)).
      rewrite !elem_of_cons, elem_of_nil in Hcur. lia. }
    assert (Hopen' : weekday (day_of w) = 4 ∧ minute_of_day w < 1020 ∨
        weekday (day_of w) = 6 ∧ 1020 ≤ minute_of_day w ∨ weekday (day_of w) < 4).
    { rewrite !elem_of_cons, elem_of_nil in Hopen. lia. }
    clear Hcur Hopen. rewrite combine_spec in Hw, Hle.
    assert (Hfri : weekday (day_of cur) = 4 → k = 0).
    { intros H4. destruct (decide (k = 0)) as [|Hk0]; [done|]. exfalso.
      apply (Hmiss 0 ltac:(lia) (combine (day_of cur - 0) 17 0)).
      rewrite Z.sub_0_r. split; [done|].
      assert (1020 ≤ minute_of_day cur) as Hm by lia.
      apply minute_ge in Hm. rewrite combine_spec. unfold_time. lia. }
    assert (Hweek : weekday (day_of cur) = 4 + k).
    { destruct (decide (k ≤ 2)) as [Hk2|Hk2].
      - revert Hcur' Hwd Hfri. unfold weekday. clear -Hk Hk2. intros.
        Z.to_euclidean_division_equations; lia.
      - exfalso.
        assert (weekday (day_of cur - 1) = 4 ∨ weekday (day_of cur - 2) = 4) as [Hd|Hd].
        { revert Hcur' Hfri. unfold weekday. clear -Hk Hk2. intros.
          Z.to_euclidean_division_equations; lia. }
        + apply (Hmiss 1 ltac:(lia) (combine (day_of cur - 1) 17 0)).
          split; [done|]. rewrite combine_spec. unfold_time. lia.
        + apply (Hmiss 2 ltac:(lia) (combine (day_of cur - 2) 17 0)).
          split; [done|]. rewrite combine_spec. unfold_time. lia. }
    assert (Hwj : weekday (day_of w) = 4 + k - j).
    { rewrite Hdw. revert Hweek. unfold weekday. clear -Hj Hk. intros.
      pose proof (Z.mod_pos_bound (day_of cur + 3) 7 ltac:(lia)).
      Z.to_euclidean_division_equations; lia. }
    destruct (decide (j = k)) as [->|].
    + destruct Hopen' as [[_ Hm]|[[? _]|?]]; try lia.
      apply Z.lt_nge in Hm. apply Hm, minute_ge. rewrite <- Hdw in Hw. unfold_time. lia.
    + destruct Hopen' as [[? _]|[[H6 Hm]|?]]; try lia.
      assert (j = 0) as Hj0 by (pose proof (weekday_range (day_of cur)); lia).
      destruct Hcur' as [?|[?|[_ Hc]]]; try lia.
      apply minute_ge in Hm. apply Z.lt_nge in Hc. apply Hc, minute_ge.
      unfold_time. lia.
Qed.

#[global] Arguments range : simpl never.
#[global] Arguments first_some : simpl never.

(** ** Properties *)

(** A wall reading at which a regular session opens. *)
Definition session_open (w : Z) : Prop := ∃ d, weekday d < 5 ∧ w = combine d 9 30.

(** Looking for the next regular open always succeeds (the
    [RuntimeError] is unreachable), waits at least one second, and finds the
    earliest weekday 09:30 strictly after the local time; a naive timestamp is
    rejected. *)
Theorem next_open_earliest (ny_wall ny_utc : Z → Z) (t : Z) :
  (∃ c, seconds_until_next_us_equity_open ny_wall ny_utc (Aware t) =
          Ok (Z.max second_us (ny_utc c - t)) ∧
        session_open c ∧ ny_wall t < c ∧
        ∀ c', session_open c' → ny_wall t < c' → c ≤ c') ∧
  ∀ w, ∃ msg, seconds_until_next_us_equity_open ny_wall ny_utc (Naive w) =
          Raise (ValueError msg).
Proof.
  split; [|intros w; by eexists]. unfold seconds_until_next_us_equity_open; simpl.
  destruct (next_open_exists (ny_wall t)) as [c Hc]. rewrite Hc. exists c.
  apply first_some_range in Hc as (k & Hk & Hc & Hskip).
  apply next_open_candidate_spec in Hc as (-> & Hw & Hlt).
  split_and!; [done|by eexists|done|]. intros c' (d & Hd & ->) Hc'.
  destruct (decide (day_of (ny_wall t) + k ≤ d)) as [|Hdk].
  { rewrite !combine_spec. unfold_time. lia. }
  exfalso. assert (day_of (ny_wall t) ≤ d) as Hge.
  { pose proof (day_split (ny_wall t)). rewrite combine_spec in Hc'. unfold_time. lia. }
  specialize (Hskip (d - day_of (ny_wall t)) ltac:(lia)).
  assert (next_open_candidate (ny_wall t) (d - day_of (ny_wall t)) = Some (combine d 9 30)).
  { apply next_open_candidate_spec. replace (day_of (ny_wall t) + _) with d by lia. done. }
  congruence.
Qed.

(** When the schedule says closed, the most recent scheduled close is
    found, is not in the (local) future, and the market has been closed at
    every instant from that close until now. *)
Theorem closed_since_recent_close (ny_wall ny_utc : Z → Z) (cal : MarketCalendar) (t : Z) :
  scheduled_market_status ny_wall (EnumMember cal) (Aware t) = Ok "closed" →
  ∃ c, most_recent_scheduled_close ny_wall ny_utc (EnumMember cal) (Aware t) =
         Ok (Some (ny_utc c)) ∧
       c ≤ ny_wall t ∧
       ∀ t', c ≤ ny_wall t' ≤ ny_wall t →
         scheduled_market_status ny_wall (EnumMember cal) (Aware t') = Ok "closed".
Proof.
  unfold scheduled_market_status, most_recent_scheduled_close; simpl. intros [= Hst].
  assert (cal ≠ ALWAYS_OPEN) as Hcal by (by intros ->).
  rewrite decide_False by done.
  destruct (close_exists cal (ny_wall t)) as [c Hc]. exists c. rewrite Hc.
  split_and!; [done| |].
  - apply first_some_range in Hc as (k & _ & Hc & _). by apply close_candidate_spec in Hc as (_ & _ & ?).
  - intros t' Ht'. f_equal. by eapply closed_since_close.
Qed.

Lemma closed_since_recent_close_witness :
  scheduled_market_status (λ t, t - hours 5) (EnumMember FX_24X5) (Aware (combine 2 12 0)) = Ok "closed" ∧
  ∃ c, c ≤ combine 2 7 0 ∧
    scheduled_market_status (λ t, t - hours 5) (EnumMember FX_24X5) (Aware (c + hours 5)) = Ok "closed".
Proof.
  split; [reflexivity|].
  destruct (closed_since_recent_close (λ t, t - hours 5) (λ w, w + hours 5) FX_24X5 (combine 2 12 0))
    as (c & _ & Hle & Hc); [reflexivity|].
  change (combine 2 12 0 - hours 5) with (combine 2 7 0) in *.
  exists c. split; [done|]. apply Hc.
  replace (c + hours 5 - hours 5) with c by lia. split; [reflexivity|done].
Defined.
