(* ===== verification/Analytics.v ===== *)
(** * Rolling changes, dividends and yields ([analytics.py]) *)

From S2P Require Import Prelude PyStr PyDecimal PyTime Domain.

Local Open Scope string_scope.
Local Open Scope list_scope.
Local Open Scope Z_scope.

Definition WINDOWS : list (string * Z) :=
  [("1h", hours 1); ("4h", hours 4); ("1d", days 1); ("1w", days 7);
   ("1mo", days 30); ("1y", days 365)].

(** A mapping from window names, in the order of [WINDOWS]. *)
Fixpoint assoc_get {A} (name : string) (l : list (string * A)) : option A :=
  match l with
  | [] => None
  | (k, v) :: l' => if decide (k = name) then Some v else assoc_get name l'
  end.

(** The entry both calculations build for one window. *)
Definition change_entry (current_price : decimal) (reference : option PricePoint)
    : result (option ChangeValue) :=
  match reference with
  | None => Ok None
  | Some reference =>
    ratio ← ddiv current_price (pp_price reference);
    let percent := dmul (dsub ratio (dint 1)) (dint 100) in
    v ← ChangeValue_init {| cv_percent := DFinite percent;
                            cv_reference_price := DFinite (pp_price reference);
                            cv_reference_as_of := Aware (pp_timestamp reference) |};
    Ok (Some v)
  end.

Definition calculate_changes (current_price : decimal_input) (current_as_of : Z)
    (points : list PricePoint) : result (list (string * option ChangeValue)) :=
  current_price ← decimal_of current_price;
  let ordered :=
    sort_by pp_timestamp (filter (λ p, pp_timestamp p ≤ current_as_of) points) in
  map_result (λ w : string * Z,
    let cutoff := current_as_of - w.2 in
    let reference := next_where (λ p, pp_timestamp p ≤ cutoff) (reverse ordered) in
    entry ← change_entry current_price reference;
    Ok (w.1, entry)) WINDOWS.

Definition calculate_changes_from_references (current_price : decimal_input)
    (references : list (string * option PricePoint))
    : result (list (string * option ChangeValue)) :=
  current_price ← decimal_of current_price;
  map_result (λ w : string * Z,
    let reference := mjoin (assoc_get w.1 references) in
    entry ← change_entry current_price reference;
    Ok (w.1, entry)) WINDOWS.

Definition annualize_dividend (event : DividendEvent) (current_price : decimal_input)
    (periods_per_year : Z) (method : string) : result DividendMetric :=
  current_price ← decimal_of current_price;
  _ ← raise_if (bool_decide (¬ is_pos current_price))
        (ValueError "current price must be positive");
  _ ← raise_if (bool_decide (de_event_type event ≠ "regular_cash"))
        (ValueError "only regular cash dividends may be annualized");
  per_price ← ddiv (dmul (de_amount event) (dint periods_per_year)) current_price;
  DividendMetric_init
    {| dm_yield_percent := DFinite (dmul per_price (dint 100));
       dm_ex_date := de_ex_date event;
       dm_payment_date := de_payment_date event;
       dm_amount := DFinite (de_amount event);
       dm_currency := de_currency event;
       dm_frequency := de_frequency event;
       dm_method := method;
       dm_provider := de_provider event |}.

Definition quarterly_dividend (event : DividendEvent) (current_price : decimal_input)
    : result DividendMetric :=
  annualize_dividend event current_price 4 "latest_regular_cash_annualized_x4".

Definition qqqm_dividend (event : DividendEvent) (current_price : decimal_input)
    : result DividendMetric :=
  quarterly_dividend event current_price.

(** An estimate whose optional fields keep the defaults of the dataclass. *)
Definition basic_estimate (percent : decimal) (as_of : Z) (method provider : string)
    (is_proxy : bool) (components : list SourceComponent) (fallback_level : Z)
    (inputs : list (string * InputValue)) : YieldEstimateArgs :=
  {| ye_percent := DFinite percent; ye_as_of := Aware as_of; ye_method := method;
     ye_provider := provider; ye_is_proxy := is_proxy; ye_inputs := inputs;
     ye_rate_type := None; ye_observation_window_days := None; ye_accrual_mode := None;
     ye_underlying_asset := None; ye_is_estimate := false; ye_accrual_index := None;
     ye_quality := None; ye_components := components; ye_fallback_level := fallback_level |}.

Definition sgov_yield (event : DividendEvent) (current_price : decimal_input) (as_of : Z)
    : result YieldEstimate :=
  dividend ← annualize_dividend event current_price 12 "latest_distribution_annualized";
  price ← decimal_of current_price;
  YieldEstimate_init
    (basic_estimate (dm_yield_percent dividend) as_of "latest_distribution_annualized"
       (de_provider event) false [] 0
       [("latest_distribution", IFloat (de_amount event));
        ("periods_per_year", IInt 12);
        ("price", IFloat price);
        ("ex_date", IIsoDate (de_ex_date event))]).

(** [Decimal("0.1949")] *)
Definition BOXX_NET_EXPENSE_PERCENT : decimal := Dec 1949 (-4).

Definition boxx_yield (metric : YieldMetric) : result YieldEstimate :=
  let already_derived := bool_decide (ym_method metric = "treasury_3m_proxy_minus_expense") in
  let value :=
    if already_derived then ym_value metric
    else dsub (ym_value metric) BOXX_NET_EXPENSE_PERCENT in
  let treasury_value :=
    if already_derived then
      match ym_components metric with
      | c :: _ => sc_price c
      | [] => dadd (ym_value metric) BOXX_NET_EXPENSE_PERCENT
      end
    else ym_value metric in
  YieldEstimate_init
    (basic_estimate value (ym_as_of metric) "treasury_3m_proxy_minus_expense"
       (ym_provider metric) true (ym_components metric) (ym_fallback_level metric)
       [("fred_series", IStr "DGS3MO");
        ("treasury_3m_percent", IFloat treasury_value);
        ("net_expense_percent", IFloat BOXX_NET_EXPENSE_PERCENT)]).

Definition treasury_proxy_yield (metric : YieldMetric) : result YieldEstimate :=
  _ ← raise_if (bool_decide (ym_method metric ≠ "treasury_series_proxy_minus_expense"))
        (ValueError "generic Treasury proxy metric has an unexpected method");
  match ym_components metric with
  | [] => Raise (ValueError "generic Treasury proxy metric is missing its FRED component")
  | component :: _ =>
    let expense := dsub (sc_price component) (ym_value metric) in
    _ ← raise_if (bool_decide (is_neg expense))
          (ValueError "generic Treasury proxy expense cannot be negative");
    YieldEstimate_init
      (basic_estimate (ym_value metric) (ym_as_of metric) (ym_method metric)
         (ym_provider metric) true (ym_components metric) (ym_fallback_level metric)
         [("fred_series", IStr (sc_symbol component));
          ("treasury_percent", IFloat (sc_price component));
          ("net_expense_percent", IFloat expense)])
  end.

(** ** Lemmas *)

(** The reference of a window: the latest point at or before its cutoff. *)
Definition latest_at_or_before (cutoff : Z) (points : list PricePoint) : option PricePoint :=
  next_where (λ p, pp_timestamp p ≤ cutoff) (reverse points).

Lemma latest_at_or_before_last cutoff points :
  latest_at_or_before cutoff points = last (filter (λ p, pp_timestamp p ≤ cutoff) points).
Proof. apply next_where_reverse. Qed.

(** Dropping points after [as_of] does not change a reference before it. *)
Lemma latest_filter cutoff as_of points :
  cutoff ≤ as_of →
  latest_at_or_before cutoff (filter (λ p, pp_timestamp p ≤ as_of) points) =
  latest_at_or_before cutoff points.
Proof.
  intros H. rewrite !latest_at_or_before_last, list_filter_filter. f_equal.
  apply list_filter_iff. lia.
Qed.

Lemma WINDOWS_positive w : w ∈ WINDOWS → 0 < w.2.
Proof.
  unfold WINDOWS. rewrite !elem_of_cons, elem_of_nil. intros H.
  destruct_or?; subst; done.
Qed.

(** The live path over preselected references computes what the reference
    calculation computes over the points they were selected from. *)
Lemma calculate_changes_by_reference price as_of points refs :
  ssorted pp_timestamp points →
  (∀ w, w ∈ WINDOWS →
     mjoin (assoc_get w.1 refs) = latest_at_or_before (as_of - w.2) points) →
  calculate_changes price as_of points = calculate_changes_from_references price refs.
Proof.
  intros Hs Href. unfold calculate_changes, calculate_changes_from_references.
  destruct (decimal_of price) as [p|]; [|done]. cbn [mbind result_bind].
  rewrite ssorted_sort_id by (by apply ssorted_filter).
  apply map_result_ext. intros w Hw. rewrite Href by done.
  change (next_where ?P (reverse ?l)) with (latest_at_or_before (as_of - w.2) l).
  by rewrite latest_filter by (pose proof (WINDOWS_positive w Hw); lia).
Qed.

Lemma change_entry_ok price r v :
  change_entry price (Some r) = Ok v →
  ∃ q, ddiv price (pp_price r) = Ok q ∧
    v = Some {| cv_percent := dmul (dsub q (dint 1)) (dint 100);
                cv_reference_price := pp_price r;
                cv_reference_as_of := pp_timestamp r |}.
Proof.
  unfold change_entry. intros (q & Hq & H)%result_bind_ok. exists q. split; [done|].
  apply result_bind_ok in H as (c & Hc & [= <-]). f_equal. revert Hc.
  unfold ChangeValue_init. intros (p & [[= <-] _]%decimal_of_ok & H)%result_bind_ok.
  apply result_bind_ok in H as (rp & [[= <-] _]%decimal_of_ok & H).
  apply result_bind_ok in H as (t & [= <-]%ensure_utc_ok & H).
  by apply raise_if_bind in H as [_ [= <-]].
Qed.

Lemma percent_sgn q :
  Z.sgn (coef (dmul (dsub q (dint 1)) (dint 100))) =
  Z.sgn (dscale (dmin_exp q (dint 1)) q - dscale (dmin_exp q (dint 1)) (dint 1)).
Proof. rewrite dmul_sgn, dsub_sgn. change (Z.sgn (coef (dint 100))) with 1. lia. Qed.

Lemma percent_nonneg q : dle (dint 1) q → ¬ is_neg (dmul (dsub q (dint 1)) (dint 100)).
Proof.
  intros H Hn. rewrite (dle_at (dmin_exp q (dint 1))) in H by (unfold dmin_exp; lia).
  unfold is_neg in Hn. pose proof (percent_sgn q) as Hs. rewrite Z.sgn_neg in Hs by done. lia.
Qed.

Lemma percent_nonpos q : dle q (dint 1) → ¬ is_pos (dmul (dsub q (dint 1)) (dint 100)).
Proof.
  intros H Hn. rewrite (dle_at (dmin_exp q (dint 1))) in H by (unfold dmin_exp; lia).
  unfold is_pos in Hn. pose proof (percent_sgn q) as Hs. rewrite Z.sgn_pos in Hs by done. lia.
Qed.

Lemma filter_wsorted (P : PricePoint → Prop) `{!∀ x, Decision (P x)} l :
  wsorted pp_timestamp l → wsorted pp_timestamp (filter P l).
Proof.
  induction 1 as [|x l Hs IH Hall]; [constructor|]. rewrite filter_cons.
  case_decide; [|done]. constructor; [done|].
  rewrite Forall_forall in Hall |- *. intros y [_ Hy]%list_elem_of_filter. by apply Hall.
Qed.

(** What the reference of a window is, whatever the order of the points. *)
Lemma latest_sorted_spec cutoff as_of points :
  cutoff ≤ as_of →
  match latest_at_or_before cutoff
          (sort_by pp_timestamp (filter (λ p, pp_timestamp p ≤ as_of) points)) with
  | Some r => r ∈ points ∧ pp_timestamp r ≤ cutoff ∧
      ∀ q, q ∈ points → pp_timestamp q ≤ cutoff → pp_timestamp q ≤ pp_timestamp r
  | None => ∀ q, q ∈ points → cutoff < pp_timestamp q
  end.
Proof.
  intros Hc. set (l := sort_by _ _).
  assert (Hin : ∀ q, q ∈ l ↔ pp_timestamp q ≤ as_of ∧ q ∈ points)
    by (intros q; unfold l; by rewrite elem_of_sort_by, list_elem_of_filter).
  assert (Hl : wsorted pp_timestamp (filter (λ p, pp_timestamp p ≤ cutoff) l))
    by (apply filter_wsorted, sort_by_sorted).
  rewrite latest_at_or_before_last. destruct (last _) as [r|] eqn:E.
  - apply last_Some in E as [l' E]. assert (r ∈ filter (λ p, pp_timestamp p ≤ cutoff) l) as Hr
      by (rewrite E; set_solver).
    apply list_elem_of_filter in Hr as [? [_ ?]%Hin]. split_and!; [done..|].
    intros q Hq Hqc. assert (q ∈ filter (λ p, pp_timestamp p ≤ cutoff) l) as Hq'.
    { apply list_elem_of_filter. split; [done|]. apply Hin. split; [lia|done]. }
    rewrite E in Hq', Hl. apply elem_of_app in Hq' as [Hq'| ->%list_elem_of_singleton]; [|done].
    by eapply wsorted_snoc_inv.
  - apply last_None in E. intros q Hq. destruct (decide (pp_timestamp q ≤ cutoff)); [|lia].
    exfalso. apply (not_elem_of_nil q). rewrite <- E. apply list_elem_of_filter.
    split; [done|]. apply Hin. split; [lia|done].
Qed.

(** What one window of a [changes] mapping must say of a price history. *)
Definition window_entry_ok (price : decimal) (as_of : Z) (points : list PricePoint)
    (w : string * Z) (e : string * option ChangeValue) : Prop :=
  e.1 = w.1 ∧
  match e.2 with
  | None => ∀ q, q ∈ points → as_of - w.2 < pp_timestamp q
  | Some v => ∃ r, r ∈ points ∧ pp_timestamp r ≤ as_of - w.2 ∧
      (∀ q, q ∈ points → pp_timestamp q ≤ as_of - w.2 → pp_timestamp q ≤ pp_timestamp r) ∧
      cv_reference_price v = pp_price r ∧ cv_reference_as_of v = pp_timestamp r ∧
      (dle (pp_price r) price → ¬ is_neg (cv_percent v)) ∧
      (dle price (pp_price r) → ¬ is_pos (cv_percent v))
  end.

Lemma window_entry_spec price as_of points w e :
  is_pos price → (∀ p, p ∈ points → is_pos (pp_price p)) → 0 < w.2 →
  (entry ← change_entry price (latest_at_or_before (as_of - w.2)
     (sort_by pp_timestamp (filter (λ p, pp_timestamp p ≤ as_of) points)));
   Ok (w.1, entry)) = Ok e →
  window_entry_ok price as_of points w e.
Proof.
  intros Hp Hpts Hw. pose proof (latest_sorted_spec (as_of - w.2) as_of points ltac:(lia)) as Hr.
  destruct (latest_at_or_before _ _) as [r|].
  - intros (v & (q & Hq & ->)%change_entry_ok & [= <-])%result_bind_ok.
    destruct Hr as (Hin & Hle & Hmax). split; [done|]. exists r. cbn.
    split_and!; try done; intros Hle'.
    + eapply percent_nonneg, ddiv_ge_one, Hq; auto.
    + eapply percent_nonpos, ddiv_le_one, Hq; auto.
  - intros [= <-]. split; [done|]. exact Hr.
Qed.

(** ** Properties *)

(** Every window of [calculate_changes] is reported, in the order of
    [WINDOWS]; a window is null exactly when no point is old enough, otherwise
    it quotes the latest point at or before the cutoff (for points in any
    order), and the rounded percentage never has the wrong sign. *)
Theorem rolling_change_correct (price : decimal) (as_of : Z) (points : list PricePoint)
    (entries : list (string * option ChangeValue)) :
  is_pos price → (∀ p, p ∈ points → is_pos (pp_price p)) →
  calculate_changes (DFinite price) as_of points = Ok entries →
  Forall2 (window_entry_ok price as_of points) WINDOWS entries.
Proof.
  intros Hp Hpts. unfold calculate_changes.
  intros (p & [[= <-] _]%decimal_of_ok & H%map_result_ok)%result_bind_ok.
  assert (Hpos := WINDOWS_positive). revert H Hpos. generalize WINDOWS. intros ws H Hpos.
  induction H as [|w e ws es He H IH]; constructor.
  - apply window_entry_spec; [done..|apply Hpos; by left|exact He].
  - apply IH. intros w' Hw'. apply Hpos. by right.
Qed.

Lemma rolling_change_correct_witness :
  let p t c := {| pp_symbol := "BTC"; pp_timestamp := t; pp_price := dint c;
                  pp_provider := "demo"; pp_is_derived := false; pp_interval := "1m" |} in
  let points := [p (minutes 3) 5; p (hours 1) 7; p (minutes 2) 4] in
  match calculate_changes (DFinite (dint 6)) (hours 2) points with
  | Ok entries => assoc_get "1h" entries ≠ Some None ∧
      Forall2 (window_entry_ok (dint 6) (hours 2) points) WINDOWS entries
  | Raise _ => False
  end.
Proof.
  cbv zeta. destruct (calculate_changes _ _ _) as [es|e] eqn:E; [|vm_compute in E; discriminate].
  split; [vm_compute in E; by injection E as <-|].
  apply (rolling_change_correct _ _ _ _); [done| |exact E].
  intros p. rewrite !elem_of_cons, elem_of_nil. intros Hp. destruct_or?; by subst.
Defined.
