(* ===== verification/Cache.v ===== *)
(** * Snapshots and history rings ([cache.py])

    [SnapshotStore] is the sharded latest-quote store, [HistoryCache] the three
    retention rings per symbol with the cutoff-reference cache and the virtual
    synthetic histories.  Each method runs under the object's lock, so it is one
    atomic transition of the state record.  A deque is a list whose head is the
    left (oldest) end. *)

From S2P Require Import Prelude PyStr PyDecimal PyTime Graph Domain Analytics.

Local Open Scope string_scope.
Local Open Scope list_scope.
Local Open Scope Z_scope.

(** ** Snapshot store *)

Module SnapshotStore.

(** The shards; [hash] is the string hash of the running interpreter. *)
Record t := { shards : list (gmap string QuoteSnapshot) }.

Section store.
Context (hash : string → Z).

Definition init (shard_count : Z) : result t :=
  _ ← raise_if (bool_decide (shard_count ≤ 0))
        (ValueError "snapshot shard count must be positive");
  Ok {| shards := replicate (Z.to_nat shard_count) ∅ |}.

Definition shard_index (s : t) (symbol : string) : nat :=
  Z.to_nat (hash symbol mod Z.of_nat (length (shards s))).

Definition snapshot_symbol (snapshot : QuoteSnapshot) : string := pq_symbol (qs_quote snapshot).
Definition snapshot_as_of (snapshot : QuoteSnapshot) : Z := pq_as_of (qs_quote snapshot).

Definition get (s : t) (symbol : string) : option QuoteSnapshot :=
  shard ← shards s !! shard_index s symbol; shard !! symbol.

Definition publish (s : t) (snapshot : QuoteSnapshot) : t :=
  let symbol := snapshot_symbol snapshot in
  let index := shard_index s symbol in
  let shard := default ∅ (shards s !! index) in
  match shard !! symbol with
  | Some current =>
    if decide (snapshot_as_of snapshot < snapshot_as_of current) then s
    else {| shards := <[index := <[symbol := snapshot]> shard]> (shards s) |}
  | None => {| shards := <[index := <[symbol := snapshot]> shard]> (shards s) |}
  end.

(** [combined.update(shard)] for each shard in turn: the last shard wins. *)
Definition all (s : t) : gmap string QuoteSnapshot :=
  foldl (λ combined shard, shard ∪ combined) ∅ (shards s).

Definition clone (s : t) : result t :=
  replacement ← init (Z.of_nat (length (shards s)));
  Ok (foldl publish replacement (map_to_list (all s)).*2).

Definition retain_symbols (s : t) (symbols : list string) : t * nat :=
  let retained := list_to_set symbols : gset string in
  let kept := (λ shard : gmap string QuoteSnapshot,
                 filter (λ kv, kv.1 ∈ retained) shard) <$> shards s in
  ({| shards := kept |},
   foldl Nat.add 0%nat (zip_with (λ a b, size (a : gmap string QuoteSnapshot) -
                          size (b : gmap string QuoteSnapshot)) (shards s) kept)%nat).

End store.
End SnapshotStore.

(** ** History cache *)

Module HistoryCache.

(** [_ReferenceCacheEntry] *)
Record reference_entry := {
  re_as_of : Z;
  re_minute : Z;
  re_references : list (string * option PricePoint);
}.

Definition reference_entry_init (as_of : Z) (references : list (string * option PricePoint))
    : reference_entry :=
  {| re_as_of := as_of; re_minute := replace_second0 as_of; re_references := references |}.

(** [_SyntheticHistoryRecipe] *)
Record recipe := {
  rc_inputs : list string;
  rc_operation : string;
  rc_max_skew : Z;
  rc_provider : string;
}.

#[export] Instance recipe_eq_dec : EqDecision recipe.
Proof. solve_decision. Defined.

Abbreviation ring := (list PricePoint).

Record t := {
  one_minute : gmap string ring;
  five_minute : gmap string ring;
  daily : gmap string ring;
  reference_cache : gmap string reference_entry;
  synthetic_recipes : gmap string recipe;
  synthetic_dependents : gmap string (gset string);
}.

Definition empty : t :=
  {| one_minute := ∅; five_minute := ∅; daily := ∅; reference_cache := ∅;
     synthetic_recipes := ∅; synthetic_dependents := ∅ |}.

Definition ONE_MINUTE_RETENTION : Z := hours 48.
Definition FIVE_MINUTE_RETENTION : Z := days 45.
Definition DAILY_RETENTION : Z := days 400.

Inductive interval := I1m | I5m | I1d.

#[export] Instance interval_eq_dec : EqDecision interval.
Proof. solve_decision. Defined.

Definition interval_name (i : interval) : string :=
  match i with I1m => "1m" | I5m => "5m" | I1d => "1d" end.

Definition interval_of (name : string) : option interval :=
  if decide (name = "1m") then Some I1m
  else if decide (name = "5m") then Some I5m
  else if decide (name = "1d") then Some I1d
  else None.

Definition rings (i : interval) (h : t) : gmap string ring :=
  match i with I1m => one_minute h | I5m => five_minute h | I1d => daily h end.

Definition set_rings (i : interval) (m : gmap string ring) (h : t) : t :=
  {| one_minute := match i with I1m => m | _ => one_minute h end;
     five_minute := match i with I5m => m | _ => five_minute h end;
     daily := match i with I1d => m | _ => daily h end;
     reference_cache := reference_cache h;
     synthetic_recipes := synthetic_recipes h;
     synthetic_dependents := synthetic_dependents h |}.

Definition set_reference_cache (c : gmap string reference_entry) (h : t) : t :=
  {| one_minute := one_minute h; five_minute := five_minute h; daily := daily h;
     reference_cache := c; synthetic_recipes := synthetic_recipes h;
     synthetic_dependents := synthetic_dependents h |}.

Definition set_synthetic (r : gmap string recipe) (d : gmap string (gset string)) (h : t) : t :=
  {| one_minute := one_minute h; five_minute := five_minute h; daily := daily h;
     reference_cache := reference_cache h; synthetic_recipes := r;
     synthetic_dependents := d |}.

Definition retention (i : interval) : Z :=
  match i with
  | I1m => ONE_MINUTE_RETENTION
  | I5m => FIVE_MINUTE_RETENTION
  | I1d => DAILY_RETENTION
  end.

(** [_bucket] *)
Definition bucket (timestamp minutes : Z) : Z :=
  let minute := minute_of timestamp - minute_of timestamp mod minutes in
  replace_minute minute timestamp.

(** A point moved to its bucket. *)
Definition bucketed (point : PricePoint) (b : Z) (interval : string) : PricePoint :=
  {| pp_symbol := pp_symbol point; pp_timestamp := b; pp_price := pp_price point;
     pp_provider := pp_provider point; pp_is_derived := pp_is_derived point;
     pp_interval := interval |}.

(** [_upsert_bucket]: replace the tail, append to it, or rebuild the ring. *)
Definition upsert_bucket (target : ring) (point : PricePoint) (b : Z) : ring :=
  let x := bucketed point b (pp_interval point) in
  match last target with
  | None => target ++ [x]
  | Some tail =>
    if decide (pp_timestamp tail = b) then removelast target ++ [x]
    else if decide (pp_timestamp tail < b) then target ++ [x]
    else ordered_values (<[b := x]> (dict_of pp_timestamp target))
  end.

Definition upsert_ring (rs : gmap string ring) (point : PricePoint) (b : Z) : gmap string ring :=
  <[pp_symbol point := upsert_bucket (default [] (rs !! pp_symbol point)) point b]> rs.

(** [while ring and ring[0].timestamp < cutoff: ring.popleft()] *)
Fixpoint pop_older (cutoff : Z) (r : ring) : ring :=
  match r with
  | [] => []
  | p :: r' => if decide (pp_timestamp p < cutoff) then pop_older cutoff r' else r
  end.

(** [_prune_ring] *)
Definition prune_ring (rs : gmap string ring) (symbol : string) (cutoff : Z)
    : gmap string ring * nat :=
  match rs !! symbol with
  | None => (rs, 0%nat)
  | Some r =>
    let r' := pop_older cutoff r in
    (if decide (r' = []) then delete symbol rs else <[symbol := r']> rs,
     (length r - length r')%nat)
  end.

(** [_invalidate_references_locked]: drop the cached references of a symbol
    and of every transitive synthetic dependent. *)
Definition must_drop (cache : gmap string reference_entry) (timestamp : option Z)
    (symbol : string) : bool :=
  match timestamp with
  | None => true
  | Some t =>
    match cache !! symbol with
    | None => false
    | Some cached => bool_decide (t ≤ re_as_of cached - hours 1)
    end
  end.

Fixpoint invalidate_rec (fuel : nat) (dependents : gmap string (gset string))
    (timestamp : option Z) (acc : gmap string reference_entry * gset string)
    (symbol : string) : gmap string reference_entry * gset string :=
  match fuel with
  | O => acc
  | S f =>
    let '(cache, visited) := acc in
    if decide (symbol ∈ visited) then acc
    else
      let cache' := if must_drop cache timestamp symbol then delete symbol cache else cache in
      foldl (invalidate_rec f dependents timestamp) (cache', {[symbol]} ∪ visited)
        (elements (default ∅ (dependents !! symbol)))
  end.

Definition invalidate_references (h : t) (symbol : string) (timestamp : option Z) : t :=
  let deps := synthetic_dependents h in
  set_reference_cache
    (invalidate_rec (S (fuel_for (dom deps))) deps timestamp (reference_cache h, ∅) symbol).1 h.

(** [_prune_symbol_locked] *)
Definition prune_symbol (h : t) (symbol : string) (now : Z) : t * nat :=
  let '(r1, n1) := prune_ring (one_minute h) symbol (now - ONE_MINUTE_RETENTION) in
  let '(r5, n5) := prune_ring (five_minute h) symbol (now - FIVE_MINUTE_RETENTION) in
  let '(rd, nd) := prune_ring (daily h) symbol (now - DAILY_RETENTION) in
  let h' := set_rings I1m r1 (set_rings I5m r5 (set_rings I1d rd h)) in
  let removed := (n1 + n5 + nd)%nat in
  (if decide (removed = 0%nat) then h' else invalidate_references h' symbol None, removed).

(** [add] *)
Definition add (h : t) (point : PricePoint) : result t :=
  h' ← (if decide (pp_interval point = "1d") then
          Ok (set_rings I1d (upsert_ring (daily h) point (pp_timestamp point)) h)
        else if decide (pp_interval point = "5m") then
          Ok (set_rings I5m (upsert_ring (five_minute h) point
                               (bucket (pp_timestamp point) 5)) h)
        else if decide (pp_interval point = "1m") then
          let h1 := set_rings I1m (upsert_ring (one_minute h) point
                                     (bucket (pp_timestamp point) 1)) h in
          let five_bucket := bucket (pp_timestamp point) 5 in
          let five_point := bucketed point (pp_timestamp point) "5m" in
          Ok (set_rings I5m (upsert_ring (five_minute h1) five_point five_bucket) h1)
        else Raise (ValueError ("unsupported history interval: " +:+ pp_interval point)));
  let h2 := (prune_symbol h' (pp_symbol point) (pp_timestamp point)).1 in
  Ok (invalidate_references h2 (pp_symbol point) (Some (pp_timestamp point))).

(** ** Bulk loading *)

(** The three [incoming] dictionaries of [load]. *)
Definition incoming := interval → gmap string (gmap Z PricePoint).

Definition incoming_empty : incoming := λ _, ∅.

Definition incoming_set (i : interval) (symbol : string) (key : Z) (p : PricePoint)
    (inc : incoming) : incoming :=
  λ j, if decide (j = i) then
         <[symbol := <[key := p]> (default ∅ (inc i !! symbol))]> (inc i)
       else inc j.

Definition load_point (inc : incoming) (point : PricePoint) : result incoming :=
  if decide (pp_interval point = "1d") then
    Ok (incoming_set I1d (pp_symbol point) (pp_timestamp point) point inc)
  else
    inc' ←
      (if decide (pp_interval point = "1m") then
         let one_bucket := bucket (pp_timestamp point) 1 in
         Ok (incoming_set I1m (pp_symbol point) one_bucket
               (bucketed point one_bucket (pp_interval point)) inc)
       else
         _ ← raise_if (bool_decide (pp_interval point ≠ "5m"))
               (ValueError ("unsupported history interval: " +:+ pp_interval point));
         Ok inc);
    let five_bucket := bucket (pp_timestamp point) 5 in
    Ok (incoming_set I5m (pp_symbol point) five_bucket
          (bucketed point five_bucket "5m") inc').

Fixpoint load_incoming (inc : incoming) (points : list PricePoint) : result incoming :=
  match points with
  | [] => Ok inc
  | p :: points' => inc' ← load_point inc p; load_incoming inc' points'
  end.

(** [max] of a list of keys. *)
Definition max_key (l : list Z) : option Z :=
  match l with [] => None | x :: l' => Some (foldl Z.max x l') end.

(** [_replace_ring] *)
Definition replace_ring (rs : gmap string ring) (symbol : string) (points : list PricePoint)
    : gmap string ring :=
  if decide (points = []) then delete symbol rs else <[symbol := points]> rs.

(** The incoming dictionary of one ring with the existing points laid over it. *)
Definition merged (i : interval) (inc : incoming) (h : t) (symbol : string)
    : gmap Z PricePoint :=
  dict_of pp_timestamp (default [] (rings i h !! symbol)) ∪ default ∅ (inc i !! symbol).

Definition load_ring (i : interval) (inc : incoming) (latest : Z) (symbol : string)
    (h0 h : t) : t :=
  set_rings i
    (replace_ring (rings i h) symbol
       (ordered_values
          (filter (λ kv, latest - retention i ≤ kv.1) (merged i inc h0 symbol)))) h.

(** The body of the loop over the loaded symbols. *)
Definition load_symbol (inc : incoming) (h : t) (symbol : string) : t :=
  let h0 := invalidate_references h symbol None in
  let keys := λ i, (map_to_list (merged i inc h0 symbol)).*1 in
  match max_key (keys I1m ++ keys I5m ++ keys I1d) with
  | None => h0  (* no point was loaded for the symbol *)
  | Some latest =>
    load_ring I1d inc latest symbol h0
      (load_ring I5m inc latest symbol h0 (load_ring I1m inc latest symbol h0 h0))
  end.

(** [load] *)
Definition load (h : t) (points : list PricePoint) : result t :=
  if decide (points = []) then Ok h
  else
    inc ← load_incoming incoming_empty (sort_by pp_timestamp points);
    let symbols := dom (inc I1m) ∪ dom (inc I5m) ∪ dom (inc I1d) in
    Ok (foldl (load_symbol inc) h (elements symbols)).

(** ** Expiry and deactivation *)

Definition present (h : t) : gset string :=
  dom (one_minute h) ∪ dom (five_minute h) ∪ dom (daily h).

(** [prune] at an explicit [now]. *)
Definition prune (h : t) (now : Z) : t * nat :=
  foldl (λ acc symbol,
    let '(h', n) := prune_symbol acc.1 symbol now in (h', (acc.2 + n)%nat))
    (h, 0%nat) (elements (present h)).

(** The loop that retains the inputs of retained virtual symbols; the end of
    the Python list is the head of [pending]. *)
Fixpoint retain_inputs (retained : gset string) (pending inputs : list string)
    : gset string * list string :=
  match inputs with
  | [] => (retained, pending)
  | d :: inputs' =>
    if decide (d ∈ retained) then retain_inputs retained pending inputs'
    else retain_inputs ({[d]} ∪ retained) (d :: pending) inputs'
  end.

Fixpoint retain_closure (fuel : nat) (recipes : gmap string recipe) (retained : gset string)
    (pending : list string) : gset string :=
  match fuel with
  | O => retained
  | S f =>
    match pending with
    | [] => retained
    | s :: pending' =>
      match recipes !! s with
      | None => retain_closure f recipes retained pending'
      | Some r =>
        let '(retained', pending'') := retain_inputs retained pending' (rc_inputs r) in
        retain_closure f recipes retained' pending''
      end
    end
  end.

(** Every input of every recipe: what the loop can still add. *)
Definition all_inputs (recipes : gmap string recipe) : gset string :=
  list_to_set (concat (rc_inputs <$> (map_to_list recipes).*2)).

Definition retained_symbols (h : t) (symbols : list string) : gset string :=
  let initial := list_to_set symbols : gset string in
  retain_closure (S (size initial + size (all_inputs (synthetic_recipes h))))
    (synthetic_recipes h) initial (elements initial).

Definition drop_rings (h : t) (symbol : string) : t :=
  {| one_minute := delete symbol (one_minute h);
     five_minute := delete symbol (five_minute h);
     daily := delete symbol (daily h);
     reference_cache := delete symbol (reference_cache h);
     synthetic_recipes := synthetic_recipes h;
     synthetic_dependents := synthetic_dependents h |}.

Definition ring_points (h : t) (symbol : string) : nat :=
  (length (default [] (one_minute h !! symbol)) +
   length (default [] (five_minute h !! symbol)) +
   length (default [] (daily h !! symbol)))%nat.

(** Remove [symbol] from the dependents of each of its inputs, dropping a
    dependents entry that becomes empty. *)
Definition forget_dependent (symbol : string) (deps : gmap string (gset string))
    (dependency : string) : gmap string (gset string) :=
  match deps !! dependency with
  | None => deps
  | Some dependents =>
    let dependents' := dependents ∖ {[symbol]} in
    if decide (dependents' = ∅) then delete dependency deps
    else <[dependency := dependents']> deps
  end.

Definition drop_recipe (h : t) (symbol : string) : t :=
  match synthetic_recipes h !! symbol with
  | None => h
  | Some r =>
    set_reference_cache (delete symbol (reference_cache h))
      (set_synthetic (delete symbol (synthetic_recipes h))
         (foldl (forget_dependent symbol) (synthetic_dependents h) (rc_inputs r)) h)
  end.

(** [retain_symbols] *)
Definition retain_symbols (h : t) (symbols : list string) : t * nat :=
  let retained := retained_symbols h symbols in
  let gone := elements (present h ∖ retained) in
  let removed_points := foldl (λ n s, n + ring_points h s)%nat 0%nat gone in
  let h1 := foldl drop_rings h gone in
  let dropped := elements (dom (synthetic_recipes h1) ∖ retained) in
  (foldl drop_recipe h1 dropped, removed_points).

(** ** Reading *)

(** [points] *)
Definition overlay (newer merged : list PricePoint) : list PricePoint :=
  match newer with
  | [] => merged
  | first :: _ => filter (λ p, pp_timestamp p < pp_timestamp first) merged ++ newer
  end.

Definition points (h : t) (symbol : string) : list PricePoint :=
  let one := default [] (one_minute h !! symbol) in
  let five := default [] (five_minute h !! symbol) in
  let daily := default [] (daily h !! symbol) in
  overlay one (overlay five daily).

(** [points_for_interval] *)
Definition points_for_interval (h : t) (symbol name : string) : result (list PricePoint) :=
  match interval_of name with
  | Some i => Ok (default [] (rings i h !! symbol))
  | None => Raise (ValueError ("unsupported history interval: " +:+ name))
  end.

(** [sizes] *)
Definition sizes (h : t) : list (string * (nat * nat * nat)) :=
  (λ s, (s, (length (default [] (one_minute h !! s)),
             length (default [] (five_minute h !! s)),
             length (default [] (daily h !! s))))) <$> elements (present h).

(** ** Virtual synthetic histories *)

Definition recipe_inputs (recipes : gmap string recipe) (symbol : string) : list string :=
  match recipes !! symbol with Some r => rc_inputs r | None => [] end.

Definition add_dependent (symbol : string) (deps : gmap string (gset string))
    (dependency : string) : gmap string (gset string) :=
  <[dependency := {[symbol]} ∪ default ∅ (deps !! dependency)]> deps.

(** [self._synthetic_dependents[dependency].discard(symbol)] *)
Definition discard_dependent (symbol : string) (deps : gmap string (gset string))
    (dependency : string) : gmap string (gset string) :=
  <[dependency := default ∅ (deps !! dependency) ∖ {[symbol]}]> deps.

(** [register_synthetic_history] *)
Definition register_synthetic_history (h : t) (symbol : string) (inputs : list string)
    (operation : string) (max_skew : Z) (provider : string) : result t :=
  let expected := if decide (operation = "inverse") then 1 else 2 in
  _ ← raise_if (bool_decide (operation ∉ ["inverse"; "multiply"; "divide"] ∨
                             Z.of_nat (length inputs) ≠ expected))
        (ValueError "invalid synthetic history recipe");
  _ ← raise_if (bool_decide (max_skew < 0))
        (ValueError "synthetic history maximum skew cannot be negative");
  let r := {| rc_inputs := inputs; rc_operation := operation; rc_max_skew := max_skew;
              rc_provider := provider |} in
  let recipes := synthetic_recipes h in
  let reaches_target := λ dependency,
    (reaches (recipe_inputs recipes) (S (fuel_for (dom recipes))) symbol dependency ∅).1 in
  _ ← raise_if (existsb reaches_target inputs)
        (ValueError "synthetic history recipes cannot contain a dependency cycle");
  if decide (recipes !! symbol = Some r) then Ok h
  else
    let deps := match recipes !! symbol with
                | Some current => foldl (discard_dependent symbol) (synthetic_dependents h)
                                    (rc_inputs current)
                | None => synthetic_dependents h
                end in
    let h1 := set_synthetic (<[symbol := r]> recipes)
                (foldl (add_dependent symbol) deps inputs) h in
    let h2 := {| one_minute := delete symbol (one_minute h1);
                 five_minute := delete symbol (five_minute h1);
                 daily := delete symbol (daily h1);
                 reference_cache := reference_cache h1;
                 synthetic_recipes := synthetic_recipes h1;
                 synthetic_dependents := synthetic_dependents h1 |} in
    Ok (invalidate_references h2 symbol None).

Definition synthetic_point (symbol : string) (r : recipe) (i : interval) (timestamp : Z)
    (price : decimal) : PricePoint :=
  {| pp_symbol := symbol; pp_timestamp := timestamp; pp_price := price;
     pp_provider := rc_provider r; pp_is_derived := true; pp_interval := interval_name i |}.

(** The [for left in eligible_left] loop of an inverse recipe. *)
Fixpoint inverse_scan (symbol : string) (r : recipe) (i : interval) (lefts : ring)
    : option (result PricePoint) :=
  match lefts with
  | [] => None
  | lft :: lefts' =>
    match ddiv (dint 1) (pp_price lft) with
    | Raise _ => inverse_scan symbol r i lefts'
    | Ok price =>
      if decide (is_pos price) then
        Some (PricePoint_init
                {| pp_symbol := symbol; pp_timestamp := Aware (pp_timestamp lft);
                   pp_price := DFinite price; pp_provider := rc_provider r;
                   pp_is_derived := true; pp_interval := interval_name i |})
      else inverse_scan symbol r i lefts'
    end
  end.

(** [while right is not None and right.timestamp > left.timestamp: advance] *)
Fixpoint advance_right (lft : PricePoint) (rights : ring) : ring :=
  match rights with
  | [] => []
  | rgt :: rights' =>
    if decide (pp_timestamp lft < pp_timestamp rgt) then advance_right lft rights' else rights
  end.

(** The [for left in eligible_left] loop of a two-leg recipe; [rights] is the
    current right observation followed by the rest of the iterator. *)
Fixpoint pair_scan (symbol : string) (r : recipe) (i : interval) (lefts rights : ring)
    : option (result PricePoint) :=
  match lefts with
  | [] => None
  | lft :: lefts' =>
    match advance_right lft rights with
    | [] => None
    | rgt :: rest =>
      if decide (rc_max_skew r < pp_timestamp lft - pp_timestamp rgt) then
        pair_scan symbol r i lefts' (rgt :: rest)
      else
        match (if decide (rc_operation r = "multiply")
               then Ok (dmul (pp_price lft) (pp_price rgt))
               else ddiv (pp_price lft) (pp_price rgt)) with
        | Raise _ => pair_scan symbol r i lefts' (rgt :: rest)
        | Ok price =>
          if decide (is_pos price) then
            Some (PricePoint_init
                    {| pp_symbol := symbol; pp_timestamp := Aware (pp_timestamp lft);
                       pp_price := DFinite price; pp_provider := rc_provider r;
                       pp_is_derived := true; pp_interval := interval_name i |})
          else pair_scan symbol r i lefts' (rgt :: rest)
        end
    end
  end.

(** One iteration of the loop over the rings. *)
Definition synthetic_reference_in (h : t) (symbol : string) (r : recipe) (cutoff : Z)
    (i : interval) : option (result PricePoint) :=
  match rings i h !! default "" (rc_inputs r !! 0%nat) with
  | None | Some [] => None
  | Some left_ring =>
    let eligible_left := filter (λ p, pp_timestamp p ≤ cutoff) (reverse left_ring) in
    if decide (rc_operation r = "inverse") then inverse_scan symbol r i eligible_left
    else
      match rings i h !! default "" (rc_inputs r !! 1%nat) with
      | None | Some [] => None
      | Some right_ring => pair_scan symbol r i eligible_left (reverse right_ring)
      end
  end.

(** [_synthetic_reference_at_locked] *)
Definition synthetic_reference_at (h : t) (symbol : string) (r : recipe) (cutoff : Z)
    : result (option PricePoint) :=
  match synthetic_reference_in h symbol r cutoff I1m with
  | Some p => Some <$> p
  | None =>
    match synthetic_reference_in h symbol r cutoff I5m with
    | Some p => Some <$> p
    | None =>
      match synthetic_reference_in h symbol r cutoff I1d with
      | Some p => Some <$> p
      | None => Ok None
      end
    end
  end.

(** [_latest_at_or_before] *)
Definition latest_in (r : option ring) (cutoff : Z) : option PricePoint :=
  match r with
  | None | Some [] => None
  | Some r => latest_at_or_before cutoff r
  end.

(** [_reference_at_locked] *)
Definition starts_by (cutoff : Z) (r : option ring) : bool :=
  match r with
  | Some (first :: _) => bool_decide (pp_timestamp first ≤ cutoff)
  | _ => false
  end.

Definition reference_at (h : t) (symbol : string) (cutoff : Z) : result (option PricePoint) :=
  match synthetic_recipes h !! symbol with
  | Some r => synthetic_reference_at h symbol r cutoff
  | None =>
    let one := one_minute h !! symbol in
    let five := five_minute h !! symbol in
    if starts_by cutoff one then Ok (latest_in one cutoff)
    else if starts_by cutoff five then Ok (latest_in five cutoff)
    else Ok (latest_in (daily h !! symbol) cutoff)
  end.

(** The references a cache miss computes. *)
Definition fresh_references (h : t) (symbol : string) (as_of : Z)
    : result (list (string * option PricePoint)) :=
  map_result (λ w : string * Z, p ← reference_at h symbol (as_of - w.2); Ok (w.1, p)) WINDOWS.

(** [change_references] *)
Definition change_references (h : t) (symbol : string) (as_of : Z)
    : result (t * list (string * option PricePoint)) :=
  let minute := replace_second0 as_of in
  let miss :=
    references ← fresh_references h symbol as_of;
    Ok (set_reference_cache
          (<[symbol := reference_entry_init as_of references]> (reference_cache h)) h,
        references) in
  match reference_cache h !! symbol with
  | Some cached => if decide (re_minute cached = minute) then Ok (h, re_references cached) else miss
  | None => miss
  end.

End HistoryCache.
