(* ===== verification/CacheFacts.v ===== *)
(** * Properties of the history cache *)

From S2P Require Import Prelude PyStr PyDecimal PyTime Graph Domain Analytics Cache.
Import HistoryCache.

Local Open Scope string_scope.
Local Open Scope list_scope.
Local Open Scope Z_scope.

(** ** Single rings *)

Definition ts : PricePoint → Z := pp_timestamp.

Lemma bucketed_ts p b n : ts (bucketed p b n) = b.
Proof. done. Qed.

Lemma keyed_insert {A} (key : A → Z) m x : keyed key m → keyed key (<[key x := x]> m).
Proof.
  intros Hm k y. rewrite lookup_insert. case_decide; [by intros [= <-]|apply Hm].
Qed.

Lemma keyed_insert_bucket (m : gmap Z PricePoint) p b n :
  keyed ts m → keyed ts (<[b := bucketed p b n]> m).
Proof. apply (keyed_insert ts m (bucketed p b n)). Qed.

Lemma elem_of_insert_dict r p b n x :
  ssorted ts r →
  x ∈ ordered_values (<[b := bucketed p b n]> (dict_of ts r)) ↔
  x = bucketed p b n ∨ x ∈ r ∧ ts x ≠ b.
Proof.
  intros Hs. rewrite elem_of_ordered_values. split.
  - intros [k Hk]. rewrite lookup_insert in Hk. case_decide as Hb; [naive_solver|].
    right. pose proof (dict_of_key _ _ _ _ Hk) as <-.
    by apply (dict_of_lookup_sorted ts) in Hk.
  - intros [->|[Hx Hne]].
    + exists b. by rewrite lookup_insert_eq.
    + exists (ts x). rewrite lookup_insert_ne by done. by apply (dict_of_lookup_sorted ts).
Qed.

(** The three branches of [_upsert_bucket] all compute the dictionary update. *)
Lemma upsert_bucket_dict r p b :
  ssorted ts r →
  upsert_bucket r p b = ordered_values (<[b := bucketed p b (pp_interval p)]> (dict_of ts r)).
Proof.
  intros Hs. unfold upsert_bucket. set (x := bucketed p b (pp_interval p)).
  assert (Hrhs : ssorted ts (ordered_values (<[b := x]> (dict_of ts r))))
    by (apply ordered_values_sorted, keyed_insert_bucket, keyed_dict_of).
  destruct (last r) as [tail|] eqn:Hl.
  - apply last_Some in Hl as [l ->]. pose proof Hs as (Hl & _ & Hlt)%ssorted_app.
    assert (∀ y, y ∈ l → ts y < ts tail) as Hlt' by (intros; apply Hlt; set_solver).
    case_decide as H1; [|case_decide as H2]; [..|done].
    + rewrite removelast_last. apply (ssorted_ext ts); [|done|].
      * apply ssorted_app. split_and!; [done|repeat constructor|].
        intros y z Hy ->%list_elem_of_singleton. specialize (Hlt' y Hy). unfold ts in *. simpl. lia.
      * intros y. unfold x. rewrite elem_of_insert_dict by done.
        rewrite !elem_of_app, !list_elem_of_singleton. split.
        -- intros [Hy| ->]; [|by left]. right. split; [by left|].
           specialize (Hlt' y Hy). unfold ts in *. lia.
        -- intros [->|[[Hy| ->] Hne]]; [by right|by left|done].
    + apply (ssorted_ext ts); [|done|].
      * apply ssorted_app. split_and!; [done|repeat constructor|].
        intros y z Hy ->%list_elem_of_singleton. unfold ts in *. simpl.
        apply elem_of_app in Hy as [Hy| ->%list_elem_of_singleton]; [|lia].
        specialize (Hlt' y Hy). lia.
      * intros y. unfold x. rewrite elem_of_insert_dict by done.
        rewrite !elem_of_app, !list_elem_of_singleton. split.
        -- intros [[Hy| ->]| ->]; [right|right|by left].
           ++ split; [by left|]. specialize (Hlt' y Hy). unfold ts in *. lia.
           ++ split; [by right|]. unfold ts in *. lia.
        -- intros [->|[Hy Hne]]; [by right|by left].
  - apply last_None in Hl as ->. simpl. apply (ssorted_ext ts); [repeat constructor|done|].
    intros y. unfold x. rewrite elem_of_insert_dict by done.
    rewrite list_elem_of_singleton, elem_of_nil. naive_solver.
Qed.

Lemma pop_older_filter cutoff r :
  ssorted ts r → pop_older cutoff r = filter (λ p, cutoff ≤ pp_timestamp p) r.
Proof.
  induction 1 as [|p r Hs IH Hall]; simpl; [done|]. rewrite filter_cons.
  case_decide; case_decide; try lia; [done|].
  symmetry. f_equal. apply filter_all. rewrite Forall_forall in Hall.
  intros q Hq. specialize (Hall q Hq). unfold ts in Hall. lia.
Qed.

Lemma overlay_nil m : overlay [] m = m.
Proof. done. Qed.

(** ** Well-formed rings *)

(** The bucket width of a ring; daily points keep their own timestamps. *)
Definition aligned (i : interval) (t : Z) : Prop :=
  match i with
  | I1m => t mod minute_us = 0
  | I5m => t mod (5 * minute_us) = 0
  | I1d => True
  end.

Definition ring_ok (i : interval) (s : string) (r : ring) : Prop :=
  ssorted ts r ∧ ∀ p, p ∈ r → aligned i (ts p) ∧ pp_symbol p = s.

Definition rings_ok (h : t) : Prop :=
  ∀ i s r, rings i h !! s = Some r → r ≠ [] ∧ ring_ok i s r.

Lemma bucket1_aligned t : aligned I1m (bucket t 1).
Proof.
  simpl. unfold bucket. rewrite replace_minute_floor1. lia_time.
Qed.

Lemma bucket5_aligned t : aligned I5m (bucket t 5).
Proof.
  simpl. unfold bucket. rewrite replace_minute_floor5. lia_time.
Qed.

Lemma ring_ok_nil i s : ring_ok i s [].
Proof. split; [constructor|]. by intros p ?%elem_of_nil. Qed.

Lemma ring_ok_filter i s r P `{!∀ p, Decision (P p)} : ring_ok i s r → ring_ok i s (filter P r).
Proof.
  intros [Hs Ha]. split; [by apply ssorted_filter|].
  intros p [_ Hp]%list_elem_of_filter. by apply Ha.
Qed.

Lemma upsert_bucket_ok i s r p b :
  ring_ok i s r → aligned i b → pp_symbol p = s → ring_ok i s (upsert_bucket r p b).
Proof.
  intros [Hs Ha] Hb Hp. rewrite upsert_bucket_dict by done. split.
  - apply ordered_values_sorted, keyed_insert_bucket, keyed_dict_of.
  - intros q [->|[Hq _]]%elem_of_insert_dict; [|by apply Ha|done]. done.
Qed.

Lemma upsert_bucket_nonempty r p b : ssorted ts r → upsert_bucket r p b ≠ [].
Proof.
  intros Hs. rewrite upsert_bucket_dict by done.
  assert (bucketed p b (pp_interval p) ∈
    ordered_values (<[b := bucketed p b (pp_interval p)]> (dict_of ts r))) as Hin.
  { apply elem_of_insert_dict; [done|by left]. }
  intros Heq. rewrite Heq in Hin. by apply elem_of_nil in Hin.
Qed.

Lemma rings_ok_default h i s : rings_ok h → ring_ok i s (default [] (rings i h !! s)).
Proof.
  intros Hh. destruct (rings i h !! s) eqn:E; simpl; [|apply ring_ok_nil].
  by apply (Hh i s).
Qed.

(** ** Frames: which fields an operation touches *)

Lemma rings_set_rings i j m h : rings i (set_rings j m h) = if decide (i = j) then m else rings i h.
Proof. by destruct i, j. Qed.

Lemma rings_set_cache i c h : rings i (set_reference_cache c h) = rings i h.
Proof. by destruct i. Qed.

Lemma rings_invalidate i h s o : rings i (invalidate_references h s o) = rings i h.
Proof. apply rings_set_cache. Qed.

Lemma prune_symbol_rings i h s now :
  rings i (prune_symbol h s now).1 = (prune_ring (rings i h) s (now - retention i)).1.
Proof.
  unfold prune_symbol.
  destruct (prune_ring (one_minute h) s _) as [r1 n1] eqn:H1.
  destruct (prune_ring (five_minute h) s _) as [r5 n5] eqn:H5.
  destruct (prune_ring (daily h) s _) as [rd nd] eqn:Hd. simpl.
  case_decide; rewrite ?rings_invalidate; destruct i; simpl;
    by rewrite ?H1, ?H5, ?Hd.
Qed.

Definition some_nonempty (r : ring) : option ring := if decide (r = []) then None else Some r.

(** Expiring one ring keeps exactly the points at or after the cutoff. *)
Lemma prune_ring_lookup rs s cutoff s' :
  (∀ r, rs !! s = Some r → ssorted ts r ∧ r ≠ []) →
  (prune_ring rs s cutoff).1 !! s' =
  if decide (s = s') then rs !! s' ≫= λ r, some_nonempty (filter (λ p, cutoff ≤ pp_timestamp p) r)
  else rs !! s'.
Proof.
  intros Hs. unfold prune_ring. destruct (rs !! s) as [r|] eqn:E; simpl.
  - destruct (Hs r eq_refl) as [Hr Hne]. rewrite pop_older_filter by done.
    unfold some_nonempty. destruct (decide (s = s')) as [<-|].
    + rewrite E. simpl. case_decide; [apply lookup_delete_eq|apply lookup_insert_eq].
    + case_decide; [by apply lookup_delete_ne|by apply lookup_insert_ne].
  - case_decide; [subst; by rewrite E|done].
Qed.

Lemma prune_ring_ok i rs s cutoff :
  (∀ s r, rs !! s = Some r → r ≠ [] ∧ ring_ok i s r) →
  ∀ s' r, (prune_ring rs s cutoff).1 !! s' = Some r → r ≠ [] ∧ ring_ok i s' r.
Proof.
  intros Hok s' r. rewrite prune_ring_lookup.
  - case_decide; [|apply Hok]. subst.
    destruct (rs !! s') as [r0|] eqn:E; simpl; [|done]. unfold some_nonempty.
    case_decide; [done|]. intros [= <-]. split; [done|].
    apply ring_ok_filter. by apply Hok.
  - intros r0 Hr0. destruct (Hok s r0 Hr0) as [? []]. done.
Qed.

Lemma rings_ok_prune_symbol h s now : rings_ok h → rings_ok (prune_symbol h s now).1.
Proof.
  intros Hh i. rewrite prune_symbol_rings. apply prune_ring_ok. apply Hh.
Qed.

Lemma rings_ok_upsert i h p b :
  rings_ok h → aligned i b →
  rings_ok (set_rings i (upsert_ring (rings i h) p b) h).
Proof.
  intros Hh Hb j s r. rewrite rings_set_rings. case_decide as Hij; [|apply Hh]. subst j.
  unfold upsert_ring. rewrite lookup_insert. case_decide as Hs; [|apply Hh].
  intros [= <-]. pose proof (rings_ok_default h i (pp_symbol p) Hh) as Hr. split.
  - apply upsert_bucket_nonempty, Hr.
  - subst s. by apply upsert_bucket_ok.
Qed.

Lemma rings_ok_invalidate h s o : rings_ok h → rings_ok (invalidate_references h s o).
Proof. intros Hh i. rewrite rings_invalidate. apply Hh. Qed.

Lemma rings_ok_add h p h' : rings_ok h → add h p = Ok h' → rings_ok h'.
Proof.
  intros Hh. unfold add. intros (h1 & H1 & [= <-])%result_bind_ok.
  apply rings_ok_invalidate, rings_ok_prune_symbol.
  repeat case_decide; simplify_eq.
  - by apply (rings_ok_upsert I1d).
  - apply (rings_ok_upsert I5m); [done|apply bucket5_aligned].
  - apply (rings_ok_upsert I5m (set_rings I1m _ _)); [|apply bucket5_aligned].
    apply (rings_ok_upsert I1m); [done|apply bucket1_aligned].
Qed.

(** ** Bulk loading *)

(** Incoming dictionaries are keyed by the (bucketed) timestamp. *)
Definition incoming_ok (inc : incoming) : Prop :=
  ∀ i s m, inc i !! s = Some m → m ≠ ∅ ∧
    ∀ k p, m !! k = Some p → ts p = k ∧ aligned i k ∧ pp_symbol p = s.

Lemma incoming_ok_empty : incoming_ok incoming_empty.
Proof. intros i s m. unfold incoming_empty. by rewrite lookup_empty. Qed.

Lemma incoming_set_lookup i s k p inc j s' :
  incoming_set i s k p inc j !! s' =
  if decide (j = i ∧ s' = s) then Some (<[k := p]> (default ∅ (inc i !! s))) else inc j !! s'.
Proof.
  unfold incoming_set. destruct (decide (j = i)) as [->|]; simpl.
  - rewrite lookup_insert. destruct (decide (s = s')) as [->|].
    + by rewrite decide_True.
    + by rewrite decide_False by naive_solver.
  - by rewrite decide_False by naive_solver.
Qed.

Lemma incoming_ok_set inc i k p :
  incoming_ok inc → ts p = k → aligned i k → incoming_ok (incoming_set i (pp_symbol p) k p inc).
Proof.
  intros Hinc Hk Ha j s m. rewrite incoming_set_lookup. case_decide as Hj; [|apply Hinc].
  destruct Hj as [-> ->]. intros [= <-]. split; [apply insert_non_empty|].
  intros k' q. rewrite lookup_insert. case_decide; [naive_solver|].
  destruct (inc i !! pp_symbol p) as [m|] eqn:E; simpl; [|by rewrite lookup_empty].
  by apply (Hinc i (pp_symbol p) m E).
Qed.

Lemma incoming_ok_load_point inc p inc' :
  incoming_ok inc → load_point inc p = Ok inc' → incoming_ok inc'.
Proof.
  intros Hinc. unfold load_point. case_decide as H1d.
  { intros [= <-]. by apply incoming_ok_set. }
  intros (inc1 & H1 & [= <-])%result_bind_ok.
  apply (incoming_ok_set _ I5m _ (bucketed p (bucket (pp_timestamp p) 5) "5m"));
    [|done|apply bucket5_aligned].
  case_decide; [|by apply raise_if_bind in H1 as [_ [= <-]]].
  injection H1 as <-.
  apply (incoming_ok_set _ I1m _ (bucketed p (bucket (pp_timestamp p) 1) (pp_interval p)));
    [done|done|apply bucket1_aligned].
Qed.

Lemma incoming_ok_load inc ps inc' :
  incoming_ok inc → load_incoming inc ps = Ok inc' → incoming_ok inc'.
Proof.
  revert inc. induction ps as [|p ps IH]; intros inc Hinc; simpl; [by intros [= <-]|].
  intros (inc1 & H1 & H2)%result_bind_ok. by eapply IH, H2; eapply incoming_ok_load_point.
Qed.

Lemma merged_lookup i inc h s k :
  merged i inc h s !! k =
  match dict_of ts (default [] (rings i h !! s)) !! k with
  | Some p => Some p
  | None => inc i !! s ≫= λ m, m !! k
  end.
Proof.
  unfold merged. rewrite lookup_union. destruct (dict_of ts _ !! k) eqn:E; unfold ts in E; rewrite E.
  - by destruct (default ∅ (inc i !! s) !! k).
  - destruct (inc i !! s) as [m|]; simpl; [by destruct (m !! k)|done].
Qed.

Lemma merged_ok i inc h s k p :
  rings_ok h → incoming_ok inc → merged i inc h s !! k = Some p →
  ts p = k ∧ aligned i k ∧ pp_symbol p = s.
Proof.
  intros Hh Hinc. rewrite merged_lookup.
  destruct (rings_ok_default h i s Hh) as [Hs Ha].
  destruct (dict_of ts _ !! k) as [q|] eqn:E.
  - intros [= <-]. pose proof (dict_of_key _ _ _ _ E) as <-.
    apply (dict_of_lookup_sorted ts) in E; [|done]. split; [done|by apply Ha].
  - destruct (inc i !! s) as [m|] eqn:Em; simpl; [|done]. by apply (Hinc i s m).
Qed.

Lemma ordered_filter_ok i inc h s latest :
  rings_ok h → incoming_ok inc →
  ring_ok i s (ordered_values (filter (λ kv, latest - retention i ≤ kv.1) (merged i inc h s))).
Proof.
  intros Hh Hinc. split.
  - apply ordered_values_sorted. intros k p [Hk _]%map_lookup_filter_Some.
    by eapply merged_ok.
  - intros p [k [Hk _]%map_lookup_filter_Some]%elem_of_ordered_values.
    apply merged_ok in Hk as (<- & ? & ?); done.
Qed.

Lemma rings_load_ring i inc latest s h0 h j :
  rings j (load_ring i inc latest s h0 h) =
  if decide (j = i) then
    replace_ring (rings i h) s
      (ordered_values (filter (λ kv, latest - retention i ≤ kv.1) (merged i inc h0 s)))
  else rings j h.
Proof. apply rings_set_rings. Qed.

Lemma replace_ring_lookup rs s l s' :
  replace_ring rs s l !! s' = if decide (s = s') then some_nonempty l else rs !! s'.
Proof.
  unfold replace_ring, some_nonempty. destruct (decide (s = s')) as [<-|].
  - case_decide; [apply lookup_delete_eq|apply lookup_insert_eq].
  - case_decide; [by apply lookup_delete_ne|by apply lookup_insert_ne].
Qed.

(** Loading one symbol replaces its three rings and nothing else. *)
Definition loaded_ring (i : interval) (inc : incoming) (h : t) (s : string) (latest : Z) : ring :=
  ordered_values (filter (λ kv, latest - retention i ≤ kv.1) (merged i inc h s)).

Definition latest_key (inc : incoming) (h : t) (s : string) : option Z :=
  let keys := λ i, (map_to_list (merged i inc h s)).*1 in
  max_key (keys I1m ++ keys I5m ++ keys I1d).

Lemma merged_invalidate i inc h s s' o :
  merged i inc (invalidate_references h s' o) s = merged i inc h s.
Proof. unfold merged. by rewrite rings_invalidate. Qed.

Lemma rings_load_symbol i inc h s s' :
  rings i (load_symbol inc h s) !! s' =
  match latest_key inc h s with
  | Some latest => if decide (s = s') then some_nonempty (loaded_ring i inc h s latest)
                   else rings i h !! s'
  | None => rings i h !! s'
  end.
Proof.
  unfold load_symbol, latest_key. rewrite !merged_invalidate.
  destruct (max_key _) as [latest|]; [|by rewrite rings_invalidate].
  unfold loaded_ring. rewrite !rings_load_ring.
  destruct i; simpl; rewrite replace_ring_lookup, ?merged_invalidate;
    case_decide; try done; (by rewrite (rings_invalidate I1m)) ||
    (by rewrite (rings_invalidate I5m)) || (by rewrite (rings_invalidate I1d)).
Qed.

Lemma rings_ok_load_symbol inc h s : rings_ok h → incoming_ok inc → rings_ok (load_symbol inc h s).
Proof.
  intros Hh Hinc i s' r. rewrite rings_load_symbol.
  destruct (latest_key inc h s) as [latest|]; [|apply Hh].
  case_decide; [subst s'|apply Hh]. unfold some_nonempty. case_decide; [done|].
  intros [= <-]. split; [done|]. by apply ordered_filter_ok.
Qed.

Lemma rings_ok_foldl {A} (f : t → A → t) l h :
  (∀ h x, rings_ok h → rings_ok (f h x)) → rings_ok h → rings_ok (foldl f h l).
Proof. intros Hf. revert h. induction l; simpl; auto. Qed.

Lemma rings_ok_load h ps h' : rings_ok h → load h ps = Ok h' → rings_ok h'.
Proof.
  intros Hh. unfold load. case_decide; [by intros [= <-]|].
  intros (inc & Hinc & [= <-])%result_bind_ok.
  apply incoming_ok_load in Hinc; [|apply incoming_ok_empty].
  apply rings_ok_foldl; [|done]. intros. by apply rings_ok_load_symbol.
Qed.

(** ** Pruning every symbol *)

Definition prune_acc (now : Z) (acc : t * nat) (s : string) : t * nat :=
  let '(h', n) := prune_symbol acc.1 s now in (h', (acc.2 + n)%nat).

Lemma prune_unfold h now : prune h now = foldl (prune_acc now) (h, 0%nat) (elements (present h)).
Proof. done. Qed.

Lemma prune_acc_fst now acc s : (prune_acc now acc s).1 = (prune_symbol acc.1 s now).1.
Proof. unfold prune_acc. by destruct (prune_symbol _ _ _). Qed.

Lemma prune_fst h now :
  (prune h now).1 = foldl (λ h s, (prune_symbol h s now).1) h (elements (present h)).
Proof.
  rewrite prune_unfold. generalize (elements (present h)) as l, 0%nat as n. intros l.
  revert h. induction l as [|s l IH]; intros h n; [done|]. cbn [foldl].
  rewrite <- prune_acc_fst with (acc := (h, n)). destruct (prune_acc now (h, n) s). apply IH.
Qed.

Lemma rings_ok_prune h now : rings_ok h → rings_ok (prune h now).1.
Proof.
  rewrite prune_fst. apply rings_ok_foldl. intros; by apply rings_ok_prune_symbol.
Qed.

(** ** Deactivation and registration only remove rings *)

Definition rings_sub (h' h : t) : Prop := ∀ i s r, rings i h' !! s = Some r → rings i h !! s = Some r.

Lemma rings_ok_sub h h' : rings_ok h → rings_sub h' h → rings_ok h'.
Proof. intros Hh Hsub i s r Hr. by apply Hh, Hsub. Qed.

#[export] Instance rings_sub_preorder : PreOrder rings_sub.
Proof. split; [by intros ????|]. intros x y z H1 H2 i s r Hr. by apply H2, H1. Qed.

Lemma rings_sub_foldl {A} (f : t → A → t) l h :
  (∀ h x, rings_sub (f h x) h) → rings_sub (foldl f h l) h.
Proof.
  intros Hf. revert h. induction l as [|x l IH]; intros h; simpl; [done|].
  etrans; [apply IH|apply Hf].
Qed.

Lemma rings_drop i h s s' :
  rings i (drop_rings h s) !! s' = if decide (s = s') then None else rings i h !! s'.
Proof. destruct i; simpl; apply lookup_delete. Qed.

Lemma rings_sub_drop h s : rings_sub (drop_rings h s) h.
Proof. intros i s' r. rewrite rings_drop. by case_decide. Qed.

Lemma rings_drop_recipe i h s : rings i (drop_recipe h s) = rings i h.
Proof. unfold drop_recipe. case_match; [|done]. by destruct i. Qed.

Lemma rings_sub_retain h syms : rings_sub (retain_symbols h syms).1 h.
Proof.
  unfold retain_symbols. simpl. etrans.
  - apply rings_sub_foldl. intros h0 s i s' r. by rewrite rings_drop_recipe.
  - apply rings_sub_foldl, rings_sub_drop.
Qed.

Lemma register_ok h s inputs op skew prov h' :
  register_synthetic_history h s inputs op skew prov = Ok h' →
  h' = h ∨ rings_sub h' h.
Proof.
  unfold register_synthetic_history. intros (_ & H)%raise_if_bind.
  apply raise_if_bind in H as [_ H]. apply raise_if_bind in H as [_ H].
  case_decide; injection H as <-; [by left|right].
  intros i s' r. rewrite rings_invalidate. destruct i; simpl; rewrite lookup_delete; by case_decide.
Qed.

Lemma change_references_rings i h s as_of h' refs :
  change_references h s as_of = Ok (h', refs) → rings i h' = rings i h.
Proof.
  unfold change_references.
  destruct (reference_cache h !! s) as [cached|]; [destruct (decide _)|].
  - by intros [= <- _].
  - intros (refs' & _ & [= <- _])%result_bind_ok. apply rings_set_cache.
  - intros (refs' & _ & [= <- _])%result_bind_ok. apply rings_set_cache.
Qed.

(** ** Executions *)

Inductive op :=
| OpAdd (point : PricePoint)
| OpLoad (points : list PricePoint)
| OpPrune (now : Z)
| OpRetain (symbols : list string)
| OpRegister (symbol : string) (inputs : list string) (operation : string)
    (max_skew : Z) (provider : string)
| OpReferences (symbol : string) (as_of : Z).

Definition step (h : t) (o : op) : result t :=
  match o with
  | OpAdd p => add h p
  | OpLoad ps => load h ps
  | OpPrune now => Ok (prune h now).1
  | OpRetain syms => Ok (retain_symbols h syms).1
  | OpRegister s inputs op skew prov => register_synthetic_history h s inputs op skew prov
  | OpReferences s as_of => fst <$> change_references h s as_of
  end.

(** A raising call leaves the object as it was. *)
Definition step_or_stay (h : t) (o : op) : t :=
  match step h o with Ok h' => h' | Raise _ => h end.

Definition run (ops : list op) : t := foldl step_or_stay empty ops.

Lemma run_ind (P : t → Prop) :
  P empty → (∀ h o h', P h → step h o = Ok h' → P h') → ∀ ops, P (run ops).
Proof.
  intros H0 Hs ops. unfold run. generalize empty at 1 as h, H0. clear H0.
  induction ops as [|o ops IH]; intros h Hh; simpl; [done|]. apply IH.
  unfold step_or_stay. destruct (step h o) eqn:E; [by eapply Hs|done].
Qed.

Lemma rings_ok_step h o h' : rings_ok h → step h o = Ok h' → rings_ok h'.
Proof.
  intros Hh. destruct o as [p|ps|now|syms|s ins op' sk prov|s as_of]; cbn [step].
  - by apply rings_ok_add.
  - by apply rings_ok_load.
  - intros [= <-]. by apply rings_ok_prune.
  - intros [= <-]. eapply rings_ok_sub, rings_sub_retain. done.
  - intros [->|Hsub]%register_ok; [done|by eapply rings_ok_sub].
  - destruct (change_references h s as_of) as [[h1 refs]|] eqn:E; cbn; [|done].
    intros [= <-]. intros i. rewrite (change_references_rings i _ _ _ _ _ E). apply Hh.
Qed.

Lemma rings_ok_empty : rings_ok empty.
Proof. intros [] s r; simpl; by rewrite lookup_empty. Qed.

Lemma rings_ok_run ops : rings_ok (run ops).
Proof. apply run_ind; [apply rings_ok_empty|apply rings_ok_step]. Qed.
