(* ===== verification/CacheReads.v ===== *)
(** * Expiry, bulk loading and reference lookup of the history cache

    What [prune] and [load] leave in the rings, and that the references the
    live path selects ring by ring are those of the chart history. *)

From S2P Require Import Prelude PyStr PyDecimal PyTime Graph Domain Analytics Cache CacheFacts.
Import HistoryCache.

Local Open Scope string_scope.
Local Open Scope list_scope.
Local Open Scope Z_scope.

(** The points of one ring; a missing ring is an empty one. *)
Definition ring_of (i : interval) (h : t) (s : string) : ring := default [] (rings i h !! s).

Lemma ring_of_sorted i h s : rings_ok h → ssorted ts (ring_of i h s).
Proof. intros Hh. apply (rings_ok_default h i s Hh). Qed.

Lemma some_nonempty_default r : default [] (some_nonempty r) = r.
Proof. unfold some_nonempty. by case_decide. Qed.

(** ** Expiry *)

Lemma ring_of_prune_symbol i h s now s' :
  rings_ok h →
  ring_of i (prune_symbol h s now).1 s' =
  if decide (s = s') then filter (λ p, now - retention i ≤ pp_timestamp p) (ring_of i h s')
  else ring_of i h s'.
Proof.
  intros Hh. unfold ring_of. rewrite prune_symbol_rings, prune_ring_lookup.
  - case_decide; [|done]. destruct (rings i h !! s'); simpl; [|done].
    apply some_nonempty_default.
  - intros r Hr. destruct (Hh i s r Hr) as [? []]. done.
Qed.

Lemma ring_of_prune_list i l h now s :
  rings_ok h → NoDup l →
  ring_of i (foldl (λ h s, (prune_symbol h s now).1) h l) s =
  if decide (s ∈ l) then filter (λ p, now - retention i ≤ pp_timestamp p) (ring_of i h s)
  else ring_of i h s.
Proof.
  revert h. induction l as [|s' l IH]; intros h Hh Hnd.
  { by rewrite decide_False by apply not_elem_of_nil. }
  apply NoDup_cons in Hnd as [Hnin Hnd]. simpl.
  rewrite IH by (done || by apply rings_ok_prune_symbol).
  rewrite ring_of_prune_symbol by done. destruct (decide (s' = s)) as [->|Hne].
  - rewrite decide_False by done. by rewrite decide_True by (by left).
  - apply decide_ext. rewrite elem_of_cons. naive_solver.
Qed.

Lemma ring_of_absent i h s : s ∉ present h → ring_of i h s = [].
Proof.
  unfold present, ring_of. intros Hn. destruct (rings i h !! s) eqn:E; [|done].
  exfalso. apply Hn. apply elem_of_dom_2 in E. destruct i; set_solver.
Qed.

Lemma ring_of_prune i h now s :
  rings_ok h →
  ring_of i (prune h now).1 s =
  filter (λ p, now - retention i ≤ pp_timestamp p) (ring_of i h s).
Proof.
  intros Hh. rewrite prune_fst, ring_of_prune_list by (done || apply NoDup_elements).
  case_decide as Hs; [done|]. rewrite elem_of_elements in Hs. by rewrite ring_of_absent.
Qed.

(** ** Bulk loading *)

Lemma max_key_spec l m : max_key l = Some m → m ∈ l ∧ ∀ x, x ∈ l → x ≤ m.
Proof.
  destruct l as [|x l]; [done|]. cbn [max_key]. intros [= <-]. revert x.
  induction l as [|y l IH]; intros x; simpl.
  - split; [by left|]. by intros z ->%list_elem_of_singleton.
  - destruct (IH (Z.max x y)) as [Hin Hmax]. split.
    + apply elem_of_cons in Hin as [Hin|Hin]; [|by do 2 right].
      destruct (Z.max_dec x y) as [E|E]; rewrite E in Hin |- *; rewrite Hin;
        [by left|by right; left].
    + pose proof (Hmax (Z.max x y) ltac:(by left)).
      intros z [->|[->|Hz]%elem_of_cons]%elem_of_cons; [lia..|]. apply Hmax. by right.
Qed.

Lemma max_key_none l : max_key l = None → l = [].
Proof. by destruct l. Qed.

Lemma elem_of_merged_keys i inc h s k :
  k ∈ (map_to_list (merged i inc h s)).*1 ↔ is_Some (merged i inc h s !! k).
Proof.
  rewrite list_elem_of_fmap. split.
  - intros ([k' p] & -> & Hin). apply elem_of_map_to_list in Hin. eauto.
  - intros [p Hp]. exists (k, p). by rewrite elem_of_map_to_list.
Qed.

Lemma latest_key_spec inc h s latest :
  latest_key inc h s = Some latest →
  (∃ i, is_Some (merged i inc h s !! latest)) ∧
  ∀ i k, is_Some (merged i inc h s !! k) → k ≤ latest.
Proof.
  unfold latest_key. intros [Hin Hmax]%max_key_spec. split.
  - rewrite !elem_of_app, !elem_of_merged_keys in Hin. destruct Hin as [|[|]]; eauto.
  - intros i k Hk. apply Hmax. rewrite !elem_of_app, !elem_of_merged_keys.
    destruct i; auto.
Qed.

Lemma latest_key_none inc h s i :
  latest_key inc h s = None → merged i inc h s = ∅.
Proof.
  unfold latest_key. intros H%max_key_none. apply map_eq. intros k. rewrite lookup_empty.
  destruct (merged i inc h s !! k) as [p|] eqn:E; [|done]. exfalso.
  assert (k ∈ (map_to_list (merged i inc h s)).*1) as Hk
    by (apply elem_of_merged_keys; eauto).
  apply app_nil in H as [H1 [H5 Hd]%app_nil].
  destruct i; [rewrite H1 in Hk|rewrite H5 in Hk|rewrite Hd in Hk]; by apply elem_of_nil in Hk.
Qed.

Lemma merged_ext i inc h h' s :
  rings i h !! s = rings i h' !! s → merged i inc h s = merged i inc h' s.
Proof. unfold merged. by intros ->. Qed.

Lemma rings_load_list inc l h s i :
  NoDup l →
  rings i (foldl (load_symbol inc) h l) !! s =
  if decide (s ∈ l) then rings i (load_symbol inc h s) !! s else rings i h !! s.
Proof.
  revert h. induction l as [|s' l IH]; intros h Hnd.
  { by rewrite decide_False by apply not_elem_of_nil. }
  apply NoDup_cons in Hnd as [Hnin Hnd]. simpl. rewrite IH by done.
  destruct (decide (s' = s)) as [->|Hne].
  - rewrite decide_False by done. by rewrite decide_True by (by left).
  - assert (Hsame : ∀ j, rings j (load_symbol inc h s') !! s = rings j h !! s).
    { intros j. rewrite rings_load_symbol. destruct (latest_key inc h _); [by rewrite decide_False|done]. }
    assert (Hload : rings i (load_symbol inc (load_symbol inc h s') s) !! s =
                    rings i (load_symbol inc h s) !! s).
    { rewrite (rings_load_symbol i inc h s s), (rings_load_symbol i inc (load_symbol inc h s') s s).
      unfold loaded_ring.
      assert (latest_key inc (load_symbol inc h s') s = latest_key inc h s) as ->.
      { unfold latest_key. by rewrite !(λ j, merged_ext j inc _ h s (Hsame j)). }
      rewrite (merged_ext i inc (load_symbol inc h s') h s) by apply Hsame.
      destruct (latest_key inc h s); [by rewrite !decide_True|]. apply Hsame. }
    rewrite Hload, Hsame. apply decide_ext. rewrite elem_of_cons. naive_solver.
Qed.

(** The key a point is filed under in the ring of its own interval. *)
Definition own_ring (p : PricePoint) : interval :=
  if decide (pp_interval p = "1d") then I1d
  else if decide (pp_interval p = "1m") then I1m else I5m.

Definition own_key (p : PricePoint) : Z :=
  match own_ring p with
  | I1d => pp_timestamp p
  | I1m => bucket (pp_timestamp p) 1
  | I5m => bucket (pp_timestamp p) 5
  end.

Definition filed (inc : incoming) (i : interval) (s : string) (k : Z) : Prop :=
  ∃ m, inc i !! s = Some m ∧ is_Some (m !! k).

Lemma filed_set inc i s k p : filed (incoming_set i s k p inc) i s k.
Proof.
  unfold filed. rewrite incoming_set_lookup, decide_True by done.
  eexists; split; [done|]. rewrite lookup_insert_eq. eauto.
Qed.

Lemma filed_mono inc i s k j s' k' p :
  filed inc i s k → filed (incoming_set j s' k' p inc) i s k.
Proof.
  intros (m & Hm & Hk). unfold filed. rewrite incoming_set_lookup.
  case_decide as H; [|eauto]. destruct H as [-> ->]. eexists; split; [done|].
  rewrite Hm. simpl. rewrite lookup_insert. case_decide; eauto.
Qed.

Lemma load_point_filed inc p inc' :
  load_point inc p = Ok inc' →
  filed inc' (own_ring p) (pp_symbol p) (own_key p) ∧
  ∀ i s k, filed inc i s k → filed inc' i s k.
Proof.
  unfold load_point, own_key, own_ring. case_decide as H1d.
  { intros [= <-]. split; [apply filed_set|]. intros; by apply filed_mono. }
  intros (inc1 & H1 & [= <-])%result_bind_ok. case_decide as H1m.
  - injection H1 as <-. split.
    + apply filed_mono, filed_set.
    + intros. by apply filed_mono, filed_mono.
  - apply raise_if_bind in H1 as [_ [= <-]]. split; [apply filed_set|].
    intros; by apply filed_mono.
Qed.

Lemma load_incoming_filed inc ps inc' :
  load_incoming inc ps = Ok inc' →
  (∀ i s k, filed inc i s k → filed inc' i s k) ∧
  ∀ p, p ∈ ps → filed inc' (own_ring p) (pp_symbol p) (own_key p).
Proof.
  revert inc. induction ps as [|p ps IH]; intros inc; simpl.
  { intros [= <-]. split; [done|]. by intros p ?%elem_of_nil. }
  intros (inc1 & [Hp Hm]%load_point_filed & [Hm' Hps]%IH)%result_bind_ok.
  split; [auto|]. intros q [->|Hq]%elem_of_cons; auto.
Qed.

Lemma elem_of_loaded_ring i inc h s latest p :
  p ∈ loaded_ring i inc h s latest ↔
  ∃ k, merged i inc h s !! k = Some p ∧ latest - retention i ≤ k.
Proof.
  unfold loaded_ring. rewrite elem_of_ordered_values.
  setoid_rewrite map_lookup_filter_Some. done.
Qed.

Lemma merged_own i inc h s p :
  rings_ok h → p ∈ ring_of i h s → merged i inc h s !! ts p = Some p.
Proof.
  intros Hh Hp. rewrite merged_lookup.
  assert (dict_of ts (ring_of i h s) !! ts p = Some p) as E
    by (apply (dict_of_lookup_sorted ts); [by apply ring_of_sorted|done]).
  unfold ring_of in E. by rewrite E.
Qed.

Lemma merged_filed i inc h s k :
  rings_ok h → filed inc i s k → is_Some (merged i inc h s !! k).
Proof.
  intros Hh (m & Hm & Hk). rewrite merged_lookup. case_match; [eauto|]. by rewrite Hm.
Qed.

(** What [load] leaves of one symbol: a merge cut at the newest point, or,
    when the call brought nothing for the symbol, what was there. *)
Definition loaded_or_same (inc : incoming) (h h' : t) (s : string) : Prop :=
  (∃ latest, latest_key inc h s = Some latest ∧
     ∀ i, ring_of i h' s = loaded_ring i inc h s latest) ∨
  (∀ i, ring_of i h' s = ring_of i h s ∧ ∀ k, ¬ filed inc i s k).

Lemma load_spec h ps h' :
  rings_ok h → load h ps = Ok h' →
  ∃ inc, incoming_ok inc ∧ (∀ p, p ∈ ps → filed inc (own_ring p) (pp_symbol p) (own_key p)) ∧
    ∀ s, loaded_or_same inc h h' s.
Proof.
  intros Hh. unfold load. case_decide as Hps.
  { intros [= <-]. subst ps. exists incoming_empty. split; [apply incoming_ok_empty|].
    split; [by intros ? ?%elem_of_nil|]. intros s. right. intros i. split; [done|].
    by intros k (m & Hm & _). }
  intros (inc & Hinc & [= <-])%result_bind_ok. exists inc.
  split; [by eapply incoming_ok_load; [apply incoming_ok_empty|]|].
  apply load_incoming_filed in Hinc as [_ Hfiled].
  split; [intros p Hp; by apply Hfiled, elem_of_sort_by|]. intros s.
  set (syms := dom (inc I1m) ∪ dom (inc I5m) ∪ dom (inc I1d)).
  assert (Hring : ∀ i, ring_of i (foldl (load_symbol inc) h (elements syms)) s =
    if decide (s ∈ syms) then ring_of i (load_symbol inc h s) s else ring_of i h s).
  { intros i. unfold ring_of. rewrite rings_load_list by apply NoDup_elements.
    destruct (decide (s ∈ syms)); [rewrite decide_True|rewrite decide_False];
      try done; by rewrite elem_of_elements. }
  destruct (decide (s ∈ syms)) as [Hs|Hs].
  - destruct (latest_key inc h s) as [latest|] eqn:Hl; [left; exists latest|right].
    + split; [done|]. intros i. rewrite Hring. unfold ring_of.
      by rewrite rings_load_symbol, Hl, decide_True, some_nonempty_default.
    + intros i. rewrite Hring. unfold ring_of. rewrite rings_load_symbol, Hl. split; [done|].
      intros k Hk. apply (merged_filed _ _ h) in Hk as [p Hp]; [|done].
      by rewrite (latest_key_none _ _ _ _ Hl), lookup_empty in Hp.
  - right. intros i. rewrite Hring. split; [done|]. intros k (m & Hm & _). apply Hs.
    apply elem_of_dom_2 in Hm. unfold syms. destruct i; set_solver.
Qed.

(** The newest merged point survives the cut and dates it. *)
Lemma loaded_newest inc h h' s latest :
  rings_ok h → incoming_ok inc → latest_key inc h s = Some latest →
  (∀ i, ring_of i h' s = loaded_ring i inc h s latest) →
  ∃ j q, q ∈ ring_of j h' s ∧ ts q = latest.
Proof.
  intros Hh Hinc [[j [q Hq]] _]%latest_key_spec Hr. exists j, q. rewrite Hr.
  split; [|by eapply merged_ok in Hq as (-> & _)].
  apply elem_of_loaded_ring. exists latest. split; [done|].
  assert (0 ≤ retention j) by (destruct j; done). lia.
Qed.

Lemma loaded_or_expired inc h h' s i k p :
  rings_ok h → incoming_ok inc → loaded_or_same inc h h' s →
  merged i inc h s !! k = Some p →
  p ∈ ring_of i h' s ∨ ∃ j q, q ∈ ring_of j h' s ∧ retention i < ts q - k.
Proof.
  intros Hh Hinc [(latest & Hl & Hr)|Hsame] Hk.
  - destruct (decide (latest - retention i ≤ k)).
    + left. rewrite Hr. apply elem_of_loaded_ring. eauto.
    + right. destruct (loaded_newest inc h h' s latest) as (j & q & Hq & Hts); [done..|].
      exists j, q. split; [done|]. lia.
  - left. destruct (Hsame i) as [-> Hn]. rewrite merged_lookup in Hk.
    fold (ring_of i h s) in Hk. destruct (dict_of ts (ring_of i h s) !! k) as [q|] eqn:E.
    + injection Hk as <-. pose proof (dict_of_key _ _ _ _ E) as <-.
      apply (dict_of_lookup_sorted ts) in E; [done|]. by apply ring_of_sorted.
    + exfalso. destruct (inc i !! s) as [m|] eqn:Em; [|done]. apply (Hn k).
      exists m. split; [done|]. eauto.
Qed.

(** ** Reading *)

Lemma overlay_latest newer merged cutoff :
  ssorted ts newer →
  latest_at_or_before cutoff (overlay newer merged) =
  if starts_by cutoff (Some newer) then latest_at_or_before cutoff newer
  else latest_at_or_before cutoff merged.
Proof.
  intros Hs. rewrite !latest_at_or_before_last. destruct newer as [|first newer]; [done|].
  cbn [overlay starts_by]. rewrite last_filter_app. case_bool_decide as Hf.
  - destruct (last (filter _ (first :: newer))) eqn:E; [done|].
    apply last_None in E. rewrite filter_cons_True in E by done. done.
  - rewrite (filter_none _ (first :: newer)), list_filter_filter.
    + simpl. f_equal. apply list_filter_iff. unfold ts in *. lia.
    + apply StronglySorted_inv in Hs as [_ Hall]. rewrite Forall_forall in Hall.
      intros x [->|Hx]%elem_of_cons; [done|]. specialize (Hall x Hx). unfold ts in *. lia.
Qed.

Lemma overlay_sorted newer merged :
  ssorted ts newer → ssorted ts merged → ssorted ts (overlay newer merged).
Proof.
  intros Hn Hm. destruct newer as [|first newer]; [done|]. apply ssorted_app.
  split_and!; [by apply ssorted_filter|done|].
  intros x y [Hx _]%list_elem_of_filter Hy. apply StronglySorted_inv in Hn as [_ Hall].
  rewrite Forall_forall in Hall. apply elem_of_cons in Hy as [->|Hy]; [done|].
  specialize (Hall y Hy). unfold ts in *. lia.
Qed.

Lemma points_overlay h s :
  points h s = overlay (ring_of I1m h s) (overlay (ring_of I5m h s) (ring_of I1d h s)).
Proof. done. Qed.

Lemma points_sorted h s : rings_ok h → ssorted ts (points h s).
Proof.
  intros Hh. apply overlay_sorted; [by apply (ring_of_sorted I1m)|].
  apply overlay_sorted; [by apply (ring_of_sorted I5m)|by apply (ring_of_sorted I1d)].
Qed.

Lemma latest_in_ring i h s cutoff :
  latest_in (rings i h !! s) cutoff = latest_at_or_before cutoff (ring_of i h s).
Proof. unfold ring_of. by destruct (rings i h !! s) as [[]|]. Qed.

Lemma starts_by_ring i h s cutoff :
  starts_by cutoff (rings i h !! s) = starts_by cutoff (Some (ring_of i h s)).
Proof. unfold ring_of. by destruct (rings i h !! s). Qed.

(** Reading ring by ring finds the latest chart point before a cutoff. *)
Lemma reference_at_points h s cutoff :
  rings_ok h → synthetic_recipes h !! s = None →
  reference_at h s cutoff = Ok (latest_at_or_before cutoff (points h s)).
Proof.
  intros Hh Hr. unfold reference_at. rewrite Hr.
  change (one_minute h) with (rings I1m h). change (five_minute h) with (rings I5m h).
  change (daily h) with (rings I1d h). rewrite !latest_in_ring, !starts_by_ring.
  rewrite points_overlay, overlay_latest by (by apply (ring_of_sorted I1m)).
  destruct (starts_by cutoff _); [done|].
  rewrite overlay_latest by (by apply (ring_of_sorted I5m)). by destruct (starts_by cutoff _).
Qed.

Lemma map_result_pure {A B} (f : A → result B) (g : A → B) l :
  (∀ x, x ∈ l → f x = Ok (g x)) → map_result f l = Ok (g <$> l).
Proof.
  intros Hf. rewrite (map_result_ext f (λ x, Ok (g x))) by done. clear.
  induction l as [|x l IH]; simpl; [done|]. by rewrite IH.
Qed.

Lemma fresh_references_points h s as_of :
  rings_ok h → synthetic_recipes h !! s = None →
  fresh_references h s as_of =
  Ok ((λ w : string * Z, (w.1, latest_at_or_before (as_of - w.2) (points h s))) <$> WINDOWS).
Proof.
  intros Hh Hr. apply map_result_pure. intros w _. by rewrite reference_at_points.
Qed.

Lemma assoc_get_windows (f : string * Z → option PricePoint) w :
  w ∈ WINDOWS → assoc_get w.1 ((λ w, (w.1, f w)) <$> WINDOWS) = Some (f w).
Proof.
  unfold WINDOWS. rewrite !elem_of_cons, elem_of_nil. intros H. destruct_or?; by subst.
Qed.

(** The changes over fresh references are those over the chart history. *)
Lemma fresh_changes h s as_of price :
  rings_ok h → synthetic_recipes h !! s = None →
  ∃ refs, fresh_references h s as_of = Ok refs ∧
    calculate_changes_from_references price refs = calculate_changes price as_of (points h s).
Proof.
  intros Hh Hr. eexists. split; [by apply fresh_references_points|].
  symmetry. apply calculate_changes_by_reference; [by apply points_sorted|].
  intros w Hw. by rewrite (assoc_get_windows (λ w, latest_at_or_before (as_of - w.2) _)).
Qed.

(** A reading of BTC at minute [m] of the epoch, for the concrete runs below. *)
Definition demo_point (m price : Z) (interval : string) : PricePoint :=
  {| pp_symbol := "BTC"; pp_timestamp := minutes m; pp_price := dint price;
     pp_provider := "demo"; pp_is_derived := false; pp_interval := interval |}.

(** ** Properties *)

(** C38: whatever sequence of [add], [load], [prune], [retain_symbols],
    [register_synthetic_history] and [change_references] calls the cache has
    served, every stored ring is non-empty, strictly ordered by timestamp (one
    point per bucket), aligned to its bucket width and holds only points of its
    own symbol. *)
Theorem rings_well_formed (ops : list op) (i : interval) (s : string) (r : ring) :
  rings i (run ops) !! s = Some r →
  r ≠ [] ∧ ssorted pp_timestamp r ∧
  ∀ p, p ∈ r → aligned i (pp_timestamp p) ∧ pp_symbol p = s.
Proof. intros Hr. destruct (rings_ok_run ops i s r Hr) as [? [? ?]]. done. Qed.

Lemma rings_well_formed_witness :
  let h := run [OpAdd (demo_point 7 5 "1m"); OpAdd (demo_point 3 4 "1m"); OpPrune 0] in
  match rings I5m h !! "BTC" with
  | Some r => length r = 2%nat ∧ ssorted pp_timestamp r
  | None => False
  end.
Proof.
  cbv zeta. destruct (rings I5m _ !! "BTC") as [r|] eqn:E; [|vm_compute in E; discriminate].
  split; [vm_compute in E; by injection E as <-|].
  apply (rings_well_formed _ _ _ _ E).
Defined.

(** A bulk backfill never loses or overwrites what the cache holds: each
    point already in a ring is still there, and each loaded point's bucket is
    occupied, unless it is older than the newest remaining point of the symbol
    by more than the retention of its ring. *)
Theorem load_merges (ops : list op) (ps : list PricePoint) (h' : t) :
  load (run ops) ps = Ok h' →
  (∀ i s p, p ∈ ring_of i (run ops) s →
     p ∈ ring_of i h' s ∨
     ∃ j q, q ∈ ring_of j h' s ∧ retention i < pp_timestamp q - pp_timestamp p) ∧
  (∀ p, p ∈ ps →
     (∃ q, q ∈ ring_of (own_ring p) h' (pp_symbol p) ∧ pp_timestamp q = own_key p) ∨
     ∃ j q, q ∈ ring_of j h' (pp_symbol p) ∧
       retention (own_ring p) < pp_timestamp q - own_key p).
Proof.
  pose proof (rings_ok_run ops) as Hh.
  intros (inc & Hinc & Hfiled & Hsame)%load_spec; [|done]. split.
  - intros i s p Hp. eapply loaded_or_expired; [done..|]. by apply merged_own.
  - intros p Hp. destruct (merged_filed _ inc (run ops) _ _ Hh (Hfiled p Hp)) as [q Hq].
    pose proof Hq as (Hk & _ & _)%merged_ok; [|done..].
    destruct (loaded_or_expired inc (run ops) h' _ _ _ _ Hh Hinc (Hsame _) Hq); [left|by right].
    by exists q.
Qed.

Lemma load_merges_witness :
  match load (run [OpAdd (demo_point 7 5 "1m")]) [demo_point 7 9 "1m"; demo_point 2 8 "1d"] with
  | Ok h' => ∀ i s p, p ∈ ring_of i (run [OpAdd (demo_point 7 5 "1m")]) s →
      p ∈ ring_of i h' s ∨
      ∃ j q, q ∈ ring_of j h' s ∧ retention i < pp_timestamp q - pp_timestamp p
  | Raise _ => False
  end.
Proof.
  destruct (load _ _) as [h'|e] eqn:E; [|vm_compute in E; discriminate].
  apply (load_merges _ _ _ E).
Defined.

(** [prune] at an instant keeps, in every ring of every symbol, exactly
    the points within that ring's retention of the instant. *)
Theorem prune_exact (ops : list op) (now : Z) (i : interval) (s : string) :
  ring_of i (prune (run ops) now).1 s =
  filter (λ p, now - retention i ≤ pp_timestamp p) (ring_of i (run ops) s).
Proof. apply ring_of_prune, rings_ok_run. Qed.

(** C16: for a symbol without a synthetic recipe, the rolling changes computed
    from the references a cache miss selects ring by ring are those
    [calculate_changes] computes over the whole chart history. *)
Theorem live_changes_agree (ops : list op) (s : string) (as_of : Z) (price : decimal_input) :
  synthetic_recipes (run ops) !! s = None → reference_cache (run ops) !! s = None →
  ∃ h' refs, change_references (run ops) s as_of = Ok (h', refs) ∧
    (∀ i, rings i h' = rings i (run ops)) ∧
    calculate_changes_from_references price refs =
    calculate_changes price as_of (points (run ops) s).
Proof.
  intros Hr Hc. destruct (fresh_changes (run ops) s as_of price (rings_ok_run ops) Hr)
    as (refs & Hrefs & Heq).
  unfold change_references. rewrite Hc, Hrefs. cbn [mbind result_bind].
  do 2 eexists. split; [done|]. split; [|done]. intros i. apply rings_set_cache.
Qed.

Lemma live_changes_agree_witness :
  ∃ h' refs,
    change_references (run [OpAdd (demo_point 7 5 "1m")]) "BTC" (minutes 70) = Ok (h', refs) ∧
    (∀ i, rings i h' = rings i (run [OpAdd (demo_point 7 5 "1m")])) ∧
    calculate_changes_from_references (DFinite (dint 6)) refs =
    calculate_changes (DFinite (dint 6)) (minutes 70)
      (points (run [OpAdd (demo_point 7 5 "1m")]) "BTC").
Proof.
  apply (live_changes_agree [OpAdd (demo_point 7 5 "1m")] "BTC" (minutes 70) (DFinite (dint 6)));
    vm_compute; reflexivity.
Defined.
