(* ===== verification/CacheSynthetic.v ===== *)
(** * Virtual synthetic histories: recipes, dependents and invalidation

    The recipe graph stays acyclic, the dependents index is its inverse, an
    observation invalidates the cached references of every transitive
    dependent, and deactivation keeps the inputs of what it retains. *)

From S2P Require Import Prelude PyStr PyDecimal PyTime Graph Domain Analytics Cache CacheFacts.
From S2P Require Import CacheReads.
Import HistoryCache.

Local Open Scope string_scope.
Local Open Scope list_scope.
Local Open Scope Z_scope.

(** ** The dependents index *)

Definition dependents_of (deps : gmap string (gset string)) (x : string) : gset string :=
  default ∅ (deps !! x).

Lemma elem_of_add_dependents s ins deps x d :
  d ∈ dependents_of (foldl (add_dependent s) deps ins) x ↔
  d ∈ dependents_of deps x ∨ d = s ∧ x ∈ ins.
Proof.
  revert deps. induction ins as [|i ins IH]; intros deps; simpl.
  { rewrite elem_of_nil. naive_solver. }
  rewrite IH. unfold dependents_of, add_dependent. rewrite elem_of_cons.
  destruct (decide (x = i)) as [->|].
  - rewrite lookup_insert_eq. simpl. set_solver.
  - rewrite lookup_insert_ne by done. naive_solver.
Qed.

Lemma elem_of_discard_dependents s ins deps x d :
  d ∈ dependents_of (foldl (discard_dependent s) deps ins) x ↔
  d ∈ dependents_of deps x ∧ ¬ (d = s ∧ x ∈ ins).
Proof.
  revert deps. induction ins as [|i ins IH]; intros deps; simpl.
  { rewrite elem_of_nil. naive_solver. }
  rewrite IH. unfold dependents_of, discard_dependent. rewrite elem_of_cons.
  destruct (decide (x = i)) as [->|].
  - rewrite lookup_insert_eq. simpl. set_solver.
  - rewrite lookup_insert_ne by done. naive_solver.
Qed.

Lemma dependents_forget s deps i x :
  dependents_of (forget_dependent s deps i) x =
  if decide (x = i) then dependents_of deps x ∖ {[s]} else dependents_of deps x.
Proof.
  unfold forget_dependent, dependents_of. destruct (decide (x = i)) as [->|Hne].
  - destruct (deps !! i) as [ds|] eqn:E; simpl; [|rewrite E; simpl; set_solver].
    case_decide as Hd; [rewrite lookup_delete_eq; simpl; by rewrite Hd|].
    by rewrite lookup_insert_eq.
  - destruct (deps !! i); [|done]. case_decide;
      [by rewrite lookup_delete_ne|by rewrite lookup_insert_ne].
Qed.

Lemma elem_of_forget_dependents s ins deps x d :
  d ∈ dependents_of (foldl (forget_dependent s) deps ins) x ↔
  d ∈ dependents_of deps x ∧ ¬ (d = s ∧ x ∈ ins).
Proof.
  revert deps. induction ins as [|i ins IH]; intros deps; simpl.
  { rewrite elem_of_nil. naive_solver. }
  rewrite IH, dependents_forget, elem_of_cons. destruct (decide (x = i)); set_solver.
Qed.

(** ** The graph invariant *)

Definition graph_ok (h : t) : Prop :=
  acyclic (recipe_inputs (synthetic_recipes h)) ∧
  ∀ x d, d ∈ dependents_of (synthetic_dependents h) x ↔
         x ∈ recipe_inputs (synthetic_recipes h) d.

Definition same_graph (h h' : t) : Prop :=
  synthetic_recipes h' = synthetic_recipes h ∧
  synthetic_dependents h' = synthetic_dependents h.

#[export] Instance same_graph_preorder : PreOrder same_graph.
Proof. split; [done|]. intros x y z [] []. split; by etrans. Qed.

Lemma graph_ok_same h h' : same_graph h h' → graph_ok h → graph_ok h'.
Proof. unfold graph_ok. by intros [-> ->]. Qed.

Lemma same_graph_foldl {A} (f : t → A → t) l h :
  (∀ h x, same_graph h (f h x)) → same_graph h (foldl f h l).
Proof.
  intros Hf. revert h. induction l as [|x l IH]; intros h; simpl; [done|].
  etrans; [apply Hf|apply IH].
Qed.

Lemma same_graph_rings i m h : same_graph h (set_rings i m h).
Proof. done. Qed.

Lemma same_graph_prune_symbol h s now : same_graph h (prune_symbol h s now).1.
Proof.
  unfold prune_symbol. repeat destruct (prune_ring _ _ _). simpl. by case_decide.
Qed.

Lemma same_graph_add h p h' : add h p = Ok h' → same_graph h h'.
Proof.
  unfold add. intros (h1 & H1 & [= <-])%result_bind_ok.
  etrans; [|apply (same_graph_prune_symbol h1)].
  repeat case_decide; by simplify_eq.
Qed.

Lemma same_graph_load_symbol inc h s : same_graph h (load_symbol inc h s).
Proof. unfold load_symbol. by destruct (max_key _). Qed.

Lemma same_graph_load h ps h' : load h ps = Ok h' → same_graph h h'.
Proof.
  unfold load. case_decide; [by intros [= <-]|]. intros (inc & _ & [= <-])%result_bind_ok.
  apply same_graph_foldl, same_graph_load_symbol.
Qed.

Lemma same_graph_references h s as_of h' refs :
  change_references h s as_of = Ok (h', refs) → same_graph h h'.
Proof.
  unfold change_references.
  destruct (reference_cache h !! s) as [cached|]; [destruct (decide _)|].
  - by intros [= <- _].
  - by intros (refs' & _ & [= <- _])%result_bind_ok.
  - by intros (refs' & _ & [= <- _])%result_bind_ok.
Qed.

Lemma same_graph_invalidate h s o : same_graph h (invalidate_references h s o).
Proof. done. Qed.

Lemma same_graph_prune h now : same_graph h (prune h now).1.
Proof. rewrite prune_fst. apply same_graph_foldl. intros. apply same_graph_prune_symbol. Qed.

Lemma graph_ok_drop_recipe h s : graph_ok h → graph_ok (drop_recipe h s).
Proof.
  intros [Ha Hd]. unfold drop_recipe. destruct (synthetic_recipes h !! s) as [r|] eqn:Hr; [|done].
  unfold graph_ok. simpl.
  assert (Hin : ∀ d, recipe_inputs (delete s (synthetic_recipes h)) d =
    if decide (d = s) then [] else recipe_inputs (synthetic_recipes h) d).
  { intros d. unfold recipe_inputs. case_decide as Hds; [subst; by rewrite lookup_delete_eq|].
    by rewrite lookup_delete_ne. }
  split.
  - eapply acyclic_mono, Ha. intros x y. rewrite Hin. case_decide; [set_solver|done].
  - intros x d. rewrite elem_of_forget_dependents, Hd, Hin. destruct (decide (d = s)) as [->|].
    + unfold recipe_inputs at 1. rewrite Hr. set_solver.
    + naive_solver.
Qed.

Lemma graph_ok_foldl {A} (f : t → A → t) l h :
  (∀ h x, graph_ok h → graph_ok (f h x)) → graph_ok h → graph_ok (foldl f h l).
Proof. intros Hf. revert h. induction l; simpl; auto. Qed.

Lemma graph_ok_retain h syms : graph_ok h → graph_ok (retain_symbols h syms).1.
Proof.
  intros Hh. unfold retain_symbols. simpl.
  apply graph_ok_foldl; [by intros; apply graph_ok_drop_recipe|].
  apply graph_ok_foldl; [|done]. intros h0 s. by apply graph_ok_same.
Qed.

Lemma recipe_inputs_cover recipes : covers (recipe_inputs recipes) (dom recipes).
Proof. intros x Hx. unfold recipe_inputs. by apply not_elem_of_dom in Hx as ->. Qed.

(** What a successful registration has checked and stored. *)
Lemma register_graph h s ins op skew prov h' :
  register_synthetic_history h s ins op skew prov = Ok h' →
  (op = "inverse" ∧ length ins = 1%nat ∨ op ∈ ["multiply"; "divide"] ∧ length ins = 2%nat) ∧
  0 ≤ skew ∧
  (∀ i, i ∈ ins → ¬ rtc (edge (recipe_inputs (synthetic_recipes h))) i s) ∧
  synthetic_recipes h' =
    <[s := {| rc_inputs := ins; rc_operation := op; rc_max_skew := skew; rc_provider := prov |}]>
      (synthetic_recipes h) ∧
  (h' = h ∨ ∀ x d, d ∈ dependents_of (synthetic_dependents h') x ↔
    (d ∈ dependents_of (synthetic_dependents h) x ∧
     ¬ (d = s ∧ x ∈ recipe_inputs (synthetic_recipes h) s)) ∨ d = s ∧ x ∈ ins).
Proof.
  unfold register_synthetic_history. intros (Hop%bool_decide_eq_false & H)%raise_if_bind.
  apply raise_if_bind in H as [Hsk%bool_decide_eq_false H].
  apply raise_if_bind in H as [Hreach H].
  split.
  { destruct (decide (op = "inverse")) as [->|Hne]; [left; split; [done|lia]|right].
    apply Decidable.not_or in Hop as [Hin Hlen]. split; [|lia].
    destruct (decide (op ∈ ["inverse"; "multiply"; "divide"])) as [Hin'|]; [set_solver|done]. }
  split; [lia|]. split.
  { intros i Hi Hr. apply not_true_iff_false in Hreach. apply Hreach, existsb_exists.
    exists i. split; [by apply list_elem_of_In|].
    apply (reaches_iff _ (dom (synthetic_recipes h))); [apply recipe_inputs_cover| |done].
    unfold fuel_for. lia. }
  case_decide as Hsame; injection H as <-; [split; [by rewrite insert_id|by left]|].
  split; [done|right]. intros x d. simpl. rewrite elem_of_add_dependents. f_equiv.
  unfold recipe_inputs. destruct (synthetic_recipes h !! s) as [cur|].
  - apply elem_of_discard_dependents.
  - set_solver.
Qed.

Lemma recipe_inputs_insert recipes s r d :
  recipe_inputs (<[s := r]> recipes) d =
  if decide (d = s) then rc_inputs r else recipe_inputs recipes d.
Proof.
  unfold recipe_inputs. case_decide; [subst; by rewrite lookup_insert_eq|].
  by rewrite lookup_insert_ne.
Qed.

Lemma graph_ok_register h s ins op skew prov h' :
  graph_ok h → register_synthetic_history h s ins op skew prov = Ok h' → graph_ok h'.
Proof.
  intros [Ha Hd] (_ & _ & Hnew & Hrec & Hdep)%register_graph. split.
  - rewrite Hrec. eapply (acyclic_replace _ _ s); [| |exact Ha].
    + intros x Hx. rewrite recipe_inputs_insert. by rewrite decide_False.
    + intros i. rewrite recipe_inputs_insert, decide_True by done. apply Hnew.
  - destruct Hdep as [->|Hdep]; [done|]. intros x d.
    rewrite Hdep, Hd, Hrec, recipe_inputs_insert. simpl.
    destruct (decide (d = s)) as [->|]; naive_solver.
Qed.

Lemma graph_ok_step h o h' : graph_ok h → step h o = Ok h' → graph_ok h'.
Proof.
  intros Hh. destruct o as [p|ps|now|syms|s ins op' sk prov|s as_of]; cbn [step].
  - intros ?%same_graph_add. by eapply graph_ok_same.
  - intros ?%same_graph_load. by eapply graph_ok_same.
  - intros [= <-]. by eapply graph_ok_same, Hh; apply same_graph_prune.
  - intros [= <-]. by apply graph_ok_retain.
  - by apply graph_ok_register.
  - destruct (change_references h s as_of) as [[h1 refs]|] eqn:E; cbn; [|done].
    intros [= <-]. by eapply graph_ok_same, Hh; eapply same_graph_references.
Qed.

Lemma graph_ok_run ops : graph_ok (run ops).
Proof.
  apply run_ind; [|apply graph_ok_step]. split.
  - by intros x y ?%elem_of_nil.
  - intros x d. unfold recipe_inputs, dependents_of; simpl.
    rewrite !lookup_empty. simpl. set_solver.
Qed.

(** ** Invalidation *)

Definition dependent_list (deps : gmap string (gset string)) (x : string) : list string :=
  elements (dependents_of deps x).

Lemma dependent_list_cover deps : covers (dependent_list deps) (dom deps).
Proof.
  intros x Hx. unfold dependent_list, dependents_of. apply not_elem_of_dom in Hx as ->. done.
Qed.

(** The invalidation visits what a plain traversal visits, and drops the
    qualifying entries of exactly the newly visited symbols. *)
Lemma invalidate_rec_spec f deps o cache v x :
  let '(cache', v') := invalidate_rec f deps o (cache, v) x in
  v' = walk (dependent_list deps) f v x ∧ v ⊆ v' ∧
  ∀ y, cache' !! y = if decide (y ∈ v' ∧ y ∉ v ∧ must_drop cache o y = true) then None
                     else cache !! y.
Proof.
  revert cache v x. induction f as [|f IH]; intros cache v x; simpl.
  { split_and!; [done|done|]. intros y. case_decide; [tauto|done]. }
  case_decide as Hx; [split_and!; [done|done|]; intros y; case_decide; [tauto|done]|].
  assert (Hfold : ∀ l cache v,
    let '(cache', v') := foldl (invalidate_rec f deps o) (cache, v) l in
    v' = foldl (walk (dependent_list deps) f) v l ∧ v ⊆ v' ∧
    ∀ y, cache' !! y = if decide (y ∈ v' ∧ y ∉ v ∧ must_drop cache o y = true) then None
                       else cache !! y).
  { clear cache v x Hx. induction l as [|x l IHl]; intros cache v; simpl.
    { split_and!; [done|done|]. intros y. case_decide; [tauto|done]. }
    specialize (IH cache v x). destruct (invalidate_rec f deps o (cache, v) x) as [c1 v1].
    destruct IH as (-> & Hv1 & Hc1). set (v1 := walk _ f v x) in *.
    specialize (IHl c1 v1). destruct (foldl _ (c1, v1) l) as [c2 v2].
    destruct IHl as (-> & Hv2 & Hc2). set (v2 := foldl _ v1 l) in *.
    split_and!; [done|set_solver|]. intros y. rewrite Hc2. 
    assert (Hmd : y ∉ v1 → must_drop c1 o y = must_drop cache o y).
    { intros Hy. unfold must_drop. rewrite Hc1. by rewrite decide_False by tauto. }
    rewrite Hc1. destruct (decide (y ∈ v1)); [|rewrite Hmd by done];
      repeat case_decide; set_solver. }
  set (c1 := if must_drop cache o x then delete x cache else cache).
  change (elements (default ∅ (deps !! x))) with (dependent_list deps x).
  specialize (Hfold (dependent_list deps x) c1 ({[x]} ∪ v)).
  destruct (foldl _ (c1, _) _) as [c2 v2]. destruct Hfold as (-> & Hv & Hc).
  set (v2 := foldl _ _ _) in *. split_and!; [done|set_solver|]. intros y. rewrite Hc.
  assert (Hc1 : c1 !! y = if decide (y = x ∧ must_drop cache o x = true) then None else cache !! y).
  { unfold c1. destruct (must_drop cache o x); [|by rewrite decide_False by naive_solver].
    destruct (decide (y = x)) as [->|]; [rewrite lookup_delete_eq, decide_True; done|].
    rewrite lookup_delete_ne, decide_False; naive_solver. }
  destruct (decide (y = x)) as [->|Hne].
  - rewrite decide_False by set_solver. rewrite Hc1. apply decide_ext. set_solver.
  - rewrite (decide_False (P := y = x ∧ _)) in Hc1 by tauto. rewrite Hc1.
    unfold must_drop. rewrite Hc1. apply decide_ext. set_solver.
Qed.

(** [d] reads [x], directly or through other virtual symbols. *)
Definition derives_from (h : t) (x d : string) : Prop :=
  rtc (λ x d, x ∈ recipe_inputs (synthetic_recipes h) d) x d.

Lemma derives_from_dependents h x d :
  graph_ok h → derives_from h x d ↔ rtc (edge (dependent_list (synthetic_dependents h))) x d.
Proof.
  intros [_ Hd]. unfold derives_from. split; apply (rtc_congruence id); intros a b;
    unfold edge, dependent_list; rewrite elem_of_elements; apply Hd.
Qed.

Lemma invalidate_lookup h s o y :
  graph_ok h →
  let c := reference_cache h in
  let c' := reference_cache (invalidate_references h s o) in
  (derives_from h s y ∧ must_drop c o y = true ∧ c' !! y = None) ∨
  ((¬ derives_from h s y ∨ must_drop c o y = false) ∧ c' !! y = c !! y).
Proof.
  intros Hg. cbv zeta. unfold invalidate_references. set (deps := synthetic_dependents h).
  pose proof (invalidate_rec_spec (S (fuel_for (dom deps))) deps o (reference_cache h) ∅ s) as H.
  destruct (invalidate_rec _ _ _ _ _) as [c' v']. destruct H as (-> & _ & Hc).
  simpl reference_cache. rewrite Hc. rewrite derives_from_dependents by done. fold deps.
  destruct (must_drop (reference_cache h) o y); [|right; split; [by right|rewrite decide_False; naive_solver]].
  set (w := walk _ _ _ _) in *. destruct (decide (y ∈ w)) as [Hy|Hy].
  - left. rewrite decide_True by set_solver. split_and!; [|done..].
    apply walk_sound in Hy as [Hy|Hy]; [set_solver|done].
  - right. rewrite decide_False by tauto. split; [left|done]. intros Hr. apply Hy.
    unfold w. eapply (walk_rtc _ (dom deps)); [apply dependent_list_cover| |done].
    unfold fuel_for. lia.
Qed.

(** ** What a deactivation retains *)

Lemma retain_inputs_spec ret pend ins :
  let '(ret', pend') := retain_inputs ret pend ins in
  (∀ x, x ∈ ret' ↔ x ∈ ret ∨ x ∈ ins) ∧
  ∃ new, pend' = new ++ pend ∧ NoDup new ∧ ∀ x, x ∈ new ↔ x ∈ ins ∧ x ∉ ret.
Proof.
  revert ret pend. induction ins as [|i ins IH]; intros ret pend; simpl.
  { split; [intros x; rewrite elem_of_nil; tauto|]. exists []. split_and!; [done|constructor|].
    intros x. rewrite elem_of_nil. tauto. }
  case_decide as Hi.
  - specialize (IH ret pend). destruct (retain_inputs ret pend ins) as [ret' pend'].
    destruct IH as (Hret & new & -> & Hnd & Hnew). split.
    + intros x. rewrite Hret, elem_of_cons. naive_solver.
    + exists new. split_and!; [done..|]. intros x. rewrite Hnew, elem_of_cons. naive_solver.
  - specialize (IH ({[i]} ∪ ret) (i :: pend)). destruct (retain_inputs _ _ ins) as [ret' pend'].
    destruct IH as (Hret & new & -> & Hnd & Hnew).
    setoid_rewrite elem_of_union in Hret. setoid_rewrite elem_of_union in Hnew.
    setoid_rewrite elem_of_singleton in Hret. setoid_rewrite elem_of_singleton in Hnew. split.
    + intros x. rewrite Hret, elem_of_cons. tauto.
    + exists (new ++ [i]). split_and!.
      * by rewrite <- app_assoc.
      * apply NoDup_app. split_and!; [done| |apply NoDup_singleton].
        intros x Hx ->%list_elem_of_singleton. apply Hnew in Hx. tauto.
      * intros x. rewrite elem_of_app, Hnew, list_elem_of_singleton, elem_of_cons.
        destruct (decide (x = i)) as [->|]; tauto.
Qed.

(** Every retained symbol has its inputs retained once it leaves [pending]. *)
Definition closed_but (recipes : gmap string recipe) (ret : gset string) (pend : list string) :=
  ∀ x i, x ∈ ret → x ∉ pend → i ∈ recipe_inputs recipes x → i ∈ ret.

Lemma elem_of_all_inputs recipes s r i :
  recipes !! s = Some r → i ∈ rc_inputs r → i ∈ all_inputs recipes.
Proof.
  intros Hr Hi. unfold all_inputs. apply elem_of_list_to_set, list_elem_of_In, in_concat.
  exists (rc_inputs r). split; [|by apply list_elem_of_In].
  apply list_elem_of_In, list_elem_of_fmap. exists r. split; [done|].
  apply list_elem_of_fmap. exists (s, r). by rewrite elem_of_map_to_list.
Qed.

Lemma retain_closure_spec recipes fuel ret pend :
  (length pend + size (all_inputs recipes ∖ ret) < fuel)%nat →
  closed_but recipes ret pend →
  let ret' := retain_closure fuel recipes ret pend in
  ret ⊆ ret' ∧ closed_but recipes ret' [].
Proof.
  revert ret pend. induction fuel as [|f IH]; intros ret pend Hf Hc; [lia|]. simpl.
  destruct pend as [|s pend]; [done|]. simpl in Hf.
  destruct (recipes !! s) as [r|] eqn:Hr.
  - pose proof (retain_inputs_spec ret pend (rc_inputs r)) as Hri.
    destruct (retain_inputs ret pend (rc_inputs r)) as [ret' pend'].
    destruct Hri as (Hret & new & -> & Hnd & Hnew).
    destruct (IH ret' (new ++ pend)) as [Hsub Hc'].
    + assert (size (list_to_set new : gset string) = length new) as Hn
        by (by apply size_list_to_set).
      assert (size (all_inputs recipes ∖ ret') + size (list_to_set new : gset string) ≤
              size (all_inputs recipes ∖ ret))%nat as Hle.
      { rewrite <- size_union by set_solver.
        apply subseteq_size. intros x. rewrite elem_of_union, !elem_of_difference, Hret,
          elem_of_list_to_set, Hnew. intros [|[Hi ?]]; [tauto|].
        split; [by eapply elem_of_all_inputs|done]. }
      rewrite length_app. lia.
    + intros x i Hx Hnp Hi. rewrite Hret. rewrite Hret in Hx.
      destruct (decide (x = s)) as [->|Hne].
      * right. unfold recipe_inputs in Hi. by rewrite Hr in Hi.
      * left. apply (Hc x i); [|set_solver|done].
        destruct Hx as [|Hx]; [done|]. destruct (decide (x ∈ ret)); [done|].
        exfalso. apply Hnp, elem_of_app. left. by apply Hnew.
    + split; [|done]. intros x Hx. apply Hsub, Hret. by left.
  - apply IH; [lia|]. intros x i Hx Hnp Hi. destruct (decide (x = s)) as [->|Hne].
    + unfold recipe_inputs in Hi. rewrite Hr in Hi. by apply elem_of_nil in Hi.
    + apply (Hc x i); [done|set_solver|done].
Qed.

Lemma retain_closure_sound recipes fuel ret pend (P : string → Prop) :
  (∀ x i, P x → i ∈ recipe_inputs recipes x → P i) →
  (∀ x, x ∈ ret → P x) → (∀ x, x ∈ pend → P x) →
  ∀ x, x ∈ retain_closure fuel recipes ret pend → P x.
Proof.
  intros HP. revert ret pend. induction fuel as [|f IH]; intros ret pend Hret Hpend; simpl; [done|].
  destruct pend as [|s pend]; [done|].
  destruct (recipes !! s) as [r|] eqn:Hr.
  - pose proof (retain_inputs_spec ret pend (rc_inputs r)) as Hri.
    destruct (retain_inputs ret pend (rc_inputs r)) as [ret' pend'].
    destruct Hri as (Hr' & new & -> & _ & Hnew).
    assert (∀ i, i ∈ rc_inputs r → P i) as Hins.
    { intros i Hi. apply (HP s); [apply Hpend; by left|]. unfold recipe_inputs. by rewrite Hr. }
    apply IH.
    + intros x [Hx|Hx]%Hr'; auto.
    + intros x [[Hx _]%Hnew|Hx]%elem_of_app; [auto|]. apply Hpend. by right.
  - apply IH; [done|]. intros x Hx. apply Hpend. by right.
Qed.

(** [x] is requested, or an input of a requested virtual symbol. *)
Definition needed (h : t) (symbols : list string) (x : string) : Prop :=
  ∃ s, s ∈ symbols ∧ rtc (edge (recipe_inputs (synthetic_recipes h))) s x.

Lemma elem_of_retained h symbols x : x ∈ retained_symbols h symbols ↔ needed h symbols x.
Proof.
  unfold retained_symbols. set (init := list_to_set symbols : gset string). split.
  - apply retain_closure_sound.
    + intros y i (s & Hs & Hr) Hi. exists s. split; [done|]. by eapply rtc_r.
    + intros y Hy%elem_of_list_to_set. by exists y.
    + intros y Hy%elem_of_elements%elem_of_list_to_set. by exists y.
  - intros (s & Hs & Hr).
    destruct (retain_closure_spec (synthetic_recipes h)
      (S (size init + size (all_inputs (synthetic_recipes h)))) init (elements init))
      as [Hsub Hc].
    + assert (size (all_inputs (synthetic_recipes h) ∖ init) ≤
              size (all_inputs (synthetic_recipes h)))%nat by (apply subseteq_size; set_solver).
      assert (length (elements init) = size init) by done. lia.
    + intros y i Hy Hn. exfalso. by apply Hn, elem_of_elements.
    + eapply closed_rtc; [|apply Hsub; by apply elem_of_list_to_set|exact Hr].
      intros y i Hy Hi. eapply Hc; [done|apply not_elem_of_nil|done].
Qed.

Lemma drop_rings_list l h x :
  let h' := foldl drop_rings h l in
  (∀ i, rings i h' !! x = if decide (x ∈ l) then None else rings i h !! x) ∧
  reference_cache h' !! x = (if decide (x ∈ l) then None else reference_cache h !! x) ∧
  synthetic_recipes h' = synthetic_recipes h ∧ synthetic_dependents h' = synthetic_dependents h.
Proof.
  revert h. induction l as [|s l IH]; intros h; simpl; [split_and!; done|].
  destruct (IH (drop_rings h s)) as (Hr & Hc & -> & ->).
  assert (Hx : ∀ A (a : option A), (if decide (x ∈ l) then None else if decide (s = x) then None else a) =
    if decide (x ∈ s :: l) then None else a).
  { intros A a. destruct (decide (x ∈ l)); [by rewrite decide_True by by right|].
    destruct (decide (s = x)) as [->|]; [by rewrite decide_True by by left|].
    rewrite decide_False; [done|]. rewrite elem_of_cons. naive_solver. }
  split_and!; [|rewrite <- Hx, Hc|done..].
  - intros i. by rewrite Hr, rings_drop, Hx.
  - simpl. by rewrite lookup_delete.
Qed.

Lemma drop_recipe_fields h s x :
  (∀ i, rings i (drop_recipe h s) !! x = rings i h !! x) ∧
  synthetic_recipes (drop_recipe h s) !! x =
    (if decide (s = x) then None else synthetic_recipes h !! x) ∧
  reference_cache (drop_recipe h s) !! x =
    (if decide (s = x ∧ is_Some (synthetic_recipes h !! x)) then None
     else reference_cache h !! x).
Proof.
  split; [intros i; by rewrite rings_drop_recipe|]. unfold drop_recipe.
  destruct (synthetic_recipes h !! s) as [r|] eqn:Hr; simpl.
  - rewrite !lookup_delete. split; [done|]. destruct (decide (s = x)) as [->|].
    + by rewrite decide_True by eauto.
    + by rewrite decide_False by naive_solver.
  - split; [case_decide; naive_solver|]. rewrite decide_False; [done|].
    intros [-> [r' Hr']]. congruence.
Qed.

Lemma drop_recipe_list l h x :
  let h' := foldl drop_recipe h l in
  (∀ i, rings i h' !! x = rings i h !! x) ∧
  synthetic_recipes h' !! x = (if decide (x ∈ l) then None else synthetic_recipes h !! x) ∧
  reference_cache h' !! x =
    (if decide (x ∈ l ∧ is_Some (synthetic_recipes h !! x)) then None
     else reference_cache h !! x).
Proof.
  revert h. induction l as [|s l IH]; intros h.
  { cbv zeta. split; [done|]. rewrite !decide_False; [done| |]; rewrite elem_of_nil; tauto. }
  cbn [foldl]. destruct (IH (drop_recipe h s)) as (Hri & Hre & Hca). cbv zeta.
  destruct (drop_recipe_fields h s x) as (Hri1 & Hre1 & Hca1).
  split; [intros i; by rewrite Hri|]. rewrite Hre, Hca, Hre1, Hca1.
  pose proof (elem_of_cons l x s) as Hcons. clear - Hcons.
  destruct (decide (s = x)) as [->|Hne], (decide (x ∈ l)) as [Hl|Hl];
    destruct (decide (x ∈ _ :: l)) as [Hsl|Hsl]; try tauto; try naive_solver;
    split; try done; repeat case_decide; naive_solver.
Qed.

Lemma retain_symbols_fields h symbols x :
  let h' := (retain_symbols h symbols).1 in
  (needed h symbols x →
     (∀ i, rings i h' !! x = rings i h !! x) ∧
     synthetic_recipes h' !! x = synthetic_recipes h !! x ∧
     reference_cache h' !! x = reference_cache h !! x) ∧
  (¬ needed h symbols x →
     (∀ i, rings i h' !! x = None) ∧ synthetic_recipes h' !! x = None ∧
     (x ∈ present h ∪ dom (synthetic_recipes h) → reference_cache h' !! x = None)).
Proof.
  cbv zeta. unfold retain_symbols. set (gone := elements (present h ∖ retained_symbols h symbols)).
  cbn [fst]. set (h1 := foldl drop_rings h gone).
  set (dropped := elements (dom (synthetic_recipes h1) ∖ retained_symbols h symbols)).
  destruct (drop_rings_list gone h x) as (Hr1 & Hc1 & Hs1 & Hd1). fold h1 in Hr1, Hc1, Hs1, Hd1.
  destruct (drop_recipe_list dropped h1 x) as (Hr2 & Hs2 & Hc2).
  assert (Hgone : x ∈ gone ↔ x ∈ present h ∧ ¬ needed h symbols x).
  { unfold gone. by rewrite elem_of_elements, elem_of_difference, elem_of_retained. }
  assert (Hdrop : x ∈ dropped ↔ x ∈ dom (synthetic_recipes h) ∧ ¬ needed h symbols x).
  { unfold dropped. by rewrite elem_of_elements, elem_of_difference, elem_of_retained, Hs1. }
  split; intros Hn.
  - split_and!.
    + intros i. rewrite Hr2, Hr1. by rewrite decide_False by tauto.
    + rewrite Hs2, Hs1. by rewrite decide_False by tauto.
    + rewrite Hc2, Hc1. by rewrite !decide_False by tauto.
  - split_and!.
    + intros i. rewrite Hr2, Hr1. destruct (decide (x ∈ gone)) as [Hg|Hg]; [done|].
      assert (x ∉ present h) as Hp by tauto. apply (ring_of_absent i) in Hp.
      unfold ring_of in Hp. destruct (rings i h !! x) as [r|] eqn:E; [|done]. exfalso.
      apply Hg, Hgone. split; [|done]. apply elem_of_dom_2 in E.
      unfold present. destruct i; set_solver.
    + rewrite Hs2, Hs1. destruct (decide (x ∈ dropped)) as [Hg|Hg]; [done|]. apply not_elem_of_dom. tauto.
    + rewrite Hc2, Hc1, Hs1. intros [Hp|Hp]%elem_of_union.
      * rewrite (decide_True (P := x ∈ gone)) by tauto.
        by destruct (decide (x ∈ dropped ∧ is_Some (synthetic_recipes h !! x))).
      * rewrite decide_True; [done|]. split; [tauto|]. by apply elem_of_dom.
Qed.

(** ** Properties *)

(** Whatever calls the cache has served, its synthetic recipes form no
    dependency cycle and the dependents index is exactly the inverse of their
    inputs. *)
Theorem recipe_graph_consistent (ops : list op) :
  (∀ x i, i ∈ recipe_inputs (synthetic_recipes (run ops)) x →
     ¬ rtc (edge (recipe_inputs (synthetic_recipes (run ops)))) i x) ∧
  ∀ x d, d ∈ default ∅ (synthetic_dependents (run ops) !! x) ↔
         x ∈ recipe_inputs (synthetic_recipes (run ops)) d.
Proof. apply graph_ok_run. Qed.

(** After an observation of a symbol is added, no symbol that is the
    observed one or derives from it through any number of virtual histories
    keeps cached references whose one-hour cutoff reaches the observation; no
    cached references are invented, and symbols that do not derive from it only
    lose theirs when the add also expired points. *)
Theorem add_invalidates (ops : list op) (p : PricePoint) (h' : t) :
  add (run ops) p = Ok h' →
  ∀ d e, reference_cache h' !! d = Some e →
    reference_cache (run ops) !! d = Some e ∧
    (derives_from (run ops) (pp_symbol p) d → re_as_of e - hours 1 < pp_timestamp p).
Proof.
  intros Hadd d e. pose proof (graph_ok_run ops) as Hg. revert Hadd. unfold add.
  intros (h1 & H1 & [= <-])%result_bind_ok.
  assert (Hsame1 : same_graph (run ops) h1 ∧ reference_cache h1 = reference_cache (run ops))
    by (repeat case_decide; by simplify_eq).
  destruct Hsame1 as [Hsame1 Hc1]. clear H1.
  set (h2 := (prune_symbol h1 (pp_symbol p) (pp_timestamp p)).1).
  assert (Hg1 : graph_ok h1) by by eapply graph_ok_same.
  assert (Hsame2 : same_graph h1 h2) by apply same_graph_prune_symbol.
  assert (Hc2 : reference_cache h2 !! d = Some e → reference_cache (run ops) !! d = Some e).
  { rewrite <- Hc1. unfold h2, prune_symbol. repeat destruct (prune_ring _ _ _). simpl fst.
    case_decide; [done|]. set (h1' := set_rings I1m _ _).
    destruct (invalidate_lookup h1' (pp_symbol p) None d) as [(_ & _ & ->)|[_ ->]];
      [by eapply graph_ok_same, Hg1|done|done]. }
  assert (Hg2 : graph_ok h2) by by eapply graph_ok_same.
  destruct (invalidate_lookup h2 (pp_symbol p) (Some (pp_timestamp p)) d Hg2)
    as [(_ & _ & ->)|[Hor ->]]; [done|]. intros He. split; [by apply Hc2|].
  intros Hder. destruct Hor as [Hn|Hmd].
  - exfalso. apply Hn. unfold derives_from in *. destruct Hsame1 as [E1 _], Hsame2 as [E2 _].
    by rewrite E2, E1.
  - unfold must_drop in Hmd. rewrite He in Hmd. apply bool_decide_eq_false in Hmd. lia.
Qed.

Lemma add_invalidates_witness :
  let ops := [OpAdd (demo_point 7 5 "1m"); OpReferences "BTC" (minutes 90)] in
  match add (run ops) (demo_point 60 6 "1m") with
  | Ok h' => ∃ e, reference_cache h' !! "BTC" = Some e ∧
      reference_cache (run ops) !! "BTC" = Some e ∧
      (derives_from (run ops) "BTC" "BTC" → re_as_of e - hours 1 < minutes 60)
  | Raise _ => False
  end.
Proof.
  cbv zeta. destruct (add _ _) as [h'|e] eqn:E; [|vm_compute in E; discriminate].
  destruct (reference_cache h' !! "BTC") as [e|] eqn:Ee.
  - exists e. split; [done|]. apply (add_invalidates _ _ _ E _ _ Ee).
  - exfalso. vm_compute in E. injection E as <-. vm_compute in Ee. discriminate.
Defined.

(** [retain_symbols] keeps exactly the requested symbols and the transitive
    inputs of the requested virtual histories: their rings and recipes are
    untouched, and every other symbol loses its rings and its recipe. *)
Theorem retain_exact (ops : list op) (symbols : list string) (x : string) :
  let h := run ops in
  let h' := (retain_symbols h symbols).1 in
  ((∃ s, s ∈ symbols ∧ rtc (edge (recipe_inputs (synthetic_recipes h))) s x) →
     (∀ i, rings i h' !! x = rings i h !! x) ∧
     synthetic_recipes h' !! x = synthetic_recipes h !! x ∧
     reference_cache h' !! x = reference_cache h !! x) ∧
  (¬ (∃ s, s ∈ symbols ∧ rtc (edge (recipe_inputs (synthetic_recipes h))) s x) →
     (∀ i, rings i h' !! x = None) ∧ synthetic_recipes h' !! x = None ∧
     (x ∈ present h ∪ dom (synthetic_recipes h) → reference_cache h' !! x = None)).
Proof. apply (retain_symbols_fields (run ops) symbols x). Qed.
