(* ===== verification/CacheCoherence.v ===== *)
(** * Coherence of the cached rolling references

    What a reference reads of the rings, that every operation leaves the
    surviving cached references equal to a fresh computation, and the late
    observations for which the invalidation falls short. *)

From S2P Require Import Prelude PyStr PyDecimal PyTime Graph Domain Analytics Cache CacheFacts.
From S2P Require Import CacheReads CacheSynthetic.
Import HistoryCache.

Local Open Scope string_scope.
Local Open Scope list_scope.
Local Open Scope Z_scope.

(** ** What a reference reads *)

(** The points of a ring at or before a cutoff. *)
Definition before (cutoff : Z) (r : ring) : ring := filter (λ p, pp_timestamp p ≤ cutoff) r.

Lemma before_before c c' r : c' ≤ c → before c' (before c r) = before c' r.
Proof.
  intros Hc. unfold before. rewrite list_filter_filter. apply list_filter_iff. intros p. lia.
Qed.

Lemma before_split c r : ssorted ts r → r = before c r ++ filter (λ p, c < pp_timestamp p) r.
Proof.
  intros Hs. apply (ssorted_ext ts); [done| |].
  - apply ssorted_app. split_and!; [by apply ssorted_filter..|].
    intros x y [Hx _]%list_elem_of_filter [Hy _]%list_elem_of_filter. unfold ts. lia.
  - intros x. rewrite elem_of_app. unfold before. rewrite !list_elem_of_filter.
    destruct (decide (pp_timestamp x ≤ c)); naive_solver lia.
Qed.

Lemma starts_by_before c r : ssorted ts r → starts_by c (Some r) = bool_decide (before c r ≠ []).
Proof.
  intros Hs. unfold before. destruct r as [|p r]; [done|]. cbn [starts_by].
  apply StronglySorted_inv in Hs as [_ Hall]. rewrite filter_cons.
  destruct (decide (pp_timestamp p ≤ c)) as [Hp|Hp]; [by rewrite !bool_decide_true|].
  rewrite (bool_decide_false (_ ≤ _)) by done. symmetry. apply bool_decide_eq_false.
  intros H. apply H, filter_none. intros q Hq. rewrite Forall_forall in Hall.
  specialize (Hall q Hq). unfold ts in Hall. lia.
Qed.

Lemma advance_right_skip lft later rest :
  (∀ q, q ∈ later → pp_timestamp lft < pp_timestamp q) →
  advance_right lft (later ++ rest) = advance_right lft rest.
Proof.
  induction later as [|q later IH]; intros Hl; [done|]. cbn.
  rewrite decide_True by (apply Hl; by left). apply IH. intros; apply Hl; by right.
Qed.

Lemma pair_scan_before s r i c lefts rights :
  ssorted ts rights → (∀ p, p ∈ lefts → pp_timestamp p ≤ c) →
  pair_scan s r i lefts (reverse rights) = pair_scan s r i lefts (reverse (before c rights)).
Proof.
  intros Hs Hl. destruct lefts as [|lft lefts]; [done|]. cbn [pair_scan].
  rewrite (before_split c rights) at 1 by done. rewrite reverse_app, advance_right_skip; [done|].
  intros q [Hq _]%elem_of_reverse%list_elem_of_filter. specialize (Hl lft ltac:(by left)). lia.
Qed.

(** The inputs of a recipe by position. *)
Definition input (n : nat) (r : recipe) : string := default "" (rc_inputs r !! n).

Definition reference_from (s : string) (r : recipe) (i : interval) (lefts rights : ring)
    : option (result PricePoint) :=
  if decide (rc_operation r = "inverse") then inverse_scan s r i (reverse lefts)
  else pair_scan s r i (reverse lefts) (reverse rights).

Lemma synthetic_reference_before h s r c i :
  rings_ok h →
  synthetic_reference_in h s r c i =
  reference_from s r i (before c (ring_of i h (input 0 r))) (before c (ring_of i h (input 1 r))).
Proof.
  intros Hh. unfold synthetic_reference_in, reference_from, input.
  pose proof (ring_of_sorted i h (default "" (rc_inputs r !! 1%nat)) Hh) as Hs1. unfold ring_of in *.
  destruct (rings i h !! default "" (rc_inputs r !! 0%nat)) as [[|p l]|];
    [cbn; by case_decide| |cbn; by case_decide].
  cbn [default]. rewrite filter_reverse. fold (before c (p :: l)).
  case_decide; [done|].
  assert (Hle : ∀ q, q ∈ reverse (before c (p :: l)) → pp_timestamp q ≤ c)
    by by intros q [Hq _]%elem_of_reverse%list_elem_of_filter.
  destruct (rings i h !! default "" (rc_inputs r !! 1%nat)) as [[|q rs]|]; cbn [default from_option id].
  - by destruct (reverse _).
  - by apply pair_scan_before.
  - by destruct (reverse _).
Qed.

(** ** Recipes have the inputs their operation reads *)

Definition recipe_arity (r : recipe) : Prop :=
  rc_operation r = "inverse" ∧ length (rc_inputs r) = 1%nat ∨
  rc_operation r ∈ ["multiply"; "divide"] ∧ length (rc_inputs r) = 2%nat.

Definition recipes_ok (h : t) : Prop := ∀ s r, synthetic_recipes h !! s = Some r → recipe_arity r.

Lemma recipes_ok_sub h h' :
  (∀ s r, synthetic_recipes h' !! s = Some r → synthetic_recipes h !! s = Some r) →
  recipes_ok h → recipes_ok h'.
Proof. intros Hsub Hh s r Hr. by eapply Hh, Hsub. Qed.

Lemma recipes_ok_same h h' : same_graph h h' → recipes_ok h → recipes_ok h'.
Proof. intros [E _]. apply recipes_ok_sub. by rewrite E. Qed.

Lemma recipes_ok_step h o h' : recipes_ok h → step h o = Ok h' → recipes_ok h'.
Proof.
  intros Hh. destruct o as [p|ps|now|syms|s ins op' sk prov|s as_of]; cbn [step].
  - intros ?%same_graph_add. by eapply recipes_ok_same.
  - intros ?%same_graph_load. by eapply recipes_ok_same.
  - intros [= <-]. by eapply recipes_ok_same, Hh; apply same_graph_prune.
  - intros [= <-]. eapply recipes_ok_sub, Hh. intros x r Hr.
    destruct (retain_symbols_fields h syms x) as [Hn Hd].
    destruct (decide (x ∈ retained_symbols h syms)) as [Hin|Hin]; rewrite elem_of_retained in Hin.
    + destruct (Hn Hin) as (_ & E & _). by rewrite <- E.
    + destruct (Hd Hin) as (_ & E & _). by pose proof (eq_trans (eq_sym E) Hr).
  - intros (Har & _ & _ & E & _)%register_graph x r. rewrite E, lookup_insert.
    case_decide; [by intros [= <-]|apply Hh].
  - destruct (change_references h s as_of) as [[h1 refs]|] eqn:E; cbn; [|done].
    intros [= <-]. by eapply recipes_ok_same, Hh; eapply same_graph_references.
Qed.

Lemma recipes_ok_run ops : recipes_ok (run ops).
Proof. apply run_ind; [|apply recipes_ok_step]. by intros s r. Qed.

(** ** The part of a cache one symbol's references depend on *)

Definition reads (h : t) (s x : string) : Prop :=
  x = s ∨ x ∈ recipe_inputs (synthetic_recipes h) s.

Definition same_view (s : string) (c : Z) (h h' : t) : Prop :=
  synthetic_recipes h' !! s = synthetic_recipes h !! s ∧
  ∀ x i, reads h s x → before c (ring_of i h' x) = before c (ring_of i h x).

Lemma same_view_refl s c h : same_view s c h h.
Proof. done. Qed.

Lemma same_view_le s c c' h h' : c' ≤ c → same_view s c h h' → same_view s c' h h'.
Proof.
  intros Hc [Hr Hv]. split; [done|]. intros x i Hx.
  rewrite <- (before_before c), Hv, before_before by done. done.
Qed.

Lemma input_reads h s r n :
  synthetic_recipes h !! s = Some r → (n < length (rc_inputs r))%nat → reads h s (input n r).
Proof.
  intros Hr Hn. right. unfold recipe_inputs, input. rewrite Hr. cbn.
  destruct (lookup_lt_is_Some_2 _ _ Hn) as [x Hx]. rewrite Hx. by eapply list_elem_of_lookup_2.
Qed.

Lemma synthetic_reference_view h h' s r c :
  rings_ok h → rings_ok h' → recipes_ok h → synthetic_recipes h !! s = Some r →
  same_view s c h h' → synthetic_reference_at h' s r c = synthetic_reference_at h s r c.
Proof.
  intros Hh Hh' Hrec Hr [_ Hv].
  assert (∀ i, synthetic_reference_in h' s r c i = synthetic_reference_in h s r c i) as Hin.
  { intros i. rewrite !synthetic_reference_before by done. unfold reference_from.
    destruct (Hrec s r Hr) as [[Hop Hlen]|[Hop Hlen]].
    - rewrite !(decide_True (P := _ = "inverse")) by done. rewrite Hv; [done|].
      apply input_reads; [done|lia].
    - rewrite !Hv by (apply input_reads; [done|lia]). done. }
  unfold synthetic_reference_at. by rewrite !Hin.
Qed.

Lemma plain_reference_before h s c :
  rings_ok h → synthetic_recipes h !! s = None →
  reference_at h s c = Ok
    (let at_ i := before c (ring_of i h s) in
     if decide (at_ I1m ≠ []) then last (at_ I1m)
     else if decide (at_ I5m ≠ []) then last (at_ I5m) else last (at_ I1d)).
Proof.
  intros Hh Hr. unfold reference_at. rewrite Hr.
  change (one_minute h) with (rings I1m h). change (five_minute h) with (rings I5m h).
  change (daily h) with (rings I1d h).
  rewrite !latest_in_ring, !starts_by_ring, !latest_at_or_before_last.
  rewrite !starts_by_before by (by apply ring_of_sorted). cbv zeta. rewrite !decide_bool_decide.
  destruct (bool_decide _); [done|]. by destruct (bool_decide _).
Qed.

Lemma reference_at_view h h' s c :
  rings_ok h → rings_ok h' → recipes_ok h → same_view s c h h' →
  reference_at h' s c = reference_at h s c.
Proof.
  intros Hh Hh' Hrec Hv. pose proof Hv as [E Hb]. destruct (synthetic_recipes h !! s) as [r|] eqn:Hr.
  - unfold reference_at. rewrite E, Hr. by apply synthetic_reference_view.
  - rewrite (plain_reference_before h), (plain_reference_before h') by (done || congruence).
    cbv beta zeta. rewrite !(Hb s) by (by left). done.
Qed.

Lemma WINDOWS_hour w : w ∈ WINDOWS → hours 1 ≤ w.2.
Proof.
  revert w. apply Forall_forall. unfold WINDOWS.
  repeat constructor; apply (bool_decide_unpack _); by vm_compute.
Qed.

Lemma fresh_references_view h h' s as_of :
  rings_ok h → rings_ok h' → recipes_ok h → same_view s (as_of - hours 1) h h' →
  fresh_references h' s as_of = fresh_references h s as_of.
Proof.
  intros Hh Hh' Hrec Hv. apply map_result_ext. intros w Hw%WINDOWS_hour.
  rewrite (reference_at_view h h'); [done..|]. eapply same_view_le, Hv. lia.
Qed.

(** ** Coherence *)

(** Every cached entry is what a cache miss at its instant would compute now. *)
Definition coherent (h : t) : Prop :=
  ∀ s e, reference_cache h !! s = Some e →
    re_minute e = replace_second0 (re_as_of e) ∧
    fresh_references h s (re_as_of e) = Ok (re_references e).

(** Coherence survives when the entries that are kept saw nothing change. *)
Lemma coherent_frame h h' :
  rings_ok h → rings_ok h' → recipes_ok h → coherent h →
  (∀ s e, reference_cache h' !! s = Some e →
     reference_cache h !! s = Some e ∧ same_view s (re_as_of e - hours 1) h h') →
  coherent h'.
Proof.
  intros Hh Hh' Hrec Hc Hkeep s e [He Hv]%Hkeep. destruct (Hc s e He) as [Hm Hf].
  split; [done|]. rewrite <- Hf. by apply fresh_references_view.
Qed.

(** The same when only the rings of one symbol change. *)
Lemma coherent_touch h h' x :
  rings_ok h → rings_ok h' → recipes_ok h → same_graph h h' → coherent h →
  (∀ c y i, y ≠ x → before c (ring_of i h' y) = before c (ring_of i h y)) →
  (∀ s e, reference_cache h' !! s = Some e →
     reference_cache h !! s = Some e ∧
     (derives_from h x s → ∀ i, before (re_as_of e - hours 1) (ring_of i h' x) =
                                before (re_as_of e - hours 1) (ring_of i h x))) →
  coherent h'.
Proof.
  intros Hh Hh' Hrec [Er _] Hc Hother Hkeep. apply (coherent_frame h); [done..|].
  intros s e [He Hx]%Hkeep. split; [done|]. split; [by rewrite Er|].
  intros y i Hy. destruct (decide (y = x)) as [->|Hne]; [|by rewrite Hother].
  apply Hx. destruct Hy as [->|Hy]; [apply rtc_refl|by apply rtc_once].
Qed.

Lemma pop_older_length c r : (length (pop_older c r) < length r)%nat ∨ pop_older c r = r.
Proof.
  induction r as [|p r IH]; cbn; [by right|]. case_decide; [left|by right].
  destruct IH as [|E]; [lia|rewrite E; lia].
Qed.

Lemma prune_ring_zero rs s c s' :
  (prune_ring rs s c).2 = 0%nat → (∀ r, rs !! s = Some r → r ≠ []) →
  (prune_ring rs s c).1 !! s' = rs !! s'.
Proof.
  unfold prune_ring. destruct (rs !! s) as [r|] eqn:Hr; [|done]. cbn. intros Hz Hne.
  destruct (pop_older_length c r) as [Hlt|E]; [lia|]. rewrite E.
  rewrite decide_False by by apply Hne. rewrite lookup_insert. case_decide; [by subst|done].
Qed.

(** A pruned symbol keeps its rings, or every entry that derives from it goes. *)
Lemma prune_symbol_entries h x now s e :
  rings_ok h → graph_ok h → reference_cache (prune_symbol h x now).1 !! s = Some e →
  reference_cache h !! s = Some e ∧
  (derives_from h x s → ∀ i, ring_of i (prune_symbol h x now).1 x = ring_of i h x).
Proof.
  intros Hh Hg. unfold ring_of. setoid_rewrite prune_symbol_rings. unfold prune_symbol.
  assert (Hne : ∀ i r, rings i h !! x = Some r → r ≠ []) by (intros i r Hr; by apply (Hh i x r)).
  destruct (prune_ring (one_minute h) x _) as [r1 n1] eqn:E1.
  destruct (prune_ring (five_minute h) x _) as [r5 n5] eqn:E5.
  destruct (prune_ring (daily h) x _) as [rd nd] eqn:Ed.
  set (h1 := set_rings I1m _ _). destruct (decide _) as [Hr|Hr]; cbn [fst].
  - intros He. split; [done|]. intros _ i. rewrite prune_ring_zero; [done| |apply Hne].
    destruct i; cbn [rings retention]; rewrite ?E1, ?E5, ?Ed; cbn; lia.
  - assert (graph_ok h1) as Hg1 by by eapply (graph_ok_same h).
    destruct (invalidate_lookup h1 x None s Hg1) as [(_ & _ & ->)|[[Hn|Hn] ->]]; [done| |done].
    intros He. split; [done|]. by intros Hd.
Qed.

(** ** One observation *)

Lemma before_upsert c r p b : ssorted ts r → c < b → before c (upsert_bucket r p b) = before c r.
Proof.
  intros Hs Hb. rewrite upsert_bucket_dict by done. apply (ssorted_ext ts).
  - apply ssorted_filter, ordered_values_sorted, keyed_insert_bucket, keyed_dict_of.
  - by apply ssorted_filter.
  - intros x. unfold before. rewrite !list_elem_of_filter, elem_of_insert_dict by done.
    unfold ts. split; [|intros [Hx Hin]; split; [done|right; split; [done|lia]]].
    intros [Hx [->|[Hin _]]]; [cbn in Hx; lia|done].
Qed.

Lemma ring_of_upsert i j h p b y :
  ring_of i (set_rings j (upsert_ring (rings j h) p b) h) y =
  if decide (i = j ∧ pp_symbol p = y) then upsert_bucket (ring_of i h y) p b else ring_of i h y.
Proof.
  unfold ring_of. rewrite rings_set_rings. destruct (decide (i = j)) as [->|Hij].
  - unfold upsert_ring. rewrite lookup_insert. case_decide as Hy.
    + subst. by rewrite decide_True.
    + by rewrite decide_False by tauto.
  - by rewrite decide_False by tauto.
Qed.

Lemma before_upsert_ring c i j h p b y :
  rings_ok h → (y = pp_symbol p → c < b) →
  before c (ring_of i (set_rings j (upsert_ring (rings j h) p b) h) y) = before c (ring_of i h y).
Proof.
  intros Hh Hb. rewrite ring_of_upsert. case_decide as Hd; [|done].
  apply before_upsert; [by apply ring_of_sorted|]. apply Hb. naive_solver.
Qed.

(** The earliest key an observation is filed under. *)
Definition filed_key (p : PricePoint) : Z :=
  if decide (pp_interval p = "1d") then pp_timestamp p else bucket (pp_timestamp p) 5.

Lemma bucket_5_1 t : bucket t 5 ≤ bucket t 1.
Proof. unfold bucket. rewrite replace_minute_floor1, replace_minute_floor5. lia_time. Qed.

(** The state between filing an observation and expiring old points. *)
Lemma add_filed h p h' :
  rings_ok h → add h p = Ok h' →
  ∃ h1, h' = invalidate_references (prune_symbol h1 (pp_symbol p) (pp_timestamp p)).1
               (pp_symbol p) (Some (pp_timestamp p)) ∧
    rings_ok h1 ∧ same_graph h h1 ∧ reference_cache h1 = reference_cache h ∧
    ∀ c i y, (y = pp_symbol p → c < filed_key p) →
      before c (ring_of i h1 y) = before c (ring_of i h y).
Proof.
  intros Hh. unfold add, filed_key. intros (h1 & H1 & [= <-])%result_bind_ok. exists h1.
  split; [done|]. pose proof (bucket_5_1 (pp_timestamp p)) as H51.
  destruct (decide (pp_interval p = "1d")); [|destruct (decide (pp_interval p = "5m"));
    [|destruct (decide (pp_interval p = "1m")); [|done]]]; injection H1 as <-.
  - split; [by apply (rings_ok_upsert I1d)|]. split_and!; [done..|]. intros c i y Hc.
    by apply (before_upsert_ring c i I1d).
  - split; [by apply (rings_ok_upsert I5m); [|apply bucket5_aligned]|]. split_and!; [done..|].
    intros c i y Hc. by apply (before_upsert_ring c i I5m).
  - set (h1 := set_rings I1m _ h).
    assert (rings_ok h1) as Hh1 by (apply (rings_ok_upsert I1m); [done|apply bucket1_aligned]).
    split; [by apply (rings_ok_upsert I5m h1); [|apply bucket5_aligned]|]. split_and!; [done..|].
    intros c i y Hc.
    rewrite (before_upsert_ring c i I5m h1 (bucketed p (pp_timestamp p) "5m")) by done.
    apply (before_upsert_ring c i I1m); [done|]. intros Hy. specialize (Hc Hy). lia.
Qed.

(** The observation is not filed at or before the one-hour cutoff of an entry
    it lies after. *)
Definition no_straddle (h : t) (p : PricePoint) : Prop :=
  ∀ s e, reference_cache h !! s = Some e →
    re_as_of e - hours 1 < pp_timestamp p → re_as_of e - hours 1 < filed_key p.

Lemma coherent_add h p h' :
  rings_ok h → graph_ok h → recipes_ok h → coherent h → no_straddle h p →
  add h p = Ok h' → coherent h'.
Proof.
  intros Hh Hg Hrec Hc Hns Hadd.
  assert (Hgr : same_graph h h') by by eapply same_graph_add.
  assert (Hh' : rings_ok h') by by eapply rings_ok_add.
  destruct (add_filed h p h' Hh Hadd) as (h1 & -> & Hh1 & Hg1 & Hc1 & Hb).
  assert (Hgr1 : graph_ok h1) by by eapply graph_ok_same.
  set (h2 := (prune_symbol h1 _ _).1) in *.
  assert (Hg2 : graph_ok h2) by (eapply graph_ok_same, Hgr1; apply same_graph_prune_symbol).
  assert (Hring : ∀ i y, ring_of i (invalidate_references h2 (pp_symbol p) (Some (pp_timestamp p))) y
    = ring_of i h2 y) by (intros i y; unfold ring_of; by rewrite rings_invalidate).
  apply (coherent_touch h _ (pp_symbol p)); [done..| |].
  - intros c y i Hy. rewrite Hring. unfold h2.
    rewrite ring_of_prune_symbol, decide_False by done. by apply Hb.
  - intros s e He. setoid_rewrite Hring.
    destruct (invalidate_lookup h2 (pp_symbol p) (Some (pp_timestamp p)) s Hg2)
      as [(_ & _ & Hn)|[Hor Heq]]; [congruence|]. rewrite Heq in He.
    pose proof He as [Hk Hrk]%prune_symbol_entries; [|done..]. rewrite Hc1 in Hk.
    split; [done|]. intros Hd i.
    assert (Hsame : same_graph h h2) by (etrans; [done|apply same_graph_prune_symbol]).
    assert (Hd1 : derives_from h1 (pp_symbol p) s)
      by (unfold derives_from in *; destruct Hg1 as [E _]; by rewrite E).
    unfold h2. rewrite Hrk by done. apply Hb. intros _. apply (Hns s e Hk).
    destruct Hor as [Hn|Hmd].
    + exfalso. apply Hn. unfold derives_from in *. destruct Hsame as [E _]. by rewrite E.
    + unfold must_drop in Hmd. rewrite He in Hmd. apply bool_decide_eq_false in Hmd. lia.
Qed.

(** ** The other operations *)

(** What the states of an execution have in common. *)
Definition cache_ok (h : t) : Prop := rings_ok h ∧ graph_ok h ∧ recipes_ok h ∧ coherent h.

Lemma cache_ok_foldl {A} (f : t → A → t) l h :
  (∀ h x, cache_ok h → cache_ok (f h x)) → cache_ok h → cache_ok (foldl f h l).
Proof. intros Hf. revert h. induction l; simpl; auto. Qed.

Lemma cache_ok_prune_symbol h x now : cache_ok h → cache_ok (prune_symbol h x now).1.
Proof.
  intros (Hh & Hg & Hrec & Hc). pose proof (same_graph_prune_symbol h x now) as Hs.
  split_and!; [by apply rings_ok_prune_symbol|by eapply graph_ok_same|by eapply recipes_ok_same|].
  apply (coherent_touch h _ x); [done|by apply rings_ok_prune_symbol|done..| |].
  - intros c y i Hy. by rewrite ring_of_prune_symbol, decide_False.
  - intros s e He. apply prune_symbol_entries in He as [He Hk]; [|done..].
    split; [done|]. intros Hd i. by rewrite Hk.
Qed.

Lemma load_symbol_cache inc h x :
  reference_cache (load_symbol inc h x) = reference_cache (invalidate_references h x None).
Proof. unfold load_symbol. by destruct (max_key _). Qed.

Lemma cache_ok_load_symbol inc h x : incoming_ok inc → cache_ok h → cache_ok (load_symbol inc h x).
Proof.
  intros Hi (Hh & Hg & Hrec & Hc). pose proof (same_graph_load_symbol inc h x) as Hs.
  split_and!; [by apply rings_ok_load_symbol|by eapply graph_ok_same|by eapply recipes_ok_same|].
  apply (coherent_touch h _ x); [done|by apply rings_ok_load_symbol|done..| |].
  - intros c y i Hy. unfold ring_of. rewrite rings_load_symbol.
    destruct (latest_key inc h x); [by rewrite decide_False|done].
  - intros s e. rewrite load_symbol_cache.
    destruct (invalidate_lookup h x None s Hg) as [(_ & _ & ->)|[[Hn|Hn] ->]]; [done| |done].
    intros He. split; [done|]. by intros Hd.
Qed.

Lemma cache_ok_load h ps h' : cache_ok h → load h ps = Ok h' → cache_ok h'.
Proof.
  intros Hh. unfold load. case_decide; [by intros [= <-]|].
  intros (inc & Hinc & [= <-])%result_bind_ok.
  apply incoming_ok_load in Hinc; [|apply incoming_ok_empty].
  apply cache_ok_foldl; [|done]. intros. by apply cache_ok_load_symbol.
Qed.

Lemma cache_ok_prune h now : cache_ok h → cache_ok (prune h now).1.
Proof. rewrite prune_fst. apply cache_ok_foldl. intros. by apply cache_ok_prune_symbol. Qed.

(** Deactivation invents no entry. *)
Lemma retain_symbols_entries h symbols s e :
  reference_cache (retain_symbols h symbols).1 !! s = Some e → reference_cache h !! s = Some e.
Proof.
  unfold retain_symbols. cbn [fst].
  set (gone := elements _). set (h1 := foldl drop_rings h gone). set (dropped := elements _).
  destruct (drop_rings_list gone h s) as (_ & Hc1 & _). fold h1 in Hc1.
  destruct (drop_recipe_list dropped h1 s) as (_ & _ & Hc2). rewrite Hc2, Hc1.
  by repeat case_decide.
Qed.

Lemma ring_of_not_present h s : s ∉ present h → ∀ i, rings i h !! s = None.
Proof.
  intros Hn i. destruct (rings i h !! s) eqn:E; [|done]. exfalso. apply Hn.
  apply elem_of_dom_2 in E. unfold present. destruct i; set_solver.
Qed.

Lemma coherent_retain h symbols :
  rings_ok h → recipes_ok h → coherent h → coherent (retain_symbols h symbols).1.
Proof.
  intros Hh Hrec Hc. apply (coherent_frame h); [done| |done..|].
  { eapply rings_ok_sub, rings_sub_retain. done. }
  intros s e He. split; [by eapply retain_symbols_entries|].
  destruct (retain_symbols_fields h symbols s) as [Hin Hout].
  destruct (decide (s ∈ retained_symbols h symbols)) as [Hs|Hs]; rewrite elem_of_retained in Hs.
  - destruct (Hin Hs) as (Hr & E & _). split; [exact E|]. intros x i Hx.
    assert (Hnx : needed h symbols x).
    { destruct Hx as [->|Hx]; [done|]. destruct Hs as (s0 & Hs0 & Hr0).
      exists s0. split; [done|]. by eapply rtc_r. }
    destruct (retain_symbols_fields h symbols x) as [Hinx _]. destruct (Hinx Hnx) as (Hrx & _).
    unfold ring_of. by rewrite Hrx.
  - destruct (Hout Hs) as (Hr & E & Hcache).
    destruct (decide (s ∈ present h ∪ dom (synthetic_recipes h))) as [Hp|Hp].
    { pose proof (eq_trans (eq_sym (Hcache Hp)) He). done. }
    apply not_elem_of_union in Hp as [Hp Hd]. apply not_elem_of_dom in Hd.
    split; [by rewrite Hd|]. intros x i Hx. destruct Hx as [->|Hx].
    + unfold ring_of. rewrite Hr. by rewrite (ring_of_not_present h s Hp).
    + unfold recipe_inputs in Hx. rewrite Hd in Hx. by apply elem_of_nil in Hx.
Qed.

Lemma coherent_register h s inputs op skew prov h' :
  rings_ok h → graph_ok h → recipes_ok h → coherent h →
  register_synthetic_history h s inputs op skew prov = Ok h' → coherent h'.
Proof.
  intros Hh Hg Hrec Hc Hreg.
  assert (Hg' : graph_ok h') by by eapply graph_ok_register.
  assert (Hh' : rings_ok h') by (apply register_ok in Hreg as [->|Hsub]; [done|by eapply rings_ok_sub]).
  unfold register_synthetic_history in Hreg. cbv zeta in Hreg.
  apply raise_if_bind in Hreg as [_ Hreg]. apply raise_if_bind in Hreg as [_ Hreg].
  apply raise_if_bind in Hreg as [_ Hreg]. destruct (decide _); [by injection Hreg as <-|].
  match type of Hreg with Ok (invalidate_references ?x _ _) = _ => set (h2 := x) in Hreg end.
  injection Hreg as <-. assert (Hg2 : graph_ok h2) by by eapply graph_ok_same.
  apply (coherent_frame h); [done..|]. intros d e.
  destruct (invalidate_lookup h2 s None d Hg2) as [(_ & _ & ->)|[[Hn|Hn] ->]]; [done| |done].
  intros He. split; [done|].
  assert (d ≠ s) as Hds by (intros ->; by apply Hn, rtc_refl).
  assert (Hin : recipe_inputs (synthetic_recipes h2) d = recipe_inputs (synthetic_recipes h) d)
    by (cbn; by rewrite recipe_inputs_insert, decide_False).
  split; [cbn; by rewrite lookup_insert_ne|]. intros x i Hx.
  assert (x ≠ s) as Hxs.
  { intros ->. destruct Hx as [Hx|Hx]; [by rewrite Hx in Hds|].
    apply Hn, rtc_once. by rewrite Hin. }
  unfold ring_of. rewrite rings_invalidate. by destruct i; cbn; rewrite lookup_delete_ne.
Qed.

Lemma coherent_references h s as_of h' refs :
  rings_ok h → recipes_ok h → coherent h → change_references h s as_of = Ok (h', refs) →
  coherent h' ∧ ∃ t, replace_second0 t = replace_second0 as_of ∧ fresh_references h s t = Ok refs.
Proof.
  intros Hh Hrec Hc. unfold change_references. cbv zeta.
  assert (Hmiss : (references ← fresh_references h s as_of;
     Ok (set_reference_cache (<[s := reference_entry_init as_of references]> (reference_cache h)) h,
       references)) = Ok (h', refs) →
    coherent h' ∧ ∃ t, replace_second0 t = replace_second0 as_of ∧ fresh_references h s t = Ok refs).
  { intros (r & Hr & [= <- <-])%result_bind_ok. split; [|by exists as_of].
    intros d e. cbn. rewrite lookup_insert. case_decide as Hd; [|apply Hc].
    subst d. intros [= <-]. by split. }
  destruct (reference_cache h !! s) as [cached|] eqn:E; [destruct (decide _) as [Hm|Hm]|];
    [|exact Hmiss..].
  intros [= <- <-]. split; [done|]. destruct (Hc s cached E) as [Hmin Hf].
  exists (re_as_of cached). by rewrite <- Hmin.
Qed.

(** ** Executions *)

(** No observation of the execution straddles the cutoff of a cached entry. *)
Definition observed_in_order (ops : list op) : Prop :=
  ∀ earlier p later, ops = earlier ++ OpAdd p :: later → no_straddle (run earlier) p.

Lemma cache_ok_step h o h' :
  cache_ok h → (∀ p, o = OpAdd p → no_straddle h p) → step h o = Ok h' → cache_ok h'.
Proof.
  intros (Hh & Hg & Hrec & Hc) Hns Hstep.
  pose proof (rings_ok_step h o h' Hh Hstep) as Hh'.
  pose proof (graph_ok_step h o h' Hg Hstep) as Hg'.
  pose proof (recipes_ok_step h o h' Hrec Hstep) as Hrec'.
  split_and!; [done..|]. destruct o as [p|ps|now|syms|s ins op' sk prov|s as_of]; cbn [step] in Hstep.
  - eapply (coherent_add h p); [done..|by apply Hns|done].
  - by apply (cache_ok_load h ps h').
  - injection Hstep as <-. by apply cache_ok_prune.
  - injection Hstep as <-. by apply coherent_retain.
  - by apply (coherent_register h s ins op' sk prov).
  - destruct (change_references h s as_of) as [[h1 refs]|] eqn:E; cbn in Hstep; [|done].
    injection Hstep as <-. by apply (coherent_references h s as_of h1 refs).
Qed.

Lemma run_snoc ops o : run (ops ++ [o]) = step_or_stay (run ops) o.
Proof. unfold run. by rewrite foldl_app. Qed.

Lemma cache_ok_run ops : observed_in_order ops → cache_ok (run ops).
Proof.
  induction ops as [|o ops IH] using rev_ind; intros Ho.
  - split_and!; [apply rings_ok_empty|apply (graph_ok_run [])|apply (recipes_ok_run [])|].
    intros s e. cbn. by rewrite lookup_empty.
  - assert (Hops : observed_in_order ops).
    { intros earlier p later ->. apply (Ho earlier p (later ++ [o])). by rewrite <- app_assoc. }
    rewrite run_snoc. unfold step_or_stay. destruct (step (run ops) o) as [h'|] eqn:E; [|by apply IH].
    eapply cache_ok_step; [by apply IH| |exact E]. intros p ->. by apply (Ho ops p []).
Qed.

(** ** Properties *)

(** C1: the reference cache is transparent.  In an execution where no
    observation that lies inside the last hour of a cached entry is filed at or
    before that entry's one-hour cutoff, whatever the cache answers for an
    instant is what a computation from the rings gives for an instant of the
    same minute. *)
Theorem reference_cache_transparent (ops : list op) (s : string) (as_of : Z) (h' : t)
    (refs : list (string * option PricePoint)) :
  observed_in_order ops →
  change_references (run ops) s as_of = Ok (h', refs) →
  ∃ t, replace_second0 t = replace_second0 as_of ∧ fresh_references (run ops) s t = Ok refs.
Proof.
  intros (Hh & Hg & Hrec & Hc)%cache_ok_run H.
  by destruct (coherent_references _ _ _ _ _ Hh Hrec Hc H).
Qed.

(** A reading at minute 7, its references at minute 90, and a reading on the
    five-minute grid. *)
Definition demo_cached : list op :=
  [OpAdd (demo_point 7 5 "1m"); OpReferences "BTC" (minutes 90); OpAdd (demo_point 60 6 "1m")].

Lemma reference_cache_transparent_witness :
  match change_references (run demo_cached) "BTC" (minutes 90) with
  | Ok (_, refs) => ∃ t, replace_second0 t = replace_second0 (minutes 90) ∧
      fresh_references (run demo_cached) "BTC" t = Ok refs
  | Raise _ => False
  end.
Proof.
  destruct (change_references _ _ _) as [[h' refs]|e] eqn:E; [|vm_compute in E; discriminate].
  apply (reference_cache_transparent demo_cached "BTC" (minutes 90) h' refs); [|exact E].
  intros earlier p later Heq s e He _.
  unfold demo_cached in Heq.
  destruct earlier as [|o1 [|o2 [|o3 earlier]]]; cbn [app] in Heq; injection Heq as.
  - done.
  - done.
  - subst. assert (map_Forall (λ _ e, re_as_of e - hours 1 < filed_key (demo_point 60 6 "1m"))
      (reference_cache (run (take 2 demo_cached)))) as Hall
      by (apply (bool_decide_unpack _); by vm_compute).
    exact (Hall s e He).
  - by destruct earlier.
Defined.

(** The side condition is needed: a reading thirty seconds after the one-hour
    cutoff of a cached entry, filed under the cutoff's own minute. *)
Definition late_point : PricePoint :=
  {| pp_symbol := "BTC"; pp_timestamp := minutes 33 + seconds 30; pp_price := dint 6;
     pp_provider := "demo"; pp_is_derived := false; pp_interval := "1m" |}.

Definition late_ops : list op :=
  [OpAdd (demo_point 7 5 "1m"); OpReferences "BTC" (minutes 93); OpAdd late_point].

(** The price of the one-hour reference. *)
Definition hour_price (refs : result (list (string * option PricePoint))) : option decimal :=
  match refs with
  | Ok l => match assoc_get "1h" l with Some (Some p) => Some (pp_price p) | _ => None end
  | Raise _ => None
  end.

(** A late observation can leave a stale answer.  After a reading is filed
    under the minute of a cached entry's one-hour cutoff, although it was made
    half a minute later, the cache keeps answering the previous one-hour
    reference while the rings already hold the newer one. *)
Theorem late_observation_stale :
  hour_price (snd <$> change_references (run late_ops) "BTC" (minutes 93)) = Some (dint 5) ∧
  hour_price (fresh_references (run late_ops) "BTC" (minutes 93)) = Some (dint 6).
Proof. split; vm_compute; reflexivity. Qed.
