(* ===== verification/Snapshots.v ===== *)
(** * Properties of the sharded snapshot store *)

From S2P Require Import Prelude PyStr PyDecimal PyTime Domain Cache.
Import SnapshotStore.

Local Open Scope string_scope.
Local Open Scope list_scope.
Local Open Scope Z_scope.

Section snapshots.
Context (hash : string → Z).

(** Every snapshot sits in the shard of its own symbol, under that symbol. *)
Definition store_ok (s : t) : Prop :=
  (0 < length (shards s))%nat ∧
  ∀ i shard sym q, shards s !! i = Some shard → shard !! sym = Some q →
    i = shard_index hash s sym ∧ snapshot_symbol q = sym.

Lemma shard_index_lt s sym : (0 < length (shards s))%nat →
  (shard_index hash s sym < length (shards s))%nat.
Proof.
  intros H. unfold shard_index.
  pose proof (Z.mod_pos_bound (hash sym) (Z.of_nat (length (shards s))) ltac:(lia)). lia.
Qed.

(** Whether a publication replaces what the store holds for its symbol. *)
Definition supersedes (current : option QuoteSnapshot) (q : QuoteSnapshot) : bool :=
  match current with
  | Some c => bool_decide (snapshot_as_of c ≤ snapshot_as_of q)
  | None => true
  end.

Lemma publish_lookup s q :
  store_ok s →
  store_ok (publish hash s q) ∧
  length (shards (publish hash s q)) = length (shards s) ∧
  ∀ sym, get hash (publish hash s q) sym =
    if decide (snapshot_symbol q = sym ∧ supersedes (get hash s sym) q = true)
    then Some q else get hash s sym.
Proof.
  intros [Hlen Hok]. set (x := snapshot_symbol q).
  pose proof (shard_index_lt s x Hlen) as Hi.
  destruct (lookup_lt_is_Some_2 _ _ Hi) as [shard Hshard].
  set (s' := {| shards := <[shard_index hash s x := <[x := q]> shard]> (shards s) |}).
  assert (Hcur : get hash s x = shard !! x) by (unfold get; by rewrite Hshard).
  assert (Hpub : publish hash s q = if supersedes (get hash s x) q then s' else s).
  { unfold publish. fold x. rewrite Hcur, Hshard. simpl default. unfold supersedes.
    destruct (shard !! x) as [c|]; [|done].
    destruct (decide (snapshot_as_of q < snapshot_as_of c)).
    - by rewrite bool_decide_false by lia.
    - by rewrite bool_decide_true by lia. }
  assert (Hidx : ∀ sym, shard_index hash s' sym = shard_index hash s sym).
  { intros sym. unfold shard_index, s'. simpl. by rewrite length_insert. }
  rewrite Hpub. destruct (supersedes (get hash s x) q) eqn:Hsup.
  2: { split_and!; [done|done|]. intros sym. rewrite decide_False; [done|].
       intros [<- Hs2]. congruence. }
  split_and!.
  - split; [unfold s'; simpl; by rewrite length_insert|]. intros i sh sym r.
    rewrite Hidx. unfold s'. simpl. rewrite list_lookup_insert.
    case_decide as Hii; [|by apply Hok]. destruct Hii as [<- _]. intros [= <-].
    rewrite lookup_insert. case_decide as Hsym; [intros [= <-]; by subst|]. by apply Hok.
  - unfold s'. simpl. by rewrite length_insert.
  - intros sym. unfold get. rewrite Hidx. unfold s' at 1. cbn [shards].
    rewrite list_lookup_insert. destruct (decide (x = sym)) as [<-|Hne].
    + rewrite !decide_True by done. simpl. by rewrite lookup_insert_eq.
    + rewrite (decide_False (P := x = sym ∧ _)) by tauto.
      case_decide as Hii; [|done]. destruct Hii as [<- _]. rewrite Hshard. simpl.
      by rewrite lookup_insert_ne.
Qed.

Lemma init_ok n s : init n = Ok s → store_ok s ∧ length (shards s) = Z.to_nat n ∧
  ∀ sym, get hash s sym = None.
Proof.
  unfold init. intros Hb. destruct (bool_decide (n ≤ 0)) eqn:Hn; [done|]. injection Hb as <-.
  apply bool_decide_eq_false in Hn. cbn [shards]. rewrite length_replicate.
  assert (Hempty : ∀ i shard, replicate (Z.to_nat n) (∅ : gmap string QuoteSnapshot) !! i = Some shard →
    shard = ∅) by (intros i shard [-> _]%lookup_replicate; done).
  split_and!; [split; [cbn; rewrite length_replicate; lia|]|done|].
  - intros i shard sym q H%Hempty. subst. by rewrite lookup_empty.
  - intros sym. unfold get. cbn [shards]. destruct (replicate _ _ !! _) as [shard|] eqn:E; [|done].
    apply Hempty in E as ->. apply lookup_empty.
Qed.

(** [q] is the newest publication of [sym], the last one among equals. *)
Definition newest (l : list QuoteSnapshot) (sym : string) (q : QuoteSnapshot) : Prop :=
  ∃ l1 l2, l = l1 ++ q :: l2 ∧ snapshot_symbol q = sym ∧
    (∀ r, r ∈ l1 → snapshot_symbol r = sym → snapshot_as_of r ≤ snapshot_as_of q) ∧
    (∀ r, r ∈ l2 → snapshot_symbol r = sym → snapshot_as_of r < snapshot_as_of q).

Definition get_spec (l : list QuoteSnapshot) (sym : string) (o : option QuoteSnapshot) : Prop :=
  match o with
  | Some q => newest l sym q
  | None => ∀ r, r ∈ l → snapshot_symbol r ≠ sym
  end.

Lemma get_spec_snoc l sym o q :
  get_spec l sym o →
  get_spec (l ++ [q]) sym (if decide (snapshot_symbol q = sym ∧ supersedes o q = true)
                           then Some q else o).
Proof.
  intros Ho. case_decide as Hq.
  - destruct Hq as [Hsym Hsup]. exists l, []. split_and!; [done..| |by intros r ?%elem_of_nil].
    intros r Hr Hrs. destruct o as [c|]; [|by destruct (Ho r Hr)].
    apply bool_decide_eq_true in Hsup. destruct Ho as (l1 & l2 & -> & _ & H1 & H2).
    apply elem_of_app in Hr as [Hr|[->|Hr]%elem_of_cons]; [|done|].
    + specialize (H1 r Hr Hrs). lia.
    + specialize (H2 r Hr Hrs). lia.
  - destruct o as [c|].
    + destruct Ho as (l1 & l2 & -> & Hs & H1 & H2). exists l1, (l2 ++ [q]).
      rewrite <- app_assoc. split_and!; [done..|].
      intros r [Hr| ->%list_elem_of_singleton]%elem_of_app Hrs; [by apply H2|].
      apply Decidable.not_and in Hq as [|Hsup]; [done| |unfold Decidable.decidable].
      * unfold supersedes in Hsup. rewrite bool_decide_eq_true in Hsup. lia.
      * destruct (decide (snapshot_symbol q = sym)); tauto.
    + intros r [Hr| ->%list_elem_of_singleton]%elem_of_app Hrs; [by apply (Ho r)|]. by apply Hq.
Qed.

Lemma publish_list s l0 l :
  store_ok s → (∀ sym, get_spec l0 sym (get hash s sym)) →
  store_ok (foldl (publish hash) s l) ∧
  length (shards (foldl (publish hash) s l)) = length (shards s) ∧
  ∀ sym, get_spec (l0 ++ l) sym (get hash (foldl (publish hash) s l) sym).
Proof.
  revert s l0. induction l as [|q l IH]; intros s l0 Hs Hspec; simpl; [by rewrite app_nil_r|].
  destruct (publish_lookup s q Hs) as (Hs' & Hlen & Hget).
  destruct (IH (publish hash s q) (l0 ++ [q]) Hs') as (? & ? & H).
  { intros sym. rewrite Hget. by apply get_spec_snoc. }
  rewrite <- app_assoc in H. split_and!; [done|congruence|done].
Qed.

(** ** The merged view *)

Lemma foldl_union_lookup (l : list (gmap string QuoteSnapshot)) acc sym :
  foldl (λ combined shard, shard ∪ combined) acc l !! sym =
  match last (filter (λ m : gmap string QuoteSnapshot, is_Some (m !! sym)) l) with
  | Some m => m !! sym
  | None => acc !! sym
  end.
Proof.
  revert acc. induction l as [|m l IH] using rev_ind; intros acc; [done|].
  rewrite foldl_app. simpl. rewrite lookup_union, IH, filter_app, last_app, filter_cons.
  set (o := match last _ with Some _ => _ | None => acc !! sym end).
  destruct (m !! sym) as [q|] eqn:E.
  - rewrite decide_True by eauto. simpl. rewrite E. by destruct o.
  - rewrite decide_False by (by intros []). simpl. unfold o.
    by destruct (last _) as [m'|]; [destruct (m' !! sym)|destruct (acc !! sym)].
Qed.

Lemma all_lookup s sym : store_ok s → all s !! sym = get hash s sym.
Proof.
  intros [Hlen Hok]. unfold all, get. rewrite foldl_union_lookup.
  destruct (lookup_lt_is_Some_2 _ _ (shard_index_lt s sym Hlen)) as [shard Hshard].
  rewrite Hshard. simpl. destruct (last _) as [m|] eqn:E.
  - apply last_elem_of, list_elem_of_filter in E as [[q Hq] [i Hi]%list_elem_of_lookup].
    destruct (Hok i m sym q Hi Hq) as [-> _]. congruence.
  - apply last_None in E. rewrite lookup_empty. destruct (shard !! sym) as [q|] eqn:Hq; [|done].
    exfalso. apply (not_elem_of_nil shard). rewrite <- E. apply list_elem_of_filter.
    split; [by eauto|]. by eapply list_elem_of_lookup_2.
Qed.

(** ** Properties *)

(** After any sequence of publications into a fresh store, [get] returns
    for each symbol the snapshot with the newest [as_of] (the last published
    among equals), nothing when the symbol was never published, and [all] is
    the same mapping: an out-of-order publication never replaces newer data
    whatever the sharding. *)
Theorem snapshot_latest (n : Z) (s : t) (l : list QuoteSnapshot) (sym : string) :
  init n = Ok s →
  let s' := foldl (publish hash) s l in
  get_spec l sym (get hash s' sym) ∧ all s' !! sym = get hash s' sym.
Proof.
  intros (Hs & _ & Hempty)%init_ok. cbv zeta.
  destruct (publish_list s [] l Hs) as (Hs' & _ & Hspec).
  { intros sym'. rewrite Hempty. by intros r ?%elem_of_nil. }
  split; [apply Hspec|by apply all_lookup].
Qed.

End snapshots.

Definition demo_snapshot (symbol : string) (as_of : Z) : QuoteSnapshot :=
  {| qs_quote := {| pq_symbol := symbol; pq_price := dint 7; pq_as_of := as_of;
       pq_provider := "demo"; pq_feed := "demo"; pq_price_basis := "last";
       pq_market_status := "open"; pq_is_derived := false; pq_components := [];
       pq_fallback_level := 0; pq_license_scope := "personal"; pq_coverage := None;
       pq_market_status_as_of := None |};
     qs_changes := []; qs_dividend := None; qs_estimated_annual_yield := None;
     qs_published_at := as_of |}.

Lemma snapshot_latest_witness :
  let h := λ s, Z.of_nat (String.length s) in
  let l := [demo_snapshot "BTC" 5; demo_snapshot "QQQM" 4; demo_snapshot "BTC" 3] in
  let s' := foldl (publish h) {| shards := [∅; ∅] |} l in
  init 2 = Ok {| shards := [∅; ∅] |} ∧
  get h s' "BTC" = Some (demo_snapshot "BTC" 5) ∧
  get_spec l "BTC" (get h s' "BTC") ∧ all s' !! "BTC" = get h s' "BTC".
Proof.
  cbv zeta. split; [reflexivity|]. split; [vm_compute; reflexivity|].
  apply (snapshot_latest (λ s, Z.of_nat (String.length s)) 2); reflexivity.
Defined.
