(* ===== verification/Synthetic.v ===== *)
(** * Synthetic quotes and histories ([providers/synthetic.py])

    A cross is computed from two component observations (or one, for an
    inverse) that must be fresh and close in time.  The component resolver is a
    parameter: what its two awaits deliver, and which of them failed first. *)

From S2P Require Import Prelude PyStr PyDecimal PyTime Domain Analytics.

Local Open Scope string_scope.
Local Open Scope list_scope.
Local Open Scope Z_scope.

(** ** Quotes *)

Definition SyntheticComponentError (provider_name msg : string) : exn :=
  ProviderError PESyntheticComponent provider_name msg None.

(** [max_age is not None and check_time - t > max_age] *)
Definition older_than (max_age : option Z) (check_time t : Z) : bool :=
  match max_age with Some m => bool_decide (m < check_time - t) | None => false end.

Definition validate_components (provider_name : string) (lft rgt : ProviderQuote)
    (max_skew now : Z) (left_max_age right_max_age : option Z) : result Z :=
  _ ← raise_if (bool_decide (max_skew < 0)) (ValueError "max_skew cannot be negative");
  let left_time := pq_as_of lft in
  let right_time := pq_as_of rgt in
  _ ← raise_if (bool_decide (max_skew < Z.abs (left_time - right_time)))
        (SyntheticComponentError provider_name "component timestamps exceed maximum skew");
  _ ← raise_if (bool_decide (now + seconds 5 < left_time ∨ now + seconds 5 < right_time))
        (SyntheticComponentError provider_name "component timestamp is in the future");
  _ ← raise_if (older_than left_max_age now left_time)
        (SyntheticComponentError provider_name "left component is stale");
  _ ← raise_if (older_than right_max_age now right_time)
        (SyntheticComponentError provider_name "right component is stale");
  Ok (Z.min left_time right_time).

Definition market_status (lft rgt : ProviderQuote) : string :=
  if decide (pq_market_status lft = pq_market_status rgt) then pq_market_status lft
  else if decide ("unknown" ∈ [pq_market_status lft; pq_market_status rgt]) then "unknown"
  else "closed".

Inductive binary_op := Multiply | Divide.

#[export] Instance binary_op_eq_dec : EqDecision binary_op.
Proof. solve_decision. Defined.

Definition op_name (op : binary_op) : string :=
  match op with Multiply => "multiply" | Divide => "divide" end.

Definition op_roles (op : binary_op) : string * string :=
  match op with
  | Multiply => ("multiplicand", "multiplier")
  | Divide => ("numerator", "denominator")
  end.

(** [left.price * right.price if operation == "multiply" else left.price / right.price] *)
Definition op_price (op : binary_op) (a b : decimal) : result decimal :=
  match op with Multiply => Ok (dmul a b) | Divide => ddiv a b end.

(** The component of one leg, then those the leg was itself derived from. *)
Definition leg_component (q : ProviderQuote) (role : string) : result SourceComponent :=
  SourceComponent_init
    {| sc_symbol := pq_symbol q; sc_provider := pq_provider q; sc_price := DFinite (pq_price q);
       sc_as_of := Aware (pq_as_of q); sc_feed := Some (pq_feed q); sc_role := Some role |}.

(** [f"{role}_{child.role or 'component'}"] *)
Definition child_role (role : string) (child : option string) : string :=
  let name := match child with
              | Some r => if truthy r then r else "component"
              | None => "component"
              end in
  role +:+ "_" +:+ name.

Definition child_component (role : string) (c : SourceComponent) : result SourceComponent :=
  SourceComponent_init
    {| sc_symbol := sc_symbol c; sc_provider := sc_provider c; sc_price := DFinite (sc_price c);
       sc_as_of := Aware (sc_as_of c); sc_feed := sc_feed c;
       sc_role := Some (child_role role (sc_role c)) |}.

Definition leg_components (q : ProviderQuote) (role : string) : result (list SourceComponent) :=
  own ← leg_component q role;
  children ← map_result (child_component role) (pq_components q);
  Ok (own :: children).

Definition synthetic_quote (symbol : string) (lft rgt : ProviderQuote) (op : binary_op)
    (max_skew now : Z) (left_max_age right_max_age : option Z) (provider_name : string)
    : result ProviderQuote :=
  as_of ← validate_components provider_name lft rgt max_skew now left_max_age right_max_age;
  price ← match op_price op (pq_price lft) (pq_price rgt) with
          | Ok p => Ok p
          | Raise _ => Raise (SyntheticComponentError provider_name "invalid component arithmetic")
          end;
  _ ← raise_if (negb (bool_decide (is_pos price)))
        (SyntheticComponentError provider_name "synthetic price is not positive");
  lefts ← leg_components lft (op_roles op).1;
  rights ← leg_components rgt (op_roles op).2;
  ProviderQuote_init
    {| pq_symbol := upper (strip symbol);
       pq_price := DFinite price;
       pq_as_of := Aware as_of;
       pq_provider := provider_name;
       pq_feed := join "+" (dedup [pq_feed lft; pq_feed rgt]);
       pq_price_basis := "synthetic_" +:+ op_name op;
       pq_market_status := market_status lft rgt;
       pq_is_derived := true;
       pq_components := lefts ++ rights;
       pq_fallback_level := Z.max (pq_fallback_level lft) (pq_fallback_level rgt);
       pq_license_scope :=
         if decide (pq_license_scope lft = pq_license_scope rgt) then pq_license_scope lft
         else "most_restrictive_component_terms";
       pq_coverage := Some "derived_from_components";
       pq_market_status_as_of := None |}.

Definition synthesize_multiplication (symbol : string) (lft rgt : ProviderQuote)
    (max_skew now : Z) (left_max_age right_max_age : option Z) (provider_name : string) :=
  synthetic_quote symbol lft rgt Multiply max_skew now left_max_age right_max_age provider_name.

Definition synthesize_division (symbol : string) (numerator denominator : ProviderQuote)
    (max_skew now : Z) (numerator_max_age denominator_max_age : option Z)
    (provider_name : string) :=
  synthetic_quote symbol numerator denominator Divide max_skew now
    numerator_max_age denominator_max_age provider_name.

Definition synthesize_inverse (symbol : string) (source : ProviderQuote) (now : Z)
    (maximum_age : option Z) (provider_name : string) : result ProviderQuote :=
  let source_time := pq_as_of source in
  _ ← raise_if (bool_decide (now + seconds 5 < source_time))
        (SyntheticComponentError provider_name "component timestamp is in the future");
  _ ← raise_if (older_than maximum_age now source_time)
        (SyntheticComponentError provider_name "component is stale");
  price ← match ddiv (dint 1) (pq_price source) with
          | Ok p => Ok p
          | Raise _ => Raise (SyntheticComponentError provider_name "invalid component arithmetic")
          end;
  _ ← raise_if (negb (bool_decide (is_pos price)))
        (SyntheticComponentError provider_name "synthetic price is not positive");
  components ← leg_components source "denominator";
  ProviderQuote_init
    {| pq_symbol := upper (strip symbol);
       pq_price := DFinite price;
       pq_as_of := Aware source_time;
       pq_provider := provider_name;
       pq_feed := pq_feed source;
       pq_price_basis := "synthetic_inverse";
       pq_market_status := pq_market_status source;
       pq_is_derived := true;
       pq_components := components;
       pq_fallback_level := pq_fallback_level source;
       pq_license_scope := pq_license_scope source;
       pq_coverage := Some "derived_from_components";
       pq_market_status_as_of := None |}.

(** ** Recipes and the quote provider *)

Inductive recipe_op := Inverse | Binary (op : binary_op).

#[export] Instance recipe_op_eq_dec : EqDecision recipe_op.
Proof. solve_decision. Defined.

Record SyntheticRecipe := {
  sr_symbol : string;
  sr_left_symbol : string;
  sr_right_symbol : string;
  sr_operation : recipe_op;
  sr_max_skew : Z;
  sr_left_max_age : option Z;
  sr_right_max_age : option Z;
  sr_provider_name : string;
}.

(** The recipe table both providers build: a later recipe of a symbol wins. *)
Definition recipe_table (recipes : list SyntheticRecipe) : gmap string SyntheticRecipe :=
  foldl (λ m r, <[upper (strip (sr_symbol r)) := r]> m) ∅ recipes.

(** [asyncio.gather(left, right)]: when both fail, the first failure in time. *)
Definition gather {A B} (right_first : bool) (l : result A) (r : result B) : result (A * B) :=
  match l, r with
  | Ok a, Ok b => Ok (a, b)
  | Raise e, Ok _ => Raise e
  | Ok _, Raise e => Raise e
  | Raise e, Raise e' => Raise (if right_first then e' else e)
  end.

(** [SyntheticQuoteProvider.get_quote] *)
Definition get_quote (recipes : gmap string SyntheticRecipe)
    (resolver : string → result ProviderQuote) (right_first : bool) (now : Z) (symbol : string)
    : result ProviderQuote :=
  let normalized := upper (strip symbol) in
  match recipes !! normalized with
  | None => Raise (ProviderError PEUnsupported "synthetic"
                     ("unsupported symbol " +:+ normalized) None)
  | Some recipe =>
    match sr_operation recipe with
    | Inverse =>
      source ← resolver (sr_left_symbol recipe);
      synthesize_inverse normalized source now (sr_left_max_age recipe) (sr_provider_name recipe)
    | Binary op =>
      legs ← gather right_first (resolver (sr_left_symbol recipe))
               (resolver (sr_right_symbol recipe));
      match op with
      | Multiply =>
        synthesize_multiplication normalized legs.1 legs.2 (sr_max_skew recipe) now
          (sr_left_max_age recipe) (sr_right_max_age recipe) (sr_provider_name recipe)
      | Divide =>
        synthesize_division normalized legs.1 legs.2 (sr_max_skew recipe) now
          (sr_left_max_age recipe) (sr_right_max_age recipe) (sr_provider_name recipe)
      end
    end
  end.

(** ** Histories *)

Definition history_point (recipe : SyntheticRecipe) (timestamp : Z) (price : decimal)
    (interval : string) : result PricePoint :=
  PricePoint_init
    {| pp_symbol := sr_symbol recipe; pp_timestamp := Aware timestamp;
       pp_price := DFinite price; pp_provider := sr_provider_name recipe;
       pp_is_derived := true; pp_interval := interval |}.

(** The end of a loop body: skip an undefined or non-positive price, otherwise
    append the point and go on. *)
Definition append_price (recipe : SyntheticRecipe) (timestamp : Z) (price : result decimal)
    (interval : string) (rest : result (list PricePoint)) : result (list PricePoint) :=
  match price with
  | Raise _ => rest
  | Ok p =>
    if decide (is_pos p) then
      x ← history_point recipe timestamp p interval; xs ← rest; Ok (x :: xs)
    else rest
  end.

Fixpoint inverse_history (recipe : SyntheticRecipe) (interval : string) (l : list PricePoint)
    : result (list PricePoint) :=
  match l with
  | [] => Ok []
  | source :: l' =>
    append_price recipe (pp_timestamp source) (ddiv (dint 1) (pp_price source)) interval
      (inverse_history recipe interval l')
  end.

(** [while right_index < len(...) and right_ordered[right_index].timestamp <= left.timestamp] *)
Fixpoint advance (t : Z) (last_right : option PricePoint) (rights : list PricePoint)
    : option PricePoint * list PricePoint :=
  match rights with
  | [] => (last_right, [])
  | r :: rights' =>
    if decide (pp_timestamp r ≤ t) then advance t (Some r) rights' else (last_right, rights)
  end.

Fixpoint binary_history (recipe : SyntheticRecipe) (op : binary_op) (interval : string)
    (lefts : list PricePoint) (last_right : option PricePoint) (rights : list PricePoint)
    : result (list PricePoint) :=
  match lefts with
  | [] => Ok []
  | lft :: lefts' =>
    let '(last_right', rights') := advance (pp_timestamp lft) last_right rights in
    let rest := binary_history recipe op interval lefts' last_right' rights' in
    match last_right' with
    | None => rest
    | Some r =>
      if decide (sr_max_skew recipe < pp_timestamp lft - pp_timestamp r) then rest
      else append_price recipe (pp_timestamp lft) (op_price op (pp_price lft) (pp_price r))
             interval rest
    end
  end.

(** [result[-max(0, limit):]] when a limit is given. *)
Definition apply_limit {A} (limit : option Z) (l : list A) : list A :=
  match limit with Some n => slice_last (Z.max 0 n) l | None => l end.

Definition synthesize_history (recipe : SyntheticRecipe) (left_points right_points : list PricePoint)
    (interval : string) (limit : option Z) : result (list PricePoint) :=
  let left_ordered := sort_by pp_timestamp left_points in
  points ← match sr_operation recipe with
           | Inverse => inverse_history recipe interval left_ordered
           | Binary op =>
             binary_history recipe op interval left_ordered None
               (sort_by pp_timestamp right_points)
           end;
  Ok (apply_limit limit points).

(** What [SyntheticHistoryProvider] asks its resolver for. *)
Record history_request := {
  hr_symbol : string;
  hr_interval : string;
  hr_start : Z;
  hr_end : Z;
  hr_limit : option Z;
}.

Definition is_empty {A} (l : list A) : bool := match l with [] => true | _ => false end.

(** [SyntheticHistoryProvider.get_history] *)
Definition get_history (recipes : gmap string SyntheticRecipe)
    (resolver : history_request → result (list PricePoint)) (right_first : bool)
    (symbol interval : string) (start end_ : Z) (limit : option Z)
    : result (list PricePoint) :=
  let normalized := upper (strip symbol) in
  match recipes !! normalized with
  | None => Raise (ProviderError PEUnsupported "synthetic_history"
                     ("unsupported symbol " +:+ normalized) None)
  | Some recipe =>
    let left_request := {| hr_symbol := sr_left_symbol recipe; hr_interval := interval;
                           hr_start := start; hr_end := end_; hr_limit := limit |} in
    let right_request := {| hr_symbol := sr_right_symbol recipe; hr_interval := interval;
                            hr_start := start - sr_max_skew recipe; hr_end := end_;
                            hr_limit := (λ n, n + 1) <$> limit |} in
    legs ← match sr_operation recipe with
           | Inverse => l ← resolver left_request; Ok (l, [])
           | Binary _ => gather right_first (resolver left_request) (resolver right_request)
           end;
    points ← synthesize_history recipe legs.1 legs.2 interval limit;
    _ ← raise_if (negb (is_empty legs.1) &&
                  (negb (is_empty legs.2) || bool_decide (sr_operation recipe = Inverse)) &&
                  is_empty points)
          (SyntheticComponentError (sr_provider_name recipe)
             "historical component timestamps have no valid overlap");
    Ok points
  end.
