(* ===== verification/SyntheticFacts.v ===== *)
(** * Properties of synthetic quotes and histories

    The two-pointer merge of [synthesize_history] against a pointwise
    reference, the references of virtual histories in the cache against the
    same synthesis, and what a synthetic quote guarantees of its components. *)

From S2P Require Import Prelude PyStr PyDecimal PyTime Graph Domain Analytics Cache CacheFacts.
From S2P Require Import CacheReads Synthetic.

Local Open Scope string_scope.
Local Open Scope list_scope.
Local Open Scope Z_scope.

(** ** A history as the contributions of its left points *)

(** Skip the absent contributions, stop at the first failing one. *)
Fixpoint collect {A} (l : list (option (result A))) : result (list A) :=
  match l with
  | [] => Ok []
  | None :: l' => collect l'
  | Some m :: l' => x ← m; xs ← collect l'; Ok (x :: xs)
  end.

(** The contribution of one observation priced at [price]. *)
Definition contribution (recipe : SyntheticRecipe) (interval : string) (timestamp : Z)
    (price : result decimal) : option (result PricePoint) :=
  match price with
  | Raise _ => None
  | Ok p => if decide (is_pos p) then Some (history_point recipe timestamp p interval) else None
  end.

(** The reference: each left point meets the latest right point at or before
    it, if that one is recent enough. *)
Definition left_contribution (recipe : SyntheticRecipe) (interval : string)
    (rights : list PricePoint) (lft : PricePoint) : option (result PricePoint) :=
  match sr_operation recipe with
  | Inverse =>
    contribution recipe interval (pp_timestamp lft) (ddiv (dint 1) (pp_price lft))
  | Binary op =>
    match latest_at_or_before (pp_timestamp lft) rights with
    | None => None
    | Some r =>
      if decide (sr_max_skew recipe < pp_timestamp lft - pp_timestamp r) then None
      else contribution recipe interval (pp_timestamp lft)
             (op_price op (pp_price lft) (pp_price r))
    end
  end.

Lemma left_contribution_inverse recipe interval rights l :
  sr_operation recipe = Inverse →
  left_contribution recipe interval rights l =
  contribution recipe interval (pp_timestamp l) (ddiv (dint 1) (pp_price l)).
Proof. unfold left_contribution. by intros ->. Qed.

Lemma left_contribution_binary recipe op interval rights l :
  sr_operation recipe = Binary op →
  left_contribution recipe interval rights l =
  match latest_at_or_before (pp_timestamp l) rights with
  | None => None
  | Some r =>
    if decide (sr_max_skew recipe < pp_timestamp l - pp_timestamp r) then None
    else contribution recipe interval (pp_timestamp l) (op_price op (pp_price l) (pp_price r))
  end.
Proof. unfold left_contribution. by intros ->. Qed.

Lemma append_price_collect recipe t price interval l :
  append_price recipe t price interval (collect l) =
  collect (contribution recipe interval t price :: l).
Proof. unfold append_price, contribution. destruct price; [by case_decide|done]. Qed.

Lemma inverse_history_collect recipe interval rights l :
  sr_operation recipe = Inverse →
  inverse_history recipe interval l = collect (left_contribution recipe interval rights <$> l).
Proof.
  intros Hop. induction l as [|x l IH]; [done|]. cbn [inverse_history fmap list_fmap].
  rewrite IH, append_price_collect. by rewrite left_contribution_inverse.
Qed.

(** Advancing the right pointer finds the latest right point so far. *)
Lemma advance_spec t seen rights :
  wsorted pp_timestamp (seen ++ rights) →
  (∀ x, x ∈ seen → pp_timestamp x ≤ t) →
  ∃ seen' rights', advance t (last seen) rights = (last seen', rights') ∧
    seen ++ rights = seen' ++ rights' ∧ (∀ x, x ∈ seen' → pp_timestamp x ≤ t) ∧
    latest_at_or_before t (seen ++ rights) = last seen'.
Proof.
  revert seen. induction rights as [|r rights IH]; intros seen Hs Hle; simpl.
  - exists seen, []. split_and!; [done..|]. rewrite latest_at_or_before_last, app_nil_r.
    by rewrite filter_all.
  - case_decide as Hr.
    + destruct (IH (seen ++ [r])) as (seen' & rights' & H).
      { by rewrite <- app_assoc. }
      { intros x [Hx| ->%list_elem_of_singleton]%elem_of_app; auto. }
      rewrite last_snoc, <- app_assoc in H. eauto.
    + exists seen, (r :: rights). split_and!; [done..|].
      rewrite latest_at_or_before_last, filter_app, (filter_all _ seen) by done.
      rewrite (filter_none _ (r :: rights)), app_nil_r; [done|].
      intros x [->|Hx]%elem_of_cons; [done|].
      assert (wsorted pp_timestamp (r :: rights)) as [_ Hall]%StronglySorted_inv.
      { clear -Hs. induction seen as [|y seen IH]; [done|].
        apply StronglySorted_inv in Hs as [Hs _]. auto. }
      rewrite Forall_forall in Hall. specialize (Hall x Hx). lia.
Qed.

Lemma binary_history_collect recipe op interval lefts seen rights :
  sr_operation recipe = Binary op →
  wsorted pp_timestamp lefts → wsorted pp_timestamp (seen ++ rights) →
  (∀ x l, x ∈ seen → l ∈ lefts → pp_timestamp x ≤ pp_timestamp l) →
  binary_history recipe op interval lefts (last seen) rights =
  collect (left_contribution recipe interval (seen ++ rights) <$> lefts).
Proof.
  intros Hop. revert seen rights. induction lefts as [|l lefts IH]; intros seen rights Hl Hr Hle;
    [done|]. cbn [binary_history fmap list_fmap].
  apply StronglySorted_inv in Hl as [Hl Hall]. rewrite Forall_forall in Hall.
  destruct (advance_spec (pp_timestamp l) seen rights Hr) as (seen' & rights' & Ha & Heq & Hle' & Hlast).
  { intros x Hx. apply Hle; [done|by left]. }
  rewrite Ha, Heq, IH; [|done|by rewrite <- Heq|].
  2: { intros x l' Hx Hl'. specialize (Hle' x Hx). specialize (Hall l' Hl'). lia. }
  rewrite (left_contribution_binary _ op), <- Heq, Hlast, Heq by done.
  destruct (last seen') as [r|]; [|done]. case_decide; [done|]. apply append_price_collect.
Qed.

Lemma synthesize_history_collect recipe lefts rights interval limit :
  synthesize_history recipe lefts rights interval limit =
  apply_limit limit <$> collect
    (left_contribution recipe interval (sort_by pp_timestamp rights) <$>
       sort_by pp_timestamp lefts).
Proof.
  unfold synthesize_history. destruct (sr_operation recipe) as [|op] eqn:Hop.
  - rewrite (inverse_history_collect _ _ (sort_by pp_timestamp rights)) by done.
    by destruct (collect _).
  - change (@None PricePoint) with (last (@nil PricePoint)).
    rewrite (binary_history_collect recipe op interval _ []);
      [by destruct (collect _)|done|apply sort_by_sorted..|by intros ?? ?%elem_of_nil].
Qed.

(** ** The most recent contribution *)

Lemma collect_ok {A} (l : list (option (result A))) xs :
  collect l = Ok xs → omap id l = Ok <$> xs.
Proof.
  revert xs. induction l as [|[m|] l IH]; intros xs; simpl.
  - by intros [= <-].
  - intros (x & -> & (ys & Hys & [= <-])%result_bind_ok)%result_bind_ok.
    simpl. f_equal. by apply IH.
  - apply IH.
Qed.

Lemma omap_id_fmap {A B} (f : A → option B) (l : list A) : omap id (f <$> l) = omap f l.
Proof. induction l as [|x l IH]; [done|]. simpl. destruct (f x); [f_equal|]; exact IH. Qed.

Lemma omap_none {A B} (f : A → option B) (l : list A) :
  (∀ x, x ∈ l → f x = None) → omap f l = [].
Proof.
  induction l as [|x l IH]; intros Hf; [done|]. simpl. rewrite Hf by (by left).
  apply IH. intros y Hy. apply Hf. by right.
Qed.

Lemma omap_reverse {A B} (f : A → option B) (l : list A) : omap f (reverse l) = reverse (omap f l).
Proof.
  induction l as [|x l IH]; [done|]. rewrite reverse_cons, omap_app, IH. simpl.
  destruct (f x); [by rewrite reverse_cons|by rewrite app_nil_r].
Qed.

Lemma contribution_timestamp recipe interval t price p :
  contribution recipe interval t price = Some (Ok p) → pp_timestamp p = t.
Proof.
  unfold contribution, history_point. destruct price as [d|]; [|done]. case_decide; [|done].
  intros [= (_ & _ & Ht & _)%PricePoint_init_ok]. by injection Ht.
Qed.

Lemma left_contribution_timestamp recipe interval rights l p :
  left_contribution recipe interval rights l = Some (Ok p) → pp_timestamp p = pp_timestamp l.
Proof.
  unfold left_contribution. destruct (sr_operation recipe); [apply contribution_timestamp|].
  destruct (latest_at_or_before _ _); [|done]. case_decide; [done|]. apply contribution_timestamp.
Qed.

(** The latest history point before a cutoff is the first contribution among
    the left points before it, newest first. *)
Lemma history_latest recipe interval rights lefts xs cutoff :
  collect (left_contribution recipe interval rights <$> lefts) = Ok xs →
  head (omap (left_contribution recipe interval rights)
          (filter (λ p, pp_timestamp p ≤ cutoff) (reverse lefts))) =
  Ok <$> latest_at_or_before cutoff xs.
Proof.
  intros Hc%collect_ok. rewrite omap_id_fmap in Hc.
  rewrite filter_reverse, omap_reverse, head_reverse, latest_at_or_before_last.
  assert (omap (left_contribution recipe interval rights)
            (filter (λ p, pp_timestamp p ≤ cutoff) lefts) =
          Ok <$> filter (λ p, pp_timestamp p ≤ cutoff) xs) as ->.
  { revert xs Hc. induction lefts as [|l lefts IH]; intros xs Hc; simpl in Hc.
    { destruct xs; [done|discriminate]. }
    rewrite filter_cons. destruct (left_contribution recipe interval rights l) as [m|] eqn:E.
    - destruct xs as [|x xs]; [discriminate|]. simpl in Hc. injection Hc as -> Hc.
      rewrite filter_cons, (left_contribution_timestamp _ _ _ _ _ E).
      case_decide; [|by apply IH]. simpl. rewrite E. f_equal. by apply IH.
    - case_decide; [simpl; rewrite E|]; by apply IH. }
  by rewrite fmap_last.
Qed.

(** ** The cache's virtual references *)

(** A cache recipe and the synthetic recipe it was registered from. *)
Definition same_recipe (symbol : string) (r : HistoryCache.recipe) (recipe : SyntheticRecipe) : Prop :=
  sr_symbol recipe = symbol ∧ sr_provider_name recipe = HistoryCache.rc_provider r ∧
  sr_max_skew recipe = HistoryCache.rc_max_skew r ∧
  match sr_operation recipe with
  | Inverse => HistoryCache.rc_operation r = "inverse" ∧
      HistoryCache.rc_inputs r = [sr_left_symbol recipe]
  | Binary op => HistoryCache.rc_operation r = op_name op ∧
      HistoryCache.rc_inputs r = [sr_left_symbol recipe; sr_right_symbol recipe]
  end.

Section virtual.
Context (symbol : string) (r : HistoryCache.recipe) (recipe : SyntheticRecipe)
  (i : HistoryCache.interval).
Hypothesis Hsame : same_recipe symbol r recipe.

Let interval := HistoryCache.interval_name i.

Lemma inverse_scan_spec rights lefts :
  sr_operation recipe = Inverse →
  HistoryCache.inverse_scan symbol r i lefts =
  head (omap (left_contribution recipe interval rights) lefts).
Proof.
  intros Hop. destruct Hsame as (Hs & Hp & _). induction lefts as [|l lefts IH]; [done|].
  cbn [HistoryCache.inverse_scan]. simpl. rewrite left_contribution_inverse by done.
  unfold contribution. destruct (ddiv _ _) as [d|]; [|done]. case_decide; [|done].
  simpl. unfold history_point. by rewrite Hs, Hp.
Qed.

(** The right points the scan may still use, newest first. *)
Lemma advance_right_spec l rights :
  ssorted pp_timestamp rights →
  HistoryCache.advance_right l (reverse rights) =
  reverse (filter (λ p, pp_timestamp p ≤ pp_timestamp l) rights).
Proof.
  induction rights as [|x rights IH] using rev_ind; intros Hs; [done|].
  apply ssorted_app in Hs as (Hs & _ & Hlt). rewrite reverse_snoc. simpl.
  rewrite filter_app, filter_cons. destruct (decide (pp_timestamp l < pp_timestamp x)).
  - rewrite (decide_False (P := pp_timestamp x ≤ _)) by lia. rewrite app_nil_r. by apply IH.
  - rewrite decide_True by lia. rewrite filter_nil, reverse_snoc. f_equal. f_equal.
    symmetry. apply filter_all. intros y Hy. specialize (Hlt y x Hy ltac:(by left)). lia.
Qed.

Lemma pair_scan_spec op rights lefts avail :
  sr_operation recipe = Binary op →
  ssorted pp_timestamp rights → wsorted pp_timestamp (reverse lefts) →
  (∀ l, l ∈ lefts → filter (λ p, pp_timestamp p ≤ pp_timestamp l) avail =
                    filter (λ p, pp_timestamp p ≤ pp_timestamp l) rights) →
  ssorted pp_timestamp avail →
  HistoryCache.pair_scan symbol r i lefts (reverse avail) =
  head (omap (left_contribution recipe interval rights) lefts).
Proof.
  intros Hop Hr. destruct Hsame as (Hs & Hp & Hsk & Hrec). rewrite Hop in Hrec.
  destruct Hrec as [Hrop _]. revert avail.
  induction lefts as [|l lefts IH]; intros avail Hl Hav Hsav; [done|].
  cbn [HistoryCache.pair_scan]. rewrite advance_right_spec by done.
  rewrite Hav by (by left). set (avail' := filter (λ p, pp_timestamp p ≤ pp_timestamp l) rights).
  rewrite reverse_cons in Hl.
  assert (Hle : ∀ l', l' ∈ lefts → pp_timestamp l' ≤ pp_timestamp l).
  { intros l' Hl'. eapply wsorted_snoc_inv; [exact Hl|]. by apply elem_of_reverse. }
  assert (Hl' : wsorted pp_timestamp (reverse lefts)).
  { clear -Hl. induction (reverse lefts) as [|y ys IH]; [constructor|].
    apply StronglySorted_inv in Hl as [Hl Hall]. constructor; [by apply IH|].
    rewrite Forall_app in Hall. apply Hall. }
  assert (HIH : HistoryCache.pair_scan symbol r i lefts (reverse avail') =
    head (omap (left_contribution recipe interval rights) lefts)).
  { apply IH; [done| |by apply ssorted_filter]. intros l0 Hl0. unfold avail'.
    rewrite list_filter_filter. apply list_filter_iff. specialize (Hle l0 Hl0). lia. }
  simpl. rewrite (left_contribution_binary _ op), latest_at_or_before_last by done. fold avail'.
  rewrite <- head_reverse. destruct (reverse avail') as [|x rest] eqn:E; simpl.
  { rewrite omap_none; [done|]. intros l0 Hl0.
    rewrite (left_contribution_binary _ op), latest_at_or_before_last by done.
    rewrite filter_none; [done|]. intros x Hx Hxl. specialize (Hle l0 Hl0).
    apply (not_elem_of_nil x). rewrite <- E. apply elem_of_reverse, list_elem_of_filter.
    split; [lia|done]. }
  case_decide as Hskew; rewrite <- Hsk in Hskew.
  { rewrite decide_True by done. exact HIH. }
  rewrite (decide_False (P := sr_max_skew recipe < _)) by done.
  assert ((if decide (HistoryCache.rc_operation r = "multiply")
           then Ok (dmul (pp_price l) (pp_price x)) else ddiv (pp_price l) (pp_price x)) =
          op_price op (pp_price l) (pp_price x)) as ->.
  { rewrite Hrop. by destruct op. }
  unfold contribution. destruct (op_price op _ _) as [d|]; [|exact HIH].
  case_decide; [|exact HIH]. simpl. unfold history_point. by rewrite Hs, Hp.
Qed.

End virtual.

Lemma reference_in_latest symbol r recipe i h cutoff xs :
  same_recipe symbol r recipe → rings_ok h →
  collect (left_contribution recipe (HistoryCache.interval_name i)
             (ring_of i h (sr_right_symbol recipe)) <$> ring_of i h (sr_left_symbol recipe)) = Ok xs →
  HistoryCache.synthetic_reference_in h symbol r cutoff i = Ok <$> latest_at_or_before cutoff xs.
Proof.
  intros Hsame Hh Hc. pose proof Hsame as (Hs & Hp & Hsk & Hrec).
  pose proof (history_latest _ _ _ _ _ cutoff Hc) as Hlast. rewrite <- Hlast. clear Hlast Hc xs.
  pose proof (ring_of_sorted i h (sr_left_symbol recipe) Hh) as Hl.
  pose proof (ring_of_sorted i h (sr_right_symbol recipe) Hh) as Hr.
  unfold HistoryCache.synthetic_reference_in.
  destruct (sr_operation recipe) as [|op] eqn:Hop; destruct Hrec as [Hrop ->]; cbn [lookup list_lookup default from_option id].
  - unfold ring_of. destruct (HistoryCache.rings i h !! sr_left_symbol recipe) as [[|l ls]|]; [done| |done].
    rewrite decide_True by done. cbn [default]. by apply inverse_scan_spec.
  - unfold ring_of in *. cbn in Hl.
    destruct (HistoryCache.rings i h !! sr_left_symbol recipe) as [[|l ls]|]; [done| |done].
    rewrite decide_False by (rewrite Hrop; by destruct op). cbn [default from_option].
    assert (Hnil : head (omap (left_contribution recipe (HistoryCache.interval_name i) [])
      (filter (λ p, pp_timestamp p ≤ cutoff) (reverse (l :: ls)))) = None).
    { rewrite omap_none; [done|]. intros x _. by rewrite (left_contribution_binary _ op). }
    destruct (HistoryCache.rings i h !! sr_right_symbol recipe) as [rs|]; [|done].
    destruct rs as [|x rs]; [done|]. cbn [default from_option id] in *.
    apply (pair_scan_spec symbol r recipe i Hsame op); try done.
    rewrite filter_reverse, reverse_involutive.
    apply ssorted_wsorted, ssorted_filter. exact Hl.
Qed.

(** ** Properties of histories *)

(** C37: [synthesize_history] is the pointwise reference for any input order:
    each left point, in time order, meets the latest right point at or before
    it, and contributes their product, quotient or inverse unless that right
    point is older than the maximum skew or the price is undefined; the limit
    keeps the newest points. *)
Theorem synthesize_history_reference (recipe : SyntheticRecipe) (lefts rights : list PricePoint)
    (interval : string) (limit : option Z) :
  synthesize_history recipe lefts rights interval limit =
  apply_limit limit <$>
    collect (left_contribution recipe interval (sort_by pp_timestamp rights) <$>
               sort_by pp_timestamp lefts).
Proof. apply synthesize_history_collect. Qed.

(** The reference the cache derives for a virtual symbol in one ring is the
    latest point at or before the cutoff of the history that [synthesize_history]
    builds from the same rings. *)
Theorem virtual_reference_agrees (ops : list op) (symbol : string) (r : HistoryCache.recipe)
    (recipe : SyntheticRecipe) (i : HistoryCache.interval) (cutoff : Z) (xs : list PricePoint) :
  same_recipe symbol r recipe →
  synthesize_history recipe (ring_of i (run ops) (sr_left_symbol recipe))
    (ring_of i (run ops) (sr_right_symbol recipe)) (HistoryCache.interval_name i) None = Ok xs →
  HistoryCache.synthetic_reference_in (run ops) symbol r cutoff i =
  Ok <$> latest_at_or_before cutoff xs.
Proof.
  intros Hsame. pose proof (rings_ok_run ops) as Hh. rewrite synthesize_history_collect.
  rewrite !ssorted_sort_id by (by apply ring_of_sorted). intros Hc.
  apply (reference_in_latest _ _ recipe); [done..|].
  revert Hc. by destruct (collect _).
Qed.

Definition demo_ratio : SyntheticRecipe :=
  {| sr_symbol := "BTC-ETH"; sr_left_symbol := "BTC"; sr_right_symbol := "ETH";
     sr_operation := Binary Divide; sr_max_skew := minutes 2; sr_left_max_age := None;
     sr_right_max_age := None; sr_provider_name := "synthetic" |}.

Definition demo_ratio_entry : HistoryCache.recipe :=
  {| HistoryCache.rc_inputs := ["BTC"; "ETH"]; HistoryCache.rc_operation := "divide";
     HistoryCache.rc_max_skew := minutes 2; HistoryCache.rc_provider := "synthetic" |}.

Definition demo_eth (m price : Z) : PricePoint :=
  {| pp_symbol := "ETH"; pp_timestamp := minutes m; pp_price := dint price;
     pp_provider := "demo"; pp_is_derived := false; pp_interval := "1m" |}.

Definition demo_ops : list op :=
  [OpAdd (demo_point 7 6 "1m"); OpAdd (demo_eth 6 3); OpAdd (demo_point 9 8 "1m");
   OpAdd (demo_eth 1 4)].

Lemma virtual_reference_agrees_witness :
  match synthesize_history demo_ratio (ring_of HistoryCache.I1m (run demo_ops) "BTC")
          (ring_of HistoryCache.I1m (run demo_ops) "ETH") "1m" None with
  | Ok xs => length xs = 1%nat ∧
      HistoryCache.synthetic_reference_in (run demo_ops) "BTC-ETH" demo_ratio_entry (minutes 8)
        HistoryCache.I1m = Ok <$> latest_at_or_before (minutes 8) xs
  | Raise _ => False
  end.
Proof.
  destruct (synthesize_history _ _ _ _ _) as [xs|e] eqn:E; [|vm_compute in E; discriminate].
  split; [vm_compute in E; by injection E as <-|].
  apply (virtual_reference_agrees demo_ops "BTC-ETH" demo_ratio_entry demo_ratio
           HistoryCache.I1m (minutes 8) xs); [repeat split|exact E].
Defined.

(** ** Synthetic quotes *)

Definition valid_component (c : SourceComponent) : Prop :=
  is_pos (sc_price c) ∧ float_representable (sc_price c).

(** A quote whose price and derivation were validated by their constructors. *)
Definition sound_quote (q : ProviderQuote) : Prop :=
  valid_quote q ∧ ∀ c, c ∈ pq_components q → valid_component c.

(** When two observations may be combined at [now]. *)
Definition fresh_pair (lft rgt : ProviderQuote) (max_skew now : Z)
    (left_max_age right_max_age : option Z) : Prop :=
  Z.abs (pq_as_of lft - pq_as_of rgt) ≤ max_skew ∧
  pq_as_of lft ≤ now + seconds 5 ∧ pq_as_of rgt ≤ now + seconds 5 ∧
  (∀ m, left_max_age = Some m → now - pq_as_of lft ≤ m) ∧
  (∀ m, right_max_age = Some m → now - pq_as_of rgt ≤ m).

Lemma older_than_false m now t : older_than m now t = false ↔ ∀ a, m = Some a → now - t ≤ a.
Proof.
  destruct m as [a|]; simpl; [|naive_solver]. rewrite bool_decide_eq_false. split.
  - intros H a' [= <-]. lia.
  - intros H. specialize (H a eq_refl). lia.
Qed.

Lemma validate_components_ok name lft rgt skew now la ra :
  0 ≤ skew → fresh_pair lft rgt skew now la ra →
  validate_components name lft rgt skew now la ra = Ok (Z.min (pq_as_of lft) (pq_as_of rgt)).
Proof.
  intros Hs (H1 & H2 & H3 & H4%older_than_false & H5%older_than_false).
  unfold validate_components. rewrite H4, H5, !bool_decide_false; [done|lia..].
Qed.

Lemma validate_components_stale name lft rgt skew now la ra :
  0 ≤ skew → ¬ fresh_pair lft rgt skew now la ra →
  ∃ msg, validate_components name lft rgt skew now la ra = Raise (SyntheticComponentError name msg).
Proof.
  intros Hs Hn. unfold validate_components.
  rewrite (bool_decide_false (skew < 0)) by lia. cbn [raise_if mbind result_bind].
  destruct (bool_decide (skew < _)) eqn:E1; [by eexists|apply bool_decide_eq_false in E1].
  destruct (bool_decide (now + _ < _ ∨ _)) eqn:E2; [by eexists|apply bool_decide_eq_false in E2].
  destruct (older_than la _ _) eqn:E3; [by eexists|].
  destruct (older_than ra _ _) eqn:E4; [by eexists|]. exfalso. apply Hn.
  split_and!; try lia; by apply older_than_false.
Qed.

(** What identifies a component: symbol, price and observation time. *)
Definition component_key (c : SourceComponent) : string * decimal * Z :=
  (sc_symbol c, sc_price c, sc_as_of c).

Definition leg_keys (q : ProviderQuote) : list (string * decimal * Z) :=
  (pq_symbol q, pq_price q, pq_as_of q) :: (component_key <$> pq_components q).

Lemma SourceComponent_init_valid c price as_of :
  sc_price c = DFinite price → sc_as_of c = Aware as_of → is_pos price →
  float_representable price →
  ∃ r, SourceComponent_init c = Ok r ∧ component_key r = (sc_symbol c, price, as_of) ∧
    valid_component r.
Proof.
  intros Hp Ha Hpos Hrep. unfold SourceComponent_init. rewrite Hp, Ha. cbn [decimal_of ensure_utc].
  rewrite (bool_decide_true (float_representable price)) by done.
  cbn [negb raise_if mbind result_bind]. rewrite (bool_decide_true (is_pos price)) by done.
  eexists. split; [done|]. split; [done|]. by split.
Qed.

Lemma child_component_ok role c :
  valid_component c →
  ∃ r, child_component role c = Ok r ∧ component_key r = component_key c ∧ valid_component r.
Proof. intros [Hp Hr]. by apply SourceComponent_init_valid. Qed.

Lemma leg_components_ok q role :
  sound_quote q →
  ∃ cs, leg_components q role = Ok cs ∧ component_key <$> cs = leg_keys q ∧
    ∀ c, c ∈ cs → valid_component c.
Proof.
  intros [(Hpos & _ & _ & Hrep) Hch]. unfold leg_components, leg_component.
  edestruct SourceComponent_init_valid as (own & -> & Hown & Hvown); [done..|].
  cbn [mbind result_bind].
  assert (∃ cs, map_result (child_component role) (pq_components q) = Ok cs ∧
    component_key <$> cs = component_key <$> pq_components q ∧
    ∀ c, c ∈ cs → valid_component c) as (cs & -> & Hcs & Hv).
  { revert Hch. clear. induction (pq_components q) as [|c l IH]; intros Hch.
    { exists []. split_and!; [done..|by intros ? ?%elem_of_nil]. }
    destruct IH as (cs & Hm & Hk & Hv); [intros; apply Hch; by right|].
    destruct (Hch c) as [Hp Hr]; [by left|].
    destruct (child_component_ok role c) as (own & Hown' & Hown & Hvown); [by split|].
    cbn [map_result]. rewrite Hown'.
    cbn [mbind result_bind]. rewrite Hm. exists (own :: cs). split_and!; [done| |].
    - cbn. by rewrite Hown, <- Hk.
    - intros x [->|Hx]%elem_of_cons; auto. }
  exists (own :: cs). split_and!; [done| |].
  - cbn. by rewrite Hown, Hcs.
  - intros x [->|Hx]%elem_of_cons; auto.
Qed.

Lemma op_price_pos op a b :
  is_pos a → is_pos b → ∃ p, op_price op a b = Ok p ∧ is_pos p.
Proof.
  intros Ha Hb. destruct op; [exists (dmul a b); split; [done|by apply dmul_pos]|].
  by apply ddiv_pos.
Qed.

Lemma market_status_valid lft rgt :
  valid_quote lft → valid_quote rgt → market_status lft rgt ∈ ["open"; "closed"; "unknown"].
Proof.
  intros (_ & _ & H & _) _. unfold market_status. repeat case_decide; [done|set_solver..].
Qed.

Lemma market_status_open lft rgt :
  market_status lft rgt = "open" ↔ pq_market_status lft = "open" ∧ pq_market_status rgt = "open".
Proof.
  unfold market_status. destruct (decide _) as [<-|Hne]; [tauto|].
  split; [by case_decide|]. intros [E1 E2]. congruence.
Qed.

Lemma ProviderQuote_init_valid q price as_of status_as_of :
  pq_price q = DFinite price → pq_as_of q = Aware as_of →
  pq_market_status_as_of q = Aware <$> status_as_of →
  is_pos price → float_representable price → 0 ≤ pq_fallback_level q →
  pq_market_status q ∈ ["open"; "closed"; "unknown"] →
  ∃ r, ProviderQuote_init q = Ok r.
Proof.
  intros Hp Ha Hs Hpos Hrep Hf Hm. unfold ProviderQuote_init. rewrite Hp, Ha, Hs.
  assert (option_result ensure_utc (Aware <$> status_as_of) = Ok status_as_of) as ->
    by by destruct status_as_of.
  cbn [decimal_of ensure_utc].
  rewrite (bool_decide_true (float_representable price)) by done.
  cbn [negb raise_if mbind result_bind]. rewrite (bool_decide_true (is_pos price)) by done.
  rewrite (bool_decide_false (pq_fallback_level q < 0)) by lia.
  cbn [negb raise_if mbind result_bind]. rewrite bool_decide_true by done. by eexists.
Qed.

(** What a synthetic quote of a fresh pair says. *)
Definition synthetic_quote_spec (symbol : string) (lft rgt : ProviderQuote) (price : decimal)
    (name : string) (q : ProviderQuote) : Prop :=
  sound_quote q ∧ pq_symbol q = upper (strip symbol) ∧ pq_price q = price ∧
  pq_provider q = name ∧ pq_is_derived q = true ∧
  pq_as_of q = Z.min (pq_as_of lft) (pq_as_of rgt) ∧
  component_key <$> pq_components q = leg_keys lft ++ leg_keys rgt ∧
  pq_fallback_level q = Z.max (pq_fallback_level lft) (pq_fallback_level rgt) ∧
  (pq_market_status q = "open" ↔ pq_market_status lft = "open" ∧ pq_market_status rgt = "open").

Lemma synthetic_quote_fresh symbol lft rgt op skew now la ra name :
  sound_quote lft → sound_quote rgt → 0 ≤ skew → fresh_pair lft rgt skew now la ra →
  ∃ price, op_price op (pq_price lft) (pq_price rgt) = Ok price ∧ is_pos price ∧
    (float_representable price →
     ∃ q, synthetic_quote symbol lft rgt op skew now la ra name = Ok q ∧
       synthetic_quote_spec symbol lft rgt price name q).
Proof.
  intros Hl Hr Hs Hf. pose proof Hl as [Hvl _]. pose proof Hr as [Hvr _].
  destruct (op_price_pos op (pq_price lft) (pq_price rgt)) as (price & Hop & Hpos);
    [apply Hvl|apply Hvr|].
  exists price. split_and!; [done..|]. intros Hrep. unfold synthetic_quote.
  rewrite validate_components_ok, Hop by done. cbn [mbind result_bind].
  rewrite bool_decide_true by done. cbn [negb raise_if].
  destruct (leg_components_ok lft (op_roles op).1 Hl) as (ls & -> & Hls & Hvls).
  destruct (leg_components_ok rgt (op_roles op).2 Hr) as (rs & -> & Hrs & Hvrs).
  cbn [mbind result_bind].
  edestruct (ProviderQuote_init_valid) with (status_as_of := @None Z) as [q Hq];
    [..|exists q; split; [exact Hq|]]; try done.
  { cbn. destruct Hvl as (_ & ? & _), Hvr as (_ & ? & _). lia. }
  { by apply market_status_valid. }
  apply ProviderQuote_init_ok in Hq. cbn in Hq. unfold synthetic_quote_spec, sound_quote.
  destruct Hq as (Hv & -> & [= ->] & [= ->] & -> & Hcs & Hms & -> & ->).
  split_and!; try done.
  - rewrite Hcs. intros c [Hc|Hc]%elem_of_app; auto.
  - by rewrite Hcs, fmap_app, Hls, Hrs.
  - rewrite Hms. apply market_status_open.
Qed.

(** ** Properties of quotes *)

(** Combining two validated observations with a non-negative maximum skew
    either fails with [SyntheticComponentError], exactly when their timestamps
    differ by more than the skew, lie over five seconds in the future or exceed
    a maximum age; or it yields a validated derived quote with the positive
    product or quotient, dated by the older leg, whose components list both
    legs with everything they were derived from, and which is open only when
    both legs are. *)
Theorem synthetic_quote_correct (symbol : string) (lft rgt : ProviderQuote) (op : binary_op)
    (skew now : Z) (la ra : option Z) (name : string) :
  sound_quote lft → sound_quote rgt → 0 ≤ skew →
  (fresh_pair lft rgt skew now la ra →
   ∃ price, op_price op (pq_price lft) (pq_price rgt) = Ok price ∧ is_pos price ∧
     (float_representable price →
      ∃ q, synthetic_quote symbol lft rgt op skew now la ra name = Ok q ∧
        synthetic_quote_spec symbol lft rgt price name q)) ∧
  (¬ fresh_pair lft rgt skew now la ra →
   ∃ msg, synthetic_quote symbol lft rgt op skew now la ra name =
            Raise (SyntheticComponentError name msg)).
Proof.
  intros Hl Hr Hs. split; [by apply synthetic_quote_fresh|]. intros Hn.
  destruct (validate_components_stale name lft rgt skew now la ra Hs Hn) as [msg Hv].
  exists msg. unfold synthetic_quote. by rewrite Hv.
Qed.

Definition demo_quote (symbol : string) (price as_of : Z) : ProviderQuote :=
  {| pq_symbol := symbol; pq_price := dint price; pq_as_of := as_of; pq_provider := "demo";
     pq_feed := "demo"; pq_price_basis := "last"; pq_market_status := "open";
     pq_is_derived := false; pq_components := []; pq_fallback_level := 0;
     pq_license_scope := "personal"; pq_coverage := None; pq_market_status_as_of := None |}.

Lemma demo_quote_sound symbol price as_of :
  0 < price → float_representable (dint price) → sound_quote (demo_quote symbol price as_of).
Proof.
  intros Hp Hr. split; [|by intros c ?%elem_of_nil].
  split_and!; [done|done|cbn; set_solver|done].
Qed.

Lemma synthetic_quote_correct_witness :
  ∃ q, synthetic_quote " btc-eth" (demo_quote "BTC" 6 5) (demo_quote "ETH" 3 7) Divide 2 9
         None (Some 2) "synthetic" = Ok q ∧ pq_as_of q = 5 ∧ pq_symbol q = "BTC-ETH".
Proof.
  destruct (synthetic_quote_correct " btc-eth" (demo_quote "BTC" 6 5) (demo_quote "ETH" 3 7)
    Divide 2 9 None (Some 2) "synthetic") as [H _].
  - apply demo_quote_sound; [done|apply (bool_decide_unpack _); by vm_compute].
  - apply demo_quote_sound; [done|apply (bool_decide_unpack _); by vm_compute].
  - done.
  - destruct H as (price & Hop & Hpos & H).
    { repeat split; cbn; try done; intros m [= <-]; cbn; lia. }
    destruct H as (q & Hq & Hspec).
    + vm_compute in Hop. injection Hop as <-. change (float_representable (dint 2)).
      apply (bool_decide_unpack _); by vm_compute.
    + exists q. split; [exact Hq|].
      destruct Hspec as (_ & Hsym & _ & _ & _ & Has_of & _). clear Hq.
      split; [rewrite Has_of|rewrite Hsym]; reflexivity.
Defined.
