(* ===== verification/Fx.v ===== *)
(** * Foreign exchange over USD spokes ([fx.py], [providers/fx.py])

    The built-in currency universe, the spokes a pair needs, and the providers
    that derive every pair without a vendor from its spokes. *)

From S2P Require Import Prelude PyStr PyDecimal PyTime Domain Analytics Synthetic.
From Stdlib Require Import Ascii.

Local Open Scope string_scope.
Local Open Scope list_scope.
Local Open Scope Z_scope.

(** ** The topology *)

Definition FX_CURRENCIES : list string := ["USD"; "EUR"; "GBP"; "HKD"; "SGD"; "CNH"].

Definition FX_CURRENCY_NAMES : list (string * string) :=
  [("USD", "United States Dollar"); ("EUR", "Euro"); ("GBP", "British Pound Sterling");
   ("HKD", "Hong Kong Dollar"); ("SGD", "Singapore Dollar"); ("CNH", "Offshore Chinese Yuan")].

Definition pair_symbol (base quote : string) : string := base +:+ ":" +:+ quote.

Definition FX_HUB_SYMBOLS : list string :=
  pair_symbol "USD" <$> filter (λ c, c ≠ "USD") FX_CURRENCIES.

Definition FX_SYMBOLS : list string :=
  concat ((λ base, pair_symbol base <$> filter (λ quote, base ≠ quote) FX_CURRENCIES)
            <$> FX_CURRENCIES).

Definition split_fx_symbol (symbol : string) : result (string * string) :=
  let normalized := upper (strip symbol) in
  match split_once ":"%char normalized with
  | (_, None) => Raise (ValueError ("invalid FX symbol " +:+ normalized))
  | (base, Some quote) =>
    _ ← raise_if (bool_decide (base = quote ∨ base ∉ FX_CURRENCIES ∨ quote ∉ FX_CURRENCIES))
          (ValueError ("unsupported FX symbol " +:+ normalized));
    Ok (base, quote)
  end.

Definition hub_symbol (currency : string) : result string :=
  let normalized := upper (strip currency) in
  _ ← raise_if (bool_decide (normalized = "USD" ∨ normalized ∉ FX_CURRENCIES))
        (ValueError ("no USD hub symbol for " +:+ normalized));
  Ok (pair_symbol "USD" normalized).

Definition fx_hub_requirements (symbol : string) : result (list string) :=
  pair ← split_fx_symbol symbol;
  let '(base, quote) := pair in
  if decide (base = "USD") then h ← hub_symbol quote; Ok [h]
  else if decide (quote = "USD") then h ← hub_symbol base; Ok [h]
  else hq ← hub_symbol quote; hb ← hub_symbol base; Ok [hq; hb].

(** [_CURRENCY_PATTERN] *)
Definition currency_tail (c : ascii) : bool :=
  is_upper c || is_digit c || bool_decide (c = "."%char ∨ c = "_"%char ∨ c = "-"%char).

Definition currency_pattern (s : string) : bool :=
  match s with
  | "" => false
  | String c s' => is_upper c && str_all currency_tail s' &&
                   bool_decide (String.length s' ≤ 15)%nat
  end.

Definition dynamic_fx_requirements (symbol : string) : result (list string) :=
  let normalized := upper (strip symbol) in
  match split_on ":"%char normalized with
  | [base; quote] =>
    _ ← raise_if (bool_decide (base = quote) ||
                  negb (currency_pattern base && currency_pattern quote))
          (ValueError ("invalid FX symbol " +:+ normalized));
    Ok (if decide (base = "USD") then [pair_symbol "USD" quote]
        else if decide (quote = "USD") then [pair_symbol "USD" base]
        else [pair_symbol "USD" quote; pair_symbol "USD" base])
  | _ => Raise (ValueError ("invalid FX symbol " +:+ normalized))
  end.

(** ** The quote provider *)

Definition FX_MAX_SKEW : Z := minutes 20.

Definition validate_single_component (source : ProviderQuote) (now max_age : Z)
    (provider_name : string) : result Z :=
  _ ← raise_if (bool_decide (now + seconds 5 < pq_as_of source))
        (SyntheticComponentError provider_name "component timestamp is in the future");
  _ ← raise_if (bool_decide (max_age < now - pq_as_of source))
        (SyntheticComponentError provider_name "component is stale");
  Ok (pq_as_of source).

Definition synthesize_fx_inverse (symbol : string) (source : ProviderQuote) (now max_age : Z)
    (provider_name : string) : result ProviderQuote :=
  as_of ← validate_single_component source now max_age provider_name;
  price ← match ddiv (dint 1) (pq_price source) with
          | Ok p => Ok p
          | Raise _ => Raise (SyntheticComponentError provider_name "invalid component arithmetic")
          end;
  c ← leg_component source "denominator";
  ProviderQuote_init
    {| pq_symbol := upper (strip symbol);
       pq_price := DFinite price;
       pq_as_of := Aware as_of;
       pq_provider := provider_name;
       pq_feed := pq_feed source;
       pq_price_basis := "synthetic_inverse";
       pq_market_status := pq_market_status source;
       pq_is_derived := true;
       pq_components := [c];
       pq_fallback_level := pq_fallback_level source;
       pq_license_scope := pq_license_scope source;
       pq_coverage := Some "derived_from_components";
       pq_market_status_as_of := Aware <$> pq_market_status_as_of source |}.

(** The requirement table both providers normalise. *)
Definition normalize_requirements (l : list (string * list string)) : gmap string (list string) :=
  foldl (λ m e, <[upper (strip e.1) := (λ s, upper (strip s)) <$> e.2]> m) ∅ l.

Definition unsupported {A} (name msg : string) : result A :=
  Raise (ProviderError PEUnsupported name msg None).

(** [requirements[i]] *)
Definition nth_requirement {A} (l : list A) (i : nat) : result A :=
  match l !! i with Some x => Ok x | None => Raise (OtherError "IndexError") end.

Definition age_of (max_ages : gmap string Z) (requirement : string) : result Z :=
  match max_ages !! requirement with
  | Some age => Ok age
  | None => unsupported "synthetic_fx" ("missing USD hub policy for " +:+ requirement)
  end.

(** What a derived pair is computed from: its quote currency and its spokes. *)
Definition fx_route (name : string) (requirements : gmap string (list string)) (symbol : string)
    : result (string * list string) :=
  let normalized := upper (strip symbol) in
  match split_once ":"%char normalized with
  | (_, None) => unsupported name ("unsupported FX symbol " +:+ normalized)
  | (base, Some quote_currency) =>
    if decide (base = "USD") then unsupported name "USD hub pairs must use direct providers"
    else match requirements !! normalized with
         | None => unsupported name ("unsupported FX symbol " +:+ normalized)
         | Some l => Ok (quote_currency, l)
         end
  end.

(** [UsdHubFxQuoteProvider.get_quote] *)
Definition fx_get_quote (requirements : gmap string (list string)) (max_ages : gmap string Z)
    (max_skew : Z) (resolver : string → result ProviderQuote) (right_first : bool) (now : Z)
    (symbol : string) : result ProviderQuote :=
  let normalized := upper (strip symbol) in
  route ← fx_route "synthetic_fx" requirements symbol;
  let '(quote_currency, spokes) := route in
  ages ← map_result (age_of max_ages) spokes;
  first ← nth_requirement spokes 0;
  first_age ← nth_requirement ages 0;
  if decide (quote_currency = "USD") then
    source ← resolver first;
    synthesize_fx_inverse normalized source now first_age "synthetic_fx"
  else
    second ← nth_requirement spokes 1;
    second_age ← nth_requirement ages 1;
    legs ← gather right_first (resolver first) (resolver second);
    synthesize_division normalized legs.1 legs.2 max_skew now (Some first_age) (Some second_age)
      "synthetic_fx".

(** ** The history provider *)

Definition inverse_point (symbol interval : string) (item : PricePoint) : result PricePoint :=
  price ← ddiv (dint 1) (pp_price item);
  PricePoint_init
    {| pp_symbol := symbol; pp_timestamp := Aware (pp_timestamp item);
       pp_price := DFinite price; pp_provider := "synthetic_fx"; pp_is_derived := true;
       pp_interval := interval |}.

(** [UsdHubFxHistoryProvider.get_history] *)
Definition fx_get_history (requirements : gmap string (list string)) (max_skew : Z)
    (resolver : history_request → result (list PricePoint)) (right_first : bool)
    (symbol interval : string) (start end_ : Z) (limit : option Z) : result (list PricePoint) :=
  let normalized := upper (strip symbol) in
  route ← fx_route "synthetic_fx_history" requirements symbol;
  let '(quote_currency, spokes) := route in
  first ← nth_requirement spokes 0;
  let first_request := {| hr_symbol := first; hr_interval := interval; hr_start := start;
                          hr_end := end_; hr_limit := limit |} in
  if decide (quote_currency = "USD") then
    source ← resolver first_request;
    points ← map_result (inverse_point normalized interval) source;
    Ok (apply_limit limit points)
  else
    second ← nth_requirement spokes 1;
    let recipe := {| sr_symbol := normalized; sr_left_symbol := first; sr_right_symbol := second;
                     sr_operation := Binary Divide; sr_max_skew := max_skew;
                     sr_left_max_age := None; sr_right_max_age := None;
                     sr_provider_name := "synthetic_fx" |} in
    legs ← gather right_first (resolver first_request)
             (resolver {| hr_symbol := second; hr_interval := interval;
                          hr_start := start - max_skew; hr_end := end_;
                          hr_limit := (λ n, n + 1) <$> limit |});
    points ← synthesize_history recipe legs.1 legs.2 interval limit;
    _ ← raise_if (negb (is_empty legs.1) && negb (is_empty legs.2) && is_empty points)
          (SyntheticComponentError "synthetic_fx_history"
             "historical component timestamps have no valid overlap");
    Ok points.
