(* ===== verification/Policy.v ===== *)
(** * Built-in instrument policy ([equities.py], [instrument_policy.py])

    The listed securities, the vendor symbol tables, the synthetic recipes and
    the provider routes the built-in catalog is compiled from.  Seconds are
    microseconds. *)

From S2P Require Import Prelude PyStr PyDecimal PyTime Graph Domain Analytics Synthetic Fx.
From Stdlib Require Import Ascii.

Local Open Scope string_scope.
Local Open Scope list_scope.
Local Open Scope Z_scope.

(** A read-only mapping with the insertion order of its keys. *)
Abbreviation mapping V := (list (string * V)).

Definition keys {V} (m : mapping V) : list string := m.*1.

(** ** Listed securities *)

Record CommonStockMetadata := {
  cm_symbol : string;
  cm_ticker : string;
  cm_name : string;
  cm_description : string;
  cm_dividend_frequency : option string;
}.

Definition QUARTERLY_DIVIDEND_STRATEGY : string := "latest_regular_cash_annualized_x4".

Definition common_stock (ticker name description : string) (frequency : option string)
    : CommonStockMetadata :=
  {| cm_symbol := ticker +:+ ":USD"; cm_ticker := ticker; cm_name := name;
     cm_description := description; cm_dividend_frequency := frequency |}.

Definition COMMON_STOCKS : list CommonStockMetadata :=
  [common_stock "AAPL" "Apple Inc."
     "A consumer technology company designing devices, software, and services."
     (Some "quarterly");
   common_stock "MSFT" "Microsoft Corporation"
     "A technology company providing software, cloud, and computing products."
     (Some "quarterly");
   common_stock "AMZN" "Amazon.com, Inc."
     "A commerce, cloud computing, logistics, and digital services company." None;
   common_stock "GOOGL" "Alphabet Inc. Class A"
     "A technology holding company operating Google and related businesses."
     (Some "quarterly");
   common_stock "META" "Meta Platforms, Inc. Class A"
     "A technology company operating social platforms and computing products."
     (Some "quarterly");
   common_stock "NVDA" "NVIDIA Corporation"
     "A computing company developing accelerated processors and software platforms."
     (Some "quarterly");
   common_stock "TSLA" "Tesla, Inc."
     "An electric vehicle, energy generation, and energy storage company." None;
   common_stock "SPCX" "Space Exploration Technologies Corp."
     ("A space transportation and communications company listed on Nasdaq after its " +:+
      "June 2026 initial public offering.") None;
   common_stock "MSTR" "Strategy Inc. Class A"
     "An enterprise analytics and Bitcoin treasury company." None;
   common_stock "CRCL" "Circle Internet Group, Inc. Class A"
     "A financial technology company providing stablecoin infrastructure." None].

Definition COMMON_STOCK_SYMBOLS : list string := cm_symbol <$> COMMON_STOCKS.

Definition QUARTERLY_STOCK_DIVIDEND_SYMBOLS : list string :=
  cm_symbol <$> filter (λ s, cm_dividend_frequency s = Some "quarterly") COMMON_STOCKS.

Definition FUND_TICKERS : mapping string :=
  [("QQQM:USD", "QQQM"); ("BOXX:USD", "BOXX"); ("SGOV:USD", "SGOV")].

Definition LISTED_TICKERS : mapping string :=
  FUND_TICKERS ++ ((λ s, (cm_symbol s, cm_ticker s)) <$> COMMON_STOCKS).

Definition LISTED_SYMBOLS : list string := keys LISTED_TICKERS.

Definition DIVIDEND_FREQUENCIES : mapping string :=
  [("QQQM:USD", "quarterly"); ("SGOV:USD", "monthly")] ++
  omap (λ s, (λ f, (cm_symbol s, f)) <$> cm_dividend_frequency s) COMMON_STOCKS.

Definition DIVIDEND_SYMBOLS : list string := keys DIVIDEND_FREQUENCIES.

(** ** Vendor symbols *)

Definition BUILTIN_BINANCE_SYMBOLS : mapping string :=
  [("BTC:USDC", "BTCUSDC"); ("ETH:USDC", "ETHUSDC"); ("SOL:USDC", "SOLUSDC");
   ("POL:USDC", "POLUSDC"); ("BNB:USDC", "BNBUSDC"); ("TRX:USDC", "TRXUSDC");
   ("WBETH:ETH", "WBETHETH"); ("WBETH:USDT", "WBETHUSDT"); ("BNSOL:SOL", "BNSOLSOL");
   ("BNSOL:USDT", "BNSOLUSDT"); ("USDC:USDT", "USDCUSDT")].

Definition BUILTIN_KRAKEN_SYMBOLS : mapping string :=
  [("BTC:USDC", "XBTUSDC"); ("ETH:USDC", "ETHUSDC"); ("SOL:USDC", "SOLUSDC");
   ("XMR:USDC", "XMRUSDC"); ("BNB:USDC", "BNBUSDC")].

Definition BUILTIN_COINGECKO_COIN_IDS : mapping string :=
  [("BTC:USDC", "bitcoin"); ("ETH:USDC", "ethereum"); ("SOL:USDC", "solana");
   ("XMR:USDC", "monero"); ("POL:USDC", "polygon-ecosystem-token");
   ("BNB:USDC", "binancecoin"); ("TRX:USDC", "tron"); ("WBETH:USDC", "wrapped-beacon-eth");
   ("BNSOL:USDC", "binance-staked-sol"); ("BETH:USDC", "okx-beth");
   ("STETH:USDC", "staked-ether"); ("WSTETH:USDC", "wrapped-steth");
   ("ETH:USD", "ethereum"); ("STETH:USD", "staked-ether"); ("WSTETH:USD", "wrapped-steth")].

Definition BUILTIN_COINGECKO_HISTORY_SYMBOLS : list string :=
  ["BETH:USDC"; "BNSOL:USDC"; "STETH:USDC"; "WSTETH:USDC"; "ETH:USD"; "STETH:USD"; "WSTETH:USD"].

Definition BUILTIN_OKX_MARKETS : mapping string :=
  [("BETH:ETH", "BETH-ETH"); ("ETH:USDC", "ETH-USDC"); ("BETH:USDT", "BETH-USDT");
   ("USDC:USDT", "USDC-USDT")].

Definition BUILTIN_OKX_INTERNAL_ALIASES : mapping string :=
  [("OKX_BETH:ETH", "BETH:ETH"); ("OKX_ETH:USDC", "ETH:USDC");
   ("OKX_BETH:USDT", "BETH:USDT"); ("OKX_USDC:USDT", "USDC:USDT")].

Definition BUILTIN_LISTED_PROVIDER_SYMBOLS : mapping (mapping string) :=
  (λ provider, (provider, LISTED_TICKERS)) <$> ["alpaca"; "finnhub"; "twelve_data"; "alpha_vantage"].

Definition BUILTIN_FX_PROVIDER_SYMBOLS : mapping string :=
  (λ s, (s, replace_char ":"%char "/"%char s)) <$> FX_HUB_SYMBOLS.

Definition BUILTIN_TWELVE_FX_CACHE_FLOOR_SECONDS : mapping Z :=
  (λ s, (s, if decide (s = "USD:CNH") then seconds 240 else seconds 900)) <$> FX_HUB_SYMBOLS.

Definition BUILTIN_FX_HUB_MAX_AGE_SECONDS : mapping Z :=
  (λ s, (s, if decide (s = "USD:CNH") then seconds 300 else seconds 1200)) <$> FX_HUB_SYMBOLS.

(** [symbol.split(":", 1)] of a pair. *)
Definition pair_parts (symbol : string) : string * string :=
  let '(base, quote) := split_once ":"%char symbol in (base, default "" quote).

Definition BUILTIN_FX_REQUIREMENTS : mapping (list string) :=
  (λ s, (s, if decide ((pair_parts s).2 = "USD") then [pair_symbol "USD" (pair_parts s).1]
            else [pair_symbol "USD" (pair_parts s).2; pair_symbol "USD" (pair_parts s).1]))
    <$> filter (λ s, startswith "USD:" s = false) FX_SYMBOLS.

(** ** Synthetic recipes *)

Record BuiltinSyntheticRecipePolicy := {
  bp_symbol : string;
  bp_operation : binary_op;
  bp_inputs : list string;
  bp_max_skew_seconds : Z;
  bp_input_max_age_seconds : list (option Z);
  bp_provider_name : string;
}.

Definition exchange_recipe (provider symbol : string) (op : binary_op) (inputs : list string) :=
  {| bp_symbol := symbol; bp_operation := op; bp_inputs := inputs;
     bp_max_skew_seconds := seconds 2;
     bp_input_max_age_seconds := [Some (seconds 15); Some (seconds 15)];
     bp_provider_name := provider |}.

Definition BUILTIN_SYNTHETIC_RECIPES : mapping BuiltinSyntheticRecipePolicy :=
  [("wbeth_primary",
      exchange_recipe "synthetic_binance" "WBETH:USDC" Multiply ["WBETH:ETH"; "ETH:USDC"]);
   ("wbeth_alternate",
      exchange_recipe "synthetic_binance" "WBETH:USDC" Divide ["WBETH:USDT"; "USDC:USDT"]);
   ("bnsol_primary",
      exchange_recipe "synthetic_binance" "BNSOL:USDC" Multiply ["BNSOL:SOL"; "SOL:USDC"]);
   ("bnsol_alternate",
      exchange_recipe "synthetic_binance" "BNSOL:USDC" Divide ["BNSOL:USDT"; "USDC:USDT"]);
   ("beth_primary",
      exchange_recipe "synthetic_okx" "BETH:USDC" Multiply ["OKX_BETH:ETH"; "OKX_ETH:USDC"]);
   ("beth_alternate",
      exchange_recipe "synthetic_okx" "BETH:USDC" Divide ["OKX_BETH:USDT"; "OKX_USDC:USDT"])].

(** ** Yield, exchange-rate and backing policies *)

Record BuiltinEthereumExchangeRatePolicy := {
  ee_symbol : string;
  ee_index_symbol : string;
  ee_underlying_asset : string;
  ee_contract_address : string;
  ee_chain_id : Z;
  ee_call_data : string;
  ee_event_topic : string;
}.

Record BuiltinStakingRatioPolicy := {
  sp_symbol : string;
  sp_staking_pair : string;
  sp_underlying_pair : string;
  sp_underlying_asset : string;
  sp_accrual_mode : RewardAccrualMode;
}.

Record BuiltinStakingBackingQuotePolicy := {
  bq_symbol : string;
  bq_ratio_symbol : string;
  bq_underlying_pair : string;
  bq_underlying_asset : string;
  bq_ratio_kind : string;
  bq_constant_ratio : string;
  bq_contract_address : option string;
  bq_chain_id : option Z;
  bq_call_data : option string;
  bq_scale : string;
}.

Record BuiltinAaveReserveYieldPolicy := {
  av_symbol : string;
  av_index_symbol : string;
  av_underlying_asset : string;
  av_underlying_contract_address : string;
  av_data_provider_address : string;
  av_chain_id : Z;
  av_call_data : string;
}.

Definition BUILTIN_ETHEREUM_EXCHANGE_RATE_POLICIES : list BuiltinEthereumExchangeRatePolicy :=
  [{| ee_symbol := "WBETH:USDC"; ee_index_symbol := "WBETH:ETH"; ee_underlying_asset := "ETH";
      ee_contract_address := "0xa2e3356610840701bdf5611a53974510ae27e2e1"; ee_chain_id := 1;
      ee_call_data := "0x3ba0b9a9";
      ee_event_topic := "0x0b4e9390054347e2a16d95fd8376311b0d2deedecba526e9742bcaa40b059f0b" |}].

(** A backing of constant ratio one, with the default scale [10**18]. *)
Definition constant_backing (symbol ratio_symbol : string) : BuiltinStakingBackingQuotePolicy :=
  {| bq_symbol := symbol; bq_ratio_symbol := ratio_symbol; bq_underlying_pair := "ETH:USDC";
     bq_underlying_asset := "ETH"; bq_ratio_kind := "constant"; bq_constant_ratio := "1";
     bq_contract_address := None; bq_chain_id := None; bq_call_data := None;
     bq_scale := "1000000000000000000" |}.

Definition BUILTIN_STAKING_BACKING_QUOTE_POLICIES : list BuiltinStakingBackingQuotePolicy :=
  [constant_backing "BETH:USDC" "BETH:ETH"; constant_backing "STETH:USDC" "STETH:ETH";
   {| bq_symbol := "WSTETH:USDC"; bq_ratio_symbol := "WSTETH:STETH";
      bq_underlying_pair := "ETH:USDC"; bq_underlying_asset := "ETH";
      bq_ratio_kind := "ethereum_call"; bq_constant_ratio := "1";
      bq_contract_address := Some "0x7f39c581f595b53c5cb19bd0b3f8da6c935e2ca0";
      bq_chain_id := Some 1; bq_call_data := Some "0x035faf82";
      bq_scale := "1000000000000000000" |};
   constant_backing "AETHWETH:USDC" "AETHWETH:WETH"].

Definition BUILTIN_AAVE_RESERVE_YIELD_POLICIES : list BuiltinAaveReserveYieldPolicy :=
  [{| av_symbol := "AETHWETH:USDC"; av_index_symbol := "AETHWETH:WETH"; av_underlying_asset := "ETH";
      av_underlying_contract_address := "0xc02aaa39b223fe8d0a0e5c4f27ead9083c756cc2";
      av_data_provider_address := "0x0a16f2fcc0d44fae41cc54e079281d84a363becd"; av_chain_id := 1;
      av_call_data :=
        "0x35ea6a75000000000000000000000000c02aaa39b223fe8d0a0e5c4f27ead9083c756cc2" |}].

(** The fields of one entry of a staking-rate table. *)
Record StakingRatePolicy := {
  rp_index_symbol : string;
  rp_underlying_asset : string;
  rp_accrual_mode : RewardAccrualMode;
  rp_method : string;
  rp_rate_history_path : string;
  rp_feed : string;
}.

Definition BUILTIN_BINANCE_STAKING_RATE_POLICIES : mapping StakingRatePolicy :=
  [("WBETH:USDC",
    {| rp_index_symbol := "WBETH:ETH"; rp_underlying_asset := "ETH";
       rp_accrual_mode := VALUE_ACCRUING; rp_method := "binance_wbeth_rate_history_apr";
       rp_rate_history_path := "/sapi/v1/eth-staking/eth/history/rateHistory";
       rp_feed := "binance_eth_staking" |});
   ("BNSOL:USDC",
    {| rp_index_symbol := "BNSOL:SOL"; rp_underlying_asset := "SOL";
       rp_accrual_mode := VALUE_ACCRUING; rp_method := "binance_bnsol_rate_history_apr";
       rp_rate_history_path := "/sapi/v1/sol-staking/sol/history/rateHistory";
       rp_feed := "binance_sol_staking" |})].

Record LidoYieldPolicy := {
  ly_provider_asset : string;
  ly_underlying_asset : string;
  ly_accrual_mode : RewardAccrualMode;
}.

Definition BUILTIN_LIDO_YIELD_POLICIES : mapping LidoYieldPolicy :=
  [("STETH:USDC", {| ly_provider_asset := "steth"; ly_underlying_asset := "ETH";
                     ly_accrual_mode := REBASING_BALANCE |});
   ("WSTETH:USDC", {| ly_provider_asset := "steth"; ly_underlying_asset := "ETH";
                      ly_accrual_mode := VALUE_ACCRUING |})].

Definition ratio_policy (symbol staking_pair underlying_pair asset : string)
    : BuiltinStakingRatioPolicy :=
  {| sp_symbol := symbol; sp_staking_pair := staking_pair; sp_underlying_pair := underlying_pair;
     sp_underlying_asset := asset; sp_accrual_mode := VALUE_ACCRUING |}.

Definition BUILTIN_STAKING_RATIO_POLICIES : list BuiltinStakingRatioPolicy :=
  [ratio_policy "WBETH:USDC" "WBETH:USDC" "ETH:USDC" "ETH";
   ratio_policy "BNSOL:USDC" "BNSOL:USDC" "SOL:USDC" "SOL";
   ratio_policy "WSTETH:USDC" "WSTETH:USD" "ETH:USD" "ETH"].

Record OkxYieldPolicy := {
  oy_component_symbol : string;
  oy_underlying_asset : string;
  oy_accrual_mode : RewardAccrualMode;
  oy_method : string;
}.

Definition BUILTIN_OKX_YIELD_SYMBOLS : mapping OkxYieldPolicy :=
  [("BETH:USDC", {| oy_component_symbol := "BETH"; oy_underlying_asset := "ETH";
                    oy_accrual_mode := DISTRIBUTED_UNITS;
                    oy_method := "okx_beth_provider_reported_apr" |})].

(** The FRED series of a Treasury proxy. *)
Definition TREASURY_3M_FRED_SERIES : string := "DGS3MO".

Record FredPolicy := {
  fr_series : string;
  fr_expense_ratio_percentage_points : string;
  fr_method : string;
  fr_component_role : string;
}.

Definition BUILTIN_FRED_POLICIES : mapping FredPolicy :=
  [("BOXX:USD", {| fr_series := TREASURY_3M_FRED_SERIES;
                   fr_expense_ratio_percentage_points := "0.1949";
                   fr_method := "treasury_3m_proxy_minus_expense";
                   fr_component_role := "treasury_3m_yield_percent" |})].

(** ** Routes *)

Abbreviation capability_routes := (list (Capability * list string)).

Definition synthetic_names (stem : string) : list string :=
  [("synthetic_" +:+ stem +:+ "_primary"); ("synthetic_" +:+ stem +:+ "_alternate")].

Definition synthetic_history_names (stem : string) : list string :=
  [("synthetic_" +:+ stem +:+ "_history_primary"); ("synthetic_" +:+ stem +:+ "_history_alternate")].

Definition crypto_routes : mapping capability_routes :=
  let two_venues := [(QUOTE, ["binance"; "kraken"; "coingecko"]); (HISTORY, ["binance"; "kraken"])] in
  let binance_only := [(QUOTE, ["binance"; "coingecko"]); (HISTORY, ["binance"])] in
  [("BTC:USDC", two_venues); ("ETH:USDC", two_venues); ("SOL:USDC", two_venues);
   ("BNB:USDC", two_venues); ("POL:USDC", binance_only); ("TRX:USDC", binance_only);
   ("XMR:USDC", [(QUOTE, ["kraken"; "coingecko"]); (HISTORY, ["kraken"])]);
   ("WBETH:USDC",
      [(QUOTE, synthetic_names "wbeth" ++ ["coingecko"]);
       (HISTORY, synthetic_history_names "wbeth");
       (YIELD, ["binance_staking_rate"; "ethereum_exchange_rate"; "staking_market_ratio_proxy"])]);
   ("BNSOL:USDC",
      [(QUOTE, synthetic_names "bnsol" ++ ["coingecko"]);
       (HISTORY, synthetic_history_names "bnsol" ++ ["coingecko"]);
       (YIELD, ["binance_staking_rate"; "staking_market_ratio_proxy"])]);
   ("BETH:USDC",
      [(QUOTE, synthetic_names "beth" ++ ["coingecko"; "staking_backing_proxy"]);
       (HISTORY, synthetic_history_names "beth" ++ ["coingecko"]);
       (YIELD, ["okx_beth_yield"])]);
   ("STETH:USDC",
      [(QUOTE, ["coingecko"; "staking_backing_proxy"]); (HISTORY, ["coingecko"]);
       (YIELD, ["lido"])]);
   ("WSTETH:USDC",
      [(QUOTE, ["coingecko"; "staking_backing_proxy"]); (HISTORY, ["coingecko"]);
       (YIELD, ["lido"; "staking_market_ratio_proxy"])]);
   ("AETHWETH:USDC",
      [(QUOTE, ["staking_backing_proxy"]); (HISTORY, ["staking_backing_proxy"]);
       (YIELD, ["aave_v3"])])].

Definition listed_routes : mapping capability_routes :=
  (λ symbol,
    (symbol,
     [(QUOTE, ["alpaca"; "finnhub"; "twelve_data"; "alpha_vantage"]);
      (HISTORY, ["alpaca"; "twelve_data"; "alpha_vantage"])] ++
     (if decide (symbol ∈ DIVIDEND_SYMBOLS) then [(DIVIDEND, ["alpaca"])] else []) ++
     (if decide (symbol ∈ keys BUILTIN_FRED_POLICIES) then [(YIELD, ["fred"])] else [])))
    <$> LISTED_SYMBOLS.

Definition fx_routes : mapping capability_routes :=
  (λ symbol,
    (symbol,
     if decide (symbol ∈ FX_HUB_SYMBOLS) then
       [(QUOTE, ["twelve_data"; "alpha_vantage"]); (HISTORY, ["twelve_data"; "alpha_vantage"])]
     else [(QUOTE, ["synthetic_fx"]); (HISTORY, ["synthetic_fx_history"])]))
    <$> FX_SYMBOLS.

Definition BUILTIN_PROVIDER_ROUTES : mapping capability_routes :=
  crypto_routes ++ listed_routes ++ fx_routes.

(** [builtin_provider_symbols]: a later table of a provider overwrites. *)
Definition vendor_tables : mapping (mapping string) :=
  [("binance", BUILTIN_BINANCE_SYMBOLS); ("kraken", BUILTIN_KRAKEN_SYMBOLS);
   ("coingecko", BUILTIN_COINGECKO_COIN_IDS)] ++
  BUILTIN_LISTED_PROVIDER_SYMBOLS ++
  [("twelve_data", BUILTIN_FX_PROVIDER_SYMBOLS); ("alpha_vantage", BUILTIN_FX_PROVIDER_SYMBOLS)].

Definition builtin_provider_symbols (symbol : string) : gmap string string :=
  let canonical := upper (strip symbol) in
  let bindings :=
    foldl (λ m (pt : string * mapping string),
             match assoc_get canonical pt.2 with
             | Some vendor => <[pt.1 := vendor]> m
             | None => m
             end) ∅ vendor_tables in
  match assoc_get canonical BUILTIN_FRED_POLICIES with
  | Some fred => <["fred" := fr_series fred]> bindings
  | None => bindings
  end.

(** ** Checks over the tables *)

(** The providers that translate a symbol through their own table. *)
Definition vendors : list string := keys vendor_tables ++ ["fred"].

(** The pairs a virtual provider of a route reads, if it is one. *)
Definition recipe_provider_names (recipe_name : string) : list string :=
  let stem := (split_once "_"%char recipe_name).1 in
  let kind := default "" (split_once "_"%char recipe_name).2 in
  [("synthetic_" +:+ stem +:+ "_" +:+ kind); ("synthetic_" +:+ stem +:+ "_history_" +:+ kind)].

Definition synthetic_inputs (symbol provider : string) : option (list string) :=
  if decide (provider = "synthetic_fx" ∨ provider = "synthetic_fx_history")
  then assoc_get symbol BUILTIN_FX_REQUIREMENTS
  else
    match filter (λ e, provider ∈ recipe_provider_names e.1) BUILTIN_SYNTHETIC_RECIPES with
    | (_, r) :: _ => if decide (bp_symbol r = symbol) then Some (bp_inputs r) else None
    | [] => None
    end.

(** A pair some exchange or vendor quotes directly. *)
Definition vendor_backed (symbol : string) : bool :=
  bool_decide (builtin_provider_symbols symbol ≠ ∅) ||
  bool_decide (symbol ∈ keys BUILTIN_OKX_INTERNAL_ALIASES).

(** The backing policy of a symbol, over a routed pair. *)
Definition backed (symbol : string) : bool :=
  existsb (λ p, bool_decide (bq_symbol p = symbol ∧ bq_underlying_pair p ∈ keys BUILTIN_PROVIDER_ROUTES))
    BUILTIN_STAKING_BACKING_QUOTE_POLICIES.

(** What a yield provider knows of a symbol: the underlying asset and, where
    its policy says, how rewards accrue. *)
Definition yield_policies (provider : string) : mapping (string * option RewardAccrualMode) :=
  if decide (provider = "binance_staking_rate") then
    (λ e, (e.1, (rp_underlying_asset e.2, Some (rp_accrual_mode e.2)))) <$>
      BUILTIN_BINANCE_STAKING_RATE_POLICIES
  else if decide (provider = "ethereum_exchange_rate") then
    (λ p, (ee_symbol p, (ee_underlying_asset p, None))) <$> BUILTIN_ETHEREUM_EXCHANGE_RATE_POLICIES
  else if decide (provider = "staking_market_ratio_proxy") then
    (λ p, (sp_symbol p, (sp_underlying_asset p, Some (sp_accrual_mode p)))) <$>
      BUILTIN_STAKING_RATIO_POLICIES
  else if decide (provider = "okx_beth_yield") then
    (λ e, (e.1, (oy_underlying_asset e.2, Some (oy_accrual_mode e.2)))) <$> BUILTIN_OKX_YIELD_SYMBOLS
  else if decide (provider = "lido") then
    (λ e, (e.1, (ly_underlying_asset e.2, Some (ly_accrual_mode e.2)))) <$>
      BUILTIN_LIDO_YIELD_POLICIES
  else if decide (provider = "aave_v3") then
    (λ p, (av_symbol p, (av_underlying_asset p, None))) <$> BUILTIN_AAVE_RESERVE_YIELD_POLICIES
  else [].

(** One provider of a route can serve the symbol: a vendor translates it (and,
    for CoinGecko histories, supports it), a synthetic provider has a recipe
    over vendor-backed pairs, a staking or Treasury provider has a policy. *)
Definition serves (symbol : string) (capability : Capability) (provider : string) : bool :=
  if decide (capability = DIVIDEND) then
    bool_decide (provider = "alpaca") && bool_decide (symbol ∈ DIVIDEND_SYMBOLS)
  else if decide (capability = YIELD) then
    if decide (provider = "fred") then bool_decide (symbol ∈ keys BUILTIN_FRED_POLICIES)
    else bool_decide (symbol ∈ keys (yield_policies provider))
  else if decide (provider ∈ vendors) then
    bool_decide (is_Some (builtin_provider_symbols symbol !! provider)) &&
    (negb (bool_decide (capability = HISTORY ∧ provider = "coingecko")) ||
     bool_decide (symbol ∈ BUILTIN_COINGECKO_HISTORY_SYMBOLS))
  else if startswith "synthetic_" provider then
    match synthetic_inputs symbol provider with
    | Some inputs => bool_decide (inputs ≠ []) && forallb vendor_backed inputs
    | None => false
    end
  else bool_decide (provider = "staking_backing_proxy") && backed symbol.

Definition chain_ok (symbol : string) (e : Capability * list string) : bool :=
  bool_decide (e.2 ≠ []) && bool_decide (NoDup e.2) && bool_decide (length e.2 ≤ 4)%nat &&
  forallb (serves symbol e.1) e.2.

Definition routes_ok (e : string * capability_routes) : bool :=
  bool_decide (QUOTE ∈ e.2.*1) && bool_decide (HISTORY ∈ e.2.*1) && bool_decide (NoDup e.2.*1) &&
  forallb (chain_ok e.1) e.2.
