(* ===== verification/PolicyFacts.v ===== *)
(** * Properties of the currency topology and the built-in policy

    The spokes of every built-in pair, the price the hub provider derives from
    them, and the consistency of the compiled routes. *)

From S2P Require Import Prelude PyStr PyDecimal PyTime Graph Domain Analytics Synthetic SyntheticFacts Fx Policy.
From Stdlib Require Import Ascii.

Local Open Scope string_scope.
Local Open Scope list_scope.
Local Open Scope Z_scope.

(** ** The built-in currency pairs *)

Definition table_of {V} (m : mapping V) : gmap string V := list_to_map m.

(** The pairs of the universe whose base is not the hub. *)
Definition cross_pairs : list (string * string) :=
  filter (λ p, p.1 ≠ "USD" ∧ p.1 ≠ p.2)
    (concat ((λ base, (base,.) <$> FX_CURRENCIES) <$> FX_CURRENCIES)).

Lemma cross_pairs_elem base quote :
  base ∈ FX_CURRENCIES → quote ∈ FX_CURRENCIES → base ≠ "USD" → base ≠ quote →
  (base, quote) ∈ cross_pairs.
Proof.
  intros Hb Hq Hu Hn. apply list_elem_of_filter. split; [done|].
  apply list_elem_of_In, in_concat. exists ((base,.) <$> FX_CURRENCIES).
  rewrite <- !list_elem_of_In.
  split; [by apply (list_elem_of_fmap_2 (λ b, (b,.) <$> FX_CURRENCIES))|by apply list_elem_of_fmap_2].
Qed.

(** The spokes of a pair, numerator first. *)
Definition spokes (base quote : string) : list string :=
  if decide (quote = "USD") then [pair_symbol "USD" base]
  else [pair_symbol "USD" quote; pair_symbol "USD" base].

Definition builtin_requirements : gmap string (list string) :=
  normalize_requirements BUILTIN_FX_REQUIREMENTS.

Definition builtin_max_ages : gmap string Z := table_of BUILTIN_FX_HUB_MAX_AGE_SECONDS.

(** The age an observation of a spoke may have. *)
Definition spoke_age (currency : string) : Z :=
  if decide (currency = "CNH") then seconds 300 else seconds 1200.

Definition spoke_ages (base quote : string) : list Z :=
  if decide (quote = "USD") then [spoke_age base] else [spoke_age quote; spoke_age base].

(** What both providers look up for a pair. *)
Definition route_is (name : string) (p : string * string) : bool :=
  let symbol := pair_symbol p.1 p.2 in
  bool_decide (upper (strip symbol) = symbol) &&
  match fx_route name builtin_requirements symbol with
  | Ok (c, l) =>
    bool_decide (c = p.2 ∧ l = spokes p.1 p.2) &&
    match map_result (age_of builtin_max_ages) l with
    | Ok ages => bool_decide (ages = spoke_ages p.1 p.2)
    | Raise _ => false
    end
  | Raise _ => false
  end.

Lemma builtin_routes_computed : forallb (route_is "synthetic_fx") cross_pairs = true.
Proof. by vm_compute. Qed.

Lemma builtin_route base quote :
  (base, quote) ∈ cross_pairs →
  upper (strip (pair_symbol base quote)) = pair_symbol base quote ∧
  fx_route "synthetic_fx" builtin_requirements (pair_symbol base quote)
    = Ok (quote, spokes base quote) ∧
  map_result (age_of builtin_max_ages) (spokes base quote) = Ok (spoke_ages base quote).
Proof.
  intros Hin%list_elem_of_In.
  pose proof (proj1 (forallb_forall _ _) builtin_routes_computed _ Hin) as Hr.
  unfold route_is in Hr. cbn [fst snd] in Hr.
  destruct (fx_route _ _ _) as [[c l]|]; [|by rewrite andb_false_r in Hr].
  apply andb_prop in Hr as [H1%bool_decide_eq_true [H2%bool_decide_eq_true Hr]%andb_prop].
  destruct H2 as [-> ->].
  destruct (map_result _ _); [|done]. apply bool_decide_eq_true in Hr as ->. done.
Qed.

(** ** The inverse of one spoke *)

Definition fresh_spoke (q : ProviderQuote) (now max_age : Z) : Prop :=
  pq_as_of q ≤ now + seconds 5 ∧ now - pq_as_of q ≤ max_age.

(** What a derived currency quote says. *)
Definition cross_quote_spec (symbol : string) (price : decimal) (as_of : Z) (q : ProviderQuote) : Prop :=
  valid_quote q ∧ pq_symbol q = symbol ∧ pq_price q = price ∧ pq_as_of q = as_of ∧
  pq_provider q = "synthetic_fx" ∧ pq_is_derived q = true.

Lemma validate_single_fresh q now age name :
  fresh_spoke q now age → validate_single_component q now age name = Ok (pq_as_of q).
Proof.
  intros [H1 H2]. unfold validate_single_component. rewrite !bool_decide_false; [done|lia..].
Qed.

Lemma validate_single_stale q now age name :
  ¬ fresh_spoke q now age →
  ∃ msg, validate_single_component q now age name = Raise (SyntheticComponentError name msg).
Proof.
  intros Hn. unfold validate_single_component.
  destruct (bool_decide (now + _ < _)) eqn:E1; [by eexists|apply bool_decide_eq_false in E1].
  destruct (bool_decide (age < _)) eqn:E2; [by eexists|apply bool_decide_eq_false in E2].
  destruct Hn. split; lia.
Qed.

Lemma fx_inverse_fresh symbol source now age :
  sound_quote source → fresh_spoke source now age →
  ∃ price, ddiv (dint 1) (pq_price source) = Ok price ∧
    (float_representable price →
     ∃ q, synthesize_fx_inverse symbol source now age "synthetic_fx" = Ok q ∧
       cross_quote_spec (upper (strip symbol)) price (pq_as_of source) q).
Proof.
  intros Hs Hf. pose proof Hs as [Hv _]. destruct Hv as (Hpos & Hfl & Hms & Hrep).
  destruct (ddiv_pos (dint 1) (pq_price source)) as (price & Hdiv & Hpp); [done..|].
  exists price. split; [done|]. intros Hr. unfold synthesize_fx_inverse.
  rewrite validate_single_fresh, Hdiv by done. cbn [mbind result_bind].
  destruct (SourceComponent_init_valid
    {| sc_symbol := pq_symbol source; sc_provider := pq_provider source;
       sc_price := DFinite (pq_price source); sc_as_of := Aware (pq_as_of source);
       sc_feed := Some (pq_feed source); sc_role := Some "denominator" |} (pq_price source)
    (pq_as_of source)) as (c & Hc & _); [done..|].
  unfold leg_component. rewrite Hc. cbn [mbind result_bind].
  edestruct (ProviderQuote_init_valid) with (status_as_of := pq_market_status_as_of source)
    as [q Hq]; [..|exists q; split; [exact Hq|]]; try done.
  apply ProviderQuote_init_ok in Hq. cbn in Hq. unfold cross_quote_spec.
  destruct Hq as (Hvq & -> & [= ->] & [= ->] & _ & _ & _ & -> & ->). done.
Qed.

Lemma fx_inverse_stale symbol source now age :
  ¬ fresh_spoke source now age →
  ∃ msg, synthesize_fx_inverse symbol source now age "synthetic_fx"
           = Raise (SyntheticComponentError "synthetic_fx" msg).
Proof.
  intros Hn. destruct (validate_single_stale source now age "synthetic_fx" Hn) as [msg Hv].
  exists msg. unfold synthesize_fx_inverse. by rewrite Hv.
Qed.

(** ** The topology of arbitrary pairs *)

Definition no_char (sep : ascii) : string → bool := str_all (λ c, negb (bool_decide (c = sep))).

Lemma str_all_impl f g s : (∀ c, f c = true → g c = true) → str_all f s = true → str_all g s = true.
Proof.
  intros Hfg. induction s as [|c s IH]; simpl; [done|].
  intros [Hc Hs]%andb_prop. by rewrite Hfg, IH.
Qed.

Lemma str_all_app f s s' : str_all f (s +:+ s') = str_all f s && str_all f s'.
Proof. induction s as [|c s IH]; simpl; [done|]. by rewrite IH, andb_assoc. Qed.

Lemma upper_strip_stable s :
  str_all (λ c, negb (is_space c || is_lower c)) s = true → upper (strip s) = s.
Proof.
  intros H. rewrite <- strip_upper.
  assert (upper s = s) as ->.
  { induction s as [|c s IH]; simpl in *; [done|]. apply andb_prop in H as [Hc Hs].
    change (upper (String c s)) with (String (char_upper c) (upper s)). rewrite IH by done.
    apply negb_true_iff, orb_false_elim in Hc as [_ Hc]. unfold char_upper. by rewrite Hc. }
  assert (∀ s, str_all (λ c, negb (is_space c || is_lower c)) s = true → rstrip s = s) as Hr.
  { clear. induction s as [|c s IH]; simpl; [done|].
    intros [[Hc _]%negb_true_iff%orb_false_elim Hs]%andb_prop. rewrite IH by done.
    destruct s; [by rewrite Hc|done]. }
  unfold strip. destruct s as [|c s]; [done|]. simpl in *.
  pose proof H as [[-> _]%negb_true_iff%orb_false_elim _]%andb_prop. by apply (Hr (String c s)).
Qed.

Lemma split_on_none sep s : no_char sep s = true → split_on sep s = [s].
Proof.
  unfold no_char. induction s as [|c s IH]; simpl; [done|]. intros [Hc Hs]%andb_prop.
  apply negb_true_iff, bool_decide_eq_false in Hc. rewrite decide_False by done. by rewrite IH.
Qed.

Lemma split_on_pair sep a b :
  no_char sep a = true → no_char sep b = true → split_on sep (a +:+ String sep b) = [a; b].
Proof.
  intros Ha Hb. induction a as [|c a IH]; simpl in *.
  - by rewrite decide_True, split_on_none.
  - unfold no_char in Ha. simpl in Ha. apply andb_prop in Ha as [Hc Ha].
    apply negb_true_iff, bool_decide_eq_false in Hc. rewrite decide_False by done. by rewrite IH.
Qed.

Lemma split_on_join sep s : s = join (String sep "") (split_on sep s).
Proof.
  induction s as [|c s IH]; simpl; [done|]. destruct (decide (c = sep)) as [->|Hne].
  - destruct (split_on sep s) as [|w ws] eqn:E; simpl in *; [by subst|].
    rewrite IH. simpl. by destruct ws.
  - destruct (split_on sep s) as [|w ws] eqn:E; simpl in *; [by subst|].
    rewrite IH. by destruct ws.
Qed.

Lemma split_once_join sep s a b : split_once sep s = (a, Some b) → s = a +:+ String sep b.
Proof.
  revert a. induction s as [|c s IH]; simpl; [done|]. intros a.
  destruct (decide (c = sep)) as [->|Hne]; [by intros [= <- <-]|].
  destruct (split_once sep s) as [a' o]. intros [= <- ->]. simpl. by rewrite (IH a').
Qed.

Definition currency_char (c : ascii) : bool := is_upper c || currency_tail c.

Lemma currency_pattern_chars s : currency_pattern s = true → str_all currency_tail s = true.
Proof.
  destruct s as [|c s]; simpl; [done|]. intros [[Hc Hs]%andb_prop _]%andb_prop.
  unfold currency_tail at 1. by rewrite Hc, Hs.
Qed.

Lemma currency_tail_plain c :
  currency_tail c = true → negb (is_space c || is_lower c) = true ∧ c ≠ ":"%char.
Proof. by destruct c as [[] [] [] [] [] [] [] []]. Qed.

Lemma currency_no_colon s : currency_pattern s = true → no_char ":"%char s = true.
Proof.
  intros Hs%currency_pattern_chars. revert Hs. apply str_all_impl. intros c Hc.
  apply negb_true_iff, bool_decide_eq_false. by apply currency_tail_plain.
Qed.

(** Two codes make a pair that normalises to itself and splits back. *)
Lemma pair_symbol_split a b :
  currency_pattern a = true → currency_pattern b = true →
  upper (strip (pair_symbol a b)) = pair_symbol a b ∧ split_on ":"%char (pair_symbol a b) = [a; b].
Proof.
  intros Ha Hb. split; [|by apply split_on_pair; apply currency_no_colon].
  apply upper_strip_stable. unfold pair_symbol. rewrite !str_all_app.
  apply andb_true_iff; split; [|apply andb_true_iff; split; [done|]];
    (eapply str_all_impl; [|by apply currency_pattern_chars]); intros c Hc; by apply currency_tail_plain.
Qed.

Lemma currency_pattern_usd : currency_pattern "USD" = true.
Proof. done. Qed.

Lemma dynamic_spoke c :
  currency_pattern c = true → c ≠ "USD" →
  dynamic_fx_requirements (pair_symbol "USD" c) = Ok [pair_symbol "USD" c].
Proof.
  intros Hc Hn. destruct (pair_symbol_split "USD" c) as [Hu Hs]; [done..|].
  unfold dynamic_fx_requirements. rewrite Hu, Hs, Hc, bool_decide_false by congruence. done.
Qed.

Lemma dynamic_requirements_ok symbol l :
  dynamic_fx_requirements symbol = Ok l ↔
  ∃ base quote, upper (strip symbol) = pair_symbol base quote ∧ base ≠ quote ∧
    currency_pattern base = true ∧ currency_pattern quote = true ∧
    l = (if decide (base = "USD") then [pair_symbol "USD" quote] else spokes base quote).
Proof.
  split.
  - unfold dynamic_fx_requirements. pose proof (split_on_join ":"%char (upper (strip symbol))) as Hj.
    destruct (split_on _ _) as [|base [|quote [|]]]; try done.
    intros [[Hne%bool_decide_eq_false Hp%negb_false_iff]%orb_false_elim [= <-]]%raise_if_bind.
    apply andb_prop in Hp as [Hb Hq]. exists base, quote. by rewrite Hj.
  - intros (base & quote & Hu & Hne & Hb & Hq & ->). unfold dynamic_fx_requirements.
    destruct (pair_symbol_split base quote) as [_ Hs]; [done..|].
    rewrite Hu, Hs, Hb, Hq, bool_decide_false by done. done.
Qed.

Lemma split_fx_symbol_ok symbol base quote :
  split_fx_symbol symbol = Ok (base, quote) →
  upper (strip symbol) = pair_symbol base quote ∧ base ≠ quote ∧
  base ∈ FX_CURRENCIES ∧ quote ∈ FX_CURRENCIES.
Proof.
  unfold split_fx_symbol. destruct (split_once _ _) as [a [b|]] eqn:E; [|done].
  intros [Hn%bool_decide_eq_false [= -> ->]]%raise_if_bind.
  rewrite (split_once_join _ _ _ _ E). split; [done|]. split_and!.
  - intros ->. apply Hn. by left.
  - destruct (decide (base ∈ FX_CURRENCIES)); [done|]. destruct Hn. auto.
  - destruct (decide (quote ∈ FX_CURRENCIES)); [done|]. destruct Hn. auto.
Qed.

Lemma hub_symbol_builtin c :
  c ∈ FX_CURRENCIES → c ≠ "USD" → hub_symbol c = Ok (pair_symbol "USD" c).
Proof.
  intros Hc. pattern c. revert c Hc. apply Forall_forall. by repeat constructor.
Qed.

Lemma builtin_currency_pattern c : c ∈ FX_CURRENCIES → currency_pattern c = true.
Proof. intros Hc. pattern c. revert c Hc. apply Forall_forall. by repeat constructor. Qed.

Lemma hub_requirements_dynamic symbol l :
  fx_hub_requirements symbol = Ok l → dynamic_fx_requirements symbol = Ok l.
Proof.
  unfold fx_hub_requirements.
  intros ([base quote] & (Hu & Hne & Hb & Hq)%split_fx_symbol_ok & H)%result_bind_ok.
  unfold dynamic_fx_requirements. rewrite Hu.
  destruct (pair_symbol_split base quote) as [_ ->]; [by apply builtin_currency_pattern..|].
  rewrite !builtin_currency_pattern, bool_decide_false by done. cbn [negb andb orb raise_if mbind result_bind].
  destruct (decide (base = "USD")) as [->|Hb'].
  - rewrite hub_symbol_builtin in H by done. by injection H as <-.
  - destruct (decide (quote = "USD")) as [->|Hq'].
    + rewrite hub_symbol_builtin in H by done. by injection H as <-.
    + rewrite !hub_symbol_builtin in H by done. by injection H as <-.
Qed.

Lemma dynamic_spokes_fixed symbol l x :
  dynamic_fx_requirements symbol = Ok l → x ∈ l → dynamic_fx_requirements x = Ok [x].
Proof.
  intros (base & quote & Hu & Hne & Hb & Hq & ->)%dynamic_requirements_ok Hx.
  unfold spokes in Hx. destruct (decide (base = "USD")) as [->|Hb'];
    [|destruct (decide (quote = "USD")) as [->|Hq']]; repeat (apply elem_of_cons in Hx as [->|Hx]);
    try (by apply elem_of_nil in Hx); apply dynamic_spoke; done.
Qed.

(** The USD spokes of any pair.  A pair is accepted exactly when it
    normalises to two different currency codes; its requirements are its
    spokes out of the hub, one when the hub is a side and otherwise the
    numerator's before the denominator's; a requirement requires only itself,
    so derivations are one level deep; and wherever the built-in topology
    answers, the dynamic one agrees with it. *)
Theorem fx_requirements_spokes symbol l :
  (dynamic_fx_requirements symbol = Ok l ↔
   ∃ base quote, upper (strip symbol) = pair_symbol base quote ∧ base ≠ quote ∧
     currency_pattern base = true ∧ currency_pattern quote = true ∧
     l = (if decide (base = "USD") then [pair_symbol "USD" quote] else spokes base quote)) ∧
  (dynamic_fx_requirements symbol = Ok l → ∀ x, x ∈ l → dynamic_fx_requirements x = Ok [x]) ∧
  (fx_hub_requirements symbol = Ok l → dynamic_fx_requirements symbol = Ok l).
Proof.
  split; [apply dynamic_requirements_ok|]. split; [|apply hub_requirements_dynamic].
  intros Hl x. by apply (dynamic_spokes_fixed symbol l).
Qed.

(** ** The hub provider *)

Section hub.
Context (spoke : string → ProviderQuote) (resolver : string → result ProviderQuote).
Context (Hresolver : ∀ c, c ∈ FX_CURRENCIES → c ≠ "USD" →
  resolver (pair_symbol "USD" c) = Ok (spoke c)).
Context (Hsound : ∀ c, c ∈ FX_CURRENCIES → c ≠ "USD" → sound_quote (spoke c)).

(** Units of a currency one unit of the hub buys. *)
Definition usd_rate (currency : string) : decimal :=
  if decide (currency = "USD") then dint 1 else pq_price (spoke currency).

(** The observations a pair is derived from may be combined at [now]. *)
Definition fresh_cross (base quote : string) (now : Z) : Prop :=
  if decide (quote = "USD") then fresh_spoke (spoke base) now (spoke_age base)
  else fresh_pair (spoke quote) (spoke base) FX_MAX_SKEW now
         (Some (spoke_age quote)) (Some (spoke_age base)).

Definition cross_as_of (base quote : string) : Z :=
  if decide (quote = "USD") then pq_as_of (spoke base)
  else Z.min (pq_as_of (spoke quote)) (pq_as_of (spoke base)).

Definition cross_quote (right_first : bool) (now : Z) (base quote : string) : result ProviderQuote :=
  fx_get_quote builtin_requirements builtin_max_ages FX_MAX_SKEW resolver right_first now
    (pair_symbol base quote).

Lemma cross_quote_eq right_first now base quote :
  base ∈ FX_CURRENCIES → quote ∈ FX_CURRENCIES → base ≠ "USD" → base ≠ quote →
  cross_quote right_first now base quote =
    if decide (quote = "USD") then
      synthesize_fx_inverse (pair_symbol base quote) (spoke base) now (spoke_age base) "synthetic_fx"
    else
      synthesize_division (pair_symbol base quote) (spoke quote) (spoke base) FX_MAX_SKEW now
        (Some (spoke_age quote)) (Some (spoke_age base)) "synthetic_fx".
Proof.
  intros Hb Hq Hu Hn.
  destruct (builtin_route base quote) as (Hs & Hr & Ha); [by apply cross_pairs_elem|].
  unfold cross_quote, fx_get_quote. rewrite Hr, Hs. cbn [mbind result_bind].
  rewrite Ha. unfold spokes, spoke_ages. destruct (decide (quote = "USD")) as [->|Hq'];
    cbn [mbind result_bind nth_requirement lookup list_lookup].
  - by rewrite Hresolver.
  - by rewrite !Hresolver.
Qed.

Lemma cross_quote_fresh right_first now base quote :
  base ∈ FX_CURRENCIES → quote ∈ FX_CURRENCIES → base ≠ "USD" → base ≠ quote →
  fresh_cross base quote now →
  ∃ price, ddiv (usd_rate quote) (usd_rate base) = Ok price ∧
    (float_representable price →
     ∃ q, cross_quote right_first now base quote = Ok q ∧
       cross_quote_spec (pair_symbol base quote) price (cross_as_of base quote) q).
Proof.
  intros Hb Hq Hu Hn. rewrite cross_quote_eq by done.
  destruct (builtin_route base quote) as (Hs & _ & _); [by apply cross_pairs_elem|].
  unfold fresh_cross, usd_rate, cross_as_of. rewrite (decide_False (P := base = "USD")) by done.
  destruct (decide (quote = "USD")) as [->|Hq']; intros Hf.
  - destruct (fx_inverse_fresh (pair_symbol base "USD") (spoke base) now (spoke_age base))
      as (price & Hd & H); [auto..|]. exists price. rewrite Hs in H. done.
  - destruct (synthetic_quote_fresh (pair_symbol base quote) (spoke quote) (spoke base) Divide
      FX_MAX_SKEW now (Some (spoke_age quote)) (Some (spoke_age base)) "synthetic_fx")
      as (price & Hd & Hpos & H); [auto..|done|done|].
    exists price. split; [done|]. intros [q [Hok Hspec]]%H. exists q. split; [done|].
    unfold cross_quote_spec. destruct Hspec as ([Hv _] & -> & -> & -> & -> & -> & _). by rewrite Hs.
Qed.

(** When every USD spoke resolves to a validated quote, the hub provider
    with the built-in requirements serves each pair of the universe without a
    vendor: if the observations it needs are within the skew, their ages and
    the clock tolerance it answers the quotient of the two currencies' USD
    rates, dated by the older observation, and otherwise it fails with a
    component error. *)
Theorem fx_triangulation right_first now base quote :
  base ∈ FX_CURRENCIES → quote ∈ FX_CURRENCIES → base ≠ "USD" → base ≠ quote →
  (fresh_cross base quote now →
   ∃ price, ddiv (usd_rate quote) (usd_rate base) = Ok price ∧
     (float_representable price →
      ∃ q, cross_quote right_first now base quote = Ok q ∧
        cross_quote_spec (pair_symbol base quote) price (cross_as_of base quote) q)) ∧
  (¬ fresh_cross base quote now →
   ∃ msg, cross_quote right_first now base quote = Raise (SyntheticComponentError "synthetic_fx" msg)).
Proof.
  intros Hb Hq Hu Hn. split; [by apply cross_quote_fresh|]. rewrite cross_quote_eq by done.
  unfold fresh_cross. destruct (decide (quote = "USD")) as [->|Hq']; intros Hf.
  - by apply fx_inverse_stale.
  - destruct (validate_components_stale "synthetic_fx" (spoke quote) (spoke base) FX_MAX_SKEW now
      (Some (spoke_age quote)) (Some (spoke_age base))) as [msg Hv]; [done..|].
    exists msg. unfold synthesize_division, synthetic_quote. by rewrite Hv.
Qed.
End hub.

(** Spokes one second old: a unit of the hub buys two units of every currency,
    but eight Hong Kong dollars. *)
Definition demo_spoke (currency : string) : ProviderQuote :=
  demo_quote (pair_symbol "USD" currency) (if decide (currency = "HKD") then 8 else 2) (seconds 99).

Definition demo_resolver (symbol : string) : result ProviderQuote :=
  Ok (demo_spoke (pair_parts symbol).2).

Lemma fx_triangulation_witness :
  ∃ q, cross_quote demo_resolver false (seconds 100) "EUR" "HKD" = Ok q ∧
    pq_price q = dint 4 ∧ pq_as_of q = seconds 99.
Proof.
  destruct (fx_triangulation demo_spoke demo_resolver) with (right_first := false)
    (now := seconds 100) (base := "EUR") (quote := "HKD") as [H _].
  - by intros c Hc _.
  - intros c _ _. apply demo_quote_sound; destruct (decide (c = "HKD")); [done..| |]; apply (bool_decide_unpack _); by vm_compute.
  - by apply (bool_decide_unpack _).
  - by apply (bool_decide_unpack _).
  - done.
  - done.
  - destruct H as (price & Hp & H).
    + split_and!; [by vm_compute..| |]; intros m [= <-]; by vm_compute.
    + vm_compute in Hp. injection Hp as <-.
      destruct H as (q & Hq & Hspec); [by apply (bool_decide_unpack _); vm_compute|].
      exists q. split; [exact Hq|]. destruct Hspec as (_ & _ & -> & -> & _). by split.
Defined.

(** ** The built-in routes *)

Lemma routes_computed : forallb routes_ok BUILTIN_PROVIDER_ROUTES = true.
Proof. by vm_compute. Qed.

(** Every symbol has one entry in the built-in route table, every currency
    pair and listed security has one, and each entry routes quotes and
    histories, once per capability, through a non-empty chain of at most four
    distinct providers, each of which can serve the symbol: a vendor translates
    it, a recipe derives it from pairs that a vendor quotes, or a staking,
    backing, dividend or Treasury policy names it. *)
Theorem builtin_routes_consistent :
  NoDup (keys BUILTIN_PROVIDER_ROUTES) ∧
  (∀ symbol, symbol ∈ FX_SYMBOLS ++ LISTED_SYMBOLS → symbol ∈ keys BUILTIN_PROVIDER_ROUTES) ∧
  ∀ symbol routes, (symbol, routes) ∈ BUILTIN_PROVIDER_ROUTES →
    QUOTE ∈ routes.*1 ∧ HISTORY ∈ routes.*1 ∧ NoDup routes.*1 ∧
    ∀ capability chain, (capability, chain) ∈ routes →
      chain ≠ [] ∧ NoDup chain ∧ (length chain ≤ 4)%nat ∧
      ∀ provider, provider ∈ chain → serves symbol capability provider = true.
Proof.
  split_and!.
  - apply (bool_decide_unpack _). by vm_compute.
  - apply Forall_forall, (bool_decide_unpack _). by vm_compute.
  - intros symbol routes Hin%list_elem_of_In.
    pose proof (proj1 (forallb_forall _ _) routes_computed _ Hin) as Hr.
    unfold routes_ok in Hr. rewrite !andb_true_iff, !bool_decide_eq_true in Hr.
    destruct Hr as [[[Hq Hh] Hn] Hc]. split_and!; [done..|].
    intros capability chain Hin'%list_elem_of_In.
    pose proof (proj1 (forallb_forall _ _) Hc _ Hin') as Hr.
    unfold chain_ok in Hr. rewrite !andb_true_iff, !bool_decide_eq_true in Hr.
    destruct Hr as [[[H1 H2] H3] H4]. split_and!; [done..|].
    intros provider Hp%list_elem_of_In. by apply (proj1 (forallb_forall _ _) H4).
Qed.
