(* ===== verification/Builtin.v ===== *)
(** * The instruments shipped with the program ([builtin_plugin.py]) and plugin
    discovery ([registry.py])

    The built-in plugin as data, the selection of trusted entry points, and
    the registry both produce. *)

From S2P Require Import Prelude PyStr PyDecimal PyTime Graph Domain PluginApi Registry Analytics Synthetic Fx Policy.
From Stdlib Require Import Ascii.

Local Open Scope string_scope.
Local Open Scope list_scope.
Local Open Scope Z_scope.

(** ** Currency pairs and listed securities *)

(** [FX_CURRENCY_NAMES[currency]] of a currency of the universe. *)
Definition currency_name (currency : string) : string :=
  default "" (assoc_get currency FX_CURRENCY_NAMES).

Definition fx_instrument (symbol : string) : InstrumentSpec :=
  let '(base, counter) := pair_parts symbol in
  {| is_symbol := symbol; is_base := base; is_quote := counter;
     is_name := currency_name base +:+ " / " +:+ currency_name counter;
     is_description := "The value of one " +:+ currency_name base +:+ " expressed in "
                         +:+ currency_name counter +:+ ".";
     is_asset_class := FX; is_asset_type := "forex_pair";
     is_price_basis := if decide (base = "USD") then "exchange_rate" else "synthetic_cross";
     is_change_basis := "unadjusted_market_price"; is_yield_strategy := None;
     is_dividend_strategy := None; is_reward_accrual_mode := None; is_underlying_asset := None;
     is_aliases := []; is_market_calendar := FX_24X5;
     is_stale_after_seconds := if decide (symbol = "USD:CNH") then seconds 300 else seconds 1200;
     is_quote_poll_seconds := seconds 240; is_history_enabled := true;
     is_history_poll_seconds := None |}.

Definition FX_INSTRUMENTS : list InstrumentSpec := fx_instrument <$> FX_SYMBOLS.

(** A security on the US equity calendar, polled every five seconds. *)
Definition listed_instrument (symbol ticker name description : string) (asset_class : AssetClass)
    (asset_type : string) (dividend : option string) (yields : option YieldStrategy)
    : InstrumentSpec :=
  {| is_symbol := symbol; is_base := ticker; is_quote := "USD"; is_name := name;
     is_description := description; is_asset_class := asset_class; is_asset_type := asset_type;
     is_price_basis := "last_trade"; is_change_basis := "unadjusted_market_price";
     is_yield_strategy := yields; is_dividend_strategy := dividend;
     is_reward_accrual_mode := None; is_underlying_asset := None; is_aliases := [];
     is_market_calendar := US_EQUITY; is_stale_after_seconds := seconds 120;
     is_quote_poll_seconds := seconds 5; is_history_enabled := true;
     is_history_poll_seconds := None |}.

Definition common_stock_instrument (metadata : CommonStockMetadata) : InstrumentSpec :=
  listed_instrument (cm_symbol metadata) (cm_ticker metadata) (cm_name metadata)
    (cm_description metadata) EQUITY "common_stock"
    (if decide (cm_dividend_frequency metadata = Some "quarterly")
     then Some QUARTERLY_DIVIDEND_STRATEGY else None) None.

Definition COMMON_STOCK_INSTRUMENTS : list InstrumentSpec :=
  common_stock_instrument <$> COMMON_STOCKS.

Definition funds : list InstrumentSpec :=
  [listed_instrument "QQQM:USD" "QQQM" "Invesco NASDAQ 100 ETF"
     "An exchange-traded fund tracking the NASDAQ-100 Index." EQUITY "equity_etf"
     (Some "latest_regular_cash_annualized_x4") None;
   listed_instrument "BOXX:USD" "BOXX" "Alpha Architect 1-3 Month Box ETF"
     "An ETF seeking a Treasury-bill-like return through box spreads." BOND "growth_bond_etf"
     None (Some TREASURY_3M_PROXY_MINUS_EXPENSE);
   listed_instrument "SGOV:USD" "SGOV" "iShares 0-3 Month Treasury Bond ETF"
     "An ETF investing in United States Treasury bonds maturing within three months." BOND
     "income_bond_etf" None (Some LATEST_DISTRIBUTION_ANNUALIZED)].

(** ** Crypto assets *)

(** A crypto instrument quoted in USDC; the staking fields of a staking token. *)
Definition crypto_instrument (base name description asset_type price_basis : string)
    (staking : option (RewardAccrualMode * string)) (stale_after quote_poll : Z)
    (history_poll : option Z) : InstrumentSpec :=
  {| is_symbol := base +:+ ":USDC"; is_base := base; is_quote := "USDC"; is_name := name;
     is_description := description; is_asset_class := CRYPTO; is_asset_type := asset_type;
     is_price_basis := price_basis; is_change_basis := "unadjusted_market_price";
     is_yield_strategy := (λ _, STAKING_PROVIDER_METRIC) <$> staking;
     is_dividend_strategy := None; is_reward_accrual_mode := fst <$> staking;
     is_underlying_asset := snd <$> staking; is_aliases := [];
     is_market_calendar := ALWAYS_OPEN; is_stale_after_seconds := stale_after;
     is_quote_poll_seconds := quote_poll; is_history_enabled := true;
     is_history_poll_seconds := history_poll |}.

Definition spot_crypto (base name description : string) : InstrumentSpec :=
  crypto_instrument base name description "spot_crypto" "last_trade" None (seconds 10) (seconds 1)
    None.

Definition liquid_staking (base name description price_basis : string) (mode : RewardAccrualMode)
    (underlying : string) : Z → Z → option Z → InstrumentSpec :=
  crypto_instrument base name description "liquid_staking_token" price_basis
    (Some (mode, underlying)).

Definition crypto_instruments : list InstrumentSpec :=
  [spot_crypto "BTC" "Bitcoin" "Bitcoin spot price quoted in USD Coin.";
   spot_crypto "ETH" "Ethereum" "Ether spot price quoted in USD Coin.";
   spot_crypto "SOL" "Solana" "Solana's native token spot price quoted in USD Coin.";
   spot_crypto "XMR" "Monero"
     "Monero's privacy-focused native asset spot price quoted in USD Coin.";
   spot_crypto "POL" "Polygon Ecosystem Token"
     "Polygon's native ecosystem token spot price quoted in USD Coin.";
   spot_crypto "BNB" "BNB" "BNB Chain's native token spot price quoted in USD Coin.";
   spot_crypto "TRX" "TRON" "TRON's native token spot price quoted in USD Coin.";
   liquid_staking "WBETH" "Wrapped Binance Beacon ETH"
     ("A value-accruing liquid-staking token whose market price is derived " +:+
      "from synchronized component markets.")
     "synthetic_cross" VALUE_ACCRUING "ETH" (seconds 10) (seconds 1) None;
   liquid_staking "BNSOL" "Binance Staked SOL"
     ("A value-accruing Binance liquid-staking token representing staked SOL; " +:+
      "rewards increase its SOL conversion rate each Solana epoch.")
     "synthetic_cross" VALUE_ACCRUING "SOL" (seconds 10) (seconds 1) (Some (seconds 21600));
   liquid_staking "BETH" "OKX Staked Ether"
     ("An OKX liquid-staking token representing staked Ether; rewards are " +:+
      "distributed daily as additional BETH units.")
     "synthetic_cross" DISTRIBUTED_UNITS "ETH" (seconds 10) (seconds 1) (Some (seconds 21600));
   liquid_staking "STETH" "Lido Staked Ether"
     ("A rebasing liquid-staking token representing Ether staked through " +:+
      "the Lido protocol; rewards accrue through balance rebases.")
     "aggregated_spot_ratio" REBASING_BALANCE "ETH" (seconds 1800) (seconds 660)
     (Some (seconds 21600));
   liquid_staking "WSTETH" "Wrapped Lido Staked Ether"
     ("A non-rebasing wrapper around stETH whose unit value increases as " +:+
      "Lido staking rewards accrue.")
     "aggregated_spot_ratio" VALUE_ACCRUING "ETH" (seconds 1800) (seconds 660)
     (Some (seconds 21600));
   liquid_staking "AETHWETH" "Aave Ethereum WETH"
     ("A rebasing Aave V3 aToken representing supplied WETH on Ethereum; " +:+
      "interest accrues through increases in the holder's token balance.")
     "protocol_backing_proxy" REBASING_BALANCE "ETH" (seconds 10) (seconds 1)
     (Some (seconds 21600))].

Definition BUILTIN_PLUGIN : InstrumentPlugin :=
  {| ip_plugin_id := "builtin"; ip_version := "1.8.0";
     ip_instruments := crypto_instruments ++ COMMON_STOCK_INSTRUMENTS ++ funds ++ FX_INSTRUMENTS;
     ip_has_installer := true; ip_provider_bindings := []; ip_synthetic_recipes := [] |}.

(** ** Discovery *)

(** A trusted entry point: its name and what loading and coercing it gives. *)
Abbreviation entry_point := (string * result InstrumentPlugin)%type.

Definition entries_named (available : list entry_point) (name : string) : list entry_point :=
  filter (λ e, e.1 = name) available.

Definition load_entry (available : list entry_point) (name : string) : result InstrumentPlugin :=
  match entries_named available name with
  | e :: _ => e.2
  | [] => Raise (OtherError "IndexError")
  end.

(** [dict.fromkeys] of the enabled names, less the built-in one. *)
Definition enabled_names (enabled_plugins : list string) : list string :=
  filter (λ name, name ≠ ip_plugin_id BUILTIN_PLUGIN)
    (dedup (filter (λ s, s ≠ "") (strip <$> enabled_plugins))).

Definition discover_plugins (enabled_plugins : list string) (available : list entry_point)
    : result (list InstrumentPlugin) :=
  let enabled := enabled_names enabled_plugins in
  if decide (enabled = []) then Ok [BUILTIN_PLUGIN]
  else
    let missing := filter (λ name, entries_named available name = []) enabled in
    let ambiguous := filter (λ name, length (entries_named available name) ≠ 1%nat) enabled in
    _ ← raise_if (bool_decide (missing ≠ []))
          (RuntimeError ("enabled instrument plugins were not found: " +:+ join ", " missing));
    _ ← raise_if (bool_decide (ambiguous ≠ []))
          (RuntimeError ("enabled instrument plugin entry points are ambiguous: " +:+
                         join ", " ambiguous));
    loaded ← map_result (load_entry available) enabled;
    Ok (BUILTIN_PLUGIN :: loaded).

(** [build_registry(enabled_plugins, available_entry_points=...)] *)
Definition discover_registry (enabled_plugins : list string) (available : list entry_point)
    : result Registry :=
  plugins ← discover_plugins enabled_plugins available;
  build_registry plugins.

(** ** Lemmas *)

Lemma enabled_names_spec enabled_plugins name :
  name ∈ enabled_names enabled_plugins ↔
  name ≠ "" ∧ name ≠ "builtin" ∧ ∃ raw, raw ∈ enabled_plugins ∧ strip raw = name.
Proof.
  unfold enabled_names. rewrite list_elem_of_filter, elem_of_dedup, list_elem_of_filter, list_elem_of_fmap.
  cbn. naive_solver.
Qed.

Lemma load_single available name p :
  length (entries_named available name) = 1%nat → load_entry available name = Ok p →
  entries_named available name = [(name, Ok p)].
Proof.
  unfold load_entry. destruct (entries_named available name) as [|[n r] [|]] eqn:E; try done.
  cbn. intros _ ->. assert (Hin : (n, Ok p) ∈ entries_named available name) by (rewrite E; by left).
  apply list_elem_of_filter in Hin as [<- _]. done.
Qed.

Lemma filter_nil {A} (P : A → Prop) `{!∀ x, Decision (P x)} l : filter P l = [] ↔ ∀ x, x ∈ l → ¬ P x.
Proof.
  split; [|by apply filter_none]. intros Hf x Hx Hp.
  assert (x ∈ filter P l) as Hn by by apply list_elem_of_filter. rewrite Hf in Hn. by apply elem_of_nil in Hn.
Qed.

Lemma entries_single available names :
  filter (λ name, length (entries_named available name) ≠ 1%nat) names = [] ↔
  ∀ name, name ∈ names → length (entries_named available name) = 1%nat.
Proof.
  rewrite filter_nil. split; intros H' name Hin; specialize (H' name Hin); [by apply dec_stable|tauto].
Qed.

Lemma load_entries available names loaded :
  (∀ name, name ∈ names → length (entries_named available name) = 1%nat) ∧
    map_result (load_entry available) names = Ok loaded ↔
  Forall2 (λ name p, entries_named available name = [(name, Ok p)]) names loaded.
Proof.
  rewrite map_result_ok. split.
  - intros [Hl H]. induction H as [|name p names loaded Hp H IH]; constructor.
    + apply load_single; [apply Hl; by left|done].
    + apply IH. intros; apply Hl; by right.
  - intros H. split.
    + intros name (i & Hi)%list_elem_of_lookup.
      destruct (Forall2_lookup_l _ _ _ _ _ H Hi) as (p & _ & ->). done.
    + eapply Forall2_impl; [exact H|]. intros name p E. unfold load_entry. by rewrite E.
Qed.

(** ** Properties *)

(** Plugin discovery is an allowlist.  The built-in plugin comes first and
    is always present; after it come, in the order they were first enabled,
    exactly the enabled names other than the empty and the built-in one, each
    once and each from the only entry point of that name; a name without an
    entry point, with several, or whose loading fails makes discovery fail. *)
Theorem discovery_allowlist enabled_plugins available plugins :
  (discover_plugins enabled_plugins available = Ok plugins ↔
   ∃ loaded, plugins = BUILTIN_PLUGIN :: loaded ∧
     Forall2 (λ name p, entries_named available name = [(name, Ok p)])
       (enabled_names enabled_plugins) loaded) ∧
  NoDup (enabled_names enabled_plugins) ∧
  ∀ name, name ∈ enabled_names enabled_plugins ↔
    name ≠ "" ∧ name ≠ "builtin" ∧ ∃ raw, raw ∈ enabled_plugins ∧ strip raw = name.
Proof.
  split; [|split; [apply NoDup_filter, NoDup_dedup|intros; apply enabled_names_spec]].
  unfold discover_plugins. generalize (enabled_names enabled_plugins). intros names.
  destruct (decide (names = [])) as [->|Hne].
  - split; [intros [= <-]; by exists []|]. by intros (loaded & -> & ->%Forall2_nil_inv_l).
  - setoid_rewrite <- load_entries. split.
    + intros [_ [Ha%bool_decide_eq_false H]%raise_if_bind]%raise_if_bind.
      apply dec_stable in Ha. pose proof (proj1 (entries_single available names) Ha).
      apply result_bind_ok in H as (loaded & H & [= <-]). by exists loaded.
    + intros (loaded & -> & Hl & Hm). pose proof (proj2 (entries_single available names) Hl) as Ha.
      assert (filter (λ name, entries_named available name = []) names = []) as ->.
      { apply filter_nil. intros name Hin E. specialize (Hl name Hin). by rewrite E in Hl. }
      rewrite Ha, !bool_decide_false by tauto.
      cbn [raise_if mbind result_bind]. by rewrite Hm.
Qed.

(** What the routes of an instrument say of its declaration. *)
Definition first_quote_provider (routes : capability_routes) : string :=
  match routes with (QUOTE, p :: _) :: _ => p | _ => "" end.

Definition assoc_get_capability (capability : Capability) (routes : capability_routes)
    : option (list string) := snd <$> next_where (λ e, e.1 = capability) routes.

(** The policy a yield provider has for the instrument, if any, names the
    instrument's underlying asset and accrual mode. *)
Definition policy_agrees (item : InstrumentSpec) (provider : string) : Prop :=
  match assoc_get (is_symbol item) (yield_policies provider) with
  | Some (underlying, mode) =>
    is_underlying_asset item = Some underlying ∧ (mode = None ∨ mode = is_reward_accrual_mode item)
  | None => is_underlying_asset item = None
  end.

#[export] Instance policy_agrees_dec item provider : Decision (policy_agrees item provider).
Proof. unfold policy_agrees. destruct (assoc_get _ _) as [[]|]; apply _. Defined.

Definition routes_agree (item : InstrumentSpec) (routes : capability_routes) : Prop :=
  (is_yield_strategy item ∈ [Some STAKING_PROVIDER_METRIC; Some TREASURY_3M_PROXY_MINUS_EXPENSE] ↔
   YIELD ∈ routes.*1) ∧
  (is_yield_strategy item = Some LATEST_DISTRIBUTION_ANNUALIZED ∨ is_dividend_strategy item ≠ None ↔
   DIVIDEND ∈ routes.*1) ∧
  (is_price_basis item = "synthetic_cross" ↔
   startswith "synthetic_" (first_quote_provider routes) = true) ∧
  (is_symbol item ∈ FX_HUB_SYMBOLS →
   assoc_get (is_symbol item) BUILTIN_FX_HUB_MAX_AGE_SECONDS = Some (is_stale_after_seconds item)) ∧
  Forall (policy_agrees item) (default [] (assoc_get_capability YIELD routes)).

#[export] Instance routes_agree_dec item routes : Decision (routes_agree item routes).
Proof. unfold routes_agree. apply _. Defined.

Definition routed (item : InstrumentSpec) : bool :=
  match assoc_get (is_symbol item) BUILTIN_PROVIDER_ROUTES with
  | Some routes => bool_decide (routes_agree item routes)
  | None => false
  end.

Definition catalog_check (rg : Registry) : bool :=
  bool_decide (NoDup (symbols rg)) &&
  bool_decide (Forall (λ s, s ∈ keys BUILTIN_PROVIDER_ROUTES) (symbols rg)) &&
  bool_decide (Forall (λ s, s ∈ symbols rg) (keys BUILTIN_PROVIDER_ROUTES)) &&
  bool_decide (map_Forall (λ _ item, routed item = true) (rg_instruments rg)).

Lemma builtin_catalog_computed :
  match discover_registry [] [] with Ok rg => catalog_check rg | Raise _ => false end = true.
Proof. by vm_compute. Qed.

(** With no plugin enabled the registry is built, and catalog and routing
    policy describe the same instruments: the registered symbols are the
    routed ones, an instrument has a yield route exactly when its declared
    strategy reads a provider's yield metric, a dividend route exactly when it
    declares a distribution, a derived price basis exactly when its first
    quote provider is synthetic, a hub pair is stale at the age its spoke is
    refused at, and every provider of its yield route has a policy for the
    instrument's own underlying asset and accrual mode, or none when it has no
    underlying asset. *)
Theorem builtin_catalog_routed :
  ∃ rg, discover_registry [] [] = Ok rg ∧ NoDup (symbols rg) ∧
    (∀ s, s ∈ symbols rg ↔ s ∈ keys BUILTIN_PROVIDER_ROUTES) ∧
    ∀ v item, resolve rg v = Some item →
      ∃ routes, assoc_get (is_symbol item) BUILTIN_PROVIDER_ROUTES = Some routes ∧
        routes_agree item routes.
Proof.
  pose proof builtin_catalog_computed as Hc.
  destruct (discover_registry [] []) as [rg|]; [|done]. exists rg. split; [done|].
  unfold catalog_check in Hc. rewrite !andb_true_iff, !bool_decide_eq_true, !Forall_forall in Hc.
  destruct Hc as [[[Hnd H1] H2] H3]. split_and!; [done|intros s; split; auto|].
  intros v item Hv. pose proof (H3 _ item Hv) as Hr. unfold routed in Hr.
  destruct (assoc_get _ _) as [routes|]; [|done]. apply bool_decide_eq_true in Hr. by exists routes.
Qed.
