(* ===== verification/Staking.v ===== *)
(** * Liquid-staking yields ([staking.py])

    The conversion of a provider's staking metric into the published estimate.
    [annualize_index_growth] needs the correctly rounded logarithm and
    exponential of the decimal library and is not modelled. *)

From S2P Require Import Prelude PyStr PyDecimal PyTime Domain.

Local Open Scope string_scope.
Local Open Scope list_scope.
Local Open Scope Z_scope.

(** The inputs an accrual index contributes. *)
Definition index_inputs (index : option AccrualIndexPoint) : list (string * InputValue) :=
  match index with
  | None => []
  | Some i => [("accrual_index", IFloat (ai_value i)); ("accrual_index_as_of", IIsoTime (ai_as_of i));
               ("accrual_index_kind", IStr (ai_kind i))]
  end.

Definition estimate_from_staking_metric (metric : YieldMetric) : result YieldEstimate :=
  match ym_accrual_mode metric, ym_rate_type metric with
  | None, _ => Raise (ValueError "staking yield metrics require an accrual mode")
  | Some _, None => Raise (ValueError "staking yield metrics require an APR or APY rate type")
  | Some accrual_mode, Some rate_type =>
    YieldEstimate_init
      {| ye_percent := DFinite (ym_value metric);
         ye_as_of := Aware (ym_as_of metric);
         ye_method := ym_method metric;
         ye_provider := ym_provider metric;
         ye_is_proxy := ym_is_proxy metric;
         ye_inputs := index_inputs (ym_accrual_index metric);
         ye_rate_type := Some (EnumMember rate_type);
         ye_observation_window_days := DFinite <$> ym_observation_window_days metric;
         ye_accrual_mode := Some (EnumMember accrual_mode);
         ye_underlying_asset := ym_underlying_asset metric;
         ye_is_estimate := ym_is_estimate metric;
         ye_accrual_index := ym_accrual_index metric;
         ye_quality := ym_quality metric;
         ye_components := ym_components metric;
         ye_fallback_level := ym_fallback_level metric |}
  end.

Definition requires_staking_yield (accrual_mode : option RewardAccrualMode) : bool :=
  match accrual_mode with Some _ => true | None => false end.

(** ** What a validated metric satisfies *)

Definition valid_metric (m : YieldMetric) : Prop :=
  float_representable (ym_value m) ∧
  (∀ w, ym_observation_window_days m = Some w → float_representable w ∧ is_pos w) ∧
  (∀ u, ym_underlying_asset m = Some u → truthy (strip u) = true) ∧
  0 ≤ ym_fallback_level m.

Lemma positive_window_ok w d :
  positive_window w = Ok d ↔ w = DFinite d ∧ float_representable d ∧ is_pos d.
Proof.
  unfold positive_window. rewrite result_bind_ok. split.
  - intros (d' & [-> Hr]%decimal_of_ok & H). apply raise_if_bind in H as [Hp [= <-]].
    by apply negb_false_iff, bool_decide_eq_true in Hp.
  - intros (-> & Hr & Hp). exists d. split; [by apply decimal_of_ok|]. by rewrite bool_decide_true.
Qed.

Lemma check_underlying_ok u v :
  check_underlying u = Ok v ↔ ∀ s, u = Some s → truthy (strip s) = true.
Proof.
  unfold check_underlying. rewrite raise_if_ok. destruct u as [s|]; [|naive_solver].
  rewrite negb_false_iff. naive_solver.
Qed.

Lemma YieldMetric_init_ok raw m : YieldMetric_init raw = Ok m → valid_metric m.
Proof.
  unfold YieldMetric_init. intros (value & [_ Hv]%decimal_of_ok & H)%result_bind_ok.
  do 3 apply result_bind_ok in H as (? & _ & H).
  apply result_bind_ok in H as (window & Hw & H).
  apply result_bind_ok in H as ([] & Hu & H). apply raise_if_bind in H as [Hf [= <-]].
  apply bool_decide_eq_false in Hf. split_and!; cbn; [done| | |lia].
  - intros w ->. destruct (ym_observation_window_days raw) as [i|]; cbn in Hw; [|done].
    apply result_bind_ok in Hw as (w' & (_ & ? & ?)%positive_window_ok & [= ->]). done.
  - by apply (proj1 (check_underlying_ok _ _) Hu).
Qed.

(** The estimate says what the metric said. *)
Definition carries (m : YieldMetric) (e : YieldEstimate) : Prop :=
  ye_percent e = ym_value m ∧ ye_as_of e = ym_as_of m ∧ ye_method e = ym_method m ∧
  ye_provider e = ym_provider m ∧ ye_is_proxy e = ym_is_proxy m ∧
  ye_rate_type e = ym_rate_type m ∧ ye_accrual_mode e = ym_accrual_mode m ∧
  ye_observation_window_days e = ym_observation_window_days m ∧
  ye_underlying_asset e = ym_underlying_asset m ∧ ye_is_estimate e = ym_is_estimate m ∧
  ye_accrual_index e = ym_accrual_index m ∧ ye_quality e = ym_quality m ∧
  ye_components e = ym_components m ∧ ye_fallback_level e = ym_fallback_level m.

Lemma estimate_valid m accrual_mode rate_type :
  valid_metric m → ym_accrual_mode m = Some accrual_mode → ym_rate_type m = Some rate_type →
  ∃ e, estimate_from_staking_metric m = Ok e ∧ carries m e ∧
    ye_inputs e = index_inputs (ym_accrual_index m).
Proof.
  intros (Hv & Hw & Hu & Hf) Ha Hr. unfold estimate_from_staking_metric. rewrite Ha, Hr.
  unfold YieldEstimate_init. cbn [ye_percent decimal_of].
  rewrite (bool_decide_true (float_representable (ym_value m))) by done.
  assert (option_result positive_window (DFinite <$> ym_observation_window_days m)
    = Ok (ym_observation_window_days m)) as E.
  { destruct (ym_observation_window_days m) as [w|]; [|done]. destruct (Hw w eq_refl).
    assert (positive_window (DFinite w) = Ok w) as Hp by by apply positive_window_ok.
    unfold option_result. cbn [fmap option_fmap option_map]. by rewrite Hp. }
  assert (check_underlying (ym_underlying_asset m) = Ok tt) as Eu by by apply check_underlying_ok.
  cbn -[positive_window check_underlying]. rewrite E. cbn -[check_underlying]. rewrite Eu. cbn.
  rewrite (bool_decide_false (ym_fallback_level m < 0)) by lia. cbn.
  eexists. split; [done|]. by rewrite <- Ha, <- Hr.
Qed.

(** ** Properties *)

(** A validated staking metric is published without loss.  Without an
    accrual mode, or without a rate type, it is refused; otherwise the estimate
    exists and carries the metric's value, time, method, provider, rate
    semantics, observation window, asset, accrual index, quality, components
    and fallback level unchanged, with the accrual index among its inputs. *)
Theorem staking_estimate_lossless raw (m : YieldMetric) :
  YieldMetric_init raw = Ok m →
  (requires_staking_yield (ym_accrual_mode m) = true ∧ ym_rate_type m ≠ None ↔
   ∃ e, estimate_from_staking_metric m = Ok e) ∧
  ∀ e, estimate_from_staking_metric m = Ok e →
    carries m e ∧ ye_inputs e = index_inputs (ym_accrual_index m).
Proof.
  intros Hm%YieldMetric_init_ok. pose proof (estimate_valid m) as Hok.
  destruct (ym_accrual_mode m) as [a|] eqn:Ha.
  - destruct (ym_rate_type m) as [r|] eqn:Hr.
    + destruct (Hok a r) as (e & He & Hc & Hi); [done..|]. split.
      * split; [by exists e|done].
      * intros e' He'. rewrite He in He'. by injection He' as <-.
    + unfold estimate_from_staking_metric. rewrite Ha, Hr. split; [|done].
      split; [by intros []|by intros []].
  - unfold estimate_from_staking_metric. rewrite Ha. split; [|done].
    split; [by intros []|by intros []].
Qed.

Definition demo_metric : YieldMetricOf decimal_input datetime (enum_input YieldRateType)
    (enum_input RewardAccrualMode) :=
  {| ym_symbol := "STETH:USDC"; ym_value := DFinite (Dec 31 (-1)); ym_as_of := Aware 5;
     ym_method := "lido_apr"; ym_provider := "lido"; ym_is_proxy := false; ym_components := [];
     ym_rate_type := Some (EnumValue "apr"); ym_observation_window_days := Some (DFinite (dint 7));
     ym_accrual_mode := Some (EnumValue "rebasing_balance"); ym_underlying_asset := Some "ETH";
     ym_is_estimate := false; ym_accrual_index := None; ym_quality := None;
     ym_fallback_level := 0 |}.

Lemma staking_estimate_lossless_witness :
  match YieldMetric_init demo_metric with
  | Ok m => ∃ e, estimate_from_staking_metric m = Ok e ∧ carries m e
  | Raise _ => False
  end.
Proof.
  destruct (YieldMetric_init demo_metric) as [m|e] eqn:E; [|vm_compute in E; discriminate].
  destruct (staking_estimate_lossless demo_metric m E) as [[Hex _] Hc].
  destruct Hex as [e He].
  - vm_compute in E. injection E as <-. done.
  - exists e. split; [exact He|]. by apply Hc.
Defined.
