(* ===== verification/Router.v ===== *)
(** * Provider routing ([providers/router.py])

    A router owns the ordered provider chain of every symbol and capability,
    one circuit breaker per provider, symbol and capability, and the record of
    which provider served last.  A dispatch walks its chain; every provider call
    is an [await], during which other dispatches may change the router, so the
    environment of a call gives the clock readings around it and the router
    state and outcome it ends with.  Metrics and logging are not modelled. *)

From S2P Require Import Prelude PyStr PyDecimal PyTime Domain.

Local Open Scope string_scope.
Local Open Scope list_scope.
Local Open Scope Z_scope.

(** ** Providers and what they answer *)

Record Provider := {
  pv_id : Z;  (* [id(provider)] *)
  pv_name : string;
  pv_callable : list Capability;  (* capabilities whose method it has *)
  pv_history_prefix_limited : bool;
}.

#[export] Instance Provider_eq_dec : EqDecision Provider.
Proof. solve_decision. Defined.

Inductive payload :=
| PQuote (q : ProviderQuote)
| PHistory (points : list PricePoint)
| PDividend (e : DividendEvent)
| PYield (m : YieldMetric)
| PNone
| PForeign.  (* any other Python value *)

(** How an awaited provider call ends. *)
Inductive outcome :=
| Returned (v : payload)
| TimedOut
| Raised (e : exn).

Record history_args := {
  ha_interval : string;
  ha_start : Z;
  ha_end : Z;
  ha_limit : option Z;
}.

(** [AllProvidersFailed.__init__]: the message over the recorded attempts. *)
Definition attempts_summary (attempts : list (string * string)) : string :=
  join "; " ((λ a : string * string, a.1 +:+ "=" +:+ a.2) <$> attempts).

Definition all_failed_message (symbol : string) (cap : Capability)
    (attempts : list (string * string)) : string :=
  capability_value cap +:+ " unavailable for " +:+ symbol +:+ ": " +:+ attempts_summary attempts.

(** ** Circuits *)

Record Circuit := {
  consecutive_failures : Z;
  open_count : Z;
  open_until : Z;
  probing : bool;
}.

Definition fresh_circuit : Circuit :=
  {| consecutive_failures := 0; open_count := 0; open_until := 0; probing := false |}.

Definition set_probing (b : bool) (c : Circuit) : Circuit :=
  {| consecutive_failures := consecutive_failures c; open_count := open_count c;
     open_until := open_until c; probing := b |}.

Record RouterConfig := {
  timeout_seconds : Z;
  failure_threshold : Z;
  half_open_after : Z;
  max_backoff : Z;
  network_retry : Z;
}.

(** The checks of [ProviderRouter.__init__]. *)
Definition RouterConfig_init (c : RouterConfig) : result RouterConfig :=
  _ ← raise_if (bool_decide (timeout_seconds c ≤ 0))
        (ValueError "timeout_seconds must be positive");
  _ ← raise_if (bool_decide (failure_threshold c ≤ 0))
        (ValueError "failure_threshold must be positive");
  _ ← raise_if (bool_decide (network_retry c ≤ 0))
        (ValueError "network retry interval must be positive");
  Ok c.

Definition allow_call (now : Z) (c : Circuit) : bool * Circuit :=
  if decide (open_until c ≤ 0) then (true, c)
  else if decide (now < open_until c ∨ probing c = true) then (false, c)
  else (true, set_probing true c).

(** [min(max_backoff, half_open_after * 2 ** exponent)]: Python multiplies a
    float by an integer, which overflows once the integer exceeds a float. *)
Definition backoff_delay (cfg : RouterConfig) (exponent : Z) : result Z :=
  _ ← raise_if (bool_decide (1024 ≤ exponent))
        (OverflowError "int too large to convert to float");
  Ok (Z.min (max_backoff cfg) (half_open_after cfg * 2 ^ exponent)).

(** [_record_failure]: the mutated circuit, and the exception it may raise. *)
Definition record_failure (cfg : RouterConfig) (now : Z) (network_failure : bool) (c : Circuit)
    : Circuit * option exn :=
  let failures := consecutive_failures c + 1 in
  if decide (failures < failure_threshold cfg ∧ open_until c ≤ 0) then
    ({| consecutive_failures := failures; open_count := open_count c;
        open_until := open_until c; probing := false |}, None)
  else
    let count := open_count c + 1 in
    let opened := λ until, {| consecutive_failures := failures; open_count := count;
                              open_until := until; probing := false |} in
    if network_failure then (opened (now + network_retry cfg), None)
    else match backoff_delay cfg (Z.max 0 (count - 1)) with
         | Ok delay => (opened (now + delay), None)
         | Raise e => (opened (open_until c), Some e)
         end.

Definition record_success (c : Circuit) : Circuit := fresh_circuit.

(** ** Router state *)

Abbreviation route_key := (string * Capability)%type.
Abbreviation circuit_key := (Z * string * Capability)%type.

Record Router := {
  routes : gmap route_key (list Provider);
  circuits : gmap circuit_key Circuit;
  fallbacks : gmap (string * Capability * string) Z;
  route_selections : gmap route_key (string * Z);
}.

Definition set_routes (m : gmap route_key (list Provider)) (r : Router) : Router :=
  {| routes := m; circuits := circuits r; fallbacks := fallbacks r;
     route_selections := route_selections r |}.

(** [self._circuits[key]] of a [defaultdict]. *)
Definition circuit_at (r : Router) (k : circuit_key) : Circuit :=
  default fresh_circuit (circuits r !! k).

Definition set_circuit (k : circuit_key) (c : Circuit) (r : Router) : Router :=
  {| routes := routes r; circuits := <[k := c]> (circuits r); fallbacks := fallbacks r;
     route_selections := route_selections r |}.

Definition router_symbol (symbol : string) : string := upper (strip symbol).

Definition Capability_of : enum_input Capability → result Capability :=
  enum_coerce capability_value [QUOTE; HISTORY; DIVIDEND; YIELD].

(** [_METHODS] *)
Definition method_name (c : Capability) : string :=
  match c with
  | QUOTE => "get_quote"
  | HISTORY => "get_history"
  | DIVIDEND => "get_latest_dividend"
  | YIELD => "get_yield"
  end.

(** The first provider of a chain that lacks the capability's method. *)
Definition lacking (cap : Capability) (chain : list Provider) : option Provider :=
  next_where (λ p, cap ∉ pv_callable p) chain.

Definition register (r : Router) (symbol : string) (capability : enum_input Capability)
    (chain : list Provider) : result Router :=
  cap ← Capability_of capability;
  _ ← raise_if (bool_decide (chain = []))
        (ValueError ("provider chain cannot be empty: " +:+ symbol +:+ "/" +:+ capability_value cap));
  match lacking cap chain with
  | Some p => Raise (TypeError ("'" +:+ pv_name p +:+ "' lacks " +:+ method_name cap))
  | None =>
    let key := (router_symbol symbol, cap) in
    _ ← raise_if (bool_decide (is_Some (routes r !! key)))
          (ValueError ("duplicate provider route: " +:+ key.1 +:+ "/" +:+ capability_value cap));
    Ok (set_routes (<[key := chain]> (routes r)) r)
  end.

(** The constructor registers the given routes one by one. *)
Definition empty_router : Router :=
  {| routes := ∅; circuits := ∅; fallbacks := ∅; route_selections := ∅ |}.

Fixpoint register_all (r : Router)
    (l : list (string * enum_input Capability * list Provider)) : result Router :=
  match l with
  | [] => Ok r
  | (symbol, cap, chain) :: l' => r' ← register r symbol cap chain; register_all r' l'
  end.

Definition configured (r : Router) (symbol : string) (cap : Capability) : bool :=
  bool_decide (is_Some (routes r !! (router_symbol symbol, cap))).

(** [replace]: the state it leaves and whether it raised. *)
Definition replace (r : Router) (symbol : string) (capability : enum_input Capability)
    (chain : list Provider) : Router * option exn :=
  match Capability_of capability with
  | Raise e => (r, Some e)
  | Ok cap =>
    let key := (router_symbol symbol, cap) in
    let previous := routes r !! key in
    let r1 := set_routes (delete key (routes r)) r in
    match register r1 key.1 (EnumMember cap) chain with
    | Ok r2 => (r2, None)
    | Raise e =>
      (match previous with
       | Some old => set_routes (<[key := old]> (routes r1)) r1
       | None => r1
       end, Some e)
    end
  end.

Definition remove (r : Router) (symbol : string) (cap : Capability) : Router :=
  set_routes (delete (router_symbol symbol, cap) (routes r)) r.

Definition replace_provider_instance (r : Router) (old new : Provider) : Router :=
  set_routes ((λ chain : list Provider,
                 if decide (old ∈ chain) then
                   (λ p, if decide (p = old) then new else p) <$> chain
                 else chain) <$> routes r) r.

Definition providers_for (r : Router) (symbol : string) (cap : Capability) : list Provider :=
  default [] (routes r !! (router_symbol symbol, cap)).

(** ** Checking and post-processing results *)

(** [_validate_result_identity]: the symbols of a well-typed result. *)
Definition result_symbols (cap : Capability) (v : payload) : option (list string) :=
  match cap, v with
  | QUOTE, PQuote q => Some [pq_symbol q]
  | HISTORY, PHistory points => Some (pp_symbol <$> points)
  | DIVIDEND, PNone => Some []
  | DIVIDEND, PDividend e => Some [de_symbol e]
  | YIELD, PYield m => Some [ym_symbol m]
  | _, _ => None
  end.

Definition validate_result_identity (v : payload) (symbol : string) (cap : Capability)
    (provider : string) : result unit :=
  match result_symbols cap v with
  | None => Raise (ProviderError PEUnavailable provider
                     ("invalid " +:+ capability_value cap +:+ " response type") None)
  | Some symbols =>
    raise_if (existsb (λ s, bool_decide (s ≠ symbol)) symbols)
      (ProviderError PEUnavailable provider
         (capability_value cap +:+ " response symbol mismatch") None)
  end.

Definition interval_seconds (interval : string) : Z :=
  let table : gmap string Z :=
    list_to_map [("1m", 60); ("5m", 300); ("15m", 900); ("1h", 3600); ("4h", 14400);
                 ("1d", 86400)] in
  default 60 (table !! lower interval).

(** [min(point.timestamp for point in points)] of a non-empty history. *)
Definition earliest (first : PricePoint) (points : list PricePoint) : Z :=
  foldl (λ t p, Z.min t (pp_timestamp p)) (pp_timestamp first) points.

Definition history_covers_start (points : list PricePoint) (args : option history_args) : bool :=
  match points with
  | [] => false
  | first :: rest =>
    match args with
    | None => true
    | Some a =>
      bool_decide (earliest first rest ≤
                   ha_start a + seconds (interval_seconds (ha_interval a) * 2))
    end
  end.

(** [merged.setdefault(point.timestamp, point)] over every segment. *)
Definition merge_segment (m : gmap Z PricePoint) (segment : list PricePoint) : gmap Z PricePoint :=
  foldl (λ m p, match m !! pp_timestamp p with
                | Some _ => m
                | None => <[pp_timestamp p := p]> m
                end) m segment.

Definition merge_history (segments : list (list PricePoint)) (limit : option Z)
    : list PricePoint :=
  let ordered := ordered_values (foldl merge_segment ∅ segments) in
  match limit with
  | Some n => if decide (0 ≤ n) then take (Z.to_nat n) ordered else ordered
  | None => ordered
  end.

Definition quote_with_fallback (q : ProviderQuote) (level : Z) : ProviderQuote :=
  {| pq_symbol := pq_symbol q; pq_price := pq_price q; pq_as_of := pq_as_of q;
     pq_provider := pq_provider q; pq_feed := pq_feed q; pq_price_basis := pq_price_basis q;
     pq_market_status := pq_market_status q; pq_is_derived := pq_is_derived q;
     pq_components := pq_components q; pq_fallback_level := level;
     pq_license_scope := pq_license_scope q; pq_coverage := pq_coverage q;
     pq_market_status_as_of := pq_market_status_as_of q |}.

Definition metric_with_fallback (m : YieldMetric) (level : Z) : YieldMetric :=
  {| ym_symbol := ym_symbol m; ym_value := ym_value m; ym_as_of := ym_as_of m;
     ym_method := ym_method m; ym_provider := ym_provider m; ym_is_proxy := ym_is_proxy m;
     ym_components := ym_components m; ym_rate_type := ym_rate_type m;
     ym_observation_window_days := ym_observation_window_days m;
     ym_accrual_mode := ym_accrual_mode m; ym_underlying_asset := ym_underlying_asset m;
     ym_is_estimate := ym_is_estimate m; ym_accrual_index := ym_accrual_index m;
     ym_quality := ym_quality m; ym_fallback_level := level |}.

(** [_attach_fallback]: only models with a [fallback_level] field change. *)
Definition attach_fallback (v : payload) (level : Z) : payload :=
  match v with
  | PQuote q => PQuote (quote_with_fallback q (Z.max (pq_fallback_level q) level))
  | PYield m => PYield (metric_with_fallback m (Z.max (ym_fallback_level m) level))
  | _ => v
  end.

(** [_record_route_selection] *)
Definition record_route_selection (symbol : string) (cap : Capability) (provider : string)
    (level : Z) (r : Router) : Router :=
  let fkey := (symbol, cap, provider) in
  {| routes := routes r; circuits := circuits r;
     fallbacks := if decide (level = 0) then fallbacks r
                  else <[fkey := default 0 (fallbacks r !! fkey) + 1]> (fallbacks r);
     route_selections := <[(symbol, cap) := (provider, level)]> (route_selections r) |}.

(** ** Dispatch *)

Definition perr_class_name (c : perr_class) : string :=
  match c with
  | PEBase => "ProviderError"
  | PEUnavailable => "ProviderUnavailable"
  | PENetworkUnavailable => "NetworkUnavailable"
  | PERateLimited => "ProviderRateLimited"
  | PEBusy => "ProviderBusy"
  | PEMalformed => "MalformedResponse"
  | PEUnsupported => "UnsupportedInstrument"
  | PESyntheticComponent => "SyntheticComponentError"
  end.

(** [type(error).__name__] *)
Definition exn_class_name (e : exn) : string :=
  match e with
  | ValueError _ => "ValueError"
  | TypeError _ => "TypeError"
  | KeyError _ => "KeyError"
  | RuntimeError _ => "RuntimeError"
  | OverflowError _ => "OverflowError"
  | OtherError cls | NamedError cls _ | RetryError cls _ => cls
  | ProviderError cls _ _ _ => perr_class_name cls
  | AllProvidersFailed _ _ _ => "AllProvidersFailed"
  end.

(** How [_dispatch] classifies the end of a call, in the order of its [except]
    clauses; the string is the reason it records for the attempt. *)
Inductive verdict :=
| VSuccess (v : payload)
| VFailure (network : bool) (reason : string)
| VUnsupported (reason : string)
| VBusy (reason : string).

Definition exn_verdict (e : exn) : verdict :=
  match e with
  | ProviderError PEUnsupported _ msg _ => VUnsupported msg
  | ProviderError PEBusy _ msg _ => VBusy msg
  | ProviderError PENetworkUnavailable _ msg _ => VFailure true msg
  | ProviderError _ _ msg _ => VFailure false msg
  | AllProvidersFailed symbol cap attempts =>
    VFailure false (all_failed_message symbol cap attempts)
  | _ => VFailure false (exn_class_name e)
  end.

Definition call_verdict (symbol : string) (cap : Capability) (provider : string) (o : outcome)
    : verdict :=
  match o with
  | TimedOut => VFailure true "timeout"
  | Raised e => exn_verdict e
  | Returned v =>
    match validate_result_identity v symbol cap provider with
    | Ok _ => VSuccess v
    | Raise e => exn_verdict e
    end
  end.

(** The environment of one provider call. *)
Record call_env := {
  ce_allow_clock : Z;                       (* read by [_allow_call] *)
  ce_call : Router → Router * outcome;      (* the awaited call *)
  ce_done_clock : Z;                        (* read by [_record_failure] *)
}.

Definition no_data (cap : Capability) (v : payload) : bool :=
  match cap, v with
  | DIVIDEND, PNone => true
  | HISTORY, PHistory [] => true
  | _, _ => false
  end.

Definition history_of (v : payload) : list PricePoint :=
  match v with PHistory points => points | _ => [] end.

Definition limit_of (args : option history_args) : option Z := args ≫= ha_limit.

(** After the loop: whatever partial histories were collected, or a failure. *)
Definition dispatch_end (symbol : string) (cap : Capability) (args : option history_args)
    (attempts : list (string * string)) (segments : list (list PricePoint)) : result payload :=
  match segments with
  | [] => Raise (AllProvidersFailed symbol cap attempts)
  | _ :: _ => Ok (PHistory (merge_history segments (limit_of args)))
  end.

Fixpoint dispatch_from (cfg : RouterConfig) (symbol : string) (cap : Capability)
    (args : option history_args) (env : nat → call_env) (level : nat)
    (providers : list Provider) (attempts : list (string * string))
    (segments : list (list PricePoint)) (r : Router) : Router * result payload :=
  match providers with
  | [] => (r, dispatch_end symbol cap args attempts segments)
  | p :: providers' =>
    let continue := λ reason segments' r',
      dispatch_from cfg symbol cap args env (S level) providers'
        (attempts ++ [(pv_name p, reason)]) segments' r' in
    let key := (pv_id p, symbol, cap) in
    let ce := env level in
    let '(allowed, c1) := allow_call (ce_allow_clock ce) (circuit_at r key) in
    let r1 := set_circuit key c1 r in
    if negb allowed then continue "circuit_open" segments r1
    else
      let '(r2, o) := ce_call ce r1 in
      let c2 := circuit_at r2 key in
      match call_verdict symbol cap (pv_name p) o with
      | VUnsupported msg => continue msg segments (set_circuit key (set_probing false c2) r2)
      | VBusy msg =>
        (set_circuit key (set_probing false c2) r2,
         dispatch_end symbol cap args (attempts ++ [(pv_name p, msg)]) segments)
      | VFailure network reason =>
        let '(c3, raised) := record_failure cfg (ce_done_clock ce) network c2 in
        let r3 := set_circuit key c3 r2 in
        match raised with
        | Some e => (r3, Raise e)
        | None => continue reason segments r3
        end
      | VSuccess v =>
        let r3 := set_circuit key (record_success c2) r2 in
        let fallback_level := Z.of_nat level in
        let selected := record_route_selection symbol cap (pv_name p) fallback_level r3 in
        if no_data cap v then continue "no_data" segments r3
        else if decide (cap = HISTORY) then
          let attached := history_of (attach_fallback v fallback_level) in
          if pv_history_prefix_limited p && negb (history_covers_start attached args) then
            continue "incomplete_prefix" (segments ++ [attached])
              (if decide (level = 0%nat) then r3 else selected)
          else
            match segments with
            | [] => (selected, Ok (PHistory attached))
            | _ :: _ => (selected, Ok (PHistory (merge_history (segments ++ [attached])
                                                   (limit_of args))))
            end
        else (selected, Ok (attach_fallback v fallback_level))
      end
  end.

Definition dispatch (cfg : RouterConfig) (symbol : string) (cap : Capability)
    (args : option history_args) (env : nat → call_env) (r : Router)
    : Router * result payload :=
  match routes r !! (symbol, cap) with
  | None | Some [] =>
    (r, Raise (AllProvidersFailed symbol cap [("router", "not configured")]))
  | Some providers => dispatch_from cfg symbol cap args env 0 providers [] [] r
  end.

(** ** Observation *)

Record CircuitSnapshot := {
  cs_provider : string;
  cs_symbol : string;
  cs_capability : string;
  cs_state : string;
  cs_consecutive_failures : Z;
  cs_open_count : Z;
  cs_retry_in : Z;
}.

Definition circuit_state (now : Z) (c : Circuit) : string :=
  if decide (open_until c ≤ 0) then "closed"
  else if decide (now < open_until c) then "open"
  else if probing c then "half_open"
  else "probe_ready".

Definition circuit_snapshot (r : Router) (now : Z) (kc : circuit_key * Circuit)
    : CircuitSnapshot :=
  let '((provider_id, symbol, cap), c) := kc in
  {| cs_provider :=
       default "unknown"
         (pv_name <$> next_where (λ p, pv_id p = provider_id)
                        (default [] (routes r !! (symbol, cap))));
     cs_symbol := symbol;
     cs_capability := capability_value cap;
     cs_state := circuit_state now c;
     cs_consecutive_failures := consecutive_failures c;
     cs_open_count := open_count c;
     cs_retry_in := Z.max 0 (open_until c - now) |}.

Definition circuit_snapshots (r : Router) (now : Z) : list CircuitSnapshot :=
  circuit_snapshot r now <$> map_to_list (circuits r).

(** The providers [close] closes, each once, the transferred ones left alive. *)
Definition closed_providers (r : Router) (excluded : list Z) : list Provider :=
  let step := λ (acc : gset Z * list Provider) p,
    if decide (pv_id p ∈ acc.1) then acc
    else ({[pv_id p]} ∪ acc.1,
          if decide (pv_id p ∈ excluded) then acc.2 else acc.2 ++ [p]) in
  (foldl step (∅, []) (concat (map_to_list (routes r)).*2)).2.

(** ** Singleflight

    [_execute] shares one task per request key; the lock makes each of its
    critical sections atomic.  A task is a number; [running] holds the tasks
    that were neither completed nor cancelled. *)

Section flights.
Context {K : Type} `{Countable K}.

Record Flights := {
  flights : gmap K nat;
  running : gmap nat K;
  next_task : nat;
}.

Definition no_flights : Flights := {| flights := ∅; running := ∅; next_task := 0%nat |}.

(** The critical section of [_execute]: join the current task or start one. *)
Definition execute (key : K) (f : Flights) : Flights * nat :=
  match flights f !! key with
  | Some task => (f, task)
  | None =>
    ({| flights := <[key := next_task f]> (flights f);
        running := <[next_task f := key]> (running f);
        next_task := S (next_task f) |}, next_task f)
  end.

(** The shared task completes, successfully or not. *)
Definition complete (task : nat) (f : Flights) : Flights :=
  {| flights := flights f; running := delete task (running f); next_task := next_task f |}.

(** The cleanup by a waiter or by the completion callback, once [task] is done. *)
Definition cleanup (key : K) (task : nat) (f : Flights) : Flights :=
  if decide (flights f !! key = Some task ∧ running f !! task = None) then
    {| flights := delete key (flights f); running := running f; next_task := next_task f |}
  else f.

(** [close]: forget every flight and cancel its task. *)
Definition close_flights (f : Flights) : Flights :=
  {| flights := ∅; running := ∅; next_task := next_task f |}.

Inductive flight_step : Flights → Flights → Prop :=
| step_execute key f : flight_step f (execute key f).1
| step_complete task f : flight_step f (complete task f)
| step_cleanup key task f : flight_step f (cleanup key task f)
| step_close f : flight_step f (close_flights f).

End flights.
Arguments Flights K {_ _}.
