(* ===== verification/RouterFacts.v ===== *)
(** * Properties of provider routing

    Circuit breakers as a state machine, what a dispatch may return, the merge
    of partial histories, route replacement and singleflight. *)

From S2P Require Import Prelude PyStr PyDecimal PyTime Domain Router.

Local Open Scope string_scope.
Local Open Scope list_scope.
Local Open Scope Z_scope.

(** ** Circuits as a state machine *)

(** A configuration whose delays are positive, as the defaults are. *)
Definition config_ok (cfg : RouterConfig) : Prop :=
  0 < failure_threshold cfg ∧ 0 < half_open_after cfg ∧ 0 < max_backoff cfg ∧
  0 < network_retry cfg.

Inductive circuit_step (cfg : RouterConfig) : Circuit → Circuit → Prop :=
| cs_allow now c : circuit_step cfg c (allow_call now c).2
| cs_failure now network c : 0 ≤ now → circuit_step cfg c (record_failure cfg now network c).1
| cs_success c : circuit_step cfg c (record_success c)
| cs_release c : circuit_step cfg c (set_probing false c).

(** A circuit is closed, below the failure threshold and not probing, or it has
    been opened by at least the threshold of consecutive failures. *)
Definition circuit_ok (cfg : RouterConfig) (c : Circuit) : Prop :=
  (open_until c = 0 ∧ open_count c = 0 ∧ probing c = false ∧
   0 ≤ consecutive_failures c < failure_threshold cfg) ∨
  (0 < open_until c ∧ 0 < open_count c ∧ failure_threshold cfg ≤ consecutive_failures c ∧
   open_count c ≤ consecutive_failures c).

Lemma fresh_circuit_ok cfg : config_ok cfg → circuit_ok cfg fresh_circuit.
Proof. intros (? & _). left. cbn. lia. Qed.

Lemma backoff_delay_spec cfg e d :
  config_ok cfg → 0 ≤ e → backoff_delay cfg e = Ok d →
  d = Z.min (max_backoff cfg) (half_open_after cfg * 2 ^ e) ∧ 0 < d ≤ max_backoff cfg.
Proof.
  intros (_ & Hh & Hm & _) He. unfold backoff_delay.
  destruct (bool_decide (1024 ≤ e)); [done|]. cbn. intros [= <-].
  assert (0 < 2 ^ e) by (apply Z.pow_pos_nonneg; lia). split; [done|]. nia.
Qed.

Lemma allow_call_ok cfg now c : circuit_ok cfg c → circuit_ok cfg (allow_call now c).2.
Proof.
  intros H. unfold allow_call. destruct (decide (open_until c ≤ 0)); [done|].
  destruct (decide _); [done|]. right. destruct H as [H|H]; cbn; lia.
Qed.

Lemma record_failure_ok cfg now network c :
  config_ok cfg → 0 ≤ now → circuit_ok cfg c →
  circuit_ok cfg (record_failure cfg now network c).1.
Proof.
  intros Hcfg Hnow H. pose proof Hcfg as (Ht & _ & _ & Hn). unfold record_failure.
  destruct (decide _) as [[Hf Hu]|Hopen].
  - left. cbn. destruct H as [H|H]; lia.
  - destruct network; [right; cbn; destruct H as [H|H]; lia|].
    destruct (backoff_delay cfg _) as [d|e] eqn:Hd; cbn.
    + apply backoff_delay_spec in Hd as [_ Hd]; [|done|lia]. right. destruct H; cbn; lia.
    + right. unfold backoff_delay in Hd. destruct (bool_decide (1024 ≤ _)) eqn:He; [|done].
      apply bool_decide_eq_true in He. destruct H as [H|H]; cbn; lia.
Qed.

Lemma circuit_step_ok cfg c c' :
  config_ok cfg → circuit_step cfg c c' → circuit_ok cfg c → circuit_ok cfg c'.
Proof.
  intros Hcfg [now c0|now network c0 Hnow|c0|c0] Hc.
  - by apply allow_call_ok.
  - by apply record_failure_ok.
  - by apply fresh_circuit_ok.
  - destruct Hc as [H|H]; [left|right]; cbn; lia || tauto.
Qed.

(** When a circuit that has just been opened admits calls again. *)
Lemma allow_call_open c now :
  0 < open_until c → probing c = false →
  allow_call now c =
    if decide (now < open_until c) then (false, c) else (true, set_probing true c).
Proof.
  intros Ho Hp. unfold allow_call. rewrite decide_False by lia.
  destruct (decide (now < open_until c)).
  - by rewrite decide_True by tauto.
  - rewrite decide_False; [done|]. rewrite Hp. intros [?|?]; [lia|done].
Qed.

Lemma allow_call_probing c now :
  0 < open_until c → probing c = true → allow_call now c = (false, c).
Proof.
  intros Ho Hp. unfold allow_call. rewrite decide_False by lia. by rewrite decide_True by tauto.
Qed.

(** The delay [_record_failure] chooses for a circuit it opens. *)
Definition retry_delay (cfg : RouterConfig) (network : bool) (opened_before : Z) : Z :=
  if network then network_retry cfg
  else Z.min (max_backoff cfg) (half_open_after cfg * 2 ^ opened_before).

Lemma record_failure_opens cfg now network c c' :
  config_ok cfg → 0 ≤ now → circuit_ok cfg c →
  record_failure cfg now network c = (c', None) →
  failure_threshold cfg ≤ consecutive_failures c + 1 →
  open_until c' = now + retry_delay cfg network (open_count c) ∧
  0 < retry_delay cfg network (open_count c) ∧ probing c' = false ∧
  open_count c' = open_count c + 1.
Proof.
  intros Hcfg Hnow Hc. pose proof Hcfg as (_ & _ & _ & Hn). unfold record_failure.
  intros Hr Hf. rewrite decide_False in Hr by lia. unfold retry_delay. destruct network.
  { injection Hr as <-. cbn. lia. }
  assert (Hoc : 0 ≤ open_count c) by (destruct Hc; lia).
  destruct (backoff_delay cfg _) as [d|e] eqn:Hd; [|done]. injection Hr as <-.
  apply backoff_delay_spec in Hd as [-> Hd]; [|done|lia].
  replace (Z.max 0 (open_count c + 1 - 1)) with (open_count c) in * by lia. cbn. lia.
Qed.

(** ** Histories *)

Lemma merge_segment_lookup m segment k :
  merge_segment m segment !! k =
  match m !! k with
  | Some p => Some p
  | None => next_where (λ p, pp_timestamp p = k) segment
  end.
Proof.
  revert m. induction segment as [|p l IH]; intros m.
  { cbn. by destruct (m !! k). }
  unfold merge_segment. cbn [foldl]. fold (merge_segment (match m !! pp_timestamp p with
    Some _ => m | None => <[pp_timestamp p:=p]> m end) l). rewrite IH.
  unfold next_where. rewrite filter_cons. destruct (decide (pp_timestamp p = k)) as [<-|Hne].
  - destruct (m !! pp_timestamp p) eqn:E; [by rewrite E|by rewrite lookup_insert_eq].
  - destruct (m !! pp_timestamp p); [done|]. by rewrite lookup_insert_ne.
Qed.

Lemma merge_segments_lookup segments m k :
  foldl merge_segment m segments !! k =
  match m !! k with
  | Some p => Some p
  | None => next_where (λ p, pp_timestamp p = k) (concat segments)
  end.
Proof.
  revert m. induction segments as [|s l IH]; intros m; [cbn; by destruct (m !! k)|].
  cbn [foldl concat]. rewrite IH, merge_segment_lookup. destruct (m !! k); [done|].
  unfold next_where. rewrite filter_app, head_app. by destruct (head _).
Qed.

Lemma next_where_spec {A} (P : A → Prop) `{!∀ x, Decision (P x)} l x :
  next_where P l = Some x ↔ ∃ l1 l2, l = l1 ++ x :: l2 ∧ P x ∧ ∀ y, y ∈ l1 → ¬ P y.
Proof.
  unfold next_where. induction l as [|z l IH].
  - split; [done|]. intros (l1 & l2 & Hnil & _). by destruct l1.
  - rewrite filter_cons. case_decide as Hz; cbn.
    + split.
      * intros [= <-]. exists [], l. split_and!; [done..|by intros y ?%elem_of_nil].
      * intros ([|y l1] & l2 & Heq & Hx & Hn); injection Heq as -> ->; [done|].
        exfalso. apply (Hn y); [by left|done].
    + rewrite IH. split.
      * intros (l1 & l2 & -> & Hx & Hn). exists (z :: l1), l2. split_and!; [done..|].
        intros y [->|Hy]%elem_of_cons; auto.
      * intros ([|y l1] & l2 & Heq & Hx & Hn); injection Heq as -> ->; [done|].
        exists l1, l2. split_and!; [done..|]. intros w Hw. apply Hn. by right.
Qed.

Lemma merged_keyed segments : keyed pp_timestamp (foldl merge_segment ∅ segments).
Proof.
  intros k p. rewrite merge_segments_lookup, lookup_empty.
  by intros (l1 & l2 & _ & Hp & _)%next_where_spec.
Qed.

(** ** What a dispatch may return *)

Section dispatch.
Context (cfg : RouterConfig) (symbol : string) (cap : Capability)
  (args : option history_args) (env : nat → call_env).

Definition key_of (p : Provider) : circuit_key := (pv_id p, symbol, cap).

(** What [_allow_call] says of the provider at level [l] in the router [r]. *)
Definition admission (l : nat) (p : Provider) (r : Router) : bool * Circuit :=
  allow_call (ce_allow_clock (env l)) (circuit_at r (key_of p)).

(** The provider at level [l] is called in the router [r]: its circuit admits
    it, the call leaves the router [r2] and ends with [o]. *)
Definition called (l : nat) (p : Provider) (r r2 : Router) (o : outcome) : Prop :=
  (admission l p r).1 = true ∧ ce_call (env l) (set_circuit (key_of p) (admission l p r).2 r) = (r2, o).

(** A call that ended with data about the requested symbol. *)
Definition answered (l : nat) (p : Provider) (r r2 : Router) (v : payload) : Prop :=
  called l p r r2 (Returned v) ∧ validate_result_identity v symbol cap (pv_name p) = Ok tt ∧ no_data cap v = false.

(** A history that begins too late, from a provider that declares such a limit. *)
Definition incomplete (p : Provider) (v : payload) : Prop :=
  cap = HISTORY ∧ pv_history_prefix_limited p = true ∧ history_covers_start (history_of v) args = false.

Definition succeeded (p : Provider) (r : Router) : Router :=
  set_circuit (key_of p) (record_success (circuit_at r (key_of p))) r.

Definition released (p : Provider) (r : Router) : Router :=
  set_circuit (key_of p) (set_probing false (circuit_at r (key_of p))) r.

(** The provider at level [l], reached in the router [r], does not end the
    dispatch: the router it leaves, the reason noted and the partial history
    kept. *)
Inductive passed_over (l : nat) (p : Provider) (r : Router) : Router → string → list (list PricePoint) → Prop :=
| po_refused :
    (admission l p r).1 = false →
    passed_over l p r (set_circuit (key_of p) (admission l p r).2 r) "circuit_open" []
| po_failed r2 o network reason c :
    called l p r r2 o → call_verdict symbol cap (pv_name p) o = VFailure network reason →
    record_failure cfg (ce_done_clock (env l)) network (circuit_at r2 (key_of p)) = (c, None) →
    passed_over l p r (set_circuit (key_of p) c r2) reason []
| po_unsupported r2 o reason :
    called l p r r2 o → call_verdict symbol cap (pv_name p) o = VUnsupported reason →
    passed_over l p r (released p r2) reason []
| po_no_data r2 v :
    called l p r r2 (Returned v) → validate_result_identity v symbol cap (pv_name p) = Ok tt → no_data cap v = true →
    passed_over l p r (succeeded p r2) "no_data" []
| po_incomplete r2 v :
    answered l p r r2 v → incomplete p v →
    passed_over l p r
      (if decide (l = 0%nat) then succeeded p r2
       else record_route_selection symbol cap (pv_name p) (Z.of_nat l) (succeeded p r2))
      "incomplete_prefix" [history_of v].

(** The providers from level [l] on are passed over one after the other, each
    in the router that the one before left. *)
Inductive walk : nat → list Provider → Router → list (string * string) → list (list PricePoint) → Router → Prop :=
| walk_nil l r : walk l [] r [] [] r
| walk_cons l p passed r r1 reason segment attempts segments r' :
    passed_over l p r r1 reason segment → walk (S l) passed r1 attempts segments r' →
    walk l (p :: passed) r ((pv_name p, reason) :: attempts) (segment ++ segments) r'.

(** How the dispatch ends at the provider [p] of level [l], reached in [r] with
    the partial histories [segments] and the [attempts] so far. *)
Inductive ends_at (l : nat) (p : Provider) (r : Router) (attempts : list (string * string))
    (segments : list (list PricePoint)) : Router → result payload → Prop :=
| ends_served r2 v :
    answered l p r r2 v → ¬ incomplete p v →
    ends_at l p r attempts segments
      (record_route_selection symbol cap (pv_name p) (Z.of_nat l) (succeeded p r2))
      (Ok (match segments with
           | [] => attach_fallback v (Z.of_nat l)
           | _ :: _ => PHistory (merge_history (segments ++ [history_of v]) (limit_of args))
           end))
| ends_busy r2 o reason :
    called l p r r2 o → call_verdict symbol cap (pv_name p) o = VBusy reason →
    ends_at l p r attempts segments (released p r2)
      (dispatch_end symbol cap args (attempts ++ [(pv_name p, reason)]) segments)
| ends_overflow r2 o reason c msg :
    called l p r r2 o → call_verdict symbol cap (pv_name p) o = VFailure false reason →
    1024 ≤ open_count (circuit_at r2 (key_of p)) →
    c = (record_failure cfg (ce_done_clock (env l)) false (circuit_at r2 (key_of p))).1 →
    ends_at l p r attempts segments (set_circuit (key_of p) c r2) (Raise (OverflowError msg)).

(** The providers of [chain], of which the first stands at level [l]: some are
    passed over, and the next one ends the dispatch, or none is left. *)
Definition dispatch_spec (l : nat) (chain : list Provider) (r : Router) (before : list (string * string))
    (kept : list (list PricePoint)) (end_state : Router * result payload) : Prop :=
  ∃ passed rest attempts segments r1,
    chain = passed ++ rest ∧ walk l passed r attempts segments r1 ∧
    match rest with
    | p :: _ => ends_at (l + length passed) p r1 (before ++ attempts) (kept ++ segments) end_state.1 end_state.2
    | [] => end_state = (r1, dispatch_end symbol cap args (before ++ attempts) (kept ++ segments))
    end.

Definition right_symbol (points : list PricePoint) : Prop :=
  ∀ x, x ∈ points → pp_symbol x = symbol.

(** An answer that speaks of the requested symbol only. *)
Definition right_answer (res : result payload) : Prop :=
  match res with
  | Ok v => ∃ symbols, result_symbols cap v = Some symbols ∧ ∀ s, s ∈ symbols → s = symbol
  | Raise _ => True
  end.

Lemma walk_attempts l passed r attempts segments r' :
  walk l passed r attempts segments r' → attempts.*1 = pv_name <$> passed.
Proof. induction 1; cbn; [done|]. by f_equal. Qed.

Lemma dispatch_spec_pass l p chain r r1 reason segment before kept end_state :
  passed_over l p r r1 reason segment →
  dispatch_spec (S l) chain r1 (before ++ [(pv_name p, reason)]) (kept ++ segment) end_state →
  dispatch_spec l (p :: chain) r before kept end_state.
Proof.
  intros Hp (passed & rest & attempts & segments & r2 & -> & Hw & He).
  exists (p :: passed), rest, ((pv_name p, reason) :: attempts), (segment ++ segments), r2.
  split_and!; [done|by econstructor|]. rewrite <- !app_assoc in He. cbn [app length] in *. by rewrite Nat.add_succ_r.
Qed.

Lemma dispatch_spec_end l p chain r before kept end_state :
  ends_at l p r before kept end_state.1 end_state.2 → dispatch_spec l (p :: chain) r before kept end_state.
Proof.
  intros He. exists [], (p :: chain), [], [], r. split_and!; [done|constructor|].
  by rewrite !app_nil_r, Nat.add_0_r.
Qed.

Lemma validate_ok v name : validate_result_identity v symbol cap name = Ok tt →
  ∃ l, result_symbols cap v = Some l ∧ ∀ s, s ∈ l → s = symbol.
Proof.
  unfold validate_result_identity. destruct (result_symbols cap v) as [l|]; [|done].
  intros H%raise_if_ok. exists l. split; [done|]. intros s Hs.
  destruct (decide (s = symbol)) as [|Hne]; [done|]. exfalso.
  apply not_true_iff_false in H. apply H, existsb_exists. exists s.
  split; [by apply list_elem_of_In|by apply bool_decide_eq_true].
Qed.

Lemma verdict_success name o v :
  call_verdict symbol cap name o = VSuccess v →
  o = Returned v ∧ validate_result_identity v symbol cap name = Ok tt.
Proof.
  assert (Hexn : ∀ e, exn_verdict e ≠ VSuccess v) by (by intros [| | | | | | | |[] |]).
  destruct o as [v'| |e]; cbn; [|done|by intros ?%Hexn].
  destruct (validate_result_identity v' symbol cap name) as [[]|e] eqn:E; [by intros [= ->]|].
  by intros ?%Hexn.
Qed.

Lemma history_right v name :
  cap = HISTORY → validate_result_identity v symbol cap name = Ok tt → right_symbol (history_of v).
Proof.
  intros Hc (l & Hl & Hs)%validate_ok x Hx. destruct v; try by apply elem_of_nil in Hx.
  rewrite Hc in Hl. injection Hl as <-. apply Hs. by apply list_elem_of_fmap_2.
Qed.

Lemma merge_right segments limit :
  Forall right_symbol segments → right_symbol (merge_history segments limit).
Proof.
  intros Hs x Hx. assert (x ∈ ordered_values (foldl merge_segment ∅ segments)) as Hin.
  { unfold merge_history in Hx. destruct limit as [n|]; [|done]. case_decide; [|done].
    by eapply subseteq_take. }
  apply elem_of_ordered_values in Hin as [k Hk].
  rewrite merge_segments_lookup, lookup_empty in Hk.
  apply next_where_spec in Hk as (l1 & l2 & Heq & _).
  assert (x ∈ concat segments) as Hc by (rewrite Heq; set_solver).
  apply list_elem_of_In, in_concat in Hc as (s & Hs1 & Hs2).
  rewrite Forall_forall in Hs. apply (Hs s); by apply list_elem_of_In.
Qed.

Lemma attach_history v l : history_of (attach_fallback v l) = history_of v.
Proof. by destruct v. Qed.

Lemma history_payload v name l : cap = HISTORY → validate_result_identity v symbol cap name = Ok tt →
  attach_fallback v l = PHistory (history_of v).
Proof. intros Hc (ss & Hl & _)%validate_ok. rewrite Hc in Hl. by destruct v. Qed.

Lemma record_failure_raises now network c c' e :
  record_failure cfg now network c = (c', Some e) →
  network = false ∧ 1024 ≤ open_count c ∧ ∃ msg, e = OverflowError msg.
Proof.
  unfold record_failure. destruct (decide _); [done|]. destruct network; [done|].
  unfold backoff_delay. destruct (bool_decide _) eqn:He; cbn; [|done]. intros [= _ <-].
  apply bool_decide_eq_true in He. split_and!; [done|lia|eauto].
Qed.

Lemma record_failure_overflows now c : 0 < open_until c → 1024 ≤ open_count c →
  ∃ c' e, record_failure cfg now false c = (c', Some (OverflowError e)) ∧
    open_until c' = open_until c ∧ open_count c' = open_count c + 1 ∧ probing c' = false.
Proof.
  intros Ho Hc. unfold record_failure. rewrite decide_False by lia. unfold backoff_delay.
  rewrite bool_decide_true by lia. cbn. do 2 eexists. by split_and!.
Qed.

(** The loop meets its specification from any level on. *)
Lemma dispatch_from_spec chain level before kept r : (cap ≠ HISTORY → kept = []) →
  dispatch_spec level chain r before kept (dispatch_from cfg symbol cap args env level chain before kept r).
Proof.
  revert level before kept r. induction chain as [|p chain IH]; intros level before kept r Hkept; cbn [dispatch_from].
  { exists [], [], [], [], r. split_and!; [done|constructor|]. by rewrite !app_nil_r. }
  assert (Hpass : ∀ r1 reason segment, passed_over level p r r1 reason segment → (cap ≠ HISTORY → segment = []) →
    dispatch_spec level (p :: chain) r before kept
      (dispatch_from cfg symbol cap args env (S level) chain (before ++ [(pv_name p, reason)]) (kept ++ segment) r1)).
  { intros r1 reason segment Hp Hs. eapply dispatch_spec_pass; [done|]. apply IH. intros Hc. by rewrite Hkept, Hs. }
  assert (Hpass0 := λ r1 reason Hp, Hpass r1 reason [] Hp (λ _, eq_refl)). setoid_rewrite app_nil_r in Hpass0.
  fold (key_of p). destruct (allow_call _ _) as [allowed c1] eqn:Hallow.
  assert (Hadm : admission level p r = (allowed, c1)) by done.
  destruct allowed; cbn [negb].
  2: { apply Hpass0. replace c1 with (admission level p r).2 by by rewrite Hadm. apply po_refused. by rewrite Hadm. }
  destruct (ce_call (env level) _) as [r2 o] eqn:Hcall.
  assert (Hcalled : called level p r r2 o) by by split; rewrite Hadm.
  destruct (call_verdict symbol cap (pv_name p) o) as [v|network reason|reason|reason] eqn:Hverdict.
  - destruct (verdict_success _ _ _ Hverdict) as [-> Hval].
    destruct (no_data cap v) eqn:Hnd; [by apply Hpass0, (po_no_data _ _ _ r2 v)|].
    assert (Hans : answered level p r r2 v) by by split_and!. rewrite attach_history.
    destruct (decide (cap = HISTORY)) as [Hc|Hc].
    + destruct (pv_history_prefix_limited p && negb (history_covers_start (history_of v) args)) eqn:Hpre.
      * apply andb_true_iff in Hpre as [Hpre Hcov%negb_true_iff]. apply Hpass; [|done].
        apply po_incomplete; [done|by split_and!].
      * apply dispatch_spec_end. assert (¬ incomplete p v) as Hfull.
        { intros (_ & Hl & Hcov). by rewrite Hl, Hcov in Hpre. }
        pose proof (ends_served level p r before kept r2 v Hans Hfull) as He.
        rewrite (history_payload v _ _ Hc Hval) in He. by destruct kept.
    + apply dispatch_spec_end. rewrite (Hkept Hc). apply (ends_served _ _ _ _ [] r2 v); [done|]. by intros [? _].
  - destruct (record_failure _ _ _ _) as [c3 [e|]] eqn:Hrf; [|by apply Hpass0; eapply po_failed].
    apply dispatch_spec_end. destruct (record_failure_raises _ _ _ _ _ Hrf) as (-> & Hopen & msg & ->).
    eapply ends_overflow; [done..|]. by rewrite Hrf.
  - apply Hpass0. by eapply po_unsupported.
  - apply dispatch_spec_end. by eapply ends_busy.
Qed.

(** Conversely the loop takes the providers of a walk, and goes on after it. *)
Lemma dispatch_from_passed level p r r1 reason segment chain before kept :
  passed_over level p r r1 reason segment →
  dispatch_from cfg symbol cap args env level (p :: chain) before kept r =
  dispatch_from cfg symbol cap args env (S level) chain (before ++ [(pv_name p, reason)]) (kept ++ segment) r1.
Proof.
  intros [Hr|r2 o network reason' c [Hadm Hcall] Hv Hf|r2 o reason' [Hadm Hcall] Hv|r2 v [Hadm Hcall] Hval Hnd
    |r2 v ([Hadm Hcall] & Hval & Hnd) (Hc & Hl & Hcov)]; cbn [dispatch_from]; fold (key_of p);
    change (allow_call _ _) with (admission level p r); destruct (admission level p r) as [allowed c1];
    cbn [fst snd] in *; subst allowed; cbn [negb]; rewrite ?Hcall, ?app_nil_r; [done|..].
  - by rewrite Hv, Hf.
  - by rewrite Hv.
  - unfold call_verdict. by rewrite Hval, Hnd.
  - unfold call_verdict. by rewrite Hval, Hnd, decide_True, attach_history, Hl, Hcov.
Qed.

Lemma dispatch_from_walk level passed r attempts segments r1 chain before kept :
  walk level passed r attempts segments r1 →
  dispatch_from cfg symbol cap args env level (passed ++ chain) before kept r =
  dispatch_from cfg symbol cap args env (level + length passed) chain (before ++ attempts) (kept ++ segments) r1.
Proof.
  intros Hw. revert before kept. induction Hw as [l r|l p passed r r1 reason segment attempts segments r' Hp _ IH];
    intros before kept; [by rewrite Nat.add_0_r, !app_nil_r|].
  cbn [app]. rewrite (dispatch_from_passed _ _ _ _ _ _ _ _ _ Hp), IH. cbn [length].
  by rewrite Nat.add_succ_r, <- !app_assoc.
Qed.

Lemma dispatch_from_raised level p r r2 o network reason c e chain before kept :
  called level p r r2 o → call_verdict symbol cap (pv_name p) o = VFailure network reason →
  record_failure cfg (ce_done_clock (env level)) network (circuit_at r2 (key_of p)) = (c, Some e) →
  dispatch_from cfg symbol cap args env level (p :: chain) before kept r = (set_circuit (key_of p) c r2, Raise e).
Proof.
  intros [Hadm Hcall] Hv Hf. cbn [dispatch_from]. fold (key_of p). change (allow_call _ _) with (admission level p r).
  destruct (admission level p r) as [allowed c1]. cbn [fst snd] in *. subst allowed. cbn [negb]. by rewrite Hcall, Hv, Hf.
Qed.

(** A failure names the providers at the head of the chain, in order. *)
Definition tried_in_order (chain : list Provider) (res : result payload) : Prop :=
  match res with
  | Raise (AllProvidersFailed s c attempts) => s = symbol ∧ c = cap ∧ attempts.*1 `prefix_of` (pv_name <$> chain)
  | _ => True
  end.

Lemma dispatch_end_tried chain attempts segments :
  attempts.*1 `prefix_of` (pv_name <$> chain) → tried_in_order chain (dispatch_end symbol cap args attempts segments).
Proof. by destruct segments. Qed.

Lemma dispatch_spec_tried chain r end_state : dispatch_spec 0 chain r [] [] end_state → tried_in_order chain end_state.2.
Proof.
  intros (passed & rest & attempts & segments & r1 & -> & Hw%walk_attempts & He).
  destruct rest as [|p rest]; [rewrite He; apply dispatch_end_tried; cbn [app]; by rewrite app_nil_r, Hw|].
  destruct end_state as [r' res]. cbn [fst snd app] in *.
  destruct He as [| |]; [by destruct segments| |done].
  apply dispatch_end_tried. rewrite !fmap_app, Hw. cbn. apply prefix_app, prefix_cons, prefix_nil.
Qed.

(** *** Only the requested symbol *)

Lemma walk_right l passed r attempts segments r' :
  walk l passed r attempts segments r' → (cap ≠ HISTORY → segments = []) ∧ Forall right_symbol segments.
Proof.
  induction 1 as [|l p passed r r1 reason segment attempts segments r' Hp _ [IHn IHr]]; [done|].
  destruct Hp as [| | | |r2 v (_ & Hval & _) (Hc & _)]; [done..|].
  split; [done|]. constructor; [by eapply history_right|done].
Qed.

Lemma right_history points : cap = HISTORY → right_symbol points → right_answer (Ok (PHistory points)).
Proof.
  intros Hc Hr. exists (pp_symbol <$> points). rewrite Hc. split; [done|].
  intros s (x & -> & Hx)%list_elem_of_fmap. by apply Hr.
Qed.

Lemma dispatch_end_right attempts segments :
  (cap ≠ HISTORY → segments = []) → Forall right_symbol segments →
  right_answer (dispatch_end symbol cap args attempts segments).
Proof.
  intros Hnil Hs. destruct segments as [|x l]; [done|]. destruct (decide (cap = HISTORY)) as [Hc|Hc].
  - by apply right_history, merge_right.
  - by specialize (Hnil Hc).
Qed.

Lemma dispatch_spec_right chain r end_state : dispatch_spec 0 chain r [] [] end_state → right_answer end_state.2.
Proof.
  intros (passed & rest & attempts & segments & r1 & _ & Hw & He). apply walk_right in Hw as [Hnil Hs].
  destruct rest as [|p rest]; [rewrite He; by apply dispatch_end_right|].
  destruct end_state as [r' res]. cbn [fst snd app] in *.
  destruct He as [r2 v (_ & Hval & _) _| |]; [|by apply dispatch_end_right|done].
  destruct segments as [|x l].
  - destruct (validate_ok _ _ Hval) as (symbols & Hsym & Hall). exists symbols. split; [|done].
    rewrite <- Hsym. by destruct v, cap.
  - destruct (decide (cap = HISTORY)) as [Hc|Hc]; [|by specialize (Hnil Hc)].
    apply right_history, merge_right; [done|]. apply Forall_app. split; [done|].
    constructor; [by eapply history_right|done].
Qed.

End dispatch.

(** ** Singleflight *)

Section flights.
Context {K : Type} `{Countable K}.

(** A task still running is the one its key is mapped to. *)
Definition flights_ok (f : Flights K) : Prop :=
  (∀ task key, running f !! task = Some key → flights f !! key = Some task) ∧
  (∀ task, is_Some (running f !! task) → (task < next_task f)%nat) ∧
  (∀ key task, flights f !! key = Some task → (task < next_task f)%nat).

Lemma flights_ok_empty n : flights_ok {| flights := ∅; running := ∅; next_task := n |}.
Proof.
  split_and!; cbn; [by intros ?? ?%lookup_empty_Some| |by intros ?? ?%lookup_empty_Some].
  by intros ? [? ?%lookup_empty_Some].
Qed.

Lemma flight_step_ok f f' : flight_step f f' → flights_ok f → flights_ok f'.
Proof.
  intros [key f0|task f0|key task f0|f0] (Hrun & Hlt & Hfl).
  - unfold execute. destruct (flights f0 !! key) as [task|] eqn:E; [by split_and!|].
    split_and!; cbn.
    + intros task k. rewrite lookup_insert. case_decide as Ht; [subst|].
      * intros [= <-]. by rewrite lookup_insert_eq.
      * intros Hr%Hrun. rewrite lookup_insert_ne; [done|]. congruence.
    + intros task. rewrite lookup_insert. case_decide; [lia|]. intros Hr%Hlt. lia.
    + intros k task. rewrite lookup_insert. case_decide; [intros [= <-]; lia|].
      intros Hr%Hfl. lia.
  - split_and!; cbn; [|intros t [? [_ Ht]%lookup_delete_Some]; eauto|done].
    intros t k [_ Ht]%lookup_delete_Some. by apply Hrun.
  - unfold cleanup. case_decide as Hd; [|by split_and!]. destruct Hd as [Hk Hd].
    split_and!; cbn; [|done|intros k t [_ Ht]%lookup_delete_Some; eauto].
    intros t k Ht. rewrite lookup_delete_ne; [by apply Hrun|]. intros ->.
    apply Hrun in Ht as Ht'. congruence.
  - apply (flights_ok_empty (next_task f0)).
Qed.

Lemma flights_ok_reachable f : rtc flight_step no_flights f → flights_ok f.
Proof.
  intros Hr. assert (flights_ok (@no_flights K _ _)) as H0.
  { apply (flights_ok_empty 0). }
  induction Hr as [|x y z Hxy _ IH]; [done|]. by eapply IH, flight_step_ok.
Qed.

End flights.

(** ** Properties *)

(** C19: whatever admissions, failures, successes and releases a circuit goes
    through, it is either closed with fewer than [failure_threshold]
    consecutive failures and no probe in flight, or open after at least that
    many. *)
Theorem circuit_invariant (cfg : RouterConfig) (c : Circuit) :
  config_ok cfg → rtc (circuit_step cfg) fresh_circuit c → circuit_ok cfg c.
Proof.
  intros Hcfg Hr. pose proof (fresh_circuit_ok cfg Hcfg) as H0.
  induction Hr as [|x y z Hxy _ IH]; [done|]. by eapply IH, circuit_step_ok.
Qed.

Definition default_config : RouterConfig :=
  {| timeout_seconds := seconds 8; failure_threshold := 3; half_open_after := seconds 60;
     max_backoff := seconds 900; network_retry := seconds 30 |}.

Lemma default_config_ok : config_ok default_config.
Proof. by repeat split. Qed.

Lemma circuit_invariant_witness :
  let c := (record_failure default_config 5 true fresh_circuit).1 in
  consecutive_failures c = 1 ∧ circuit_ok default_config c.
Proof.
  split; [reflexivity|]. apply (circuit_invariant default_config); [apply default_config_ok|].
  apply rtc_once, cs_failure. lia.
Defined.

(** A failure that reaches the threshold (or repeats on an open circuit)
    refuses every call for exactly the retry delay, admits one probe afterwards
    and refuses everything else until that probe is resolved; the delay is the
    fixed network cadence or doubles with each reopening up to the maximum. *)
Theorem backoff_window (cfg : RouterConfig) (c c' : Circuit) (now : Z) (network : bool) :
  config_ok cfg → rtc (circuit_step cfg) fresh_circuit c → 0 ≤ now →
  record_failure cfg now network c = (c', None) →
  failure_threshold cfg ≤ consecutive_failures c + 1 →
  let delay := retry_delay cfg network (open_count c) in
  0 < delay ≤ Z.max (network_retry cfg) (max_backoff cfg) ∧
  ∀ t, (t < now + delay → allow_call t c' = (false, c')) ∧
       (now + delay ≤ t → ∃ probe, allow_call t c' = (true, probe) ∧ probing probe = true ∧
          ∀ t', allow_call t' probe = (false, probe)).
Proof.
  intros Hcfg Hr Hnow Hf Hth. pose proof (fresh_circuit_ok cfg Hcfg) as H0.
  assert (Hc : circuit_ok cfg c).
  { clear -Hcfg Hr H0. induction Hr as [|x y z Hxy _ IH]; [done|]. by eapply IH, circuit_step_ok. }
  destruct (record_failure_opens _ _ _ _ _ Hcfg Hnow Hc Hf Hth) as (Hu & Hd & Hp & _).
  cbv zeta. split.
  - split; [done|]. unfold retry_delay. destruct network; lia.
  - intros t. rewrite allow_call_open, Hu by (done || lia). split; intros Ht.
    + by rewrite decide_True.
    + rewrite decide_False by lia. eexists. split; [done|]. split; [done|]. intros t'.
      apply allow_call_probing; cbn; [lia|done].
Qed.

Lemma backoff_window_witness :
  let c := {| consecutive_failures := 2; open_count := 0; open_until := 0; probing := false |} in
  ∃ c', record_failure default_config 5 false c = (c', None) ∧
    allow_call (seconds 60) c' = (false, c') ∧ (allow_call (5 + seconds 60) c').1 = true.
Proof.
  cbv zeta. eexists. split; [reflexivity|].
  assert (rtc (circuit_step default_config) fresh_circuit
    {| consecutive_failures := 2; open_count := 0; open_until := 0; probing := false |}) as Hr.
  { eapply rtc_l; [apply (cs_failure default_config 1 false); lia|].
    apply rtc_once, (cs_failure default_config 2 true). lia. }
  destruct (backoff_window default_config _ _ 5 false default_config_ok Hr ltac:(lia) eq_refl ltac:(done))
    as [_ H]. split.
  - apply H. reflexivity.
  - destruct (H (5 + seconds 60)) as [_ H']. destruct H' as (probe & -> & _); [|done]. cbn. lia.
Defined.

(** C2: a dispatch over a configured chain passes over the providers at its head,
    in order and each once in the router that the one before left: a provider is
    passed over because its circuit refuses it there, because the call it is
    given there fails, is unsupported or brings no data, or because its history
    begins too late, and is then kept.  The next provider ends the dispatch: it
    answers about the requested symbol with data that is complete, and this,
    with its position folded into the fallback level, or merged after the
    histories kept, is the answer; or it is busy, and no further provider is
    tried; or noting its failure overflows.  When it is busy or the chain is
    exhausted the answer is the merge of the histories kept, or a failure that
    lists the attempts in order.  Whatever is answered is about the requested
    symbol only. *)
Theorem dispatch_sound (cfg : RouterConfig) (symbol : string) (cap : Capability)
    (args : option history_args) (env : nat → call_env) (r : Router) (chain : list Provider) :
  routes r !! (symbol, cap) = Some chain → chain ≠ [] →
  let end_state := dispatch cfg symbol cap args env r in
  dispatch_spec cfg symbol cap args env 0 chain r [] [] end_state ∧
  right_answer symbol cap end_state.2 ∧ tried_in_order symbol cap chain end_state.2.
Proof.
  intros Hr Hne. assert (dispatch_spec cfg symbol cap args env 0 chain r [] [] (dispatch cfg symbol cap args env r)) as H.
  { unfold dispatch. rewrite Hr. destruct chain as [|p chain]; [done|]. by apply dispatch_from_spec. }
  split_and!; [done|by eapply dispatch_spec_right|by eapply dispatch_spec_tried].
Qed.

(** Merging partial histories yields strictly increasing timestamps, one
    point per timestamp that any segment has, taken from the earliest segment,
    i.e. the most preferred provider, that has it; a non-negative limit keeps
    the oldest points. *)
Theorem merge_history_spec (segments : list (list PricePoint)) (limit : option Z) :
  let merged := merge_history segments None in
  ssorted pp_timestamp merged ∧
  (∀ p, p ∈ merged ↔ ∃ l1 l2, concat segments = l1 ++ p :: l2 ∧
     ∀ q, q ∈ l1 → pp_timestamp q ≠ pp_timestamp p) ∧
  merge_history segments limit =
    match limit with
    | Some n => if decide (0 ≤ n) then take (Z.to_nat n) merged else merged
    | None => merged
    end.
Proof.
  cbv zeta. split_and!; [apply ordered_values_sorted, merged_keyed| |done].
  intros p. unfold merge_history. rewrite elem_of_ordered_values.
  setoid_rewrite merge_segments_lookup. setoid_rewrite lookup_empty.
  setoid_rewrite next_where_spec. split.
  - intros (k & l1 & l2 & Heq & <- & Hn). eauto.
  - intros (l1 & l2 & Heq & Hn). exists (pp_timestamp p), l1, l2. auto.
Qed.

(** [replace] is atomic: when the replacement chain is rejected the router
    is unchanged, and when it is accepted only that route changes. *)
Theorem replace_atomic (r : Router) (symbol : string) (cap : enum_input Capability)
    (chain : list Provider) :
  match replace r symbol cap chain with
  | (r', Some e) => r' = r
  | (r', None) => ∃ c, Capability_of cap = Ok c ∧ chain ≠ [] ∧
      routes r' = <[(router_symbol symbol, c) := chain]> (routes r) ∧
      circuits r' = circuits r ∧ route_selections r' = route_selections r
  end.
Proof.
  unfold replace. destruct (Capability_of cap) as [c|e]; [|done]. cbv zeta.
  set (key := (router_symbol symbol, c)). set (r1 := set_routes (delete key (routes r)) r).
  destruct (register r1 key.1 (EnumMember c) chain) as [r2|e] eqn:Hreg.
  - unfold register in Hreg. cbn [Capability_of enum_coerce mbind result_bind] in Hreg.
    apply result_bind_ok in Hreg as ([] & Hne%raise_if_ok%bool_decide_eq_false & Hreg).
    destruct (lacking c chain); [done|]. apply result_bind_ok in Hreg as ([] & _ & [= <-]).
    exists c. split_and!; [done..| |done|done]. cbn.
    assert (router_symbol (router_symbol symbol) = router_symbol symbol) as ->.
    { unfold router_symbol. apply upper_strip_idem. }
    by rewrite insert_delete_eq.
  - assert (∀ m, m = routes r → set_routes m r1 = r) as Hback.
    { intros m ->. by destruct r. }
    destruct (routes r !! key) as [old|] eqn:Hold; [|unfold r1]; cbn.
    + apply Hback. cbn. by rewrite insert_delete_eq, insert_id.
    + rewrite delete_id by done. by destruct r.
Qed.

(** At most one upstream task runs per request key at any time, and every
    caller that arrives while it runs joins it. *)
Theorem singleflight {K : Type} `{Countable K} (f : Flights K) (key : K) (t1 t2 : nat) :
  rtc flight_step no_flights f →
  running f !! t1 = Some key → running f !! t2 = Some key →
  t1 = t2 ∧ execute key f = (f, t1).
Proof.
  intros (Hrun & _ & _)%flights_ok_reachable H1%Hrun H2%Hrun.
  split; [congruence|]. unfold execute. by rewrite H1.
Qed.

(** C40: once a circuit has been reopened 1024 times, a call of its provider that
    ends, while the circuit is open, with any failure but a network failure raises [OverflowError] out of
    the dispatch, whatever providers come before it and are passed over, and
    whatever providers follow in the chain and histories were kept; the circuit
    keeps the time at which it would have admitted the call, so that the next
    dispatch that reaches it probes again at once. *)
Theorem overflow_blocks_fallback (cfg : RouterConfig) (symbol : string) (cap : Capability)
    (args : option history_args) (env : nat → call_env) (r r1 r2 : Router)
    (passed : list Provider) (p : Provider) (rest : list Provider)
    (attempts : list (string * string)) (segments : list (list PricePoint)) (o : outcome) (reason : string) :
  let key := (pv_id p, symbol, cap) in
  let c := circuit_at r2 key in
  routes r !! (symbol, cap) = Some (passed ++ p :: rest) →
  walk cfg symbol cap args env 0 passed r attempts segments r1 →
  called symbol cap env (length passed) p r1 r2 o →
  call_verdict symbol cap (pv_name p) o = VFailure false reason →
  0 < open_until c → 1024 ≤ open_count c →
  ∃ r' e, dispatch cfg symbol cap args env r = (r', Raise (OverflowError e)) ∧
    let c' := circuit_at r' key in
    open_until c' = open_until c ∧ open_count c' = open_count c + 1 ∧
    ∀ t, open_until c ≤ t → (allow_call t c').1 = true.
Proof.
  cbv zeta. intros Hr Hw Hcall Hv Ho Hc. unfold dispatch. rewrite Hr.
  destruct (passed ++ p :: rest) as [|q chain] eqn:Hq; [by destruct passed|]. rewrite <- Hq. clear q chain Hq Hr.
  rewrite (dispatch_from_walk _ _ _ _ _ _ _ _ _ _ _ _ _ _ Hw). cbn [app].
  destruct (record_failure_overflows cfg (ce_done_clock (env (length passed))) _ Ho Hc) as (c' & e & Hf & Hu & Hn & Hp).
  erewrite dispatch_from_raised by done. do 2 eexists. split; [done|].
  assert (∀ key r0, circuit_at (set_circuit key c' r0) key = c') as ->.
  { intros key r0. unfold circuit_at, set_circuit. cbn. by rewrite lookup_insert_eq. }
  split_and!; [done..|]. intros t Ht. rewrite allow_call_open by (done || lia). rewrite decide_False by lia. done.
Qed.

(** ** Concrete runs *)

Definition demo_provider (id : Z) (name : string) : Provider :=
  {| pv_id := id; pv_name := name; pv_callable := [QUOTE; HISTORY];
     pv_history_prefix_limited := false |}.

Definition btc_quote (provider : string) : ProviderQuote :=
  {| pq_symbol := "BTC"; pq_price := dint 7; pq_as_of := 5; pq_provider := provider;
     pq_feed := "demo"; pq_price_basis := "last"; pq_market_status := "open";
     pq_is_derived := false; pq_components := []; pq_fallback_level := 0;
     pq_license_scope := "personal"; pq_coverage := None; pq_market_status_as_of := None |}.

(** The primary is rate limited, the secondary answers. *)
Definition demo_env (l : nat) : call_env :=
  {| ce_allow_clock := seconds 100;
     ce_call := λ r, (r, match l with
                         | O => Raised (ProviderError PERateLimited "a" "quota" (Some 429))
                         | _ => Returned (PQuote (btc_quote "b"))
                         end);
     ce_done_clock := seconds 101 |}.

Definition demo_router (c : Circuit) : Router :=
  {| routes := {[("BTC", QUOTE) := [demo_provider 1 "a"; demo_provider 2 "b"]]};
     circuits := {[(1, "BTC", QUOTE) := c]}; fallbacks := ∅; route_selections := ∅ |}.

Lemma dispatch_sound_witness :
  let end_state := dispatch default_config "BTC" QUOTE None demo_env (demo_router fresh_circuit) in
  end_state.2 = Ok (PQuote (quote_with_fallback (btc_quote "b") 1)) ∧
  dispatch_spec default_config "BTC" QUOTE None demo_env 0 [demo_provider 1 "a"; demo_provider 2 "b"]
    (demo_router fresh_circuit) [] [] end_state.
Proof.
  cbv zeta. split; [vm_compute; reflexivity|].
  apply (dispatch_sound default_config "BTC" QUOTE None demo_env (demo_router fresh_circuit));
    [vm_compute; reflexivity|discriminate].
Defined.

Lemma singleflight_witness :
  let f := (execute 7%nat (execute 5%nat no_flights).1).1 in
  running f !! 0%nat = Some 5%nat ∧ execute 5%nat f = (f, 0%nat).
Proof.
  cbv zeta. split; [reflexivity|].
  apply (singleflight _ 5%nat 0%nat 0%nat); [|reflexivity|reflexivity].
  eapply rtc_l; [apply (step_execute 5%nat)|]. apply rtc_once, (step_execute 7%nat).
Defined.

(** The first provider is refused by its circuit, the probe of the second ends
    with an answer about another symbol. *)
Definition late_env (l : nat) : call_env :=
  {| ce_allow_clock := seconds 100;
     ce_call := λ r, (r, Returned (PQuote (quote_with_fallback (btc_quote "b") 0)));
     ce_done_clock := seconds 101 |}.

Definition worn_out : Circuit :=
  {| consecutive_failures := 1030; open_count := 1024; open_until := 1; probing := false |}.

Definition worn_router : Router :=
  {| routes := {[("ETH", QUOTE) := [demo_provider 1 "a"; demo_provider 2 "b"; demo_provider 3 "c"]]};
     circuits := {[(1, "ETH", QUOTE) := set_probing true worn_out; (2, "ETH", QUOTE) := worn_out]};
     fallbacks := ∅; route_selections := ∅ |}.

Lemma overflow_blocks_fallback_witness :
  ∃ r' e, dispatch default_config "ETH" QUOTE None late_env worn_router = (r', Raise (OverflowError e)) ∧
    open_until (circuit_at r' (2, "ETH", QUOTE)) = 1.
Proof.
  destruct (overflow_blocks_fallback default_config "ETH" QUOTE None late_env worn_router
    (set_circuit (1, "ETH", QUOTE) (set_probing true worn_out) worn_router)
    (set_circuit (2, "ETH", QUOTE) (set_probing true worn_out)
      (set_circuit (1, "ETH", QUOTE) (set_probing true worn_out) worn_router))
    [demo_provider 1 "a"] (demo_provider 2 "b") [demo_provider 3 "c"] [("a", "circuit_open")] []
    (Returned (PQuote (quote_with_fallback (btc_quote "b") 0))) "quote response symbol mismatch")
    as (r' & e & H & Hu & _).
  - vm_compute; reflexivity.
  - eapply (walk_cons _ _ _ _ _ 0 (demo_provider 1 "a") [] _ _ "circuit_open" []); [|constructor].
    apply (po_refused default_config "ETH" QUOTE None late_env 0 (demo_provider 1 "a") worn_router).
    vm_compute; reflexivity.
  - split; vm_compute; reflexivity.
  - vm_compute; reflexivity.
  - vm_compute; reflexivity.
  - vm_compute; congruence.
  - exists r', e. split; [exact H|]. etransitivity; [exact Hu|]. vm_compute; reflexivity.
Defined.
