(* ===== verification/CollectorHistory.v ===== *)
(** * Historical backfill ([collectors.py])

    The part of the collectors that decides which history to ask for and how
    the answers are put together.  The vendors behind the router are a
    parameter: what the n-th request of a fetch is answered. *)

From S2P Require Import Prelude PyStr PyDecimal PyTime Domain Synthetic Router.

Local Open Scope string_scope.
Local Open Scope list_scope.
Local Open Scope Z_scope.

(** ** Crosses *)

(** The loop of [derive_cross_history]: the points it stores, in order. *)
Fixpoint cross_points (symbol : string) (op : binary_op) (max_skew : Z) (provider interval : string)
    (lefts : list PricePoint) (last_right : option PricePoint) (rights : list PricePoint)
    : result (list PricePoint) :=
  match lefts with
  | [] => Ok []
  | l :: lefts' =>
    let '(last_right', rights') := advance (pp_timestamp l) last_right rights in
    let rest := cross_points symbol op max_skew provider interval lefts' last_right' rights' in
    match last_right' with
    | None => rest
    | Some r =>
      if decide (max_skew < pp_timestamp l - pp_timestamp r) then rest
      else match op_price op (pp_price l) (pp_price r) with
           | Raise _ => rest
           | Ok price =>
             if decide (is_pos price) then
               point ← PricePoint_init
                         {| pp_symbol := symbol; pp_timestamp := Aware (pp_timestamp l);
                            pp_price := DFinite price; pp_provider := provider;
                            pp_is_derived := true; pp_interval := interval |};
               points ← rest;
               Ok (point :: points)
             else rest
           end
    end
  end.

(** [derive_cross_history] *)
Definition derive_cross_history (symbol : string) (lefts rights : list PricePoint) (op : binary_op)
    (max_skew : Z) (provider interval : string) : result (list PricePoint) :=
  let left_sorted := sort_by pp_timestamp lefts in
  let right_sorted := sort_by pp_timestamp rights in
  if decide (left_sorted = [] ∨ right_sorted = []) then Ok []
  else
    output ← cross_points symbol op max_skew provider interval left_sorted None right_sorted;
    Ok (ordered_values (dict_of pp_timestamp output)).

(** ** Pages *)

(** The step of the intervals that can be fetched. *)
Definition interval_step (interval : string) : result Z :=
  if decide (interval = "1m") then Ok (minutes 1)
  else if decide (interval = "5m") then Ok (minutes 5)
  else if decide (interval = "1d") then Ok (days 1)
  else Raise (ValueError ("unsupported backfill interval: " +:+ interval)).

Definition page_bar_limit : Z := 5000.

Definition page_count : nat := 64.

(** [max(point.timestamp for point in page)] of a non-empty page. *)
Definition newest (first : PricePoint) (page : list PricePoint) : Z :=
  foldl (λ t p, Z.max t (pp_timestamp p)) (pp_timestamp first) page.

(** [page_end] *)
Definition window_end (step cursor end_ : Z) : Z :=
  Z.min end_ (cursor + step * (page_bar_limit - 1)).

(** The points of an answer that lie in the window asked for. *)
Definition in_window (from until : Z) (l : list PricePoint) : list PricePoint :=
  List.filter (λ p, bool_decide (from ≤ pp_timestamp p ≤ until)) l.

(** The end of the body of the loop: the cursor of the next request, or nothing
    when the loop breaks. *)
Definition next_cursor (interval : string) (step cursor end_ : Z) (page : list PricePoint) : option Z :=
  let page_end := window_end step cursor end_ in
  match page with
  | [] => if decide (end_ ≤ page_end) then None else Some (page_end + step)
  | first :: rest =>
    if decide (interval = "1d") then None
    else
      let next := newest first rest + step in
      if decide (next ≤ cursor) then None
      else
        let next' := if decide (page_end < next) then page_end + step else next in
        if decide (end_ < next') then None else Some next'
  end.

(** The loop of [_fetch_history_pages]; [n] numbers the requests. *)
Fixpoint fetch_pages (get : nat → history_args → result (list PricePoint)) (fuel n : nat)
    (interval : string) (step cursor end_ : Z) (output : list PricePoint) : result (list PricePoint) :=
  match fuel with
  | O => Ok output
  | S fuel' =>
    let page_end := window_end step cursor end_ in
    answer ← get n {| ha_interval := interval; ha_start := cursor; ha_end := page_end;
                      ha_limit := Some page_bar_limit |};
    let page := in_window cursor page_end answer in
    let output' := output ++ page in
    match next_cursor interval step cursor end_ page with
    | None => Ok output'
    | Some cursor' => fetch_pages get fuel' (S n) interval step cursor' end_ output'
    end
  end.

(** [_fetch_history_pages] up to the publication of a result that is not empty. *)
Definition fetch_history_pages (get : nat → history_args → result (list PricePoint))
    (interval : string) (start end_ : Z) : result (list PricePoint) :=
  step ← interval_step interval;
  output ← fetch_pages get page_count 0 interval step start end_ [];
  Ok (ordered_values (dict_of pp_timestamp output)).

(** ** What to fetch *)

(** The oldest and the newest timestamp of a history. *)
Definition oldest_timestamp (l : list PricePoint) : option Z :=
  match l with [] => None | p :: l' => Some (earliest p l') end.

Definition newest_timestamp (l : list PricePoint) : option Z :=
  match l with [] => None | p :: l' => Some (newest p l') end.

(** The durations of the intraday intervals in [_backfill_symbol]. *)
Definition intraday_duration (interval : string) (backfill_days : option Z) : Z :=
  let d := if decide (interval = "1m") then 2 else 45 in
  days (match backfill_days with Some n => Z.min d n | None => d end).

(** The start of an intraday fetch: from the newest bar when the history reaches
    back to the retention, else the whole retention. *)
Definition intraday_start (interval : string) (backfill_days : option Z) (now : Z)
    (existing : list PricePoint) : Z :=
  let retention_start := now - intraday_duration interval backfill_days in
  let step := minutes (if decide (interval = "1m") then 1 else 5) in
  match oldest_timestamp existing, newest_timestamp existing with
  | Some oldest, Some newest =>
    if decide (oldest ≤ retention_start + step * 2) then Z.max retention_start (newest - step)
    else retention_start
  | _, _ => retention_start
  end.

(** Whether a daily history reaches the cutoff of the yearly change. *)
Definition covers_year (now : Z) (l : list PricePoint) : bool :=
  match oldest_timestamp l with
  | Some t => bool_decide (t ≤ now - days 365)
  | None => false
  end.

Definition daily_backfill_days (backfill_days : option Z) : Z :=
  match backfill_days with Some n => Z.max 366 (Z.min 400 n) | None => 400 end.

(** The start of a daily fetch. *)
Definition daily_start (backfill_days : option Z) (now : Z) (existing : list PricePoint) : Z :=
  let retention_start := now - days (daily_backfill_days backfill_days) in
  match newest_timestamp existing with
  | Some newest =>
    if covers_year now existing then Z.max retention_start (newest - days 1) else retention_start
  | None => retention_start
  end.

(** What [_backfill_daily_interval] decides before it fetches. *)
Inductive daily_plan :=
| DailySkip (complete : bool)
| DailyFetch (start : Z).

Definition plan_daily (backfill_days : option Z) (configured refresh_complete force_prefix_retry : bool)
    (retry_at monotonic now : Z) (existing : list PricePoint) : daily_plan :=
  let prefix_complete := covers_year now existing in
  if negb configured then DailySkip prefix_complete
  else if prefix_complete && negb refresh_complete then DailySkip true
  else if negb prefix_complete && negb (bool_decide (retry_at ≤ monotonic)) && negb force_prefix_retry
  then DailySkip false
  else DailyFetch (daily_start backfill_days now existing).

(** ** Lemmas: crosses *)

Lemma cross_points_binary recipe op interval rights : sr_operation recipe = Binary op →
  ∀ lefts seen, cross_points (sr_symbol recipe) op (sr_max_skew recipe) (sr_provider_name recipe) interval
                  lefts seen rights =
                binary_history recipe op interval lefts seen rights.
Proof.
  intros Hop lefts. revert rights. induction lefts as [|l lefts IH]; intros rights seen; [done|].
  cbn [cross_points binary_history]. destruct (advance _ _ _) as [[r|] rights'] eqn:Ha; [|apply IH].
  rewrite !IH. case_decide; [done|]. by destruct (op_price _ _ _).
Qed.

Lemma binary_history_no_right recipe op interval lefts :
  binary_history recipe op interval lefts None [] = Ok [].
Proof. by induction lefts. Qed.

(** ** Lemmas: pages *)

Lemma newest_spec first page : ∀ t,
  t = newest first page →
  (∃ p, p ∈ first :: page ∧ pp_timestamp p = t) ∧ ∀ p, p ∈ first :: page → pp_timestamp p ≤ t.
Proof.
  assert (∀ l t0, let t := foldl (λ t (p : PricePoint), Z.max t (pp_timestamp p)) t0 l in
    (t = t0 ∨ ∃ p, p ∈ l ∧ pp_timestamp p = t) ∧ t0 ≤ t ∧ ∀ p, p ∈ l → pp_timestamp p ≤ t) as Hg.
  { induction l as [|p l IH]; intros t0; cbn; [split_and!; [by left|lia|by intros ? ?%elem_of_nil]|].
    destruct (IH (Z.max t0 (pp_timestamp p))) as (Hin & Hle & Hall). split_and!; [|lia|].
    - destruct Hin as [->|(q & Hq & <-)]; [|right; exists q; split; [by right|done]].
      destruct (Z.max_spec t0 (pp_timestamp p)) as [[_ ->]|[_ ->]]; [|by left].
      right. exists p. split; [by left|done].
    - intros q [->|Hq]%elem_of_cons; [lia|auto]. }
  intros t ->. destruct (Hg page (pp_timestamp first)) as (Hin & Hle & Hall). split.
  - destruct Hin as [Hin|(p & Hp & Hin)].
    + exists first. split; [by left|]. unfold newest. by rewrite Hin.
    + exists p. split; [by right|done].
  - intros p [->|Hp]%elem_of_cons; [done|auto].
Qed.

Lemma ssorted_lookup {A} (key : A → Z) l : ∀ i j x y,
  ssorted key l → l !! i = Some x → l !! j = Some y → (i < j)%nat → key x < key y.
Proof.
  induction l as [|z l IH]; intros i j x y Hs Hi Hj Hij; [done|].
  apply StronglySorted_inv in Hs as [Hs Hall]. destruct j as [|j]; [lia|]. cbn in Hj.
  destruct i as [|i]; cbn in Hi; [|eapply IH; [done..|lia]].
  injection Hi as <-. rewrite Forall_forall in Hall. apply Hall, list_elem_of_lookup. eauto.
Qed.

Lemma elem_of_in_window from until l p :
  p ∈ in_window from until l ↔ p ∈ l ∧ from ≤ pp_timestamp p ≤ until.
Proof.
  unfold in_window. by rewrite !list_elem_of_In, filter_In, bool_decide_eq_true.
Qed.

Section fetch.
Context (history : list PricePoint) (step start end_ m grid : Z).
Context (Hstep : 0 < step) (Hm : 1 ≤ m ≤ page_bar_limit).
Context (Hsorted : ssorted pp_timestamp history).

(** On the grid of the vendor's bars, which passes through [grid]. *)
Definition aligned (t : Z) : Prop := (step | t - grid).

Context (Haligned : ∀ p, p ∈ history → aligned (pp_timestamp p)).

(** A cursor is on the grid of the bars, or a number of whole pages from the start. *)
Definition cursor_ok (c : Z) : Prop := aligned c ∨ ∃ j, 0 ≤ j ∧ c = start + step * (page_bar_limit * j).

(** Strictly between the end of the [j]-th whole page from the start and the
    start of the next one. *)
Definition between_pages (j t : Z) : Prop :=
  start + step * (page_bar_limit * j - 1) < t < start + step * (page_bar_limit * j).

(** The vendor answers a window with the oldest bars it has there, all of them
    or at least [m]. *)
Definition vendor (get : nat → history_args → result (list PricePoint)) (interval : string) : Prop :=
  ∀ n from until, ∃ answer k,
    get n {| ha_interval := interval; ha_start := from; ha_end := until;
             ha_limit := Some page_bar_limit |} = Ok answer ∧
    m ≤ Z.of_nat k ∧
    ∀ p, p ∈ in_window from until answer ↔ p ∈ take k (in_window from until history).

Lemma aligned_gap a b : aligned a → aligned b → a < b → a + step ≤ b.
Proof. intros [x Hx] [y Hy] Hab. assert (x < y) by nia. nia. Qed.

Lemma aligned_step a n : aligned a → aligned (a + step * n).
Proof. intros [x Hx]. exists (x + n). lia. Qed.

(** The bars collected are those of the history before the cursor, but for bars
    between two pages. *)
Definition collected (cursor : Z) (output : list PricePoint) : Prop :=
  ∀ p, p ∈ history → start ≤ pp_timestamp p < cursor → pp_timestamp p ≤ end_ →
    p ∈ output ∨ ∃ j, 1 ≤ j ∧ between_pages j (pp_timestamp p) ∧ ¬ aligned start.

Definition sound (output : list PricePoint) : Prop := ∀ p, p ∈ output → p ∈ in_window start end_ history.

Lemma cursor_step c : cursor_ok c → cursor_ok (c + step * page_bar_limit).
Proof.
  intros [Ha|(j & Hj & ->)]; [left; by apply aligned_step|right]. exists (j + 1). lia.
Qed.

(** What the next whole page passes over. *)
Lemma page_gap c p : cursor_ok c → p ∈ history →
  c + step * (page_bar_limit - 1) < pp_timestamp p < c + step * page_bar_limit →
  ∃ j, 1 ≤ j ∧ between_pages j (pp_timestamp p) ∧ ¬ aligned start.
Proof.
  intros Hc Hp%Haligned Ht.
  assert (∀ b, aligned b → b = c + step * (page_bar_limit - 1) → False) as Hno.
  { intros b Hb ->. pose proof (aligned_gap _ _ Hb Hp ltac:(lia)). lia. }
  destruct Hc as [Hc|(j & Hj & ->)].
  - exfalso. by eapply Hno; [apply aligned_step, Hc|].
  - exists (j + 1). unfold between_pages. split_and!; [lia..|]. intros Hs.
    eapply Hno; [apply (aligned_step start (page_bar_limit * j + (page_bar_limit - 1)) Hs)|lia].
Qed.

Lemma spaced (l : list PricePoint) : ∀ c i p,
  ssorted pp_timestamp l → (∀ p, p ∈ l → aligned (pp_timestamp p) ∧ c ≤ pp_timestamp p) →
  l !! i = Some p → c + step * Z.of_nat i ≤ pp_timestamp p.
Proof.
  induction l as [|x l IH]; intros c i p Hs Hl Hi; [done|].
  apply StronglySorted_inv in Hs as [Hs Hall].
  destruct (Hl x) as [Hax Hcx]; [by left|]. destruct i as [|i]; cbn in Hi.
  - injection Hi as <-. lia.
  - assert (c + step + step * Z.of_nat i ≤ pp_timestamp p); [|lia]. apply IH; [done| |done].
    intros y Hy. destruct (Hl y) as [Hay _]; [by right|]. split; [done|].
    rewrite Forall_forall in Hall. specialize (Hall y Hy).
    pose proof (aligned_gap _ _ Hax Hay Hall). lia.
Qed.

Lemma window_sorted from until : ssorted pp_timestamp (in_window from until history).
Proof.
  unfold in_window. clear -Hsorted. induction Hsorted as [|x l Hs IH Hall]; cbn; [constructor|].
  specialize (IH Hs). case_bool_decide; [|done]. constructor; [done|].
  apply Forall_forall. intros y Hy. rewrite Forall_forall in Hall. apply Hall. rewrite list_elem_of_In, filter_In in Hy. destruct Hy as [Hy _]. by apply list_elem_of_In.
Qed.

(** An answer that is cut short holds at least [m] bars of the grid. *)
Lemma page_reach c until k t :
  m ≤ Z.of_nat k → (k < length (in_window c until history))%nat →
  (∀ p, p ∈ take k (in_window c until history) → pp_timestamp p ≤ t) → c + step * (m - 1) ≤ t.
Proof.
  intros Hk Hlt Ht. set (w := in_window c until history) in *.
  destruct (lookup_lt_is_Some_2 w (k - 1)) as [p Hp]; [lia|].
  assert (c + step * Z.of_nat (k - 1) ≤ pp_timestamp p) as Hsp.
  { apply (spaced w); [apply window_sorted| |done]. intros q Hq.
    apply elem_of_in_window in Hq as [Hq [Hcq _]]. auto. }
  specialize (Ht p). assert (pp_timestamp p ≤ t); [|nia].
  apply Ht, list_elem_of_lookup. exists (k - 1)%nat. rewrite lookup_take. case_decide; [done|lia].
Qed.

(** One turn of the loop: either everything is collected, or the next cursor is
    further by the page limit, by [m] bars, or up to bars known to be missing. *)
Lemma fetch_turn interval c answer k output :
  interval ≠ "1d" → cursor_ok c → start ≤ c → m ≤ Z.of_nat k →
  (∀ p, p ∈ in_window c (window_end step c end_) answer ↔
        p ∈ take k (in_window c (window_end step c end_) history)) →
  collected c output →
  let page := in_window c (window_end step c end_) answer in
  match next_cursor interval step c end_ page with
  | None => collected (end_ + 1) (output ++ page)
  | Some c' =>
    cursor_ok c' ∧ c < c' ∧ collected c' (output ++ page) ∧
    (c + step * m ≤ c' ∨
     ∀ p, p ∈ history → ¬ (c' ≤ pp_timestamp p ≤ c + step * (page_bar_limit - 1) ∧ pp_timestamp p ≤ end_)) ∧
    (c + step * page_bar_limit ≤ c' ∨ ∃ p, p ∈ history ∧ c ≤ pp_timestamp p ∧ pp_timestamp p + step ≤ c')
  end.
Proof.
  intros Hday Hc Hstart Hk Hans Hcol page. set (until := window_end step c end_) in *.
  assert (until ≤ end_ ∧ until ≤ c + step * (page_bar_limit - 1) ∧
          (until = end_ ∨ until = c + step * (page_bar_limit - 1))) as (Hue & Huc & Hu)
    by (unfold until, window_end; lia).
  assert (∀ p, p ∈ page → p ∈ in_window c until history) as Hpage.
  { intros p Hp%Hans. by eapply (subseteq_take k). }
  (* a bar of the window is in the page, unless the answer was cut before it *)
  assert (∀ t, page ≠ [] → (∀ p, p ∈ page → pp_timestamp p ≤ t) → (∃ p, p ∈ page ∧ pp_timestamp p = t) →
    (∀ p, p ∈ in_window c until history → pp_timestamp p ≤ t → p ∈ page) ∧
    (c + step * (m - 1) ≤ t ∨ ∀ p, p ∈ in_window c until history → p ∈ page)) as Hcut.
  { intros t Hne Hmax (q & Hq & Hqt). split.
    - intros p Hp Hpt. apply Hans. apply list_elem_of_lookup in Hp as [i Hi].
      apply list_elem_of_lookup. exists i. rewrite lookup_take. case_decide as Hik; [done|].
      apply Hans in Hq. apply list_elem_of_lookup in Hq as [j Hj].
      rewrite lookup_take in Hj. case_decide as Hjk; [|done]. exfalso.
      assert (pp_timestamp q < pp_timestamp p); [|lia].
      eapply (ssorted_lookup pp_timestamp); [apply window_sorted|exact Hj|exact Hi|lia].
    - destruct (decide (k < length (in_window c until history))%nat) as [Hlt|Hge].
      + left. eapply page_reach; [exact Hk|exact Hlt|]. intros p Hp%Hans. auto.
      + right. intros p Hp. apply Hans. by rewrite take_ge by lia. }
  (* whatever the page leaves out up to the next whole page lies between the two *)
  assert (∀ lim, lim ≤ c + step * page_bar_limit → lim ≤ end_ + 1 ∨ until = c + step * (page_bar_limit - 1) →
    (∀ p, p ∈ history → c ≤ pp_timestamp p ≤ until → p ∈ page) →
    collected lim (output ++ page)) as Hskip.
  { intros lim Hlim Hend Hall p Hp Ht1 Ht2. rewrite elem_of_app.
    destruct (decide (pp_timestamp p < c)); [destruct (Hcol p Hp) as [?|?]; [lia|lia|by left; left|by right]|].
    destruct (decide (pp_timestamp p ≤ until)); [left; right; apply Hall; [done|lia]|].
    right. apply (page_gap c p Hc Hp). lia. }
  unfold next_cursor. fold until. destruct page as [|first rest] eqn:Epage.
  - assert (∀ p, p ∈ history → c ≤ pp_timestamp p ≤ until → p ∈ @nil PricePoint) as Hnone.
    { intros p Hp Hpt. rewrite <- Epage. assert (p ∈ in_window c until history) as Hin by by apply elem_of_in_window.
      destruct (in_window c until history) as [|x l] eqn:Ew; [by apply elem_of_nil in Hin|].
      assert (x ∈ page) as Hx; [|rewrite Epage in Hx; by apply elem_of_nil in Hx].
      apply Hans. destruct k; [lia|]. by left. }
    case_decide as He; [apply Hskip; [nia|lia|done]|].
    assert (until = c + step * (page_bar_limit - 1)) as Eu by lia.
    replace (until + step) with (c + step * page_bar_limit) by lia.
    split_and!; [by apply cursor_step|unfold page_bar_limit; nia|apply Hskip; [lia|by right|done]|left; nia|by left].
  - rewrite decide_False by done. destruct (newest_spec first rest _ eq_refl) as [Hin Hmax].
    set (t := newest first rest) in *. destruct (Hcut t) as [Hbelow Hrest]; [done..|].
    destruct Hin as (q & Hq & Hqt). pose proof (Hpage q Hq) as [Hqh Hqw]%elem_of_in_window.
    rewrite decide_False by lia.
    assert (∀ p, p ∈ history → t < pp_timestamp p → t + step ≤ pp_timestamp p) as Hgap.
    { intros p Hp Ht. rewrite <- Hqt in *. apply aligned_gap; auto. }
    assert (∀ lim, lim ≤ t + step → collected lim (output ++ first :: rest)) as Hct.
    { intros lim Hlim p Hp Ht1 Ht2. rewrite elem_of_app.
      destruct (decide (pp_timestamp p < c)); [destruct (Hcol p Hp) as [?|?]; [lia|lia|by left; left|by right]|].
      left. right. destruct (decide (pp_timestamp p ≤ t)); [|specialize (Hgap p Hp); lia].
      apply Hbelow; [apply elem_of_in_window; split; [done|]|]; lia. }
    destruct (decide (until < t + step)) as [Hend|Hend].
    + assert (∀ p, p ∈ history → c ≤ pp_timestamp p ≤ until → p ∈ first :: rest) as Hwhole.
      { intros p Hp Hpt. apply Hbelow; [by apply elem_of_in_window|].
        destruct (decide (t < pp_timestamp p)) as [Hlt|]; [|lia]. specialize (Hgap p Hp Hlt). lia. }
      case_decide as Hlt.
      { destruct Hu as [Hu|Hu]; [apply Hskip; [nia|lia|done]|]. apply Hskip; [lia|by right|done]. }
      assert (until = c + step * (page_bar_limit - 1)) as Eu by lia.
      replace (until + step) with (c + step * page_bar_limit) in * by lia.
      split_and!; [by apply cursor_step|unfold page_bar_limit; nia|apply Hskip; [lia|by right|done]|left; nia|by left].
    + case_decide as Hlt; [apply Hct; lia|].
      split_and!; [|lia|by apply Hct| |right; exists q; split_and!; [done|lia|lia]].
      * left. rewrite <- Hqt. replace (pp_timestamp q + step) with (pp_timestamp q + step * 1) by lia.
        apply aligned_step; auto.
      * destruct Hrest as [Hreach|Hall]; [left; lia|right].
        intros p Hp [[Ht1 Ht2] Ht3]. assert (p ∈ first :: rest) as Hin.
        { apply Hall, elem_of_in_window. split; [done|]. lia. }
        specialize (Hmax p Hin). lia.
Qed.

Lemma next_cursor_gt interval c answer c' :
  next_cursor interval step c end_ (in_window c (window_end step c end_) answer) = Some c' → c < c'.
Proof.
  assert (window_end step c end_ = end_ ∨ c ≤ window_end step c end_) as Hw
    by (unfold window_end, page_bar_limit; nia).
  unfold next_cursor. destruct (in_window _ _ answer) as [|first rest] eqn:Epage.
  - case_decide; [done|]. intros [= <-]. lia.
  - case_decide; [done|]. destruct (newest_spec first rest _ eq_refl) as [(q & Hq & Hqt) _].
    rewrite <- Epage in Hq. apply elem_of_in_window in Hq as [_ Hq].
    do 2 (case_decide; [done|]). intros [= <-]. case_decide; lia.
Qed.

Lemma in_window_sound c answer output :
  start ≤ c → sound output →
  (∃ k, ∀ p, p ∈ in_window c (window_end step c end_) answer ↔
             p ∈ take k (in_window c (window_end step c end_) history)) →
  sound (output ++ in_window c (window_end step c end_) answer).
Proof.
  intros Hc Hs [k Hans] p [Hp|Hp%Hans]%elem_of_app; [by apply Hs|].
  apply subseteq_take, elem_of_in_window in Hp as [Hp Ht]. apply elem_of_in_window. split; [done|].
  unfold window_end in Ht. lia.
Qed.

(** Whatever the fuel, the loop returns, keeps what it has and adds bars of the
    history only. *)
Lemma fetch_total get interval : vendor get interval →
  ∀ fuel n c output, start ≤ c → sound output →
  ∃ out, fetch_pages get fuel n interval step c end_ output = Ok out ∧ sound out ∧
         ∀ p, p ∈ output → p ∈ out.
Proof.
  intros Hget. induction fuel as [|fuel IH]; intros n c output Hc Hs; [by exists output|].
  cbn [fetch_pages]. destruct (Hget n c (window_end step c end_)) as (answer & k & -> & _ & Hans).
  cbn [mbind result_bind].
  assert (Hs' := in_window_sound c answer output Hc Hs ltac:(by exists k)).
  destruct (next_cursor _ _ _ _ _) as [c'|] eqn:Hn.
  - apply next_cursor_gt in Hn.
    destruct (IH (S n) c' _ ltac:(lia) Hs') as (out & Hout & Hso & Hin). exists out.
    split_and!; [done..|]. intros p Hp. apply Hin, elem_of_app. by left.
  - eexists. split_and!; [done..|]. intros p Hp. apply elem_of_app. by left.
Qed.

Lemma collected_more c output out : collected c output → end_ < c → (∀ p, p ∈ output → p ∈ out) → collected (end_ + 1) out.
Proof.
  intros Hcol Hend Hin p Hp Ht1 Ht2. destruct (Hcol p Hp) as [?|?]; [lia|done|by left; apply Hin|by right].
Qed.

(** Two turns move the cursor by [m] bars, or the loop is done. *)
Lemma fetch_complete get interval : vendor get interval → interval ≠ "1d" →
  ∀ j fuel n c output, cursor_ok c → start ≤ c → collected c output → sound output →
  end_ - c < Z.of_nat j * (step * m) → (2 * j ≤ fuel)%nat →
  ∃ out, fetch_pages get fuel n interval step c end_ output = Ok out ∧ sound out ∧
         collected (end_ + 1) out.
Proof.
  intros Hget Hday. induction j as [|j IH]; intros fuel n c output Hc Hle Hcol Hs Hj Hf.
  { destruct (fetch_total get interval Hget fuel n c output Hle Hs) as (out & Hout & Hso & Hin).
    exists out. split_and!; [done..|]. apply (collected_more c output); [done|lia|done]. }
  destruct fuel as [|[|fuel]]; [lia..|]. cbn [fetch_pages].
  destruct (Hget n c (window_end step c end_)) as (answer & k & -> & Hk & Hans). cbn [mbind result_bind].
  pose proof (fetch_turn interval c answer k output Hday Hc Hle Hk Hans Hcol) as Hturn. cbv zeta in Hturn.
  assert (Hs1 := in_window_sound c answer output Hle Hs ltac:(by exists k)).
  destruct (next_cursor _ _ _ _ _) as [c1|]; [|by eexists].
  destruct Hturn as (Hc1 & Hlt1 & Hcol1 & [Hfar|Hmiss] & _).
  { apply (IH (S fuel)); [done|lia|done|done|nia|lia]. }
  destruct (Hget (S n) c1 (window_end step c1 end_)) as (answer1 & k1 & -> & Hk1 & Hans1).
  cbn [mbind result_bind].
  pose proof (fetch_turn interval c1 answer1 k1 _ Hday Hc1 ltac:(lia) Hk1 Hans1 Hcol1) as Hturn. cbv zeta in Hturn.
  assert (Hs2 := in_window_sound c1 answer1 _ ltac:(lia) Hs1 ltac:(by exists k1)).
  destruct (next_cursor _ _ _ _ _) as [c2|]; [|by eexists].
  destruct Hturn as (Hc2 & Hlt2 & Hcol2 & _ & Hreach).
  assert (c + step * m ≤ c2 ∨ end_ < c2) as [Hfar|Hend].
  { destruct Hreach as [Hreach|(p & Hp & Hp1 & Hp2)]; [left; nia|].
    destruct (decide (pp_timestamp p ≤ end_)); [|right; lia]. left.
    assert (c + step * (page_bar_limit - 1) < pp_timestamp p); [|nia].
    specialize (Hmiss p Hp). lia. }
  - apply (IH fuel); [done|lia|done|done|nia|lia].
  - destruct (fetch_total get interval Hget fuel (S (S n)) c2 _ ltac:(lia) Hs2) as (out & Hout & Hso & Hin).
    exists out. split_and!; [done..|]. eapply (collected_more c2); [done|lia|done].
Qed.

(** The result: bars of the window in order, all but those between two pages. *)
Lemma collected_most out : sound out → collected (end_ + 1) out →
  let l := ordered_values (dict_of pp_timestamp out) in
  ssorted pp_timestamp l ∧ (∀ p, p ∈ l → p ∈ in_window start end_ history) ∧
  ∀ p, p ∈ in_window start end_ history →
    p ∈ l ∨ ∃ j, 1 ≤ j ∧ between_pages j (pp_timestamp p) ∧ ¬ aligned start.
Proof.
  intros Hs Hc. pose proof (window_sorted start end_) as Hw. cbv zeta.
  assert (∀ p, p ∈ ordered_values (dict_of pp_timestamp out) → p ∈ out) as Hout.
  { intros p [t Hp]%elem_of_ordered_values. rewrite dict_of_lookup in Hp.
    by apply last_elem_of, list_elem_of_filter in Hp as [_ Hp]. }
  split_and!; [apply ordered_values_sorted, keyed_dict_of|by intros p Hp%Hout; apply Hs|].
  intros p Hp. pose proof Hp as [Hph Hpt]%elem_of_in_window. destruct (Hc p Hph) as [Hin|?]; [lia|lia| |by right].
  left. apply elem_of_ordered_values. exists (pp_timestamp p). rewrite dict_of_lookup.
  destruct (last (filter (λ x, pp_timestamp x = pp_timestamp p) out)) as [q|] eqn:Hq.
  - apply last_elem_of, list_elem_of_filter in Hq as [Hqt Hq]. f_equal.
    eapply (ssorted_keys_inj pp_timestamp); [exact Hw|by apply Hs|done|done].
  - apply last_None in Hq. exfalso.
    assert (p ∈ filter (λ x, pp_timestamp x = pp_timestamp p) out) as Hf by by apply list_elem_of_filter.
    rewrite Hq in Hf. by apply elem_of_nil in Hf.
Qed.

Lemma sorted_window l : ssorted pp_timestamp l → (∀ p, p ∈ l ↔ p ∈ in_window start end_ history) →
  l = in_window start end_ history.
Proof. intros Hl Hin. by apply (ssorted_ext pp_timestamp); [|apply window_sorted|]. Qed.

End fetch.

Lemma intraday_start_bounds interval backfill_days now existing :
  now - intraday_duration interval backfill_days ≤ intraday_start interval backfill_days now existing.
Proof.
  unfold intraday_start. destruct (oldest_timestamp existing), (newest_timestamp existing); try lia.
  case_decide; lia.
Qed.

Lemma fetch_daily get history start end_ :
  ssorted pp_timestamp history → end_ - start ≤ days 4999 →
  (∃ answer, get 0%nat {| ha_interval := "1d"; ha_start := start; ha_end := end_;
                          ha_limit := Some page_bar_limit |} = Ok answer ∧
             ∀ p, p ∈ in_window start end_ answer ↔ p ∈ in_window start end_ history) →
  fetch_history_pages get "1d" start end_ = Ok (in_window start end_ history).
Proof.
  intros Hs Hd (answer & Hget & Hans). unfold fetch_history_pages. cbn [interval_step decide].
  change (interval_step "1d") with (@Ok Z (days 1)). cbn [mbind result_bind].
  change page_count with (S 63). cbn [fetch_pages].
  assert (window_end (days 1) start end_ = end_) as ->
    by (unfold window_end, page_bar_limit, days, day_us in *; lia).
  rewrite Hget. cbn [mbind result_bind].
  assert (next_cursor "1d" (days 1) start end_ (in_window start end_ answer) = None) as ->.
  { unfold next_cursor. assert (window_end (days 1) start end_ = end_) as ->
      by (unfold window_end, page_bar_limit, days, day_us in *; lia).
    destruct (in_window start end_ answer); [by rewrite decide_True|done]. }
  cbn [app]. cbn. f_equal. apply sorted_window; [done|apply ordered_values_sorted, keyed_dict_of|].
  intros p. rewrite <- Hans, elem_of_ordered_values. setoid_rewrite dict_of_lookup. split.
  - by intros [t [_ Hp]%last_elem_of%list_elem_of_filter].
  - intros Hp. exists (pp_timestamp p).
    destruct (last (filter (λ x, pp_timestamp x = pp_timestamp p) (in_window start end_ answer))) as [q|] eqn:Hq.
    + apply last_elem_of, list_elem_of_filter in Hq as [Hqt Hq]. f_equal.
      eapply (ssorted_keys_inj pp_timestamp); [by apply window_sorted|by apply Hans|by apply Hans|done].
    + apply last_None in Hq. exfalso.
      assert (p ∈ filter (λ x, pp_timestamp x = pp_timestamp p) (in_window start end_ answer)) as Hf
        by by apply list_elem_of_filter.
      rewrite Hq in Hf. by apply elem_of_nil in Hf.
Qed.

(** ** Properties *)

(** C22: a backfill of minute or five-minute bars asks for the retained window page by
    page and always ends, within the 64 pages, with bars the vendor has there, in
    order and once each.  The vendor answers a window with the oldest bars it has
    there, all of them or some number from 406 on; its bars lie on any grid of
    the interval.  For minute bars, and whenever the start
    lies on the grid, they are exactly the bars the vendor has there.  Otherwise
    at most two bars are missed, for each of the first two whole pages the one
    that falls strictly between its end and the start of the next. *)
Theorem backfill_complete (history : list PricePoint) (m grid : Z)
    (get : nat → history_args → result (list PricePoint)) (interval : string) (step : Z)
    (backfill_days : option Z) (now : Z) (existing : list PricePoint)
    (Hinterval : interval = "1m" ∨ interval = "5m") (Hstep : interval_step interval = Ok step)
    (Hm : 406 ≤ m ≤ page_bar_limit) (Hsorted : ssorted pp_timestamp history)
    (Hgrid : ∀ p, p ∈ history → aligned step grid (pp_timestamp p))
    (Hvendor : vendor history m get interval) :
  let start := intraday_start interval backfill_days now existing in
  let asked := in_window start now history in
  ∃ bars, fetch_history_pages get interval start now = Ok bars ∧ ssorted pp_timestamp bars ∧
    (∀ p, p ∈ bars → p ∈ asked) ∧
    (∀ p, p ∈ asked → p ∈ bars ∨ ∃ j, 1 ≤ j ≤ 2 ∧ between_pages step start j (pp_timestamp p)) ∧
    (interval = "1m" ∨ aligned step grid start → bars = asked).
Proof.
  cbv zeta. set (start := intraday_start _ _ _ _) in *.
  assert (now - start < 32 * (step * m) ∧ 0 < step ∧ interval ≠ "1d" ∧ now - start < step * (page_bar_limit * 3 - 1) ∧
          (interval = "1m" → now - start < step * (page_bar_limit * 1 - 1))) as (Hspan & Hpos & Hday & Htwo & Hnone).
  { pose proof (intraday_start_bounds interval backfill_days now existing) as Hb. fold start in Hb.
    unfold intraday_duration, days, minutes, page_bar_limit in *.
    destruct Hinterval as [-> | ->]; vm_compute in Hstep; injection Hstep as <-.
    - rewrite decide_True in Hb by done. unfold day_us in Hb. split_and!; try done; destruct backfill_days; nia.
    - rewrite decide_False in Hb by done. unfold day_us in Hb. split_and!; try done; destruct backfill_days; nia. }
  unfold fetch_history_pages. rewrite Hstep. cbn [mbind result_bind].
  destruct (fetch_complete history step start now m grid) with (get := get) (interval := interval)
    (j := 32%nat) (fuel := page_count) (n := 0%nat) (c := start) (output := @nil PricePoint)
    as (out & -> & Hs & Hc); try done; try lia.
  - right. exists 0. lia.
  - intros p _ Hp. lia.
  - by intros p Hp%elem_of_nil.
  - cbn. destruct (collected_most history step start now grid Hsorted out Hs Hc) as (Hl & Hin & Hmost).
    eexists. split_and!; [done..| |].
    + intros p Hp. destruct (Hmost p Hp) as [?|(j & Hj & Hb & _)]; [by left|right]. exists j. split; [|done].
      apply elem_of_in_window in Hp as [_ Hp]. unfold between_pages, page_bar_limit in *. nia.
    + intros Hex. apply sorted_window; [done..|]. intros p. split; [apply Hin|]. intros Hp.
      destruct (Hmost p Hp) as [?|(j & Hj & Hb & Hna)]; [done|exfalso]. destruct Hex as [Hex%Hnone|?]; [|done].
      apply elem_of_in_window in Hp as [_ Hp]. unfold between_pages, page_bar_limit in *. nia.
Qed.

(** Deriving a cross from two histories keeps, for every timestamp, what the
    synthetic provider computes for the last left bar that has it. *)
Theorem cross_is_synthetic (recipe : SyntheticRecipe) (op : binary_op) (lefts rights : list PricePoint)
    (interval : string) (Hop : sr_operation recipe = Binary op) :
  derive_cross_history (sr_symbol recipe) lefts rights op (sr_max_skew recipe)
    (sr_provider_name recipe) interval =
  (λ points, ordered_values (dict_of pp_timestamp points)) <$>
    synthesize_history recipe lefts rights interval None.
Proof.
  unfold derive_cross_history, synthesize_history. rewrite Hop, (cross_points_binary recipe op) by done.
  case_decide as He; [|by destruct (binary_history _ _ _ _ _ _)].
  destruct He as [-> | ->]; [done|]. by rewrite binary_history_no_right.
Qed.

(** ** Witnesses *)

Definition demo_bar (t : Z) : PricePoint :=
  {| pp_symbol := "BTC:USDC"; pp_timestamp := t; pp_price := dint 1; pp_provider := "demo";
     pp_is_derived := false; pp_interval := "1m" |}.

(** A vendor with a page of [k] bars. *)
Definition demo_vendor (history : list PricePoint) (k : nat) (n : nat) (a : history_args)
    : result (list PricePoint) := Ok (take k (in_window (ha_start a) (ha_end a) history)).

Lemma demo_vendor_ok history k m interval : m ≤ Z.of_nat k → vendor history m (demo_vendor history k) interval.
Proof.
  intros Hk n from until. exists (take k (in_window from until history)), k. split_and!; [done..|].
  intros p. rewrite elem_of_in_window. split; [by intros []|]. intros Hp. split; [done|].
  apply subseteq_take, elem_of_in_window in Hp as [_ Hp]. done.
Qed.

Definition demo_history : list PricePoint := [demo_bar (minutes 3); demo_bar (minutes 700); demo_bar (minutes 2000)].

(** Bars on the full minutes, fetched at twelve seconds past. *)
Lemma backfill_complete_witness :
  fetch_history_pages (demo_vendor demo_history 1000) "1m" (seconds 12) (days 2 + seconds 12) = Ok demo_history.
Proof.
  destruct (backfill_complete demo_history 1000 0 (demo_vendor demo_history 1000) "1m" (minutes 1) None (days 2 + seconds 12) []
    (or_introl eq_refl) eq_refl ltac:(split; [lia|unfold page_bar_limit; lia])) as (bars & Hf & _ & _ & _ & Hall).
  - repeat constructor; unfold minutes, minute_us; cbn; lia.
  - intros p Hp. unfold demo_history in Hp. rewrite !elem_of_cons in Hp.
    destruct Hp as [->|[->|[->|Hp%elem_of_nil]]]; [exists 3|exists 700|exists 2000|done]; reflexivity.
  - apply demo_vendor_ok. lia.
  - rewrite (Hall (or_introl eq_refl)) in Hf. exact Hf.
Defined.

Definition demo_cross : SyntheticRecipe :=
  {| sr_symbol := "ETH:BTC"; sr_left_symbol := "ETH:USD"; sr_right_symbol := "BTC:USD";
     sr_operation := Binary Divide; sr_max_skew := minutes 1; sr_left_max_age := None;
     sr_right_max_age := None; sr_provider_name := "cross" |}.

Lemma cross_is_synthetic_witness :
  derive_cross_history (sr_symbol demo_cross) demo_history demo_history Divide (sr_max_skew demo_cross)
    (sr_provider_name demo_cross) "1m" =
  (λ points, ordered_values (dict_of pp_timestamp points)) <$>
    synthesize_history demo_cross demo_history demo_history "1m" None.
Proof. exact (cross_is_synthetic demo_cross Divide demo_history demo_history "1m" eq_refl). Defined.

(** A start that is not on the grid of the bars loses the bar between two
    pages: the first window ends two and a half minutes after the bar number
    4999, and the next one starts as long after the bar number 5000. *)
Lemma page_boundary_gap :
  let history := [demo_bar (minutes (5 * 4999)); demo_bar (minutes (5 * 5000))] in
  let now := days 45 + seconds 150 in
  intraday_start "5m" None now [] = seconds 150 ∧
  fetch_history_pages (demo_vendor history 5000) "5m" (seconds 150) now = Ok [demo_bar (minutes (5 * 4999))] ∧
  in_window (seconds 150) now history = history ∧
  between_pages (minutes 5) (seconds 150) 1 (minutes (5 * 5000)).
Proof. unfold between_pages. split_and!; vm_compute; reflexivity. Qed.
