(* ===== verification/Quota.v ===== *)
(** * Quota gates ([providers/quota.py])

    [QuotaBudget] counts a fixed window with a hard reserve,
    [SlidingWindowRateGate] a sliding one.  The lock makes each call atomic, the
    awaited persistence callback included; clock readings and the callback's
    outcome are arguments of the transitions.  Times are microseconds. *)

From S2P Require Import Prelude PyTime.

Local Open Scope string_scope.
Local Open Scope list_scope.
Local Open Scope Z_scope.

(** ** Fixed windows *)

Module QuotaBudget.

Record config := {
  limit : Z;
  period : Z;
  reserve : Z;
  align_windows : bool;
}.

Record t := {
  window_start : Z;
  used : Z;
}.

Definition start_for (cfg : config) (now : Z) : Z :=
  if align_windows cfg then now - now mod period cfg else now.

Definition init (cfg : config) (now : Z) : result t :=
  _ ← raise_if (bool_decide (limit cfg ≤ 0 ∨ period cfg ≤ 0))
        (ValueError "limit and period_seconds must be positive");
  _ ← raise_if (negb (bool_decide (0 ≤ reserve cfg < limit cfg)))
        (ValueError "reserve must be between zero and limit");
  Ok {| window_start := start_for cfg now; used := 0 |}.

Definition roll (cfg : config) (now : Z) (b : t) : t :=
  if decide (window_start b + period cfg ≤ now) then
    {| window_start := start_for cfg now; used := 0 |}
  else b.

Definition ceiling (cfg : config) (allow_reserve : bool) : Z :=
  if allow_reserve then limit cfg else limit cfg - reserve cfg.

(** [acquire]; [persistence] is what the callback raises, if it raises. *)
Definition acquire (cfg : config) (now cost : Z) (allow_reserve : bool)
    (persistence : option exn) (b : t) : t * result bool :=
  if decide (cost ≤ 0) then (b, Raise (ValueError "cost must be positive"))
  else
    let b1 := roll cfg now b in
    if decide (ceiling cfg allow_reserve < used b1 + cost) then (b1, Ok false)
    else
      let b2 := {| window_start := window_start b1; used := used b1 + cost |} in
      match persistence with
      | Some e => ({| window_start := window_start b; used := used b |}, Raise e)
      | None => (b2, Ok true)
      end.

Definition can_acquire (cfg : config) (now cost : Z) (allow_reserve : bool) (b : t)
    : t * result bool :=
  if decide (cost ≤ 0) then (b, Raise (ValueError "cost must be positive"))
  else
    let b1 := roll cfg now b in
    (b1, Ok (bool_decide (used b1 + cost ≤ ceiling cfg allow_reserve))).

(** The persisted mapping. *)
Record checkpoint_state := {
  ck_version : Z;
  ck_limit : Z;
  ck_period : Z;
  ck_reserve : Z;
  ck_window_start : Z;
  ck_used : Z;
}.

Definition state (cfg : config) (b : t) : checkpoint_state :=
  {| ck_version := 1; ck_limit := limit cfg; ck_period := period cfg;
     ck_reserve := reserve cfg; ck_window_start := window_start b; ck_used := used b |}.

Definition checkpoint (cfg : config) (now : Z) (b : t) : t * checkpoint_state :=
  let b1 := roll cfg now b in (b1, state cfg b1).

Definition restore (cfg : config) (now : Z) (s : checkpoint_state) (b : t) : result t :=
  _ ← raise_if (bool_decide (ck_version s ≠ 1))
        (ValueError "unsupported quota checkpoint version");
  _ ← raise_if (bool_decide (ck_limit s ≠ limit cfg))
        (ValueError "quota checkpoint limit does not match configuration");
  _ ← raise_if (bool_decide (ck_period s ≠ period cfg))
        (ValueError "quota checkpoint period does not match configuration");
  _ ← raise_if (bool_decide (ck_used s < 0))
        (ValueError "quota checkpoint usage cannot be negative");
  if decide (ck_window_start s = start_for cfg now ∧ now < ck_window_start s + period cfg) then
    Ok {| window_start := ck_window_start s; used := ck_used s |}
  else Ok b.

Record snapshot := {
  qs_limit : Z;
  qs_used : Z;
  qs_remaining : Z;
  qs_resets_at : Z;
}.

Definition take_snapshot (cfg : config) (now : Z) (b : t) : t * snapshot :=
  let b1 := roll cfg now b in
  (b1, {| qs_limit := limit cfg; qs_used := used b1;
          qs_remaining := Z.max 0 (limit cfg - used b1);
          qs_resets_at := window_start b1 + period cfg |}).

End QuotaBudget.

Definition daily_budget (limit reserve : Z) : QuotaBudget.config :=
  {| QuotaBudget.limit := limit; QuotaBudget.period := seconds 86400;
     QuotaBudget.reserve := reserve; QuotaBudget.align_windows := true |}.

Definition minute_budget (limit : Z) : QuotaBudget.config :=
  {| QuotaBudget.limit := limit; QuotaBudget.period := seconds 60;
     QuotaBudget.reserve := 0; QuotaBudget.align_windows := true |}.

Definition rolling_month_safe_daily_budget (limit reserve : Z) : result QuotaBudget.config :=
  _ ← raise_if (bool_decide (limit < 31)) (ValueError "monthly limit must be at least 31");
  Ok (daily_budget (limit / 31) reserve).

(** ** Sliding windows *)

Module SlidingWindowRateGate.

Record config := { limit : Z; period : Z }.

Definition init (cfg : config) : result (list Z) :=
  _ ← raise_if (bool_decide (limit cfg ≤ 0 ∨ period cfg ≤ 0))
        (ValueError "limit and period_seconds must be positive");
  Ok [].

(** [while self._events and self._events[0] <= cutoff: popleft()] *)
Fixpoint expire (cutoff : Z) (events : list Z) : list Z :=
  match events with
  | [] => []
  | e :: events' => if decide (e ≤ cutoff) then expire cutoff events' else events
  end.

(** One turn of the loop of [acquire]: admitted, or the delay to sleep. *)
Definition attempt (cfg : config) (now : Z) (events : list Z) : list Z * option Z :=
  let events := expire (now - period cfg) events in
  if decide (Z.of_nat (length events) < limit cfg) then (events ++ [now], None)
  else (events, Some (Z.max 0 (default 0 (head events) + period cfg - now))).

End SlidingWindowRateGate.

(** ** Accounting over a run of a budget *)

Record request := {
  rq_now : Z;
  rq_cost : Z;
  rq_reserve : bool;
  rq_persistence : option exn;
}.

(** The requests a budget grants, in order. *)
Fixpoint granted (cfg : QuotaBudget.config) (b : QuotaBudget.t) (l : list request)
    : list request :=
  match l with
  | [] => []
  | q :: l' =>
    let '(b', ok) := QuotaBudget.acquire cfg (rq_now q) (rq_cost q) (rq_reserve q)
                       (rq_persistence q) b in
    match ok with
    | Ok true => q :: granted cfg b' l'
    | _ => granted cfg b' l'
    end
  end.

(** The total cost of the requests that satisfy [P]. *)
Definition cost_of (P : request → Prop) `{!∀ q, Decision (P q)} (l : list request) : Z :=
  foldr Z.add 0 (rq_cost <$> filter P l).

Section accounting.
Context (cfg : QuotaBudget.config).
Hypothesis Hperiod : 0 < QuotaBudget.period cfg.
Hypothesis Halign : QuotaBudget.align_windows cfg = true.

Let start := QuotaBudget.start_for cfg.

Lemma start_for_spec now :
  start now ≤ now < start now + QuotaBudget.period cfg.
Proof.
  unfold start, QuotaBudget.start_for. rewrite Halign.
  pose proof (Z.mod_pos_bound now _ Hperiod). lia.
Qed.

Lemma start_for_unique now w k :
  w = k * QuotaBudget.period cfg → w ≤ now < w + QuotaBudget.period cfg → start now = w.
Proof.
  intros -> Hw. unfold start, QuotaBudget.start_for. rewrite Halign.
  assert (now mod QuotaBudget.period cfg = now - k * QuotaBudget.period cfg); [|lia].
  symmetry. apply (Z.mod_unique _ _ k); [left; lia|lia].
Qed.

Lemma start_for_multiple now : ∃ k, start now = k * QuotaBudget.period cfg.
Proof.
  exists (now / QuotaBudget.period cfg). unfold start, QuotaBudget.start_for. rewrite Halign.
  pose proof (Z.div_mod now (QuotaBudget.period cfg)). lia.
Qed.

(** The window a budget is in is aligned and has not started after [now]. *)
Definition window_ok (b : QuotaBudget.t) (now : Z) : Prop :=
  (∃ k, QuotaBudget.window_start b = k * QuotaBudget.period cfg) ∧
  QuotaBudget.window_start b ≤ now ∧ 0 ≤ QuotaBudget.used b.

Lemma roll_window b now :
  window_ok b now →
  QuotaBudget.window_start (QuotaBudget.roll cfg now b) = start now ∧
  window_ok (QuotaBudget.roll cfg now b) now ∧
  QuotaBudget.used (QuotaBudget.roll cfg now b) =
    (if decide (QuotaBudget.window_start b = start now) then QuotaBudget.used b else 0).
Proof.
  intros ([k Hk] & Hle & Hu). unfold QuotaBudget.roll. pose proof (start_for_spec now) as Hs.
  fold start. destruct (decide (_ ≤ now)) as [Hd|Hd]; cbn.
  - rewrite decide_False by lia. split_and!; [done|split_and!; [apply start_for_multiple|..]|done];
      cbn; fold start; lia.
  - assert (start now = QuotaBudget.window_start b) as <-
      by (eapply start_for_unique; [done|lia]).
    rewrite decide_True by done. split_and!; [done| |done]. split_and!; [eauto|lia|done].
Qed.

Lemma cost_of_cons P `{!∀ q, Decision (P q)} q l :
  cost_of P (q :: l) = (if decide (P q) then rq_cost q else 0) + cost_of P l.
Proof. unfold cost_of. rewrite filter_cons. by case_decide. Qed.

(** The requests arrive at non-decreasing clock readings from [now] on. *)
Fixpoint monotone_from (now : Z) (l : list request) : Prop :=
  match l with
  | [] => True
  | q :: l' => now ≤ rq_now q ∧ monotone_from (rq_now q) l'
  end.

Lemma granted_window (cap w : Z) b now l :
  window_ok b now → monotone_from now l → 0 ≤ cap →
  (∀ q, q ∈ l → QuotaBudget.ceiling cfg (rq_reserve q) ≤ cap) →
  (QuotaBudget.window_start b = w → QuotaBudget.used b ≤ cap) →
  cost_of (λ q, start (rq_now q) = w) (granted cfg b l) ≤
    (if decide (QuotaBudget.window_start b = w) then cap - QuotaBudget.used b
     else if decide (QuotaBudget.window_start b < w) then cap else 0).
Proof.
  revert b now. induction l as [|q l IH]; intros b now Hb Hmono Hcap Hceil Hused.
  { cbn. repeat case_decide; try lia. }
  destruct Hmono as [Hnow Hmono]. cbn [granted]. unfold QuotaBudget.acquire.
  assert (Hceil' : ∀ q, q ∈ l → QuotaBudget.ceiling cfg (rq_reserve q) ≤ cap)
    by (intros; apply Hceil; by right).
  specialize (Hceil q ltac:(by left)).
  assert (Hb' : window_ok b (rq_now q)) by (destruct Hb as (? & ? & ?); split_and!; [done|lia|done]).
  destruct (roll_window b (rq_now q) Hb') as (Hw1 & Hb1 & Hu1).
  pose proof (start_for_spec (rq_now q)) as Hs.
  assert (Hwle : QuotaBudget.window_start b ≤ start (rq_now q)).
  { destruct Hb' as ([k Hk] & Hle & _). destruct (start_for_multiple (rq_now q)) as [k' Hk'].
    assert (k < k' + 1) by (apply (Z.mul_lt_mono_pos_r (QuotaBudget.period cfg)); lia).
    rewrite Hk, Hk'. apply Z.mul_le_mono_nonneg_r; lia. }
  set (b1 := QuotaBudget.roll cfg (rq_now q) b) in *.
  destruct (decide (rq_cost q ≤ 0)); [by apply IH with (rq_now q)|].
  destruct (decide (_ < _)) as [Hd|Hd]; [|destruct (rq_persistence q)].
  - etrans; [apply IH with (rq_now q)|]; try done.
    + intros Heq. rewrite Hu1. case_decide; [apply Hused; congruence|done].
    + rewrite Hw1, Hu1. repeat case_decide; try lia.
  - destruct b. by apply IH with (rq_now q).
  - rewrite cost_of_cons. etrans; [apply Z.add_le_mono_l, (IH _ (rq_now q))|]; try done.
    + destruct Hb1 as (? & ? & ?). split_and!; cbn; [done|done|lia].
    + cbn. intros _. lia.
    + cbn. rewrite Hw1, Hu1 in *. repeat case_decide; try lia.
Qed.

End accounting.

Lemma granted_positive cfg b l q : q ∈ granted cfg b l → 0 < rq_cost q.
Proof.
  revert b. induction l as [|r l IH]; intros b; cbn [granted]; [by intros ?%elem_of_nil|].
  unfold QuotaBudget.acquire. destruct (decide (rq_cost r ≤ 0)); [apply IH|].
  destruct (decide (_ < _)); [apply IH|]. destruct (rq_persistence r); [apply IH|].
  intros [->|Hq]%elem_of_cons; [lia|by eapply IH].
Qed.

Lemma foldr_add_all_nonneg {A} (f : A → Z) l :
  (∀ x, x ∈ l → 0 ≤ f x) → 0 ≤ foldr Z.add 0 (f <$> l).
Proof.
  induction l as [|x l IH]; intros Hf; [done|]. rewrite fmap_cons. cbn [foldr].
  assert (0 ≤ f x) by (apply Hf; by left).
  assert (0 ≤ foldr Z.add 0 (f <$> l)) by (apply IH; intros; apply Hf; by right). lia.
Qed.

(** Splitting a total over the classes its members fall in. *)
Lemma cost_of_cover {X} (P : request → Prop) (Q : X → request → Prop)
    `{!∀ q, Decision (P q)} `{!∀ i q, Decision (Q i q)} (ks : list X) l :
  (∀ q, q ∈ l → 0 < rq_cost q) →
  (∀ q, q ∈ l → P q → ∃ i, i ∈ ks ∧ Q i q) →
  cost_of P l ≤ foldr Z.add 0 ((λ i, cost_of (Q i) l) <$> ks).
Proof.
  induction l as [|q l IH]; intros Hpos Hcover.
  { cbn. apply (foldr_add_all_nonneg (λ i, cost_of (Q i) [])). intros. done. }
  rewrite cost_of_cons. specialize (Hpos q ltac:(by left)) as Hq.
  assert (IHl : cost_of P l ≤ foldr Z.add 0 ((λ i, cost_of (Q i) l) <$> ks)).
  { apply IH; [intros; apply Hpos; by right|]. intros r Hr. apply Hcover. by right. }
  assert (Hsum : foldr Z.add 0 ((λ i, cost_of (Q i) (q :: l)) <$> ks) =
    foldr Z.add 0 ((λ i, if decide (Q i q) then rq_cost q else 0) <$> ks) +
    foldr Z.add 0 ((λ i, cost_of (Q i) l) <$> ks)).
  { clear. induction ks as [|i ks IH]; [done|]. rewrite !fmap_cons. cbn [foldr].
    rewrite cost_of_cons. lia. }
  rewrite Hsum. apply Z.add_le_mono; [|done].
  assert (Hnn : ∀ ks', 0 ≤ foldr Z.add 0 ((λ i, if decide (Q i q) then rq_cost q else 0) <$> ks')).
  { intros ks'. apply (foldr_add_all_nonneg (λ i, if decide (Q i q) then rq_cost q else 0)).
    intros i _. case_decide; lia. }
  destruct (decide (P q)) as [HP|]; [|apply Hnn].
  destruct (Hcover q ltac:(by left) HP) as (i & (l1 & l2 & ->)%list_elem_of_split & Hi).
  clear -Hi Hnn Hq. induction l1 as [|j l1 IH]; cbn [app];
    rewrite fmap_cons; cbn [foldr].
  - rewrite decide_True by done. specialize (Hnn l2). lia.
  - case_decide; lia.
Qed.

Lemma init_window cfg b t0 :
  QuotaBudget.init cfg t0 = Ok b →
  0 < QuotaBudget.period cfg ∧ 0 ≤ QuotaBudget.reserve cfg < QuotaBudget.limit cfg ∧
  b = {| QuotaBudget.window_start := QuotaBudget.start_for cfg t0; QuotaBudget.used := 0 |}.
Proof.
  unfold QuotaBudget.init. intros ([] & H1%raise_if_ok%bool_decide_eq_false & H)%result_bind_ok.
  apply result_bind_ok in H as ([] & H2%raise_if_ok & [= <-]).
  apply negb_false_iff, bool_decide_eq_true in H2. split_and!; try lia. done.
Qed.

(** The bound of one window, for requests whose ceiling is at most [cap]. *)
Lemma window_bound cfg t0 b l w cap :
  QuotaBudget.init cfg t0 = Ok b → QuotaBudget.align_windows cfg = true →
  monotone_from t0 l → 0 ≤ cap →
  (∀ q, q ∈ l → QuotaBudget.ceiling cfg (rq_reserve q) ≤ cap) →
  cost_of (λ q, QuotaBudget.start_for cfg (rq_now q) = w) (granted cfg b l) ≤ cap.
Proof.
  intros (Hp & Hr & ->)%init_window Ha Hmono Hcap Hceil.
  etrans; [apply (granted_window cfg Hp Ha cap w _ t0)|]; try done.
  - pose proof (start_for_spec cfg Hp Ha t0). split_and!; cbn; [by apply start_for_multiple|lia|lia].
  - cbn. repeat case_decide; lia.
Qed.

Lemma ceiling_le cfg b : 0 ≤ QuotaBudget.reserve cfg →
  QuotaBudget.ceiling cfg b ≤ QuotaBudget.limit cfg.
Proof. unfold QuotaBudget.ceiling. destruct b; lia. Qed.

(** The request falls in the [i]-th aligned day after the one of [a]. *)
Definition in_day (cfg : QuotaBudget.config) (a i : Z) (q : request) : Prop :=
  QuotaBudget.start_for cfg (rq_now q) = QuotaBudget.start_for cfg a + i * seconds 86400.

#[export] Instance in_day_dec cfg a i q : Decision (in_day cfg a i q).
Proof. unfold in_day. apply _. Defined.

(** Thirty days touch at most thirty-one aligned days. *)
Lemma thirty_days cfg a t :
  QuotaBudget.period cfg = seconds 86400 → QuotaBudget.align_windows cfg = true →
  a ≤ t ≤ a + days 30 →
  ∃ i, i ∈ seqZ 0 31 ∧
    QuotaBudget.start_for cfg t = QuotaBudget.start_for cfg a + i * seconds 86400.
Proof.
  intros Hp Ha Ht. unfold QuotaBudget.start_for. rewrite Ha, Hp.
  exists (t / seconds 86400 - a / seconds 86400).
  pose proof (Z.div_mod t (seconds 86400) ltac:(done)).
  pose proof (Z.div_mod a (seconds 86400) ltac:(done)).
  pose proof (Z.mod_pos_bound t (seconds 86400) ltac:(done)).
  pose proof (Z.mod_pos_bound a (seconds 86400) ltac:(done)).
  split; [|lia]. apply elem_of_seqZ. unfold days, day_us, seconds, second_us in *.
  Z.to_euclidean_division_equations. lia.
Qed.

Lemma foldr_add_bound {A} (f : A → Z) l cap :
  (∀ x, x ∈ l → f x ≤ cap) → foldr Z.add 0 (f <$> l) ≤ Z.of_nat (length l) * cap.
Proof.
  induction l as [|x l IH]; intros Hf; [done|]. rewrite fmap_cons. cbn [length foldr].
  assert (f x ≤ cap) by (apply Hf; by left).
  assert (foldr Z.add 0 (f <$> l) ≤ Z.of_nat (length l) * cap) by (apply IH; intros; apply Hf; by right).
  lia.
Qed.

(** ** Properties of budgets *)

(** C6: for non-decreasing clock readings, whatever requests, rejections and
    persistence failures occur, the cost granted in any one aligned window never
    exceeds the limit, and stays below it by the reserve when no request may use
    the reserve. *)
Theorem window_never_exceeded (cfg : QuotaBudget.config) (t0 : Z) (b : QuotaBudget.t)
    (l : list request) (w : Z) :
  QuotaBudget.init cfg t0 = Ok b → QuotaBudget.align_windows cfg = true →
  monotone_from t0 l →
  let granted_in_w := cost_of (λ q, QuotaBudget.start_for cfg (rq_now q) = w) (granted cfg b l) in
  granted_in_w ≤ QuotaBudget.limit cfg ∧
  ((∀ q, q ∈ l → rq_reserve q = false) →
   granted_in_w ≤ QuotaBudget.limit cfg - QuotaBudget.reserve cfg).
Proof.
  intros Hi Ha Hm. pose proof (init_window _ _ _ Hi) as (_ & Hr & _). cbv zeta. split.
  - eapply window_bound; [done..|lia|]. intros q _. apply ceiling_le. lia.
  - intros Hno. eapply window_bound; [done..|lia|]. intros q Hq. by rewrite (Hno q Hq).
Qed.

Definition demo_request (now cost : Z) : request :=
  {| rq_now := now; rq_cost := cost; rq_reserve := false; rq_persistence := None |}.

Lemma window_never_exceeded_witness :
  let l := [demo_request 1 2; demo_request 2 3; demo_request (seconds 61) 1] in
  let b := {| QuotaBudget.window_start := 0; QuotaBudget.used := 0 |} in
  length (granted (minute_budget 3) b l) = 2%nat ∧
  cost_of (λ q, QuotaBudget.start_for (minute_budget 3) (rq_now q) = 0)
    (granted (minute_budget 3) b l) ≤ 3.
Proof.
  cbv zeta. split; [vm_compute; reflexivity|].
  destruct (window_never_exceeded (minute_budget 3) 0 _
    [demo_request 1 2; demo_request 2 3; demo_request (seconds 61) 1] 0 eq_refl eq_refl) as [H _].
  - cbn. repeat split; lia_time.
  - exact H.
Defined.

(** A budget built by [rolling_month_safe_daily_budget] for a monthly limit
    never grants more than that limit within any rolling thirty days. *)
Theorem rolling_month_safe (limit reserve t0 a : Z) (cfg : QuotaBudget.config)
    (b : QuotaBudget.t) (l : list request) :
  rolling_month_safe_daily_budget limit reserve = Ok cfg →
  QuotaBudget.init cfg t0 = Ok b → monotone_from t0 l →
  cost_of (λ q, a ≤ rq_now q ≤ a + days 30) (granted cfg b l) ≤ limit.
Proof.
  intros Hcfg Hi Hm. unfold rolling_month_safe_daily_budget in Hcfg.
  apply result_bind_ok in Hcfg as ([] & Hlim%raise_if_ok%bool_decide_eq_false & [= <-]).
  pose proof (init_window _ _ _ Hi) as (_ & Hr & _). cbn in Hr.
  set (cfg := daily_budget (limit / 31) reserve) in *.
  etrans; [apply (cost_of_cover _ (in_day cfg a) (seqZ 0 31))|].
  - intros q. apply granted_positive.
  - intros q _ Hq. by apply thirty_days.
  - etrans; [apply (foldr_add_bound _ _ (limit / 31))|].
    + intros i _. eapply (window_bound cfg t0); [done..|lia|]. intros q _.
      apply (ceiling_le cfg). cbn. lia.
    + rewrite length_seqZ. change (Z.of_nat (Z.to_nat 31)) with 31.
      apply Z.mul_div_le. lia.
Qed.

Lemma rolling_month_safe_witness :
  let cfg := daily_budget 2 0 in
  let b := {| QuotaBudget.window_start := 0; QuotaBudget.used := 0 |} in
  let l := [demo_request 1 2; demo_request 2 1; demo_request (days 1) 1] in
  length (granted cfg b l) = 2%nat ∧
  cost_of (λ q, 0 ≤ rq_now q ≤ 0 + days 30) (granted cfg b l) ≤ 62.
Proof.
  cbv zeta. split; [vm_compute; reflexivity|].
  apply (rolling_month_safe 62 0 0 0 (daily_budget 2 0)); [reflexivity|reflexivity|].
  cbn. repeat split; lia_time.
Defined.

(** A checkpoint taken while the window is current, restored into any
    budget of the same configuration at a later reading of the same window,
    reinstates exactly the counter that was saved; restored after the window
    has ended it changes nothing. *)
Theorem checkpoint_restore (cfg : QuotaBudget.config) (b0 b1 b2 b3 : QuotaBudget.t)
    (t0 now later : Z) (ck : QuotaBudget.checkpoint_state) :
  QuotaBudget.init cfg t0 = Ok b0 → QuotaBudget.align_windows cfg = true →
  window_ok cfg b1 now → now ≤ later →
  QuotaBudget.checkpoint cfg now b1 = (b2, ck) →
  QuotaBudget.restore cfg later ck b3 =
    Ok (if decide (QuotaBudget.start_for cfg later = QuotaBudget.start_for cfg now)
        then b2 else b3).
Proof.
  intros (Hp & Hr & _)%init_window Ha Hb Hle. unfold QuotaBudget.checkpoint. intros [= <- <-].
  destruct (roll_window cfg Hp Ha b1 now Hb) as (Hw & (_ & _ & Hu) & _).
  set (b2 := QuotaBudget.roll cfg now b1) in *.
  unfold QuotaBudget.restore. cbn. rewrite (bool_decide_false (QuotaBudget.used b2 < 0)) by lia.
  rewrite !bool_decide_false by tauto. cbn.
  pose proof (start_for_spec cfg Hp Ha later).
  rewrite Hw. case_decide as H1; case_decide as H2; try done.
  - f_equal. by destruct b2; cbn in *; subst.
  - destruct H1 as [H1 _]. congruence.
  - exfalso. apply H1. split; [done|lia].
Qed.

(** ** Sliding windows *)

Lemma length_filter_impl {A} (P Q : A → Prop) `{!∀ x, Decision (P x)} `{!∀ x, Decision (Q x)} (l : list A) :
  (∀ x, x ∈ l → P x → Q x) → (length (filter P l) ≤ length (filter Q l))%nat.
Proof.
  induction l as [|x l IH]; intros HPQ; [done|]. rewrite !filter_cons.
  specialize (IH (λ y Hy, HPQ y (list_elem_of_further _ _ _ Hy))).
  pose proof (HPQ x ltac:(by left)). repeat case_decide; cbn; try lia. tauto.
Qed.

Lemma filter_ext_elem {A} (P Q : A → Prop) `{!∀ x, Decision (P x)} `{!∀ x, Decision (Q x)} (l : list A) :
  (∀ x, x ∈ l → P x ↔ Q x) → filter P l = filter Q l.
Proof.
  induction l as [|x l IH]; intros HPQ; [done|]. rewrite !filter_cons.
  rewrite (IH (λ y Hy, HPQ y (list_elem_of_further _ _ _ Hy))).
  pose proof (HPQ x ltac:(by left)). repeat case_decide; tauto || done.
Qed.

Lemma length_expire cutoff events :
  (length (SlidingWindowRateGate.expire cutoff events) ≤ length events)%nat.
Proof. induction events as [|e l IH]; cbn; [lia|]. case_decide; cbn; lia. Qed.

Section gate.
Context (cfg : SlidingWindowRateGate.config).
Hypothesis Hlimit : 0 < SlidingWindowRateGate.limit cfg.
Hypothesis Hperiod : 0 < SlidingWindowRateGate.period cfg.

Let period := SlidingWindowRateGate.period cfg.

(** The admissions of a gate attempted at the given readings, and its deque. *)
Fixpoint gate_run (events admitted : list Z) (times : list Z) : list Z * list Z :=
  match times with
  | [] => (events, admitted)
  | now :: times' =>
    match SlidingWindowRateGate.attempt cfg now events with
    | (events', None) => gate_run events' (admitted ++ [now]) times'
    | (events', Some _) => gate_run events' admitted times'
    end
  end.

(** Admissions within the window that ends at [a]. *)
Definition in_window (a : Z) (l : list Z) : list Z := filter (λ t, a - period < t ≤ a) l.

Lemma expire_filter cutoff events :
  wsorted id events → SlidingWindowRateGate.expire cutoff events = filter (λ t, cutoff < t) events.
Proof.
  induction 1 as [|e l Hs IH Hall]; [done|]. cbn [SlidingWindowRateGate.expire].
  rewrite filter_cons. destruct (decide (e ≤ cutoff)).
  - rewrite decide_False by lia. exact IH.
  - rewrite decide_True by lia. f_equal. symmetry. apply filter_all.
    rewrite Forall_forall in Hall. intros x Hx. specialize (Hall x Hx). cbn in Hall. lia.
Qed.

(** The deque holds the admissions after some cutoff no later than [now]'s. *)
Definition gate_ok (now : Z) (events admitted : list Z) : Prop :=
  wsorted id admitted ∧ (∀ t, t ∈ admitted → t ≤ now) ∧
  (∃ c, c ≤ now - period ∧ events = filter (λ t, c < t) admitted) ∧
  ∀ a, Z.of_nat (length (in_window a admitted)) ≤ SlidingWindowRateGate.limit cfg.

Lemma filter_id_sorted P `{!∀ x : Z, Decision (P x)} (l : list Z) :
  wsorted id l → wsorted id (filter P l).
Proof.
  induction 1 as [|x l Hs IH Hall]; [constructor|]. rewrite filter_cons.
  case_decide; [|done]. constructor; [done|].
  rewrite Forall_forall in Hall |- *. intros y [_ Hy]%list_elem_of_filter. by apply Hall.
Qed.

Lemma snoc_sorted (l : list Z) t : wsorted id l → (∀ x, x ∈ l → x ≤ t) → wsorted id (l ++ [t]).
Proof.
  induction 1 as [|x l Hs IH Hall]; intros Hle; cbn; [by repeat constructor|].
  constructor; [apply IH; intros; apply Hle; by right|]. apply Forall_app. split; [done|].
  repeat constructor. apply Hle. by left.
Qed.

Lemma attempt_ok now0 now events admitted :
  gate_ok now0 events admitted → now0 ≤ now →
  match SlidingWindowRateGate.attempt cfg now events with
  | (events', None) => gate_ok now events' (admitted ++ [now])
  | (events', Some delay) =>
    gate_ok now events' admitted ∧ 0 ≤ delay ∧
    ∀ later, now + delay ≤ later → (SlidingWindowRateGate.attempt cfg later events').2 = None
  end.
Proof.
  intros (Hs & Hle & (c & Hc & ->) & Hwin) Hnow. unfold SlidingWindowRateGate.attempt.
  fold period. set (events := SlidingWindowRateGate.expire (now - period) _).
  assert (Hev : events = filter (λ t, now - period < t) admitted).
  { unfold events. rewrite expire_filter by by apply filter_id_sorted.
    rewrite list_filter_filter. apply list_filter_iff. lia. }
  destruct (decide _) as [Hlen|Hlen].
  - split_and!.
    + apply snoc_sorted; [done|]. intros x Hx. specialize (Hle x Hx). lia.
    + intros t [Ht| ->%list_elem_of_singleton]%elem_of_app; [specialize (Hle t Ht)|]; lia.
    + exists (now - period). split; [lia|].
      rewrite filter_app, filter_cons, filter_nil, decide_True, Hev by lia. done.
    + intros a. unfold in_window. rewrite filter_app, filter_cons, filter_nil.
      fold (in_window a admitted). case_decide as Ha; [|by rewrite app_nil_r].
      rewrite length_app. cbn.
      assert (length (in_window a admitted) ≤ length events)%nat; [|lia].
      rewrite Hev. apply length_filter_impl. intros t _. lia.
  - assert (Hwinev : events = in_window now admitted).
    { rewrite Hev. unfold in_window. apply filter_ext_elem. intros t Ht. specialize (Hle t Ht). lia. }
    assert (Hcap : Z.of_nat (length events) ≤ SlidingWindowRateGate.limit cfg)
      by (rewrite Hwinev; apply Hwin).
    split_and!.
    + split_and!; [done|intros t Ht; specialize (Hle t Ht); lia| |done].
      exists (now - period). split; [lia|done].
    + lia.
    + intros later Hl. destruct events as [|e events']; [cbn in Hlen; lia|]. cbn in Hl.
      rewrite (decide_True (P := Z.of_nat (length _) < _)); [done|].
      cbn [SlidingWindowRateGate.expire].
      rewrite (decide_True (P := e ≤ later - period)) by lia.
      assert (length (SlidingWindowRateGate.expire (later - period) events') ≤ length events')%nat
        by apply length_expire. cbn in Hcap. lia.
Qed.

Lemma gate_ok_empty now : gate_ok now [] [].
Proof.
  split_and!; [constructor|by intros t ?%elem_of_nil| |intros a; cbn; lia].
  exists (now - period). split; [lia|done].
Qed.

Lemma gate_ok_later now now' events admitted :
  now ≤ now' → gate_ok now events admitted → gate_ok now' events admitted.
Proof.
  intros Hn (Hs & Hle & (c & Hc & He) & Hw). split_and!; [done| | |done].
  - intros t Ht. specialize (Hle t Ht). lia.
  - exists c. split; [lia|done].
Qed.

Lemma gate_run_ok now0 events admitted times :
  gate_ok now0 events admitted → StronglySorted Z.le (now0 :: times) →
  ∃ now, now ∈ now0 :: times ∧
    gate_ok now (gate_run events admitted times).1 (gate_run events admitted times).2.
Proof.
  revert now0 events admitted. induction times as [|now times IH];
    intros now0 events admitted Hok Hs; [exists now0; split; [by left|done]|].
  apply StronglySorted_inv in Hs as [Hs Hall]. apply Forall_cons in Hall as [Hnow _].
  cbn [gate_run]. pose proof (attempt_ok now0 now events admitted Hok Hnow) as Hat.
  destruct (SlidingWindowRateGate.attempt cfg now events) as [events' [delay|]].
  - destruct Hat as [Hat _]. destruct (IH now events' admitted Hat Hs) as (n & Hn & H).
    exists n. split; [by right|done].
  - destruct (IH now events' (admitted ++ [now]) Hat Hs) as (n & Hn & H).
    exists n. split; [by right|done].
Qed.

Lemma gate_run_bound bound times :
  StronglySorted Z.le times → (∀ t, t ∈ times → t ≤ bound) →
  gate_ok bound (gate_run [] [] times).1 (gate_run [] [] times).2.
Proof.
  intros Hs Hb. destruct times as [|t times]; [apply gate_ok_empty|].
  destruct (gate_run_ok t [] [] (t :: times) (gate_ok_empty t)) as (now & Hnow & H).
  - constructor; [done|]. apply StronglySorted_inv in Hs as [_ Hall]. by constructor.
  - eapply gate_ok_later, H. apply Hb. apply elem_of_cons in Hnow as [->|Hnow]; [by left|done].
Qed.

End gate.

(** ** Properties of the gate *)

(** Whatever the (non-decreasing) times at which callers attempt to pass a
    sliding-window gate, no window of one period, wherever it ends, contains
    more admissions than the limit; and a caller told to sleep is admitted by
    its next attempt after that delay if nobody else came in between. *)
Theorem gate_never_exceeded (cfg : SlidingWindowRateGate.config) (times : list Z) (now : Z) :
  SlidingWindowRateGate.init cfg = Ok [] → StronglySorted Z.le times →
  (∀ t, t ∈ times → t ≤ now) →
  let '(events, admitted) := gate_run cfg [] [] times in
  (∀ a, Z.of_nat (length (in_window cfg a admitted)) ≤ SlidingWindowRateGate.limit cfg) ∧
  ∀ events' delay later,
    SlidingWindowRateGate.attempt cfg now events = (events', Some delay) →
    now + delay ≤ later → (SlidingWindowRateGate.attempt cfg later events').2 = None.
Proof.
  unfold SlidingWindowRateGate.init. intros Hi Hs Hb.
  apply result_bind_ok in Hi as ([] & Hi%raise_if_ok%bool_decide_eq_false & _).
  pose proof (gate_run_bound cfg ltac:(lia) ltac:(lia) now times Hs Hb) as Hok.
  destruct (gate_run cfg [] [] times) as [events admitted]. cbn in Hok. split; [apply Hok|].
  intros events' delay later Hat. pose proof (attempt_ok cfg ltac:(lia) ltac:(lia) now now _ _ Hok) as H.
  rewrite Hat in H. by apply H.
Qed.

Lemma gate_never_exceeded_witness :
  let cfg := {| SlidingWindowRateGate.limit := 2; SlidingWindowRateGate.period := 10 |} in
  gate_run cfg [] [] [1; 3; 5; 11; 12] = ([3; 11], [1; 3; 11]) ∧
  (SlidingWindowRateGate.attempt cfg 13 [3; 11]).2 = None ∧
  Z.of_nat (length (in_window cfg 11 [1; 3; 11])) ≤ 2.
Proof.
  cbv zeta. set (cfg := {| SlidingWindowRateGate.limit := 2; SlidingWindowRateGate.period := 10 |}).
  assert (Hrun : gate_run cfg [] [] [1; 3; 5; 11; 12] = ([3; 11], [1; 3; 11])) by reflexivity.
  pose proof (gate_never_exceeded cfg [1; 3; 5; 11; 12] 12 eq_refl) as H.
  rewrite Hrun in H. destruct H as [Hw Hp].
  - repeat constructor; lia.
  - intros t. rewrite !elem_of_cons, elem_of_nil. lia.
  - split_and!; [done|by apply (Hp [3; 11] 1)|apply Hw].
Defined.

Lemma checkpoint_restore_witness :
  let b0 := {| QuotaBudget.window_start := 0; QuotaBudget.used := 0 |} in
  let b1 := {| QuotaBudget.window_start := 0; QuotaBudget.used := 2 |} in
  ∃ ck, QuotaBudget.checkpoint (minute_budget 3) 5 b1 = (b1, ck) ∧
    QuotaBudget.restore (minute_budget 3) 7 ck b0 = Ok b1.
Proof.
  cbv zeta. eexists. split; [reflexivity|].
  apply (checkpoint_restore (minute_budget 3) {| QuotaBudget.window_start := 0; QuotaBudget.used := 0 |}
    {| QuotaBudget.window_start := 0; QuotaBudget.used := 2 |}
    {| QuotaBudget.window_start := 0; QuotaBudget.used := 2 |} _ 0 5);
    [reflexivity|reflexivity| |lia|reflexivity].
  split_and!; [by exists 0|cbn; lia|cbn; lia].
Defined.
