(* ===== verification/Ttl.v ===== *)
(** * The expiring cache of low-frequency operations ([providers/_ttl.py])

    A lookup first reads without the key's lock, then takes the lock, reads
    again and calls the loader.  While the loader is awaited, lookups of other
    keys may change the table; lookups of the same key wait for the lock. *)

From S2P Require Import Prelude PyTime.

Local Open Scope string_scope.
Local Open Scope Z_scope.

Section ttl.
Context {K V : Type} `{Countable K}.

(** [_Entry]; a Python [None] value is an absent [en_value]. *)
Record entry := {
  en_expires_at : Z;
  en_value : option V;
  en_error : option exn;
}.

Abbreviation entries := (gmap K entry).

Definition discard (key : K) (m : entries) : entries := delete key m.

(** [_read]: the error is cloned, which keeps its class and attributes. *)
Definition read (e : entry) : result (option V) :=
  match en_error e with
  | Some err => Raise err
  | None =>
    match en_value e with
    | None => Raise (RuntimeError "TTL cache entry has neither a value nor an error")
    | Some v => Ok (Some v)
    end
  end.

(** A live entry answers without the loader. *)
Definition lookup_live (key : K) (now : Z) (m : entries) : option (result (option V)) :=
  match m !! key with
  | Some e => if decide (now < en_expires_at e) then Some (read e) else None
  | None => None
  end.

(** [isinstance(error, ProviderError)] *)
Definition is_provider_error (e : exn) : bool :=
  match e with ProviderError _ _ _ _ | AllProvidersFailed _ _ _ => true | _ => false end.

(** The section under the key's lock, entered at [started]; [during] is what
    other keys' lookups do to the table while the loader runs. *)
Definition locked_load (key : K) (ttl error_ttl started : Z) (loader : result (option V))
    (during : entries → entries) (m : entries) : entries * result (option V) :=
  match lookup_live key started m with
  | Some r => (m, r)
  | None =>
    let m1 := during m in
    match loader with
    | Ok v => (<[key := {| en_expires_at := started + ttl; en_value := v; en_error := None |}]> m1,
               Ok v)
    | Raise e =>
      if is_provider_error e then
        (<[key := {| en_expires_at := started + error_ttl; en_value := None;
                     en_error := Some e |}]> m1, Raise e)
      else (m1, Raise e)
    end
  end.

(** [get_or_load]; [waiting] is what happens before the lock is obtained. *)
Definition get_or_load (key : K) (ttl : Z) (error_ttl : option Z) (now started : Z)
    (waiting during : entries → entries) (loader : result (option V)) (m : entries)
    : entries * result (option V) :=
  if decide (ttl ≤ 0) then (m, Raise (ValueError "ttl_seconds must be positive"))
  else
    let error_ttl := default ttl error_ttl in
    if decide (error_ttl ≤ 0) then (m, Raise (ValueError "error_ttl_seconds must be positive"))
    else
      match lookup_live key now m with
      | Some r => (m, r)
      | None => locked_load key ttl error_ttl started loader during (waiting m)
      end.

Lemma locked_load_replay key ttl error_ttl started loader during m m' r :
  lookup_live key started m = None →
  locked_load key ttl error_ttl started loader during m = (m', r) →
  r = loader ∧
  (∀ v now, loader = Ok (Some v) → now < started + ttl → lookup_live key now m' = Some (Ok (Some v))) ∧
  (∀ e now, loader = Raise e → is_provider_error e = true → now < started + error_ttl →
     lookup_live key now m' = Some (Raise e)) ∧
  (∀ e, loader = Raise e → is_provider_error e = false → m' = during m) ∧
  (∀ now, loader = Ok None → now < started + ttl → ∃ msg, lookup_live key now m' = Some (Raise (RuntimeError msg))).
Proof.
  intros Hmiss. unfold locked_load. rewrite Hmiss.
  assert (Hput : ∀ e now m1, now < en_expires_at e →
    lookup_live key now (<[key := e]> m1) = Some (read e)).
  { intros e now m1 Hnow. unfold lookup_live. by rewrite lookup_insert_eq, decide_True. }
  destruct loader as [v|e]; [|destruct (is_provider_error e) eqn:He]; intros [= <- <-];
    split_and!; try done.
  - intros v' now [= ->] Hnow. by rewrite Hput.
  - intros now [= ->] Hnow. rewrite Hput by done. by eexists.
  - intros e' now [= <-] _ Hnow. by rewrite Hput.
  - intros e' [= <-]. congruence.
  - intros e' now [= <-]. congruence.
Qed.

(** ** Properties *)

(** The value or provider failure a miss loads is replayed to every lookup
    of the key until its own time to live has passed since the load began,
    whatever the loader would answer then, without touching the table; other
    exceptions are never cached.  A [None] value is the exception: it is
    returned once and raises [RuntimeError] afterwards. *)
Theorem ttl_replays (key : K) (ttl error_ttl started : Z) (loader : result (option V))
    (during : entries → entries) (m m' : entries) (r : result (option V)) :
  lookup_live key started m = None →
  locked_load key ttl error_ttl started loader during m = (m', r) →
  r = loader ∧
  match loader with
  | Ok (Some v) => ∀ now, now < started + ttl →
      ∀ ttl2 error_ttl2 started2 waiting during2 loader2, 0 < ttl2 → 0 < error_ttl2 →
      get_or_load key ttl2 (Some error_ttl2) now started2 waiting during2 loader2 m' =
        (m', Ok (Some v))
  | Ok None => ∀ now, now < started + ttl →
      ∃ msg, lookup_live key now m' = Some (Raise (RuntimeError msg))
  | Raise e =>
    if is_provider_error e then ∀ now, now < started + error_ttl →
      ∀ ttl2 error_ttl2 started2 waiting during2 loader2, 0 < ttl2 → 0 < error_ttl2 →
      get_or_load key ttl2 (Some error_ttl2) now started2 waiting during2 loader2 m' =
        (m', Raise e)
    else m' = during m
  end.
Proof.
  intros Hmiss Hload.
  destruct (locked_load_replay _ _ _ _ _ _ _ _ _ Hmiss Hload) as (Hr & Hv & He & Ho & Hn).
  split; [done|].
  assert (Hget : ∀ now ttl2 error_ttl2 started2 waiting during2 loader2 res,
    0 < ttl2 → 0 < error_ttl2 → lookup_live key now m' = Some res →
    get_or_load key ttl2 (Some error_ttl2) now started2 waiting during2 loader2 m' = (m', res)).
  { intros * H1 H2 Hlive. unfold get_or_load. cbn. rewrite !decide_False by lia. by rewrite Hlive. }
  destruct loader as [[v|]|e].
  - intros; apply Hget; auto.
  - intros; by apply Hn.
  - destruct (is_provider_error e) eqn:Hpe; [|by eapply Ho]. intros; apply Hget; auto.
Qed.

End ttl.

Lemma ttl_replays_witness :
  let e := ProviderError PERateLimited "fred" "quota" (Some 429) in
  let '(m, r) := locked_load "k" 100 10 5 (Raise e) id (∅ : gmap string (@entry Z)) in
  r = Raise e ∧
  get_or_load "k" 100 (Some 10) 14 14 id id (Ok (Some 3)) m = (m, Raise e).
Proof.
  cbv zeta. set (e := ProviderError PERateLimited "fred" "quota" (Some 429)).
  destruct (locked_load "k" 100 10 5 (Raise e) id (∅ : gmap string (@entry Z))) as [m r] eqn:E.
  assert (Hmiss : lookup_live "k" 5 (∅ : gmap string (@entry Z)) = None) by done.
  destruct (ttl_replays "k" 100 10 5 (Raise e) id ∅ m r Hmiss E) as [Hr H].
  split; [exact Hr|]. apply H; reflexivity.
Defined.
