(* ===== verification/PyIso.v ===== *)
(** * The text of dates and instants

    [date.isoformat], [datetime.isoformat] of a UTC instant, and reading them
    back, on the proleptic Gregorian calendar; the years Python has are 1 to
    9999. *)

From S2P Require Import Prelude PyStr PyTime.
From Stdlib Require Import Ascii.

Local Open Scope string_scope.
Local Open Scope list_scope.
Local Open Scope Z_scope.

(** ** Dates *)

Definition era_days : Z := 146097.

(** Year, month and day within the era of 400 years that starts on the 1st of
    March, from the day of the era. *)
Definition civil_of_era (doe : Z) : Z * Z * Z :=
  let yoe := (doe - doe / 1460 + doe / 36524 - doe / 146096) / 365 in
  let doy := doe - (365 * yoe + yoe / 4 - yoe / 100) in
  let mp := (5 * doy + 2) / 153 in
  let d := doy - (153 * mp + 2) / 5 + 1 in
  let m := if decide (mp < 10) then mp + 3 else mp - 9 in
  (yoe + (if decide (m ≤ 2) then 1 else 0), m, d).

(** The civil date of a day number; day 0 is 1970-01-01. *)
Definition civil (day : Z) : Z * Z * Z :=
  let '(y, m, d) := civil_of_era ((day + 719468) mod era_days) in
  (y + 400 * ((day + 719468) / era_days), m, d).

(** The day number of a civil date. *)
Definition day_number (y m d : Z) : Z :=
  let y' := if decide (m ≤ 2) then y - 1 else y in
  let yoe := y' mod 400 in
  let mp := if decide (2 < m) then m - 3 else m + 9 in
  let doy := (153 * mp + 2) / 5 + d - 1 in
  y' / 400 * era_days + (365 * yoe + yoe / 4 - yoe / 100 + doy) - 719468.

(** ** Text *)

Definition digit_char (n : Z) : ascii := ascii_of_N (Z.to_N (48 + n)).

(** The last [k] decimal digits of a number. *)
Fixpoint digits (k : nat) (n : Z) : string :=
  match k with
  | O => ""
  | S k' => digits k' (n / 10) +:+ String (digit_char (n mod 10)) ""
  end.

(** [date.isoformat()] *)
Definition date_isoformat (day : Z) : string :=
  let '(y, m, d) := civil day in digits 4 y +:+ "-" +:+ digits 2 m +:+ "-" +:+ digits 2 d.

(** Hours, minutes and seconds of an instant. *)
Definition time_text (t : Z) : string :=
  let s := t mod day_us / second_us in
  digits 2 (s / 3600) +:+ ":" +:+ digits 2 (s / 60 mod 60) +:+ ":" +:+ digits 2 (s mod 60).

(** [datetime.isoformat(timespec="microseconds")] without the offset. *)
Definition isoformat_us (t : Z) : string :=
  date_isoformat (day_of t) +:+ "T" +:+ time_text t +:+ "." +:+ digits 6 (t mod second_us).

(** [datetime.isoformat()] without the offset: microseconds only when there
    are any. *)
Definition isoformat (t : Z) : string :=
  date_isoformat (day_of t) +:+ "T" +:+ time_text t +:+
  (if decide (t mod second_us = 0) then "" else "." +:+ digits 6 (t mod second_us)).
