(* ===== verification/DashboardLogs.v ===== *)
(** * The log of the dashboard ([dashboard_logs.py])

    [DashboardLogBroker]: a bounded backlog of log events, and one bounded
    queue per client that streams them.  Emitting threads, the event loops of
    the clients and the clients themselves take steps that interleave; what a
    client gets, whatever the interleaving, is [log_delivery].  The handler lock
    that [logging] holds around [emit] keeps emissions apart, and [subscribe]
    runs on the client's loop, so no callback of that loop runs inside it. *)

From S2P Require Import Prelude PyStr PyTime PyIso Json LogRedaction.
From Stdlib Require Import Ascii.
From stdpp Require Import pretty.

Local Open Scope string_scope.
Local Open Scope list_scope.
Local Open Scope Z_scope.

(** ** Events *)

Record DashboardLogEvent := {
  le_id : Z;
  le_timestamp : string;
  le_level : string;
  le_logger : string;
  le_message : string;
}.

#[export] Instance DashboardLogEvent_eq : EqDecision DashboardLogEvent.
Proof. solve_decision. Defined.

Definition newline : ascii := ascii_of_N 10.

(** [json.dumps(self.as_dict(), ensure_ascii=True, separators=(",", ":"))] *)
Definition event_json (e : DashboardLogEvent) : string :=
  "{" +:+ json_text "id" +:+ ":" +:+ pretty (le_id e) +:+
  "," +:+ json_text "timestamp" +:+ ":" +:+ json_text (le_timestamp e) +:+
  "," +:+ json_text "level" +:+ ":" +:+ json_text (le_level e) +:+
  "," +:+ json_text "logger" +:+ ":" +:+ json_text (le_logger e) +:+
  "," +:+ json_text "message" +:+ ":" +:+ json_text (le_message e) +:+ "}".

Definition line (s : string) : string := s +:+ String newline "".

Definition as_sse (e : DashboardLogEvent) : string :=
  line ("id: " +:+ pretty (le_id e)) +:+ line "event: log" +:+ line ("data: " +:+ event_json e) +:+ line "".

(** [isoformat(timespec=...)] of an instant in UTC, with a final [Z]. *)
Definition isoformat_seconds_z (t : Z) : string := date_isoformat (day_of t) +:+ "T" +:+ time_text t +:+ "Z".
Definition isoformat_ms_z (t : Z) : string :=
  date_isoformat (day_of t) +:+ "T" +:+ time_text t +:+ "." +:+ digits 3 (t mod second_us / 1000) +:+ "Z".

Definition heartbeat (now : Z) : string :=
  line "event: heartbeat" +:+
  line ("data: {" +:+ json_text "timestamp" +:+ ":" +:+ json_text (isoformat_seconds_z now) +:+ "}") +:+ line "".

(** A [logging.LogRecord]; [getMessage] may raise. *)
Record LogRecord := {
  lr_created : Z;
  lr_levelname : string;
  lr_name : string;
  lr_message : result string;
}.

(** ** The broker *)

(** A subscriber: its event loop and its queue.  For the theorems it also
    keeps what its client has taken from the queue, how many events were
    dropped from it, and how many events came before the first it was given. *)
Record Subscriber := {
  sb_loop : Z;
  sb_queue : list DashboardLogEvent;
  sb_taken : list DashboardLogEvent;
  sb_dropped : nat;
  sb_start : nat;
}.

(** Objects outlive their registration, so [db_queues] keeps every subscriber
    there ever was; [db_subscribers] are the keys of the dict.  [db_loops] has
    the callbacks that are ready on every loop that is open, [db_emitting] the
    event of an [emit] that is under way and the subscribers it has yet to
    offer it to, and [db_emitted] every event there was. *)
Record DashboardLogBroker := {
  db_events : list DashboardLogEvent;
  db_next_event_id : Z;
  db_next_subscriber_id : Z;
  db_subscribers : list Z;
  db_queues : gmap Z Subscriber;
  db_loops : gmap Z (list (Z * DashboardLogEvent));
  db_emitting : option (DashboardLogEvent * list Z);
  db_emitted : list DashboardLogEvent;
}.

Definition DEFAULT_MAX_SUBSCRIBERS : nat := 8.
Definition DashboardLogCapacityError : exn :=
  NamedError "DashboardLogCapacityError" "dashboard log subscriber limit reached".

(** [__init__] *)
Definition check_bounds (capacity client_queue_size max_subscribers : Z) : result unit :=
  raise_if (bool_decide (capacity ≤ 0 ∨ client_queue_size ≤ 0 ∨ max_subscribers ≤ 0))
    (ValueError "dashboard log bounds must be positive").

(** A broker in a process with these event loops. *)
Definition init (loops : list Z) : DashboardLogBroker :=
  {| db_events := []; db_next_event_id := 1; db_next_subscriber_id := 1; db_subscribers := []; db_queues := ∅;
     db_loops := list_to_map ((λ l, (l, [])) <$> loops); db_emitting := None; db_emitted := [] |}.

Definition with_queues (q : gmap Z Subscriber) (b : DashboardLogBroker) : DashboardLogBroker :=
  {| db_events := db_events b; db_next_event_id := db_next_event_id b;
     db_next_subscriber_id := db_next_subscriber_id b; db_subscribers := db_subscribers b; db_queues := q;
     db_loops := db_loops b; db_emitting := db_emitting b; db_emitted := db_emitted b |}.

Definition with_subscribers (l : list Z) (b : DashboardLogBroker) : DashboardLogBroker :=
  {| db_events := db_events b; db_next_event_id := db_next_event_id b;
     db_next_subscriber_id := db_next_subscriber_id b; db_subscribers := l; db_queues := db_queues b;
     db_loops := db_loops b; db_emitting := db_emitting b; db_emitted := db_emitted b |}.

Definition with_loops (m : gmap Z (list (Z * DashboardLogEvent))) (b : DashboardLogBroker) : DashboardLogBroker :=
  {| db_events := db_events b; db_next_event_id := db_next_event_id b;
     db_next_subscriber_id := db_next_subscriber_id b; db_subscribers := db_subscribers b; db_queues := db_queues b;
     db_loops := m; db_emitting := db_emitting b; db_emitted := db_emitted b |}.

Definition with_emitting (o : option (DashboardLogEvent * list Z)) (b : DashboardLogBroker) : DashboardLogBroker :=
  {| db_events := db_events b; db_next_event_id := db_next_event_id b;
     db_next_subscriber_id := db_next_subscriber_id b; db_subscribers := db_subscribers b; db_queues := db_queues b;
     db_loops := db_loops b; db_emitting := o; db_emitted := db_emitted b |}.

Section broker.
Context (capacity client_queue_size max_subscribers : nat) (redacted : list string).

(** [append] of a [deque] with this [maxlen]. *)
Definition push (l : list DashboardLogEvent) (e : DashboardLogEvent) : list DashboardLogEvent :=
  drop (S (length l) - capacity) (l ++ [e]).

(** The event of a record, before it has its number. *)
Definition event_of (id : Z) (r : LogRecord) (message : string) : DashboardLogEvent :=
  {| le_id := id; le_timestamp := isoformat_ms_z (lr_created r); le_level := upper (lr_levelname r);
     le_logger := redact redacted (lr_name r); le_message := redact redacted message |}.

(** [emit], up to the end of its locked part: a record that cannot be formatted
    goes to [handleError].  While another emission is under way the thread
    waits for the handler lock, and this step does nothing. *)
Definition emit (r : LogRecord) (b : DashboardLogBroker) : DashboardLogBroker :=
  match db_emitting b, lr_message r with
  | None, Ok message =>
    let e := event_of (db_next_event_id b) r message in
    {| db_events := push (db_events b) e; db_next_event_id := db_next_event_id b + 1;
       db_next_subscriber_id := db_next_subscriber_id b; db_subscribers := db_subscribers b;
       db_queues := db_queues b; db_loops := db_loops b; db_emitting := Some (e, db_subscribers b);
       db_emitted := db_emitted b ++ [e] |}
  | _, _ => b
  end.

(** [call_soon_threadsafe]: raises [RuntimeError] on a closed loop, which is
    passed over. *)
Definition call_soon (loop id : Z) (e : DashboardLogEvent) (b : DashboardLogBroker) : DashboardLogBroker :=
  match db_loops b !! loop with
  | Some ready => with_loops (<[loop := ready ++ [(id, e)]]> (db_loops b)) b
  | None => b
  end.

(** One turn of the loop of [emit]; the last ends it. *)
Definition emit_next (b : DashboardLogBroker) : DashboardLogBroker :=
  match db_emitting b with
  | Some (e, id :: rest) =>
    let b' := with_emitting (Some (e, rest)) b in
    match db_queues b !! id with Some s => call_soon (sb_loop s) id e b' | None => b' end
  | Some (e, []) => with_emitting None b
  | None => b
  end.

(** [_offer]: the oldest event makes room. *)
Definition offer (e : DashboardLogEvent) (s : Subscriber) : Subscriber :=
  let full := bool_decide (client_queue_size ≤ length (sb_queue s))%nat in
  {| sb_loop := sb_loop s; sb_queue := (if full then tail (sb_queue s) else sb_queue s) ++ [e];
     sb_taken := sb_taken s; sb_dropped := if full then S (sb_dropped s) else sb_dropped s; sb_start := sb_start s |}.

(** A loop runs its next callback. *)
Definition run_callback (loop : Z) (b : DashboardLogBroker) : DashboardLogBroker :=
  match db_loops b !! loop with
  | Some ((id, e) :: ready) => with_queues (alter (offer e) id (db_queues b)) (with_loops (<[loop := ready]> (db_loops b)) b)
  | _ => b
  end.

(** The events of the backlog that a client gets at once. *)
Definition initial_events (after_id : option Z) (events : list DashboardLogEvent) : list DashboardLogEvent :=
  let wanted := List.filter (λ e, match after_id with Some k => bool_decide (k < le_id e) | None => true end) events in
  drop (length wanted - client_queue_size) wanted.

(** [subscribe], on an open loop. *)
Definition subscribe (loop : Z) (after_id : option Z) (b : DashboardLogBroker) : DashboardLogBroker * result Z :=
  if decide (max_subscribers ≤ length (db_subscribers b))%nat then (b, Raise DashboardLogCapacityError)
  else
    let id := db_next_subscriber_id b in
    let initial := initial_events after_id (db_events b) in
    ({| db_events := db_events b; db_next_event_id := db_next_event_id b; db_next_subscriber_id := id + 1;
        db_subscribers := db_subscribers b ++ [id];
        db_queues := <[id := {| sb_loop := loop; sb_queue := initial; sb_taken := []; sb_dropped := 0;
                                sb_start := length (db_emitted b) - length initial |}]> (db_queues b);
        db_loops := db_loops b; db_emitting := db_emitting b; db_emitted := db_emitted b |}, Ok id).

Definition unsubscribe (id : Z) (b : DashboardLogBroker) : DashboardLogBroker :=
  with_subscribers (List.filter (λ id', bool_decide (id' ≠ id)) (db_subscribers b)) b.

(** [queue.get] of a queue that has an event. *)
Definition take_event (s : Subscriber) : option (DashboardLogEvent * Subscriber) :=
  match sb_queue s with
  | e :: queue =>
    Some (e, {| sb_loop := sb_loop s; sb_queue := queue; sb_taken := sb_taken s ++ [e]; sb_dropped := sb_dropped s;
                sb_start := sb_start s |})
  | [] => None
  end.

Definition snapshot (b : DashboardLogBroker) : list DashboardLogEvent := db_events b.
Definition subscriber_count (b : DashboardLogBroker) : nat := length (db_subscribers b).

(** [close] *)
Definition close : DashboardLogBroker → DashboardLogBroker := with_subscribers [].

Definition close_loop (loop : Z) (b : DashboardLogBroker) : DashboardLogBroker :=
  with_loops (delete loop (db_loops b)) b.

(** ** Streams *)

Record LogStream := {
  ls_subscriber_id : Z;
  ls_closed : bool;
}.

(** [stream] *)
Definition stream (loop : Z) (after_id : option Z) (heartbeat_seconds : Z) (b : DashboardLogBroker)
    : DashboardLogBroker * result LogStream :=
  if decide (heartbeat_seconds ≤ 0) then (b, Raise (ValueError "heartbeat interval must be positive"))
  else
    match subscribe loop after_id b with
    | (b', Ok id) => (b', Ok {| ls_subscriber_id := id; ls_closed := false |})
    | (b', Raise e) => (b', Raise e)
    end.

(** [_release] *)
Definition release (s : LogStream) (b : DashboardLogBroker) : DashboardLogBroker * LogStream :=
  if ls_closed s then (b, s)
  else (unsubscribe (ls_subscriber_id s) b, {| ls_subscriber_id := ls_subscriber_id s; ls_closed := true |}).

(** How waiting for the queue ends. *)
Inductive wait_outcome :=
| Arrived
| TimedOut (now : Z)
| Failed (e : exn).

(** [__anext__]; [None] where the outcome is not possible. *)
Definition anext (s : LogStream) (outcome : wait_outcome) (b : DashboardLogBroker)
    : option (DashboardLogBroker * LogStream * result string) :=
  if ls_closed s then Some (b, s, Raise (NamedError "StopAsyncIteration" ""))
  else
    match outcome with
    | Arrived =>
      '(e, q) ← db_queues b !! ls_subscriber_id s ≫= take_event;
      Some (with_queues (<[ls_subscriber_id s := q]> (db_queues b)) b, s, Ok (as_sse e))
    | TimedOut now => Some (b, s, Ok (heartbeat now))
    | Failed e => let '(b', s') := release s b in Some (b', s', Raise e)
    end.

(** ** Interleavings *)

Inductive log_step :=
| LEmit (r : LogRecord)
| LEmitNext
| LRun (loop : Z)
| LSubscribe (loop : Z) (after_id : option Z)
| LUnsubscribe (id : Z)
| LTake (id : Z)
| LCloseLoop (loop : Z)
| LClose.

Definition take_step (id : Z) (b : DashboardLogBroker) : DashboardLogBroker :=
  match db_queues b !! id ≫= take_event with
  | Some (_, q) => with_queues (<[id := q]> (db_queues b)) b
  | None => b
  end.

Definition step (b : DashboardLogBroker) (s : log_step) : DashboardLogBroker :=
  match s with
  | LEmit r => emit r b
  | LEmitNext => emit_next b
  | LRun loop => run_callback loop b
  | LSubscribe loop after_id => if decide (is_Some (db_loops b !! loop)) then (subscribe loop after_id b).1 else b
  | LUnsubscribe id => unsubscribe id b
  | LTake id => take_step id b
  | LCloseLoop loop => close_loop loop b
  | LClose => close b
  end.

Definition run (b : DashboardLogBroker) (steps : list log_step) : DashboardLogBroker := foldl step b steps.

(** What is on its way to a subscriber: the callbacks that are ready on its
    loop, and the event of an emission that has yet to reach it. *)
Definition ready_for (id : Z) (ready : list (Z * DashboardLogEvent)) : list DashboardLogEvent :=
  snd <$> List.filter (λ c : Z * DashboardLogEvent, bool_decide (c.1 = id)) ready.

Definition in_flight (b : DashboardLogBroker) (id : Z) : list DashboardLogEvent :=
  match db_emitting b with
  | Some (e, rest) => if decide (id ∈ rest) then [e] else []
  | None => []
  end.

Definition pending (b : DashboardLogBroker) (id : Z) (s : Subscriber) : list DashboardLogEvent :=
  sb_queue s ++ ready_for id (default [] (db_loops b !! sb_loop s)) ++ in_flight b id.

End broker.
