(* ===== verification/DashboardLogsFacts.v ===== *)
(** * Properties of the log of the dashboard

    What a client of [DashboardLogs] gets, whatever the interleaving of emitting
    threads, event loops and clients. *)

From S2P Require Import Prelude PyStr PyTime PyIso Json LogRedaction DashboardLogs.
From Stdlib Require Import Ascii.
From stdpp Require Import pretty.

Local Open Scope string_scope.
Local Open Scope list_scope.
Local Open Scope nat_scope.

Section facts.
Context (capacity client_queue_size max_subscribers : nat) (redacted : list string).
Context (Hsize : 0 < client_queue_size).
Implicit Types (b : DashboardLogBroker) (s : Subscriber) (e : DashboardLogEvent) (id loop : Z).

#[local] Arguments ready_for : simpl never.

(** ** The invariant *)

(** Events are numbered from one, and the backlog holds the latest. *)
Record numbered b : Prop := {
  nb_ids : ∀ i e, db_emitted b !! i = Some e → le_id e = (Z.of_nat i + 1)%Z;
  nb_next : db_next_event_id b = (Z.of_nat (length (db_emitted b)) + 1)%Z;
  nb_backlog : db_events b = drop (length (db_emitted b) - capacity) (db_emitted b);
}.

(** Subscribers are known, once each, and their callbacks are on their loop. *)
Record keyed b : Prop := {
  ky_subscribers : ∀ id, id ∈ db_subscribers b → (id < db_next_subscriber_id b)%Z ∧ is_Some (db_queues b !! id);
  ky_nodup : NoDup (db_subscribers b);
  ky_count : length (db_subscribers b) ≤ max_subscribers;
  ky_emitting : ∀ e rest, db_emitting b = Some (e, rest) →
    NoDup rest ∧ ∀ id, id ∈ rest → (id < db_next_subscriber_id b)%Z;
  ky_ready : ∀ loop ready id e, db_loops b !! loop = Some ready → (id, e) ∈ ready →
    (id < db_next_subscriber_id b)%Z ∧ ∀ s, db_queues b !! id = Some s → sb_loop s = loop;
}.

(** What a subscriber got, lost and has coming, of all there was. *)
Record flow (emitted : list DashboardLogEvent) s (coming : list DashboardLogEvent) : Prop := {
  fl_start : sb_start s ≤ length emitted;
  fl_latest : coming `suffix_of` emitted;
  fl_order : sb_taken s ++ coming `sublist_of` drop (sb_start s) emitted;
  fl_count : length (sb_taken s) + sb_dropped s + length coming = length emitted - sb_start s;
}.

Definition flows b : Prop :=
  ∀ id s, id ∈ db_subscribers b → db_queues b !! id = Some s → is_Some (db_loops b !! sb_loop s) →
    flow (db_emitted b) s (pending b id s).

Definition bounded b : Prop :=
  ∀ id s, db_queues b !! id = Some s → length (sb_queue s) ≤ client_queue_size.

Definition broker_ok b : Prop := numbered b ∧ keyed b ∧ flows b ∧ bounded b.

(** ** Lemmas on what is on its way *)

Lemma ready_for_app id l1 l2 : ready_for id (l1 ++ l2) = ready_for id l1 ++ ready_for id l2.
Proof. unfold ready_for. by rewrite List.filter_app, fmap_app. Qed.

Lemma ready_for_hit id e l : ready_for id ((id, e) :: l) = e :: ready_for id l.
Proof. unfold ready_for. cbn. by rewrite bool_decide_eq_true_2. Qed.

Lemma ready_for_miss id id' e l : id ≠ id' → ready_for id ((id', e) :: l) = ready_for id l.
Proof. intros. unfold ready_for. cbn. by rewrite bool_decide_eq_false_2. Qed.

Lemma ready_for_none id l : (∀ id' e, (id', e) ∈ l → id' ≠ id) → ready_for id l = [].
Proof.
  induction l as [|[id' e] l IH]; intros Hne; [done|].
  rewrite ready_for_miss; [apply IH; intros; eapply Hne; by right|]. intros ->. by apply (Hne id' e); [left|].
Qed.

Lemma flow_emit emitted s coming e : flow emitted s coming → flow (emitted ++ [e]) s (coming ++ [e]).
Proof.
  intros [Hstart Hlate Horder Hcount]. split.
  - rewrite length_app. cbn. lia.
  - by apply suffix_app.
  - rewrite drop_app_le, app_assoc by done. by apply sublist_app.
  - rewrite !length_app. cbn. lia.
Qed.

Lemma flow_drop emitted s e coming :
  flow emitted s (e :: coming) →
  flow emitted {| sb_loop := sb_loop s; sb_queue := sb_queue s; sb_taken := sb_taken s; sb_dropped := S (sb_dropped s);
                  sb_start := sb_start s |} coming.
Proof.
  intros [Hstart Hlate Horder Hcount]. split; cbn in *; [done| | |lia].
  - by eapply suffix_cons_l.
  - etrans; [|done]. apply sublist_app; [done|]. by apply sublist_cons.
Qed.

Lemma flow_ext emitted s s' coming : sb_taken s' = sb_taken s → sb_dropped s' = sb_dropped s →
  sb_start s' = sb_start s → flow emitted s coming → flow emitted s' coming.
Proof. intros Ht Hd Hs []. split; rewrite ?Ht, ?Hd, ?Hs; done. Qed.

(** ** Every step keeps it *)

Lemma numbered_eq b b' : db_emitted b' = db_emitted b → db_next_event_id b' = db_next_event_id b →
  db_events b' = db_events b → numbered b → numbered b'.
Proof. intros He Hn Hb []. split; rewrite ?He, ?Hn, ?Hb; done. Qed.

Lemma push_drop l e : push capacity (drop (length l - capacity) l) e = drop (length (l ++ [e]) - capacity) (l ++ [e]).
Proof.
  unfold push. rewrite length_drop, length_app. cbn [length].
  rewrite <- (drop_app_le l [e] (length l - capacity)) by lia. rewrite drop_drop. f_equal. lia.
Qed.

Lemma emit_numbered r b : numbered b → numbered (emit capacity redacted r b).
Proof.
  intros [Hids Hnext Hlog]. unfold emit. destruct (db_emitting b); [done|].
  destruct (lr_message r) as [message|]; [|done]. split; cbn.
  - intros i e Hi. apply lookup_app_Some in Hi as [Hi|[Hi Hk]]; [by apply Hids|].
    apply list_lookup_singleton_Some in Hk as [Hk <-]. cbn. rewrite Hnext. lia.
  - rewrite length_app. cbn. lia.
  - rewrite Hlog. apply push_drop.
Qed.

Lemma emit_keyed r b : keyed b → keyed (emit capacity redacted r b).
Proof.
  intros [Hsub Hnd Hcount Hem Hready]. unfold emit. destruct (db_emitting b) as [|] eqn:He; [by split; rewrite ?He|].
  destruct (lr_message r) as [message|]; [|by split; rewrite ?He]. split; cbn; try done.
  intros e rest [= _ <-]. split; [done|]. intros id Hid. by apply Hsub.
Qed.

Lemma emit_flows r b : flows b → flows (emit capacity redacted r b).
Proof.
  intros Hf. unfold emit. destruct (db_emitting b) as [|] eqn:He; [done|].
  destruct (lr_message r) as [message|]; [|done]. intros id s Hid Hs Hloop. cbn in *.
  specialize (Hf id s Hid Hs Hloop). unfold pending, in_flight in *. cbn. rewrite He in Hf.
  rewrite decide_True by done. rewrite app_nil_r in Hf. rewrite app_assoc. by apply flow_emit.
Qed.

(** Moving the event of an emission to a loop leaves what is coming alone. *)
Lemma call_soon_queues loop id e b : db_queues (call_soon loop id e b) = db_queues b.
Proof. unfold call_soon. by destruct (db_loops b !! loop). Qed.

Lemma emit_next_pending b e id0 rest id s :
  keyed b → db_emitting b = Some (e, id0 :: rest) → id ∈ db_subscribers b → db_queues b !! id = Some s →
  is_Some (db_loops b !! sb_loop s) →
  pending (emit_next b) id s = pending b id s.
Proof.
  intros Hk He Hid Hs [ready Hloop]. destruct (ky_emitting b Hk _ _ He) as [[Hni Hnd]%NoDup_cons _].
  unfold pending, in_flight, emit_next. rewrite He, Hloop. f_equal. destruct (decide (id = id0)) as [->|Hne].
  - rewrite Hs. unfold call_soon. cbn. rewrite Hloop. cbn. rewrite lookup_insert_eq. cbn.
    rewrite decide_False, decide_True by (by try left). rewrite ready_for_app, ready_for_hit, app_nil_r. done.
  - rewrite (decide_ext (id ∈ id0 :: rest) (id ∈ rest)) by (rewrite elem_of_cons; naive_solver).
    destruct (db_queues b !! id0) as [s0|]; cbn; [|by rewrite Hloop].
    unfold call_soon. cbn. destruct (db_loops b !! sb_loop s0) as [ready0|] eqn:Hl0; cbn; [|by rewrite Hloop].
    destruct (decide (sb_loop s0 = sb_loop s)) as [Heq|Hl].
    + rewrite <- Heq, lookup_insert_eq in *. cbn. simplify_eq. by rewrite ready_for_app, ready_for_miss, app_nil_r.
    + by rewrite lookup_insert_ne, Hloop.
Qed.

Lemma emit_next_keyed b : keyed b → keyed (emit_next b).
Proof.
  intros Hk. pose proof Hk as [Hsub Hnd Hcount Hem Hready]. unfold emit_next.
  destruct (db_emitting b) as [[e [|id0 rest]]|] eqn:He; [by split|..|done].
  destruct (Hem _ _ eq_refl) as [[Hni Hrest]%NoDup_cons Hlt].
  assert (keyed (with_emitting (Some (e, rest)) b)) as Hk'.
  { split; cbn; try done. intros e' rest' [= <- <-]. split; [done|]. intros id Hid. apply Hlt. by right. }
  destruct (db_queues b !! id0) as [s0|] eqn:Hs0; [|done]. unfold call_soon. cbn.
  destruct (db_loops b !! sb_loop s0) as [ready0|] eqn:Hl0; [|done].
  destruct Hk' as [Hsub' Hnd' Hcount' Hem' Hready']. split; cbn in *; try done.
  intros loop ready id e' [[<- <-]|[Hne Hl]]%lookup_insert_Some Hin; [|by eapply Hready'].
  apply elem_of_app in Hin as [Hin|Hin]; [by eapply Hready'|].
  apply list_elem_of_singleton in Hin as [= -> ->]. split; [apply Hlt; by left|]. intros s Hs. by simplify_eq.
Qed.
(** Steps that only take subscribers, loops or the end of an emission away. *)
Record shrunk b b' : Prop := {
  sh_emitted : db_emitted b' = db_emitted b;
  sh_queues : db_queues b' = db_queues b;
  sh_next : db_next_subscriber_id b' = db_next_subscriber_id b;
  sh_emitting : db_emitting b' = db_emitting b ∨ ∃ e, db_emitting b = Some (e, []) ∧ db_emitting b' = None;
  sh_subscribers : db_subscribers b' `sublist_of` db_subscribers b;
  sh_loops : ∀ loop ready, db_loops b' !! loop = Some ready → db_loops b !! loop = Some ready;
}.

Lemma shrunk_keyed b b' : shrunk b b' → keyed b → keyed b'.
Proof.
  intros [He Hq Hn Hem Hsub Hl] [Hs Hnd Hcount Hemit Hready]. split; rewrite ?Hq, ?Hn.
  - intros id Hid. apply Hs. by eapply elem_of_sublist.
  - by eapply sublist_NoDup.
  - apply sublist_length in Hsub. lia.
  - destruct Hem as [->|(e & _ & ->)]; done.
  - intros loop ready id e Hloop. by apply Hready, Hl.
Qed.

Lemma shrunk_flows b b' : shrunk b b' → flows b → flows b'.
Proof.
  intros [He Hq Hn Hem Hsub Hl] Hf id s Hid Hs [ready Hloop]. rewrite Hq in Hs.
  specialize (Hf id s ltac:(by eapply elem_of_sublist) Hs (ex_intro _ ready (Hl _ _ Hloop))).
  unfold pending, in_flight in *. rewrite He, Hloop. rewrite (Hl _ _ Hloop) in Hf.
  by destruct Hem as [->|(e & Hb & ->)]; [|rewrite Hb in Hf].
Qed.

Lemma filter_sublist {A} (f : A → bool) (l : list A) : List.filter f l `sublist_of` l.
Proof. induction l as [|x l IH]; cbn; [done|]. destruct (f x); by constructor. Qed.

Lemma unsubscribe_shrunk id b : shrunk b (unsubscribe id b).
Proof. split; cbn; try done; [by left|apply filter_sublist]. Qed.

Lemma close_shrunk b : shrunk b (close b).
Proof. split; cbn; try done; [by left|apply sublist_nil_l]. Qed.

Lemma close_loop_shrunk loop b : shrunk b (close_loop loop b).
Proof. split; cbn; try done; [by left|]. by intros loop' ready [_ Hl]%lookup_delete_Some. Qed.

Lemma emit_end_shrunk b e : db_emitting b = Some (e, []) → shrunk b (emit_next b).
Proof. intros He. unfold emit_next. rewrite He. split; cbn; try done. right. by exists e. Qed.

Lemma emit_next_flows b : keyed b → flows b → flows (emit_next b).
Proof.
  intros Hk Hf. destruct (db_emitting b) as [[e [|id0 rest]]|] eqn:He.
  - by eapply shrunk_flows; [eapply emit_end_shrunk|].
  - intros id s Hid Hs Hloop.
    assert (db_subscribers (emit_next b) = db_subscribers b ∧ db_queues (emit_next b) = db_queues b ∧
            db_emitted (emit_next b) = db_emitted b ∧
            ∀ loop, is_Some (db_loops (emit_next b) !! loop) → is_Some (db_loops b !! loop)) as (H1 & H2 & H3 & H4).
    { unfold emit_next, call_soon. rewrite He. destruct (db_queues b !! id0) as [s0|]; [|done]. cbn.
      destruct (db_loops b !! sb_loop s0) as [ready|] eqn:Hl; [|done]. split_and!; try done. cbn.
      intros loop Hl'. destruct (decide (sb_loop s0 = loop)) as [<-|]; [by rewrite Hl|]. by rewrite lookup_insert_ne in Hl'. }
    rewrite H1 in Hid. rewrite H2 in Hs. apply H4 in Hloop. rewrite H3.
    rewrite (emit_next_pending b e id0 rest) by done. by apply Hf.
  - unfold emit_next. by rewrite He.
Qed.

(** *** Callbacks and clients *)

Lemma alter_spec (f : Subscriber → Subscriber) (m : gmap Z Subscriber) id0 id s :
  alter f id0 m !! id = Some s → ∃ s0, m !! id = Some s0 ∧ s = (if decide (id = id0) then f s0 else s0).
Proof.
  intros Hs. destruct (decide (id = id0)) as [->|Hne].
  - rewrite lookup_alter_eq in Hs. apply fmap_Some in Hs as (s0 & H0 & ->). by exists s0.
  - rewrite lookup_alter_ne in Hs by done. by exists s.
Qed.

Lemma run_callback_keyed loop b : keyed b → keyed (run_callback client_queue_size loop b).
Proof.
  intros Hk. unfold run_callback. destruct (db_loops b !! loop) as [[|[id0 e] ready]|] eqn:Hl; [done| |done].
  destruct Hk as [Hs Hnd Hcount Hemit Hready]. split; cbn; try done.
  - intros id Hid. destruct (Hs id Hid) as [? Hq]. split; [done|].
    destruct (decide (id = id0)) as [->|]; [rewrite lookup_alter_eq; by apply fmap_is_Some|by rewrite lookup_alter_ne].
  - intros loop' ready' id e' Hl' Hin.
    assert (∃ ready0, db_loops b !! loop' = Some ready0 ∧ (id, e') ∈ ready0) as (ready0 & H0 & Hin0).
    { apply lookup_insert_Some in Hl' as [[<- <-]|[_ Hl']]; [|by exists ready']. exists ((id0, e) :: ready). split; [done|by right]. }
    destruct (Hready _ _ _ _ H0 Hin0) as [? Hown]. split; [done|].
    intros s (s0 & Hs0 & ->)%alter_spec. apply Hown in Hs0. by case_decide.
Qed.

Lemma flow_offer emitted s e coming :
  flow emitted s (sb_queue s ++ e :: coming) →
  flow emitted (offer client_queue_size e s) (sb_queue (offer client_queue_size e s) ++ coming).
Proof.
  intros Hf. unfold offer. case_bool_decide as Hfull; cbn; rewrite <- app_assoc; cbn; [|by eapply flow_ext; [..|done]].
  destruct (sb_queue s) as [|x queue]; cbn in *; [lia|]. apply flow_drop in Hf. by eapply flow_ext; [..|done].
Qed.

Lemma run_callback_flows loop b : keyed b → flows b → flows (run_callback client_queue_size loop b).
Proof.
  intros Hk Hf. unfold run_callback. destruct (db_loops b !! loop) as [[|[id0 e] ready]|] eqn:Hl; [done| |done].
  intros id s Hid (s0 & Hs0 & Hs)%alter_spec Hloop. cbn in Hid.
  assert (sb_loop s = sb_loop s0) as Hsame by (rewrite Hs; by case_decide).
  assert (is_Some (db_loops b !! sb_loop s0)) as Hopen.
  { cbn in Hloop. rewrite Hsame in Hloop. destruct (decide (loop = sb_loop s0)) as [<-|]; [by rewrite Hl|by rewrite lookup_insert_ne in Hloop]. }
  specialize (Hf id s0 Hid Hs0 Hopen). unfold pending, in_flight in *. cbn. rewrite Hsame.
  destruct (decide (id = id0)) as [->|Hne].
  - assert (sb_loop s0 = loop) as Heq by (eapply (ky_ready b Hk); [done|by left|done]).
    rewrite Heq in *. rewrite Hl in Hf. rewrite lookup_insert_eq. cbn in *. rewrite ready_for_hit in Hf. cbn in Hf.
    rewrite Hs. by apply flow_offer.
  - rewrite Hs. destruct (decide (loop = sb_loop s0)) as [Heq|Hloops]; [|by rewrite lookup_insert_ne].
    rewrite <- Heq in *. rewrite lookup_insert_eq. rewrite Hl in Hf. cbn in *. by rewrite ready_for_miss in Hf.
Qed.

Lemma take_keyed id0 b : keyed b → keyed (take_step id0 b).
Proof.
  intros Hk. unfold take_step. destruct (db_queues b !! id0) as [s0|] eqn:Hs0; [|done]. cbn.
  unfold take_event. destruct (sb_queue s0) as [|e queue]; [done|].
  destruct Hk as [Hs Hnd Hcount Hemit Hready]. split; cbn; try done.
  - intros id Hid. destruct (Hs id Hid) as [? Hq]. split; [done|].
    destruct (decide (id0 = id)) as [->|]; [by rewrite lookup_insert_eq|by rewrite lookup_insert_ne].
  - intros loop ready id e' Hl Hin. destruct (Hready _ _ _ _ Hl Hin) as [? Hown]. split; [done|].
    intros s [[<- <-]|[_ Hq]]%lookup_insert_Some; [cbn; by eapply Hown|by apply Hown].
Qed.

Lemma take_flows id0 b : flows b → flows (take_step id0 b).
Proof.
  intros Hf. unfold take_step. destruct (db_queues b !! id0) as [s0|] eqn:Hs0; [|done]. cbn.
  unfold take_event. destruct (sb_queue s0) as [|e queue] eqn:Hq; [done|].
  intros id s Hid Hs Hloop. cbn in Hid, Hs, Hloop.
  apply lookup_insert_Some in Hs as [[<- <-]|[Hne Hs]]; [|by apply Hf]. cbn in *.
  specialize (Hf id0 s0 Hid Hs0 Hloop). unfold pending, in_flight in *. cbn in *. rewrite Hq in Hf. cbn in Hf.
  destruct Hf as [Hstart Hlate Horder Hcount]. split; cbn in *; [done| | |rewrite length_app; cbn; lia].
  - by eapply suffix_cons_l.
  - by rewrite <- app_assoc.
Qed.
(** *** Subscribing *)

Lemma filter_keep {A} (l : list A) : List.filter (λ _, true) l = l.
Proof. induction l as [|x l IH]; cbn; [done|]. by rewrite IH. Qed.

Lemma filter_numbered k l : ∀ n, (∀ i e, l !! i = Some e → le_id e = (Z.of_nat (n + i) + 1)%Z) →
  List.filter (λ e, bool_decide (k < le_id e)%Z) l = drop (Z.to_nat k - n) l.
Proof.
  induction l as [|x l IH]; intros n Hids; cbn [List.filter]; [by rewrite drop_nil|].
  rewrite (IH (S n)); [|intros i e Hi; rewrite (Hids (S i) e Hi); lia].
  pose proof (Hids 0 x eq_refl) as Hx. case_bool_decide as Hk.
  - replace (Z.to_nat k - n) with 0 by lia. by replace (Z.to_nat k - S n) with 0 by lia.
  - by replace (Z.to_nat k - n) with (S (Z.to_nat k - S n)) by lia.
Qed.

(** The number of events that a client has already when it subscribes. *)
Definition known_events (after_id : option Z) : nat := match after_id with Some k => Z.to_nat k | None => 0 end.

Lemma initial_events_spec b after_id : numbered b →
  initial_events client_queue_size after_id (db_events b) =
  drop (known_events after_id `max` (length (db_emitted b) - capacity) `max` (length (db_emitted b) - client_queue_size))
    (db_emitted b).
Proof.
  intros [Hids _ Hlog]. unfold initial_events. rewrite Hlog. set (n := length (db_emitted b)).
  assert (List.filter (λ e, match after_id with Some k => bool_decide (k < le_id e)%Z | None => true end)
            (drop (n - capacity) (db_emitted b)) =
          drop (known_events after_id `max` (n - capacity)) (db_emitted b)) as ->.
  { destruct after_id as [k|]; cbn [known_events].
    - rewrite (filter_numbered k _ (n - capacity)).
      + rewrite drop_drop. f_equal. lia.
      + intros i e Hi. rewrite lookup_drop in Hi. by apply Hids.
    - rewrite Nat.max_0_l. apply filter_keep. }
  rewrite length_drop. fold n. rewrite drop_drop. f_equal. lia.
Qed.

Lemma initial_suffix b after_id : numbered b →
  initial_events client_queue_size after_id (db_events b) `suffix_of` db_emitted b ∧
  length (initial_events client_queue_size after_id (db_events b)) ≤ client_queue_size.
Proof.
  intros Hn. rewrite initial_events_spec by done. split; [|rewrite length_drop; lia].
  eexists. symmetry. apply take_drop.
Qed.

Lemma subscribe_keyed loop after_id b : keyed b → keyed (subscribe client_queue_size max_subscribers loop after_id b).1.
Proof.
  intros [Hs Hnd Hcount Hemit Hready]. unfold subscribe. case_decide as Hfull; [by split|]. split; cbn.
  - intros id [Hid|Hid%list_elem_of_singleton]%elem_of_app; [|subst; split; [lia|by rewrite lookup_insert_eq]].
    destruct (Hs id Hid). split; [lia|]. rewrite lookup_insert_ne; [done|lia].
  - apply NoDup_app. split_and!; [done| |apply NoDup_singleton].
    intros id Hid Hnew%list_elem_of_singleton. subst. destruct (Hs _ Hid). lia.
  - rewrite length_app. cbn. lia.
  - intros e rest He. destruct (Hemit e rest He) as [? Hlt]. split; [done|]. intros id Hid. specialize (Hlt id Hid). lia.
  - intros loop' ready id e Hl Hin. destruct (Hready _ _ _ _ Hl Hin) as [Hlt Hown]. split; [lia|].
    intros s. rewrite lookup_insert_ne by lia. apply Hown.
Qed.

Lemma flow_initial emitted loop initial : initial `suffix_of` emitted →
  flow emitted {| sb_loop := loop; sb_queue := initial; sb_taken := []; sb_dropped := 0;
                  sb_start := length emitted - length initial |} initial.
Proof.
  intros [before ->]. split; cbn; rewrite ?length_app; [lia|by exists before| |lia].
  by rewrite drop_app_length' by lia.
Qed.

Lemma subscribe_flows loop after_id b : numbered b → keyed b → flows b →
  flows (subscribe client_queue_size max_subscribers loop after_id b).1.
Proof.
  intros Hn Hk Hf. unfold subscribe. case_decide as Hfull; [done|]. intros id s Hid Hs Hloop. cbn in Hid, Hs, Hloop.
  apply lookup_insert_Some in Hs as [[<- <-]|[Hne Hs]].
  - unfold pending, in_flight. cbn. rewrite (ready_for_none (db_next_subscriber_id b)).
    + replace (match db_emitting b with Some _ => _ | None => _ end) with (@nil DashboardLogEvent).
      * rewrite app_nil_r. apply flow_initial, initial_suffix, Hn.
      * destruct (db_emitting b) as [[e rest]|] eqn:He; [|done]. rewrite decide_False; [done|].
        intros Hin. apply (ky_emitting b Hk) in He as [_ Hlt]. specialize (Hlt _ Hin). lia.
    + intros id' e Hin ->. destruct (db_loops b !! loop) as [ready|] eqn:Hl; [|by apply elem_of_nil in Hin].
      destruct (ky_ready b Hk _ _ _ _ Hl Hin). lia.
  - apply elem_of_app in Hid as [Hid|Hid%list_elem_of_singleton]; [|done]. by apply Hf.
Qed.

(** *** All together *)

Lemma bounded_step b step' : numbered b → bounded b →
  bounded (step capacity client_queue_size max_subscribers redacted b step').
Proof.
  intros Hn Hb id s Hs. destruct step' as [r| |loop|loop after_id|id'|id'|loop|]; cbn [step] in Hs; try (by eapply Hb).
  - unfold emit in Hs. destruct (db_emitting b); [by eapply Hb|]. destruct (lr_message r); by eapply Hb.
  - assert (db_queues (emit_next b) = db_queues b) as Heq; [|by rewrite Heq in Hs; eapply Hb].
    unfold emit_next. destruct (db_emitting b) as [[e [|id0 rest]]|]; try done.
    destruct (db_queues b !! id0); [by rewrite call_soon_queues|done].
  - unfold run_callback in Hs. destruct (db_loops b !! loop) as [[|[id0 e] ready]|]; [by eapply Hb| |by eapply Hb].
    apply alter_spec in Hs as (s0 & H0 & ->). apply Hb in H0. case_decide; [|done]. cbn.
    rewrite length_app. case_bool_decide; [rewrite length_tl|]; cbn; lia.
  - case_decide; [|by eapply Hb]. unfold subscribe in Hs. case_decide; [by eapply Hb|]. cbn in Hs.
    apply lookup_insert_Some in Hs as [[_ <-]|[_ Hs]]; [|by eapply Hb]. by apply initial_suffix.
  - unfold take_step in Hs. destruct (db_queues b !! id') as [s0|] eqn:H0; [|by eapply Hb]. cbn in Hs.
    unfold take_event in Hs. destruct (sb_queue s0) as [|e queue] eqn:Hq; [by eapply Hb|]. cbn in Hs.
    apply lookup_insert_Some in Hs as [[_ <-]|[_ Hs]]; [|by eapply Hb]. apply Hb in H0. rewrite Hq in H0. cbn in *. lia.
Qed.

Lemma step_numbered b step' : numbered b → numbered (step capacity client_queue_size max_subscribers redacted b step').
Proof.
  intros Hn. destruct step' as [r| |loop|loop after_id|id'|id'|loop|]; cbn [step].
  - by apply emit_numbered.
  - eapply numbered_eq; [..|done]; unfold emit_next, call_soon; repeat case_match; done.
  - eapply numbered_eq; [..|done]; unfold run_callback; repeat case_match; done.
  - eapply numbered_eq; [..|done]; unfold subscribe; repeat case_decide; done.
  - by eapply numbered_eq; [..|done].
  - eapply numbered_eq; [..|done]; unfold take_step; repeat case_match; done.
  - by eapply numbered_eq; [..|done].
  - by eapply numbered_eq; [..|done].
Qed.

Lemma step_ok b step' : broker_ok b → broker_ok (step capacity client_queue_size max_subscribers redacted b step').
Proof.
  intros (Hn & Hk & Hf & Hb). split; [by apply step_numbered|].
  enough (keyed (step capacity client_queue_size max_subscribers redacted b step') ∧
          flows (step capacity client_queue_size max_subscribers redacted b step')) as [? ?]
    by (split_and!; [done..|by apply bounded_step]).
  destruct step' as [r| |loop|loop after_id|id'|id'|loop|]; cbn [step].
  - split; [by apply emit_keyed|by apply emit_flows].
  - split; [by apply emit_next_keyed|by apply emit_next_flows].
  - split; [by apply run_callback_keyed|by apply run_callback_flows].
  - case_decide; [|done]. split; [by apply subscribe_keyed|by apply subscribe_flows].
  - pose proof (unsubscribe_shrunk id' b) as Hsh. split; [by eapply shrunk_keyed|by eapply shrunk_flows].
  - split; [by apply take_keyed|by apply take_flows].
  - pose proof (close_loop_shrunk loop b) as Hsh. split; [by eapply shrunk_keyed|by eapply shrunk_flows].
  - pose proof (close_shrunk b) as Hsh. split; [by eapply shrunk_keyed|by eapply shrunk_flows].
Qed.

Lemma broker_init_ok loops : broker_ok (init loops).
Proof.
  split_and!.
  - by split.
  - split; cbn; try done; [by intros id Hid%elem_of_nil|constructor|lia|].
    intros loop ready id e Hl Hin. apply elem_of_list_to_map_2, list_elem_of_fmap in Hl as (l & [= -> ->] & _).
    by apply elem_of_nil in Hin.
  - by intros id s Hid%elem_of_nil.
  - intros id s Hs. cbn in Hs. by rewrite lookup_empty in Hs.
Qed.

Lemma broker_run_ok loops steps : broker_ok (run capacity client_queue_size max_subscribers redacted (init loops) steps).
Proof.
  unfold run. assert (∀ b, broker_ok b →
    broker_ok (foldl (step capacity client_queue_size max_subscribers redacted) b steps)) as Hrun; [|apply Hrun, broker_init_ok].
  induction steps as [|step' steps IH]; intros b Hb; cbn; [done|]. by apply IH, step_ok.
Qed.
Lemma sublist_same_length {A} (l k : list A) : l `sublist_of` k → length l = length k → l = k.
Proof.
  induction 1 as [|x l k Hlk IH|x l k Hlk _]; cbn; intros Heq; [done|f_equal; apply IH; lia|].
  apply sublist_length in Hlk. lia.
Qed.

Lemma flow_complete emitted s coming : flow emitted s coming → sb_dropped s = 0 →
  sb_taken s ++ coming = drop (sb_start s) emitted.
Proof.
  intros [Hstart _ Horder Hcount] Hd. apply sublist_same_length; [done|]. rewrite length_app, length_drop. lia.
Qed.
End facts.

(** ** Frames *)

Definition no_newline (s : string) : Prop := newline ∉ chars s.

Lemma chars_app a b : chars (a +:+ b) = chars a ++ chars b.
Proof. induction a as [|c a IH]; [done|]. change (String c a +:+ b) with (String c (a +:+ b)). cbn. by rewrite IH. Qed.

Lemma no_newline_app a b : no_newline (a +:+ b) ↔ no_newline a ∧ no_newline b.
Proof. unfold no_newline. rewrite chars_app, elem_of_app. tauto. Qed.

Definition no_newlineb (s : string) : bool := bool_decide (newline ∉ chars s).

Lemma no_newline_dec s : no_newlineb s = true → no_newline s.
Proof. apply bool_decide_eq_true. Qed.

Lemma json_char_line c : no_newline (json_char c).
Proof. destruct c as [[] [] [] [] [] [] [] []]; apply no_newline_dec; vm_compute; reflexivity. Qed.

Lemma json_text_line s : no_newline (json_text s).
Proof.
  unfold json_text. rewrite !no_newline_app. split_and!; [by apply no_newline_dec| |by apply no_newline_dec].
  induction s as [|c s IH]; cbn [json_chars]; [by apply no_newline_dec|].
  rewrite no_newline_app. split; [apply json_char_line|done].
Qed.

Lemma pretty_N_line n : ∀ s, no_newline s → no_newline (pretty_N_go n s).
Proof.
  induction (N.lt_wf_0 n) as [n _ IH]; intros s Hs. destruct (decide (n = 0)%N) as [->|Hn]; [by rewrite pretty_N_go_0|].
  rewrite pretty_N_go_step by lia. apply IH; [apply N.div_lt; lia|].
  unfold no_newline. cbn. intros [Hc|Hc]%elem_of_cons; [|done]. revert Hc. unfold pretty_N_char.
  by repeat case_match.
Qed.

Lemma pretty_line (z : Z) : no_newline (pretty z).
Proof.
  assert (∀ n : N, no_newline (pretty n)) as Hn.
  { intros n. unfold pretty, pretty_N. case_decide; [by apply no_newline_dec|].
    by apply pretty_N_line, no_newline_dec. }
  destruct z as [|p|p]; [by apply no_newline_dec|apply (Hn (Npos p))|].
  apply no_newline_app. split; [by apply no_newline_dec|apply (Hn (Npos p))].
Qed.

Lemma event_json_line e : no_newline (event_json e).
Proof.
  unfold event_json.
  repeat first [apply json_text_line | apply pretty_line | by apply no_newline_dec | apply no_newline_app; split].
Qed.

Lemma app_line a b : (a +:+ String newline "") +:+ b = a +:+ String newline b.
Proof. induction a as [|c a IH]; [done|]. exact (f_equal (String c) IH). Qed.

Lemma split_line a b : no_newline a → split_on newline (line a +:+ b) = a :: split_on newline b.
Proof.
  unfold line. rewrite app_line. unfold no_newline. induction a as [|c a IH]; [done|].
  cbn [String.list_ascii_of_string]. intros [Hc Ha]%not_elem_of_cons.
  change (String c a +:+ String newline b) with (String c (a +:+ String newline b)). cbn [split_on].
  rewrite decide_False by done. by rewrite IH.
Qed.

(** Whatever is logged, an event is one frame of the stream: its number, its
    kind and one line of data, followed by the empty line that ends it. *)
Theorem sse_one_frame (e : DashboardLogEvent) :
  split_on newline (as_sse e) =
  ["id: " +:+ pretty (le_id e); "event: log"; "data: " +:+ event_json e; ""; ""].
Proof.
  unfold as_sse. rewrite !split_line; [done| |by apply no_newline_dec|].
  - apply no_newline_app. split; [by apply no_newline_dec|apply event_json_line].
  - apply no_newline_app. split; [by apply no_newline_dec|apply pretty_line].
Qed.

(** ** Delivery *)

(** C15: whatever emitting threads, event loops and clients do, in any order: the
    backlog holds the latest events, there are no more subscribers than
    allowed, and no queue outgrows its bound.  What a registered client whose
    loop is open has taken, followed by what it has coming, are events of the
    log in their order and each at most once; what it has coming is the end of
    the log without a gap; and what it was not given since its first event is
    exactly what its full queue dropped, so that a client that keeps up misses
    nothing. *)
Theorem log_delivery (capacity client_queue_size max_subscribers : nat) (redacted : list string)
    (loops : list Z) (steps : list log_step) :
  0 < client_queue_size →
  let b := run capacity client_queue_size max_subscribers redacted (init loops) steps in
  db_events b = drop (length (db_emitted b) - capacity) (db_emitted b) ∧
  (∀ i e, db_emitted b !! i = Some e → le_id e = (Z.of_nat i + 1)%Z) ∧
  length (db_subscribers b) ≤ max_subscribers ∧
  ∀ id, id ∈ db_subscribers b → ∃ s, db_queues b !! id = Some s ∧ length (sb_queue s) ≤ client_queue_size ∧
    (is_Some (db_loops b !! sb_loop s) →
      let coming := pending b id s in
      coming `suffix_of` db_emitted b ∧ sb_taken s ++ coming `sublist_of` drop (sb_start s) (db_emitted b) ∧
      length (sb_taken s) + sb_dropped s + length coming = length (db_emitted b) - sb_start s ∧
      (sb_dropped s = 0 → sb_taken s ++ coming = drop (sb_start s) (db_emitted b))).
Proof.
  intros Hsize b.
  destruct (broker_run_ok capacity client_queue_size max_subscribers redacted Hsize loops steps) as (Hn & Hk & Hf & Hb).
  fold b in Hn, Hk, Hf, Hb. split; [apply Hn|]. split; [apply Hn|]. split; [apply Hk|].
  intros id Hid. destruct (ky_subscribers _ b Hk id Hid) as [_ [s Hs]]. exists s. split; [done|]. split; [by eapply Hb|].
  intros Hloop. cbv zeta. pose proof (Hf id s Hid Hs Hloop) as Hflow. split_and!; [apply Hflow..|].
  by eapply flow_complete.
Qed.

(** A client that subscribes with the number of the last event it has, and for
    which there is room, is given exactly what follows in the log, but for what
    the backlog and its queue have no room for. *)
Theorem resume_exact (capacity client_queue_size max_subscribers : nat) (redacted : list string)
    (loops : list Z) (steps : list log_step) (loop : Z) (after_id : option Z) (b' : DashboardLogBroker) (id : Z) :
  0 < client_queue_size →
  let b := run capacity client_queue_size max_subscribers redacted (init loops) steps in
  subscribe client_queue_size max_subscribers loop after_id b = (b', Ok id) →
  let skipped := known_events after_id `max` (length (db_emitted b) - capacity) `max`
                 (length (db_emitted b) - client_queue_size) in
  id ∉ db_subscribers b ∧ db_subscribers b' = db_subscribers b ++ [id] ∧
  ∃ s, db_queues b' !! id = Some s ∧ sb_queue s = drop skipped (db_emitted b) ∧ sb_taken s = [] ∧ sb_dropped s = 0.
Proof.
  intros Hsize b Hsub.
  destruct (broker_run_ok capacity client_queue_size max_subscribers redacted Hsize loops steps) as (Hn & Hk & _).
  fold b in Hn, Hk. unfold subscribe in Hsub. case_decide; [done|]. injection Hsub as <- <-. cbv zeta. cbn.
  split_and!; [intros Hin; destruct (ky_subscribers _ b Hk _ Hin); lia|done|].
  eexists. rewrite lookup_insert_eq. split_and!; [done| |done..]. cbn. by eapply initial_events_spec.
Qed.

(** A stream that fails or is cancelled while it waits gives its place back,
    and ends. *)
Lemma stream_released (st st' : LogStream) (e : exn) (b b' : DashboardLogBroker) r :
  ls_closed st = false → anext st (Failed e) b = Some (b', st', r) →
  r = Raise e ∧ ls_subscriber_id st ∉ db_subscribers b' ∧ release st' b' = (b', st') ∧
  ∀ outcome, anext st' outcome b' = Some (b', st', Raise (NamedError "StopAsyncIteration" "")).
Proof.
  intros Hopen H. unfold anext, release in H. rewrite Hopen in H. injection H as <- <- <-. split_and!; try done. cbn.
  rewrite list_elem_of_In, List.filter_In. by intros [_ Hne%bool_decide_eq_true].
Qed.

(** ** A concrete log *)

Definition demo_record (n : Z) : LogRecord :=
  {| lr_created := seconds n; lr_levelname := "info"; lr_name := "quickprice"; lr_message := Ok "token=abc" |}.

(** A slow client on a queue of two, which reconnects after the third event. *)
Definition demo_steps : list log_step :=
  [LEmit (demo_record 1); LEmitNext; LSubscribe 7 None; LEmit (demo_record 2); LSubscribe 7 (Some 1%Z); LEmitNext;
   LEmitNext; LTake 1; LRun 7; LEmit (demo_record 3); LEmitNext; LEmitNext; LEmitNext; LEmit (demo_record 4); LEmitNext;
   LEmitNext; LRun 7; LRun 7; LEmitNext; LRun 7; LRun 7; LRun 7; LTake 2].

Definition demo_run : DashboardLogBroker := run 3 2 8 [] (init [7%Z]) demo_steps.

Lemma log_delivery_witness :
  db_events demo_run = drop (length (db_emitted demo_run) - 3) (db_emitted demo_run) ∧
  (∀ i e, db_emitted demo_run !! i = Some e → le_id e = (Z.of_nat i + 1)%Z) ∧
  length (db_subscribers demo_run) ≤ 8 ∧
  ∀ id, id ∈ db_subscribers demo_run → ∃ s, db_queues demo_run !! id = Some s ∧ length (sb_queue s) ≤ 2 ∧
    (is_Some (db_loops demo_run !! sb_loop s) →
      let coming := pending demo_run id s in
      coming `suffix_of` db_emitted demo_run ∧
      sb_taken s ++ coming `sublist_of` drop (sb_start s) (db_emitted demo_run) ∧
      length (sb_taken s) + sb_dropped s + length coming = length (db_emitted demo_run) - sb_start s ∧
      (sb_dropped s = 0 → sb_taken s ++ coming = drop (sb_start s) (db_emitted demo_run))).
Proof. apply (log_delivery 3 2 8 [] [7%Z] demo_steps). lia. Defined.

(** What the two clients of the run got, and how many events they lost. *)
Definition demo_client (id : Z) :=
  (λ s, (le_id <$> sb_taken s, le_id <$> pending demo_run id s, sb_dropped s)) <$> db_queues demo_run !! id.

Example demo_clients :
  demo_client 1 = Some ([1], [3; 4], 1%nat)%Z ∧ demo_client 2 = Some ([3], [4], 1%nat)%Z.
Proof. vm_compute. split; reflexivity. Qed.

Lemma resume_exact_witness :
  let skipped := known_events (Some 3%Z) `max` (length (db_emitted demo_run) - 3) `max` (length (db_emitted demo_run) - 2) in
  3%Z ∉ db_subscribers demo_run ∧
  db_subscribers (subscribe 2 8 7 (Some 3%Z) demo_run).1 = db_subscribers demo_run ++ [3%Z] ∧
  ∃ s, db_queues (subscribe 2 8 7 (Some 3%Z) demo_run).1 !! 3%Z = Some s ∧
    sb_queue s = drop skipped (db_emitted demo_run) ∧ sb_taken s = [] ∧ sb_dropped s = 0.
Proof.
  apply (resume_exact 3 2 8 [] [7%Z] demo_steps 7 (Some 3%Z) (subscribe 2 8 7 (Some 3%Z) demo_run).1 3%Z); [lia|].
  vm_compute. reflexivity.
Defined.
