(* ===== verification/Schema.v ===== *)
(** * The schema of the database ([storage/schema.py])

    The migrations, each statement by statement in a transaction of its own, and
    the checks that [initialize] makes before and after them.  What is modelled
    of the database is the list of the schema statements it has executed, the
    rows of [schema_version] and its user version; of a connection, the file and
    what an open transaction makes of it.  Any statement may fail, with or
    without an effect of its own. *)

From S2P Require Import Prelude PyStr PyState.
From stdpp Require Import pretty.
From Stdlib Require Import Ascii.

Local Open Scope string_scope.
Local Open Scope list_scope.
Local Open Scope Z_scope.

Definition SCHEMA_VERSION : nat := 2.

Definition SchemaTooNewError (msg : string) : exn := NamedError "SchemaTooNewError" msg.

Definition MIGRATION_1 : list string :=
  ["
    CREATE TABLE schema_version (
        version INTEGER PRIMARY KEY,
        applied_at TEXT NOT NULL,
        checksum TEXT NOT NULL
    ) STRICT
    ";
   "
    CREATE TABLE minute_prices (
        symbol TEXT NOT NULL,
        timestamp TEXT NOT NULL,
        price TEXT NOT NULL,
        provider TEXT NOT NULL,
        is_derived INTEGER NOT NULL CHECK (is_derived IN (0, 1)),
        source_json TEXT NOT NULL,
        stored_at TEXT NOT NULL,
        PRIMARY KEY (symbol, timestamp, provider)
    ) STRICT, WITHOUT ROWID
    ";
   "CREATE INDEX minute_prices_timestamp_idx ON minute_prices(timestamp)";
   "
    CREATE TABLE aggregate_prices (
        symbol TEXT NOT NULL,
        bucket_start TEXT NOT NULL,
        interval_seconds INTEGER NOT NULL CHECK (interval_seconds > 0),
        open TEXT NOT NULL,
        high TEXT NOT NULL,
        low TEXT NOT NULL,
        close TEXT NOT NULL,
        sample_count INTEGER NOT NULL CHECK (sample_count > 0),
        provider TEXT NOT NULL,
        is_derived INTEGER NOT NULL CHECK (is_derived IN (0, 1)),
        source_json TEXT NOT NULL,
        stored_at TEXT NOT NULL,
        PRIMARY KEY (symbol, interval_seconds, bucket_start, provider)
    ) STRICT, WITHOUT ROWID
    ";
   "CREATE INDEX aggregate_prices_bucket_idx ON aggregate_prices(interval_seconds, bucket_start)";
   "
    CREATE TABLE latest_snapshots (
        symbol TEXT PRIMARY KEY,
        as_of TEXT NOT NULL,
        price TEXT,
        snapshot_json TEXT NOT NULL,
        updated_at TEXT NOT NULL
    ) STRICT, WITHOUT ROWID
    ";
   "
    CREATE TABLE dividend_events (
        symbol TEXT NOT NULL,
        ex_date TEXT NOT NULL,
        payment_date TEXT,
        amount TEXT NOT NULL,
        currency TEXT NOT NULL,
        frequency TEXT NOT NULL,
        event_type TEXT NOT NULL,
        is_special INTEGER NOT NULL CHECK (is_special IN (0, 1)),
        provider TEXT NOT NULL,
        raw_json TEXT NOT NULL,
        updated_at TEXT NOT NULL,
        PRIMARY KEY (symbol, ex_date, amount, provider)
    ) STRICT, WITHOUT ROWID
    ";
   "CREATE INDEX dividend_events_symbol_date_idx ON dividend_events(symbol, ex_date DESC)";
   "
    CREATE TABLE yield_metrics (
        symbol TEXT NOT NULL,
        as_of TEXT NOT NULL,
        annual_percent TEXT NOT NULL,
        method TEXT NOT NULL,
        provider TEXT NOT NULL,
        is_proxy INTEGER NOT NULL CHECK (is_proxy IN (0, 1)),
        source_series TEXT,
        raw_json TEXT NOT NULL,
        updated_at TEXT NOT NULL,
        PRIMARY KEY (symbol, as_of, method, provider)
    ) STRICT, WITHOUT ROWID
    ";
   "CREATE INDEX yield_metrics_symbol_time_idx ON yield_metrics(symbol, as_of DESC)";
   "
    CREATE TABLE provider_checkpoints (
        provider TEXT NOT NULL,
        feed TEXT NOT NULL,
        checkpoint_json TEXT NOT NULL,
        updated_at TEXT NOT NULL,
        PRIMARY KEY (provider, feed)
    ) STRICT, WITHOUT ROWID
    "].

Definition MIGRATION_2 : list string :=
  ["
    CREATE TABLE api_keys (
        key_id TEXT PRIMARY KEY,
        name TEXT NOT NULL,
        key_hash TEXT NOT NULL UNIQUE,
        key_hint TEXT,
        created_at TEXT NOT NULL,
        updated_at TEXT NOT NULL,
        expires_at TEXT,
        revoked_at TEXT,
        origin TEXT NOT NULL CHECK (origin IN ('generated', 'imported', 'legacy'))
    ) STRICT, WITHOUT ROWID
    ";
   "
    CREATE INDEX api_keys_expiry_idx
    ON api_keys(expires_at)
    WHERE revoked_at IS NULL
    ";
   "
    CREATE TABLE auth_metadata (
        name TEXT PRIMARY KEY,
        value TEXT NOT NULL,
        updated_at TEXT NOT NULL
    ) STRICT, WITHOUT ROWID
    ";
   "
    CREATE TABLE admin_audit_events (
        event_id TEXT PRIMARY KEY,
        occurred_at TEXT NOT NULL,
        request_id TEXT NOT NULL,
        client_ip TEXT NOT NULL,
        action TEXT NOT NULL,
        target_type TEXT NOT NULL,
        target_id TEXT,
        details_json TEXT NOT NULL
    ) STRICT, WITHOUT ROWID
    ";
   "CREATE INDEX admin_audit_events_time_idx ON admin_audit_events(occurred_at DESC)"].

Definition MIGRATIONS : list (nat * list string) := [(1%nat, MIGRATION_1); (2%nat, MIGRATION_2)].

(** [text.split()]: the words between runs of white space. *)
Fixpoint words_from (word text : string) : list string :=
  let flush := if truthy word then [word] else [] in
  match text with
  | "" => flush
  | String c text' =>
    if is_space c then flush ++ words_from "" text' else words_from (word +:+ String c "") text'
  end.

Definition words (text : string) : list string := words_from "" text.

Definition newline : string := String (ascii_of_N 10) "".

(** ** The database *)

(** [versions] is the table [schema_version], when there is one. *)
Record schema := {
  executed : list string;
  versions : option (gmap nat string);
  user_version : nat;
}.

Definition fresh_schema : schema := {| executed := []; versions := None; user_version := 0 |}.

(** [COALESCE(MAX(version), 0)] *)
Definition max_version (rows : gmap nat string) : nat :=
  foldr (λ kv m, Nat.max kv.1 m) 0%nat (map_to_list rows).

Definition current_version (s : schema) : nat :=
  match versions s with Some rows => max_version rows | None => 0 end.

Definition OperationalError (msg : string) : exn := NamedError "OperationalError" msg.
Definition IntegrityError (msg : string) : exn := NamedError "IntegrityError" msg.
Definition StorageError (msg : string) : exn := NamedError "StorageError" msg.
Definition StorageCorruptionError (msg : string) : exn := NamedError "StorageCorruptionError" msg.

(** *** Connections *)

(** The file, what the open transaction makes of it, and how many statements
    the connection has executed. *)
Record connection := {
  cn_file : schema;
  cn_open : option schema;
  cn_count : nat;
}.

Inductive sql :=
| Begin
| Statement (text : string)
| InsertVersion (version : nat) (checksum : string)
| SetUserVersion (version : nat)
| Commit
| Rollback.

(** The statement that creates [schema_version]. *)
Definition CREATE_VERSIONS : string := hd "" MIGRATION_1.

(** What a statement on the tables does to them. *)
Definition change (q : sql) (t : schema) : result schema :=
  match q with
  | Statement text =>
    if decide (text ∈ executed t) then Raise (OperationalError "already exists")
    else Ok {| executed := executed t ++ [text];
               versions := if decide (text = CREATE_VERSIONS) then Some ∅ else versions t;
               user_version := user_version t |}
  | InsertVersion version checksum =>
    match versions t with
    | None => Raise (OperationalError "no such table: schema_version")
    | Some rows =>
      if decide (is_Some (rows !! version)) then
        Raise (IntegrityError "UNIQUE constraint failed: schema_version.version")
      else Ok {| executed := executed t; versions := Some (<[version := checksum]> rows); user_version := user_version t |}
    end
  | SetUserVersion version => Ok {| executed := executed t; versions := versions t; user_version := version |}
  | Begin | Commit | Rollback => Ok t
  end.

(** What a statement does to the file and the open transaction.  Outside of a
    transaction a statement commits itself. *)
Definition effect (q : sql) (c : connection) : result (schema * option schema) :=
  match q, cn_open c with
  | Begin, None => Ok (cn_file c, Some (cn_file c))
  | Begin, Some _ => Raise (OperationalError "cannot start a transaction within a transaction")
  | Commit, Some t => Ok (t, None)
  | Rollback, Some _ => Ok (cn_file c, None)
  | Commit, None => Raise (OperationalError "cannot commit - no transaction is active")
  | Rollback, None => Raise (OperationalError "cannot rollback - no transaction is active")
  | _, Some t => t' ← change q t; Ok (cn_file c, Some t')
  | _, None => t' ← change q (cn_file c); Ok (t', None)
  end.

Definition tick (c : connection) : connection :=
  {| cn_file := cn_file c; cn_open := cn_open c; cn_count := S (cn_count c) |}.

(** How an exception strikes a statement: it has no effect, SQLite ends the
    transaction as well, or it has its effect (an interrupt that follows it). *)
Inductive strike := NotExecuted | TransactionAborted | Executed.

Definition fault : Type := exn * strike.

(** The start of a process: what strikes the statements of its connection, and
    what the engine reports. *)
Record start_env := {
  se_faults : nat → option fault;
  se_directory : result unit;      (* [mkdir] *)
  se_opened : result unit;         (* [sqlite3.connect] *)
  se_journal_mode : string;
  se_foreign_keys : Z;
  se_quick_check : string;
}.

Section connection.
Context (e : start_env).

(** [connection.execute(q)] *)
Definition execute (q : sql) : comp connection unit := λ c,
  let c' := tick c in
  let after := λ r, match r with
                    | Ok (file, transaction) => {| cn_file := file; cn_open := transaction; cn_count := cn_count c' |}
                    | Raise _ => c'
                    end in
  match se_faults e (cn_count c), effect q c with
  | Some (err, NotExecuted), _ => (c', Raise err)
  | Some (err, TransactionAborted), _ => ({| cn_file := cn_file c; cn_open := None; cn_count := cn_count c' |}, Raise err)
  | Some (err, Executed), r => (after r, Raise err)
  | None, Raise err => (c', Raise err)
  | None, r => (after r, Ok tt)
  end.

(** A query of the tables that the connection sees, or of the engine. *)
Definition query {A} (f : schema → A) : comp connection A := λ c,
  match se_faults e (cn_count c) with
  | Some (err, _) => (tick c, Raise err)
  | None => (tick c, Ok (f (default (cn_file c) (cn_open c))))
  end.

End connection.

(** ** Migrations *)

Section schema.
Context (sha256_hex : string → string).

Definition migration_checksum (statements : list string) : string :=
  sha256_hex (PyStr.join newline ((λ s, PyStr.join " " (words s)) <$> statements)).

Section start.
Context (e : start_env).

(** The [try] of one migration. *)
Definition migration_body (version : nat) (statements : list string) : comp connection unit :=
  _ ← execute e Begin;
  _ ← for_each (λ statement, execute e (Statement statement)) statements;
  _ ← execute e (InsertVersion version (migration_checksum statements));
  _ ← execute e (SetUserVersion version);
  execute e Commit.

(** [except BaseException]: what a transaction that is open did is undone. *)
Definition undo_migration (err : exn) : comp connection unit :=
  in_transaction ← gets (λ c, bool_decide (is_Some (cn_open c)));
  _ ← when in_transaction (execute e Rollback);
  raise err.

Definition apply_migration (version : nat) (statements : list string) : comp connection unit :=
  try_except (λ _, true) (migration_body version statements) undo_migration.

(** The version that the tables say they have. *)
Definition stored_version : comp connection nat :=
  existing ← query e (λ t, bool_decide (is_Some (versions t)));
  if existing : bool then query e current_version else mret 0%nat.

(** [migrate] *)
Definition migrate : comp connection nat :=
  current ← stored_version;
  if decide (SCHEMA_VERSION < current)%nat then
    raise (SchemaTooNewError ("database schema version " +:+ pretty current +:+
                              " is newer than supported version " +:+ pretty SCHEMA_VERSION))
  else
    _ ← for_each (λ m, apply_migration m.1 m.2) (filter (λ m, current < m.1)%nat MIGRATIONS);
    mret SCHEMA_VERSION.

(** A [SELECT] of [schema_version], which may not exist. *)
Definition query_versions {A} (f : gmap nat string → A) : comp connection A :=
  rows ← query e versions;
  match rows with
  | Some rows => mret (f rows)
  | None => raise (OperationalError "no such table: schema_version")
  end.

(** The checksum of one migration in [verify_schema]. *)
Definition verify_checksum (m : nat * list string) : comp connection unit :=
  stored ← query_versions (λ rows, rows !! m.1);
  lift (raise_if (bool_decide (stored ≠ Some (migration_checksum m.2)))
          (RuntimeError ("schema migration " +:+ pretty m.1 +:+ " checksum mismatch"))).

(** [verify_schema] *)
Definition verify_schema : comp connection nat :=
  current ← query_versions max_version;
  _ ← lift (raise_if (bool_decide (current ≠ SCHEMA_VERSION))
              (RuntimeError ("expected schema version " +:+ pretty SCHEMA_VERSION +:+ ", got " +:+ pretty current)));
  _ ← for_each verify_checksum MIGRATIONS;
  mret current.

(** ** Initialization *)

(** [_connect] of a connection that writes; [PRAGMA]s do not touch the tables. *)
Definition pragma : comp connection unit := query e (λ _, tt).

Definition connect : comp connection unit :=
  _ ← lift (se_opened e);
  _ ← pragma;
  _ ← pragma;
  mode ← query e (λ _, se_journal_mode e);
  _ ← lift (raise_if (bool_decide (lower mode ≠ "wal"))
              (StorageError ("could not enable WAL mode; SQLite returned " +:+ py_repr mode)));
  _ ← pragma;
  _ ← pragma;
  foreign_keys ← query e (λ _, se_foreign_keys e);
  lift (raise_if (bool_decide (foreign_keys ≠ 1)) (StorageError "SQLite foreign key enforcement is disabled")).

(** The [try] of [initialize]. *)
Definition prepare_schema : comp connection unit :=
  _ ← migrate;
  _ ← verify_schema;
  integrity ← query e (λ _, se_quick_check e);
  lift (raise_if (bool_decide (integrity ≠ "ok"))
          (StorageCorruptionError ("SQLite quick_check failed: " +:+ integrity))).

(** [initialize]: once it has succeeded it does nothing more.  Closing the
    connection, which the end of the process does as well, discards a
    transaction that is still open. *)
Definition initialize (initialized : bool) (file : schema) : (bool * schema) * result unit :=
  if initialized then ((true, file), Ok tt)
  else
    let '(c, r) := (_ ← lift (se_directory e); _ ← connect; prepare_schema)
                     {| cn_file := file; cn_open := None; cn_count := 0 |} in
    ((match r with Ok _ => true | Raise _ => false end, cn_file c), r).

End start.

(** ** Every start leaves a whole number of migrations *)

(** The file after the first [n] migrations. *)
Definition migrated (n : nat) : schema :=
  match n with
  | O => fresh_schema
  | S O => {| executed := MIGRATION_1; versions := Some {[1%nat := migration_checksum MIGRATION_1]}; user_version := 1 |}
  | _ => {| executed := MIGRATION_1 ++ MIGRATION_2;
            versions := Some (<[2%nat := migration_checksum MIGRATION_2]> {[1%nat := migration_checksum MIGRATION_1]});
            user_version := 2 |}
  end.

(** The statements of a migration between its [BEGIN] and its [COMMIT]. *)
Definition changes (version : nat) (statements : list string) : list sql :=
  (Statement <$> statements) ++ [InsertVersion version (migration_checksum statements); SetUserVersion version].

Lemma migration_changes :
  fold_result (flip change) fresh_schema (changes 1 MIGRATION_1) = Ok (migrated 1) ∧
  fold_result (flip change) (migrated 1) (changes 2 MIGRATION_2) = Ok (migrated 2).
Proof.
  unfold changes, migrated. generalize (migration_checksum MIGRATION_1) (migration_checksum MIGRATION_2). intros c1 c2.
  split; vm_compute; reflexivity.
Qed.

Section facts.
Context (e : start_env).

(** An exception that a statement was struck by. *)
Definition struck (err : exn) : Prop := ∃ n s, se_faults e n = Some (err, s).

(** A change inside of a transaction. *)
Definition in_transaction (file t : schema) (c : connection) : Prop := cn_file c = file ∧ cn_open c = Some t.

Lemma change_wp q file t t' c : in_transaction file t c → change q t = Ok t' →
  q ≠ Begin → q ≠ Commit → q ≠ Rollback →
  wp (execute e q) (λ c' r, match r with
                            | Ok _ => in_transaction file t' c'
                            | Raise err => cn_file c' = file ∧ struck err
                            end) c.
Proof.
  intros [Hf Ho] Hq Hb Hc Hr.
  assert (effect q c = Ok (file, Some t')) as He by (unfold effect; rewrite Ho, Hf; destruct q; try done; by rewrite Hq).
  unfold wp, execute. rewrite He. destruct (se_faults e (cn_count c)) as [[err []]|] eqn:Hs; cbn; [..|done];
    (split; [done|by eexists _, _]).
Qed.

Lemma begin_wp file c : cn_file c = file → cn_open c = None →
  wp (execute e Begin) (λ c' r, match r with
                                | Ok _ => in_transaction file file c'
                                | Raise err => cn_file c' = file ∧ struck err
                                end) c.
Proof.
  intros Hf Ho. unfold wp, execute, effect. rewrite Ho, Hf.
  destruct (se_faults e (cn_count c)) as [[err []]|] eqn:Hs; cbn; [..|done]; (split; [done|by eexists _, _]).
Qed.

(** An interrupt may follow a commit. *)
Lemma commit_statement_wp file t c : in_transaction file t c →
  wp (execute e Commit) (λ c' r, match r with
                                 | Ok _ => cn_file c' = t ∧ cn_open c' = None
                                 | Raise err => (cn_file c' = file ∨ cn_file c' = t) ∧ struck err
                                 end) c.
Proof.
  intros [Hf Ho]. unfold wp, execute, effect. rewrite Ho, Hf.
  destruct (se_faults e (cn_count c)) as [[err []]|] eqn:Hs; cbn; [..|done];
    (split; [by auto|by eexists _, _]).
Qed.

(** A rollback leaves the file, whether it succeeds or not. *)
Lemma rollback_wp file t c : in_transaction file t c →
  wp (execute e Rollback) (λ c' r, cn_file c' = file ∧ match r with Ok _ => True | Raise err => struck err end) c.
Proof.
  intros [Hf Ho]. unfold wp, execute, effect. rewrite Ho, Hf.
  destruct (se_faults e (cn_count c)) as [[err []]|] eqn:Hs; cbn; [..|done]; (split; [done|by eexists _, _]).
Qed.

Lemma statements_wp file statements rest t' : ∀ t c,
  fold_result (flip change) t ((Statement <$> statements) ++ rest) = Ok t' → in_transaction file t c →
  wp (for_each (λ statement, execute e (Statement statement)) statements)
    (λ c' r, match r with
             | Ok _ => ∃ t1, in_transaction file t1 c' ∧ fold_result (flip change) t1 rest = Ok t'
             | Raise err => cn_file c' = file ∧ struck err
             end) c.
Proof.
  induction statements as [|statement statements IH]; intros t c Hfold Hc; [by exists t|].
  cbn [fmap list_fmap app] in Hfold. cbn [fold_result] in Hfold. apply result_bind_ok in Hfold as (t1 & H1 & Hfold).
  cbn [for_each]. apply wp_bind. eapply wp_mono; [|by apply (change_wp (Statement statement) file t t1)].
  intros c1 [u|err]; [|done]. by apply IH.
Qed.

(** The transaction of a migration brings all of it, or nothing. *)
Lemma migration_wp version statements file t' c :
  fold_result (flip change) file (changes version statements) = Ok t' → cn_file c = file → cn_open c = None →
  wp (apply_migration e version statements)
    (λ c' r, match r with
             | Ok _ => cn_file c' = t' ∧ cn_open c' = None
             | Raise err => (cn_file c' = file ∨ cn_file c' = t') ∧ struck err
             end) c.
Proof.
  intros Hfold Hf Ho. unfold apply_migration. apply wp_try.
  assert (wp (migration_body e version statements)
    (λ c' r, match r with
             | Ok _ => cn_file c' = t' ∧ cn_open c' = None
             | Raise err => (cn_file c' = file ∨ cn_file c' = t') ∧ struck err
             end) c) as Hbody.
  { unfold migration_body. apply wp_bind. eapply wp_mono; [|by apply (begin_wp file)].
    intros c1 [u|err] H1; [|naive_solver]. apply wp_bind.
    eapply wp_mono; [|by eapply statements_wp]. intros c2 [u2|err] H2; [|naive_solver].
    destruct H2 as (t2 & H2 & Hrest). cbn [fold_result flip] in Hrest.
    apply result_bind_ok in Hrest as (t3 & H3 & Hrest). apply result_bind_ok in Hrest as (t4 & H4 & [= ->]).
    apply wp_bind. eapply wp_mono; [|by eapply change_wp]. intros c3 [u3|err] Hc3; [|naive_solver].
    apply wp_bind. eapply wp_mono; [|by eapply change_wp]. intros c4 [u4|err] Hc4; [|naive_solver].
    by apply commit_statement_wp. }
  eapply wp_mono; [|exact Hbody]. intros c' [u|err] Hc'; [done|]. destruct Hc' as [Hfile Hstruck].
  unfold undo_migration. apply wp_bind, wp_gets. cbv beta. apply wp_bind, wp_when.
  case_bool_decide as Hopen; [|by apply wp_raise].
  destruct Hopen as [t Ht]. eapply wp_mono; [|by apply (rollback_wp (cn_file c') t)].
  intros c2 [u|err2] [Hc2 Hr]; rewrite <- Hc2 in Hfile; [by apply wp_raise|by split].
Qed.

Lemma query_wp {A} (f : schema → A) c (Q : connection → result A → Prop) :
  Q (tick c) (Ok (f (default (cn_file c) (cn_open c)))) → (∀ err, struck err → Q (tick c) (Raise err)) →
  wp (query e f) Q c.
Proof.
  intros Hok Hraise. unfold wp, query. destruct (se_faults e (cn_count c)) as [[err s]|] eqn:Hs; cbn; [|done].
  apply Hraise. by eexists _, _.
Qed.

Definition whole (n : nat) (c : connection) : Prop := cn_file c = migrated n ∧ cn_open c = None.

Lemma migrated_version n : (n ≤ 2)%nat → current_version (migrated n) = n.
Proof.
  intros Hn. destruct n as [|[|[|]]]; [done| | |lia]; unfold migrated;
    generalize (migration_checksum MIGRATION_1) (migration_checksum MIGRATION_2); intros c1 c2; vm_compute; reflexivity.
Qed.

Lemma stored_version_wp n c : (n ≤ 2)%nat → whole n c →
  wp (stored_version e) (λ c' r, whole n c' ∧ match r with Ok v => v = n | Raise err => struck err end) c.
Proof.
  intros Hn [Hf Ho]. unfold stored_version. apply wp_bind, query_wp; [|intros err Herr; by split].
  rewrite Ho, Hf. cbn [default]. destruct n as [|n].
  - by apply wp_ret.
  - rewrite bool_decide_eq_true_2 by (destruct n; by eexists). apply query_wp; [|intros err Herr; by split].
    cbn [tick cn_open cn_file]. rewrite Ho, Hf. cbn [default]. split; [done|by apply migrated_version].
Qed.

Lemma migrate_wp n c : (n ≤ 2)%nat → whole n c →
  wp (migrate e) (λ c' r, match r with
                          | Ok v => v = SCHEMA_VERSION ∧ whole 2 c'
                          | Raise err => (∃ k, (k ≤ 2)%nat ∧ cn_file c' = migrated k) ∧ struck err
                          end) c.
Proof.
  intros Hn Hc. unfold migrate. apply wp_bind. eapply wp_mono; [|by apply stored_version_wp].
  intros c1 [v|err] [H1 Hv]; [subst v|split; [by exists n; split; [|apply H1]|done]].
  rewrite decide_False by (unfold SCHEMA_VERSION; lia). apply wp_bind.
  destruct migration_changes as [M1 M2].
  assert (∀ c, whole 1 c → wp (apply_migration e 2 MIGRATION_2)
            (λ c' r, match r with
                     | Ok _ => whole 2 c'
                     | Raise err => (∃ k, (k ≤ 2)%nat ∧ cn_file c' = migrated k) ∧ struck err
                     end) c) as Hsecond.
  { intros c2 [Hf2 Ho2]. eapply wp_mono; [|by apply (migration_wp 2 _ (migrated 1) (migrated 2))].
    intros c' [u|err] Hc'; [done|]. destruct Hc' as [[Hk|Hk] Hs]; (split; [|done]); [exists 1%nat|exists 2%nat]; by split; [lia|]. }
  assert (∀ c, whole 1 c → wp (for_each (λ m, apply_migration e m.1 m.2) [(2%nat, MIGRATION_2)])
            (λ c' r, match r with
                     | Ok _ => whole 2 c'
                     | Raise err => (∃ k, (k ≤ 2)%nat ∧ cn_file c' = migrated k) ∧ struck err
                     end) c) as Htail.
  { intros c2 Hc2. cbn [for_each]. apply wp_bind. eapply wp_mono; [|by apply Hsecond]. by intros c' [u|err] Hc'. }
  assert (wp (for_each (λ m, apply_migration e m.1 m.2) (filter (λ m, n < m.1)%nat MIGRATIONS))
            (λ c' r, match r with
                     | Ok _ => whole 2 c'
                     | Raise err => (∃ k, (k ≤ 2)%nat ∧ cn_file c' = migrated k) ∧ struck err
                     end) c1) as Hall.
  { destruct n as [|[|[|]]]; [| | |lia].
    - change (filter (λ m : nat * list string, (0 < m.1)%nat) MIGRATIONS) with [(1%nat, MIGRATION_1); (2%nat, MIGRATION_2)].
      cbn [for_each fst snd]. apply wp_bind.
      eapply wp_mono; [|apply (migration_wp 1 _ (migrated 0) (migrated 1)); [exact M1|apply H1..]].
      intros c2 [u|err] Hc2; [by apply Htail|].
      destruct Hc2 as [[Hk|Hk] Hs]; (split; [|done]); [exists 0%nat|exists 1%nat]; by split; [lia|].
    - change (filter (λ m : nat * list string, (1 < m.1)%nat) MIGRATIONS) with [(2%nat, MIGRATION_2)]. by apply Htail.
    - change (filter (λ m : nat * list string, (2 < m.1)%nat) MIGRATIONS) with ([] : list (nat * list string)).
      by apply wp_ret. }
  eapply wp_mono; [|exact Hall]. intros c2 [u|err] Hc2; [apply wp_ret; by split|exact Hc2].
Qed.

Lemma query_versions_wp {A} (f : gmap nat string → A) rows c (Q : connection → result A → Prop) :
  versions (cn_file c) = Some rows → cn_open c = None →
  Q (tick c) (Ok (f rows)) → (∀ err, struck err → Q (tick c) (Raise err)) →
  wp (query_versions e f) Q c.
Proof.
  intros Hv Ho Hok Hraise. unfold query_versions. apply wp_bind, query_wp; [|done].
  rewrite Ho. cbn [default]. rewrite Hv. by apply wp_ret.
Qed.

Lemma whole_tick n c : whole n c → whole n (tick c).
Proof. done. Qed.

Lemma checksums_stored : versions (migrated 2) =
  Some (<[2%nat := migration_checksum MIGRATION_2]> {[1%nat := migration_checksum MIGRATION_1]}).
Proof. done. Qed.

Lemma max_migrated : max_version
  (<[2%nat := migration_checksum MIGRATION_2]> {[1%nat := migration_checksum MIGRATION_1]}) = SCHEMA_VERSION.
Proof. apply (migrated_version 2). lia. Qed.

Lemma verify_checksum_wp m c : whole 2 c →
  (∃ rows, versions (migrated 2) = Some rows ∧ rows !! m.1 = Some (migration_checksum m.2)) →
  wp (verify_checksum e m) (λ c' r, whole 2 c' ∧ match r with Ok _ => True | Raise err => struck err end) c.
Proof.
  intros Hc (rows & Hr & Hm). unfold verify_checksum. apply wp_bind.
  apply (query_versions_wp _ rows); [by destruct Hc as [-> _]|apply Hc| |by intros err Herr].
  apply wp_lift. rewrite bool_decide_eq_false_2; [by split; [apply whole_tick|]|]. rewrite Hm. auto.
Qed.

Lemma verify_schema_wp c : whole 2 c →
  wp (verify_schema e) (λ c' r, whole 2 c' ∧ match r with Ok v => v = SCHEMA_VERSION | Raise err => struck err end) c.
Proof.
  intros Hc. unfold verify_schema. apply wp_bind.
  eapply query_versions_wp; [destruct Hc as [-> _]; exact checksums_stored|apply Hc| |by intros err Herr].
  rewrite max_migrated.
  apply wp_bind, wp_lift. rewrite bool_decide_eq_false_2 by (intros Hn; by apply Hn). cbn [raise_if].
  apply wp_bind. eapply (wp_mono _ (λ c' r, whole 2 c' ∧ match r with Ok _ => True | Raise err => struck err end)).
  { intros c' [u|err] Hc'; [|done]. apply wp_ret. by destruct Hc'. }
  unfold MIGRATIONS. cbn [for_each].
  apply wp_bind. eapply wp_mono; [|apply verify_checksum_wp; [by apply whole_tick|by eexists; split]].
  intros c1 [u|err] Hc1; [|done]. apply wp_bind.
  eapply wp_mono; [|apply verify_checksum_wp; [apply Hc1|by eexists; split]].
  intros c2 [u2|err] Hc2; [|done]. by apply wp_ret.
Qed.

(** Why a start fails before its migrations. *)
Definition reported (err : exn) : Prop :=
  se_directory e = Raise err ∨ se_opened e = Raise err ∨
  (lower (se_journal_mode e) ≠ "wal" ∧
   err = StorageError ("could not enable WAL mode; SQLite returned " +:+ py_repr (se_journal_mode e))) ∨
  (se_foreign_keys e ≠ 1 ∧ err = StorageError "SQLite foreign key enforcement is disabled").

Definition corrupt (err : exn) : Prop :=
  se_quick_check e ≠ "ok" ∧ err = StorageCorruptionError ("SQLite quick_check failed: " +:+ se_quick_check e).

(** How the file is left by the end of a start. *)
Definition left_at (k : nat) (r : result unit) : Prop :=
  (k ≤ 2)%nat ∧ match r with
                | Ok _ => k = 2%nat ∧ se_quick_check e = "ok"
                | Raise err => struck err ∨ reported err ∨ k = 2%nat ∧ corrupt err
                end.

Definition unharmed (n : nat) : connection → result unit → Prop := λ c r,
  whole n c ∧ match r with Ok _ => True | Raise err => struck err ∨ reported err end.

Lemma connect_wp n c : whole n c → wp (connect e) (unharmed n) c.
Proof.
  intros Hc. unfold connect, pragma. apply wp_bind, wp_lift. destruct (se_opened e) as [u|err] eqn:Ho;
    [|split; [done|right; right; by left]].
  do 2 (apply wp_bind, query_wp; [|intros err Herr; split; [by apply whole_tick|by left]]).
  apply wp_bind, query_wp; [|intros err Herr; split; [by apply whole_tick|by left]].
  apply wp_bind, wp_lift. case_bool_decide as Hmode; cbn [raise_if]; [split; [by apply whole_tick|right; right; right; by left]|].
  do 3 (apply wp_bind, query_wp; [|intros err Herr; split; [by apply whole_tick|by left]]).
  apply wp_lift. split; [by apply whole_tick|]. case_bool_decide as Hkeys; cbn [raise_if]; [|done].
  right; right; right; by right.
Qed.

Lemma prepare_schema_wp n c : (n ≤ 2)%nat → whole n c →
  wp (prepare_schema e) (λ c' r, ∃ k, cn_file c' = migrated k ∧ left_at k r) c.
Proof.
  intros Hn Hc. unfold prepare_schema, left_at. apply wp_bind. eapply wp_mono; [|by apply (migrate_wp n)].
  intros c1 [v|err] H1; [|destruct H1 as [(k & Hk & Hf) Hs]; exists k; auto].
  destruct H1 as [_ H1]. apply wp_bind. eapply wp_mono; [|by apply verify_schema_wp].
  intros c2 [v2|err] [H2 Hv]; [|exists 2%nat; split_and!; [apply H2|lia|by left]].
  apply wp_bind, query_wp; [|intros err Herr; exists 2%nat; split_and!; [apply H2|lia|by left]].
  apply wp_lift. exists 2%nat. split_and!; [apply H2|lia|].
  case_bool_decide as Hok; cbn [raise_if]; [|split; [done|by destruct (decide (se_quick_check e = "ok"))]]. right. right. by split.
Qed.

(** A start leaves a whole number of migrations, and all of them when it
    succeeds; when it fails, something struck it or was reported to it. *)
Lemma initialize_cases n : (n ≤ 2)%nat → ∃ k,
  (initialize e false (migrated n)).1.2 = migrated k ∧ left_at k (initialize e false (migrated n)).2 ∧
  (initialize e false (migrated n)).1.1 = match (initialize e false (migrated n)).2 with Ok _ => true | Raise _ => false end.
Proof.
  intros Hn. unfold initialize. set (c := {| cn_file := migrated n; cn_open := None; cn_count := 0 |}).
  set (m := (_ ← lift (se_directory e); _ ← connect e; prepare_schema e) : comp connection unit).
  assert (wp m (λ c' r, ∃ k, cn_file c' = migrated k ∧ left_at k r) c) as Hwp.
  { apply wp_bind, wp_lift. destruct (se_directory e) as [u|err] eqn:Hd;
      [|exists n; split; [done|]; split; [done|right; left; by left]].
    apply wp_bind. eapply wp_mono; [|by apply (connect_wp n)]. intros c1 [u1|err] [H1 Hr];
      [by apply (prepare_schema_wp n)|]. exists n. split; [apply H1|]. split; [done|]. destruct Hr; auto. }
  unfold wp in Hwp. destruct (m c) as [c' r]. cbn in *. destruct Hwp as (k & Hf & Hr). exists k.
  split_and!; [done|done|by destruct r].
Qed.

End facts.

(** The process is started again and again, whatever befalls it. *)
Definition starts (l : list start_env) (file : schema) : schema :=
  foldl (λ file e, (initialize e false file).1.2) file l.

Lemma starts_migrated l : ∀ n, (n ≤ 2)%nat → ∃ k, (k ≤ 2)%nat ∧ starts l (migrated n) = migrated k.
Proof.
  induction l as [|e l IH]; intros n Hn; [by exists n|]. cbn [starts foldl].
  destruct (initialize_cases e n Hn) as (k & -> & [Hk _] & _). by apply IH.
Qed.

(** A start that nothing befalls, but for what the integrity check reports. *)
Record untroubled (e : start_env) : Prop := {
  un_faults : ∀ n, se_faults e n = None;
  un_directory : se_directory e = Ok tt;
  un_opened : se_opened e = Ok tt;
  un_journal : lower (se_journal_mode e) = "wal";
  un_keys : se_foreign_keys e = 1;
}.

(** What a file holds after the first [k] migrations. *)
Definition complete_to (k : nat) (file : schema) : Prop :=
  executed file = concat (take k [MIGRATION_1; MIGRATION_2]) ∧ user_version file = k ∧ current_version file = k ∧
  ∀ version, default ∅ (versions file) !! version =
    if decide (version ∈ seq 1 k) then migration_checksum <$> (MIGRATIONS.*2 !! (version - 1)%nat) else None.

Lemma migrated_complete k : (k ≤ 2)%nat → complete_to k (migrated k).
Proof.
  intros Hk. split_and!; [| |by apply migrated_version|].
  1-2: destruct k as [|[|[|]]]; [done..|lia].
  intros version. destruct k as [|[|[|]]]; [| | |lia]; cbn [migrated versions fresh_schema].
  - by rewrite decide_False by set_solver.
  - cbn. destruct (decide (version = 1%nat)) as [->|H1]; [by rewrite lookup_singleton_eq|].
    rewrite lookup_singleton_ne, decide_False; [done|set_solver|done].
  - cbn. destruct (decide (version = 2%nat)) as [->|H2]; [by rewrite lookup_insert_eq|]. rewrite lookup_insert_ne by done.
    destruct (decide (version = 1%nat)) as [->|H1]; [by rewrite lookup_singleton_eq|].
    rewrite lookup_singleton_ne, decide_False; [done|set_solver|done].
Qed.

Lemma untroubled_start e k : untroubled e → (k ≤ 2)%nat →
  (initialize e false (migrated k)).1.2 = migrated 2 ∧
  (initialize e false (migrated k)) =
    if decide (se_quick_check e = "ok") then ((true, migrated 2), Ok tt)
    else ((false, migrated 2), Raise (StorageCorruptionError ("SQLite quick_check failed: " +:+ se_quick_check e))).
Proof.
  intros [Hfaults Hdir Hopen Hwal Hkeys] Hk. destruct (initialize_cases e k Hk) as (k' & Hf & [_ Hr] & Hi).
  destruct (initialize e false (migrated k)) as [[i file] [u|err]]; cbn in *; subst.
  - destruct u, Hr as [-> Hq]. rewrite decide_True by done. done.
  - destruct Hr as [(n & s & Hs)|[[Hr|[Hr|[[Hr _]|[Hr _]]]]|[-> [Hq ->]]]]; try congruence.
    rewrite decide_False by done. done.
Qed.

(** C39: migrations resume: however often earlier starts, one after another, failed,
    whichever of their statements (the rollback included) raised and whether
    SQLite had executed it or ended the transaction, the file holds a whole number of migrations, each
    once and in order, with its checksum and the user version that belongs to
    them.  The next start that nothing befalls completes the rest and succeeds
    if the integrity check says so, and else is refused as corrupt. *)
Theorem migrations_resume (earlier : list start_env) (e : start_env) :
  let file := starts earlier fresh_schema in
  (∃ k, (k ≤ 2)%nat ∧ complete_to k file) ∧
  (untroubled e →
   complete_to 2 (initialize e false file).1.2 ∧
   if decide (se_quick_check e = "ok") then (initialize e false file).1.1 = true ∧ (initialize e false file).2 = Ok tt
   else (initialize e false file).1.1 = false ∧
        (initialize e false file).2 = Raise (StorageCorruptionError ("SQLite quick_check failed: " +:+ se_quick_check e))).
Proof.
  cbv zeta. destruct (starts_migrated earlier 0 ltac:(lia)) as (k & Hk & Hs).
  change (migrated 0) with fresh_schema in Hs. rewrite Hs. split; [exists k; split; [done|by apply migrated_complete]|].
  intros Hu. destruct (untroubled_start e k Hu Hk) as [Hf Hr]. split; [rewrite Hf; by apply migrated_complete|].
  rewrite Hr. by case_decide.
Qed.
End schema.

(** ** Concrete starts *)

(** A start whose statement number [n] is struck. *)
Definition demo_start (faults : nat → option fault) (quick_check : string) : start_env :=
  {| se_faults := faults; se_directory := Ok tt; se_opened := Ok tt; se_journal_mode := "wal"; se_foreign_keys := 1;
     se_quick_check := quick_check |}.

Definition demo_fault (n : nat) (s : strike) : nat → option fault := λ k,
  if decide (k = n) then Some (OperationalError "disk I/O error", s) else None.

(** A statement of the first migration fails, then its commit is interrupted,
    then the second migration is aborted. *)
Definition demo_earlier : list start_env :=
  [demo_start (demo_fault 12 NotExecuted) "ok"; demo_start (demo_fault 21 Executed) "ok";
   demo_start (demo_fault 14 TransactionAborted) "ok"].

Example demo_earlier_left :
  executed (starts id (take 1 demo_earlier) fresh_schema) = [] ∧
  executed (starts id (take 2 demo_earlier) fresh_schema) = MIGRATION_1 ∧
  executed (starts id demo_earlier fresh_schema) = MIGRATION_1.
Proof. vm_compute. done. Qed.

Lemma migrations_resume_witness :
  let start := demo_start (λ _, None) "ok" in
  let file := starts id demo_earlier fresh_schema in
  complete_to id 2 (initialize id start false file).1.2 ∧
  (initialize id start false file).1.1 = true ∧ (initialize id start false file).2 = Ok tt.
Proof.
  destruct (migrations_resume id demo_earlier (demo_start (λ _, None) "ok")) as [_ Hresume].
  apply Hresume. by split.
Defined.
