(* ===== verification/StorageRecords.v ===== *)
(** * The records handed to the storage writer ([storage/records.py])

    As in [Domain], a dataclass is a record with its numeric and time fields as
    type parameters, and [X_init] its constructor with the checks in the order
    of the source.  Dates are day numbers.  A mapping that a record carries is
    the JSON value [to_jsonable] makes of it. *)

From S2P Require Import Prelude PyStr PyDecimal PyTime Json Domain.
From Stdlib Require Import Ascii.

Local Open Scope string_scope.
Local Open Scope list_scope.
Local Open Scope Z_scope.

Definition utc_datetime (value : datetime) : result Z :=
  match value with
  | Naive _ => Raise (ValueError "storage timestamps must be timezone-aware")
  | Aware utc => Ok utc
  end.

Definition decimal_value (value : decimal_input) : result decimal :=
  match value with
  | DInvalid => Raise (ValueError "invalid decimal value")
  | DNonFinite => Raise (ValueError "non-finite numeric values cannot be persisted")
  | DFinite d => Ok d
  end.

Definition required_text (value field_name : string) : result string :=
  let text := strip value in
  _ ← raise_if (negb (truthy text)) (ValueError (field_name +:+ " must not be empty"));
  Ok text.

(** [encode_json]: the text is left as the value it denotes. *)
Definition encode_json (value : json) : result json :=
  _ ← raise_if (negb (json_finite value)) (ValueError "Out of range float values are not JSON compliant");
  Ok value.

Definition is_mapping (value : json) : bool := match value with JObject _ => true | _ => false end.

(** ** Prices *)

Record MinutePriceRecordOf (N T : Type) := {
  mp_symbol : string;
  mp_timestamp : T;
  mp_price : N;
  mp_provider : string;
  mp_is_derived : bool;
  mp_source : json;
}.
Arguments mp_symbol {N T}. Arguments mp_timestamp {N T}. Arguments mp_price {N T}.
Arguments mp_provider {N T}. Arguments mp_is_derived {N T}. Arguments mp_source {N T}.
Abbreviation MinutePriceRecord := (MinutePriceRecordOf decimal Z).

Definition MinutePriceRecord_init (r : MinutePriceRecordOf decimal_input datetime)
    : result MinutePriceRecord :=
  symbol ← required_text (mp_symbol r) "symbol";
  timestamp ← utc_datetime (mp_timestamp r);
  price ← decimal_value (mp_price r);
  provider ← required_text (mp_provider r) "provider";
  _ ← raise_if (negb (bool_decide (is_pos price))) (ValueError "price must be greater than zero");
  Ok {| mp_symbol := symbol; mp_timestamp := timestamp; mp_price := price; mp_provider := provider;
        mp_is_derived := mp_is_derived r; mp_source := mp_source r |}.

(** [from_domain] of a [PricePoint], which has no [source]. *)
Definition minute_from_domain (p : PricePoint) : result MinutePriceRecord :=
  MinutePriceRecord_init
    {| mp_symbol := pp_symbol p; mp_timestamp := Aware (pp_timestamp p);
       mp_price := DFinite (pp_price p); mp_provider := pp_provider p;
       mp_is_derived := pp_is_derived p; mp_source := JObject [] |}.

Record AggregatePriceRecordOf (N T : Type) := {
  ar_symbol : string;
  ar_bucket_start : T;
  ar_interval_seconds : Z;
  ar_open : N;
  ar_high : N;
  ar_low : N;
  ar_close : N;
  ar_sample_count : Z;
  ar_provider : string;
  ar_is_derived : bool;
  ar_source : json;
}.
Arguments ar_symbol {N T}. Arguments ar_bucket_start {N T}. Arguments ar_interval_seconds {N T}.
Arguments ar_open {N T}. Arguments ar_high {N T}. Arguments ar_low {N T}. Arguments ar_close {N T}.
Arguments ar_sample_count {N T}. Arguments ar_provider {N T}. Arguments ar_is_derived {N T}.
Arguments ar_source {N T}.
Abbreviation AggregatePriceRecord := (AggregatePriceRecordOf decimal Z).

Definition AggregatePriceRecord_init (r : AggregatePriceRecordOf decimal_input datetime)
    : result AggregatePriceRecord :=
  symbol ← required_text (ar_symbol r) "symbol";
  bucket_start ← utc_datetime (ar_bucket_start r);
  provider ← required_text (ar_provider r) "provider";
  open ← decimal_value (ar_open r);
  high ← decimal_value (ar_high r);
  low ← decimal_value (ar_low r);
  close ← decimal_value (ar_close r);
  _ ← raise_if (bool_decide (ar_interval_seconds r ≤ 0)) (ValueError "interval_seconds must be positive");
  _ ← raise_if (bool_decide (ar_sample_count r ≤ 0)) (ValueError "sample_count must be positive");
  _ ← raise_if (negb (bool_decide (is_pos (dmin (dmin open high) (dmin low close)))))
        (ValueError "OHLC prices must be greater than zero");
  _ ← raise_if (bool_decide (dlt high (dmax (dmax open low) close)))
        (ValueError "high is below another OHLC value");
  _ ← raise_if (bool_decide (dlt (dmin (dmin open high) close) low))
        (ValueError "low is above another OHLC value");
  Ok {| ar_symbol := symbol; ar_bucket_start := bucket_start;
        ar_interval_seconds := ar_interval_seconds r; ar_open := open; ar_high := high; ar_low := low;
        ar_close := close; ar_sample_count := ar_sample_count r; ar_provider := provider;
        ar_is_derived := ar_is_derived r; ar_source := ar_source r |}.

(** [from_domain] of an [AggregatePrice]. *)
Definition aggregate_from_domain (a : AggregatePrice) : result AggregatePriceRecord :=
  AggregatePriceRecord_init
    {| ar_symbol := ap_symbol a; ar_bucket_start := Aware (ap_bucket_start a);
       ar_interval_seconds := ap_interval_seconds a; ar_open := DFinite (ap_open a);
       ar_high := DFinite (ap_high a); ar_low := DFinite (ap_low a); ar_close := DFinite (ap_close a);
       ar_sample_count := ap_sample_count a; ar_provider := ap_provider a;
       ar_is_derived := ap_is_derived a; ar_source := JObject [] |}.

Record LatestSnapshotRecordOf (N T : Type) := {
  ls_symbol : string;
  ls_as_of : T;
  ls_payload : json;
  ls_price : option N;
}.
Arguments ls_symbol {N T}. Arguments ls_as_of {N T}. Arguments ls_payload {N T}.
Arguments ls_price {N T}.
Abbreviation LatestSnapshotRecord := (LatestSnapshotRecordOf decimal Z).

Definition LatestSnapshotRecord_init (r : LatestSnapshotRecordOf decimal_input datetime)
    : result LatestSnapshotRecord :=
  symbol ← required_text (ls_symbol r) "symbol";
  as_of ← utc_datetime (ls_as_of r);
  price ← option_result (λ v, d ← decimal_value v;
                              _ ← raise_if (negb (bool_decide (is_pos d)))
                                    (ValueError "snapshot price must be greater than zero");
                              Ok d) (ls_price r);
  _ ← raise_if (negb (is_mapping (ls_payload r))) (TypeError "snapshot payload must be a mapping");
  _ ← encode_json (ls_payload r);
  Ok {| ls_symbol := symbol; ls_as_of := as_of; ls_payload := ls_payload r; ls_price := price |}.

(** ** Dividends and yields *)

Record DividendEventRecordOf (N : Type) := {
  dr_symbol : string;
  dr_ex_date : Z;
  dr_amount : N;
  dr_currency : string;
  dr_frequency : string;
  dr_provider : string;
  dr_payment_date : option Z;
  dr_event_type : string;
  dr_is_special : bool;
  dr_raw : json;
}.
Arguments dr_symbol {N}. Arguments dr_ex_date {N}. Arguments dr_amount {N}. Arguments dr_currency {N}.
Arguments dr_frequency {N}. Arguments dr_provider {N}. Arguments dr_payment_date {N}.
Arguments dr_event_type {N}. Arguments dr_is_special {N}. Arguments dr_raw {N}.
Abbreviation DividendEventRecord := (DividendEventRecordOf decimal).

Definition DividendEventRecord_init (r : DividendEventRecordOf decimal_input)
    : result DividendEventRecord :=
  symbol ← required_text (dr_symbol r) "symbol";
  amount ← decimal_value (dr_amount r);
  currency ← required_text (dr_currency r) "currency";
  frequency ← required_text (dr_frequency r) "frequency";
  provider ← required_text (dr_provider r) "provider";
  event_type ← required_text (dr_event_type r) "event_type";
  _ ← raise_if (bool_decide (is_neg amount)) (ValueError "dividend amount cannot be negative");
  _ ← encode_json (dr_raw r);
  Ok {| dr_symbol := symbol; dr_ex_date := dr_ex_date r; dr_amount := amount; dr_currency := currency;
        dr_frequency := frequency; dr_provider := provider; dr_payment_date := dr_payment_date r;
        dr_event_type := event_type; dr_is_special := dr_is_special r; dr_raw := dr_raw r |}.

Record YieldMetricRecordOf (N T : Type) := {
  yr_symbol : string;
  yr_as_of : T;
  yr_annual_percent : N;
  yr_method : string;
  yr_provider : string;
  yr_is_proxy : bool;
  yr_source_series : option string;
  yr_raw : json;
}.
Arguments yr_symbol {N T}. Arguments yr_as_of {N T}. Arguments yr_annual_percent {N T}.
Arguments yr_method {N T}. Arguments yr_provider {N T}. Arguments yr_is_proxy {N T}.
Arguments yr_source_series {N T}. Arguments yr_raw {N T}.
Abbreviation YieldMetricRecord := (YieldMetricRecordOf decimal Z).

Definition YieldMetricRecord_init (r : YieldMetricRecordOf decimal_input datetime)
    : result YieldMetricRecord :=
  symbol ← required_text (yr_symbol r) "symbol";
  as_of ← utc_datetime (yr_as_of r);
  percent ← decimal_value (yr_annual_percent r);
  method ← required_text (yr_method r) "method";
  provider ← required_text (yr_provider r) "provider";
  series ← option_result (λ s, required_text s "source_series") (yr_source_series r);
  _ ← encode_json (yr_raw r);
  Ok {| yr_symbol := symbol; yr_as_of := as_of; yr_annual_percent := percent; yr_method := method;
        yr_provider := provider; yr_is_proxy := yr_is_proxy r; yr_source_series := series;
        yr_raw := yr_raw r |}.

(** ** Checkpoints, keys and audit events *)

Record ProviderCheckpointRecordOf (T : Type) := {
  pr_provider : string;
  pr_feed : string;
  pr_updated_at : T;
  pr_checkpoint : json;
}.
Arguments pr_provider {T}. Arguments pr_feed {T}. Arguments pr_updated_at {T}.
Arguments pr_checkpoint {T}.
Abbreviation ProviderCheckpointRecord := (ProviderCheckpointRecordOf Z).

Definition ProviderCheckpointRecord_init (r : ProviderCheckpointRecordOf datetime)
    : result ProviderCheckpointRecord :=
  provider ← required_text (pr_provider r) "provider";
  feed ← required_text (pr_feed r) "feed";
  updated_at ← utc_datetime (pr_updated_at r);
  _ ← raise_if (negb (is_mapping (pr_checkpoint r))) (TypeError "checkpoint must be a mapping");
  _ ← encode_json (pr_checkpoint r);
  Ok {| pr_provider := provider; pr_feed := feed; pr_updated_at := updated_at;
        pr_checkpoint := pr_checkpoint r |}.

Record ApiKeyRecordOf (T : Type) := {
  ak_key_id : string;
  ak_name : string;
  ak_key_hash : string;
  ak_key_hint : option string;
  ak_created_at : T;
  ak_updated_at : T;
  ak_expires_at : option T;
  ak_revoked_at : option T;
  ak_origin : string;
}.
Arguments ak_key_id {T}. Arguments ak_name {T}. Arguments ak_key_hash {T}. Arguments ak_key_hint {T}.
Arguments ak_created_at {T}. Arguments ak_updated_at {T}. Arguments ak_expires_at {T}.
Arguments ak_revoked_at {T}. Arguments ak_origin {T}.
Abbreviation ApiKeyRecord := (ApiKeyRecordOf Z).

#[export] Instance ApiKeyRecord_eq_dec : EqDecision ApiKeyRecord.
Proof. solve_decision. Defined.

Definition hex_char (c : ascii) : bool := is_digit c || bool_decide (97 ≤ code c ≤ 102).

(** [^sha256:[0-9a-f]{64}$] *)
Definition api_key_hash_pattern (text : string) : bool :=
  let digest := String.substring 7 (String.length text - 7) text in
  startswith "sha256:" text && str_all hex_char digest && bool_decide (String.length digest = 64%nat).

Definition API_KEY_ORIGINS : list string := ["generated"; "imported"; "legacy"].

Definition ApiKeyRecord_init (r : ApiKeyRecordOf datetime) : result ApiKeyRecord :=
  key_id ← required_text (ak_key_id r) "key_id";
  name ← required_text (ak_name r) "name";
  _ ← raise_if (bool_decide (80 < String.length name)%nat)
        (ValueError "API key name cannot exceed 80 characters");
  let key_hash := lower (strip (ak_key_hash r)) in
  _ ← raise_if (negb (api_key_hash_pattern key_hash))
        (ValueError "key_hash must use sha256:<64 lowercase hex chars>");
  hint ← option_result (λ h, t ← required_text h "key_hint";
                             _ ← raise_if (bool_decide (32 < String.length t)%nat)
                                   (ValueError "API key hint cannot exceed 32 characters");
                             Ok t) (ak_key_hint r);
  created_at ← utc_datetime (ak_created_at r);
  updated_at ← utc_datetime (ak_updated_at r);
  expires_at ← option_result utc_datetime (ak_expires_at r);
  revoked_at ← option_result utc_datetime (ak_revoked_at r);
  let origin := lower (strip (ak_origin r)) in
  _ ← raise_if (negb (bool_decide (origin ∈ API_KEY_ORIGINS)))
        (ValueError ("unsupported API key origin: " +:+ py_repr origin));
  Ok {| ak_key_id := key_id; ak_name := name; ak_key_hash := key_hash; ak_key_hint := hint;
        ak_created_at := created_at; ak_updated_at := updated_at; ak_expires_at := expires_at;
        ak_revoked_at := revoked_at; ak_origin := origin |}.

Record AdminAuditEventRecordOf (T : Type) := {
  av_event_id : string;
  av_occurred_at : T;
  av_request_id : string;
  av_client_ip : string;
  av_action : string;
  av_target_type : string;
  av_target_id : option string;
  av_details : json;
}.
Arguments av_event_id {T}. Arguments av_occurred_at {T}. Arguments av_request_id {T}.
Arguments av_client_ip {T}. Arguments av_action {T}. Arguments av_target_type {T}.
Arguments av_target_id {T}. Arguments av_details {T}.
Abbreviation AdminAuditEventRecord := (AdminAuditEventRecordOf Z).

Definition AdminAuditEventRecord_init (r : AdminAuditEventRecordOf datetime)
    : result AdminAuditEventRecord :=
  event_id ← required_text (av_event_id r) "event_id";
  request_id ← required_text (av_request_id r) "request_id";
  client_ip ← required_text (av_client_ip r) "client_ip";
  action ← required_text (av_action r) "action";
  target_type ← required_text (av_target_type r) "target_type";
  occurred_at ← utc_datetime (av_occurred_at r);
  target_id ← option_result (λ t, required_text t "target_id") (av_target_id r);
  _ ← raise_if (negb (is_mapping (av_details r))) (TypeError "audit details must be a mapping");
  _ ← encode_json (av_details r);
  Ok {| av_event_id := event_id; av_occurred_at := occurred_at; av_request_id := request_id;
        av_client_ip := client_ip; av_action := action; av_target_type := target_type;
        av_target_id := target_id; av_details := av_details r |}.

(** ** Commands *)

Record UpdateApiKeyCommandOf (T : Type) := {
  uk_key_id : string;
  uk_name : string;
  uk_expires_at : option T;
  uk_updated_at : T;
  uk_audit : AdminAuditEventRecord;
}.
Arguments uk_key_id {T}. Arguments uk_name {T}. Arguments uk_expires_at {T}.
Arguments uk_updated_at {T}. Arguments uk_audit {T}.
Abbreviation UpdateApiKeyCommand := (UpdateApiKeyCommandOf Z).

Definition UpdateApiKeyCommand_init (r : UpdateApiKeyCommandOf datetime) : result UpdateApiKeyCommand :=
  key_id ← required_text (uk_key_id r) "key_id";
  name ← required_text (uk_name r) "name";
  _ ← raise_if (bool_decide (80 < String.length name)%nat)
        (ValueError "API key name cannot exceed 80 characters");
  expires_at ← option_result utc_datetime (uk_expires_at r);
  updated_at ← utc_datetime (uk_updated_at r);
  Ok {| uk_key_id := key_id; uk_name := name; uk_expires_at := expires_at;
        uk_updated_at := updated_at; uk_audit := uk_audit r |}.

Record RevokeApiKeyCommandOf (T : Type) := {
  rk_key_id : string;
  rk_revoked_at : T;
  rk_audit : AdminAuditEventRecord;
}.
Arguments rk_key_id {T}. Arguments rk_revoked_at {T}. Arguments rk_audit {T}.
Abbreviation RevokeApiKeyCommand := (RevokeApiKeyCommandOf Z).

Definition RevokeApiKeyCommand_init (r : RevokeApiKeyCommandOf datetime) : result RevokeApiKeyCommand :=
  key_id ← required_text (rk_key_id r) "key_id";
  revoked_at ← utc_datetime (rk_revoked_at r);
  Ok {| rk_key_id := key_id; rk_revoked_at := revoked_at; rk_audit := rk_audit r |}.

Record CleanupCommand := {
  cc_minute_before : Z;
  cc_aggregate_before : Z;
  cc_daily_before : Z;
}.

(** [ImportApiKeysCommand.__post_init__] *)
Definition import_records (records : list ApiKeyRecord) : result (list ApiKeyRecord) :=
  _ ← raise_if (bool_decide (records = [])) (ValueError "API key import cannot be empty");
  Ok records.

Inductive WriteCommand :=
| WMinutePrice (r : MinutePriceRecord)
| WAggregatePrice (r : AggregatePriceRecord)
| WLatestSnapshot (r : LatestSnapshotRecord)
| WDividendEvent (r : DividendEventRecord)
| WYieldMetric (r : YieldMetricRecord)
| WProviderCheckpoint (r : ProviderCheckpointRecord)
| WApiKey (r : ApiKeyRecord)
| WAdminAuditEvent (r : AdminAuditEventRecord)
| WBootstrapApiKeys (records : list ApiKeyRecord) (completed_at : Z)
| WImportApiKeys (records : list ApiKeyRecord) (audit : AdminAuditEventRecord)
| WUpdateApiKey (c : UpdateApiKeyCommand)
| WRevokeApiKey (c : RevokeApiKeyCommand)
| WCleanup (c : CleanupCommand).

Record CleanupResult := {
  cl_minute_prices_deleted : nat;
  cl_aggregate_prices_deleted : nat;
  cl_dividend_events_deleted : nat;
  cl_yield_metrics_deleted : nat;
}.

Inductive WriteOutcome :=
| WriteResult (rows_affected : nat)
| Cleaned (r : CleanupResult).
