(* ===== verification/Service.v ===== *)
(** * The publication service ([service.py])

    [QuickPriceService] receives quotes, histories, dividends and yields from the
    collectors, keeps the market state of the current generation, rebuilds the
    snapshot of a symbol whenever one of its inputs changes, and answers the
    HTTP handlers from memory.  A method is a computation ([PyState.comp]) over
    the service; the synchronous ones run on the event loop without a pause, so
    each is one transition.  Clock readings are arguments.  The states of the
    generations are objects on a heap, [sv_states], since two generations may
    share one; all of them share the one history cache.  What is handed to the
    storage is the list [sv_saved]. *)

From S2P Require Import Prelude PyStr PyDecimal PyTime PyState Json Domain PluginApi Registry Market Analytics.
From S2P Require Import Staking Cache Quota StorageRecords Wire Runtime.
From Stdlib Require Import QArith Qround.

Local Open Scope string_scope.
Local Open Scope list_scope.
Local Open Scope Z_scope.

(** ** State *)

(** What the environment provides: the string hash of the interpreter, the New
    York wall clock of an instant and the instant of a wall clock, and [float()]
    of a text. *)
Class ServiceWorld := {
  sw_hash : string → Z;
  sw_ny_wall : Z → Z;
  sw_ny_utc : Z → Z;
  sw_float_text : string → option Q;
}.

(** The settings that the service reads. *)
Record settings := {
  se_metadata_poll_seconds : Z;
  se_require_free_threaded : bool;
  se_background_enabled : bool;
  se_api_key_hashes : list string;
}.

(** [DataUnavailableError] *)
Definition DataUnavailableError (symbol reason : string) : exn :=
  NamedError "DataUnavailableError" (symbol +:+ ": " +:+ reason).

(** [_RuntimeDataState], without the history: every state of the service shares
    one history cache. *)
Record data_state := {
  ds_snapshots : SnapshotStore.t;
  ds_dividends : gmap string DividendEvent;
  ds_yield_metrics : gmap string YieldMetric;
  ds_yield_stale_after : gmap string Z;
  ds_last_quotes : gmap string ProviderQuote;
  ds_source_failures : gset string;
  ds_wire_cache : gmap string QuoteModel;
  ds_complete_symbols : gset string;
  ds_active_aggregates : gmap string AggregatePrice;
}.

Definition set_ds_snapshots (v : SnapshotStore.t) (x : data_state) : data_state :=
  {| ds_snapshots := v; ds_dividends := ds_dividends x; ds_yield_metrics := ds_yield_metrics
     x; ds_yield_stale_after := ds_yield_stale_after x; ds_last_quotes := ds_last_quotes x;
     ds_source_failures := ds_source_failures x; ds_wire_cache := ds_wire_cache x;
     ds_complete_symbols := ds_complete_symbols x; ds_active_aggregates :=
     ds_active_aggregates x |}.

Definition set_ds_dividends (v : gmap string DividendEvent) (x : data_state) : data_state :=
  {| ds_snapshots := ds_snapshots x; ds_dividends := v; ds_yield_metrics := ds_yield_metrics
     x; ds_yield_stale_after := ds_yield_stale_after x; ds_last_quotes := ds_last_quotes x;
     ds_source_failures := ds_source_failures x; ds_wire_cache := ds_wire_cache x;
     ds_complete_symbols := ds_complete_symbols x; ds_active_aggregates :=
     ds_active_aggregates x |}.

Definition set_ds_yield_metrics (v : gmap string YieldMetric) (x : data_state) : data_state :=
  {| ds_snapshots := ds_snapshots x; ds_dividends := ds_dividends x; ds_yield_metrics := v;
     ds_yield_stale_after := ds_yield_stale_after x; ds_last_quotes := ds_last_quotes x;
     ds_source_failures := ds_source_failures x; ds_wire_cache := ds_wire_cache x;
     ds_complete_symbols := ds_complete_symbols x; ds_active_aggregates :=
     ds_active_aggregates x |}.

Definition set_ds_yield_stale_after (v : gmap string Z) (x : data_state) : data_state :=
  {| ds_snapshots := ds_snapshots x; ds_dividends := ds_dividends x; ds_yield_metrics :=
     ds_yield_metrics x; ds_yield_stale_after := v; ds_last_quotes := ds_last_quotes x;
     ds_source_failures := ds_source_failures x; ds_wire_cache := ds_wire_cache x;
     ds_complete_symbols := ds_complete_symbols x; ds_active_aggregates :=
     ds_active_aggregates x |}.

Definition set_ds_last_quotes (v : gmap string ProviderQuote) (x : data_state) : data_state :=
  {| ds_snapshots := ds_snapshots x; ds_dividends := ds_dividends x; ds_yield_metrics :=
     ds_yield_metrics x; ds_yield_stale_after := ds_yield_stale_after x; ds_last_quotes := v;
     ds_source_failures := ds_source_failures x; ds_wire_cache := ds_wire_cache x;
     ds_complete_symbols := ds_complete_symbols x; ds_active_aggregates :=
     ds_active_aggregates x |}.

Definition set_ds_source_failures (v : gset string) (x : data_state) : data_state :=
  {| ds_snapshots := ds_snapshots x; ds_dividends := ds_dividends x; ds_yield_metrics :=
     ds_yield_metrics x; ds_yield_stale_after := ds_yield_stale_after x; ds_last_quotes :=
     ds_last_quotes x; ds_source_failures := v; ds_wire_cache := ds_wire_cache x;
     ds_complete_symbols := ds_complete_symbols x; ds_active_aggregates :=
     ds_active_aggregates x |}.

Definition set_ds_wire_cache (v : gmap string QuoteModel) (x : data_state) : data_state :=
  {| ds_snapshots := ds_snapshots x; ds_dividends := ds_dividends x; ds_yield_metrics :=
     ds_yield_metrics x; ds_yield_stale_after := ds_yield_stale_after x; ds_last_quotes :=
     ds_last_quotes x; ds_source_failures := ds_source_failures x; ds_wire_cache := v;
     ds_complete_symbols := ds_complete_symbols x; ds_active_aggregates :=
     ds_active_aggregates x |}.

Definition set_ds_complete_symbols (v : gset string) (x : data_state) : data_state :=
  {| ds_snapshots := ds_snapshots x; ds_dividends := ds_dividends x; ds_yield_metrics :=
     ds_yield_metrics x; ds_yield_stale_after := ds_yield_stale_after x; ds_last_quotes :=
     ds_last_quotes x; ds_source_failures := ds_source_failures x; ds_wire_cache :=
     ds_wire_cache x; ds_complete_symbols := v; ds_active_aggregates := ds_active_aggregates
     x |}.

Definition set_ds_active_aggregates (v : gmap string AggregatePrice) (x : data_state) : data_state :=
  {| ds_snapshots := ds_snapshots x; ds_dividends := ds_dividends x; ds_yield_metrics :=
     ds_yield_metrics x; ds_yield_stale_after := ds_yield_stale_after x; ds_last_quotes :=
     ds_last_quotes x; ds_source_failures := ds_source_failures x; ds_wire_cache :=
     ds_wire_cache x; ds_complete_symbols := ds_complete_symbols x; ds_active_aggregates := v |}.

Definition fresh_data_state : data_state :=
  {| ds_snapshots := {| SnapshotStore.shards := replicate 64 ∅ |}; ds_dividends := ∅;
     ds_yield_metrics := ∅; ds_yield_stale_after := ∅; ds_last_quotes := ∅;
     ds_source_failures := ∅; ds_wire_cache := ∅; ds_complete_symbols := ∅;
     ds_active_aggregates := ∅ |}.

(** A value handed to the storage by [_persist] or [_persist_history]. *)
Inductive saved :=
| SavedPrice (p : PricePoint)
| SavedAggregate (a : AggregatePrice)
| SavedDividend (e : DividendEvent)
| SavedYield (m : YieldMetric) (stale_after_seconds : Z)
| SavedSnapshot (s : QuoteSnapshot)
| SavedHistory (points : list PricePoint).

(** What readiness reads of the collector. *)
Record coordinator := {
  co_running : bool;
  co_fatal_error : option exn;
}.

(** [QuickPriceService] *)
Record Service := {
  sv_settings : settings;
  sv_generations : RuntimeGenerationManager;
  sv_states : list data_state;
  sv_history : HistoryCache.t;
  sv_bound : nat;
  sv_provider_checkpoints : gmap (string * string) ProviderCheckpointRecord;
  sv_provider_quotas : gmap string Z;
  sv_ledgers : gmap Z (QuotaBudget.config * QuotaBudget.t);
  sv_storage : bool;
  sv_storage_ready : bool;
  sv_saved : list saved;
  sv_runtime_status : option FreeThreadedStatus;
  sv_coordinator : option coordinator;
  sv_collector_start_error : option exn;
  sv_api_key_configured : option bool;
}.

Definition set_sv_generations (v : RuntimeGenerationManager) (x : Service) : Service :=
  {| sv_settings := sv_settings x; sv_generations := v; sv_states := sv_states x; sv_history
     := sv_history x; sv_bound := sv_bound x; sv_provider_checkpoints :=
     sv_provider_checkpoints x; sv_provider_quotas := sv_provider_quotas x; sv_ledgers :=
     sv_ledgers x; sv_storage := sv_storage x; sv_storage_ready := sv_storage_ready x;
     sv_saved := sv_saved x; sv_runtime_status := sv_runtime_status x; sv_coordinator :=
     sv_coordinator x; sv_collector_start_error := sv_collector_start_error x;
     sv_api_key_configured := sv_api_key_configured x |}.

Definition set_sv_states (v : list data_state) (x : Service) : Service :=
  {| sv_settings := sv_settings x; sv_generations := sv_generations x; sv_states := v;
     sv_history := sv_history x; sv_bound := sv_bound x; sv_provider_checkpoints :=
     sv_provider_checkpoints x; sv_provider_quotas := sv_provider_quotas x; sv_ledgers :=
     sv_ledgers x; sv_storage := sv_storage x; sv_storage_ready := sv_storage_ready x;
     sv_saved := sv_saved x; sv_runtime_status := sv_runtime_status x; sv_coordinator :=
     sv_coordinator x; sv_collector_start_error := sv_collector_start_error x;
     sv_api_key_configured := sv_api_key_configured x |}.

Definition set_sv_history (v : HistoryCache.t) (x : Service) : Service :=
  {| sv_settings := sv_settings x; sv_generations := sv_generations x; sv_states := sv_states
     x; sv_history := v; sv_bound := sv_bound x; sv_provider_checkpoints :=
     sv_provider_checkpoints x; sv_provider_quotas := sv_provider_quotas x; sv_ledgers :=
     sv_ledgers x; sv_storage := sv_storage x; sv_storage_ready := sv_storage_ready x;
     sv_saved := sv_saved x; sv_runtime_status := sv_runtime_status x; sv_coordinator :=
     sv_coordinator x; sv_collector_start_error := sv_collector_start_error x;
     sv_api_key_configured := sv_api_key_configured x |}.

Definition set_sv_bound (v : nat) (x : Service) : Service :=
  {| sv_settings := sv_settings x; sv_generations := sv_generations x; sv_states := sv_states
     x; sv_history := sv_history x; sv_bound := v; sv_provider_checkpoints :=
     sv_provider_checkpoints x; sv_provider_quotas := sv_provider_quotas x; sv_ledgers :=
     sv_ledgers x; sv_storage := sv_storage x; sv_storage_ready := sv_storage_ready x;
     sv_saved := sv_saved x; sv_runtime_status := sv_runtime_status x; sv_coordinator :=
     sv_coordinator x; sv_collector_start_error := sv_collector_start_error x;
     sv_api_key_configured := sv_api_key_configured x |}.

Definition set_sv_provider_checkpoints (v : gmap (string * string) ProviderCheckpointRecord) (x : Service) : Service :=
  {| sv_settings := sv_settings x; sv_generations := sv_generations x; sv_states := sv_states
     x; sv_history := sv_history x; sv_bound := sv_bound x; sv_provider_checkpoints := v;
     sv_provider_quotas := sv_provider_quotas x; sv_ledgers := sv_ledgers x; sv_storage :=
     sv_storage x; sv_storage_ready := sv_storage_ready x; sv_saved := sv_saved x;
     sv_runtime_status := sv_runtime_status x; sv_coordinator := sv_coordinator x;
     sv_collector_start_error := sv_collector_start_error x; sv_api_key_configured :=
     sv_api_key_configured x |}.

Definition set_sv_provider_quotas (v : gmap string Z) (x : Service) : Service :=
  {| sv_settings := sv_settings x; sv_generations := sv_generations x; sv_states := sv_states
     x; sv_history := sv_history x; sv_bound := sv_bound x; sv_provider_checkpoints :=
     sv_provider_checkpoints x; sv_provider_quotas := v; sv_ledgers := sv_ledgers x;
     sv_storage := sv_storage x; sv_storage_ready := sv_storage_ready x; sv_saved := sv_saved
     x; sv_runtime_status := sv_runtime_status x; sv_coordinator := sv_coordinator x;
     sv_collector_start_error := sv_collector_start_error x; sv_api_key_configured :=
     sv_api_key_configured x |}.

Definition set_sv_ledgers (v : gmap Z (QuotaBudget.config * QuotaBudget.t)) (x : Service) : Service :=
  {| sv_settings := sv_settings x; sv_generations := sv_generations x; sv_states := sv_states
     x; sv_history := sv_history x; sv_bound := sv_bound x; sv_provider_checkpoints :=
     sv_provider_checkpoints x; sv_provider_quotas := sv_provider_quotas x; sv_ledgers := v;
     sv_storage := sv_storage x; sv_storage_ready := sv_storage_ready x; sv_saved := sv_saved
     x; sv_runtime_status := sv_runtime_status x; sv_coordinator := sv_coordinator x;
     sv_collector_start_error := sv_collector_start_error x; sv_api_key_configured :=
     sv_api_key_configured x |}.

Definition set_sv_storage_ready (v : bool) (x : Service) : Service :=
  {| sv_settings := sv_settings x; sv_generations := sv_generations x; sv_states := sv_states
     x; sv_history := sv_history x; sv_bound := sv_bound x; sv_provider_checkpoints :=
     sv_provider_checkpoints x; sv_provider_quotas := sv_provider_quotas x; sv_ledgers :=
     sv_ledgers x; sv_storage := sv_storage x; sv_storage_ready := v; sv_saved := sv_saved x;
     sv_runtime_status := sv_runtime_status x; sv_coordinator := sv_coordinator x;
     sv_collector_start_error := sv_collector_start_error x; sv_api_key_configured :=
     sv_api_key_configured x |}.

Definition set_sv_saved (v : list saved) (x : Service) : Service :=
  {| sv_settings := sv_settings x; sv_generations := sv_generations x; sv_states := sv_states
     x; sv_history := sv_history x; sv_bound := sv_bound x; sv_provider_checkpoints :=
     sv_provider_checkpoints x; sv_provider_quotas := sv_provider_quotas x; sv_ledgers :=
     sv_ledgers x; sv_storage := sv_storage x; sv_storage_ready := sv_storage_ready x;
     sv_saved := v; sv_runtime_status := sv_runtime_status x; sv_coordinator :=
     sv_coordinator x; sv_collector_start_error := sv_collector_start_error x;
     sv_api_key_configured := sv_api_key_configured x |}.

Definition set_sv_coordinator (v : option coordinator) (x : Service) : Service :=
  {| sv_settings := sv_settings x; sv_generations := sv_generations x; sv_states := sv_states
     x; sv_history := sv_history x; sv_bound := sv_bound x; sv_provider_checkpoints :=
     sv_provider_checkpoints x; sv_provider_quotas := sv_provider_quotas x; sv_ledgers :=
     sv_ledgers x; sv_storage := sv_storage x; sv_storage_ready := sv_storage_ready x;
     sv_saved := sv_saved x; sv_runtime_status := sv_runtime_status x; sv_coordinator := v;
     sv_collector_start_error := sv_collector_start_error x; sv_api_key_configured :=
     sv_api_key_configured x |}.

Definition set_sv_collector_start_error (v : option exn) (x : Service) : Service :=
  {| sv_settings := sv_settings x; sv_generations := sv_generations x; sv_states := sv_states
     x; sv_history := sv_history x; sv_bound := sv_bound x; sv_provider_checkpoints :=
     sv_provider_checkpoints x; sv_provider_quotas := sv_provider_quotas x; sv_ledgers :=
     sv_ledgers x; sv_storage := sv_storage x; sv_storage_ready := sv_storage_ready x;
     sv_saved := sv_saved x; sv_runtime_status := sv_runtime_status x; sv_coordinator :=
     sv_coordinator x; sv_collector_start_error := v; sv_api_key_configured :=
     sv_api_key_configured x |}.

Section service.
Context `{ServiceWorld}.

(** ** Generations and their states *)

Definition capture_generation (s : Service) : RuntimeGeneration := capture (sv_generations s).

Definition service_registry (s : Service) : Registry := gn_registry (capture_generation s).

Definition state_at (s : Service) (loc : nat) : option data_state := sv_states s !! loc.

(** [_state_for_generation]: the location of the state, which must be there. *)
Definition state_for_generation (g : RuntimeGeneration) : comp Service nat := λ s,
  match gn_data_state g with
  | Some loc =>
    if decide (is_Some (state_at s loc)) then (s, Ok loc)
    else (s, Raise (RuntimeError "runtime generation has no market state"))
  | None => (s, Raise (RuntimeError "runtime generation has no market state"))
  end.

(** Reading and writing the object at a location. *)
Definition read_state {A} (loc : nat) (f : data_state → A) : comp Service A :=
  gets (λ s, f (default fresh_data_state (state_at s loc))).

Definition write_state (loc : nat) (f : data_state → data_state) : comp Service unit :=
  modify (λ s, set_sv_states (alter f loc (sv_states s)) s).

(** [is_generation_current] *)
Definition is_generation_current (s : Service) (generation_id : option string) : bool :=
  is_current (sv_generations s) generation_id.

(** [_publication_context]: nothing when the caller's generation was replaced. *)
Definition publication_context (generation_id : option string)
    : comp Service (option (RuntimeGeneration * nat)) :=
  generation ← gets capture_generation;
  let replaced :=
    match generation_id with
    | Some id => bool_decide (gn_generation_id generation ≠ id)
    | None => false
    end in
  if replaced then mret None
  else
    loc ← state_for_generation generation;
    mret (Some (generation, loc)).

(** ** Persistence *)

(** [_persist]: nothing without a storage. *)
Definition persist (v : saved) : comp Service unit :=
  modify (λ s, if sv_storage s then set_sv_saved (sv_saved s ++ [v]) s else s).

(** [_persist_history] *)
Definition persist_history (points : list PricePoint) : comp Service unit :=
  persist (SavedHistory points).

(** [_persistence_done]: whether the task was cancelled or raised. *)
Definition persistence_done (failed : bool) : comp Service unit :=
  when failed (modify (set_sv_storage_ready false)).

(** The checks of [YieldMetricRecord] that a validated metric can fail. *)
Definition yield_recordable (m : YieldMetric) : bool :=
  truthy (strip (ym_symbol m)) && truthy (strip (ym_method m)) && truthy (strip (ym_provider m)).

(** [_persist_yield_metric] *)
Definition persist_yield_metric (m : YieldMetric) (stale_after_seconds : Z) : comp Service unit :=
  if yield_recordable m then persist (SavedYield m stale_after_seconds)
  else modify (set_sv_storage_ready false).

(** ** Buckets and aggregates *)

(** [_five_minute_bucket] *)
Definition five_minute_bucket (timestamp : Z) : Z :=
  replace_minute (minute_of timestamp - minute_of timestamp mod 5) timestamp.

(** [_aggregate_bucket]: the start of the bucket and its length in seconds. *)
Definition aggregate_bucket (point : PricePoint) : result (Z * Z) :=
  if decide (pp_interval point = "5m") then Ok (five_minute_bucket (pp_timestamp point), 300)
  else if decide (pp_interval point = "1d") then Ok (pp_timestamp point, 86400)
  else Raise (ValueError ("unsupported aggregate interval: " +:+ pp_interval point)).

(** The aggregate that [_update_aggregate] builds over the current one. *)
Definition next_aggregate (current : option AggregatePrice) (point : PricePoint)
    : result AggregatePrice :=
  let bucket := five_minute_bucket (pp_timestamp point) in
  let fresh :=
    {| ap_symbol := pp_symbol point; ap_bucket_start := Aware bucket; ap_interval_seconds := 300;
       ap_open := DFinite (pp_price point); ap_high := DFinite (pp_price point);
       ap_low := DFinite (pp_price point); ap_close := DFinite (pp_price point);
       ap_sample_count := 1; ap_provider := pp_provider point;
       ap_is_derived := pp_is_derived point |} in
  AggregatePrice_init
    match current with
    | None => fresh
    | Some c =>
      if decide (ap_bucket_start c = bucket) then
        {| ap_symbol := pp_symbol point; ap_bucket_start := Aware bucket;
           ap_interval_seconds := 300; ap_open := DFinite (ap_open c);
           ap_high := DFinite (dmax (ap_high c) (pp_price point));
           ap_low := DFinite (dmin (ap_low c) (pp_price point));
           ap_close := DFinite (pp_price point);
           ap_sample_count := ap_sample_count c + 1; ap_provider := pp_provider point;
           ap_is_derived := pp_is_derived point |}
      else fresh
    end.

(** [_update_aggregate] *)
Definition update_aggregate (point : PricePoint) (loc : nat) : comp Service AggregatePrice :=
  current ← read_state loc (λ st, ds_active_aggregates st !! pp_symbol point);
  aggregate ← lift (next_aggregate current point);
  _ ← write_state loc (λ st, set_ds_active_aggregates
                               (<[pp_symbol point := aggregate]> (ds_active_aggregates st)) st);
  mret aggregate.

(** ** Yield freshness *)

Definition ONCHAIN_EXCHANGE_RATE_TRAILING_APY_METHOD : string := "onchain_exchange_rate_trailing_apy".
Definition ONCHAIN_EXCHANGE_RATE_FRESHNESS_SECONDS : Z := hours 36.

(** [_coerce_yield_stale_after_seconds]; a stored document holds no NaN and no
    infinity. *)
Definition coerce_yield_stale_after_seconds (value : json) : option Z :=
  q ← match value with
      | JBool b => Some (inject_Z (Z.b2z b))
      | JInt n => Some (inject_Z n)
      | JFloat q => q
      | JString s => sw_float_text s
      | _ => None
      end;
  if Qle_bool q 0 then None else Some (Qfloor (q * inject_Z second_us)).

(** [_yield_source_rank]: the semantic tier, then the route level. *)
Definition yield_source_rank (m : YieldMetric) : Z * Z :=
  (if ym_is_proxy m then 2 else if ym_is_estimate m then 1 else 0, ym_fallback_level m).

(** The order of the ranks, which are tuples. *)
Definition rank_lt (a b : Z * Z) : bool :=
  bool_decide (a.1 < b.1 ∨ a.1 = b.1 ∧ a.2 < b.2).

(** [_default_yield_stale_after_seconds] *)
Definition default_yield_stale_after_seconds (se : settings) (m : YieldMetric) : Z :=
  let t0 := Z.max (seconds 300) (se_metadata_poll_seconds se * 2) in
  let t1 := if bool_decide (lower (ym_provider m) = "fred" ∨ ym_method m = "DGS3MO")
            then Z.max t0 (days 7) else t0 in
  let t2 := if decide (ym_method m = "latest_distribution_annualized")
            then Z.max t1 (days 45) else t1 in
  if decide (ym_method m = ONCHAIN_EXCHANGE_RATE_TRAILING_APY_METHOD)
  then Z.max t2 ONCHAIN_EXCHANGE_RATE_FRESHNESS_SECONDS else t2.

(** [_restored_yield_stale_after_seconds] *)
Definition restored_yield_stale_after_seconds (se : settings) (m : YieldMetric)
    (persisted : option json) : Z :=
  match persisted ≫= coerce_yield_stale_after_seconds with
  | None => default_yield_stale_after_seconds se m
  | Some p =>
    if decide (ym_method m = ONCHAIN_EXCHANGE_RATE_TRAILING_APY_METHOD)
    then Z.max p (default_yield_stale_after_seconds se m) else p
  end.

(** ** Rebuilding a snapshot *)

(** The dividend and the yield that [_rebuild] derives. *)
Definition rebuilt_dividend (i : InstrumentSpec) (event : option DividendEvent)
    (quote : ProviderQuote) : result (option DividendMetric) :=
  match event with
  | Some e =>
    if decide (is_dividend_strategy i = Some "latest_regular_cash_annualized_x4")
    then Some <$> quarterly_dividend e (DFinite (pq_price quote))
    else Ok None
  | None => Ok None
  end.

Definition rebuilt_yield (i : InstrumentSpec) (event : option DividendEvent)
    (metric : option YieldMetric) (quote : ProviderQuote) : result (option YieldEstimate) :=
  match is_yield_strategy i, event, metric with
  | Some LATEST_DISTRIBUTION_ANNUALIZED, Some e, _ =>
    Some <$> sgov_yield e (DFinite (pq_price quote)) (pq_as_of quote)
  | Some TREASURY_3M_PROXY_MINUS_EXPENSE, _, Some m => Some <$> boxx_yield m
  | Some TREASURY_PROXY_MINUS_EXPENSE, _, Some m => Some <$> treasury_proxy_yield m
  | Some STAKING_PROVIDER_METRIC, _, Some m => Some <$> estimate_from_staking_metric m
  | _, _, _ => Ok None
  end.

(** [state.history.change_references(symbol, as_of)] *)
Definition history_change_references (symbol : string) (as_of : Z)
    : comp Service (list (string * option PricePoint)) := λ s,
  match HistoryCache.change_references (sv_history s) symbol as_of with
  | Ok (h, refs) => (set_sv_history h s, Ok refs)
  | Raise e => (s, Raise e)
  end.

(** The mandatory income fields of an instrument are there. *)
Definition complete_fields (i : InstrumentSpec) (dividend : option DividendMetric)
    (annual_yield : option YieldEstimate) : bool :=
  bool_decide (is_yield_strategy i = None ∨ is_Some annual_yield) &&
  bool_decide (is_dividend_strategy i = None ∨ is_Some dividend).

(** What [_rebuild] writes into the state. *)
Definition record_snapshot (i : InstrumentSpec) (symbol : string) (snapshot : QuoteSnapshot)
    (st : data_state) : data_state :=
  let as_of := pq_as_of (qs_quote snapshot) in
  let wire := snapshot_to_wire snapshot i as_of (is_stale_after_seconds i)
                (ds_yield_stale_after st !! symbol) in
  let complete := complete_fields i (qs_dividend snapshot) (qs_estimated_annual_yield snapshot) in
  set_ds_complete_symbols
    (if complete then {[symbol]} ∪ ds_complete_symbols st else ds_complete_symbols st ∖ {[symbol]})
    (set_ds_wire_cache (<[symbol := wire]> (ds_wire_cache st))
       (set_ds_snapshots (SnapshotStore.publish sw_hash (ds_snapshots st) snapshot) st)).

(** [_rebuild]; [published_at] is the clock when the snapshot is built. *)
Definition rebuild (symbol : string) (persisted : bool) (rg : Registry) (loc : nat)
    (additional_history : list PricePoint) (published_at : Z) : comp Service unit :=
  quote ← read_state loc (λ st, ds_last_quotes st !! symbol);
  event ← read_state loc (λ st, ds_dividends st !! symbol);
  metric ← read_state loc (λ st, ds_yield_metrics st !! symbol);
  match quote with
  | None => mret tt
  | Some quote =>
    instrument ← lift (getitem rg symbol);
    dividend ← lift (rebuilt_dividend instrument event quote);
    annual_yield ← lift (rebuilt_yield instrument event metric quote);
    changes ←
      (if decide (additional_history = []) then
         references ← history_change_references symbol (pq_as_of quote);
         lift (calculate_changes_from_references (DFinite (pq_price quote)) references)
       else
         history ← gets sv_history;
         lift (calculate_changes (DFinite (pq_price quote)) (pq_as_of quote)
                 (HistoryCache.points history symbol ++ additional_history)));
    snapshot ← lift (QuoteSnapshot_init quote changes dividend annual_yield (Aware published_at));
    _ ← write_state loc (record_snapshot instrument symbol snapshot);
    when persisted (persist (SavedSnapshot snapshot))
  end.

(** ** Publication *)

Definition future_limit (now : Z) : Z := now + seconds 60.

(** The minute point of a quote. *)
Definition minute_point (q : ProviderQuote) : result PricePoint :=
  PricePoint_init
    {| pp_symbol := pq_symbol q; pp_timestamp := Aware (replace_second0 (pq_as_of q));
       pp_price := DFinite (pq_price q); pp_provider := pq_provider q;
       pp_is_derived := pq_is_derived q; pp_interval := "1m" |}.

(** [state.history.add(point)] and [state.history.load(points)] *)
Definition history_add (p : PricePoint) : comp Service unit := λ s,
  match HistoryCache.add (sv_history s) p with
  | Ok h => (set_sv_history h s, Ok tt)
  | Raise e => (s, Raise e)
  end.

Definition history_load (points : list PricePoint) : comp Service unit := λ s,
  match HistoryCache.load (sv_history s) points with
  | Ok h => (set_sv_history h s, Ok tt)
  | Raise e => (s, Raise e)
  end.

(** [_validate_history_timestamps] *)
Definition validate_history_timestamps (points : list PricePoint) (rg : Registry) (now : Z)
    : result unit :=
  _ ← raise_if (existsb (λ p, bool_decide (future_limit now < pp_timestamp p)) points)
        (ValueError "history contains a timestamp more than 60 seconds in the future");
  let unsupported := λ p, match resolve rg (pp_symbol p) with
                          | Some item => bool_decide (is_symbol item ≠ pp_symbol p)
                          | None => true
                          end in
  let invalid := List.filter unsupported points in
  raise_if (negb (bool_decide (invalid = [])))
    (ValueError ("history contains unsupported symbols: " +:+ join ", " (sorted_set (pp_symbol <$> invalid)))).

(** The symbols of [{point.symbol for point in points}]. *)
Definition point_symbols (points : list PricePoint) : list string :=
  elements (list_to_set (pp_symbol <$> points) : gset string).

(** [_finish_history_publication] *)
Definition finish_history_publication (points : list PricePoint) (persisted : bool) (rg : Registry)
    (loc : nat) (published_at : Z) : comp Service unit :=
  _ ← when (persisted && negb (bool_decide (points = []))) (persist_history points);
  for_each (λ symbol, rebuild symbol false rg loc [] published_at) (point_symbols points).

(** [publish_history] *)
Definition publish_history (points : list PricePoint) (persisted : bool)
    (generation_id : option string) (now published_at : Z) : comp Service bool :=
  context ← publication_context generation_id;
  match context with
  | None => mret false
  | Some (generation, loc) =>
    let rg := gn_registry generation in
    _ ← lift (validate_history_timestamps points rg now);
    _ ← history_load points;
    current ← gets (λ s, is_generation_current s (Some (gn_generation_id generation)));
    if negb current then mret false
    else
      _ ← finish_history_publication points persisted rg loc published_at;
      mret true
  end.

(** [publish_history_async] up to the worker thread, and from its return: other
    publications may run in between, but no activation, which waits for the
    activation lock this method holds. *)
Definition publish_history_begin (points : list PricePoint) (generation_id : option string)
    (now : Z) : comp Service (option (RuntimeGeneration * nat)) :=
  context ← publication_context generation_id;
  match context with
  | None => mret None
  | Some (generation, loc) =>
    _ ← lift (validate_history_timestamps points (gn_registry generation) now);
    mret (Some (generation, loc))
  end.

Definition publish_history_end (points : list PricePoint) (persisted : bool)
    (generation : RuntimeGeneration) (loc : nat) (published_at : Z) : comp Service bool :=
  current ← gets (λ s, is_generation_current s (Some (gn_generation_id generation)));
  if negb current then mret false
  else
    _ ← finish_history_publication points persisted (gn_registry generation) loc published_at;
    mret true.

(** The registry lists the symbol under its canonical name. *)
Definition canonical_in (rg : Registry) (symbol : string) : option InstrumentSpec :=
  match resolve rg symbol with
  | Some item => if decide (symbol = is_symbol item) then Some item else None
  | None => None
  end.

(** What [publish_quote] writes once the quote is accepted. *)
Definition accept_quote (q : ProviderQuote) (st : data_state) : data_state :=
  set_ds_source_failures (ds_source_failures st ∖ {[pq_symbol q]})
    (set_ds_last_quotes (<[pq_symbol q := q]> (ds_last_quotes st)) st).

(** The two values an accepted quote hands to the storage. *)
Definition persist_point (point : PricePoint) (loc : nat) : comp Service unit :=
  _ ← persist (SavedPrice point);
  aggregate ← update_aggregate point loc;
  persist (SavedAggregate aggregate).

(** [publish_quote] from the acceptance of the quote on. *)
Definition store_quote (q : ProviderQuote) (persisted : bool) (rg : Registry) (loc : nat)
    (published_at : Z) : comp Service bool :=
  _ ← write_state loc (accept_quote q);
  point ← lift (minute_point q);
  _ ← history_add point;
  _ ← rebuild (pq_symbol q) persisted rg loc [] published_at;
  _ ← when persisted (persist_point point loc);
  mret true.

(** [publish_quote] *)
Definition publish_quote (q : ProviderQuote) (persisted : bool) (generation_id : option string)
    (now published_at : Z) : comp Service bool :=
  context ← publication_context generation_id;
  match context with
  | None => mret false
  | Some (generation, loc) =>
    let rg := gn_registry generation in
    match canonical_in rg (pq_symbol q) with
    | None => raise (ValueError ("unsupported symbol: " +:+ pq_symbol q))
    | Some _ =>
      _ ← lift (raise_if (bool_decide (future_limit now < pq_as_of q))
                  (ValueError "quote timestamp is more than 60 seconds in the future"));
      current ← read_state loc (λ st, ds_last_quotes st !! pq_symbol q);
      let older := match current with
                   | Some c => bool_decide (pq_as_of q < pq_as_of c)
                   | None => false
                   end in
      if older then mret false
      else
        is_now ← gets (λ s, is_generation_current s (Some (gn_generation_id generation)));
        if negb is_now then mret false
        else
          store_quote q persisted rg loc published_at
    end
  end.

(** [publish_dividend] *)
Definition publish_dividend (e : DividendEvent) (persisted : bool) (generation_id : option string)
    (published_at : Z) : comp Service bool :=
  context ← publication_context generation_id;
  match context with
  | None => mret false
  | Some (generation, loc) =>
    let rg := gn_registry generation in
    let configured :=
      match canonical_in rg (de_symbol e) with
      | Some i => bool_decide (is_dividend_strategy i ≠ None ∨
                               is_yield_strategy i = Some LATEST_DISTRIBUTION_ANNUALIZED)
      | None => false
      end in
    if negb configured then raise (ValueError ("dividend is not configured for " +:+ de_symbol e))
    else if bool_decide (de_event_type e ≠ "regular_cash") then mret false
    else
      current ← read_state loc (λ st, ds_dividends st !! de_symbol e);
      let older := match current with
                   | Some c => bool_decide (de_ex_date e < de_ex_date c)
                   | None => false
                   end in
      if older then mret false
      else
        is_now ← gets (λ s, is_generation_current s (Some (gn_generation_id generation)));
        if negb is_now then mret false
        else
          _ ← write_state loc (λ st, set_ds_dividends (<[de_symbol e := e]> (ds_dividends st)) st);
          _ ← rebuild (de_symbol e) persisted rg loc [] published_at;
          _ ← when persisted (persist (SavedDividend e));
          mret true
  end.

(** Whether [publish_yield_metric] keeps the metric it has: an older observation
    of the same source or rank, or a downgrade while the current one is fresh. *)
Definition keeps_current_yield (se : settings) (stale_after : option Z) (now : Z)
    (current incoming : YieldMetric) : bool :=
  let same_source := bool_decide (lower (ym_provider incoming) = lower (ym_provider current) ∧
                                  ym_method incoming = ym_method current) in
  let current_rank := yield_source_rank current in
  let incoming_rank := yield_source_rank incoming in
  if (same_source || bool_decide (incoming_rank = current_rank)) &&
     bool_decide (ym_as_of incoming < ym_as_of current) then true
  else if negb same_source && rank_lt current_rank incoming_rank then
    bool_decide (Z.max 0 (now - ym_as_of current) ≤
                 default (default_yield_stale_after_seconds se current) stale_after)
  else false.

Definition accept_yield (m : YieldMetric) (stale_after_seconds : Z) (st : data_state) : data_state :=
  set_ds_yield_stale_after (<[ym_symbol m := stale_after_seconds]> (ds_yield_stale_after st))
    (set_ds_yield_metrics (<[ym_symbol m := m]> (ds_yield_metrics st)) st).

(** [publish_yield_metric] from the acceptance of the metric on. *)
Definition store_yield (m : YieldMetric) (stale_after_seconds : Z) (persisted : bool) (rg : Registry)
    (loc : nat) (published_at : Z) : comp Service bool :=
  _ ← write_state loc (accept_yield m stale_after_seconds);
  _ ← rebuild (ym_symbol m) persisted rg loc [] published_at;
  _ ← when persisted (persist_yield_metric m stale_after_seconds);
  mret true.

(** [publish_yield_metric] *)
Definition publish_yield_metric (m : YieldMetric) (persisted : bool)
    (generation_id : option string) (now published_at : Z) : comp Service bool :=
  context ← publication_context generation_id;
  match context with
  | None => mret false
  | Some (generation, loc) =>
    let rg := gn_registry generation in
    let configured :=
      match canonical_in rg (ym_symbol m) with
      | Some i => bool_decide (is_yield_strategy i ≠ None)
      | None => false
      end in
    if negb configured then
      raise (ValueError ("external yield metric is not configured for " +:+ ym_symbol m))
    else
      se ← gets sv_settings;
      let stale_after_seconds := default_yield_stale_after_seconds se m in
      current ← read_state loc (λ st, ds_yield_metrics st !! ym_symbol m);
      threshold ← read_state loc (λ st, ds_yield_stale_after st !! ym_symbol m);
      let kept := match current with
                  | Some c => keeps_current_yield se threshold now c m
                  | None => false
                  end in
      if kept then mret false
      else
        is_now ← gets (λ s, is_generation_current s (Some (gn_generation_id generation)));
        if negb is_now then mret false
        else
          store_yield m stale_after_seconds persisted rg loc published_at
  end.

(** [mark_source_failed] *)
Definition mark_source_failed (symbols : list string) (generation_id : option string)
    : comp Service bool :=
  context ← publication_context generation_id;
  match context with
  | None => mret false
  | Some (generation, loc) =>
    is_now ← gets (λ s, is_generation_current s (Some (gn_generation_id generation)));
    if negb is_now then mret false
    else
      let known := List.filter (λ x, bool_decide (is_Some (resolve (gn_registry generation) x))) symbols in
      _ ← write_state loc (λ st, set_ds_source_failures
                                   (list_to_set known ∪ ds_source_failures st) st);
      mret true
  end.

(** ** Reads *)

(** A status observed at most five minutes ago is taken as it is. *)
Definition recent_status (now : Z) (observed_at : option Z) : bool :=
  match observed_at with
  | Some t => bool_decide (0 ≤ now - t ≤ seconds 300)
  | None => false
  end.

(** [_effective_market_status] *)
Definition effective_market_status (q : ProviderQuote) (i : InstrumentSpec) (now : Z) : string :=
  if recent_status now (pq_market_status_as_of q) && bool_decide (pq_market_status q ≠ "unknown")
  then pq_market_status q
  else status_at_wall (is_market_calendar i) (sw_ny_wall now).

(** [most_recent_scheduled_close] for a calendar and an aware instant. *)
Definition last_close (i : InstrumentSpec) (now : Z) : option Z :=
  match most_recent_scheduled_close sw_ny_wall sw_ny_utc (EnumMember (is_market_calendar i)) (Aware now) with
  | Ok close => close
  | Raise _ => None
  end.

(** [_quality] *)
Definition quality (st : data_state) (q : ProviderQuote) (i : InstrumentSpec) (now : Z)
    : string * QualityModel :=
  let age := staleness_ms now (pq_as_of q) in
  let status := effective_market_status q i now in
  let aged := bool_decide (threshold_ms (is_stale_after_seconds i) < age) in
  let provider_confirms_closed :=
    bool_decide (pq_market_status q = "closed") && recent_status now (pq_market_status_as_of q) in
  let stale :=
    if provider_confirms_closed then false
    else if bool_decide (status = "closed") then
      match last_close i now with
      | Some close => bool_decide (pq_as_of q < close - is_stale_after_seconds i)
      | None => aged
      end
    else aged in
  (status,
   {| qm_stale := stale || bool_decide (pq_symbol q ∈ ds_source_failures st);
      qm_staleness_ms := age |}).

(** The threshold of a yield at read time. *)
Definition yield_threshold (se : settings) (st : data_state) (symbol : string) : Z :=
  match ds_yield_stale_after st !! symbol with
  | Some t => t
  | None =>
    match ds_yield_metrics st !! symbol with
    | Some m => default_yield_stale_after_seconds se m
    | None => Z.max (seconds 300) (se_metadata_poll_seconds se * 2)
    end
  end.

(** The cached yield with its quality at [now]. *)
Definition refreshed_yield (se : settings) (st : data_state) (symbol : string)
    (estimate : option YieldEstimate) (now : Z) (cached : YieldModel) : result YieldModel :=
  match estimate, yem_quality cached with
  | Some y, Some q =>
    let threshold := yield_threshold se st symbol in
    let age := staleness_ms now (ye_as_of y) in
    Ok (with_yield_quality cached
          (Some {| yqm_stale := supplied_stale y || bool_decide (threshold_ms threshold < age);
                   yqm_staleness_ms := age; yqm_stale_after_seconds := threshold;
                   yqm_confidence := yqm_confidence q |}))
  | _, _ => Raise (OtherError "AttributeError")
  end.

(** [get_quote] for a captured generation. *)
Definition get_quote (s : Service) (generation : RuntimeGeneration) (symbol : string) (now : Z)
    (require_complete_metadata : bool) : result QuoteModel :=
  st ← match gn_data_state generation ≫= state_at s with
       | Some st => Ok st
       | None => Raise (RuntimeError "runtime generation has no market state")
       end;
  i ← getitem (gn_registry generation) symbol;
  snapshot ← match SnapshotStore.get sw_hash (ds_snapshots st) symbol with
             | Some snapshot => Ok snapshot
             | None => Raise (DataUnavailableError symbol "no valid price has ever been received")
             end;
  _ ← raise_if (require_complete_metadata && bool_decide (is_yield_strategy i ≠ None ∧
                                                          qs_estimated_annual_yield snapshot = None))
        (DataUnavailableError symbol "required estimated annual yield is unavailable");
  _ ← raise_if (require_complete_metadata && bool_decide (is_dividend_strategy i ≠ None ∧
                                                          qs_dividend snapshot = None))
        (DataUnavailableError symbol "required latest regular dividend is unavailable");
  cached ← match ds_wire_cache st !! symbol with
           | Some m => Ok m
           | None => Raise (KeyError symbol)
           end;
  let '(status, q) := quality st (qs_quote snapshot) i now in
  annual_yield ← match qt_estimated_annual_yield cached with
                 | None => Ok None
                 | Some y => Some <$> refreshed_yield (sv_settings s) st symbol
                                        (qs_estimated_annual_yield snapshot) now y
                 end;
  Ok (with_freshness cached status q annual_yield).

(** [_has_active_api_key] *)
Definition has_active_api_key (s : Service) : bool :=
  match sv_api_key_configured s with
  | Some configured => configured
  | None => negb (bool_decide (se_api_key_hashes (sv_settings s) = []))
  end.

Definition collectors_running (s : Service) : bool :=
  match sv_coordinator s with Some c => co_running c | None => false end.

(** The status read at start-up, or [inspected] when there is none. *)
Definition runtime_ok (s : Service) (inspected : FreeThreadedStatus) : bool :=
  free_threaded_ready (default inspected (sv_runtime_status s)) ||
  negb (se_require_free_threaded (sv_settings s)).

(** [is_ready] *)
Definition is_ready (s : Service) (inspected : FreeThreadedStatus) : result bool :=
  let generation := capture_generation s in
  st ← match gn_data_state generation ≫= state_at s with
       | Some st => Ok st
       | None => Raise (RuntimeError "runtime generation has no market state")
       end;
  let all_complete := forallb (λ x, bool_decide (x ∈ ds_complete_symbols st))
                        (Registry.symbols (gn_registry generation)) in
  Ok (runtime_ok s inspected && has_active_api_key s && sv_storage_ready s &&
      (collectors_running s || negb (se_background_enabled (sv_settings s))) && all_complete).

(** The report of [readiness]. *)
Record readiness_details := {
  rd_active_instrument_count : nat;
  rd_intentionally_empty_catalog : bool;
  rd_api_key_configured : bool;
  rd_storage_ready : bool;
  rd_collectors_running : bool;
  rd_collector_failure : option exn;
  rd_missing_prices : list string;
  rd_incomplete_metadata : list string;
}.

(** Whether reading the symbol fails for missing data. *)
Definition data_unavailable {A} (r : result A) : bool :=
  match r with Raise (NamedError cls _) => bool_decide (cls = "DataUnavailableError") | _ => false end.

(** The scan of [readiness]: the symbols without a price and those without
    their mandatory metadata. *)
Fixpoint readiness_scan (s : Service) (generation : RuntimeGeneration) (st : data_state) (now : Z)
    (l : list string) : result (list string * list string) :=
  match l with
  | [] => Ok ([], [])
  | symbol :: l' =>
    if decide (SnapshotStore.get sw_hash (ds_snapshots st) symbol = None) then
      r ← readiness_scan s generation st now l'; Ok (symbol :: r.1, r.2)
    else
      let read := get_quote s generation symbol now true in
      if data_unavailable read then
        r ← readiness_scan s generation st now l'; Ok (r.1, symbol :: r.2)
      else _ ← read; readiness_scan s generation st now l'
  end.

(** [readiness] *)
Definition readiness (s : Service) (inspected : FreeThreadedStatus) (now : Z)
    : result (bool * readiness_details) :=
  let generation := capture_generation s in
  st ← match gn_data_state generation ≫= state_at s with
       | Some st => Ok st
       | None => Raise (RuntimeError "runtime generation has no market state")
       end;
  let symbols := Registry.symbols (gn_registry generation) in
  scan ← readiness_scan s generation st now symbols;
  ready ← is_ready s inspected;
  Ok (ready,
      {| rd_active_instrument_count := length symbols;
         rd_intentionally_empty_catalog := bool_decide (symbols = []);
         rd_api_key_configured := has_active_api_key s; rd_storage_ready := sv_storage_ready s;
         rd_collectors_running := collectors_running s;
         rd_collector_failure := match sv_coordinator s with
                                 | Some c => co_fatal_error c
                                 | None => sv_collector_start_error s
                                 end;
         rd_missing_prices := scan.1; rd_incomplete_metadata := scan.2 |}).

(** ** Candidate generations *)

(** [_RuntimeDataState.clone]: a new object on the heap. *)
Definition clone_state (loc : nat) : comp Service nat := λ s,
  let st := default fresh_data_state (state_at s loc) in
  match SnapshotStore.clone sw_hash (ds_snapshots st) with
  | Ok snapshots =>
    (set_sv_states (sv_states s ++ [set_ds_snapshots snapshots st]) s, Ok (length (sv_states s)))
  | Raise e => (s, Raise e)
  end.

Definition keep_keys {A} (retained : gset string) (m : gmap string A) : gmap string A :=
  filter (λ kv, kv.1 ∈ retained) m.

(** [_RuntimeDataState.retain_symbols], of the state and of the shared history. *)
Definition retain_in_state (symbols : list string) (st : data_state) : data_state :=
  let retained := list_to_set symbols : gset string in
  {| ds_snapshots := (SnapshotStore.retain_symbols (ds_snapshots st) symbols).1;
     ds_dividends := keep_keys retained (ds_dividends st);
     ds_yield_metrics := keep_keys retained (ds_yield_metrics st);
     ds_yield_stale_after := keep_keys retained (ds_yield_stale_after st);
     ds_last_quotes := keep_keys retained (ds_last_quotes st);
     ds_source_failures := ds_source_failures st ∩ retained;
     ds_wire_cache := keep_keys retained (ds_wire_cache st);
     ds_complete_symbols := ds_complete_symbols st ∩ retained;
     ds_active_aggregates := keep_keys retained (ds_active_aggregates st) |}.

Definition retain_symbols (loc : nat) (symbols : list string) : comp Service unit :=
  _ ← modify (λ s, set_sv_history (HistoryCache.retain_symbols (sv_history s) symbols).1 s);
  write_state loc (retain_in_state symbols).

(** An item of the warm bundle: the definition's symbol and what was fetched. *)
Record warmed_item := {
  wi_symbol : string;
  wi_quote : ProviderQuote;
  wi_dividend : option DividendEvent;
  wi_yield_metric : option YieldMetric;
}.

(** The minute point of a warm item, under the symbol of its definition. *)
Definition warm_point (item : warmed_item) : result PricePoint :=
  let q := wi_quote item in
  PricePoint_init
    {| pp_symbol := wi_symbol item; pp_timestamp := Aware (replace_second0 (pq_as_of q));
       pp_price := DFinite (pq_price q); pp_provider := pq_provider q;
       pp_is_derived := pq_is_derived q; pp_interval := "1m" |}.

(** The body of the loop of [_install_warmed_instruments]. *)
Definition install_warmed_item (rg : Registry) (loc : nat) (now published_at : Z)
    (item : warmed_item) : comp Service unit :=
  let symbol := wi_symbol item in
  let q := wi_quote item in
  _ ← lift (raise_if (negb (bool_decide (is_symbol <$> resolve rg symbol = Some symbol)))
              (ValueError "warm bundle contains an inactive instrument"));
  _ ← lift (raise_if (bool_decide (pq_symbol q ≠ symbol))
              (ValueError "warm quote symbol does not match its instrument"));
  _ ← lift (raise_if (bool_decide (future_limit now < pq_as_of q))
              (ValueError "warm quote timestamp is more than 60 seconds in the future"));
  _ ← match wi_dividend item with
      | None => mret tt
      | Some e =>
        _ ← lift (raise_if (bool_decide (de_symbol e ≠ symbol))
                    (ValueError "warm dividend symbol does not match its instrument"));
        write_state loc (λ st, set_ds_dividends (<[symbol := e]> (ds_dividends st)) st)
      end;
  _ ← match wi_yield_metric item with
      | None => mret tt
      | Some m =>
        _ ← lift (raise_if (bool_decide (ym_symbol m ≠ symbol))
                    (ValueError "warm yield symbol does not match its instrument"));
        se ← gets sv_settings;
        write_state loc (accept_yield m (default_yield_stale_after_seconds se m))
      end;
  _ ← write_state loc (λ st, set_ds_source_failures (ds_source_failures st ∖ {[symbol]})
                               (set_ds_last_quotes (<[symbol := q]> (ds_last_quotes st)) st));
  point ← lift (warm_point item);
  _ ← rebuild symbol false rg loc [point] published_at;
  _ ← update_aggregate point loc;
  complete ← read_state loc (λ st, bool_decide (symbol ∈ ds_complete_symbols st));
  when (negb complete) (raise (ValueError "warm bundle is missing mandatory income metadata")).

(** [_install_warmed_instruments] *)
Definition install_warmed_instruments (rg : Registry) (warmed : list warmed_item) (loc : nat)
    (now published_at : Z) : comp Service unit :=
  for_each (install_warmed_item rg loc now published_at) warmed.

(** What [storage.restore] hands back, projected to the domain. *)
Record restored_market := {
  rm_price_points : list PricePoint;
  rm_dividends : list DividendEvent;
  rm_yield_metrics : list YieldMetric;
  rm_yield_thresholds : gmap string json;  (* [raw.get("stale_after_seconds")] by symbol *)
  rm_provider_checkpoints : list ProviderCheckpointRecord;
  rm_quotes : list ProviderQuote;
}.

Definition restore_dividend (allowed : gset string) (st : data_state) (e : DividendEvent) : data_state :=
  if decide (de_symbol e ∈ allowed) then
    match ds_dividends st !! de_symbol e with
    | Some c => if decide (de_ex_date c < de_ex_date e)
                then set_ds_dividends (<[de_symbol e := e]> (ds_dividends st)) st else st
    | None => set_ds_dividends (<[de_symbol e := e]> (ds_dividends st)) st
    end
  else st.

Definition restore_yield (se : settings) (thresholds : gmap string json) (allowed : gset string)
    (st : data_state) (m : YieldMetric) : data_state :=
  let kept := match ds_yield_metrics st !! ym_symbol m with
              | Some c => bool_decide (ym_as_of m ≤ ym_as_of c)
              | None => false
              end in
  if decide (ym_symbol m ∈ allowed) then
    if kept then st
    else accept_yield m (restored_yield_stale_after_seconds se m (thresholds !! ym_symbol m)) st
  else st.

Definition restore_quote (allowed : gset string) (st : data_state) (q : ProviderQuote) : data_state :=
  if decide (pq_symbol q ∈ allowed) then
    match ds_last_quotes st !! pq_symbol q with
    | Some c => if decide (pq_as_of c < pq_as_of q)
                then set_ds_last_quotes (<[pq_symbol q := q]> (ds_last_quotes st)) st else st
    | None => set_ds_last_quotes (<[pq_symbol q := q]> (ds_last_quotes st)) st
    end
  else st.

(** [_restore_retained_candidate_state]; no [restored] is a service without
    storage. *)
Definition restore_retained_candidate_state (loc : nat) (symbols : list string)
    (restored : option restored_market) : comp Service unit :=
  match restored with
  | None => mret tt
  | Some r =>
    let allowed := list_to_set symbols : gset string in
    let points := List.filter (λ p, bool_decide (pp_symbol p ∈ allowed)) (rm_price_points r) in
    _ ← when (negb (bool_decide (points = []))) (history_load points);
    se ← gets sv_settings;
    write_state loc (λ st,
      let st1 := foldl (restore_dividend allowed) st (rm_dividends r) in
      let st2 := foldl (restore_yield se (rm_yield_thresholds r) allowed) st1 (rm_yield_metrics r) in
      foldl (restore_quote allowed) st2 (rm_quotes r))
  end.

(** [_prepare_runtime_state]: the location of the candidate's state.  [restored]
    is what the storage returns for the retained symbols. *)
Definition prepare_runtime_state (rg : Registry) (warmed : list warmed_item)
    (retained_symbols : list string) (restored : option restored_market) (now published_at : Z)
    : comp Service nat :=
  generation ← gets capture_generation;
  current ← state_for_generation generation;
  loc ← clone_state current;
  _ ← when (negb (bool_decide (retained_symbols = [])))
        (restore_retained_candidate_state loc retained_symbols restored);
  _ ← install_warmed_instruments rg warmed loc now published_at;
  mret loc.

(** [self._generations.activate(...)] *)
Definition swap_generation (rg : Registry) (revision : string) (catalog route_plan : option Z)
    (loc : nat) (generation_id : option string) (uuid : string) (now : Z)
    : comp Service (RuntimeGeneration * RuntimeGeneration) := λ s,
  let '(m, r) := activate (sv_generations s) rg revision catalog route_plan (Some loc)
                   generation_id uuid now in
  (set_sv_generations m s, Ok r).

(** [_activate_runtime_generation]; without a state the current one is kept. *)
Definition activate_runtime_generation (rg : Registry) (revision : string)
    (catalog route_plan : option Z) (data_state : option nat) (generation_id : option string)
    (uuid : string) (now : Z) : comp Service (RuntimeGeneration * RuntimeGeneration) :=
  loc ← match data_state with
        | Some loc => mret loc
        | None => generation ← gets capture_generation; state_for_generation generation
        end;
  swap_generation rg revision catalog route_plan loc generation_id uuid now.

(** [_bind_runtime_state] *)
Definition bind_runtime_state (loc : nat) : comp Service unit := modify (set_sv_bound loc).

(** [_publish_warmed_history] *)
Definition publish_warmed_history (warmed : list warmed_item) : comp Service unit :=
  for_each (λ item, point ← lift (warm_point item); history_add point) warmed.

(** The body of the loop of [_persist_warmed_instruments]. *)
Definition persist_warmed_item (loc : nat) (item : warmed_item) : comp Service unit :=
  point ← lift (warm_point item);
  _ ← persist (SavedPrice point);
  aggregate ← read_state loc (λ st, ds_active_aggregates st !! wi_symbol item);
  _ ← match aggregate with Some a => persist (SavedAggregate a) | None => mret tt end;
  _ ← match wi_dividend item with Some e => persist (SavedDividend e) | None => mret tt end;
  _ ← match wi_yield_metric item with
      | Some m =>
        threshold ← read_state loc (λ st, ds_yield_stale_after st !! wi_symbol item);
        match threshold with
        | Some t => persist_yield_metric m t
        | None => raise (KeyError (wi_symbol item))
        end
      | None => mret tt
      end;
  snapshot ← read_state loc (λ st, SnapshotStore.get sw_hash (ds_snapshots st) (wi_symbol item));
  match snapshot with Some x => persist (SavedSnapshot x) | None => mret tt end.

Definition persist_warmed_instruments (loc : nat) (warmed : list warmed_item) : comp Service unit :=
  for_each (persist_warmed_item loc) warmed.

(** ** Restoring at start-up *)

(** [_is_active_symbol] *)
Definition is_active_symbol (s : Service) (symbol : string) : bool :=
  bool_decide (symbol ∈ Registry.symbols (service_registry s)).

(** [_filter_checkpoint]: strip the disabled symbols of a checkpoint, or drop it. *)
Definition filter_checkpoint (active : string → bool) (record : ProviderCheckpointRecord)
    : option ProviderCheckpointRecord :=
  match pr_checkpoint record with
  | JObject items =>
    let restrict :=
      match json_get "symbols" items with
      | JNull => Some items
      | JObject symbols =>
        let kept := List.filter (λ kv : string * json, active kv.1) symbols in
        if decide (kept = []) then None
        else Some ((λ kv : string * json,
                      if decide (kv.1 = "symbols") then (kv.1, JObject kept) else kv) <$> items)
      | _ => None
      end in
    items' ← restrict;
    match json_get "symbol" items' with
    | JNull => Some {| pr_provider := pr_provider record; pr_feed := pr_feed record;
                       pr_updated_at := pr_updated_at record; pr_checkpoint := JObject items' |}
    | JString symbol =>
      if active symbol then
        Some {| pr_provider := pr_provider record; pr_feed := pr_feed record;
                pr_updated_at := pr_updated_at record; pr_checkpoint := JObject items' |}
      else None
    | _ => None
    end
  | _ => None
  end.

Definition checkpoint_map (l : list ProviderCheckpointRecord)
    : gmap (string * string) ProviderCheckpointRecord :=
  foldl (λ m r, <[(pr_provider r, pr_feed r) := r]> m) ∅ l.

(** [_apply_restored_state] *)
Definition apply_restored_state (r : restored_market) (now published_at : Z) : comp Service unit :=
  active ← gets is_active_symbol;
  loc ← gets sv_bound;
  se ← gets sv_settings;
  _ ← when (negb (bool_decide (rm_price_points r = [])))
        (history_load (List.filter (λ p, active (pp_symbol p)) (rm_price_points r)));
  _ ← write_state loc (λ st,
        foldl (λ st e, if active (de_symbol e)
                       then set_ds_dividends (<[de_symbol e := e]> (ds_dividends st)) st else st)
          st (rm_dividends r));
  _ ← write_state loc (λ st,
        foldl (λ st m, if active (ym_symbol m)
                       then accept_yield m (restored_yield_stale_after_seconds se m
                                              (rm_yield_thresholds r !! ym_symbol m)) st else st)
          st (rm_yield_metrics r));
  let checkpoints := omap (filter_checkpoint active) (rm_provider_checkpoints r) in
  _ ← when (negb (bool_decide (checkpoints = [])))
        (modify (set_sv_provider_checkpoints (checkpoint_map checkpoints)));
  for_each (λ q, if active (pq_symbol q)
                 then _ ← publish_quote q false None now published_at; mret tt else mret tt)
    (rm_quotes r).

(** ** Shared provider state *)

(** [restored_provider_checkpoints] *)
Definition restored_provider_checkpoints (s : Service) := sv_provider_checkpoints s.

(** [remember_provider_checkpoint] *)
Definition remember_provider_checkpoint (record : ProviderCheckpointRecord) : comp Service unit :=
  modify (λ s,
    let key := (pr_provider record, pr_feed record) in
    let newer := match sv_provider_checkpoints s !! key with
                 | Some current => bool_decide (pr_updated_at current ≤ pr_updated_at record)
                 | None => true
                 end in
    if newer then set_sv_provider_checkpoints (<[key := record]> (sv_provider_checkpoints s)) s else s).

(** The policy of a ledger: its limit, period and reserve. *)
Definition quota_policy (s : Service) (ledger : Z) : option (Z * Z * Z) :=
  (λ l : QuotaBudget.config * QuotaBudget.t,
     (QuotaBudget.limit l.1, QuotaBudget.period l.1, QuotaBudget.reserve l.1)) <$> sv_ledgers s !! ledger.

(** [share_provider_quota]: the ledger to use, and whether the caller owns it. *)
Definition share_provider_quota (provider : string) (candidate : Z) : comp Service (Z * bool) := λ s,
  match sv_provider_quotas s !! provider with
  | None => (set_sv_provider_quotas (<[provider := candidate]> (sv_provider_quotas s)) s, Ok (candidate, true))
  | Some current =>
    if decide (quota_policy s candidate = quota_policy s current) then (s, Ok (current, false))
    else (s, Raise (RuntimeError "provider quota policy changed during runtime handoff"))
  end.

(** [reserve_provider_search_credit]; [persistence] is what the ledger's
    callback raises, if it raises. *)
Definition reserve_provider_search_credit (provider : string) (cost now : Z)
    (persistence : option exn) : comp Service bool := λ s,
  if decide (cost ≤ 0) then (s, Raise (ValueError "provider search credit cost must be positive"))
  else
    match sv_provider_quotas s !! provider ≫= λ id, (id,.) <$> sv_ledgers s !! id with
    | None => (s, Raise (ProviderError PEUnavailable provider
                           "shared provider quota ledger is not initialized" (Some 503)))
    | Some (id, (cfg, b)) =>
      let '(b', r) := QuotaBudget.acquire cfg now cost false persistence b in
      (set_sv_ledgers (<[id := (cfg, b')]> (sv_ledgers s)) s, r)
    end.
End service.
