(* ===== verification/Storage.v ===== *)
(** * Persistence ([storage/database.py])

    The tables of the schema as keyed maps, the effect of every write command
    on them (the SQL statements of [_execute_write]), the single writer that
    commits queued commands in batches, and the queries that restore the state
    of a process.  A timestamp column holds fixed-width text, which compares as
    the instant does; the model keeps the instant.  Where SQL leaves the order
    of tied rows open, the engine's choice is a parameter. *)

From S2P Require Import Prelude PyStr PyDecimal PyTime Json Domain StorageRecords.

Local Open Scope string_scope.
Local Open Scope list_scope.
Local Open Scope Z_scope.

(** ** Tables *)

#[export, refine] Instance decimal_countable : Countable decimal :=
  inj_countable (λ d, (coef d, dexp d)) (λ p, Some (Dec p.1 p.2)) _.
Proof. by intros []. Defined.

(** A row and its [stored_at] or [updated_at] column. *)
Record stored (R : Type) := { row : R; stored_at : Z }.
Arguments row {R}. Arguments stored_at {R}.

Abbreviation minute_key := (string * Z * string)%type.
Abbreviation aggregate_key := (string * Z * Z * string)%type.
Abbreviation dividend_key := (string * Z * decimal * string)%type.
Abbreviation yield_key := (string * Z * string * string)%type.
Abbreviation checkpoint_key := (string * string)%type.

(** The primary keys. *)
Definition minute_key_of (r : MinutePriceRecord) : minute_key :=
  (mp_symbol r, mp_timestamp r, mp_provider r).
Definition aggregate_key_of (r : AggregatePriceRecord) : aggregate_key :=
  (ar_symbol r, ar_interval_seconds r, ar_bucket_start r, ar_provider r).
Definition dividend_key_of (r : DividendEventRecord) : dividend_key :=
  (dr_symbol r, dr_ex_date r, dr_amount r, dr_provider r).
Definition yield_key_of (r : YieldMetricRecord) : yield_key :=
  (yr_symbol r, yr_as_of r, yr_method r, yr_provider r).
Definition checkpoint_key_of (r : ProviderCheckpointRecord) : checkpoint_key :=
  (pr_provider r, pr_feed r).

Record database := {
  minute_prices : gmap minute_key (stored MinutePriceRecord);
  aggregate_prices : gmap aggregate_key (stored AggregatePriceRecord);
  latest_snapshots : gmap string (stored LatestSnapshotRecord);
  dividend_events : gmap dividend_key (stored DividendEventRecord);
  yield_metrics : gmap yield_key (stored YieldMetricRecord);
  provider_checkpoints : gmap checkpoint_key ProviderCheckpointRecord;
  api_keys : gmap string ApiKeyRecord;
  bootstrap_complete : option Z;  (* the [legacy_api_key_bootstrap] row of [auth_metadata] *)
  admin_audit_events : gmap string AdminAuditEventRecord;
}.

Definition empty_database : database :=
  {| minute_prices := ∅; aggregate_prices := ∅; latest_snapshots := ∅; dividend_events := ∅;
     yield_metrics := ∅; provider_checkpoints := ∅; api_keys := ∅; bootstrap_complete := None;
     admin_audit_events := ∅ |}.

Definition set_prices (m : gmap minute_key (stored MinutePriceRecord))
    (a : gmap aggregate_key (stored AggregatePriceRecord)) (db : database) : database :=
  {| minute_prices := m; aggregate_prices := a; latest_snapshots := latest_snapshots db;
     dividend_events := dividend_events db; yield_metrics := yield_metrics db;
     provider_checkpoints := provider_checkpoints db; api_keys := api_keys db;
     bootstrap_complete := bootstrap_complete db; admin_audit_events := admin_audit_events db |}.

Definition set_snapshots (t : gmap string (stored LatestSnapshotRecord)) (db : database) : database :=
  {| minute_prices := minute_prices db; aggregate_prices := aggregate_prices db; latest_snapshots := t;
     dividend_events := dividend_events db; yield_metrics := yield_metrics db;
     provider_checkpoints := provider_checkpoints db; api_keys := api_keys db;
     bootstrap_complete := bootstrap_complete db; admin_audit_events := admin_audit_events db |}.

Definition set_events (d : gmap dividend_key (stored DividendEventRecord))
    (y : gmap yield_key (stored YieldMetricRecord)) (db : database) : database :=
  {| minute_prices := minute_prices db; aggregate_prices := aggregate_prices db;
     latest_snapshots := latest_snapshots db; dividend_events := d; yield_metrics := y;
     provider_checkpoints := provider_checkpoints db; api_keys := api_keys db;
     bootstrap_complete := bootstrap_complete db; admin_audit_events := admin_audit_events db |}.

Definition set_checkpoints (t : gmap checkpoint_key ProviderCheckpointRecord) (db : database) : database :=
  {| minute_prices := minute_prices db; aggregate_prices := aggregate_prices db;
     latest_snapshots := latest_snapshots db; dividend_events := dividend_events db;
     yield_metrics := yield_metrics db; provider_checkpoints := t; api_keys := api_keys db;
     bootstrap_complete := bootstrap_complete db; admin_audit_events := admin_audit_events db |}.

Definition set_keys (k : gmap string ApiKeyRecord) (b : option Z)
    (a : gmap string AdminAuditEventRecord) (db : database) : database :=
  {| minute_prices := minute_prices db; aggregate_prices := aggregate_prices db;
     latest_snapshots := latest_snapshots db; dividend_events := dividend_events db;
     yield_metrics := yield_metrics db; provider_checkpoints := provider_checkpoints db;
     api_keys := k; bootstrap_complete := b; admin_audit_events := a |}.

(** ** The engine *)

(** What SQL leaves to the engine: the order in which it meets the rows of a
    query, and whether an insertion that conflicts with both unique columns is
    covered by [ON CONFLICT(key_hash) DO NOTHING]. *)
Class SqlEngine := {
  scan : ∀ {A : Type}, list A → list A;
  scan_perm : ∀ (A : Type) (l : list A), scan l ≡ₚ l;
  both_conflicts_ignored : bool;
}.

(** [str(error)] *)
Definition exn_text (e : exn) : string :=
  match e with
  | ValueError msg | TypeError msg | RuntimeError msg | OverflowError msg | NamedError _ msg
  | ProviderError _ _ msg _ => msg
  | KeyError key => py_repr key
  | OtherError _ | RetryError _ _ | AllProvidersFailed _ _ _ => ""
  end.

Definition IntegrityError (column : string) : exn :=
  NamedError "IntegrityError" ("UNIQUE constraint failed: " +:+ column).

(** Lexicographic composition of column comparisons. *)
Definition lex (c1 c2 : comparison) : comparison := match c1 with Eq => c2 | _ => c1 end.

(** The row that [ROW_NUMBER() OVER (ORDER BY ...)] numbers 1. *)
Fixpoint row_number_one {A} (order : A → A → comparison) (l : list A) : option A :=
  match l with
  | [] => None
  | x :: l' =>
    match row_number_one order l' with
    | None => Some x
    | Some y => match order y x with Lt => Some y | _ => Some x end
    end
  end.

(** [CASE WHEN is_special = 0 AND event_type IN (...) THEN 0 ELSE 1 END] *)
Definition dividend_rank (r : DividendEventRecord) : Z :=
  if negb (dr_is_special r) && bool_decide (dr_event_type r ∈ ["regular_cash"; "cash_dividend"])
  then 0 else 1.

Definition dividend_order (a b : stored DividendEventRecord) : comparison :=
  lex (Z.compare (dividend_rank (row a)) (dividend_rank (row b)))
    (lex (Z.compare (dr_ex_date (row b)) (dr_ex_date (row a)))
       (lex (Z.compare (stored_at b) (stored_at a))
          (String.compare (dr_provider (row b)) (dr_provider (row a))))).

Definition yield_order (a b : stored YieldMetricRecord) : comparison :=
  lex (Z.compare (stored_at b) (stored_at a))
    (lex (Z.compare (yr_as_of (row b)) (yr_as_of (row a)))
       (lex (String.compare (yr_method (row b)) (yr_method (row a)))
          (String.compare (yr_provider (row b)) (yr_provider (row a))))).

Definition table_rows {K R} `{Countable K} (t : gmap K R) : list R := (map_to_list t).*2.

Section engine.
Context `{SqlEngine}.

Definition newest_dividend (db : database) (symbol : string) : option (stored DividendEventRecord) :=
  row_number_one dividend_order
    (scan (filter (λ r, dr_symbol (row r) = symbol) (table_rows (dividend_events db)))).

Definition newest_yield (db : database) (symbol : string) : option (stored YieldMetricRecord) :=
  row_number_one yield_order
    (scan (filter (λ r, yr_symbol (row r) = symbol) (table_rows (yield_metrics db)))).

(** ** Write commands *)

(** An upsert, and its row count. *)
Definition upsert {K R} `{Countable K} (key : K) (r : R) (t : gmap K R) : gmap K R * nat :=
  (<[key := r]> t, 1%nat).

(** An upsert with [WHERE excluded.c >= table.c]. *)
Definition upsert_newer {K R} `{Countable K} (column : R → Z) (key : K) (r : R) (t : gmap K R)
    : gmap K R * nat :=
  match t !! key with
  | Some old => if decide (column old ≤ column r) then upsert key r t else (t, 0%nat)
  | None => upsert key r t
  end.

(** [DELETE ... WHERE NOT keep], and its row count. *)
Definition delete_unless {K R} `{Countable K} (keep : K * R → Prop) `{!∀ x, Decision (keep x)}
    (t : gmap K R) : gmap K R * nat :=
  let t' := filter keep t in (t', (size t - size t')%nat).

Definition has_hash (keys : gmap string ApiKeyRecord) (key_hash : string) : bool :=
  existsb (λ r, bool_decide (ak_key_hash r = key_hash)) (table_rows keys).

(** [_insert_api_key] *)
Definition insert_api_key (r : ApiKeyRecord) (db : database) : result database :=
  _ ← raise_if (bool_decide (is_Some (api_keys db !! ak_key_id r))) (IntegrityError "api_keys.key_id");
  _ ← raise_if (has_hash (api_keys db) (ak_key_hash r)) (IntegrityError "api_keys.key_hash");
  Ok (set_keys (<[ak_key_id r := r]> (api_keys db)) (bootstrap_complete db) (admin_audit_events db) db).

(** The insertion of the bootstrap, with [ON CONFLICT(key_hash) DO NOTHING]. *)
Definition bootstrap_api_key (acc : database * nat) (r : ApiKeyRecord) : result (database * nat) :=
  let '(db, affected) := acc in
  let hash_conflict := has_hash (api_keys db) (ak_key_hash r) in
  let id_conflict := bool_decide (is_Some (api_keys db !! ak_key_id r)) in
  if hash_conflict && (negb id_conflict || both_conflicts_ignored) then Ok (db, affected)
  else db' ← insert_api_key r db; Ok (db', S affected).

(** [_insert_admin_audit] *)
Definition insert_admin_audit (r : AdminAuditEventRecord) (db : database) : result database :=
  details ← encode_json (av_details r);
  _ ← raise_if (bool_decide (is_Some (admin_audit_events db !! av_event_id r)))
        (IntegrityError "admin_audit_events.event_id");
  Ok (set_keys (api_keys db) (bootstrap_complete db)
        (<[av_event_id r := r]> (admin_audit_events db)) db).

(** [UPDATE api_keys SET ... WHERE key_id = ? AND revoked_at IS NULL], which
    must change one row. *)
Definition update_active_key (key_id : string) (f : ApiKeyRecord → ApiKeyRecord) (db : database)
    : result database :=
  let missing := Raise (KeyError ("active API key not found: " +:+ key_id)) in
  match api_keys db !! key_id with
  | Some r =>
    if decide (ak_revoked_at r = None) then
      Ok (set_keys (<[key_id := f r]> (api_keys db)) (bootstrap_complete db) (admin_audit_events db) db)
    else missing
  | None => missing
  end.

Definition renamed (name : string) (expires_at : option Z) (updated_at : Z) (r : ApiKeyRecord)
    : ApiKeyRecord :=
  {| ak_key_id := ak_key_id r; ak_name := name; ak_key_hash := ak_key_hash r;
     ak_key_hint := ak_key_hint r; ak_created_at := ak_created_at r; ak_updated_at := updated_at;
     ak_expires_at := expires_at; ak_revoked_at := ak_revoked_at r; ak_origin := ak_origin r |}.

Definition revoked (revoked_at : Z) (r : ApiKeyRecord) : ApiKeyRecord :=
  {| ak_key_id := ak_key_id r; ak_name := ak_name r; ak_key_hash := ak_key_hash r;
     ak_key_hint := ak_key_hint r; ak_created_at := ak_created_at r; ak_updated_at := revoked_at;
     ak_expires_at := ak_expires_at r; ak_revoked_at := Some revoked_at; ak_origin := ak_origin r |}.

(** The five deletions of [CleanupCommand]. *)
Definition cleanup_tables (c : CleanupCommand) (db : database) : database * CleanupResult :=
  let '(minutes, n1) :=
    delete_unless (λ kr : minute_key * stored MinutePriceRecord,
                     ¬ mp_timestamp (row kr.2) < cc_minute_before c) (minute_prices db) in
  let '(aggregates, n2) :=
    delete_unless (λ kr : aggregate_key * stored AggregatePriceRecord,
                     ¬ (ar_interval_seconds (row kr.2) ≠ 86400 ∧
                        ar_bucket_start (row kr.2) < cc_aggregate_before c)) (aggregate_prices db) in
  let '(daily, n3) :=
    delete_unless (λ kr : aggregate_key * stored AggregatePriceRecord,
                     ¬ (ar_interval_seconds (row kr.2) = 86400 ∧
                        ar_bucket_start (row kr.2) < cc_daily_before c)) aggregates in
  let '(dividends, n4) :=
    delete_unless (λ kr : dividend_key * stored DividendEventRecord,
                     Some kr.1 = dividend_key_of ∘ row <$> newest_dividend db (dr_symbol (row kr.2)))
      (dividend_events db) in
  let '(yields, n5) :=
    delete_unless (λ kr : yield_key * stored YieldMetricRecord,
                     Some kr.1 = yield_key_of ∘ row <$> newest_yield db (yr_symbol (row kr.2)))
      (yield_metrics db) in
  (set_events dividends yields (set_prices minutes daily db),
   {| cl_minute_prices_deleted := n1; cl_aggregate_prices_deleted := n2 + n3;
      cl_dividend_events_deleted := n4; cl_yield_metrics_deleted := n5 |}).

(** The branches of [_execute_write]; [now] is the clock reading of
    [stored_at]. *)
Definition write_minute_price (now : Z) (r : MinutePriceRecord) (db : database)
    : result (database * WriteOutcome) :=
  _ ← encode_json (mp_source r);
  let '(t, n) := upsert (minute_key_of r) {| row := r; stored_at := now |} (minute_prices db) in
  Ok (set_prices t (aggregate_prices db) db, WriteResult n).

Definition write_aggregate_price (now : Z) (r : AggregatePriceRecord) (db : database)
    : result (database * WriteOutcome) :=
  _ ← encode_json (ar_source r);
  let '(t, n) := upsert (aggregate_key_of r) {| row := r; stored_at := now |} (aggregate_prices db) in
  Ok (set_prices (minute_prices db) t db, WriteResult n).

Definition write_latest_snapshot (now : Z) (r : LatestSnapshotRecord) (db : database)
    : result (database * WriteOutcome) :=
  _ ← encode_json (ls_payload r);
  let '(t, n) := upsert_newer (ls_as_of ∘ row) (ls_symbol r) {| row := r; stored_at := now |}
                   (latest_snapshots db) in
  Ok (set_snapshots t db, WriteResult n).

Definition write_dividend_event (now : Z) (r : DividendEventRecord) (db : database)
    : result (database * WriteOutcome) :=
  _ ← encode_json (dr_raw r);
  let '(t, n) := upsert (dividend_key_of r) {| row := r; stored_at := now |} (dividend_events db) in
  Ok (set_events t (yield_metrics db) db, WriteResult n).

Definition write_yield_metric (now : Z) (r : YieldMetricRecord) (db : database)
    : result (database * WriteOutcome) :=
  _ ← encode_json (yr_raw r);
  let '(t, n) := upsert (yield_key_of r) {| row := r; stored_at := now |} (yield_metrics db) in
  Ok (set_events (dividend_events db) t db, WriteResult n).

Definition write_provider_checkpoint (r : ProviderCheckpointRecord) (db : database)
    : result (database * WriteOutcome) :=
  _ ← encode_json (pr_checkpoint r);
  let '(t, n) := upsert_newer pr_updated_at (checkpoint_key_of r) r (provider_checkpoints db) in
  Ok (set_checkpoints t db, WriteResult n).

Definition write_bootstrap_api_keys (records : list ApiKeyRecord) (completed_at : Z) (db : database)
    : result (database * WriteOutcome) :=
  acc ← fold_result bootstrap_api_key (db, 0%nat) records;
  Ok (set_keys (api_keys acc.1) (Some completed_at) (admin_audit_events acc.1) acc.1,
      WriteResult (S acc.2)).

Definition write_import_api_keys (records : list ApiKeyRecord) (audit : AdminAuditEventRecord)
    (db : database) : result (database * WriteOutcome) :=
  db' ← fold_result (λ db r, insert_api_key r db) db records;
  db'' ← insert_admin_audit audit db';
  Ok (db'', WriteResult (S (length records))).

Definition write_update_api_key (c : UpdateApiKeyCommand) (db : database)
    : result (database * WriteOutcome) :=
  db' ← update_active_key (uk_key_id c) (renamed (uk_name c) (uk_expires_at c) (uk_updated_at c)) db;
  db'' ← insert_admin_audit (uk_audit c) db';
  Ok (db'', WriteResult 1).

Definition write_revoke_api_key (c : RevokeApiKeyCommand) (db : database)
    : result (database * WriteOutcome) :=
  db' ← update_active_key (rk_key_id c) (revoked (rk_revoked_at c)) db;
  db'' ← insert_admin_audit (rk_audit c) db';
  Ok (db'', WriteResult 1).

(** [_execute_write] *)
Definition execute_write (now : Z) (command : WriteCommand) (db : database)
    : result (database * WriteOutcome) :=
  match command with
  | WMinutePrice r => write_minute_price now r db
  | WAggregatePrice r => write_aggregate_price now r db
  | WLatestSnapshot r => write_latest_snapshot now r db
  | WDividendEvent r => write_dividend_event now r db
  | WYieldMetric r => write_yield_metric now r db
  | WProviderCheckpoint r => write_provider_checkpoint r db
  | WApiKey r => db' ← insert_api_key r db; Ok (db', WriteResult 1)
  | WAdminAuditEvent r => db' ← insert_admin_audit r db; Ok (db', WriteResult 1)
  | WBootstrapApiKeys records completed_at => write_bootstrap_api_keys records completed_at db
  | WImportApiKeys records audit => write_import_api_keys records audit db
  | WUpdateApiKey c => write_update_api_key c db
  | WRevokeApiKey c => write_revoke_api_key c db
  | WCleanup c => let '(db', r) := cleanup_tables c db in Ok (db', Cleaned r)
  end.

End engine.

(** ** The writer *)

Record CheckpointResult := {
  ck_busy : Z;
  ck_wal_frames : Z;
  ck_checkpointed_frames : Z;
  ck_mode : string;
}.

Inductive QueuedCommand :=
| QWrite (c : WriteCommand)
| QBarrier
| QCheckpoint (mode : string).

(** [ev_future] names the future the caller waits for, if it does. *)
Record envelope := { ev_command : QueuedCommand; ev_future : option nat }.

Inductive item :=
| Queued (e : envelope)
| StopMarker.

Inductive future_result :=
| FOutcome (r : WriteOutcome)
| FCheckpoint (r : CheckpointResult)
| FDone
| FError (e : exn).

Record storage_config := { sg_batch_size : nat; sg_queue_capacity : nat }.

Record SQLiteStorage := {
  db : database;
  queue : list item;
  writer_alive : bool;
  stopping : bool;
  fatal_error : option exn;
  batches_committed : nat;
  records_committed : nat;
  commit_failures : nat;
  unreported_failure : option exn;
  last_checkpoint : option CheckpointResult;
  max_queue_depth : nat;
  futures : gmap nat future_result;  (* those that are done *)
  next_future : nat;
}.

Definition StorageNotRunning (msg : string) : exn := NamedError "StorageNotRunning" msg.
Definition StorageWriterFailed (msg : string) : exn := NamedError "StorageWriterFailed" msg.
Definition StorageBatchError (msg : string) : exn := NamedError "StorageBatchError" msg.
(** The timeout in seconds that ends the message is left out. *)
Definition StorageQueueFull : exn :=
  NamedError "StorageQueueFull" "SQLite writer queue remained full".

(** The checks of [SQLiteStorage.__init__]; durations are in microseconds. *)
Definition storage_config_init (memory : bool) (batch_size : Z) (batch_interval : Z)
    (batch_interval_ms : option Z) (queue_capacity busy_timeout_ms enqueue_timeout : Z)
    : result storage_config :=
  _ ← raise_if memory (ValueError "SQLiteStorage requires a file-backed database");
  interval ← match batch_interval_ms with
             | None => Ok batch_interval
             | Some ms =>
               _ ← raise_if (bool_decide (ms ≤ 0)) (ValueError "batch_interval_ms must be positive");
               _ ← raise_if (bool_decide (batch_interval ≠ 250000))
                     (ValueError "specify only one of batch_interval and batch_interval_ms");
               Ok (ms * 1000)
             end;
  _ ← raise_if (bool_decide (batch_size ≤ 0)) (ValueError "batch_size must be positive");
  _ ← raise_if (bool_decide (interval ≤ 0)) (ValueError "batch_interval must be positive");
  _ ← raise_if (bool_decide (queue_capacity ≤ 0)) (ValueError "queue_capacity must be positive");
  _ ← raise_if (bool_decide (busy_timeout_ms < 0)) (ValueError "busy_timeout_ms cannot be negative");
  _ ← raise_if (bool_decide (enqueue_timeout ≤ 0)) (ValueError "enqueue_timeout must be positive");
  Ok {| sg_batch_size := Z.to_nat batch_size; sg_queue_capacity := Z.to_nat queue_capacity |}.

(** The state of the object once [start] has returned. *)
Definition started (d : database) : SQLiteStorage :=
  {| db := d; queue := []; writer_alive := true; stopping := false; fatal_error := None;
     batches_committed := 0; records_committed := 0; commit_failures := 0;
     unreported_failure := None; last_checkpoint := None; max_queue_depth := 0; futures := ∅;
     next_future := 0 |}.

Definition set_queue (q : list item) (s : SQLiteStorage) : SQLiteStorage :=
  {| db := db s; queue := q; writer_alive := writer_alive s; stopping := stopping s;
     fatal_error := fatal_error s; batches_committed := batches_committed s;
     records_committed := records_committed s; commit_failures := commit_failures s;
     unreported_failure := unreported_failure s; last_checkpoint := last_checkpoint s;
     max_queue_depth := max_queue_depth s; futures := futures s; next_future := next_future s |}.

Definition set_unreported (e : option exn) (s : SQLiteStorage) : SQLiteStorage :=
  {| db := db s; queue := queue s; writer_alive := writer_alive s; stopping := stopping s;
     fatal_error := fatal_error s; batches_committed := batches_committed s;
     records_committed := records_committed s; commit_failures := commit_failures s;
     unreported_failure := e; last_checkpoint := last_checkpoint s;
     max_queue_depth := max_queue_depth s; futures := futures s; next_future := next_future s |}.

(** [if future is not None and not future.done(): future.set_...] *)
Definition resolve_in (future : option nat) (r : future_result) (m : gmap nat future_result)
    : gmap nat future_result :=
  match future with
  | Some f => match m !! f with Some _ => m | None => <[f := r]> m end
  | None => m
  end.

Definition resolve (future : option nat) (r : future_result) (s : SQLiteStorage) : SQLiteStorage :=
  {| db := db s; queue := queue s; writer_alive := writer_alive s; stopping := stopping s;
     fatal_error := fatal_error s; batches_committed := batches_committed s;
     records_committed := records_committed s; commit_failures := commit_failures s;
     unreported_failure := unreported_failure s; last_checkpoint := last_checkpoint s;
     max_queue_depth := max_queue_depth s; futures := resolve_in future r (futures s);
     next_future := next_future s |}.

Section writer.
Context `{SqlEngine}.

(** How a transaction goes besides its commands: the clock of each command, an
    exception of [BEGIN] (or injected before it) and one of [COMMIT]. *)
Record segment_env := {
  se_clock : nat → Z;
  se_begin : option exn;
  se_commit : option exn;
}.

Fixpoint execute_all (clock : nat → Z) (i : nat) (commands : list WriteCommand) (d : database)
    : result (database * list WriteOutcome) :=
  match commands with
  | [] => Ok (d, [])
  | c :: commands' =>
    r ← execute_write (clock i) c d;
    rest ← execute_all clock (S i) commands' r.1;
    Ok (rest.1, r.2 :: rest.2)
  end.

Definition transaction (env : segment_env) (commands : list WriteCommand) (d : database)
    : result (database * list WriteOutcome) :=
  match se_begin env with
  | Some e => Raise e
  | None =>
    r ← execute_all (se_clock env) 0 commands d;
    match se_commit env with Some e => Raise e | None => Ok r end
  end.

Abbreviation write := (WriteCommand * option nat)%type.

Definition resolve_all (fs : list (option nat * future_result)) (m : gmap nat future_result)
    : gmap nat future_result :=
  foldl (λ m f, resolve_in f.1 f.2 m) m fs.

(** [_commit_segment] *)
Definition commit_segment (env : segment_env) (ws : list write) (s : SQLiteStorage) : SQLiteStorage :=
  match transaction env ws.*1 (db s) with
  | Raise e =>
    let wrapped := StorageBatchError ("SQLite batch rolled back: " +:+ exn_text e) in
    {| db := db s; queue := queue s; writer_alive := writer_alive s; stopping := stopping s;
       fatal_error := fatal_error s; batches_committed := batches_committed s;
       records_committed := records_committed s; commit_failures := S (commit_failures s);
       unreported_failure :=
         if existsb (λ w : write, bool_decide (w.2 = None)) ws then Some e else unreported_failure s;
       last_checkpoint := last_checkpoint s; max_queue_depth := max_queue_depth s;
       futures := resolve_all (map (λ w : write, (w.2, FError wrapped)) ws) (futures s);
       next_future := next_future s |}
  | Ok (d, outcomes) =>
    {| db := d; queue := queue s; writer_alive := writer_alive s; stopping := stopping s;
       fatal_error := fatal_error s; batches_committed := S (batches_committed s);
       records_committed := (records_committed s + length ws)%nat; commit_failures := commit_failures s;
       unreported_failure := unreported_failure s; last_checkpoint := last_checkpoint s;
       max_queue_depth := max_queue_depth s;
       futures := resolve_all (zip ws.*2 (map FOutcome outcomes)) (futures s);
       next_future := next_future s |}
  end.

(** [_process_control]; [wal] is what the checkpoint pragma delivers. *)
Definition process_control (wal : result (Z * Z * Z)) (command : QueuedCommand) (future : option nat)
    (s : SQLiteStorage) : SQLiteStorage :=
  match command with
  | QWrite _ => s
  | QBarrier =>
    let r := match unreported_failure s with
             | None => FDone
             | Some e => FError (StorageBatchError ("an asynchronous SQLite write failed: " +:+ exn_text e))
             end in
    resolve future r (set_unreported None s)
  | QCheckpoint mode =>
    match wal with
    | Ok (busy, frames, done_frames) =>
      let r := {| ck_busy := busy; ck_wal_frames := frames; ck_checkpointed_frames := done_frames;
                  ck_mode := mode |} in
      resolve future (FCheckpoint r)
        {| db := db s; queue := queue s; writer_alive := writer_alive s; stopping := stopping s;
           fatal_error := fatal_error s; batches_committed := batches_committed s;
           records_committed := records_committed s; commit_failures := commit_failures s;
           unreported_failure := unreported_failure s; last_checkpoint := Some r;
           max_queue_depth := max_queue_depth s; futures := futures s; next_future := next_future s |}
    | Raise e =>
      resolve future (FError (NamedError "StorageError" ("WAL checkpoint failed: " +:+ exn_text e))) s
    end
  end.

(** How the transactions and checkpoints of a batch go, by position. *)
Record batch_env := {
  be_segment : nat → segment_env;
  be_wal : nat → result (Z * Z * Z);
}.

Definition flush_segment (env : batch_env) (i : nat) (segment : list write) (s : SQLiteStorage)
    : SQLiteStorage :=
  if decide (segment = []) then s else commit_segment (be_segment env i) segment s.

(** [_process_envelopes] *)
Fixpoint process_envelopes (env : batch_env) (i : nat) (segment : list write) (es : list envelope)
    (s : SQLiteStorage) : SQLiteStorage :=
  match es with
  | [] => flush_segment env i segment s
  | e :: es' =>
    match ev_command e with
    | QWrite c => process_envelopes env i (segment ++ [(c, ev_future e)]) es' s
    | control =>
      process_envelopes env (S i) [] es'
        (process_control (be_wal env i) control (ev_future e) (flush_segment env i segment s))
    end
  end.

Definition is_control (e : envelope) : bool := match ev_command e with QWrite _ => false | _ => true end.

(** The rest of a batch after its first envelope: at most [n] more, up to a
    control command; the flag tells that the stop marker was met. *)
Fixpoint gather (n : nat) (q : list item) : list envelope * list item * bool :=
  match n, q with
  | O, _ | _, [] => ([], q, false)
  | S _, StopMarker :: q' => ([], q', true)
  | S n', Queued e :: q' =>
    if is_control e then ([e], q', false)
    else let '(es, q'', stop) := gather n' q' in (e :: es, q'', stop)
  end.

Definition stop_writer (s : SQLiteStorage) : SQLiteStorage :=
  {| db := db s; queue := queue s; writer_alive := false; stopping := stopping s;
     fatal_error := fatal_error s; batches_committed := batches_committed s;
     records_committed := records_committed s; commit_failures := commit_failures s;
     unreported_failure := unreported_failure s; last_checkpoint := last_checkpoint s;
     max_queue_depth := max_queue_depth s; futures := futures s; next_future := next_future s |}.

(** One round of the loop of [_writer_main]; [arrived] bounds how many
    envelopes arrived before the batch interval ended. *)
Definition writer_round (cfg : storage_config) (arrived : nat) (env : batch_env) (s : SQLiteStorage)
    : SQLiteStorage :=
  if negb (writer_alive s) then s
  else match queue s with
       | [] => s
       | StopMarker :: q => stop_writer (set_queue q s)
       | Queued e :: q =>
         let '(es, q', stop) := gather (Nat.min arrived (pred (sg_batch_size cfg))) q in
         let s' := process_envelopes env 0 [] (e :: es) (set_queue q' s) in
         if stop then stop_writer s' else s'
       end.

(** ** Callers *)

(** [_put]: the writer must be running, and then the envelope is appended once
    the queue has room; a caller that waits for room does not check again. *)
Definition put_check (s : SQLiteStorage) : result unit :=
  raise_if (stopping s || negb (writer_alive s))
    (match fatal_error s with
     | Some error => StorageWriterFailed (exn_text error)
     | None => StorageNotRunning "SQLite writer is not running"
     end).

Definition put_append (cfg : storage_config) (e : envelope) (s : SQLiteStorage)
    : SQLiteStorage * result unit :=
  if decide (sg_queue_capacity cfg ≤ length (queue s))%nat then (s, Raise StorageQueueFull)
  else
    ({| db := db s; queue := queue s ++ [Queued e]; writer_alive := writer_alive s;
        stopping := stopping s; fatal_error := fatal_error s;
        batches_committed := batches_committed s; records_committed := records_committed s;
        commit_failures := commit_failures s; unreported_failure := unreported_failure s;
        last_checkpoint := last_checkpoint s;
        max_queue_depth := Nat.max (max_queue_depth s) (S (length (queue s)));
        futures := futures s; next_future := next_future s |}, Ok tt).

Definition put (cfg : storage_config) (checked : bool) (e : envelope) (s : SQLiteStorage)
    : SQLiteStorage * result unit :=
  match (if checked then Ok tt else put_check s) with
  | Raise error => (s, Raise error)
  | Ok _ => put_append cfg e s
  end.

Definition with_future (s : SQLiteStorage) : SQLiteStorage :=
  {| db := db s; queue := queue s; writer_alive := writer_alive s; stopping := stopping s;
     fatal_error := fatal_error s; batches_committed := batches_committed s;
     records_committed := records_committed s; commit_failures := commit_failures s;
     unreported_failure := unreported_failure s; last_checkpoint := last_checkpoint s;
     max_queue_depth := max_queue_depth s; futures := futures s; next_future := S (next_future s) |}.

(** The part of [enqueue], [flush] and [checkpoint] before the wait: the future
    the caller then waits for.  [checked] tells that the caller passed the check
    earlier and waited for room since. *)
Definition submit (cfg : storage_config) (checked : bool) (command : QueuedCommand) (wait : bool)
    (s : SQLiteStorage)
    : SQLiteStorage * result (option nat) :=
  let future := if wait then Some (next_future s) else None in
  let s1 := if wait then with_future s else s in
  let '(s2, r) := put cfg checked {| ev_command := command; ev_future := future |} s1 in
  (s2, _ ← r; Ok future).

Definition enqueue (cfg : storage_config) (command : WriteCommand) (wait : bool) (s : SQLiteStorage)
    : SQLiteStorage * result (option nat) :=
  submit cfg false (QWrite command) wait s.

Definition flush (cfg : storage_config) (s : SQLiteStorage) : SQLiteStorage * result (option nat) :=
  submit cfg false QBarrier true s.

Definition checkpoint (cfg : storage_config) (mode : string) (s : SQLiteStorage)
    : SQLiteStorage * result (option nat) :=
  let normalized := upper mode in
  if bool_decide (normalized ∈ ["PASSIVE"; "FULL"; "RESTART"; "TRUNCATE"]) then
    submit cfg false (QCheckpoint normalized) true s
  else (s, Raise (ValueError ("unsupported WAL checkpoint mode: " +:+ py_repr mode))).

Definition positive_retentions (minute aggregate daily : Z) : result unit :=
  raise_if (bool_decide (minute ≤ 0 ∨ aggregate ≤ 0 ∨ daily ≤ 0))
    (ValueError "retention durations must be positive").

Definition cleanup (cfg : storage_config) (now minute aggregate daily : Z) (s : SQLiteStorage)
    : SQLiteStorage * result (option nat) :=
  match positive_retentions minute aggregate daily with
  | Raise e => (s, Raise e)
  | Ok _ => enqueue cfg (WCleanup {| cc_minute_before := now - minute;
                                     cc_aggregate_before := now - aggregate;
                                     cc_daily_before := now - daily |}) true s
  end.

(** The part of [stop] before the join. *)
Definition request_stop (cfg : storage_config) (s : SQLiteStorage) : SQLiteStorage * result unit :=
  if decide (sg_queue_capacity cfg ≤ length (queue s))%nat then
    (s, Raise (NamedError "StorageQueueFull" "could not enqueue writer stop marker"))
  else
    ({| db := db s; queue := queue s ++ [StopMarker]; writer_alive := writer_alive s; stopping := true;
        fatal_error := fatal_error s; batches_committed := batches_committed s;
        records_committed := records_committed s; commit_failures := commit_failures s;
        unreported_failure := unreported_failure s; last_checkpoint := last_checkpoint s;
        max_queue_depth := max_queue_depth s; futures := futures s; next_future := next_future s |},
     Ok tt).

(** The part after the writer thread has ended. *)
Definition finish_stop (s : SQLiteStorage) : SQLiteStorage * result unit :=
  match fatal_error s with
  | Some e => (s, Raise (StorageWriterFailed ("SQLite writer terminated unexpectedly: " +:+ exn_text e)))
  | None =>
    (set_unreported None s,
     match unreported_failure s with
     | Some e => Raise (StorageBatchError ("an asynchronous SQLite write failed before shutdown: " +:+
                                           exn_text e))
     | None => Ok tt
     end)
  end.

(** An exception outside a transaction ends the writer, and [_fail_pending]
    fails what is queued. *)
Definition item_future (i : item) : option nat :=
  match i with Queued e => ev_future e | StopMarker => None end.

Definition writer_crash (e : exn) (s : SQLiteStorage) : SQLiteStorage :=
  {| db := db s; queue := []; writer_alive := false; stopping := stopping s; fatal_error := Some e;
     batches_committed := batches_committed s; records_committed := records_committed s;
     commit_failures := commit_failures s; unreported_failure := unreported_failure s;
     last_checkpoint := last_checkpoint s; max_queue_depth := max_queue_depth s;
     futures := resolve_all (map (λ i, (item_future i, FError (StorageWriterFailed (exn_text e)))) (queue s))
                  (futures s);
     next_future := next_future s |}.

(** ** Histories of the object *)

(** The atomic steps: a caller queues a command, the writer runs a round or
    crashes, [stop] queues its marker. *)
Inductive event :=
| Submit (checked : bool) (c : QueuedCommand) (wait : bool)
| Round (arrived : nat) (env : batch_env)
| RequestStop
| Crash (e : exn).

(** A step, and the command it accepted with the future that was given out. *)
Definition storage_step (cfg : storage_config) (ev : event) (s : SQLiteStorage)
    : SQLiteStorage * list (QueuedCommand * option nat) :=
  match ev with
  | Submit checked c wait =>
    match submit cfg checked c wait s with
    | (s', Ok future) => (s', [(c, future)])
    | (s', Raise _) => (s', [])
    end
  | Round arrived env => (writer_round cfg arrived env s, [])
  | RequestStop => ((request_stop cfg s).1, [])
  | Crash e => (if writer_alive s then writer_crash e s else s, [])
  end.

Fixpoint storage_run (cfg : storage_config) (evs : list event) (s : SQLiteStorage)
    : SQLiteStorage * list (QueuedCommand * option nat) :=
  match evs with
  | [] => (s, [])
  | ev :: evs' =>
    let '(s1, a1) := storage_step cfg ev s in
    let '(s2, a2) := storage_run cfg evs' s1 in (s2, a1 ++ a2)
  end.

End writer.
