(* ===== verification/StorageFacts.v ===== *)
(** * Properties of persistence

    The writer as a serial log of transactions, and what the tables hold after
    writes, clean-up and restart. *)

From S2P Require Import Prelude PyStr PyDecimal PyTime Json Domain StorageRecords Storage.

Local Open Scope string_scope.
Local Open Scope list_scope.
Local Open Scope Z_scope.

(** ** The log of the writer *)

Abbreviation write := (WriteCommand * option nat)%type.

(** What the writer did, in order: a committed or a rolled back transaction, a
    control command it answered, the commands a crash abandoned. *)
Inductive entry :=
| Committed (ws : list write) (outcomes : list WriteOutcome)
| RolledBack (ws : list write) (e : exn)
| Flushed (future : option nat) (failure : option exn)
| WalDone (mode : string) (future : option nat) (answer : future_result)
| Abandoned (cs : list (QueuedCommand * option nat)) (e : exn).

Definition batch_error (e : exn) : exn := StorageBatchError ("SQLite batch rolled back: " +:+ exn_text e).

Definition flush_answer (failure : option exn) : future_result :=
  match failure with
  | None => FDone
  | Some e => FError (StorageBatchError ("an asynchronous SQLite write failed: " +:+ exn_text e))
  end.

(** What an entry tells the callers that wait. *)
Definition answers (x : entry) : list (option nat * future_result) :=
  match x with
  | Committed ws outcomes => zip ws.*2 (map FOutcome outcomes)
  | RolledBack ws e => map (λ w : write, (w.2, FError (batch_error e))) ws
  | Flushed future failure => [(future, flush_answer failure)]
  | WalDone _ future answer => [(future, answer)]
  | Abandoned cs e =>
    map (λ c : QueuedCommand * option nat, (c.2, FError (StorageWriterFailed (exn_text e)))) cs
  end.

(** The commands an entry stands for, as they were queued. *)
Definition commands_of (x : entry) : list (QueuedCommand * option nat) :=
  match x with
  | Committed ws _ | RolledBack ws _ => map (λ w : write, (QWrite w.1, w.2)) ws
  | Flushed future _ => [(QBarrier, future)]
  | WalDone mode future _ => [(QCheckpoint mode, future)]
  | Abandoned cs _ => cs
  end.

Definition envelope_command (e : envelope) : QueuedCommand * option nat := (ev_command e, ev_future e).

Definition item_command (i : item) : option (QueuedCommand * option nat) :=
  match i with Queued e => Some (envelope_command e) | StopMarker => None end.

Section facts.
Context `{SqlEngine}.

(** The effect of an entry on the tables and on the failure that no caller has
    been told of yet. *)
Inductive logged : database * option exn → entry → database * option exn → Prop :=
| logged_commit env ws outcomes d d' u :
    transaction env ws.*1 d = Ok (d', outcomes) →
    logged (d, u) (Committed ws outcomes) (d', u)
| logged_rollback env ws e d u :
    transaction env ws.*1 d = Raise e →
    logged (d, u) (RolledBack ws e)
      (d, if existsb (λ w : write, bool_decide (w.2 = None)) ws then Some e else u)
| logged_flush future d u : logged (d, u) (Flushed future u) (d, None)
| logged_wal mode future answer d u : logged (d, u) (WalDone mode future answer) (d, u)
| logged_abandon cs e d u : logged (d, u) (Abandoned cs e) (d, u).

Inductive replay : database * option exn → list entry → database * option exn → Prop :=
| replay_nil x : replay x [] x
| replay_cons x y z e log : logged x e y → replay y log z → replay x (e :: log) z.

Lemma replay_app x y z l1 l2 : replay x l1 y → replay y l2 z → replay x (l1 ++ l2) z.
Proof. induction 1; cbn; [done|]. intros. by econstructor; eauto. Qed.

Definition view (s : SQLiteStorage) : database * option exn := (db s, unreported_failure s).

(** A stretch of the log that leads from [s] to [s']. *)
Definition logs (s : SQLiteStorage) (log : list entry) (s' : SQLiteStorage) : Prop :=
  replay (view s) log (view s') ∧
  futures s' = resolve_all (concat (map answers log)) (futures s) ∧
  next_future s' = next_future s.

Lemma logs_nil s s' :
  view s' = view s → futures s' = futures s → next_future s' = next_future s → logs s [] s'.
Proof. intros Hv Hf Hn. split_and!; [rewrite Hv; constructor|done|done]. Qed.

Lemma resolve_all_app l1 l2 m : resolve_all (l1 ++ l2) m = resolve_all l2 (resolve_all l1 m).
Proof. apply foldl_app. Qed.

Lemma logs_app s1 s2 s3 l1 l2 : logs s1 l1 s2 → logs s2 l2 s3 → logs s1 (l1 ++ l2) s3.
Proof.
  intros (Hr1 & Hf1 & Hn1) (Hr2 & Hf2 & Hn2). split_and!; [by eapply replay_app| |congruence].
  by rewrite Hf2, Hf1, map_app, concat_app, resolve_all_app.
Qed.

Lemma commit_segment_logs env ws s :
  ∃ x, logs s [x] (commit_segment env ws s) ∧ commands_of x = map (λ w : write, (QWrite w.1, w.2)) ws ∧
    queue (commit_segment env ws s) = queue s ∧ writer_alive (commit_segment env ws s) = writer_alive s.
Proof.
  unfold commit_segment. destruct (transaction env ws.*1 (db s)) as [[d outcomes]|e] eqn:Ht.
  - exists (Committed ws outcomes). split_and!; [|done..]. split_and!; [|cbn; by rewrite app_nil_r|done].
    econstructor; [|constructor]. by econstructor.
  - exists (RolledBack ws e). split_and!; [|done..]. split_and!; [|cbn; by rewrite app_nil_r|done].
    econstructor; [|constructor]. by econstructor.
Qed.

Lemma process_control_logs wal c future s :
  is_control {| ev_command := c; ev_future := future |} = true →
  let s' := process_control wal c future s in
  ∃ x, logs s [x] s' ∧ commands_of x = [(c, future)] ∧ queue s' = queue s ∧
    writer_alive s' = writer_alive s.
Proof.
  destruct c as [w| |mode]; [done| |]; intros _.
  - exists (Flushed future (unreported_failure s)). split_and!; [|done..]. split_and!; [|done|done].
    econstructor; [|constructor]. apply logged_flush.
  - cbn. destruct wal as [[[busy frames] done_frames]|e].
    + eexists (WalDone mode future _). split_and!; [|done..]. split_and!; [|cbn; reflexivity|done].
      econstructor; [|constructor]. apply logged_wal.
    + eexists (WalDone mode future _). split_and!; [|done..]. split_and!; [|cbn; reflexivity|done].
      econstructor; [|constructor]. apply logged_wal.
Qed.

Lemma flush_segment_logs env i ws s :
  let s' := flush_segment env i ws s in
  ∃ log, logs s log s' ∧ concat (map commands_of log) = map (λ w : write, (QWrite w.1, w.2)) ws ∧
    queue s' = queue s ∧ writer_alive s' = writer_alive s.
Proof.
  cbv zeta. unfold flush_segment. case_decide as Hw.
  - subst. exists []. split_and!; [by apply logs_nil|done..].
  - destruct (commit_segment_logs (be_segment env i) ws s) as (x & Hl & Hc & Hq & Ha).
    exists [x]. split_and!; [done| |done..]. cbn. by rewrite app_nil_r.
Qed.

(** A batch is logged in the order of its envelopes. *)
Lemma process_envelopes_logs env es : ∀ i ws s,
  let s' := process_envelopes env i ws es s in
  ∃ log, logs s log s' ∧
    concat (map commands_of log) = map (λ w : write, (QWrite w.1, w.2)) ws ++ map envelope_command es ∧
    queue s' = queue s ∧ writer_alive s' = writer_alive s.
Proof.
  induction es as [|[c future] es IH]; intros i ws s; cbv zeta.
  { cbn [process_envelopes map]. rewrite app_nil_r. apply flush_segment_logs. }
  destruct (is_control {| ev_command := c; ev_future := future |}) eqn:Hc.
  - assert (Heq : process_envelopes env i ws ({| ev_command := c; ev_future := future |} :: es) s =
      process_envelopes env (S i) [] es
        (process_control (be_wal env i) c future (flush_segment env i ws s))) by (by destruct c).
    rewrite Heq. destruct (flush_segment_logs env i ws s) as (l1 & H1 & C1 & Q1 & A1).
    destruct (process_control_logs (be_wal env i) c future (flush_segment env i ws s) Hc)
      as (x & H2 & C2 & Q2 & A2).
    destruct (IH (S i) [] (process_control (be_wal env i) c future (flush_segment env i ws s)))
      as (l3 & H3 & C3 & Q3 & A3).
    exists (l1 ++ [x] ++ l3). split_and!; [by eapply logs_app, logs_app| |congruence..].
    rewrite !map_app, !concat_app, C1, C3. cbn. by rewrite app_nil_r, C2.
  - destruct c as [w| |]; [|done..]. cbn [process_envelopes ev_command ev_future].
    destruct (IH i (ws ++ [(w, future)]) s) as (l & Hl & Cl & Q & A).
    exists l. split_and!; [done| |done..]. rewrite Cl, map_app, <- app_assoc. done.
Qed.

Lemma gather_split n q es q' stop :
  gather n q = (es, q', stop) →
  ∃ tail, q = map Queued es ++ tail ∧ (tail = q' ∧ stop = false ∨ tail = StopMarker :: q' ∧ stop = true).
Proof.
  revert q es q' stop. induction n as [|n IH]; intros q es q' stop; cbn.
  { intros [= <- <- <-]. exists q. auto. }
  destruct q as [|[e|] q]; [intros [= <- <- <-]; by exists []; auto| |intros [= <- <- <-]; by exists (StopMarker :: q); auto].
  destruct (is_control e); [intros [= <- <- <-]; by exists q; auto|].
  destruct (gather n q) as [[es1 q1] stop1] eqn:Hg. intros [= <- <- <-].
  destruct (IH _ _ _ _ Hg) as (tail & -> & Ht). by exists tail.
Qed.

(** The commands that still wait in the queue. *)
Definition pending (s : SQLiteStorage) : list (QueuedCommand * option nat) :=
  omap item_command (queue s).

Lemma pending_envelopes es tail :
  omap item_command (map Queued es ++ tail) = map envelope_command es ++ omap item_command tail.
Proof. induction es as [|e es IH]; cbn; [done|]. by rewrite IH. Qed.

Lemma writer_round_logs cfg arrived env s :
  let s' := writer_round cfg arrived env s in
  ∃ log, logs s log s' ∧ pending s = concat (map commands_of log) ++ pending s'.
Proof.
  cbv zeta. unfold writer_round, pending. destruct (writer_alive s); cbn [negb]; [|by exists []; split; [apply logs_nil|]].
  destruct (queue s) as [|[e|] q] eqn:Hq.
  - exists []. split; [by apply logs_nil|]. by rewrite Hq.
  - destruct (gather _ q) as [[es q'] stop] eqn:Hg.
    destruct (gather_split _ _ _ _ _ Hg) as (tail & -> & Ht).
    destruct (process_envelopes_logs env (e :: es) 0%nat [] (set_queue q' s)) as (log & Hl & Hc & Hqq & _).
    exists log. cbn [map app] in Hc. split.
    + by destruct stop.
    + assert (Hp : queue (if stop then stop_writer (process_envelopes env 0 [] (e :: es) (set_queue q' s))
                   else process_envelopes env 0 [] (e :: es) (set_queue q' s)) = q').
      { destruct stop; cbn [stop_writer queue]; by rewrite Hqq. }
      rewrite Hp, Hc. change (Queued e :: map Queued es ++ tail) with (map Queued (e :: es) ++ tail).
      rewrite pending_envelopes. f_equal. by destruct Ht as [[-> _]|[-> _]].
  - exists []. split; [by apply logs_nil|]. done.
Qed.

Lemma writer_crash_logs e s :
  ∃ log, logs s log (writer_crash e s) ∧ pending s = concat (map commands_of log) ++ pending (writer_crash e s).
Proof.
  exists [Abandoned (pending s) e]. split; [|cbn; by rewrite !app_nil_r]. split_and!.
  - econstructor; [|constructor]. apply logged_abandon.
  - cbn. rewrite app_nil_r. unfold pending.
    generalize (futures s). induction (queue s) as [|[x|] q IH]; intros m; cbn; [done|apply IH|apply IH].
  - done.
Qed.

(** ** Answers *)

Lemma execute_all_length clock cs : ∀ i d d' outcomes,
  execute_all clock i cs d = Ok (d', outcomes) → length outcomes = length cs.
Proof.
  induction cs as [|c cs IH]; intros i d d' outcomes; cbn; [by intros [= _ <-]|].
  destruct (execute_write (clock i) c d) as [[d1 o]|]; cbn; [|done].
  destruct (execute_all clock (S i) cs d1) as [[d2 os]|] eqn:Hr; cbn; [|done].
  intros [= _ <-]. cbn. by erewrite IH.
Qed.

Lemma transaction_length env cs d d' outcomes :
  transaction env cs d = Ok (d', outcomes) → length outcomes = length cs.
Proof.
  unfold transaction. destruct (se_begin env); [done|].
  destruct (execute_all (se_clock env) 0 cs d) as [[d1 os]|] eqn:Hr; cbn; [|done].
  destruct (se_commit env); [done|]. intros [= -> ->]. by eapply execute_all_length.
Qed.

(** Every command of an entry gets exactly one answer. *)
Lemma logged_answers x e y : logged x e y → (answers e).*1 = (commands_of e).*2.
Proof.
  destruct 1 as [env ws outcomes d d' u Ht|env ws e d u _|future d u|mode future answer d u|cs e d u];
    cbn [answers commands_of]; [| | done..|].
  - assert (Hl : length outcomes = length ws).
    { apply transaction_length in Ht. by rewrite Ht, length_fmap. }
    rewrite fst_zip by (rewrite length_map, length_fmap; lia).
    change (map ?f ?l) with (f <$> l). by rewrite <- list_fmap_compose.
  - change (map ?f ?l) with (f <$> l). by rewrite <- !list_fmap_compose.
  - change (map ?f ?l) with (f <$> l). by rewrite <- list_fmap_compose.
Qed.

Lemma replay_answers x log y :
  replay x log y → (concat (map answers log)).*1 = (concat (map commands_of log)).*2.
Proof.
  induction 1 as [|x y z e log He _ IH]; cbn; [done|].
  by rewrite !fmap_app, IH, (logged_answers _ _ _ He).
Qed.

Lemma resolve_all_lookup l : ∀ m f r,
  NoDup (omap fst l) → (∀ g, g ∈ omap fst l → m !! g = None) →
  resolve_all l m !! f = Some r ↔ m !! f = Some r ∨ (Some f, r) ∈ l.
Proof.
  induction l as [|[o a] l IH]; intros m f r Hnd Hm; cbn.
  { rewrite elem_of_nil. tauto. }
  destruct o as [g|]; cbn [omap list_omap fst resolve_in] in *.
  - apply NoDup_cons in Hnd as [Hg Hnd]. rewrite (Hm g) by set_solver.
    unfold resolve_all in IH. rewrite IH; [|done|].
    + rewrite elem_of_cons, lookup_insert_Some. specialize (Hm g). split.
      * intros [[[-> ->]|[? ?]]|?]; tauto.
      * intros [Hf|[[= -> ->]|?]]; [|tauto..].
        destruct (decide (g = f)) as [->|]; [|tauto]. rewrite Hm in Hf by set_solver. done.
    + intros g' Hg'. rewrite lookup_insert_ne by (intros ->; done). apply Hm. set_solver.
  - unfold resolve_all in IH. rewrite IH by done. rewrite elem_of_cons. split; [tauto|].
    intros [?|[[=]|?]]; tauto.
Qed.

Lemma resolve_all_dom l : ∀ m f,
  is_Some (resolve_all l m !! f) ↔ is_Some (m !! f) ∨ Some f ∈ l.*1.
Proof.
  induction l as [|[o a] l IH]; intros m f; cbn; [rewrite elem_of_nil; tauto|].
  unfold resolve_all in IH. rewrite IH, elem_of_cons. destruct o as [g|]; cbn [resolve_in].
  - destruct (m !! g) as [b|] eqn:Hg.
    + split; [tauto|]. intros [?|[[= ->]|?]]; [tauto| |tauto]. rewrite Hg. eauto.
    + destruct (decide (f = g)) as [->|Hne].
      * rewrite lookup_insert_eq. split; [tauto|]. intros _. left. eauto.
      * rewrite lookup_insert_ne by done. split; [tauto|]. intros [?|[[= ->]|?]]; tauto.
  - split; [tauto|]. intros [?|[[=]|?]]; tauto.
Qed.

Lemma omap_fst_snd {A B C} (l : list (A * option B)) (l' : list (option B * C)) :
  l'.*1 = l.*2 → omap fst l' = omap snd l.
Proof.
  revert l'. induction l as [|[a o] l IH]; intros [|[o' c] l']; try done.
  cbn. intros [= -> Hl]. destruct o; cbn; [f_equal|]; by apply IH.
Qed.

(** The failure that a flush owes to its caller: the last roll-back of a
    fire-and-forget write since the flush before. *)
Definition owed_after (u : option exn) (x : entry) : option exn :=
  match x with
  | RolledBack ws e => if existsb (λ w : write, bool_decide (w.2 = None)) ws then Some e else u
  | Flushed _ _ => None
  | _ => u
  end.

Definition owed (log : list entry) : option exn := foldl owed_after None log.

Lemma replay_owed x log y : replay x log y → y.2 = foldl owed_after x.2 log.
Proof.
  induction 1 as [|x y z e log He _ IH]; cbn; [done|]. rewrite IH. by destruct He.
Qed.

Lemma replay_split x l1 l2 z : replay x (l1 ++ l2) z → ∃ y, replay x l1 y ∧ replay y l2 z.
Proof.
  revert x. induction l1 as [|e l1 IH]; intros x; cbn; [intros Hr; exists x; by split; [constructor|]|].
  inversion 1 as [|? y ? ? ? He Hr]; subst. destruct (IH _ Hr) as (w & H1 & H2).
  exists w. split; [by econstructor|done].
Qed.

Lemma replay_flush_owed d x log l1 f u l2 :
  replay (d, None) log x → log = l1 ++ Flushed f u :: l2 → u = owed l1.
Proof.
  intros Hr ->. apply replay_split in Hr as (y & Hr1 & Hr2). apply replay_owed in Hr1.
  inversion Hr2 as [|? ? ? ? ? He _]; subst. inversion He; subst. done.
Qed.

(** ** Histories *)

(** The log explains the state, and the futures given out are distinct. *)
Definition serial (d0 : database) (accepted : list (QueuedCommand * option nat)) (log : list entry)
    (s : SQLiteStorage) : Prop :=
  accepted = concat (map commands_of log) ++ pending s ∧
  replay (d0, None) log (view s) ∧
  futures s = resolve_all (concat (map answers log)) ∅ ∧
  NoDup (omap snd accepted) ∧ ∀ f, f ∈ omap snd accepted → (f < next_future s)%nat.

(** A step that only consumes the queue extends the log. *)
Lemma serial_logs d0 accepted log s log' s' :
  serial d0 accepted log s → logs s log' s' →
  pending s = concat (map commands_of log') ++ pending s' →
  serial d0 accepted (log ++ log') s'.
Proof.
  intros (Ha & Hr & Hf & Hnd & Hlt) (Hr' & Hf' & Hn') Hp. split_and!; [| | |done|].
  - by rewrite Ha, Hp, map_app, concat_app, app_assoc.
  - by eapply replay_app.
  - by rewrite Hf', Hf, map_app, concat_app, resolve_all_app.
  - by rewrite Hn'.
Qed.

Lemma submit_spec cfg checked c wait s s' r :
  submit cfg checked c wait s = (s', r) →
  view s' = view s ∧ futures s' = futures s ∧ (next_future s ≤ next_future s')%nat ∧
  match r with
  | Ok future =>
    queue s' = queue s ++ [Queued {| ev_command := c; ev_future := future |}] ∧
    match future with Some f => f = next_future s ∧ next_future s' = S f | None => True end
  | Raise _ => queue s' = queue s
  end.
Proof.
  unfold submit, put.
  destruct (if checked then Ok tt else put_check (if wait then with_future s else s)) as [[]|e] eqn:Hc.
  - unfold put_append. case_decide.
    + intros [= <- <-]. destruct wait; cbn; split_and!; auto with lia.
    + intros [= <- <-]. destruct wait; cbn; split_and!; auto with lia.
  - intros [= <- <-]. destruct wait; cbn; split_and!; auto with lia.
Qed.

Lemma submit_late cfg c s s' f :
  submit cfg true c true s = (s', Ok (Some f)) →
  queue s' = queue s ++ [Queued {| ev_command := c; ev_future := Some f |}] ∧
  writer_alive s' = writer_alive s ∧ futures s' = futures s ∧ f = next_future s.
Proof.
  unfold submit, put, put_append. case_decide; [done|]. by intros [= <- <-].
Qed.

Lemma submit_serial cfg checked c wait d0 accepted log s s' r :
  serial d0 accepted log s → submit cfg checked c wait s = (s', r) →
  serial d0 (accepted ++ match r with Ok future => [(c, future)] | Raise _ => [] end) log s'.
Proof.
  intros (Ha & Hr & Hf & Hnd & Hlt) Hs. destruct (submit_spec _ _ _ _ _ _ _ Hs) as (Hv & Hf' & Hn & Hq).
  assert (Hlt' : ∀ f, f ∈ omap snd accepted → (f < next_future s')%nat).
  { intros f Hin. specialize (Hlt f Hin). lia. }
  destruct r as [future|e].
  - destruct Hq as [Hq Hfut]. split_and!; [| | | |].
    + unfold pending. rewrite Hq, omap_app, Ha, app_assoc. done.
    + by rewrite Hv.
    + congruence.
    + rewrite omap_app. destruct future as [f|]; cbn; [|by rewrite app_nil_r].
      destruct Hfut as [-> _]. apply NoDup_app. split_and!; [done| |apply NoDup_singleton].
      intros g Hg ->%list_elem_of_singleton. specialize (Hlt _ Hg). lia.
    + intros g. rewrite omap_app, elem_of_app. intros [Hg|Hg]; [by apply Hlt'|].
      destruct future as [f|]; cbn in Hg; [|by apply elem_of_nil in Hg].
      apply list_elem_of_singleton in Hg as ->. destruct Hfut as [_ ->]. lia.
  - rewrite app_nil_r. split_and!; [|by rewrite Hv|congruence|done|done]. unfold pending. by rewrite Hq.
Qed.

Lemma step_serial cfg ev d0 accepted log s :
  serial d0 accepted log s →
  let '(s', a) := storage_step cfg ev s in ∃ log', serial d0 (accepted ++ a) (log ++ log') s'.
Proof.
  intros Hs. destruct ev as [checked c wait|arrived env| |e]; cbn [storage_step].
  - destruct (submit cfg checked c wait s) as [s' r] eqn:Hsub.
    pose proof (submit_serial _ _ _ _ _ _ _ _ _ _ Hs Hsub) as Hs'.
    destruct r; exists []; by rewrite (app_nil_r log).
  - rewrite app_nil_r. destruct (writer_round_logs cfg arrived env s) as (log' & Hl & Hp).
    exists log'. by eapply serial_logs.
  - rewrite app_nil_r. exists []. eapply serial_logs; [done| |];
      unfold request_stop, pending; case_decide; cbn; try done; try (by apply logs_nil).
    by rewrite omap_app, app_nil_r.
  - rewrite app_nil_r. destruct (writer_alive s).
    + destruct (writer_crash_logs e s) as (log' & Hl & Hp). exists log'. by eapply serial_logs.
    + exists []. by rewrite app_nil_r.
Qed.

Lemma run_serial cfg evs : ∀ d0 accepted log s,
  serial d0 accepted log s →
  let '(s', a) := storage_run cfg evs s in ∃ log', serial d0 (accepted ++ a) log' s'.
Proof.
  induction evs as [|ev evs IH]; intros d0 accepted log s Hs; cbn [storage_run].
  { exists log. by rewrite app_nil_r. }
  pose proof (step_serial cfg ev _ _ _ _ Hs) as Hstep.
  destruct (storage_step cfg ev s) as [s1 a1]. destruct Hstep as [log1 Hs1].
  pose proof (IH _ _ _ _ Hs1) as Hrun. destruct (storage_run cfg evs s1) as [s2 a2].
  by rewrite app_assoc.
Qed.

Lemma serial_started d0 : serial d0 [] [] (started d0).
Proof. split_and!; [done|constructor|done|constructor|]. intros f []%elem_of_nil. Qed.

(** C4: writes are all-or-nothing, first in first out, and every waiting caller
    gets the answer of its own command: in every history of the storage object
    (callers, writer rounds of any size with any faults, crashes, a stop) the
    accepted commands are, in order, those of the writer's log and those still
    queued; the tables are the effect of the committed transactions alone; a
    future is resolved exactly as the log answers it, once; and a flush reports
    the last roll-back that lost a fire-and-forget write since the flush
    before, so that one which succeeds means that none was lost. *)
Theorem writer_serialises (cfg : storage_config) (evs : list event) (d0 : database) :
  let '(s, accepted) := storage_run cfg evs (started d0) in
  ∃ log,
    accepted = concat (map commands_of log) ++ pending s ∧
    replay (d0, None) log (db s, unreported_failure s) ∧
    (∀ f r, futures s !! f = Some r ↔ (Some f, r) ∈ concat (map answers log)) ∧
    NoDup (omap snd accepted) ∧
    ∀ l1 future failure l2, log = l1 ++ Flushed future failure :: l2 → failure = owed l1.
Proof.
  pose proof (run_serial cfg evs d0 [] [] _ (serial_started d0)) as Hrun.
  destruct (storage_run cfg evs (started d0)) as [s accepted].
  destruct Hrun as (log & Ha & Hr & Hf & Hnd & _). exists log. split_and!; [done..| |done|].
  - intros f r. rewrite Hf, resolve_all_lookup.
    + rewrite lookup_empty. split; [intros [Hx|Hx]; [discriminate Hx|exact Hx]|tauto].
    + rewrite (omap_fst_snd _ _ (replay_answers _ _ _ Hr)).
      rewrite Ha, omap_app in Hnd. apply NoDup_app in Hnd as [Hnd1 _]. exact Hnd1.
    + by intros g _.
  - intros l1 future failure l2. by eapply replay_flush_owed.
Qed.

(** ** The writer drains its queue *)

Fixpoint before_marker (q : list item) : list envelope :=
  match q with
  | [] | StopMarker :: _ => []
  | Queued e :: q' => e :: before_marker q'
  end.

Fixpoint has_marker (q : list item) : bool :=
  match q with
  | [] => false
  | StopMarker :: _ => true
  | Queued _ :: q' => has_marker q'
  end.

Lemma before_marker_app es tail :
  before_marker (map Queued es ++ tail) = es ++ before_marker tail ∧
  has_marker (map Queued es ++ tail) = has_marker tail.
Proof. induction es as [|e es [IH1 IH2]]; cbn; [done|]. by rewrite IH1. Qed.

Definition answered (s : SQLiteStorage) (f : nat) : Prop := is_Some (futures s !! f).

Lemma logs_answered s log s' f :
  logs s log s' → answered s' f ↔ answered s f ∨ Some f ∈ (concat (map commands_of log)).*2.
Proof.
  intros (Hr & Hf & _). unfold answered. by rewrite Hf, resolve_all_dom, (replay_answers _ _ _ Hr).
Qed.

(** A round of a live writer takes a non-empty stretch off the queue. *)
Lemma writer_round_progress cfg arrived env s i q :
  writer_alive s = true → queue s = i :: q →
  let s' := writer_round cfg arrived env s in
  ∃ es tail, queue s = map Queued es ++ tail ∧ (length (queue s') < length (queue s))%nat ∧
    (tail = queue s' ∧ writer_alive s' = true ∨ tail = StopMarker :: queue s' ∧ writer_alive s' = false) ∧
    ∀ f, answered s' f ↔ answered s f ∨ Some f ∈ map ev_future es.
Proof.
  intros Hal Hq. cbv zeta. unfold writer_round. rewrite Hal, Hq. cbn [negb]. destruct i as [e|].
  - destruct (gather _ q) as [[es q'] stop] eqn:Hg.
    destruct (gather_split _ _ _ _ _ Hg) as (tail & -> & Ht). exists (e :: es), tail.
    destruct (process_envelopes_logs env (e :: es) 0%nat [] (set_queue q' s)) as (log & Hl & Hc & Hqq & Ha).
    pose proof (λ f, logs_answered _ _ _ f Hl) as Hans. rewrite Hc in Hans. cbn [map app] in Hans.
    assert (Hfut : ∀ f, Some f ∈ (envelope_command e :: map envelope_command es).*2 ↔
                        Some f ∈ map ev_future (e :: es)).
    { intros f. change (map ?g ?l) with (g <$> l). by rewrite fmap_cons, <- list_fmap_compose. }
    cbn [queue] in Hqq. destruct Ht as [[-> ->]|[-> ->]]; cbn [stop_writer queue writer_alive].
    + split_and!; [done| |left; split; [done|by rewrite Ha]|].
      * rewrite Hqq. cbn. rewrite length_app, length_map. lia.
      * intros f. rewrite Hans, Hfut. done.
    + split_and!; [done| |right; by rewrite Hqq|].
      * rewrite Hqq. cbn. rewrite length_app, length_map. cbn. lia.
      * intros f. unfold answered in *. cbn [futures]. rewrite Hans, Hfut. done.
  - exists [], (StopMarker :: q). split_and!; [done|cbn; lia|by right|].
    intros f. cbn. rewrite elem_of_nil. unfold answered. cbn. tauto.
Qed.

Definition run_rounds (cfg : storage_config) (rounds : list (nat * batch_env)) (s : SQLiteStorage)
    : SQLiteStorage :=
  foldl (λ s r, writer_round cfg r.1 r.2 s) s rounds.

Lemma dead_writer_rests cfg rounds s : writer_alive s = false → run_rounds cfg rounds s = s.
Proof.
  induction rounds as [|r rounds IH]; intros Ha; cbn; [done|].
  unfold writer_round at 2. rewrite Ha. by apply IH.
Qed.

Lemma idle_writer_rests cfg rounds s : queue s = [] → run_rounds cfg rounds s = s.
Proof.
  induction rounds as [|r rounds IH]; intros Hq; cbn; [done|].
  assert (Hr : writer_round cfg r.1 r.2 s = s).
  { unfold writer_round. rewrite Hq. by destruct (writer_alive s). }
  rewrite Hr. by apply IH.
Qed.

Lemma writer_drains_lemma cfg rounds s :
  writer_alive s = true → (length (queue s) ≤ length rounds)%nat →
  let s' := run_rounds cfg rounds s in
  (∀ f, answered s' f ↔ answered s f ∨ Some f ∈ map ev_future (before_marker (queue s))) ∧
  writer_alive s' = negb (has_marker (queue s)) ∧
  (has_marker (queue s) = false → queue s' = []).
Proof.
  cbv zeta. revert s. induction rounds as [|[n env] rounds IH]; intros s Hal Hlen.
  { destruct (queue s) eqn:Hq; [|cbn in Hlen; lia]. cbn. split_and!; [|done|done].
    intros f. rewrite elem_of_nil. tauto. }
  destruct (queue s) as [|i q] eqn:Hq.
  { rewrite idle_writer_rests by done. cbn. split_and!; [|done|done].
    intros f. rewrite elem_of_nil. tauto. }
  destruct (writer_round_progress cfg n env s i q Hal Hq) as (es & tail & Hsplit & Hlt & Ht & Hans).
  rewrite Hq in Hsplit, Hlt. rewrite Hsplit. destruct (before_marker_app es tail) as [-> ->].
  change (run_rounds cfg ((n, env) :: rounds) s) with (run_rounds cfg rounds (writer_round cfg n env s)).
  set (s1 := writer_round cfg n env s) in *. destruct Ht as [[-> Hal1]|[-> Hal1]].
  - destruct (IH s1 Hal1) as (H1 & H2 & H3); [cbn in *; lia|]. split_and!; [|done|done].
    intros f. rewrite H1, Hans, map_app, elem_of_app. tauto.
  - rewrite dead_writer_rests by done. cbn. split_and!; [|done|done].
    intros f. rewrite Hans, map_app, elem_of_app, elem_of_nil. tauto.
Qed.

(** A live writer answers every caller: after as many rounds as there are
    queued items, whatever the sizes of the batches and the faults in them,
    exactly the futures of the commands queued before a stop marker have been
    answered besides those that were; the queue is then empty, or the marker
    ended the writer. *)
Theorem writer_drains (cfg : storage_config) (rounds : list (nat * batch_env)) (s : SQLiteStorage)
    (Halive : writer_alive s = true) (Hrounds : (length (queue s) ≤ length rounds)%nat) :
  let s' := run_rounds cfg rounds s in
  (∀ f, answered s' f ↔ answered s f ∨ Some f ∈ map ev_future (before_marker (queue s))) ∧
  writer_alive s' = negb (has_marker (queue s)) ∧
  (has_marker (queue s) = false → queue s' = []).
Proof. by apply writer_drains_lemma. Qed.

(** ** Late callers *)

Definition calm : batch_env :=
  {| be_segment := λ _, {| se_clock := λ _, 0; se_begin := None; se_commit := None |};
     be_wal := λ _, Ok (0, 0, 0) |}.

Lemma writer_round_answered cfg n env s f : answered s f → answered (writer_round cfg n env s) f.
Proof.
  destruct (writer_round_logs cfg n env s) as (log & Hl & _). rewrite (logs_answered _ _ _ f Hl). by left.
Qed.

Lemma run_rounds_answered cfg rounds : ∀ s f, answered s f → answered (run_rounds cfg rounds s) f.
Proof.
  induction rounds as [|[n env] rounds IH]; intros s f Hf; [done|]. by apply IH, writer_round_answered.
Qed.

Lemma run_rounds_app cfg r1 r2 s : run_rounds cfg (r1 ++ r2) s = run_rounds cfg r2 (run_rounds cfg r1 s).
Proof. apply foldl_app. Qed.

(** What a live writer will ever answer. *)
Lemma drain_answers cfg rounds s f :
  writer_alive s = true → answered (run_rounds cfg rounds s) f →
  answered s f ∨ Some f ∈ map ev_future (before_marker (queue s)).
Proof.
  intros Hal Hf. set (more := replicate (length (queue s)) (0%nat, calm)).
  destruct (writer_drains_lemma cfg (rounds ++ more) s Hal) as (Hans & _).
  { rewrite length_app. unfold more. rewrite length_replicate. lia. }
  apply Hans. rewrite run_rounds_app. by apply run_rounds_answered.
Qed.

Lemma before_marker_late q e : has_marker q = true → before_marker (q ++ [Queued e]) = before_marker q.
Proof. induction q as [|[x|] q IH]; cbn; [done| |done]. intros Hm. by rewrite IH. Qed.

Lemma before_marker_pending q e : e ∈ before_marker q → envelope_command e ∈ omap item_command q.
Proof.
  induction q as [|[x|] q IH]; cbn; [by intros ?%elem_of_nil| |by intros ?%elem_of_nil].
  rewrite !elem_of_cons. intros [->|?]; [by left|right; by apply IH].
Qed.

Lemma elem_of_omap_snd {A B} (l : list (A * option B)) b : b ∈ omap snd l ↔ Some b ∈ l.*2.
Proof.
  induction l as [|[a [x|]] l IH]; cbn; rewrite ?elem_of_cons, ?elem_of_nil; [done| |].
  - rewrite IH. split; (intros [?|?]; [left; congruence|by right]).
  - rewrite IH. split; [by right|]. by intros [?|?].
Qed.

(** The futures given out are below [next_future], the answered and the pending
    ones among them. *)
Lemma serial_known d0 accepted log s f :
  serial d0 accepted log s → answered s f ∨ Some f ∈ (pending s).*2 → (f < next_future s)%nat.
Proof.
  intros (Ha & Hr & Hf & _ & Hlt) Hk. apply Hlt. rewrite elem_of_omap_snd, Ha, fmap_app, elem_of_app.
  destruct Hk as [Hk|Hk]; [|by right]. left. unfold answered in Hk.
  rewrite Hf, resolve_all_dom, (replay_answers _ _ _ Hr), lookup_empty in Hk.
  destruct Hk as [[? [=]]|Hk]; done.
Qed.

(** A caller that waited for room while the object was stopped is never
    answered: when its command enters the queue behind the stop marker, or
    after the writer ended, no number of rounds resolves the future it awaits,
    although the submission succeeded. *)
Theorem late_submission_unanswered (cfg : storage_config) (evs : list event) (d0 : database)
    (c : QueuedCommand) (rounds : list (nat * batch_env)) (f : nat) (s' : SQLiteStorage) :
  let s := (storage_run cfg evs (started d0)).1 in
  ∀ (Hstopped : writer_alive s = false ∨ has_marker (queue s) = true)
    (Hroom : submit cfg true c true s = (s', Ok (Some f))),
  ¬ answered (run_rounds cfg rounds s') f.
Proof.
  cbv zeta. intros Hstopped Hroom.
  pose proof (run_serial cfg evs d0 [] [] _ (serial_started d0)) as Hrun.
  destruct (storage_run cfg evs (started d0)) as [s accepted]. destruct Hrun as (log & Hs). cbn [fst] in *.
  pose proof (submit_late _ _ _ _ _ Hroom) as (Hq & Hal & Hfut & Hf).
  assert (Hnew : ¬ answered s' f).
  { intros Hans. unfold answered in Hans. rewrite Hfut in Hans.
    pose proof (serial_known _ _ _ _ f Hs (or_introl Hans)). lia. }
  destruct (writer_alive s) eqn:Ha.
  - destruct Hstopped as [?|Hm]; [done|]. intros Hans.
    destruct (drain_answers cfg rounds s' f ltac:(congruence) Hans) as [?|Hin]; [done|].
    rewrite Hq, before_marker_late in Hin by done. apply list_elem_of_fmap in Hin as (e & He & Hin).
    apply before_marker_pending in Hin.
    assert (Some f ∈ (pending s).*2) as Hp.
    { apply list_elem_of_fmap. by exists (envelope_command e). }
    pose proof (serial_known _ _ _ _ f Hs (or_intror Hp)). lia.
  - by rewrite dead_writer_rests by congruence.
Qed.

End facts.

(** ** Concrete instances *)

#[local] Instance row_engine : SqlEngine :=
  {| scan := λ A l, l; scan_perm := λ A l, Permutation_refl l; both_conflicts_ignored := true |}.

Definition demo_config : storage_config := {| sg_batch_size := 1; sg_queue_capacity := 2 |}.

(** Two flushes fill the queue while a third caller waits for room. *)
Definition demo_events : list event :=
  [Submit false QBarrier true; Submit false QBarrier true; Round 0 calm; RequestStop; Round 0 calm].

Lemma writer_drains_witness :
  let s := (storage_run demo_config [Submit false QBarrier true; Submit false QBarrier true; RequestStop]
              (started empty_database)).1 in
  (∀ f, answered (run_rounds demo_config [(0%nat, calm); (0%nat, calm)] s) f ↔
        answered s f ∨ Some f ∈ map ev_future (before_marker (queue s))) ∧
  queue (run_rounds demo_config [(0%nat, calm); (0%nat, calm)] s) = [].
Proof.
  cbv zeta. pose proof (writer_drains demo_config [(0%nat, calm); (0%nat, calm)]
    (storage_run demo_config [Submit false QBarrier true; Submit false QBarrier true; RequestStop]
              (started empty_database)).1 ltac:(vm_compute; reflexivity) ltac:(vm_compute; lia)) as (H1 & _ & H3).
  split; [exact H1|apply H3; vm_compute; reflexivity].
Defined.

Lemma late_submission_unanswered_witness :
  let s := (storage_run demo_config demo_events (started empty_database)).1 in
  let s' := (submit demo_config true QBarrier true s).1 in
  ¬ answered (run_rounds demo_config (replicate 5 (0%nat, calm)) s') 2.
Proof.
  cbv zeta. apply (late_submission_unanswered demo_config demo_events empty_database QBarrier
                     (replicate 5 (0%nat, calm)) 2%nat).
  - right. vm_compute. reflexivity.
  - vm_compute. reflexivity.
Defined.
