(* ===== verification/StorageTables.v ===== *)
(** * The tables as a well-formed database

    What the constructors of the records guarantee survives every write: rows
    sit under their own primary keys, satisfy the checks of their constructors,
    and no two API keys share a hash.  Clean-up deletes exactly what its
    retention names, and never what a restart would still read. *)

From S2P Require Import Prelude PyStr PyDecimal PyTime Json Domain StorageRecords Storage StorageFacts.
From Stdlib Require Import Ascii.

Local Open Scope string_scope.
Local Open Scope list_scope.
Local Open Scope Z_scope.

(** ** Constructors accept what they return *)

Definition minute_raw (r : MinutePriceRecord) : MinutePriceRecordOf decimal_input datetime :=
  {| mp_symbol := mp_symbol r; mp_timestamp := Aware (mp_timestamp r); mp_price := DFinite (mp_price r);
     mp_provider := mp_provider r; mp_is_derived := mp_is_derived r; mp_source := mp_source r |}.

Definition aggregate_raw (r : AggregatePriceRecord) : AggregatePriceRecordOf decimal_input datetime :=
  {| ar_symbol := ar_symbol r; ar_bucket_start := Aware (ar_bucket_start r);
     ar_interval_seconds := ar_interval_seconds r; ar_open := DFinite (ar_open r);
     ar_high := DFinite (ar_high r); ar_low := DFinite (ar_low r); ar_close := DFinite (ar_close r);
     ar_sample_count := ar_sample_count r; ar_provider := ar_provider r;
     ar_is_derived := ar_is_derived r; ar_source := ar_source r |}.

Definition snapshot_raw (r : LatestSnapshotRecord) : LatestSnapshotRecordOf decimal_input datetime :=
  {| ls_symbol := ls_symbol r; ls_as_of := Aware (ls_as_of r); ls_payload := ls_payload r;
     ls_price := DFinite <$> ls_price r |}.

Definition dividend_raw (r : DividendEventRecord) : DividendEventRecordOf decimal_input :=
  {| dr_symbol := dr_symbol r; dr_ex_date := dr_ex_date r; dr_amount := DFinite (dr_amount r);
     dr_currency := dr_currency r; dr_frequency := dr_frequency r; dr_provider := dr_provider r;
     dr_payment_date := dr_payment_date r; dr_event_type := dr_event_type r;
     dr_is_special := dr_is_special r; dr_raw := dr_raw r |}.

Definition yield_raw (r : YieldMetricRecord) : YieldMetricRecordOf decimal_input datetime :=
  {| yr_symbol := yr_symbol r; yr_as_of := Aware (yr_as_of r);
     yr_annual_percent := DFinite (yr_annual_percent r); yr_method := yr_method r;
     yr_provider := yr_provider r; yr_is_proxy := yr_is_proxy r; yr_source_series := yr_source_series r;
     yr_raw := yr_raw r |}.

Definition checkpoint_raw (r : ProviderCheckpointRecord) : ProviderCheckpointRecordOf datetime :=
  {| pr_provider := pr_provider r; pr_feed := pr_feed r; pr_updated_at := Aware (pr_updated_at r);
     pr_checkpoint := pr_checkpoint r |}.

Definition api_key_raw (r : ApiKeyRecord) : ApiKeyRecordOf datetime :=
  {| ak_key_id := ak_key_id r; ak_name := ak_name r; ak_key_hash := ak_key_hash r;
     ak_key_hint := ak_key_hint r; ak_created_at := Aware (ak_created_at r);
     ak_updated_at := Aware (ak_updated_at r); ak_expires_at := Aware <$> ak_expires_at r;
     ak_revoked_at := Aware <$> ak_revoked_at r; ak_origin := ak_origin r |}.

Definition audit_raw (r : AdminAuditEventRecord) : AdminAuditEventRecordOf datetime :=
  {| av_event_id := av_event_id r; av_occurred_at := Aware (av_occurred_at r);
     av_request_id := av_request_id r; av_client_ip := av_client_ip r; av_action := av_action r;
     av_target_type := av_target_type r; av_target_id := av_target_id r; av_details := av_details r |}.

Lemma required_text_idem v f t : required_text v f = Ok t → required_text t f = Ok t.
Proof.
  unfold required_text. intros (u & Ht & [= <-])%result_bind_ok. rewrite strip_idem, Ht. done.
Qed.

Lemma char_lower_space c : is_space (char_lower c) = is_space c.
Proof. by destruct c as [[] [] [] [] [] [] [] []]. Qed.

Lemma char_lower_idem c : char_lower (char_lower c) = char_lower c.
Proof. by destruct c as [[] [] [] [] [] [] [] []]. Qed.

Lemma lower_strip_idem s : lower (strip (lower (strip s))) = lower (strip s).
Proof.
  unfold lower. rewrite str_map_strip by apply char_lower_space. rewrite strip_idem, str_map_map.
  apply str_map_ext, char_lower_idem.
Qed.

Lemma option_result_utc o o' : option_result utc_datetime o = Ok o' →
  option_result utc_datetime (Aware <$> o') = Ok o'.
Proof. destruct o as [d|]; cbn; [|by intros [= <-]]. destruct (utc_datetime d); by intros [= <-]. Qed.

Lemma option_result_idem {A} (f : A → result A) o o' :
  (∀ a b, f a = Ok b → f b = Ok b) → option_result f o = Ok o' → option_result f o' = Ok o'.
Proof.
  intros Hf. destruct o as [a|]; cbn; [|by intros [= <-]].
  destruct (f a) as [b|] eqn:Ha; cbn; [|done]. intros [= <-]. cbn. by rewrite (Hf _ _ Ha).
Qed.

(** Open the straight-line computation in [H], keeping one equation a check. *)
Ltac open_init H :=
  repeat (let E := fresh "E" in apply result_bind_ok in H as (? & E & H)); injection H as <-.

(** Replay the checks of a constructor on its own result. *)
Ltac close_init :=
  repeat match goal with
  | E : required_text _ _ = Ok _ |- _ => apply required_text_idem in E; rewrite E; clear E
  | E : option_result utc_datetime _ = Ok _ |- _ => apply option_result_utc in E; rewrite E; clear E
  | E : option_result (λ s, required_text s _) _ = Ok _ |- _ =>
    apply option_result_idem in E; [rewrite E; clear E|intros ??; apply required_text_idem]
  | E : raise_if _ _ = Ok _ |- _ => rewrite E; clear E
  | E : encode_json _ = Ok _ |- _ => rewrite E; clear E
  | |- _ => progress cbn
  end.

Lemma minute_init_valid raw r :
  MinutePriceRecord_init raw = Ok r → MinutePriceRecord_init (minute_raw r) = Ok r.
Proof. intros H. open_init H. unfold MinutePriceRecord_init. by close_init. Qed.

Lemma aggregate_init_valid raw r :
  AggregatePriceRecord_init raw = Ok r → AggregatePriceRecord_init (aggregate_raw r) = Ok r.
Proof. intros H. open_init H. unfold AggregatePriceRecord_init. by close_init. Qed.

Lemma dividend_init_valid raw r :
  DividendEventRecord_init raw = Ok r → DividendEventRecord_init (dividend_raw r) = Ok r.
Proof. intros H. open_init H. unfold DividendEventRecord_init. by close_init. Qed.

Lemma yield_init_valid raw r :
  YieldMetricRecord_init raw = Ok r → YieldMetricRecord_init (yield_raw r) = Ok r.
Proof. intros H. open_init H. unfold YieldMetricRecord_init. by close_init. Qed.

Lemma checkpoint_init_valid raw r :
  ProviderCheckpointRecord_init raw = Ok r → ProviderCheckpointRecord_init (checkpoint_raw r) = Ok r.
Proof. intros H. open_init H. unfold ProviderCheckpointRecord_init. by close_init. Qed.

Lemma audit_init_valid raw r :
  AdminAuditEventRecord_init raw = Ok r → AdminAuditEventRecord_init (audit_raw r) = Ok r.
Proof. intros H. open_init H. unfold AdminAuditEventRecord_init. by close_init. Qed.

Lemma option_result_price (g : decimal → result decimal) o p :
  (∀ d d', g d = Ok d' → d' = d) →
  option_result (λ v, d ← decimal_value v; g d) o = Ok p →
  option_result (λ v, d ← decimal_value v; g d) (DFinite <$> p) = Ok p.
Proof.
  intros Hg. destruct o as [v|]; cbn; [|by intros [= <-]].
  destruct (decimal_value v) as [d|]; cbn; [|done]. destruct (g d) as [d'|] eqn:Hd; cbn; [|done].
  intros [= <-]. cbn. pose proof (Hg _ _ Hd) as ->. by rewrite Hd.
Qed.

Lemma snapshot_init_valid raw r :
  LatestSnapshotRecord_init raw = Ok r → LatestSnapshotRecord_init (snapshot_raw r) = Ok r.
Proof.
  intros H. open_init H. unfold LatestSnapshotRecord_init. cbn [snapshot_raw ls_symbol ls_as_of ls_price ls_payload].
  apply option_result_price in E1; [|intros d d' (? & _ & [= <-])%result_bind_ok; done].
  rewrite E1. by close_init.
Qed.

Lemma api_key_init_valid raw r :
  ApiKeyRecord_init raw = Ok r → ApiKeyRecord_init (api_key_raw r) = Ok r.
Proof.
  intros H. unfold ApiKeyRecord_init in H. open_init H.
  unfold ApiKeyRecord_init.
  cbn [api_key_raw ak_key_id ak_name ak_key_hash ak_key_hint ak_created_at ak_updated_at ak_expires_at
       ak_revoked_at ak_origin].
  rewrite !lower_strip_idem. apply option_result_idem in E3.
  - rewrite E3. by close_init.
  - intros a b (t & Ht & (u & Hu & [= <-])%result_bind_ok)%result_bind_ok.
    rewrite (required_text_idem _ _ _ Ht). cbn. by rewrite Hu.
Qed.

(** ** Well-formed databases *)

Section rows.
Context {K R : Type} `{Countable K}.
Implicit Types t : gmap K R.

(** Every row sits under its own key and satisfies [P]. *)
Definition table_ok (key : R → K) (P : R → Prop) (t : gmap K R) : Prop :=
  map_Forall (λ k r, key r = k ∧ P r) t.

Lemma table_ok_empty key P : table_ok key P ∅.
Proof. apply map_Forall_empty. Qed.

Lemma table_ok_insert key (P : R → Prop) r t : P r → table_ok key P t → table_ok key P (<[key r := r]> t).
Proof. intros Hr Ht. by apply map_Forall_insert_2. Qed.

Lemma rows_ok_filter key P (Q : K * R → Prop) `{!∀ x, Decision (Q x)} t :
  table_ok key P t → table_ok key P (filter Q t).
Proof. intros Ht k r [Hr _]%map_lookup_filter_Some. by apply Ht. Qed.

Lemma table_ok_newer key (P : R → Prop) column r t :
  P r → table_ok key P t → table_ok key P (upsert_newer column (key r) r t).1.
Proof.
  intros Hr Ht. unfold upsert_newer. repeat case_match; [by apply table_ok_insert|done|by apply table_ok_insert].
Qed.

Lemma elem_of_table_rows t r : r ∈ table_rows t ↔ ∃ k, t !! k = Some r.
Proof.
  unfold table_rows. rewrite list_elem_of_fmap. split.
  - intros ([k r'] & -> & Hin%elem_of_map_to_list). by exists k.
  - intros [k Hk]. exists (k, r). split; [done|]. by apply elem_of_map_to_list.
Qed.
End rows.

Definition minute_ok (r : MinutePriceRecord) : Prop :=
  MinutePriceRecord_init (minute_raw r) = Ok r ∧ json_finite (mp_source r) = true.
Definition aggregate_ok (r : AggregatePriceRecord) : Prop :=
  AggregatePriceRecord_init (aggregate_raw r) = Ok r ∧ json_finite (ar_source r) = true.
Definition snapshot_ok (r : LatestSnapshotRecord) : Prop := LatestSnapshotRecord_init (snapshot_raw r) = Ok r.
Definition dividend_ok (r : DividendEventRecord) : Prop := DividendEventRecord_init (dividend_raw r) = Ok r.
Definition yield_ok (r : YieldMetricRecord) : Prop := YieldMetricRecord_init (yield_raw r) = Ok r.
Definition checkpoint_ok (r : ProviderCheckpointRecord) : Prop :=
  ProviderCheckpointRecord_init (checkpoint_raw r) = Ok r.
Definition api_key_ok (r : ApiKeyRecord) : Prop := ApiKeyRecord_init (api_key_raw r) = Ok r.
Definition audit_ok (r : AdminAuditEventRecord) : Prop := AdminAuditEventRecord_init (audit_raw r) = Ok r.

(** [UNIQUE(key_hash)] *)
Definition unique_hashes (keys : gmap string ApiKeyRecord) : Prop :=
  ∀ i j a b, keys !! i = Some a → keys !! j = Some b → ak_key_hash a = ak_key_hash b → i = j.

Record well_formed (db : database) : Prop := {
  wf_minutes : table_ok (minute_key_of ∘ row) (minute_ok ∘ row) (minute_prices db);
  wf_aggregates : table_ok (aggregate_key_of ∘ row) (aggregate_ok ∘ row) (aggregate_prices db);
  wf_snapshots : table_ok (ls_symbol ∘ row) (snapshot_ok ∘ row) (latest_snapshots db);
  wf_dividends : table_ok (dividend_key_of ∘ row) (dividend_ok ∘ row) (dividend_events db);
  wf_yields : table_ok (yield_key_of ∘ row) (yield_ok ∘ row) (yield_metrics db);
  wf_checkpoints : table_ok checkpoint_key_of checkpoint_ok (provider_checkpoints db);
  wf_keys : table_ok ak_key_id api_key_ok (api_keys db);
  wf_hashes : unique_hashes (api_keys db);
  wf_audit : table_ok av_event_id audit_ok (admin_audit_events db);
}.

Lemma empty_well_formed : well_formed empty_database.
Proof. constructor; try apply table_ok_empty. intros i j a b Ha. discriminate Ha. Qed.

(** What the constructors of a command have checked; the [source] of a price
    is only encoded when it is written. *)
Definition command_ok (c : WriteCommand) : Prop :=
  match c with
  | WMinutePrice r => MinutePriceRecord_init (minute_raw r) = Ok r
  | WAggregatePrice r => AggregatePriceRecord_init (aggregate_raw r) = Ok r
  | WLatestSnapshot r => snapshot_ok r
  | WDividendEvent r => dividend_ok r
  | WYieldMetric r => yield_ok r
  | WProviderCheckpoint r => checkpoint_ok r
  | WApiKey r => api_key_ok r
  | WAdminAuditEvent r => audit_ok r
  | WBootstrapApiKeys records _ => Forall api_key_ok records
  | WImportApiKeys records audit => Forall api_key_ok records ∧ audit_ok audit
  | WUpdateApiKey c =>
    required_text (uk_name c) "name" = Ok (uk_name c) ∧ (String.length (uk_name c) ≤ 80)%nat ∧
    audit_ok (uk_audit c)
  | WRevokeApiKey c => audit_ok (rk_audit c)
  | WCleanup _ => True
  end.

Lemma encode_json_ok j u : encode_json j = Ok u → json_finite j = true.
Proof. unfold encode_json. by intros (v & ->%raise_if_ok%negb_false_iff & _)%result_bind_ok. Qed.

Lemma renamed_ok name expires updated r :
  required_text name "name" = Ok name → (String.length name ≤ 80)%nat →
  api_key_ok r → api_key_ok (renamed name expires updated r).
Proof.
  intros Hn Hl. destruct r as [id nm hash hint created upd exp rev origin].
  unfold api_key_ok, ApiKeyRecord_init, renamed.
  cbn [api_key_raw ak_key_id ak_name ak_key_hash ak_key_hint ak_created_at ak_updated_at ak_expires_at
       ak_revoked_at ak_origin]. intros H.
  do 10 (let E := fresh "E" in apply result_bind_ok in H as (? & E & H)).
  injection H as -> Hnm Hhash -> -> -> He -> Ho. rewrite Hhash in E2. rewrite Ho in E8.
  rewrite Hhash, Ho, E, Hn. cbn [mbind result_bind]. 
  rewrite (bool_decide_eq_false_2 (80 < String.length name)%nat) by lia.
  cbn [raise_if mbind result_bind]. rewrite E2, E3. cbn [mbind result_bind utc_datetime].
  rewrite E7. cbn [mbind result_bind]. destruct expires; cbn; by rewrite E8.
Qed.

Section writes.
Context `{SqlEngine}.

Lemma wf_set_keys keys b audits db :
  table_ok ak_key_id api_key_ok keys → unique_hashes keys → table_ok av_event_id audit_ok audits →
  well_formed db → well_formed (set_keys keys b audits db).
Proof. intros ??? []. by constructor. Qed.

Lemma has_hash_spec keys h :
  has_hash keys h = true ↔ ∃ k r, keys !! k = Some r ∧ ak_key_hash r = h.
Proof.
  unfold has_hash. rewrite existsb_exists. split.
  - intros (r & Hin%list_elem_of_In%elem_of_table_rows & Hh%bool_decide_eq_true). naive_solver.
  - intros (k & r & Hk & Hh). exists r. split; [apply list_elem_of_In, elem_of_table_rows; eauto|].
    by apply bool_decide_eq_true.
Qed.

Lemma insert_api_key_inv r db db' :
  insert_api_key r db = Ok db' →
  api_keys db !! ak_key_id r = None ∧ has_hash (api_keys db) (ak_key_hash r) = false ∧
  db' = set_keys (<[ak_key_id r := r]> (api_keys db)) (bootstrap_complete db) (admin_audit_events db) db.
Proof.
  unfold insert_api_key.
  intros (u & Hid%raise_if_ok%bool_decide_eq_false & (v & Hh%raise_if_ok & [= <-])%result_bind_ok)%result_bind_ok.
  split_and!; [|done|done]. by apply eq_None_not_Some.
Qed.

Lemma insert_api_key_wf r db db' :
  api_key_ok r → insert_api_key r db = Ok db' → well_formed db → well_formed db'.
Proof.
  intros Hr (Hid & Hh & ->)%insert_api_key_inv Hwf. apply wf_set_keys; [| |by destruct Hwf|done].
  - apply table_ok_insert; [done|by destruct Hwf].
  - assert (Hnew : ∀ k x, api_keys db !! k = Some x → ak_key_hash x ≠ ak_key_hash r).
    { intros k x Hk Heq. assert (has_hash (api_keys db) (ak_key_hash r) = true); [|congruence].
      apply has_hash_spec. eauto. }
    intros i j a b. rewrite !lookup_insert_Some.
    intros [[<- <-]|[? Ha]] [[<- <-]|[? Hb]] Heq; [done| | |].
    + by edestruct Hnew.
    + by edestruct Hnew.
    + by eapply (wf_hashes _ Hwf).
Qed.

Lemma insert_admin_audit_wf r db db' :
  audit_ok r → insert_admin_audit r db = Ok db' → well_formed db → well_formed db'.
Proof.
  intros Hr. unfold insert_admin_audit. intros (d & _ & (u & _ & [= <-])%result_bind_ok)%result_bind_ok Hwf.
  apply wf_set_keys; [by destruct Hwf..| |done]. apply table_ok_insert; [done|by destruct Hwf].
Qed.

(** A bound loop keeps what its body keeps. *)
Lemma fold_result_inv {A B} (f : A → B → result A) (P : B → Prop) (I : A → Prop) l :
  (∀ a x a', P x → I a → f a x = Ok a' → I a') →
  Forall P l → ∀ a a', I a → fold_result f a l = Ok a' → I a'.
Proof.
  intros Hf. induction 1 as [|x l Hx _ IH]; intros a a' Ha; cbn; [by intros [= <-]|].
  intros (b & Hb & Hr)%result_bind_ok. eapply IH; [|done]. by eapply Hf.
Qed.

Lemma bootstrap_api_key_wf acc r acc' :
  api_key_ok r → well_formed acc.1 → bootstrap_api_key acc r = Ok acc' → well_formed acc'.1.
Proof.
  destruct acc as [db n]. cbn. intros Hr Hwf. unfold bootstrap_api_key. case_match; [by intros [= <-]|].
  intros (db' & Hi & [= <-])%result_bind_ok. by eapply insert_api_key_wf.
Qed.

Lemma update_active_key_inv key_id f db db' :
  update_active_key key_id f db = Ok db' →
  ∃ r, api_keys db !! key_id = Some r ∧ ak_revoked_at r = None ∧
    db' = set_keys (<[key_id := f r]> (api_keys db)) (bootstrap_complete db) (admin_audit_events db) db.
Proof.
  unfold update_active_key. destruct (api_keys db !! key_id) as [r|] eqn:Hk; [|done].
  case_decide; [|done]. intros [= <-]. eauto.
Qed.

Lemma update_active_key_wf key_id f db db' :
  (∀ r, ak_key_id (f r) = ak_key_id r ∧ ak_key_hash (f r) = ak_key_hash r) →
  (∀ r, api_key_ok r → api_key_ok (f r)) →
  update_active_key key_id f db = Ok db' → well_formed db → well_formed db'.
Proof.
  intros Hf Hok (r & Hk & _ & ->)%update_active_key_inv Hwf.
  destruct (wf_keys _ Hwf _ _ Hk) as [Hid Hr]. apply wf_set_keys; [| |by destruct Hwf|done].
  - replace key_id with (ak_key_id (f r)) by (by rewrite (proj1 (Hf r))).
    apply table_ok_insert; [by apply Hok|by destruct Hwf].
  - intros i j a b. rewrite !lookup_insert_Some.
    intros [[<- <-]|[? Ha]] [[<- <-]|[? Hb]] Heq; rewrite ?(proj2 (Hf r)) in Heq; [done| | |];
      by eapply (wf_hashes _ Hwf).
Qed.

Lemma revoked_ok at_ r : api_key_ok r → api_key_ok (revoked at_ r).
Proof.
  destruct r as [id nm hash hint created upd exp rev origin].
  unfold api_key_ok, ApiKeyRecord_init, revoked.
  cbn [api_key_raw ak_key_id ak_name ak_key_hash ak_key_hint ak_created_at ak_updated_at ak_expires_at
       ak_revoked_at ak_origin]. intros H1.
  do 10 (let E := fresh "E" in apply result_bind_ok in H1 as (? & E & H1)).
  injection H1 as -> -> Hhash -> -> -> -> -> Ho. rewrite Hhash in E2. rewrite Ho in E8.
  rewrite Hhash, Ho, E, E0. cbn [mbind result_bind]. rewrite E1. cbn [mbind result_bind].
  rewrite E2, E3. cbn [mbind result_bind utc_datetime].
  rewrite E6. cbn. by rewrite E8.
Qed.

Lemma cleanup_tables_wf c db : well_formed db → well_formed (cleanup_tables c db).1.
Proof.
  intros []. unfold cleanup_tables, delete_unless. cbn.
  constructor; cbn; repeat apply rows_ok_filter; done.
Qed.

Lemma wf_set_prices m a db :
  table_ok (minute_key_of ∘ row) (minute_ok ∘ row) m →
  table_ok (aggregate_key_of ∘ row) (aggregate_ok ∘ row) a →
  well_formed db → well_formed (set_prices m a db).
Proof. intros ?? []. by constructor. Qed.

Lemma wf_set_snapshots t db :
  table_ok (ls_symbol ∘ row) (snapshot_ok ∘ row) t → well_formed db → well_formed (set_snapshots t db).
Proof. intros ? []. by constructor. Qed.

Lemma wf_set_events d y db :
  table_ok (dividend_key_of ∘ row) (dividend_ok ∘ row) d →
  table_ok (yield_key_of ∘ row) (yield_ok ∘ row) y →
  well_formed db → well_formed (set_events d y db).
Proof. intros ?? []. by constructor. Qed.

Lemma wf_set_checkpoints t db :
  table_ok checkpoint_key_of checkpoint_ok t → well_formed db → well_formed (set_checkpoints t db).
Proof. intros ? []. by constructor. Qed.

Lemma execute_write_wf now c db db' o :
  command_ok c → execute_write now c db = Ok (db', o) → well_formed db → well_formed db'.
Proof.
  intros Hc Hx Hwf. pose proof Hwf as [H1 H2 H3 H4 H5 H6 H7 H8 H9].
  destruct c; cbn [execute_write command_ok] in *.
  - apply result_bind_ok in Hx as (u & Hj%encode_json_ok & [= <- _]).
    apply wf_set_prices; [|done..]. by apply (table_ok_insert (minute_key_of ∘ row) _ (Build_stored _ r now)).
  - apply result_bind_ok in Hx as (u & Hj%encode_json_ok & [= <- _]).
    apply wf_set_prices; [done| |done]. by apply (table_ok_insert (aggregate_key_of ∘ row) _ (Build_stored _ r now)).
  - apply result_bind_ok in Hx as (u & _ & Hx).
    pose proof (table_ok_newer (ls_symbol ∘ row) (snapshot_ok ∘ row) (ls_as_of ∘ row)
                  (Build_stored _ r now) _ Hc H3) as Ht. cbn in Ht, Hx.
    destruct (upsert_newer _ _ _ _) as [t n]. injection Hx as <- _. by apply wf_set_snapshots.
  - apply result_bind_ok in Hx as (u & _ & [= <- _]).
    apply wf_set_events; [|done..]. by apply (table_ok_insert (dividend_key_of ∘ row) _ (Build_stored _ r now)).
  - apply result_bind_ok in Hx as (u & _ & [= <- _]).
    apply wf_set_events; [done| |done]. by apply (table_ok_insert (yield_key_of ∘ row) _ (Build_stored _ r now)).
  - apply result_bind_ok in Hx as (u & _ & Hx).
    pose proof (table_ok_newer checkpoint_key_of checkpoint_ok pr_updated_at r _ Hc H6) as Ht.
    destruct (upsert_newer _ _ _ _) as [t n]. injection Hx as <- _. by apply wf_set_checkpoints.
  - apply result_bind_ok in Hx as (d & Hi & [= <- _]). by eapply insert_api_key_wf.
  - apply result_bind_ok in Hx as (d & Hi & [= <- _]). by eapply insert_admin_audit_wf.
  - apply result_bind_ok in Hx as ([d n] & Hf & [= <- _]). cbn.
    assert (Hd : well_formed d).
    { change d with (d, n).1.
      apply (fold_result_inv bootstrap_api_key api_key_ok (λ acc, well_formed acc.1) records
               bootstrap_api_key_wf Hc (db, 0%nat)); done. }
    pose proof Hd as []. by apply wf_set_keys.
  - destruct Hc as [Hrs Ha]. apply result_bind_ok in Hx as (d & Hf & (d' & Hi & [= <- _])%result_bind_ok).
    eapply insert_admin_audit_wf; [done..|].
    eapply (fold_result_inv (λ db r, insert_api_key r db) api_key_ok well_formed records); [|done..].
    intros a x a' Hx Hwa Hi'. by eapply insert_api_key_wf.
  - destruct Hc as (Hn & Hl & Ha).
    apply result_bind_ok in Hx as (d & Hf & (d' & Hi & [= <- _])%result_bind_ok).
    eapply insert_admin_audit_wf; [done..|]. eapply update_active_key_wf; [..|exact Hf|done]; [done|].
    intros r. by apply renamed_ok.
  - apply result_bind_ok in Hx as (d & Hf & (d' & Hi & [= <- _])%result_bind_ok).
    eapply insert_admin_audit_wf; [done..|]. eapply update_active_key_wf; [..|exact Hf|done]; [done|].
    intros r. by apply revoked_ok.
  - pose proof (cleanup_tables_wf c db Hwf) as Hd. destruct (cleanup_tables c db) as [d r].
    by injection Hx as <- _.
Qed.

Lemma execute_all_wf clock cs : ∀ i db db' os,
  Forall command_ok cs → execute_all clock i cs db = Ok (db', os) → well_formed db → well_formed db'.
Proof.
  induction cs as [|c cs IH]; intros i db db' os Hcs; cbn; [by intros [= <- _]|].
  apply Forall_cons in Hcs as [Hc Hcs].
  intros ([d o] & Hx & ([d' os'] & Hr & [= <- _])%result_bind_ok)%result_bind_ok Hwf.
  eapply (IH _ _ _ _ Hcs Hr), execute_write_wf; done.
Qed.

Lemma transaction_wf env cs db db' os :
  Forall command_ok cs → transaction env cs db = Ok (db', os) → well_formed db → well_formed db'.
Proof.
  unfold transaction. destruct (se_begin env); [done|].
  intros Hcs ([d os'] & Hx & Hr)%result_bind_ok. destruct (se_commit env); [done|].
  injection Hr as <- _. by eapply execute_all_wf.
Qed.

Definition queued_ok (c : QueuedCommand * option nat) : Prop :=
  match c.1 with QWrite w => command_ok w | _ => True end.

Lemma replay_wf x log y :
  replay x log y → Forall queued_ok (concat (map commands_of log)) → well_formed x.1 → well_formed y.1.
Proof.
  induction 1 as [|x y z e log He _ IH]; cbn; [done|]. rewrite Forall_app. intros [Hc Hl] Hwf.
  apply IH; [done|]. destruct He as [env ws os d d' u Ht| | | |]; [|done..].
  eapply transaction_wf; [|exact Ht|done]. cbn in Hc. apply Forall_forall. rewrite Forall_forall in Hc.
  intros c (w & -> & Hw)%list_elem_of_fmap. apply (Hc (QWrite w.1, w.2)).
  change (map ?f ?l) with (f <$> l). apply list_elem_of_fmap. eauto.
Qed.

Lemma accepted_submitted cfg evs : ∀ s c f,
  (c, f) ∈ (storage_run cfg evs s).2 → ∃ checked wait, Submit checked c wait ∈ evs.
Proof.
  induction evs as [|ev evs IH]; intros s c f; cbn [storage_run]; [by intros ?%elem_of_nil|].
  destruct (storage_step cfg ev s) as [s1 a1] eqn:Hs. specialize (IH s1 c f).
  destruct (storage_run cfg evs s1) as [s2 a2]. cbn [snd] in *. rewrite elem_of_app. intros [Hin|Hin].
  - destruct ev as [checked c' wait|n env| |e]; cbn in Hs; [|injection Hs as _ <-; by apply elem_of_nil in Hin..].
    exists checked, wait. destruct (submit cfg checked c' wait s) as [s' [future|e]]; injection Hs as _ <-.
    + apply list_elem_of_singleton in Hin as [= -> _]. by left.
    + by apply elem_of_nil in Hin.
  - destruct (IH Hin) as (checked & wait & ?). exists checked, wait. by right.
Qed.

Lemma run_wf cfg evs d0 :
  well_formed d0 → (∀ checked c wait, Submit checked (QWrite c) wait ∈ evs → command_ok c) →
  well_formed (db (storage_run cfg evs (started d0)).1).
Proof.
  intros Hstart Hcommands.
  pose proof (run_serial cfg evs d0 [] [] _ (serial_started d0)) as Hrun.
  pose proof (accepted_submitted cfg evs (started d0)) as Hacc.
  destruct (storage_run cfg evs (started d0)) as [s accepted]. destruct Hrun as (log & Ha & Hr & _).
  refine (replay_wf _ _ _ Hr _ Hstart). rewrite Forall_forall. intros [c f] Hin.
  destruct (Hacc c f) as (checked & wait & Hev).
  { cbn in Ha |- *. rewrite Ha, elem_of_app. by left. }
  destruct c; cbn; [|done..]. by eapply Hcommands.
Qed.

(** Whatever callers submit and however batches fail, the tables stay well
    formed as long as commands come from their constructors: each row sits
    under its primary key and passes the checks of its record again, and no two
    API keys share a hash. *)
Theorem tables_well_formed (cfg : storage_config) (evs : list event) (d0 : database)
    (Hstart : well_formed d0)
    (Hcommands : ∀ checked c wait, Submit checked (QWrite c) wait ∈ evs → command_ok c) :
  well_formed (db (storage_run cfg evs (started d0)).1).
Proof. by apply run_wf. Qed.

(** ** Clean-up *)

Lemma row_number_one_in {A} (order : A → A → comparison) l x : row_number_one order l = Some x → x ∈ l.
Proof.
  revert x. induction l as [|y l IH]; intros x; cbn; [done|].
  destruct (row_number_one order l) as [z|]; [|intros [= <-]; by left].
  destruct (order z y); intros [= <-]; [by left|right; by apply IH|by left].
Qed.

Lemma row_number_one_some {A} (order : A → A → comparison) l : l ≠ [] → is_Some (row_number_one order l).
Proof. destruct l; cbn; [done|]. intros _. repeat case_match; eauto. Qed.

(** The row numbered 1 in a partition of a table, and the deletion of all
    others. *)
Section newest.
Context {K R : Type} `{Countable K} (order : R → R → comparison) (symbol_of : R → string).
Context (key_of : R → K).
Implicit Types t : gmap K R.

Definition partition_of t (symbol : string) : list R := filter (λ r, symbol_of r = symbol) (table_rows t).

Definition newest_in t (symbol : string) : option R := row_number_one order (scan (partition_of t symbol)).

Lemma elem_of_partition_of t symbol r :
  r ∈ partition_of t symbol ↔ symbol_of r = symbol ∧ ∃ k, t !! k = Some r.
Proof. unfold partition_of. by rewrite list_elem_of_filter, elem_of_table_rows. Qed.

Lemma newest_in_elem t symbol r : newest_in t symbol = Some r → r ∈ partition_of t symbol.
Proof. unfold newest_in. intros Hr%row_number_one_in. by rewrite scan_perm in Hr. Qed.

Lemma newest_in_none t symbol : newest_in t symbol = None ↔ partition_of t symbol = [].
Proof.
  unfold newest_in. split.
  - intros Hn. destruct (partition_of t symbol) as [|r l] eqn:Hp; [done|].
    destruct (row_number_one_some order (scan (r :: l))) as [x Hx]; [|congruence].
    intros He. pose proof (scan_perm _ (r :: l)) as Hs. rewrite He in Hs. by apply Permutation_nil_cons in Hs.
  - intros ->. pose proof (scan_perm _ (@nil R)) as Hs.
    apply Permutation_sym, Permutation_nil in Hs. by rewrite Hs.
Qed.

Lemma newest_key (P : R → Prop) t k r :
  table_ok key_of P t → t !! k = Some r →
  Some k = key_of <$> newest_in t (symbol_of r) ↔ newest_in t (symbol_of r) = Some r.
Proof.
  intros Ht Hk. split.
  - destruct (newest_in t (symbol_of r)) as [x|] eqn:Hn; cbn; [|done]. intros [= ->].
    apply newest_in_elem, elem_of_partition_of in Hn as [_ [k Hx]].
    destruct (Ht _ _ Hx) as [Hkx _]. congruence.
  - intros ->. cbn. by destruct (Ht _ _ Hk) as [-> _].
Qed.

(** Deleting all but the newest row of each symbol leaves the newest rows as
    they were. *)
Lemma newest_in_kept t t' symbol :
  (∀ k r, t' !! k = Some r ↔ t !! k = Some r ∧ newest_in t (symbol_of r) = Some r) →
  newest_in t' symbol = newest_in t symbol.
Proof.
  intros Hk. destruct (newest_in t symbol) as [x|] eqn:Hx.
  - pose proof Hx as Hin. apply newest_in_elem, elem_of_partition_of in Hin as [Hsym [k Hxk]].
    destruct (newest_in t' symbol) as [y|] eqn:Hy.
    + apply newest_in_elem, elem_of_partition_of in Hy as [Hsy [k' [_ Hyk]%Hk]].
      rewrite Hsy in Hyk. congruence.
    + apply newest_in_none in Hy. exfalso. apply (not_elem_of_nil x). rewrite <- Hy.
      apply elem_of_partition_of. split; [done|]. exists k. apply Hk. by rewrite Hsym.
  - apply newest_in_none. apply elem_of_nil_inv. intros y [Hsym [k [Hyk _]%Hk]]%elem_of_partition_of.
    apply newest_in_none in Hx. apply (not_elem_of_nil y). rewrite <- Hx. apply elem_of_partition_of. eauto.
Qed.

End newest.

Lemma delete_unless_size {K R} `{Countable K} (keep : K * R → Prop) `{!∀ x, Decision (keep x)}
    (t : gmap K R) :
  let '(t', n) := delete_unless keep t in size t = (size t' + n)%nat.
Proof.
  unfold delete_unless. pose proof (map_size_filter keep t). lia.
Qed.

Lemma delete_twice_size {K R} `{Countable K} (keep1 keep2 : K * R → Prop)
    `{!∀ x, Decision (keep1 x)} `{!∀ x, Decision (keep2 x)} (t : gmap K R) :
  let t1 := filter keep1 t in
  let t2 := filter keep2 t1 in
  size t = (size t2 + (size t - size t1 + (size t1 - size t2)))%nat.
Proof.
  cbv zeta. pose proof (map_size_filter keep1 t). pose proof (map_size_filter keep2 (filter keep1 t)). lia.
Qed.

(** Clean-up deletes exactly the minute prices before their cut-off, the
    aggregates before the cut-off of their interval, and every dividend event
    and yield metric that is not the newest of its symbol; it reports how many
    rows it deleted; and what a restart reads of dividends and yields is the
    same before and after. *)
Theorem cleanup_exact (c : CleanupCommand) (db : database) (Hwf : well_formed db) :
  let '(db', r) := cleanup_tables c db in
  (∀ k v, minute_prices db' !! k = Some v ↔
          minute_prices db !! k = Some v ∧ cc_minute_before c ≤ mp_timestamp (row v)) ∧
  (∀ k v, aggregate_prices db' !! k = Some v ↔
          aggregate_prices db !! k = Some v ∧
          (if decide (ar_interval_seconds (row v) = 86400) then cc_daily_before c else cc_aggregate_before c)
            ≤ ar_bucket_start (row v)) ∧
  (∀ k v, dividend_events db' !! k = Some v ↔
          dividend_events db !! k = Some v ∧ newest_dividend db (dr_symbol (row v)) = Some v) ∧
  (∀ k v, yield_metrics db' !! k = Some v ↔
          yield_metrics db !! k = Some v ∧ newest_yield db (yr_symbol (row v)) = Some v) ∧
  (∀ symbol, newest_dividend db' symbol = newest_dividend db symbol ∧
             newest_yield db' symbol = newest_yield db symbol) ∧
  size (minute_prices db) = (size (minute_prices db') + cl_minute_prices_deleted r)%nat ∧
  size (aggregate_prices db) = (size (aggregate_prices db') + cl_aggregate_prices_deleted r)%nat ∧
  size (dividend_events db) = (size (dividend_events db') + cl_dividend_events_deleted r)%nat ∧
  size (yield_metrics db) = (size (yield_metrics db') + cl_yield_metrics_deleted r)%nat.
Proof.
  assert (Hd : ∀ k v, dividend_events (cleanup_tables c db).1 !! k = Some v ↔
    dividend_events db !! k = Some v ∧ newest_dividend db (dr_symbol (row v)) = Some v).
  { intros k v. cbn. rewrite map_lookup_filter_Some. split.
    - intros [Hk Hn]. split; [done|]. by apply (newest_key dividend_order (dr_symbol ∘ row) _ _ _ k v (wf_dividends _ Hwf) Hk).
    - intros [Hk Hn]. split; [done|]. by apply (newest_key dividend_order (dr_symbol ∘ row) _ _ _ k v (wf_dividends _ Hwf) Hk). }
  assert (Hy : ∀ k v, yield_metrics (cleanup_tables c db).1 !! k = Some v ↔
    yield_metrics db !! k = Some v ∧ newest_yield db (yr_symbol (row v)) = Some v).
  { intros k v. cbn. rewrite map_lookup_filter_Some. split.
    - intros [Hk Hn]. split; [done|]. by apply (newest_key yield_order (yr_symbol ∘ row) _ _ _ k v (wf_yields _ Hwf) Hk).
    - intros [Hk Hn]. split; [done|]. by apply (newest_key yield_order (yr_symbol ∘ row) _ _ _ k v (wf_yields _ Hwf) Hk). }
  destruct (cleanup_tables c db) as [db' r] eqn:Hc. cbn [fst] in Hd, Hy.
  split_and!; [| |done|done| | | | |].
  - intros k v. injection Hc as <- _. cbn. rewrite map_lookup_filter_Some. cbn. naive_solver lia.
  - intros k v. injection Hc as <- _. cbn. rewrite !map_lookup_filter_Some. cbn.
    case_decide; naive_solver lia.
  - intros symbol. split.
    + apply (newest_in_kept dividend_order (dr_symbol ∘ row) _ _ _ Hd).
    + apply (newest_in_kept yield_order (yr_symbol ∘ row) _ _ _ Hy).
  - injection Hc as <- <-. apply (delete_unless_size _ (minute_prices db)).
  - injection Hc as <- <-. cbn [aggregate_prices set_events set_prices cl_aggregate_prices_deleted].
    apply delete_twice_size.
  - injection Hc as <- <-. apply (delete_unless_size _ (dividend_events db)).
  - injection Hc as <- <-. apply (delete_unless_size _ (yield_metrics db)).
Qed.

(** ** What only ever grows *)

(** Every row of [t] is still there in [t'], related by [rel]. *)
Definition survives {K R} `{Countable K} (rel : R → R → Prop) (t t' : gmap K R) : Prop :=
  ∀ k r, t !! k = Some r → ∃ r', t' !! k = Some r' ∧ rel r r'.

Lemma survives_refl {K R} `{Countable K} (rel : R → R → Prop) (t : gmap K R) :
  (∀ r, rel r r) → survives rel t t.
Proof. intros Hr k r Hk. eauto. Qed.

Lemma survives_trans {K R} `{Countable K} (rel : R → R → Prop) (t1 t2 t3 : gmap K R) :
  (∀ a b c, rel a b → rel b c → rel a c) → survives rel t1 t2 → survives rel t2 t3 → survives rel t1 t3.
Proof.
  intros Ht H1 H2 k r Hk. destruct (H1 _ _ Hk) as (r' & Hk' & Hr). destruct (H2 _ _ Hk') as (r'' & ? & ?). eauto.
Qed.

Lemma survives_insert {K R} `{Countable K} (rel : R → R → Prop) key r (t : gmap K R) :
  (∀ x, rel x x) → (∀ old, t !! key = Some old → rel old r) → survives rel t (<[key := r]> t).
Proof.
  intros Hr Ho k x Hk. destruct (decide (k = key)) as [->|Hne].
  - exists r. rewrite lookup_insert_eq. eauto.
  - exists x. rewrite lookup_insert_ne by done. eauto.
Qed.

Lemma survives_newer {K R} `{Countable K} (column : R → Z) key r (t : gmap K R) :
  survives (λ a b, column a ≤ column b) t (upsert_newer column key r t).1.
Proof.
  unfold upsert_newer. destruct (t !! key) as [old|] eqn:Ho; [case_decide|]; cbn.
  - apply survives_insert; [lia|]. intros x. rewrite Ho. by intros [= <-].
  - apply survives_refl. lia.
  - apply survives_insert; [lia|]. intros x. by rewrite Ho.
Qed.

(** A key keeps its identity and its secret, and once revoked it never changes. *)
Definition key_evolves (a b : ApiKeyRecord) : Prop :=
  ak_key_hash a = ak_key_hash b ∧ ak_created_at a = ak_created_at b ∧ ak_origin a = ak_origin b ∧
  (ak_revoked_at a ≠ None → a = b).

Lemma key_evolves_trans a b c : key_evolves a b → key_evolves b c → key_evolves a c.
Proof.
  intros (H1 & H2 & H3 & H4) (H5 & H6 & H7 & H8). split_and!; [congruence..|].
  intros Hr. rewrite (H4 Hr) in Hr |- *. auto.
Qed.

Record evolves (d d' : database) : Prop := {
  ev_snapshots : survives (λ a b, ls_as_of (row a) ≤ ls_as_of (row b)) (latest_snapshots d) (latest_snapshots d');
  ev_checkpoints : survives (λ a b, pr_updated_at a ≤ pr_updated_at b)
                     (provider_checkpoints d) (provider_checkpoints d');
  ev_keys : survives key_evolves (api_keys d) (api_keys d');
  ev_audit : survives eq (admin_audit_events d) (admin_audit_events d');
  ev_bootstrap : is_Some (bootstrap_complete d) → is_Some (bootstrap_complete d');
}.

Lemma evolves_refl d : evolves d d.
Proof. constructor; try apply survives_refl; try done. all: intros; by apply Z.le_refl. Qed.

Lemma evolves_trans d1 d2 d3 : evolves d1 d2 → evolves d2 d3 → evolves d1 d3.
Proof.
  intros [A1 A2 A3 A4 A5] [B1 B2 B3 B4 B5]. constructor; [..|auto].
  - eapply survives_trans; [|done..]. intros a b c; cbn; lia.
  - eapply survives_trans; [|done..]. intros a b c; cbn; lia.
  - eapply survives_trans; [|done..]. apply key_evolves_trans.
  - eapply survives_trans; [|done..]. congruence.
Qed.

#[local] Hint Resolve evolves_refl : core.

Lemma insert_api_key_evolves r db db' : insert_api_key r db = Ok db' → evolves db db'.
Proof.
  intros (Hid & _ & ->)%insert_api_key_inv. pose proof (evolves_refl db) as []. constructor; try done. cbn.
  apply survives_insert; [done|]. intros old. by rewrite Hid.
Qed.

Lemma insert_admin_audit_evolves r db db' : insert_admin_audit r db = Ok db' → evolves db db'.
Proof.
  unfold insert_admin_audit.
  intros (d & _ & (u & Hn%raise_if_ok%bool_decide_eq_false & [= <-])%result_bind_ok)%result_bind_ok.
  pose proof (evolves_refl db) as []. constructor; try done. cbn. apply survives_insert; [done|].
  intros old Ho. destruct Hn. rewrite Ho. eauto.
Qed.

Lemma update_active_key_evolves key_id f db db' :
  (∀ r, ak_key_hash r = ak_key_hash (f r) ∧ ak_created_at r = ak_created_at (f r) ∧ ak_origin r = ak_origin (f r)) →
  update_active_key key_id f db = Ok db' → evolves db db'.
Proof.
  intros Hf (r & Hk & Hr & ->)%update_active_key_inv. pose proof (evolves_refl db) as [].
  constructor; try done. cbn. apply survives_insert; [done|]. intros old. rewrite Hk. intros [= <-].
  destruct (Hf r) as (? & ? & ?). by split_and!.
Qed.

Lemma fold_result_evolves {B} (f : database → B → result database) l :
  (∀ d x d', f d x = Ok d' → evolves d d') → ∀ d d', fold_result f d l = Ok d' → evolves d d'.
Proof.
  intros Hf d d' Hr.
  eapply (fold_result_inv f (λ _, True) (evolves d) l); [|by apply Forall_true|done|exact Hr].
  intros a x a' _ Ha Hx. eapply evolves_trans; eauto.
Qed.

Lemma bootstrap_evolves l db n acc :
  fold_result bootstrap_api_key (db, n) l = Ok acc → evolves db acc.1.
Proof.
  intros Hr. refine (fold_result_inv bootstrap_api_key (λ _, True) (λ acc, evolves db acc.1) l _ _ (db, n) acc _ Hr).
  { clear. intros [a m] x acc' _ Ha. unfold bootstrap_api_key. case_match; [by intros [= <-]|].
    intros (d & Hi & [= <-])%result_bind_ok. eapply evolves_trans; [exact Ha|by eapply insert_api_key_evolves]. }
  { by apply Forall_true. }
  done.
Qed.

Lemma execute_write_evolves now c db db' o : execute_write now c db = Ok (db', o) → evolves db db'.
Proof.
  pose proof (evolves_refl db) as [H1 H2 H3 H4 H5]. destruct c; cbn [execute_write]; intros Hx.
  - apply result_bind_ok in Hx as (u & _ & [= <- _]). by constructor.
  - apply result_bind_ok in Hx as (u & _ & [= <- _]). by constructor.
  - apply result_bind_ok in Hx as (u & _ & Hx).
    pose proof (survives_newer (ls_as_of ∘ row) (ls_symbol r) (Build_stored _ r now) (latest_snapshots db)) as Hs.
    destruct (upsert_newer _ _ _ _) as [t n]. injection Hx as <- _. by constructor.
  - apply result_bind_ok in Hx as (u & _ & [= <- _]). by constructor.
  - apply result_bind_ok in Hx as (u & _ & [= <- _]). by constructor.
  - apply result_bind_ok in Hx as (u & _ & Hx).
    pose proof (survives_newer pr_updated_at (checkpoint_key_of r) r (provider_checkpoints db)) as Hs.
    destruct (upsert_newer _ _ _ _) as [t n]. injection Hx as <- _. by constructor.
  - apply result_bind_ok in Hx as (d & Hi & [= <- _]). by eapply insert_api_key_evolves.
  - apply result_bind_ok in Hx as (d & Hi & [= <- _]). by eapply insert_admin_audit_evolves.
  - apply result_bind_ok in Hx as ([d n] & Hf & [= <- _]). apply bootstrap_evolves in Hf as [? ? ? ? ?].
    cbn in *. constructor; cbn; try done.
  - apply result_bind_ok in Hx as (d & Hf & (d' & Hi & [= <- _])%result_bind_ok).
    eapply evolves_trans; [|by eapply insert_admin_audit_evolves].
    eapply fold_result_evolves; [|exact Hf]. intros a x a'. by apply insert_api_key_evolves.
  - apply result_bind_ok in Hx as (d & Hf & (d' & Hi & [= <- _])%result_bind_ok).
    eapply evolves_trans; [|by eapply insert_admin_audit_evolves].
    by eapply update_active_key_evolves; [|exact Hf].
  - apply result_bind_ok in Hx as (d & Hf & (d' & Hi & [= <- _])%result_bind_ok).
    eapply evolves_trans; [|by eapply insert_admin_audit_evolves].
    by eapply update_active_key_evolves; [|exact Hf].
  - injection Hx as <- _. by constructor.
Qed.

Lemma execute_all_evolves clock cs : ∀ i db db' os,
  execute_all clock i cs db = Ok (db', os) → evolves db db'.
Proof.
  induction cs as [|c cs IH]; intros i db db' os; cbn; [by intros [= <- _]|].
  intros ([d o] & Hx & ([d' os'] & Hr & [= <- _])%result_bind_ok)%result_bind_ok.
  eapply evolves_trans; [by eapply execute_write_evolves|by eapply IH].
Qed.

Lemma replay_evolves x log y : replay x log y → evolves x.1 y.1.
Proof.
  induction 1 as [|x y z e log He _ IH]; [done|]. eapply evolves_trans; [|exact IH].
  destruct He as [env ws os d d' u Ht| | | |]; [|done..]. cbn.
  unfold transaction in Ht. destruct (se_begin env); [done|].
  apply result_bind_ok in Ht as ([d1 os1] & Hx & Hr). destruct (se_commit env); [done|].
  injection Hr as <- _. by eapply execute_all_evolves.
Qed.

Lemma step_replay cfg ev s :
  ∃ log, replay (view s) log (view (storage_step cfg ev s).1).
Proof.
  destruct ev as [checked c wait|n env| |e]; cbn [storage_step].
  - destruct (submit cfg checked c wait s) as [s' r] eqn:Hs.
    destruct (submit_spec _ _ _ _ _ _ _ Hs) as (Hv & _). exists []. destruct r; cbn; rewrite Hv; constructor.
  - destruct (writer_round_logs cfg n env s) as (log & (Hr & _) & _). by exists log.
  - exists []. unfold request_stop. case_decide; constructor.
  - destruct (writer_alive s); [|exists []; constructor].
    destruct (writer_crash_logs e s) as (log & (Hr & _) & _). by exists log.
Qed.

Lemma run_evolves cfg evs : ∀ s, evolves (db s) (db (storage_run cfg evs s).1).
Proof.
  induction evs as [|ev evs IH]; intros s; cbn [storage_run]; [done|].
  destruct (step_replay cfg ev s) as [log Hr%replay_evolves].
  destruct (storage_step cfg ev s) as [s1 a1]. specialize (IH s1).
  destruct (storage_run cfg evs s1) as [s2 a2]. eapply evolves_trans; [exact Hr|exact IH].
Qed.

(** From any state on, whatever is submitted and however it fails: a stored
    snapshot or provider checkpoint is only ever replaced by one as recent, an
    audit event is never changed or lost, an API key is never lost and keeps
    its hash, and a revoked key stays exactly as it was revoked. *)
Theorem storage_monotone (cfg : storage_config) (evs : list event) (s : SQLiteStorage) :
  let d := db s in let d' := db (storage_run cfg evs s).1 in
  (∀ symbol a, latest_snapshots d !! symbol = Some a →
     ∃ b, latest_snapshots d' !! symbol = Some b ∧ ls_as_of (row a) ≤ ls_as_of (row b)) ∧
  (∀ key a, provider_checkpoints d !! key = Some a →
     ∃ b, provider_checkpoints d' !! key = Some b ∧ pr_updated_at a ≤ pr_updated_at b) ∧
  (∀ id a, admin_audit_events d !! id = Some a → admin_audit_events d' !! id = Some a) ∧
  (∀ id a, api_keys d !! id = Some a →
     ∃ b, api_keys d' !! id = Some b ∧ ak_key_hash b = ak_key_hash a ∧ (ak_revoked_at a ≠ None → b = a)) ∧
  (is_Some (bootstrap_complete d) → is_Some (bootstrap_complete d')).
Proof.
  cbv zeta. destruct (run_evolves cfg evs s) as [H1 H2 H3 H4 H5]. split_and!; [exact H1|exact H2| | |exact H5].
  - intros id a Ha. destruct (H4 _ _ Ha) as (b & Hb & <-). done.
  - intros id a Ha. destruct (H3 _ _ Ha) as (b & Hb & Hh & _ & _ & Hr). exists b.
    split_and!; [done..|]. intros Hn. by rewrite (Hr Hn).
Qed.

End writes.

(** ** Concrete instances *)

#[local] Existing Instance row_engine.

Definition demo_dividend (day amount : Z) : DividendEventRecord :=
  {| dr_symbol := "QQQ"; dr_ex_date := day; dr_amount := Dec amount (-2); dr_currency := "USD";
     dr_frequency := "quarterly"; dr_provider := "demo"; dr_payment_date := None;
     dr_event_type := "regular_cash"; dr_is_special := false; dr_raw := JObject [] |}.

Definition demo_writes : list event :=
  [Submit false (QWrite (WDividendEvent (demo_dividend 20000 60))) false;
   Submit false (QWrite (WDividendEvent (demo_dividend 20090 61))) false; Round 1 calm; Round 1 calm].

Lemma demo_writes_ok checked c wait : Submit checked (QWrite c) wait ∈ demo_writes → command_ok c.
Proof.
  intros Hin. repeat (apply elem_of_cons in Hin as [Hin|Hin]; [|]); try (by apply elem_of_nil in Hin);
    first [discriminate Hin|injection Hin as _ -> _; vm_compute; reflexivity].
Qed.

Definition demo_database : database := db (storage_run demo_config demo_writes (started empty_database)).1.

Lemma tables_well_formed_witness : well_formed demo_database ∧ size (dividend_events demo_database) = 2%nat.
Proof.
  split; [|vm_compute; reflexivity].
  exact (tables_well_formed demo_config demo_writes empty_database empty_well_formed demo_writes_ok).
Defined.

Definition demo_cleanup : CleanupCommand :=
  {| cc_minute_before := 0; cc_aggregate_before := 0; cc_daily_before := 0 |}.

Lemma demo_database_wf : well_formed demo_database.
Proof.
  unfold demo_database. apply (run_wf demo_config demo_writes empty_database empty_well_formed demo_writes_ok).
Qed.

Lemma cleanup_exact_witness :
  size (dividend_events (cleanup_tables demo_cleanup demo_database).1) = 1%nat ∧
  newest_dividend (cleanup_tables demo_cleanup demo_database).1 "QQQ" = newest_dividend demo_database "QQQ".
Proof.
  split; [vm_compute; reflexivity|].
  pose proof (cleanup_exact demo_cleanup demo_database demo_database_wf) as Hx.
  destruct (cleanup_tables demo_cleanup demo_database) as [d r].
  destruct Hx as (_ & _ & _ & _ & Hs & _). exact (proj1 (Hs "QQQ")).
Defined.
