(* ===== verification/StorageRestore.v ===== *)
(** * Reading the database back ([storage/database.py], [storage/records.py])

    The queries that list the API keys and the audit trail, the restore of a
    process's state, and the streaming restore of the price history into the
    history cache.  A query is a filter of a table in the order its [ORDER BY]
    names; rows the order leaves tied come as the engine meets them. *)

From S2P Require Import Prelude PyStr PyDecimal PyTime Json Domain Cache StorageRecords Storage.
From S2P Require Import StorageTables.

Local Open Scope string_scope.
Local Open Scope list_scope.
Local Open Scope Z_scope.

Definition StorageCorruptionError (msg : string) : exn := NamedError "StorageCorruptionError" msg.

(** ** Ordering *)

Definition by_column {A} (column : A → string) (a b : A) : comparison :=
  String.compare (column a) (column b).

Definition by_instant {A} (column : A → Z) (a b : A) : comparison := Z.compare (column a) (column b).

Definition then_by {A} (o1 o2 : A → A → comparison) (a b : A) : comparison := lex (o1 a b) (o2 a b).

(** Consecutive slices of [n] elements. *)
Fixpoint slices_fuel {A} (fuel n : nat) (l : list A) : list (list A) :=
  match fuel, l with
  | O, _ | _, [] => []
  | S fuel', _ => take n l :: slices_fuel fuel' n (drop n l)
  end.

Definition slices {A} (n : nat) (l : list A) : list (list A) := slices_fuel (length l) n l.

(** ** Symbol scopes *)

Definition RESTORE_SYMBOL_BATCH_SIZE : Z := 500.

Definition normalized_symbol (symbol : string) : result string :=
  _ ← raise_if (negb (truthy symbol) || bool_decide (symbol ≠ strip symbol))
        (ValueError "restore symbols must be non-empty normalized strings");
  Ok symbol.

(** [_normalize_restore_symbols] *)
Definition normalize_restore_symbols (symbols : option (list string)) : result (option (list string)) :=
  option_result (λ l, l' ← map_result normalized_symbol l;
                      Ok (sort_rows (by_column id) (dedup l'))) symbols.

(** [_restore_symbol_batches] *)
Definition restore_symbol_batches (symbols : option (list string)) : list (option (list string)) :=
  match symbols with
  | None => [None]
  | Some l => Some <$> slices (Z.to_nat RESTORE_SYMBOL_BATCH_SIZE) l
  end.

(** The [AND symbol IN (...)] that replaces the scope marker of a query. *)
Definition in_scope (scope : option (list string)) (symbol : string) : bool :=
  match scope with None => true | Some l => bool_decide (symbol ∈ l) end.

Section queries.
Context `{SqlEngine}.

(** [SELECT ... WHERE p ORDER BY order] *)
Definition select {R} (p : R → bool) (order : R → R → comparison) (rows : list R) : list R :=
  sort_rows order (scan (filter p rows)).

(** ** Keys and audit events *)

Definition api_key_order : ApiKeyRecord → ApiKeyRecord → comparison :=
  then_by (by_instant ak_created_at) (by_column ak_key_id).

(** [load_api_keys] *)
Definition load_api_keys (db : database) : result (list ApiKeyRecord) :=
  map_result (λ r, ApiKeyRecord_init (api_key_raw r))
    (select (λ _, true) api_key_order (table_rows (api_keys db))).

Definition api_key_bootstrap_complete (db : database) : bool :=
  bool_decide (is_Some (bootstrap_complete db)).

(** [ORDER BY occurred_at DESC, event_id DESC] *)
Definition audit_order (a b : AdminAuditEventRecord) : comparison :=
  then_by (by_instant av_occurred_at) (by_column av_event_id) b a.

Definition load_admin_audit_events (limit : Z) (db : database) : result (list AdminAuditEventRecord) :=
  _ ← raise_if (negb (bool_decide (1 ≤ limit ≤ 500)))
        (ValueError "audit event limit must be between 1 and 500");
  Ok (take (Z.to_nat limit) (select (λ _, true) audit_order (table_rows (admin_audit_events db)))).

(** ** The state of a process *)

(** [_fetch_restore_rows]: [query] with the scope of each batch of symbols. *)
Definition fetch_restore_rows {R} (query : option (list string) → list R)
    (order : R → R → comparison) (symbols : option (list string)) : list R :=
  match symbols with
  | None => query None
  | Some [] => []
  | Some l =>
    sort_rows order
      (concat (map (λ batch, query (Some batch)) (slices (Z.to_nat RESTORE_SYMBOL_BATCH_SIZE) l)))
  end.

Definition minute_order : MinutePriceRecord → MinutePriceRecord → comparison :=
  then_by (by_instant mp_timestamp) (then_by (by_column mp_symbol) (by_column mp_provider)).

Definition aggregate_order : AggregatePriceRecord → AggregatePriceRecord → comparison :=
  then_by (by_instant ar_bucket_start) (then_by (by_column ar_symbol) (by_column ar_provider)).

Definition checkpoint_order : ProviderCheckpointRecord → ProviderCheckpointRecord → comparison :=
  then_by (by_column pr_provider) (by_column pr_feed).

Definition minute_query (db : database) (cutoff : Z) (scope : option (list string))
    : list MinutePriceRecord :=
  select (λ r, bool_decide (cutoff ≤ mp_timestamp r) && in_scope scope (mp_symbol r)) minute_order
    (row <$> table_rows (minute_prices db)).

(** The condition on the interval of an aggregate price. *)
Definition retained_interval (interval aggregate_cutoff daily_cutoff : Z) (r : AggregatePriceRecord) : bool :=
  bool_decide (ar_interval_seconds r = interval ∧ aggregate_cutoff ≤ ar_bucket_start r) ||
  bool_decide (ar_interval_seconds r = 86400 ∧ daily_cutoff ≤ ar_bucket_start r).

Definition aggregate_query (db : database) (interval aggregate_cutoff daily_cutoff : Z)
    (scope : option (list string)) : list AggregatePriceRecord :=
  select (λ r, retained_interval interval aggregate_cutoff daily_cutoff r && in_scope scope (ar_symbol r))
    aggregate_order (row <$> table_rows (aggregate_prices db)).

Definition snapshot_query (db : database) (scope : option (list string)) : list LatestSnapshotRecord :=
  select (λ r, in_scope scope (ls_symbol r)) (by_column ls_symbol) (row <$> table_rows (latest_snapshots db)).

(** The rows that [ROW_NUMBER() OVER (PARTITION BY symbol ORDER BY ...)]
    numbers 1, in symbol order. *)
Definition window_query {R} (symbol_of : R → string) (newest : string → option (stored R)) (rows : list R)
    (scope : option (list string)) : list R :=
  select (λ _, true) (by_column symbol_of)
    (omap (λ symbol, row <$> newest symbol) (dedup (symbol_of <$> filter (λ r, in_scope scope (symbol_of r)) rows))).

Definition dividend_query (db : database) (scope : option (list string)) : list DividendEventRecord :=
  window_query dr_symbol (newest_dividend db) (row <$> table_rows (dividend_events db)) scope.

Definition yield_query (db : database) (scope : option (list string)) : list YieldMetricRecord :=
  window_query yr_symbol (newest_yield db) (row <$> table_rows (yield_metrics db)) scope.

Record RestoredState := {
  rs_minute_prices : list MinutePriceRecord;
  rs_aggregate_prices : list AggregatePriceRecord;
  rs_latest_snapshots : list LatestSnapshotRecord;
  rs_dividend_events : list DividendEventRecord;
  rs_yield_metric_records : list YieldMetricRecord;
  rs_provider_checkpoints : list ProviderCheckpointRecord;
}.

(** [RestoredState.price_points]: the retained prices as points of the domain,
    by time, interval and symbol. *)
Definition restored_point (symbol : string) (timestamp : Z) (price : decimal) (provider : string)
    (is_derived : bool) (interval : string) : result PricePoint :=
  PricePoint_init
    {| pp_symbol := symbol; pp_timestamp := Aware timestamp; pp_price := DFinite price;
       pp_provider := provider; pp_is_derived := is_derived; pp_interval := interval |}.

Definition point_order : PricePoint → PricePoint → comparison :=
  then_by (by_instant pp_timestamp) (then_by (by_column pp_interval) (by_column pp_symbol)).

Definition price_points (s : RestoredState) : result (list PricePoint) :=
  minutes ← map_result (λ r, restored_point (mp_symbol r) (mp_timestamp r) (mp_price r) (mp_provider r)
                               (mp_is_derived r) "1m") (rs_minute_prices s);
  aggregates ← map_result (λ r, restored_point (ar_symbol r) (ar_bucket_start r) (ar_close r)
                                  (ar_provider r) (ar_is_derived r)
                                  (if decide (ar_interval_seconds r = 86400) then "1d" else "5m"))
                 (rs_aggregate_prices s);
  Ok (sort_rows point_order (minutes ++ aggregates)).

Definition snapshots_by_symbol (s : RestoredState) : gmap string LatestSnapshotRecord :=
  foldl (λ m r, <[ls_symbol r := r]> m) ∅ (rs_latest_snapshots s).

Definition checkpoints_by_key (s : RestoredState) : gmap checkpoint_key ProviderCheckpointRecord :=
  foldl (λ m r, <[checkpoint_key_of r := r]> m) ∅ (rs_provider_checkpoints s).

(** [except (ValueError, TypeError, KeyError) as exc: raise StorageCorruptionError(...)] *)
Definition corrupted {A} (what : string) (m : result A) : result A :=
  match m with
  | Raise (ValueError _ as e) | Raise (TypeError _ as e) | Raise (KeyError _ as e) =>
    Raise (StorageCorruptionError (what +:+ exn_text e))
  | _ => m
  end.

Record restore_args := {
  ra_now : Z;
  ra_minute_retention : Z;
  ra_aggregate_retention : Z;
  ra_daily_retention : Z;
  ra_aggregate_interval_seconds : Z;
  ra_symbols : option (list string);
}.

(** The checks both restores share, and the normalized symbols. *)
Definition restore_scope (a : restore_args) : result (option (list string)) :=
  symbols ← normalize_restore_symbols (ra_symbols a);
  _ ← positive_retentions (ra_minute_retention a) (ra_aggregate_retention a) (ra_daily_retention a);
  _ ← raise_if (bool_decide (ra_aggregate_interval_seconds a ≤ 0))
        (ValueError "aggregate_interval_seconds must be positive");
  Ok symbols.

(** [restore_sync], on one consistent snapshot of the tables. *)
Definition restore_sync (a : restore_args) (include_history : bool) (db : database)
    : result RestoredState :=
  symbols ← restore_scope a;
  let minute_rows :=
    if include_history
    then fetch_restore_rows (minute_query db (ra_now a - ra_minute_retention a)) minute_order symbols
    else [] in
  let aggregate_rows :=
    if include_history
    then fetch_restore_rows
           (aggregate_query db (ra_aggregate_interval_seconds a) (ra_now a - ra_aggregate_retention a)
              (ra_now a - ra_daily_retention a)) aggregate_order symbols
    else [] in
  let snapshot_rows := fetch_restore_rows (snapshot_query db) (by_column ls_symbol) symbols in
  let dividend_rows := fetch_restore_rows (dividend_query db) (by_column dr_symbol) symbols in
  let yield_rows := fetch_restore_rows (yield_query db) (by_column yr_symbol) symbols in
  let checkpoint_rows :=
    match symbols with
    | None => select (λ _, true) checkpoint_order (table_rows (provider_checkpoints db))
    | Some _ => []
    end in
  corrupted "invalid persisted QuickPrice record: "
    (minutes ← map_result (λ r, MinutePriceRecord_init (minute_raw r)) minute_rows;
     aggregates ← map_result (λ r, AggregatePriceRecord_init (aggregate_raw r)) aggregate_rows;
     snapshots ← map_result (λ r, LatestSnapshotRecord_init (snapshot_raw r)) snapshot_rows;
     dividends ← map_result (λ r, DividendEventRecord_init (dividend_raw r)) dividend_rows;
     yields ← map_result (λ r, YieldMetricRecord_init (yield_raw r)) yield_rows;
     checkpoints ← map_result (λ r, ProviderCheckpointRecord_init (checkpoint_raw r)) checkpoint_rows;
     Ok {| rs_minute_prices := minutes; rs_aggregate_prices := aggregates;
           rs_latest_snapshots := snapshots; rs_dividend_events := dividends;
           rs_yield_metric_records := yields; rs_provider_checkpoints := checkpoints |}).

(** ** History *)

(** The row of a history query. *)
Record history_row := {
  hr_symbol : string;
  hr_timestamp : Z;
  hr_price : decimal;
  hr_provider : string;
  hr_is_derived : bool;
  hr_interval_seconds : Z;
}.

Definition minute_history_row (r : MinutePriceRecord) : history_row :=
  {| hr_symbol := mp_symbol r; hr_timestamp := mp_timestamp r; hr_price := mp_price r;
     hr_provider := mp_provider r; hr_is_derived := mp_is_derived r; hr_interval_seconds := 60 |}.

Definition aggregate_history_row (r : AggregatePriceRecord) : history_row :=
  {| hr_symbol := ar_symbol r; hr_timestamp := ar_bucket_start r; hr_price := ar_close r;
     hr_provider := ar_provider r; hr_is_derived := ar_is_derived r;
     hr_interval_seconds := ar_interval_seconds r |}.

Definition history_interval (interval_seconds : Z) : string :=
  if decide (interval_seconds = 86400) then "1d"
  else if decide (interval_seconds ≠ 60) then "5m" else "1m".

Definition history_point (r : history_row) : result PricePoint :=
  PricePoint_init
    {| pp_symbol := hr_symbol r; pp_timestamp := Aware (hr_timestamp r);
       pp_price := DFinite (hr_price r); pp_provider := hr_provider r;
       pp_is_derived := hr_is_derived r; pp_interval := history_interval (hr_interval_seconds r) |}.

Definition minute_history (db : database) (cutoff : Z) (scope : option (list string)) : list history_row :=
  select (λ r, bool_decide (cutoff ≤ hr_timestamp r) && in_scope scope (hr_symbol r))
    (then_by (by_column hr_symbol) (then_by (by_instant hr_timestamp) (by_column hr_provider)))
    (minute_history_row ∘ row <$> table_rows (minute_prices db)).

Definition aggregate_history (db : database) (interval aggregate_cutoff daily_cutoff : Z)
    (scope : option (list string)) : list history_row :=
  select (λ r, (bool_decide (hr_interval_seconds r = interval ∧ aggregate_cutoff ≤ hr_timestamp r) ||
                bool_decide (hr_interval_seconds r = 86400 ∧ daily_cutoff ≤ hr_timestamp r)) &&
               in_scope scope (hr_symbol r))
    (then_by (by_column hr_symbol)
       (then_by (by_instant hr_interval_seconds)
          (then_by (by_instant hr_timestamp) (by_column hr_provider))))
    (aggregate_history_row ∘ row <$> table_rows (aggregate_prices db)).

(** The locals of the loop of [_stream_history_query_into], with the cache it
    loads. *)
Record stream := {
  st_cache : HistoryCache.t;
  st_symbol : option string;
  st_points : list PricePoint;
  st_loaded : nat;
}.

Definition load_pending (s : stream) : result stream :=
  cache ← HistoryCache.load (st_cache s) (st_points s);
  Ok {| st_cache := cache; st_symbol := st_symbol s; st_points := [];
        st_loaded := (st_loaded s + length (st_points s))%nat |}.

Definition stream_row (s : stream) (r : history_row) : result stream :=
  s' ← match st_symbol s with
       | Some current => if decide (hr_symbol r = current) then Ok s else load_pending s
       | None => Ok s
       end;
  point ← history_point r;
  Ok {| st_cache := st_cache s'; st_symbol := Some (hr_symbol r);
        st_points := st_points s' ++ [point]; st_loaded := st_loaded s' |}.

(** [_stream_history_query_into]: the chunks of [fetchmany] that the cursor
    delivers of [rows]. *)
Definition stream_history_query_into (fetch_size : nat) (rows : list history_row)
    (cache : HistoryCache.t) : result (HistoryCache.t * nat) :=
  s ← fold_result (fold_result stream_row)
        {| st_cache := cache; st_symbol := None; st_points := []; st_loaded := 0 |}
        (slices fetch_size rows);
  s' ← (if decide (st_points s = []) then Ok s else load_pending s);
  Ok (st_cache s', st_loaded s').

Definition stream_batch (a : restore_args) (fetch_size : nat) (db : database)
    (acc : HistoryCache.t * nat) (batch : option (list string)) : result (HistoryCache.t * nat) :=
  if bool_decide (batch = Some []) then Ok acc
  else
    r1 ← stream_history_query_into fetch_size
           (minute_history db (ra_now a - ra_minute_retention a) batch) acc.1;
    r2 ← stream_history_query_into fetch_size
           (aggregate_history db (ra_aggregate_interval_seconds a) (ra_now a - ra_aggregate_retention a)
              (ra_now a - ra_daily_retention a) batch) r1.1;
    Ok (r2.1, (acc.2 + r1.2 + r2.2)%nat).

(** [restore_history_into_sync] *)
Definition restore_history_into_sync (a : restore_args) (fetch_size : Z) (db : database)
    (cache : HistoryCache.t) : result (HistoryCache.t * nat) :=
  symbols ← restore_scope a;
  _ ← raise_if (bool_decide (fetch_size ≤ 0)) (ValueError "fetch_size must be positive");
  corrupted "could not restore persisted QuickPrice history: "
    (fold_result (stream_batch a (Z.to_nat fetch_size) db) (cache, 0%nat)
       (restore_symbol_batches symbols)).

End queries.
