(* ===== verification/StorageRestoreFacts.v ===== *)
(** * Properties of reading the database back

    What a restore delivers is what the tables hold: nothing that was written
    is refused, a restore limited to some symbols is the same part of the full
    one however the symbols are batched, and streaming the history into the
    cache is loading each symbol's rows at once. *)

From S2P Require Import Prelude PyStr PyDecimal PyTime Json Domain Cache StorageRecords Storage.
From S2P Require Import StorageFacts StorageTables StorageRestore.
From Stdlib Require Import Ascii.

Local Open Scope string_scope.
Local Open Scope list_scope.
Local Open Scope Z_scope.

(** ** Orders *)

(** A three-way comparison that is a total preorder. *)
Class TotalOrder {A} (order : A → A → comparison) : Prop := {
  order_antisym : ∀ a b, order b a = CompOpp (order a b);
  order_eq : ∀ a b c, order a b = Eq → order a c = order b c;
  order_lt : ∀ a b c, order a b = Lt → order b c = Lt → order a c = Lt;
}.

#[export] Instance by_instant_order {A} (column : A → Z) : TotalOrder (by_instant column).
Proof.
  unfold by_instant. split.
  - intros a b. apply Z.compare_antisym.
  - intros a b c ->%Z.compare_eq_iff. done.
  - intros a b c. rewrite !Z.compare_lt_iff. lia.
Qed.

Lemma string_compare_trans (a b c : string) :
  String.compare a b = Lt → String.compare b c = Lt → String.compare a c = Lt.
Proof.
  revert b c. induction a as [|x a IH]; intros [|y b] [|z c]; cbn; try done.
  unfold Ascii.compare.
  destruct (N.compare_spec (N_of_ascii x) (N_of_ascii y)) as [Hxy|Hxy|Hxy];
    destruct (N.compare_spec (N_of_ascii y) (N_of_ascii z)) as [Hyz|Hyz|Hyz]; try done; intros H1 H2.
  - rewrite Hxy, Hyz, N.compare_refl. by eapply IH.
  - rewrite Hxy. by apply N.compare_lt_iff in Hyz as ->.
  - rewrite <- Hyz. by apply N.compare_lt_iff in Hxy as ->.
  - assert ((N_of_ascii x < N_of_ascii z)%N) as ->%N.compare_lt_iff by lia. done.
Qed.

#[export] Instance by_column_order {A} (column : A → string) : TotalOrder (by_column column).
Proof.
  unfold by_column. split.
  - intros a b. apply String.compare_antisym.
  - intros a b c ->%String.compare_eq_iff. done.
  - intros a b c. apply string_compare_trans.
Qed.

#[export] Instance then_by_order {A} (o1 o2 : A → A → comparison) :
  TotalOrder o1 → TotalOrder o2 → TotalOrder (then_by o1 o2).
Proof.
  intros H1 H2. unfold then_by, lex. split.
  - intros a b. rewrite (order_antisym (order := o1)), (order_antisym (order := o2)). by destruct (o1 a b).
  - intros a b c. destruct (o1 a b) eqn:E1; [|done..]. intros E2.
    by rewrite (order_eq _ _ c E1), (order_eq _ _ c E2).
  - intros a b c. destruct (o1 a b) eqn:E1; [| |done].
    + rewrite (order_eq _ _ c E1). intros E2. destruct (o1 b c); [|done..]. by apply order_lt.
    + intros _. destruct (o1 b c) eqn:E2; [| |done].
      * pose proof (order_eq (order := o1) b c a E2) as Hc.
        rewrite !(order_antisym a) in Hc. rewrite E1 in Hc. cbn in Hc.
        destruct (o1 a c); done.
      * by rewrite (order_lt _ _ _ E1 E2).
Qed.

Lemma flip_order {A} (order : A → A → comparison) :
  TotalOrder order → TotalOrder (λ a b, order b a).
Proof.
  intros Ho. split.
  - intros a b. apply order_antisym.
  - intros a b c Hab. rewrite (order_antisym a c), (order_antisym b c). f_equal.
    apply order_eq. by rewrite order_antisym, Hab.
  - intros a b c Hab Hbc. by apply (order_lt c b a).
Qed.

#[export] Instance minute_order_total : TotalOrder minute_order := _.
#[export] Instance aggregate_order_total : TotalOrder aggregate_order := _.
#[export] Instance checkpoint_order_total : TotalOrder checkpoint_order := _.
#[export] Instance api_key_order_total : TotalOrder api_key_order := _.
#[export] Instance audit_order_total : TotalOrder audit_order := flip_order _ _.

(** [x] may stand before [y]. *)
Definition not_after {A} (order : A → A → comparison) (x y : A) : Prop := order x y ≠ Gt.

Section ordering.
Context {A : Type} (order : A → A → comparison) `{!TotalOrder order}.
Implicit Types (l : list A) (x : A).

Abbreviation ordered := (StronglySorted (not_after order)).

Lemma not_after_trans x y z : not_after order x y → not_after order y z → not_after order x z.
Proof.
  unfold not_after. destruct (order x y) eqn:E1; [| |done]; intros _.
  - by rewrite (order_eq _ _ z E1).
  - destruct (order y z) eqn:E2; [| |done]; intros _.
    + rewrite (order_antisym z x). pose proof (order_eq y z x E2) as Hc.
      rewrite <- Hc, (order_antisym x y), E1. done.
    + by rewrite (order_lt _ _ _ E1 E2).
Qed.

Lemma insert_row_ordered x l : ordered l → ordered (insert_row order x l).
Proof.
  induction 1 as [|y l Hs IH Hall]; cbn; [by repeat constructor|].
  destruct (order x y) eqn:E.
  - constructor; [by constructor|]. assert (Hxy : not_after order x y) by (unfold not_after; congruence).
    constructor; [done|]. eapply Forall_impl; [exact Hall|]. intros z. by apply not_after_trans.
  - constructor; [by constructor|]. assert (Hxy : not_after order x y) by (unfold not_after; congruence).
    constructor; [done|]. eapply Forall_impl; [exact Hall|]. intros z. by apply not_after_trans.
  - constructor; [done|]. rewrite insert_row_perm. constructor; [|done].
    unfold not_after. by rewrite order_antisym, E.
Qed.

Lemma sort_rows_ordered l : ordered (sort_rows order l).
Proof. induction l as [|x l IH]; cbn; [constructor|]. by apply insert_row_ordered. Qed.

Lemma ordered_filter (P : A → Prop) `{!∀ x, Decision (P x)} l : ordered l → ordered (filter P l).
Proof.
  induction 1 as [|x l Hs IH Hall]; [constructor|]. rewrite filter_cons. case_decide; [|done].
  constructor; [done|]. rewrite Forall_forall in Hall |- *. intros y [_ Hy]%list_elem_of_filter. by apply Hall.
Qed.

(** The order of the rows is determined when it tells all of them apart. *)
Lemma ordered_unique l1 l2 :
  (∀ x y, x ∈ l1 → y ∈ l1 → order x y = Eq → x = y) →
  ordered l1 → ordered l2 → l1 ≡ₚ l2 → l1 = l2.
Proof.
  intros Hinj H1 H2 Hp. apply (StronglySorted_unique_strong (not_after order)); [|done..].
  intros x y Hx Hy Hxy Hyx. apply Hinj; [done|by rewrite Hp|].
  unfold not_after in *. rewrite order_antisym in Hyx. by destruct (order x y).
Qed.

Lemma sort_rows_permuted l1 l2 :
  (∀ x y, x ∈ l1 → y ∈ l1 → order x y = Eq → x = y) → l1 ≡ₚ l2 → sort_rows order l1 = sort_rows order l2.
Proof.
  intros Hinj Hp. apply ordered_unique; [|apply sort_rows_ordered..|by rewrite !sort_rows_perm].
  intros x y. rewrite !sort_rows_perm. apply Hinj.
Qed.
End ordering.

(** ** Queries *)

(** [l] lists the rows that satisfy [P], each once, in order. *)
Definition lists {R} (order : R → R → comparison) (P : R → Prop) (l : list R) : Prop :=
  StronglySorted (not_after order) l ∧ NoDup l ∧ ∀ r, r ∈ l ↔ P r.

Lemma lists_iff {R} (order : R → R → comparison) (P Q : R → Prop) l :
  (∀ r, P r ↔ Q r) → lists order P l → lists order Q l.
Proof. intros HPQ (H1 & H2 & H3). split_and!; [done..|]. intros r. by rewrite H3. Qed.

(** A listing is determined when the order tells the rows apart. *)
Lemma lists_unique {R} (order : R → R → comparison) `{!TotalOrder order} (P : R → Prop) l1 l2 :
  (∀ x y, P x → P y → order x y = Eq → x = y) → lists order P l1 → lists order P l2 → l1 = l2.
Proof.
  intros Hinj (S1 & N1 & M1) (S2 & N2 & M2). apply (ordered_unique order); [|done..|].
  - intros x y. rewrite !M1. apply Hinj.
  - apply NoDup_Permutation; [done..|]. intros x. by rewrite M1, M2.
Qed.

Lemma slices_fuel_concat {A} n fuel (l : list A) :
  (0 < n)%nat → (length l ≤ fuel)%nat → concat (slices_fuel fuel n l) = l.
Proof.
  intros Hn. revert l. induction fuel as [|fuel IH]; intros [|x l] Hl; cbn in *; [done|lia|done|].
  destruct n as [|n]; [lia|]. cbn. rewrite IH; [by rewrite take_drop|].
  rewrite length_drop. lia.
Qed.

Lemma slices_concat {A} n (l : list A) : (0 < n)%nat → concat (slices n l) = l.
Proof. intros Hn. by apply slices_fuel_concat. Qed.

Section queries.
Context `{SqlEngine}.

Lemma select_lists {R} (p : R → bool) order `{!TotalOrder order} (rows : list R) :
  NoDup rows → lists order (λ r, r ∈ rows ∧ p r = true) (select p order rows).
Proof.
  intros Hnd. unfold select. split_and!.
  - by apply sort_rows_ordered.
  - rewrite sort_rows_perm, scan_perm. by apply NoDup_filter.
  - intros r. rewrite sort_rows_perm, scan_perm, list_elem_of_filter.
    rewrite Is_true_true. tauto.
Qed.

Lemma batches_lists {R} (query : option (list string) → list R) order (symbol_of : R → string) (P : R → Prop)
    (batches : list (list string)) :
  (∀ scope, lists order (λ r, P r ∧ in_scope scope (symbol_of r) = true) (query scope)) →
  NoDup (concat batches) →
  NoDup (concat (map (λ batch, query (Some batch)) batches)) ∧
  ∀ r, r ∈ concat (map (λ batch, query (Some batch)) batches) ↔ P r ∧ symbol_of r ∈ concat batches.
Proof.
  intros Hq. induction batches as [|batch batches IH]; cbn.
  { intros _. split; [constructor|]. intros r. rewrite !elem_of_nil. tauto. }
  intros (N1 & Hdis & N2)%NoDup_app. destruct (IH N2) as [IHn IHm].
  destruct (Hq (Some batch)) as (_ & Hn & Hm). cbn in Hm. setoid_rewrite bool_decide_eq_true in Hm. split.
  - apply NoDup_app. split_and!; [done| |done]. intros r [_ Hr]%Hm [_ Hr']%IHm. by eapply Hdis.
  - intros r. rewrite !elem_of_app, Hm, IHm. tauto.
Qed.

(** Fetching by batches of symbols lists what one query would. *)
Lemma fetch_lists {R} (query : option (list string) → list R) order `{!TotalOrder order}
    (symbol_of : R → string) (P : R → Prop) symbols :
  (∀ scope, lists order (λ r, P r ∧ in_scope scope (symbol_of r) = true) (query scope)) →
  match symbols with Some l => NoDup l | None => True end →
  lists order (λ r, P r ∧ in_scope symbols (symbol_of r) = true) (fetch_restore_rows query order symbols).
Proof.
  intros Hq. destruct symbols as [[|s l]|]; cbn [fetch_restore_rows]; intros Hnd; [| |apply Hq].
  - split_and!; [constructor|constructor|]. intros r. cbn. rewrite bool_decide_eq_true, !elem_of_nil. tauto.
  - set (batches := slices (Z.to_nat RESTORE_SYMBOL_BATCH_SIZE) (s :: l)).
    assert (Hc : concat batches = s :: l) by (apply slices_concat; unfold RESTORE_SYMBOL_BATCH_SIZE; lia).
    destruct (batches_lists query order symbol_of P batches Hq) as [Hn Hm]; [by rewrite Hc|].
    split_and!; [by apply sort_rows_ordered|by rewrite sort_rows_perm|].
    intros r. rewrite sort_rows_perm, Hm, Hc. cbn. by rewrite bool_decide_eq_true.
Qed.

Lemma NoDup_table_rows {K R} `{Countable K} key (P : R → Prop) (t : gmap K R) :
  table_ok key P t → NoDup (table_rows t).
Proof.
  intros Ht. apply NoDup_fmap_2_strong; [|apply NoDup_map_to_list].
  intros [k1 r1] [k2 r2] H1%elem_of_map_to_list H2%elem_of_map_to_list. cbn. intros ->.
  destruct (Ht _ _ H1) as [<- _], (Ht _ _ H2) as [<- _]. done.
Qed.

Lemma NoDup_stored_rows {K R} `{Countable K} (key : R → K) (P : stored R → Prop) (t : gmap K (stored R)) :
  table_ok (key ∘ row) P t → NoDup (row <$> table_rows t).
Proof.
  intros Ht. unfold table_rows. rewrite <- list_fmap_compose.
  apply NoDup_fmap_2_strong; [|apply NoDup_map_to_list].
  intros [k1 r1] [k2 r2] H1%elem_of_map_to_list H2%elem_of_map_to_list. cbn. intros Hr.
  destruct (Ht _ _ H1) as [Hk1 _], (Ht _ _ H2) as [Hk2 _]. cbn in Hk1, Hk2.
  assert (k1 = k2) as <- by congruence. f_equal. congruence.
Qed.

(** The rows of a table with a storage time. *)
Definition stored_row {K R} `{Countable K} (t : gmap K (stored R)) (r : R) : Prop :=
  ∃ k v, t !! k = Some v ∧ row v = r.

Lemma elem_of_stored_rows {K R} `{Countable K} (t : gmap K (stored R)) r :
  r ∈ row <$> table_rows t ↔ stored_row t r.
Proof.
  rewrite list_elem_of_fmap. setoid_rewrite elem_of_table_rows. unfold stored_row. naive_solver.
Qed.

(** The newest rows of their symbols. *)
Lemma window_lists {R} (symbol_of : R → string) (newest : string → option (stored R)) (rows : list R) scope :
  (∀ s v, newest s = Some v → symbol_of (row v) = s ∧ row v ∈ rows) →
  lists (by_column symbol_of)
    (λ r, (∃ v, newest (symbol_of r) = Some v ∧ row v = r) ∧ in_scope scope (symbol_of r) = true)
    (window_query symbol_of newest rows scope).
Proof.
  intros Hnew. unfold window_query.
  set (symbols := dedup (symbol_of <$> filter (λ r, in_scope scope (symbol_of r)) rows)).
  eapply lists_iff; [|apply select_lists; [apply _|]].
  - intros r. cbn. rewrite list_elem_of_omap. split.
    + intros [(s & Hs & Hr) _]. destruct (newest s) as [v|] eqn:Hv; [|done]. injection Hr as <-.
      destruct (Hnew _ _ Hv) as [Hsym _]. rewrite Hsym. split; [eauto|].
      unfold symbols in Hs. rewrite elem_of_dedup in Hs.
      apply list_elem_of_fmap in Hs as (x & -> & [Hx _]%list_elem_of_filter). by apply Is_true_true.
    + intros [(v & Hv & Hr) Hscope]. split; [|done]. exists (symbol_of r). rewrite Hv. cbn. split; [|congruence].
      unfold symbols. apply elem_of_dedup, list_elem_of_fmap. exists r. split; [done|].
      apply list_elem_of_filter. split; [by apply Is_true_true|]. rewrite <- Hr. by eapply Hnew.
  - pose proof (NoDup_dedup (symbol_of <$> filter (λ r, in_scope scope (symbol_of r)) rows)) as Hnd.
    fold symbols in Hnd. clearbody symbols. revert Hnd.
    induction symbols as [|s l IH]; cbn; [constructor|]. intros [Hs Hl]%NoDup_cons.
    destruct (newest s) as [v|] eqn:Hv; cbn; [|by apply IH]. constructor; [|by apply IH].
    intros (s' & Hs' & Hr)%list_elem_of_omap. destruct (newest s') as [v'|] eqn:Hv'; [|done].
    injection Hr as Hr. destruct (Hnew _ _ Hv) as [<- _], (Hnew _ _ Hv') as [<- _]. by rewrite Hr in Hs'.
Qed.

(** ** Restore *)

Lemma map_result_id {A} (f : A → result A) l : (∀ x, x ∈ l → f x = Ok x) → map_result f l = Ok l.
Proof.
  induction l as [|x l IH]; cbn; intros Hf; [done|]. rewrite Hf by (by left). cbn.
  rewrite IH; [done|]. intros y Hy. apply Hf. by right.
Qed.

Lemma newest_dividend_row db s v :
  newest_dividend db s = Some v →
  dr_symbol (row v) = s ∧ row v ∈ row <$> table_rows (dividend_events db).
Proof.
  intros Hv. apply (newest_in_elem dividend_order (dr_symbol ∘ row)), elem_of_partition_of in Hv as [Hs [k Hk]].
  split; [done|]. apply elem_of_stored_rows. by exists k, v.
Qed.

Lemma newest_yield_row db s v :
  newest_yield db s = Some v →
  yr_symbol (row v) = s ∧ row v ∈ row <$> table_rows (yield_metrics db).
Proof.
  intros Hv. apply (newest_in_elem yield_order (yr_symbol ∘ row)), elem_of_partition_of in Hv as [Hs [k Hk]].
  split; [done|]. apply elem_of_stored_rows. by exists k, v.
Qed.

Lemma normalize_NoDup symbols scope :
  normalize_restore_symbols symbols = Ok scope → match scope with Some l => NoDup l | None => True end.
Proof.
  unfold normalize_restore_symbols. destruct symbols as [l|]; cbn; [|by intros [= <-]].
  intros (l' & (l'' & _ & [= <-])%result_bind_ok & [= <-])%result_bind_ok.
  rewrite sort_rows_perm. apply NoDup_dedup.
Qed.

Lemma minute_query_lists db cutoff scope : well_formed db →
  lists minute_order
    (λ r, (stored_row (minute_prices db) r ∧ cutoff ≤ mp_timestamp r) ∧ in_scope scope (mp_symbol r) = true)
    (minute_query db cutoff scope).
Proof.
  intros Hwf. eapply lists_iff; [|apply select_lists; [apply _|]].
  - intros r. cbn. rewrite elem_of_stored_rows, andb_true_iff, bool_decide_eq_true. tauto.
  - by eapply NoDup_stored_rows, wf_minutes.
Qed.

(** The aggregates a restore asks for. *)
Definition retained_aggregate (a : restore_args) (r : AggregatePriceRecord) : Prop :=
  ar_interval_seconds r = ra_aggregate_interval_seconds a ∧
    ra_now a - ra_aggregate_retention a ≤ ar_bucket_start r ∨
  ar_interval_seconds r = 86400 ∧ ra_now a - ra_daily_retention a ≤ ar_bucket_start r.

Lemma aggregate_query_lists db a scope : well_formed db →
  lists aggregate_order
    (λ r, (stored_row (aggregate_prices db) r ∧ retained_aggregate a r) ∧ in_scope scope (ar_symbol r) = true)
    (aggregate_query db (ra_aggregate_interval_seconds a) (ra_now a - ra_aggregate_retention a)
       (ra_now a - ra_daily_retention a) scope).
Proof.
  intros Hwf. eapply lists_iff; [|apply select_lists; [apply _|]].
  - intros r. cbn. unfold retained_interval, retained_aggregate.
    rewrite elem_of_stored_rows, andb_true_iff, orb_true_iff, !bool_decide_eq_true. tauto.
  - by eapply NoDup_stored_rows, wf_aggregates.
Qed.

Lemma snapshot_query_lists db scope : well_formed db →
  lists (by_column ls_symbol) (λ r, stored_row (latest_snapshots db) r ∧ in_scope scope (ls_symbol r) = true)
    (snapshot_query db scope).
Proof.
  intros Hwf. eapply lists_iff; [|apply select_lists; [apply _|]].
  - intros r. cbn. by rewrite elem_of_stored_rows.
  - by eapply NoDup_stored_rows, wf_snapshots.
Qed.

(** What a restore lists of dividends and yields. *)
Definition newest_row {R} (symbol_of : R → string) (newest : string → option (stored R)) (r : R) : Prop :=
  ∃ v, newest (symbol_of r) = Some v ∧ row v = r.

Lemma stored_row_ok {K R} `{Countable K} (key : R → K) (P : R → Prop) (t : gmap K (stored R)) r :
  table_ok (key ∘ row) (P ∘ row) t → stored_row t r → P r.
Proof. intros Ht (k & v & Hk & <-). by destruct (Ht _ _ Hk). Qed.

Lemma newest_row_ok {K R} `{Countable K} (key : R → K) (P : R → Prop) (t : gmap K (stored R))
    (symbol_of : R → string) newest r :
  (∀ s v, newest s = Some v → symbol_of (row v) = s ∧ row v ∈ row <$> table_rows t) →
  table_ok (key ∘ row) (P ∘ row) t → newest_row symbol_of newest r → P r.
Proof.
  intros Hnew Ht (v & Hv & <-). destruct (Hnew _ _ Hv) as [_ Hin].
  by eapply stored_row_ok, elem_of_stored_rows.
Qed.

Lemma lists_valid {R} (order : R → R → comparison) (P : R → Prop) (f : R → result R) l :
  lists order P l → (∀ r, P r → f r = Ok r) → map_result f l = Ok l.
Proof. intros (_ & _ & Hm) Hf. apply map_result_id. intros r Hr. by apply Hf, Hm. Qed.

(** C35: a restore succeeds on a well-formed database, and delivers, in order and
    once each, exactly the stored rows in its scope and retention: the prices,
    the snapshots, of each symbol the dividend and the yield that its queries
    rank first (the newest, regular cash dividends before all others), and,
    without a scope, every provider checkpoint.  Batching the symbols makes no
    difference. *)
Theorem restore_exact (a : restore_args) (db : database) (scope : option (list string))
    (Hwf : well_formed db) (Hscope : restore_scope a = Ok scope) :
  ∃ st, restore_sync a true db = Ok st ∧
    lists minute_order
      (λ r, (stored_row (minute_prices db) r ∧ ra_now a - ra_minute_retention a ≤ mp_timestamp r) ∧
            in_scope scope (mp_symbol r) = true) (rs_minute_prices st) ∧
    lists aggregate_order
      (λ r, (stored_row (aggregate_prices db) r ∧ retained_aggregate a r) ∧
            in_scope scope (ar_symbol r) = true) (rs_aggregate_prices st) ∧
    lists (by_column ls_symbol)
      (λ r, stored_row (latest_snapshots db) r ∧ in_scope scope (ls_symbol r) = true)
      (rs_latest_snapshots st) ∧
    lists (by_column dr_symbol)
      (λ r, newest_row dr_symbol (newest_dividend db) r ∧ in_scope scope (dr_symbol r) = true)
      (rs_dividend_events st) ∧
    lists (by_column yr_symbol)
      (λ r, newest_row yr_symbol (newest_yield db) r ∧ in_scope scope (yr_symbol r) = true)
      (rs_yield_metric_records st) ∧
    lists checkpoint_order
      (λ r, scope = None ∧ ∃ k, provider_checkpoints db !! k = Some r) (rs_provider_checkpoints st).
Proof.
  assert (Hnd : match scope with Some l => NoDup l | None => True end).
  { unfold restore_scope in Hscope. apply result_bind_ok in Hscope as (sy & Hs & (u & _ & (w & _ & [= <-])%result_bind_ok)%result_bind_ok).
    by eapply normalize_NoDup. }
  unfold restore_sync. rewrite Hscope. cbn [mbind result_bind].
  pose proof (fetch_lists _ minute_order mp_symbol _ scope
    (λ sc, minute_query_lists db (ra_now a - ra_minute_retention a) sc Hwf) Hnd) as L1.
  pose proof (fetch_lists _ aggregate_order ar_symbol _ scope
    (λ sc, aggregate_query_lists db a sc Hwf) Hnd) as L2.
  pose proof (fetch_lists _ (by_column ls_symbol) ls_symbol _ scope
    (λ sc, snapshot_query_lists db sc Hwf) Hnd) as L3.
  pose proof (fetch_lists _ (by_column dr_symbol) dr_symbol _ scope
    (λ sc, window_lists dr_symbol (newest_dividend db) _ sc (newest_dividend_row db)) Hnd) as L4.
  pose proof (fetch_lists _ (by_column yr_symbol) yr_symbol _ scope
    (λ sc, window_lists yr_symbol (newest_yield db) _ sc (newest_yield_row db)) Hnd) as L5.
  assert (L6 : lists checkpoint_order (λ r, scope = None ∧ ∃ k, provider_checkpoints db !! k = Some r)
    (match scope with Some _ => []
     | None => select (λ _, true) checkpoint_order (table_rows (provider_checkpoints db)) end)).
  { destruct scope as [l|]; [split_and!; [constructor|constructor|]; intros r; rewrite elem_of_nil; naive_solver|].
    eapply lists_iff; [|apply select_lists; [apply _|by eapply NoDup_table_rows, wf_checkpoints]].
    intros r. cbn. rewrite elem_of_table_rows. naive_solver. }
  rewrite (lists_valid _ _ _ _ L1), (lists_valid _ _ _ _ L2), (lists_valid _ _ _ _ L3),
    (lists_valid _ _ _ _ L4), (lists_valid _ _ _ _ L5), (lists_valid _ _ _ _ L6).
  { eexists. split; [reflexivity|]. by split_and!. }
  - intros r [_ [k Hk]]. by destruct (wf_checkpoints _ Hwf _ _ Hk).
  - intros r [Hr _]. by apply (newest_row_ok _ _ _ _ _ _ (newest_yield_row db) (wf_yields _ Hwf) Hr).
  - intros r [Hr _]. by apply (newest_row_ok _ _ _ _ _ _ (newest_dividend_row db) (wf_dividends _ Hwf) Hr).
  - intros r [Hr _]. by apply (stored_row_ok _ _ _ _ (wf_snapshots _ Hwf) Hr).
  - intros r [[Hr _] _]. by apply (stored_row_ok _ _ _ _ (wf_aggregates _ Hwf) Hr).
  - intros r [[Hr _] _]. by apply (stored_row_ok _ _ _ _ (wf_minutes _ Hwf) Hr).
Qed.

(** ** Keys and audit events *)

(** [load_api_keys] lists every stored key in order of creation. *)
Lemma load_api_keys_lists db : well_formed db →
  ∃ keys, load_api_keys db = Ok keys ∧
    lists api_key_order (λ r, ∃ k, api_keys db !! k = Some r) keys.
Proof.
  intros Hwf.
  assert (L : lists api_key_order (λ r, ∃ k, api_keys db !! k = Some r)
                (select (λ _, true) api_key_order (table_rows (api_keys db)))).
  { eapply lists_iff; [|apply select_lists; [apply _|by eapply NoDup_table_rows, wf_keys]].
    intros r. cbn. rewrite elem_of_table_rows. tauto. }
  eexists. split; [|exact L]. unfold load_api_keys. eapply lists_valid; [exact L|].
  intros r [k Hk]. by destruct (wf_keys _ Hwf _ _ Hk).
Qed.

(** The audit listing is the newest events first, at most [limit] of them: what
    is left out is no newer than what is shown. *)
Theorem audit_listing (limit : Z) (db : database) (Hwf : well_formed db) (Hlimit : 1 ≤ limit ≤ 500) :
  ∃ shown hidden, load_admin_audit_events limit db = Ok shown ∧
    lists audit_order (λ r, ∃ k, admin_audit_events db !! k = Some r) (shown ++ hidden) ∧
    (length shown ≤ Z.to_nat limit)%nat ∧ (hidden ≠ [] → length shown = Z.to_nat limit).
Proof.
  assert (L : lists audit_order (λ r, ∃ k, admin_audit_events db !! k = Some r)
                (select (λ _, true) audit_order (table_rows (admin_audit_events db)))).
  { eapply lists_iff; [|apply select_lists; [apply _|by eapply NoDup_table_rows, wf_audit]].
    intros r. cbn. rewrite elem_of_table_rows. tauto. }
  set (all := select _ _ _) in L. exists (take (Z.to_nat limit) all), (drop (Z.to_nat limit) all).
  split_and!.
  - unfold load_admin_audit_events. by rewrite bool_decide_eq_true_2.
  - by rewrite take_drop.
  - rewrite length_take. lia.
  - intros Hh. rewrite length_take. assert (length (drop (Z.to_nat limit) all) ≠ 0%nat) as Hd.
    { by rewrite length_zero_iff_nil. }
    rewrite length_drop in Hd. lia.
Qed.

End queries.

(** ** Concrete instances *)

#[local] Existing Instance row_engine.

Definition demo_restore : restore_args :=
  {| ra_now := 0; ra_minute_retention := 1; ra_aggregate_retention := 1; ra_daily_retention := 1;
     ra_aggregate_interval_seconds := 300; ra_symbols := Some ["SPY"; "QQQ"] |}.

Lemma restore_exact_witness :
  ∃ st, restore_sync demo_restore true demo_database = Ok st ∧
    lists (by_column dr_symbol)
      (λ r, newest_row dr_symbol (newest_dividend demo_database) r ∧
            in_scope (Some ["QQQ"; "SPY"]) (dr_symbol r) = true) (rs_dividend_events st).
Proof.
  destruct (restore_exact demo_restore demo_database (Some ["QQQ"; "SPY"]) demo_database_wf
              ltac:(vm_compute; reflexivity)) as (st & Hst & _ & _ & _ & Hd & _).
  exists st. split; [exact Hst|exact Hd].
Defined.

Lemma audit_listing_witness :
  ∃ shown hidden, load_admin_audit_events 5 demo_database = Ok shown ∧
    lists audit_order (λ r, ∃ k, admin_audit_events demo_database !! k = Some r) (shown ++ hidden).
Proof.
  destruct (audit_listing 5 demo_database demo_database_wf ltac:(lia)) as (shown & hidden & H1 & H2 & _).
  exists shown, hidden. split; [exact H1|exact H2].
Defined.
