(* ===== verification/StorageHistory.v ===== *)
(** * Streaming the price history into the cache

    [HistoryCache.load] treats each symbol by itself, so handing it the rows of
    one symbol at a time, in whatever chunks the cursor delivers them, fills
    the rings as loading all rows at once would. *)

From S2P Require Import Prelude PyStr PyDecimal PyTime Json Domain Cache CacheFacts CacheReads.
From S2P Require Import StorageRecords Storage StorageFacts StorageTables StorageRestore StorageRestoreFacts.
Import HistoryCache.

Local Open Scope string_scope.
Local Open Scope list_scope.
Local Open Scope Z_scope.

(** ** A load symbol by symbol *)

(** [load] without its early return, which only skips empty loops. *)
Lemma load_unfold h ps :
  load h ps =
  (inc ← load_incoming incoming_empty (sort_by pp_timestamp ps);
   Ok (foldl (load_symbol inc) h (elements (dom (inc I1m) ∪ dom (inc I5m) ∪ dom (inc I1d))))).
Proof.
  unfold load. case_decide as Hps; [|done]. subst ps. cbn [sort_by foldr load_incoming mbind result_bind].
  unfold incoming_empty. rewrite !dom_empty_L, !union_empty_r_L, elements_empty. done.
Qed.

Lemma insert_by_filter {A} (key : A → Z) (P : A → Prop) `{!∀ x, Decision (P x)} x l :
  wsorted key l →
  filter P (insert_by key x l) =
  if decide (P x) then insert_by key x (filter P l) else filter P l.
Proof.
  induction 1 as [|y l Hs IH Hall]; cbn [insert_by].
  { rewrite filter_cons, filter_nil. by case_decide. }
  destruct (decide (key x ≤ key y)) as [Hle|Hle].
  - rewrite filter_cons. destruct (decide (P x)) as [Hx|Hx]; [|done].
    destruct (filter P (y :: l)) as [|z l'] eqn:Hf; [done|]. cbn [insert_by].
    rewrite decide_True; [done|].
    assert (z ∈ filter P (y :: l)) as [_ Hz]%list_elem_of_filter by (rewrite Hf; by left).
    apply elem_of_cons in Hz as [->|Hz]; [done|]. rewrite Forall_forall in Hall.
    specialize (Hall z Hz). lia.
  - rewrite !filter_cons, IH. destruct (decide (P x)) as [Hx|Hx]; [|done].
    destruct (decide (P y)) as [Hy|Hy]; [|done]. cbn [insert_by]. by rewrite decide_False.
Qed.

Lemma sort_by_filter {A} (key : A → Z) (P : A → Prop) `{!∀ x, Decision (P x)} l :
  filter P (sort_by key l) = sort_by key (filter P l).
Proof.
  induction l as [|x l IH]; [done|]. cbn [sort_by foldr].
  rewrite insert_by_filter by apply sort_by_sorted. unfold sort_by in IH. rewrite IH, filter_cons.
  by case_decide.
Qed.

(** Two incoming dictionaries that agree on a symbol. *)
Definition agree (s : string) (inc inc' : incoming) : Prop := ∀ i, inc i !! s = inc' i !! s.

Lemma agree_set s inc inc' i s' k p : agree s inc inc' → agree s (incoming_set i s' k p inc) (incoming_set i s' k p inc').
Proof.
  intros Ha j. unfold incoming_set. case_decide as Hj; [|apply Ha]. subst j.
  destruct (decide (s' = s)) as [->|Hne].
  - by rewrite !lookup_insert_eq, (Ha i).
  - by rewrite !lookup_insert_ne, (Ha i) by done.
Qed.

Lemma agree_set_other s inc inc' i s' k p : s' ≠ s → agree s inc inc' → agree s (incoming_set i s' k p inc) inc'.
Proof.
  intros Hne Ha j. unfold incoming_set. case_decide as Hj; [|apply Ha]. subst j.
  rewrite lookup_insert_ne by done. apply Ha.
Qed.

Lemma load_point_agree s inc inc' p r r' :
  agree s inc inc' → load_point inc p = Ok r → load_point inc' p = Ok r' → agree s r r'.
Proof.
  intros Ha. unfold load_point. case_decide.
  { intros [= <-] [= <-]. by apply agree_set. }
  case_decide.
  - cbn. intros [= <-] [= <-]. by apply agree_set, agree_set.
  - destruct (bool_decide (pp_interval p ≠ "5m")); cbn; [done|]. intros [= <-] [= <-]. by apply agree_set.
Qed.

Lemma load_point_other s inc inc' p r :
  pp_symbol p ≠ s → agree s inc inc' → load_point inc p = Ok r → agree s r inc'.
Proof.
  intros Hne Ha. unfold load_point. case_decide.
  { intros [= <-]. by apply agree_set_other. }
  case_decide.
  - cbn. intros [= <-]. by apply agree_set_other, agree_set_other.
  - destruct (bool_decide (pp_interval p ≠ "5m")); cbn; [done|]. intros [= <-]. by apply agree_set_other.
Qed.

Lemma load_incoming_agree s ps : ∀ inc inc' r r',
  agree s inc inc' → load_incoming inc ps = Ok r →
  load_incoming inc' (filter (λ p, pp_symbol p = s) ps) = Ok r' → agree s r r'.
Proof.
  induction ps as [|p ps IH]; intros inc inc' r r' Ha; cbn [load_incoming].
  { rewrite filter_nil. by intros [= <-] [= <-]. }
  intros (inc1 & H1 & H2)%result_bind_ok. rewrite filter_cons. case_decide as Hs.
  - cbn [load_incoming]. intros (inc1' & H1' & H2')%result_bind_ok.
    eapply IH; [|exact H2|exact H2']. by eapply load_point_agree.
  - intros H2'. eapply IH; [|exact H2|exact H2']. by eapply load_point_other.
Qed.

Lemma load_symbol_agree s inc inc' h g i :
  agree s inc inc' → (∀ j, rings j h !! s = rings j g !! s) →
  rings i (load_symbol inc h s) !! s = rings i (load_symbol inc' g s) !! s.
Proof.
  intros Ha Hr. rewrite !rings_load_symbol. unfold loaded_ring, latest_key.
  assert (Hm : ∀ j, merged j inc h s = merged j inc' g s).
  { intros j. unfold merged. by rewrite (Hr j), (Ha j). }
  by rewrite !Hm, (Hr i).
Qed.

(** Two caches with the same rings for a symbol. *)
Definition same_at (s : string) (h g : t) : Prop := ∀ i, rings i h !! s = rings i g !! s.

Lemma same_at_refl s h : same_at s h h.
Proof. done. Qed.

Lemma same_at_sym s h g : same_at s h g → same_at s g h.
Proof. by intros H i. Qed.

Lemma same_at_trans s h g k : same_at s h g → same_at s g k → same_at s h k.
Proof. intros H1 H2 i. by rewrite (H1 i). Qed.

(** What a load does to a symbol depends on the points of the symbol only. *)
Lemma load_local s h g ps h1 g1 :
  same_at s h g → load h ps = Ok h1 → load g (filter (λ p, pp_symbol p = s) ps) = Ok g1 → same_at s h1 g1.
Proof.
  intros Hs. rewrite !load_unfold, <- sort_by_filter.
  intros (inc & Hi & [= <-])%result_bind_ok (inc' & Hi' & [= <-])%result_bind_ok i.
  assert (Ha : agree s inc inc') by (eapply load_incoming_agree; [|exact Hi|exact Hi']; done).
  rewrite !rings_load_list by apply NoDup_elements.
  assert (Hd : s ∈ elements (dom (inc I1m) ∪ dom (inc I5m) ∪ dom (inc I1d)) ↔
               s ∈ elements (dom (inc' I1m) ∪ dom (inc' I5m) ∪ dom (inc' I1d))).
  { rewrite !elem_of_elements, !elem_of_union, !elem_of_dom. by rewrite !(Ha _). }
  case_decide as H1; case_decide as H2; [by apply load_symbol_agree|tauto..|apply Hs].
Qed.

Definition known_interval (p : PricePoint) : Prop :=
  pp_interval p = "1m" ∨ pp_interval p = "5m" ∨ pp_interval p = "1d".

Lemma known_filter (Q : PricePoint → Prop) `{!∀ p, Decision (Q p)} ps :
  Forall known_interval ps → Forall known_interval (filter Q ps).
Proof. rewrite !Forall_forall. intros Hk p [_ Hp]%list_elem_of_filter. by apply Hk. Qed.

Lemma load_point_defined inc p : known_interval p → ∃ inc', load_point inc p = Ok inc'.
Proof.
  intros Hp. unfold load_point. case_decide; [by eexists|]. case_decide as H1m; [by eexists|].
  destruct Hp as [?|[->|?]]; [done| |done]. by eexists.
Qed.

Lemma load_incoming_defined ps : ∀ inc, Forall known_interval ps → ∃ inc', load_incoming inc ps = Ok inc'.
Proof.
  induction ps as [|p ps IH]; intros inc; [by eexists|]. intros [Hp Hps]%Forall_cons.
  destruct (load_point_defined inc p Hp) as [inc1 H1]. cbn [load_incoming]. rewrite H1. by apply IH.
Qed.

Lemma load_defined h ps : Forall known_interval ps → ∃ h', load h ps = Ok h'.
Proof.
  intros Hps. rewrite load_unfold.
  destruct (load_incoming_defined (sort_by pp_timestamp ps) incoming_empty) as [inc ->]; [|by eexists].
  by rewrite sort_by_perm.
Qed.

Lemma load_nil h : load h [] = Ok h.
Proof. done. Qed.

(** A load without points of a symbol leaves it alone. *)
Lemma load_other s h ps h1 : Forall (λ p, pp_symbol p ≠ s) ps → load h ps = Ok h1 → same_at s h1 h.
Proof.
  intros Hps Hl. eapply load_local; [apply same_at_refl|exact Hl|].
  rewrite filter_none; [apply load_nil|]. by rewrite Forall_forall in Hps.
Qed.

(** ** The stream of rows *)

Definition point_of (r : history_row) : PricePoint :=
  {| pp_symbol := hr_symbol r; pp_timestamp := hr_timestamp r; pp_price := hr_price r;
     pp_provider := hr_provider r; pp_is_derived := hr_is_derived r;
     pp_interval := history_interval (hr_interval_seconds r) |}.

Definition streamable (r : history_row) : Prop := is_pos (hr_price r) ∧ float_representable (hr_price r).

Lemma history_point_valid r : streamable r → history_point r = Ok (point_of r).
Proof.
  intros [Hp Hf]. unfold history_point, PricePoint_init. cbn.
  rewrite (bool_decide_eq_true_2 (float_representable (hr_price r))) by done. cbn.
  by rewrite (bool_decide_eq_true_2 (is_pos (hr_price r))) by done.
Qed.

Lemma point_of_known r : known_interval (point_of r).
Proof. unfold known_interval, point_of, history_interval. cbn. repeat case_decide; auto. Qed.

Lemma points_known rows : Forall known_interval (point_of <$> rows).
Proof. apply Forall_fmap, Forall_true. intros r. apply point_of_known. Qed.

Lemma fold_result_concat {A B} (f : A → B → result A) ls : ∀ a,
  fold_result (fold_result f) a ls = fold_result f a (concat ls).
Proof.
  induction ls as [|l ls IH]; intros a; cbn; [done|]. rewrite fold_result_app.
  destruct (fold_result f a l); cbn; [apply IH|done].
Qed.

(** The rows that are left come in symbol order after the current symbol. *)
Definition grouped (current : option string) (rows : list history_row) : Prop :=
  StronglySorted (not_after (by_column hr_symbol)) rows ∧
  match current with
  | Some c => Forall (λ r, String.compare c (hr_symbol r) ≠ Gt) rows
  | None => True
  end.

Lemma grouped_tail current r rows : grouped current (r :: rows) → grouped (Some (hr_symbol r)) rows.
Proof.
  intros [[Hs Hall]%StronglySorted_inv _]. split; [done|]. exact Hall.
Qed.

Lemma grouped_gone c r rows :
  grouped (Some c) (r :: rows) → hr_symbol r ≠ c → Forall (λ r', hr_symbol r' ≠ c) (r :: rows).
Proof.
  intros [[_ Hall]%StronglySorted_inv Hc] Hne. apply Forall_cons in Hc as [Hc _].
  constructor; [done|]. eapply Forall_impl; [exact Hall|]. intros r' Hr' Heq. cbn in *.
  unfold not_after, by_column in Hr'. rewrite Heq in Hr'. rewrite String.compare_antisym in Hr'.
  destruct (String.compare c (hr_symbol r)) eqn:E; [|done..].
  by apply String.compare_eq_iff in E.
Qed.

(** Loading the points of each symbol by itself. *)
Definition loaded_by_symbol (cache : t) (points : list PricePoint) (cache' : t) : Prop :=
  ∀ s, ∃ g, load cache (filter (λ p, pp_symbol p = s) points) = Ok g ∧ same_at s cache' g.

Lemma loaded_once cache points cache' : load cache points = Ok cache' → Forall known_interval points →
  loaded_by_symbol cache points cache'.
Proof.
  intros Hl Hk s. destruct (load_defined cache (filter (λ p, pp_symbol p = s) points)) as [g Hg].
  { by apply known_filter. }
  exists g. split; [done|]. by eapply load_local.
Qed.

(** Loading a group of one symbol first, and then points without it. *)
Lemma loaded_split cache c pend cache1 rest cache' :
  load cache pend = Ok cache1 → Forall (λ p, pp_symbol p = c) pend → Forall (λ p, pp_symbol p ≠ c) rest →
  Forall known_interval pend → Forall known_interval rest →
  loaded_by_symbol cache1 rest cache' → loaded_by_symbol cache (pend ++ rest) cache'.
Proof.
  intros Hl Hp Hr Hkp Hkr Hrest s. rewrite filter_app. rewrite Forall_forall in Hp, Hr.
  destruct (Hrest s) as (g1 & Hg1 & Hs1). destruct (decide (s = c)) as [->|Hne].
  - rewrite (filter_none _ rest) in Hg1 by done. injection Hg1 as <-.
    rewrite (filter_none _ rest), app_nil_r by done. rewrite filter_all by done. eauto.
  - assert (Hnil : filter (λ p, pp_symbol p = s) pend = []).
    { apply filter_none. intros p Hin Hps. apply Hne. rewrite <- Hps. by apply Hp. }
    rewrite Hnil. cbn [app].
    destruct (load_defined cache (filter (λ p, pp_symbol p = s) rest)) as [g Hg].
    { by apply known_filter. }
    exists g. split; [done|]. eapply same_at_trans; [exact Hs1|].
    eapply (load_local s cache1 cache); [|exact Hg1|].
    + eapply load_other; [|exact Hl]. apply Forall_forall. intros p Hin Hps. apply Hne.
      rewrite <- Hps. by apply Hp.
    + rewrite filter_all; [exact Hg|]. by intros p [? _]%list_elem_of_filter.
Qed.

(** The pending points of the loop are those of its current symbol. *)
Definition stream_ok (s : stream) : Prop :=
  Forall known_interval (st_points s) ∧
  match st_symbol s with
  | Some c => Forall (λ p, pp_symbol p = c) (st_points s)
  | None => st_points s = []
  end.

Lemma load_pending_spec s :
  stream_ok s → ∃ cache, load (st_cache s) (st_points s) = Ok cache ∧
    load_pending s = Ok {| st_cache := cache; st_symbol := st_symbol s; st_points := [];
                           st_loaded := (st_loaded s + length (st_points s))%nat |}.
Proof.
  intros [Hk _]. destruct (load_defined (st_cache s) (st_points s) Hk) as [cache Hc].
  exists cache. split; [done|]. unfold load_pending. by rewrite Hc.
Qed.

Definition finish_stream (s : stream) : result stream :=
  if decide (st_points s = []) then Ok s else load_pending s.

Lemma finish_stream_spec s : stream_ok s →
  ∃ s', finish_stream s = Ok s' ∧ loaded_by_symbol (st_cache s) (st_points s) (st_cache s') ∧
    st_loaded s' = (st_loaded s + length (st_points s))%nat.
Proof.
  intros Hs. unfold finish_stream. case_decide as Hp.
  - exists s. rewrite Hp. cbn. split_and!; [done| |lia].
    apply loaded_once; [apply load_nil|constructor].
  - destruct (load_pending_spec s Hs) as (cache & Hl & ->). eexists. split_and!; [done| |done].
    apply loaded_once; [exact Hl|apply Hs].
Qed.

Lemma stream_rows_spec rows : ∀ s,
  Forall streamable rows → grouped (st_symbol s) rows → stream_ok s →
  ∃ s1 s2, fold_result stream_row s rows = Ok s1 ∧ finish_stream s1 = Ok s2 ∧
    loaded_by_symbol (st_cache s) (st_points s ++ (point_of <$> rows)) (st_cache s2) ∧
    st_loaded s2 = (st_loaded s + length (st_points s) + length rows)%nat.
Proof.
  induction rows as [|r rows IH]; intros s Hst Hg Hs; cbn [fold_result fmap list_fmap length].
  { destruct (finish_stream_spec s Hs) as (s2 & Hf & Hl & Hn). exists s, s2.
    rewrite app_nil_r, Nat.add_0_r. done. }
  apply Forall_cons in Hst as [Hr Hst].
  assert (Hext : match st_symbol s with Some c => hr_symbol r = c | None => True end →
    stream_row s r = Ok {| st_cache := st_cache s; st_symbol := Some (hr_symbol r);
                           st_points := st_points s ++ [point_of r]; st_loaded := st_loaded s |}).
  { intros Hc. unfold stream_row. destruct (st_symbol s); [rewrite decide_True by done|];
      cbn [mbind result_bind]; by rewrite history_point_valid. }
  assert (Hsame : match st_symbol s with Some c => hr_symbol r = c | None => True end →
    ∃ s1 s2, (a' ← stream_row s r; fold_result stream_row a' rows) = Ok s1 ∧ finish_stream s1 = Ok s2 ∧
      loaded_by_symbol (st_cache s) (st_points s ++ point_of r :: (point_of <$> rows)) (st_cache s2) ∧
      st_loaded s2 = (st_loaded s + length (st_points s) + S (length rows))%nat).
  { intros Hc. rewrite (Hext Hc). cbn [mbind result_bind].
    edestruct (IH {| st_cache := st_cache s; st_symbol := Some (hr_symbol r);
                     st_points := st_points s ++ [point_of r]; st_loaded := st_loaded s |})
      as (s1 & s2 & H1 & H2 & H3 & H4); [done|by eapply grouped_tail| |].
    - destruct Hs as [Hk Hp]. split; cbn.
      + apply Forall_app. split; [done|]. apply Forall_singleton, point_of_known.
      + apply Forall_app. split; [|by apply Forall_singleton].
        destruct (st_symbol s); [by subst|]. by rewrite Hp.
    - exists s1, s2. split_and!; [done..| |].
      + cbn in H3. by rewrite <- app_assoc in H3.
      + rewrite H4. cbn. rewrite length_app. cbn. lia. }
  destruct (st_symbol s) as [c|] eqn:Hc; [|by apply Hsame].
  destruct (decide (hr_symbol r = c)) as [Heq|Hne]; [by apply Hsame|]. clear Hext Hsame.
  destruct (load_pending_spec s Hs) as (cache & Hl & Hlp).
  assert (Hrow : stream_row s r =
    Ok {| st_cache := cache; st_symbol := Some (hr_symbol r); st_points := [point_of r];
          st_loaded := (st_loaded s + length (st_points s))%nat |}).
  { unfold stream_row. rewrite Hc, decide_False, Hlp by done. cbn [mbind result_bind].
    by rewrite history_point_valid. }
  rewrite Hrow. cbn [mbind result_bind].
  edestruct (IH {| st_cache := cache; st_symbol := Some (hr_symbol r); st_points := [point_of r];
                   st_loaded := (st_loaded s + length (st_points s))%nat |})
    as (s1 & s2 & H1 & H2 & H3 & H4); [done|by eapply grouped_tail| |].
  { split; cbn; apply Forall_singleton; [apply point_of_known|done]. }
  exists s1, s2. split_and!; [done..| |rewrite H4; cbn; lia].
  destruct Hs as [Hk Hp]. rewrite Hc in Hp. apply (loaded_split _ c _ cache); [done|done| |done| |done].
  - change (point_of r :: (point_of <$> rows)) with (point_of <$> (r :: rows)). apply Forall_fmap.
    exact (grouped_gone c r rows Hg Hne).
  - change (point_of r :: (point_of <$> rows)) with (point_of <$> (r :: rows)). apply points_known.
Qed.

(** A streamed query fills the rings as the points of each symbol would by
    themselves, whatever the chunks. *)
Lemma stream_query_spec n rows cache :
  (0 < n)%nat → Forall streamable rows → StronglySorted (not_after (by_column hr_symbol)) rows →
  ∃ cache', stream_history_query_into n rows cache = Ok (cache', length rows) ∧
    loaded_by_symbol cache (point_of <$> rows) cache'.
Proof.
  intros Hn Hr Hs. unfold stream_history_query_into. rewrite fold_result_concat, slices_concat by done.
  destruct (stream_rows_spec rows {| st_cache := cache; st_symbol := None; st_points := []; st_loaded := 0 |})
    as (s1 & s2 & H1 & H2 & H3 & H4); [done|by split|by split|].
  rewrite H1. cbn [mbind result_bind]. unfold finish_stream in H2. rewrite H2. cbn [mbind result_bind].
  exists (st_cache s2). split; [|done]. by rewrite H4.
Qed.

(** ** History queries *)

Lemma then_by_eq {A} (o1 o2 : A → A → comparison) a b : then_by o1 o2 a b = Eq → o1 a b = Eq ∧ o2 a b = Eq.
Proof. unfold then_by, lex. by destruct (o1 a b). Qed.

Lemma by_column_eq {A} (column : A → string) a b : by_column column a b = Eq → column a = column b.
Proof. apply String.compare_eq_iff. Qed.

Lemma by_instant_eq {A} (column : A → Z) a b : by_instant column a b = Eq → column a = column b.
Proof. apply Z.compare_eq_iff. Qed.

Lemma ordered_weaken {A} (o1 o2 : A → A → comparison) l :
  StronglySorted (not_after (then_by o1 o2)) l → StronglySorted (not_after o1) l.
Proof.
  induction 1 as [|x l _ IH Hall]; constructor; [done|]. eapply Forall_impl; [exact Hall|].
  intros y. unfold not_after, then_by, lex. by destruct (o1 x y).
Qed.

Section history.
Context `{SqlEngine}.

(** The rows of a history table: [f] keeps the primary key. *)
Section table.
Context {K R : Type} `{Countable K} (key : R → K) (P : stored R → Prop) (f : R → history_row).
Context (key' : history_row → K) (Hkey : ∀ r, key' (f r) = key r).
Context (t : gmap K (stored R)) (Ht : table_ok (key ∘ row) P t).

Definition history_of (r : history_row) : Prop := ∃ k v, t !! k = Some v ∧ f (row v) = r.

Lemma history_keys r1 r2 : history_of r1 → history_of r2 → key' r1 = key' r2 → r1 = r2.
Proof.
  intros (k1 & v1 & H1 & <-) (k2 & v2 & H2 & <-). rewrite !Hkey. intros Hk.
  destruct (Ht _ _ H1) as [E1 _], (Ht _ _ H2) as [E2 _]. cbn in E1, E2.
  assert (k1 = k2) as <- by congruence. congruence.
Qed.

Lemma elem_of_history r : r ∈ (f ∘ row <$> table_rows t) ↔ history_of r.
Proof.
  rewrite list_elem_of_fmap. setoid_rewrite elem_of_table_rows. unfold history_of. cbn. naive_solver.
Qed.

Lemma NoDup_history : NoDup (f ∘ row <$> table_rows t).
Proof.
  unfold table_rows. rewrite <- list_fmap_compose.
  apply NoDup_fmap_2_strong; [|apply NoDup_map_to_list].
  intros [k1 v1] [k2 v2] H1%elem_of_map_to_list H2%elem_of_map_to_list. cbn. intros Hr.
  destruct (Ht _ _ H1) as [E1 _], (Ht _ _ H2) as [E2 _]. cbn in E1, E2.
  rewrite <- Hkey in E1, E2. assert (k1 = k2) as <- by congruence. congruence.
Qed.
End table.

Definition minute_row_of (db : database) (cutoff : Z) (r : history_row) : Prop :=
  history_of minute_history_row (minute_prices db) r ∧ cutoff ≤ hr_timestamp r.

Definition aggregate_row_of (db : database) (a : restore_args) (r : history_row) : Prop :=
  history_of aggregate_history_row (aggregate_prices db) r ∧
  (hr_interval_seconds r = ra_aggregate_interval_seconds a ∧
     ra_now a - ra_aggregate_retention a ≤ hr_timestamp r ∨
   hr_interval_seconds r = 86400 ∧ ra_now a - ra_daily_retention a ≤ hr_timestamp r).

Definition minute_stream_order : history_row → history_row → comparison :=
  then_by (by_column hr_symbol) (then_by (by_instant hr_timestamp) (by_column hr_provider)).

Definition aggregate_stream_order : history_row → history_row → comparison :=
  then_by (by_column hr_symbol)
    (then_by (by_instant hr_interval_seconds) (then_by (by_instant hr_timestamp) (by_column hr_provider))).

Lemma minute_history_lists db cutoff scope : well_formed db →
  lists minute_stream_order (λ r, minute_row_of db cutoff r ∧ in_scope scope (hr_symbol r) = true)
    (minute_history db cutoff scope).
Proof.
  intros Hwf. eapply lists_iff; [|apply select_lists; [apply _|]].
  - intros r. cbn. rewrite elem_of_history, andb_true_iff, bool_decide_eq_true. unfold minute_row_of. tauto.
  - by eapply (NoDup_history minute_key_of _ minute_history_row
                 (λ r, (hr_symbol r, hr_timestamp r, hr_provider r))), wf_minutes.
Qed.

Lemma aggregate_history_lists db a scope : well_formed db →
  lists aggregate_stream_order (λ r, aggregate_row_of db a r ∧ in_scope scope (hr_symbol r) = true)
    (aggregate_history db (ra_aggregate_interval_seconds a) (ra_now a - ra_aggregate_retention a)
       (ra_now a - ra_daily_retention a) scope).
Proof.
  intros Hwf. eapply lists_iff; [|apply select_lists; [apply _|]].
  - intros r. cbn. rewrite elem_of_history, andb_true_iff, orb_true_iff, !bool_decide_eq_true.
    unfold aggregate_row_of. tauto.
  - by eapply (NoDup_history aggregate_key_of _ aggregate_history_row
                 (λ r, (hr_symbol r, hr_interval_seconds r, hr_timestamp r, hr_provider r))), wf_aggregates.
Qed.

Lemma minute_rows_apart db cutoff x y : well_formed db →
  minute_row_of db cutoff x → minute_row_of db cutoff y → minute_stream_order x y = Eq → x = y.
Proof.
  intros Hwf [Hx _] [Hy _] (Hs%by_column_eq & [Ht%by_instant_eq Hp%by_column_eq]%then_by_eq)%then_by_eq.
  eapply (history_keys minute_key_of _ minute_history_row (λ r, (hr_symbol r, hr_timestamp r, hr_provider r)));
    [done|by apply wf_minutes|done..|congruence].
Qed.

Lemma aggregate_rows_apart db a x y : well_formed db →
  aggregate_row_of db a x → aggregate_row_of db a y → aggregate_stream_order x y = Eq → x = y.
Proof.
  intros Hwf [Hx _] [Hy _]
    (Hs%by_column_eq & [Hi%by_instant_eq [Ht%by_instant_eq Hp%by_column_eq]%then_by_eq]%then_by_eq)%then_by_eq.
  eapply (history_keys aggregate_key_of _ aggregate_history_row
            (λ r, (hr_symbol r, hr_interval_seconds r, hr_timestamp r, hr_provider r)));
    [done|by apply wf_aggregates|done..|congruence].
Qed.

(** The part of a scoped query that belongs to one symbol. *)
Lemma scoped_part (order : history_row → history_row → comparison) `{!TotalOrder order} (P : history_row → Prop)
    (q : option (list string) → list history_row) scope s :
  (∀ scope, lists order (λ r, P r ∧ in_scope scope (hr_symbol r) = true) (q scope)) →
  (∀ x y, P x → P y → order x y = Eq → x = y) →
  filter (λ r, hr_symbol r = s) (q scope) = if in_scope scope s then q (Some [s]) else [].
Proof.
  intros Hq Hinj. destruct (Hq scope) as (H1 & H2 & H3). destruct (in_scope scope s) eqn:Hs.
  - eapply (lists_unique order _ _ _); [|shelve|apply (Hq (Some [s]))].
    intros x y [Hx _] [Hy _]. by apply Hinj.
    Unshelve. split_and!; [by apply ordered_filter|by apply NoDup_filter|].
    intros r. rewrite list_elem_of_filter, H3. cbn. rewrite bool_decide_eq_true, list_elem_of_singleton.
    split; [tauto|]. intros [? Hr]. by rewrite Hr.
  - apply filter_none. intros r Hr%H3 Heq. rewrite Heq in Hr. destruct Hr. congruence.
Qed.

(** ** The streaming restore *)

(** Every stored price is one a quote can carry. *)
Definition representable (db : database) : Prop :=
  (∀ k v, minute_prices db !! k = Some v → float_representable (mp_price (row v))) ∧
  (∀ k v, aggregate_prices db !! k = Some v → float_representable (ar_close (row v))).

(** The positivity check among the checks of a constructor. *)
Ltac positive_check Hi :=
  repeat (apply result_bind_ok in Hi as (? & ?E & Hi));
  match goal with
  | E : raise_if (negb (bool_decide (is_pos _))) _ = Ok _ |- _ =>
    apply raise_if_ok, negb_false_iff, bool_decide_eq_true in E
  end.

Lemma minute_ok_positive r : minute_ok r → is_pos (mp_price r).
Proof.
  intros [Hi _]. unfold MinutePriceRecord_init in Hi. cbn in Hi. by positive_check Hi.
Qed.

Lemma aggregate_ok_positive r : aggregate_ok r → is_pos (ar_close r).
Proof.
  intros [Hi _]. unfold AggregatePriceRecord_init in Hi. cbn in Hi. positive_check Hi.
  eapply dle_pos; [eassumption|]. eapply dle_trans; [apply dmin_le|apply dmin_le].
Qed.

Lemma minute_row_streamable db cutoff r :
  well_formed db → representable db → minute_row_of db cutoff r → streamable r.
Proof.
  intros Hwf [Hr _] [(k & v & Hk & <-) _]. destruct (wf_minutes _ Hwf _ _ Hk) as [_ Hok].
  split; [by apply minute_ok_positive|by eapply Hr].
Qed.

Lemma aggregate_row_streamable db a r :
  well_formed db → representable db → aggregate_row_of db a r → streamable r.
Proof.
  intros Hwf [_ Hr] [(k & v & Hk & <-) _]. destruct (wf_aggregates _ Hwf _ _ Hk) as [_ Hok].
  split; [by apply aggregate_ok_positive|by eapply Hr].
Qed.

(** One symbol's history, loaded at once: its minute prices, then its
    aggregates. *)
Definition restored (a : restore_args) (db : database) (s : string) (cache cache' : t) : Prop :=
  ∃ g1 g2,
    load cache (point_of <$> minute_history db (ra_now a - ra_minute_retention a) (Some [s])) = Ok g1 ∧
    load g1 (point_of <$> aggregate_history db (ra_aggregate_interval_seconds a)
                            (ra_now a - ra_aggregate_retention a) (ra_now a - ra_daily_retention a) (Some [s]))
      = Ok g2 ∧
    same_at s cache' g2.

(** What a streaming restore of a scope makes of each symbol. *)
Definition restored_in (a : restore_args) (db : database) (scope : option (list string)) (cache cache' : t) : Prop :=
  ∀ s, if in_scope scope s then restored a db s cache cache' else same_at s cache' cache.

Lemma filter_points s (rows : list history_row) :
  filter (λ p, pp_symbol p = s) (point_of <$> rows) = point_of <$> filter (λ r, hr_symbol r = s) rows.
Proof.
  induction rows as [|r rows IH]; [done|]. rewrite fmap_cons, !filter_cons. cbn [point_of pp_symbol].
  case_decide; [by rewrite fmap_cons, IH|done].
Qed.

(** A load of one symbol's points, in caches that agree on the symbol. *)
Lemma load_same s rows h g h1 g1 :
  same_at s h g → Forall (λ r, hr_symbol r = s) rows →
  load h (point_of <$> rows) = Ok h1 → load g (point_of <$> rows) = Ok g1 → same_at s h1 g1.
Proof.
  intros Hs Hr H1 H2. eapply load_local; [exact Hs|exact H1|]. rewrite filter_all; [done|].
  intros p (r & -> & Hin)%list_elem_of_fmap. rewrite Forall_forall in Hr. by apply Hr.
Qed.

Lemma scope_of_symbol (order : history_row → history_row → comparison) (P : history_row → Prop)
    (q : option (list string) → list history_row) s :
  (∀ scope, lists order (λ r, P r ∧ in_scope scope (hr_symbol r) = true) (q scope)) →
  Forall (λ r, hr_symbol r = s) (q (Some [s])).
Proof.
  intros Hq. apply Forall_forall. intros r Hr. apply (Hq (Some [s])) in Hr as [_ Hr].
  cbn in Hr. by apply bool_decide_eq_true, list_elem_of_singleton in Hr.
Qed.

Lemma restored_from a db s c c0 c' : well_formed db →
  same_at s c c0 → restored a db s c c' → restored a db s c0 c'.
Proof.
  intros Hwf Hs (g1 & g2 & H1 & H2 & H3).
  destruct (load_defined c0 _ (points_known (minute_history db (ra_now a - ra_minute_retention a) (Some [s]))))
    as [k1 K1].
  destruct (load_defined k1 _ (points_known (aggregate_history db (ra_aggregate_interval_seconds a)
    (ra_now a - ra_aggregate_retention a) (ra_now a - ra_daily_retention a) (Some [s])))) as [k2 K2].
  exists k1, k2. split_and!; [done..|]. eapply same_at_trans; [exact H3|].
  eapply load_same; [| |exact H2|exact K2].
  - eapply load_same; [exact Hs| |exact H1|exact K1].
    eapply scope_of_symbol. intros scope. by apply minute_history_lists.
  - eapply scope_of_symbol. intros scope. by apply aggregate_history_lists.
Qed.

(** The rows of both history tables in a scope. *)
Definition history_rows (a : restore_args) (db : database) (scope : option (list string)) : nat :=
  (length (minute_history db (ra_now a - ra_minute_retention a) scope) +
   length (aggregate_history db (ra_aggregate_interval_seconds a) (ra_now a - ra_aggregate_retention a)
             (ra_now a - ra_daily_retention a) scope))%nat.

Lemma lists_none {R} (order : R → R → comparison) (P : R → Prop) l :
  (∀ r, ¬ P r) → lists order P l → l = [].
Proof. intros Hn (_ & _ & Hm). apply elem_of_nil_inv. intros r Hr%Hm. by eapply Hn. Qed.

Lemma history_rows_none a db : well_formed db → history_rows a db (Some []) = 0%nat.
Proof.
  intros Hwf. unfold history_rows.
  assert (H1 : minute_history db (ra_now a - ra_minute_retention a) (Some []) = []).
  { eapply lists_none; [|by apply minute_history_lists]. intros r [_ Hr]. discriminate Hr. }
  assert (H2 : aggregate_history db (ra_aggregate_interval_seconds a) (ra_now a - ra_aggregate_retention a)
                 (ra_now a - ra_daily_retention a) (Some []) = []).
  { eapply lists_none; [|by apply aggregate_history_lists]. intros r [_ Hr]. discriminate Hr. }
  by rewrite H1, H2.
Qed.

Lemma lists_all {R} (order : R → R → comparison) (P Q : R → Prop) l :
  lists order P l → (∀ r, P r → Q r) → Forall Q l.
Proof. intros (_ & _ & Hm) HPQ. apply Forall_forall. intros r Hr%Hm. by apply HPQ. Qed.

Lemma stream_batch_spec a n db cache k batch :
  well_formed db → representable db → (0 < n)%nat →
  ∃ cache', stream_batch a n db (cache, k) batch = Ok (cache', (k + history_rows a db batch)%nat) ∧
    restored_in a db batch cache cache'.
Proof.
  intros Hwf Hrep Hn. unfold stream_batch. case_bool_decide as Hb.
  { exists cache. rewrite Hb, history_rows_none, Nat.add_0_r by done. split; [done|]. by intros s. }
  pose proof (λ sc, minute_history_lists db (ra_now a - ra_minute_retention a) sc Hwf) as HM.
  pose proof (λ sc, aggregate_history_lists db a sc Hwf) as HA. cbn [fst snd].
  destruct (stream_query_spec n _ cache Hn
    (lists_all _ _ _ _ (HM batch) (λ r Hr, minute_row_streamable _ _ _ Hwf Hrep (proj1 Hr)))
    (ordered_weaken _ _ _ (proj1 (HM batch)))) as (c1 & -> & L1). cbn [mbind result_bind fst snd].
  destruct (stream_query_spec n _ c1 Hn
    (lists_all _ _ _ _ (HA batch) (λ r Hr, aggregate_row_streamable _ _ _ Hwf Hrep (proj1 Hr)))
    (ordered_weaken _ _ _ (proj1 (HA batch)))) as (c2 & -> & L2). cbn [mbind result_bind fst snd].
  exists c2. split; [unfold history_rows; by rewrite Nat.add_assoc|]. intros s.
  destruct (L1 s) as (g1 & G1 & S1), (L2 s) as (g2 & G2 & S2). rewrite filter_points in G1, G2.
  rewrite (scoped_part minute_stream_order _ _ batch s HM (λ x y, minute_rows_apart db _ x y Hwf)) in G1.
  rewrite (scoped_part aggregate_stream_order _ _ batch s HA (λ x y, aggregate_rows_apart db a x y Hwf)) in G2.
  destruct (in_scope batch s).
  - destruct (load_defined g1 _ (points_known (aggregate_history db (ra_aggregate_interval_seconds a)
      (ra_now a - ra_aggregate_retention a) (ra_now a - ra_daily_retention a) (Some [s])))) as [h2 H2].
    exists g1, h2. split_and!; [done..|]. eapply same_at_trans; [exact S2|].
    eapply load_same; [exact S1| |exact G2|exact H2]. by eapply scope_of_symbol.
  - injection G1 as <-. injection G2 as <-. by eapply same_at_trans.
Qed.

(** Batches with no symbol in common, one after the other. *)
Lemma stream_batches_spec a n db batches : well_formed db → representable db → (0 < n)%nat →
  NoDup (concat batches) → ∀ cache k,
  ∃ cache', fold_result (stream_batch a n db) (cache, k) (Some <$> batches) =
              Ok (cache', (k + sum_list (history_rows a db ∘ Some <$> batches))%nat) ∧
    restored_in a db (Some (concat batches)) cache cache'.
Proof.
  intros Hwf Hrep Hn. induction batches as [|b batches IH]; intros Hnd cache k.
  { exists cache. cbn. rewrite Nat.add_0_r. split; [done|]. by intros s. }
  cbn [concat] in Hnd. apply NoDup_app in Hnd as (_ & Hdis & Hnd).
  destruct (stream_batch_spec a n db cache k (Some b) Hwf Hrep Hn) as (c1 & H1 & R1).
  destruct (IH Hnd c1 (k + history_rows a db (Some b))%nat) as (c2 & H2 & R2).
  exists c2. rewrite !fmap_cons. cbn [fold_result]. rewrite H1. cbn [mbind result_bind]. split.
  { rewrite H2. do 2 f_equal. cbn. lia. }
  intros s. specialize (R1 s). specialize (R2 s). cbn [in_scope concat] in *.
  destruct (decide (s ∈ b)) as [Hb|Hb], (decide (s ∈ concat batches)) as [Hc|Hc].
  - by destruct (Hdis s Hb).
  - rewrite bool_decide_eq_true_2 in R1 by done. rewrite bool_decide_eq_false_2 in R2 by done.
    rewrite bool_decide_eq_true_2 by (rewrite elem_of_app; by left).
    destruct R1 as (g1 & g2 & G1 & G2 & G3). exists g1, g2. split_and!; [done..|]. by eapply same_at_trans.
  - rewrite bool_decide_eq_false_2 in R1 by done. rewrite bool_decide_eq_true_2 in R2 by done.
    rewrite bool_decide_eq_true_2 by (rewrite elem_of_app; by right). by eapply restored_from.
  - rewrite bool_decide_eq_false_2 in R1 by done. rewrite bool_decide_eq_false_2 in R2 by done.
    rewrite bool_decide_eq_false_2 by (rewrite elem_of_app; tauto). by eapply same_at_trans.
Qed.

Lemma batch_rows {R} (query : option (list string) → list R) order (symbol_of : R → string) (P : R → Prop) batches :
  (∀ scope, lists order (λ r, P r ∧ in_scope scope (symbol_of r) = true) (query scope)) →
  NoDup (concat batches) →
  length (query (Some (concat batches))) = sum_list ((λ b, length (query (Some b))) <$> batches).
Proof.
  intros Hq Hnd. destruct (batches_lists query order symbol_of P batches Hq Hnd) as [Hn Hm].
  destruct (Hq (Some (concat batches))) as (_ & Hn' & Hm').
  assert (Hp : query (Some (concat batches)) ≡ₚ concat (map (λ b, query (Some b)) batches)).
  { apply NoDup_Permutation; [done..|]. intros r. rewrite Hm, Hm'. cbn. by rewrite bool_decide_eq_true. }
  rewrite Hp. clear. induction batches as [|b batches IH]; [done|]. cbn. by rewrite length_app, IH.
Qed.

Lemma history_rows_batches a db batches : well_formed db → NoDup (concat batches) →
  history_rows a db (Some (concat batches)) = sum_list (history_rows a db ∘ Some <$> batches).
Proof.
  intros Hwf Hnd. unfold history_rows at 1.
  rewrite (batch_rows _ _ _ _ _ (λ sc, minute_history_lists db _ sc Hwf)) by done.
  rewrite (batch_rows _ _ _ _ _ (λ sc, aggregate_history_lists db a sc Hwf)) by done.
  clear. induction batches as [|b batches IH]; [done|]. cbn in *. unfold history_rows at 1. lia.
Qed.

(** C34: the streaming restore succeeds on a well-formed database of quotable
    prices, and whatever the chunks it fetches and the batches of its scope, it
    leaves every symbol in its scope as loading the minute prices of that
    symbol at once and then its aggregates would, every other symbol as it
    was, and returns the number of rows in scope and retention. *)
Theorem streaming_restore (a : restore_args) (fetch_size : Z) (db : database) (cache : t)
    (scope : option (list string)) (Hwf : well_formed db) (Hrep : representable db)
    (Hscope : restore_scope a = Ok scope) (Hfetch : 0 < fetch_size) :
  ∃ cache', restore_history_into_sync a fetch_size db cache = Ok (cache', history_rows a db scope) ∧
    ∀ s, if in_scope scope s then restored a db s cache cache' else same_at s cache' cache.
Proof.
  unfold restore_history_into_sync. rewrite Hscope. cbn [mbind result_bind].
  rewrite bool_decide_eq_false_2 by lia. cbn [raise_if mbind result_bind].
  destruct scope as [l|]; cbn [restore_symbol_batches].
  - assert (Hc : concat (slices (Z.to_nat RESTORE_SYMBOL_BATCH_SIZE) l) = l).
    { apply slices_concat. unfold RESTORE_SYMBOL_BATCH_SIZE. lia. }
    assert (Hnd : NoDup l).
    { unfold restore_scope in Hscope. apply result_bind_ok in Hscope as (sy & Hs & Hx).
      apply result_bind_ok in Hx as (u & _ & (w & _ & [= ->])%result_bind_ok).
      exact (normalize_NoDup _ _ Hs). }
    destruct (stream_batches_spec a (Z.to_nat fetch_size) db (slices (Z.to_nat RESTORE_SYMBOL_BATCH_SIZE) l)
      Hwf Hrep ltac:(lia) ltac:(by rewrite Hc) cache 0%nat) as (cache' & -> & Hr). cbn [corrupted].
    exists cache'. rewrite Hc in Hr. split; [|exact Hr]. do 2 f_equal.
    rewrite <- history_rows_batches, Hc by (done || by rewrite Hc). done.
  - cbn [fold_result].
    destruct (stream_batch_spec a (Z.to_nat fetch_size) db cache 0%nat None Hwf Hrep ltac:(lia)) as (cache' & -> & Hr).
    cbn. eauto.
Qed.

End history.

(** ** Concrete instances *)

#[local] Existing Instance row_engine.

Definition demo_price (symbol : string) (minute price : Z) : MinutePriceRecord :=
  {| mp_symbol := symbol; mp_timestamp := minutes minute; mp_price := Dec price (-1);
     mp_provider := "demo"; mp_is_derived := false; mp_source := JObject [] |}.

Definition demo_history_writes : list event :=
  [Submit false (QWrite (WMinutePrice (demo_price "BTC" 10 600))) false;
   Submit false (QWrite (WMinutePrice (demo_price "BTC" 11 610))) false; Round 1 calm; Round 1 calm].

Lemma demo_history_writes_ok checked c wait :
  Submit checked (QWrite c) wait ∈ demo_history_writes → command_ok c.
Proof.
  intros Hin. repeat (apply elem_of_cons in Hin as [Hin|Hin]; [|]); try (by apply elem_of_nil in Hin);
    first [discriminate Hin|injection Hin as _ -> _; vm_compute; reflexivity].
Qed.

Definition demo_history : database :=
  db (storage_run demo_config demo_history_writes (started empty_database)).1.

Lemma demo_history_wf : well_formed demo_history.
Proof. apply run_wf; [apply empty_well_formed|exact demo_history_writes_ok]. Qed.

Lemma demo_history_representable : representable demo_history.
Proof.
  split; intros k v Hk.
  - assert (Hm : map_Forall (λ _ v, float_representable (mp_price (row v))) (minute_prices demo_history)).
    { apply (bool_decide_eq_true_1 _). vm_compute. reflexivity. }
    by apply (Hm k).
  - vm_compute in Hk. discriminate Hk.
Qed.

Definition demo_args : restore_args :=
  {| ra_now := minutes 20; ra_minute_retention := hours 1; ra_aggregate_retention := hours 1;
     ra_daily_retention := hours 1; ra_aggregate_interval_seconds := 300; ra_symbols := None |}.

Lemma streaming_restore_witness :
  ∃ cache', restore_history_into_sync demo_args 1 demo_history HistoryCache.empty = Ok (cache', 2%nat) ∧
    restored demo_args demo_history "BTC" HistoryCache.empty cache'.
Proof.
  destruct (streaming_restore demo_args 1 demo_history HistoryCache.empty None demo_history_wf
              demo_history_representable ltac:(vm_compute; reflexivity) ltac:(lia)) as (cache' & Hc & Hr).
  exists cache'. split; [|exact (Hr "BTC")].
  replace 2%nat with (history_rows demo_args demo_history None) by (vm_compute; reflexivity). exact Hc.
Defined.
