(* ===== verification/ApiKeys.v ===== *)
(** * The API key manager ([api_keys.py])

    The manager keeps the client keys in memory, in the order of the table, and
    publishes a change there once the storage has committed it.  Its methods
    hold the write lock from the check to the publication, so each is one
    transition of the manager and the database; what the storage answers, the
    clock and the random identifiers are arguments. *)

From S2P Require Import Prelude PyStr PyDecimal PyTime PyIso Json Domain Auth StorageRecords Storage.
From S2P Require Import StorageFacts StorageTables StorageRestore.
From stdpp Require Import pretty.

Local Open Scope string_scope.
Local Open Scope list_scope.
Local Open Scope Z_scope.

Definition ApiKeyNotFoundError (msg : string) : exn := NamedError "ApiKeyNotFoundError" msg.
Definition DuplicateApiKeyError (msg : string) : exn := NamedError "DuplicateApiKeyError" msg.
Definition ApiKeyStoreUnavailableError (msg : string) : exn := NamedError "ApiKeyStoreUnavailableError" msg.
Definition CancelledError : exn := NamedError "CancelledError" "".

(** [hashlib.sha256(...).hexdigest()] and [uuid.uuid5(NAMESPACE_URL, ...)]. *)
Class KeyPrimitives := {
  sha256_hex : string → string;
  uuid5_url : string → string;
}.

Record AuthContext := {
  ac_key_id : string;
  ac_name : string;
  ac_digest : string;
  ac_expires_at : option Z;
}.

Record AuditContext := { at_request_id : string; at_client_ip : string }.

Record ApiKeyImportOf (T : Type) := {
  im_name : string;
  im_expires_at : option T;
  im_raw_key : option string;
  im_key_hash : option string;
}.
Arguments im_name {T}. Arguments im_expires_at {T}. Arguments im_raw_key {T}. Arguments im_key_hash {T}.
Abbreviation ApiKeyImport := (ApiKeyImportOf Z).

Definition named (name : string) : result string :=
  let text := strip name in
  _ ← raise_if (negb (truthy text) || bool_decide (80 < String.length text)%nat)
        (ValueError "API key name must contain 1 to 80 characters");
  Ok text.

(** [_normalize_expiry] *)
Definition normalize_expiry (value : option datetime) : result (option Z) :=
  match value with
  | None => Ok None
  | Some (Naive _) => Raise (ValueError "API key expiry must include a timezone")
  | Some (Aware t) => Ok (Some t)
  end.

(** [ApiKeyImport.__post_init__] *)
Definition ApiKeyImport_init (i : ApiKeyImportOf datetime) : result ApiKeyImport :=
  name ← named (im_name i);
  _ ← raise_if (Bool.eqb (bool_decide (im_raw_key i = None)) (bool_decide (im_key_hash i = None)))
        (ValueError "exactly one of raw_key or key_hash is required");
  _ ← raise_if (match im_raw_key i with
                | Some raw => negb (bool_decide (20 ≤ String.length raw ≤ 256)%nat)
                | None => false
                end) (ValueError "imported raw API keys must contain 20 to 256 characters");
  hash ← option_result (λ h, let n := lower (strip h) in
                             _ ← raise_if (negb (api_key_hash_pattern n))
                                   (ValueError
                                      "imported API key hashes must use sha256:<64 hexadecimal characters>");
                             Ok n) (im_key_hash i);
  expires_at ← normalize_expiry (im_expires_at i);
  Ok {| im_name := name; im_expires_at := expires_at; im_raw_key := im_raw_key i; im_key_hash := hash |}.

(** ** The manager *)

Record ApiKeyManager := {
  legacy_hashes : list string;
  records : list ApiKeyRecord;
  attached : bool;  (* [_storage is not None] *)
  km_started : bool;
}.

Definition maximum_import_size : nat := 100.

(** [ApiKeyManager.__init__] *)
Definition ApiKeyManager_init (hashes : list string) : ApiKeyManager :=
  {| legacy_hashes := (λ h, lower (strip h)) <$> filter (λ h, truthy (strip h) = true) hashes;
     records := []; attached := false; km_started := false |}.

Definition set_records (l : list ApiKeyRecord) (m : ApiKeyManager) : ApiKeyManager :=
  {| legacy_hashes := legacy_hashes m; records := l; attached := attached m; km_started := km_started m |}.

Definition available (m : ApiKeyManager) : bool := km_started m && attached m.

Definition is_active (r : ApiKeyRecord) (now : Z) : bool :=
  bool_decide (ak_revoked_at r = None) &&
  match ak_expires_at r with None => true | Some e => bool_decide (now < e) end.

Definition configured (m : ApiKeyManager) (now : Z) : bool := existsb (λ r, is_active r now) (records m).

(** [authenticate_digest]: every record is compared, the last match counts. *)
Definition authenticate_digest (m : ApiKeyManager) (candidate : string) (now : Z) : option AuthContext :=
  let matched := foldl (λ matched r, if bool_decide (candidate = ak_key_hash r) && is_active r now
                                     then Some r else matched) None (records m) in
  (λ r, {| ac_key_id := ak_key_id r; ac_name := ak_name r; ac_digest := candidate;
           ac_expires_at := ak_expires_at r |}) <$> matched.

(** [_timestamp] *)
Definition timestamp_text (value : option Z) : json :=
  match value with None => JNull | Some t => JString (isoformat t +:+ "Z") end.

Definition optional_text (value : option string) : json :=
  match value with None => JNull | Some s => JString s end.

Definition key_status (r : ApiKeyRecord) (now : Z) : string :=
  if bool_decide (ak_revoked_at r = None) then
    match ak_expires_at r with
    | Some e => if decide (e ≤ now) then "expired" else "active"
    | None => "active"
    end
  else "revoked".

(** [_to_public] *)
Definition to_public (r : ApiKeyRecord) (now : Z) : json :=
  JObject [("key_id", JString (ak_key_id r)); ("name", JString (ak_name r));
           ("key_hint", optional_text (ak_key_hint r));
           ("created_at", timestamp_text (Some (ak_created_at r)));
           ("updated_at", timestamp_text (Some (ak_updated_at r)));
           ("expires_at", timestamp_text (ak_expires_at r));
           ("is_permanent", JBool (bool_decide (ak_expires_at r = None)));
           ("revoked_at", timestamp_text (ak_revoked_at r));
           ("origin", JString (ak_origin r)); ("status", JString (key_status r now))].

Definition list_records (m : ApiKeyManager) (include_revoked : bool) (now : Z) : list json :=
  (λ r, to_public r now) <$>
    filter (λ r, include_revoked = true ∨ ak_revoked_at r = None) (records m).

Definition require_available (m : ApiKeyManager) : result unit :=
  raise_if (negb (available m)) (ApiKeyStoreUnavailableError "API-key storage is unavailable").

(** [_ensure_unique] *)
Definition ensure_unique (m : ApiKeyManager) (new : list ApiKeyRecord) : result unit :=
  raise_if (existsb (λ r, bool_decide (ak_key_hash r ∈ ak_key_hash <$> records m)) new)
    (DuplicateApiKeyError "API key already exists").

(** [_active_record] *)
Definition active_record (m : ApiKeyManager) (key_id : string) : result ApiKeyRecord :=
  match next_where (λ r, ak_key_id r = key_id ∧ ak_revoked_at r = None) (records m) with
  | Some r => Ok r
  | None => Raise (ApiKeyNotFoundError "API key not found")
  end.

(** [_replace_record] *)
Definition replace_record (replacement : ApiKeyRecord) (m : ApiKeyManager) : ApiKeyManager :=
  set_records ((λ r, if decide (ak_key_id r = ak_key_id replacement) then replacement else r) <$> records m) m.

(** The records and the new ones, sorted by [(created_at, key_id)]. *)
Definition publish_records (new : list ApiKeyRecord) (m : ApiKeyManager) : ApiKeyManager :=
  set_records (sort_rows api_key_order (records m ++ new)) m.

(** [_key_hint] *)
Definition key_hint (raw_key : string) : string :=
  String.substring 0 10 raw_key +:+ "..." +:+
  String.substring (String.length raw_key - 4) 4 raw_key.

(** [_new_record]; [key_id] is the fresh identifier. *)
Definition new_record (key_id name key_hash hint : string) (expires_at : option datetime) (origin : string)
    (now : Z) : result ApiKeyRecord :=
  expiry ← normalize_expiry expires_at;
  ApiKeyRecord_init
    {| ak_key_id := key_id; ak_name := name; ak_key_hash := key_hash; ak_key_hint := Some hint;
       ak_created_at := Aware now; ak_updated_at := Aware now; ak_expires_at := Aware <$> expiry;
       ak_revoked_at := None; ak_origin := origin |}.

(** [_audit] *)
Definition audit_record (event_id : string) (now : Z) (c : AuditContext) (action target_type : string)
    (target_id : option string) (details : list (string * json)) : result AdminAuditEventRecord :=
  AdminAuditEventRecord_init
    {| av_event_id := event_id; av_occurred_at := Aware now; av_request_id := at_request_id c;
       av_client_ip := at_client_ip c; av_action := action; av_target_type := target_type;
       av_target_id := target_id; av_details := JObject details |}.

(** ** The storage as the manager sees it *)

(** How an awaited command ends: the storage refuses it before it is queued,
    or runs it in a transaction and the caller learns the outcome, or the
    caller is cancelled meanwhile. *)
Inductive await_env :=
| Refused (e : exn)
| Completed (env : segment_env)
| Cancelled (env : segment_env).

Section manager.
Context `{SqlEngine} `{KeyPrimitives}.

Definition run_command (env : segment_env) (c : WriteCommand) (db : database) : database * result unit :=
  match transaction env [c] db with
  | Ok (db', _) => (db', Ok tt)
  | Raise e => (db, Raise (batch_error e))
  end.

Definition store (w : await_env) (c : WriteCommand) (db : database) : database * result unit :=
  match w with
  | Refused e => (db, Raise e)
  | Completed env => run_command env c db
  | Cancelled env => ((run_command env c db).1, Raise CancelledError)
  end.

(** The manager and the database behind it. *)
Abbreviation world := (ApiKeyManager * database)%type.

(** The critical section of the methods that write: the checks, the awaited
    command, and the publication in memory. *)
Definition write_locked {A} (w : await_env) (checks : result (WriteCommand * A))
    (publish : A → ApiKeyManager → ApiKeyManager) (s : world) : world * result A :=
  let '(m, db) := s in
  match checks with
  | Raise e => (s, Raise e)
  | Ok (c, a) =>
    match store w c db with
    | (db', Ok _) => ((publish a m, db'), Ok a)
    | (db', Raise e) => ((m, db'), Raise e)
    end
  end.

(** The environment of a write: its clock readings and random values. *)
Record write_env := {
  we_await : await_env;
  we_now : Z;
  we_audit_now : Z;
  we_public_now : Z;
  we_event_id : string;
}.

Definition legacy_record (now : Z) (index : nat) (digest : string) : result ApiKeyRecord :=
  ApiKeyRecord_init
    {| ak_key_id := uuid5_url ("quickprice:legacy-api-key:" +:+ digest);
       ak_name := "Legacy API key " +:+ pretty index; ak_key_hash := digest;
       ak_key_hint := Some ("legacy-" +:+ pretty index);
       ak_created_at := Aware now; ak_updated_at := Aware now; ak_expires_at := None;
       ak_revoked_at := None; ak_origin := "legacy" |}.

(** [enumerate(l, first)] *)
Fixpoint enumerate {A} (first : nat) (l : list A) : list (nat * A) :=
  match l with [] => [] | x :: l' => (first, x) :: enumerate (S first) l' end.

(** [_reload] *)
Definition reload (s : world) : world * result unit :=
  match load_api_keys s.2 with
  | Ok l => ((set_records l s.1, s.2), Ok tt)
  | Raise _ => (s, Raise (ApiKeyStoreUnavailableError "failed to load API keys"))
  end.

(** [start] *)
Definition start (running : bool) (w : await_env) (now : Z) (s : world) : world * result unit :=
  if negb running then (s, Raise (ApiKeyStoreUnavailableError "API-key storage is unavailable"))
  else
    let '(m0, db) := s in
    let m := {| legacy_hashes := legacy_hashes m0; records := records m0; attached := true;
                km_started := km_started m0 |} in
    let '(db', r) :=
      if api_key_bootstrap_complete db then (db, Ok tt)
      else match map_result (λ p, legacy_record now p.1 p.2) (enumerate 1 (legacy_hashes m)) with
           | Raise e => (db, Raise e)
           | Ok legacy => store w (WBootstrapApiKeys legacy now) db
           end in
    match r with
    | Raise e => ((m, db'), Raise e)
    | Ok _ =>
      match reload (m, db') with
      | ((m', db''), Ok _) =>
        (({| legacy_hashes := legacy_hashes m'; records := records m'; attached := attached m';
             km_started := true |}, db''), Ok tt)
      | (s', Raise e) => (s', Raise e)
      end
    end.

(** [create]; [token] and [key_id] are the random values. *)
Definition create (token key_id name : string) (expires_at : option datetime) (audit : AuditContext)
    (w : write_env) (s : world) : world * result (json * string) :=
  let raw_key := "qp_" +:+ token in
  match (hash ← hash_api_key sha256_hex raw_key;
         new_record key_id name hash (key_hint raw_key) expires_at "generated" (we_now w)) with
  | Raise e => (s, Raise e)
  | Ok r =>
    let '(s', o) :=
      write_locked (we_await w)
        (_ ← require_available s.1;
         _ ← ensure_unique s.1 [r];
         a ← audit_record (we_event_id w) (we_audit_now w) audit "api_key.created" "api_key"
               (Some (ak_key_id r))
               [("name", JString (ak_name r)); ("expires_at", timestamp_text (ak_expires_at r))];
         l ← import_records [r];
         Ok (WImportApiKeys l a, l)) publish_records s in
    (s', _ ← o; Ok (to_public r (we_public_now w), raw_key))
  end.

(** [_record_from_import] *)
Definition record_from_import (now : Z) (key_id : string) (i : ApiKeyImport) : result ApiKeyRecord :=
  match im_raw_key i with
  | Some raw =>
    hash ← hash_api_key sha256_hex raw;
    new_record key_id (im_name i) hash (key_hint raw) (Aware <$> im_expires_at i) "imported" now
  | None =>
    new_record key_id (im_name i) (lower (strip (default "None" (im_key_hash i)))) "Imported hash"
      (Aware <$> im_expires_at i) "imported" now
  end.

(** [import_many]; each item comes with its fresh identifier. *)
Definition import_many (items : list (string * ApiKeyImport)) (audit : AuditContext) (w : write_env)
    (s : world) : world * result (list json) :=
  match (_ ← raise_if (bool_decide (items = []) || bool_decide (maximum_import_size < length items)%nat)
               (ValueError ("API key import must contain 1 to " +:+ pretty maximum_import_size +:+ " items"));
         l ← map_result (λ i, record_from_import (we_now w) i.1 i.2) items;
         _ ← raise_if (negb (bool_decide (NoDup (ak_key_hash <$> l))))
               (DuplicateApiKeyError "import contains duplicate API keys");
         Ok l) with
  | Raise e => (s, Raise e)
  | Ok new =>
    let '(s', o) :=
      write_locked (we_await w)
        (_ ← require_available s.1;
         _ ← ensure_unique s.1 new;
         a ← audit_record (we_event_id w) (we_audit_now w) audit "api_key.imported" "api_key" None
               [("count", JInt (Z.of_nat (length new))); ("key_ids", JArray (JString ∘ ak_key_id <$> new))];
         l ← import_records new;
         Ok (WImportApiKeys l a, l)) publish_records s in
    (s', _ ← o; Ok ((λ r, to_public r (we_public_now w)) <$> new))
  end.

(** [update] *)
Definition update (key_id name : string) (expires_at : option datetime) (audit : AuditContext)
    (w : write_env) (s : world) : world * result json :=
  match (n ← named name; e ← normalize_expiry expires_at; Ok (n, e)) with
  | Raise e => (s, Raise e)
  | Ok (normalized_name, normalized_expiry) =>
    let '(s', o) :=
      write_locked (we_await w)
        (_ ← require_available s.1;
         existing ← active_record s.1 key_id;
         a ← audit_record (we_event_id w) (we_audit_now w) audit "api_key.updated" "api_key"
               (Some (ak_key_id existing))
               [("name", JString normalized_name); ("expires_at", timestamp_text normalized_expiry)];
         c ← UpdateApiKeyCommand_init
               {| uk_key_id := ak_key_id existing; uk_name := normalized_name;
                  uk_expires_at := Aware <$> normalized_expiry; uk_updated_at := Aware (we_now w);
                  uk_audit := a |};
         Ok (WUpdateApiKey c, renamed normalized_name normalized_expiry (we_now w) existing))
        replace_record s in
    (s', updated ← o; Ok (to_public updated (we_public_now w)))
  end.

(** [revoke] *)
Definition revoke (key_id : string) (audit : AuditContext) (w : write_env) (s : world)
    : world * result unit :=
  let '(s', o) :=
    write_locked (we_await w)
      (_ ← require_available s.1;
       existing ← active_record s.1 key_id;
       a ← audit_record (we_event_id w) (we_audit_now w) audit "api_key.revoked" "api_key"
             (Some (ak_key_id existing)) [("name", JString (ak_name existing))];
       c ← RevokeApiKeyCommand_init
             {| rk_key_id := ak_key_id existing; rk_revoked_at := Aware (we_now w); rk_audit := a |};
       Ok (WRevokeApiKey c, revoked (we_now w) existing)) replace_record s in
  (s', _ ← o; Ok tt).

(** [append_audit] *)
Definition append_audit (audit : AuditContext) (action target_type : string) (target_id : option string)
    (details : list (string * json)) (w : write_env) (s : world) : world * result unit :=
  write_locked (we_await w)
    (_ ← require_available s.1;
     a ← audit_record (we_event_id w) (we_audit_now w) audit action target_type target_id details;
     Ok (WAdminAuditEvent a, tt)) (λ _ m, m) s.

(** [audit_events] *)
Definition audit_events (limit : Z) (s : world) : result (list AdminAuditEventRecord) :=
  _ ← require_available s.1; load_admin_audit_events limit s.2.

End manager.

(** [expiry_from_ttl] *)
Definition expiry_from_ttl (ttl_days : option Z) (now : Z) : result (option Z) :=
  match ttl_days with
  | None => Ok None
  | Some n =>
    _ ← raise_if (negb (bool_decide (1 ≤ n ≤ 3650))) (ValueError "ttl_days must be between 1 and 3650");
    Ok (Some (now + days n))
  end.
