(* ===== verification/ApiKeysFacts.v ===== *)
(** * Properties of the API key manager

    The keys in memory are the keys of the database after every operation, so
    authentication answers from memory what the durable table says, and a
    revocation is final. *)

From S2P Require Import Prelude PyStr PyDecimal PyTime PyIso Json Domain Auth StorageRecords Storage.
From stdpp Require Import pretty.
From S2P Require Import StorageFacts StorageTables StorageRestore StorageRestoreFacts ApiKeys.

Local Open Scope string_scope.
Local Open Scope list_scope.
Local Open Scope Z_scope.

Section facts.
Context `{SqlEngine} `{KeyPrimitives}.
Implicit Types (s : ApiKeyManager * database) (l : list ApiKeyRecord).

(** ** The table of keys *)

Definition in_table (d : database) (r : ApiKeyRecord) : Prop := ∃ k, api_keys d !! k = Some r.

Lemma in_table_id d r : well_formed d → in_table d r ↔ api_keys d !! ak_key_id r = Some r.
Proof.
  intros Hwf. split; [|by intros ?; exists (ak_key_id r)].
  intros [k Hk]. by destruct (wf_keys _ Hwf _ _ Hk) as [<- _].
Qed.

Lemma keys_apart d x y : well_formed d → in_table d x → in_table d y → api_key_order x y = Eq → x = y.
Proof.
  intros Hwf Hx%in_table_id Hy%in_table_id; [|done..].
  unfold api_key_order, then_by, lex, by_instant, by_column.
  destruct (Z.compare _ _); [|done..]. intros Hid%String.compare_eq_iff. congruence.
Qed.

(** Reading the table gives its only listing. *)
Lemma load_iff d l : well_formed d → load_api_keys d = Ok l ↔ lists api_key_order (in_table d) l.
Proof.
  intros Hwf. destruct (load_api_keys_lists d Hwf) as (keys & Hk & Hl). split.
  - rewrite Hk. by intros [= <-].
  - intros Hl'. rewrite Hk. f_equal. apply (lists_unique api_key_order (in_table d)); [|done..].
    intros x y. by apply keys_apart.
Qed.

Lemma transaction_single env c d d' os :
  transaction env [c] d = Ok (d', os) → ∃ now o, execute_write now c d = Ok (d', o).
Proof.
  unfold transaction. destruct (se_begin env); [done|].
  intros ([d1 os1] & Hx & Hr)%result_bind_ok. destruct (se_commit env); [done|]. injection Hr as <- _.
  cbn in Hx. apply result_bind_ok in Hx as ([d2 o] & Hx & [= <- _]). eauto.
Qed.

Lemma import_keys l : ∀ d d',
  fold_result (λ d r, insert_api_key r d) d l = Ok d' →
  (∀ k r, api_keys d' !! k = Some r ↔ api_keys d !! k = Some r ∨ r ∈ l ∧ ak_key_id r = k) ∧
  NoDup l ∧ ∀ r, r ∈ l → api_keys d !! ak_key_id r = None.
Proof.
  induction l as [|x l IH]; intros d d'; cbn [fold_result].
  { intros [= <-]. split_and!; [|constructor|by intros r ?%elem_of_nil].
    intros k r. rewrite elem_of_nil. tauto. }
  intros (d1 & (Hid & _ & ->)%insert_api_key_inv & Hf)%result_bind_ok.
  destruct (IH _ _ Hf) as (Hm & Hnd & Hnew). cbn in Hm, Hnew. split_and!.
  - intros k r. rewrite Hm, elem_of_cons, lookup_insert_Some. split; [naive_solver|].
    intros [Hk|[[->|Hr] <-]]; [|tauto..]. left. right. split; [|done]. intros <-. congruence.
  - constructor; [|done]. intros Hx%Hnew. by rewrite lookup_insert_eq in Hx.
  - intros r [->|Hr]%elem_of_cons; [done|]. apply Hnew in Hr.
    apply lookup_insert_None in Hr. tauto.
Qed.

Lemma audit_keys r d d' : insert_admin_audit r d = Ok d' → api_keys d' = api_keys d.
Proof. unfold insert_admin_audit. by intros (u & _ & (v & _ & [= <-])%result_bind_ok)%result_bind_ok. Qed.

(** ** Memory and table *)

Definition synced s : Prop :=
  well_formed s.2 ∧ (km_started (s.1) = true → load_api_keys s.2 = Ok (records s.1)).

Lemma synced_lists s : synced s → km_started s.1 = true → lists api_key_order (in_table s.2) (records s.1).
Proof. intros [Hwf Hs] Hst. by apply load_iff, Hs. Qed.

Lemma published_keys l m d d' :
  well_formed d' → lists api_key_order (in_table d) (records m) →
  (∀ r, in_table d' r ↔ in_table d r ∨ r ∈ l) → NoDup l → (∀ r, r ∈ l → ¬ in_table d r) →
  load_api_keys d' = Ok (records (publish_records l m)).
Proof.
  intros Hwf (_ & Hn & Hm) Htab Hnd Hnew. apply load_iff; [done|]. split_and!.
  - apply sort_rows_ordered. apply _.
  - cbn. rewrite sort_rows_perm. apply NoDup_app. split_and!; [done| |done]. intros r Hr%Hm Hl. by eapply Hnew.
  - intros r. cbn. rewrite sort_rows_perm, elem_of_app, Hm, Htab. done.
Qed.

Lemma ordered_map (f : ApiKeyRecord → ApiKeyRecord) l :
  (∀ r, ak_created_at (f r) = ak_created_at r ∧ ak_key_id (f r) = ak_key_id r) →
  StronglySorted (not_after api_key_order) l → StronglySorted (not_after api_key_order) (f <$> l).
Proof.
  intros Hf. induction 1 as [|x l _ IH Hall]; cbn; constructor; [done|].
  apply Forall_fmap. eapply Forall_impl; [exact Hall|]. intros y.
  unfold not_after, api_key_order, then_by, lex, by_instant, by_column. cbn.
  destruct (Hf x) as [-> ->], (Hf y) as [-> ->]. done.
Qed.

(** Replacing one active key in the table and in memory. *)
Lemma replaced_keys f m d d' existing :
  well_formed d → well_formed d' → lists api_key_order (in_table d) (records m) → in_table d existing →
  (∀ r, ak_created_at (f r) = ak_created_at r ∧ ak_key_id (f r) = ak_key_id r) →
  api_keys d' = <[ak_key_id existing := f existing]> (api_keys d) →
  load_api_keys d' = Ok (records (replace_record (f existing) m)).
Proof.
  intros Hwf Hwf' (Hs & Hn & Hm) Hex Hf Htab.
  assert (Hmem : records (replace_record (f existing) m) =
                 (λ r, if decide (ak_key_id r = ak_key_id existing) then f r else r) <$> records m).
  { cbn. apply list_fmap_ext. intros i r Hr%list_elem_of_lookup_2%Hm.
    rewrite (proj2 (Hf existing)). case_decide as Hid; [|done].
    apply in_table_id in Hr, Hex; [|done..]. congruence. }
  rewrite Hmem. apply load_iff; [done|]. split_and!.
  - apply ordered_map; [|done]. intros r. by case_decide.
  - apply NoDup_fmap_2_strong; [|done]. intros x y Hx%Hm Hy%Hm Heq.
    apply in_table_id in Hx, Hy; [|done..].
    assert (Hid : ak_key_id x = ak_key_id y); [|congruence].
    pose proof (f_equal ak_key_id Heq) as Hk. cbn in Hk.
    destruct (Hf x) as [_ Hfx], (Hf y) as [_ Hfy].
    destruct (decide (ak_key_id x = ak_key_id existing)), (decide (ak_key_id y = ak_key_id existing)); congruence.
  - intros r. rewrite list_elem_of_fmap. unfold in_table. rewrite Htab. setoid_rewrite lookup_insert_Some. split.
    + intros (x & -> & Hx%Hm). apply in_table_id in Hx as Hx'; [|done]. case_decide as Hid.
      * exists (ak_key_id existing). left. split; [done|]. f_equal. apply in_table_id in Hex; [|done]. congruence.
      * exists (ak_key_id x). right. by split.
    + intros [k [[<- <-]|[Hne Hk]]].
      * exists existing. rewrite decide_True by done. split; [done|]. by apply Hm.
      * exists r. destruct (wf_keys _ Hwf _ _ Hk) as [Hid _]. rewrite decide_False by congruence.
        split; [done|]. apply Hm. by exists k.
Qed.

(** ** Operations *)

Definition answered_caller (w : await_env) : Prop := match w with Cancelled _ => False | _ => True end.

Lemma store_ok w c d d' : store w c d = (d', Ok tt) → ∃ now o, execute_write now c d = Ok (d', o).
Proof.
  unfold store, run_command. destruct w as [e|env|env]; [done| |done].
  destruct (transaction env [c] d) as [[d1 os]|] eqn:Ht; [|done]. intros [= <-].
  by eapply transaction_single.
Qed.

Lemma store_raise w c d d' e : answered_caller w → store w c d = (d', Raise e) → d' = d.
Proof.
  unfold store, run_command. destruct w as [e'|env|env]; [by intros _ [= <- _]| |done].
  intros _. destruct (transaction env [c] d) as [[d1 os]|]; [done|]. by intros [= <- _].
Qed.

(** A cancelled caller leaves the database where the command left it. *)
Lemma store_any w c d d' o :
  store w c d = (d', o) → d' = d ∧ (∃ e, o = Raise e) ∨ ∃ now out, execute_write now c d = Ok (d', out).
Proof.
  intros Hs. destruct o as [[]|e]; [right; by eapply store_ok|].
  destruct w as [e'|env|env]; cbn in Hs; [left; injection Hs as <- _; eauto|..];
    unfold run_command in Hs; destruct (transaction env [c] d) as [[d1 os]|] eqn:Ht; cbn in Hs; injection Hs as <- Hs.
  - done.
  - left. eauto.
  - right. by eapply transaction_single.
  - left. eauto.
Qed.

(** A write either publishes what it committed, or leaves everything alone. *)
Lemma write_locked_cases {A} w (checks : result (WriteCommand * A)) publish s :
  answered_caller w →
  let '(s', o) := write_locked w checks publish s in
  (∃ c a now out d', checks = Ok (c, a) ∧ execute_write now c s.2 = Ok (d', out) ∧ o = Ok a ∧
     s' = (publish a s.1, d')) ∨
  (∃ e, o = Raise e ∧ s' = s).
Proof.
  intros Hw. destruct s as [m d]. unfold write_locked. destruct checks as [[c a]|e]; [|by right; exists e].
  destruct (store w c d) as [d' [[]|e]] eqn:Hs.
  - left. destruct (store_ok _ _ _ _ Hs) as (now & out & Hx). exists c, a, now, out, d'. done.
  - right. exists e. by apply store_raise in Hs as ->.
Qed.

(** What each write checked, and what it publishes. *)
Definition publishes {A} (checks : result (WriteCommand * A)) (publish : A → ApiKeyManager → ApiKeyManager) s
    : Prop :=
  ∀ c a now out d', checks = Ok (c, a) → execute_write now c s.2 = Ok (d', out) →
    km_started (publish a s.1) = km_started s.1 ∧ well_formed d' ∧
    load_api_keys d' = Ok (records (publish a s.1)).

Lemma write_locked_synced {A} w (checks : result (WriteCommand * A)) publish s :
  answered_caller w → synced s → publishes checks publish s → synced (write_locked w checks publish s).1.
Proof.
  intros Hw Hs Hp. pose proof (write_locked_cases w checks publish s Hw) as Hc.
  destruct (write_locked w checks publish s) as [s' o].
  destruct Hc as [(c & a & now & out & d' & Hch & Hx & _ & ->)|(e & _ & ->)]; [|done].
  destruct (Hp _ _ _ _ _ Hch Hx) as (_ & Hwf & Hl). split; [done|]. by intros _.
Qed.

Lemma require_available_started m u : require_available m = Ok u → km_started m = true.
Proof. intros Hr%raise_if_ok%negb_false_iff. by apply andb_true_iff in Hr as [? _]. Qed.

Lemma audit_record_ok id now c action ty target details a :
  audit_record id now c action ty target details = Ok a → audit_ok a.
Proof. apply audit_init_valid. Qed.

Lemma import_publishes s new id now audit action target details :
  synced s → Forall api_key_ok new →
  publishes
    (_ ← require_available s.1; _ ← ensure_unique s.1 new;
     a ← audit_record id now audit action "api_key" target details;
     l ← import_records new; Ok (WImportApiKeys l a, l)) publish_records s.
Proof.
  intros Hs Hnew c l t out d' Hch Hx. destruct s as [m d]. cbn in Hch, Hx |- *.
  apply result_bind_ok in Hch as (u & Hav%require_available_started & Hch).
  apply result_bind_ok in Hch as (v & _ & Hch).
  apply result_bind_ok in Hch as (a & Ha%audit_record_ok & Hch).
  apply result_bind_ok in Hch as (l' & (w & _ & [= <-])%result_bind_ok & [= <- <-]).
  assert (Hwf : well_formed d') by (by eapply (execute_write_wf t (WImportApiKeys new a)); [|exact Hx|apply Hs]).
  split_and!; [done|done|]. cbn in Hx.
  apply result_bind_ok in Hx as (d1 & Hf & (d2 & Hau & [= <- _])%result_bind_ok).
  apply import_keys in Hf as (Hm & Hnd & Hfresh). apply audit_keys in Hau.
  apply (published_keys new m d); [done| | |done|].
  - by apply (synced_lists (m, d)).
  - intros r. unfold in_table. rewrite Hau. setoid_rewrite Hm. naive_solver.
  - intros r Hr [k Hk]. destruct (wf_keys _ (proj1 Hs) _ _ Hk) as [Hid _].
    pose proof (Hfresh r Hr) as Hn. cbn in Hk, Hid. congruence.
Qed.

Lemma active_record_spec m key_id r :
  active_record m key_id = Ok r → r ∈ records m ∧ ak_key_id r = key_id ∧ ak_revoked_at r = None.
Proof.
  unfold active_record, next_where. destruct (head _) as [x|] eqn:Hh; [|done]. intros [= <-].
  apply head_Some in Hh as [l' Hl].
  assert (x ∈ filter (λ r, ak_key_id r = key_id ∧ ak_revoked_at r = None) (records m)) as Hx
    by (rewrite Hl; by left).
  apply list_elem_of_filter in Hx. tauto.
Qed.

(** The shared end of [update] and [revoke]: one active key is replaced. *)
Lemma replacing_publishes s key_id (f : ApiKeyRecord → ApiKeyRecord) existing d1 d' a :
  synced s → km_started s.1 = true → active_record s.1 key_id = Ok existing →
  (∀ r, ak_created_at (f r) = ak_created_at r ∧ ak_key_id (f r) = ak_key_id r) →
  update_active_key (ak_key_id existing) f s.2 = Ok d1 → insert_admin_audit a d1 = Ok d' →
  well_formed d' → load_api_keys d' = Ok (records (replace_record (f existing) s.1)).
Proof.
  intros Hs Hst (Hin & _ & _)%active_record_spec Hf (r & Hk & _ & ->)%update_active_key_inv Hau%audit_keys Hwf'.
  pose proof (synced_lists _ Hs Hst) as Hl. apply Hl in Hin as Hex.
  apply in_table_id in Hex as Hex'; [|apply Hs]. rewrite Hex' in Hk. injection Hk as <-.
  eapply (replaced_keys f _ s.2); [apply Hs|done|done|done|done|exact Hau].
Qed.

Lemma update_command_ok c0 c : UpdateApiKeyCommand_init c0 = Ok c → audit_ok (uk_audit c0) →
  command_ok (WUpdateApiKey c).
Proof.
  unfold UpdateApiKeyCommand_init. intros Hi Ha. open_init Hi. cbn. split_and!; [| |done].
  - by eapply required_text_idem.
  - apply raise_if_ok, bool_decide_eq_false in E1. lia.
Qed.

Lemma api_key_id_text r : api_key_ok r → required_text (ak_key_id r) "key_id" = Ok (ak_key_id r).
Proof.
  unfold api_key_ok, ApiKeyRecord_init. intros (id & Hid & Hok)%result_bind_ok. cbn in Hid.
  do 9 (apply result_bind_ok in Hok as (? & _ & Hok)). injection Hok as Hok.
  apply (f_equal ak_key_id) in Hok. cbn in Hok. congruence.
Qed.

(** A key read from the table keeps its identifier in a command. *)
Lemma stored_key_id s existing key_id :
  synced s → km_started s.1 = true → active_record s.1 key_id = Ok existing →
  required_text (ak_key_id existing) "key_id" = Ok (ak_key_id existing).
Proof.
  intros Hs Hst (Hin & _ & _)%active_record_spec.
  apply (synced_lists _ Hs Hst) in Hin as [k Hk]. destruct (wf_keys _ (proj1 Hs) _ _ Hk) as [_ Hok].
  by apply api_key_id_text.
Qed.

Lemma option_result_aware (e : option Z) : option_result utc_datetime (Aware <$> e) = Ok e.
Proof. by destruct e. Qed.

Lemma update_command_fields c0 c id name expiry now a :
  required_text id "key_id" = Ok id → strip name = name →
  c0 = {| uk_key_id := id; uk_name := name; uk_expires_at := Aware <$> expiry; uk_updated_at := Aware now;
          uk_audit := a |} →
  UpdateApiKeyCommand_init c0 = Ok c →
  c = {| uk_key_id := id; uk_name := name; uk_expires_at := expiry; uk_updated_at := now; uk_audit := a |}.
Proof.
  intros Hid Hname ->. unfold UpdateApiKeyCommand_init. cbn. rewrite Hid, option_result_aware. cbn.
  intros (n & (u & _ & [= <-])%result_bind_ok & (v & _ & [= <-])%result_bind_ok)%result_bind_ok.
  by rewrite Hname.
Qed.

Lemma update_publishes s key_id name expiry id now now' audit details :
  synced s → strip name = name →
  publishes
    (_ ← require_available s.1;
     existing ← active_record s.1 key_id;
     a ← audit_record id now' audit "api_key.updated" "api_key" (Some (ak_key_id existing)) details;
     c ← UpdateApiKeyCommand_init
           {| uk_key_id := ak_key_id existing; uk_name := name; uk_expires_at := Aware <$> expiry;
              uk_updated_at := Aware now; uk_audit := a |};
     Ok (WUpdateApiKey c, renamed name expiry now existing)) replace_record s.
Proof.
  intros Hs Hname c r t out d' Hch Hx.
  apply result_bind_ok in Hch as (u & Hav%require_available_started & Hch).
  apply result_bind_ok in Hch as (existing & Hex & Hch).
  apply result_bind_ok in Hch as (a & Ha%audit_record_ok & Hch).
  apply result_bind_ok in Hch as (k & Hk & [= <- <-]).
  assert (Hwf : well_formed d').
  { eapply (execute_write_wf t (WUpdateApiKey k)); [|exact Hx|apply Hs]. by eapply update_command_ok. }
  split_and!; [done|done|].
  pose proof (stored_key_id s existing key_id Hs Hav Hex) as Hid.
  pose proof (update_command_fields _ _ _ _ _ _ _ Hid Hname eq_refl Hk) as ->. cbn in Hx.
  apply result_bind_ok in Hx as (d1 & Hup & (d2 & Hau & [= <- _])%result_bind_ok).
  by eapply (replacing_publishes s key_id (renamed name expiry now)).
Qed.

Lemma revoke_publishes s key_id id now now' audit :
  synced s →
  publishes
    (_ ← require_available s.1;
     existing ← active_record s.1 key_id;
     a ← audit_record id now' audit "api_key.revoked" "api_key" (Some (ak_key_id existing))
           [("name", JString (ak_name existing))];
     c ← RevokeApiKeyCommand_init
           {| rk_key_id := ak_key_id existing; rk_revoked_at := Aware now; rk_audit := a |};
     Ok (WRevokeApiKey c, revoked now existing)) replace_record s.
Proof.
  intros Hs c r t out d' Hch Hx.
  apply result_bind_ok in Hch as (u & Hav%require_available_started & Hch).
  apply result_bind_ok in Hch as (existing & Hex & Hch).
  apply result_bind_ok in Hch as (a & Ha%audit_record_ok & Hch).
  apply result_bind_ok in Hch as (k & Hk & [= <- <-]).
  pose proof (stored_key_id s existing key_id Hs Hav Hex) as Hid.
  unfold RevokeApiKeyCommand_init in Hk. cbn in Hk. rewrite Hid in Hk. injection Hk as <-.
  assert (Hwf : well_formed d').
  { eapply (execute_write_wf t (WRevokeApiKey _)); [|exact Hx|apply Hs]. exact Ha. }
  split_and!; [done|done|]. cbn in Hx.
  apply result_bind_ok in Hx as (d1 & Hup & (d2 & Hau & [= <- _])%result_bind_ok).
  by eapply (replacing_publishes s key_id (revoked now)).
Qed.

Lemma append_publishes s id now audit action ty target details :
  synced s →
  publishes
    (_ ← require_available s.1;
     a ← audit_record id now audit action ty target details;
     Ok (WAdminAuditEvent a, tt)) (λ _ m, m) s.
Proof.
  intros Hs c r t out d' Hch Hx.
  apply result_bind_ok in Hch as (u & Hav%require_available_started & Hch).
  apply result_bind_ok in Hch as (a & Ha%audit_record_ok & [= <- <-]).
  assert (Hwf : well_formed d') by (by eapply (execute_write_wf t (WAdminAuditEvent a)); [|exact Hx|apply Hs]).
  split_and!; [done|done|]. cbn in Hx. apply result_bind_ok in Hx as (d1 & Hau%audit_keys & [= <- _]).
  apply load_iff; [done|]. unfold in_table. rewrite Hau. by apply synced_lists.
Qed.

Lemma named_strip name n : named name = Ok n → strip n = n.
Proof. unfold named. intros (u & _ & [= <-])%result_bind_ok. apply strip_idem. Qed.

Lemma new_record_ok id name hash hint expires origin now r :
  new_record id name hash hint expires origin now = Ok r → api_key_ok r.
Proof. unfold new_record. intros (e & _ & Hr)%result_bind_ok. by eapply api_key_init_valid. Qed.

(** ** Histories *)

(** A call of the manager, with its environment. *)
Inductive key_call :=
| Start (running : bool) (w : await_env) (now : Z)
| Create (token key_id name : string) (expires_at : option datetime) (audit : AuditContext) (w : write_env)
| ImportMany (items : list (string * ApiKeyImport)) (audit : AuditContext) (w : write_env)
| Update (key_id name : string) (expires_at : option datetime) (audit : AuditContext) (w : write_env)
| Revoke (key_id : string) (audit : AuditContext) (w : write_env)
| AppendAudit (audit : AuditContext) (action target_type : string) (target_id : option string)
    (details : list (string * json)) (w : write_env).

Definition key_step (s : ApiKeyManager * database) (c : key_call) : ApiKeyManager * database :=
  match c with
  | Start running w now => (start running w now s).1
  | Create token key_id name expires_at audit w => (create token key_id name expires_at audit w s).1
  | ImportMany items audit w => (import_many items audit w s).1
  | Update key_id name expires_at audit w => (update key_id name expires_at audit w s).1
  | Revoke key_id audit w => (revoke key_id audit w s).1
  | AppendAudit audit action ty target details w => (append_audit audit action ty target details w s).1
  end.

Definition key_run (calls : list key_call) (s : ApiKeyManager * database) : ApiKeyManager * database :=
  foldl key_step s calls.

(** No caller is cancelled while the storage works for it. *)
Definition call_answered (c : key_call) : Prop :=
  match c with
  | Start _ w _ => answered_caller w
  | Create _ _ _ _ _ w | ImportMany _ _ w | Update _ _ _ _ w | Revoke _ _ w | AppendAudit _ _ _ _ _ w =>
    answered_caller (we_await w)
  end.

Lemma start_cases running w now s :
  well_formed s.2 →
  let '(s', o) := start running w now s in
  evolves s.2 s'.2 ∧ well_formed s'.2 ∧
  (o = Ok tt ∧ km_started s'.1 = true ∧ load_api_keys s'.2 = Ok (records s'.1) ∨
   (∃ e, o = Raise e) ∧ records s'.1 = records s.1 ∧ km_started s'.1 = km_started s.1 ∧
     (answered_caller w → s'.2 = s.2)).
Proof.
  intros Hwf. unfold start. pose proof (evolves_refl s.2) as Hrefl.
  destruct running; cbn [negb]; [|split_and!; eauto 7]. destruct s as [m0 d]. cbn [fst snd] in *. cbv zeta.
  set (m := {| legacy_hashes := legacy_hashes m0; records := records m0; attached := true;
               km_started := km_started m0 |}).
  destruct (if api_key_bootstrap_complete d then (d, Ok tt)
            else match map_result (λ p, legacy_record now p.1 p.2) (enumerate 1 (legacy_hashes m)) with
                 | Ok legacy => store w (WBootstrapApiKeys legacy now) d
                 | Raise e => (d, Raise e)
                 end) as [d' r] eqn:Hb.
  assert (evolves d d' ∧ well_formed d' ∧ (∀ e, r = Raise e → answered_caller w → d' = d)) as (He & Hd & Hsame).
  { destruct (api_key_bootstrap_complete d); [by injection Hb as <- <-|].
    destruct (map_result _ _) as [legacy|e] eqn:Hl; [|by injection Hb as <- <-].
    assert (command_ok (WBootstrapApiKeys legacy now)) as Hok.
    { apply map_result_ok in Hl. apply Forall_forall. intros x Hx'.
      apply list_elem_of_lookup in Hx' as [i Hi].
      destruct (Forall2_lookup_r _ _ _ _ _ Hl Hi) as ([j h] & _ & Hr). by eapply api_key_init_valid. }
    split_and!; [| |intros e -> Hw; by eapply store_raise]; apply store_any in Hb as [[-> _]|(t & out & Hx)];
      [done|by eapply execute_write_evolves|done|by eapply execute_write_wf]. }
  destruct r as [[]|e]; cbn [fst snd]; [|split_and!; eauto 7].
  unfold reload. cbn [fst snd]. destruct (load_api_keys_lists d' Hd) as (keys & Hk & _). rewrite Hk.
  split_and!; [done..|]. by left.
Qed.

Lemma start_synced running w now s : answered_caller w → synced s → synced (start running w now s).1.
Proof.
  intros Hw [Hwf Hs]. pose proof (start_cases running w now s Hwf) as Hc. destruct (start running w now s) as [s' o].
  destruct Hc as (_ & Hwf' & [(_ & _ & Hl)|(_ & Hr & Hst & Hsame)]); split; try done.
  cbn in *. by rewrite Hr, Hst, (Hsame Hw).
Qed.

Lemma import_items_ok now (items : list (string * ApiKeyImport)) new :
  (_ ← raise_if (bool_decide (items = []) || bool_decide (maximum_import_size < length items)%nat)
         (ValueError ("API key import must contain 1 to " +:+ pretty maximum_import_size +:+ " items"));
   l ← map_result (λ i, record_from_import now i.1 i.2) items;
   _ ← raise_if (negb (bool_decide (NoDup (ak_key_hash <$> l))))
         (DuplicateApiKeyError "import contains duplicate API keys");
   Ok l) = Ok new → Forall api_key_ok new.
Proof.
  intros (u & _ & (l & Hl & (v & _ & [= <-])%result_bind_ok)%result_bind_ok)%result_bind_ok.
  apply map_result_ok in Hl. apply Forall_forall. intros x Hx. apply list_elem_of_lookup in Hx as [i Hi].
  destruct (Forall2_lookup_r _ _ _ _ _ Hl Hi) as ([j h] & _ & Hr). cbn in Hr.
  unfold record_from_import in Hr. destruct (im_raw_key h).
  - apply result_bind_ok in Hr as (y & _ & Hr). by eapply new_record_ok.
  - by eapply new_record_ok.
Qed.

Lemma key_step_synced s c : call_answered c → synced s → synced (key_step s c).
Proof.
  intros Hw Hs. destruct c; cbn [key_step call_answered] in *.
  - by apply start_synced.
  - unfold create. destruct (_ ≫= _) as [r|e] eqn:Hr; [|done].
    apply result_bind_ok in Hr as (h & _ & Hr%new_record_ok).
    pose proof (write_locked_synced (we_await w) _ publish_records s Hw Hs
      (import_publishes s [r] (we_event_id w) (we_audit_now w) audit "api_key.created" (Some (ak_key_id r))
         [("name", JString (ak_name r)); ("expires_at", timestamp_text (ak_expires_at r))] Hs
         (proj2 (Forall_singleton _ _) Hr))) as Hp.
    destruct (write_locked _ _ _ _) as [s' o]. exact Hp.
  - unfold import_many. destruct (_ ≫= _) as [new|e] eqn:Hr; [|done].
    pose proof (import_items_ok _ _ _ Hr) as Hok.
    pose proof (write_locked_synced (we_await w) _ publish_records s Hw Hs
      (import_publishes s new (we_event_id w) (we_audit_now w) audit "api_key.imported" None
         [("count", JInt (Z.of_nat (length new))); ("key_ids", JArray (JString ∘ ak_key_id <$> new))] Hs Hok)) as Hp.
    destruct (write_locked _ _ _ _) as [s' o]. exact Hp.
  - unfold update. destruct (_ ≫= _) as [[n e]|e] eqn:Hr; [|done].
    apply result_bind_ok in Hr as (n' & Hn%named_strip & (e' & _ & [= <- <-])%result_bind_ok).
    pose proof (write_locked_synced (we_await w) _ replace_record s Hw Hs
      (update_publishes s key_id n' e' (we_event_id w) (we_now w) (we_audit_now w) audit
         [("name", JString n'); ("expires_at", timestamp_text e')] Hs Hn)) as Hp.
    destruct (write_locked _ _ _ _) as [s' o]. exact Hp.
  - unfold revoke.
    pose proof (write_locked_synced (we_await w) _ replace_record s Hw Hs
      (revoke_publishes s key_id (we_event_id w) (we_now w) (we_audit_now w) audit Hs)) as Hp.
    destruct (write_locked _ _ _ _) as [s' o]. exact Hp.
  - unfold append_audit. apply write_locked_synced; [done|done|]. by apply append_publishes.
Qed.

Lemma key_run_synced calls : ∀ s, Forall call_answered calls → synced s → synced (key_run calls s).
Proof.
  induction calls as [|c calls IH]; intros s; [done|]. intros [Hc Hcs]%Forall_cons Hs.
  apply IH; [done|]. by apply key_step_synced.
Qed.

Lemma init_synced hashes d : well_formed d → synced (ApiKeyManager_init hashes, d).
Proof. intros Hwf. by split. Qed.

(** ** Authentication *)

Lemma foldl_last {A} (p : A → bool) (l : list A) : ∀ o,
  foldl (λ matched r, if p r then Some r else matched) o l =
  match last (filter (λ r, p r = true) l) with Some r => Some r | None => o end.
Proof.
  induction l as [|x l IH]; intros o; [done|]. cbn [foldl]. rewrite IH, filter_cons.
  destruct (decide (p x = true)) as [Hx|Hx].
  - rewrite Hx, last_cons. by destruct (last _).
  - by apply not_true_is_false in Hx as ->.
Qed.

Lemma authenticate_spec m candidate now d :
  well_formed d → lists api_key_order (in_table d) (records m) →
  ∀ ctx, authenticate_digest m candidate now = Some ctx ↔
    ∃ id r, api_keys d !! id = Some r ∧ ak_key_hash r = candidate ∧ is_active r now = true ∧
      ctx = {| ac_key_id := id; ac_name := ak_name r; ac_digest := candidate;
               ac_expires_at := ak_expires_at r |}.
Proof.
  intros Hwf (_ & _ & Hm) ctx. unfold authenticate_digest. rewrite foldl_last.
  set (hits := filter _ _).
  assert (Hhit : ∀ r, r ∈ hits ↔ in_table d r ∧ ak_key_hash r = candidate ∧ is_active r now = true).
  { intros r. unfold hits. rewrite list_elem_of_filter, andb_true_iff, bool_decide_eq_true, Hm. naive_solver. }
  assert (Hone : ∀ r r', r ∈ hits → r' ∈ hits → r = r').
  { intros r r' [[i Hi] [Hh _]]%Hhit [[j Hj] [Hh' _]]%Hhit.
    assert (i = j) as <- by (eapply (wf_hashes _ Hwf); [done..|congruence]). congruence. }
  split.
  - destruct (last hits) as [r|] eqn:Hl; [|done]. cbn. intros [= <-].
    apply last_elem_of, Hhit in Hl as ([k Hk] & Hh & Ha). destruct (wf_keys _ Hwf _ _ Hk) as [Hid _].
    exists k, r. by rewrite Hid.
  - intros (id & r & Hk & Hh & Ha & ->). destruct (wf_keys _ Hwf _ _ Hk) as [Hid _].
    assert (Hin : r ∈ hits) by (apply Hhit; split; [by exists id|done]).
    destruct (last hits) as [r'|] eqn:Hl.
    + rewrite (Hone r' r) by (done || by apply last_elem_of). cbn. by rewrite Hid.
    + apply last_None in Hl. rewrite Hl in Hin. by apply elem_of_nil in Hin.
Qed.

(** ** A started manager stays started *)

Lemma write_locked_started {A} w (checks : result (WriteCommand * A)) publish s :
  (∀ a m, km_started (publish a m) = km_started m) →
  km_started (write_locked w checks publish s).1.1 = km_started s.1.
Proof.
  intros Hp. destruct s as [m d]. unfold write_locked. destruct checks as [[c a]|e]; [|done].
  by destruct (store w c d) as [d' [[]|e]]; cbn.
Qed.

(** The world after the critical section of a call. *)
Ltac open_write P :=
  match goal with
  | |- context [write_locked ?w ?c ?p ?s] =>
    pose proof (P w c p s) as Hp; destruct (write_locked w c p s) as [t' o]; cbn [fst snd] in Hp |- *
  end.

Lemma key_step_started s c : km_started s.1 = true → km_started (key_step s c).1 = true.
Proof.
  intros Hst. rewrite <- Hst. destruct c; cbn [key_step].
  - unfold start. destruct running; cbn [negb]; [|done]. destruct s as [m0 d]. cbn in Hst. cbv zeta.
    destruct (if api_key_bootstrap_complete d then _ else _) as [d' [u|e]]; [|done].
    unfold reload. cbn [fst snd]. by destruct (load_api_keys d').
  - unfold create. destruct (_ ≫= _) as [r|e]; [|done].
    open_write (@write_locked_started (list ApiKeyRecord)). by apply Hp.
  - unfold import_many. destruct (_ ≫= _) as [r|e]; [|done].
    open_write (@write_locked_started (list ApiKeyRecord)). by apply Hp.
  - unfold update. destruct (_ ≫= _) as [[n x]|e]; [|done].
    open_write (@write_locked_started ApiKeyRecord). by apply Hp.
  - unfold revoke. open_write (@write_locked_started ApiKeyRecord). by apply Hp.
  - unfold append_audit. by apply write_locked_started.
Qed.

Lemma key_run_started calls : ∀ s, km_started s.1 = true → km_started (key_run calls s).1 = true.
Proof. induction calls as [|c calls IH]; intros s Hs; [done|]. by apply IH, key_step_started. Qed.

(** ** Whatever callers are cancelled *)

(** Where a record of the memory comes from after a call. *)
Definition taken (d' : database) (m : ApiKeyManager) (r : ApiKeyRecord) : Prop :=
  r ∈ records m ∨
  (∃ e, e ∈ records m ∧ ak_revoked_at e = None ∧ ak_key_id r = ak_key_id e ∧ ak_key_hash r = ak_key_hash e) ∨
  in_table d' r.

Record moves s s' : Prop := {
  mv_evolves : evolves s.2 s'.2;
  mv_wf : well_formed s'.2;
  mv_records : ∀ r, r ∈ records s'.1 → taken s'.2 s.1 r;
}.

Lemma moves_refl s : well_formed s.2 → moves s s.
Proof. intros Hwf. split; [apply evolves_refl|done|]. intros r Hr. by left. Qed.

Definition traceable {A} (checks : result (WriteCommand * A)) (publish : A → ApiKeyManager → ApiKeyManager) s
    : Prop :=
  ∀ c a now out d', checks = Ok (c, a) → execute_write now c s.2 = Ok (d', out) →
    command_ok c ∧ ∀ r, r ∈ records (publish a s.1) → taken d' s.1 r.

Lemma write_locked_moves {A} w (checks : result (WriteCommand * A)) publish s :
  well_formed s.2 → traceable checks publish s → moves s (write_locked w checks publish s).1.
Proof.
  intros Hwf Ht. destruct s as [m d]. unfold write_locked. destruct checks as [[c a]|e]; [|by apply moves_refl].
  destruct (store w c d) as [d' o] eqn:Hs. apply store_any in Hs as [[-> [e ->]]|(now & out & Hx)]; [by apply moves_refl|].
  destruct (Ht c a now out d' eq_refl Hx) as [Hc Hr].
  pose proof (execute_write_evolves _ _ _ _ _ Hx) as He. pose proof (execute_write_wf _ _ _ _ _ Hc Hx Hwf) as Hwf'.
  destruct o; cbn; split; try done. intros r Hin. by left.
Qed.

Lemma import_traceable s new id now audit action target details :
  Forall api_key_ok new →
  traceable
    (_ ← require_available s.1; _ ← ensure_unique s.1 new;
     a ← audit_record id now audit action "api_key" target details;
     l ← import_records new; Ok (WImportApiKeys l a, l)) publish_records s.
Proof.
  intros Hnew c l t out d' Hch Hx.
  apply result_bind_ok in Hch as (u & _ & (v & _ & (a & Ha%audit_record_ok & Hch)%result_bind_ok)%result_bind_ok).
  apply result_bind_ok in Hch as (l' & (w & _ & [= <-])%result_bind_ok & [= <- <-]). split; [done|]. cbn in Hx.
  apply result_bind_ok in Hx as (d1 & Hf & (d2 & Hau & [= <- _])%result_bind_ok).
  apply import_keys in Hf as (Hm & _ & _). apply audit_keys in Hau. intros r. cbn.
  rewrite sort_rows_perm, elem_of_app. intros [Hr|Hr]; [by left|]. right. right. exists (ak_key_id r).
  rewrite Hau. apply Hm. by right.
Qed.

Lemma replaced_taken m key_id existing (f : ApiKeyRecord → ApiKeyRecord) d' r :
  active_record m key_id = Ok existing →
  ak_key_id (f existing) = ak_key_id existing → ak_key_hash (f existing) = ak_key_hash existing →
  r ∈ records (replace_record (f existing) m) → taken d' m r.
Proof.
  intros (Hin & _ & Ha)%active_record_spec Hid Hh (x & -> & Hx)%list_elem_of_fmap. case_decide; [|by left].
  right. left. by exists existing.
Qed.

Lemma update_traceable s key_id name expiry id now now' audit details :
  traceable
    (_ ← require_available s.1;
     existing ← active_record s.1 key_id;
     a ← audit_record id now' audit "api_key.updated" "api_key" (Some (ak_key_id existing)) details;
     c ← UpdateApiKeyCommand_init
           {| uk_key_id := ak_key_id existing; uk_name := name; uk_expires_at := Aware <$> expiry;
              uk_updated_at := Aware now; uk_audit := a |};
     Ok (WUpdateApiKey c, renamed name expiry now existing)) replace_record s.
Proof.
  intros c r t out d' Hch _.
  apply result_bind_ok in Hch as (u & _ & (existing & Hex & (a & Ha%audit_record_ok & Hch)%result_bind_ok)%result_bind_ok).
  apply result_bind_ok in Hch as (k & Hk & [= <- <-]). split; [by eapply update_command_ok|].
  intros x. by apply replaced_taken with (key_id := key_id).
Qed.

Lemma revoke_traceable s key_id id now now' audit :
  traceable
    (_ ← require_available s.1;
     existing ← active_record s.1 key_id;
     a ← audit_record id now' audit "api_key.revoked" "api_key" (Some (ak_key_id existing))
           [("name", JString (ak_name existing))];
     c ← RevokeApiKeyCommand_init
           {| rk_key_id := ak_key_id existing; rk_revoked_at := Aware now; rk_audit := a |};
     Ok (WRevokeApiKey c, revoked now existing)) replace_record s.
Proof.
  intros c r t out d' Hch _.
  apply result_bind_ok in Hch as (u & _ & (existing & Hex & (a & Ha%audit_record_ok & Hch)%result_bind_ok)%result_bind_ok).
  apply result_bind_ok in Hch as (k & Hk & [= <- <-]). split.
  - unfold RevokeApiKeyCommand_init in Hk. apply result_bind_ok in Hk as (i & _ & Hk). cbn in Hk. by injection Hk as <-.
  - intros x. by apply replaced_taken with (key_id := key_id).
Qed.

Lemma append_traceable s id now audit action ty target details :
  traceable
    (_ ← require_available s.1;
     a ← audit_record id now audit action ty target details;
     Ok (WAdminAuditEvent a, tt)) (λ _ m, m) s.
Proof.
  intros c r t out d' Hch _. apply result_bind_ok in Hch as (u & _ & (a & Ha%audit_record_ok & [= <- <-])%result_bind_ok).
  split; [done|]. intros x Hx. by left.
Qed.

Lemma start_moves running w now s : well_formed s.2 → moves s (start running w now s).1.
Proof.
  intros Hwf. pose proof (start_cases running w now s Hwf) as Hc.
  destruct (start running w now s) as [s' o]. destruct Hc as (He & Hwf' & Hr). split; [done|done|].
  intros r Hin. destruct Hr as [(_ & _ & Hl)|(_ & Hsame & _)]; [|left; by rewrite <- Hsame].
  right. right. apply load_iff in Hl as (_ & _ & Hl); [|done]. by apply Hl.
Qed.

Lemma key_step_moves s c : well_formed s.2 → moves s (key_step s c).
Proof.
  intros Hwf. destruct c; cbn [key_step]; [by apply start_moves|..].
  - unfold create. destruct (_ ≫= _) as [r|e] eqn:Hr; [|by apply moves_refl].
    apply result_bind_ok in Hr as (h & _ & Hr%new_record_ok).
    open_write (@write_locked_moves (list ApiKeyRecord)). apply Hp; [done|]. by apply import_traceable, Forall_singleton.
  - unfold import_many. destruct (_ ≫= _) as [new|e] eqn:Hr; [|by apply moves_refl]. apply import_items_ok in Hr.
    open_write (@write_locked_moves (list ApiKeyRecord)). apply Hp; [done|]. by apply import_traceable.
  - unfold update. destruct (_ ≫= _) as [[n x]|e]; [|by apply moves_refl].
    open_write (@write_locked_moves ApiKeyRecord). apply Hp; [done|]. apply update_traceable.
  - unfold revoke. open_write (@write_locked_moves ApiKeyRecord). apply Hp; [done|]. apply revoke_traceable.
  - unfold append_audit. apply write_locked_moves; [done|]. apply append_traceable.
Qed.

(** The keys in memory are keys of the table, with their digests. *)
Definition traced s : Prop :=
  well_formed s.2 ∧ ∀ r, r ∈ records s.1 → ∃ y, api_keys s.2 !! ak_key_id r = Some y ∧ ak_key_hash y = ak_key_hash r.

Lemma traced_moves s s' : traced s → moves s s' → traced s'.
Proof.
  intros [Hwf Ht] [He Hwf' Hr]. split; [done|].
  assert (∀ e, e ∈ records s.1 → ∃ y, api_keys s'.2 !! ak_key_id e = Some y ∧ ak_key_hash y = ak_key_hash e) as Hkept.
  { intros e (y & Hy & Hh)%Ht. destruct (ev_keys _ _ He _ _ Hy) as (y' & Hy' & Hh' & _). exists y'. split; [done|congruence]. }
  intros r [Hin|[(e & Hin%Hkept & _ & -> & ->)|Hin%in_table_id]]%Hr; [by apply Hkept|done| |done]. by exists r.
Qed.

Lemma key_run_traced calls : ∀ s, traced s → traced (key_run calls s).
Proof.
  induction calls as [|c calls IH]; intros s Hs; [done|]. apply IH. eapply traced_moves; [done|]. apply key_step_moves, Hs.
Qed.

Lemma init_traced hashes d : well_formed d → traced (ApiKeyManager_init hashes, d).
Proof. intros Hwf. split; [done|]. by intros r ?%elem_of_nil. Qed.

(** Since a start that succeeded, of which no later caller was cancelled. *)
Lemma started_synced hashes d0 earlier calls running w now s0 :
  well_formed d0 → Forall call_answered calls →
  start running w now (key_run earlier (ApiKeyManager_init hashes, d0)) = (s0, Ok tt) →
  synced (key_run calls s0) ∧ km_started (key_run calls s0).1 = true.
Proof.
  intros Hwf Hcalls Hstart. pose proof (key_run_traced earlier _ (init_traced hashes d0 Hwf)) as [Hwf1 _].
  pose proof (start_cases running w now _ Hwf1) as Hc. rewrite Hstart in Hc. cbn in Hc.
  destruct Hc as (_ & Hwf0 & [(_ & Hst & Hl)|([e He] & _)]); [|done].
  assert (synced s0) as Hs0 by by split. split; [by apply key_run_synced|by apply key_run_started].
Qed.

(** ** Properties *)

(** C36: the keys in memory are the keys of the database: whatever calls came before a
    start of the manager that succeeded, and whatever calls followed of which no
    caller was cancelled while the storage worked for it, whatever the storage
    refused or rolled back, the records are the ones a restart would read at
    that moment, in the same order.  (A cancelled call can commit without
    publishing; then the memory follows at the next start.)  The first calls
    find a well-formed database. *)
Theorem memory_is_durable (hashes : list string) (d0 : database) (earlier calls : list key_call)
    (running : bool) (w : await_env) (now : Z) (s0 : ApiKeyManager * database)
    (Hwf : well_formed d0) (Hcalls : Forall call_answered calls)
    (Hstart : start running w now (key_run earlier (ApiKeyManager_init hashes, d0)) = (s0, Ok tt)) :
  let s := key_run calls s0 in
  well_formed s.2 ∧ load_api_keys s.2 = Ok (records s.1).
Proof.
  cbv zeta. destruct (started_synced _ _ _ _ _ _ _ _ Hwf Hcalls Hstart) as [[Hwf' Hs] Hst]. split; [done|]. by apply Hs.
Qed.

(** C20: authentication answers from memory exactly what the durable table says: after
    a start of the manager that succeeded, whatever came before it, and any calls
    since of which no caller was cancelled while the storage worked for it, a
    digest is accepted when a stored key has it, is not revoked and has not
    expired, with that key's identity, and in no other case.  The first calls
    find a well-formed database. *)
Theorem authenticate_exact (hashes : list string) (d0 : database) (earlier calls : list key_call)
    (running : bool) (w : await_env) (started_at : Z) (s0 : ApiKeyManager * database) (candidate : string) (now : Z)
    (Hwf : well_formed d0) (Hcalls : Forall call_answered calls)
    (Hstart : start running w started_at (key_run earlier (ApiKeyManager_init hashes, d0)) = (s0, Ok tt)) :
  let s := key_run calls s0 in
  ∀ ctx, authenticate_digest s.1 candidate now = Some ctx ↔
    ∃ id r, api_keys s.2 !! id = Some r ∧ ak_key_hash r = candidate ∧ ak_revoked_at r = None ∧
      (∀ e, ak_expires_at r = Some e → now < e) ∧
      ctx = {| ac_key_id := id; ac_name := ak_name r; ac_digest := candidate;
               ac_expires_at := ak_expires_at r |}.
Proof.
  cbv zeta. intros ctx. destruct (started_synced _ _ _ _ _ _ _ _ Hwf Hcalls Hstart) as [Hs Hst].
  rewrite (authenticate_spec _ _ _ _ (proj1 Hs) (synced_lists _ Hs Hst)).
  unfold is_active. setoid_rewrite andb_true_iff. setoid_rewrite bool_decide_eq_true.
  split.
  - intros (id & r & Hk & Hh & [Hr He] & Hc). exists id, r. split_and!; [done..| |done].
    intros e Hx. rewrite Hx in He. by apply bool_decide_eq_true in He.
  - intros (id & r & Hk & Hh & Hr & He & Hc). exists id, r. split_and!; [done..| |done].
    destruct (ak_expires_at r); [|done]. apply bool_decide_eq_true. by apply He.
Qed.

(** ** Revocation *)

(** The digest [h] of the key [id] is revoked in the table and in memory. *)
Definition gone (h id : string) s : Prop :=
  (∃ y, api_keys s.2 !! id = Some y ∧ ak_key_hash y = h ∧ ak_revoked_at y ≠ None) ∧
  ∀ r, r ∈ records s.1 → ak_key_hash r = h → ak_revoked_at r ≠ None.

Lemma gone_moves h id s s' : gone h id s → moves s s' → gone h id s'.
Proof.
  intros [(y & Hy & Hh & Hrev) Hmem] [He Hwf' Hr].
  destruct (ev_keys _ _ He _ _ Hy) as (y' & Hy' & _ & _ & _ & Hsame). rewrite <- (Hsame Hrev) in Hy'. clear y' Hsame.
  split; [by exists y|]. intros r [Hin|[(e & Hin & Hact & _ & Heq)|[k Hk]]]%Hr Hd; [by apply Hmem|..].
  - rewrite Heq in Hd. by destruct (Hmem e Hin Hd).
  - assert (k = id) as -> by (eapply (wf_hashes _ Hwf'); [done..|congruence]). rewrite Hy' in Hk. by injection Hk as <-.
Qed.

Lemma key_run_gone h id calls : ∀ s, well_formed s.2 → gone h id s → gone h id (key_run calls s).
Proof.
  induction calls as [|c calls IH]; intros s Hwf Hs; [done|]. pose proof (key_step_moves s c Hwf) as Hm.
  apply IH; [apply Hm|]. by eapply gone_moves.
Qed.

Lemma gone_refused h id s now : gone h id s → authenticate_digest s.1 h now = None.
Proof.
  intros [_ Hmem]. unfold authenticate_digest. rewrite foldl_last.
  destruct (last _) as [r|] eqn:Hl; [|done]. exfalso.
  apply last_elem_of, list_elem_of_filter in Hl as [[Hh%bool_decide_eq_true Ha]%andb_true_iff Hin].
  apply (Hmem r Hin); [done|]. unfold is_active in Ha. apply andb_true_iff in Ha as [Ha _]. by apply bool_decide_eq_true in Ha.
Qed.

Lemma traced_key_id s existing : traced s → existing ∈ records s.1 →
  required_text (ak_key_id existing) "key_id" = Ok (ak_key_id existing).
Proof.
  intros [Hwf Ht] (y & Hy & _)%Ht. destruct (wf_keys _ Hwf _ _ Hy) as [Hid Hok]. rewrite <- Hid. by apply api_key_id_text.
Qed.

Lemma revoke_gone key_id audit w s s' r :
  traced s → active_record s.1 key_id = Ok r → revoke key_id audit w s = (s', Ok tt) →
  gone (ak_key_hash r) (ak_key_id r) s'.
Proof.
  intros Hs Hr. unfold revoke, write_locked. destruct s as [m d]. cbn [fst snd] in *.
  destruct (_ ≫= _) as [[c a]|e] eqn:Hch; [|done].
  destruct (store _ c d) as [d' [[]|e]] eqn:Hx; [|done]. intros [= <-].
  apply result_bind_ok in Hch as (u & _ & Hch). rewrite Hr in Hch. cbn in Hch.
  apply result_bind_ok in Hch as (ae & _ & (k & Hk & [= <- <-])%result_bind_ok).
  apply active_record_spec in Hr as (Hin & _ & _).
  pose proof (traced_key_id (m, d) r Hs Hin) as Hid. destruct Hs as [Hwf Ht]. cbn [fst snd] in Hwf, Ht.
  unfold RevokeApiKeyCommand_init in Hk. cbn in Hk. rewrite Hid in Hk. injection Hk as <-.
  apply store_ok in Hx as (t & out & Hx). cbn in Hx.
  apply result_bind_ok in Hx as (d1 & Hup & (d2 & Hau%audit_keys & [= <- _])%result_bind_ok).
  apply update_active_key_inv in Hup as (y & Hy & _ & ->). cbn in Hau, Hy.
  destruct (Ht r Hin) as (y' & Hy' & Hh). rewrite Hy in Hy'. injection Hy' as <-.
  split; cbn [fst snd].
  - exists (revoked (we_now w) y). rewrite Hau. cbn. by rewrite lookup_insert_eq.
  - intros x (z & -> & Hz)%list_elem_of_fmap Hd. case_decide as Hne; [done|]. exfalso. apply Hne. cbn.
    destruct (Ht z Hz) as (yz & Hyz & Hhz). eapply (wf_hashes _ Hwf); [exact Hyz|exact Hy|congruence].
Qed.

(** C18: a revocation is final: once [revoke] has returned, no digest of the revoked
    key authenticates again, whatever is created, imported, updated or
    restarted afterwards, whatever the storage refuses, and whatever callers
    before or after are cancelled while it works for them.  The history begins
    with a new manager over a well-formed database. *)
Theorem revocation_final (hashes : list string) (d0 : database) (calls later : list key_call)
    (key_id : string) (audit : AuditContext) (w : write_env) (r : ApiKeyRecord)
    (s' : ApiKeyManager * database) (now : Z) (Hwf : well_formed d0) :
  let s := key_run calls (ApiKeyManager_init hashes, d0) in
  active_record s.1 key_id = Ok r → revoke key_id audit w s = (s', Ok tt) →
  authenticate_digest (key_run later s').1 (ak_key_hash r) now = None.
Proof.
  cbv zeta. set (s := key_run calls _). intros Hex Hrev.
  pose proof (key_run_traced calls _ (init_traced hashes d0 Hwf)) as Hs. fold s in Hs.
  apply gone_refused with (ak_key_id r), key_run_gone; [|by eapply revoke_gone].
  pose proof (key_step_moves s (Revoke key_id audit w) (proj1 Hs)) as Hm. cbn in Hm. rewrite Hrev in Hm. apply Hm.
Qed.

(** A call that raises has changed neither the memory nor the database. *)
Theorem failed_call_changes_nothing (w : write_env) (s : ApiKeyManager * database) (audit : AuditContext) (e : exn)
    (Hw : answered_caller (we_await w)) :
  (∀ token key_id name expires_at,
     (create token key_id name expires_at audit w s).2 = Raise e →
     (create token key_id name expires_at audit w s).1 = s) ∧
  (∀ items, (import_many items audit w s).2 = Raise e → (import_many items audit w s).1 = s) ∧
  (∀ key_id name expires_at,
     (update key_id name expires_at audit w s).2 = Raise e → (update key_id name expires_at audit w s).1 = s) ∧
  (∀ key_id, (revoke key_id audit w s).2 = Raise e → (revoke key_id audit w s).1 = s).
Proof.
  split_and!.
  - intros token key_id name expires_at. unfold create. destruct (_ ≫= _) as [r|e']; [|done].
    open_write (@write_locked_cases (list ApiKeyRecord)).
    by destruct (Hp Hw) as [(c & a & now & out & d' & _ & _ & -> & ->)|(e' & -> & ->)].
  - intros items. unfold import_many. destruct (_ ≫= _) as [r|e']; [|done].
    open_write (@write_locked_cases (list ApiKeyRecord)).
    by destruct (Hp Hw) as [(c & a & now & out & d' & _ & _ & -> & ->)|(e' & -> & ->)].
  - intros key_id name expires_at. unfold update. destruct (_ ≫= _) as [[n x]|e']; [|done].
    open_write (@write_locked_cases ApiKeyRecord).
    by destruct (Hp Hw) as [(c & a & now & out & d' & _ & _ & -> & ->)|(e' & -> & ->)].
  - intros key_id. unfold revoke. open_write (@write_locked_cases ApiKeyRecord).
    by destruct (Hp Hw) as [(c & a & now & out & d' & _ & _ & -> & ->)|(e' & -> & ->)].
Qed.

End facts.

(** ** Concrete instances *)

#[local] Existing Instance row_engine.

#[local] Instance demo_key_primitives : KeyPrimitives :=
  {| sha256_hex := λ s, String.concat "" (replicate 32 (digits 2 (Z.of_nat (String.length s))));
     uuid5_url := λ s, s |}.

Definition done_at (t : Z) (event_id : string) : write_env :=
  {| we_await := Completed {| se_clock := λ _, t; se_begin := None; se_commit := None |};
     we_now := t; we_audit_now := t; we_public_now := t; we_event_id := event_id |}.

Definition demo_audit : AuditContext := {| at_request_id := "r1"; at_client_ip := "127.0.0.1" |}.

Definition demo_token : string := "0123456789abcdef".
Definition demo_hash : string := "sha256:" +:+ sha256_hex ("qp_" +:+ demo_token).

Definition demo_calls : list key_call :=
  [Start true (we_await (done_at 5 "")) 5;
   Create demo_token "k1" "desk" None demo_audit (done_at 10 "e1")].

(** The last creation is committed although its caller is cancelled; the manager
    is started again, and a second key is created. *)
Definition demo_earlier : list key_call :=
  demo_calls ++
  [Create "a-token-of-20-characters" "k2" "cancelled" None demo_audit
     {| we_await := Cancelled {| se_clock := λ _, 12; se_begin := None; se_commit := None |};
        we_now := 12; we_audit_now := 12; we_public_now := 12; we_event_id := "e3" |}].

Definition demo_restarted : ApiKeyManager * database :=
  (start true (we_await (done_at 15 "")) 15 (key_run demo_earlier (ApiKeyManager_init [], empty_database))).1.

Definition demo_since : list key_call :=
  [Create "another-token-of-some-characters" "k3" "shelf" None demo_audit (done_at 18 "e4")].

Lemma demo_since_answered : Forall call_answered demo_since.
Proof. repeat constructor. Qed.

Lemma demo_started :
  start true (we_await (done_at 15 "")) 15 (key_run demo_earlier (ApiKeyManager_init [], empty_database)) =
  (demo_restarted, Ok tt).
Proof. vm_compute. reflexivity. Qed.

Lemma memory_is_durable_witness :
  let s := key_run demo_since demo_restarted in
  load_api_keys s.2 = Ok (records s.1) ∧ length (records s.1) = 3%nat ∧
  length (records (key_run demo_earlier (ApiKeyManager_init [], empty_database)).1) = 1%nat.
Proof.
  cbv zeta. split; [|split; vm_compute; reflexivity].
  apply (memory_is_durable [] empty_database demo_earlier demo_since true (we_await (done_at 15 "")) 15 demo_restarted
           empty_well_formed demo_since_answered demo_started).
Defined.

Definition demo_context : AuthContext :=
  {| ac_key_id := "k1"; ac_name := "desk"; ac_digest := demo_hash; ac_expires_at := None |}.

Lemma authenticate_exact_witness :
  let s := key_run demo_since demo_restarted in
  authenticate_digest s.1 demo_hash 20 = Some demo_context ∧
  ∃ id r, api_keys s.2 !! id = Some r ∧ ak_key_hash r = demo_hash.
Proof.
  cbv zeta.
  assert (Ha : authenticate_digest (key_run demo_since demo_restarted).1 demo_hash 20 = Some demo_context)
    by (vm_compute; reflexivity).
  pose proof (authenticate_exact [] empty_database demo_earlier demo_since true (we_await (done_at 15 "")) 15
                demo_restarted demo_hash 20 empty_well_formed demo_since_answered demo_started) as Hx. cbv zeta in Hx.
  split; [exact Ha|]. destruct (proj1 (Hx demo_context) Ha) as (id & r & Hk & Hh & _).
  exists id, r. split; [exact Hk|exact Hh].
Defined.

Definition demo_key : ApiKeyRecord :=
  {| ak_key_id := "k1"; ak_name := "desk"; ak_key_hash := demo_hash; ak_key_hint := Some "qp_0123456...cdef";
     ak_created_at := 10; ak_updated_at := 10; ak_expires_at := None; ak_revoked_at := None;
     ak_origin := "generated" |}.

(** Callers are cancelled before and after the revocation. *)
Lemma revocation_final_witness :
  let s := key_run demo_earlier (ApiKeyManager_init [], empty_database) in
  let s' := (revoke "k1" demo_audit (done_at 30 "e2") s).1 in
  let later := [Create demo_token "k4" "desk" None demo_audit
                  {| we_await := Cancelled {| se_clock := λ _, 35; se_begin := None; se_commit := None |};
                     we_now := 35; we_audit_now := 35; we_public_now := 35; we_event_id := "e5" |};
                Start true (we_await (done_at 40 "")) 40] in
  authenticate_digest s.1 (ak_key_hash demo_key) 20 ≠ None ∧
  authenticate_digest (key_run later s').1 (ak_key_hash demo_key) 50 = None.
Proof.
  cbv zeta. split; [vm_compute; discriminate|].
  refine (revocation_final [] empty_database demo_earlier _ "k1" demo_audit
           (done_at 30 "e2") demo_key
           (revoke "k1" demo_audit (done_at 30 "e2") (key_run demo_earlier (ApiKeyManager_init [], empty_database))).1
           50 empty_well_formed _ _).
  - vm_compute. reflexivity.
  - vm_compute. reflexivity.
Defined.

Lemma failed_call_changes_nothing_witness :
  let s := key_run demo_calls (ApiKeyManager_init [], empty_database) in
  (revoke "nobody" demo_audit (done_at 30 "e2") s).2 = Raise (ApiKeyNotFoundError "API key not found") ∧
  (revoke "nobody" demo_audit (done_at 30 "e2") s).1 = s.
Proof.
  cbv zeta. split; [vm_compute; reflexivity|].
  refine (proj2 (proj2 (proj2 (failed_call_changes_nothing (done_at 30 "e2") _ demo_audit
    (ApiKeyNotFoundError "API key not found") I))) "nobody" _).
  vm_compute. reflexivity.
Defined.

(** A revocation whose caller is cancelled while it waits is committed but not
    published: the key authenticates until the manager is started again. *)
Theorem cancelled_revocation_unpublished :
  let s := key_run demo_calls (ApiKeyManager_init [], empty_database) in
  let w := {| we_await := Cancelled {| se_clock := λ _, 30; se_begin := None; se_commit := None |};
              we_now := 30; we_audit_now := 30; we_public_now := 30; we_event_id := "e2" |} in
  let '(s', o) := revoke "k1" demo_audit w s in
  o = Raise CancelledError ∧
  (ak_revoked_at <$> api_keys s'.2 !! "k1") = Some (Some 30) ∧
  is_Some (authenticate_digest s'.1 demo_hash 1000000) ∧
  authenticate_digest (start true (we_await (done_at 40 "")) 40 s').1.1 demo_hash 1000000 = None.
Proof. vm_compute. split_and!; eauto. Qed.
