(* ===== verification/ServiceFacts.v ===== *)
(** * Theorems on the publication service

    What holds of the market state after any run of publications within one
    generation, and what a reader is then served. *)

From S2P Require Import Prelude PyStr PyDecimal PyTime PyState Json Domain PluginApi Registry Market Analytics.
From S2P Require Import Staking Cache Quota StorageRecords Wire Runtime Snapshots Service.

Local Open Scope string_scope.
Local Open Scope list_scope.
Local Open Scope Z_scope.

Section facts.
Context `{ServiceWorld}.

Abbreviation stored st sym := (SnapshotStore.get sw_hash (ds_snapshots st) sym).

(** ** The invariant of a market state *)

(** The entry of a symbol: nothing was published, or the snapshot comes from the
    symbol's last quote or an older one, the cached wire model is its
    projection, and the symbol is complete when its mandatory fields are there. *)
Definition entry_ok (rg : Registry) (st : data_state) (sym : string) : Prop :=
  match stored st sym with
  | None => ds_wire_cache st !! sym = None ∧ sym ∉ ds_complete_symbols st
  | Some snap =>
    ∃ i q threshold,
      canonical_in rg sym = Some i ∧ ds_last_quotes st !! sym = Some q ∧
      pq_symbol (qs_quote snap) = sym ∧ pq_as_of (qs_quote snap) ≤ pq_as_of q ∧
      ds_wire_cache st !! sym =
        Some (snapshot_to_wire snap i (pq_as_of (qs_quote snap)) (is_stale_after_seconds i) threshold) ∧
      (sym ∈ ds_complete_symbols st ↔
       complete_fields i (qs_dividend snap) (qs_estimated_annual_yield snap) = true)
  end.

Record state_ok (rg : Registry) (st : data_state) : Prop := {
  so_store : store_ok sw_hash (ds_snapshots st);
  so_quotes : ∀ sym q, ds_last_quotes st !! sym = Some q → pq_symbol q = sym ∧ is_Some (canonical_in rg sym);
  so_entries : ∀ sym, entry_ok rg st sym;
}.

Lemma canonical_getitem rg sym i : canonical_in rg sym = Some i → getitem rg sym = Ok i.
Proof.
  unfold canonical_in, getitem. destruct (resolve rg sym); [|done]. case_decide; [|done].
  by intros [= ->].
Qed.

Lemma canonical_symbol_eq rg sym i : canonical_in rg sym = Some i → is_symbol i = sym.
Proof.
  unfold canonical_in. destruct (resolve rg sym); [|done]. case_decide; [|done].
  by intros [= ->].
Qed.

(** Fields the entries do not read may change freely. *)
Lemma state_ok_same rg st st' :
  ds_snapshots st' = ds_snapshots st → ds_last_quotes st' = ds_last_quotes st →
  ds_wire_cache st' = ds_wire_cache st → ds_complete_symbols st' = ds_complete_symbols st →
  state_ok rg st → state_ok rg st'.
Proof.
  intros H1 H2 H3 H4 [Hs Hq He]. split; rewrite ?H1, ?H2; [done..|].
  intros sym. specialize (He sym). unfold entry_ok in *. by rewrite H1, H2, H3, H4.
Qed.

Lemma state_ok_accept_quote rg st q :
  is_Some (canonical_in rg (pq_symbol q)) →
  (∀ c, ds_last_quotes st !! pq_symbol q = Some c → pq_as_of c ≤ pq_as_of q) →
  state_ok rg st → state_ok rg (accept_quote q st).
Proof.
  intros Hcan Hold [Hs Hq He]. split; cbn; [done|..].
  - intros sym q'. rewrite lookup_insert. case_decide as E; [|apply Hq].
    intros [= <-]. by subst sym.
  - intros sym. specialize (He sym). unfold entry_ok in *. cbn.
    destruct (stored st sym) as [snap|]; [|done].
    destruct He as (i & q0 & thr & Hi & Hq0 & Hsym & Hle & Hw & Hc).
    destruct (decide (pq_symbol q = sym)) as [<-|Hne].
    + exists i, q, thr. rewrite lookup_insert_eq. specialize (Hold _ Hq0).
      split_and!; [done|done|done|lia|done|done..].
    + exists i, q0, thr. rewrite lookup_insert_ne by done. done.
Qed.

(** Publishing the snapshot of the last quote replaces what the store held. *)
Lemma record_stored rg st i sym snap :
  state_ok rg st → ds_last_quotes st !! sym = Some (qs_quote snap) →
  store_ok sw_hash (ds_snapshots (record_snapshot i sym snap st)) ∧
  ∀ sym', stored (record_snapshot i sym snap st) sym' =
    if decide (sym' = sym) then Some snap else stored st sym'.
Proof.
  intros [Hs Hq He] Hlast. destruct (Hq _ _ Hlast) as [Hsym _].
  destruct (publish_lookup sw_hash (ds_snapshots st) snap Hs) as (Hs' & _ & Hget).
  split; [done|]. intros sym'. cbn. rewrite Hget. unfold SnapshotStore.snapshot_symbol.
  rewrite Hsym. destruct (decide (sym' = sym)) as [->|Hne].
  - rewrite decide_True; [done|]. split; [done|]. unfold supersedes.
    specialize (He sym). unfold entry_ok in He. destruct (stored st sym) as [c|]; [|done].
    destruct He as (i' & q' & thr & _ & Hq' & _ & Hle & _). apply bool_decide_eq_true.
    unfold SnapshotStore.snapshot_as_of. rewrite Hlast in Hq'. by injection Hq' as <-.
  - rewrite decide_False; [done|]. by intros [-> _].
Qed.

(** The completeness bookkeeping of one rebuild. *)
Lemma elem_of_completed (b : bool) (sym sym' : string) (l : gset string) :
  sym' ∈ (if b then {[sym]} ∪ l else l ∖ {[sym]}) ↔ if decide (sym' = sym) then b = true else sym' ∈ l.
Proof. destruct b; case_decide; set_solver. Qed.

Lemma state_ok_record rg st i sym snap :
  state_ok rg st → canonical_in rg sym = Some i → ds_last_quotes st !! sym = Some (qs_quote snap) →
  state_ok rg (record_snapshot i sym snap st).
Proof.
  intros Hok Hi Hlast. destruct (record_stored rg st i sym snap Hok Hlast) as [Hs' Hget].
  destruct Hok as [Hs Hq He]. destruct (Hq _ _ Hlast) as [Hsym _].
  split; [done|done|]. intros sym'. specialize (He sym'). unfold entry_ok in *. rewrite Hget.
  destruct (decide (sym' = sym)) as [->|Hne].
  - exists i, (qs_quote snap), (ds_yield_stale_after st !! sym). cbn. rewrite lookup_insert_eq.
    split_and!; [done|done|done|lia|done|]. by rewrite elem_of_completed, decide_True.
  - cbn. rewrite lookup_insert_ne by done.
    set (l := if complete_fields _ _ _ then _ else _).
    assert (sym' ∈ l ↔ sym' ∈ ds_complete_symbols st) as Hiff
      by (unfold l; by rewrite elem_of_completed, decide_False).
    destruct (stored st sym') as [c|]; [|by rewrite Hiff].
    destruct He as (i' & q' & thr & ?). exists i', q', thr. by rewrite Hiff.
Qed.

(** ** The invariant of the service *)

Context (g : RuntimeGeneration) (loc : nat).
Abbreviation rg := (gn_registry g).

Definition inv (s : Service) : Prop :=
  capture_generation s = g ∧ gn_data_state g = Some loc ∧ sv_bound s = loc ∧
  ∃ st, state_at s loc = Some st ∧ state_ok rg st.

(** No snapshot is lost or replaced by one of an older quote. *)
Definition advances (st st' : data_state) : Prop :=
  ∀ sym snap, stored st sym = Some snap →
    ∃ snap', stored st' sym = Some snap' ∧ pq_as_of (qs_quote snap) ≤ pq_as_of (qs_quote snap').

Lemma advances_same st st' : ds_snapshots st' = ds_snapshots st → advances st st'.
Proof. intros E sym snap Hs. exists snap. by rewrite E. Qed.

Lemma advances_trans st1 st2 st3 : advances st1 st2 → advances st2 st3 → advances st1 st3.
Proof.
  intros H1 H2 sym snap Hs. destruct (H1 _ _ Hs) as (s2 & Hs2 & Hle).
  destruct (H2 _ _ Hs2) as (s3 & Hs3 & Hle'). exists s3. split; [done|lia].
Qed.

Lemma advances_record st i sym snap :
  state_ok rg st → ds_last_quotes st !! sym = Some (qs_quote snap) →
  advances st (record_snapshot i sym snap st).
Proof.
  intros Hok Hlast sym' c Hc. destruct (record_stored rg st i sym snap Hok Hlast) as [_ Hget].
  rewrite Hget. case_decide as E; [|by exists c]. subst sym'. exists snap. split; [done|].
  pose proof (so_entries _ _ Hok sym) as He. unfold entry_ok in He. rewrite Hc in He.
  destruct He as (i' & q' & thr & _ & Hq' & _ & Hle & _). rewrite Hlast in Hq'. by injection Hq' as <-.
Qed.

(** The invariant, with progress since a state [st0]. *)
Definition good (st0 : data_state) (s : Service) : Prop :=
  inv s ∧ ∀ st, state_at s loc = Some st → advances st0 st.

Lemma good_same st0 s s' :
  sv_generations s' = sv_generations s → sv_states s' = sv_states s → sv_bound s' = sv_bound s →
  good st0 s → good st0 s'.
Proof.
  intros H1 H2 H3 [(Hg & Hl & Hb & st & Hst & Hok) Ha]. unfold good, inv, capture_generation, state_at in *.
  rewrite H1, H2, H3. eauto 10.
Qed.

Lemma good_write st0 f s :
  (∀ st, state_at s loc = Some st → state_ok rg st → state_ok rg (f st) ∧ advances st (f st)) →
  good st0 s → good st0 (set_sv_states (alter f loc (sv_states s)) s).
Proof.
  intros Hf [(Hg & Hl & Hb & st & Hst & Hok) Ha]. destruct (Hf _ Hst Hok) as [Hok' Hadv].
  assert (state_at (set_sv_states (alter f loc (sv_states s)) s) loc = Some (f st)) as Hat.
  { unfold state_at in *. cbn. by rewrite list_lookup_alter_eq, Hst. }
  split; [split_and!; [done..|by exists (f st)]|].
  intros st'. rewrite Hat. intros [= <-]. eapply advances_trans; [by apply Ha|done].
Qed.

Lemma read_state_at s st {A} (f : data_state → A) :
  state_at s loc = Some st → read_state loc f s = (s, Ok (f st)).
Proof. intros E. unfold read_state, gets. by rewrite E. Qed.

Lemma wp_read {A} s st (f : data_state → A) (Q : Service → result A → Prop) :
  state_at s loc = Some st → Q s (Ok (f st)) → wp (read_state loc f) Q s.
Proof. intros Hst Hq. unfold wp. by rewrite (read_state_at _ _ _ Hst). Qed.

(** ** What the steps do *)

Lemma persist_fields v s :
  let s' := (persist v s).1 in
  sv_generations s' = sv_generations s ∧ sv_states s' = sv_states s ∧ sv_bound s' = sv_bound s ∧
  sv_history s' = sv_history s ∧ (persist v s).2 = Ok tt.
Proof. unfold persist, modify. cbn. by destruct (sv_storage s). Qed.

Lemma good_persist st0 v : keeps (good st0) (persist v).
Proof. intros s. destruct (persist_fields v s) as (H1 & H2 & H3 & _). by apply (good_same st0 _ _ H1). Qed.

Lemma good_persist_yield st0 m t : keeps (good st0) (persist_yield_metric m t).
Proof.
  unfold persist_yield_metric. destruct (yield_recordable m); [apply good_persist|].
  apply keeps_modify. intros s. by apply good_same.
Qed.

Lemma good_history_add st0 p : keeps (good st0) (history_add p).
Proof.
  intros s Hs. unfold history_add. destruct (HistoryCache.add _ _); [|done]. revert Hs. by apply good_same.
Qed.

Lemma good_history_load st0 ps : keeps (good st0) (history_load ps).
Proof.
  intros s Hs. unfold history_load. destruct (HistoryCache.load _ _); [|done]. revert Hs. by apply good_same.
Qed.

Lemma good_references st0 sym t : keeps (good st0) (history_change_references sym t).
Proof.
  intros s Hs. unfold history_change_references.
  destruct (HistoryCache.change_references _ _ _) as [[h refs]|]; [|done]. revert Hs. by apply good_same.
Qed.

(** The market states, the generation and the binding did not change. *)
Definition same_core (s s' : Service) : Prop :=
  sv_generations s' = sv_generations s ∧ sv_states s' = sv_states s ∧ sv_bound s' = sv_bound s.

(** The outcomes of [rebuild] from a state [st]. *)
Inductive rebuilt (sym : string) (s : Service) (st : data_state) : Service → result unit → Prop :=
| rebuilt_unchanged s' r :
    same_core s s' → (r = Ok tt → ds_last_quotes st !! sym = None) → rebuilt sym s st s' r
| rebuilt_snapshot s' i snap :
    getitem rg sym = Ok i → ds_last_quotes st !! sym = Some (qs_quote snap) →
    rebuilt_dividend i (ds_dividends st !! sym) (qs_quote snap) = Ok (qs_dividend snap) →
    rebuilt_yield i (ds_dividends st !! sym) (ds_yield_metrics st !! sym) (qs_quote snap) =
      Ok (qs_estimated_annual_yield snap) →
    same_core (set_sv_states (alter (record_snapshot i sym snap) loc (sv_states s)) s) s' →
    rebuilt sym s st s' (Ok tt).

Lemma references_core sym t s : same_core s (history_change_references sym t s).1.
Proof.
  unfold history_change_references. by destruct (HistoryCache.change_references _ _ _) as [[h refs]|].
Qed.

Lemma persist_core v s : same_core s (persist v s).1.
Proof. destruct (persist_fields v s) as (? & ? & ? & _). done. Qed.

Lemma same_core_trans s1 s2 s3 : same_core s1 s2 → same_core s2 s3 → same_core s1 s3.
Proof. unfold same_core. intros (? & ? & ?) (? & ? & ?). split_and!; congruence. Qed.

Lemma rebuild_spec s st sym persisted additional published_at :
  state_at s loc = Some st →
  let m := rebuild sym persisted rg loc additional published_at s in rebuilt sym s st m.1 m.2.
Proof.
  intros Hst. cbv zeta. change (wp (rebuild sym persisted rg loc additional published_at) (rebuilt sym s st) s).
  unfold rebuild. do 3 (apply wp_bind, (wp_read _ _ _ _ Hst); cbv beta iota).
  destruct (ds_last_quotes st !! sym) as [q|] eqn:Hq; [|by apply rebuilt_unchanged].
  wp_step. wp_step. destruct (getitem rg sym) as [i|] eqn:Hi; [|by apply rebuilt_unchanged].
  wp_step. wp_step. destruct (rebuilt_dividend _ _ _) as [dividend|] eqn:Hd; [|by apply rebuilt_unchanged].
  wp_step. wp_step. destruct (rebuilt_yield _ _ _ _) as [annual|] eqn:Hy; [|by apply rebuilt_unchanged].
  apply wp_bind. set (K := λ s' r, _).
  assert (Hk : ∀ s1 changes, same_core s s1 → K s1 changes).
  { intros s1 [changes|] Hs1; unfold K; [|by apply rebuilt_unchanged].
    apply wp_bind, wp_lift. cbn. apply wp_bind, wp_modify.
    set (snap := {| qs_quote := q |}). apply wp_when.
    assert (rebuilt sym s st
      (set_sv_states (alter (record_snapshot i sym snap) loc (sv_states s1)) s1) (Ok tt)) as Hr.
    { apply (rebuilt_snapshot _ _ _ _ i snap); [done..|]. destruct Hs1 as (E1 & E2 & E3).
      unfold same_core. cbn. by rewrite E1, E2, E3. }
    destruct persisted; [|done]. inversion_clear Hr as [? ? Hc Hn|? ? ? ? ? ? ? Hc].
    - specialize (Hn eq_refl). congruence.
    - unfold wp. destruct (persist_fields (SavedSnapshot snap)
        (set_sv_states (alter (record_snapshot i sym snap) loc (sv_states s1)) s1)) as (P1 & P2 & P3 & _ & P5).
      rewrite P5. eapply rebuilt_snapshot; [done..|]. eapply same_core_trans; [done|by apply persist_core]. }
  destruct (decide (additional = [])).
  - apply wp_bind. unfold wp at 1. pose proof (references_core sym (pq_as_of q) s) as Hc.
    destruct (history_change_references _ _ _) as [s1 [refs|]]; cbn in *.
    + by apply wp_lift, (Hk s1).
    + by apply rebuilt_unchanged.
  - wp_step. wp_step. wp_step. by apply Hk.
Qed.

Lemma good_core st0 s s' : same_core s s' → good st0 s → good st0 s'.
Proof. intros (? & ? & ?). by apply good_same. Qed.

(** The state at the location in a good service. *)
Lemma good_state st0 s : good st0 s → ∃ st, state_at s loc = Some st ∧ state_ok rg st.
Proof. by intros [(_ & _ & _ & st & ? & ?) _]; eauto. Qed.

Lemma good_rebuild st0 sym persisted additional published_at :
  keeps (good st0) (rebuild sym persisted rg loc additional published_at).
Proof.
  intros s Hs. destruct (good_state _ _ Hs) as (st & Hst & Hok).
  pose proof (rebuild_spec s st sym persisted additional published_at Hst) as Hr. cbv zeta in Hr.
  destruct Hr as [s' r Hc _|s' i snap Hi Hlast _ _ Hc]; [by eapply good_core|].
  eapply good_core; [exact Hc|]. apply good_write; [|done]. intros st' Hst' Hok'.
  rewrite Hst in Hst'. injection Hst' as <-.
  destruct (so_quotes _ _ Hok _ _ Hlast) as [_ [i' Hcan]].
  pose proof (canonical_getitem _ _ _ Hcan) as Hi'. rewrite Hi in Hi'. injection Hi' as ->.
  split; [by apply state_ok_record|by eapply advances_record].
Qed.

Lemma good_same_fields st0 (f : data_state → data_state) :
  (∀ st, ds_snapshots (f st) = ds_snapshots st ∧ ds_last_quotes (f st) = ds_last_quotes st ∧
         ds_wire_cache (f st) = ds_wire_cache st ∧ ds_complete_symbols (f st) = ds_complete_symbols st) →
  keeps (good st0) (write_state loc f).
Proof.
  intros Hf s. apply good_write. intros st _ Hok. destruct (Hf st) as (? & ? & ? & ?).
  split; [by eapply state_ok_same|by apply advances_same].
Qed.

Lemma good_pure st0 {A} (m : comp Service A) : (∀ s, (m s).1 = s) → keeps (good st0) m.
Proof. apply keeps_pure. Qed.

Lemma good_update_aggregate st0 p : keeps (good st0) (update_aggregate p loc).
Proof.
  apply keeps_bind; [by apply good_pure|]. intros current.
  apply keeps_bind; [by apply good_pure|]. intros a.
  apply keeps_bind; [by apply good_same_fields|]. intros []. by apply good_pure.
Qed.

Lemma good_finish_history st0 points persisted published_at :
  keeps (good st0) (finish_history_publication points persisted rg loc published_at).
Proof.
  apply keeps_bind; [apply keeps_when, good_persist|]. intros [].
  apply keeps_for_each. intros sym. apply good_rebuild.
Qed.

(** A publication is fenced off by the identity of another generation. *)
Definition fenced (generation_id : option string) : bool :=
  match generation_id with
  | Some id => bool_decide (gn_generation_id g ≠ id)
  | None => false
  end.

Lemma context_spec generation_id s :
  inv s →
  publication_context generation_id s =
    (s, Ok (if fenced generation_id then None else Some (g, loc))).
Proof.
  intros (Hg & Hl & _ & st & Hst & _). unfold publication_context, mbind, comp_bind, gets.
  rewrite Hg. fold (fenced generation_id). destruct (fenced generation_id); [done|].
  unfold state_for_generation. by rewrite Hl, decide_True by (by rewrite Hst).
Qed.

(** A publication in the context of the current generation. *)
Lemma wp_context {A} generation_id (k : option (RuntimeGeneration * nat) → comp Service A)
    (Q : Service → result A → Prop) s :
  inv s → wp (k (if fenced generation_id then None else Some (g, loc))) Q s →
  wp (publication_context generation_id ≫= k) Q s.
Proof. intros Hs Hk. apply wp_bind. unfold wp at 1. by rewrite context_spec. Qed.

Lemma inv_current s : inv s → is_generation_current s (Some (gn_generation_id g)) = true.
Proof.
  intros (Hg & _). unfold is_generation_current, is_current. apply bool_decide_eq_true.
  unfold capture_generation, capture in Hg. by rewrite Hg.
Qed.

Lemma wp_keeps {A} (I : Service → Prop) (m : comp Service A) s :
  keeps I m → I s → wp m (λ s' _, I s') s.
Proof. intros Hm. apply Hm. Qed.

(** ** Publications keep the invariant *)

Lemma good_persist_point st0 point : keeps (good st0) (persist_point point loc).
Proof.
  apply keeps_bind; [apply good_persist|]. intros [].
  apply keeps_bind; [apply good_update_aggregate|]. intros a. apply good_persist.
Qed.

(** The state once a quote that is not older than the last one is accepted. *)
Lemma good_accept st0 s st q :
  good st0 s → state_at s loc = Some st → is_Some (canonical_in rg (pq_symbol q)) →
  (∀ c, ds_last_quotes st !! pq_symbol q = Some c → pq_as_of c ≤ pq_as_of q) →
  good st0 (set_sv_states (alter (accept_quote q) loc (sv_states s)) s).
Proof.
  intros Hs Hst Hcan Hold. apply good_write; [|done]. intros st' Hst' Hok.
  rewrite Hst in Hst'. injection Hst' as <-.
  split; [by apply state_ok_accept_quote|by apply advances_same].
Qed.

Lemma good_store_quote st0 s st q persisted published_at :
  good st0 s → state_at s loc = Some st → is_Some (canonical_in rg (pq_symbol q)) →
  (∀ c, ds_last_quotes st !! pq_symbol q = Some c → pq_as_of c ≤ pq_as_of q) →
  good st0 (store_quote q persisted rg loc published_at s).1.
Proof.
  intros Hs Hst Hcan Hold.
  change (wp (store_quote q persisted rg loc published_at) (λ s' _, good st0 s') s).
  apply wp_bind, wp_modify. cbv beta iota. eapply (wp_keeps (good st0)); [|by eapply good_accept].
  apply keeps_bind; [by apply good_pure|]. intros point.
  apply keeps_bind; [apply good_history_add|]. intros [].
  apply keeps_bind; [apply good_rebuild|]. intros [].
  apply keeps_bind; [apply keeps_when, good_persist_point|]. intros []. by apply good_pure.
Qed.

(** [publish_quote] either leaves the service alone or stores the quote. *)
Lemma publish_quote_cases st0 s q persisted generation_id now published_at :
  good st0 s →
  let m := publish_quote q persisted generation_id now published_at s in
  (m.1 = s ∧ m.2 ≠ Ok true) ∨
  (∃ st i, state_at s loc = Some st ∧ canonical_in rg (pq_symbol q) = Some i ∧
     fenced generation_id = false ∧ pq_as_of q ≤ future_limit now ∧
     (∀ c, ds_last_quotes st !! pq_symbol q = Some c → pq_as_of c ≤ pq_as_of q) ∧
     m = store_quote q persisted rg loc published_at s).
Proof.
  intros Hs. destruct (good_state _ _ Hs) as (st & Hst & Hok). cbv zeta.
  rewrite (surjective_pairing (publish_quote _ _ _ _ _ _)). cbn [fst snd].
  set (Q := λ s' r, (s' = s ∧ r ≠ Ok true) ∨ ∃ st i, state_at s loc = Some st ∧
     canonical_in rg (pq_symbol q) = Some i ∧ fenced generation_id = false ∧
     pq_as_of q ≤ future_limit now ∧
     (∀ c, ds_last_quotes st !! pq_symbol q = Some c → pq_as_of c ≤ pq_as_of q) ∧
     (s', r) = store_quote q persisted rg loc published_at s).
  change (wp (publish_quote q persisted generation_id now published_at) Q s).
  apply wp_context; [apply Hs|]. destruct (fenced generation_id) eqn:Hf; [by left|]. cbv zeta.
  destruct (canonical_in rg (pq_symbol q)) as [i|] eqn:Hcan; [|by left].
  wp_step. wp_step. unfold raise_if. case_bool_decide as Hfut; [by left|].
  apply wp_bind, (wp_read _ _ _ _ Hst). cbv iota beta.
  destruct (match ds_last_quotes st !! pq_symbol q with Some _ => _ | None => _ end) eqn:Hold; [by left|].
  apply wp_bind, wp_gets. rewrite (inv_current s) by apply Hs. cbn [negb]. right.
  exists st, i. split_and!; [done..|lia| |by rewrite <- surjective_pairing].
  intros c Hc. rewrite Hc in Hold. apply bool_decide_eq_false in Hold. lia.
Qed.

Lemma good_publish_quote st0 q persisted generation_id now published_at :
  keeps (good st0) (publish_quote q persisted generation_id now published_at).
Proof.
  intros s Hs. destruct (publish_quote_cases st0 s q persisted generation_id now published_at Hs)
    as [[-> _]|(st & i & Hst & Hcan & _ & _ & Hold & ->)]; [done|].
  eapply good_store_quote; [done..| |done]. by rewrite Hcan.
Qed.

Lemma good_publish_history st0 points persisted generation_id now published_at :
  keeps (good st0) (publish_history points persisted generation_id now published_at).
Proof.
  intros s Hs.
  change (wp (publish_history points persisted generation_id now published_at) (λ s' _, good st0 s') s).
  apply wp_context; [apply Hs|]. destruct (fenced generation_id); [done|]. cbv zeta.
  wp_step. wp_step. destruct (validate_history_timestamps _ _ _); [|done].
  wp_step. eapply wp_mono; [|apply (wp_keeps _ _ _ (good_history_load st0 points) Hs)].
  intros s1 [u|e] Hs1; [|done]. apply wp_bind, wp_gets. rewrite (inv_current s1) by apply Hs1.
  eapply (wp_keeps (good st0)); [|done].
  apply keeps_bind; [apply good_finish_history|]. intros []. by apply good_pure.
Qed.

Lemma good_history_end st0 points persisted published_at :
  keeps (good st0) (publish_history_end points persisted g loc published_at).
Proof.
  intros s Hs. change (wp (publish_history_end points persisted g loc published_at) (λ s' _, good st0 s') s).
  apply wp_bind, wp_gets. rewrite (inv_current s) by apply Hs.
  eapply (wp_keeps (good st0)); [|done].
  apply keeps_bind; [apply good_finish_history|]. intros []. by apply good_pure.
Qed.

Lemma good_publish_dividend st0 e persisted generation_id published_at :
  keeps (good st0) (publish_dividend e persisted generation_id published_at).
Proof.
  intros s Hs.
  change (wp (publish_dividend e persisted generation_id published_at) (λ s' _, good st0 s') s).
  apply wp_context; [apply Hs|]. destruct (fenced generation_id); [done|]. cbv zeta.
  destruct (negb _); [done|]. destruct (bool_decide (de_event_type e ≠ _)); [done|].
  destruct (good_state _ _ Hs) as (st & Hst & _). apply wp_bind, (wp_read _ _ _ _ Hst). cbv iota beta.
  destruct (match ds_dividends st !! _ with Some _ => _ | None => _ end); [done|].
  apply wp_bind, wp_gets. rewrite (inv_current s) by apply Hs.
  eapply (wp_keeps (good st0)); [|done].
  apply keeps_bind; [by apply good_same_fields|]. intros [].
  apply keeps_bind; [apply good_rebuild|]. intros [].
  apply keeps_bind; [|by intros []; apply good_pure]. apply keeps_when, good_persist.
Qed.

Lemma good_publish_yield st0 m persisted generation_id now published_at :
  keeps (good st0) (publish_yield_metric m persisted generation_id now published_at).
Proof.
  intros s Hs.
  change (wp (publish_yield_metric m persisted generation_id now published_at) (λ s' _, good st0 s') s).
  apply wp_context; [apply Hs|]. destruct (fenced generation_id); [done|]. cbv zeta.
  destruct (negb _); [done|]. apply wp_bind, wp_gets. cbv iota beta.
  destruct (good_state _ _ Hs) as (st & Hst & _). do 2 (apply wp_bind, (wp_read _ _ _ _ Hst); cbv iota beta).
  destruct (match ds_yield_metrics st !! _ with Some _ => _ | None => _ end); [done|].
  apply wp_bind, wp_gets. rewrite (inv_current s) by apply Hs.
  eapply (wp_keeps (good st0)); [|done].
  apply keeps_bind; [by apply good_same_fields|]. intros [].
  apply keeps_bind; [apply good_rebuild|]. intros [].
  apply keeps_bind; [|by intros []; apply good_pure]. apply keeps_when, good_persist_yield.
Qed.

Lemma good_mark_failed st0 symbols generation_id :
  keeps (good st0) (mark_source_failed symbols generation_id).
Proof.
  intros s Hs. change (wp (mark_source_failed symbols generation_id) (λ s' _, good st0 s') s).
  apply wp_context; [apply Hs|]. destruct (fenced generation_id); [done|]. cbv zeta.
  apply wp_bind, wp_gets. rewrite (inv_current s) by apply Hs.
  eapply (wp_keeps (good st0)); [|done].
  apply keeps_bind; [by apply good_same_fields|]. intros []. by apply good_pure.
Qed.

Lemma restore_folds {A} (f : data_state → A → data_state) l :
  (∀ st a, ds_snapshots (f st a) = ds_snapshots st ∧ ds_last_quotes (f st a) = ds_last_quotes st ∧
           ds_wire_cache (f st a) = ds_wire_cache st ∧
           ds_complete_symbols (f st a) = ds_complete_symbols st) →
  ∀ st, ds_snapshots (foldl f st l) = ds_snapshots st ∧
        ds_last_quotes (foldl f st l) = ds_last_quotes st ∧
        ds_wire_cache (foldl f st l) = ds_wire_cache st ∧
        ds_complete_symbols (foldl f st l) = ds_complete_symbols st.
Proof.
  intros Hf. induction l as [|a l IH]; intros st; [done|]. cbn.
  destruct (IH (f st a)) as (-> & -> & -> & ->). apply Hf.
Qed.

Lemma good_apply_restored st0 r now published_at :
  keeps (good st0) (apply_restored_state r now published_at).
Proof.
  intros s Hs. change (wp (apply_restored_state r now published_at) (λ s' _, good st0 s') s).
  unfold apply_restored_state. apply wp_bind, wp_gets. cbv iota beta. generalize (is_active_symbol s). intros active.
  apply wp_bind, wp_gets. assert (sv_bound s = loc) as -> by apply Hs. cbv iota beta.
  eapply (wp_keeps (good st0)); [|done]. clear -H.
  apply keeps_bind; [by apply good_pure|]. intros se.
  apply keeps_bind; [apply keeps_when, good_history_load|]. intros [].
  apply keeps_bind.
  { apply good_same_fields, restore_folds. intros st a. by destruct (active _). }
  intros []. apply keeps_bind.
  { apply good_same_fields, restore_folds. intros st a. by destruct (active _). }
  intros []. apply keeps_bind.
  { apply keeps_when, keeps_modify. intros s. by apply good_same. }
  intros []. apply keeps_for_each. intros q. destruct (active _); [|by apply good_pure].
  apply keeps_bind; [apply good_publish_quote|]. intros b. by apply good_pure.
Qed.

(** ** Runs *)

(** What happens to the service while its generation stays: publications, the
    two halves of an asynchronous history, restores, and the completion of
    persistence tasks. *)
Inductive publication :=
| PubQuote (q : ProviderQuote) (persisted : bool) (generation_id : option string) (now published_at : Z)
| PubHistory (points : list PricePoint) (persisted : bool) (generation_id : option string)
    (now published_at : Z)
| PubHistoryLoaded (points : list PricePoint)
| PubHistoryEnd (points : list PricePoint) (persisted : bool) (published_at : Z)
| PubDividend (e : DividendEvent) (persisted : bool) (generation_id : option string) (published_at : Z)
| PubYield (m : YieldMetric) (persisted : bool) (generation_id : option string) (now published_at : Z)
| PubSourceFailed (symbols : list string) (generation_id : option string)
| PubRestored (r : restored_market) (now published_at : Z)
| PubPersistenceDone (failed : bool).

Definition publish (p : publication) (s : Service) : Service :=
  match p with
  | PubQuote q b gid now pub => (publish_quote q b gid now pub s).1
  | PubHistory ps b gid now pub => (publish_history ps b gid now pub s).1
  | PubHistoryLoaded ps => (history_load ps s).1
  | PubHistoryEnd ps b pub => (publish_history_end ps b g loc pub s).1
  | PubDividend e b gid pub => (publish_dividend e b gid pub s).1
  | PubYield m b gid now pub => (publish_yield_metric m b gid now pub s).1
  | PubSourceFailed syms gid => (mark_source_failed syms gid s).1
  | PubRestored r now pub => (apply_restored_state r now pub s).1
  | PubPersistenceDone b => (persistence_done b s).1
  end.

Definition publish_all (l : list publication) (s : Service) : Service := foldl (λ s p, publish p s) s l.

Lemma good_publish st0 p s : good st0 s → good st0 (publish p s).
Proof.
  destruct p; cbn [publish].
  - apply good_publish_quote.
  - apply good_publish_history.
  - apply good_history_load.
  - apply good_history_end.
  - apply good_publish_dividend.
  - apply good_publish_yield.
  - apply good_mark_failed.
  - apply good_apply_restored.
  - apply keeps_when, keeps_modify. intros s'. by apply good_same.
Qed.

Lemma good_publish_all st0 l : ∀ s, good st0 s → good st0 (publish_all l s).
Proof. induction l as [|p l IH]; intros s Hs; [done|]. by apply IH, good_publish. Qed.

Lemma good_here s st : inv s → state_at s loc = Some st → good st s.
Proof.
  intros Hs Hst. split; [done|]. intros st'. rewrite Hst. intros [= <-]. by apply advances_same.
Qed.

Lemma inv_publish_all l s : inv s → inv (publish_all l s).
Proof.
  intros Hs. pose proof Hs as (_ & _ & _ & st & Hst & _). by apply (good_publish_all st l s), good_here.
Qed.

(** A service that has just been built for a registry. *)
Definition starts (s : Service) : Prop :=
  capture_generation s = g ∧ gn_data_state g = Some loc ∧ sv_bound s = loc ∧
  state_at s loc = Some fresh_data_state.

Lemma state_ok_fresh rg' : state_ok rg' fresh_data_state.
Proof.
  assert (∀ sym, SnapshotStore.get sw_hash (ds_snapshots fresh_data_state) sym = None) as Hget.
  { intros sym. unfold SnapshotStore.get.
    destruct (SnapshotStore.shards _ !! _) as [m|] eqn:E; [|done]. cbn.
    apply lookup_replicate in E as [-> _]. done. }
  split; [split|done|].
  - cbn. lia.
  - intros i shard sym q E. apply lookup_replicate in E as [-> _]. done.
  - intros sym. unfold entry_ok. rewrite Hget. split; [done|]. set_solver.
Qed.

Lemma inv_starts s : starts s → inv s.
Proof. intros (? & ? & ? & ?). split_and!; [done..|]. exists fresh_data_state. split; [done|]. apply state_ok_fresh. Qed.

(** ** What a reader is served *)

(** The quality of a yield read at [now]. *)
Definition yield_quality_at (se : settings) (st : data_state) (sym : string) (y : YieldEstimate)
    (now : Z) : YieldQualityModel :=
  let threshold := yield_threshold se st sym in
  let age := staleness_ms now (ye_as_of y) in
  {| yqm_stale := supplied_stale y || bool_decide (threshold_ms threshold < age);
     yqm_staleness_ms := age; yqm_stale_after_seconds := threshold;
     yqm_confidence := supplied_confidence y |}.

(** The model [m] is the projection of [snap] with the freshness of [now]. *)
Record serves (se : settings) (st : data_state) (i : InstrumentSpec) (snap : QuoteSnapshot) (now : Z)
    (m : QuoteModel) : Prop := {
  sv_symbol : qt_symbol m = is_symbol i;
  sv_price : qt_price m = pq_price (qs_quote snap);
  sv_as_of : qt_as_of m = pq_as_of (qs_quote snap);
  sv_source : qt_source m = source_to_wire (qs_quote snap);
  sv_changes : qt_changes m =
    (λ kv : string * option ChangeValue, (kv.1, change_to_wire <$> kv.2)) <$> qs_changes snap;
  sv_dividend : qt_dividend m = dividend_to_wire <$> qs_dividend snap;
  sv_status : (qt_market_status m, qt_quality m) = quality st (qs_quote snap) i now;
  sv_yield : match qs_estimated_annual_yield snap, qt_estimated_annual_yield m with
             | None, None => True
             | Some y, Some ym => yem_percent ym = ye_percent y ∧ yem_as_of ym = ye_as_of y ∧
                 yem_method ym = ye_method y ∧
                 yem_quality ym = Some (yield_quality_at se st (is_symbol i) y now)
             | _, _ => False
             end;
}.

(** What a read of a stored snapshot needs when the metadata is mandatory. *)
Definition missing_fields (i : InstrumentSpec) (snap : QuoteSnapshot) : option string :=
  if bool_decide (is_yield_strategy i ≠ None ∧ qs_estimated_annual_yield snap = None)
  then Some "required estimated annual yield is unavailable"
  else if bool_decide (is_dividend_strategy i ≠ None ∧ qs_dividend snap = None)
  then Some "required latest regular dividend is unavailable"
  else None.

Lemma complete_missing i snap :
  complete_fields i (qs_dividend snap) (qs_estimated_annual_yield snap) = true ↔
  missing_fields i snap = None.
Proof.
  unfold complete_fields, missing_fields. rewrite andb_true_iff, !bool_decide_eq_true.
  destruct (is_yield_strategy i), (is_dividend_strategy i), (qs_dividend snap),
    (qs_estimated_annual_yield snap); repeat case_bool_decide; unfold is_Some in *; naive_solver.
Qed.

(** Reading a symbol of the registry: the only failures are missing data. *)
Lemma get_quote_spec s st sym i now required :
  inv s → state_at s loc = Some st → canonical_in rg sym = Some i →
  match stored st sym with
  | None => get_quote s g sym now required =
              Raise (DataUnavailableError sym "no valid price has ever been received")
  | Some snap =>
    match (if required : bool then missing_fields i snap else None) with
    | Some reason => get_quote s g sym now required = Raise (DataUnavailableError sym reason)
    | None => ∃ m, get_quote s g sym now required = Ok m ∧ serves (sv_settings s) st i snap now m
    end
  end.
Proof.
  intros (Hg & Hl & _ & st' & Hst' & Hok) Hst Hcan. rewrite Hst in Hst'. injection Hst' as <-.
  pose proof (so_entries _ _ Hok sym) as He. unfold entry_ok in He.
  pose proof (canonical_symbol_eq _ _ _ Hcan) as Hsym.
  unfold get_quote. rewrite Hl. cbn [mbind option_bind]. rewrite Hst. cbn [mbind result_bind].
  rewrite (canonical_getitem _ _ _ Hcan). cbn [mbind result_bind].
  destruct (stored st sym) as [snap|]; [|done]. cbn [mbind result_bind].
  destruct He as (i' & q & thr & Hi' & _ & _ & _ & Hw & _). rewrite Hcan in Hi'. injection Hi' as <-.
  assert (∃ m, (let '(status, q0) := quality st (qs_quote snap) i now in
    annual_yield ← match qt_estimated_annual_yield
        (snapshot_to_wire snap i (pq_as_of (qs_quote snap)) (is_stale_after_seconds i) thr) with
      | None => Ok None
      | Some y => Some <$> refreshed_yield (sv_settings s) st sym (qs_estimated_annual_yield snap) now y
      end;
    Ok (with_freshness (snapshot_to_wire snap i (pq_as_of (qs_quote snap)) (is_stale_after_seconds i) thr)
          status q0 annual_yield)) = Ok m ∧ serves (sv_settings s) st i snap now m) as (m & Hm & Hserves).
  { destruct (quality st (qs_quote snap) i now) as [status ql] eqn:Hql.
    destruct (qs_estimated_annual_yield snap) as [y|] eqn:Hy; unfold snapshot_to_wire at 1; cbn; rewrite Hy; cbn.
    - eexists. split; [done|]. split; try done. cbn. rewrite Hy, Hsym. done.
    - eexists. split; [done|]. split; try done. cbn. by rewrite Hy. }
  unfold missing_fields. destruct required; cbn [andb].
  - case_bool_decide; [done|]. cbn [raise_if mbind result_bind]. case_bool_decide; [done|].
    cbn [raise_if mbind result_bind]. rewrite Hw. by exists m.
  - cbn [raise_if mbind result_bind]. rewrite Hw. by exists m.
Qed.

(** ** Accepted quotes *)

(** The store holds a snapshot. *)
Definition holds (sym : string) (snap : QuoteSnapshot) (s : Service) : Prop :=
  ∃ st, state_at s loc = Some st ∧ stored st sym = Some snap.

Lemma holds_core sym snap s s' : same_core s s' → holds sym snap s → holds sym snap s'.
Proof. intros (_ & E & _) (st & Hst & Hget). exists st. unfold state_at in *. by rewrite E. Qed.

Lemma holds_persist_point sym snap point : keeps (holds sym snap) (persist_point point loc).
Proof.
  assert (∀ v, keeps (holds sym snap) (persist v)) as Hp.
  { intros v s. apply holds_core, persist_core. }
  apply keeps_bind; [apply Hp|]. intros []. apply keeps_bind; [|intros a; apply Hp].
  apply keeps_bind; [by apply keeps_pure|]. intros current.
  apply keeps_bind; [by apply keeps_pure|]. intros a.
  apply keeps_bind; [|by intros []; apply keeps_pure].
  intros s (st & Hst & Hget).
  exists (set_ds_active_aggregates (<[pp_symbol point := a]> (ds_active_aggregates st)) st).
  split; [|done]. unfold state_at in *. cbn. by rewrite list_lookup_alter_eq, Hst.
Qed.

(** A rebuild that succeeds after a quote was accepted stores its snapshot. *)
Lemma rebuild_stores s st q persisted published_at :
  state_at s loc = Some st → state_ok rg st → ds_last_quotes st !! pq_symbol q = Some q →
  wp (rebuild (pq_symbol q) persisted rg loc [] published_at)
    (λ s' r, r = Ok tt → ∃ snap, qs_quote snap = q ∧ holds (pq_symbol q) snap s') s.
Proof.
  intros Hst Hok Hq. pose proof (rebuild_spec s st (pq_symbol q) persisted [] published_at Hst) as Hr.
  cbv zeta in Hr. unfold wp. destruct Hr as [s' r _ Hnone|s' i snap _ Hlast _ _ Hc].
  { intros ->. specialize (Hnone eq_refl). congruence. }
  intros _. exists snap. rewrite Hq in Hlast. injection Hlast as Hlast. split; [done|].
  eapply holds_core; [exact Hc|]. exists (record_snapshot i (pq_symbol q) snap st). split.
  - unfold state_at in *. cbn. by rewrite list_lookup_alter_eq, Hst.
  - destruct (record_stored rg st i (pq_symbol q) snap Hok) as [_ Hget]; [by rewrite Hq, Hlast|].
    rewrite Hget. by rewrite decide_True.
Qed.

(** What an accepted quote leaves behind. *)
Lemma store_quote_accepted st0 s st q persisted published_at s' :
  good st0 s → state_at s loc = Some st → is_Some (canonical_in rg (pq_symbol q)) →
  (∀ c, ds_last_quotes st !! pq_symbol q = Some c → pq_as_of c ≤ pq_as_of q) →
  store_quote q persisted rg loc published_at s = (s', Ok true) →
  ∃ snap, qs_quote snap = q ∧ holds (pq_symbol q) snap s'.
Proof.
  intros Hs Hst Hcan Hold Hrun.
  assert (wp (store_quote q persisted rg loc published_at)
    (λ s' r, r = Ok true → ∃ snap, qs_quote snap = q ∧ holds (pq_symbol q) snap s') s) as Hwp.
  2: { unfold wp in Hwp. rewrite Hrun in Hwp. by apply Hwp. }
  clear Hrun s'. pose proof (good_accept st0 s st q Hs Hst Hcan Hold) as Hs1.
  apply wp_bind, wp_modify. cbv beta iota. set (s1 := set_sv_states _ s) in *.
  assert (state_at s1 loc = Some (accept_quote q st)) as Hst1.
  { unfold s1, state_at in *. cbn. by rewrite list_lookup_alter_eq, Hst. }
  destruct (good_state _ _ Hs1) as (st1 & E & Hok1). rewrite Hst1 in E. injection E as <-.
  wp_step. wp_step. destruct (minute_point q) as [point|]; [|done].
  wp_step. unfold wp at 1. assert (same_core s1 (history_add point s1).1) as (_ & Hc & _).
  { unfold history_add. by destruct (HistoryCache.add _ _). }
  destruct (history_add point s1) as [s2 [u|]]; cbn in Hc |- *; [|done].
  apply wp_bind. eapply wp_mono; [|apply (rebuild_stores s2 (accept_quote q st))].
  - intros s3 [[]|] H3; [|done]. destruct (H3 eq_refl) as (snap & Hsnap & Hh).
    eapply (wp_mono _ (λ s' _, holds (pq_symbol q) snap s')); [by eauto|].
    eapply (wp_keeps (holds (pq_symbol q) snap)); [|done].
    apply keeps_bind; [apply keeps_when, holds_persist_point|]. intros []. by apply keeps_pure.
  - unfold state_at in *. by rewrite Hc.
  - done.
  - cbn. by rewrite lookup_insert_eq.
Qed.

Lemma publish_quote_accepted st0 s q persisted generation_id now published_at s' :
  good st0 s → publish_quote q persisted generation_id now published_at s = (s', Ok true) →
  (∃ i, canonical_in rg (pq_symbol q) = Some i) ∧
  ∃ snap, qs_quote snap = q ∧ holds (pq_symbol q) snap s'.
Proof.
  intros Hs Hrun. destruct (publish_quote_cases st0 s q persisted generation_id now published_at Hs)
    as [[_ Hr]|(st & i & Hst & Hcan & _ & _ & Hold & E)].
  - by rewrite Hrun in Hr.
  - rewrite Hrun in E. symmetry in E. split; [by exists i|]. eapply store_quote_accepted; [done..| | |done]; [by rewrite Hcan|done].
Qed.

(** ** Registries and readiness *)

Lemma registry_canonical plugins sym :
  build_registry plugins = Ok rg → sym ∈ Registry.symbols rg → ∃ i, canonical_in rg sym = Some i.
Proof.
  intros [[(Hi & Ha & _ & Ho) _] _]%build_registry_ok Hsym. cbn in *.
  apply Ho in Hsym as [i Hsym]. destruct (Hi _ _ Hsym) as (E & Hn & _). exists i.
  unfold canonical_in, resolve. rewrite Hn.
  destruct (rg_aliases rg !! sym) as [s'|] eqn:Hs'.
  - destruct (Ha _ _ Hs') as (_ & _ & _ & Hnone). congruence.
  - cbn. rewrite Hsym. by rewrite decide_True.
Qed.

(** A symbol of the registry that has no price, and one that lacks metadata. *)
Definition no_price (st : data_state) (sym : string) : bool := bool_decide (stored st sym = None).

Definition lacks_metadata (st : data_state) (sym : string) : bool :=
  match stored st sym, canonical_in rg sym with
  | Some snap, Some i => bool_decide (missing_fields i snap ≠ None)
  | _, _ => false
  end.

Lemma readiness_scan_spec s st now l :
  inv s → state_at s loc = Some st → (∀ sym, sym ∈ l → ∃ i, canonical_in rg sym = Some i) →
  readiness_scan s g st now l = Ok (List.filter (no_price st) l, List.filter (lacks_metadata st) l).
Proof.
  intros Hs Hst. induction l as [|sym l IH]; intros Hl; [done|]. cbn [readiness_scan List.filter].
  destruct (Hl sym) as [i Hi]; [by left|].
  pose proof (get_quote_spec s st sym i now true Hs Hst Hi) as Hget.
  rewrite IH by (intros x Hx; apply Hl; by right). cbn [mbind result_bind].
  change (no_price st sym) with (bool_decide (stored st sym = None)).
  assert (lacks_metadata st sym = match stored st sym with
    | Some snap => bool_decide (missing_fields i snap ≠ None) | None => false end) as ->
    by (unfold lacks_metadata; rewrite Hi; by destruct (stored st sym)).
  destruct (stored st sym) as [snap|]; cbn [fst snd] in *.
  - rewrite decide_False by done. rewrite (bool_decide_false (Some snap = None)) by done.
    destruct (missing_fields i snap) as [reason|].
    + rewrite Hget. by rewrite (bool_decide_true (Some reason ≠ None)).
    + destruct Hget as (m & -> & _). by rewrite bool_decide_false by (intros Hn; by apply Hn).
  - by rewrite decide_True, bool_decide_true.
Qed.

(** A symbol is in the set of complete symbols exactly when neither list of the
    scan has it. *)
Lemma complete_scan st sym i : state_ok rg st → canonical_in rg sym = Some i →
  sym ∈ ds_complete_symbols st ↔ no_price st sym = false ∧ lacks_metadata st sym = false.
Proof.
  intros Hok Hi. pose proof (so_entries _ _ Hok sym) as He. unfold entry_ok in He.
  unfold no_price, lacks_metadata. rewrite Hi.
  destruct (stored st sym) as [snap|].
  - destruct He as (i' & q & thr & Hi' & _ & _ & _ & _ & ->). rewrite Hi in Hi'. injection Hi' as <-.
    rewrite complete_missing, !bool_decide_eq_false. split.
    + intros ->. by split; [|intros []].
    + intros [_ Hn]. destruct (missing_fields i snap); [|done]. exfalso. by apply Hn.
  - destruct He as [_ He]. rewrite bool_decide_true by done. naive_solver.
Qed.

Lemma filter_is_nil {A} (f : A → bool) l : List.filter f l = [] ↔ ∀ x, x ∈ l → f x = false.
Proof.
  induction l as [|x l IH]; cbn; [by split; [intros _ ? ?%elem_of_nil|]|].
  destruct (f x) eqn:Hx.
  - split; [done|]. intros Hall. rewrite (Hall x) in Hx by by left. done.
  - rewrite IH. split; intros Hall y.
    + by intros [->|Hy]%elem_of_cons; [|apply Hall].
    + intros Hy. apply Hall. by right.
Qed.

Lemma all_complete_scan plugins st :
  build_registry plugins = Ok rg → state_ok rg st →
  forallb (λ x, bool_decide (x ∈ ds_complete_symbols st)) (Registry.symbols rg) = true ↔
  List.filter (no_price st) (Registry.symbols rg) = [] ∧
  List.filter (lacks_metadata st) (Registry.symbols rg) = [].
Proof.
  intros Hrg Hok. rewrite forallb_forall, !filter_is_nil.
  assert (∀ x, x ∈ Registry.symbols rg → bool_decide (x ∈ ds_complete_symbols st) = true ↔
    no_price st x = false ∧ lacks_metadata st x = false) as Hx.
  { intros x Hx. destruct (registry_canonical _ _ Hrg Hx) as [i Hi].
    rewrite bool_decide_eq_true. by eapply complete_scan. }
  split.
  - intros Hall. split; intros x Hin; by apply Hx; [|apply Hall, list_elem_of_In].
  - intros [H1 H2] x Hin%list_elem_of_In. apply Hx; [done|]. split; auto.
Qed.

(** ** Properties *)

(** C3: a quote that a publication accepted is served at once: a read that
    does not insist on metadata returns its price, instant and provenance.
    Whatever is published afterwards in the generation, a read keeps
    succeeding and never returns an older quote. *)
Theorem accepted_quote_served (s0 s : Service) (before after : list publication) (q : ProviderQuote)
    (persisted : bool) (generation_id : option string) (now published_at t : Z)
    (Hstart : starts s0)
    (Haccept : publish_quote q persisted generation_id now published_at (publish_all before s0) = (s, Ok true)) :
  (∃ m, get_quote s g (pq_symbol q) t false = Ok m ∧ qt_price m = pq_price q ∧
        qt_as_of m = pq_as_of q ∧ qt_source m = source_to_wire q) ∧
  ∃ m, get_quote (publish_all after s) g (pq_symbol q) t false = Ok m ∧ pq_as_of q ≤ qt_as_of m.
Proof.
  pose proof (inv_publish_all before _ (inv_starts _ Hstart)) as Hinv.
  pose proof Hinv as (_ & _ & _ & st0 & Hst0 & _). pose proof (good_here _ _ Hinv Hst0) as Hgood.
  destruct (publish_quote_accepted st0 _ _ _ _ _ _ _ Hgood Haccept) as ((i & Hi) & snap & Hq & st & Hst & Hget).
  pose proof (good_publish_quote st0 q persisted generation_id now published_at _ Hgood) as Hgood'.
  rewrite Haccept in Hgood'. destruct Hgood' as [Hinv' _]. cbn in Hinv'. split.
  - pose proof (get_quote_spec s st _ i t false Hinv' Hst Hi) as Hr. rewrite Hget in Hr.
    destruct Hr as (m & Hm & [? Hp Ha Hso _ _ _ _]). rewrite Hq in *. by exists m.
  - pose proof (good_publish_all st after s (good_here _ _ Hinv' Hst)) as [Hinv2 Hadv].
    pose proof Hinv2 as (_ & _ & _ & st2 & Hst2 & _).
    destruct (Hadv _ Hst2 _ _ Hget) as (snap2 & Hget2 & Hle).
    pose proof (get_quote_spec _ st2 _ i t false Hinv2 Hst2 Hi) as Hr. rewrite Hget2 in Hr.
    destruct Hr as (m & Hm & [? _ Ha _ _ _ _ _]). exists m. split; [done|]. by rewrite Ha, <- Hq.
Qed.

(** After any publications, reading a symbol of the registry fails only
    for data that is missing, and otherwise returns the projection of the
    snapshot in the store, with the market status, the staleness and the yield
    quality of the moment of the read; that snapshot is never newer than the
    last accepted quote. *)
Theorem served_quote (s0 : Service) (l : list publication) (sym : string) (i : InstrumentSpec) (now : Z)
    (required : bool) (Hstart : starts s0) (Hcan : canonical_in rg sym = Some i) :
  let s := publish_all l s0 in
  ∃ st, state_at s loc = Some st ∧
    match stored st sym with
    | None => get_quote s g sym now required =
                Raise (DataUnavailableError sym "no valid price has ever been received")
    | Some snap =>
      (∃ q, ds_last_quotes st !! sym = Some q ∧ pq_as_of (qs_quote snap) ≤ pq_as_of q) ∧
      match (if required then missing_fields i snap else None) with
      | Some reason => get_quote s g sym now required = Raise (DataUnavailableError sym reason)
      | None => ∃ m, get_quote s g sym now required = Ok m ∧ serves (sv_settings s) st i snap now m
      end
    end.
Proof.
  cbv zeta. pose proof (inv_publish_all l _ (inv_starts _ Hstart)) as Hinv.
  pose proof Hinv as (_ & _ & _ & st & Hst & Hok). exists st. split; [done|].
  pose proof (get_quote_spec _ st sym i now required Hinv Hst Hcan) as Hr.
  pose proof (so_entries _ _ Hok sym) as He. unfold entry_ok in He.
  destruct (stored st sym) as [snap|]; [|done]. split; [|done].
  destruct He as (_ & q & _ & _ & Hq & _ & Hle & _). by exists q.
Qed.

(** C32: readiness, which looks at one flag per symbol, agrees with the scan
    that reads every instrument: after any publications the report lists the
    symbols without a price and those whose mandatory metadata is missing, and
    the service is ready exactly when both lists are empty and the runtime, the
    keys, the storage and the collectors are in order. *)
Theorem readiness_agrees (plugins : list InstrumentPlugin) (s0 : Service) (l : list publication)
    (inspected : FreeThreadedStatus) (now : Z)
    (Hrg : build_registry plugins = Ok rg) (Hstart : starts s0) :
  let s := publish_all l s0 in
  ∃ st ready d, state_at s loc = Some st ∧ readiness s inspected now = Ok (ready, d) ∧
    rd_missing_prices d = List.filter (no_price st) (Registry.symbols rg) ∧
    rd_incomplete_metadata d = List.filter (lacks_metadata st) (Registry.symbols rg) ∧
    (ready = true ↔
     runtime_ok s inspected = true ∧ has_active_api_key s = true ∧ sv_storage_ready s = true ∧
     (collectors_running s = true ∨ se_background_enabled (sv_settings s) = false) ∧
     rd_missing_prices d = [] ∧ rd_incomplete_metadata d = []).
Proof.
  cbv zeta. set (s := publish_all l s0).
  pose proof (inv_publish_all l _ (inv_starts _ Hstart)) as Hinv. fold s in Hinv.
  pose proof Hinv as (Hg & Hl & _ & st & Hst & Hok). exists st.
  unfold readiness, is_ready. rewrite Hg, Hl. cbn [mbind option_bind]. rewrite Hst. cbn [mbind result_bind].
  rewrite (readiness_scan_spec s st now _ Hinv Hst).
  2: { intros x Hx. by eapply registry_canonical. }
  cbn [mbind result_bind]. do 2 eexists. split_and!; [done|done|done|done|]. cbn [rd_missing_prices rd_incomplete_metadata fst snd].
  rewrite !andb_true_iff, orb_true_iff, negb_true_iff, (all_complete_scan plugins) by done. tauto.
Qed.

(** Publications neither activate generations nor drop their market states. *)
Abbreviation same_generations G :=
  (λ s : Service, sv_generations s = fst G ∧ length (sv_states s) = snd G).

Create HintDb generations.

Ltac keep_generations :=
  repeat first
    [ solve [auto with generations] | apply keeps_bind; [|intros ?] | apply keeps_when | apply keeps_for_each; intros ?
    | by apply keeps_pure | by apply keeps_modify | progress case_match | case_decide ].

Lemma generations_write G k f : keeps (same_generations G) (write_state k f).
Proof. intros s [Hg Hl]. cbn. by rewrite length_alter. Qed.

Lemma generations_persist G v : keeps (same_generations G) (persist v).
Proof. intros s Hs. cbn. by destruct (sv_storage s). Qed.

Lemma generations_persist_history G ps : keeps (same_generations G) (persist_history ps).
Proof. apply generations_persist. Qed.

Lemma generations_add G p : keeps (same_generations G) (history_add p).
Proof. intros s Hs. unfold history_add. by destruct (HistoryCache.add _ _). Qed.

Lemma generations_load G ps : keeps (same_generations G) (history_load ps).
Proof. intros s Hs. unfold history_load. by destruct (HistoryCache.load _ _). Qed.

Lemma generations_references G sym t : keeps (same_generations G) (history_change_references sym t).
Proof.
  intros s Hs. unfold history_change_references.
  by destruct (HistoryCache.change_references _ _ _) as [[? ?]|].
Qed.

Lemma generations_state_for G g' : keeps (same_generations G) (state_for_generation g').
Proof. intros s Hs. unfold state_for_generation. destruct (gn_data_state g'); [|done]. by case_decide. Qed.

#[local] Hint Resolve generations_write generations_persist generations_persist_history generations_add generations_load generations_references
  generations_state_for : generations.

Lemma generations_rebuild G sym persisted rg' loc' hist pub :
  keeps (same_generations G) (rebuild sym persisted rg' loc' hist pub).
Proof. unfold rebuild. keep_generations. Qed.

Lemma generations_context G gid : keeps (same_generations G) (publication_context gid).
Proof. unfold publication_context. keep_generations. Qed.

#[local] Hint Resolve generations_rebuild generations_context : generations.

Lemma generations_finish G ps b rg' loc' pub :
  keeps (same_generations G) (finish_history_publication ps b rg' loc' pub).
Proof. unfold finish_history_publication. keep_generations. Qed.

Lemma generations_quote G q b gid now pub : keeps (same_generations G) (publish_quote q b gid now pub).
Proof.
  unfold publish_quote, store_quote, persist_point, update_aggregate.
  keep_generations.
Qed.

#[local] Hint Resolve generations_finish generations_quote : generations.

Lemma generations_publish G p : keeps (same_generations G) (λ s, (publish p s, Ok tt)).
Proof.
  assert (∀ A (m : comp Service A), keeps (same_generations G) m → keeps (same_generations G) (λ s, ((m s).1, Ok tt)))
    as Hfst by (intros A m Hm s; apply Hm).
  destruct p; cbn [publish]; apply Hfst; auto with generations.
  - unfold publish_history. keep_generations.
  - unfold publish_history_end. keep_generations.
  - unfold publish_dividend. keep_generations.
  - unfold publish_yield_metric, store_yield, persist_yield_metric. keep_generations.
  - unfold mark_source_failed. keep_generations.
  - unfold apply_restored_state. keep_generations.
  - unfold persistence_done. keep_generations.
Qed.

Lemma generations_finalize G at_loc symbols warmed :
  keeps (same_generations G)
    (_ ← publish_warmed_history warmed; _ ← retain_symbols at_loc symbols; persist_warmed_instruments at_loc warmed).
Proof.
  unfold publish_warmed_history, retain_symbols, persist_warmed_instruments, persist_warmed_item, persist_yield_metric.
  keep_generations.
Qed.

(** ** Yields *)

Definition same_yield_source (c m : YieldMetric) : Prop :=
  lower (ym_provider m) = lower (ym_provider c) ∧ ym_method m = ym_method c.

#[local] Instance same_yield_source_dec c m : Decision (same_yield_source c m).
Proof. unfold same_yield_source. apply _. Defined.

(** The current metric of a symbol is within its freshness threshold. *)
Definition yield_fresh (se : settings) (st : data_state) (c : YieldMetric) (now : Z) : Prop :=
  Z.max 0 (now - ym_as_of c) ≤
  default (default_yield_stale_after_seconds se c) (ds_yield_stale_after st !! ym_symbol c).

(** The metric displaces a better one of another source. *)
Definition downgrades (c m : YieldMetric) : Prop :=
  ¬ same_yield_source c m ∧ rank_lt (yield_source_rank c) (yield_source_rank m) = true.

Lemma keeps_current_spec se st c m now :
  keeps_current_yield se (ds_yield_stale_after st !! ym_symbol c) now c m = true ↔
  (same_yield_source c m ∨ yield_source_rank m = yield_source_rank c) ∧ ym_as_of m < ym_as_of c ∨
  downgrades c m ∧ yield_fresh se st c now.
Proof.
  unfold keeps_current_yield, downgrades, yield_fresh. fold (same_yield_source c m).
  rewrite (bool_decide_ext _ (same_yield_source c m)) by done.
  destruct (decide (same_yield_source c m)) as [Hs|Hs].
  - rewrite (bool_decide_true _ Hs). cbn [orb negb andb].
    case_bool_decide as Hb; cbn [orb andb]; [split; [left; split; [by left|lia]|done]|].
    split; [done|]. intros [[_ ?]|[[? _] _]]; [lia|done].
  - rewrite (bool_decide_false _ Hs). cbn [orb negb andb].
    case_bool_decide as Hr; cbn [andb].
    + case_bool_decide as Hb; [split; [left; split; [by right|lia]|done]|].
      assert (rank_lt (yield_source_rank c) (yield_source_rank m) = false) as ->.
      { rewrite Hr. unfold rank_lt. apply bool_decide_eq_false. lia. }
      split; [done|]. intros [[_ ?]|[[_ ?] _]]; [lia|done].
    + destruct (rank_lt _ _) eqn:Hlt.
      * rewrite bool_decide_eq_true. split; [by right|]. intros [[[?|?] _]|[_ ?]]; done.
      * split; [done|]. intros [[[?|?] _]|[[_ ?] _]]; done.
Qed.

Lemma publish_yield_cases st0 s st m persisted generation_id now published_at :
  good st0 s → state_at s loc = Some st →
  let r := publish_yield_metric m persisted generation_id now published_at s in
  (r.1 = s ∧ r.2 ≠ Ok true) ∨
  ((∀ c, ds_yield_metrics st !! ym_symbol m = Some c →
      keeps_current_yield (sv_settings s) (ds_yield_stale_after st !! ym_symbol m) now c m = false) ∧
   r = store_yield m (default_yield_stale_after_seconds (sv_settings s) m) persisted rg loc published_at s).
Proof.
  intros Hs Hst. cbv zeta.
  rewrite (surjective_pairing (publish_yield_metric _ _ _ _ _ _)). cbn [fst snd].
  set (Q := λ s' r, (s' = s ∧ r ≠ Ok true) ∨ (∀ c, ds_yield_metrics st !! ym_symbol m = Some c →
      keeps_current_yield (sv_settings s) (ds_yield_stale_after st !! ym_symbol m) now c m = false) ∧
    (s', r) = store_yield m (default_yield_stale_after_seconds (sv_settings s) m) persisted rg loc published_at s).
  change (wp (publish_yield_metric m persisted generation_id now published_at) Q s).
  apply wp_context; [apply Hs|]. destruct (fenced generation_id); [by left|]. cbv zeta.
  destruct (negb _); [by left|]. apply wp_bind, wp_gets. cbv iota beta.
  do 2 (apply wp_bind, (wp_read _ _ _ _ Hst); cbv iota beta).
  destruct (match ds_yield_metrics st !! _ with Some _ => _ | None => _ end) eqn:Hkept; [by left|].
  apply wp_bind, wp_gets. rewrite (inv_current s) by apply Hs. right.
  split; [|by rewrite <- surjective_pairing]. intros c Hc. by rewrite Hc in Hkept.
Qed.

(** What the state holds of the metric once it was accepted. *)
Definition holds_yield (m : YieldMetric) (t : Z) (s : Service) : Prop :=
  ∃ st, state_at s loc = Some st ∧ ds_yield_metrics st !! ym_symbol m = Some m ∧
    ds_yield_stale_after st !! ym_symbol m = Some t.

Lemma holds_yield_core m t s s' : same_core s s' → holds_yield m t s → holds_yield m t s'.
Proof. intros (_ & E & _) (st & Hst & Hget). exists st. unfold state_at in *. by rewrite E. Qed.

Lemma holds_yield_rebuild m t sym persisted additional published_at :
  keeps (holds_yield m t) (rebuild sym persisted rg loc additional published_at).
Proof.
  intros s (st & Hst & Hm & Ht).
  pose proof (rebuild_spec s st sym persisted additional published_at Hst) as Hr. cbv zeta in Hr.
  destruct Hr as [s' r Hc _|s' i snap _ _ _ _ Hc]; eapply holds_yield_core; try exact Hc; [by exists st|].
  exists (record_snapshot i sym snap st). split; [|done].
  unfold state_at in *. cbn. by rewrite list_lookup_alter_eq, Hst.
Qed.

Lemma store_yield_holds s st m t persisted published_at :
  state_at s loc = Some st → holds_yield m t (store_yield m t persisted rg loc published_at s).1.
Proof.
  intros Hst. change (wp (store_yield m t persisted rg loc published_at) (λ s' _, holds_yield m t s') s).
  apply wp_bind, wp_modify. cbv beta iota. eapply (wp_keeps (holds_yield m t)).
  - apply keeps_bind; [apply holds_yield_rebuild|]. intros [].
    apply keeps_bind; [|by intros []; apply keeps_pure]. apply keeps_when.
    intros s'. apply holds_yield_core. unfold persist_yield_metric.
    destruct (yield_recordable m); [apply persist_core|done].
  - exists (accept_yield m t st). unfold state_at in *. cbn. rewrite list_lookup_alter_eq, Hst.
    by rewrite !lookup_insert_eq.
Qed.

(** The arbitration of yields. Publishing a metric either leaves the
    service as it was or makes it the current metric of its symbol; a metric of
    a lower rank from another source never displaces one that is still fresh,
    and one of the same source or rank never an observation that is newer. *)
Theorem yield_arbitration (s0 : Service) (l : list publication) (st : data_state) (m : YieldMetric)
    (persisted : bool) (generation_id : option string) (now published_at : Z)
    (Hstart : starts s0) (Hst : state_at (publish_all l s0) loc = Some st) :
  let s := publish_all l s0 in
  let r := publish_yield_metric m persisted generation_id now published_at s in
  (r.1 = s ∧ r.2 ≠ Ok true) ∨
  holds_yield m (default_yield_stale_after_seconds (sv_settings s) m) r.1 ∧
  ∀ c, ds_yield_metrics st !! ym_symbol m = Some c → ym_symbol c = ym_symbol m →
    (downgrades c m → ¬ yield_fresh (sv_settings s) st c now) ∧
    (same_yield_source c m ∨ yield_source_rank m = yield_source_rank c → ym_as_of c ≤ ym_as_of m).
Proof.
  cbv zeta. pose proof (inv_publish_all l _ (inv_starts _ Hstart)) as Hinv.
  destruct (publish_yield_cases st _ st m persisted generation_id now published_at
    (good_here _ _ Hinv Hst) Hst) as [?|[Hkept ->]]; [by left|right].
  split; [by eapply store_yield_holds|]. intros c Hc Hsym. specialize (Hkept c Hc). rewrite <- Hsym in Hkept.
  pose proof (keeps_current_spec (sv_settings (publish_all l s0)) st c m now) as Hspec. rewrite Hkept in Hspec.
  assert (¬ ((same_yield_source c m ∨ yield_source_rank m = yield_source_rank c) ∧ ym_as_of m < ym_as_of c ∨
    downgrades c m ∧ yield_fresh (sv_settings (publish_all l s0)) st c now)) as Hno by (intros Hn; by apply Hspec in Hn).
  split; [naive_solver|]. intros Hs. destruct (decide (ym_as_of c ≤ ym_as_of m)); [done|].
  exfalso. apply Hno. left. split; [done|lia].
Qed.

End facts.

(** ** Aggregates *)

(** The aggregates that the points of a symbol go through. *)
Fixpoint aggregate_all (current : option AggregatePrice) (points : list PricePoint)
    : result (option AggregatePrice) :=
  match points with
  | [] => Ok current
  | p :: points' => a ← next_aggregate current p; aggregate_all (Some a) points'
  end.

(** The open, high, low and close of the points of one bucket. *)
Record ohlc_of (points : list PricePoint) (a : AggregatePrice) : Prop := {
  oh_open : pp_price <$> head points = Some (ap_open a);
  oh_close : pp_price <$> last points = Some (ap_close a);
  oh_high : (∃ p, p ∈ points ∧ ap_high a = pp_price p) ∧ ∀ p, p ∈ points → dle (pp_price p) (ap_high a);
  oh_low : (∃ p, p ∈ points ∧ ap_low a = pp_price p) ∧ ∀ p, p ∈ points → dle (ap_low a) (pp_price p);
  oh_count : ap_sample_count a = Z.of_nat (length points);
}.

Definition in_bucket (b : Z) (p : PricePoint) : Prop :=
  valid_point p ∧ five_minute_bucket (pp_timestamp p) = b.

#[local] Instance in_bucket_dec b p : Decision (in_bucket b p).
Proof. unfold in_bucket, valid_point. apply _. Defined.

Lemma dmax_cases x y : dmax x y = x ∨ dmax x y = y.
Proof. unfold dmax. case_decide; auto. Qed.

Lemma dmin_cases x y : dmin x y = x ∨ dmin x y = y.
Proof. unfold dmin. case_decide; auto. Qed.

(** An aggregate whose four prices are those of points passes its checks. *)
Lemma AggregatePrice_init_ohlc points a :
  Forall valid_point points → ohlc_of points a → 0 < ap_interval_seconds a →
  AggregatePrice_init
    {| ap_symbol := ap_symbol a; ap_bucket_start := Aware (ap_bucket_start a);
       ap_interval_seconds := ap_interval_seconds a; ap_open := DFinite (ap_open a);
       ap_high := DFinite (ap_high a); ap_low := DFinite (ap_low a); ap_close := DFinite (ap_close a);
       ap_sample_count := ap_sample_count a; ap_provider := ap_provider a;
       ap_is_derived := ap_is_derived a |} = Ok a.
Proof.
  intros Hv [Ho Hc [(ph & Hph & Eh) Hh] [(pl & Hpl & El) Hl] Hn] Hi.
  apply fmap_Some in Ho as (po & Hpo%head_Some_elem_of & Eo).
  apply fmap_Some in Hc as (pc & Hpc%last_elem_of & Ec).
  rewrite Forall_forall in Hv.
  assert (∀ p, p ∈ points → decimal_of (DFinite (pp_price p)) = Ok (pp_price p)) as Hd.
  { intros p Hp. apply decimal_of_ok. split; [done|]. by apply Hv. }
  unfold AggregatePrice_init. cbn -[decimal_of]. rewrite Eo, Ec, Eh, El, !Hd by done. cbn [mbind result_bind].
  assert (0 < Z.of_nat (length points)) as Hlen by (destruct points; [by apply elem_of_nil in Hpo|cbn; lia]).
  rewrite (bool_decide_false (ap_interval_seconds a ≤ 0 ∨ ap_sample_count a ≤ 0)) by lia.
  cbn [raise_if mbind result_bind]. rewrite bool_decide_false.
  - cbn. destruct a; cbn in *. by subst.
  - rewrite !dlt_not_le. intros [Hneg|[Hmax|Hmin]].
    + apply Hneg, Hv. done.
    + apply Hmax. destruct (dmax_cases (pp_price po) (pp_price pc)) as [->| ->]; rewrite <- Eh; by apply Hh.
    + apply Hmin. destruct (dmin_cases (pp_price po) (pp_price pc)) as [->| ->]; rewrite <- El; by apply Hl.
Qed.

(** One more point of the bucket. *)
Lemma next_aggregate_same b points a p :
  Forall (in_bucket b) (points ++ [p]) → ohlc_of points a → ap_bucket_start a = b →
  ∃ a', next_aggregate (Some a) p = Ok a' ∧ ohlc_of (points ++ [p]) a' ∧ ap_bucket_start a' = b.
Proof.
  intros Hall Hoh Hb.
  assert (Forall valid_point (points ++ [p])) as Hv by (eapply Forall_impl; [exact Hall|]; by intros x [? _]).
  apply Forall_app in Hall as [_ [[_ Hp] _]%Forall_cons].
  set (a' := {| ap_symbol := pp_symbol p; ap_bucket_start := b; ap_interval_seconds := 300;
    ap_open := ap_open a; ap_high := dmax (ap_high a) (pp_price p);
    ap_low := dmin (ap_low a) (pp_price p); ap_close := pp_price p;
    ap_sample_count := ap_sample_count a + 1; ap_provider := pp_provider p;
    ap_is_derived := pp_is_derived p |}).
  assert (ohlc_of (points ++ [p]) a') as Hoh'.
  { destruct Hoh as [Ho Hc [(ph & Hph & Eh) Hh] [(pl & Hpl & El) Hl] Hn]. split; cbn.
    - destruct points; [done|exact Ho].
    - by rewrite last_snoc.
    - split.
      + destruct (dmax_cases (ap_high a) (pp_price p)) as [->| ->]; [exists ph|exists p]; set_solver.
      + destruct (dmax_le (ap_high a) (pp_price p)) as [H1 H2]. intros x [Hx| ->%list_elem_of_singleton]%elem_of_app; [|done].
        apply (dle_trans _ (ap_high a)); [by apply Hh|done].
    - split.
      + destruct (dmin_cases (ap_low a) (pp_price p)) as [->| ->]; [exists pl|exists p]; set_solver.
      + destruct (dmin_le (ap_low a) (pp_price p)) as [H1 H2]. intros x [Hx| ->%list_elem_of_singleton]%elem_of_app; [|done].
        apply (dle_trans _ (ap_low a)); [done|by apply Hl].
    - rewrite length_app. cbn. lia. }
  exists a'. split; [|done]. unfold next_aggregate. rewrite Hp, decide_True by done.
  exact (AggregatePrice_init_ohlc _ a' Hv Hoh' ltac:(done)).
Qed.

(** The first point of a bucket. *)
Lemma next_aggregate_fresh b current p :
  in_bucket b p → (∀ c, current = Some c → ap_bucket_start c ≠ b) →
  ∃ a, next_aggregate current p = Ok a ∧ ohlc_of [p] a ∧ ap_bucket_start a = b.
Proof.
  intros [Hv Hp] Hcur.
  set (a := {| ap_symbol := pp_symbol p; ap_bucket_start := b; ap_interval_seconds := 300;
    ap_open := pp_price p; ap_high := pp_price p; ap_low := pp_price p; ap_close := pp_price p;
    ap_sample_count := 1; ap_provider := pp_provider p; ap_is_derived := pp_is_derived p |}).
  assert (ohlc_of [p] a) as Hoh.
  { split; try done; (split; [exists p; set_solver|]); intros x ->%list_elem_of_singleton; apply dle_refl. }
  exists a. split; [|done]. unfold next_aggregate. rewrite Hp.
  pose proof (AggregatePrice_init_ohlc [p] a (proj2 (Forall_singleton _ _) Hv) Hoh ltac:(done)) as Ha.
  destruct current as [c|]; [|exact Ha]. rewrite decide_False by by apply Hcur. exact Ha.
Qed.

Lemma aggregate_all_same b points2 : ∀ points1 a,
  Forall (in_bucket b) (points1 ++ points2) → ohlc_of points1 a → ap_bucket_start a = b →
  ∃ a', aggregate_all (Some a) points2 = Ok (Some a') ∧ ohlc_of (points1 ++ points2) a' ∧ ap_bucket_start a' = b.
Proof.
  induction points2 as [|p points2 IH]; intros points1 a Hall Hoh Hb.
  { rewrite app_nil_r. by exists a. }
  cbn [aggregate_all]. rewrite cons_middle, (assoc_L (++)) in Hall |- *.
  destruct (next_aggregate_same b points1 a p) as (a1 & -> & Hoh1 & Hb1); [by apply Forall_app in Hall as [? _]|done..|].
  cbn [mbind result_bind]. by apply (IH (points1 ++ [p])).
Qed.

Lemma next_aggregate_valid current p a : next_aggregate current p = Ok a → valid_aggregate a.
Proof. apply AggregatePrice_init_ok. Qed.

Lemma aggregate_all_valid points : ∀ a a', valid_aggregate a →
  aggregate_all (Some a) points = Ok (Some a') → valid_aggregate a'.
Proof.
  induction points as [|p points IH]; intros a a' Ha; cbn [aggregate_all]; [by intros [= <-]|].
  intros (a1 & Ha1%next_aggregate_valid & H)%result_bind_ok. by eapply IH.
Qed.

(** The running aggregate of a symbol is the open, high, low, close and
    count of the quotes of its five-minute bucket: whatever aggregate of an
    earlier bucket precedes them, none of the points is refused. *)
Theorem aggregate_is_ohlc (current : option AggregatePrice) (b : Z) (points : list PricePoint)
    (Hne : points ≠ []) (Hall : Forall (in_bucket b) points)
    (Hcur : ∀ c, current = Some c → ap_bucket_start c ≠ b) :
  ∃ a, aggregate_all current points = Ok (Some a) ∧ ohlc_of points a ∧ ap_bucket_start a = b ∧
    valid_aggregate a.
Proof.
  destruct points as [|p points]; [done|]. cbn [aggregate_all].
  destruct (next_aggregate_fresh b current p) as (a1 & Ha1 & Hoh1 & Hb1); [by inversion Hall|done|].
  rewrite Ha1. cbn [mbind result_bind].
  destruct (aggregate_all_same b points [p] a1 Hall Hoh1 Hb1) as (a & Ha & Hoh & Hb).
  exists a. split_and!; [done..|]. eapply aggregate_all_valid; [by eapply next_aggregate_valid|done].
Qed.

(** ** Witnesses *)

Definition demo_world : ServiceWorld :=
  {| sw_hash := λ s, Z.of_nat (String.length s); sw_ny_wall := id; sw_ny_utc := id;
     sw_float_text := λ _, None |}.

Definition demo_staked : InstrumentSpec :=
  {| is_symbol := "STETH:USDC"; is_base := "STETH"; is_quote := "USDC"; is_name := "Staked Ether";
     is_description := "Staked Ether in USD Coin"; is_asset_class := CRYPTO; is_asset_type := "crypto";
     is_price_basis := "last"; is_change_basis := "rolling";
     is_yield_strategy := Some STAKING_PROVIDER_METRIC; is_dividend_strategy := None;
     is_reward_accrual_mode := Some REBASING_BALANCE; is_underlying_asset := Some "ETH";
     is_aliases := []; is_market_calendar := ALWAYS_OPEN; is_stale_after_seconds := seconds 30;
     is_quote_poll_seconds := seconds 1; is_history_enabled := true; is_history_poll_seconds := None |}.

Definition demo_registry : Registry :=
  match build_registry [demo_plugin demo_staked] with
  | Ok rg => rg
  | Raise _ => {| rg_plugins := []; rg_order := []; rg_instruments := ∅; rg_aliases := ∅ |}
  end.

Definition demo_generation : RuntimeGeneration :=
  {| gn_generation_id := "g1"; gn_revision := "r1"; gn_registry := demo_registry; gn_activated_at := 0;
     gn_catalog := None; gn_route_plan := None; gn_data_state := Some 0%nat |}.

Definition demo_service : Service :=
  {| sv_settings := {| se_metadata_poll_seconds := hours 6; se_require_free_threaded := false;
                       se_background_enabled := false; se_api_key_hashes := ["sha256:0"] |};
     sv_generations := {| gm_current := demo_generation |}; sv_states := [fresh_data_state];
     sv_history := HistoryCache.empty; sv_bound := 0; sv_provider_checkpoints := ∅;
     sv_provider_quotas := ∅; sv_ledgers := ∅; sv_storage := true; sv_storage_ready := true;
     sv_saved := []; sv_runtime_status := None; sv_coordinator := None;
     sv_collector_start_error := None; sv_api_key_configured := None |}.

Definition demo_quote (as_of price : Z) : ProviderQuote :=
  {| pq_symbol := "STETH:USDC"; pq_price := dint price; pq_as_of := as_of; pq_provider := "demo";
     pq_feed := "rest"; pq_price_basis := "last"; pq_market_status := "open"; pq_is_derived := false;
     pq_components := []; pq_fallback_level := 0; pq_license_scope := "personal"; pq_coverage := None;
     pq_market_status_as_of := None |}.

Definition demo_yield (as_of value level : Z) (provider : string) (estimate : bool) : YieldMetric :=
  {| ym_symbol := "STETH:USDC"; ym_value := dint value; ym_as_of := as_of; ym_method := provider;
     ym_provider := provider; ym_is_proxy := false; ym_components := []; ym_rate_type := Some APY;
     ym_observation_window_days := None; ym_accrual_mode := Some REBASING_BALANCE;
     ym_underlying_asset := Some "ETH"; ym_is_estimate := estimate; ym_accrual_index := None;
     ym_quality := None; ym_fallback_level := level |}.

Definition demo_publications : list publication :=
  [PubYield (demo_yield (hours 1) 3 0 "lido" false) true (Some "g1") (hours 1) (hours 1);
   PubQuote (demo_quote (hours 1) 2000) true (Some "g1") (hours 1) (hours 1)].

Lemma demo_starts : starts demo_generation 0 demo_service.
Proof. done. Qed.

Definition demo_after : Service :=
  (@publish_quote demo_world (demo_quote (hours 2) 2100) true None (hours 2) (hours 2)
     (@publish_all demo_world demo_generation 0 demo_publications demo_service)).1.

Lemma accepted_quote_served_witness :
  (∃ m, @get_quote demo_world demo_after demo_generation "STETH:USDC" (hours 2) false = Ok m ∧
        qt_price m = dint 2100 ∧ qt_as_of m = hours 2 ∧ qt_source m = source_to_wire (demo_quote (hours 2) 2100)) ∧
  ∃ m, @get_quote demo_world (@publish_all demo_world demo_generation 0
         [PubQuote (demo_quote (hours 1) 1900) true None (hours 2) (hours 2)] demo_after)
         demo_generation "STETH:USDC" (hours 2) false = Ok m ∧ hours 2 ≤ qt_as_of m.
Proof.
  apply (@accepted_quote_served demo_world demo_generation 0 demo_service demo_after demo_publications
    [PubQuote (demo_quote (hours 1) 1900) true None (hours 2) (hours 2)]
    (demo_quote (hours 2) 2100) true None (hours 2) (hours 2) (hours 2) demo_starts).
  unfold demo_after. vm_compute. reflexivity.
Defined.

Lemma served_quote_witness :
  let s := @publish_all demo_world demo_generation 0 demo_publications demo_service in
  ∃ st, state_at s 0 = Some st ∧
    match SnapshotStore.get (@sw_hash demo_world) (ds_snapshots st) "STETH:USDC" with
    | None => False
    | Some snap =>
      (∃ q, ds_last_quotes st !! "STETH:USDC" = Some q ∧ pq_as_of (qs_quote snap) ≤ pq_as_of q) ∧
      ∃ m, @get_quote demo_world s demo_generation "STETH:USDC" (hours 1) true = Ok m ∧
           @serves demo_world (sv_settings s) st demo_staked snap (hours 1) m
    end.
Proof.
  destruct (@served_quote demo_world demo_generation 0 demo_service demo_publications "STETH:USDC"
    demo_staked (hours 1) true demo_starts ltac:(vm_compute; reflexivity)) as (st & Hst & Hr).
  exists st. split; [exact Hst|]. vm_compute in Hst. injection Hst as <-.
  revert Hr. vm_compute (SnapshotStore.get _ _ _). cbv iota. intros [Hq Hr]. split; [exact Hq|].
  revert Hr. vm_compute (missing_fields _ _). intros Hr. exact Hr.
Defined.

Lemma readiness_agrees_witness :
  let s := @publish_all demo_world demo_generation 0 demo_publications demo_service in
  ∃ st ready d, state_at s 0 = Some st ∧
    @readiness demo_world s {| fts_py_gil_disabled := true; fts_gil_enabled := Some false |} (hours 1) = Ok (ready, d) ∧
    rd_missing_prices d = List.filter (@no_price demo_world st) (Registry.symbols demo_registry) ∧
    rd_incomplete_metadata d = List.filter (@lacks_metadata demo_world demo_generation st) (Registry.symbols demo_registry) ∧
    (ready = true ↔
     runtime_ok s {| fts_py_gil_disabled := true; fts_gil_enabled := Some false |} = true ∧
     has_active_api_key s = true ∧ sv_storage_ready s = true ∧
     (collectors_running s = true ∨ se_background_enabled (sv_settings s) = false) ∧
     rd_missing_prices d = [] ∧ rd_incomplete_metadata d = []).
Proof.
  apply (@readiness_agrees demo_world demo_generation 0 [demo_plugin demo_staked] demo_service
    demo_publications {| fts_py_gil_disabled := true; fts_gil_enabled := Some false |} (hours 1)).
  - vm_compute. reflexivity.
  - exact demo_starts.
Defined.

Lemma yield_arbitration_witness :
  let s := @publish_all demo_world demo_generation 0 demo_publications demo_service in
  let m := demo_yield (hours 2) 9 1 "index" true in
  let r := @publish_yield_metric demo_world m true None (hours 2) (hours 2) s in
  r.2 = Ok false ∧
  ((r.1 = s ∧ r.2 ≠ Ok true) ∨
   holds_yield 0 m (default_yield_stale_after_seconds (sv_settings s) m) r.1 ∧ True).
Proof.
  cbv zeta. split; [vm_compute; reflexivity|].
  destruct (@yield_arbitration demo_world demo_generation 0 demo_service demo_publications
    (default fresh_data_state (state_at (@publish_all demo_world demo_generation 0 demo_publications demo_service) 0))
    (demo_yield (hours 2) 9 1 "index" true) true None (hours 2) (hours 2) demo_starts
    ltac:(vm_compute; reflexivity)) as [Hl|[Hr _]]; [by left|right; by split].
Defined.

Definition demo_point (timestamp price : Z) : PricePoint :=
  {| pp_symbol := "STETH:USDC"; pp_timestamp := timestamp; pp_price := dint price; pp_provider := "demo";
     pp_is_derived := false; pp_interval := "1m" |}.

Lemma aggregate_is_ohlc_witness :
  ∃ a, aggregate_all None [demo_point 0 7; demo_point (minutes 1) 9; demo_point (minutes 2) 6; demo_point (minutes 4) 8]
         = Ok (Some a) ∧
    ohlc_of [demo_point 0 7; demo_point (minutes 1) 9; demo_point (minutes 2) 6; demo_point (minutes 4) 8] a ∧
    ap_bucket_start a = 0 ∧ valid_aggregate a.
Proof.
  apply (aggregate_is_ohlc None 0
    [demo_point 0 7; demo_point (minutes 1) 9; demo_point (minutes 2) 6; demo_point (minutes 4) 8]).
  - discriminate.
  - apply (bool_decide_unpack _). vm_compute. exact I.
  - discriminate.
Defined.
