(* ===== verification/ServiceCandidate.v ===== *)
(** * Candidate generations of the service

    A catalogue activation builds the state of its candidate while the current
    generation keeps serving.  The candidate shares the history cache with it;
    the theorems say that readers of the current generation see nothing of the
    preparation, that the collectors of a replaced generation are fenced off, and exhibit the
    one way a warm quote can shadow a newer one. *)

From S2P Require Import Prelude PyStr PyDecimal PyTime PyState Json Domain PluginApi Registry Market Analytics.
From S2P Require Import Staking Cache CacheFacts CacheReads Quota StorageRecords Wire Runtime Service ServiceFacts.
From S2P Require Import StorageHistory.

Local Open Scope string_scope.
Local Open Scope list_scope.
Local Open Scope Z_scope.

Section candidate.
Context `{ServiceWorld}.
Context (s0 : Service) (allowed : gset string).

Abbreviation fresh_loc := (length (sv_states s0)).

(** Nothing a reader of an existing generation looks at has changed: the
    states before the candidate's, and the histories of all symbols but the
    retained ones. *)
Record apart (s : Service) : Prop := {
  ap_generations : sv_generations s = sv_generations s0;
  ap_bound : sv_bound s = sv_bound s0;
  ap_settings : sv_settings s = sv_settings s0;
  ap_saved : sv_saved s = sv_saved s0;
  ap_states : ∀ k, (k < fresh_loc)%nat → state_at s k = state_at s0 k;
  ap_history : ∀ x, x ∉ allowed → HistoryCache.points (sv_history s) x = HistoryCache.points (sv_history s0) x;
}.

Lemma apart_refl : apart s0.
Proof. done. Qed.

Lemma keeps_write f : keeps apart (write_state fresh_loc f).
Proof.
  intros s [H1 H2 H3 H4 H5 H6]. split; [done..| |done]. intros k Hk. rewrite <- H5 by done.
  unfold state_at. cbn. rewrite list_lookup_alter_ne by lia. done.
Qed.

Lemma keeps_rebuild sym rg p published_at : keeps apart (rebuild sym false rg fresh_loc [p] published_at).
Proof.
  do 3 (apply keeps_bind; [by apply keeps_pure|intros ?]). case_match; [|by apply keeps_pure].
  do 3 (apply keeps_bind; [by apply keeps_pure|intros ?]). rewrite decide_False by done.
  apply keeps_bind; [by apply keeps_bind; [apply keeps_pure|intros ?; apply keeps_pure]|]. intros ?.
  apply keeps_bind; [by apply keeps_pure|]. intros ?.
  apply keeps_bind; [apply keeps_write|]. intros []. by apply keeps_pure.
Qed.

Lemma keeps_aggregate p : keeps apart (update_aggregate p fresh_loc).
Proof.
  do 2 (apply keeps_bind; [by apply keeps_pure|intros ?]).
  apply keeps_bind; [apply keeps_write|]. intros []. by apply keeps_pure.
Qed.

Lemma keeps_install rg now published_at item :
  keeps apart (install_warmed_item rg fresh_loc now published_at item).
Proof.
  do 3 (apply keeps_bind; [by apply keeps_pure|intros ?]).
  apply keeps_bind.
  { destruct (wi_dividend item); [|by apply keeps_pure].
    apply keeps_bind; [by apply keeps_pure|]. intros ?. apply keeps_write. }
  intros ?. apply keeps_bind.
  { destruct (wi_yield_metric item); [|by apply keeps_pure].
    do 2 (apply keeps_bind; [by apply keeps_pure|intros ?]). apply keeps_write. }
  intros ?. apply keeps_bind; [apply keeps_write|]. intros ?.
  apply keeps_bind; [by apply keeps_pure|]. intros point.
  apply keeps_bind; [apply keeps_rebuild|]. intros ?.
  apply keeps_bind; [apply keeps_aggregate|]. intros ?.
  apply keeps_bind; [by apply keeps_pure|]. intros complete. apply keeps_when. by apply keeps_pure.
Qed.

Lemma points_same x h h' : same_at x h h' → HistoryCache.points h x = HistoryCache.points h' x.
Proof.
  intros Hs. unfold HistoryCache.points.
  by rewrite (Hs HistoryCache.I1m : HistoryCache.one_minute h !! x = _),
    (Hs HistoryCache.I5m : HistoryCache.five_minute h !! x = _), (Hs HistoryCache.I1d : HistoryCache.daily h !! x = _).
Qed.

Lemma keeps_restore_load ps :
  Forall (λ p, pp_symbol p ∈ allowed) ps → keeps apart (history_load ps).
Proof.
  intros Hps s [H1 H2 H3 H4 H5 H6]. unfold history_load.
  destruct (HistoryCache.load (sv_history s) ps) as [h|] eqn:Hload; [|done].
  split; [done..|]. intros x Hx. cbn. rewrite <- H6 by done. apply points_same.
  eapply load_other; [|exact Hload]. eapply Forall_impl; [exact Hps|]. intros p Hp <-. done.
Qed.

Lemma keeps_restore retained restored :
  allowed = list_to_set retained → keeps apart (restore_retained_candidate_state fresh_loc retained restored).
Proof.
  intros Hall. destruct restored as [r|]; [|by apply keeps_pure]. unfold restore_retained_candidate_state.
  rewrite <- Hall. apply keeps_bind.
  { apply keeps_when, keeps_restore_load. apply Forall_forall. intros p.
    rewrite list_elem_of_In, filter_In. intros [_ Hp]. by apply bool_decide_eq_true in Hp. }
  intros ?. apply keeps_bind; [by apply keeps_pure|]. intros ?. apply keeps_write.
Qed.

Lemma prepare_apart rg warmed retained restored now published_at :
  allowed = list_to_set retained →
  apart (prepare_runtime_state rg warmed retained restored now published_at s0).1.
Proof.
  intros Hall. change (wp (prepare_runtime_state rg warmed retained restored now published_at) (λ s _, apart s) s0).
  apply wp_bind, wp_gets. apply wp_bind. unfold wp at 1.
  assert (∀ g, (state_for_generation g s0).1 = s0) as Hsame.
  { intros g. unfold state_for_generation. destruct (gn_data_state g); [|done]. by case_decide. }
  specialize (Hsame (capture_generation s0)).
  destruct (state_for_generation (capture_generation s0) s0) as [s [cur|]]; cbn in Hsame; subst s; [|done].
  apply wp_bind. unfold wp at 1, clone_state. cbn [fst snd].
  destruct (SnapshotStore.clone _ _) as [snapshots|]; cbn; [|done].
  eapply (wp_keeps apart).
  - apply keeps_bind; [by apply keeps_when, keeps_restore|]. intros ?.
    apply keeps_bind; [|by intros ?; apply keeps_pure]. apply keeps_for_each. intros item. apply keeps_install.
  - split; try done. intros k Hk. unfold state_at. cbn. by rewrite lookup_app_l.
Qed.

End candidate.

(** ** Fencing *)

Section fencing.
Context `{ServiceWorld}.

(** Nothing a collector of the generation publishes has an effect: every
    operation that carries its identity, and the second half of an asynchronous
    history that captured it, answers false and leaves the service as it is. *)
Record fenced (g : RuntimeGeneration) (s : Service) : Prop := {
  fe_quote : ∀ q persisted now published_at,
    publish_quote q persisted (Some (gn_generation_id g)) now published_at s = (s, Ok false);
  fe_history : ∀ points persisted now published_at,
    publish_history points persisted (Some (gn_generation_id g)) now published_at s = (s, Ok false);
  fe_begin : ∀ points now, publish_history_begin points (Some (gn_generation_id g)) now s = (s, Ok None);
  fe_end : ∀ points persisted loc published_at,
    publish_history_end points persisted g loc published_at s = (s, Ok false);
  fe_dividend : ∀ e persisted published_at,
    publish_dividend e persisted (Some (gn_generation_id g)) published_at s = (s, Ok false);
  fe_yield : ∀ m persisted now published_at,
    publish_yield_metric m persisted (Some (gn_generation_id g)) now published_at s = (s, Ok false);
  fe_failed : ∀ symbols, mark_source_failed symbols (Some (gn_generation_id g)) s = (s, Ok false);
}.

Lemma fenced_other g s : gn_generation_id (capture_generation s) ≠ gn_generation_id g → fenced g s.
Proof.
  intros Hid.
  assert (publication_context (Some (gn_generation_id g)) s = (s, Ok None)) as Hctx.
  { unfold publication_context, mbind, comp_bind, gets. by rewrite bool_decide_true. }
  split; intros; [unfold publish_quote|unfold publish_history|unfold publish_history_begin
    |unfold publish_history_end|unfold publish_dividend|unfold publish_yield_metric|unfold mark_source_failed];
    unfold mbind, comp_bind; try by rewrite Hctx.
  unfold gets, is_generation_current, is_current.
  rewrite bool_decide_false; [done|exact Hid].
Qed.

(** Publications in the name of any generations, with what each captured. *)
Definition publish_mixed (l : list (RuntimeGeneration * nat * publication)) (s : Service) : Service :=
  foldl (λ s p, publish p.1.1 p.1.2 p.2 s) s l.

Lemma mixed_keeps l : ∀ s, sv_generations (publish_mixed l s) = sv_generations s ∧
  length (sv_states (publish_mixed l s)) = length (sv_states s).
Proof.
  induction l as [|[[g loc] p] l IH]; intros s; [done|]. unfold publish_mixed in *. cbn.
  destruct (IH (publish g loc p s)) as [-> ->].
  exact (generations_publish g loc (sv_generations s, length (sv_states s)) p s (conj eq_refl eq_refl)).
Qed.

Lemma mixed_generations l s : sv_generations (publish_mixed l s) = sv_generations s.
Proof. apply mixed_keeps. Qed.

(** What happens to the service: publications in the name of any generations,
    with what each captured, the preparation of candidates, and activations. *)
Inductive service_event :=
| Published (g : RuntimeGeneration) (loc : nat) (p : publication)
| Prepared (rg : Registry) (warmed : list warmed_item) (retained : list string) (restored : option restored_market)
    (now published_at : Z)
| Activated (rg : Registry) (revision : string) (catalog route_plan : option Z) (data_state : option nat)
    (generation_id : option string) (uuid : string) (now : Z).

Definition on_event (e : service_event) (s : Service) : Service :=
  match e with
  | Published g loc p => publish g loc p s
  | Prepared rg warmed retained restored now published_at =>
    (prepare_runtime_state rg warmed retained restored now published_at s).1
  | Activated rg revision catalog route_plan data_state generation_id uuid now =>
    (activate_runtime_generation rg revision catalog route_plan data_state generation_id uuid now s).1
  end.

Definition run_events (l : list service_event) (s : Service) : Service := foldl (λ s e, on_event e s) s l.

(** An activation that makes the identity current again. *)
Definition reinstates (identity : string) (e : service_event) : Prop :=
  match e with
  | Activated _ _ _ _ _ generation_id uuid _ =>
    match generation_id with Some id => if truthy id then id else uuid | None => uuid end = identity
  | _ => False
  end.

Lemma activate_result rg revision catalog route_plan data_state generation_id uuid now s s' previous current :
  activate_runtime_generation rg revision catalog route_plan data_state generation_id uuid now s
    = (s', Ok (previous, current)) →
  previous = capture_generation s ∧ current = capture_generation s'.
Proof.
  unfold activate_runtime_generation, mbind, comp_bind.
  set (m := match data_state with Some loc => mret loc | None => _ end).
  assert (sv_generations (m s).1 = sv_generations s) as Hm.
  { subst m. destruct data_state; [done|]. unfold mbind, comp_bind, gets.
    apply (generations_state_for (sv_generations s, length (sv_states s)) (capture_generation s) s (conj eq_refl eq_refl)). }
  destruct (m s) as [s1 [loc|]]; cbn in Hm; [|done].
  unfold swap_generation, activate. cbn. intros [= <- <- <-]. split; [|done].
  unfold capture_generation, capture. by rewrite Hm.
Qed.

Lemma activate_event rg revision catalog route_plan data_state generation_id uuid now s :
  let s' := (activate_runtime_generation rg revision catalog route_plan data_state generation_id uuid now s).1 in
  sv_generations s' = sv_generations s ∨
  gn_generation_id (capture_generation s') =
    match generation_id with Some id => if truthy id then id else uuid | None => uuid end.
Proof.
  cbv zeta. unfold activate_runtime_generation, mbind, comp_bind.
  set (m := match data_state with Some loc => mret loc | None => _ end).
  assert (sv_generations (m s).1 = sv_generations s) as Hm.
  { subst m. destruct data_state; [done|]. unfold mbind, comp_bind, gets.
    apply (generations_state_for (sv_generations s, length (sv_states s)) (capture_generation s) s (conj eq_refl eq_refl)). }
  destruct (m s) as [s1 [loc|]]; cbn in Hm; [by right|by left].
Qed.

Lemma event_keeps_other identity e s : ¬ reinstates identity e →
  gn_generation_id (capture_generation s) ≠ identity → gn_generation_id (capture_generation (on_event e s)) ≠ identity.
Proof.
  intros He Hs. destruct e as [g loc p|rg warmed retained restored now published_at
    |rg revision catalog route_plan data_state generation_id uuid now]; cbn [on_event].
  - unfold capture_generation in *. change (publish g loc p s) with (publish_mixed [(g, loc, p)] s).
    by rewrite mixed_generations.
  - destruct (prepare_apart s (list_to_set retained) rg warmed retained restored now published_at eq_refl) as [Hg _ _ _ _ _].
    unfold capture_generation in *. by rewrite Hg.
  - destruct (activate_event rg revision catalog route_plan data_state generation_id uuid now s) as [Hg| ->]; [|exact He].
    unfold capture_generation in *. by rewrite Hg.
Qed.

Lemma events_keep_other identity l : ∀ s, Forall (λ e, ¬ reinstates identity e) l →
  gn_generation_id (capture_generation s) ≠ identity → gn_generation_id (capture_generation (run_events l s)) ≠ identity.
Proof.
  induction l as [|e l IH]; intros s Hl Hs; [done|]. apply Forall_cons in Hl as [He Hl].
  apply (IH (on_event e s)); [done|]. by apply event_keeps_other.
Qed.

End fencing.

(** ** Properties *)

(** C5: after a generation has been replaced its collectors are fenced off: whatever
    the collectors of any generation publish, whatever candidates are prepared
    and whatever other generations are activated afterwards, until an activation
    makes the identity of the former generation current again, as a rollback
    does, each of its publications answers false and leaves the service exactly
    as it is, the second half of a history that was being merged during an
    activation included.  This holds when the replacing generation has another
    identity than the one it replaces. *)
Theorem stale_generation_fenced `{ServiceWorld} (s s' : Service) (rg : Registry) (revision : string)
    (catalog route_plan : option Z) (data_state : option nat) (generation_id : option string)
    (uuid : string) (now : Z) (previous current : RuntimeGeneration) (l : list service_event)
    (Hactivate : activate_runtime_generation rg revision catalog route_plan data_state generation_id
                   uuid now s = (s', Ok (previous, current)))
    (Hfresh : gn_generation_id current ≠ gn_generation_id previous)
    (Hothers : Forall (λ e, ¬ reinstates (gn_generation_id previous) e) l) :
  previous = capture_generation s ∧ fenced previous (run_events l s').
Proof.
  apply activate_result in Hactivate as [? ->]. split; [done|]. by apply fenced_other, events_keep_other.
Qed.

(** C17: preparing a candidate is invisible to the readers of the current
    generation, whether it succeeds or raises half-way: the current generation,
    every read of it, what was handed to the storage, and the histories of all
    symbols outside the retained ones are what they were. *)
Theorem candidate_isolated `{ServiceWorld} (s : Service) (rg : Registry) (warmed : list warmed_item)
    (retained : list string) (restored : option restored_market) (now published_at : Z)
    (st : data_state) (loc : nat)
    (Hloc : gn_data_state (capture_generation s) = Some loc) (Hst : state_at s loc = Some st) :
  let s' := (prepare_runtime_state rg warmed retained restored now published_at s).1 in
  capture_generation s' = capture_generation s ∧ sv_saved s' = sv_saved s ∧
  (∀ sym t required, get_quote s' (capture_generation s') sym t required =
                     get_quote s (capture_generation s) sym t required) ∧
  ∀ x, x ∉ retained → HistoryCache.points (sv_history s') x = HistoryCache.points (sv_history s) x.
Proof.
  cbv zeta. destruct (prepare_apart s (list_to_set retained) rg warmed retained restored now published_at eq_refl)
    as [Hg Hb Hse Hsa Hstates Hh].
  assert (capture_generation (prepare_runtime_state rg warmed retained restored now published_at s).1
          = capture_generation s) as E by (unfold capture_generation; by rewrite Hg).
  split_and!; [done|done| |].
  - intros sym t required. rewrite E. unfold get_quote. rewrite Hloc. cbn [mbind option_bind].
    rewrite Hstates by (eapply lookup_lt_Some; exact Hst). by rewrite Hse.
  - intros x Hx. apply Hh. by rewrite elem_of_list_to_set.
Qed.

(** ** Witnesses *)

Definition demo_warmed : list warmed_item :=
  [{| wi_symbol := "STETH:USDC"; wi_quote := demo_quote (hours 1) 1800; wi_dividend := None;
      wi_yield_metric := Some (demo_yield (hours 1) 3 0 "lido" false) |}].

Definition demo_prepared : Service * result nat :=
  @prepare_runtime_state demo_world demo_registry demo_warmed ["STETH:USDC"] None (hours 2) (hours 2) demo_after.

Definition demo_candidate (loc : nat) : RuntimeGeneration :=
  {| gn_generation_id := "g2"; gn_revision := "r2"; gn_registry := demo_registry;
     gn_activated_at := hours 2; gn_catalog := None; gn_route_plan := None; gn_data_state := Some loc |}.

Lemma candidate_isolated_witness :
  capture_generation demo_prepared.1 = demo_generation ∧
  (∀ sym t required, @get_quote demo_world demo_prepared.1 demo_generation sym t required =
                     @get_quote demo_world demo_after demo_generation sym t required) ∧
  HistoryCache.points (sv_history demo_prepared.1) "ETH:USDC" =
  HistoryCache.points (sv_history demo_after) "ETH:USDC".
Proof.
  destruct (@candidate_isolated demo_world demo_after demo_registry demo_warmed ["STETH:USDC"] None
              (hours 2) (hours 2)
              (match state_at demo_after 0 with Some st => st | None => fresh_data_state end) 0%nat
              ltac:(vm_compute; reflexivity) ltac:(vm_compute; reflexivity)) as (Hg & _ & Hq & Hh).
  split; [|split].
  - exact Hg.
  - exact Hq.
  - apply Hh. intros Hin. apply list_elem_of_singleton in Hin. discriminate Hin.
Defined.

Definition demo_events : list service_event :=
  [Published demo_generation 0 (PubQuote (demo_quote (hours 1) 2) true None (hours 1) (hours 1));
   Activated demo_registry "r3" None None None (Some "g3") "uuid-3" (hours 2);
   Activated demo_registry "r2" None None None (Some "uuid-2") "uuid-4" (hours 2)].

Lemma stale_generation_fenced_witness :
  let r := activate_runtime_generation demo_registry "r2" None None None None "uuid-2" (hours 2) demo_service in
  let s := @run_events demo_world demo_events r.1 in
  gn_generation_id (capture_generation s) = "uuid-2" ∧
  @publish_quote demo_world (demo_quote (hours 2) 1) true (Some "g1") (hours 2) (hours 2) s = (s, Ok false).
Proof.
  cbv zeta. split; [vm_compute; reflexivity|].
  apply (@fe_quote demo_world demo_generation _
    (proj2 (@stale_generation_fenced demo_world demo_service
      (activate_runtime_generation demo_registry "r2" None None None None "uuid-2" (hours 2) demo_service).1
      demo_registry "r2" None None None None "uuid-2" (hours 2) demo_generation
      {| gn_generation_id := "uuid-2"; gn_revision := "r2"; gn_registry := demo_registry;
         gn_activated_at := hours 2; gn_catalog := None; gn_route_plan := None; gn_data_state := Some 0%nat |}
      demo_events eq_refl ltac:(discriminate)
      ltac:(repeat (apply Forall_cons; split; [first [exact id|discriminate]|]); constructor)))).
Defined.

(** The warm bundle was fetched before the quote the current generation serves
    (an hour before, here): the candidate nevertheless serves the older price,
    and reports it with the staleness of the newer snapshot that its snapshot
    store has kept. *)
Lemma warm_install_serves_older :
  demo_prepared.2 = Ok 1%nat ∧
  (∃ m, @get_quote demo_world demo_prepared.1 demo_generation "STETH:USDC" (hours 2) false = Ok m ∧
        qt_price m = dint 2100 ∧ qt_as_of m = hours 2) ∧
  ∃ m, @get_quote demo_world demo_prepared.1 (demo_candidate 1) "STETH:USDC" (hours 2) false = Ok m ∧
       qt_price m = dint 1800 ∧ qt_as_of m = hours 1 ∧
       qt_quality m = {| qm_stale := false; qm_staleness_ms := 0 |}.
Proof.
  split; [vm_compute; reflexivity|split].
  - eexists. split; [vm_compute; reflexivity|done].
  - eexists. split; [vm_compute; reflexivity|done].
Qed.
