(* ===== verification/CollectorSchedule.v ===== *)
(** * The quote scheduler ([_quote_scheduler_loop] of [collectors.py])

    One loop starts a poll for every symbol when it is due, at most 32 at a
    time, and puts the symbol back when its poll is done.  The heap is the
    list of its entries in the order [heapq] pops them. *)

From S2P Require Import Prelude PyStr PyTime.

Local Open Scope string_scope.
Local Open Scope list_scope.
Local Open Scope Z_scope.

(** An entry of the heap: the instant it is due, its sequence number, which is
    unique, and the symbol. *)
Record entry := {
  en_due : Z;
  en_seq : nat;
  en_symbol : string;
}.

(** The order of the tuples. *)
Definition entry_le (a b : entry) : Prop :=
  en_due a < en_due b ∨ en_due a = en_due b ∧ (en_seq a ≤ en_seq b)%nat.

#[export] Instance entry_le_dec a b : Decision (entry_le a b).
Proof. unfold entry_le. apply _. Defined.

(** [heapq.heappush] *)
Fixpoint heappush (e : entry) (l : list entry) : list entry :=
  match l with
  | [] => [e]
  | x :: l' => if decide (entry_le e x) then e :: l else x :: heappush e l'
  end.

Record scheduler := {
  sc_queue : list entry;
  sc_sequence : nat;             (* the next number of the counter *)
  sc_inflight : list string;     (* the symbols being polled *)
  sc_next : gmap string Z;       (* [_quote_next_refresh_at] *)
}.

Definition max_inflight : nat := 32.

(** [heappush(queue, (due_at, next(sequence), symbol))] with the note of when it
    is due. *)
Definition schedule (symbol : string) (due : Z) (s : scheduler) : scheduler :=
  {| sc_queue := heappush {| en_due := due; en_seq := sc_sequence s; en_symbol := symbol |} (sc_queue s);
     sc_sequence := S (sc_sequence s); sc_inflight := sc_inflight s;
     sc_next := <[symbol := due]> (sc_next s) |}.

(** Before the loop: the active symbols in the order of the registry, due as
    noted or now. *)
Definition scheduler_start (active : list string) (next : gmap string Z) (current : Z) : scheduler :=
  let kept := filter (λ kv : string * Z, kv.1 ∈ active) next in
  foldl (λ s symbol, schedule symbol (default current (kept !! symbol)) s)
    {| sc_queue := []; sc_sequence := 0; sc_inflight := []; sc_next := kept |} active.

(** The inner loop of a turn: the entries left and the polls under way. *)
Fixpoint launch (now : Z) (queue : list entry) (inflight : list string) : list entry * list string :=
  match queue with
  | [] => ([], inflight)
  | e :: queue' =>
    if decide (en_due e ≤ now ∧ (length inflight < max_inflight)%nat)
    then launch now queue' (inflight ++ [en_symbol e])
    else (queue, inflight)
  end.

Definition turn (now : Z) (s : scheduler) : scheduler :=
  let '(queue, inflight) := launch now (sc_queue s) (sc_inflight s) in
  {| sc_queue := queue; sc_sequence := sc_sequence s; sc_inflight := inflight; sc_next := sc_next s |}.

(** How long the loop waits after a turn: a sleep, or until a poll is done and
    at most for the time given. *)
Inductive waiting :=
| Sleep (wait : Z)
| UntilDone (timeout : option Z).

Definition head_wait (now : Z) (queue : list entry) : Z :=
  match queue with
  | e :: _ => Z.min (Z.max 0 (en_due e - now)) (seconds 1)
  | [] => 0
  end.

Definition turn_wait (now : Z) (s : scheduler) : waiting :=
  if decide (sc_inflight s = []) then Sleep (head_wait now (sc_queue s))
  else if decide ((length (sc_inflight s) < max_inflight)%nat ∧ sc_queue s ≠ [])
  then UntilDone (Some (head_wait now (sc_queue s)))
  else UntilDone None.

(** When a symbol whose poll answered [interval] at [clock] is due again. *)
Definition due_after (clock interval : Z) : Z := clock + Z.max 250000 interval.

(** A poll is done. *)
Definition poll_done (symbol : string) (interval clock : Z) (s : scheduler) : scheduler :=
  schedule symbol (due_after clock interval)
    {| sc_queue := sc_queue s; sc_sequence := sc_sequence s;
       sc_inflight := filter (λ x, x ≠ symbol) (sc_inflight s); sc_next := sc_next s |}.

(** What happens to the loop. *)
Inductive event :=
| Turn (now : Z)
| Done (symbol : string) (interval clock : Z).

(** A poll that is not under way cannot be done. *)
Definition step (s : scheduler) (e : event) : scheduler :=
  match e with
  | Turn now => turn now s
  | Done symbol interval clock =>
    if decide (symbol ∈ sc_inflight s) then poll_done symbol interval clock s else s
  end.

Definition run (s : scheduler) (l : list event) : scheduler := foldl step s l.

(** The symbols whose poll a turn starts. *)
Definition started (now : Z) (s : scheduler) : list string :=
  drop (length (sc_inflight s)) (sc_inflight (turn now s)).

(** The end of the last poll of a symbol, and the interval it answered. *)
Fixpoint last_done (symbol : string) (s : scheduler) (l : list event) : option (Z * Z) :=
  match l with
  | [] => None
  | e :: l' =>
    match last_done symbol (step s e) l' with
    | Some r => Some r
    | None =>
      match e with
      | Done x interval clock =>
        if decide (x = symbol ∧ symbol ∈ sc_inflight s) then Some (clock, interval) else None
      | Turn _ => None
      end
    end
  end.

(** ** Lemmas *)

Lemma heappush_perm e l : heappush e l ≡ₚ e :: l.
Proof.
  induction l as [|x l IH]; cbn; [done|]. case_decide; [done|]. rewrite IH. apply Permutation_swap.
Qed.

Lemma entry_le_total a b : entry_le a b ∨ entry_le b a.
Proof. unfold entry_le. lia. Qed.

Lemma entry_le_trans a b c : entry_le a b → entry_le b c → entry_le a c.
Proof. unfold entry_le. lia. Qed.

Lemma heappush_sorted e l : StronglySorted entry_le l → StronglySorted entry_le (heappush e l).
Proof.
  induction 1 as [|x l Hs IH Hall]; cbn; [repeat constructor|]. case_decide as Hle.
  - constructor; [by constructor|]. constructor; [done|]. eapply Forall_impl; [exact Hall|].
    intros y Hy. by eapply entry_le_trans.
  - constructor; [done|]. rewrite heappush_perm. constructor; [|done].
    destruct (entry_le_total e x); [done|done].
Qed.

(** The queue is in order, every symbol is either queued once or being polled,
    at most 32 are, and the queue agrees with the note of when each is due. *)
Record scheduled (active : list string) (s : scheduler) : Prop := {
  sd_sorted : StronglySorted entry_le (sc_queue s);
  sd_symbols : (en_symbol <$> sc_queue s) ++ sc_inflight s ≡ₚ active;
  sd_inflight : (length (sc_inflight s) ≤ max_inflight)%nat;
  sd_due : ∀ e, e ∈ sc_queue s → sc_next s !! en_symbol e = Some (en_due e);
}.

Lemma schedule_ok active symbol due s :
  symbol ∉ active → scheduled active s → scheduled (symbol :: active) (schedule symbol due s).
Proof.
  intros Hnew [Hs Hsym Hin Hdue]. split; cbn [schedule sc_queue sc_inflight sc_next].
  - by apply heappush_sorted.
  - rewrite heappush_perm. cbn. by rewrite Hsym.
  - done.
  - intros e. rewrite heappush_perm, elem_of_cons. intros [->|He]; [by rewrite lookup_insert_eq|].
    rewrite lookup_insert_ne; [by apply Hdue|]. intros ->. apply Hnew. rewrite <- Hsym.
    apply elem_of_app. left. apply list_elem_of_fmap. by exists e.
Qed.

Lemma scheduler_start_ok active next current :
  NoDup active → scheduled active (scheduler_start active next current).
Proof.
  unfold scheduler_start. set (kept := filter _ next). set (s0 := {| sc_queue := [] |}).
  assert (∀ l s done_, NoDup (l ++ done_) → scheduled done_ s →
    scheduled (reverse l ++ done_)
      (foldl (λ s symbol, schedule symbol (default current (kept !! symbol)) s) s l)) as Hg.
  { induction l as [|x l IH]; intros s done_ Hnd Hs; [done|]. cbn [foldl]. rewrite reverse_cons, <- app_assoc.
    cbn in Hnd. apply NoDup_cons in Hnd as [Hx Hnd]. apply IH.
    - cbn. rewrite <- Permutation_middle. by apply NoDup_cons.
    - apply schedule_ok; [|done]. intros Hin. apply Hx, elem_of_app. by right. }
  intros Hnd. destruct (Hg active s0 []) as [H1 H2 H3 H4].
  { by rewrite app_nil_r. }
  { split; [constructor|done|cbn; lia|by intros e ?%elem_of_nil]. }
  rewrite app_nil_r in H2. split; [done| |done|done].
  rewrite H2. apply reverse_Permutation.
Qed.

Lemma launch_spec now queue : ∀ inflight queue' inflight',
  launch now queue inflight = (queue', inflight') →
  ∃ starts, queue = starts ++ queue' ∧ inflight' = inflight ++ (en_symbol <$> starts) ∧
    Forall (λ e, en_due e ≤ now) starts ∧
    ((length inflight ≤ max_inflight)%nat → (length inflight' ≤ max_inflight)%nat) ∧
    ((max_inflight ≤ length inflight')%nat ∨ ∀ e, head queue' = Some e → now < en_due e).
Proof.
  induction queue as [|e queue IH]; intros inflight queue' inflight'; cbn.
  { intros [= <- <-]. exists []. split_and!; [done|by rewrite app_nil_r|done|done|by right]. }
  case_decide as Hgo.
  - intros Hl. destruct (IH _ _ _ Hl) as (starts & -> & -> & Hdue & Hlen & Hend).
    exists (e :: starts). split_and!; [done| | | |done].
    + by rewrite <- app_assoc.
    + constructor; [lia|done].
    + intros _. apply Hlen. rewrite length_app. cbn. lia.
  - intros [= <- <-]. exists []. split_and!; [done|by rewrite app_nil_r|done|done|].
    destruct (decide (length inflight < max_inflight)%nat); [right|left; lia].
    intros x [= <-]. lia.
Qed.

Lemma turn_spec now s :
  ∃ starts, sc_queue s = starts ++ sc_queue (turn now s) ∧
    sc_inflight (turn now s) = sc_inflight s ++ (en_symbol <$> starts) ∧
    started now s = en_symbol <$> starts ∧ Forall (λ e, en_due e ≤ now) starts ∧
    ((length (sc_inflight s) ≤ max_inflight)%nat → (length (sc_inflight (turn now s)) ≤ max_inflight)%nat) ∧
    ((max_inflight ≤ length (sc_inflight (turn now s)))%nat ∨
     ∀ e, head (sc_queue (turn now s)) = Some e → now < en_due e) ∧
    sc_next (turn now s) = sc_next s.
Proof.
  unfold started, turn. destruct (launch now _ _) as [queue inflight] eqn:Hl. cbn [sc_queue sc_inflight sc_next].
  apply launch_spec in Hl as (starts & Hq & -> & Hdue & Hlen & Hend). exists starts.
  split_and!; [done|done| |done|done|done|done]. by rewrite drop_app_length.
Qed.

Lemma sorted_app_tail l1 l2 : StronglySorted entry_le (l1 ++ l2) → StronglySorted entry_le l2.
Proof. induction l1; [done|]. intros [H _]%StronglySorted_inv. auto. Qed.

Lemma turn_ok active now s : scheduled active s → scheduled active (turn now s).
Proof.
  intros [Hs Hsym Hin Hdue]. destruct (turn_spec now s) as (starts & Hq & Hi & _ & _ & Hlen & _ & Hn).
  rewrite Hq in Hs, Hsym, Hdue. split.
  - by eapply sorted_app_tail.
  - rewrite Hi. rewrite <- Hsym, fmap_app. solve_Permutation.
  - auto.
  - intros e He. rewrite Hn. apply Hdue, elem_of_app. by right.
Qed.

Lemma filter_ne_perm (x : string) l : NoDup l → x ∈ l → l ≡ₚ x :: filter (λ y, y ≠ x) l.
Proof.
  induction 1 as [|y l Hy Hnd IH]; [by intros ?%elem_of_nil|]. rewrite filter_cons.
  intros [->|Hx]%elem_of_cons.
  - rewrite decide_False by (intros Hn; by apply Hn). rewrite filter_all; [done|].
    by intros z Hz ->.
  - rewrite decide_True by (intros ->; done). rewrite IH at 1 by done. apply Permutation_swap.
Qed.

Lemma done_ok active symbol interval clock s :
  NoDup active → symbol ∈ sc_inflight s → scheduled active s →
  scheduled active (poll_done symbol interval clock s).
Proof.
  intros Hnd Hin [Hs Hsym Hlen Hdue]. rewrite <- Hsym in Hnd. apply NoDup_app in Hnd as (_ & Hdisj & Hnd).
  pose proof (filter_ne_perm symbol _ Hnd Hin) as Hp.
  assert (scheduled ((en_symbol <$> sc_queue s) ++ filter (λ y, y ≠ symbol) (sc_inflight s))
    {| sc_queue := sc_queue s; sc_sequence := sc_sequence s;
       sc_inflight := filter (λ x, x ≠ symbol) (sc_inflight s); sc_next := sc_next s |}) as Hw.
  { split; cbn; [done|done| |done]. apply Permutation_length in Hp. cbn in Hp. lia. }
  eapply (schedule_ok _ symbol (due_after clock interval)) in Hw.
  - destruct Hw as [H1 H2 H3 H4]. split; [done| |done|done]. unfold poll_done. rewrite H2, <- Hsym.
    rewrite Hp at 2. solve_Permutation.
  - intros [Hq|Hq]%elem_of_app; [by apply (Hdisj symbol)|]. apply list_elem_of_filter in Hq. naive_solver.
Qed.

Lemma run_ok active l : ∀ s, NoDup active → scheduled active s → scheduled active (run s l).
Proof.
  induction l as [|e l IH]; intros s Hnd Hs; [done|]. apply IH; [done|]. destruct e; cbn [step].
  - by apply turn_ok.
  - case_decide; [by apply done_ok|done].
Qed.

(** A symbol is due no earlier than its last poll said. *)
Lemma last_done_next active symbol l : ∀ s, NoDup active → scheduled active s →
  match last_done symbol s l with
  | Some (clock, interval) => sc_next (run s l) !! symbol = Some (due_after clock interval)
  | None => sc_next (run s l) !! symbol = sc_next s !! symbol
  end.
Proof.
  induction l as [|e l IH]; intros s Hnd Hs; [done|]. cbn [last_done run foldl].
  assert (scheduled active (step s e)) as Hs' by exact (run_ok active [e] s Hnd Hs).
  specialize (IH (step s e) Hnd Hs'). change (foldl step (step s e) l) with (run (step s e) l).
  destruct (last_done symbol (step s e) l) as [[clock interval]|]; [done|]. rewrite IH.
  destruct e as [now|x interval clock]; cbn [step].
  - destruct (turn_spec now s) as (starts & _ & _ & _ & _ & _ & _ & ->). done.
  - case_decide as Hx.
    + destruct Hx as [-> Hx]. rewrite decide_True by done. cbn. by rewrite lookup_insert_eq.
    + case_decide as Hin; [|done]. cbn. rewrite lookup_insert_ne; [done|]. intros ->. by apply Hx.
Qed.

Lemma queue_head_le s e x : StronglySorted entry_le (e :: s) → x ∈ s → en_due e ≤ en_due x.
Proof.
  intros [_ Hall]%StronglySorted_inv Hx. rewrite Forall_forall in Hall. specialize (Hall x Hx).
  unfold entry_le in Hall. lia.
Qed.

Lemma head_wait_due now queue x : StronglySorted entry_le queue → x ∈ queue →
  0 ≤ head_wait now queue ≤ seconds 1 ∧ now + head_wait now queue ≤ Z.max now (en_due x).
Proof.
  intros Hs Hx. destruct queue as [|e queue]; [by apply elem_of_nil in Hx|]. cbn [head_wait].
  assert (en_due e ≤ en_due x); [|unfold seconds, second_us; lia].
  apply elem_of_cons in Hx as [->|Hx]; [done|by eapply queue_head_le].
Qed.

(** ** Properties *)

Section properties.
Context (active : list string) (next : gmap string Z) (current : Z) (l : list event).

Abbreviation reached := (run (scheduler_start active next current) l).

(** C24: whatever order the polls end in, the scheduler never has two polls of a
    symbol under way, and starts the next one no sooner than the interval the
    last one answered, and no sooner than a quarter of a second after it. *)
Theorem poll_spacing (now : Z) (symbol : string) (Hactive : NoDup active)
    (Hstart : symbol ∈ started now reached) :
  symbol ∉ sc_inflight reached ∧
  ∀ clock interval, last_done symbol (scheduler_start active next current) l = Some (clock, interval) →
    clock + interval ≤ now ∧ clock + 250000 ≤ now.
Proof.
  pose proof (scheduler_start_ok active next current Hactive) as H0.
  pose proof (run_ok active l _ Hactive H0) as [Hs Hsym _ Hdue].
  destruct (turn_spec now reached) as (starts & Hq & _ & Hst & Hle & _).
  rewrite Hst in Hstart. apply list_elem_of_fmap in Hstart as (e & -> & He).
  assert (e ∈ sc_queue reached) as Heq by (rewrite Hq; apply elem_of_app; by left). split.
  - intros Hin. eapply NoDup_Permutation_proper in Hactive; [|exact Hsym].
    apply NoDup_app in Hactive as (_ & Hdisj & _).
    apply (Hdisj (en_symbol e)); [|done]. apply list_elem_of_fmap. by exists e.
  - intros clock interval Hlast. pose proof (last_done_next active (en_symbol e) l _ Hactive H0) as Hn.
    rewrite Hlast, (Hdue e Heq) in Hn. injection Hn as Hn. rewrite Forall_forall in Hle.
    specialize (Hle e He). unfold due_after in Hn. lia.
Qed.

(** C25: no symbol is forgotten and none is passed over: after every turn each active
    symbol is polled or queued, at most 32 are polled, those a turn starts were
    due before those it leaves, a symbol that is due is left only while 32 polls
    are under way, and the wait that follows ends by the time the next one is
    due. *)
Theorem scheduler_keeps_up (now : Z) (Hactive : NoDup active) :
  let s := turn now reached in
  (∀ symbol, symbol ∈ active ↔ symbol ∈ sc_inflight s ∨ ∃ e, e ∈ sc_queue s ∧ en_symbol e = symbol) ∧
  (length (sc_inflight s) ≤ max_inflight)%nat ∧
  (∀ symbol e, symbol ∈ started now reached → e ∈ sc_queue s →
     ∃ e', e' ∈ sc_queue reached ∧ en_symbol e' = symbol ∧ entry_le e' e) ∧
  (∀ e, e ∈ sc_queue s → en_due e ≤ now → length (sc_inflight s) = max_inflight) ∧
  match turn_wait now s with
  | Sleep wait | UntilDone (Some wait) =>
    ∀ e, e ∈ sc_queue s → 0 ≤ wait ≤ seconds 1 ∧ now + wait ≤ Z.max now (en_due e)
  | UntilDone None => length (sc_inflight s) = max_inflight ∨ sc_queue s = []
  end.
Proof.
  pose proof (scheduler_start_ok active next current Hactive) as H0.
  pose proof (run_ok active l _ Hactive H0) as Hok. pose proof (turn_ok active now _ Hok) as Hok'.
  destruct (turn_spec now reached) as (starts & Hq & _ & Hst & Hle & _ & Hend & _).
  destruct Hok as [Hs _ _ _]. destruct Hok' as [Hs' Hsym' Hlen' Hdue']. cbv zeta. split_and!.
  - intros symbol. transitivity (symbol ∈ (en_symbol <$> sc_queue (turn now reached)) ++ sc_inflight (turn now reached)).
    + apply elem_of_Permutation_proper. by symmetry.
    + rewrite elem_of_app, list_elem_of_fmap. naive_solver.
  - done.
  - intros symbol e Hsymbol He. rewrite Hst in Hsymbol. apply list_elem_of_fmap in Hsymbol as (e' & -> & He').
    exists e'. split_and!; [rewrite Hq; apply elem_of_app; by left|done|]. rewrite Hq in Hs.
    clear -Hs He He'. induction starts as [|x starts IH]; [by apply elem_of_nil in He'|].
    apply StronglySorted_inv in Hs as [Hs Hall]. apply elem_of_cons in He' as [->|He']; [|auto].
    rewrite Forall_forall in Hall. apply Hall, elem_of_app. by right.
  - intros e He Hdue. destruct Hend as [Hend|Hend]; [lia|]. exfalso.
    destruct (sc_queue (turn now reached)) as [|e0 queue]; [by apply elem_of_nil in He|].
    specialize (Hend e0 eq_refl). apply elem_of_cons in He as [->|He]; [lia|].
    pose proof (queue_head_le _ _ _ Hs' He). lia.
  - unfold turn_wait. case_decide; [intros e He; by apply head_wait_due|].
    case_decide as Hc; [intros e He; by apply head_wait_due|].
    destruct (sc_queue (turn now reached)) as [|e0 queue]; [by right|left].
    destruct (decide (length (sc_inflight (turn now reached)) < max_inflight)%nat); [|lia].
    exfalso. by apply Hc.
Qed.

End properties.

(** ** Witnesses *)

Definition demo_events : list event := [Turn 0; Done "BTC:USDC" (seconds 2) 100000; Turn (seconds 1)].

Lemma poll_spacing_witness :
  "BTC:USDC" ∈ started (seconds 3) (run (scheduler_start ["BTC:USDC"; "ETH:USDC"] ∅ 0) demo_events) ∧
  100000 + seconds 2 ≤ seconds 3.
Proof.
  assert ("BTC:USDC" ∈ started (seconds 3) (run (scheduler_start ["BTC:USDC"; "ETH:USDC"] ∅ 0) demo_events))
    as Hin by (vm_compute; left).
  split; [exact Hin|].
  apply (poll_spacing ["BTC:USDC"; "ETH:USDC"] ∅ 0 demo_events (seconds 3) "BTC:USDC"
    ltac:(apply NoDup_cons; split; [by intros ?%list_elem_of_singleton|apply NoDup_singleton]) Hin).
  vm_compute. reflexivity.
Defined.

Lemma scheduler_keeps_up_witness :
  let s := turn (seconds 1) (run (scheduler_start ["BTC:USDC"; "ETH:USDC"] ∅ 0) demo_events) in
  "BTC:USDC" ∈ sc_inflight s ∨ ∃ e, e ∈ sc_queue s ∧ en_symbol e = "BTC:USDC".
Proof.
  cbv zeta.
  apply (scheduler_keeps_up ["BTC:USDC"; "ETH:USDC"] ∅ 0 demo_events (seconds 1)
    ltac:(apply NoDup_cons; split; [by intros ?%list_elem_of_singleton|apply NoDup_singleton])).
  left.
Defined.
