(* ===== verification/Collector.v ===== *)
(** * Collectors ([collectors.py])

    The collector of a generation polls the providers through the router,
    coalesces what they answer, and publishes it to the service.  An awaited
    call (of the router, or of the storage) is a computation on the whole world:
    it delivers its outcome and whatever other tasks did meanwhile.  Clock
    readings are arguments.  Metrics, statistics of the streams and logging are
    not modelled. *)

From S2P Require Import Prelude PyStr PyDecimal PyTime PyIso PyState Domain PluginApi Registry Market.
From S2P Require Import Json StorageRecords Synthetic Fx Router Cache CollectorHistory Service.

Local Open Scope string_scope.
Local Open Scope list_scope.
Local Open Scope Z_scope.

(** What the collector reads of a provider object besides its methods; a number
    that the object does not define is the default the code passes to
    [getattr]. *)
Class ProviderTraits := {
  pt_minimum_quote_poll : Provider → option Z;
  pt_closed_market_poll : Provider → option Z;
  pt_stream_suppression : Provider → Z;
  pt_stream_recheck : Provider → Z;
  pt_stream_quotes : Provider → bool;          (* it can stream *)
  pt_stream_symbols : Provider → list string;  (* what it declares, as declared *)
}.

(** The settings the collector reads. *)
Record collector_settings := {
  cs_metadata_poll_seconds : Z;
  cs_metadata_retry_seconds : Z;
  cs_history_poll_seconds : Z;
}.

(** What a reconciliation replaces: the generation the collector works for and
    its provider graph, [graph.providers] in the order of the dictionary.  A
    history policy is the poll interval and the days of backfill. *)
Record target := {
  tg_registry : Registry;
  tg_generation_id : option string;
  tg_providers : list (string * Provider);
  tg_router : Router;
  tg_history_policies : gmap string (option Z * option Z);
}.

(** When the next poll, refresh and backfill of a symbol is due, on the
    monotonic clock. *)
Record progress := {
  pg_quote_next : gmap string Z;
  pg_metadata_next : gmap string Z;
  pg_history_next : gmap string Z;
  pg_history_next_empty : Z;
}.

Definition set_pg_quote_next (v : gmap string Z) (x : progress) : progress :=
  {| pg_quote_next := v; pg_metadata_next := pg_metadata_next x; pg_history_next :=
     pg_history_next x; pg_history_next_empty := pg_history_next_empty x |}.

Definition set_pg_metadata_next (v : gmap string Z) (x : progress) : progress :=
  {| pg_quote_next := pg_quote_next x; pg_metadata_next := v; pg_history_next :=
     pg_history_next x; pg_history_next_empty := pg_history_next_empty x |}.

Definition set_pg_history_next (v : gmap string Z) (x : progress) : progress :=
  {| pg_quote_next := pg_quote_next x; pg_metadata_next := pg_metadata_next x;
     pg_history_next := v; pg_history_next_empty := pg_history_next_empty x |}.

Definition set_pg_history_next_empty (v : Z) (x : progress) : progress :=
  {| pg_quote_next := pg_quote_next x; pg_metadata_next := pg_metadata_next x;
     pg_history_next := pg_history_next x; pg_history_next_empty := v |}.

(** The state of the historical backfill. *)
Record backfill := {
  bf_equity_fallback_at : gmap string Z;
  bf_daily_retry_at : gmap string Z;
  bf_daily_preseeded : gset string;
  bf_fx_daily_retry : gset string;
  bf_fx_failed : gset (string * string);
  bf_fx_cycle : gmap string (list string);
  bf_fx_retry_only : bool;
  bf_full_cycle : bool;
  bf_due : option (gset string);
  bf_next_fx : Z;
}.

Definition set_bf_equity_fallback_at (v : gmap string Z) (x : backfill) : backfill :=
  {| bf_equity_fallback_at := v; bf_daily_retry_at := bf_daily_retry_at x; bf_daily_preseeded
     := bf_daily_preseeded x; bf_fx_daily_retry := bf_fx_daily_retry x; bf_fx_failed :=
     bf_fx_failed x; bf_fx_cycle := bf_fx_cycle x; bf_fx_retry_only := bf_fx_retry_only x;
     bf_full_cycle := bf_full_cycle x; bf_due := bf_due x; bf_next_fx := bf_next_fx x |}.

Definition set_bf_daily_retry_at (v : gmap string Z) (x : backfill) : backfill :=
  {| bf_equity_fallback_at := bf_equity_fallback_at x; bf_daily_retry_at := v;
     bf_daily_preseeded := bf_daily_preseeded x; bf_fx_daily_retry := bf_fx_daily_retry x;
     bf_fx_failed := bf_fx_failed x; bf_fx_cycle := bf_fx_cycle x; bf_fx_retry_only :=
     bf_fx_retry_only x; bf_full_cycle := bf_full_cycle x; bf_due := bf_due x; bf_next_fx :=
     bf_next_fx x |}.

Definition set_bf_daily_preseeded (v : gset string) (x : backfill) : backfill :=
  {| bf_equity_fallback_at := bf_equity_fallback_at x; bf_daily_retry_at := bf_daily_retry_at
     x; bf_daily_preseeded := v; bf_fx_daily_retry := bf_fx_daily_retry x; bf_fx_failed :=
     bf_fx_failed x; bf_fx_cycle := bf_fx_cycle x; bf_fx_retry_only := bf_fx_retry_only x;
     bf_full_cycle := bf_full_cycle x; bf_due := bf_due x; bf_next_fx := bf_next_fx x |}.

Definition set_bf_fx_daily_retry (v : gset string) (x : backfill) : backfill :=
  {| bf_equity_fallback_at := bf_equity_fallback_at x; bf_daily_retry_at := bf_daily_retry_at
     x; bf_daily_preseeded := bf_daily_preseeded x; bf_fx_daily_retry := v; bf_fx_failed :=
     bf_fx_failed x; bf_fx_cycle := bf_fx_cycle x; bf_fx_retry_only := bf_fx_retry_only x;
     bf_full_cycle := bf_full_cycle x; bf_due := bf_due x; bf_next_fx := bf_next_fx x |}.

Definition set_bf_fx_failed (v : gset (string * string)) (x : backfill) : backfill :=
  {| bf_equity_fallback_at := bf_equity_fallback_at x; bf_daily_retry_at := bf_daily_retry_at
     x; bf_daily_preseeded := bf_daily_preseeded x; bf_fx_daily_retry := bf_fx_daily_retry x;
     bf_fx_failed := v; bf_fx_cycle := bf_fx_cycle x; bf_fx_retry_only := bf_fx_retry_only x;
     bf_full_cycle := bf_full_cycle x; bf_due := bf_due x; bf_next_fx := bf_next_fx x |}.

Definition set_bf_fx_cycle (v : gmap string (list string)) (x : backfill) : backfill :=
  {| bf_equity_fallback_at := bf_equity_fallback_at x; bf_daily_retry_at := bf_daily_retry_at
     x; bf_daily_preseeded := bf_daily_preseeded x; bf_fx_daily_retry := bf_fx_daily_retry x;
     bf_fx_failed := bf_fx_failed x; bf_fx_cycle := v; bf_fx_retry_only := bf_fx_retry_only
     x; bf_full_cycle := bf_full_cycle x; bf_due := bf_due x; bf_next_fx := bf_next_fx x |}.

Definition set_bf_fx_retry_only (v : bool) (x : backfill) : backfill :=
  {| bf_equity_fallback_at := bf_equity_fallback_at x; bf_daily_retry_at := bf_daily_retry_at
     x; bf_daily_preseeded := bf_daily_preseeded x; bf_fx_daily_retry := bf_fx_daily_retry x;
     bf_fx_failed := bf_fx_failed x; bf_fx_cycle := bf_fx_cycle x; bf_fx_retry_only := v;
     bf_full_cycle := bf_full_cycle x; bf_due := bf_due x; bf_next_fx := bf_next_fx x |}.

Definition set_bf_full_cycle (v : bool) (x : backfill) : backfill :=
  {| bf_equity_fallback_at := bf_equity_fallback_at x; bf_daily_retry_at := bf_daily_retry_at
     x; bf_daily_preseeded := bf_daily_preseeded x; bf_fx_daily_retry := bf_fx_daily_retry x;
     bf_fx_failed := bf_fx_failed x; bf_fx_cycle := bf_fx_cycle x; bf_fx_retry_only :=
     bf_fx_retry_only x; bf_full_cycle := v; bf_due := bf_due x; bf_next_fx := bf_next_fx x |}.

Definition set_bf_due (v : option (gset string)) (x : backfill) : backfill :=
  {| bf_equity_fallback_at := bf_equity_fallback_at x; bf_daily_retry_at := bf_daily_retry_at
     x; bf_daily_preseeded := bf_daily_preseeded x; bf_fx_daily_retry := bf_fx_daily_retry x;
     bf_fx_failed := bf_fx_failed x; bf_fx_cycle := bf_fx_cycle x; bf_fx_retry_only :=
     bf_fx_retry_only x; bf_full_cycle := bf_full_cycle x; bf_due := v; bf_next_fx :=
     bf_next_fx x |}.

Definition set_bf_next_fx (v : Z) (x : backfill) : backfill :=
  {| bf_equity_fallback_at := bf_equity_fallback_at x; bf_daily_retry_at := bf_daily_retry_at
     x; bf_daily_preseeded := bf_daily_preseeded x; bf_fx_daily_retry := bf_fx_daily_retry x;
     bf_fx_failed := bf_fx_failed x; bf_fx_cycle := bf_fx_cycle x; bf_fx_retry_only :=
     bf_fx_retry_only x; bf_full_cycle := bf_full_cycle x; bf_due := bf_due x; bf_next_fx :=
     v |}.

(** [MarketDataCoordinator] *)
Record Collector := {
  mc_settings : collector_settings;
  mc_target : target;
  mc_pending : list (string * ProviderQuote);
  mc_last_errors : gmap string (string * Z);
  mc_checkpoints : gmap (string * string) (gmap string string);
  mc_stream_observed : gmap (Z * string) Z;
  mc_reconnects : gmap string Z;
  mc_progress : progress;
  mc_backfill : backfill;
}.

Definition set_mc_target (v : target) (x : Collector) : Collector :=
  {| mc_settings := mc_settings x; mc_target := v; mc_pending := mc_pending x; mc_last_errors
     := mc_last_errors x; mc_checkpoints := mc_checkpoints x; mc_stream_observed :=
     mc_stream_observed x; mc_reconnects := mc_reconnects x; mc_progress := mc_progress x;
     mc_backfill := mc_backfill x |}.

Definition set_mc_pending (v : list (string * ProviderQuote)) (x : Collector) : Collector :=
  {| mc_settings := mc_settings x; mc_target := mc_target x; mc_pending := v; mc_last_errors
     := mc_last_errors x; mc_checkpoints := mc_checkpoints x; mc_stream_observed :=
     mc_stream_observed x; mc_reconnects := mc_reconnects x; mc_progress := mc_progress x;
     mc_backfill := mc_backfill x |}.

Definition set_mc_last_errors (v : gmap string (string * Z)) (x : Collector) : Collector :=
  {| mc_settings := mc_settings x; mc_target := mc_target x; mc_pending := mc_pending x;
     mc_last_errors := v; mc_checkpoints := mc_checkpoints x; mc_stream_observed :=
     mc_stream_observed x; mc_reconnects := mc_reconnects x; mc_progress := mc_progress x;
     mc_backfill := mc_backfill x |}.

Definition set_mc_checkpoints (v : gmap (string * string) (gmap string string)) (x : Collector) : Collector :=
  {| mc_settings := mc_settings x; mc_target := mc_target x; mc_pending := mc_pending x;
     mc_last_errors := mc_last_errors x; mc_checkpoints := v; mc_stream_observed :=
     mc_stream_observed x; mc_reconnects := mc_reconnects x; mc_progress := mc_progress x;
     mc_backfill := mc_backfill x |}.

Definition set_mc_stream_observed (v : gmap (Z * string) Z) (x : Collector) : Collector :=
  {| mc_settings := mc_settings x; mc_target := mc_target x; mc_pending := mc_pending x;
     mc_last_errors := mc_last_errors x; mc_checkpoints := mc_checkpoints x;
     mc_stream_observed := v; mc_reconnects := mc_reconnects x; mc_progress := mc_progress x;
     mc_backfill := mc_backfill x |}.

Definition set_mc_reconnects (v : gmap string Z) (x : Collector) : Collector :=
  {| mc_settings := mc_settings x; mc_target := mc_target x; mc_pending := mc_pending x;
     mc_last_errors := mc_last_errors x; mc_checkpoints := mc_checkpoints x;
     mc_stream_observed := mc_stream_observed x; mc_reconnects := v; mc_progress :=
     mc_progress x; mc_backfill := mc_backfill x |}.

Definition set_mc_progress (v : progress) (x : Collector) : Collector :=
  {| mc_settings := mc_settings x; mc_target := mc_target x; mc_pending := mc_pending x;
     mc_last_errors := mc_last_errors x; mc_checkpoints := mc_checkpoints x;
     mc_stream_observed := mc_stream_observed x; mc_reconnects := mc_reconnects x;
     mc_progress := v; mc_backfill := mc_backfill x |}.

Definition set_mc_backfill (v : backfill) (x : Collector) : Collector :=
  {| mc_settings := mc_settings x; mc_target := mc_target x; mc_pending := mc_pending x;
     mc_last_errors := mc_last_errors x; mc_checkpoints := mc_checkpoints x;
     mc_stream_observed := mc_stream_observed x; mc_reconnects := mc_reconnects x;
     mc_progress := mc_progress x; mc_backfill := v |}.

(** The collector and the service it publishes to. *)
Record world := {
  w_service : Service;
  w_collector : Collector;
}.

Definition set_w_service (v : Service) (x : world) : world :=
  {| w_service := v; w_collector := w_collector x |}.

Definition set_w_collector (v : Collector) (x : world) : world :=
  {| w_service := w_service x; w_collector := v |}.

Abbreviation mc_registry c := (tg_registry (mc_target c)).
Abbreviation mc_router c := (tg_router (mc_target c)).

Section collector.
Context `{ServiceWorld} `{ProviderTraits}.

(** ** Reaching the two objects *)

Definition on_collector (f : Collector → Collector) : comp world unit :=
  modify (λ w, set_w_collector (f (w_collector w)) w).

Definition read_collector {A} (f : Collector → A) : comp world A := gets (λ w, f (w_collector w)).

(** A method of the service. *)
Definition call_service {A} (m : comp Service A) : comp world A := λ w,
  let '(s, r) := m (w_service w) in (set_w_service s w, r).

(** ** Errors *)

(** The reason [_record_error] keeps. *)
Definition error_reason (e : exn) : string :=
  match e with AllProvidersFailed _ _ _ => "all_providers_failed" | _ => exn_class_name e end.

(** [_record_error] *)
Definition record_error (job : string) (e : exn) (now : Z) : comp world unit :=
  on_collector (λ c, set_mc_last_errors (<[job := (error_reason e, now)]> (mc_last_errors c)) c).

(** [self._last_errors.pop(job, None)] *)
Definition clear_error (job : string) : comp world unit :=
  on_collector (λ c, set_mc_last_errors (delete job (mc_last_errors c)) c).

(** [_mark_source_failed] *)
Definition mark_failed (symbols : list string) : comp world unit :=
  id ← read_collector (λ c, tg_generation_id (mc_target c));
  _ ← call_service (mark_source_failed symbols id);
  mret tt.

(** ** Publication *)

(** [pending[symbol] = quote] keeps the place of a symbol that is there. *)
Fixpoint pending_set (symbol : string) (q : ProviderQuote) (l : list (string * ProviderQuote))
    : list (string * ProviderQuote) :=
  match l with
  | [] => [(symbol, q)]
  | (x, q') :: l' => if decide (x = symbol) then (x, q) :: l' else (x, q') :: pending_set symbol q l'
  end.

Fixpoint pending_get (symbol : string) (l : list (string * ProviderQuote)) : option ProviderQuote :=
  match l with
  | [] => None
  | (x, q) :: l' => if decide (x = symbol) then Some q else pending_get symbol l'
  end.

(** [quote.as_of.isoformat().replace("+00:00", "Z")] *)
Definition checkpoint_text (as_of : Z) : string := isoformat as_of +:+ "Z".

(** [_note_checkpoint]; the texts are compared as strings. *)
Definition note_checkpoint (q : ProviderQuote) (c : Collector) : Collector :=
  let key := (pq_provider q, pq_feed q) in
  let symbols := default ∅ (mc_checkpoints c !! key) in
  let as_of := checkpoint_text (pq_as_of q) in
  let newer := match symbols !! pq_symbol q with
               | Some previous => negb (String.ltb as_of previous)
               | None => true
               end in
  set_mc_checkpoints
    (<[key := if newer then <[pq_symbol q := as_of]> symbols else symbols]> (mc_checkpoints c)) c.

(** [_queue_quote] *)
Definition enqueue (q : ProviderQuote) (l : list (string * ProviderQuote)) : list (string * ProviderQuote) :=
  match pending_get (pq_symbol q) l with
  | Some current => if decide (pq_as_of current ≤ pq_as_of q) then pending_set (pq_symbol q) q l else l
  | None => pending_set (pq_symbol q) q l
  end.

Definition queue_quote (q : ProviderQuote) : comp world unit :=
  on_collector (λ c, set_mc_pending (enqueue q (mc_pending c)) (note_checkpoint q c)).

(** The [try] of [_flush_pending]; [now] and [published_at] are the clock of the
    publication and of its snapshot, [at_] that of the error. *)
Definition flush_quote (now published_at at_ : Z) (q : ProviderQuote) : comp world unit :=
  let job := "publish:" +:+ pq_symbol q in
  try_except (λ _, true)
    (id ← read_collector (λ c, tg_generation_id (mc_target c));
     _ ← call_service (publish_quote q true id now published_at);
     clear_error job)
    (λ e, _ ← mark_failed [pq_symbol q]; record_error job e at_).

(** [_flush_pending] *)
Definition flush_pending (now published_at at_ : Z) : comp world unit :=
  pending ← read_collector mc_pending;
  _ ← on_collector (set_mc_pending []);
  for_each (λ kq : string * ProviderQuote, flush_quote now published_at at_ kq.2) pending.

(** ** Polling *)

(** [max((initial, *(value for provider in chain if ...)))] *)
Definition chain_max (initial : Z) (f : Provider → option Z) (chain : list Provider) : Z :=
  foldl (λ t p, match f p with Some v => Z.max t v | None => t end) initial chain.

Definition primary_of (chain : list Provider) : option Provider := head chain.

(** How long an observation of the primary's stream keeps polls away. *)
Definition suppression (i : InstrumentSpec) (primary : option Provider) : Z :=
  Z.min (is_stale_after_seconds i) (match primary with Some p => pt_stream_suppression p | None => 0 end).

(** The interval while the stream is fresh, [age] after its last observation. *)
Definition suppressed_interval (i : InstrumentSpec) (primary : option Provider) (age : Z) : Z :=
  let minimum := match primary ≫= pt_minimum_quote_poll with Some v => v | None => 0 end in
  let interval := Z.max (is_quote_poll_seconds i) minimum in
  let recheck := match primary with Some p => pt_stream_recheck p | None => 0 end in
  if decide (0 < recheck) then Z.min (Z.max interval recheck) (suppression i primary - age)
  else interval.

(** The provider that served the quote. *)
Definition selected_provider (c : Collector) (chain : list Provider) (q : ProviderQuote) : option Provider :=
  match next_where (λ np : string * Provider, np.1 = pq_provider q) (tg_providers (mc_target c)) with
  | Some (_, p) => Some p
  | None => next_where (λ p, pv_name p = pq_provider q) chain
  end.

Definition is_fallback (primary : option Provider) (q : ProviderQuote) : bool :=
  bool_decide (0 < pq_fallback_level q) ||
  match primary with Some p => bool_decide (pv_name p ≠ pq_provider q) | None => false end.

(** The interval after a quote; [scheduled] is the status of the calendar. *)
Definition success_interval (i : InstrumentSpec) (chain : list Provider) (selected : option Provider)
    (q : ProviderQuote) (scheduled : string) : Z :=
  let base := is_quote_poll_seconds i in
  let probe := chain_max base pt_minimum_quote_poll chain in
  let closed := chain_max 0 pt_closed_market_poll chain in
  let fallback := is_fallback (primary_of chain) q in
  let us_equity := bool_decide (is_market_calendar i = US_EQUITY) in
  let interval :=
    if us_equity then
      let t1 := if fallback then Z.max base probe else base in
      let t2 := match selected ≫= pt_minimum_quote_poll with Some v => Z.max t1 v | None => t1 end in
      if bool_decide (pq_market_status q = "closed") && (negb fallback || bool_decide (scheduled = "closed"))
      then Z.max (Z.max t2 (if fallback then closed else 0))
                 (match selected ≫= pt_closed_market_poll with Some v => v | None => 0 end)
      else t2
    else if decide (pq_provider q = "coingecko") then Z.max base (seconds 300)
    else if decide (pq_provider q = "kraken") then Z.max base (seconds 2)
    else base in
  if bool_decide (pq_provider q = "alpha_vantage") && bool_decide (is_asset_class i ≠ FX) && negb us_equity
  then Z.max interval (hours 6) else interval.

(** The interval after a failure; [retry_after] is what the providers hint now. *)
Definition failure_interval (i : InstrumentSpec) (chain : list Provider) (e : exn) (scheduled : string)
    (retry_after : Provider → option Z) : Z :=
  let base := is_quote_poll_seconds i in
  let attempts := match e with AllProvidersFailed _ _ attempts => fst <$> attempts | _ => [] end in
  let interval :=
    if decide (is_market_calendar i = US_EQUITY) then
      let t := Z.max base (chain_max base pt_minimum_quote_poll chain) in
      if decide (scheduled = "closed") then Z.max t (chain_max 0 pt_closed_market_poll chain) else t
    else if decide (is_asset_class i ≠ FX ∧ "alpha_vantage" ∈ attempts) then Z.max base (hours 6)
    else base in
  match omap retry_after (filter (λ p, pv_name p ∈ attempts) chain) with
  | [] => interval
  | hint :: hints => Z.min interval (Z.max 250000 (foldl Z.min hint hints))
  end.

(** [_normalize_market_status] *)
Definition normalize_market_status (c : Collector) (q : ProviderQuote) (now : Z) : ProviderQuote :=
  if decide (pq_market_status q ≠ "unknown") then q
  else
    let calendar := match resolve (mc_registry c) (pq_symbol q) with
                    | Some i => is_market_calendar i
                    | None => ALWAYS_OPEN
                    end in
    {| pq_symbol := pq_symbol q; pq_price := pq_price q; pq_as_of := pq_as_of q;
       pq_provider := pq_provider q; pq_feed := pq_feed q; pq_price_basis := pq_price_basis q;
       pq_market_status := status_at_wall calendar (sw_ny_wall now);
       pq_is_derived := pq_is_derived q; pq_components := pq_components q;
       pq_fallback_level := pq_fallback_level q; pq_license_scope := pq_license_scope q;
       pq_coverage := pq_coverage q; pq_market_status_as_of := pq_market_status_as_of q |}.

(** What a poll reads from its surroundings: the monotonic clock, the router's
    answer, the wall clock after it, and the hints of the providers. *)
Record poll_env := {
  pe_monotonic : Z;
  pe_get_quote : comp world ProviderQuote;
  pe_now : Z;
  pe_retry_after : Provider → option Z;
}.

(** Whether the primary's stream is fresh, and how old its last observation is. *)
Definition fresh_stream (c : Collector) (i : InstrumentSpec) (primary : option Provider) (symbol : string)
    (monotonic : Z) : option Z :=
  let observed := match primary with
                  | Some p => mc_stream_observed c !! (pv_id p, symbol)
                  | None => None
                  end in
  match observed with
  | Some t =>
    let age := monotonic - t in
    if decide (0 < suppression i primary ∧ age < suppression i primary) then Some age else None
  | None => None
  end.

(** [_poll_quote_once] *)
Definition poll_quote_once (symbol : string) (env : poll_env) : comp world Z :=
  c ← read_collector id;
  i ← lift (getitem (mc_registry c) symbol);
  let chain := providers_for (mc_router c) symbol QUOTE in
  match fresh_stream c i (primary_of chain) symbol (pe_monotonic env) with
  | Some age => mret (suppressed_interval i (primary_of chain) age)
  | None =>
    let scheduled := status_at_wall (is_market_calendar i) (sw_ny_wall (pe_now env)) in
    try_except (λ _, true)
      (answer ← pe_get_quote env;
       q ← read_collector (λ c, normalize_market_status c answer (pe_now env));
       _ ← queue_quote q;
       _ ← clear_error ("quote:" +:+ symbol);
       read_collector (λ c, success_interval i chain (selected_provider c chain q) q scheduled))
      (λ e,
       _ ← mark_failed [symbol];
       _ ← record_error ("quote:" +:+ symbol) e (pe_now env);
       mret (failure_interval i chain e scheduled (pe_retry_after env)))
  end.

(** ** Streams *)

(** [_stream_symbols]: the registered symbols the provider declares and is the
    first to serve. *)
Definition stream_symbols (c : Collector) (provider : Provider) : list string :=
  if pt_stream_quotes provider then
    let supported := (λ s, upper (strip s)) <$> pt_stream_symbols provider in
    filter (λ symbol, symbol ∈ supported ∧
                      head (providers_for (mc_router c) symbol QUOTE) = Some provider)
      (Registry.symbols (mc_registry c))
  else [].

(** A quote that the stream of [provider] delivers, for a stream opened on
    [requested]. *)
Definition stream_message (provider : Provider) (requested : list string) (q : ProviderQuote)
    (now monotonic : Z) : comp world unit :=
  c ← read_collector id;
  match resolve (mc_registry c) (pq_symbol q) with
  | Some i =>
    if decide (pq_symbol q ∈ requested) then
      let source_age := Z.max 0 (now - pq_as_of q) in
      let key := (pv_id provider, pq_symbol q) in
      _ ← on_collector (λ c, set_mc_stream_observed
                               (if decide (source_age ≤ is_stale_after_seconds i)
                                then <[key := monotonic - source_age]> (mc_stream_observed c)
                                else delete key (mc_stream_observed c)) c);
      queue_quote q
    else mret tt
  | None => mret tt
  end.

(** The stream ends, with an exception or without. *)
Definition stream_end (provider_name : string) (provider : Provider) (requested : list string)
    (failure : option exn) (now : Z) : comp world unit :=
  _ ← match failure with
      | Some e => record_error ("stream:" +:+ provider_name) e now
      | None => mret tt
      end;
  on_collector (λ c,
    set_mc_reconnects (<[provider_name := default 0 (mc_reconnects c !! provider_name) + 1]> (mc_reconnects c))
      (set_mc_stream_observed
         (foldl (λ m symbol, delete (pv_id provider, symbol) m) (mc_stream_observed c) requested) c)).

(** How long to wait after an attempt, and the delay kept for the next one;
    [observed] tells whether a message was received. *)
Definition stream_delay (observed : bool) (delay : Z) : Z * Z :=
  let d := if observed then seconds 1 else delay in (d, Z.min (seconds 60) (d * 2)).

(** The waits of a run of attempts. *)
Fixpoint stream_waits (delay : Z) (attempts : list bool) : list Z :=
  match attempts with
  | [] => []
  | observed :: attempts' =>
    let '(wait, delay') := stream_delay observed delay in wait :: stream_waits delay' attempts'
  end.

(** ** Metadata *)

(** The instruments of a registry, in its order. *)
Definition registry_values (rg : Registry) : list InstrumentSpec :=
  omap (resolve rg) (Registry.symbols rg).

Record metadata_env := {
  me_get_dividend : comp world (option DividendEvent);
  me_get_yield : comp world YieldMetric;
  me_now : Z;
  me_published_at : Z;
}.

(** The [try] around the dividend; whether to retry early. *)
Definition refresh_dividend (symbol : string) (env : metadata_env) : comp world bool :=
  let job := "dividend:" +:+ symbol in
  try_except (λ _, true)
    (event ← me_get_dividend env;
     id ← read_collector (λ c, tg_generation_id (mc_target c));
     _ ← match event with
         | Some e => _ ← call_service (publish_dividend e true id (me_published_at env)); mret tt
         | None => mret tt
         end;
     _ ← clear_error job; mret false)
    (λ e, _ ← record_error job e (me_now env); mret true).

(** A metric that is worth asking for again soon. *)
Definition provisional (m : YieldMetric) : bool :=
  ym_is_proxy m || bool_decide (0 < ym_fallback_level m) ||
  match ym_quality m with Some q => yq_stale q | None => false end.

Definition refresh_yield (symbol : string) (env : metadata_env) : comp world bool :=
  let job := "yield:" +:+ symbol in
  try_except (λ _, true)
    (metric ← me_get_yield env;
     id ← read_collector (λ c, tg_generation_id (mc_target c));
     _ ← call_service (publish_yield_metric metric true id (me_now env) (me_published_at env));
     _ ← clear_error job; mret (provisional metric))
    (λ e, _ ← record_error job e (me_now env); mret true).

Definition wants_dividend (i : InstrumentSpec) : bool :=
  bool_decide (is_dividend_strategy i ≠ None ∨ is_yield_strategy i = Some LATEST_DISTRIBUTION_ANNUALIZED).

Definition wants_yield (i : InstrumentSpec) : bool :=
  bool_decide (is_yield_strategy i ≠ None ∧ is_yield_strategy i ≠ Some LATEST_DISTRIBUTION_ANNUALIZED).

(** [_refresh_metadata]: whether to retry early. *)
Definition refresh_metadata (i : InstrumentSpec) (env : metadata_env) : comp world bool :=
  let symbol := is_symbol i in
  has_dividend ← read_collector (λ c, configured (mc_router c) symbol DIVIDEND);
  early ← (if wants_dividend i && has_dividend then refresh_dividend symbol env else mret false);
  has_yield ← read_collector (λ c, configured (mc_router c) symbol YIELD);
  early' ← (if wants_yield i && has_yield then refresh_yield symbol env else mret false);
  mret (early || early').

(** The start of [_metadata_loop]: forget the symbols that are gone. *)
Definition keep_symbols {A} (l : list string) (m : gmap string A) : gmap string A :=
  filter (λ kv, kv.1 ∈ l) m.

Definition metadata_start (c : Collector) : Collector :=
  let p := mc_progress c in
  set_mc_progress (set_pg_metadata_next
    (keep_symbols (Registry.symbols (mc_registry c)) (pg_metadata_next p)) p) c.

(** The instruments to refresh in this turn of the loop. *)
Definition metadata_due (c : Collector) (now : Z) : list InstrumentSpec :=
  filter (λ i, default 0 (pg_metadata_next (mc_progress c) !! is_symbol i) ≤ now)
    (registry_values (mc_registry c)).

(** A worker is done with an instrument. *)
Definition metadata_done (symbol : string) (retry_early : bool) (now : Z) (c : Collector) : Collector :=
  let se := mc_settings c in
  let delay := if retry_early then cs_metadata_retry_seconds se else cs_metadata_poll_seconds se in
  let p := mc_progress c in
  set_mc_progress (set_pg_metadata_next
    (<[symbol := now + Z.max (seconds 1) delay]> (pg_metadata_next p)) p) c.

(** The wait at the end of a turn. *)
Definition metadata_wait (c : Collector) (now : Z) : Z :=
  let next := pg_metadata_next (mc_progress c) in
  match (λ i, default now (next !! is_symbol i)) <$> registry_values (mc_registry c) with
  | [] => Z.max (seconds 1) (cs_metadata_poll_seconds (mc_settings c))
  | t :: l => Z.max (seconds 1) (foldl Z.min t l - now)
  end.

(** ** History *)

Definition FX_HISTORY_REFRESH_SECONDS : Z := hours 24.
Definition FX_HISTORY_RETRY_SECONDS : Z := seconds 60.
Definition DAILY_PREFIX_RETRY_SECONDS : Z := hours 24.

(** [_history_poll_seconds] *)
Definition history_poll_seconds (c : Collector) (symbol : string) (fx : bool) : Z :=
  match tg_history_policies (mc_target c) !! symbol with
  | Some (Some configured, _) => Z.max (seconds 1) configured
  | _ => if fx then FX_HISTORY_REFRESH_SECONDS
         else Z.max (seconds 1) (cs_history_poll_seconds (mc_settings c))
  end.

(** [_history_backfill_days] *)
Definition history_backfill_days (c : Collector) (symbol : string) : option Z :=
  match tg_history_policies (mc_target c) !! symbol with Some (_, d) => d | None => None end.

(** What a fetch reads from its surroundings: the answers of the router, what
    other tasks do before the points are merged, and the clock. *)
Record fetch_env := {
  fe_get : nat → history_args → result (list PricePoint);
  fe_others : comp world unit;
  fe_now : Z;
  fe_published_at : Z;
}.

(** [_publish_async("publish_history_async", points)] *)
Definition publish_history_async (points : list PricePoint) (env : fetch_env) : comp world bool :=
  id ← read_collector (λ c, tg_generation_id (mc_target c));
  context ← call_service (publish_history_begin points id (fe_now env));
  match context with
  | None => mret false
  | Some (generation, loc) =>
    _ ← fe_others env;
    _ ← call_service (history_load points);
    call_service (publish_history_end points true generation loc (fe_published_at env))
  end.

(** [_fetch_history_pages] with the publication of its result. *)
Definition fetch_history (interval : string) (start end_ : Z) (env : fetch_env)
    : comp world (list PricePoint) :=
  points ← lift (fetch_history_pages (fe_get env) interval start end_);
  _ ← (if decide (points = []) then mret false else publish_history_async points env);
  mret points.

Definition stored_points (symbol interval : string) : comp world (list PricePoint) :=
  h ← gets (λ w, sv_history (w_service w));
  lift (HistoryCache.points_for_interval h symbol interval).

Definition on_backfill (f : backfill → backfill) : comp world unit :=
  on_collector (λ c, set_mc_backfill (f (mc_backfill c)) c).

(** The state of the daily prefix of a symbol after a fetch at [monotonic]. *)
Definition note_daily_prefix (symbol : string) (complete has_bars : bool) (monotonic : Z) (b : backfill)
    : backfill :=
  if complete then set_bf_daily_retry_at (delete symbol (bf_daily_retry_at b)) b
  else if has_bars then
    set_bf_daily_retry_at (<[symbol := monotonic + DAILY_PREFIX_RETRY_SECONDS]> (bf_daily_retry_at b)) b
  else b.

(** [_backfill_daily_interval]: whether something was published, whether a
    fallback served it, and whether the prefix is complete.  The two readings
    of the monotonic clock are before and after the fetch. *)
Definition backfill_daily_interval (symbol : string) (now : Z) (refresh_complete force : bool)
    (env : fetch_env) (monotonic monotonic' : Z) : comp world (bool * bool * bool) :=
  existing ← stored_points symbol "1d";
  c ← read_collector id;
  let retry_at := default 0 (bf_daily_retry_at (mc_backfill c) !! symbol) in
  match plan_daily (history_backfill_days c symbol) (configured (mc_router c) symbol HISTORY)
          refresh_complete force retry_at monotonic now existing with
  | DailySkip complete => mret (false, false, complete)
  | DailyFetch start =>
    daily ← fetch_history "1d" start now env;
    let combined := existing ++ daily in
    let complete := covers_year now combined in
    _ ← on_backfill (note_daily_prefix symbol complete (negb (bool_decide (combined = []))) monotonic');
    mret (negb (bool_decide (daily = [])), existsb (λ p, bool_decide (pp_provider p ≠ "alpaca")) daily,
          complete)
  end.

(** The local variables of [_backfill_symbol]. *)
Record backfill_locals := {
  bl_sparse : bool;
  bl_published : bool;
  bl_errors : list (string * exn);
}.

Definition is_equity (i : InstrumentSpec) : bool :=
  bool_decide (is_asset_class i = EQUITY ∨ is_asset_class i = BOND).

Definition with_error (interval : string) (e : exn) (l : backfill_locals) : backfill_locals :=
  {| bl_sparse := bl_sparse l; bl_published := bl_published l;
     bl_errors := bl_errors l ++ [(interval, e)] |}.

(** What one symbol's backfill reads from its surroundings, by interval. *)
Record symbol_env := {
  se_fetch : string → fetch_env;
  se_monotonic : Z;   (* the equity fallback check *)
  se_now : Z;
  se_daily : Z * Z;   (* the daily interval, before and after *)
  se_end : Z;
}.

(** The body of the loop over the intraday intervals. *)
Definition backfill_interval (i : InstrumentSpec) (symbol interval : string) (env : symbol_env)
    (l : backfill_locals) : comp world backfill_locals :=
  c ← read_collector id;
  existing ← stored_points symbol interval;
  let start := intraday_start interval (history_backfill_days c symbol) (se_now env) existing in
  if negb (configured (mc_router c) symbol HISTORY) then mret l
  else
    try_except (λ _, true)
      (fetched ← fetch_history interval start (se_now env) (se_fetch env interval);
       mret {| bl_sparse := bl_sparse l ||
                 (is_equity i && existsb (λ p, bool_decide (pp_provider p ≠ "alpaca")) fetched);
               bl_published := bl_published l || negb (bool_decide (fetched = []));
               bl_errors := bl_errors l |})
      (λ e, mret (with_error interval e l)).

Definition backfill_daily (i : InstrumentSpec) (symbol : string) (env : symbol_env)
    (l : backfill_locals) : comp world backfill_locals :=
  try_except (λ _, true)
    (r ← backfill_daily_interval symbol (se_now env) true false (se_fetch env "1d")
           (se_daily env).1 (se_daily env).2;
     mret {| bl_sparse := bl_sparse l || (is_equity i && r.1.2);
             bl_published := bl_published l || r.1.1; bl_errors := bl_errors l |})
    (λ e, mret (with_error "1d" e l)).

(** [_backfill_symbol]: the errors by interval. *)
Definition backfill_symbol (symbol : string) (env : symbol_env) : comp world (list (string * exn)) :=
  c ← read_collector id;
  i ← lift (getitem (mc_registry c) symbol);
  let recent := match bf_equity_fallback_at (mc_backfill c) !! symbol with
                | Some t => bool_decide (se_monotonic env - t < hours 24)
                | None => false
                end in
  if is_equity i && recent then mret []
  else
    let requested := default ["1m"; "5m"] (bf_fx_cycle (mc_backfill c) !! symbol) in
    let step := λ (interval : string) (l : backfill_locals),
      if decide (interval ∈ requested) then backfill_interval i symbol interval env l else mret l in
    l ← step "1m" {| bl_sparse := false; bl_published := false; bl_errors := [] |};
    l ← step "5m" l;
    preseeded ← read_collector (λ c, bool_decide (symbol ∈ bf_daily_preseeded (mc_backfill c)));
    l ← (if negb preseeded then backfill_daily i symbol env l else mret l);
    _ ← when (bl_sparse l)
          (on_backfill (λ b, set_bf_equity_fallback_at
                               (<[symbol := se_end env]> (bf_equity_fallback_at b)) b));
    match last (bl_errors l) with
    | Some (_, e) =>
      if negb (bl_published l) && bool_decide (is_asset_class i ≠ FX) then raise e
      else mret (bl_errors l)
    | None => mret (bl_errors l)
    end.

(** [_update_fx_daily_retry_state] *)
Definition update_fx_daily_retry (symbol : string) (complete : bool) (monotonic : Z) (b : backfill) : backfill :=
  let retry_at := default 0 (bf_daily_retry_at b !! symbol) in
  if complete || bool_decide (monotonic < retry_at)
  then set_bf_fx_daily_retry (bf_fx_daily_retry b ∖ {[symbol]}) b
  else set_bf_fx_daily_retry ({[symbol]} ∪ bf_fx_daily_retry b) b.

(** What is fetched of the daily history of a hub before the other intervals,
    at start-up with [force] and in a cycle without. *)
Definition seed_daily (symbol : string) (force : bool) (env : symbol_env) : comp world bool :=
  let job := "history-daily:" +:+ symbol in
  try_except (λ _, true)
    (r ← backfill_daily_interval symbol (se_now env) false force (se_fetch env "1d")
           (se_daily env).1 (se_daily env).2;
     _ ← on_backfill (update_fx_daily_retry symbol r.2 (se_end env));
     _ ← when r.2 (clear_error job);
     mret r.2)
    (λ e,
     _ ← on_backfill (λ b, set_bf_fx_daily_retry ({[symbol]} ∪ bf_fx_daily_retry b) b);
     _ ← record_error job e (se_now env); mret false).

(** The hubs that are seeded at start-up. *)
Definition startup_hubs (c : Collector) : list string :=
  filter (λ symbol, is_Some (resolve (mc_registry c) symbol) ∧ configured (mc_router c) symbol HISTORY = true)
    FX_HUB_SYMBOLS.

(** The symbols of a backfill cycle. *)
Definition selected_symbol (c : Collector) (include_fx : bool) (i : InstrumentSpec) : bool :=
  let b := mc_backfill c in
  let symbol := is_symbol i in
  let regular :=
    bf_full_cycle b && match bf_due b with Some due => bool_decide (symbol ∈ due) | None => true end &&
    bool_decide (is_asset_class i ≠ FX ∨ symbol ∉ FX_SYMBOLS) in
  let failed := bool_decide (symbol ∈ bf_fx_daily_retry b) ||
                existsb (λ k : string * string, bool_decide (k.1 = symbol)) (elements (bf_fx_failed b)) in
  let hub := include_fx && bool_decide (symbol ∈ FX_HUB_SYMBOLS) && (negb (bf_fx_retry_only b) || failed) in
  is_history_enabled i && (regular || hub).

Definition selected_symbols (c : Collector) (include_fx : bool) : list string :=
  is_symbol <$> List.filter (selected_symbol c include_fx) (registry_values (mc_registry c)).

(** The intraday intervals a hub is asked for in this cycle. *)
Definition cycle_intervals (b : backfill) (symbol : string) : list string :=
  List.filter (λ interval, negb (bf_fx_retry_only b) || bool_decide ((symbol, interval) ∈ bf_fx_failed b))
    ["1m"; "5m"].

(** What the attempted intervals of a hub leave behind. *)
Definition note_intervals (symbol : string) (attempted : list string) (errors : list (string * exn))
    (b : backfill) : backfill :=
  set_bf_fx_failed
    (foldl (λ m interval, if decide (interval ∈ errors.*1) then {[(symbol, interval)]} ∪ m
                          else m ∖ {[(symbol, interval)]}) (bf_fx_failed b) attempted) b.

(** The body of the loop of a history worker. *)
Definition backfill_item (hub : bool) (env : symbol_env) (symbol : string) : comp world unit :=
  let job := "history:" +:+ symbol in
  attempted ← read_collector (λ c, bf_fx_cycle (mc_backfill c) !! symbol);
  if hub && bool_decide (default [] attempted = []) then mret tt
  else
    outcome ← try_except (λ _, true)
      (errors ← backfill_symbol symbol env; mret (Some errors))
      (λ e,
       _ ← match attempted with
           | Some intervals => on_backfill (λ b, set_bf_fx_failed
                                 (list_to_set ((λ i, (symbol, i)) <$> intervals) ∪ bf_fx_failed b) b)
           | None => mret tt
           end;
       _ ← record_error job e (se_now env); mret None);
    match outcome, attempted with
    | None, _ => mret tt
    | Some _, None => clear_error job
    | Some errors, Some intervals =>
      _ ← on_backfill (note_intervals symbol intervals errors);
      match errors with
      | (_, e) :: _ => record_error job e (se_now env)
      | [] => clear_error job
      end
    end.

(** The virtual histories that [_register_builtin_fx_history] registers. *)
Definition virtual_fx (rg : Registry) (symbol : string) : bool :=
  match resolve rg symbol with
  | Some i => bool_decide (is_symbol i = symbol ∧ symbol ∉ FX_HUB_SYMBOLS)
  | None => false
  end.

Definition register_fx (symbol : string) : comp world unit := λ w,
  let s := w_service w in
  let r := requirements ← fx_hub_requirements symbol;
           pair ← split_fx_symbol symbol;
           HistoryCache.register_synthetic_history (sv_history s) symbol requirements
             (if decide (pair.2 = "USD") then "inverse" else "divide") FX_MAX_SKEW "synthetic_fx" in
  match r with
  | Ok h => (set_w_service (set_sv_history h s) w, Ok tt)
  | Raise e => (w, Raise e)
  end.

(** [_register_builtin_fx_history] *)
Definition register_builtin_fx_history : comp world unit :=
  c ← read_collector id;
  for_each register_fx (List.filter (virtual_fx (mc_registry c)) FX_SYMBOLS).

(** [_backfill_history].  The two workers take the symbols in order; what one
    does while the other waits is part of the awaited calls. *)
Definition backfill_history (include_fx : bool) (env : string → symbol_env) : comp world bool :=
  c ← read_collector id;
  let b := mc_backfill c in
  let selected := selected_symbols c include_fx in
  let hubs := filter (λ s, s ∈ FX_HUB_SYMBOLS) selected in
  let retry_only := bf_fx_retry_only b in
  _ ← on_backfill (λ b,
        set_bf_daily_preseeded (list_to_set hubs)
          (set_bf_fx_cycle (list_to_map ((λ s, (s, cycle_intervals b s)) <$> hubs)) b));
  _ ← when include_fx
        (for_each (λ s, _ ← seed_daily s false (env s); mret tt)
           (filter (λ s, retry_only = false ∨ s ∈ bf_fx_daily_retry b) hubs));
  let reset := on_backfill (λ b, set_bf_daily_preseeded ∅ (set_bf_fx_cycle ∅ b)) in
  _ ← try_except (λ _, true)
        (_ ← for_each (λ s, backfill_item (bool_decide (s ∈ hubs)) (env s) s) selected;
         when include_fx register_builtin_fx_history)
        (λ e, _ ← reset; raise e);
  _ ← reset;
  read_collector (λ c, bool_decide (bf_fx_daily_retry (mc_backfill c) = ∅ ∧
                                    bf_fx_failed (mc_backfill c) = ∅)).

(** ** The history loop *)

Definition regular_symbols (c : Collector) : list string :=
  is_symbol <$> filter (λ i, is_history_enabled i = true ∧
                             (is_asset_class i ≠ FX ∨ is_symbol i ∉ FX_SYMBOLS))
                  (registry_values (mc_registry c)).

(** The start of [_history_loop]: forget what is gone, and what is new is due. *)
Definition history_start (c : Collector) : Collector :=
  let p := mc_progress c in
  let regular := regular_symbols c in
  let kept := keep_symbols regular (pg_history_next p) in
  set_mc_progress (set_pg_history_next
    (foldl (λ m s, match m !! s with Some _ => m | None => <[s := 0]> m end) kept regular) p) c.

(** [min(next_regular_refresh_at.values(), default=...)] *)
Definition next_regular (c : Collector) : Z :=
  let p := mc_progress c in
  match (map_to_list (pg_history_next p)).*2 with
  | [] => pg_history_next_empty p
  | t :: l => foldl Z.min t l
  end.

Definition history_wait (c : Collector) (now : Z) : Z :=
  Z.max (seconds 1) (Z.min (bf_next_fx (mc_backfill c)) (next_regular c) - now).

(** What a turn of the loop does. *)
Inductive history_turn :=
| HistoryWait (wait : Z)
| HistoryCycle (include_fx : bool) (due : gset string) (full : bool).

Definition history_plan (c : Collector) (now : Z) : history_turn :=
  let p := mc_progress c in
  let include_fx := bool_decide (bf_next_fx (mc_backfill c) ≤ now) in
  let due := dom (filter (λ kv : string * Z, kv.2 ≤ now) (pg_history_next p)) in
  let empty_full := bool_decide (pg_history_next p = ∅ ∧ pg_history_next_empty p ≤ now) in
  let full := bool_decide (due ≠ ∅) || empty_full in
  if negb include_fx && negb full then HistoryWait (history_wait c now)
  else HistoryCycle include_fx due full.

(** The flags the cycle starts with. *)
Definition history_begin (due : gset string) (full : bool) (c : Collector) : Collector :=
  let b := mc_backfill c in
  set_mc_backfill
    (set_bf_due (if decide (pg_history_next (mc_progress c) = ∅) then None else Some due)
       (set_bf_full_cycle full b)) c.

(** When the cycle is over, at [completed_at]. *)
Definition history_finish (include_fx : bool) (due : gset string) (full fx_complete : bool)
    (completed_at : Z) (c : Collector) : Collector :=
  let p := mc_progress c in
  let p' :=
    if full then
      if decide (due = ∅) then
        set_pg_history_next_empty
          (completed_at + Z.max (seconds 1) (cs_history_poll_seconds (mc_settings c))) p
      else
        set_pg_history_next
          (foldl (λ m s, <[s := completed_at + history_poll_seconds c s false]> m)
             (pg_history_next p) (elements due)) p
    else p in
  let hubs := filter (λ s, is_Some (resolve (mc_registry c) s)) FX_HUB_SYMBOLS in
  let retry_after :=
    if fx_complete then
      match (λ s, history_poll_seconds c s true) <$> hubs with
      | [] => FX_HISTORY_REFRESH_SECONDS
      | t :: l => foldl Z.min t l
      end
    else FX_HISTORY_RETRY_SECONDS in
  let b := mc_backfill c in
  let b' := if include_fx then set_bf_next_fx (completed_at + retry_after)
                                 (set_bf_fx_retry_only (negb fx_complete) b) else b in
  set_mc_backfill b' (set_mc_progress p' c).

(** A turn of [_history_loop]: the wait before the next one. *)
Definition history_turn_once (now completed_at after : Z) (env : string → symbol_env) : comp world Z :=
  c ← read_collector id;
  match history_plan c now with
  | HistoryWait wait => mret wait
  | HistoryCycle include_fx due full =>
    _ ← on_collector (history_begin due full);
    fx_complete ← backfill_history include_fx env;
    _ ← on_collector (history_finish include_fx due full fx_complete completed_at);
    read_collector (λ c, history_wait c after)
  end.

(** ** Checkpoints *)

(** What storing a checkpoint waits for. *)
Record store_env := {
  st_enqueue : ProviderCheckpointRecord → comp world unit;
  st_quota : Provider → option (comp world json);  (* [quota.checkpoint()] *)
  st_now : Z;
}.

Definition collector_current : comp world bool :=
  id ← read_collector (λ c, tg_generation_id (mc_target c));
  gets (λ w, is_generation_current (w_service w) id).

(** The [try] of one record. *)
Definition store_checkpoint (env : store_env) (provider feed : string) (checkpoint : comp world json)
    : comp world unit :=
  try_except (λ _, true)
    (value ← checkpoint;
     record ← lift (ProviderCheckpointRecord_init
                      {| pr_provider := provider; pr_feed := feed; pr_updated_at := Aware (st_now env);
                         pr_checkpoint := value |});
     _ ← st_enqueue env record;
     call_service (remember_provider_checkpoint record))
    (λ e, record_error ("checkpoint:" +:+ provider +:+ ":" +:+ feed) e (st_now env)).

(** A loop that returns as soon as the collector's generation was replaced. *)
Fixpoint while_current {A} (f : A → comp world unit) (l : list A) : comp world bool :=
  match l with
  | [] => mret true
  | x :: l' =>
    current ← collector_current;
    if negb current then mret false else _ ← f x; while_current f l'
  end.

Definition symbols_checkpoint (symbols : gmap string string) : json :=
  JObject [("symbols", JObject ((λ kv : string * string, (kv.1, JString kv.2)) <$> map_to_list symbols))].

(** [_persist_provider_checkpoints] *)
Definition persist_provider_checkpoints (env : store_env) : comp world unit :=
  storage ← gets (λ w, sv_storage (w_service w));
  if negb storage then mret tt
  else
    current ← collector_current;
    if negb current then mret tt
    else
      checkpoints ← read_collector (λ c, map_to_list (mc_checkpoints c));
      going ← while_current (λ kv : (string * string) * gmap string string,
                store_checkpoint env kv.1.1 kv.1.2 (mret (symbols_checkpoint kv.2))) checkpoints;
      if negb going then mret tt
      else
        providers ← read_collector (λ c, tg_providers (mc_target c));
        _ ← while_current (λ np : string * Provider,
              match st_quota env np.2 with
              | Some checkpoint => store_checkpoint env np.1 "quota" checkpoint
              | None => mret tt
              end) providers;
        mret tt.

(** [_run_maintenance]; [clean] is the storage's clean-up and checkpoint. *)
Definition run_maintenance (env : store_env) (now : Z) (clean : comp world unit) : comp world unit :=
  _ ← persist_provider_checkpoints env;
  _ ← try_except (λ _, true)
        (modify (λ w, set_w_service (set_sv_history (HistoryCache.prune (sv_history (w_service w)) now).1
                                       (w_service w)) w))
        (λ e, record_error "history:maintenance" e now);
  storage ← gets (λ w, sv_storage (w_service w));
  when storage (try_except (λ _, true) clean (λ e, record_error "sqlite:maintenance" e now)).

End collector.
