(* ===== verification/CollectorFacts.v ===== *)
(** * Theorems on the collectors

    What reaches the service through a collector: coalescing publishes what
    publishing at once would, a poll has one of three outcomes, and a collector
    of a replaced generation changes nothing. *)

From S2P Require Import Prelude PyStr PyDecimal PyTime PyIso PyState Domain PluginApi Registry Market.
From S2P Require Import Router Cache Runtime Service ServiceFacts ServiceCandidate CollectorHistory Collector.

Local Open Scope string_scope.
Local Open Scope list_scope.
Local Open Scope Z_scope.

(** ** The queue of quotes *)

Section quotes.
Context (rg : Registry) (limit : Z).

(** Whether a publication accepts the quote over the last quotes. *)
Definition accepts (last : gmap string ProviderQuote) (q : ProviderQuote) : bool :=
  bool_decide (is_Some (canonical_in rg (pq_symbol q))) && bool_decide (pq_as_of q ≤ limit) &&
  match last !! pq_symbol q with Some c => bool_decide (pq_as_of c ≤ pq_as_of q) | None => true end.

Definition accept_last (last : gmap string ProviderQuote) (q : ProviderQuote) : gmap string ProviderQuote :=
  if accepts last q then <[pq_symbol q := q]> last else last.

(** The last quote of one symbol. *)
Definition pick (old : option ProviderQuote) (q : ProviderQuote) : option ProviderQuote :=
  if bool_decide (is_Some (canonical_in rg (pq_symbol q))) && bool_decide (pq_as_of q ≤ limit) &&
     match old with Some c => bool_decide (pq_as_of c ≤ pq_as_of q) | None => true end
  then Some q else old.

Lemma accept_last_lookup last q x :
  accept_last last q !! x = if decide (x = pq_symbol q) then pick (last !! x) q else last !! x.
Proof.
  unfold accept_last, accepts, pick. case_decide as Hx.
  - subst x. destruct (_ && _); [by rewrite lookup_insert_eq|done].
  - destruct (_ && _); [|done]. by rewrite lookup_insert_ne.
Qed.

(** The keys of the pending dictionary are the symbols of its quotes. *)
Definition keyed_pending (l : list (string * ProviderQuote)) : Prop :=
  NoDup l.*1 ∧ ∀ k q, (k, q) ∈ l → k = pq_symbol q.

Lemma pending_get_none x l : pending_get x l = None ↔ x ∉ l.*1.
Proof.
  induction l as [|[y q] l IH]; cbn; [split; [by intros _ ?%elem_of_nil|done]|].
  case_decide as Hy; [subst|].
  - split; [done|]. intros Hn. exfalso. apply Hn. by left.
  - rewrite IH, elem_of_cons. naive_solver.
Qed.

Lemma pending_get_in x q l : pending_get x l = Some q → (x, q) ∈ l.
Proof.
  induction l as [|[y q'] l IH]; cbn; [done|]. case_decide; subst; [intros [= ->]; by left|].
  intros Hq. right. auto.
Qed.

Lemma pending_set_keys x q l : (pending_set x q l).*1 = if decide (x ∈ l.*1) then l.*1 else l.*1 ++ [x].
Proof.
  induction l as [|[y q'] l IH]; [done|]. cbn [pending_set]. destruct (decide (y = x)) as [->|Hy].
  - rewrite decide_True; [done|by left].
  - cbn. rewrite IH. destruct (decide (x ∈ l.*1)); [rewrite decide_True; [done|by right]|].
    rewrite decide_False; [done|]. intros [->|?]%elem_of_cons; done.
Qed.

Lemma pending_set_get x q l y :
  pending_get y (pending_set x q l) = if decide (y = x) then Some q else pending_get y l.
Proof.
  induction l as [|[z q'] l IH]; cbn [pending_set pending_get].
  - destruct (decide (x = y)), (decide (y = x)); congruence.
  - destruct (decide (z = x)) as [->|Hz]; cbn [pending_get].
    + destruct (decide (x = y)), (decide (y = x)); congruence.
    + rewrite IH. destruct (decide (z = y)), (decide (y = x)); congruence.
Qed.

Lemma pending_set_in x q l k c : (k, c) ∈ pending_set x q l → (k = x ∧ c = q) ∨ (k, c) ∈ l.
Proof.
  induction l as [|[z q'] l IH]; cbn [pending_set].
  - intros [= -> ->]%list_elem_of_singleton. by left.
  - destruct (decide (z = x)) as [->|Hz]; rewrite !elem_of_cons.
    + intros [[= -> ->]|?]; [by left|right; by right].
    + intros [[= -> ->]|Hin]; [right; by left|]. destruct (IH Hin); [by left|right; by right].
Qed.

Lemma enqueue_keyed q l : keyed_pending l → keyed_pending (enqueue q l).
Proof.
  intros [Hnd Hk]. unfold enqueue.
  assert (keyed_pending (pending_set (pq_symbol q) q l)) as Hset.
  { split.
    - rewrite pending_set_keys. case_decide as Hin; [done|]. apply NoDup_app. split_and!; [done| |apply NoDup_singleton].
      by intros x Hx ->%list_elem_of_singleton.
    - by intros k c [[-> ->]|Hin]%pending_set_in; [|apply Hk]. }
  destruct (pending_get _ _); [|done]. by case_decide.
Qed.

(** What a run over the pending quotes leaves for a symbol. *)
Lemma accept_pending_lookup l : ∀ last x, keyed_pending l →
  foldl accept_last last l.*2 !! x =
  match pending_get x l with Some c => pick (last !! x) c | None => last !! x end.
Proof.
  induction l as [|[y q] l IH]; intros last x [Hnd Hk]; [done|]. cbn.
  apply NoDup_cons in Hnd as [Hy Hnd]. assert (y = pq_symbol q) as -> by (apply Hk; by left).
  rewrite IH by (split; [done|]; intros k c Hc; apply Hk; by right). rewrite accept_last_lookup.
  case_decide as Hx; [subst x|rewrite decide_False by congruence; done].
  apply pending_get_none in Hy. cbn [fst] in Hy. by rewrite Hy, decide_True.
Qed.

Lemma pick_newer old c q : pq_symbol c = pq_symbol q → pq_as_of c ≤ limit → pq_as_of q ≤ limit →
  pick (pick old c) q = pick old (if decide (pq_as_of c ≤ pq_as_of q) then q else c).
Proof.
  intros Hs Hc Hq. unfold pick. rewrite (bool_decide_true (pq_as_of c ≤ limit)) by done.
  rewrite (bool_decide_true (pq_as_of q ≤ limit)) by done. case_decide; rewrite Hs;
    rewrite ?(bool_decide_true (pq_as_of c ≤ limit)), ?(bool_decide_true (pq_as_of q ≤ limit)) by done;
    destruct (bool_decide (is_Some _)); cbn [andb]; try done;
    destruct old as [o|]; repeat case_bool_decide; try done; try lia.
Qed.

(** Queueing a quote and running over the queue is running over it first. *)
Lemma accept_enqueue q l last : keyed_pending l → pq_as_of q ≤ limit →
  (∀ c, c ∈ l.*2 → pq_as_of c ≤ limit) →
  foldl accept_last last (enqueue q l).*2 = accept_last (foldl accept_last last l.*2) q.
Proof.
  intros Hk Hq Hl. apply map_eq. intros x.
  rewrite accept_pending_lookup by by apply enqueue_keyed.
  rewrite accept_last_lookup, accept_pending_lookup by done.
  assert (pending_get x (enqueue q l) =
    if decide (x = pq_symbol q) then
      match pending_get x l with
      | Some c => Some (if decide (pq_as_of c ≤ pq_as_of q) then q else c)
      | None => Some q
      end
    else pending_get x l) as ->.
  { unfold enqueue. case_decide as Hx; [subst x|].
    - destruct (pending_get (pq_symbol q) l) eqn:E; [case_decide|]; rewrite ?pending_set_get, ?decide_True by done; done.
    - destruct (pending_get (pq_symbol q) l); [case_decide|]; rewrite ?pending_set_get, ?decide_False by done; done. }
  case_decide as Hx; [|done]. destruct (pending_get x l) as [c|] eqn:E; [|done].
  apply pending_get_in in E. symmetry. apply pick_newer; [|apply Hl|done].
  - subst x. symmetry. by apply (proj2 Hk).
  - apply list_elem_of_fmap. by exists (x, c).
Qed.

Lemma enqueue_in q l c : c ∈ (enqueue q l).*2 → c = q ∨ c ∈ l.*2.
Proof.
  assert (c ∈ (pending_set (pq_symbol q) q l).*2 → c = q ∨ c ∈ l.*2) as Hset.
  { intros ([k c'] & -> & [[_ ->]|Hin]%pending_set_in)%list_elem_of_fmap; [by left|right].
    apply list_elem_of_fmap. by exists (k, c'). }
  unfold enqueue. destruct (pending_get _ _); [case_decide|]; auto.
Qed.

(** Coalescing a run of quotes accepts what accepting them one by one does. *)
Lemma accept_coalesced qs : ∀ l last, keyed_pending l → (∀ q, q ∈ qs → pq_as_of q ≤ limit) →
  (∀ c, c ∈ l.*2 → pq_as_of c ≤ limit) →
  foldl accept_last last (foldl (λ l q, enqueue q l) l qs).*2 =
  foldl accept_last (foldl accept_last last l.*2) qs.
Proof.
  induction qs as [|q qs IH]; intros l last Hk Hqs Hl; [done|]. cbn [foldl].
  rewrite IH; [|by apply enqueue_keyed|intros c Hc; apply Hqs; by right|].
  - rewrite accept_enqueue; [done|done|apply Hqs; by left|done].
  - intros c [->|Hc]%enqueue_in; [apply Hqs; by left|auto].
Qed.

End quotes.

(** ** Publications of the current generation *)

Section generation.
Context `{ServiceWorld} `{ProviderTraits}.
Context (g : RuntimeGeneration) (loc : nat).
Abbreviation rg := (gn_registry g).

Definition last_quotes (s : Service) : gmap string ProviderQuote :=
  match state_at s loc with Some st => ds_last_quotes st | None => ∅ end.

(** The identity a collector of this generation publishes with. *)
Definition own_identity (id : option string) : Prop := id = None ∨ id = Some (gn_generation_id g).

Lemma own_fenced id : own_identity id → ServiceFacts.fenced g id = false.
Proof. intros [-> | ->]; [done|]. apply bool_decide_eq_false. intros Hn. by apply Hn. Qed.

(** The last quotes of the generation's state are [m]. *)
Definition lasts (m : gmap string ProviderQuote) (s : Service) : Prop :=
  ∃ st, state_at s loc = Some st ∧ ds_last_quotes st = m.

Lemma lasts_core m s s' : same_core s s' → lasts m s → lasts m s'.
Proof. intros (_ & E & _) (st & Hst & Hm). exists st. unfold state_at in *. by rewrite E. Qed.

Lemma lasts_write m f : (∀ st, ds_last_quotes (f st) = ds_last_quotes st) →
  keeps (lasts m) (write_state loc f).
Proof.
  intros Hf s (st & Hst & Hm). exists (f st). rewrite Hf. split; [|done].
  unfold state_at in *. cbn. by rewrite list_lookup_alter_eq, Hst.
Qed.

Lemma lasts_persist m v : keeps (lasts m) (persist v).
Proof. intros s. apply lasts_core, persist_core. Qed.

Lemma lasts_add m p : keeps (lasts m) (history_add p).
Proof. intros s. apply lasts_core. unfold history_add. by destruct (HistoryCache.add _ _). Qed.

Lemma lasts_rebuild m sym persisted hist published_at :
  keeps (lasts m) (rebuild sym persisted rg loc hist published_at).
Proof.
  intros s (st & Hst & Hm). pose proof (rebuild_spec g loc s st sym persisted hist published_at Hst) as Hr.
  cbv zeta in Hr. destruct Hr as [s' r Hc _|s' i snap _ _ _ _ Hc].
  - eapply lasts_core; [exact Hc|]. by exists st.
  - eapply lasts_core; [exact Hc|]. apply (lasts_write m (record_snapshot i sym snap)); [done|by exists st].
Qed.

Lemma lasts_persist_point m point : keeps (lasts m) (persist_point point loc).
Proof.
  apply keeps_bind; [apply lasts_persist|]. intros [].
  apply keeps_bind; [|intros a; apply lasts_persist].
  apply keeps_bind; [by apply keeps_pure|]. intros current.
  apply keeps_bind; [by apply keeps_pure|]. intros a.
  apply keeps_bind; [by apply lasts_write|]. intros []. by apply keeps_pure.
Qed.

(** An accepted quote becomes the last one, whatever happens after. *)
Lemma store_quote_lasts q persisted published_at s m :
  lasts m s → lasts (<[pq_symbol q := q]> m) (store_quote q persisted rg loc published_at s).1.
Proof.
  intros (st & Hst & Hm).
  change (wp (store_quote q persisted rg loc published_at) (λ s' _, lasts (<[pq_symbol q := q]> m) s') s).
  apply wp_bind, wp_modify. cbv beta iota. eapply (wp_keeps (lasts _)).
  - apply keeps_bind; [by apply keeps_pure|]. intros point.
    apply keeps_bind; [apply lasts_add|]. intros [].
    apply keeps_bind; [apply lasts_rebuild|]. intros [].
    apply keeps_bind; [apply keeps_when, lasts_persist_point|]. intros []. by apply keeps_pure.
  - exists (accept_quote q st). split; [|by rewrite <- Hm].
    unfold state_at in *. cbn. by rewrite list_lookup_alter_eq, Hst.
Qed.

(** A publication with the generation's own identity changes the last quotes as
    [accept_last] says. *)
Lemma publish_quote_lasts q persisted id now published_at s m :
  inv g loc s → own_identity id → lasts m s →
  lasts (accept_last rg (future_limit now) m q) (publish_quote q persisted id now published_at s).1.
Proof.
  intros Hinv Hid Hm. pose proof Hm as (st & Hst & Hlast).
  change (wp (publish_quote q persisted id now published_at)
    (λ s' _, lasts (accept_last rg (future_limit now) m q) s') s).
  apply (wp_context g loc); [done|]. rewrite (own_fenced _ Hid). cbv zeta. unfold accept_last, accepts.
  destruct (canonical_in rg (pq_symbol q)) as [i|] eqn:Hcan.
  2: { rewrite bool_decide_false by by intros [? ?]. done. }
  rewrite (bool_decide_true (is_Some (Some i))) by by exists i. cbn [andb].
  wp_step. wp_step. unfold raise_if. case_bool_decide as Hfut.
  { rewrite (bool_decide_false (pq_as_of q ≤ _)) by lia. done. }
  rewrite (bool_decide_true (pq_as_of q ≤ _)) by lia. cbn [andb].
  apply wp_bind, (wp_read loc _ _ _ _ Hst). cbv iota beta. rewrite <- Hlast in *.
  assert (∀ b : bool, (match ds_last_quotes st !! pq_symbol q with
                       | Some c => bool_decide (pq_as_of q < pq_as_of c) | None => false end) = b →
    (match ds_last_quotes st !! pq_symbol q with
     | Some c => bool_decide (pq_as_of c ≤ pq_as_of q) | None => true end) = negb b) as Hneg.
  { intros b <-. destruct (ds_last_quotes st !! pq_symbol q); [|done]. repeat case_bool_decide; (done || lia). }
  destruct (match ds_last_quotes st !! pq_symbol q with Some _ => _ | None => false end) eqn:Hold.
  { rewrite (Hneg true) by done. done. }
  rewrite (Hneg false) by done. apply wp_bind, wp_gets. rewrite (inv_current g loc s) by done. cbn [negb].
  by apply store_quote_lasts.
Qed.

(** ** Flushing *)

(** The collector works for the generation of a sound service. *)
Definition attached (w : world) : Prop :=
  inv g loc (w_service w) ∧ own_identity (tg_generation_id (mc_target (w_collector w))).

Lemma inv_mark_failed symbols id s : inv g loc s → own_identity id →
  ∃ s', mark_source_failed symbols id s = (s', Ok true) ∧ inv g loc s' ∧
        (∀ m, lasts m s → lasts m s') ∧
        ∀ st, state_at s' loc = Some st →
          ∀ x, x ∈ symbols → is_Some (resolve rg x) → x ∈ ds_source_failures st.
Proof.
  intros Hinv Hid. pose proof Hinv as (Hg & Hl & Hb & st & Hst & Hok).
  unfold mark_source_failed, mbind, comp_bind. rewrite (context_spec g loc) by done.
  rewrite (own_fenced _ Hid). unfold gets. rewrite (inv_current g loc s) by done. cbn [negb].
  eexists. split; [done|]. set (f := λ st : data_state, set_ds_source_failures _ st).
  assert (state_at (set_sv_states (alter f loc (sv_states s)) s) loc = Some (f st)) as Hat.
  { unfold state_at in *. cbn. by rewrite list_lookup_alter_eq, Hst. }
  split_and!.
  - split_and!; [done..|]. exists (f st). split; [exact Hat|]. apply (state_ok_same _ st); done.
  - intros m (st' & Hst' & <-). rewrite Hst in Hst'. injection Hst' as <-. by exists (f st).
  - intros st' Hst'. pose proof (eq_trans (eq_sym Hat) Hst') as [= <-]. intros x Hx Hr. cbn. apply elem_of_union. left.
    apply elem_of_list_to_set, list_elem_of_In, filter_In. split; [by apply list_elem_of_In|].
    by apply bool_decide_eq_true.
Qed.

Lemma flush_quote_spec q now published_at at_ w m :
  attached w → lasts m (w_service w) →
  let r := flush_quote now published_at at_ q w in
  r.2 = Ok tt ∧ attached r.1 ∧ mc_pending (w_collector r.1) = mc_pending (w_collector w) ∧
  lasts (accept_last rg (future_limit now) m q) (w_service r.1).
Proof.
  intros [Hinv Hid] Hm. cbv zeta. unfold flush_quote, try_except, mbind, comp_bind, read_collector, gets.
  set (id := tg_generation_id _) in *. unfold call_service.
  assert (inv g loc (publish_quote q true id now published_at (w_service w)).1) as Hinv'.
  { pose proof Hinv as (_ & _ & _ & st & Hst & _).
    by apply (good_publish_quote g loc st), good_here. }
  pose proof (publish_quote_lasts q true id now published_at _ m Hinv Hid Hm) as Hm'.
  destruct (publish_quote _ _ _ _ _ _) as [s' [b|e]]; cbn in Hinv', Hm' |- *; [done|].
  unfold mark_failed, mbind, comp_bind, read_collector, gets, call_service. cbn.
  destruct (inv_mark_failed [pq_symbol q] id s' Hinv' Hid) as (s'' & Hmark & Hinv'' & Hl & _).
  fold id. rewrite Hmark. cbn. split_and!; [done|done|done|by apply Hl].
Qed.

Lemma flush_all_spec now published_at at_ pending : ∀ w m,
  attached w → lasts m (w_service w) →
  let r := for_each (λ kq : string * ProviderQuote, flush_quote now published_at at_ kq.2) pending w in
  r.2 = Ok tt ∧ attached r.1 ∧ mc_pending (w_collector r.1) = mc_pending (w_collector w) ∧
  lasts (foldl (accept_last rg (future_limit now)) m pending.*2) (w_service r.1).
Proof.
  induction pending as [|[k q] pending IH]; intros w m Hw Hm; [done|]. cbn [for_each].
  cbv zeta. unfold mbind, comp_bind.
  destruct (flush_quote_spec q now published_at at_ w m Hw Hm) as (Hr & Hw' & Hp' & Hm').
  cbn [fst snd]. destruct (flush_quote now published_at at_ q w) as [w' r].
  cbn in Hr, Hw', Hp', Hm'. subst r. destruct (IH w' _ Hw' Hm') as (? & ? & Hp & ?).
  split_and!; [done..|by rewrite Hp|done].
Qed.

Lemma queue_all qs : ∀ w,
  let r := for_each queue_quote qs w in
  r.2 = Ok tt ∧ w_service r.1 = w_service w ∧ mc_target (w_collector r.1) = mc_target (w_collector w) ∧
  mc_pending (w_collector r.1) = foldl (λ l q, enqueue q l) (mc_pending (w_collector w)) qs.
Proof.
  induction qs as [|q qs IH]; intros w; [done|]. cbn [for_each foldl]. cbv zeta.
  unfold mbind, comp_bind. cbn. match goal with |- context [for_each queue_quote qs ?w'] =>
    destruct (IH w') as (H1 & H2 & H3 & H4) end. by rewrite H1, H2, H3, H4.
Qed.

Lemma publish_all_lasts persisted id now published_at qs : ∀ s m,
  inv g loc s → own_identity id → lasts m s →
  lasts (foldl (accept_last rg (future_limit now)) m qs)
    (publish_all g loc ((λ q, PubQuote q persisted id now published_at) <$> qs) s).
Proof.
  induction qs as [|q qs IH]; intros s m Hinv Hid Hm; [done|]. cbn. apply IH; [|done|].
  - pose proof Hinv as (_ & _ & _ & st & Hst & _). by apply (good_publish_quote g loc st), good_here.
  - by apply publish_quote_lasts.
Qed.

Lemma lasts_last m s : lasts m s → last_quotes s = m.
Proof. intros (st & Hst & <-). unfold last_quotes. by rewrite Hst. Qed.

End generation.

(** ** Intervals of the polls *)

Section intervals.
Context `{ServiceWorld} `{ProviderTraits}.

Lemma chain_max_ge f chain : ∀ initial, initial ≤ chain_max initial f chain.
Proof.
  unfold chain_max. induction chain as [|p chain IH]; intros initial; cbn; [done|].
  etrans; [|apply IH]. destruct (f p); lia.
Qed.

Lemma success_interval_ge i chain selected q scheduled :
  is_quote_poll_seconds i ≤ success_interval i chain selected q scheduled.
Proof.
  unfold success_interval. set (base := is_quote_poll_seconds i).
  pose proof (chain_max_ge pt_minimum_quote_poll chain base).
  set (probe := chain_max base pt_minimum_quote_poll chain) in *.
  destruct (bool_decide (is_market_calendar i = US_EQUITY)), (is_fallback (primary_of chain) q),
    (selected ≫= pt_minimum_quote_poll), (selected ≫= pt_closed_market_poll);
    cbn [negb andb orb]; rewrite ?andb_true_r, ?andb_false_r, ?orb_true_r;
    repeat match goal with
           | |- context [decide ?P] => destruct (decide P)
           | |- context [if ?b then _ else _] => destruct b
           end; lia.
Qed.

Lemma failure_interval_ge i chain e scheduled retry_after :
  Z.min (is_quote_poll_seconds i) 250000 ≤ failure_interval i chain e scheduled retry_after.
Proof.
  unfold failure_interval. set (base := is_quote_poll_seconds i).
  set (attempts := match e with AllProvidersFailed _ _ _ => _ | _ => _ end).
  pose proof (chain_max_ge pt_minimum_quote_poll chain base).
  destruct (omap _ _); repeat match goal with |- context [decide ?P] => destruct (decide P) end;
    unfold hours, seconds in *; lia.
Qed.

Lemma normalize_symbol c q now : pq_symbol (normalize_market_status c q now) = pq_symbol q ∧
  pq_as_of (normalize_market_status c q now) = pq_as_of q.
Proof. unfold normalize_market_status. by case_decide. Qed.

(** What a queued quote leaves pending. *)
Lemma enqueue_holds q l : ∃ c, pending_get (pq_symbol q) (enqueue q l) = Some c ∧ pq_as_of q ≤ pq_as_of c.
Proof.
  unfold enqueue. destruct (pending_get (pq_symbol q) l) as [c|] eqn:E; [case_decide|].
  - exists q. by rewrite pending_set_get, decide_True.
  - exists c. split; [done|lia].
  - exists q. by rewrite pending_set_get, decide_True.
Qed.

End intervals.

(** ** A collector of a replaced generation *)

Section retired.
Context `{ServiceWorld} `{ProviderTraits}.
Context (g : RuntimeGeneration) (s0 : Service) (Hfenced : fenced g s0).

(** The service is [s0], and the collector works for the generation [g]. *)
Definition retired (w : world) : Prop :=
  w_service w = s0 ∧ tg_generation_id (mc_target (w_collector w)) = Some (gn_generation_id g).

Lemma retired_on_collector f :
  (∀ c, mc_target (f c) = mc_target c) → keeps retired (on_collector f).
Proof. intros Hf w [Hs Hid]. split; [done|]. cbn. by rewrite Hf. Qed.

Lemma retired_read {A} (f : Collector → A) : keeps retired (read_collector f).
Proof. by apply keeps_pure. Qed.

Lemma retired_lift {A} (m : result A) : keeps retired (lift m).
Proof. by apply keeps_pure. Qed.

Lemma retired_error job e now : keeps retired (record_error job e now).
Proof. by apply retired_on_collector. Qed.

Lemma retired_clear job : keeps retired (clear_error job).
Proof. by apply retired_on_collector. Qed.

Lemma retired_queue q : keeps retired (queue_quote q).
Proof. by apply retired_on_collector. Qed.

Lemma retired_try {A} catches (m : comp world A) handler :
  keeps retired m → (∀ e, keeps retired (handler e)) → keeps retired (try_except catches m handler).
Proof.
  intros Hm Hh w Hw. unfold try_except. specialize (Hm w Hw). destruct (m w) as [w' [a|e]]; [done|].
  cbn in Hm. destruct (catches e); [by apply Hh|done].
Qed.

(** A call of the service in the name of the collector's generation. *)
Lemma retired_call {A B} (m : option string → comp Service A) (k : A → comp world B) :
  (m (Some (gn_generation_id g)) s0).1 = s0 → (∀ a, keeps retired (k a)) →
  keeps retired (id ← read_collector (λ c, tg_generation_id (mc_target c)); a ← call_service (m id); k a).
Proof.
  intros Hm Hk w [Hs Hid]. unfold mbind, comp_bind, read_collector, gets, call_service. cbn.
  rewrite Hs, Hid. destruct (m _ s0) as [s' [a|e]]; cbn in Hm; subst s'; [by apply Hk|done].
Qed.

Lemma retired_bind_call {A B C} (m : option string → comp Service A) (f : A → comp world B)
    (k : B → comp world C) :
  (m (Some (gn_generation_id g)) s0).1 = s0 → (∀ a, keeps retired (f a)) → (∀ b, keeps retired (k b)) →
  keeps retired (id ← read_collector (λ c, tg_generation_id (mc_target c));
                 b ← (a ← call_service (m id); f a); k b).
Proof.
  intros Hm Hf Hk w [Hs Hid]. unfold mbind, comp_bind, read_collector, gets, call_service. cbn.
  rewrite Hs, Hid. destruct (m _ s0) as [s' [a|e]]; cbn in Hm; subst s'; [|done].
  assert (retired (set_w_service s0 w)) as Hw by done. pose proof (Hf a _ Hw) as Hw1.
  destruct (f a _) as [w1 [b|e]]; [by apply Hk|done].
Qed.

Lemma retired_mark symbols : keeps retired (mark_failed symbols).
Proof.
  apply (retired_call (mark_source_failed symbols)); [by rewrite fe_failed|]. intros a. by apply keeps_pure.
Qed.

Lemma retired_flush now published_at at_ : keeps retired (flush_pending now published_at at_).
Proof.
  apply keeps_bind; [apply retired_read|]. intros pending.
  apply keeps_bind; [by apply retired_on_collector|]. intros []. apply keeps_for_each. intros kq.
  apply retired_try.
  - apply (retired_call (λ id, publish_quote kq.2 true id now published_at)); [by rewrite fe_quote|].
    intros b. apply retired_clear.
  - intros e. apply keeps_bind; [apply retired_mark|]. intros []. apply retired_error.
Qed.

(** The rest of a poll once the router has answered. *)
Lemma retired_poll symbol env w :
  retired (pe_get_quote env w).1 →
  (poll_quote_once symbol env w).1 = w ∨ retired (poll_quote_once symbol env w).1.
Proof.
  intros Hw. change (wp (poll_quote_once symbol env) (λ w' _, w' = w ∨ retired w') w).
  apply wp_bind, wp_gets, wp_bind, wp_lift. destruct (getitem _ symbol) as [i|e]; [|by left].
  cbv zeta. destruct (fresh_stream _ _ _ _ _); [by left|]. apply wp_try, wp_bind. unfold wp at 1.
  destruct (pe_get_quote env w) as [w1 [answer|e]]; [by right|]. cbn [fst snd]. right.
  revert w1 Hw. apply (keeps_bind retired); [apply retired_mark|]. intros [].
  apply (keeps_bind retired); [apply retired_error|]. intros []. by apply keeps_pure.
Qed.

(** A refresh in one [try]: what the router does, then a publication. *)
Lemma retired_refresh {A} (get : comp world A) (k : A → comp world bool) (handler : exn → comp world bool) w :
  retired (get w).1 → (∀ a, keeps retired (k a)) → (∀ e, keeps retired (handler e)) →
  retired (try_except (λ _, true) (get ≫= k) handler w).1.
Proof.
  intros Hw Hk Hh. unfold try_except, mbind, comp_bind. destruct (get w) as [w1 [a|e]]; cbn in Hw.
  - specialize (Hk a w1 Hw). destruct (k a w1) as [w2 [b|e]]; [done|]. by apply Hh.
  - by apply Hh.
Qed.

Lemma retired_dividend symbol env w :
  retired (me_get_dividend env w).1 → retired (refresh_dividend symbol env w).1.
Proof.
  intros Hw. apply retired_refresh; [done| |].
  - intros event. destruct event as [e|].
    + apply (retired_bind_call (λ id, publish_dividend e true id (me_published_at env))
               (λ _, mret tt)); [by rewrite fe_dividend|by intros _; apply keeps_pure|].
      intros []. apply keeps_bind; [apply retired_clear|]. intros []. by apply keeps_pure.
    + apply keeps_bind; [apply retired_read|]. intros id. apply keeps_bind; [by apply keeps_pure|]. intros [].
      apply keeps_bind; [apply retired_clear|]. intros []. by apply keeps_pure.
  - intros e. apply keeps_bind; [apply retired_error|]. intros []. by apply keeps_pure.
Qed.

Lemma retired_yield symbol env w :
  retired (me_get_yield env w).1 → retired (refresh_yield symbol env w).1.
Proof.
  intros Hw. apply retired_refresh; [done| |].
  - intros metric.
    apply (retired_call (λ id, publish_yield_metric metric true id (me_now env) (me_published_at env)));
      [by rewrite fe_yield|].
    intros _. apply keeps_bind; [apply retired_clear|]. intros []. by apply keeps_pure.
  - intros e. apply keeps_bind; [apply retired_error|]. intros []. by apply keeps_pure.
Qed.

(** *** Histories *)

Lemma retired_history points env : keeps retired (publish_history_async points env).
Proof.
  intros w [Hs Hid]. unfold publish_history_async, mbind, comp_bind, read_collector, gets, call_service. cbn.
  by rewrite Hs, Hid, (fe_begin _ _ Hfenced).
Qed.

Lemma retired_fetch interval start end_ env : keeps retired (fetch_history interval start end_ env).
Proof.
  apply keeps_bind; [apply retired_lift|]. intros points. apply keeps_bind.
  - case_decide; [by apply keeps_pure|apply retired_history].
  - intros _. by apply keeps_pure.
Qed.

Lemma retired_stored symbol interval : keeps retired (stored_points symbol interval).
Proof. apply keeps_bind; [by apply keeps_pure|]. intros h. apply retired_lift. Qed.

Lemma retired_backfill f : keeps retired (on_backfill f).
Proof. by apply retired_on_collector. Qed.

Lemma retired_daily symbol now refresh force env m m' :
  keeps retired (backfill_daily_interval symbol now refresh force env m m').
Proof.
  apply keeps_bind; [apply retired_stored|]. intros existing. apply keeps_bind; [apply retired_read|].
  intros c. cbv zeta. destruct (plan_daily _ _ _ _ _ _ _ _); [by apply keeps_pure|].
  apply keeps_bind; [apply retired_fetch|]. intros daily.
  apply keeps_bind; [apply retired_backfill|]. intros []. by apply keeps_pure.
Qed.

Lemma retired_interval i symbol interval env l : keeps retired (backfill_interval i symbol interval env l).
Proof.
  apply keeps_bind; [apply retired_read|]. intros c. apply keeps_bind; [apply retired_stored|]. intros existing.
  cbv zeta. destruct (negb _); [by apply keeps_pure|]. apply retired_try; [|by intros e; apply keeps_pure].
  apply keeps_bind; [apply retired_fetch|]. intros fetched. by apply keeps_pure.
Qed.

Lemma retired_backfill_symbol symbol env : keeps retired (backfill_symbol symbol env).
Proof.
  apply keeps_bind; [apply retired_read|]. intros c. apply keeps_bind; [apply retired_lift|]. intros i.
  cbv zeta. destruct (_ && _); [by apply keeps_pure|].
  assert (∀ interval l, keeps retired
    (if decide (interval ∈ default ["1m"; "5m"] (bf_fx_cycle (mc_backfill c) !! symbol))
     then backfill_interval i symbol interval env l else mret l)) as Hstep.
  { intros interval l. case_decide; [apply retired_interval|by apply keeps_pure]. }
  apply keeps_bind; [apply Hstep|]. intros l1. apply keeps_bind; [apply Hstep|]. intros l2.
  apply keeps_bind; [apply retired_read|]. intros preseeded. apply keeps_bind.
  { destruct (negb preseeded); [|by apply keeps_pure].
    apply retired_try; [|by intros e; apply keeps_pure].
    apply keeps_bind; [apply retired_daily|]. intros r. by apply keeps_pure. }
  intros l3. apply keeps_bind; [apply keeps_when, retired_backfill|]. intros [].
  destruct (last _) as [[? e]|]; [|by apply keeps_pure]. by destruct (_ && _); apply keeps_pure.
Qed.
End retired.

(** ** Properties *)

(** C21: coalescing is transparent: of a run of quotes that the clock allows,
    queueing all and flushing once leaves the last quotes that publishing every
    one of them in order would, and the flush never fails. *)
Theorem coalescing_transparent `{ServiceWorld} `{ProviderTraits} (g : RuntimeGeneration) (loc : nat)
    (w : world) (qs : list ProviderQuote) (now published_at at_ : Z)
    (Hw : attached g loc w) (Hp : mc_pending (w_collector w) = [])
    (Hqs : ∀ q, q ∈ qs → pq_as_of q ≤ future_limit now) :
  let r := (for_each queue_quote qs ≫= λ _, flush_pending now published_at at_) w in
  let id := tg_generation_id (mc_target (w_collector w)) in
  r.2 = Ok tt ∧ mc_pending (w_collector r.1) = [] ∧
  last_quotes loc (w_service r.1) =
  last_quotes loc (publish_all g loc ((λ q, PubQuote q true id now published_at) <$> qs) (w_service w)).
Proof.
  cbv zeta. destruct (queue_all qs w) as (Hr & Hs & Ht & Hq). unfold mbind, comp_bind.
  destruct (for_each queue_quote qs w) as [w1 r1]. cbn [fst snd] in *. subst r1. rewrite Hp in Hq.
  set (limit := future_limit now). set (rg := gn_registry g).
  set (w2 := set_w_collector (set_mc_pending [] (w_collector w1)) w1).
  assert (attached g loc w2) as Hw2.
  { destruct Hw as [Hi Hid]. split; [cbn; by rewrite Hs|cbn; by rewrite Ht]. }
  assert (lasts loc (last_quotes loc (w_service w)) (w_service w)) as Hm.
  { destruct Hw as [(_ & _ & _ & st & Hst & _) _]. exists st. unfold last_quotes. by rewrite Hst. }
  assert (lasts loc (last_quotes loc (w_service w)) (w_service w2)) as Hm2 by (cbn; by rewrite Hs).
  destruct (flush_all_spec g loc now published_at at_ (mc_pending (w_collector w1)) w2 _ Hw2 Hm2)
    as (Hr & _ & Hp2 & Hl).
  change (flush_pending now published_at at_ w1) with
    (for_each (λ kq : string * ProviderQuote, flush_quote now published_at at_ kq.2)
       (mc_pending (w_collector w1)) w2).
  split_and!; [exact Hr|exact Hp2|]. apply lasts_last in Hl. rewrite Hl, Hq.
  rewrite (accept_coalesced rg limit); [|split; [constructor|by intros k q ?%elem_of_nil]|done|by intros c ?%elem_of_nil].
  symmetry. apply lasts_last, publish_all_lasts; [apply Hw|apply Hw|exact Hm].
Qed.

(** The three outcomes of a poll.  While the stream of the primary provider
    is fresh nothing is asked and nothing changes, and the next poll comes
    before the observation expires.  An answer is queued, or superseded by a
    newer quote that is already queued, its error is cleared, and the next poll
    is at least the instrument's interval away.  A failure marks the symbol as
    failing and keeps its reason; the next poll is not closer than a quarter of
    a second, or the instrument's interval.  The poll itself never raises. *)
Theorem poll_outcomes `{ServiceWorld} `{ProviderTraits} (w : world) (symbol : string) (env : poll_env)
    (i : InstrumentSpec) (Hi : getitem (mc_registry (w_collector w)) symbol = Ok i) :
  let primary := primary_of (providers_for (mc_router (w_collector w)) symbol QUOTE) in
  let r := poll_quote_once symbol env w in
  let asked := pe_get_quote env w in
  match fresh_stream (w_collector w) i primary symbol (pe_monotonic env) with
  | Some age =>
    r.1 = w ∧ ∃ d, r.2 = Ok d ∧ age < suppression i primary ∧
    ((∃ p, primary = Some p ∧ 0 < pt_stream_recheck p) → 0 < d ∧ age + d ≤ suppression i primary)
  | None =>
    match asked.2 with
    | Ok answer =>
      w_service r.1 = w_service asked.1 ∧
      mc_last_errors (w_collector r.1) !! ("quote:" +:+ symbol) = None ∧
      (∃ q, pending_get (pq_symbol answer) (mc_pending (w_collector r.1)) = Some q ∧
            pq_as_of answer ≤ pq_as_of q) ∧
      ∃ d, r.2 = Ok d ∧ is_quote_poll_seconds i ≤ d
    | Raise e =>
      ∀ g loc, attached g loc asked.1 → is_Some (resolve (gn_registry g) symbol) →
      (∃ st, state_at (w_service r.1) loc = Some st ∧ symbol ∈ ds_source_failures st) ∧
      last_quotes loc (w_service r.1) = last_quotes loc (w_service asked.1) ∧
      mc_last_errors (w_collector r.1) !! ("quote:" +:+ symbol) = Some (error_reason e, pe_now env) ∧
      ∃ d, r.2 = Ok d ∧ Z.min (is_quote_poll_seconds i) 250000 ≤ d
    end
  end.
Proof.
  cbv zeta. unfold poll_quote_once, read_collector, gets, mbind, comp_bind, lift, id. rewrite Hi. cbv iota beta.
  set (chain := providers_for _ _ _). destruct (fresh_stream _ _ _ _ _) as [age|] eqn:Hf.
  - split; [done|]. eexists. split; [done|]. unfold fresh_stream in Hf.
    destruct (match primary_of chain with Some p => _ | None => None end); [|done].
    case_decide as Ha; [|done]. injection Hf as Hage. rewrite <- Hage in *. split; [lia|].
    intros (p & Hp & Hre). unfold suppressed_interval. rewrite Hp in *. rewrite decide_True by done. lia.
  - unfold try_except. destruct (pe_get_quote env w) as [w1 [answer|e]]; cbn [fst snd].
    + cbn. destruct (normalize_symbol (w_collector w1) answer (pe_now env)) as [Hs Ht].
      split_and!; [done|by rewrite lookup_delete_eq| |].
      * rewrite <- Hs, <- Ht. apply enqueue_holds.
      * eexists. split; [done|]. apply success_interval_ge.
    + intros g loc [Hinv Hid] Hreg. unfold mark_failed, mbind, comp_bind, read_collector, gets, call_service.
      destruct (inv_mark_failed g loc [symbol] _ (w_service w1) Hinv Hid) as (s2 & Hmark & Hinv2 & Hl & Hfail).
      rewrite Hmark. cbn. split_and!.
      * destruct Hinv2 as (_ & _ & _ & st & Hst & _). exists st. split; [done|].
        apply (Hfail st Hst symbol); [by left|done].
      * destruct Hinv as (_ & _ & _ & st & Hst & _). apply lasts_last, Hl.
        exists st. unfold last_quotes. by rewrite Hst.
      * by rewrite lookup_insert_eq.
      * eexists. split; [done|]. apply failure_interval_ge.
Qed.

(** C23: a collector is silenced by the activation of another generation, in the
    middle of whatever it does: from then on, whatever the collectors publish in
    the meantime, flushing its queue, the rest of a poll or of a metadata
    refresh that was waiting for its provider, and a whole backfill leave the
    service exactly as it is. *)
Theorem retired_collector_silent `{ServiceWorld} `{ProviderTraits} (s s' : Service) (rg : Registry)
    (revision : string) (catalog route_plan : option Z) (data_state : option nat)
    (generation_id : option string) (uuid : string) (now : Z) (previous current : RuntimeGeneration)
    (l : list (RuntimeGeneration * nat * publication))
    (Hactivate : activate_runtime_generation rg revision catalog route_plan data_state generation_id
                   uuid now s = (s', Ok (previous, current)))
    (Hfresh : gn_generation_id current ≠ gn_generation_id previous) :
  let R := retired previous (publish_mixed l s') in
  (∀ now published_at at_, keeps R (flush_pending now published_at at_)) ∧
  (∀ symbol env w, R (pe_get_quote env w).1 →
     (poll_quote_once symbol env w).1 = w ∨ R (poll_quote_once symbol env w).1) ∧
  (∀ symbol env w, R (me_get_dividend env w).1 → R (refresh_dividend symbol env w).1) ∧
  (∀ symbol env w, R (me_get_yield env w).1 → R (refresh_yield symbol env w).1) ∧
  (∀ symbol env, keeps R (backfill_symbol symbol env)).
Proof.
  cbv zeta.
  assert (fenced previous (publish_mixed l s')) as Hf.
  { apply activate_result in Hactivate as [_ ->]. apply fenced_other.
    unfold capture_generation in *. by rewrite mixed_generations. }
  split_and!; intros.
  - by apply retired_flush.
  - by apply retired_poll.
  - by apply retired_dividend.
  - by apply retired_yield.
  - by apply retired_backfill_symbol.
Qed.

(** ** Witnesses *)

Definition demo_provider : Provider :=
  {| pv_id := 1; pv_name := "demo"; pv_callable := [QUOTE]; pv_history_prefix_limited := false |}.

Definition demo_traits : ProviderTraits :=
  {| pt_minimum_quote_poll := λ _, Some (seconds 2); pt_closed_market_poll := λ _, None;
     pt_stream_suppression := λ _, seconds 10; pt_stream_recheck := λ _, seconds 4;
     pt_stream_quotes := λ _, true; pt_stream_symbols := λ _, ["STETH:USDC"] |}.

Definition demo_collector : Collector :=
  {| mc_settings := {| cs_metadata_poll_seconds := hours 6; cs_metadata_retry_seconds := seconds 60;
                       cs_history_poll_seconds := hours 1 |};
     mc_target :=
       {| tg_registry := demo_registry; tg_generation_id := Some "g1";
          tg_providers := [("demo", demo_provider)];
          tg_router := {| routes := {[ (router_symbol "STETH:USDC", QUOTE) := [demo_provider] ]};
                          circuits := ∅; fallbacks := ∅; route_selections := ∅ |};
          tg_history_policies := ∅ |};
     mc_pending := []; mc_last_errors := ∅; mc_checkpoints := ∅;
     mc_stream_observed := {[ (1, "STETH:USDC") := seconds 100 ]}; mc_reconnects := ∅;
     mc_progress := {| pg_quote_next := ∅; pg_metadata_next := ∅; pg_history_next := ∅;
                       pg_history_next_empty := 0 |};
     mc_backfill := {| bf_equity_fallback_at := ∅; bf_daily_retry_at := ∅; bf_daily_preseeded := ∅;
                       bf_fx_daily_retry := ∅; bf_fx_failed := ∅; bf_fx_cycle := ∅;
                       bf_fx_retry_only := false; bf_full_cycle := true; bf_due := None; bf_next_fx := 0 |} |}.

Definition demo_world0 : Collector.world := {| w_service := demo_service; w_collector := demo_collector |}.

Lemma demo_attached : @attached demo_world demo_generation 0 demo_world0.
Proof. split; [exact (@inv_starts demo_world demo_generation 0 _ demo_starts)|by right]. Qed.

(** Three quotes of one symbol within a flush window, the newest in the middle. *)
Definition demo_burst : list ProviderQuote :=
  [demo_quote (hours 1) 2000; demo_quote (hours 3) 2200; demo_quote (hours 2) 2100].

Lemma coalescing_transparent_witness :
  let r := (for_each queue_quote demo_burst ≫= λ _, @flush_pending demo_world (hours 3) (hours 3) 0) demo_world0 in
  r.2 = Ok tt ∧
  last_quotes 0 (w_service r.1) =
    last_quotes 0 (@publish_all demo_world demo_generation 0
      ((λ q, PubQuote q true (Some "g1") (hours 3) (hours 3)) <$> demo_burst) demo_service) ∧
  last_quotes 0 (w_service r.1) !! "STETH:USDC" = Some (demo_quote (hours 3) 2200).
Proof.
  cbv zeta.
  destruct (@coalescing_transparent demo_world demo_traits demo_generation 0 demo_world0 demo_burst
    (hours 3) (hours 3) 0 demo_attached eq_refl) as (Hr & _ & Hl).
  - intros q Hq. unfold demo_burst in Hq. rewrite !elem_of_cons in Hq.
    destruct Hq as [-> |[-> |[-> |Hq]]]; [vm_compute; discriminate..|by apply elem_of_nil in Hq].
  - split; [exact Hr|]. split; [exact Hl|]. vm_compute. reflexivity.
Defined.

Definition demo_poll (monotonic : Z) (answer : result ProviderQuote) : poll_env :=
  {| pe_monotonic := monotonic; pe_get_quote := lift answer; pe_now := hours 1;
     pe_retry_after := λ _, Some (seconds 0) |}.

(** Five seconds after the last message the stream is fresh, later the router is
    asked, and fails or answers. *)
Lemma poll_outcomes_witness :
  let poll := λ monotonic answer,
    @poll_quote_once demo_world demo_traits "STETH:USDC" (demo_poll monotonic answer) demo_world0 in
  (poll (seconds 105) (Ok (demo_quote (hours 1) 2000))).1 = demo_world0 ∧
  (∃ d, (poll (seconds 200) (Ok (demo_quote (hours 1) 2000))).2 = Ok d ∧ seconds 1 ≤ d) ∧
  mc_last_errors (w_collector (poll (seconds 200) (Raise (ValueError "no"))).1) !! "quote:STETH:USDC" =
    Some ("ValueError", hours 1).
Proof.
  cbv zeta. split; [|split].
  - pose proof (@poll_outcomes demo_world demo_traits demo_world0 "STETH:USDC"
      (demo_poll (seconds 105) (Ok (demo_quote (hours 1) 2000))) demo_staked ltac:(vm_compute; reflexivity)) as Hr.
    cbv zeta in Hr.
    destruct (@fresh_stream demo_traits _ _ _ _ _) eqn:E; [exact (proj1 Hr)|vm_compute in E; discriminate].
  - pose proof (@poll_outcomes demo_world demo_traits demo_world0 "STETH:USDC"
      (demo_poll (seconds 200) (Ok (demo_quote (hours 1) 2000))) demo_staked ltac:(vm_compute; reflexivity)) as Hr.
    cbv zeta in Hr.
    destruct (@fresh_stream demo_traits _ _ _ _ _) eqn:E; [vm_compute in E; discriminate|].
    exact (proj2 (proj2 (proj2 Hr))).
  - pose proof (@poll_outcomes demo_world demo_traits demo_world0 "STETH:USDC"
      (demo_poll (seconds 200) (Raise (ValueError "no"))) demo_staked ltac:(vm_compute; reflexivity)) as Hr.
    cbv zeta in Hr.
    destruct (@fresh_stream demo_traits _ _ _ _ _) eqn:E; [vm_compute in E; discriminate|].
    exact (proj1 (proj2 (proj2 (Hr demo_generation 0%nat demo_attached ltac:(vm_compute; eauto))))).
Defined.

(** The generation of the collector is replaced while its poll waits for the
    router: the answer is queued, and its flush changes nothing. *)
Lemma retired_collector_silent_witness :
  let s' := (activate_runtime_generation demo_registry "r2" None None None None "uuid-2" (hours 2)
               demo_service).1 in
  let env := {| pe_monotonic := seconds 200;
                pe_get_quote := (_ ← modify (set_w_service s'); mret (demo_quote (hours 2) 2100));
                pe_now := hours 2; pe_retry_after := λ _, None |} in
  let w := (@poll_quote_once demo_world demo_traits "STETH:USDC" env demo_world0).1 in
  mc_pending (w_collector w) = [("STETH:USDC", demo_quote (hours 2) 2100)] ∧
  w_service (@flush_pending demo_world (hours 2) (hours 2) 0 w).1 = s'.
Proof.
  cbv zeta. split; [vm_compute; reflexivity|].
  apply (proj1 (@retired_collector_silent demo_world demo_traits demo_service
    (activate_runtime_generation demo_registry "r2" None None None None "uuid-2" (hours 2) demo_service).1
    demo_registry "r2" None None None None "uuid-2" (hours 2) demo_generation
    {| gn_generation_id := "uuid-2"; gn_revision := "r2"; gn_registry := demo_registry;
       gn_activated_at := hours 2; gn_catalog := None; gn_route_plan := None; gn_data_state := Some 0%nat |}
    [] eq_refl ltac:(discriminate))).
  vm_compute. split; reflexivity.
Defined.

(** ** What the comparison of texts does *)

(** A checkpoint is the text of an instant, and texts are compared: an
    observation half a second after one on a whole second is earlier as a text,
    so the checkpoint does not advance. *)
Example checkpoint_half_second :
  let c := note_checkpoint (demo_quote (seconds 3600) 1) demo_collector in
  let c' := note_checkpoint (demo_quote (seconds 3600 + 500000) 1) c in
  mc_checkpoints c' = mc_checkpoints c ∧
  mc_checkpoints c' !! ("demo", "rest") ≫= lookup "STETH:USDC" = Some "1970-01-01T01:00:00Z".
Proof. vm_compute. split; reflexivity. Qed.

(** One quote from the future, refused at the flush, takes with it the quote of
    the symbol that was queued before it. *)
Example future_quote_shadows :
  let flushed := λ qs, w_service
    ((for_each queue_quote qs ≫= λ _, @flush_pending demo_world (hours 1) (hours 1) 0) demo_world0).1 in
  last_quotes 0 (flushed [demo_quote (hours 1) 2000]) !! "STETH:USDC" = Some (demo_quote (hours 1) 2000) ∧
  last_quotes 0 (flushed [demo_quote (hours 1) 2000; demo_quote (hours 2) 2100]) !! "STETH:USDC" = None.
Proof. vm_compute. split; reflexivity. Qed.
