(* ===== verification/Catalog.v ===== *)
(** * The managed catalogue ([catalog.py])

    The declarative models an administrator edits: an instrument definition
    with its routes, vendor symbols, income policy and synthetic recipe, and a
    content-addressed generation of them.  The models are pydantic classes; a
    model built by its constructor is [X_init] of the record, which runs the
    checks of its fields in order and then those of the whole.  A number of
    seconds is read to the microsecond.  The text of a validation error is that
    of the check which failed, without what pydantic writes around it. *)

From S2P Require Import Prelude PyStr PyTime Domain PluginApi Registry Wire Json Analytics Policy.
From Stdlib Require Import Ascii QArith Qround.

Local Open Scope string_scope.
Local Open Scope list_scope.
Local Open Scope Z_scope.

Definition CATALOG_SCHEMA_VERSION : Z := 2.
Definition MAX_CUSTOM_INSTRUMENTS : nat := 2000.
Definition MAX_PROVIDER_CHAIN : nat := 4.
Definition MAX_SYNTHETIC_INPUTS : nat := 2.
Definition MAX_SYNTHETIC_DEPTH : nat := 4.

(** A [ValidationError] of pydantic. *)
Definition invalid (msg : string) : exn := NamedError "ValidationError" msg.

Definition require (b : bool) (msg : string) : result unit := raise_if (negb b) (invalid msg).

(** ** Patterns *)

(** [first[tail]{0,n}] *)
Definition pattern (first tail : ascii → bool) (n : nat) (s : string) : bool :=
  match s with
  | "" => false
  | String c s' => first c && str_all tail s' && bool_decide (String.length s' ≤ n)%nat
  end.

Definition lower_or_digit (c : ascii) : bool := is_lower c || is_digit c.

Definition among (l : list ascii) (c : ascii) : bool := bool_decide (c ∈ l).

Definition id_pattern : string → bool :=
  pattern lower_or_digit (λ c, lower_or_digit c || among ["."; "_"; "-"]%char c) 127.

Definition asset_pattern : string → bool := pattern word_char tail_char 63.

Definition provider_pattern : string → bool :=
  pattern lower_or_digit (λ c, lower_or_digit c || among ["_"; "-"]%char c) 63.

Definition vendor_symbol_pattern : string → bool :=
  pattern (λ c, word_char c || is_lower c)
    (λ c, word_char c || is_lower c || among ["."; "_"; "/"; "-"]%char c) 127.

Definition token_pattern : string → bool := id_pattern.

(** [_require_safe_text] *)
Definition require_safe_text (value field_name : string) (maximum : nat) : result unit :=
  _ ← require (truthy value && bool_decide (value = strip value) && bool_decide (String.length value ≤ maximum)%nat)
        (field_name +:+ " must be non-empty, trimmed, and of bounded length");
  require (str_all (λ c, negb (bool_decide (code c < 32)) && negb (among ["<"; ">"]%char c)) value)
    (field_name +:+ " contains an unsafe character").

(** [_canonical_symbol] *)
Definition canonical_symbol_check (value field_name : string) : result unit :=
  require (bool_decide (value = normalize_symbol value) && symbol_pattern value)
    (field_name +:+ " must be a canonical BASE:QUOTE symbol").

(** ** The parts of a definition *)

Record ProviderSymbolBinding := {
  psb_provider : string;
  psb_symbol : string;
}.

Definition ProviderSymbolBinding_init (b : ProviderSymbolBinding) : result ProviderSymbolBinding :=
  let provider := psb_provider b in
  let symbol := psb_symbol b in
  _ ← require (bool_decide (provider = lower (strip provider)) && provider_pattern provider)
        "provider must be a lowercase installed-provider identifier";
  _ ← require (bool_decide (symbol = strip symbol) && vendor_symbol_pattern symbol)
        "vendor symbol contains unsupported characters";
  let lowered := lower symbol in
  _ ← require (negb (contains "://" lowered || startswith "http:" lowered || startswith "https:" lowered
                     || startswith "file:" lowered))
        "vendor symbol cannot be a URL";
  Ok b.

Record CapabilityRoute := {
  cr_capability : Capability;
  cr_providers : list string;
}.

Definition CapabilityRoute_init (r : CapabilityRoute) : result CapabilityRoute :=
  let providers := cr_providers r in
  _ ← require (bool_decide (1 ≤ length providers ≤ MAX_PROVIDER_CHAIN)%nat)
        "provider chain must contain 1 to 4 providers";
  _ ← require (bool_decide (NoDup providers)) "provider chain cannot contain duplicates";
  _ ← require (forallb (λ p, bool_decide (p = lower (strip p)) && provider_pattern p) providers)
        "provider chain contains an invalid provider identifier";
  Ok r.

Record HistoryCollectionPolicy := {
  hp_enabled : bool;
  hp_poll_seconds : option Z;
  hp_backfill_days : option Z;
}.

Definition between (low high value : Z) : bool := bool_decide (low ≤ value ≤ high).

Definition option_all {A} (f : A → bool) (o : option A) : bool :=
  match o with Some a => f a | None => true end.

Definition HistoryCollectionPolicy_init (h : HistoryCollectionPolicy) : result HistoryCollectionPolicy :=
  _ ← require (option_all (between (seconds 1) (seconds 86400)) (hp_poll_seconds h)) "poll_seconds is out of range";
  _ ← require (option_all (between 1 3650) (hp_backfill_days h)) "backfill_days is out of range";
  Ok h.

Definition default_history : HistoryCollectionPolicy :=
  {| hp_enabled := true; hp_poll_seconds := None; hp_backfill_days := None |}.

Definition SUPPORTED_DIVIDEND_STRATEGIES : list string := ["latest_regular_cash_annualized_x4"].
Definition SUPPORTED_TREASURY_PROXY_FRED_SERIES : list string :=
  ["DGS1MO"; TREASURY_3M_FRED_SERIES; "DGS6MO"; "DGS1"].

Record IncomePolicy := {
  in_yield_strategy : option YieldStrategy;
  in_dividend_strategy : option string;
  in_reward_accrual_mode : option RewardAccrualMode;
  in_underlying_asset : option string;
  in_fred_series : option string;
  in_expense_ratio_percent : option Q;
  in_fallback_ratio_days : option Z;
}.

Definition is_some {A} (o : option A) : bool := match o with Some _ => true | None => false end.

Definition valid_asset (value : string) : bool :=
  bool_decide (value = upper (strip value)) && asset_pattern value.

Definition IncomePolicy_init (p : IncomePolicy) : result IncomePolicy :=
  let treasury := bool_decide (in_yield_strategy p ∈ [Some TREASURY_3M_PROXY_MINUS_EXPENSE;
                                                     Some TREASURY_PROXY_MINUS_EXPENSE]) in
  _ ← require (option_all (λ s, bool_decide (s ∈ SUPPORTED_DIVIDEND_STRATEGIES)) (in_dividend_strategy p))
        "dividend strategy is not supported";
  _ ← require (option_all valid_asset (in_underlying_asset p))
        "underlying asset must be an uppercase asset identifier";
  _ ← require (option_all (λ s, bool_decide (s ∈ SUPPORTED_TREASURY_PROXY_FRED_SERIES)) (in_fred_series p))
        "FRED series is not in the controlled Treasury allowlist";
  _ ← require (option_all (λ r, Qle_bool 0 r && Qle_bool r 25) (in_expense_ratio_percent p))
        "expense_ratio_percent is out of range";
  _ ← require (option_all (between 7 365) (in_fallback_ratio_days p)) "fallback_ratio_days is out of range";
  _ ← require (negb (treasury && (negb (is_some (in_fred_series p)) || negb (is_some (in_expense_ratio_percent p)))))
        "Treasury proxy yield requires a FRED series and expense ratio";
  _ ← require (negb (negb treasury && (is_some (in_fred_series p) || is_some (in_expense_ratio_percent p))))
        "Treasury proxy parameters require the Treasury proxy yield strategy";
  _ ← require (negb (is_some (in_fallback_ratio_days p) &&
                     bool_decide (in_reward_accrual_mode p ≠ Some VALUE_ACCRUING)))
        "ratio fallback is only valid for value-accruing tokens";
  _ ← require (negb (bool_decide (in_yield_strategy p = Some TREASURY_3M_PROXY_MINUS_EXPENSE) &&
                     bool_decide (in_fred_series p ≠ Some TREASURY_3M_FRED_SERIES)))
        "the three-month Treasury strategy requires DGS3MO";
  Ok p.

(** The [SyntheticOperation] of a recipe is one of the operations of the
    plugin recipes. *)
Record SyntheticRecipeDefinition := {
  syn_operation : operation;
  syn_inputs : list string;
  syn_max_skew_seconds : Z;
  syn_input_max_age_seconds : list (option Z);
}.

Definition required_inputs (o : operation) : nat := match o with INVERSE => 1 | _ => 2 end.

Definition SyntheticRecipeDefinition_init (r : SyntheticRecipeDefinition) : result SyntheticRecipeDefinition :=
  _ ← map_result (λ s, canonical_symbol_check s "synthetic input") (syn_inputs r);
  _ ← require (bool_decide (NoDup (syn_inputs r))) "synthetic inputs cannot contain duplicates";
  _ ← require (between 0 (seconds 1000000) (syn_max_skew_seconds r)) "max_skew_seconds is out of range";
  _ ← require (forallb (option_all (between 1 (seconds 604800))) (syn_input_max_age_seconds r))
        "input_max_age_seconds is out of range";
  _ ← require (bool_decide (length (syn_inputs r) = required_inputs (syn_operation r)) &&
               bool_decide (length (syn_inputs r) ≤ MAX_SYNTHETIC_INPUTS)%nat)
        (operation_value (syn_operation r) +:+ " requires another number of input symbols");
  _ ← require (bool_decide (syn_input_max_age_seconds r = []) ||
               bool_decide (length (syn_input_max_age_seconds r) = length (syn_inputs r)))
        "synthetic input age limits must match the input count";
  Ok r.

(** ** Definitions *)

Inductive InstrumentOwnership := BUILTIN | CUSTOM.

#[export] Instance InstrumentOwnership_eq_dec : EqDecision InstrumentOwnership.
Proof. solve_decision. Defined.

Definition InstrumentOwnership_value (o : InstrumentOwnership) : string :=
  match o with BUILTIN => "builtin" | CUSTOM => "custom" end.

Record ManagedInstrumentDefinition := {
  md_id : string;
  md_symbol : string;
  md_base : string;
  md_quote : string;
  md_name : string;
  md_description : string;
  md_asset_class : AssetClass;
  md_asset_type : string;
  md_price_basis : string;
  md_change_basis : string;
  md_ownership : InstrumentOwnership;
  md_enabled : bool;
  md_archived : bool;
  md_aliases : list string;
  md_market_calendar : MarketCalendar;
  md_quote_poll_seconds : Z;
  md_stale_after_seconds : Z;
  md_history : HistoryCollectionPolicy;
  md_routes : list CapabilityRoute;
  md_provider_symbols : list ProviderSymbolBinding;
  md_income : option IncomePolicy;
  md_synthetic : option SyntheticRecipeDefinition;
}.

#[export] Instance ProviderSymbolBinding_eq_dec : EqDecision ProviderSymbolBinding.
Proof. solve_decision. Defined.
#[export] Instance CapabilityRoute_eq_dec : EqDecision CapabilityRoute.
Proof. solve_decision. Defined.
#[export] Instance HistoryCollectionPolicy_eq_dec : EqDecision HistoryCollectionPolicy.
Proof. solve_decision. Defined.
#[export] Instance Q_eq_dec : EqDecision Q.
Proof. solve_decision. Defined.
#[export] Instance IncomePolicy_eq_dec : EqDecision IncomePolicy.
Proof. solve_decision. Defined.
#[export] Instance SyntheticRecipeDefinition_eq_dec : EqDecision SyntheticRecipeDefinition.
Proof. solve_decision. Defined.
#[export] Instance ManagedInstrumentDefinition_eq_dec : EqDecision ManagedInstrumentDefinition.
Proof. solve_decision. Defined.

Definition income_yield (d : ManagedInstrumentDefinition) : option YieldStrategy :=
  md_income d ≫= in_yield_strategy.
Definition income_accrual (d : ManagedInstrumentDefinition) : option RewardAccrualMode :=
  md_income d ≫= in_reward_accrual_mode.
Definition income_underlying (d : ManagedInstrumentDefinition) : option string :=
  md_income d ≫= in_underlying_asset.

(** The validators of the single fields. *)
Definition check_fields (d : ManagedInstrumentDefinition) : result unit :=
  _ ← require (bool_decide (md_id d = lower (strip (md_id d))) && id_pattern (md_id d))
        "instrument id must be a lowercase stable identifier";
  _ ← canonical_symbol_check (md_symbol d) "symbol";
  _ ← require (valid_asset (md_base d) && valid_asset (md_quote d))
        "base and quote must be uppercase asset identifiers";
  _ ← require_safe_text (md_name d) "name" 160;
  _ ← require_safe_text (md_description d) "description" 1000;
  _ ← require (forallb (λ s, bool_decide (s = lower (strip s)) && token_pattern s)
                 [md_asset_type d; md_price_basis d; md_change_basis d])
        "classification must be a lowercase controlled identifier";
  _ ← require (bool_decide (length (md_aliases d) ≤ 32)%nat && bool_decide (NoDup (md_aliases d)))
        "instrument aliases are duplicated or exceed the limit";
  _ ← map_result (λ s, canonical_symbol_check s "alias") (md_aliases d);
  _ ← require (between 250000 (seconds 604800) (md_quote_poll_seconds d)) "quote_poll_seconds is out of range";
  _ ← require (between (seconds 1) (seconds 604800) (md_stale_after_seconds d)) "stale_after_seconds is out of range";
  _ ← require (bool_decide (NoDup (cr_capability <$> md_routes d)))
        "instrument cannot declare duplicate capability routes";
  require (bool_decide (NoDup (psb_provider <$> md_provider_symbols d)))
    "instrument cannot declare duplicate provider symbols".

(** [_validate_definition] *)
Definition validate_definition (d : ManagedInstrumentDefinition) : result unit :=
  let is_staking := contains "staking" (md_asset_type d) in
  _ ← require (negb (bool_decide (md_ownership d = BUILTIN) && negb (startswith "builtin-" (md_id d))))
        "built-in instrument id must use the builtin namespace";
  _ ← require (negb (bool_decide (md_ownership d = CUSTOM) && negb (startswith "custom-" (md_id d))))
        "custom instrument id must use the custom namespace";
  _ ← require (bool_decide (md_symbol d = md_base d +:+ ":" +:+ md_quote d))
        "instrument symbol must match base and quote";
  _ ← require (bool_decide (md_symbol d ∉ md_aliases d)) "instrument cannot alias its canonical symbol";
  _ ← require (negb (md_archived d && md_enabled d)) "an archived instrument cannot be enabled";
  _ ← require (bool_decide (md_quote_poll_seconds d ≤ md_stale_after_seconds d))
        "stale threshold cannot be shorter than quote polling";
  _ ← require (negb (bool_decide (md_asset_class d = BOND) && negb (is_some (income_yield d))))
        "bond instruments require a yield strategy";
  _ ← require (negb (is_staking && negb (is_some (income_yield d) && is_some (income_accrual d) &&
                                         is_some (income_underlying d))))
        "staking instruments require yield, underlying asset, and accrual mode";
  _ ← require (negb (is_some (income_accrual d) && negb (is_some (income_yield d) && is_some (income_underlying d))))
        "staking income policy is incomplete";
  require (option_all (λ r, bool_decide (md_symbol d ∉ syn_inputs r)) (md_synthetic d))
    "synthetic instrument cannot directly depend on itself".

Definition ManagedInstrumentDefinition_init (d : ManagedInstrumentDefinition)
    : result ManagedInstrumentDefinition :=
  _ ← check_fields d; _ ← validate_definition d; Ok d.

(** ** JSON documents *)

Fixpoint json_lookup (key : string) (items : list (string * json)) : option json :=
  match items with
  | [] => None
  | (k, v) :: items' => if String.eqb k key then Some v else json_lookup key items'
  end.

Definition wrong_type {A} : result A := Raise (invalid "input has an invalid type").

Definition json_str (j : json) : result string := match j with JString s => Ok s | _ => wrong_type end.
Definition json_flag (j : json) : result bool := match j with JBool b => Ok b | _ => wrong_type end.
Definition json_int (j : json) : result Z := match j with JInt n => Ok n | _ => wrong_type end.

(** A number, in lowest terms. *)
Definition json_ratio (j : json) : result Q :=
  match j with JInt n => Ok (inject_Z n) | JFloat (Some q) => Ok (Qred q) | _ => wrong_type end.

(** A number of seconds, in microseconds. *)
Definition json_seconds (j : json) : result Z :=
  q ← json_ratio j; Ok (Qfloor (q * inject_Z 1000000)).

Definition json_nullable {A} (f : json → result A) (j : json) : result (option A) :=
  match j with JNull => Ok None | _ => Some <$> f j end.

Definition json_array {A} (f : json → result A) (j : json) : result (list A) :=
  match j with JArray l => map_result f l | _ => wrong_type end.

Definition json_enum {A} (value : A → string) (members : list A) (j : json) : result A :=
  match j with
  | JString s => match find (λ a, String.eqb (value a) s) members with Some a => Ok a | None => wrong_type end
  | _ => wrong_type
  end.

(** A model without extra fields. *)
Definition json_model {A} (fields : list string) (f : list (string * json) → result A) (j : json) : result A :=
  match j with
  | JObject items =>
    _ ← require (forallb (λ kv : string * json, existsb (String.eqb kv.1) fields) items)
          "extra inputs are not permitted";
    f items
  | _ => wrong_type
  end.

Definition field {A} (f : json → result A) (key : string) (items : list (string * json)) : result A :=
  match json_lookup key items with Some j => f j | None => Raise (invalid (key +:+ " is required")) end.

Definition field_or {A} (value : A) (f : json → result A) (key : string) (items : list (string * json))
    : result A :=
  match json_lookup key items with Some j => f j | None => Ok value end.

Definition all_capabilities : list Capability := [QUOTE; HISTORY; DIVIDEND; YIELD].
Definition all_yield_strategies : list YieldStrategy :=
  [LATEST_DISTRIBUTION_ANNUALIZED; TREASURY_3M_PROXY_MINUS_EXPENSE; TREASURY_PROXY_MINUS_EXPENSE;
   STAKING_PROVIDER_METRIC].
Definition all_accrual_modes : list RewardAccrualMode :=
  [VALUE_ACCRUING; REBASING_BALANCE; DISTRIBUTED_UNITS; CLAIMABLE_REWARDS].

Definition binding_fields : list string := ["provider"; "symbol"].
Definition binding_of_json : json → result ProviderSymbolBinding :=
  json_model binding_fields (λ items,
    provider ← field json_str "provider" items;
    symbol ← field json_str "symbol" items;
    ProviderSymbolBinding_init {| psb_provider := provider; psb_symbol := symbol |}).

Definition route_fields : list string := ["capability"; "providers"].
Definition route_of_json : json → result CapabilityRoute :=
  json_model route_fields (λ items,
    capability ← field (json_enum capability_value all_capabilities) "capability" items;
    providers ← field (json_array json_str) "providers" items;
    CapabilityRoute_init {| cr_capability := capability; cr_providers := providers |}).

Definition history_fields : list string := ["enabled"; "poll_seconds"; "backfill_days"].
Definition history_of_json : json → result HistoryCollectionPolicy :=
  json_model history_fields (λ items,
    enabled ← field_or true json_flag "enabled" items;
    poll_seconds ← field_or None (json_nullable json_seconds) "poll_seconds" items;
    backfill_days ← field_or None (json_nullable json_int) "backfill_days" items;
    HistoryCollectionPolicy_init
      {| hp_enabled := enabled; hp_poll_seconds := poll_seconds; hp_backfill_days := backfill_days |}).

Definition income_fields : list string :=
  ["yield_strategy"; "dividend_strategy"; "reward_accrual_mode"; "underlying_asset"; "fred_series";
   "expense_ratio_percent"; "fallback_ratio_days"].
Definition income_of_json : json → result IncomePolicy :=
  json_model income_fields (λ items,
    yield_strategy ← field_or None (json_nullable (json_enum YieldStrategy_value all_yield_strategies))
                       "yield_strategy" items;
    dividend_strategy ← field_or None (json_nullable json_str) "dividend_strategy" items;
    mode ← field_or None (json_nullable (json_enum RewardAccrualMode_value all_accrual_modes))
             "reward_accrual_mode" items;
    underlying_asset ← field_or None (json_nullable json_str) "underlying_asset" items;
    fred_series ← field_or None (json_nullable json_str) "fred_series" items;
    expense ← field_or None (json_nullable json_ratio) "expense_ratio_percent" items;
    fallback ← field_or None (json_nullable json_int) "fallback_ratio_days" items;
    IncomePolicy_init
      {| in_yield_strategy := yield_strategy; in_dividend_strategy := dividend_strategy;
         in_reward_accrual_mode := mode; in_underlying_asset := underlying_asset;
         in_fred_series := fred_series; in_expense_ratio_percent := expense;
         in_fallback_ratio_days := fallback |}).

Definition recipe_fields : list string := ["operation"; "inputs"; "max_skew_seconds"; "input_max_age_seconds"].
Definition recipe_of_json : json → result SyntheticRecipeDefinition :=
  json_model recipe_fields (λ items,
    op ← field (json_enum operation_value [INVERSE; MULTIPLY; DIVIDE]) "operation" items;
    inputs ← field (json_array json_str) "inputs" items;
    skew ← field_or (seconds 2) json_seconds "max_skew_seconds" items;
    ages ← field_or [] (json_array (json_nullable json_seconds)) "input_max_age_seconds" items;
    SyntheticRecipeDefinition_init
      {| syn_operation := op; syn_inputs := inputs; syn_max_skew_seconds := skew;
         syn_input_max_age_seconds := ages |}).

Definition definition_fields : list string :=
  ["id"; "symbol"; "base"; "quote"; "name"; "description"; "asset_class"; "asset_type"; "price_basis";
   "change_basis"; "ownership"; "enabled"; "archived"; "aliases"; "market_calendar";
   "quote_poll_seconds"; "stale_after_seconds"; "history"; "routes"; "provider_symbols"; "income";
   "synthetic"].

(** [model_validate_json] of a definition. *)
Definition definition_of_json : json → result ManagedInstrumentDefinition :=
  json_model definition_fields (λ items,
    id ← field json_str "id" items;
    symbol ← field json_str "symbol" items;
    base ← field json_str "base" items;
    quote ← field json_str "quote" items;
    name ← field json_str "name" items;
    description ← field json_str "description" items;
    asset_class ← field (json_enum AssetClass_value [CRYPTO; EQUITY; BOND; FX]) "asset_class" items;
    asset_type ← field json_str "asset_type" items;
    price_basis ← field json_str "price_basis" items;
    change_basis ← field_or "unadjusted_market_price" json_str "change_basis" items;
    ownership ← field (json_enum InstrumentOwnership_value [BUILTIN; CUSTOM]) "ownership" items;
    enabled ← field_or true json_flag "enabled" items;
    archived ← field_or false json_flag "archived" items;
    aliases ← field_or [] (json_array json_str) "aliases" items;
    calendar ← field_or ALWAYS_OPEN
                 (json_enum MarketCalendar_value [ALWAYS_OPEN; US_EQUITY; FX_24X5]) "market_calendar" items;
    poll ← field_or (seconds 5) json_seconds "quote_poll_seconds" items;
    stale ← field_or (seconds 10) json_seconds "stale_after_seconds" items;
    history ← field_or default_history history_of_json "history" items;
    routes ← field_or [] (json_array route_of_json) "routes" items;
    bindings ← field_or [] (json_array binding_of_json) "provider_symbols" items;
    income ← field_or None (json_nullable income_of_json) "income" items;
    synthetic ← field_or None (json_nullable recipe_of_json) "synthetic" items;
    ManagedInstrumentDefinition_init
      {| md_id := id; md_symbol := symbol; md_base := base; md_quote := quote; md_name := name;
         md_description := description; md_asset_class := asset_class; md_asset_type := asset_type;
         md_price_basis := price_basis; md_change_basis := change_basis; md_ownership := ownership;
         md_enabled := enabled; md_archived := archived; md_aliases := aliases;
         md_market_calendar := calendar; md_quote_poll_seconds := poll;
         md_stale_after_seconds := stale; md_history := history; md_routes := routes;
         md_provider_symbols := bindings; md_income := income; md_synthetic := synthetic |}).

(** [model_dump(mode="json")]; the items of a dictionary are listed by key. *)
Definition option_json {A} (f : A → json) (o : option A) : json :=
  match o with Some a => f a | None => JNull end.

Definition seconds_json (v : Z) : json := JFloat (Some (Qred (v # 1000000))).

Definition binding_json (b : ProviderSymbolBinding) : json :=
  JObject [("provider", JString (psb_provider b));
   ("symbol", JString (psb_symbol b))].

Definition route_json (r : CapabilityRoute) : json :=
  JObject [("capability", JString (capability_value (cr_capability r)));
   ("providers", JArray (JString <$> cr_providers r))].

Definition history_json (h : HistoryCollectionPolicy) : json :=
  JObject [("backfill_days", option_json JInt (hp_backfill_days h));
   ("enabled", JBool (hp_enabled h));
   ("poll_seconds", option_json seconds_json (hp_poll_seconds h))].

Definition income_json (p : IncomePolicy) : json :=
  JObject [("dividend_strategy", option_json JString (in_dividend_strategy p));
   ("expense_ratio_percent", option_json (λ q, JFloat (Some q)) (in_expense_ratio_percent p));
   ("fallback_ratio_days", option_json JInt (in_fallback_ratio_days p));
   ("fred_series", option_json JString (in_fred_series p));
   ("reward_accrual_mode", option_json (λ m, JString (RewardAccrualMode_value m)) (in_reward_accrual_mode p));
   ("underlying_asset", option_json JString (in_underlying_asset p));
   ("yield_strategy", option_json (λ s, JString (YieldStrategy_value s)) (in_yield_strategy p))].

Definition recipe_json (r : SyntheticRecipeDefinition) : json :=
  JObject [("input_max_age_seconds", JArray (option_json seconds_json <$> syn_input_max_age_seconds r));
   ("inputs", JArray (JString <$> syn_inputs r));
   ("max_skew_seconds", seconds_json (syn_max_skew_seconds r));
   ("operation", JString (operation_value (syn_operation r)))].

Definition definition_items (d : ManagedInstrumentDefinition) : list (string * json) :=
  [("aliases", JArray (JString <$> md_aliases d));
   ("archived", JBool (md_archived d));
   ("asset_class", JString (AssetClass_value (md_asset_class d)));
   ("asset_type", JString (md_asset_type d));
   ("base", JString (md_base d));
   ("change_basis", JString (md_change_basis d));
   ("description", JString (md_description d));
   ("enabled", JBool (md_enabled d));
   ("history", history_json (md_history d));
   ("id", JString (md_id d));
   ("income", option_json income_json (md_income d));
   ("market_calendar", JString (MarketCalendar_value (md_market_calendar d)));
   ("name", JString (md_name d));
   ("ownership", JString (InstrumentOwnership_value (md_ownership d)));
   ("price_basis", JString (md_price_basis d));
   ("provider_symbols", JArray (binding_json <$> md_provider_symbols d));
   ("quote", JString (md_quote d));
   ("quote_poll_seconds", seconds_json (md_quote_poll_seconds d));
   ("routes", JArray (route_json <$> md_routes d));
   ("stale_after_seconds", seconds_json (md_stale_after_seconds d));
   ("symbol", JString (md_symbol d));
   ("synthetic", option_json recipe_json (md_synthetic d))].

Definition definition_json (d : ManagedInstrumentDefinition) : json := JObject (definition_items d).

(** ** Instrument specifications *)

(** [from_instrument_spec] with the routes, vendor symbols and recipe given. *)
Definition income_of_spec (i : InstrumentSpec) : option IncomePolicy :=
  if decide (is_yield_strategy i = None ∧ is_dividend_strategy i = None ∧
             is_reward_accrual_mode i = None ∧ is_underlying_asset i = None) then None
  else
    let treasury := bool_decide (is_yield_strategy i = Some TREASURY_3M_PROXY_MINUS_EXPENSE) in
    Some {| in_yield_strategy := is_yield_strategy i; in_dividend_strategy := is_dividend_strategy i;
            in_reward_accrual_mode := is_reward_accrual_mode i;
            in_underlying_asset := is_underlying_asset i;
            in_fred_series := if treasury then Some "DGS3MO" else None;
            in_expense_ratio_percent := if treasury then Some (1949 # 10000)%Q else None;
            in_fallback_ratio_days :=
              if decide (is_reward_accrual_mode i = Some VALUE_ACCRUING) then Some 30 else None |}.

Definition from_instrument_spec (i : InstrumentSpec) (instrument_id : string)
    (ownership : InstrumentOwnership) (enabled : bool) (routes : list CapabilityRoute)
    (provider_symbols : list ProviderSymbolBinding) (synthetic : option SyntheticRecipeDefinition)
    : result ManagedInstrumentDefinition :=
  income ← match income_of_spec i with Some p => Some <$> IncomePolicy_init p | None => Ok None end;
  history ← HistoryCollectionPolicy_init
              {| hp_enabled := is_history_enabled i; hp_poll_seconds := is_history_poll_seconds i;
                 hp_backfill_days := None |};
  ManagedInstrumentDefinition_init
    {| md_id := instrument_id; md_symbol := is_symbol i; md_base := is_base i; md_quote := is_quote i;
       md_name := is_name i; md_description := is_description i; md_asset_class := is_asset_class i;
       md_asset_type := is_asset_type i; md_price_basis := is_price_basis i;
       md_change_basis := is_change_basis i; md_ownership := ownership; md_enabled := enabled;
       md_archived := false; md_aliases := is_aliases i; md_market_calendar := is_market_calendar i;
       md_quote_poll_seconds := is_quote_poll_seconds i;
       md_stale_after_seconds := is_stale_after_seconds i; md_history := history; md_routes := routes;
       md_provider_symbols := provider_symbols; md_income := income; md_synthetic := synthetic |}.

Definition to_instrument_spec (d : ManagedInstrumentDefinition) : InstrumentSpec :=
  {| is_symbol := md_symbol d; is_base := md_base d; is_quote := md_quote d; is_name := md_name d;
     is_description := md_description d; is_asset_class := md_asset_class d;
     is_asset_type := md_asset_type d; is_price_basis := md_price_basis d;
     is_change_basis := md_change_basis d; is_yield_strategy := income_yield d;
     is_dividend_strategy := md_income d ≫= in_dividend_strategy;
     is_reward_accrual_mode := income_accrual d; is_underlying_asset := income_underlying d;
     is_aliases := md_aliases d; is_market_calendar := md_market_calendar d;
     is_stale_after_seconds := md_stale_after_seconds d;
     is_quote_poll_seconds := md_quote_poll_seconds d;
     is_history_enabled := hp_enabled (md_history d);
     is_history_poll_seconds := hp_poll_seconds (md_history d) |}.

(** ** Generations *)

(** [json.dumps] with sorted keys and without spaces, and SHA-256 in hexadecimal. *)
Class CatalogPrimitives := {
  cp_dumps : json → string;
  cp_sha256 : string → string;
}.

Record CatalogGeneration := {
  cg_revision : string;
  cg_instruments : list ManagedInstrumentDefinition;
}.

#[export] Instance CatalogGeneration_eq_dec : EqDecision CatalogGeneration.
Proof. solve_decision. Defined.

Definition active (d : ManagedInstrumentDefinition) : bool := md_enabled d && negb (md_archived d).

(** The sets the validation fills; the recipes keep the order of their symbols. *)
Record scanning := {
  sn_ids : gset string;
  sn_symbols : gset string;
  sn_aliases : gset string;
  sn_custom : nat;
  sn_active : gset string;
  sn_recipes : list (string * SyntheticRecipeDefinition);
}.

Definition scan_alias (symbols aliases : gset string) (alias : string) : result (gset string) :=
  _ ← require (negb (bool_decide (alias ∈ aliases ∨ alias ∈ symbols)))
        "catalog contains a duplicate instrument alias";
  Ok ({[alias]} ∪ aliases).

Definition scan_item (s : scanning) (d : ManagedInstrumentDefinition) : result scanning :=
  _ ← require (negb (bool_decide (md_id d ∈ sn_ids s ∨ md_symbol d ∈ sn_symbols s ∨ md_symbol d ∈ sn_aliases s)))
        "catalog contains a duplicate instrument identity";
  let symbols := {[md_symbol d]} ∪ sn_symbols s in
  aliases ← fold_result (scan_alias symbols) (sn_aliases s) (md_aliases d);
  Ok {| sn_ids := {[md_id d]} ∪ sn_ids s; sn_symbols := symbols; sn_aliases := aliases;
        sn_custom := if decide (md_ownership d = CUSTOM) then S (sn_custom s) else sn_custom s;
        sn_active := if active d then {[md_symbol d]} ∪ sn_active s else sn_active s;
        sn_recipes := match md_synthetic d with
                      | Some r => if active d then sn_recipes s ++ [(md_symbol d, r)] else sn_recipes s
                      | None => sn_recipes s
                      end |}.

Definition empty_scan : scanning :=
  {| sn_ids := ∅; sn_symbols := ∅; sn_aliases := ∅; sn_custom := 0; sn_active := ∅; sn_recipes := [] |}.

(** The closure [depth]: the symbols being visited and the depths found.  It
    nests at most once per recipe and once for a leaf. *)
Definition depths : Type := gset string * gmap string nat.

Fixpoint depth (recipes : list (string * SyntheticRecipeDefinition)) (fuel : nat) (st : depths) (symbol : string)
    : result (depths * nat) :=
  match fuel with
  | O => Ok (st, O)
  | S fuel' =>
    match st.2 !! symbol with
    | Some n => Ok (st, n)
    | None =>
      if decide (symbol ∈ st.1) then Raise (invalid "catalog contains a synthetic dependency cycle")
      else
        match assoc_get symbol recipes with
        | None => Ok (st, O)
        | Some recipe =>
          r ← fold_result (λ (acc : depths * nat) dependency,
                d ← depth recipes fuel' acc.1 dependency; Ok (d.1, acc.2 `max` d.2)%nat)
                (({[symbol]} ∪ st.1, st.2), O) (syn_inputs recipe);
          let found := S r.2 in
          _ ← require (bool_decide (found ≤ MAX_SYNTHETIC_DEPTH)%nat)
                "synthetic dependency depth exceeds the limit of 4";
          Ok ((r.1.1 ∖ {[symbol]}, <[symbol := found]> r.1.2), found)
        end
    end
  end.

Definition depth_fuel (recipes : list (string * SyntheticRecipeDefinition)) : nat := S (S (length recipes)).

Definition check_inputs (active : gset string) (entry : string * SyntheticRecipeDefinition) : result unit :=
  require (forallb (λ i, bool_decide (i ∈ active)) (syn_inputs entry.2))
    ("synthetic instrument " +:+ entry.1 +:+ " has unavailable inputs").

(** [_validate_generation] without the comparison of the revision. *)
Definition validate_instruments (instruments : list ManagedInstrumentDefinition) : result unit :=
  s ← fold_result scan_item empty_scan instruments;
  _ ← require (bool_decide (sn_custom s ≤ MAX_CUSTOM_INSTRUMENTS)%nat)
        "catalog exceeds the 2000 custom instrument limit";
  _ ← map_result (check_inputs (sn_active s)) (sn_recipes s);
  _ ← fold_result (λ (st : depths) entry, d ← depth (sn_recipes s) (depth_fuel (sn_recipes s)) st entry.1; Ok d.1)
        (∅, ∅) (sn_recipes s);
  Ok tt.

Section generations.
Context `{CatalogPrimitives}.

Definition generation_content (instruments : list ManagedInstrumentDefinition) : json :=
  JObject [("instruments", JArray (definition_json <$> instruments))].

Definition catalog_revision (instruments : list ManagedInstrumentDefinition) : string :=
  cp_sha256 (cp_dumps (generation_content instruments)).

Definition revision_char (c : ascii) : bool := is_digit c || bool_decide (97 ≤ code c ≤ 102).

Definition CatalogGeneration_init (g : CatalogGeneration) : result CatalogGeneration :=
  _ ← require (str_all revision_char (cg_revision g) && bool_decide (String.length (cg_revision g) = 64%nat))
        "revision does not match its pattern";
  _ ← require (negb (bool_decide (cg_instruments g = []))) "catalog generation cannot be empty";
  _ ← require (bool_decide (cg_revision g = catalog_revision (cg_instruments g)))
        "catalog generation revision does not match its content";
  _ ← validate_instruments (cg_instruments g);
  Ok g.

(** [CatalogGeneration.build] *)
Definition build (instruments : list ManagedInstrumentDefinition) : result CatalogGeneration :=
  CatalogGeneration_init {| cg_revision := catalog_revision instruments; cg_instruments := instruments |}.

Definition generation_fields : list string := ["revision"; "instruments"].
Definition generation_of_json : json → result CatalogGeneration :=
  json_model generation_fields (λ items,
    revision ← field json_str "revision" items;
    instruments ← field (json_array definition_of_json) "instruments" items;
    CatalogGeneration_init {| cg_revision := revision; cg_instruments := instruments |}).

Definition generation_json (g : CatalogGeneration) : json :=
  JObject [("instruments", JArray (definition_json <$> cg_instruments g));
   ("revision", JString (cg_revision g))].

(** ** Documents *)

Record ManagedCatalogDocument := {
  cd_active : CatalogGeneration;
  cd_staged : option CatalogGeneration;
  cd_last_known_good : option CatalogGeneration;
}.

Definition document_fields : list string := ["version"; "active"; "staged"; "last_known_good"].

Definition json_version (j : json) : result unit :=
  match j with JInt 2 => Ok tt | _ => wrong_type end.

Definition document_of_json : json → result ManagedCatalogDocument :=
  json_model document_fields (λ items,
    _ ← field_or tt json_version "version" items;
    active ← field generation_of_json "active" items;
    staged ← field_or None (json_nullable generation_of_json) "staged" items;
    last ← field_or None (json_nullable generation_of_json) "last_known_good" items;
    Ok {| cd_active := active; cd_staged := staged; cd_last_known_good := last |}).

Definition document_json (d : ManagedCatalogDocument) : json :=
  JObject [("active", generation_json (cd_active d));
   ("last_known_good", option_json generation_json (cd_last_known_good d));
   ("staged", option_json generation_json (cd_staged d));
   ("version", JInt CATALOG_SCHEMA_VERSION)].

End generations.

(** ** Payloads *)

Definition CatalogValidationError (msg : string) : exn := NamedError "CatalogValidationError" msg.

(** [except (TypeError, ValueError) as exc: raise CatalogValidationError(str(exc))] *)
Definition catalog_error (e : exn) : exn :=
  match e with
  | TypeError msg | ValueError msg => CatalogValidationError msg
  | NamedError cls msg => if decide (cls = "ValidationError") then CatalogValidationError msg else e
  | _ => e
  end.

Definition from_payload {A} (what : string) (parse : json → result A) (payload : json) : result A :=
  match payload with
  | JObject _ =>
    if json_finite payload then
      match parse payload with Ok a => Ok a | Raise e => Raise (catalog_error e) end
    else Raise (CatalogValidationError "Out of range float values are not JSON compliant")
  | _ => Raise (CatalogValidationError (what +:+ " must be a JSON object"))
  end.

Definition definition_from_payload : json → result ManagedInstrumentDefinition :=
  from_payload "instrument definition" definition_of_json.

Definition generation_from_payload `{CatalogPrimitives} : json → result CatalogGeneration :=
  from_payload "catalog generation" generation_of_json.

Definition document_from_payload `{CatalogPrimitives} : json → result ManagedCatalogDocument :=
  from_payload "managed catalog" document_of_json.

(** [builtin_instrument_id] *)
Definition builtin_instrument_id (symbol : string) : result string :=
  match canonical_symbol_check symbol "symbol" with
  | Ok _ => Ok ("builtin-" +:+ replace_char ":" "-" (lower symbol))
  | Raise _ => Raise (ValueError "symbol must be a canonical BASE:QUOTE symbol")
  end.

(** ** The registry of a generation *)

Definition managed_plugin (g : CatalogGeneration) : InstrumentPlugin :=
  {| ip_plugin_id := "managed-catalog"; ip_version := "2";
     ip_instruments := to_instrument_spec <$> List.filter active (cg_instruments g);
     ip_has_installer := true; ip_provider_bindings := []; ip_synthetic_recipes := [] |}.

(** [to_registry] *)
Definition to_registry (g : CatalogGeneration) : result Registry := build_registry [managed_plugin g].

Definition by_id (g : CatalogGeneration) (id : string) : option ManagedInstrumentDefinition :=
  last (List.filter (λ d, bool_decide (md_id d = id)) (cg_instruments g)).

Definition by_symbol (g : CatalogGeneration) (symbol : string) : option ManagedInstrumentDefinition :=
  last (List.filter (λ d, bool_decide (md_symbol d = symbol)) (cg_instruments g)).
