(* ===== verification/CatalogFacts.v ===== *)
(** * Theorems on the managed catalogue

    Which generations are accepted, the registry an accepted generation has,
    and the round trips of a definition through its JSON document and through
    an instrument specification. *)

From S2P Require Import Prelude PyStr PyTime Graph Domain PluginApi Registry Wire Json Analytics Policy Catalog.
From Stdlib Require Import Ascii QArith Qround.

Local Open Scope string_scope.
Local Open Scope list_scope.
Local Open Scope Z_scope.

Lemma require_ok b msg : require b msg = Ok tt ↔ b = true.
Proof. by destruct b. Qed.

Lemma require_bind {A} b msg (k : result A) r : (_ ← require b msg; k) = Ok r ↔ b = true ∧ k = Ok r.
Proof. destruct b; cbn; [tauto|]. split; [done|by intros []]. Qed.

Lemma require_true {A} b msg (k : result A) : b = true → (_ ← require b msg; k) = k.
Proof. by intros ->. Qed.

Lemma elem_of_filter_bool {A} (f : A → bool) l x : x ∈ List.filter f l ↔ x ∈ l ∧ f x = true.
Proof. by rewrite !list_elem_of_In, filter_In. Qed.

Lemma size_list_le (l : list string) : (size (list_to_set l : gset string) ≤ length l)%nat.
Proof.
  induction l as [|x l IH]; cbn [list_to_set length]; [by rewrite size_empty|].
  rewrite size_union_alt, size_singleton.
  pose proof (subseteq_size (list_to_set l ∖ {[x]}) (list_to_set l : gset string) ltac:(set_solver)). lia.
Qed.

(** ** Walks *)

Section walks.
Context {A : Type} (R : relation A).

Lemma nsteps_prefix n m x y : (n ≤ m)%nat → nsteps R m x y → ∃ z, nsteps R n x z.
Proof.
  intros Hle. replace m with (n + (m - n))%nat by lia. intros (z & Hz & _)%nsteps_add_inv. by exists z.
Qed.

(** A cycle has walks of any length. *)
Lemma tc_walks x n : tc R x x → ∃ y, nsteps R n x y.
Proof.
  intros Hx. assert (∀ n y, rtc R y x → ∃ z, nsteps R n y z) as Hw; [|by apply Hw].
  clear n. intros n. induction n as [|n IH]; intros y Hy; [exists y; constructor|].
  assert (∃ z, R y z ∧ rtc R z x) as (z & Hyz & Hz).
  { destruct Hy as [|y z w Hyz Hzw]; [|by exists z].
    inversion Hx; subst; [eexists; split; [done|constructor]|eexists; split; [done|by apply tc_rtc]]. }
  destruct (IH z Hz) as [u Hu]. exists u. by econstructor.
Qed.

(** The longest walk from [x] has [n] steps. *)
Definition height (x : A) (n : nat) : Prop :=
  (∃ y, nsteps R n x y) ∧ ∀ m y, nsteps R m x y → (m ≤ n)%nat.

Lemma height_step x n (l : list A) :
  (∀ y, R x y → y ∈ l) → (∀ y, y ∈ l → R x y) →
  (∀ y, y ∈ l → ∃ m, height y m ∧ (m ≤ n)%nat) → (∃ y, y ∈ l ∧ height y n) → height x (S n).
Proof.
  intros Hl Hl' Hle (y & Hy & (z & Hz) & _). split; [exists z; econstructor; [by apply Hl'|exact Hz]|].
  intros m u Hu. destruct Hu as [|m x v u Hv Hu]; [lia|].
  destruct (Hle v (Hl v Hv)) as (k & [_ Hk] & Hkn). specialize (Hk m u Hu). lia.
Qed.

End walks.

(** ** Depths *)

Section depths.
Context (recipes : list (string * SyntheticRecipeDefinition)).
Hypothesis Hinputs : ∀ x r, assoc_get x recipes = Some r → syn_inputs r ≠ [].

Definition depends (x y : string) : Prop := ∃ r, assoc_get x recipes = Some r ∧ y ∈ syn_inputs r.

Definition keys_set : gset string := list_to_set recipes.*1.

Definition memo_ok (m : gmap string nat) : Prop :=
  ∀ x n, m !! x = Some n → height depends x n ∧ (n ≤ MAX_SYNTHETIC_DEPTH)%nat.

Definition too_deep : Prop := ∃ x y, nsteps depends (S MAX_SYNTHETIC_DEPTH) x y.

Lemma assoc_get_in {V} x (l : list (string * V)) v : assoc_get x l = Some v → (x, v) ∈ l.
Proof.
  induction l as [|[k w] l IH]; cbn; [done|]. case_decide; [intros [= <-]; subst; by left|right; auto].
Qed.

Lemma assoc_get_key {V} x (l : list (string * V)) : is_Some (assoc_get x l) ↔ x ∈ l.*1.
Proof.
  induction l as [|[k w] l IH]; cbn.
  - split; [by intros []|by intros ?%elem_of_nil].
  - case_decide as Hk; rewrite elem_of_cons; [subst; split; [by left|by eexists]|].
    rewrite IH. split; [by right|by intros [->|?]].
Qed.

Lemma depth_leaf x : assoc_get x recipes = None → height depends x 0.
Proof.
  intros Hx. split; [exists x; constructor|]. intros m y Hy. destruct Hy as [|m x z y (r & Hr & _) _]; [lia|congruence].
Qed.

(** The outcome of a visit. *)
Definition depth_post (st : depths) (symbol : string) (r : result (depths * nat)) : Prop :=
  match r with
  | Ok (st', n) =>
    st'.1 = st.1 ∧ memo_ok st'.2 ∧ height depends symbol n ∧ (n ≤ MAX_SYNTHETIC_DEPTH)%nat
  | Raise _ => (∀ v, v ∈ st.1 → tc depends v symbol) → too_deep
  end.

(** The loop over the inputs, given the outcome of each visit. *)
Lemma depth_inputs_spec fuel (visiting : gset string) symbol l :
  (∀ st y, st.1 = visiting → memo_ok st.2 → y ∈ l → depth_post st y (depth recipes fuel st y)) →
  (∀ y, y ∈ l → depends symbol y) →
  ∀ acc : depths * nat, acc.1.1 = visiting → memo_ok acc.1.2 →
  match fold_result (λ (acc : depths * nat) y,
          d ← depth recipes fuel acc.1 y; Ok (d.1, acc.2 `max` d.2)%nat) acc l with
  | Ok r => r.1.1 = visiting ∧ memo_ok r.1.2 ∧ (acc.2 ≤ r.2)%nat ∧
            (∀ y, y ∈ l → ∃ m, height depends y m ∧ (m ≤ r.2)%nat) ∧
            (r.2 = acc.2 ∨ ∃ y, y ∈ l ∧ height depends y r.2)
  | Raise _ => (∀ v, v ∈ visiting → rtc depends v symbol) → too_deep
  end.
Proof.
  induction l as [|y l IH]; intros Hpost Hdep acc Hv Hm; cbn [fold_result].
  { split_and!; [done..|intros y ?%elem_of_nil; done|by left]. }
  pose proof (Hpost acc.1 y Hv Hm (list_elem_of_here _ _)) as Hy.
  destruct (depth recipes fuel acc.1 y) as [[st' n]|e]; cbn [mbind result_bind fst snd].
  - destruct Hy as (Hv' & Hm' & Hh & Hn). cbn [fst snd] in *.
    specialize (IH (λ st z H1 H2 H3, Hpost st z H1 H2 (list_elem_of_further _ _ _ H3))
                  (λ z H, Hdep z (list_elem_of_further _ _ _ H)) (st', acc.2 `max` n)%nat).
    cbn [fst snd] in IH. specialize (IH ltac:(congruence) Hm').
    destruct (fold_result _ _ l) as [r|e]; [|done].
    destruct IH as (H1 & H2 & H3 & H4 & H5). split_and!; [done|done|lia| |].
    + intros z [->|Hz]%elem_of_cons; [exists n; split; [done|lia]|auto].
    + destruct H5 as [H5|(z & Hz & Hh')]; [|right; exists z; split; [by right|done]].
      destruct (decide (n ≤ acc.2)%nat); [left; lia|]. right. exists y. split; [by left|].
      by replace r.2 with n by lia.
  - intros Hall. apply Hy. intros v Hin. rewrite Hv in Hin. eapply tc_rtc_l; [by apply Hall|].
    apply tc_once, Hdep. by left.
Qed.

Lemma keys_decrease (visiting : gset string) symbol r :
  assoc_get symbol recipes = Some r → symbol ∉ visiting →
  (size (keys_set ∖ ({[symbol]} ∪ visiting)) < size (keys_set ∖ visiting))%nat.
Proof.
  intros Hr Hs. apply (size_step (λ _, [])); [|exact Hs]. unfold keys_set. rewrite elem_of_list_to_set, <- assoc_get_key. by exists r.
Qed.

Lemma depth_spec fuel : ∀ st symbol,
  (size (keys_set ∖ st.1) < fuel)%nat → memo_ok st.2 →
  depth_post st symbol (depth recipes fuel st symbol).
Proof.
  induction fuel as [|fuel IH]; intros st symbol Hf Hm; [lia|]. cbn [depth].
  destruct (st.2 !! symbol) as [n|] eqn:Hmemo; [destruct (Hm _ _ Hmemo); by split_and!|].
  case_decide as Hvis.
  { intros Hall. destruct (tc_walks depends symbol (S MAX_SYNTHETIC_DEPTH) (Hall symbol Hvis)) as [y Hy].
    by exists symbol, y. }
  destruct (assoc_get symbol recipes) as [r|] eqn:Hr.
  2: { split_and!; [done|done|by apply depth_leaf|cbn; lia]. }
  pose proof (keys_decrease st.1 symbol r Hr Hvis) as Hdec.
  assert (∀ y, depends symbol y ↔ y ∈ syn_inputs r) as Hdep.
  { intros y. split; [intros (r' & Hr' & Hy); congruence|intros Hy; by exists r]. }
  pose proof (depth_inputs_spec fuel ({[symbol]} ∪ st.1) symbol (syn_inputs r)) as Hloop.
  specialize (Hloop ltac:(intros st0 y E Hm0 _; apply IH; [rewrite E; lia|done])
                    ltac:(intros y Hy; by apply Hdep) (({[symbol]} ∪ st.1, st.2), O) eq_refl Hm).
  destruct (fold_result _ _ (syn_inputs r)) as [acc|e]; cbn [mbind result_bind].
  2: { intros Hall. apply Hloop. intros v [->%elem_of_singleton|Hv]%elem_of_union; [done|].
       by apply tc_rtc, Hall. }
  destruct acc as [[visited memo] deepest]. destruct Hloop as (Hv & Hm' & _ & Hle & Hmax). cbn [fst snd] in *.
  assert (height depends symbol (S deepest)) as Hh.
  { apply (height_step depends symbol deepest (syn_inputs r)); [by intros y ?%Hdep|by intros y ?%Hdep|done|].
    destruct Hmax as [H0|Hmax]; [|done]. destruct (syn_inputs r) as [|y l] eqn:Hl; [by apply Hinputs in Hr|].
    exists y. split; [by left|]. destruct (Hle y ltac:(by left)) as (m & Hh & Hm0). by replace deepest with m by lia. }
  cbv zeta. unfold require. case_bool_decide as Hlim; cbn [raise_if negb mbind result_bind].
  - cbn [depth_post fst snd]. split_and!; [|intros x n|done|done].
    + rewrite Hv. set_solver.
    + rewrite lookup_insert. case_decide as Hx; [intros [= <-]; by subst|apply Hm'].
  - intros _. destruct Hh as [[y Hy] _].
    destruct (nsteps_prefix depends (S MAX_SYNTHETIC_DEPTH) (S deepest) _ _ ltac:(lia) Hy) as [z Hz]. by exists symbol, z.
Qed.

(** The loop over the recipes decides whether a walk is too long. *)
Lemma depth_loop_spec :
  match fold_result (λ (st : depths) (entry : string * SyntheticRecipeDefinition),
          d ← depth recipes (depth_fuel recipes) st entry.1; Ok d.1) (∅, ∅) recipes with
  | Ok _ => ¬ too_deep
  | Raise _ => too_deep
  end.
Proof.
  assert (size keys_set < depth_fuel recipes)%nat as Hfuel.
  { unfold keys_set, depth_fuel. pose proof (size_list_le recipes.*1) as Hle. rewrite length_fmap in Hle. lia. }
  assert (∀ (l : list (string * SyntheticRecipeDefinition)) (st : depths), st.1 = ∅ → memo_ok st.2 →
    match fold_result (λ (st : depths) (entry : string * SyntheticRecipeDefinition),
            d ← depth recipes (depth_fuel recipes) st entry.1; Ok d.1) st l with
    | Ok _ => ∀ x, x ∈ l.*1 → ∃ n, height depends x n ∧ (n ≤ MAX_SYNTHETIC_DEPTH)%nat
    | Raise _ => too_deep
    end) as Hall.
  { induction l as [|[x r] l IHl]; intros st Hst Hm; cbn [fold_result].
    { by intros x ?%elem_of_nil. }
    pose proof (depth_spec (depth_fuel recipes) st x) as Hd. cbn [fst].
    rewrite Hst, difference_empty_L in Hd. specialize (Hd Hfuel Hm).
    destruct (depth _ _ st x) as [[st' n]|e]; cbn [mbind result_bind]; [|apply Hd; set_solver].
    destruct Hd as (Hv & Hm' & Hh & Hn). specialize (IHl st' ltac:(congruence) Hm').
    cbn [fst]. destruct (fold_result _ st' l); [|done].
    intros y [->|Hy]%elem_of_cons; [by exists n|auto]. }
  assert (memo_ok ∅) as Hempty by (intros x n Hx; by rewrite lookup_empty in Hx).
  specialize (Hall recipes (∅, ∅) eq_refl Hempty).
  destruct (fold_result _ _ recipes); [|done]. intros (x & y & Hxy).
  assert (x ∈ recipes.*1) as Hx.
  { inversion Hxy as [|? ? ? ? (r & Hr & _)]; subst. apply assoc_get_key. by exists r. }
  destruct (Hall x Hx) as (n & [_ Hh] & Hn). specialize (Hh _ _ Hxy). lia.
Qed.

End depths.

(** ** The scan of a generation *)

Definition names (d : ManagedInstrumentDefinition) : list string := md_symbol d :: md_aliases d.

(** What the scan of an accepted definition adds. *)
Definition scanned (s : scanning) (d : ManagedInstrumentDefinition) : scanning :=
  {| sn_ids := {[md_id d]} ∪ sn_ids s; sn_symbols := {[md_symbol d]} ∪ sn_symbols s;
     sn_aliases := list_to_set (md_aliases d) ∪ sn_aliases s;
     sn_custom := if decide (md_ownership d = CUSTOM) then S (sn_custom s) else sn_custom s;
     sn_active := if active d then {[md_symbol d]} ∪ sn_active s else sn_active s;
     sn_recipes := match md_synthetic d with
                   | Some r => if active d then sn_recipes s ++ [(md_symbol d, r)] else sn_recipes s
                   | None => sn_recipes s
                   end |}.

Definition free (s : scanning) (x : string) : Prop := x ∉ sn_symbols s ∧ x ∉ sn_aliases s.

Lemma scan_aliases_spec symbols l : ∀ al al',
  fold_result (scan_alias symbols) al l = Ok al' ↔
  NoDup l ∧ (∀ x, x ∈ l → x ∉ al ∧ x ∉ symbols) ∧ al' = list_to_set l ∪ al.
Proof.
  induction l as [|a l IH]; intros al al'; cbn [fold_result].
  - split; [intros [= <-]|intros (_ & _ & ->)].
    + split_and!; [constructor|by intros x ?%elem_of_nil|set_solver].
    + f_equal. set_solver.
  - rewrite NoDup_cons. split.
    + intros (al1 & [Ha%negb_true_iff%bool_decide_eq_false [= <-]]%require_bind & H)%result_bind_ok.
      apply IH in H as (Hnd & Hl & ->). split_and!; [|done| |set_solver].
      * intros Hin. destruct (Hl a Hin). set_solver.
      * intros x [->|Hx]%elem_of_cons; [tauto|]. destruct (Hl x Hx). set_solver.
    + intros ([Hna Hnd] & Hl & ->). assert (scan_alias symbols al a = Ok ({[a]} ∪ al)) as ->.
      { apply require_bind. split; [|done]. apply negb_true_iff, bool_decide_eq_false.
        destruct (Hl a ltac:(by left)). tauto. }
      apply IH. split_and!; [done| |set_solver]. intros x Hx. destruct (Hl x ltac:(by right)). set_solver.
Qed.

Lemma scan_item_spec s d s' :
  scan_item s d = Ok s' ↔
  md_id d ∉ sn_ids s ∧ NoDup (names d) ∧ (∀ x, x ∈ names d → free s x) ∧ s' = scanned s d.
Proof.
  unfold scan_item. rewrite require_bind, negb_true_iff, bool_decide_eq_false. cbv zeta. unfold names, free.
  rewrite NoDup_cons. split.
  - intros [Hn (al & (Hnd & Hal & ->)%scan_aliases_spec & [= <-])%result_bind_ok].
    split_and!; [tauto| |done| |done].
    + intros Hin. destruct (Hal _ Hin). set_solver.
    + intros x [->|Hx]%elem_of_cons; [tauto|]. destruct (Hal x Hx). set_solver.
  - intros (Hid & [Hns Hnd] & Hx & ->). split.
    + destruct (Hx (md_symbol d) ltac:(by left)). tauto.
    + rewrite (proj2 (scan_aliases_spec _ _ _ (list_to_set (md_aliases d) ∪ sn_aliases s))); [done|].
      split_and!; [done| |done]. intros x Hin. destruct (Hx x ltac:(by right)).
      assert (x ≠ md_symbol d) by (intros ->; done). set_solver.
Qed.

Lemma scan_spec l : ∀ s s',
  fold_result scan_item s l = Ok s' ↔
  NoDup (md_id <$> l) ∧ (∀ d, d ∈ l → md_id d ∉ sn_ids s) ∧
  NoDup (concat (names <$> l)) ∧ (∀ x, x ∈ concat (names <$> l) → free s x) ∧ s' = foldl scanned s l.
Proof.
  induction l as [|d l IH]; intros s s'; cbn [fold_result fmap list_fmap concat foldl].
  - split; [intros [= <-]|by intros (_ & _ & _ & _ & ->)].
    split_and!; [constructor|by intros x ?%elem_of_nil|constructor|by intros x ?%elem_of_nil|done].
  - rewrite NoDup_cons, NoDup_app. split.
    + intros (s1 & (Hid & Hnd & Hfree & ->)%scan_item_spec & H)%result_bind_ok. apply IH in H as
        (Hids & Hnew & Hnames & Hfresh & ->). cbn in Hnew. unfold free in *. cbn in Hfresh.
      split_and!; [|done| |done| |done| |done].
      * intros (d' & E & Hd')%list_elem_of_fmap. specialize (Hnew d' Hd'). set_solver.
      * intros d' [->|Hd']%elem_of_cons; [done|]. specialize (Hnew d' Hd'). set_solver.
      * intros x Hx Hin. destruct (Hfresh x Hin). unfold names in Hx. apply elem_of_cons in Hx. set_solver.
      * intros x [Hx|Hx]%elem_of_app; [by apply Hfree|]. destruct (Hfresh x Hx). set_solver.
    + intros ([Hid Hids] & Hnew & (Hnd & Hapart & Hnames) & Hfresh & ->).
      rewrite (proj2 (scan_item_spec s d (scanned s d))); [cbn [mbind result_bind]|].
      * apply IH. cbn. unfold free in *. cbn. split_and!; [done| |done| |done].
        -- intros d' Hd'. specialize (Hnew d' ltac:(by right)).
           assert (md_id d' ≠ md_id d) by (intros E; apply Hid, list_elem_of_fmap; by exists d'). set_solver.
        -- intros x Hx. destruct (Hfresh x ltac:(apply elem_of_app; by right)).
           assert (x ∉ names d) as Hnx by (intros Hin; by apply (Hapart x)). unfold names in Hnx.
           rewrite elem_of_cons in Hnx. set_solver.
      * split_and!; [apply Hnew; by left|done| |done]. intros x Hx. apply Hfresh, elem_of_app. by left.
Qed.

(** ** Well-formed generations *)

Definition custom_count (l : list ManagedInstrumentDefinition) : nat :=
  length (filter (λ d, md_ownership d = CUSTOM) l).

Definition active_symbols (l : list ManagedInstrumentDefinition) : list string :=
  md_symbol <$> List.filter active l.

Definition recipes_of (l : list ManagedInstrumentDefinition) : list (string * SyntheticRecipeDefinition) :=
  omap (λ d, if active d then (λ r, (md_symbol d, r)) <$> md_synthetic d else None) l.

(** [x] is synthetic in the generation, and reads [y]. *)
Definition reads (l : list ManagedInstrumentDefinition) (x y : string) : Prop :=
  ∃ d r, d ∈ l ∧ active d = true ∧ md_symbol d = x ∧ md_synthetic d = Some r ∧ y ∈ syn_inputs r.

Record well_formed (l : list ManagedInstrumentDefinition) : Prop := {
  wf_ids : NoDup (md_id <$> l);
  wf_names : NoDup (concat (names <$> l));
  wf_custom : (custom_count l ≤ MAX_CUSTOM_INSTRUMENTS)%nat;
  wf_inputs : ∀ x y, reads l x y → y ∈ active_symbols l;
  wf_depth : ∀ x y, ¬ nsteps (reads l) (S MAX_SYNTHETIC_DEPTH) x y;
}.

Lemma foldl_scanned l : ∀ s,
  foldl scanned s l =
  {| sn_ids := list_to_set (md_id <$> l) ∪ sn_ids s;
     sn_symbols := list_to_set (md_symbol <$> l) ∪ sn_symbols s;
     sn_aliases := list_to_set (concat (md_aliases <$> l)) ∪ sn_aliases s;
     sn_custom := custom_count l + sn_custom s;
     sn_active := list_to_set (active_symbols l) ∪ sn_active s;
     sn_recipes := sn_recipes s ++ recipes_of l |}.
Proof.
  unfold custom_count, active_symbols, recipes_of.
  induction l as [|d l IH]; intros [i sy al c ac r]; cbn [foldl].
  { cbn. rewrite app_nil_r. f_equal; set_solver. }
  rewrite IH. cbn [scanned sn_ids sn_symbols sn_aliases sn_custom sn_active sn_recipes fmap list_fmap
    concat List.filter omap list_omap]. rewrite filter_cons. f_equal.
  - set_solver.
  - set_solver.
  - rewrite list_to_set_app_L. set_solver.
  - destruct (decide (md_ownership d = CUSTOM)); cbn; lia.
  - destruct (active d); [|done]. cbn. set_solver.
  - destruct (md_synthetic d), (active d); cbn; by rewrite <- ?app_assoc.
Qed.

Lemma recipes_of_in l x r :
  (x, r) ∈ recipes_of l ↔ ∃ d, d ∈ l ∧ active d = true ∧ md_symbol d = x ∧ md_synthetic d = Some r.
Proof.
  unfold recipes_of. rewrite list_elem_of_omap. split.
  - intros (d & Hd & Hr). destruct (active d) eqn:Ha; [|done].
    destruct (md_synthetic d) eqn:Hs; [|done]. injection Hr as <- <-. by exists d.
  - intros (d & Hd & Ha & <- & Hs). exists d. by rewrite Ha, Hs.
Qed.

Lemma elem_of_names x l : x ∈ concat (names <$> l) ↔ ∃ d, d ∈ l ∧ x ∈ names d.
Proof.
  rewrite list_elem_of_In, in_concat. split.
  - intros (ns & Hns & Hx). apply list_elem_of_In, list_elem_of_fmap in Hns as (d & -> & Hd).
    exists d. split; [done|by apply list_elem_of_In].
  - intros (d & Hd & Hx). exists (names d). split; apply list_elem_of_In; [|done]. apply list_elem_of_fmap. by exists d.
Qed.

Lemma names_symbols l : NoDup (concat (names <$> l)) → NoDup (md_symbol <$> l).
Proof.
  induction l as [|d l IH]; cbn [fmap list_fmap concat]; [constructor|].
  intros (Hd & Hapart & Hl)%NoDup_app. constructor; [|by apply IH].
  intros (d' & E & Hd')%list_elem_of_fmap. apply (Hapart (md_symbol d)); [by left|].
  apply elem_of_names. exists d'. split; [done|]. rewrite E. by left.
Qed.

Lemma recipes_keys l : NoDup (md_symbol <$> l) → NoDup (recipes_of l).*1.
Proof.
  induction l as [|d l IH]; cbn [fmap list_fmap]; [constructor|]. intros [Hd Hl]%NoDup_cons.
  unfold recipes_of. cbn [omap list_omap]. fold (recipes_of l).
  destruct (active d); [|by apply IH]. destruct (md_synthetic d) as [r|]; [|by apply IH].
  cbn. constructor; [|by apply IH]. intros ([x r'] & E & (d' & Hd' & _ & Hx & _)%recipes_of_in)%list_elem_of_fmap.
  cbn in E. apply Hd, list_elem_of_fmap. exists d'. by rewrite Hx.
Qed.

Lemma assoc_get_nodup {V} x v (l : list (string * V)) : NoDup l.*1 → assoc_get x l = Some v ↔ (x, v) ∈ l.
Proof.
  intros Hnd. split; [apply assoc_get_in|]. induction l as [|[k w] l IH]; cbn; [by intros ?%elem_of_nil|].
  apply NoDup_cons in Hnd as [Hk Hnd]. intros [[= -> ->]|Hin]%elem_of_cons; [by rewrite decide_True|].
  rewrite decide_False; [auto|]. intros ->. apply Hk, list_elem_of_fmap. by exists (x, v).
Qed.

Lemma depends_reads l x y :
  NoDup (concat (names <$> l)) → depends (recipes_of l) x y ↔ reads l x y.
Proof.
  intros Hn%names_symbols%recipes_keys. unfold depends, reads. split.
  - intros (r & (d & Hd & Ha & Hx & Hr)%assoc_get_in%recipes_of_in & Hy). by exists d, r.
  - intros (d & r & Hd & Ha & Hx & Hr & Hy). exists r. split; [|done].
    apply assoc_get_nodup; [done|]. apply recipes_of_in. by exists d.
Qed.

(** A definition whose parts and itself were built by their constructors. *)
Record definition_ok (d : ManagedInstrumentDefinition) : Prop := {
  do_init : ManagedInstrumentDefinition_init d = Ok d;
  do_history : HistoryCollectionPolicy_init (md_history d) = Ok (md_history d);
  do_routes : ∀ r, r ∈ md_routes d → CapabilityRoute_init r = Ok r;
  do_bindings : ∀ b, b ∈ md_provider_symbols d → ProviderSymbolBinding_init b = Ok b;
  do_income : ∀ p, md_income d = Some p → IncomePolicy_init p = Ok p;
  do_synthetic : ∀ r, md_synthetic d = Some r → SyntheticRecipeDefinition_init r = Ok r;
  do_ratio : ∀ p q, md_income d = Some p → in_expense_ratio_percent p = Some q → Qred q = q;
}.

Lemma recipe_inputs_nonempty r : SyntheticRecipeDefinition_init r = Ok r → syn_inputs r ≠ [].
Proof.
  unfold SyntheticRecipeDefinition_init. intros H Hnil. rewrite Hnil in H.
  apply result_bind_ok in H as (? & _ & H). do 3 apply require_bind in H as [_ H].
  apply require_bind in H as [[H _]%andb_true_iff _]. apply bool_decide_eq_true in H.
  by destruct (syn_operation r).
Qed.

Lemma map_result_unit {A} (f : A → result unit) l :
  is_ok (map_result f l) ↔ ∀ x, x ∈ l → f x = Ok tt.
Proof.
  unfold is_ok. induction l as [|x l IH]; cbn [map_result].
  { split; [by intros _ x ?%elem_of_nil|by exists []]. }
  split.
  - intros (? & ([] & Hx & (us & Hl & _)%result_bind_ok)%result_bind_ok).
    intros y [->|Hy]%elem_of_cons; [done|]. apply IH; [by exists us|done].
  - intros Hall. rewrite (Hall x) by by left. destruct (proj2 IH) as [us Hus]; [intros; apply Hall; by right|].
    exists (tt :: us). cbn. by rewrite Hus.
Qed.

(** The validation accepts exactly the well-formed generations. *)
Lemma validate_instruments_iff l :
  (∀ d, d ∈ l → definition_ok d) → validate_instruments l = Ok tt ↔ well_formed l.
Proof.
  intros Hl. assert (∀ x r, assoc_get x (recipes_of l) = Some r → syn_inputs r ≠ []) as Hin.
  { intros x r (d & Hd & _ & _ & Hr)%assoc_get_in%recipes_of_in. by apply recipe_inputs_nonempty, (do_synthetic _ (Hl d Hd)). }
  pose proof (depth_loop_spec (recipes_of l) Hin) as Hdepth.
  assert (∀ s, foldl scanned empty_scan l = s → sn_recipes s = recipes_of l ∧ sn_custom s = custom_count l ∧
            ∀ x, x ∈ sn_active s ↔ x ∈ active_symbols l) as Hs.
  { intros s <-. rewrite foldl_scanned. cbn. split_and!; [done|lia|]. set_solver. }
  assert ((∀ e, e ∈ recipes_of l → check_inputs (list_to_set (active_symbols l)) e = Ok tt) ↔
          ∀ x y, reads l x y → y ∈ active_symbols l) as Hinputs.
  { unfold check_inputs. split.
    - intros Hall x y (d & r & Hd & Ha & <- & Hr & Hy).
      specialize (Hall (md_symbol d, r) ltac:(apply recipes_of_in; by exists d)).
      apply require_ok in Hall. rewrite forallb_forall in Hall.
      specialize (Hall y ltac:(by apply list_elem_of_In)). by apply bool_decide_eq_true, elem_of_list_to_set in Hall.
    - intros Hall [x r] (d & Hd & Ha & <- & Hr)%recipes_of_in. apply require_ok, forallb_forall.
      intros y Hy%list_elem_of_In. apply bool_decide_eq_true, elem_of_list_to_set, (Hall (md_symbol d)). by exists d, r. }
  unfold validate_instruments. split.
  - intros (s & (Hids & _ & Hnames & _ & E)%scan_spec & H)%result_bind_ok.
    destruct (Hs s (eq_sym E)) as (Er & Ec & Ea). rewrite Er, Ec in H.
    apply require_bind in H as [Hc%bool_decide_eq_true H].
    apply result_bind_ok in H as (us & Hus & H). apply result_bind_ok in H as (st & Hst & _).
    rewrite Hst in Hdepth. replace (sn_active s) with (list_to_set (active_symbols l) : gset string) in Hus by set_solver.
    split; [done|done|done| |].
    + apply Hinputs. apply map_result_unit. by exists us.
    + intros x y Hxy. apply Hdepth. exists x, y. revert Hxy. apply nsteps_congruence with (f := λ x, x).
      intros a b. by apply depends_reads.
  - intros [Hids Hnames Hc Hi Hd].
    rewrite (proj2 (scan_spec l empty_scan (foldl scanned empty_scan l))).
    2: { split_and!; [done|set_solver|done|unfold free; set_solver|done]. }
    cbn [mbind result_bind]. destruct (Hs _ eq_refl) as (Er & Ec & Ea). rewrite Er, Ec.
    rewrite require_true by by apply bool_decide_eq_true.
    replace (sn_active (foldl scanned empty_scan l)) with (list_to_set (active_symbols l) : gset string) by set_solver.
    destruct (proj2 (map_result_unit _ _) (proj2 Hinputs Hi)) as [us ->]. cbn [mbind result_bind].
    destruct (fold_result _ _ (recipes_of l)) as [st|e]; [done|]. exfalso.
    destruct Hdepth as (x & y & Hxy). apply (Hd x y). revert Hxy. apply nsteps_congruence with (f := λ x, x).
    intros a b. by apply depends_reads.
Qed.

(** ** The registry of a generation *)

Lemma lower_idem s : lower (lower s) = lower s.
Proof. unfold lower. rewrite str_map_map. apply str_map_ext. by intros [[] [] [] [] [] [] [] []]. Qed.

(** A trimmed or case-folded text that is not empty is not blank. *)
Lemma not_blank f s : s = str_map f (strip s) → s ≠ "" → truthy (strip s) = true.
Proof. intros E Hs. unfold truthy. apply negb_true_iff, bool_decide_eq_false. intros H. rewrite H in E. done. Qed.

Lemma pattern_nonempty first tail n s : pattern first tail n s = true → s ≠ "".
Proof. by destruct s. Qed.

Lemma canonical_symbol_check_ok s what : canonical_symbol_check s what = Ok tt → normalize_symbol s = s ∧ symbol_pattern s = true.
Proof. intros [H%bool_decide_eq_true ?]%require_ok%andb_true_iff. done. Qed.

Lemma valid_asset_ok s : valid_asset s = true → s = upper (strip s) ∧ truthy (strip s) = true.
Proof.
  intros [H%bool_decide_eq_true Hp]%andb_true_iff. split; [done|].
  eapply not_blank; [exact H|by eapply pattern_nonempty].
Qed.

Lemma safe_text_ok s what n : require_safe_text s what n = Ok tt → truthy (strip s) = true.
Proof.
  unfold require_safe_text. intros [H _]%require_bind.
  apply andb_true_iff in H as [[H E%bool_decide_eq_true]%andb_true_iff _]. by rewrite <- E.
Qed.

(** What the registry asks of an instrument, from the checks of its definition. *)
Record registrable (d : ManagedInstrumentDefinition) : Prop := {
  rb_symbol : normalize_symbol (md_symbol d) = md_symbol d ∧ symbol_pattern (md_symbol d) = true;
  rb_parts : md_base d = upper (strip (md_base d)) ∧ md_quote d = upper (strip (md_quote d));
  rb_compound : md_symbol d = md_base d +:+ ":" +:+ md_quote d;
  rb_texts : ∀ s, s ∈ [md_name d; md_description d; md_asset_type d; md_price_basis d] → truthy (strip s) = true;
  rb_type : lower (md_asset_type d) = md_asset_type d;
  rb_intervals : 0 < md_stale_after_seconds d ∧ 0 < md_quote_poll_seconds d;
  rb_aliases : ∀ a, a ∈ md_aliases d → normalize_symbol a = a ∧ symbol_pattern a = true;
  rb_bond : md_asset_class d = BOND → income_yield d ≠ None;
  rb_staking : contains "staking" (md_asset_type d) = true →
    income_yield d ≠ None ∧ income_accrual d ≠ None ∧ income_underlying d ≠ None;
  rb_accrual : income_accrual d ≠ None → income_yield d ≠ None;
}.

Lemma token_text s : (bool_decide (s = lower (strip s)) && token_pattern s) = true →
  truthy (strip s) = true ∧ lower s = s.
Proof.
  intros [H%bool_decide_eq_true Hp]%andb_true_iff. split.
  - eapply not_blank; [exact H|by eapply pattern_nonempty].
  - rewrite H. by rewrite lower_idem.
Qed.

Lemma is_some_false {A} (o : option A) : is_some o = true ↔ o ≠ None.
Proof. by destruct o. Qed.

Lemma definition_registrable d : definition_ok d → registrable d.
Proof.
  intros [Hinit _ _ _ _ _ _]. unfold ManagedInstrumentDefinition_init in Hinit.
  apply result_bind_ok in Hinit as ([] & Hf & Hinit). apply result_bind_ok in Hinit as ([] & Hv & _).
  unfold check_fields in Hf. apply require_bind in Hf as [_ Hf].
  apply result_bind_ok in Hf as ([] & Hsym%canonical_symbol_check_ok & Hf).
  apply require_bind in Hf as [[[Hb _]%valid_asset_ok [Hq _]%valid_asset_ok]%andb_true_iff Hf].
  apply result_bind_ok in Hf as ([] & Hn%safe_text_ok & Hf). apply result_bind_ok in Hf as ([] & Hd%safe_text_ok & Hf).
  apply require_bind in Hf as [Htok Hf]. cbn [forallb] in Htok. rewrite !andb_true_iff in Htok.
  destruct Htok as ([Ht1 Ht2]%andb_true_iff%token_text & [Hp1 _]%andb_true_iff%token_text & _).
  apply require_bind in Hf as [_ Hf]. apply result_bind_ok in Hf as (us & Hal & Hf).
  apply require_bind in Hf as [Hpoll%bool_decide_eq_true Hf]. apply require_bind in Hf as [Hst%bool_decide_eq_true _].
  unfold validate_definition in Hv. do 2 apply require_bind in Hv as [_ Hv].
  apply require_bind in Hv as [Hc%bool_decide_eq_true Hv]. do 3 apply require_bind in Hv as [_ Hv].
  apply require_bind in Hv as [Hbond%negb_true_iff Hv]. apply require_bind in Hv as [Hstk%negb_true_iff Hv].
  apply require_bind in Hv as [Hacc%negb_true_iff _].
  split; [done|done|done| |done| | | | |].
  - intros s. rewrite !elem_of_cons. intros [->|[->|[->|[->|?%elem_of_nil]]]]; done.
  - unfold seconds in *. lia.
  - intros a Ha. eapply canonical_symbol_check_ok, (proj1 (map_result_unit _ _) (ex_intro _ us Hal)), Ha.
  - intros E. rewrite E in Hbond. rewrite bool_decide_true in Hbond by done. apply is_some_false. by apply negb_false_iff.
  - intros E. rewrite E in Hstk. apply negb_false_iff in Hstk. rewrite !andb_true_iff, !is_some_false in Hstk. naive_solver.
  - intros E%is_some_false. rewrite E in Hacc. apply negb_false_iff in Hacc.
    rewrite andb_true_iff, !is_some_false in Hacc. tauto.
Qed.

Lemma underlying_ok d u : definition_ok d → income_underlying d = Some u → u = upper (strip u) ∧ truthy (strip u) = true.
Proof.
  intros Hd. unfold income_underlying. destruct (md_income d) as [p|] eqn:Hp; [|done]. cbn. intros Hu.
  pose proof (do_income _ Hd p Hp) as Hi. unfold IncomePolicy_init in Hi. cbv zeta in Hi.
  apply require_bind in Hi as [_ Hi]. apply require_bind in Hi as [Hv _]. rewrite Hu in Hv. by apply valid_asset_ok.
Qed.

Lemma history_poll_ok d p : definition_ok d → hp_poll_seconds (md_history d) = Some p → seconds 1 ≤ p ≤ seconds 86400.
Proof.
  intros Hd Hp. pose proof (do_history _ Hd) as Hh. unfold HistoryCollectionPolicy_init in Hh.
  apply require_bind in Hh as [Hh _]. rewrite Hp in Hh. by apply bool_decide_eq_true in Hh.
Qed.

Lemma check_false {A} b msg (k : result A) : b = false → (_ ← check b msg; k) = k.
Proof. by intros ->. Qed.

(** The registry takes over every instrument of a checked definition. *)
Lemma validate_managed d : definition_ok d → validate_instrument (to_instrument_spec d) = Ok (to_instrument_spec d).
Proof.
  intros Hd. pose proof (underlying_ok d) as Hu. pose proof (history_poll_ok d) as Hh.
  destruct (definition_registrable d Hd) as [[Hn Hp] [Hb Hq] Hc Ht Hty [Hst Hpoll] _ Hbond Hstk Hacc].
  unfold validate_instrument. cbn [to_instrument_spec is_symbol is_base is_quote is_name is_description
    is_asset_class is_asset_type is_price_basis is_stale_after_seconds is_quote_poll_seconds
    is_history_poll_seconds is_yield_strategy is_reward_accrual_mode is_underlying_asset].
  rewrite Hn, Hp, Hty.
  rewrite !check_false; [done|..].
  - destruct (income_underlying d) as [u|] eqn:E; [|done]. destruct (Hu u Hd eq_refl) as [Hu1 Hu2].
    by rewrite Hu2, bool_decide_false by congruence.
  - apply andb_false_iff. destruct (income_accrual d) eqn:E; [right|by left].
    apply bool_decide_eq_false. by apply Hacc.
  - destruct (contains _ _) eqn:E; [|done]. destruct (Hstk eq_refl) as (_ & _ & Hun).
    destruct (income_underlying d) as [u|] eqn:Eu; [|done]. destruct (Hu u Hd eq_refl) as [_ Hu2].
    change (default "" (Some u)) with u. by rewrite Hu2.
  - destruct (contains _ _) eqn:E; [|done]. cbn. apply bool_decide_eq_false. by apply Hstk.
  - destruct (contains _ _) eqn:E; [|done]. cbn. apply bool_decide_eq_false. by apply Hstk.
  - apply andb_false_iff. destruct (decide (md_asset_class d = BOND)) as [E|E]; [right|left; by apply bool_decide_eq_false].
    apply bool_decide_eq_false. by apply Hbond.
  - destruct (hp_poll_seconds (md_history d)) as [p|] eqn:E; [|done].
    apply negb_false_iff, bool_decide_eq_true, (Hh p Hd eq_refl).
  - apply bool_decide_eq_false. lia.
  - rewrite !Ht by (rewrite !elem_of_cons; tauto). done.
  - by rewrite Ht by (rewrite !elem_of_cons; tauto).
  - by rewrite Ht by (rewrite !elem_of_cons; tauto).
  - apply bool_decide_eq_false. intros Hne. by apply Hne.
  - apply bool_decide_eq_false. intros [Hne|Hne]; congruence.
  - apply orb_false_iff. split; [|done]. apply bool_decide_eq_false. intros Hne. by apply Hne.
Qed.

(** What a run over checked definitions with free names adds to the registry. *)
Record registered (b b' : building) (l : list ManagedInstrumentDefinition) : Prop := {
  rd_order : bd_order b' = bd_order b ++ (md_symbol <$> l);
  rd_instruments : ∀ d, d ∈ l → bd_instruments b' !! md_symbol d = Some (to_instrument_spec d);
  rd_aliases : ∀ d a, d ∈ l → a ∈ md_aliases d → bd_aliases b' !! a = Some (md_symbol d);
  rd_others : ∀ x, x ∉ concat (names <$> l) →
    bd_instruments b' !! x = bd_instruments b !! x ∧ bd_aliases b' !! x = bd_aliases b !! x;
  rd_symbols : ∀ d, d ∈ l → bd_aliases b' !! md_symbol d = None;
  rd_aliases_free : ∀ d a, d ∈ l → a ∈ md_aliases d → bd_instruments b' !! a = None;
}.

Lemma taken_iff b x : taken b x = false ↔ bd_instruments b !! x = None ∧ bd_aliases b !! x = None.
Proof. unfold taken. rewrite bool_decide_eq_false, !eq_None_not_Some. tauto. Qed.

Lemma add_aliases_free item l : ∀ b,
  (∀ a, a ∈ l → normalize_symbol a = a ∧ symbol_pattern a = true) → NoDup l → (∀ a, a ∈ l → taken b a = false) →
  ∃ b', fold_result (add_alias item) b l = Ok b' ∧ bd_order b' = bd_order b ∧
        bd_instruments b' = bd_instruments b ∧
        (∀ a, a ∈ l → bd_aliases b' !! a = Some (is_symbol item)) ∧
        ∀ x, x ∉ l → bd_aliases b' !! x = bd_aliases b !! x.
Proof.
  induction l as [|a l IH]; intros b Hn Hnd Hfree; cbn [fold_result].
  { exists b. split_and!; [done..|by intros a ?%elem_of_nil|done]. }
  apply NoDup_cons in Hnd as [Ha Hnd]. destruct (Hn a ltac:(by left)) as [Hna Hpa].
  set (b1 := {| bd_order := bd_order b; bd_instruments := bd_instruments b;
                bd_aliases := <[a := is_symbol item]> (bd_aliases b); bd_plugin_ids := bd_plugin_ids b |}).
  assert (add_alias item b a = Ok b1) as ->.
  { unfold add_alias. by rewrite Hna, Hpa, (Hfree a) by by left. }
  cbn [mbind result_bind].
  destruct (IH b1) as (b' & Hb' & Ho & Hi & Hal & Hothers).
  - intros x Hx. apply Hn. by right.
  - done.
  - intros x Hx. apply taken_iff. destruct (proj1 (taken_iff b x) (Hfree x ltac:(by right))) as [H1 H2].
    split; [done|]. unfold b1. cbn. rewrite lookup_insert_ne; [done|]. intros ->. done.
  - exists b'. split_and!; [exact Hb'|done|done| |].
    + intros x [->|Hx]%elem_of_cons; [|by apply Hal]. rewrite Hothers by done. unfold b1. cbn. by rewrite lookup_insert_eq.
    + intros x [Hx1 Hx2]%not_elem_of_cons. rewrite Hothers by done. unfold b1. cbn. by rewrite lookup_insert_ne.
Qed.

Lemma add_managed b d :
  definition_ok d → NoDup (names d) → (∀ x, x ∈ names d → taken b x = false) →
  ∃ b', add_instrument b (to_instrument_spec d) = Ok b' ∧ registered b b' [d].
Proof.
  intros Hd [Hs Hnd]%NoDup_cons Hfree.
  set (b1 := {| bd_order := bd_order b ++ [md_symbol d];
                bd_instruments := <[md_symbol d := to_instrument_spec d]> (bd_instruments b);
                bd_aliases := bd_aliases b; bd_plugin_ids := bd_plugin_ids b |}).
  destruct (add_aliases_free (to_instrument_spec d) (md_aliases d) b1) as (b' & Hb' & Ho & Hi & Hal & Hothers).
  - apply (rb_aliases _ (definition_registrable d Hd)).
  - done.
  - intros a Ha. apply taken_iff. destruct (proj1 (taken_iff b a) (Hfree a ltac:(by right))) as [H1 H2].
    split; [|done]. unfold b1. cbn. rewrite lookup_insert_ne; [done|]. by intros <-.
  - exists b'. split.
    + unfold add_instrument. rewrite validate_managed by done. cbn [mbind result_bind].
      rewrite check_false by (apply Hfree; by left). exact Hb'.
    + destruct (proj1 (taken_iff b (md_symbol d)) (Hfree _ ltac:(by left))) as [H1 H2]. split.
      * by rewrite Ho.
      * intros d' ->%list_elem_of_singleton. rewrite Hi. unfold b1. cbn. by rewrite lookup_insert_eq.
      * intros d' a ->%list_elem_of_singleton Ha. by apply Hal.
      * intros x Hx. cbn in Hx. rewrite app_nil_r in Hx. apply not_elem_of_cons in Hx as [Hx1 Hx2].
        rewrite Hi, Hothers by done. unfold b1. cbn. by rewrite lookup_insert_ne.
      * intros d' ->%list_elem_of_singleton. by rewrite Hothers.
      * intros d' a ->%list_elem_of_singleton Ha. rewrite Hi. unfold b1. cbn.
        rewrite lookup_insert_ne by by intros <-. apply (taken_iff b a), Hfree. by right.
Qed.

Lemma registered_trans b b1 b2 l1 l2 :
  NoDup (concat (names <$> l1) ++ concat (names <$> l2)) → registered b b1 l1 → registered b1 b2 l2 →
  registered b b2 (l1 ++ l2).
Proof.
  intros (_ & Hapart & _)%NoDup_app [O1 I1 A1 X1 S1 F1] [O2 I2 A2 X2 S2 F2].
  assert (∀ d x, d ∈ l1 → x ∈ names d → bd_instruments b2 !! x = bd_instruments b1 !! x ∧
                                         bd_aliases b2 !! x = bd_aliases b1 !! x) as Hkeep.
  { intros d x Hd Hx. apply X2, Hapart, elem_of_names. eauto. }
  assert (∀ d, md_symbol d ∈ names d) as Hsym by by left.
  assert (∀ d a, a ∈ md_aliases d → a ∈ names d) as Hali by (intros d a Ha; by right).
  split.
  - by rewrite O2, O1, fmap_app, (assoc_L (++)).
  - intros d [Hd|Hd]%elem_of_app; [|by apply I2]. rewrite (proj1 (Hkeep d _ Hd (Hsym d))). by apply I1.
  - intros d a [Hd|Hd]%elem_of_app Ha; [|by apply A2]. rewrite (proj2 (Hkeep d _ Hd (Hali d a Ha))). by apply (A1 d).
  - intros x. rewrite fmap_app, concat_app. intros [Hx1 Hx2]%not_elem_of_app.
    destruct (X2 x Hx2) as [-> ->]. by apply X1.
  - intros d [Hd|Hd]%elem_of_app; [|by apply S2]. rewrite (proj2 (Hkeep d _ Hd (Hsym d))). by apply S1.
  - intros d a [Hd|Hd]%elem_of_app Ha; [|by eapply F2]. rewrite (proj1 (Hkeep d _ Hd (Hali d a Ha))). by apply (F1 d).
Qed.

Lemma add_all_managed l : ∀ b,
  (∀ d, d ∈ l → definition_ok d) → NoDup (concat (names <$> l)) →
  (∀ x, x ∈ concat (names <$> l) → taken b x = false) →
  ∃ b', fold_result add_instrument b (to_instrument_spec <$> l) = Ok b' ∧ registered b b' l.
Proof.
  induction l as [|d l IH]; intros b Hok Hnd Hfree; cbn [fmap list_fmap fold_result].
  { exists b. split; [done|]. split; [by rewrite app_nil_r|by intros d ?%elem_of_nil|by intros d a ?%elem_of_nil|done
      |by intros d ?%elem_of_nil|by intros d a ?%elem_of_nil]. }
  cbn [fmap list_fmap concat] in Hnd, Hfree. pose proof Hnd as (Hn & Hapart & Hl)%NoDup_app.
  destruct (add_managed b d) as (b1 & E1 & R1); [apply Hok; by left|done|intros x Hx; apply Hfree, elem_of_app; by left|].
  destruct (IH b1) as (b2 & E2 & R2); [intros d' Hd'; apply Hok; by right|done| |].
  - intros x Hx. apply taken_iff. assert (x ∉ concat (names <$> [d])) as Hx'.
    { cbn. rewrite app_nil_r. intros Hin. by apply (Hapart x). }
    destruct (rd_others _ _ _ R1 x Hx') as [-> ->]. apply taken_iff, Hfree, elem_of_app. by right.
  - exists b2. rewrite E1. cbn [mbind result_bind]. split; [exact E2|].
    apply (registered_trans b b1 b2 [d]); [|done..]. cbn. by rewrite app_nil_r.
Qed.

Lemma names_filter f l : NoDup (concat (names <$> l)) → NoDup (concat (names <$> List.filter f l)).
Proof.
  induction l as [|d l IH]; [done|]. cbn [fmap list_fmap concat List.filter].
  intros (Hd & Hapart & Hl)%NoDup_app. destruct (f d); [|by apply IH].
  cbn [fmap list_fmap concat]. apply NoDup_app. split_and!; [done| |by apply IH].
  intros x Hx (d' & [Hd' _]%elem_of_filter_bool & Hx')%elem_of_names.
  apply (Hapart x Hx), elem_of_names. by exists d'.
Qed.

Lemma registered_lookup b0 b l d x :
  registered b0 b l → d ∈ l → x ∈ names d →
  bd_instruments b !! default x (bd_aliases b !! x) = Some (to_instrument_spec d).
Proof.
  intros [_ I A _ S _] Hd [->|Hx]%elem_of_cons; [rewrite (S d Hd)|rewrite (A d x Hd Hx)]; by apply I.
Qed.

(** A registry that was filled from nothing with a list of definitions. *)
Definition filled (b : building) (l : list ManagedInstrumentDefinition) : Prop :=
  ∃ b0, bd_instruments b0 = ∅ ∧ bd_aliases b0 = ∅ ∧ registered b0 b l.

Lemma registered_missing b l x :
  filled b l → x ∉ concat (names <$> l) → bd_instruments b !! default x (bd_aliases b !! x) = None.
Proof.
  intros (b0 & Ei & Ea & [_ _ _ X _ _]) Hx. destruct (X x Hx) as [E1 E2]. rewrite Ei, lookup_empty in E1.
  rewrite Ea, lookup_empty in E2. rewrite E2. exact E1.
Qed.

Lemma registry_names rg b l : filled b l → rg_instruments rg = bd_instruments b → rg_aliases rg = bd_aliases b →
  ∀ v i, resolve rg v = Some i ↔ ∃ d, d ∈ l ∧ normalize_symbol v ∈ names d ∧ i = to_instrument_spec d.
Proof.
  intros R Ei Ea v i. unfold resolve. cbv zeta. rewrite Ei, Ea. pose proof R as (b0 & _ & _ & Rb).
  destruct (decide (normalize_symbol v ∈ concat (names <$> l))) as [Hx|Hx].
  - apply elem_of_names in Hx as (d & Hd & Hx).
    rewrite (registered_lookup _ _ _ d _ Rb Hd Hx). split; [intros [= <-]; by exists d|].
    intros (d' & Hd' & Hx' & ->). rewrite <- (registered_lookup _ _ _ d _ Rb Hd Hx).
    by apply (registered_lookup _ _ _ d' _ Rb).
  - rewrite (registered_missing _ _ _ R Hx). split; [done|]. intros (d & Hd & Hin & _). exfalso.
    apply Hx, elem_of_names. by exists d.
Qed.

(** ** Round trips *)

Lemma field_bind {A B} (f : json → result A) key items j a (k : A → result B) r :
  json_lookup key items = Some j → f j = Ok a → k a = r → (x ← field f key items; k x) = r.
Proof. unfold field. by intros -> ->. Qed.

Lemma field_or_bind {A B} value (f : json → result A) key items j a (k : A → result B) r :
  json_lookup key items = Some j → f j = Ok a → k a = r → (x ← field_or value f key items; k x) = r.
Proof. unfold field_or. by intros -> ->. Qed.

Lemma json_model_ok {A} fields (f : list (string * json) → result A) items :
  forallb (λ kv : string * json, existsb (String.eqb kv.1) fields) items = true →
  json_model fields f (JObject items) = f items.
Proof. unfold json_model. by intros ->. Qed.

Lemma json_seconds_ok v : json_seconds (seconds_json v) = Ok v.
Proof.
  unfold json_seconds, seconds_json. cbn [json_ratio mbind result_bind]. f_equal.
  assert (Qred (Qred (v # 1000000)) * inject_Z 1000000 == inject_Z v)%Q as ->; [|apply Qfloor_Z].
  rewrite !Qred_correct. unfold Qeq, Qmult, inject_Z. cbn. lia.
Qed.

Lemma json_array_ok {A} (f : json → result A) (g : A → json) l :
  (∀ x, x ∈ l → f (g x) = Ok x) → json_array f (JArray (g <$> l)) = Ok l.
Proof.
  cbn. induction l as [|x l IH]; intros Hl; [done|]. cbn [fmap list_fmap map_result].
  rewrite Hl by by left. cbn [mbind result_bind]. fold (fmap (M := list) g l).
  rewrite IH by (intros; apply Hl; by right). done.
Qed.

Lemma json_nullable_ok {A} (f : json → result A) (g : A → json) o :
  (∀ a, o = Some a → f (g a) = Ok a ∧ g a ≠ JNull) → json_nullable f (option_json g o) = Ok o.
Proof.
  destruct o as [a|]; intros Ho; [|done]. destruct (Ho a eq_refl) as [Hf Hn].
  cbn [option_json]. unfold json_nullable. destruct (g a); [done|by rewrite Hf..].
Qed.

Lemma yield_strategy_json s : json_enum YieldStrategy_value all_yield_strategies (JString (YieldStrategy_value s)) = Ok s.
Proof. by destruct s. Qed.

Lemma accrual_json m : json_enum RewardAccrualMode_value all_accrual_modes (JString (RewardAccrualMode_value m)) = Ok m.
Proof. by destruct m. Qed.

Lemma capability_json c : json_enum capability_value all_capabilities (JString (capability_value c)) = Ok c.
Proof. by destruct c. Qed.

Lemma operation_json o : json_enum operation_value [INVERSE; MULTIPLY; DIVIDE] (JString (operation_value o)) = Ok o.
Proof. by destruct o. Qed.

Lemma asset_class_json c : json_enum AssetClass_value [CRYPTO; EQUITY; BOND; FX] (JString (AssetClass_value c)) = Ok c.
Proof. by destruct c. Qed.

Lemma ownership_json o :
  json_enum InstrumentOwnership_value [BUILTIN; CUSTOM] (JString (InstrumentOwnership_value o)) = Ok o.
Proof. by destruct o. Qed.

Lemma calendar_json c :
  json_enum MarketCalendar_value [ALWAYS_OPEN; US_EQUITY; FX_24X5] (JString (MarketCalendar_value c)) = Ok c.
Proof. by destruct c. Qed.

(** Read the next field of a document that was written by the models. *)
Ltac read_field :=
  lazymatch goal with
  | |- (field _ _ _ ≫= _) = _ => eapply field_bind
  | |- (field_or _ _ _ _ ≫= _) = _ => eapply field_or_bind
  end; [reflexivity| |].

Lemma binding_read b : ProviderSymbolBinding_init b = Ok b → binding_of_json (binding_json b) = Ok b.
Proof. intros Hb. destruct b. exact Hb. Qed.

Lemma route_read r : CapabilityRoute_init r = Ok r → route_of_json (route_json r) = Ok r.
Proof.
  intros Hr. unfold route_of_json, route_json. rewrite json_model_ok by reflexivity.
  read_field; [apply capability_json|]. read_field; [by apply json_array_ok|]. destruct r. exact Hr.
Qed.

Lemma history_read h : HistoryCollectionPolicy_init h = Ok h → history_of_json (history_json h) = Ok h.
Proof.
  intros Hh. unfold history_of_json, history_json. rewrite json_model_ok by reflexivity.
  read_field; [done|]. read_field; [apply json_nullable_ok; intros; split; [apply json_seconds_ok|done]|].
  read_field; [by apply json_nullable_ok|]. destruct h. exact Hh.
Qed.

Lemma json_ratio_ok q : Qred q = q → json_ratio (JFloat (Some q)) = Ok q.
Proof. cbn. by intros ->. Qed.

Lemma income_read p : IncomePolicy_init p = Ok p → (∀ q, in_expense_ratio_percent p = Some q → Qred q = q) →
  income_of_json (income_json p) = Ok p.
Proof.
  intros Hp Hq. unfold income_of_json, income_json. rewrite json_model_ok by reflexivity.
  read_field; [apply json_nullable_ok; intros; split; [apply yield_strategy_json|done]|].
  read_field; [by apply json_nullable_ok|].
  read_field; [apply json_nullable_ok; intros; split; [apply accrual_json|done]|].
  do 2 (read_field; [by apply json_nullable_ok|]).
  read_field; [apply json_nullable_ok; intros; split; [apply json_ratio_ok; auto|done]|].
  read_field; [by apply json_nullable_ok|]. destruct p. exact Hp.
Qed.

Lemma recipe_read r : SyntheticRecipeDefinition_init r = Ok r → recipe_of_json (recipe_json r) = Ok r.
Proof.
  intros Hr. unfold recipe_of_json, recipe_json. rewrite json_model_ok by reflexivity.
  read_field; [apply operation_json|]. read_field; [by apply json_array_ok|].
  read_field; [apply json_seconds_ok|].
  read_field; [apply json_array_ok; intros; apply json_nullable_ok; intros; split; [apply json_seconds_ok|done]|].
  destruct r. exact Hr.
Qed.

Lemma definition_read d : definition_ok d → definition_of_json (definition_json d) = Ok d.
Proof.
  intros [Hd Hh Hr Hb Hi Hs Hq]. unfold definition_of_json, definition_json, definition_items.
  rewrite json_model_ok by reflexivity. do 6 (read_field; [reflexivity|]).
  read_field; [apply asset_class_json|]. do 3 (read_field; [reflexivity|]).
  read_field; [apply ownership_json|]. do 2 (read_field; [reflexivity|]).
  read_field; [by apply json_array_ok|]. read_field; [apply calendar_json|].
  do 2 (read_field; [apply json_seconds_ok|]). read_field; [by apply history_read|].
  read_field; [apply json_array_ok; intros; by apply route_read, Hr|].
  read_field; [apply json_array_ok; intros; by apply binding_read, Hb|].
  read_field; [apply json_nullable_ok; intros; split; [by apply income_read; eauto|done]|].
  read_field; [apply json_nullable_ok; intros; split; [by apply recipe_read, Hs|done]|].
  destruct d. exact Hd.
Qed.

(** The documents that the models write have no NaN. *)
Lemma forallb_fmap_true {A} (f : A → json) l : (∀ x, json_finite (f x) = true) → forallb json_finite (f <$> l) = true.
Proof. intros Hf. induction l; [done|]. cbn. by rewrite Hf. Qed.

Lemma option_json_finite {A} (f : A → json) o : (∀ x, json_finite (f x) = true) → json_finite (option_json f o) = true.
Proof. intros Hf. by destruct o; cbn. Qed.

Lemma history_finite h : json_finite (history_json h) = true.
Proof. unfold history_json. cbn [json_finite forallb snd]. by rewrite !option_json_finite. Qed.

Lemma route_finite r : json_finite (route_json r) = true.
Proof. unfold route_json. cbn [json_finite forallb snd]. by rewrite forallb_fmap_true. Qed.

Lemma income_finite p : json_finite (income_json p) = true.
Proof. unfold income_json. cbn [json_finite forallb snd]. by rewrite !option_json_finite. Qed.

Lemma recipe_finite r : json_finite (recipe_json r) = true.
Proof.
  unfold recipe_json. cbn [json_finite forallb snd seconds_json].
  rewrite !forallb_fmap_true; [done|done|]. intros o. by apply option_json_finite.
Qed.

Lemma definition_finite d : json_finite (definition_json d) = true.
Proof.
  unfold definition_json, definition_items. cbn [json_finite forallb snd seconds_json].
  rewrite history_finite, !forallb_fmap_true by (done || apply route_finite).
  by rewrite (option_json_finite _ _ income_finite), (option_json_finite _ _ recipe_finite).
Qed.

(** A generation built by the constructors. *)
Definition generation_ok `{CatalogPrimitives} (g : CatalogGeneration) : Prop :=
  (∀ d, d ∈ cg_instruments g → definition_ok d) ∧ CatalogGeneration_init g = Ok g.

Definition document_ok `{CatalogPrimitives} (doc : ManagedCatalogDocument) : Prop :=
  generation_ok (cd_active doc) ∧ (∀ g, cd_staged doc = Some g → generation_ok g) ∧
  (∀ g, cd_last_known_good doc = Some g → generation_ok g).

Lemma generation_read `{CatalogPrimitives} g : generation_ok g → generation_of_json (generation_json g) = Ok g.
Proof.
  intros [Hd Hg]. unfold generation_of_json, generation_json. rewrite json_model_ok by reflexivity.
  read_field; [reflexivity|]. read_field; [apply json_array_ok; intros; by apply definition_read, Hd|].
  destruct g. exact Hg.
Qed.

Lemma generation_finite `{CatalogPrimitives} g : json_finite (generation_json g) = true.
Proof. unfold generation_json. cbn [json_finite forallb snd]. by rewrite forallb_fmap_true by apply definition_finite. Qed.

Lemma document_read `{CatalogPrimitives} doc : document_ok doc → document_of_json (document_json doc) = Ok doc.
Proof.
  intros (Ha & Hs & Hl). unfold document_of_json, document_json. rewrite json_model_ok by reflexivity.
  read_field; [reflexivity|]. read_field; [by apply generation_read|].
  do 2 (read_field; [apply json_nullable_ok; intros; split; [apply generation_read; auto|done]|]).
  by destruct doc.
Qed.

Lemma document_finite `{CatalogPrimitives} doc : json_finite (document_json doc) = true.
Proof.
  unfold document_json. cbn [json_finite forallb snd].
  by rewrite generation_finite, !option_json_finite by apply generation_finite.
Qed.

Lemma payload_ok {A} what (parse : json → result A) items a :
  json_finite (JObject items) = true → parse (JObject items) = Ok a → from_payload what parse (JObject items) = Ok a.
Proof. intros Hf Hp. unfold from_payload. by rewrite Hf, Hp. Qed.

Lemma definition_payload d : definition_ok d → definition_from_payload (definition_json d) = Ok d.
Proof. intros Hd. apply payload_ok; [apply definition_finite|by apply definition_read]. Qed.

Lemma document_payload `{CatalogPrimitives} doc : document_ok doc → document_from_payload (document_json doc) = Ok doc.
Proof. intros Hd. apply payload_ok; [apply document_finite|by apply document_read]. Qed.

(** ** Constructors return their argument *)

Lemma history_init_eq h h' : HistoryCollectionPolicy_init h = Ok h' → h' = h.
Proof. unfold HistoryCollectionPolicy_init. intros [_ [_ [= <-]]%require_bind]%require_bind. done. Qed.

Lemma income_init_eq p p' : IncomePolicy_init p = Ok p' → p' = p.
Proof.
  unfold IncomePolicy_init. cbv zeta. intros H. do 9 apply require_bind in H as [_ H]. by injection H as <-.
Qed.

Lemma definition_init_eq d d' : ManagedInstrumentDefinition_init d = Ok d' → d' = d.
Proof.
  unfold ManagedInstrumentDefinition_init. intros (? & _ & H)%result_bind_ok.
  apply result_bind_ok in H as (? & _ & H). by injection H as <-.
Qed.

Lemma generation_init_eq `{CatalogPrimitives} g g' : CatalogGeneration_init g = Ok g' → g' = g.
Proof.
  unfold CatalogGeneration_init. intros H1. do 3 apply require_bind in H1 as [_ H1].
  apply result_bind_ok in H1 as (? & _ & H1). by injection H1 as <-.
Qed.

(** An installed instrument becomes a definition and back without loss: the
    definition made from its specification, with any routes, vendor symbols and
    recipe that their own constructors accept, is complete and has that very
    specification. *)
Lemma from_instrument_spec_ok (i : InstrumentSpec) (instrument_id : string)
    (ownership : InstrumentOwnership) (enabled : bool) (routes : list CapabilityRoute)
    (bindings : list ProviderSymbolBinding) (synthetic : option SyntheticRecipeDefinition)
    (d : ManagedInstrumentDefinition)
    (Hroutes : ∀ r, r ∈ routes → CapabilityRoute_init r = Ok r)
    (Hbindings : ∀ b, b ∈ bindings → ProviderSymbolBinding_init b = Ok b)
    (Hsynthetic : ∀ r, synthetic = Some r → SyntheticRecipeDefinition_init r = Ok r)
    (Hd : from_instrument_spec i instrument_id ownership enabled routes bindings synthetic = Ok d) :
  to_instrument_spec d = i ∧ definition_ok d ∧ md_archived d = false ∧
  md_id d = instrument_id ∧ md_ownership d = ownership ∧ md_enabled d = enabled.
Proof.
  unfold from_instrument_spec in Hd. apply result_bind_ok in Hd as (income & Hi & Hd).
  apply result_bind_ok in Hd as (h & Hh & Hd). pose proof (definition_init_eq _ _ Hd) as Ed.
  pose proof (history_init_eq _ _ Hh) as Eh.
  assert (income = income_of_spec i ∧ ∀ p, income = Some p → IncomePolicy_init p = Ok p) as [Ei Hp].
  { destruct (income_of_spec i) as [p|]; [|by injection Hi as <-].
    destruct (IncomePolicy_init p) as [p'|] eqn:E; [|done]. injection Hi as <-.
    apply income_init_eq in E as E'. subst p'. split; [done|]. by intros q [= <-]. }
  subst d h. split_and!; [|split; cbn; try done|done..].
  - destruct i. unfold to_instrument_spec, income_yield, income_accrual, income_underlying. cbn. rewrite Ei.
    unfold income_of_spec. cbn. case_decide as Hn; [destruct Hn as (-> & -> & -> & ->)|]; by cbn.
  - intros p q Hq. rewrite Ei in Hq. unfold income_of_spec in Hq. case_decide; [done|]. injection Hq as <-. cbn.
    case_bool_decide; [|done]. by intros [= <-].
Qed.

(** ** Properties *)

(** C31: a generation is accepted exactly when it is well formed: its revision is the
    digest of its content, it has an instrument and at most 2000 custom ones, no
    identity, symbol or alias occurs twice, every input of an active synthetic
    instrument is active, and no chain of synthetic instruments is longer than
    four; in particular none is a cycle. *)
Theorem generation_accepted_iff `{CatalogPrimitives} (g : CatalogGeneration)
    (Hdefs : ∀ d, d ∈ cg_instruments g → definition_ok d) :
  (CatalogGeneration_init g = Ok g ↔
     (str_all revision_char (cg_revision g) = true ∧ String.length (cg_revision g) = 64%nat) ∧
     cg_instruments g ≠ [] ∧ cg_revision g = catalog_revision (cg_instruments g) ∧
     well_formed (cg_instruments g)) ∧
  (CatalogGeneration_init g = Ok g → ∀ x, ¬ tc (reads (cg_instruments g)) x x).
Proof.
  assert (CatalogGeneration_init g = Ok g ↔
     (str_all revision_char (cg_revision g) = true ∧ String.length (cg_revision g) = 64%nat) ∧
     cg_instruments g ≠ [] ∧ cg_revision g = catalog_revision (cg_instruments g) ∧
     well_formed (cg_instruments g)) as Hiff.
  { unfold CatalogGeneration_init. rewrite !require_bind, andb_true_iff, negb_true_iff, bool_decide_eq_false,
      !bool_decide_eq_true, <- validate_instruments_iff by done.
    destruct (validate_instruments (cg_instruments g)) as [[]|e]; cbn.
    - naive_solver.
    - naive_solver. }
  split; [exact Hiff|]. intros (_ & _ & _ & Hwf)%Hiff x Hx.
  destruct (tc_walks _ x (S MAX_SYNTHETIC_DEPTH) Hx) as [y Hy]. by apply (wf_depth _ Hwf x y).
Qed.

(** Every accepted generation has a registry: its symbols are those of the active
    instruments in their order, and a spelling resolves to the specification of
    the one active instrument that has it as its symbol or an alias, or to
    nothing. *)
Theorem managed_registry_total `{CatalogPrimitives} (g : CatalogGeneration)
    (Hdefs : ∀ d, d ∈ cg_instruments g → definition_ok d) (Hg : CatalogGeneration_init g = Ok g) :
  ∃ rg, to_registry g = Ok rg ∧ symbols rg = active_symbols (cg_instruments g) ∧
  ∀ v i, resolve rg v = Some i ↔
    ∃ d, d ∈ cg_instruments g ∧ active d = true ∧ normalize_symbol v ∈ names d ∧ i = to_instrument_spec d.
Proof.
  unfold CatalogGeneration_init in Hg. do 3 apply require_bind in Hg as [_ Hg].
  apply result_bind_ok in Hg as ([] & Hwf & _). apply validate_instruments_iff in Hwf as [_ Hnames _ _ _]; [|done].
  destruct (add_all_managed (List.filter active (cg_instruments g))
    {| bd_order := []; bd_instruments := ∅; bd_aliases := ∅; bd_plugin_ids := ["managed-catalog"] |})
    as (b & Hb & Hreg).
  - by intros d [Hd _]%elem_of_filter_bool; apply Hdefs.
  - by apply names_filter.
  - intros x _. apply taken_iff. split; apply lookup_empty.
  - eexists. split.
    + unfold to_registry, build_registry. cbn [fold_result mbind result_bind].
      assert (add_plugin {| bd_order := []; bd_instruments := ∅; bd_aliases := ∅; bd_plugin_ids := [] |}
                (managed_plugin g) = Ok b) as ->.
      { unfold add_plugin. cbn [managed_plugin ip_plugin_id ip_version ip_instruments ip_has_installer
          ip_provider_bindings ip_synthetic_recipes]. rewrite !check_false; [exact Hb|..]; try (by vm_compute).
        by rewrite andb_false_r. }
      reflexivity.
    + cbn [symbols rg_order]. split; [by rewrite (rd_order _ _ _ Hreg)|].
      intros v i. rewrite (registry_names _ b (List.filter active (cg_instruments g))); [|by eexists; split_and!; [..|done]|done..].
      setoid_rewrite elem_of_filter_bool. naive_solver.
Qed.

(** A catalogue document survives being written and read: what the administrator's
    interface, the file and an export carry is the document itself, every
    generation with its revision, and every definition in it. *)
Theorem catalogue_round_trip `{CatalogPrimitives} (doc : ManagedCatalogDocument) (Hdoc : document_ok doc) :
  document_from_payload (document_json doc) = Ok doc ∧
  generation_from_payload (generation_json (cd_active doc)) = Ok (cd_active doc) ∧
  ∀ d, d ∈ cg_instruments (cd_active doc) → definition_from_payload (definition_json d) = Ok d.
Proof.
  pose proof Hdoc as ([Hd Hg] & _). split_and!; [by apply document_payload| |].
  - apply payload_ok; [apply generation_finite|by apply generation_read].
  - intros d Hin. by apply definition_payload, Hd.
Qed.

(** ** Examples *)

(** A digest of 64 digits, the last of which counts the characters, and a text
    that tells apart the keys of an object. *)
Definition demo_digest (s : string) : string :=
  String.concat "" (replicate 63 "0") +:+ String (hex_digit (Z.of_nat (String.length s) mod 16)) "".

Definition demo_text (j : json) : string :=
  match j with JObject [(key, JArray l)] => key +:+ String.concat "" ((λ _, ",") <$> l) | _ => "" end.

Definition demo_catalog : CatalogPrimitives := {| cp_dumps := demo_text; cp_sha256 := demo_digest |}.

Definition demo_definition (id base quote : string) (ownership : InstrumentOwnership) (aliases : list string)
    (synthetic : option SyntheticRecipeDefinition) : ManagedInstrumentDefinition :=
  {| md_id := id; md_symbol := base +:+ ":" +:+ quote; md_base := base; md_quote := quote; md_name := base;
     md_description := base +:+ " in " +:+ quote; md_asset_class := CRYPTO; md_asset_type := "crypto_asset";
     md_price_basis := "spot_market"; md_change_basis := "unadjusted_market_price"; md_ownership := ownership;
     md_enabled := true; md_archived := false; md_aliases := aliases; md_market_calendar := ALWAYS_OPEN;
     md_quote_poll_seconds := 250000; md_stale_after_seconds := seconds 10; md_history := default_history;
     md_routes := [{| cr_capability := QUOTE; cr_providers := ["binance"; "kraken"] |}];
     md_provider_symbols := [{| psb_provider := "binance"; psb_symbol := base +:+ quote |}];
     md_income := None; md_synthetic := synthetic |}.

Definition demo_definitions : list ManagedInstrumentDefinition :=
  [demo_definition "builtin-btc-usdc" "BTC" "USDC" BUILTIN ["XBT:USDC"] None;
   demo_definition "custom-usdc-btc" "USDC" "BTC" CUSTOM []
     (Some {| syn_operation := INVERSE; syn_inputs := ["BTC:USDC"]; syn_max_skew_seconds := seconds 5;
              syn_input_max_age_seconds := [Some (seconds 60)] |})].

Definition demo_generation : CatalogGeneration :=
  {| cg_revision := @catalog_revision demo_catalog demo_definitions; cg_instruments := demo_definitions |}.

Lemma demo_definitions_ok d : d ∈ demo_definitions → definition_ok d.
Proof.
  unfold demo_definitions. rewrite !elem_of_cons, elem_of_nil.
  intros [->|[->|[]]]; split; cbn; try done; intros x; rewrite ?list_elem_of_singleton.
  all: first [by intros ->|by intros [= <-]].
Qed.

Lemma demo_generation_accepted : @CatalogGeneration_init demo_catalog demo_generation = Ok demo_generation.
Proof. by vm_compute. Qed.

Definition demo_document : ManagedCatalogDocument :=
  {| cd_active := demo_generation; cd_staged := Some demo_generation; cd_last_known_good := None |}.

Lemma generation_accepted_iff_witness :
  @CatalogGeneration_init demo_catalog demo_generation = Ok demo_generation ∧
  reads demo_definitions "USDC:BTC" "BTC:USDC" ∧ ¬ tc (reads demo_definitions) "BTC:USDC" "BTC:USDC".
Proof.
  split_and!; [apply demo_generation_accepted| |].
  - unfold reads. do 2 eexists. split; [right; left|]. split_and!; [done..|]. by left.
  - apply (@generation_accepted_iff demo_catalog demo_generation demo_definitions_ok), demo_generation_accepted.
Defined.

Lemma managed_registry_total_witness :
  ∃ rg, to_registry demo_generation = Ok rg ∧ symbols rg = ["BTC:USDC"; "USDC:BTC"] ∧
  resolve rg "xbt/usdc" = to_instrument_spec <$> head demo_definitions.
Proof.
  destruct (@managed_registry_total demo_catalog demo_generation demo_definitions_ok demo_generation_accepted)
    as (rg & Hrg & Hs & Hr).
  exists rg. split_and!; [done|by rewrite Hs|]. apply Hr. eexists. split; [left|]. split_and!; [done| |done]. right. by left.
Defined.

Lemma catalogue_round_trip_witness :
  @document_from_payload demo_catalog (document_json demo_document) = Ok demo_document.
Proof.
  apply (@catalogue_round_trip demo_catalog demo_document).
  assert (@generation_ok demo_catalog demo_generation) by (split; [apply demo_definitions_ok|apply demo_generation_accepted]).
  split_and!; [done| |done]. by intros g [= <-].
Defined.
