(* ===== verification/CatalogDocument.v ===== *)
(** * Catalogue documents ([managed_config.py])

    The pure part of the managed store: the catalogue made from the installed
    registry, the older formats of the file, the reconciliation of a stored
    generation with the installed one, and the registry of a stored document.
    [json.loads], [float] of a text and [str] of a value that is no text are
    parameters, beside those of the catalogue. *)

From S2P Require Import Prelude PyStr PyTime Domain PluginApi Registry Wire Json Analytics Policy Builtin.
From S2P Require Import AdminAccount.
From S2P Require Import Catalog.
From Stdlib Require Import Ascii QArith Qround.

Local Open Scope string_scope.
Local Open Scope list_scope.
Local Open Scope Z_scope.

Definition ManagedConfigurationError (msg : string) : exn := NamedError "ManagedConfigurationError" msg.
Definition RevisionConflictError (msg : string) : exn := NamedError "RevisionConflictError" msg.

(** The text of a [ValueError] or of a class under it. *)
Definition value_error (e : exn) : option string :=
  match e with
  | ValueError msg => Some msg
  | NamedError cls msg => if decide (cls ∈ ["ValidationError"; "CatalogValidationError"]) then Some msg else None
  | _ => None
  end.

(** [except ValueError as exc: raise E(str(exc))] *)
Definition reraise_value_error {A} (E : string → exn) (m : result A) : result A :=
  match m with
  | Raise e => match value_error e with Some msg => Raise (E msg) | None => Raise e end
  | Ok a => Ok a
  end.

(** ** Dictionaries *)

(** [items[key] = value] *)
Fixpoint dict_set {A} (key : string) (value : A) (items : list (string * A)) : list (string * A) :=
  match items with
  | [] => [(key, value)]
  | (k, v) :: items' => if decide (k = key) then (key, value) :: items' else (k, v) :: dict_set key value items'
  end.

(** [items.update(updates)] *)
Definition dict_update {A} (items updates : list (string * A)) : list (string * A) :=
  foldl (λ acc (kv : string * A), dict_set kv.1 kv.2 acc) items updates.

(** [set(items) - allowed] is empty. *)
Definition only_keys {A} (allowed : list string) (items : list (string * A)) : bool :=
  forallb (λ kv : string * A, existsb (String.eqb kv.1) allowed) items.

Definition is_null (j : json) : bool := match j with JNull => true | _ => false end.
Definition is_text (s : string) (j : json) : bool := match j with JString t => String.eqb t s | _ => false end.

(** [value == n] for [n] other than zero and one. *)
Definition json_is (n : Z) (j : json) : bool :=
  match j with
  | JInt m => bool_decide (m = n)
  | JFloat (Some q) => Qeq_bool q (inject_Z n)
  | _ => false
  end.

Class ManagedPrimitives := {
  mp_catalog :: CatalogPrimitives;
  mp_loads : string → option json;  (* [json.loads] *)
  mp_float : string → option (option Q);  (* [float] of a text: a number, or a NaN or infinity *)
  mp_str : json → string;  (* [str] of a value that is no text *)
}.

(** ** The installed catalogue *)

(** [builtin_provider_policy] with the bindings in the order of their keys. *)
Definition builtin_routes (symbol : string) : capability_routes :=
  default [] (assoc_get (normalize_symbol symbol) BUILTIN_PROVIDER_ROUTES).

Definition builtin_bindings (symbol : string) : list (string * string) :=
  let canonical := upper (strip (normalize_symbol symbol)) in
  let bindings :=
    foldl (λ m (pt : string * mapping string),
             match assoc_get canonical pt.2 with Some vendor => dict_set pt.1 vendor m | None => m end)
          [] vendor_tables in
  match assoc_get canonical BUILTIN_FRED_POLICIES with
  | Some fred => dict_set "fred" (fr_series fred) bindings
  | None => bindings
  end.

(** [routes_by_symbol] *)
Abbreviation installed_routes := (gmap (string * string) (list string)).

Definition add_installed_route (routes : installed_routes) (b : ProviderBinding) : installed_routes :=
  let key := (normalize_symbol (pb_symbol b), capability_value (pb_capability b)) in
  <[key := dedup (default [] (routes !! key) ++ ((λ name, lower (strip name)) <$> pb_providers b))]> routes.

Definition routes_by_symbol (rg : Registry) : installed_routes :=
  foldl add_installed_route ∅ (concat (ip_provider_bindings <$> rg_plugins rg)).

(** [route_map.get(capability)] *)
Definition route_of (routes : installed_routes) (symbol : string) (c : Capability) : option (list string) :=
  match routes !! (symbol, capability_value c) with
  | Some providers => Some providers
  | None => snd <$> find (λ e : Capability * list string, bool_decide (e.1 = c)) (builtin_routes symbol)
  end.

Definition route_definitions (routes : installed_routes) (symbol : string) : result (list CapabilityRoute) :=
  map_result CapabilityRoute_init
    (omap (λ c, (λ providers, {| cr_capability := c; cr_providers := providers |}) <$> route_of routes symbol c)
       all_capabilities).

Abbreviation interval_overrides := (gmap string (Z * Z)).

(** [replace(item, **overrides)] *)
Definition with_intervals (i : InstrumentSpec) (intervals : option (Z * Z)) : InstrumentSpec :=
  match intervals with
  | None => i
  | Some (poll, stale) =>
    {| is_symbol := is_symbol i; is_base := is_base i; is_quote := is_quote i; is_name := is_name i;
       is_description := is_description i; is_asset_class := is_asset_class i;
       is_asset_type := is_asset_type i; is_price_basis := is_price_basis i;
       is_change_basis := is_change_basis i; is_yield_strategy := is_yield_strategy i;
       is_dividend_strategy := is_dividend_strategy i;
       is_reward_accrual_mode := is_reward_accrual_mode i; is_underlying_asset := is_underlying_asset i;
       is_aliases := is_aliases i; is_market_calendar := is_market_calendar i;
       is_stale_after_seconds := stale; is_quote_poll_seconds := poll;
       is_history_enabled := is_history_enabled i; is_history_poll_seconds := is_history_poll_seconds i |}
  end.

Definition installed_definition (routes : installed_routes) (disabled : list string)
    (overrides : interval_overrides) (i : InstrumentSpec) : result ManagedInstrumentDefinition :=
  chains ← route_definitions routes (is_symbol i);
  id ← builtin_instrument_id (is_symbol i);
  bindings ← map_result (λ kv : string * string,
                ProviderSymbolBinding_init {| psb_provider := kv.1; psb_symbol := kv.2 |})
              (builtin_bindings (is_symbol i));
  from_instrument_spec (with_intervals i (overrides !! is_symbol i)) id BUILTIN
    (negb (bool_decide (is_symbol i ∈ disabled))) chains bindings None.

(** The instruments of the registry, in the order of their symbols. *)
Definition installed_instruments (rg : Registry) : list InstrumentSpec :=
  omap (λ s, rg_instruments rg !! s) (rg_order rg).

Section documents.
Context `{ManagedPrimitives}.

(** [_catalog_generation_from_registry] *)
Definition catalog_generation_from_registry (rg : Registry) (disabled : list string)
    (overrides : interval_overrides) : result CatalogGeneration :=
  definitions ← map_result (installed_definition (routes_by_symbol rg) disabled overrides)
                  (installed_instruments rg);
  build definitions.

(** ** The first format of the file *)

(** [str(value)] *)
Definition py_text (j : json) : string := match j with JString s => s | _ => mp_str j end.

(** [float(value)]; the result is none for a NaN and an infinity. *)
Definition py_float (j : json) : result (option Q) :=
  match j with
  | JBool b => Ok (Some (if b then 1%Q else 0%Q))
  | JInt n => if decide (2 ^ 1024 - 2 ^ 970 ≤ Z.abs n) then Raise (OverflowError "int too large to convert to float")
              else Ok (Some (inject_Z n))
  | JFloat value => Ok value
  | JString s => match mp_float s with
                 | Some value => Ok value
                 | None => Raise (ValueError "could not convert string to float")
                 end
  | _ => Raise (TypeError "float() argument must be a string or a real number")
  end.

Definition is_flag (j : json) : bool := match j with JBool _ => true | _ => false end.

Definition in_range (low high : Q) (q : Q) : bool := Qle_bool low q && Qle_bool q high.

Definition micros (q : Q) : Z := Qfloor (q * inject_Z 1000000).

Definition unknown_symbol : exn :=
  ManagedConfigurationError "instrument policy contains an unknown or duplicate symbol".

Definition normalized_disabled (rg : Registry) (item : json) : result string :=
  match canonical_symbol rg (normalize_symbol (py_text item)) with
  | Some canonical => Ok canonical
  | None => Raise unknown_symbol
  end.

Definition override_fields : list string := ["quote_poll_seconds"; "stale_after_seconds"].

(** One turn of the loop over the overrides. *)
Definition add_override (rg : Registry) (overrides : interval_overrides) (entry : string * json)
    : result interval_overrides :=
  let invalid_override := ManagedConfigurationError "instrument policy contains an invalid override" in
  let bounds := ManagedConfigurationError "instrument policy interval is outside safe bounds" in
  match canonical_symbol rg (normalize_symbol entry.1), entry.2 with
  | Some symbol, JObject raw =>
    _ ← raise_if (bool_decide (is_Some (overrides !! symbol)) || negb (only_keys override_fields raw))
          invalid_override;
    item ← getitem rg symbol;
    let poll := default (seconds_json (is_quote_poll_seconds item)) (json_lookup "quote_poll_seconds" raw) in
    let stale := default (seconds_json (is_stale_after_seconds item)) (json_lookup "stale_after_seconds" raw) in
    _ ← raise_if (is_flag poll || is_flag stale)
          (ManagedConfigurationError "instrument policy intervals must be numeric");
    poll_value ← py_float poll;
    stale_value ← py_float stale;
    match poll_value, stale_value with
    | Some p, Some s =>
      _ ← raise_if (negb (in_range (1 # 4) 86400 p) || negb (in_range 1 604800 s) || negb (Qle_bool p s)) bounds;
      Ok (<[symbol := (micros p, micros s)]> overrides)
    | _, _ => Raise bounds
    end
  | _, _ => Raise invalid_override
  end.

Definition read_json (what : string) (content : string) : result json :=
  match mp_loads content with
  | Some j => Ok j
  | None => Raise (ManagedConfigurationError (what +:+ " is not valid JSON"))
  end.

(** [_parse_v1_instrument_policy]: the disabled symbols and the overrides. *)
Definition parse_v1_instrument_policy (content : string) (rg : Registry)
    : result (list string * interval_overrides) :=
  if negb (truthy content) then Ok ([], ∅)
  else
    value ← read_json "instrument policy" content;
    match value with
    | JObject items =>
      _ ← raise_if (negb (only_keys ["version"; "disabled_symbols"; "overrides"] items))
            (ManagedConfigurationError "instrument policy has unsupported fields");
      _ ← raise_if (negb (json_is_one (json_get "version" items)))
            (ManagedConfigurationError "unsupported instrument policy version");
      match default (JArray []) (json_lookup "disabled_symbols" items),
            default (JObject []) (json_lookup "overrides" items) with
      | JArray disabled, JObject overrides =>
        normalized ← map_result (normalized_disabled rg) disabled;
        _ ← raise_if (negb (bool_decide (NoDup normalized))) unknown_symbol;
        intervals ← fold_result (add_override rg) ∅ overrides;
        Ok (normalized, intervals)
      | _, _ => Raise (ManagedConfigurationError "invalid instrument policy structure")
      end
    | _ => Raise (ManagedConfigurationError "instrument policy has unsupported fields")
    end.

(** ** The second format *)

(** [_read_catalog_json] *)
Definition read_catalog_json (content : string) : result (list (string * json)) :=
  value ← read_json "instrument catalog" content;
  match value with
  | JObject items => Ok items
  | _ => Raise (ManagedConfigurationError "instrument catalog must be a JSON object")
  end.

(** The obsolete fallback of one instrument; the flag tells whether it was there. *)
Definition normalize_instrument (j : json) : json * bool :=
  match j with
  | JObject items =>
    if is_text "builtin" (json_get "ownership" items) &&
       contains "staking" (py_text (default (JString "") (json_lookup "asset_type" items)))
    then
      match json_lookup "income" items with
      | Some (JObject income) =>
        if negb (is_null (json_get "fallback_ratio_days" income)) &&
           negb (is_text "value_accruing" (json_get "reward_accrual_mode" income))
        then (JObject (dict_set "income" (JObject (dict_set "fallback_ratio_days" JNull income)) items), true)
        else (j, false)
      | _ => (j, false)
      end
    else (j, false)
  | _ => (j, false)
  end.

Definition normalize_generation (j : json) : json * bool :=
  match j with
  | JObject items =>
    match json_lookup "instruments" items with
    | Some (JArray instruments) =>
      let normalized := normalize_instrument <$> instruments in
      if existsb snd normalized then
        let instruments' := JArray normalized.*1 in
        (JObject (dict_set "revision" (JString (cp_sha256 (cp_dumps (JObject [("instruments", instruments')]))))
                    (dict_set "instruments" instruments' items)), true)
      else (j, false)
    | _ => (j, false)
    end
  | _ => (j, false)
  end.

(** One turn of the loop over the generations. *)
Definition normalize_entry (acc : list (string * json) * bool) (name : string) : list (string * json) * bool :=
  match json_lookup name acc.1 with
  | Some j => let n := normalize_generation j in
              if n.2 then (dict_set name n.1 acc.1, true) else acc
  | None => acc
  end.

(** [_normalize_legacy_v2_staking_fallbacks] *)
Definition normalize_legacy (value : list (string * json)) : list (string * json) * bool :=
  foldl normalize_entry (value, false) ["active"; "staged"; "last_known_good"].

(** ** Reconciliation *)

Definition BUILTIN_MUTABLE_FIELDS : list string :=
  ["enabled"; "quote_poll_seconds"; "stale_after_seconds"; "history"; "routes"].

Definition BUILTIN_ROUTE_DEFAULT_MIGRATIONS : list (string * Capability * list (list string)) :=
  [("BETH:USDC", QUOTE, [["synthetic_beth_primary"; "synthetic_beth_alternate"; "coingecko"]]);
   ("STETH:USDC", QUOTE, [["coingecko"]]);
   ("WSTETH:USDC", QUOTE, [["coingecko"]]);
   ("WBETH:USDC", YIELD, [["binance_wbeth_rate"; "ethereum_exchange_rate"; "staking_market_ratio_proxy"]])].

Definition BUILTIN_PROVIDER_NAME_MIGRATIONS : list (string * string) :=
  [("binance_wbeth_rate", "binance_staking_rate")].

Definition previous_defaults (symbol : string) (c : Capability) : list (list string) :=
  match find (λ e : string * Capability * list (list string), bool_decide (e.1 = (symbol, c)))
             BUILTIN_ROUTE_DEFAULT_MIGRATIONS with
  | Some e => e.2
  | None => []
  end.

Definition migrated_name (provider : string) : string :=
  default provider (assoc_get provider BUILTIN_PROVIDER_NAME_MIGRATIONS).

(** [_reconciled_builtin_routes]; a dictionary of a route is its record. *)
Definition reconciled_route (symbol : string) (baseline : list CapabilityRoute) (r : CapabilityRoute)
    : CapabilityRoute :=
  let renamed := {| cr_capability := cr_capability r; cr_providers := migrated_name <$> cr_providers r |} in
  if decide (cr_providers r ∈ previous_defaults symbol (cr_capability r)) then
    default renamed (last (List.filter (λ b, bool_decide (cr_capability b = cr_capability r)) baseline))
  else renamed.

Definition reconciled_builtin_routes (symbol : string) (persisted baseline : list CapabilityRoute)
    : list CapabilityRoute :=
  reconciled_route symbol baseline <$> persisted.

Definition reconciled_history (baseline persisted : HistoryCollectionPolicy) : HistoryCollectionPolicy :=
  {| hp_enabled := hp_enabled persisted;
     hp_poll_seconds := match hp_poll_seconds persisted with
                        | Some p => Some p
                        | None => hp_poll_seconds baseline
                        end;
     hp_backfill_days := hp_backfill_days persisted |}.

(** The payload the loop of [_reconcile_generation] builds for one item. *)
Definition reconciled_definition (expected item : ManagedInstrumentDefinition) : ManagedInstrumentDefinition :=
  {| md_id := md_id expected; md_symbol := md_symbol expected; md_base := md_base expected;
     md_quote := md_quote expected; md_name := md_name expected; md_description := md_description expected;
     md_asset_class := md_asset_class expected; md_asset_type := md_asset_type expected;
     md_price_basis := md_price_basis expected; md_change_basis := md_change_basis expected;
     md_ownership := md_ownership expected; md_enabled := md_enabled item; md_archived := false;
     md_aliases := md_aliases expected; md_market_calendar := md_market_calendar expected;
     md_quote_poll_seconds := md_quote_poll_seconds item;
     md_stale_after_seconds := md_stale_after_seconds item;
     md_history := reconciled_history (md_history expected) (md_history item);
     md_routes := if decide (md_routes item = []) then md_routes expected
                  else reconciled_builtin_routes (md_symbol item) (md_routes item) (md_routes expected);
     md_provider_symbols := md_provider_symbols expected; md_income := md_income expected;
     md_synthetic := md_synthetic expected |}.

Definition unknown_builtin (id : string) : exn :=
  ManagedConfigurationError ("managed catalog references an unknown built-in instrument: " +:+ id).

Definition reconcile_item (baseline : CatalogGeneration) (item : ManagedInstrumentDefinition)
    : result ManagedInstrumentDefinition :=
  if decide (md_ownership item = CUSTOM) then Ok item
  else
    match by_id baseline (md_id item) with
    | Some expected =>
      _ ← raise_if (bool_decide (md_symbol expected ≠ md_symbol item)) (unknown_builtin (md_id item));
      definition_from_payload (definition_json (reconciled_definition expected item))
    | None => Raise (unknown_builtin (md_id item))
    end.

Definition builtin_ids (l : list ManagedInstrumentDefinition) : list string :=
  md_id <$> List.filter (λ d, bool_decide (md_ownership d = BUILTIN)) l.

(** [_reconcile_generation] *)
Definition reconcile_generation (generation baseline : CatalogGeneration) : result CatalogGeneration :=
  reconciled ← map_result (reconcile_item baseline) (cg_instruments generation);
  let seen := builtin_ids (cg_instruments generation) in
  reraise_value_error ManagedConfigurationError
    (build (reconciled ++ List.filter (λ d, negb (bool_decide (md_id d ∈ seen))) (cg_instruments baseline))).

Definition reconcile_option (generation : option CatalogGeneration) (baseline : CatalogGeneration)
    : result (option CatalogGeneration) :=
  match generation with
  | None => Ok None
  | Some g => Some <$> reconcile_generation g baseline
  end.

(** [_reconcile_document] *)
Definition reconcile_document (document : ManagedCatalogDocument) (baseline : CatalogGeneration)
    : result ManagedCatalogDocument :=
  reraise_value_error ManagedConfigurationError
    (active ← reconcile_generation (cd_active document) baseline;
     staged ← reconcile_option (cd_staged document) baseline;
     last_known_good ← reconcile_option (cd_last_known_good document) baseline;
     Ok {| cd_active := active; cd_staged := staged; cd_last_known_good := last_known_good |}).

#[export] Instance ManagedCatalogDocument_eq_dec : EqDecision ManagedCatalogDocument.
Proof. solve_decision. Defined.

Definition only_active (g : CatalogGeneration) : ManagedCatalogDocument :=
  {| cd_active := g; cd_staged := None; cd_last_known_good := None |}.

(** [except CatalogValidationError as exc: raise ManagedConfigurationError(str(exc))] *)
Definition reading_catalog {A} (m : result A) : result A :=
  match m with
  | Raise (NamedError "CatalogValidationError" msg) => Raise (ManagedConfigurationError msg)
  | _ => m
  end.

(** [_load_catalog_document]: the document, and whether the file differs from it. *)
Definition load_catalog_document (content : string) (rg : Registry) : result (ManagedCatalogDocument * bool) :=
  baseline ← catalog_generation_from_registry rg [] ∅;
  if negb (truthy content) then Ok (only_active baseline, true)
  else
    value ← read_catalog_json content;
    let version := json_get "version" value in
    if json_is_one version then
      policy ← parse_v1_instrument_policy content rg;
      active ← catalog_generation_from_registry rg policy.1 policy.2;
      Ok (only_active active, true)
    else
      _ ← raise_if (negb (json_is CATALOG_SCHEMA_VERSION version))
            (ManagedConfigurationError "unsupported instrument catalog version");
      let '(value', normalized) := normalize_legacy value in
      parsed ← reading_catalog (document_from_payload (JObject value'));
      reconciled ← reconcile_document parsed baseline;
      Ok (reconciled, normalized || negb (bool_decide (reconciled = parsed))).

Definition MAX_CATALOG_FILE_BYTES : Z := 8 * 1024 * 1024.

Definition newline : string := String (ascii_of_N 10) "".

(** [_serialize_catalog_document] *)
Definition serialize_catalog_document (document : ManagedCatalogDocument) : result string :=
  let content := cp_dumps (document_json document) +:+ newline in
  _ ← raise_if (bool_decide (MAX_CATALOG_FILE_BYTES < size_of content))
        (CatalogValidationError "managed instrument catalog is too large");
  Ok content.

(** ** The policy of a document *)

Record instrument_policy := {
  po_disabled_symbols : list string;
  po_overrides : list (string * (Z * Z));
}.

(** [_parse_instrument_policy] *)
Definition parse_instrument_policy (content : string) (rg : Registry) : result instrument_policy :=
  loaded ← load_catalog_document content rg;
  let active := cd_active loaded.1 in
  let disabled := md_symbol <$> List.filter (λ d, bool_decide (md_ownership d = BUILTIN) && negb (md_enabled d))
                                  (cg_instruments active) in
  let missing := is_symbol <$> List.filter (λ i, negb (bool_decide (is_Some (by_symbol active (is_symbol i)))))
                                 (installed_instruments rg) in
  Ok {| po_disabled_symbols := sort_rows String.compare (disabled ++ missing);
        po_overrides :=
          omap (λ i, d ← by_symbol active (is_symbol i);
                     if decide (md_quote_poll_seconds d ≠ is_quote_poll_seconds i ∨
                                md_stale_after_seconds d ≠ is_stale_after_seconds i)
                     then Some (is_symbol i, (md_quote_poll_seconds d, md_stale_after_seconds d)) else None)
               (installed_instruments rg) |}.

Definition with_instruments (p : InstrumentPlugin) (l : list InstrumentSpec) : InstrumentPlugin :=
  {| ip_plugin_id := ip_plugin_id p; ip_version := ip_version p; ip_instruments := l;
     ip_has_installer := ip_has_installer p; ip_provider_bindings := ip_provider_bindings p;
     ip_synthetic_recipes := ip_synthetic_recipes p |}.

Definition active_definition (document : ManagedCatalogDocument) (symbol : string)
    : option ManagedInstrumentDefinition :=
  last (List.filter (λ d, active d && bool_decide (md_symbol d = symbol)) (cg_instruments (cd_active document))).

Definition managed_plugins (document : ManagedCatalogDocument) (rg : Registry) : list InstrumentPlugin :=
  let installed := (λ p, with_instruments p
                      (omap (λ i, to_instrument_spec <$> active_definition document (is_symbol i))
                         (ip_instruments p))) <$> rg_plugins rg in
  let custom := to_instrument_spec <$>
                  List.filter (λ d, negb (bool_decide (md_symbol d ∈ rg_order rg)) && active d)
                    (cg_instruments (cd_active document)) in
  if decide (custom = []) then installed
  else installed ++ [{| ip_plugin_id := "managed-custom"; ip_version := "2"; ip_instruments := custom;
                        ip_has_installer := true; ip_provider_bindings := []; ip_synthetic_recipes := [] |}].

(** [apply_instrument_policy], for the content that was read. *)
Definition apply_instrument_policy (rg : Registry) (content : string) : result Registry :=
  loaded ← load_catalog_document content rg;
  build_registry (managed_plugins loaded.1 rg).

End documents.
