(* ===== verification/CatalogStore.v ===== *)
(** * The managed catalogue store ([InstrumentPolicyStore] of [managed_config.py])

    The file of the catalogue, its revision, the lease of a running activation,
    and the operations of the administrator.  The lock of the store makes each
    method one atomic transition.  The file system is what the path holds and
    how the atomic write ended; identifiers that [uuid] draws are arguments. *)

From S2P Require Import Prelude PyStr PyState PyTime Domain PluginApi Registry Wire Json Analytics Policy.
From S2P Require Import AdminAccount.
From S2P Require Import Catalog CatalogDocument.
From Stdlib Require Import Ascii QArith.

Local Open Scope string_scope.
Local Open Scope list_scope.
Local Open Scope Z_scope.

(** ** The file *)

(** What the path holds, on a POSIX system: [trusted] when the owner is the
    process or root; a link [resolves] when its target exists. *)
Inductive catalog_path :=
| CatalogMissing
| CatalogLink (resolves trusted : bool) (mode : Z)
| CatalogOther (trusted : bool) (mode : Z)  (* neither a link nor a regular file *)
| CatalogFile (trusted : bool) (mode : Z) (content : string).

(** [path.exists()] *)
Definition path_exists (p : catalog_path) : bool :=
  match p with CatalogMissing => false | CatalogLink resolves _ _ => resolves | _ => true end.

(** [mode & 0o022] *)
Definition writable_by_others (mode : Z) : bool := bool_decide (Z.land mode 18 ≠ 0).

(** [_validate_integrity_permissions] *)
Definition validate_integrity_permissions (p : catalog_path) (parent_mode : Z) : result unit :=
  let check trusted mode :=
    _ ← raise_if (negb trusted) (ManagedConfigurationError "managed instrument catalog has an unsafe owner");
    _ ← raise_if (writable_by_others mode)
          (ManagedConfigurationError "managed instrument catalog is writable by another account");
    raise_if (writable_by_others parent_mode)
      (ManagedConfigurationError "managed instrument catalog directory is writable by another account") in
  if negb (path_exists p) then Ok tt
  else
    match p with
    | CatalogMissing => Ok tt
    | CatalogLink _ trusted mode | CatalogOther trusted mode | CatalogFile trusted mode _ => check trusted mode
    end.

(** [_read_bytes] *)
Definition read_bytes (p : catalog_path) (maximum : Z) : result string :=
  match p with
  | CatalogLink _ _ _ => Raise (ManagedConfigurationError "managed configuration path cannot be a symbolic link")
  | CatalogMissing => Ok ""
  | CatalogOther _ _ => Raise (ManagedConfigurationError "managed configuration path is not a regular file")
  | CatalogFile _ _ content =>
    _ ← raise_if (bool_decide (maximum < size_of content))
          (ManagedConfigurationError "managed configuration file is too large");
    Ok content
  end.

(** [_atomic_write] *)
Definition write_bytes (content : string) (outcome : write_outcome) (p : catalog_path)
    : catalog_path * result unit :=
  let written := CatalogFile true 384 content in
  match p, outcome with
  | CatalogLink _ _ _, _ =>
    (p, Raise (ManagedConfigurationError "managed configuration path cannot be a symbolic link"))
  | _, Written => (written, Ok tt)
  | _, WriteFailed replaced e => (if replaced then written else p, Raise e)
  end.

(** ** The store *)

Record InstrumentPolicyStore := {
  ps_path : catalog_path;
  ps_parent_mode : Z;
  ps_backup : catalog_path;
  ps_transition_id : option string;
  ps_migration_pending : bool;
  ps_startup_revision : string;
  ps_runtime_active_revision : string;
}.

Definition set_path (p : catalog_path) (s : InstrumentPolicyStore) : InstrumentPolicyStore :=
  {| ps_path := p; ps_parent_mode := ps_parent_mode s; ps_backup := ps_backup s;
     ps_transition_id := ps_transition_id s; ps_migration_pending := ps_migration_pending s;
     ps_startup_revision := ps_startup_revision s;
     ps_runtime_active_revision := ps_runtime_active_revision s |}.

Definition set_backup (p : catalog_path) (s : InstrumentPolicyStore) : InstrumentPolicyStore :=
  {| ps_path := ps_path s; ps_parent_mode := ps_parent_mode s; ps_backup := p;
     ps_transition_id := ps_transition_id s; ps_migration_pending := ps_migration_pending s;
     ps_startup_revision := ps_startup_revision s;
     ps_runtime_active_revision := ps_runtime_active_revision s |}.

Definition set_transition (id : option string) (s : InstrumentPolicyStore) : InstrumentPolicyStore :=
  {| ps_path := ps_path s; ps_parent_mode := ps_parent_mode s; ps_backup := ps_backup s;
     ps_transition_id := id; ps_migration_pending := ps_migration_pending s;
     ps_startup_revision := ps_startup_revision s;
     ps_runtime_active_revision := ps_runtime_active_revision s |}.

Definition set_pending (pending : bool) (s : InstrumentPolicyStore) : InstrumentPolicyStore :=
  {| ps_path := ps_path s; ps_parent_mode := ps_parent_mode s; ps_backup := ps_backup s;
     ps_transition_id := ps_transition_id s; ps_migration_pending := pending;
     ps_startup_revision := ps_startup_revision s;
     ps_runtime_active_revision := ps_runtime_active_revision s |}.

Definition set_revisions (startup active : string) (s : InstrumentPolicyStore) : InstrumentPolicyStore :=
  {| ps_path := ps_path s; ps_parent_mode := ps_parent_mode s; ps_backup := ps_backup s;
     ps_transition_id := ps_transition_id s; ps_migration_pending := ps_migration_pending s;
     ps_startup_revision := startup; ps_runtime_active_revision := active |}.

(** [_InstrumentCatalogTransitionToken] *)
Record TransitionToken := {
  tk_content : string;
  tk_revision : string;
  tk_lease_id : string;
}.

Definition in_progress : exn := RevisionConflictError "instrument catalog activation is in progress".

(** [hmac_compare_revision] *)
Definition hmac_compare_revision (current expected : string) : bool :=
  bool_decide (String.length expected = 64%nat) && bool_decide (current = expected).

Section store.
Context `{ManagedPrimitives}.
Context (catalog : Registry).

Definition revision (content : string) : string := cp_sha256 content.

Definition assert_content (content expected_revision : string) : result unit :=
  raise_if (negb (hmac_compare_revision (revision content) expected_revision))
    (RevisionConflictError "instrument catalog changed concurrently").

(** The calls on the path within a method. *)
Definition read_file : comp InstrumentPolicyStore string :=
  p ← gets ps_path; lift (read_bytes p MAX_CATALOG_FILE_BYTES).

Definition check_path : comp InstrumentPolicyStore unit :=
  p ← gets ps_path; mode ← gets ps_parent_mode; lift (validate_integrity_permissions p mode).

Definition write_file (content : string) (outcome : write_outcome) : comp InstrumentPolicyStore unit := λ s,
  let w := write_bytes content outcome (ps_path s) in (set_path w.1 s, w.2).

Definition write_backup (content : string) (outcome : write_outcome) : comp InstrumentPolicyStore unit := λ s,
  let w := write_bytes content outcome (ps_backup s) in (set_backup w.1 s, w.2).

(** [_read_locked] *)
Definition read_locked : comp InstrumentPolicyStore (string * ManagedCatalogDocument) :=
  _ ← check_path;
  content ← read_file;
  loaded ← lift (load_catalog_document content catalog);
  mret (content, loaded.1).

(** [_write_locked]; a token that is none of the store's is absent. *)
Definition write_locked (document : ManagedCatalogDocument) (token : option TransitionToken)
    (outcome : write_outcome) : comp InstrumentPolicyStore unit :=
  current ← gets ps_transition_id;
  _ ← lift (raise_if (match current with
                      | Some id => negb (bool_decide (tk_lease_id <$> token = Some id))
                      | None => false
                      end) in_progress);
  content ← lift (serialize_catalog_document document);
  write_file content outcome.

(** [__init__]; the migration that may follow is [persist_migration]. *)
Definition store_init (p : catalog_path) (parent_mode : Z) (backup : catalog_path)
    : result InstrumentPolicyStore :=
  _ ← validate_integrity_permissions p parent_mode;
  content ← read_bytes p MAX_CATALOG_FILE_BYTES;
  loaded ← load_catalog_document content catalog;
  Ok {| ps_path := p; ps_parent_mode := parent_mode; ps_backup := backup; ps_transition_id := None;
        ps_migration_pending := loaded.2; ps_startup_revision := revision content;
        ps_runtime_active_revision := cg_revision (cd_active loaded.1) |}.

(** [json.loads(content).get("version") == 1] *)
Definition is_version_one (content : string) : bool :=
  match mp_loads content with
  | Some (JObject items) => json_is_one (json_get "version" items)
  | _ => false
  end.

Definition persist_migration (backup_outcome outcome : write_outcome) : comp InstrumentPolicyStore unit :=
  current ← gets ps_transition_id;
  _ ← lift (raise_if (bool_decide (is_Some current)) in_progress);
  _ ← check_path;
  content ← read_file;
  loaded ← lift (load_catalog_document content catalog);
  if negb loaded.2 then modify (set_pending false)
  else
    backup ← gets ps_backup;
    _ ← when (truthy content && is_version_one content && negb (path_exists backup))
          (write_backup content backup_outcome);
    migrated ← lift (serialize_catalog_document loaded.1);
    _ ← write_file migrated outcome;
    _ ← modify (set_revisions (revision migrated) (cg_revision (cd_active loaded.1)));
    modify (set_pending false).

(** ** Transitions *)

Definition capture_transition (expected_revision lease_id : string) : comp InstrumentPolicyStore TransitionToken :=
  current ← gets ps_transition_id;
  _ ← lift (raise_if (bool_decide (is_Some current))
              (RevisionConflictError "instrument catalog activation is already in progress"));
  read ← read_locked;
  _ ← lift (assert_content read.1 expected_revision);
  _ ← modify (set_transition (Some lease_id));
  mret {| tk_content := read.1; tk_revision := revision read.1; tk_lease_id := lease_id |}.

Definition assert_transition (token : option TransitionToken) : comp InstrumentPolicyStore unit :=
  current ← gets ps_transition_id;
  lift (raise_if (negb (bool_decide (is_Some current ∧ tk_lease_id <$> token = current)))
          (RevisionConflictError "instrument catalog activation lease is not current")).

Definition commit_transition (token : option TransitionToken) (expected_revision : string)
    : comp InstrumentPolicyStore unit :=
  _ ← assert_transition token;
  current ← read_file;
  _ ← lift (assert_content current expected_revision);
  modify (set_transition None).

Definition abort_transition (token : option TransitionToken) : comp InstrumentPolicyStore unit :=
  _ ← assert_transition token;
  modify (set_transition None).

(** ** Snapshots *)

Record catalog_snapshot_data := {
  sd_revision : string;
  sd_startup_revision : string;
  sd_restart_required : bool;
  sd_active_revision : string;
  sd_staged_revision : option string;
  sd_last_known_good_revision : option string;
  sd_active : json;
  sd_staged : json;
  sd_last_known_good : json;
  sd_instruments : list json;
}.

Definition snapshot_of (s : InstrumentPolicyStore) (content : string) (document : ManagedCatalogDocument)
    : catalog_snapshot_data :=
  let active := cd_active document in
  {| sd_revision := revision content; sd_startup_revision := ps_startup_revision s;
     sd_restart_required := negb (bool_decide (cg_revision active = ps_runtime_active_revision s));
     sd_active_revision := cg_revision active; sd_staged_revision := cg_revision <$> cd_staged document;
     sd_last_known_good_revision := cg_revision <$> cd_last_known_good document;
     sd_active := generation_json active; sd_staged := option_json generation_json (cd_staged document);
     sd_last_known_good := option_json generation_json (cd_last_known_good document);
     sd_instruments :=
       (λ d, JObject (dict_set "history_enabled" (JBool (hp_enabled (md_history d))) (definition_items d)))
         <$> cg_instruments active |}.

Definition catalog_snapshot : comp InstrumentPolicyStore catalog_snapshot_data :=
  read ← read_locked;
  s ← gets id;
  mret (snapshot_of s read.1 read.2).

(** [restore_transition] *)
Definition restore_transition (token : option TransitionToken) (expected_revision : string)
    (outcome : write_outcome) : comp InstrumentPolicyStore catalog_snapshot_data :=
  match token with
  | None => raise (TypeError "invalid instrument catalog transition token")
  | Some t =>
    _ ← lift (raise_if (bool_decide (revision (tk_content t) ≠ tk_revision t))
                (CatalogValidationError "instrument catalog transition token is corrupted"));
    _ ← lift (load_catalog_document (tk_content t) catalog);
    _ ← assert_transition token;
    current ← read_file;
    _ ← lift (assert_content current expected_revision);
    _ ← write_file (tk_content t) outcome;
    _ ← modify (set_transition None);
    catalog_snapshot
  end.

(** ** Queries *)

Definition active_generation : comp InstrumentPolicyStore CatalogGeneration :=
  read ← read_locked; mret (cd_active read.2).

Definition staged_generation : comp InstrumentPolicyStore (option CatalogGeneration) :=
  read ← read_locked; mret (cd_staged read.2).

Definition last_known_good_generation : comp InstrumentPolicyStore (option CatalogGeneration) :=
  read ← read_locked; mret (cd_last_known_good read.2).

Definition assert_revision (expected_revision : string) : comp InstrumentPolicyStore unit :=
  content ← read_file; lift (assert_content content expected_revision).

Definition assert_runtime_target (expected_revision operation expected_target_revision : string)
    : comp InstrumentPolicyStore unit :=
  read ← read_locked;
  _ ← lift (assert_content read.1 expected_revision);
  target ← lift (if decide (operation = "activate") then Ok (cd_staged read.2)
                 else if decide (operation = "rollback") then Ok (cd_last_known_good read.2)
                 else Raise (ValueError "unsupported catalog runtime operation"));
  lift (raise_if (negb (match target with
                        | Some t => hmac_compare_revision (cg_revision t) expected_target_revision
                        | None => false
                        end))
          (RevisionConflictError "catalog activation target changed")).

Definition mark_runtime_applied (expected : option string) : comp InstrumentPolicyStore unit :=
  content ← read_file;
  _ ← lift (raise_if (match expected with
                      | Some r => negb (hmac_compare_revision (revision content) r)
                      | None => false
                      end) (RevisionConflictError "instrument catalog changed before runtime activation"));
  loaded ← lift (load_catalog_document content catalog);
  modify (set_revisions (revision content) (cg_revision (cd_active loaded.1))).

Definition export_catalog (state : string) : comp InstrumentPolicyStore json :=
  read ← read_locked;
  generation ← lift (if decide (state = "active") then Ok (cd_active read.2)
                     else match cd_staged read.2 with
                          | Some g => Ok g
                          | None => Raise (CatalogValidationError "there is no staged catalog to export")
                          end);
  mret (JObject [("version", JInt CATALOG_SCHEMA_VERSION); ("revision", JString (cg_revision generation));
                 ("instruments", JArray (definition_json <$> cg_instruments generation))]).

Record validation_report := {
  vr_revision : string;
  vr_generation_revision : string;
  vr_state : string;
  vr_total : nat;
  vr_active : nat;
  vr_custom : nat;
}.

Definition validate (expected_revision : option string) : comp InstrumentPolicyStore validation_report :=
  read ← read_locked;
  _ ← lift (match expected_revision with Some r => assert_content read.1 r | None => Ok tt end);
  let generation := default (cd_active read.2) (cd_staged read.2) in
  let items := cg_instruments generation in
  mret {| vr_revision := revision read.1; vr_generation_revision := cg_revision generation;
          vr_state := match cd_staged read.2 with Some _ => "staged" | None => "active" end;
          vr_total := length items; vr_active := length (List.filter active items);
          vr_custom := length (List.filter (λ d, bool_decide (md_ownership d = CUSTOM)) items) |}.

End store.
