(* ===== verification/CatalogEdits.v ===== *)
(** * Editing the managed catalogue ([InstrumentPolicyStore] of [managed_config.py])

    The operations that replace the file: the older collection policy, the
    edits of the staged generation, the import, and the activation and rollback
    of a generation. *)

From S2P Require Import Prelude PyStr PyState PyTime Domain PluginApi Registry Wire Json Analytics Policy.
From S2P Require Import AdminAccount.
From S2P Require Import Catalog CatalogDocument CatalogStore.
From Stdlib Require Import Ascii QArith.

Local Open Scope string_scope.
Local Open Scope list_scope.
Local Open Scope Z_scope.

(** [index] of the first element a test accepts. *)
Fixpoint position {A} (f : A → bool) (l : list A) : option nat :=
  match l with
  | [] => None
  | x :: l' => if f x then Some O else S <$> position f l'
  end.

Definition MAX_CATALOG_IMPORT_BYTES : Z := 8 * 1024 * 1024.

(** [a == b] for values that [model_dump] made, numbers in lowest terms. *)
Fixpoint json_eqb (a b : json) : bool :=
  match a, b with
  | JNull, JNull => true
  | JBool x, JBool y => Bool.eqb x y
  | JInt x, JInt y => bool_decide (x = y)
  | JFloat x, JFloat y => bool_decide (x = y)
  | JString x, JString y => String.eqb x y
  | JArray l, JArray m =>
    (fix go (l m : list json) : bool :=
       match l, m with
       | [], [] => true
       | x :: l', y :: m' => json_eqb x y && go l' m'
       | _, _ => false
       end) l m
  | JObject l, JObject m =>
    (fix go (l m : list (string * json)) : bool :=
       match l, m with
       | [], [] => true
       | x :: l', y :: m' => String.eqb x.1 y.1 && json_eqb x.2 y.2 && go l' m'
       | _, _ => false
       end) l m
  | _, _ => false
  end.

Section edits.
Context `{ManagedPrimitives}.
Context (catalog : Registry).

(** The fields whose dumped values differ. *)
Definition changed_fields (current candidate : ManagedInstrumentDefinition) : list string :=
  let payload := definition_items candidate in
  fst <$> List.filter (λ kv : string * json, negb (json_eqb kv.2 (json_get kv.1 payload))) (definition_items current).

(** [_assert_builtin_update_allowed] *)
Definition assert_builtin_update_allowed (current candidate : ManagedInstrumentDefinition) : result unit :=
  if decide (md_ownership current ≠ BUILTIN) then Ok tt
  else
    let forbidden := List.filter (λ name, negb (existsb (String.eqb name) BUILTIN_MUTABLE_FIELDS))
                       (changed_fields current candidate) in
    raise_if (negb (bool_decide (forbidden = [])))
      (CatalogValidationError ("built-in instrument core fields are read-only: " +:+
                               join ", " (sorted_set forbidden))).

Definition object_or {A} (msg : string) (j : json) (k : list (string * json) → result A) : result A :=
  match j with JObject items => k items | _ => Raise (CatalogValidationError msg) end.

(** ** The collection policy *)

Definition policy_fields : list string := ["symbol"; "enabled"; "quote_poll_seconds"; "stale_after_seconds"].

(** One turn of the loop of [_legacy_policy_generation], over the definitions and
    the symbols seen. *)
Definition apply_policy_update (indexes : list string)
    (acc : list ManagedInstrumentDefinition * list string) (update : json)
    : result (list ManagedInstrumentDefinition * list string) :=
  match update with
  | JObject items =>
    _ ← raise_if (negb (only_keys policy_fields items)) (ValueError "instrument updates contain unsupported fields");
    let requested := normalize_symbol (py_text (default (JString "") (json_lookup "symbol" items))) in
    match canonical_symbol catalog requested with
    | Some canonical =>
      _ ← raise_if (bool_decide (canonical ∈ acc.2))
            (ValueError ("unknown or duplicate installed instrument: " +:+ requested));
      match json_get "enabled" items with
      | JBool enabled =>
        match position (String.eqb canonical) indexes with
        | Some index =>
          match acc.1 !! index with
          | Some item =>
            let poll := default (seconds_json (md_quote_poll_seconds item)) (json_lookup "quote_poll_seconds" items) in
            let stale := default (seconds_json (md_stale_after_seconds item)) (json_lookup "stale_after_seconds" items) in
            let payload := dict_update (definition_items item)
                             [("enabled", JBool enabled); ("quote_poll_seconds", poll); ("stale_after_seconds", stale)] in
            candidate ← match definition_from_payload (JObject payload) with
                        | Raise (NamedError "CatalogValidationError" msg) =>
                          Raise (ValueError ("invalid collection policy for " +:+ canonical +:+ ": " +:+ msg))
                        | r => r
                        end;
            Ok (<[index := candidate]> acc.1, canonical :: acc.2)
          | None => Raise (OtherError "IndexError")
          end
        | None => Raise (KeyError canonical)
        end
      | _ => Raise (ValueError ("enabled must be a boolean for " +:+ canonical))
      end
    | None => Raise (ValueError ("unknown or duplicate installed instrument: " +:+ requested))
    end
  | _ => Raise (ValueError "instrument updates contain unsupported fields")
  end.

(** [_legacy_policy_generation] *)
Definition legacy_policy_generation (base : CatalogGeneration) (instruments : json) : result CatalogGeneration :=
  match instruments with
  | JArray updates =>
    _ ← raise_if (bool_decide (length (rg_order catalog) < length updates)%nat)
          (ValueError "invalid instrument policy update");
    reraise_value_error ValueError
      (acc ← fold_result (apply_policy_update (md_symbol <$> cg_instruments base)) (cg_instruments base, []) updates;
       build acc.1)
  | _ => Raise (ValueError "invalid instrument policy update")
  end.

(** ** Methods *)

Definition staged_base (document : ManagedCatalogDocument) : CatalogGeneration :=
  default (cd_active document) (cd_staged document).

Definition with_staged (staged : CatalogGeneration) (document : ManagedCatalogDocument) : ManagedCatalogDocument :=
  {| cd_active := cd_active document; cd_staged := Some staged;
     cd_last_known_good := cd_last_known_good document |}.

(** [_stage_definitions_locked], up to the write. *)
Definition stage_definitions (document : ManagedCatalogDocument) (definitions : list ManagedInstrumentDefinition)
    : result ManagedCatalogDocument :=
  reraise_value_error CatalogValidationError
    (staged ← build definitions; Ok (with_staged staged document)).

(** The body of every method that replaces the file: the document read, the
    compare and swap, the new document and the write, and the snapshot. *)
Definition replace_document (expected_revision : string) (token : option TransitionToken)
    (outcome : write_outcome) (f : ManagedCatalogDocument → result ManagedCatalogDocument)
    : comp InstrumentPolicyStore catalog_snapshot_data :=
  read ← read_locked catalog;
  _ ← lift (assert_content read.1 expected_revision);
  updated ← lift (f read.2);
  _ ← write_locked updated token outcome;
  catalog_snapshot catalog.

(** [patch] *)
Definition patch_document (instruments : json) (document : ManagedCatalogDocument)
    : result ManagedCatalogDocument :=
  active ← legacy_policy_generation (cd_active document) instruments;
  Ok {| cd_active := active; cd_staged := cd_staged document; cd_last_known_good := Some (cd_active document) |}.

(** [stage_patch] *)
Definition stage_patch_document (instruments : json) (document : ManagedCatalogDocument)
    : result ManagedCatalogDocument :=
  staged ← legacy_policy_generation (staged_base document) instruments;
  Ok (with_staged staged document).

(** [create_instrument], for the identifier [uuid7] draws. *)
Definition create_document (instrument : json) (uuid : string) (document : ManagedCatalogDocument)
    : result ManagedCatalogDocument :=
  object_or "instrument must be a JSON object" instrument (λ items,
    _ ← raise_if (bool_decide (is_Some (json_lookup "id" items) ∨ is_Some (json_lookup "ownership" items)))
          (CatalogValidationError "custom instrument id and ownership are server-managed");
    candidate ← definition_from_payload
      (JObject (dict_update items [("id", JString ("custom-" +:+ uuid));
                                   ("ownership", JString (InstrumentOwnership_value CUSTOM))]));
    stage_definitions document (cg_instruments (staged_base document) ++ [candidate])).

(** The position of an instrument of the staged generation. *)
Definition find_instrument (instrument_id : string) (definitions : list ManagedInstrumentDefinition)
    : result (nat * ManagedInstrumentDefinition) :=
  match position (λ d, String.eqb (md_id d) instrument_id) definitions with
  | Some index => match definitions !! index with
                  | Some current => Ok (index, current)
                  | None => Raise (OtherError "IndexError")
                  end
  | None => Raise (KeyError instrument_id)
  end.

(** [update_instrument] *)
Definition update_document (instrument_id : string) (updates : json) (document : ManagedCatalogDocument)
    : result ManagedCatalogDocument :=
  object_or "instrument updates must be a JSON object" updates (λ items,
    _ ← raise_if (bool_decide (is_Some (json_lookup "id" items) ∨ is_Some (json_lookup "ownership" items)))
          (CatalogValidationError "instrument id and ownership are immutable");
    let definitions := cg_instruments (staged_base document) in
    found ← find_instrument instrument_id definitions;
    candidate ← definition_from_payload (JObject (dict_update (definition_items found.2) items));
    _ ← assert_builtin_update_allowed found.2 candidate;
    stage_definitions document (<[found.1 := candidate]> definitions)).

(** [archive_instrument] *)
Definition archive_document (instrument_id : string) (document : ManagedCatalogDocument)
    : result ManagedCatalogDocument :=
  let definitions := cg_instruments (staged_base document) in
  found ← find_instrument instrument_id definitions;
  _ ← raise_if (bool_decide (md_ownership found.2 = BUILTIN))
        (CatalogValidationError "built-in instruments can be disabled but not archived");
  candidate ← definition_from_payload
    (JObject (dict_update (definition_items found.2) [("enabled", JBool false); ("archived", JBool true)]));
  stage_definitions document (<[found.1 := candidate]> definitions).

(** [_assert_complete_builtin_set] *)
Definition assert_complete_builtin_set (generation : CatalogGeneration) : result unit :=
  installed ← catalog_generation_from_registry catalog [] ∅;
  raise_if (negb (bool_decide ((list_to_set (builtin_ids (cg_instruments generation)) : gset string) =
                               list_to_set (builtin_ids (cg_instruments installed)))))
    (CatalogValidationError "staged catalog must retain every built-in instrument").

(** [replace_staged]: a generation, or the payload of one. *)
Definition replace_staged_document (generation : json + CatalogGeneration) (document : ManagedCatalogDocument)
    : result ManagedCatalogDocument :=
  candidate ← match generation with inl payload => generation_from_payload payload | inr g => Ok g end;
  _ ← assert_complete_builtin_set candidate;
  _ ← map_result (λ item, match by_id (staged_base document) (md_id item) with
                          | Some current => assert_builtin_update_allowed current item
                          | None => Ok tt
                          end) (cg_instruments candidate);
  Ok (with_staged candidate document).

(** One turn of the loop of [import_catalog]: an instrument replaces the one
    with its identifier or is appended. *)
Definition merge_item (base : CatalogGeneration) (merged : list ManagedInstrumentDefinition)
    (item : ManagedInstrumentDefinition) : result (list ManagedInstrumentDefinition) :=
  _ ← (if decide (md_ownership item = BUILTIN) then
         match by_id base (md_id item) with
         | Some current =>
           _ ← raise_if (bool_decide (md_ownership current ≠ BUILTIN))
                 (CatalogValidationError "catalog import contains an unknown built-in id");
           assert_builtin_update_allowed current item
         | None => Raise (CatalogValidationError "catalog import contains an unknown built-in id")
         end
       else Ok tt);
  match position (λ d, String.eqb (md_id d) (md_id item)) merged with
  | Some index => Ok (<[index := item]> merged)
  | None => Ok (merged ++ [item])
  end.

Definition import_fields : list string := ["version"; "revision"; "instruments"].

(** The instruments of the payload of [import_catalog]. *)
Definition import_items (payload : json) : result (list ManagedInstrumentDefinition) :=
  object_or "catalog import contains unsupported fields" payload (λ items,
    _ ← raise_if (negb (only_keys import_fields items))
          (CatalogValidationError "catalog import contains unsupported fields");
    _ ← raise_if (negb (json_finite payload))
          (CatalogValidationError "catalog import must contain only JSON values");
    _ ← raise_if (bool_decide (MAX_CATALOG_IMPORT_BYTES < size_of (cp_dumps payload)))
          (CatalogValidationError "catalog import is too large");
    _ ← raise_if (negb (json_is CATALOG_SCHEMA_VERSION (json_get "version" items)))
          (CatalogValidationError "catalog import has an unsupported version");
    match json_get "instruments" items with
    | JArray raw =>
      imported ← map_result definition_from_payload raw;
      match json_lookup "revision" items with
      | Some declared =>
        generation ← generation_from_payload (JObject [("revision", declared); ("instruments", JArray raw)]);
        Ok (cg_instruments generation)
      | None => Ok imported
      end
    | _ => Raise (CatalogValidationError "catalog import instruments must be an array")
    end).

(** [import_catalog] *)
Definition import_document (payload : json) (mode : string) (document : ManagedCatalogDocument)
    : result ManagedCatalogDocument :=
  incoming ← import_items payload;
  let base := staged_base document in
  merged ← (if decide (mode = "merge") then Ok (cg_instruments base)
            else if decide (mode ∈ ["replace_custom"; "replace-custom"]) then
              Ok (List.filter (λ d, bool_decide (md_ownership d = BUILTIN)) (cg_instruments base))
            else Raise (CatalogValidationError "catalog import mode must be merge or replace_custom"));
  definitions ← fold_result (merge_item base) merged incoming;
  stage_definitions document definitions.

(** [activate_staged] *)
Definition activate_document (expected_staged_revision : option string) (document : ManagedCatalogDocument)
    : result ManagedCatalogDocument :=
  match cd_staged document with
  | None => Raise (CatalogValidationError "there is no staged catalog to activate")
  | Some staged =>
    _ ← raise_if (match expected_staged_revision with
                  | Some r => negb (hmac_compare_revision (cg_revision staged) r)
                  | None => false
                  end) (RevisionConflictError "staged catalog changed during activation");
    Ok {| cd_active := staged; cd_staged := None; cd_last_known_good := Some (cd_active document) |}
  end.

(** [rollback] *)
Definition rollback_document (document : ManagedCatalogDocument) : result ManagedCatalogDocument :=
  match cd_last_known_good document with
  | None => Raise (CatalogValidationError "there is no last-known-good catalog")
  | Some good => Ok {| cd_active := good; cd_staged := None; cd_last_known_good := Some (cd_active document) |}
  end.

(** The requests of the administrator that replace the file. *)
Inductive catalog_edit :=
| Patch (instruments : json)
| StagePatch (instruments : json)
| CreateInstrument (instrument : json) (uuid : string)
| UpdateInstrument (instrument_id : string) (updates : json)
| ArchiveInstrument (instrument_id : string)
| ReplaceStaged (generation : json + CatalogGeneration)
| ImportCatalog (payload : json) (mode : string)
| ActivateStaged (expected_staged_revision : option string)
| Rollback.

Definition edited (e : catalog_edit) : ManagedCatalogDocument → result ManagedCatalogDocument :=
  match e with
  | Patch instruments => patch_document instruments
  | StagePatch instruments => stage_patch_document instruments
  | CreateInstrument instrument uuid => create_document instrument uuid
  | UpdateInstrument id updates => update_document id updates
  | ArchiveInstrument id => archive_document id
  | ReplaceStaged generation => replace_staged_document generation
  | ImportCatalog payload mode => import_document payload mode
  | ActivateStaged staged => activate_document staged
  | Rollback => rollback_document
  end.

(** A request, for the activation that carries a token. *)
Definition edit (e : catalog_edit) (expected_revision : string) (token : option TransitionToken)
    (outcome : write_outcome) : comp InstrumentPolicyStore catalog_snapshot_data :=
  replace_document expected_revision
    (match e with ActivateStaged _ | Rollback => token | _ => None end) outcome (edited e).

End edits.
