(* ===== verification/CatalogDemo.v ===== *)
(** * A concrete catalogue

    Toy primitives and a small catalogue on which the theorems of the managed
    catalogue are instantiated: a registry of one instrument, a file whose staged
    generation adds another one, and the documents that the activation and the
    rollback of that generation write. *)

From S2P Require Import Prelude PyStr PyTime Domain PluginApi Registry Wire Json Analytics Policy Builtin.
From S2P Require Import AdminAccount.
From S2P Require Import Catalog CatalogDocument.
From Stdlib Require Import Ascii QArith.

Local Open Scope string_scope.
Local Open Scope list_scope.
Local Open Scope Z_scope.

Definition demo_number (n : Z) : string :=
  (if decide (n < 0) then "-" else "") +:+
  String.string_of_list_ascii (map (λ i, hex_digit (Z.land (Z.shiftr (Z.abs n) (4 * Z.of_nat i)) 15)) (seq 0 16)).

(** A toy [json.dumps]: a number that depends on the shape of the value, on its
    numbers and on the lengths of its strings, so that the documents below have
    different, short texts. *)
Definition demo_mix (seed : Z) (l : list Z) : Z := foldl (λ acc w, Z.land (31 * acc + w) (2 ^ 61 - 1)) seed l.

Fixpoint demo_weight (j : json) : Z :=
  match j with
  | JNull => 1
  | JBool b => if b then 3 else 2
  | JInt n => 5 + n
  | JFloat None => 7
  | JFloat (Some q) => demo_mix 11 [Qnum q; Zpos (Qden q)]
  | JString s => 13 + Z.of_nat (String.length s)
  | JArray l => demo_mix 17 (map demo_weight l)
  | JObject items => demo_mix 19 (map (λ kv, Z.of_nat (String.length kv.1) + demo_weight kv.2) items)
  end.

Definition demo_dumps (j : json) : string := demo_number (demo_weight j).

Definition demo_writer : ManagedPrimitives :=
  {| mp_catalog := {| cp_dumps := demo_dumps; cp_sha256 := demo_sha256 |}; mp_loads := λ _, None;
     mp_float := λ _, None; mp_str := λ _, "" |}.

Definition demo_instrument : InstrumentSpec :=
  {| is_symbol := "BTC:USDC"; is_base := "BTC"; is_quote := "USDC"; is_name := "Bitcoin";
     is_description := "Bitcoin in USD Coin"; is_asset_class := CRYPTO; is_asset_type := "crypto_asset";
     is_price_basis := "spot_market"; is_change_basis := "unadjusted_market_price"; is_yield_strategy := None;
     is_dividend_strategy := None; is_reward_accrual_mode := None; is_underlying_asset := None;
     is_aliases := ["XBT:USDC"]; is_market_calendar := ALWAYS_OPEN; is_stale_after_seconds := seconds 10;
     is_quote_poll_seconds := seconds 2; is_history_enabled := true; is_history_poll_seconds := None |}.

Definition demo_plugins : list InstrumentPlugin :=
  [{| ip_plugin_id := "demo"; ip_version := "1"; ip_instruments := [demo_instrument]; ip_has_installer := true;
      ip_provider_bindings := []; ip_synthetic_recipes := [] |}].

Definition empty_registry : Registry :=
  {| rg_plugins := []; rg_order := []; rg_instruments := ∅; rg_aliases := ∅ |}.

Definition demo_registry : Registry := ok_or empty_registry (build_registry demo_plugins).

Definition demo_base : CatalogGeneration :=
  ok_or {| cg_revision := ""; cg_instruments := [] |}
    (@catalog_generation_from_registry demo_writer demo_registry [] ∅).

(** An instrument of the administrator. *)
Definition demo_custom : ManagedInstrumentDefinition :=
  {| md_id := "custom-eth-usdc"; md_symbol := "ETH:USDC"; md_base := "ETH"; md_quote := "USDC"; md_name := "Ether";
     md_description := "Ether in USD Coin"; md_asset_class := CRYPTO; md_asset_type := "crypto_asset";
     md_price_basis := "spot_market"; md_change_basis := "unadjusted_market_price"; md_ownership := CUSTOM;
     md_enabled := true; md_archived := false; md_aliases := []; md_market_calendar := ALWAYS_OPEN;
     md_quote_poll_seconds := 250000; md_stale_after_seconds := seconds 10; md_history := default_history;
     md_routes := [{| cr_capability := QUOTE; cr_providers := ["kraken"] |}]; md_provider_symbols := [{| psb_provider := "kraken"; psb_symbol := "ETHUSDC" |}];
     md_income := None; md_synthetic := None |}.

Definition demo_staged : CatalogGeneration :=
  let l := cg_instruments demo_base ++ [demo_custom] in
  {| cg_revision := @catalog_revision (@mp_catalog demo_writer) l; cg_instruments := l |}.

Definition demo_stored : ManagedCatalogDocument :=
  {| cd_active := demo_base; cd_staged := Some demo_staged; cd_last_known_good := None |}.
Definition demo_activated : ManagedCatalogDocument :=
  {| cd_active := demo_staged; cd_staged := None; cd_last_known_good := Some demo_base |}.
Definition demo_restored : ManagedCatalogDocument :=
  {| cd_active := demo_base; cd_staged := None; cd_last_known_good := Some demo_staged |}.

Definition demo_text (doc : ManagedCatalogDocument) : string := demo_dumps (document_json doc) +:+ newline.

(** [json.loads] of the three documents. *)
Definition demo_loads (s : string) : option json :=
  document_json <$> find (λ doc, String.eqb (demo_text doc) s) [demo_stored; demo_activated; demo_restored].

Definition demo_managed : ManagedPrimitives :=
  {| mp_catalog := {| cp_dumps := demo_dumps; cp_sha256 := demo_sha256 |}; mp_loads := demo_loads;
     mp_float := λ _, None; mp_str := λ _, "" |}.

Lemma demo_built : build_registry demo_plugins = Ok demo_registry.
Proof. by vm_compute. Qed.

Lemma demo_base_built : @catalog_generation_from_registry demo_managed demo_registry [] ∅ = Ok demo_base.
Proof. by vm_compute. Qed.

Lemma demo_load_stored : @load_catalog_document demo_managed (demo_text demo_stored) demo_registry = Ok (demo_stored, false).
Proof. vm_compute. reflexivity. Qed.

Lemma demo_load_activated :
  @load_catalog_document demo_managed (demo_text demo_activated) demo_registry = Ok (demo_activated, false).
Proof. vm_compute. reflexivity. Qed.

Lemma demo_loads_activated : demo_loads (demo_text demo_activated) = Some (document_json demo_activated).
Proof. vm_compute. reflexivity. Qed.

Lemma demo_loads_restored : demo_loads (demo_text demo_restored) = Some (document_json demo_restored).
Proof. vm_compute. reflexivity. Qed.

Lemma demo_digest_length text : String.length (demo_sha256 text) = 64%nat.
Proof. unfold demo_sha256. by set (n := foldl _ _ _). Qed.
