(* ===== verification/CatalogDocumentFacts.v ===== *)
(** * Theorems on catalogue documents

    What every document that is read has in common: its definitions are
    complete, the built-in ones are those of the installed registry in all but
    the fields an administrator may change, and a document that was written is
    read back as it is. *)

From S2P Require Import Prelude PyStr PyTime Graph Domain PluginApi Registry Wire Json Analytics Policy Builtin.
From S2P Require Import AdminAccount.
From S2P Require Import Catalog CatalogFacts CatalogDocument CatalogDemo.
From Stdlib Require Import Ascii QArith Qround.

Local Open Scope string_scope.
Local Open Scope list_scope.
Local Open Scope Z_scope.

(** Take apart a chain of bindings that succeeded. *)
Ltac inv_binds H :=
  cbv beta in H; repeat match type of H with (_ ≫= _) = Ok _ => let E := fresh "E" in apply result_bind_ok in H as (? & E & H) end.

Lemma Forall2_member_l {A B} (R : A → B → Prop) l l' x : Forall2 R l l' → x ∈ l → ∃ y, y ∈ l' ∧ R x y.
Proof.
  induction 1 as [|a b l l' Hab _ IH]; [by intros ?%elem_of_nil|].
  intros [->|(y & ? & ?)%IH]%elem_of_cons; [exists b|exists y]; split; try done; [by left|by right].
Qed.

Lemma Forall2_member_r {A B} (R : A → B → Prop) l l' y : Forall2 R l l' → y ∈ l' → ∃ x, x ∈ l ∧ R x y.
Proof. intros Hl%Forall2_flip Hy. by apply (Forall2_member_l _ _ _ _ Hl). Qed.

(** ** What is read is complete *)

Lemma field_inv {A} (f : json → result A) key items a : field f key items = Ok a → ∃ j, f j = Ok a.
Proof. unfold field. destruct (json_lookup key items) as [j|]; [by exists j|done]. Qed.

Lemma field_or_inv {A} v (f : json → result A) key items a :
  field_or v f key items = Ok a → a = v ∨ ∃ j, f j = Ok a.
Proof. unfold field_or. destruct (json_lookup key items) as [j|]; [right; by exists j|left; congruence]. Qed.

Lemma json_model_inv {A} fields (f : list (string * json) → result A) j a :
  json_model fields f j = Ok a → ∃ items, f items = Ok a.
Proof. unfold json_model. destruct j as [| | | | | |items]; try done. intros [_ H]%require_bind. by exists items. Qed.

Lemma json_array_inv {A} (f : json → result A) j l : json_array f j = Ok l → ∀ x, x ∈ l → ∃ j', f j' = Ok x.
Proof.
  unfold json_array. destruct j as [| | | | |js|]; try done. intros H%map_result_ok.
  induction H as [|j x js xs Hjx _ IH]; intros y; [by intros ?%elem_of_nil|].
  intros [->|Hy]%elem_of_cons; [by exists j|by apply IH].
Qed.

Lemma json_nullable_inv {A} (f : json → result A) j o a :
  json_nullable f j = Ok o → o = Some a → ∃ j', f j' = Ok a.
Proof.
  unfold json_nullable. intros H ->. exists j.
  destruct j; cbn in *; try (by injection H); destruct (f _); cbn in H; congruence.
Qed.

Lemma json_ratio_reduced j q : json_ratio j = Ok q → Qred q = q.
Proof.
  destruct j as [| |n|[r|]| | |]; try done; cbn; intros [= <-].
  - unfold inject_Z, Qred. pose proof (Z.ggcd_gcd n 1) as Hg. pose proof (Z.ggcd_correct_divisors n 1) as Hd.
    destruct (Z.ggcd n 1) as [g [a b]]. cbn in *. rewrite Z.gcd_1_r in Hg. subst g.
    destruct Hd as [-> Hb]. rewrite Z.mul_1_l in *. by rewrite <- Hb.
  - apply Qred_complete, Qred_correct.
Qed.

Lemma binding_init_eq b b' : ProviderSymbolBinding_init b = Ok b' → b' = b.
Proof. unfold ProviderSymbolBinding_init. cbv zeta. intros H. do 3 apply require_bind in H as [_ H]. congruence. Qed.

Lemma route_init_eq r r' : CapabilityRoute_init r = Ok r' → r' = r.
Proof. unfold CapabilityRoute_init. cbv zeta. intros H. do 3 apply require_bind in H as [_ H]. congruence. Qed.

Lemma recipe_init_eq r r' : SyntheticRecipeDefinition_init r = Ok r' → r' = r.
Proof.
  unfold SyntheticRecipeDefinition_init. intros H. apply result_bind_ok in H as (? & _ & H).
  do 5 apply require_bind in H as [_ H]. congruence.
Qed.

(** A constructor that returns its argument has accepted it. *)
Lemma built {A} (init : A → result A) a b : (∀ x y, init x = Ok y → y = x) → init a = Ok b → init b = Ok b.
Proof. intros Heq Hi. by rewrite (Heq _ _ Hi) in Hi |- *. Qed.

Lemma binding_parsed j b : binding_of_json j = Ok b → ProviderSymbolBinding_init b = Ok b.
Proof. intros (items & H)%json_model_inv. inv_binds H. eapply built; [apply binding_init_eq|exact H]. Qed.

Lemma route_parsed j r : route_of_json j = Ok r → CapabilityRoute_init r = Ok r.
Proof. intros (items & H)%json_model_inv. inv_binds H. eapply built; [apply route_init_eq|exact H]. Qed.

Lemma history_parsed j h : history_of_json j = Ok h → HistoryCollectionPolicy_init h = Ok h.
Proof. intros (items & H)%json_model_inv. inv_binds H. eapply built; [apply history_init_eq|exact H]. Qed.

Lemma recipe_parsed j r : recipe_of_json j = Ok r → SyntheticRecipeDefinition_init r = Ok r.
Proof. intros (items & H)%json_model_inv. inv_binds H. eapply built; [apply recipe_init_eq|exact H]. Qed.

Lemma income_parsed j p : income_of_json j = Ok p →
  IncomePolicy_init p = Ok p ∧ ∀ q, in_expense_ratio_percent p = Some q → Qred q = q.
Proof.
  intros (items & H)%json_model_inv. inv_binds H. pose proof (income_init_eq _ _ H) as ->. split; [done|].
  cbn. intros q Hq. destruct (field_or_inv _ _ _ _ _ E4) as [->|[j' Hj]]; [done|].
  apply (json_nullable_inv _ _ _ _ Hj) in Hq as [j2 Hj2]. by apply json_ratio_reduced in Hj2.
Qed.

Lemma definition_parsed j d : definition_of_json j = Ok d → definition_ok d.
Proof.
  intros (items & H)%json_model_inv. inv_binds H. pose proof (definition_init_eq _ _ H) as ->.
  split; [done|..]; cbn.
  - apply field_or_inv in E16 as [->|[j' Hj]]; [done|by apply history_parsed in Hj].
  - intros r Hr. apply field_or_inv in E17 as [->|[j' Hj]]; [by apply elem_of_nil in Hr|].
    destruct (json_array_inv _ _ _ Hj r Hr) as [j2 H2]. by apply route_parsed in H2.
  - intros b Hb. apply field_or_inv in E18 as [->|[j' Hj]]; [by apply elem_of_nil in Hb|].
    destruct (json_array_inv _ _ _ Hj b Hb) as [j2 H2]. by apply binding_parsed in H2.
  - intros p Hp. apply field_or_inv in E19 as [->|[j' Hj]]; [done|].
    apply (json_nullable_inv _ _ _ _ Hj) in Hp as [j2 H2]. by apply income_parsed in H2 as [H2 _].
  - intros r Hr. apply field_or_inv in E20 as [->|[j' Hj]]; [done|].
    apply (json_nullable_inv _ _ _ _ Hj) in Hr as [j2 H2]. by apply recipe_parsed in H2.
  - intros p q Hp. apply field_or_inv in E19 as [->|[j' Hj]]; [done|].
    apply (json_nullable_inv _ _ _ _ Hj) in Hp as [j2 [_ H2]%income_parsed]. by apply H2.
Qed.

Lemma payload_inv {A} what (parse : json → result A) payload a :
  from_payload what parse payload = Ok a → parse payload = Ok a.
Proof.
  unfold from_payload. destruct payload; try done. destruct (json_finite _); [|done].
  destruct (parse _) as [x|]; [by intros [= ->]|done].
Qed.

Lemma definition_payload_ok payload d : definition_from_payload payload = Ok d → definition_ok d.
Proof. intros H%payload_inv. by apply definition_parsed in H. Qed.

Lemma generation_parsed `{CatalogPrimitives} j g : generation_of_json j = Ok g → generation_ok g.
Proof.
  intros (items & Hg)%json_model_inv. inv_binds Hg. pose proof (generation_init_eq _ _ Hg) as ->.
  split; [|done]. cbn. intros d Hd. apply field_inv in E0 as [j' Hj].
  destruct (json_array_inv _ _ _ Hj d Hd) as [j2 H2]. by apply definition_parsed in H2.
Qed.

Lemma document_parsed `{CatalogPrimitives} j doc : document_of_json j = Ok doc → document_ok doc.
Proof.
  intros (items & Hd)%json_model_inv. inv_binds Hd. injection Hd as <-. split_and!; cbn.
  - apply field_inv in E0 as [j' Hj]. by apply generation_parsed in Hj.
  - intros g Hg. apply field_or_inv in E1 as [->|[j' Hj]]; [done|].
    apply (json_nullable_inv _ _ _ _ Hj) in Hg as [j2 H2]. by apply generation_parsed in H2.
  - intros g Hg. apply field_or_inv in E2 as [->|[j' Hj]]; [done|].
    apply (json_nullable_inv _ _ _ _ Hj) in Hg as [j2 H2]. by apply generation_parsed in H2.
Qed.

(** ** Writing and reading gives the same or fails *)

Lemma field_same {A} (f : json → result A) key items j v a :
  json_lookup key items = Some j → (∀ y, f j = Ok y → y = v) → field f key items = Ok a → a = v.
Proof. unfold field. intros ->. auto. Qed.

Lemma field_or_same {A} w (f : json → result A) key items j v a :
  json_lookup key items = Some j → (∀ y, f j = Ok y → y = v) → field_or w f key items = Ok a → a = v.
Proof. unfold field_or. intros ->. auto. Qed.

Lemma json_array_same {A} (f : json → result A) (g : A → json) l l' :
  (∀ x y, x ∈ l → f (g x) = Ok y → y = x) → json_array f (JArray (g <$> l)) = Ok l' → l' = l.
Proof.
  intros Hf Hl. cbn in Hl. apply map_result_ok in Hl. revert l' Hl.
  induction l as [|x l IH]; intros l' Hl; inversion Hl; subst; [done|]. f_equal.
  - apply Hf; [by left|done].
  - apply IH; [|done]. intros x' y' Hx. apply Hf. by right.
Qed.

Lemma json_nullable_same {A} (f : json → result A) (g : A → json) o o' :
  (∀ x y, o = Some x → f (g x) = Ok y → y = x) → (∀ x, o = Some x → g x ≠ JNull) →
  json_nullable f (option_json g o) = Ok o' → o' = o.
Proof.
  intros Hf Hn. destruct o as [a|]; cbn; [|congruence]. specialize (Hf a). specialize (Hn a eq_refl).
  unfold json_nullable. destruct (g a); [done|..].
  all: destruct (f _) as [y|]; cbn; [|done]; intros [= <-]; by rewrite (Hf y).
Qed.

(** The value of a field of a document that the models wrote. *)
Ltac same_field E :=
  first [eapply field_same in E; [|reflexivity|]|eapply field_or_same in E; [|reflexivity|]].

Ltac same_text E := same_field E; [|by intros ? [= <-]]; subst.

Lemma binding_same b b' : binding_of_json (binding_json b) = Ok b' → b' = b.
Proof. by intros ->%binding_init_eq; destruct b. Qed.

Lemma route_same r r' : route_of_json (route_json r) = Ok r' → r' = r.
Proof.
  unfold route_of_json, route_json. rewrite json_model_ok by reflexivity. intros H. inv_binds H.
  same_field E; [|intros y; rewrite capability_json; by intros [= <-]].
  same_field E0; [|intros y Hy; eapply json_array_same, Hy; by intros ? ? _ [= <-]].
  subst. apply route_init_eq in H as ->. by destruct r.
Qed.

Lemma seconds_same v w : json_seconds (seconds_json v) = Ok w → w = v.
Proof. rewrite json_seconds_ok. congruence. Qed.

Lemma history_same h h' : history_of_json (history_json h) = Ok h' → h' = h.
Proof.
  unfold history_of_json, history_json. rewrite json_model_ok by reflexivity. intros H. inv_binds H.
  same_text E.
  same_field E0; [|intros y Hy; eapply json_nullable_same, Hy; [|done]; intros ? ? _; apply seconds_same].
  same_field E1; [|intros y Hy; eapply json_nullable_same, Hy; [|done]; by intros ? ? _ [= <-]].
  subst. apply history_init_eq in H as ->. by destruct h.
Qed.

(** The parts of a definition that only their own constructors make. *)
Definition parts_ok (d : ManagedInstrumentDefinition) : Prop :=
  (∀ p, md_income d = Some p → IncomePolicy_init p = Ok p ∧ ∀ q, in_expense_ratio_percent p = Some q → Qred q = q) ∧
  (∀ r, md_synthetic d = Some r → SyntheticRecipeDefinition_init r = Ok r).

Lemma definition_ok_parts d : definition_ok d → parts_ok d.
Proof. intros [_ _ _ _ Hi Hs Hq]. split; [|done]. intros p Hp. split; eauto. Qed.

Lemma definition_same d d' : parts_ok d → definition_from_payload (definition_json d) = Ok d' → d' = d.
Proof.
  intros [Hi Hs] H%payload_inv. unfold definition_of_json, definition_json, definition_items in H.
  rewrite json_model_ok in H by reflexivity. inv_binds H.
  same_text E. same_text E0. same_text E1. same_text E2. same_text E3. same_text E4.
  same_field E5; [|intros y; rewrite asset_class_json; by intros [= <-]].
  same_text E6. same_text E7. same_text E8.
  same_field E9; [|intros y; rewrite ownership_json; by intros [= <-]].
  same_text E10. same_text E11.
  same_field E12; [|intros y Hy; eapply json_array_same, Hy; by intros ? ? _ [= <-]].
  same_field E13; [|intros y; rewrite calendar_json; by intros [= <-]].
  same_field E14; [|apply seconds_same]. same_field E15; [|apply seconds_same].
  same_field E16; [|apply history_same].
  same_field E17; [|intros y Hy; eapply json_array_same, Hy; intros ? ? _; apply route_same].
  same_field E18; [|intros y Hy; eapply json_array_same, Hy; intros ? ? _; apply binding_same].
  same_field E19; [|intros y Hy; eapply json_nullable_same, Hy; [|done]; intros p ? Hp;
                    destruct (Hi p Hp); rewrite income_read by done; by intros [= <-]].
  same_field E20; [|intros y Hy; eapply json_nullable_same, Hy; [|done]; intros r ? Hr;
                    rewrite recipe_read by auto; by intros [= <-]].
  subst. apply definition_init_eq in H as ->. by destruct d.
Qed.

(** ** The installed catalogue *)

(** What an administrator cannot change of a built-in instrument. *)
Definition core (d : ManagedInstrumentDefinition) : ManagedInstrumentDefinition :=
  {| md_id := md_id d; md_symbol := md_symbol d; md_base := md_base d; md_quote := md_quote d;
     md_name := md_name d; md_description := md_description d; md_asset_class := md_asset_class d;
     md_asset_type := md_asset_type d; md_price_basis := md_price_basis d;
     md_change_basis := md_change_basis d; md_ownership := md_ownership d; md_enabled := true;
     md_archived := md_archived d; md_aliases := md_aliases d; md_market_calendar := md_market_calendar d;
     md_quote_poll_seconds := 0; md_stale_after_seconds := 0; md_history := default_history;
     md_routes := []; md_provider_symbols := md_provider_symbols d; md_income := md_income d;
     md_synthetic := md_synthetic d |}.

Lemma installed_definition_ok routes disabled overrides i d :
  installed_definition routes disabled overrides i = Ok d →
  to_instrument_spec d = with_intervals i (overrides !! is_symbol i) ∧ definition_ok d ∧
  md_archived d = false ∧ md_ownership d = BUILTIN ∧ md_enabled d = negb (bool_decide (is_symbol i ∈ disabled)).
Proof.
  unfold installed_definition. intros H. inv_binds H.
  assert (∀ r, r ∈ x → CapabilityRoute_init r = Ok r) as Hr.
  { unfold route_definitions in E. apply map_result_ok in E. clear -E.
    induction E as [|r r' l l' Hr _ IH]; intros y; [by intros ?%elem_of_nil|].
    intros [->|Hy]%elem_of_cons; [|by apply IH]. eapply built; [apply route_init_eq|exact Hr]. }
  assert (∀ b, b ∈ x1 → ProviderSymbolBinding_init b = Ok b) as Hb.
  { apply map_result_ok in E1. clear -E1.
    induction E1 as [|b b' l l' Hb _ IH]; intros y; [by intros ?%elem_of_nil|].
    intros [->|Hy]%elem_of_cons; [|by apply IH]. eapply built; [apply binding_init_eq|exact Hb]. }
  assert (∀ r, None = Some r → SyntheticRecipeDefinition_init r = Ok r) as Hs by done.
  by destruct (from_instrument_spec_ok _ _ _ _ _ _ _ _ Hr Hb Hs H) as (?&?&?&?&?&?).
Qed.

Lemma from_instrument_spec_core i j id en en' routes routes' bindings d d' :
  with_intervals i (Some (0, 0)) = with_intervals j (Some (0, 0)) →
  from_instrument_spec i id BUILTIN en routes bindings None = Ok d →
  from_instrument_spec j id BUILTIN en' routes' bindings None = Ok d' →
  core d = core d' ∧ md_routes d = routes ∧ md_routes d' = routes' ∧ md_history d = md_history d'.
Proof.
  intros Hij H1 H2. unfold from_instrument_spec in H1, H2. inv_binds H1. inv_binds H2.
  apply definition_init_eq in H1 as ->, H2 as ->.
  assert (income_of_spec i = income_of_spec j) as Hinc.
  { transitivity (income_of_spec (with_intervals i (Some (0, 0)))); [done|]. by rewrite Hij. }
  rewrite Hinc in E. rewrite E in E1. injection E1 as <-.
  assert (is_history_enabled i = is_history_enabled j ∧ is_history_poll_seconds i = is_history_poll_seconds j) as [He Hp].
  { clear -Hij. destruct i, j. cbn in *. injection Hij. by intros. }
  rewrite He, Hp in E0. rewrite E0 in E2. injection E2 as <-. split_and!; [|done..].
  clear E0. destruct i, j. cbn in Hij. clear E Hinc. injection Hij. intros. by subst.
Qed.

Lemma installed_core routes disabled disabled' overrides overrides' i d d' :
  installed_definition routes disabled overrides i = Ok d →
  installed_definition routes disabled' overrides' i = Ok d' →
  core d = core d' ∧ md_routes d = md_routes d' ∧ md_history d = md_history d'.
Proof.
  unfold installed_definition. intros H1 H2. inv_binds H1. inv_binds H2.
  rewrite E in E2. rewrite E0 in E3. rewrite E1 in E4. injection E2 as <-. injection E3 as <-. injection E4 as <-.
  assert (with_intervals (with_intervals i (overrides !! is_symbol i)) (Some (0, 0)) =
          with_intervals (with_intervals i (overrides' !! is_symbol i)) (Some (0, 0))) as Hw
    by (by destruct (overrides !! is_symbol i) as [[]|], (overrides' !! is_symbol i) as [[]|]).
  by destruct (from_instrument_spec_core _ _ _ _ _ _ _ _ _ _ Hw H1 H2) as (? & -> & -> & ?).
Qed.

Section documents.
Context `{ManagedPrimitives} (rg : Registry).

Lemma build_ok l g : build l = Ok g →
  cg_instruments g = l ∧ cg_revision g = catalog_revision l ∧ CatalogGeneration_init g = Ok g.
Proof.
  unfold build. intros Hg. pose proof (generation_init_eq _ _ Hg) as ->. done.
Qed.

Lemma build_accepted g : CatalogGeneration_init g = Ok g → build (cg_instruments g) = Ok g.
Proof.
  intros Hg. pose proof Hg as Hi. unfold CatalogGeneration_init in Hi. do 2 apply require_bind in Hi as [_ Hi].
  apply require_bind in Hi as [Hr%bool_decide_eq_true _]. unfold build. rewrite <- Hr. by destruct g.
Qed.

Lemma accepted_names g : generation_ok g →
  NoDup (md_id <$> cg_instruments g) ∧ NoDup (md_symbol <$> cg_instruments g).
Proof.
  intros [Hd Hg]. unfold CatalogGeneration_init in Hg. do 3 apply require_bind in Hg as [_ Hg].
  apply result_bind_ok in Hg as ([] & Hg & _). apply validate_instruments_iff in Hg as [Hids Hn _ _ _]; [|done].
  split; [done|by apply names_symbols].
Qed.

(** The generation of the installed registry. *)
Lemma registry_generation disabled overrides g :
  catalog_generation_from_registry rg disabled overrides = Ok g →
  generation_ok g ∧
  Forall2 (λ i d, installed_definition (routes_by_symbol rg) disabled overrides i = Ok d)
    (installed_instruments rg) (cg_instruments g).
Proof.
  unfold catalog_generation_from_registry. intros (l & Hl%map_result_ok & (<- & _ & Hg)%build_ok)%result_bind_ok.
  split; [|done]. split; [|done]. intros d Hd.
  destruct (Forall2_member_r _ _ _ _ Hl Hd) as (i & _ & Hi). by apply installed_definition_ok in Hi as (_ & ? & _).
Qed.

Definition all_builtin (g : CatalogGeneration) : Prop :=
  generation_ok g ∧ ∀ d, d ∈ cg_instruments g → md_ownership d = BUILTIN ∧ md_archived d = false.

Lemma registry_builtin disabled overrides g :
  catalog_generation_from_registry rg disabled overrides = Ok g → all_builtin g.
Proof.
  intros [Hok Hl]%registry_generation. split; [done|]. intros d Hd.
  destruct (Forall2_member_r _ _ _ _ Hl Hd) as (i & _ & Hi). by apply installed_definition_ok in Hi as (_ & _ & ? & ? & _).
Qed.

(** A generation whose built-in part is the installed one but for the fields
    that may change. *)
Definition protects (baseline g : CatalogGeneration) : Prop :=
  (∀ d, d ∈ cg_instruments g → md_ownership d = BUILTIN →
     ∃ e, e ∈ cg_instruments baseline ∧ core d = core e) ∧
  (∀ e, e ∈ cg_instruments baseline → ∃ d, d ∈ cg_instruments g ∧ core d = core e).

Lemma registry_protects disabled overrides baseline g :
  catalog_generation_from_registry rg [] ∅ = Ok baseline →
  catalog_generation_from_registry rg disabled overrides = Ok g → protects baseline g.
Proof.
  intros [_ Hb]%registry_generation [_ Hg]%registry_generation.
  assert (Forall2 (λ d e, core d = core e) (cg_instruments g) (cg_instruments baseline)) as Hc.
  { apply Forall2_flip in Hg. eapply Forall2_trans, Hb; [|exact Hg].
    cbn. intros d i e Hd He. by destruct (installed_core _ _ _ _ _ _ _ _ Hd He). }
  split.
  - intros d Hd _. destruct (Forall2_member_l _ _ _ _ Hc Hd) as (e & He & Hce). eauto.
  - intros e He. destruct (Forall2_member_r _ _ _ _ Hc He) as (d & Hd & Hce). eauto.
Qed.

(** ** Reconciliation *)

Lemma by_id_in g id d : by_id g id = Some d → d ∈ cg_instruments g ∧ md_id d = id.
Proof.
  unfold by_id. intros [Hd Hid%bool_decide_eq_true]%last_elem_of%elem_of_filter_bool. done.
Qed.

Lemma by_id_unique g d : NoDup (md_id <$> cg_instruments g) → d ∈ cg_instruments g → by_id g (md_id d) = Some d.
Proof.
  intros Hnd Hd. destruct (by_id g (md_id d)) as [e|] eqn:He.
  - apply by_id_in in He as [He Hid]. f_equal.
    apply list_elem_of_lookup in Hd as [i Hi], He as [j Hj].
    assert (i = j) as ->; [|congruence].
    eapply NoDup_lookup; [exact Hnd|..]; rewrite list_lookup_fmap; [by rewrite Hi|rewrite Hj; cbn; congruence].
  - exfalso. unfold by_id in He. apply last_None in He.
    assert (d ∈ List.filter (λ e, bool_decide (md_id e = md_id d)) (cg_instruments g)) as Hin
      by (apply elem_of_filter_bool; split; [done|by apply bool_decide_eq_true]).
    rewrite He in Hin. by apply elem_of_nil in Hin.
Qed.

Lemma reconciled_parts e d : parts_ok e → parts_ok (reconciled_definition e d).
Proof. done. Qed.

Lemma reconcile_item_spec base d d' : all_builtin base → reconcile_item base d = Ok d' →
  (md_ownership d = CUSTOM ∧ d' = d) ∨
  (md_ownership d = BUILTIN ∧ ∃ e, e ∈ cg_instruments base ∧ by_id base (md_id d) = Some e ∧
     md_symbol e = md_symbol d ∧ d' = reconciled_definition e d ∧ definition_ok d').
Proof.
  intros [[Hb _] _]. unfold reconcile_item. case_decide as Ho; [intros [= <-]; by left|].
  destruct (by_id base (md_id d)) as [e|] eqn:He; [|done]. intros (u & Hs%raise_if_ok & Hd)%result_bind_ok. right.
  destruct (by_id_in _ _ _ He) as [Hin Hid]. split; [by destruct (md_ownership d)|].
  exists e. split_and!; [done..| | |by apply definition_payload_ok in Hd].
  - by destruct (decide (md_symbol e = md_symbol d)) as [|n]; [|rewrite bool_decide_eq_true_2 in Hs].
  - eapply definition_same, Hd. by apply reconciled_parts, definition_ok_parts, Hb.
Qed.

Lemma core_reconciled e d : md_archived e = false → core (reconciled_definition e d) = core e.
Proof. intros Ha. unfold core. cbn. by rewrite Ha. Qed.

Lemma core_same d e : core d = core e →
  md_id d = md_id e ∧ md_symbol d = md_symbol e ∧ md_ownership d = md_ownership e ∧ md_archived d = md_archived e.
Proof. unfold core. intros Hc. injection Hc. by intros. Qed.

Definition missing (base g : CatalogGeneration) : list ManagedInstrumentDefinition :=
  List.filter (λ d, negb (bool_decide (md_id d ∈ builtin_ids (cg_instruments g)))) (cg_instruments base).

Lemma elem_of_builtin_ids id l : id ∈ builtin_ids l ↔ ∃ d, d ∈ l ∧ md_ownership d = BUILTIN ∧ md_id d = id.
Proof.
  unfold builtin_ids. rewrite list_elem_of_fmap. setoid_rewrite elem_of_filter_bool.
  setoid_rewrite bool_decide_eq_true. naive_solver.
Qed.

Lemma reconcile_spec base g g' : all_builtin base → reconcile_generation g base = Ok g' →
  ∃ l, Forall2 (λ d d', reconcile_item base d = Ok d') (cg_instruments g) l ∧
    cg_instruments g' = l ++ missing base g ∧ build (cg_instruments g') = Ok g'.
Proof.
  intros Hb. unfold reconcile_generation. intros (l & Hl%map_result_ok & Hg)%result_bind_ok.
  fold (missing base g) in Hg. exists l. split; [done|].
  destruct (build (l ++ missing base g)) as [b|e] eqn:E; cbn in Hg; [|by destruct (value_error e)].
  injection Hg as ->. pose proof (build_ok _ _ E) as (Hi & _ & _). by rewrite Hi.
Qed.

Lemma reconciled_ok base g g' : all_builtin base → generation_ok g → reconcile_generation g base = Ok g' →
  generation_ok g' ∧ protects base g'.
Proof.
  intros Hb [Hg _] Hr. destruct (reconcile_spec _ _ _ Hb Hr) as (l & Hl & Hi & Hbuild).
  pose proof Hb as [[Hbd _] Hba]. pose proof (build_ok _ _ Hbuild) as (_ & _ & Hinit). split; [split; [|done]|].
  - intros d. rewrite Hi, elem_of_app. intros [Hd|[Hd _]%elem_of_filter_bool]; [|by apply Hbd].
    destruct (Forall2_member_r _ _ _ _ Hl Hd) as (d0 & Hd0 & [[_ ->]|(_ & e & _ & _ & _ & _ & ?)]%reconcile_item_spec);
      [by apply Hg|done|done].
  - split.
    + intros d. rewrite Hi, elem_of_app. intros [Hd|[Hd _]%elem_of_filter_bool] Ho; [|by exists d].
      destruct (Forall2_member_r _ _ _ _ Hl Hd)
        as (d0 & Hd0 & [[Hc ->]|(_ & e & He & _ & _ & -> & _)]%reconcile_item_spec); [congruence| |done].
      exists e. split; [done|]. by apply core_reconciled, Hba.
    + intros e He. destruct (decide (md_id e ∈ builtin_ids (cg_instruments g))) as [Hin|Hin].
      * apply elem_of_builtin_ids in Hin as (d & Hd & Ho & Hid).
        destruct (Forall2_member_l _ _ _ _ Hl Hd) as (d' & Hd' & [[Hc _]|(_ & e' & He' & Hby & _ & -> & _)]%reconcile_item_spec);
          [congruence| |done].
        exists (reconciled_definition e' d). rewrite Hi, elem_of_app. split; [by left|].
        rewrite Hid, by_id_unique in Hby by (try done; by apply accepted_names, Hb). injection Hby as <-.
        by apply core_reconciled, Hba.
      * exists e. rewrite Hi, elem_of_app. split; [|done]. right. apply elem_of_filter_bool. split; [done|].
        by rewrite bool_decide_eq_false_2.
Qed.

(** *** A second reconciliation changes nothing *)

(** The routes of the installed instruments name no provider that was renamed. *)
Definition current_names (base : CatalogGeneration) : Prop :=
  ∀ d r, d ∈ cg_instruments base → r ∈ md_routes d → "binance_wbeth_rate" ∉ cr_providers r.

Lemma migrated_same (l : list string) : "binance_wbeth_rate" ∉ l → migrated_name <$> l = l.
Proof.
  induction l as [|p l IH]; [done|]. intros [Hp Hl]%not_elem_of_cons. cbn. rewrite IH by done. f_equal.
  unfold migrated_name. cbn. by rewrite decide_False.
Qed.

Lemma migrated_twice (l : list string) : migrated_name <$> (migrated_name <$> l) = migrated_name <$> l.
Proof.
  rewrite <- list_fmap_compose. apply list_fmap_ext. intros _ p _. cbn. unfold migrated_name. cbn.
  by repeat case_decide; subst.
Qed.

Lemma migrated_new (l : list string) : migrated_name <$> l = l ∨ "binance_staking_rate" ∈ migrated_name <$> l.
Proof.
  destruct (decide ("binance_wbeth_rate" ∈ l)) as [Hin|Hin]; [right|left; by apply migrated_same].
  apply list_elem_of_fmap. by exists "binance_wbeth_rate".
Qed.

Lemma previous_defaults_old symbol c l : l ∈ previous_defaults symbol c → "binance_staking_rate" ∉ l.
Proof.
  unfold previous_defaults, BUILTIN_ROUTE_DEFAULT_MIGRATIONS. cbn [find fst].
  repeat case_bool_decide; cbn [snd]; rewrite ?list_elem_of_singleton, ?elem_of_nil; intros Hl; try done;
    subst l; rewrite !not_elem_of_cons; (split_and!; try done); apply not_elem_of_nil.
Qed.

Lemma route_by_capability routes r : NoDup (cr_capability <$> routes) → r ∈ routes →
  last (List.filter (λ b, bool_decide (cr_capability b = cr_capability r)) routes) = Some r.
Proof.
  intros Hnd Hr. destruct (last _) as [b|] eqn:Hl.
  - apply last_elem_of, elem_of_filter_bool in Hl as [Hb Hc%bool_decide_eq_true]. f_equal.
    apply list_elem_of_lookup in Hr as [i Hi], Hb as [j Hj]. assert (i = j) as ->; [|congruence].
    eapply NoDup_lookup; [exact Hnd|..]; rewrite list_lookup_fmap; [by rewrite Hi|rewrite Hj; cbn; congruence].
  - exfalso. apply last_None in Hl.
    assert (r ∈ List.filter (λ b, bool_decide (cr_capability b = cr_capability r)) routes) as Hin
      by (apply elem_of_filter_bool; split; [done|by apply bool_decide_eq_true]).
    rewrite Hl in Hin. by apply elem_of_nil in Hin.
Qed.

Lemma route_eta r : {| cr_capability := cr_capability r; cr_providers := cr_providers r |} = r.
Proof. by destruct r. Qed.

(** An installed route is its own reconciliation. *)
Lemma reconciled_baseline symbol routes r :
  NoDup (cr_capability <$> routes) → "binance_wbeth_rate" ∉ cr_providers r → r ∈ routes →
  reconciled_route symbol routes r = r.
Proof.
  intros Hnd Hold Hr. unfold reconciled_route. rewrite migrated_same, route_eta by done.
  case_decide; [|done]. by rewrite route_by_capability.
Qed.

Lemma reconciled_route_idem symbol routes r :
  NoDup (cr_capability <$> routes) → (∀ b, b ∈ routes → "binance_wbeth_rate" ∉ cr_providers b) →
  reconciled_route symbol routes (reconciled_route symbol routes r) = reconciled_route symbol routes r.
Proof.
  intros Hnd Hold. set (renamed := {| cr_capability := cr_capability r; cr_providers := migrated_name <$> cr_providers r |}).
  assert (reconciled_route symbol routes r = renamed →
          reconciled_route symbol routes renamed = renamed ∨
          ∃ b, b ∈ routes ∧ reconciled_route symbol routes r = b) as Hren.
  { intros E. unfold reconciled_route at 1. cbn [cr_capability cr_providers renamed]. rewrite migrated_twice.
    fold renamed. case_decide as Hd; [|by left].
    destruct (migrated_new (cr_providers r)) as [Hsame|Hnew]; [|by apply previous_defaults_old in Hd].
    unfold reconciled_route in E |- *. fold renamed in E |- *. rewrite Hsame in Hd. rewrite decide_True in E |- * by done.
    destruct (last _) as [b|] eqn:Hl; [|by left]. right. exists b. split; [|done].
    by apply last_elem_of, elem_of_filter_bool in Hl as [? _]. }
  assert (reconciled_route symbol routes r = renamed ∨ ∃ b, b ∈ routes ∧ reconciled_route symbol routes r = b) as [E|(b & Hb & E)].
  { unfold reconciled_route. fold renamed. case_decide; [|by left].
    destruct (last _) as [b|] eqn:Hl; [|by left]. right. exists b. split; [|done].
    by apply last_elem_of, elem_of_filter_bool in Hl as [? _]. }
  - destruct (Hren E) as [Hr|(b & Hb & E')]; [by rewrite E|].
    rewrite E'. apply reconciled_baseline; auto.
  - rewrite E. apply reconciled_baseline; auto.
Qed.

Lemma routes_distinct d : definition_ok d → NoDup (cr_capability <$> md_routes d).
Proof.
  intros [Hd _ _ _ _ _ _]. unfold ManagedInstrumentDefinition_init in Hd.
  apply result_bind_ok in Hd as ([] & Hf & _). unfold check_fields in Hf.
  apply require_bind in Hf as [_ Hf]. apply result_bind_ok in Hf as ([] & _ & Hf).
  apply require_bind in Hf as [_ Hf]. do 2 apply result_bind_ok in Hf as ([] & _ & Hf).
  do 2 apply require_bind in Hf as [_ Hf]. apply result_bind_ok in Hf as (us & _ & Hf).
  do 2 apply require_bind in Hf as [_ Hf]. apply require_bind in Hf as [Hr _].
  by apply bool_decide_eq_true in Hr.
Qed.

Lemma reconcile_item_settled base d e : all_builtin base → e ∈ cg_instruments base →
  definition_ok d → reconciled_definition e d = d → reconcile_item base d = Ok d.
Proof.
  intros [Hb Hba] He Hd Hr. unfold reconcile_item.
  assert (md_ownership (reconciled_definition e d) = BUILTIN) as Ho by (cbn; by apply (Hba e He)).
  assert (md_id (reconciled_definition e d) = md_id e) as Hid by done.
  assert (md_symbol (reconciled_definition e d) = md_symbol e) as Hs by done.
  rewrite Hr in Ho, Hid, Hs.
  rewrite decide_False by (by rewrite Ho). rewrite Hid, by_id_unique by (try done; by apply accepted_names).
  rewrite bool_decide_eq_false_2 by (intros Hn; apply Hn; by rewrite Hs). cbn [raise_if mbind result_bind]. rewrite Hr.
  by apply definition_payload.
Qed.

Lemma reconciled_twice base e d : all_builtin base → current_names base → e ∈ cg_instruments base →
  md_symbol e = md_symbol d →
  reconciled_definition e (reconciled_definition e d) = reconciled_definition e d.
Proof.
  intros [[Hb _] _] Hcur He Hs. pose proof (routes_distinct e (Hb e He)) as Hnd.
  unfold reconciled_definition at 1 3. cbn. f_equal.
  - unfold reconciled_history. cbn.
    by destruct (hp_poll_seconds (md_history d)), (hp_poll_seconds (md_history e)).
  - rewrite <- Hs. unfold reconciled_builtin_routes. destruct (decide (md_routes d = [])) as [E|E].
    + case_decide; [done|]. rewrite <- (list_fmap_id (md_routes e)) at 3. apply list_fmap_ext.
      intros i r Hr%list_elem_of_lookup_2. by apply reconciled_baseline; eauto.
    + rewrite decide_False by (by destruct (md_routes d)). rewrite <- list_fmap_compose.
      apply list_fmap_ext. intros i r _. apply reconciled_route_idem; eauto.
Qed.

(** An installed instrument with other flags and intervals is as it should be. *)
Lemma reconciled_installed base e d : all_builtin base → current_names base → e ∈ cg_instruments base →
  core d = core e → md_routes d = md_routes e → md_history d = md_history e → reconciled_definition e d = d.
Proof.
  intros [[Hb _] Hba] Hcur He Hc Hr Hh. destruct (Hba e He) as [_ Ha]. unfold reconciled_definition.
  assert (reconciled_history (md_history e) (md_history d) = md_history d) as ->.
  { unfold reconciled_history. rewrite Hh. by destruct (md_history e) as [? [|] ?]. }
  assert ((if decide (md_routes d = []) then md_routes e
           else reconciled_builtin_routes (md_symbol d) (md_routes d) (md_routes e)) = md_routes d) as ->.
  { rewrite Hr. case_decide; [done|]. unfold reconciled_builtin_routes.
    rewrite <- (list_fmap_id (md_routes e)) at 3. apply list_fmap_ext. intros i r Hin%list_elem_of_lookup_2.
    apply reconciled_baseline; [by apply routes_distinct, Hb|by eapply Hcur|done]. }
  destruct d, e. unfold core in Hc. cbn in *. injection Hc. intros. by subst.
Qed.

Lemma protects_complete base g : all_builtin base → protects base g → missing base g = [].
Proof.
  intros [_ Hba] [_ Hp]. unfold missing. destruct (List.filter _ _) as [|e l] eqn:E; [done|].
  assert (e ∈ List.filter (λ d, negb (bool_decide (md_id d ∈ builtin_ids (cg_instruments g)))) (cg_instruments base)) as He
    by (rewrite E; by left).
  apply elem_of_filter_bool in He as [He Hn%negb_true_iff%bool_decide_eq_false]. destruct Hn.
  destruct (Hp e He) as (d & Hd & (Hid & _ & Ho & _)%core_same). apply elem_of_builtin_ids.
  exists d. split_and!; [done| |done]. rewrite Ho. by apply Hba.
Qed.

Lemma map_result_same {A} (f : A → result A) l : (∀ x, x ∈ l → f x = Ok x) → map_result f l = Ok l.
Proof.
  intros Hf. apply map_result_ok. induction l as [|x l IH]; constructor; [apply Hf; by left|].
  apply IH. intros y Hy. apply Hf. by right.
Qed.

(** A generation that reconciliation leaves as it is. *)
Definition settled (base g : CatalogGeneration) : Prop :=
  generation_ok g ∧ protects base g ∧ reconcile_generation g base = Ok g.

Lemma settled_by_items base g : all_builtin base → generation_ok g → protects base g →
  (∀ d, d ∈ cg_instruments g → reconcile_item base d = Ok d) → settled base g.
Proof.
  intros Hb Hg Hp Hd. split_and!; [done..|]. unfold reconcile_generation. rewrite map_result_same by done.
  cbn [mbind result_bind]. fold (missing base g). rewrite protects_complete, app_nil_r by done.
  destruct Hg as [_ Hg]. by rewrite build_accepted.
Qed.

Lemma reconciled_settled base g g' : all_builtin base → current_names base → generation_ok g →
  reconcile_generation g base = Ok g' → settled base g'.
Proof.
  intros Hb Hcur Hg Hr. destruct (reconciled_ok _ _ _ Hb Hg Hr) as [Hok Hp].
  apply settled_by_items; [done..|]. destruct (reconcile_spec _ _ _ Hb Hr) as (l & Hl & Hi & _).
  intros d. rewrite Hi, elem_of_app. intros [Hd|[Hd _]%elem_of_filter_bool].
  - destruct (Forall2_member_r _ _ _ _ Hl Hd)
      as (d0 & Hd0 & [[Hc ->]|(_ & e & He & _ & Hs & -> & Hdef)]%reconcile_item_spec); [| |done].
    + unfold reconcile_item. by rewrite decide_True.
    + apply reconcile_item_settled with e; [done..|]. by apply reconciled_twice with base.
  - pose proof Hb as [[Hbd _] Hba]. apply reconcile_item_settled with d; [done|done|by apply Hbd|].
    by apply reconciled_installed with base.
Qed.

Lemma registry_settled disabled overrides base g : current_names base →
  catalog_generation_from_registry rg [] ∅ = Ok base →
  catalog_generation_from_registry rg disabled overrides = Ok g → settled base g.
Proof.
  intros Hcur Hb Hg. pose proof (registry_builtin _ _ _ Hb) as Hbase.
  apply settled_by_items; [done|by eapply registry_generation|by eapply registry_protects|].
  intros d Hd. destruct (registry_generation _ _ _ Hb) as [_ Hlb], (registry_generation _ _ _ Hg) as [[Hok _] Hlg].
  destruct (Forall2_member_r _ _ _ _ Hlg Hd) as (i & Hi & Hid).
  destruct (Forall2_member_l _ _ _ _ Hlb Hi) as (e & He & Hie).
  destruct (installed_core _ _ _ _ _ _ _ _ Hid Hie) as (? & ? & ?).
  apply reconcile_item_settled with e; [done..|by apply Hok|]. by apply reconciled_installed with base.
Qed.

(** ** Documents *)

Definition each_generation (P : CatalogGeneration → Prop) (doc : ManagedCatalogDocument) : Prop :=
  P (cd_active doc) ∧ (∀ g, cd_staged doc = Some g → P g) ∧ (∀ g, cd_last_known_good doc = Some g → P g).

Lemma each_generation_only P g : P g → each_generation P (only_active g).
Proof. intros HP. by split; [|split]. Qed.

Lemma each_generation_mono (P Q : CatalogGeneration → Prop) doc :
  (∀ g, P g → Q g) → each_generation P doc → each_generation Q doc.
Proof. intros HPQ (? & ? & ?). split_and!; auto. Qed.

Lemma reraise_ok {A} E (m : result A) a : reraise_value_error E m = Ok a ↔ m = Ok a.
Proof. destruct m as [x|e]; cbn; [done|]. by destruct (value_error e). Qed.

Lemma reconcile_option_ok o base o' : reconcile_option o base = Ok o' →
  (o = None ∧ o' = None) ∨ ∃ g g', o = Some g ∧ o' = Some g' ∧ reconcile_generation g base = Ok g'.
Proof.
  destruct o as [g|]; cbn; [|intros [= <-]; by left]. destruct (reconcile_generation g base) as [g'|] eqn:E; [|done].
  intros [= <-]. right. by exists g, g'.
Qed.

(** What reconciliation gives to one generation it gives to a document. *)
Lemma reconcile_document_each (P : CatalogGeneration → Prop) base doc doc' :
  (∀ g g', generation_ok g → reconcile_generation g base = Ok g' → P g') →
  document_ok doc → reconcile_document doc base = Ok doc' → each_generation P doc'.
Proof.
  intros HP (Ha & Hs & Hl) (a & Ea & (s & Es & (l & El & [= <-])%result_bind_ok)%result_bind_ok)%reraise_ok%result_bind_ok.
  split_and!; cbn; [by eapply HP, Ea| |]; intros g ->.
  - apply reconcile_option_ok in Es as [[_ ?]|(g0 & g' & E0 & [= <-] & Hr)]; [done|]. eapply HP, Hr. by apply Hs.
  - apply reconcile_option_ok in El as [[_ ?]|(g0 & g' & E0 & [= <-] & Hr)]; [done|]. eapply HP, Hr. by apply Hl.
Qed.

Lemma reading_catalog_ok {A} (m : result A) a : reading_catalog m = Ok a → m = Ok a.
Proof.
  destruct m as [x|e]; [done|]. unfold reading_catalog. destruct e; try done.
  by repeat match goal with |- context [match ?x with _ => _ end] => destruct x end.
Qed.

(** Every document that is read comes from the registry or from a stored one. *)
Lemma load_each (P : CatalogGeneration → Prop) content doc b base :
  catalog_generation_from_registry rg [] ∅ = Ok base →
  (∀ disabled overrides g, catalog_generation_from_registry rg disabled overrides = Ok g → P g) →
  (∀ g g', generation_ok g → reconcile_generation g base = Ok g' → P g') →
  load_catalog_document content rg = Ok (doc, b) → each_generation P doc.
Proof.
  intros Hb Hreg Hrec Hl. unfold load_catalog_document in Hl. rewrite Hb in Hl. cbn [mbind result_bind] in Hl.
  destruct (truthy content); cbn [negb] in Hl; [|injection Hl as <- <-; by eapply each_generation_only, Hreg].
  apply result_bind_ok in Hl as (value & _ & Hl). cbv zeta in Hl. destruct (json_is_one _).
  - apply result_bind_ok in Hl as (policy & _ & Hl). apply result_bind_ok in Hl as (g & Hg & [= <- <-]).
    by eapply each_generation_only, Hreg.
  - apply result_bind_ok in Hl as (u & _ & Hl). destruct (normalize_legacy value) as [value' n].
    apply result_bind_ok in Hl as (parsed & Hp%reading_catalog_ok & Hl).
    apply result_bind_ok in Hl as (r & Hr & [= <- <-]).
    eapply reconcile_document_each, Hr; [done|]. unfold document_from_payload in Hp.
    apply payload_inv in Hp. by apply document_parsed in Hp.
Qed.

Lemma load_document_ok content doc b : load_catalog_document content rg = Ok (doc, b) → document_ok doc.
Proof.
  intros Hl. pose proof Hl as Hl'. unfold load_catalog_document in Hl'.
  destruct (catalog_generation_from_registry rg [] ∅) as [base|] eqn:Hb; [clear Hl'|done].
  eapply (load_each generation_ok); [exact Hb|by intros; eapply registry_generation| |exact Hl].
  intros g g' Hg Hr. by eapply reconciled_ok; [eapply registry_builtin| |].
Qed.

(** A valid document has no obsolete fallback. *)
Lemma normalize_definition d : definition_ok d → (normalize_instrument (definition_json d)).2 = false.
Proof.
  intros Hd. unfold normalize_instrument, definition_json.
  destruct (is_text _ _ && _); [|done].
  assert (json_lookup "income" (definition_items d) = Some (option_json income_json (md_income d))) as -> by reflexivity.
  destruct (md_income d) as [p|] eqn:Hp; cbn [option_json income_json]; [|done].
  pose proof (do_income _ Hd _ Hp) as Hi. unfold IncomePolicy_init in Hi. cbv zeta in Hi.
  do 7 apply require_bind in Hi as [_ Hi]. apply require_bind in Hi as [Hf _].
  assert (json_get "fallback_ratio_days"
    [("dividend_strategy", option_json JString (in_dividend_strategy p));
     ("expense_ratio_percent", option_json (λ q, JFloat (Some q)) (in_expense_ratio_percent p));
     ("fallback_ratio_days", option_json JInt (in_fallback_ratio_days p));
     ("fred_series", option_json JString (in_fred_series p));
     ("reward_accrual_mode", option_json (λ m, JString (RewardAccrualMode_value m)) (in_reward_accrual_mode p));
     ("underlying_asset", option_json JString (in_underlying_asset p));
     ("yield_strategy", option_json (λ s, JString (YieldStrategy_value s)) (in_yield_strategy p))] =
    option_json JInt (in_fallback_ratio_days p)) as -> by reflexivity.
  destruct (in_fallback_ratio_days p) as [n|]; [|done]. cbn in Hf |- *.
  apply negb_true_iff, bool_decide_eq_false, dec_stable in Hf. by rewrite Hf.
Qed.

Lemma normalize_valid g : generation_ok g → normalize_generation (generation_json g) = (generation_json g, false).
Proof.
  intros [Hd _]. unfold normalize_generation, generation_json. cbn [json_lookup String.eqb Ascii.eqb Bool.eqb].
  assert (existsb snd (normalize_instrument <$> (definition_json <$> cg_instruments g)) = false) as ->; [|done].
  induction (cg_instruments g) as [|d l IH]; [done|]. cbn [fmap list_fmap existsb].
  rewrite normalize_definition by (apply Hd; by left). apply IH. intros x Hx. apply Hd. by right.
Qed.

Lemma normalize_document doc items : document_ok doc → document_json doc = JObject items →
  normalize_legacy items = (items, false).
Proof.
  intros (Ha & Hs & Hl) [= <-].
  assert (∀ o : option CatalogGeneration, (∀ g, o = Some g → generation_ok g) →
    (normalize_generation (option_json generation_json o)).2 = false) as Hn.
  { intros [g|] Hg; [|done]. cbn [option_json]. by rewrite normalize_valid by auto. }
  set (items := [_; _; _; _]).
  assert (∀ name j, json_lookup name items = Some j → (normalize_generation j).2 = false →
    normalize_entry (items, false) name = (items, false)) as Hstep.
  { intros name j Hj Hf. unfold normalize_entry. cbn [fst]. by rewrite Hj, Hf. }
  unfold normalize_legacy. cbn [foldl].
  rewrite (Hstep "active" _ eq_refl) by by rewrite normalize_valid.
  rewrite (Hstep "staged" _ eq_refl) by by apply Hn. by rewrite (Hstep "last_known_good" _ eq_refl) by by apply Hn.
Qed.

Lemma reconcile_settled base doc : each_generation (settled base) doc → reconcile_document doc base = Ok doc.
Proof.
  intros ((_ & _ & Ha) & Hs & Hl). unfold reconcile_document. rewrite Ha. cbn [mbind result_bind].
  assert (∀ o, (∀ g, o = Some g → settled base g) → reconcile_option o base = Ok o) as Ho.
  { intros [g|] Hg; [|done]. cbn. destruct (Hg g eq_refl) as (_ & _ & ->). done. }
  rewrite !Ho by done. by destruct doc.
Qed.

(** A settled document is read back from its text as it is. *)
Lemma load_settled base doc content :
  catalog_generation_from_registry rg [] ∅ = Ok base → each_generation (settled base) doc →
  truthy content = true → mp_loads content = Some (document_json doc) →
  load_catalog_document content rg = Ok (doc, false).
Proof.
  intros Hb Hd Ht Hload. assert (document_ok doc) as Hok by (eapply each_generation_mono, Hd; by intros g []).
  unfold load_catalog_document. rewrite Hb, Ht. cbn [mbind result_bind negb].
  unfold read_catalog_json, read_json. rewrite Hload.
  destruct (document_json doc) as [| | | | | |items] eqn:Hj; try done. cbn [mbind result_bind]. cbv zeta.
  assert (json_get "version" items = JInt 2) as -> by (by injection Hj as <-).
  cbn [json_is_one json_is]. rewrite (normalize_document doc items) by done.
  change (bool_decide (2 = 1)) with false. change (bool_decide (2 = CATALOG_SCHEMA_VERSION)) with true.
  cbn [raise_if negb mbind result_bind]. rewrite <- Hj, document_payload by done. cbn [reading_catalog mbind result_bind].
  rewrite (reconcile_settled base) by done. cbn [mbind result_bind]. by rewrite bool_decide_eq_true_2.
Qed.

Lemma load_generations content doc b base :
  catalog_generation_from_registry rg [] ∅ = Ok base → load_catalog_document content rg = Ok (doc, b) →
  each_generation (λ g, generation_ok g ∧ protects base g) doc.
Proof.
  intros Hb. pose proof (registry_builtin _ _ _ Hb) as Hbase.
  apply load_each with base; [done| |by intros g g1 ? ?; apply reconciled_ok with g].
  intros disabled overrides g Hg. split; [by eapply registry_generation|by eapply registry_protects].
Qed.

Lemma load_all_settled content doc b base :
  catalog_generation_from_registry rg [] ∅ = Ok base → current_names base →
  load_catalog_document content rg = Ok (doc, b) → each_generation (settled base) doc.
Proof.
  intros Hb Hcur. pose proof (registry_builtin _ _ _ Hb) as Hbase.
  apply load_each with base; [done| |by intros; eapply reconciled_settled].
  intros disabled overrides g Hg. by eapply registry_settled.
Qed.

Lemma load_baseline content loaded : load_catalog_document content rg = Ok loaded →
  ∃ base, catalog_generation_from_registry rg [] ∅ = Ok base.
Proof.
  unfold load_catalog_document. destruct (catalog_generation_from_registry rg [] ∅) as [base|]; [by exists base|done].
Qed.

Lemma serialized doc content : serialize_catalog_document doc = Ok content →
  content = cp_dumps (document_json doc) +:+ newline ∧ size_of content ≤ MAX_CATALOG_FILE_BYTES ∧ truthy content = true.
Proof.
  unfold serialize_catalog_document. intros ([] & Hs%raise_if_ok%bool_decide_eq_false & [= <-])%result_bind_ok.
  split_and!; [done|lia|]. by destruct (cp_dumps (document_json doc)).
Qed.

End documents.

(** ** Properties *)

(** C29: whatever the file of the catalogue holds, the documents that are read from
    it keep the built-in instruments: every one of the registry is in every
    generation, every built-in instrument of a generation is one of the registry,
    and it agrees with it in all but the enabled flag, the two intervals, the
    history policy and the routes. *)
Theorem builtin_core_protected `{ManagedPrimitives} (rg : Registry) (content : string)
    (doc : ManagedCatalogDocument) (stale : bool)
    (Hload : load_catalog_document content rg = Ok (doc, stale)) :
  ∃ base, catalog_generation_from_registry rg [] ∅ = Ok base ∧
  each_generation (λ g,
    CatalogGeneration_init g = Ok g ∧
    (∀ d, d ∈ cg_instruments g → md_ownership d = BUILTIN →
       ∃ e, e ∈ cg_instruments base ∧ core d = core e) ∧
    (∀ e, e ∈ cg_instruments base → ∃ d, d ∈ cg_instruments g ∧ core d = core e)) doc.
Proof.
  destruct (load_baseline _ _ _ Hload) as [base Hb]. exists base. split; [done|].
  eapply each_generation_mono, (load_generations _ _ _ _ _ Hb Hload). by intros g [[_ ?] [? ?]].
Qed.

(** C30: what is written is read back unchanged: a document read from any of the
    formats of the file, once it is written, is the document that the next read
    gives, and that read finds nothing left to migrate.  The shipped symbols have
    the names of this release, and the text that was written parses back to what
    was serialised. *)
Theorem stored_catalogue_stable `{ManagedPrimitives} (rg : Registry) (content content' : string)
    (doc : ManagedCatalogDocument) (stale : bool) (base : CatalogGeneration)
    (Hbase : catalog_generation_from_registry rg [] ∅ = Ok base) (Hnames : current_names base)
    (Hload : load_catalog_document content rg = Ok (doc, stale))
    (Hwrite : serialize_catalog_document doc = Ok content')
    (Hread : mp_loads content' = Some (document_json doc)) :
  load_catalog_document content' rg = Ok (doc, false).
Proof.
  apply serialized in Hwrite as (_ & _ & Ht). by apply load_settled with base; [|eapply load_all_settled| |].
Qed.

(** The route of an installed instrument cannot be set back to an earlier
    default: the next reconciliation puts the present default in its place. *)
Lemma previous_default_reverted (routes : list CapabilityRoute) (r : CapabilityRoute) :
  NoDup (cr_capability <$> routes) → r ∈ routes → cr_capability r = QUOTE →
  reconciled_builtin_routes "STETH:USDC" [{| cr_capability := QUOTE; cr_providers := ["coingecko"] |}] routes = [r].
Proof.
  intros Hnd Hr Hc. unfold reconciled_builtin_routes, reconciled_route. cbn [fmap list_fmap cr_capability cr_providers].
  rewrite decide_True by (vm_compute; left). pose proof (route_by_capability routes r Hnd Hr) as Hl.
  rewrite Hc in Hl. by rewrite Hl.
Qed.

(** ** Examples *)

Lemma demo_names : current_names demo_base.
Proof.
  intros d r Hd Hr. revert d r Hd Hr.
  assert (Forall (λ d, Forall (λ r, "binance_wbeth_rate" ∉ cr_providers r) (md_routes d)) (cg_instruments demo_base)) as Hf.
  { refine (bool_decide_unpack _ _). by vm_compute. }
  intros d r Hd Hr. rewrite Forall_forall in Hf. specialize (Hf d Hd). rewrite Forall_forall in Hf. by apply Hf.
Qed.

Lemma builtin_core_protected_witness :
  ∃ base, @catalog_generation_from_registry demo_managed demo_registry [] ∅ = Ok base ∧
  ∀ e, e ∈ cg_instruments base → ∃ d, d ∈ cg_instruments demo_staged ∧ core d = core e.
Proof.
  destruct (@builtin_core_protected demo_managed demo_registry (demo_text demo_stored) demo_stored false demo_load_stored)
    as (base & Hb & _ & Hs & _).
  exists base. split; [done|]. by destruct (Hs demo_staged eq_refl) as (_ & _ & ?).
Defined.

Lemma stored_catalogue_stable_witness :
  @load_catalog_document demo_managed (demo_text demo_activated) demo_registry = Ok (demo_activated, false).
Proof.
  apply (@stored_catalogue_stable demo_managed demo_registry (demo_text demo_activated) (demo_text demo_activated)
           demo_activated false demo_base demo_base_built demo_names demo_load_activated);
    [by vm_compute|apply demo_loads_activated].
Defined.
