(* ===== verification/CatalogRegistryFacts.v ===== *)
(** * The registry of a stored catalogue

    [apply_instrument_policy] rebuilds the registry of the process from the
    plugins that are installed and the active generation of the file.  The
    registry exists for every document that can be read, and it holds exactly
    the active definitions. *)

From S2P Require Import Prelude PyStr PyTime Graph Domain PluginApi Registry Wire Json Analytics Policy Builtin.
From S2P Require Import AdminAccount.
From S2P Require Import Catalog CatalogFacts CatalogDocument CatalogDemo CatalogDocumentFacts.
From Stdlib Require Import Ascii QArith.

Local Open Scope string_scope.
Local Open Scope list_scope.
Local Open Scope Z_scope.

(** ** What a registry is filled with *)

Lemma add_alias_keeps item b raw b' : add_alias item b raw = Ok b' →
  bd_order b' = bd_order b ∧ bd_plugin_ids b' = bd_plugin_ids b.
Proof. unfold add_alias. intros [_ H]%check_bind. apply check_bind in H as [_ [= <-]]. done. Qed.

Lemma add_aliases_keep item l : ∀ b b', fold_result (add_alias item) b l = Ok b' →
  bd_order b' = bd_order b ∧ bd_plugin_ids b' = bd_plugin_ids b.
Proof.
  induction l as [|a l IH]; intros b b'; cbn [fold_result]; [by intros [= <-]|].
  intros (b1 & [<- <-]%add_alias_keeps & [-> ->]%IH)%result_bind_ok. done.
Qed.

Lemma add_instruments_keep l : ∀ b b', fold_result add_instrument b l = Ok b' →
  bd_order b' = bd_order b ++ (is_symbol <$> l) ∧ bd_plugin_ids b' = bd_plugin_ids b.
Proof.
  induction l as [|i l IH]; intros b b'; cbn [fold_result]; [intros [= <-]; by rewrite app_nil_r|].
  intros (b1 & Hi & [-> ->]%IH)%result_bind_ok. unfold add_instrument in Hi.
  apply result_bind_ok in Hi as (item & (-> & _)%validate_instrument_ok & Hi).
  apply check_bind in Hi as [_ [-> ->]%add_aliases_keep]. cbn. by rewrite <- (assoc_L (++)).
Qed.

(** The checks of a plugin apart from those of its instruments. *)
Definition plugin_ok (ids : list string) (p : InstrumentPlugin) : Prop :=
  truthy (strip (ip_plugin_id p)) = true ∧ strip (ip_plugin_id p) ∉ ids ∧ truthy (strip (ip_version p)) = true ∧
  (ip_instruments p = [] ∨ (negb (ip_has_installer p) && bool_decide (ip_provider_bindings p = []) &&
                            bool_decide (ip_synthetic_recipes p = [])) = false) ∧
  validate_plugin_routes p = Ok tt.

Definition next_plugin (p : InstrumentPlugin) (b : building) : building :=
  {| bd_order := bd_order b; bd_instruments := bd_instruments b; bd_aliases := bd_aliases b;
     bd_plugin_ids := strip (ip_plugin_id p) :: bd_plugin_ids b |}.

Lemma add_plugin_iff b p b' : add_plugin b p = Ok b' ↔
  plugin_ok (bd_plugin_ids b) p ∧ fold_result add_instrument (next_plugin p b) (ip_instruments p) = Ok b'.
Proof.
  unfold add_plugin, plugin_ok. cbv zeta. fold (next_plugin p b).
  assert (∀ {A} c msg (k : result A) r, (_ ← check c msg; k) = Ok r ↔ c = false ∧ k = Ok r) as Hc.
  { intros A c msg k r. split; [apply check_bind|by intros [-> ?]]. }
  rewrite !Hc. rewrite !negb_false_iff, bool_decide_eq_false.
  assert ((bool_decide (ip_instruments p ≠ []) && negb (ip_has_installer p) &&
           bool_decide (ip_provider_bindings p = []) && bool_decide (ip_synthetic_recipes p = [])) = false ↔
          ip_instruments p = [] ∨ (negb (ip_has_installer p) && bool_decide (ip_provider_bindings p = []) &&
                            bool_decide (ip_synthetic_recipes p = [])) = false) as ->.
  { destruct (ip_instruments p) as [|i l]; [cbn; tauto|]. rewrite bool_decide_eq_true_2 by done. cbn [andb].
    split; [by right|by intros [?|?]]. }
  split.
  - intros (H1 & H2 & H3 & H4 & ([] & H5 & H6)%result_bind_ok). done.
  - intros ((H1 & H2 & H3 & H4 & H5) & H6). rewrite H5. done.
Qed.

Lemma add_plugins_keep plugins : ∀ b b', fold_result add_plugin b plugins = Ok b' →
  bd_order b' = bd_order b ++ (is_symbol <$> concat (ip_instruments <$> plugins)) ∧
  ∀ x, x ∈ bd_plugin_ids b' ↔ x ∈ bd_plugin_ids b ∨ ∃ p, p ∈ plugins ∧ x = strip (ip_plugin_id p).
Proof.
  induction plugins as [|p l IH]; intros b b'; cbn [fold_result].
  { intros [= <-]. cbn. rewrite app_nil_r. split; [done|]. intros x. split; [by left|].
    intros [?|(p & Hp & _)]; [done|by apply elem_of_nil in Hp]. }
  intros (b1 & [_ [O1 P1]%add_instruments_keep]%add_plugin_iff & [O2 P2]%IH)%result_bind_ok. split.
  - rewrite O2, O1. cbn. by rewrite fmap_app, (assoc_L (++)).
  - intros x. rewrite P2, P1. cbn. rewrite elem_of_cons. setoid_rewrite elem_of_cons. naive_solver.
Qed.

(** ** The managed plugins *)

Section managed.
Context `{ManagedPrimitives} (doc : ManagedCatalogDocument).

Definition definitions_of (l : list InstrumentSpec) : list ManagedInstrumentDefinition :=
  omap (λ i, active_definition doc (is_symbol i)) l.

Definition managed_plugin_of (p : InstrumentPlugin) : InstrumentPlugin :=
  with_instruments p (omap (λ i, to_instrument_spec <$> active_definition doc (is_symbol i)) (ip_instruments p)).

Lemma definitions_specs l :
  omap (λ i, to_instrument_spec <$> active_definition doc (is_symbol i)) l = to_instrument_spec <$> definitions_of l.
Proof.
  induction l as [|i l IH]; [done|]. cbn. rewrite IH. by destruct (active_definition doc (is_symbol i)).
Qed.

Lemma definitions_app l1 l2 : definitions_of (l1 ++ l2) = definitions_of l1 ++ definitions_of l2.
Proof. apply omap_app. Qed.

Lemma managed_plugin_ok ids p : plugin_ok ids p → plugin_ok ids (managed_plugin_of p).
Proof.
  intros (? & ? & ? & Hi & ?). split_and!; [done..| |done]. destruct Hi as [Hi|]; [left|by right].
  cbn. by rewrite Hi.
Qed.

(** The plugins are accepted again, with the active definitions in the place of
    their instruments. *)
Lemma add_managed_plugins plugins : ∀ b b' m,
  fold_result add_plugin b plugins = Ok b' → bd_plugin_ids m = bd_plugin_ids b →
  let l := definitions_of (concat (ip_instruments <$> plugins)) in
  (∀ d, d ∈ l → definition_ok d) → NoDup (concat (names <$> l)) →
  (∀ x, x ∈ concat (names <$> l) → taken m x = false) →
  ∃ m', fold_result add_plugin m (managed_plugin_of <$> plugins) = Ok m' ∧ registered m m' l ∧
        bd_plugin_ids m' = bd_plugin_ids b'.
Proof.
  induction plugins as [|p plugins IH]; intros b b' m; cbv zeta.
  { intros [= <-] Hids _ _ _. exists m. split_and!; [done| |done]. destruct (add_all_managed [] m) as (m' & [= <-] & R);
      [by intros d ?%elem_of_nil|constructor|by intros x ?%elem_of_nil|done]. }
  cbn [fold_result fmap list_fmap concat]. fold (fmap (M := list) managed_plugin_of plugins).
  fold (fmap (M := list) ip_instruments plugins).
  intros (b1 & [Hp Hadd]%add_plugin_iff & Hrest)%result_bind_ok Hids.
  rewrite definitions_app, fmap_app, concat_app. intros Hok Hnd Hfree.
  pose proof Hnd as (Hnd1 & Hapart & Hnd2)%NoDup_app.
  destruct (add_all_managed (definitions_of (ip_instruments p)) (next_plugin p m)) as (m1 & E1 & R1).
  - intros d Hd. apply Hok, elem_of_app. by left.
  - done.
  - intros x Hx. apply Hfree, elem_of_app. by left.
  - pose proof (add_instruments_keep _ _ _ E1) as [_ K1]. pose proof (add_instruments_keep _ _ _ Hadd) as [_ K2].
    destruct (IH b1 b' m1 Hrest) as (m' & E2 & R2 & Hids2).
    + rewrite K1, K2. cbn. by rewrite Hids.
    + intros d Hd. apply Hok, elem_of_app. by right.
    + done.
    + intros x Hx. apply taken_iff. destruct (rd_others _ _ _ R1 x) as [-> ->]; [intros Hx1; by apply (Hapart x)|].
      apply taken_iff, Hfree, elem_of_app. by right.
    + exists m'. split_and!; [|eapply registered_trans; [done| |exact R2]; by destruct R1|done].
      assert (add_plugin m (managed_plugin_of p) = Ok m1) as ->; [|exact E2].
      apply add_plugin_iff. split; [apply managed_plugin_ok; by rewrite Hids|].
      cbn. by rewrite definitions_specs.
Qed.

End managed.

(** ** The active definitions, in the order of their plugins *)

Section registry.
Context `{ManagedPrimitives} (rg : Registry) (plugins : list InstrumentPlugin).
Context (Hbuild : build_registry plugins = Ok rg).

Lemma built_from : ∃ b, fold_result add_plugin
    {| bd_order := []; bd_instruments := ∅; bd_aliases := ∅; bd_plugin_ids := [] |} plugins = Ok b ∧
  plugins ≠ [] ∧ rg_plugins rg = plugins ∧ rg_order rg = bd_order b ∧
  validate_cross_plugin_synthetic_routes plugins = Ok tt.
Proof.
  unfold build_registry in Hbuild. apply check_bind in Hbuild as [Hne%bool_decide_eq_false Hb].
  apply result_bind_ok in Hb as (b & Hb & ([] & Hc & [= <-])%result_bind_ok). by exists b.
Qed.

Lemma order_of_plugins : rg_order rg = is_symbol <$> concat (ip_instruments <$> plugins).
Proof. destruct built_from as (b & [-> _]%add_plugins_keep & _ & _ & -> & _). done. Qed.

Lemma order_distinct : NoDup (rg_order rg).
Proof. by destruct (build_registry_ok _ _ Hbuild) as [[(_ & _ & ? & _) _] _]. Qed.

Context (doc : ManagedCatalogDocument) (Hgen : generation_ok (cd_active doc)).

Definition custom_definitions : list ManagedInstrumentDefinition :=
  List.filter (λ d, negb (bool_decide (md_symbol d ∈ rg_order rg)) && active d) (cg_instruments (cd_active doc)).

Definition managed_definitions : list ManagedInstrumentDefinition :=
  definitions_of doc (concat (ip_instruments <$> plugins)) ++ custom_definitions.

Lemma active_definition_some symbol d : active_definition doc symbol = Some d ↔
  d ∈ cg_instruments (cd_active doc) ∧ active d = true ∧ md_symbol d = symbol.
Proof.
  unfold active_definition. split.
  - intros [Hd [Ha Hs%bool_decide_eq_true]%andb_true_iff]%last_elem_of%elem_of_filter_bool. done.
  - intros (Hd & Ha & Hs). destruct (last _) as [e|] eqn:E.
    + apply last_elem_of, elem_of_filter_bool in E as [He [_ Hes%bool_decide_eq_true]%andb_true_iff]. f_equal.
      destruct (accepted_names _ Hgen) as [_ Hnd]. apply list_elem_of_lookup in Hd as [i Hi], He as [j Hj].
      assert (i = j) as ->; [|congruence].
      eapply NoDup_lookup; [exact Hnd|..]; rewrite list_lookup_fmap; [by rewrite Hi|rewrite Hj; cbn; congruence].
    + exfalso. apply last_None in E. apply (not_elem_of_nil d). rewrite <- E.
      apply elem_of_filter_bool. split; [done|]. by rewrite Ha, Hs, bool_decide_eq_true_2.
Qed.

Lemma elem_of_definitions d l : d ∈ definitions_of doc l ↔
  d ∈ cg_instruments (cd_active doc) ∧ active d = true ∧ md_symbol d ∈ is_symbol <$> l.
Proof.
  unfold definitions_of. rewrite list_elem_of_omap. setoid_rewrite active_definition_some.
  rewrite list_elem_of_fmap. naive_solver.
Qed.

Lemma elem_of_managed d : d ∈ managed_definitions ↔ d ∈ cg_instruments (cd_active doc) ∧ active d = true.
Proof.
  unfold managed_definitions, custom_definitions.
  rewrite elem_of_app, elem_of_definitions, <- order_of_plugins, elem_of_filter_bool, andb_true_iff, negb_true_iff,
    bool_decide_eq_false. destruct (decide (md_symbol d ∈ rg_order rg)); naive_solver.
Qed.

Lemma definitions_distinct l : NoDup (is_symbol <$> l) → NoDup (md_symbol <$> definitions_of doc l).
Proof.
  induction l as [|i l IH]; cbn; [done|]. intros [Hi Hl]%NoDup_cons.
  destruct (active_definition doc (is_symbol i)) as [d|] eqn:E; [|by apply IH]. cbn. apply NoDup_cons. split; [|by apply IH].
  apply active_definition_some in E as (_ & _ & ->).
  intros (d' & Hs & (_ & _ & Hd')%elem_of_definitions)%list_elem_of_fmap. apply Hi. by rewrite Hs.
Qed.

Lemma managed_distinct : NoDup managed_definitions.
Proof.
  assert (NoDup (md_symbol <$> managed_definitions)) as Hs; [|by apply NoDup_fmap_1 in Hs].
  unfold managed_definitions. rewrite fmap_app. apply NoDup_app. split_and!.
  - apply definitions_distinct. rewrite <- order_of_plugins. apply order_distinct.
  - intros s (d & -> & (_ & _ & Hd)%elem_of_definitions)%list_elem_of_fmap (e & Hse & He)%list_elem_of_fmap.
    unfold custom_definitions in He. apply elem_of_filter_bool in He as [_ [Hn _]%andb_true_iff].
    apply negb_true_iff, bool_decide_eq_false in Hn. apply Hn. by rewrite <- Hse, order_of_plugins.
  - destruct (accepted_names _ Hgen) as [_ Hnd]. unfold custom_definitions.
    induction (cg_instruments (cd_active doc)) as [|d l IH]; [constructor|]. cbn [List.filter fmap list_fmap] in *.
    apply NoDup_cons in Hnd as [Hd Hl]. destruct (_ && _); [|by apply IH]. cbn. apply NoDup_cons. split; [|by apply IH].
    intros (e & Hse & [He _]%elem_of_filter_bool)%list_elem_of_fmap. apply Hd. rewrite Hse. by apply list_elem_of_fmap_2.
Qed.

Lemma managed_names : NoDup (concat (names <$> managed_definitions)).
Proof.
  assert (managed_definitions ≡ₚ List.filter active (cg_instruments (cd_active doc))) as Hp.
  { apply NoDup_Permutation; [apply managed_distinct| |intros d; by rewrite elem_of_managed, elem_of_filter_bool].
    destruct (accepted_names _ Hgen) as [_ Hnd]. apply NoDup_fmap_1 in Hnd.
    rewrite NoDup_ListNoDup in *. by apply List.NoDup_filter. }
  assert (∀ l : list ManagedInstrumentDefinition, concat (names <$> l) = l ≫= names) as Hbind
    by (intros l; induction l as [|d l IH]; [done|]; cbn; by rewrite <- IH).
  rewrite Hbind, Hp, <- Hbind. apply names_filter. destruct Hgen as [Hd Hg].
  unfold CatalogGeneration_init in Hg. do 3 apply require_bind in Hg as [_ Hg].
  apply result_bind_ok in Hg as ([] & Hg & _). by apply validate_instruments_iff in Hg as [_ ? _ _ _].
Qed.

Definition custom_plugin : InstrumentPlugin :=
  {| ip_plugin_id := "managed-custom"; ip_version := "2"; ip_instruments := to_instrument_spec <$> custom_definitions;
     ip_has_installer := true; ip_provider_bindings := []; ip_synthetic_recipes := [] |}.

Lemma managed_plugins_eq : managed_plugins doc rg =
  (managed_plugin_of doc <$> plugins) ++ (if decide (custom_definitions = []) then [] else [custom_plugin]).
Proof.
  destruct built_from as (b & _ & _ & Hp & _). unfold managed_plugins. rewrite Hp.
  fold (custom_definitions). unfold custom_plugin.
  destruct (decide (custom_definitions = [])) as [->|Hn]; [by rewrite app_nil_r|].
  rewrite decide_False; [done|]. intros E%fmap_nil_inv. done.
Qed.

(** The managed plugins fill a registry with the active definitions. *)
Lemma managed_plugins_fill :
  (∀ p, p ∈ plugins → strip (ip_plugin_id p) ≠ "managed-custom") →
  ∃ b, fold_result add_plugin {| bd_order := []; bd_instruments := ∅; bd_aliases := ∅; bd_plugin_ids := [] |}
         (managed_plugins doc rg) = Ok b ∧ filled b managed_definitions ∧
       bd_order b = md_symbol <$> managed_definitions.
Proof.
  intros Hfree. destruct built_from as (b & Hfold & _).
  pose proof managed_names as Hnames. unfold managed_definitions in *. rewrite fmap_app, concat_app in Hnames.
  pose proof Hnames as (Hnd1 & Hapart & Hnd2)%NoDup_app.
  assert (∀ d, d ∈ cg_instruments (cd_active doc) → definition_ok d) as Hok by apply Hgen.
  edestruct (add_managed_plugins doc plugins _ _ {| bd_order := []; bd_instruments := ∅; bd_aliases := ∅; bd_plugin_ids := [] |} Hfold)
    as (m & E & R & Hids); [done|by intros d [Hd _]%elem_of_definitions; apply Hok|done
      |by intros x _; apply taken_iff; split; apply lookup_empty|].
  rewrite managed_plugins_eq. destruct (decide (custom_definitions = [])) as [En|En].
  { exists m. rewrite !app_nil_r, En, app_nil_r. split_and!; [done|by eexists; split_and!; [..|exact R]|].
    by rewrite (rd_order _ _ _ R). }
  destruct (add_all_managed custom_definitions (next_plugin custom_plugin m)) as (m' & E' & R').
  - intros d [Hd _]%elem_of_filter_bool. by apply Hok.
  - done.
  - intros x Hx. apply taken_iff. destruct (rd_others _ _ _ R x) as [E1 E2]; [intros Hx1; by apply (Hapart x)|].
    cbn in E1, E2. rewrite lookup_empty in E1. rewrite lookup_empty in E2. done.
  - exists m'. rewrite fold_result_app, E. cbn [mbind result_bind fold_result].
    assert (add_plugin m custom_plugin = Ok m') as ->.
    { apply add_plugin_iff. split; [|exact E']. split_and!; [done| |done|by right|by vm_compute].
      rewrite Hids. intros [Hx|(p & Hp & Hx)]%(add_plugins_keep _ _ _ Hfold); [by apply elem_of_nil in Hx|].
      by apply (Hfree p). }
    assert (registered {| bd_order := []; bd_instruments := ∅; bd_aliases := ∅; bd_plugin_ids := [] |} m'
              (definitions_of doc (concat (ip_instruments <$> plugins)) ++ custom_definitions)) as R2.
    { eapply registered_trans; [done|exact R|]. by destruct R'. }
    split_and!; [done|by eexists; split_and!; [..|exact R2]|]. by rewrite (rd_order _ _ _ R2).
Qed.

Lemma managed_recipes :
  concat (ip_synthetic_recipes <$> managed_plugins doc rg) = concat (ip_synthetic_recipes <$> plugins).
Proof.
  rewrite managed_plugins_eq, fmap_app, concat_app.
  assert (concat (ip_synthetic_recipes <$> (if decide (custom_definitions = []) then [] else [custom_plugin])) = []) as ->
    by by case_decide.
  rewrite app_nil_r, <- list_fmap_compose. done.
Qed.

End registry.

(** ** Properties *)

(** C28: the file decides what the service serves: whatever it holds, if it can be
    read, and if no installed plugin is called managed-custom, the registry of the process exists, its symbols are those of the
    active definitions, and a spelling resolves to the specification of the one
    active definition that has it as its symbol or an alias, or to nothing. *)
Theorem managed_registry_serves `{ManagedPrimitives} (plugins : list InstrumentPlugin) (rg : Registry)
    (content : string) (doc : ManagedCatalogDocument) (stale : bool)
    (Hbuild : build_registry plugins = Ok rg)
    (Hfree : ∀ p, p ∈ plugins → strip (ip_plugin_id p) ≠ "managed-custom")
    (Hload : load_catalog_document content rg = Ok (doc, stale)) :
  let instruments := cg_instruments (cd_active doc) in
  ∃ rg', apply_instrument_policy rg content = Ok rg' ∧
  (∀ s, s ∈ symbols rg' ↔ s ∈ active_symbols instruments) ∧
  ∀ v i, resolve rg' v = Some i ↔
    ∃ d, d ∈ instruments ∧ active d = true ∧ normalize_symbol v ∈ names d ∧ i = to_instrument_spec d.
Proof.
  cbv zeta. assert (document_ok doc) as [Hgen _] by by eapply load_document_ok.
  pose proof (elem_of_managed rg plugins Hbuild doc Hgen) as Hin.
  destruct (managed_plugins_fill rg plugins Hbuild doc Hgen Hfree) as (b & Hb & Hfilled & Horder).
  destruct (built_from rg plugins Hbuild) as (_ & _ & Hne & _ & _ & Hcross).
  exists {| rg_plugins := managed_plugins doc rg; rg_order := bd_order b; rg_instruments := bd_instruments b;
            rg_aliases := bd_aliases b |}. split_and!.
  - unfold apply_instrument_policy. rewrite Hload. cbn [mbind result_bind fst]. unfold build_registry.
    rewrite check_false, Hb.
    + cbn [mbind result_bind]. unfold validate_cross_plugin_synthetic_routes in Hcross |- *.
      by rewrite (managed_recipes rg plugins Hbuild), Hcross.
    + apply bool_decide_eq_false. rewrite (managed_plugins_eq rg plugins Hbuild). by destruct plugins.
  - intros s. cbn [symbols rg_order]. rewrite Horder. unfold active_symbols. rewrite !list_elem_of_fmap.
    setoid_rewrite Hin. by setoid_rewrite elem_of_filter_bool.
  - intros v i. rewrite (registry_names _ b (managed_definitions rg plugins doc)) by done. setoid_rewrite Hin. naive_solver.
Qed.

Lemma managed_registry_serves_witness :
  ∃ rg', @apply_instrument_policy demo_managed demo_registry (demo_text demo_activated) = Ok rg' ∧
  resolve rg' "eth/usdc" = Some (to_instrument_spec demo_custom).
Proof.
  destruct (@managed_registry_serves demo_managed demo_plugins demo_registry (demo_text demo_activated) demo_activated
              false demo_built ltac:(by intros p ->%list_elem_of_singleton) demo_load_activated) as (rg' & Hrg & _ & Hr).
  exists rg'. split; [done|]. apply Hr. exists demo_custom. split; [|split_and!; [done|by left|done]].
  change (demo_custom ∈ cg_instruments demo_base ++ [demo_custom]). apply elem_of_app. right. by left.
Defined.
