(* ===== verification/CatalogStoreFacts.v ===== *)
(** * Theorems on the managed catalogue store

    A request replaces the file only if it saw its current content and nobody
    else holds the activation lease; a lease excludes every other writer, and a
    failed activation puts the captured file back; an activation and its
    rollback exchange the two generations. *)

From S2P Require Import Prelude PyStr PyState PyTime Domain PluginApi Registry Wire Json Analytics Policy.
From S2P Require Import AdminAccount.
From S2P Require Import Catalog CatalogFacts CatalogDocument CatalogStore CatalogEdits CatalogDemo CatalogDocumentFacts.
From Stdlib Require Import Ascii QArith.

Local Open Scope string_scope.
Local Open Scope list_scope.
Local Open Scope Z_scope.

Lemma comp_bind_eq {S A B} (m : comp S A) (k : A → comp S B) s :
  (m ≫= k) s = match (m s).2 with Ok a => k a (m s).1 | Raise e => ((m s).1, Raise e) end.
Proof. unfold mbind, comp_bind. by destruct (m s) as [s' [a|e]]. Qed.

Section store.
Context `{ManagedPrimitives} (catalog : Registry).

(** What a locked read gives: it never changes the store. *)
Definition reading (s : InstrumentPolicyStore) : result (string * ManagedCatalogDocument) :=
  _ ← validate_integrity_permissions (ps_path s) (ps_parent_mode s);
  content ← read_bytes (ps_path s) MAX_CATALOG_FILE_BYTES;
  loaded ← load_catalog_document content catalog;
  Ok (content, loaded.1).

Lemma check_path_eq s : check_path s = (s, validate_integrity_permissions (ps_path s) (ps_parent_mode s)).
Proof. done. Qed.

Lemma read_file_eq s : read_file s = (s, read_bytes (ps_path s) MAX_CATALOG_FILE_BYTES).
Proof. done. Qed.

Lemma read_locked_eq s : read_locked catalog s = (s, reading s).
Proof.
  unfold read_locked, reading. rewrite comp_bind_eq, check_path_eq. cbn [fst snd].
  destruct (validate_integrity_permissions (ps_path s) (ps_parent_mode s)) as [u|e]; [|done].
  rewrite comp_bind_eq, read_file_eq. cbn [fst snd mbind result_bind].
  destruct (read_bytes (ps_path s) MAX_CATALOG_FILE_BYTES) as [c|e]; [|done].
  rewrite comp_bind_eq. cbn. by destruct (load_catalog_document c catalog).
Qed.

Lemma catalog_snapshot_eq s :
  catalog_snapshot catalog s = (s, r ← reading s; Ok (snapshot_of s r.1 r.2)).
Proof.
  unfold catalog_snapshot. rewrite comp_bind_eq, read_locked_eq. cbn. by destruct (reading s) as [[c d]|e].
Qed.

(** The activation lease allows a write with this token. *)
Definition lease_allows (s : InstrumentPolicyStore) (token : option TransitionToken) : bool :=
  match ps_transition_id s with
  | Some id => bool_decide (tk_lease_id <$> token = Some id)
  | None => true
  end.

Lemma write_locked_eq doc token outcome s :
  write_locked doc token outcome s =
    if lease_allows s token then
      match serialize_catalog_document doc with
      | Ok content => write_file content outcome s
      | Raise e => (s, Raise e)
      end
    else (s, Raise in_progress).
Proof.
  unfold write_locked, lease_allows. rewrite !comp_bind_eq. cbn.
  destruct (ps_transition_id s) as [id|]; cbn; [case_bool_decide; cbn|]; rewrite ?comp_bind_eq; cbn; try done.
  all: by destruct (serialize_catalog_document doc).
Qed.

(** What a request that reaches the write has checked. *)
Record admitted (rev : string) (token : option TransitionToken)
    (f : ManagedCatalogDocument → result ManagedCatalogDocument) (s : InstrumentPolicyStore)
    (content : string) (doc updated : ManagedCatalogDocument) (content' : string) : Prop := {
  ad_reading : reading s = Ok (content, doc);
  ad_revision : hmac_compare_revision (revision content) rev = true;
  ad_lease : lease_allows s token = true;
  ad_updated : f doc = Ok updated;
  ad_content : serialize_catalog_document updated = Ok content';
}.

Definition written (content : string) (s : InstrumentPolicyStore) : InstrumentPolicyStore :=
  set_path (CatalogFile true 384 content) s.

Lemma reading_path s content doc : reading s = Ok (content, doc) →
  (∃ stale, load_catalog_document content catalog = Ok (doc, stale)) ∧
  validate_integrity_permissions (ps_path s) (ps_parent_mode s) = Ok tt ∧
  read_bytes (ps_path s) MAX_CATALOG_FILE_BYTES = Ok content.
Proof.
  unfold reading. intros ([] & Hv & (c & Hc & ([d b] & Hl & [= <- <-])%result_bind_ok)%result_bind_ok)%result_bind_ok.
  split_and!; [by exists b|done..].
Qed.

Lemma write_file_eq content outcome s c : read_bytes (ps_path s) MAX_CATALOG_FILE_BYTES = Ok c →
  write_file content outcome s =
    match outcome with
    | Written => (written content s, Ok tt)
    | WriteFailed replaced e => (if replaced then written content s else s, Raise e)
    end.
Proof.
  intros Hr. unfold write_file, write_bytes. destruct (ps_path s) eqn:Ep; try done; destruct outcome as [|[] e]; try done.
  all: cbn; unfold set_path; rewrite <- Ep; by destruct s.
Qed.

Lemma replace_document_cases rev token outcome f s s' r :
  replace_document catalog rev token outcome f s = (s', r) →
  (s' = s ∧ ∃ e, r = Raise e) ∨
  (∃ content doc updated content', admitted rev token f s content doc updated content' ∧ s' = written content' s ∧
     ∀ snap, r = Ok snap → outcome = Written ∧ catalog_snapshot catalog s' = (s', Ok snap)).
Proof.
  unfold replace_document. rewrite comp_bind_eq, read_locked_eq. cbn.
  destruct (reading s) as [[content doc]|e] eqn:Hr; [|intros [= <- <-]; left; eauto].
  rewrite comp_bind_eq. cbn. unfold assert_content.
  destruct (hmac_compare_revision (revision content) rev) eqn:Hrev; cbn; [|intros [= <- <-]; left; eauto].
  rewrite comp_bind_eq. cbn. destruct (f doc) as [updated|e] eqn:Hf; [|intros [= <- <-]; left; eauto].
  rewrite comp_bind_eq, write_locked_eq. cbn [fst lift]. destruct (lease_allows s token) eqn:Hlease; [|intros [= <- <-]; left; eauto].
  destruct (serialize_catalog_document updated) as [content'|e] eqn:Hs; [|intros [= <- <-]; left; eauto].
  pose proof (reading_path _ _ _ Hr) as (_ & _ & Hb). rewrite (write_file_eq _ _ _ _ Hb).
  destruct outcome as [|[] e]; cbn; [| |intros [= <- <-]; left; eauto].
  - intros Hsnap. right. exists content, doc, updated, content'. split; [done|].
    assert (s' = written content' s) as -> by (rewrite catalog_snapshot_eq in Hsnap; congruence). split; [done|].
    intros snap ->. by split.
  - intros [= <- <-]. right. exists content, doc, updated, content'. by split_and!.
Qed.

Lemma reading_written s content doc stale :
  writable_by_others (ps_parent_mode s) = false → size_of content ≤ MAX_CATALOG_FILE_BYTES →
  load_catalog_document content catalog = Ok (doc, stale) → reading (written content s) = Ok (content, doc).
Proof.
  intros Hp Hs Hl. unfold reading, written. cbn [ps_path set_path ps_parent_mode].
  unfold validate_integrity_permissions. cbn [path_exists negb raise_if mbind result_bind].
  change (writable_by_others 384) with false. cbn [raise_if mbind result_bind]. rewrite Hp.
  cbn [raise_if mbind result_bind read_bytes]. rewrite bool_decide_eq_false_2 by lia.
  cbn [raise_if mbind result_bind]. by rewrite Hl.
Qed.

(** What a request that is admitted does with each outcome of the write. *)
Lemma replace_document_admitted rev token outcome f s content doc updated content' :
  admitted rev token f s content doc updated content' →
  replace_document catalog rev token outcome f s =
    match outcome with
    | Written => catalog_snapshot catalog (written content' s)
    | WriteFailed replaced e => (if replaced then written content' s else s, Raise e)
    end.
Proof.
  intros [Hr Hrev Hlease Hf Hs]. pose proof (reading_path _ _ _ Hr) as (_ & _ & Hbytes).
  unfold replace_document. rewrite comp_bind_eq, read_locked_eq, Hr. cbn [fst snd].
  rewrite comp_bind_eq. unfold lift, assert_content. cbn [fst snd]. rewrite Hrev. cbn [raise_if negb].
  rewrite comp_bind_eq, Hf. cbn [fst snd]. rewrite comp_bind_eq, write_locked_eq, Hlease, Hs, (write_file_eq _ _ _ _ Hbytes).
  by destruct outcome.
Qed.

(** A request whose new document is settled and can be read back succeeds. *)
Lemma replace_document_settled base rev token f s content doc updated content' :
  catalog_generation_from_registry catalog [] ∅ = Ok base → each_generation (settled base) updated →
  writable_by_others (ps_parent_mode s) = false →
  admitted rev token f s content doc updated content' → mp_loads content' = Some (document_json updated) →
  let s' := written content' s in
  replace_document catalog rev token Written f s = (s', Ok (snapshot_of s' content' updated)) ∧
  reading s' = Ok (content', updated).
Proof.
  intros Hb Hset Hp [Hr Hrev Hlease Hf Hs] Hload. cbv zeta.
  pose proof (serialized _ _ Hs) as (_ & Hsize & Ht).
  pose proof (load_settled catalog base updated content' Hb Hset Ht Hload) as Hl.
  pose proof (reading_written s content' updated false Hp Hsize Hl) as Hw. split; [|done].
  rewrite (replace_document_admitted rev token Written f s content doc updated content' ltac:(by split)).
  by rewrite catalog_snapshot_eq, Hw.
Qed.

(** ** Sequences of operations *)

(** The methods that other requests may call. *)
Inductive store_op :=
| OpEdit (e : catalog_edit) (expected_revision : string) (token : option TransitionToken) (outcome : write_outcome)
| OpCapture (expected_revision lease_id : string)
| OpCommit (token : option TransitionToken) (expected_revision : string)
| OpAbort (token : option TransitionToken)
| OpRestore (token : option TransitionToken) (expected_revision : string) (outcome : write_outcome)
| OpMigrate (backup_outcome outcome : write_outcome)
| OpApplied (revision : option string).

Definition run_op (s : InstrumentPolicyStore) (op : store_op) : InstrumentPolicyStore :=
  match op with
  | OpEdit e rev token outcome => (edit catalog e rev token outcome s).1
  | OpCapture rev id => (capture_transition catalog rev id s).1
  | OpCommit token rev => (commit_transition token rev s).1
  | OpAbort token => (abort_transition token s).1
  | OpRestore token rev outcome => (restore_transition catalog token rev outcome s).1
  | OpMigrate backup outcome => (persist_migration catalog backup outcome s).1
  | OpApplied rev => (mark_runtime_applied catalog rev s).1
  end.

Definition holds (id : string) (token : option TransitionToken) : Prop := tk_lease_id <$> token = Some id.

(** An operation that does not end the lease [id]. *)
Definition harmless (id : string) (op : store_op) : Prop :=
  match op with
  | OpCommit token _ | OpAbort token | OpRestore token _ _ => ¬ holds id token
  | _ => True
  end.

(** An operation of somebody who does not hold the lease [id]. *)
Definition foreign (id : string) (op : store_op) : Prop :=
  harmless id op ∧ match op with OpEdit _ _ token _ => ¬ holds id token | _ => True end.

Lemma assert_transition_eq token s :
  assert_transition token s =
    (s, raise_if (negb (bool_decide (is_Some (ps_transition_id s) ∧ tk_lease_id <$> token = ps_transition_id s)))
          (RevisionConflictError "instrument catalog activation lease is not current")).
Proof. done. Qed.

Lemma assert_foreign id token s : ps_transition_id s = Some id → ¬ holds id token →
  ∃ e, assert_transition token s = (s, Raise e).
Proof.
  intros Hid Hn. rewrite assert_transition_eq, bool_decide_eq_false_2; [by eexists|]. rewrite Hid. by intros [_ ?].
Qed.

Lemma edit_keeps e rev token outcome s :
  let s' := (edit catalog e rev token outcome s).1 in
  (∃ p, s' = set_path p s) ∧ (lease_allows s token = false → s' = s).
Proof.
  cbv zeta. unfold edit. destruct (replace_document catalog rev _ outcome (edited catalog e) s) as [s' r] eqn:E.
  apply replace_document_cases in E as [[-> _]|(c & d & u & c' & [_ _ Hl _ _] & -> & _)]; cbn [fst].
  - split; [|done]. exists (ps_path s). by destruct s.
  - split; [by eexists|]. intros Hn. exfalso. revert Hl Hn. unfold lease_allows.
    destruct (ps_transition_id s) as [id|]; [|done]. rewrite !bool_decide_eq_true, bool_decide_eq_false.
    by destruct e.
Qed.

Lemma harmless_step id s op : ps_transition_id s = Some id → harmless id op →
  let s' := run_op s op in
  ps_transition_id s' = Some id ∧ ps_parent_mode s' = ps_parent_mode s ∧ (foreign id op → ps_path s' = ps_path s).
Proof.
  intros Hid Hop. cbv zeta. destruct op as [e rev token outcome|rev lease|token rev|token|token rev outcome|b o|rev]; cbn [run_op].
  - destruct (edit_keeps e rev token outcome s) as [[p Hp] Hl]. split_and!; [by rewrite Hp|by rewrite Hp|].
    intros [_ Hn]. rewrite Hl; [done|]. unfold lease_allows. rewrite Hid. by apply bool_decide_eq_false.
  - unfold capture_transition. rewrite comp_bind_eq. cbn [gets fst snd]. rewrite comp_bind_eq. unfold lift. cbn [fst snd].
    rewrite Hid. by rewrite bool_decide_eq_true_2 by eauto.
  - destruct (assert_foreign id token s Hid Hop) as [e He]. unfold commit_transition. by rewrite comp_bind_eq, He.
  - destruct (assert_foreign id token s Hid Hop) as [e He]. unfold abort_transition. by rewrite comp_bind_eq, He.
  - unfold restore_transition. destruct token as [t|]; [|done].
    rewrite comp_bind_eq. unfold lift. cbn [fst snd]. destruct (raise_if _ _); [|done].
    rewrite comp_bind_eq. cbn [fst snd]. destruct (load_catalog_document (tk_content t) catalog); [|done].
    destruct (assert_foreign id (Some t) s Hid Hop) as [e He]. by rewrite comp_bind_eq, He.
  - unfold persist_migration. rewrite comp_bind_eq. cbn [gets fst snd]. rewrite comp_bind_eq. unfold lift. cbn [fst snd].
    rewrite Hid. by rewrite bool_decide_eq_true_2 by eauto.
  - unfold mark_runtime_applied. rewrite comp_bind_eq, read_file_eq. cbn [fst snd].
    destruct (read_bytes (ps_path s) MAX_CATALOG_FILE_BYTES) as [c|]; [|done].
    rewrite comp_bind_eq. unfold lift. cbn [fst snd]. destruct (raise_if _ _); [|done].
    rewrite comp_bind_eq. cbn [fst snd]. by destruct (load_catalog_document c catalog).
Qed.

Lemma harmless_steps id ops : ∀ s, ps_transition_id s = Some id → Forall (harmless id) ops →
  let s' := foldl run_op s ops in
  ps_transition_id s' = Some id ∧ ps_parent_mode s' = ps_parent_mode s ∧
  (Forall (foreign id) ops → ps_path s' = ps_path s).
Proof.
  induction ops as [|op ops IH]; intros s Hid Hops; [done|]. apply Forall_cons in Hops as [Hop Hops]. cbn [foldl].
  destruct (harmless_step id s op Hid Hop) as (Hid' & Hm & Hp). destruct (IH _ Hid' Hops) as (H1 & H2 & H3).
  split_and!; [done|congruence|]. intros [Hf Hfs]%Forall_cons. rewrite H3 by done. by apply Hp.
Qed.

Lemma capture_transition_ok rev id s s' t : capture_transition catalog rev id s = (s', Ok t) →
  ps_transition_id s = None ∧ s' = set_transition (Some id) s ∧ ∃ content doc, reading s = Ok (content, doc) ∧
    hmac_compare_revision (revision content) rev = true ∧
    t = {| tk_content := content; tk_revision := revision content; tk_lease_id := id |}.
Proof.
  unfold capture_transition. rewrite comp_bind_eq. cbn [gets fst snd]. rewrite comp_bind_eq. unfold lift. cbn [fst snd].
  destruct (ps_transition_id s) as [?|] eqn:Hid; [by rewrite bool_decide_eq_true_2 by eauto|].
  rewrite bool_decide_eq_false_2 by by intros []. cbn [raise_if]. rewrite comp_bind_eq, read_locked_eq. cbn [fst snd].
  destruct (reading s) as [[c d]|e] eqn:Hr; [|done]. rewrite comp_bind_eq. unfold assert_content. cbn [fst snd].
  destruct (hmac_compare_revision (revision c) rev) eqn:Hrev; [|done]. cbn [negb raise_if].
  rewrite comp_bind_eq. cbn. intros [= <- <-]. split_and!; [done..|]. by exists c, d.
Qed.

End store.

(** ** Properties *)

(** C26: a request of the administrator is all or nothing and never overwrites what it
    has not seen: either the store is as it was and the request raised, or the
    request named the revision of the current file, the activation lease was
    free or its own, and the file is the complete new document.  A request that
    names any other revision raises a conflict. *)
Theorem edit_compare_and_swap `{ManagedPrimitives} (catalog : Registry) (e : catalog_edit) (rev : string)
    (token : option TransitionToken) (outcome : write_outcome) (s s' : InstrumentPolicyStore)
    (r : result catalog_snapshot_data) (Hrun : edit catalog e rev token outcome s = (s', r)) :
  ((s' = s ∧ ∃ err, r = Raise err) ∨
   ∃ content doc updated content',
     reading catalog s = Ok (content, doc) ∧ rev = revision content ∧
     (ps_transition_id s = None ∨ ∃ t, token = Some t ∧ ps_transition_id s = Some (tk_lease_id t)) ∧
     edited catalog e doc = Ok updated ∧ serialize_catalog_document updated = Ok content' ∧
     s' = written content' s) ∧
  (∀ content doc, reading catalog s = Ok (content, doc) → rev ≠ revision content →
     s' = s ∧ r = Raise (RevisionConflictError "instrument catalog changed concurrently")).
Proof.
  split.
  - apply replace_document_cases in Hrun as [?|(c & d & u & c' & [Hr Hrev Hl Hu Hs] & -> & _)]; [by left|right].
    apply andb_true_iff in Hrev as [_ Hrev%bool_decide_eq_true]. exists c, d, u, c'. split_and!; try done.
    unfold lease_allows in Hl. destruct (ps_transition_id s) as [id|]; [right|by left].
    apply bool_decide_eq_true in Hl. destruct e; try done; (destruct token as [t|]; [|done]);
      injection Hl as <-; by exists t.
  - intros c d Hr Hne. unfold edit, replace_document in Hrun.
    rewrite comp_bind_eq, read_locked_eq, Hr in Hrun. cbn [fst snd] in Hrun.
    rewrite comp_bind_eq in Hrun. unfold lift, assert_content, hmac_compare_revision in Hrun. cbn [fst snd] in Hrun.
    rewrite (bool_decide_eq_false_2 (revision c = rev)), andb_false_r in Hrun by congruence.
    by injection Hrun as <- <-.
Qed.

(** What was read fits into the file. *)
Lemma reading_size `{ManagedPrimitives} (catalog : Registry) s content doc :
  reading catalog s = Ok (content, doc) → size_of content ≤ MAX_CATALOG_FILE_BYTES.
Proof.
  intros (_ & _ & Hc)%reading_path. destruct (ps_path s) as [| | |tr m c0]; try done; cbn in Hc; [by injection Hc as <-|].
  destruct (bool_decide _) eqn:Hb; [done|]. injection Hc as <-. apply bool_decide_eq_false in Hb. lia.
Qed.

Lemma restore_transition_ok `{ManagedPrimitives} (catalog : Registry) t s doc stale current rev :
  ps_transition_id s = Some (tk_lease_id t) → tk_revision t = revision (tk_content t) →
  writable_by_others (ps_parent_mode s) = false →
  load_catalog_document (tk_content t) catalog = Ok (doc, stale) → size_of (tk_content t) ≤ MAX_CATALOG_FILE_BYTES →
  read_bytes (ps_path s) MAX_CATALOG_FILE_BYTES = Ok current → hmac_compare_revision (revision current) rev = true →
  let s' := set_transition None (written (tk_content t) s) in
  restore_transition catalog (Some t) rev Written s = (s', Ok (snapshot_of s' (tk_content t) doc)) ∧
  reading catalog s' = Ok (tk_content t, doc).
Proof.
  intros Hid Htoken Hmode Hload Hsize Hbytes Hrev. cbv zeta. set (s' := set_transition None (written (tk_content t) s)).
  assert (reading catalog s' = Ok (tk_content t, doc)) as Hs'.
  { change (reading catalog (written (tk_content t) s) = Ok (tk_content t, doc)). by apply reading_written with stale. }
  split; [|done]. unfold restore_transition. rewrite comp_bind_eq. unfold lift. cbn [fst snd].
  rewrite bool_decide_eq_false_2 by (intros Hn; by apply Hn). cbn [raise_if].
  rewrite comp_bind_eq. cbn [fst snd]. rewrite Hload. rewrite comp_bind_eq, assert_transition_eq, Hid.
  rewrite bool_decide_eq_true_2 by (split; [by eexists|done]). cbn [negb raise_if fst snd].
  rewrite comp_bind_eq, read_file_eq, Hbytes. cbn [fst snd]. rewrite comp_bind_eq. unfold assert_content. cbn [fst snd].
  rewrite Hrev. cbn [negb raise_if]. rewrite comp_bind_eq, (write_file_eq _ _ _ _ Hbytes). cbn [fst snd].
  rewrite comp_bind_eq. cbn [modify fst snd]. fold s'. by rewrite catalog_snapshot_eq, Hs'.
Qed.

(** An activation can always be taken back: between the capture of the file and
    its restoration the lease keeps every other writer out, whatever requests
    arrive, and the restoration puts the captured bytes back, with the active,
    the staged and the last known good generation of before. *)
Theorem activation_restored `{ManagedPrimitives} (catalog : Registry) (rev lease : string)
    (s0 s1 : InstrumentPolicyStore) (t : TransitionToken)
    (Hcapture : capture_transition catalog rev lease s0 = (s1, Ok t))
    (Hparent : writable_by_others (ps_parent_mode s0) = false)
    (ops : list store_op) (Hops : Forall (harmless lease) ops) :
  let s2 := foldl (run_op catalog) s1 ops in
  (Forall (foreign lease) ops → ps_path s2 = ps_path s0) ∧
  ∃ doc, reading catalog s0 = Ok (tk_content t, doc) ∧
  ∀ current rev', read_bytes (ps_path s2) MAX_CATALOG_FILE_BYTES = Ok current →
    hmac_compare_revision (revision current) rev' = true →
    let s3 := set_transition None (written (tk_content t) s2) in
    restore_transition catalog (Some t) rev' Written s2 = (s3, Ok (snapshot_of s3 (tk_content t) doc)) ∧
    reading catalog s3 = Ok (tk_content t, doc).
Proof.
  cbv zeta. destruct (capture_transition_ok _ _ _ _ _ _ Hcapture) as (Hfree & -> & content & doc & Hr & Hrev & ->).
  destruct (harmless_steps catalog lease ops (set_transition (Some lease) s0) eq_refl Hops) as (Hid & Hmode & Hpath).
  set (s2 := foldl _ _ _) in *. split; [by intros ?%Hpath|]. exists doc. split; [done|].
  intros current rev' Hbytes Hrev'. destruct (reading_path _ _ _ _ Hr) as ([stale Hload] & _ & _).
  apply (restore_transition_ok catalog _ s2 doc stale current rev'); try done; [by rewrite Hmode|by eapply reading_size].
Qed.

(** C27: activation and rollback exchange the active generation and the last known
    good one.  From any file with a staged generation that can be read, in a
    directory others cannot write, when no transition lease or the caller's own
    is held, and as long as both writes happen, both documents fit the size
    limit and both texts parse back to what was serialised: both succeed, the
    first makes the staged generation active, the second brings the former one
    back, and what is read afterwards is exactly the document they report.  The
    shipped symbols have the names of this release. *)
Theorem activate_then_rollback `{ManagedPrimitives} (catalog : Registry) (base staged : CatalogGeneration)
    (s : InstrumentPolicyStore) (token : option TransitionToken) (content content1 content2 : string)
    (doc : ManagedCatalogDocument)
    (Hbase : catalog_generation_from_registry catalog [] ∅ = Ok base) (Hnames : current_names base)
    (Hdigest : ∀ text, String.length (cp_sha256 text) = 64%nat)
    (Hparent : writable_by_others (ps_parent_mode s) = false)
    (Hread : reading catalog s = Ok (content, doc)) (Hstaged : cd_staged doc = Some staged)
    (Hlease : lease_allows s token = true) :
  let activated := {| cd_active := staged; cd_staged := None; cd_last_known_good := Some (cd_active doc) |} in
  let restored := {| cd_active := cd_active doc; cd_staged := None; cd_last_known_good := Some staged |} in
  ∀ (Hwrite1 : serialize_catalog_document activated = Ok content1)
    (Hwrite2 : serialize_catalog_document restored = Ok content2)
    (Hload1 : mp_loads content1 = Some (document_json activated))
    (Hload2 : mp_loads content2 = Some (document_json restored)),
  let s1 := written content1 s in
  let s2 := written content2 s in
  edit catalog (ActivateStaged (Some (cg_revision staged))) (revision content) token Written s =
    (s1, Ok (snapshot_of s1 content1 activated)) ∧
  edit catalog Rollback (revision content1) token Written s1 = (s2, Ok (snapshot_of s2 content2 restored)) ∧
  reading catalog s1 = Ok (content1, activated) ∧ reading catalog s2 = Ok (content2, restored).
Proof.
  intros activated restored Hwrite1 Hwrite2 Hload1 Hload2. cbv zeta.
  destruct (reading_path _ _ _ _ Hread) as ([stale Hl] & _ & _).
  pose proof (load_all_settled _ _ _ _ _ Hbase Hnames Hl) as (Ha & Hs & _). specialize (Hs staged Hstaged).
  assert (∀ text, hmac_compare_revision (cp_sha256 text) (cp_sha256 text) = true) as Hself.
  { intros text. unfold hmac_compare_revision. rewrite Hdigest. by rewrite !bool_decide_eq_true_2. }
  assert (hmac_compare_revision (cg_revision staged) (cg_revision staged) = true) as Hst.
  { destruct Hs as ([_ Hg] & _). unfold CatalogGeneration_init in Hg. do 2 apply require_bind in Hg as [_ Hg].
    apply require_bind in Hg as [Hg%bool_decide_eq_true _]. rewrite Hg. apply Hself. }
  assert (each_generation (settled base) activated ∧ each_generation (settled base) restored) as [Hset1 Hset2].
  { split; split_and!; cbn; try done; by intros g [= <-]. }
  destruct (replace_document_settled catalog base (revision content) token
    (edited catalog (ActivateStaged (Some (cg_revision staged)))) s content doc activated content1
    Hbase Hset1 Hparent) as [E1 R1]; [|done|].
  { split; [done|apply Hself|done| |done]. cbn [edited]. unfold activate_document. by rewrite Hstaged, Hst. }
  destruct (replace_document_settled catalog base (revision content1) token (edited catalog Rollback)
    (written content1 s) content1 activated restored content2 Hbase Hset2 Hparent) as [E2 R2]; [|done|].
  { by split; [|apply Hself|..]. }
  split_and!; [exact E1|exact E2|exact R1|exact R2].
Qed.

(** ** Examples *)

Lemma written_path content s : ps_path (set_transition None (written content s)) = CatalogFile true 384 content.
Proof. done. Qed.

Definition demo_store : InstrumentPolicyStore :=
  {| ps_path := CatalogFile true 384 (demo_text demo_stored); ps_parent_mode := 448; ps_backup := CatalogMissing;
     ps_transition_id := None; ps_migration_pending := false;
     ps_startup_revision := @revision demo_managed (demo_text demo_stored);
     ps_runtime_active_revision := cg_revision demo_base |}.

Lemma demo_reading : @reading demo_managed demo_registry demo_store = Ok (demo_text demo_stored, demo_stored).
Proof.
  assert (size_of (demo_text demo_stored) ≤ MAX_CATALOG_FILE_BYTES) as Hs by (vm_compute; discriminate).
  exact (@reading_written demo_managed demo_registry demo_store _ _ _ eq_refl Hs demo_load_stored).
Qed.

Lemma activate_then_rollback_witness :
  let s1 := written (demo_text demo_activated) demo_store in
  let s2 := written (demo_text demo_restored) demo_store in
  @edit demo_managed demo_registry Rollback (@revision demo_managed (demo_text demo_activated)) None Written s1 =
    (s2, Ok (@snapshot_of demo_managed s2 (demo_text demo_restored) demo_restored)).
Proof.
  apply (@activate_then_rollback demo_managed demo_registry demo_base demo_staged demo_store None (demo_text demo_stored)
           (demo_text demo_activated) (demo_text demo_restored) demo_stored demo_base_built demo_names demo_digest_length
           eq_refl demo_reading eq_refl eq_refl);
    [by vm_compute|by vm_compute|apply demo_loads_activated|apply demo_loads_restored].
Defined.

Definition demo_stale_edit : InstrumentPolicyStore * result catalog_snapshot_data :=
  @edit demo_managed demo_registry Rollback (@revision demo_managed "") None Written demo_store.

Lemma edit_compare_and_swap_witness :
  demo_stale_edit =
    (demo_store, Raise (RevisionConflictError "instrument catalog changed concurrently")).
Proof.
  destruct (@edit_compare_and_swap demo_managed demo_registry Rollback (@revision demo_managed "") None Written demo_store
              demo_stale_edit.1 demo_stale_edit.2 (surjective_pairing _)) as [_ Hconflict].
  destruct (Hconflict _ _ demo_reading) as [H1 H2]; [by vm_compute|].
  rewrite (surjective_pairing demo_stale_edit). by rewrite H1, H2.
Defined.

Lemma activation_restored_witness :
  ∃ s3 snap, ps_path s3 = ps_path demo_store ∧
  let s1 := set_transition (Some "lease") demo_store in
  let token := {| tk_content := demo_text demo_stored; tk_revision := @revision demo_managed (demo_text demo_stored);
                  tk_lease_id := "lease" |} in
  let ops := [OpAbort None; OpEdit Rollback (@revision demo_managed (demo_text demo_stored)) None Written] in
  @restore_transition demo_managed demo_registry (Some token) (@revision demo_managed (demo_text demo_stored)) Written
    (foldl (@run_op demo_managed demo_registry) s1 ops) = (s3, Ok snap).
Proof.
  set (rev := @revision demo_managed (demo_text demo_stored)).
  destruct (@activation_restored demo_managed demo_registry rev "lease" demo_store (set_transition (Some "lease") demo_store)
    {| tk_content := demo_text demo_stored; tk_revision := rev; tk_lease_id := "lease" |}
    ltac:(by vm_compute) eq_refl [OpAbort None; OpEdit Rollback rev None Written]
    ltac:(by repeat constructor)) as [Hforeign (doc & Hdoc & Hrestore)].
  assert (Forall (foreign "lease") [OpAbort None; OpEdit Rollback rev None Written]) as Hf by by repeat constructor.
  specialize (Hrestore (demo_text demo_stored) rev). rewrite Hforeign in Hrestore by done.
  destruct Hrestore as [E _]; [by vm_compute|by vm_compute|]. cbn [tk_content] in E.
  do 2 eexists. split; [|exact E]. exact (written_path (demo_text demo_stored) _).
Defined.
