(* ===== verification/Descriptors.v ===== *)
(** * Provider descriptors ([providers/descriptors.py])

    The trusted catalogue of the installed providers: what each serves, which
    credentials it needs, what a request costs, and how a vendor symbol is
    checked and tied to the canonical symbol it stands for.  The administrator
    can refer to these providers only.  Settings are the fields of [config.py]
    that providers, the compiler and the catalogue runtime read. *)

From S2P Require Import Prelude PyStr PyDecimal PyTime Domain PluginApi Registry Wire Json Analytics Catalog CatalogDocument.
From Stdlib Require Import Ascii QArith.

Local Open Scope string_scope.
Local Open Scope list_scope.
Local Open Scope Z_scope.

Definition MAX_PROVIDER_SEARCH_QUERY_LENGTH : nat := 100.

Inductive ProviderKind := MARKET_DATA | INCOME_DATA | DERIVED.

Inductive VendorSymbolKind :=
| EXCHANGE_COMPACT
| EXCHANGE_PAIR
| LISTED_TICKER
| MARKET_OR_TICKER
| COIN_ID
| FRED_SERIES
| CANONICAL
| NO_SYMBOL.

Inductive BindingVerificationMode :=
| STATIC_DETERMINISTIC
| UPSTREAM_CATALOG
| OPAQUE_UPSTREAM_IDENTITY
| NOT_APPLICABLE.

#[export] Instance ProviderKind_eq_dec : EqDecision ProviderKind.
Proof. solve_decision. Defined.
#[export] Instance VendorSymbolKind_eq_dec : EqDecision VendorSymbolKind.
Proof. solve_decision. Defined.
#[export] Instance BindingVerificationMode_eq_dec : EqDecision BindingVerificationMode.
Proof. solve_decision. Defined.

Definition ProviderKind_value (k : ProviderKind) : string :=
  match k with MARKET_DATA => "market_data" | INCOME_DATA => "income_data" | DERIVED => "derived" end.

Definition VendorSymbolKind_value (k : VendorSymbolKind) : string :=
  match k with
  | EXCHANGE_COMPACT => "exchange_compact"
  | EXCHANGE_PAIR => "exchange_pair"
  | LISTED_TICKER => "listed_ticker"
  | MARKET_OR_TICKER => "market_or_ticker"
  | COIN_ID => "coin_id"
  | FRED_SERIES => "fred_series"
  | CANONICAL => "canonical"
  | NO_SYMBOL => "none"
  end.

Definition BindingVerificationMode_value (m : BindingVerificationMode) : string :=
  match m with
  | STATIC_DETERMINISTIC => "static_deterministic"
  | UPSTREAM_CATALOG => "upstream_catalog"
  | OPAQUE_UPSTREAM_IDENTITY => "opaque_upstream_identity"
  | NOT_APPLICABLE => "not_applicable"
  end.

(** ** Settings *)

Record ProviderSettings := {
  ps_production : bool;
  ps_background_enabled : bool;
  ps_provider_timeout_seconds : Z;
  ps_catalog_warm_timeout_seconds : Z;
  ps_twelve_daily_credits : Z;
  ps_twelve_fx_reserve_credits : Z;
  ps_twelve_calls_per_minute : Z;
  ps_alpha_vantage_daily_credits : Z;
  ps_alpaca_stream_symbol_limit : Z;
  ps_alpaca_rest_calls_per_minute : Z;
  ps_finnhub_calls_per_minute : Z;
  ps_coingecko_monthly_credits : Z;
  ps_alpaca_api_key : option string;
  ps_alpaca_api_secret : option string;
  ps_twelve_data_api_key : option string;
  ps_alpha_vantage_api_key : option string;
  ps_finnhub_api_key : option string;
  ps_coingecko_api_key : option string;
  ps_fred_api_key : option string;
  ps_ethereum_rpc_urls : list string;
  ps_binance_api_key : option string;
  ps_binance_api_secret : option string;
}.

(** The truth value of an optional text. *)
Definition present (o : option string) : bool := match o with Some s => truthy s | None => false end.

(** [bool(getattr(settings, field, None))] for the fields descriptors name. *)
Definition setting_present (s : ProviderSettings) (field : string) : bool :=
  default false (assoc_get field
    [("alpaca_api_key", present (ps_alpaca_api_key s));
     ("alpaca_api_secret", present (ps_alpaca_api_secret s));
     ("twelve_data_api_key", present (ps_twelve_data_api_key s));
     ("alpha_vantage_api_key", present (ps_alpha_vantage_api_key s));
     ("finnhub_api_key", present (ps_finnhub_api_key s));
     ("coingecko_api_key", present (ps_coingecko_api_key s));
     ("fred_api_key", present (ps_fred_api_key s));
     ("ethereum_rpc_urls", negb (bool_decide (ps_ethereum_rpc_urls s = [])));
     ("binance_api_key", present (ps_binance_api_key s));
     ("binance_api_secret", present (ps_binance_api_secret s))]).

(** [int(getattr(settings, field))] *)
Definition setting_int (s : ProviderSettings) (field : string) : result Z :=
  match assoc_get field
    [("alpaca_stream_symbol_limit", ps_alpaca_stream_symbol_limit s);
     ("alpaca_rest_calls_per_minute", ps_alpaca_rest_calls_per_minute s);
     ("finnhub_calls_per_minute", ps_finnhub_calls_per_minute s)] with
  | Some n => Ok n
  | None => Raise (OtherError "AttributeError")
  end.

(** ** Descriptors *)

Record ProviderDescriptor := {
  pd_name : string;
  pd_display_name : string;
  pd_kind : ProviderKind;
  pd_capabilities : list Capability;
  pd_asset_classes : list AssetClass;
  pd_credential_fields : list string;
  pd_setting_fields : list string;
  pd_fixed_hosts : list string;
  pd_vendor_symbol_kind : VendorSymbolKind;
  pd_binding_verification : BindingVerificationMode;
  pd_search_supported : bool;
  pd_streaming_quotes : bool;
  pd_stream_symbol_limit : option Z;
  pd_stream_symbol_limit_setting : option string;
  pd_rest_calls_per_minute_setting : option string;
  pd_quote_credit_cost : decimal;
  pd_history_credit_cost : decimal;
  pd_dividend_credit_cost : decimal;
  pd_yield_credit_cost : decimal;
  pd_notes : string;
}.

#[export] Instance ProviderDescriptor_eq_dec : EqDecision ProviderDescriptor.
Proof. solve_decision. Defined.

Definition supports (d : ProviderDescriptor) (asset_class : AssetClass) (capability : Capability) : bool :=
  bool_decide (asset_class ∈ pd_asset_classes d) && bool_decide (capability ∈ pd_capabilities d).

Definition credentials_configured (d : ProviderDescriptor) (settings : option ProviderSettings) : bool :=
  match pd_setting_fields d with
  | [] => true
  | fields => match settings with Some s => forallb (setting_present s) fields | None => false end
  end.

Definition credit_cost (d : ProviderDescriptor) (capability : Capability) : decimal :=
  match capability with
  | QUOTE => pd_quote_credit_cost d
  | HISTORY => pd_history_credit_cost d
  | DIVIDEND => pd_dividend_credit_cost d
  | YIELD => pd_yield_credit_cost d
  end.

(** [float] of a decimal. *)
Definition decimal_json (d : decimal) : json := JFloat (Some (Qred (inject_Z (coef d) * 10 ^ dexp d)%Q)).

Definition sorted_texts (l : list string) : list string := sort_rows String.compare l.

Definition text_list (l : list string) : json := JArray (JString <$> l).

Definition descriptor_as_dict (d : ProviderDescriptor) (settings : option ProviderSettings) : result json :=
  stream_limit ←
    match settings, pd_stream_symbol_limit_setting d with
    | Some s, Some field => n ← setting_int s field; Ok (Some n)
    | _, _ => Ok (pd_stream_symbol_limit d)
    end;
  rest_calls ←
    match settings, pd_rest_calls_per_minute_setting d with
    | Some s, Some field => n ← setting_int s field; Ok (Some n)
    | _, _ => Ok None
    end;
  Ok (JObject
    [("name", JString (pd_name d)); ("display_name", JString (pd_display_name d));
     ("kind", JString (ProviderKind_value (pd_kind d)));
     ("capabilities", text_list (sorted_texts (capability_value <$> pd_capabilities d)));
     ("asset_classes", text_list (sorted_texts (AssetClass_value <$> pd_asset_classes d)));
     ("credential_fields", text_list (pd_credential_fields d));
     ("credentials_configured", JBool (credentials_configured d settings));
     ("fixed_hosts", text_list (pd_fixed_hosts d));
     ("vendor_symbol_kind", JString (VendorSymbolKind_value (pd_vendor_symbol_kind d)));
     ("binding_verification", JString (BindingVerificationMode_value (pd_binding_verification d)));
     ("search_supported", JBool (pd_search_supported d));
     ("streaming_quotes", JBool (pd_streaming_quotes d));
     ("operational_limits", JObject
        [("stream_symbols", option_json JInt stream_limit);
         ("rest_calls_per_minute", option_json JInt rest_calls)]);
     ("credit_costs", JObject ((λ c, (capability_value c, decimal_json (credit_cost d c))) <$> all_capabilities));
     ("notes", JString (pd_notes d))]).

(** ** The installed providers *)

Definition CRYPTO_ONLY : list AssetClass := [CRYPTO].
Definition LISTED : list AssetClass := [EQUITY; BOND].
Definition FX_ONLY : list AssetClass := [FX].
Definition ALL_ASSETS : list AssetClass := [CRYPTO; EQUITY; BOND; FX].
Definition QUOTE_HISTORY : list Capability := [QUOTE; HISTORY].

(** The keyword arguments of [_descriptor] that have a default. *)
Record descriptor_options := {
  do_kind : ProviderKind;
  do_credentials : list (string * string);
  do_hosts : list string;
  do_symbol_kind : VendorSymbolKind;
  do_binding_verification : BindingVerificationMode;
  do_search : bool;
  do_streaming : bool;
  do_stream_limit : option Z;
  do_stream_limit_setting : option string;
  do_rest_rate_setting : option string;
  do_costs : Z * Z * Z * Z;
  do_notes : string;
}.

Definition descriptor (name display_name : string) (capabilities : list Capability)
    (asset_classes : list AssetClass) (o : descriptor_options) : ProviderDescriptor :=
  let '(quote_cost, history_cost, dividend_cost, yield_cost) := do_costs o in
  {| pd_name := name; pd_display_name := display_name; pd_kind := do_kind o;
     pd_capabilities := capabilities; pd_asset_classes := asset_classes;
     pd_credential_fields := (do_credentials o).*1; pd_setting_fields := (do_credentials o).*2;
     pd_fixed_hosts := do_hosts o; pd_vendor_symbol_kind := do_symbol_kind o;
     pd_binding_verification := do_binding_verification o; pd_search_supported := do_search o;
     pd_streaming_quotes := do_streaming o; pd_stream_symbol_limit := do_stream_limit o;
     pd_stream_symbol_limit_setting := do_stream_limit_setting o;
     pd_rest_calls_per_minute_setting := do_rest_rate_setting o;
     pd_quote_credit_cost := dint quote_cost; pd_history_credit_cost := dint history_cost;
     pd_dividend_credit_cost := dint dividend_cost; pd_yield_credit_cost := dint yield_cost;
     pd_notes := do_notes o |}.

Definition market (hosts : list string) (symbol_kind : VendorSymbolKind) (binding : BindingVerificationMode)
    (credentials : list (string * string)) (streaming : bool) (costs : Z * Z * Z * Z) (notes : string)
    : descriptor_options :=
  {| do_kind := MARKET_DATA; do_credentials := credentials; do_hosts := hosts;
     do_symbol_kind := symbol_kind; do_binding_verification := binding; do_search := true;
     do_streaming := streaming; do_stream_limit := None; do_stream_limit_setting := None;
     do_rest_rate_setting := None; do_costs := costs; do_notes := notes |}.

Definition limited (limit : Z) (limit_setting rate_setting : option string) (o : descriptor_options)
    : descriptor_options :=
  {| do_kind := do_kind o; do_credentials := do_credentials o; do_hosts := do_hosts o;
     do_symbol_kind := do_symbol_kind o; do_binding_verification := do_binding_verification o;
     do_search := do_search o; do_streaming := do_streaming o; do_stream_limit := Some limit;
     do_stream_limit_setting := limit_setting; do_rest_rate_setting := rate_setting;
     do_costs := do_costs o; do_notes := do_notes o |}.

Definition income (credentials : list (string * string)) (hosts : list string)
    (symbol_kind : VendorSymbolKind) (search : bool) (yield_cost : Z) (notes : string) : descriptor_options :=
  {| do_kind := INCOME_DATA; do_credentials := credentials; do_hosts := hosts;
     do_symbol_kind := symbol_kind; do_binding_verification := STATIC_DETERMINISTIC;
     do_search := search; do_streaming := false; do_stream_limit := None;
     do_stream_limit_setting := None; do_rest_rate_setting := None;
     do_costs := (0, 0, 0, yield_cost); do_notes := notes |}.

Definition derived (notes : string) : descriptor_options :=
  {| do_kind := DERIVED; do_credentials := []; do_hosts := []; do_symbol_kind := NO_SYMBOL;
     do_binding_verification := NOT_APPLICABLE; do_search := false; do_streaming := false;
     do_stream_limit := None; do_stream_limit_setting := None; do_rest_rate_setting := None;
     do_costs := (0, 0, 0, 0); do_notes := notes |}.

Definition exchange_descriptors : list ProviderDescriptor :=
  [descriptor "binance" "Binance Spot" QUOTE_HISTORY CRYPTO_ONLY
     (market ["api.binance.com"; "stream.binance.com"] EXCHANGE_COMPACT UPSTREAM_CATALOG [] true (0, 0, 0, 0)
        "Public spot trades, books, and klines.");
   descriptor "okx" "OKX Spot" QUOTE_HISTORY CRYPTO_ONLY
     (market ["www.okx.com"] EXCHANGE_PAIR UPSTREAM_CATALOG [] false (0, 0, 0, 0)
        "Public spot books and candles.");
   descriptor "kraken" "Kraken Spot" QUOTE_HISTORY CRYPTO_ONLY
     (market ["api.kraken.com"; "ws.kraken.com"] EXCHANGE_COMPACT UPSTREAM_CATALOG [] true (0, 0, 0, 0)
        "Public spot trades and OHLC; history is limited to the latest 720 bars.");
   descriptor "coingecko" "CoinGecko Demo" QUOTE_HISTORY CRYPTO_ONLY
     (market ["api.coingecko.com"] COIN_ID OPAQUE_UPSTREAM_IDENTITY
        [("COINGECKO_API_KEY", "coingecko_api_key")] false (1, 1, 0, 0)
        "Aggregated fallback data with a monthly credit allowance.")].

Definition listed_descriptors : list ProviderDescriptor :=
  [descriptor "alpaca" "Alpaca IEX" [QUOTE; HISTORY; DIVIDEND] LISTED
     (limited 30 (Some "alpaca_stream_symbol_limit") (Some "alpaca_rest_calls_per_minute")
        (market ["data.alpaca.markets"; "paper-api.alpaca.markets"] LISTED_TICKER UPSTREAM_CATALOG
           [("ALPACA_API_KEY", "alpaca_api_key"); ("ALPACA_API_SECRET", "alpaca_api_secret")] true (0, 0, 0, 0)
           "IEX single-venue market data for personal internal use."));
   descriptor "finnhub" "Finnhub" [QUOTE] LISTED
     (limited 50 None (Some "finnhub_calls_per_minute")
        (market ["api.finnhub.io"; "ws.finnhub.io"] LISTED_TICKER UPSTREAM_CATALOG
           [("FINNHUB_API_KEY", "finnhub_api_key")] true (1, 0, 0, 0)
           "Quote-only fallback under the configured minute allowance."));
   descriptor "twelve_data" "Twelve Data" QUOTE_HISTORY (LISTED ++ FX_ONLY)
     (market ["api.twelvedata.com"] MARKET_OR_TICKER UPSTREAM_CATALOG
        [("TWELVE_DATA_API_KEY", "twelve_data_api_key")] false (1, 1, 0, 0)
        "REST market data governed by the configured daily credit budget.");
   descriptor "alpha_vantage" "Alpha Vantage" QUOTE_HISTORY (LISTED ++ FX_ONLY)
     (market ["www.alphavantage.co"] MARKET_OR_TICKER UPSTREAM_CATALOG
        [("ALPHA_VANTAGE_API_KEY", "alpha_vantage_api_key")] false (1, 1, 0, 0)
        "Low-frequency emergency fallback; dividend data is excluded from automatic routes.")].

Definition income_descriptors : list ProviderDescriptor :=
  [descriptor "fred" "Federal Reserve Economic Data" [YIELD] [BOND]
     (income [("FRED_API_KEY", "fred_api_key")] ["api.stlouisfed.org"] FRED_SERIES true 1
        "Controlled United States Treasury series for proxy yields.");
   descriptor "binance_staking_rate" "Binance Staking Rate" [YIELD] CRYPTO_ONLY
     (income [("BINANCE_API_KEY", "binance_api_key"); ("BINANCE_API_SECRET", "binance_api_secret")]
        ["api.binance.com"] CANONICAL false 1 "");
   descriptor "aave_v3" "Aave V3 Supply APR" [YIELD] CRYPTO_ONLY
     (income [("ETHEREUM_RPC_URLS", "ethereum_rpc_urls")] [] CANONICAL false 0
        "Reads the current reserve liquidity rate from the fixed Aave V3 Ethereum deployment.");
   descriptor "ethereum_exchange_rate" "Ethereum Exchange Rate" [YIELD] CRYPTO_ONLY
     (income [("ETHEREUM_RPC_URLS", "ethereum_rpc_urls")] [] CANONICAL false 0 "");
   descriptor "lido" "Lido APR" [YIELD] CRYPTO_ONLY
     (income [] ["eth-api.lido.fi"] CANONICAL false 0 "");
   descriptor "okx_beth_yield" "OKX BETH APR" [YIELD] CRYPTO_ONLY
     (income [] ["www.okx.com"] CANONICAL false 0 "")].

Definition derived_descriptors : list ProviderDescriptor :=
  [descriptor "staking_market_ratio_proxy" "Staking Market Ratio Proxy" [YIELD] CRYPTO_ONLY
     (derived "Annualizes the configured token-to-underlying ratio lookback.");
   descriptor "staking_backing_proxy" "Staking Protocol Backing Proxy" QUOTE_HISTORY CRYPTO_ONLY
     (derived ("Quote and constant-ratio history derived from underlying prices and controlled " +:+
               "protocol backing rules."));
   descriptor "synthetic" "Restricted Synthetic" QUOTE_HISTORY ALL_ASSETS (derived "");
   descriptor "synthetic_fx" "USD Hub FX Synthetic" QUOTE_HISTORY FX_ONLY (derived "")].

Definition list_provider_descriptors : list ProviderDescriptor :=
  exchange_descriptors ++ listed_descriptors ++ income_descriptors ++ derived_descriptors.

Definition PROVIDER_CATALOG : list (string * ProviderDescriptor) :=
  (λ d, (pd_name d, d)) <$> list_provider_descriptors.

Definition canonical_provider_name (name : string) : string :=
  let normalized := lower (strip name) in
  if decide (normalized = "binance_wbeth_rate") then "binance_staking_rate"
  else if is_some (assoc_get normalized PROVIDER_CATALOG) then normalized
  else if decide (normalized = "synthetic_fx_history") then "synthetic_fx"
  else if startswith "synthetic_" normalized then "synthetic"
  else normalized.

Definition get_provider_descriptor (name : string) : result ProviderDescriptor :=
  match assoc_get (canonical_provider_name name) PROVIDER_CATALOG with
  | Some d => Ok d
  | None => Raise (ValueError ("unknown provider: " +:+ name))
  end.

Definition provider_catalog_snapshot (settings : option ProviderSettings) : result json :=
  providers ← map_result (λ d, descriptor_as_dict d settings) list_provider_descriptors;
  Ok (JObject [("schema_version", JInt 1); ("providers", JArray providers)]).

(** ** Vendor symbols *)

Definition length_between (low high : nat) (s : string) : bool :=
  bool_decide (low ≤ String.length s ≤ high)%nat.

Definition compact_pattern (s : string) : bool := str_all word_char s && length_between 4 30 s.

Definition pair_pattern (s : string) : bool :=
  let part := λ w, str_all word_char w && length_between 2 15 w in
  match split_once "-"%char s with
  | (a, Some b) => part a && part b
  | (_, None) => false
  end.

Definition ticker_pattern : string → bool :=
  pattern is_upper (λ c, word_char c || among ["."; "-"]%char c) 19.

Definition market_pattern (s : string) : bool :=
  let part := pattern word_char tail_char 19 in
  match split_once "/"%char s with
  | (a, Some b) => part a && part b
  | (a, None) => part a
  end.

Definition coin_id_pattern (s : string) : bool :=
  forallb (λ w, truthy w && str_all lower_or_digit w) (split_on "-"%char s).

Definition symbol_matches (kind : VendorSymbolKind) (normalized : string) : bool :=
  match kind with
  | EXCHANGE_COMPACT => compact_pattern normalized
  | EXCHANGE_PAIR => pair_pattern normalized
  | LISTED_TICKER => ticker_pattern normalized
  | MARKET_OR_TICKER => market_pattern normalized
  | FRED_SERIES => bool_decide (normalized ∈ SUPPORTED_TREASURY_PROXY_FRED_SERIES)
  | CANONICAL => symbol_pattern normalized
  | COIN_ID => coin_id_pattern normalized
  | NO_SYMBOL => false
  end.

Definition printable (s : string) : bool := str_all (λ c, bool_decide (32 ≤ code c)) s.

Definition validate_provider_symbol (provider value : string) : result string :=
  d ← get_provider_descriptor provider;
  let candidate := strip value in
  _ ← raise_if (negb (truthy candidate) || bool_decide (80 < String.length candidate)%nat ||
                negb (printable candidate))
        (ValueError "vendor symbol is empty or too long");
  _ ← raise_if (existsb (λ sub, contains sub candidate) ["://"; "@"; "?"; "#"])
        (ValueError "vendor symbol contains a forbidden URL or credential delimiter");
  let kind := pd_vendor_symbol_kind d in
  _ ← raise_if (bool_decide (kind = NO_SYMBOL))
        (ValueError ("provider " +:+ pd_name d +:+ " does not accept a vendor symbol"));
  let normalized := if decide (kind = COIN_ID) then lower candidate else upper candidate in
  _ ← raise_if (negb (symbol_matches kind normalized))
        (ValueError ("invalid " +:+ pd_name d +:+ " vendor symbol"));
  Ok normalized.

Definition COINGECKO_SUPPORTED_QUOTE_ASSETS : list string := ["USD"; "USDC"].

Definition kraken_asset (asset : string) : string :=
  if decide (asset = "BTC") then "XBT" else if decide (asset = "DOGE") then "XDG" else asset.

(** What the vendor symbol of an accepted binding has to be. *)
Definition identity_matches (d : ProviderDescriptor) (asset_class : AssetClass) (base quote vendor : string)
    : bool :=
  let name := pd_name d in
  if decide (name = "binance") then bool_decide (vendor = base +:+ quote)
  else if decide (name = "okx") then bool_decide (vendor = base +:+ "-" +:+ quote)
  else if decide (name = "kraken") then bool_decide (vendor = kraken_asset base +:+ kraken_asset quote)
  else if decide (name ∈ ["alpaca"; "finnhub"; "twelve_data"; "alpha_vantage"]) then
    if decide (asset_class = FX) then bool_decide (vendor = base +:+ "/" +:+ quote)
    else bool_decide (quote = "USD" ∧ vendor = base)
  else if decide (pd_vendor_symbol_kind d = COIN_ID) then bool_decide (quote ∈ COINGECKO_SUPPORTED_QUOTE_ASSETS)
  else if decide (pd_vendor_symbol_kind d = CANONICAL) then bool_decide (vendor = base +:+ ":" +:+ quote)
  else true.

Definition validate_provider_binding_identity (instrument_symbol : string) (asset_class : AssetClass)
    (provider vendor_symbol : string) : result string :=
  let canonical := normalize_symbol instrument_symbol in
  match split_once ":"%char canonical with
  | (_, None) => Raise (ValueError "instrument binding identity is invalid")
  | (base, Some quote) =>
    d ← get_provider_descriptor provider;
    let name := pd_name d in
    normalized ← validate_provider_symbol name vendor_symbol;
    _ ← raise_if (negb (bool_decide (asset_class ∈ pd_asset_classes d)))
          (ValueError ("provider binding is incompatible with " +:+ canonical +:+ ": " +:+ name));
    _ ← raise_if (negb (identity_matches d asset_class base quote (upper normalized)))
          (ValueError ("provider binding does not match " +:+ canonical +:+ ": " +:+ name));
    Ok normalized
  end.

(** ** Polling estimates and queries *)

(** [ceil(a / b)] *)
Definition ceil_div (a b : Z) : Z := - (- a / b).

Definition SECONDS_PER_DAY : Z := seconds 86400.

Definition estimate_daily_credits (provider : string) (capability : Capability) (poll_seconds instrument_count : Z)
    : result json :=
  _ ← raise_if (bool_decide (poll_seconds ≤ 0)) (ValueError "poll_seconds must be positive");
  _ ← raise_if (bool_decide (instrument_count ≤ 0)) (ValueError "instrument_count must be positive");
  d ← get_provider_descriptor provider;
  let cost := credit_cost d capability in
  let requests := ceil_div SECONDS_PER_DAY poll_seconds * instrument_count in
  Ok (JObject
    [("provider", JString (pd_name d)); ("capability", JString (capability_value capability));
     ("requests_per_day", JInt requests); ("credits_per_request", decimal_json cost);
     ("estimated_credits_per_day", decimal_json (dmul (dint requests) cost));
     ("basis", JString "worst_case_polling")]).

Definition clean_query (query : string) : result string :=
  let normalized := strip query in
  _ ← raise_if (negb (truthy normalized) ||
                bool_decide (MAX_PROVIDER_SEARCH_QUERY_LENGTH < String.length normalized)%nat)
        (ValueError "search query is empty or too long");
  _ ← raise_if (negb (printable normalized)) (ValueError "search query contains control characters");
  Ok normalized.
