(* ===== verification/Compiler.v ===== *)
(** * The provider route compiler ([providers/compiler.py])

    Turning instrument definitions into an immutable route plan: the inputs
    and their checks, the chain of every required capability, the dependencies
    of synthetic instruments and of staking ratios, and the daily credits the
    plan will spend.  Intervals are integers in microseconds; quotients of them
    are taken exactly.  The sets of a plan are finite sets, and its mappings
    whose order is never read finite maps.  Installing a plan into a graph of
    live providers, [_install_instance_bindings] and [_install_compiled_routes],
    is not modelled. *)

From S2P Require Import Prelude PyStr PyDecimal PyTime Domain PluginApi Registry Wire Json Analytics Fx Policy Catalog.
From S2P Require Import CatalogDocument Descriptors.
From stdpp Require Import pretty.
From Stdlib Require Import Ascii.

Local Open Scope string_scope.
Local Open Scope list_scope.
Local Open Scope Z_scope.

Definition MAX_PROVIDER_CHAIN_LENGTH : Z := 4.
Definition MAXIMUM_SYNTHETIC_DEPTH : Z := 4.

Definition RouteCompileError (msg : string) : exn := NamedError "RouteCompileError" msg.

(** [str] of a decimal. *)
Definition decimal_str (d : decimal) : string :=
  let digits := pretty (Z.to_N (Z.abs (coef d))) in
  let n := Z.of_nat (String.length digits) in
  let left := dexp d + n in
  let dot := if decide (dexp d ≤ 0 ∧ -6 < left) then left else 1 in
  let zeros := λ k, Nat.iter (Z.to_nat k) (String "0"%char) "" in
  let body :=
    if decide (dot ≤ 0) then "0." +:+ zeros (- dot) +:+ digits
    else if decide (n ≤ dot) then digits +:+ zeros (dot - n)
    else String.substring 0 (Z.to_nat dot) digits +:+ "." +:+ String.substring (Z.to_nat dot) (Z.to_nat n) digits in
  let exponent :=
    if decide (left = dot) then ""
    else "E" +:+ (if decide (0 ≤ left - dot) then "+" else "") +:+ pretty (left - dot) in
  (if decide (coef d < 0) then "-" else "") +:+ body +:+ exponent.

(** ** Inputs *)

Record SyntheticRouteInput := {
  sr_operation : operation;
  sr_inputs : list string;
  sr_max_skew_seconds : Z;
  sr_input_max_age_seconds : list (option Z);
}.

#[export] Instance SyntheticRouteInput_eq_dec : EqDecision SyntheticRouteInput.
Proof. solve_decision. Defined.

Definition SyntheticRouteInput_init (r : SyntheticRouteInput) : result SyntheticRouteInput :=
  let inputs := normalize_symbol <$> sr_inputs r in
  let expected := required_inputs (sr_operation r) in
  _ ← raise_if (negb (bool_decide (length inputs = expected)))
        (RouteCompileError ("synthetic " +:+ operation_value (sr_operation r) +:+ " requires exactly " +:+
                            pretty expected +:+ " input(s)"));
  _ ← raise_if (bool_decide (sr_max_skew_seconds r < 0))
        (RouteCompileError "synthetic maximum skew cannot be negative");
  let ages := if decide (sr_input_max_age_seconds r = []) then repeat None expected
              else sr_input_max_age_seconds r in
  _ ← raise_if (negb (bool_decide (length ages = expected)) ||
                existsb (λ age, match age with Some a => bool_decide (a ≤ 0) | None => false end) ages)
        (RouteCompileError "synthetic input maximum ages are invalid");
  Ok {| sr_operation := sr_operation r; sr_inputs := inputs;
        sr_max_skew_seconds := sr_max_skew_seconds r; sr_input_max_age_seconds := ages |}.

(** [InstrumentRouteInput]: an enum field is a member or a value before the
    constructor has coerced it. *)
Record InstrumentRouteInputOf (A Y C : Type) := {
  ri_symbol : string;
  ri_asset_class : A;
  ri_asset_type : string;
  ri_quote_poll_seconds : Z;
  ri_ownership : string;
  ri_history_enabled : bool;
  ri_history_poll_seconds : Z;
  ri_history_backfill_days : Z;
  ri_metadata_poll_seconds : Z;
  ri_dividend_strategy : option string;
  ri_yield_strategy : option Y;
  ri_underlying_asset : option string;
  ri_reward_accrual_mode : option string;
  ri_provider_symbols : list (string * string);
  ri_routes : list (C * list string);
  ri_synthetic : option SyntheticRouteInput;
}.
Arguments ri_symbol {A Y C}. Arguments ri_asset_class {A Y C}. Arguments ri_asset_type {A Y C}.
Arguments ri_quote_poll_seconds {A Y C}. Arguments ri_ownership {A Y C}.
Arguments ri_history_enabled {A Y C}. Arguments ri_history_poll_seconds {A Y C}.
Arguments ri_history_backfill_days {A Y C}. Arguments ri_metadata_poll_seconds {A Y C}.
Arguments ri_dividend_strategy {A Y C}. Arguments ri_yield_strategy {A Y C}.
Arguments ri_underlying_asset {A Y C}. Arguments ri_reward_accrual_mode {A Y C}.
Arguments ri_provider_symbols {A Y C}. Arguments ri_routes {A Y C}. Arguments ri_synthetic {A Y C}.

Abbreviation InstrumentRouteInput := (InstrumentRouteInputOf AssetClass YieldStrategy Capability).
Abbreviation RawRouteInput :=
  (InstrumentRouteInputOf (enum_input AssetClass) (enum_input YieldStrategy) (enum_input Capability)).

Definition AssetClass_of : enum_input AssetClass → result AssetClass :=
  enum_coerce AssetClass_value [CRYPTO; EQUITY; BOND; FX].
Definition YieldStrategy_of : enum_input YieldStrategy → result YieldStrategy :=
  enum_coerce YieldStrategy_value all_yield_strategies.
Definition capability_of : enum_input Capability → result Capability :=
  enum_coerce capability_value all_capabilities.

(** A ValueError of [m] becomes a compile error with the text [text] of it. *)
Definition recompile {A} (text : string → string) (m : result A) : result A :=
  reraise_value_error (λ msg, RouteCompileError (text msg)) m.

(** The routes of an input, keyed by capability. *)
Fixpoint chain_for (c : Capability) (routes : capability_routes) : option (list string) :=
  match routes with
  | [] => None
  | (k, chain) :: routes' => if decide (k = c) then Some chain else chain_for c routes'
  end.

Fixpoint set_chain (c : Capability) (chain : list string) (routes : capability_routes) : capability_routes :=
  match routes with
  | [] => [(c, chain)]
  | (k, old) :: routes' => if decide (k = c) then (c, chain) :: routes' else (k, old) :: set_chain c chain routes'
  end.

Definition normalize_provider (name : string) : string := lower (strip name).

Definition bind_provider (symbol : string) (asset_class : AssetClass) (bindings : list (string * string))
    (entry : string * string) : result (list (string * string)) :=
  let provider := normalize_provider entry.1 in
  _ ← raise_if (is_some (assoc_get provider bindings))
        (RouteCompileError ("duplicate provider binding for " +:+ symbol +:+ ": " +:+ provider));
  binding ← recompile (λ msg, "invalid binding for " +:+ symbol +:+ "/" +:+ provider +:+ ": " +:+ msg)
              (validate_provider_symbol provider entry.2);
  _ ← recompile (λ msg, msg) (validate_provider_binding_identity symbol asset_class provider binding);
  Ok (dict_set provider binding bindings).

Definition add_route (symbol : string) (routes : capability_routes) (entry : enum_input Capability * list string)
    : result capability_routes :=
  capability ← capability_of entry.1;
  let chain := normalize_provider <$> List.filter (λ item, truthy (strip item)) entry.2 in
  _ ← raise_if (bool_decide (chain = []))
        (RouteCompileError ("provider chain cannot be empty: " +:+ symbol +:+ "/" +:+ capability_value capability));
  Ok (set_chain capability chain routes).

Definition InstrumentRouteInput_init (r : RawRouteInput) : result InstrumentRouteInput :=
  let symbol := normalize_symbol (ri_symbol r) in
  _ ← raise_if (negb (contains ":" symbol))
        (RouteCompileError ("invalid instrument symbol: " +:+ ri_symbol r));
  asset_class ← recompile (λ _, "invalid asset class for " +:+ symbol) (AssetClass_of (ri_asset_class r));
  _ ← raise_if (negb (truthy (strip (ri_asset_type r))))
        (RouteCompileError ("instrument " +:+ symbol +:+ " requires an asset type"));
  _ ← raise_if (bool_decide (ri_quote_poll_seconds r ≤ 0 ∨ ri_history_poll_seconds r ≤ 0 ∨
                             ri_metadata_poll_seconds r ≤ 0 ∨ ri_history_backfill_days r ≤ 0))
        (RouteCompileError ("instrument " +:+ symbol +:+ " has an invalid poll interval"));
  bindings ← fold_result (bind_provider symbol asset_class) [] (ri_provider_symbols r);
  routes ← fold_result (add_route symbol) [] (ri_routes r);
  yield_strategy ←
    match ri_yield_strategy r with
    | None => Ok None
    | Some y => recompile (λ _, "invalid yield strategy for " +:+ symbol) (Some <$> YieldStrategy_of y)
    end;
  dividend ←
    match ri_dividend_strategy r with
    | None => Ok None
    | Some s =>
      let normalized := lower (strip s) in
      _ ← raise_if (negb (bool_decide (normalized ∈ SUPPORTED_DIVIDEND_STRATEGIES)))
            (RouteCompileError ("invalid dividend strategy for " +:+ symbol));
      Ok (Some normalized)
    end;
  Ok {| ri_symbol := symbol; ri_asset_class := asset_class; ri_asset_type := strip (ri_asset_type r);
        ri_quote_poll_seconds := ri_quote_poll_seconds r; ri_ownership := lower (strip (ri_ownership r));
        ri_history_enabled := ri_history_enabled r; ri_history_poll_seconds := ri_history_poll_seconds r;
        ri_history_backfill_days := ri_history_backfill_days r;
        ri_metadata_poll_seconds := ri_metadata_poll_seconds r; ri_dividend_strategy := dividend;
        ri_yield_strategy := yield_strategy;
        ri_underlying_asset := (λ s, upper (strip s)) <$> ri_underlying_asset r;
        ri_reward_accrual_mode := (λ s, lower (strip s)) <$> ri_reward_accrual_mode r;
        ri_provider_symbols := bindings; ri_routes := routes; ri_synthetic := ri_synthetic r |}.

(** ** From a managed definition *)

Definition treasury_strategies : list YieldStrategy :=
  [TREASURY_3M_PROXY_MINUS_EXPENSE; TREASURY_PROXY_MINUS_EXPENSE].

(** The vendor symbols of a definition, with the FRED series of its income
    policy and the pair of a currency. *)
Definition route_symbols (d : ManagedInstrumentDefinition) : result (list (string * string)) :=
  let symbols := foldl (λ acc b, dict_set (psb_provider b) (psb_symbol b) acc) [] (md_provider_symbols d) in
  symbols ←
    match income_yield d with
    | Some strategy =>
      if decide (strategy ∈ treasury_strategies) then
        match md_income d ≫= in_fred_series with
        | None => Raise (RouteCompileError "Treasury proxy yield requires IncomePolicy.fred_series")
        | Some series =>
          _ ← raise_if (bool_decide (strategy = TREASURY_3M_PROXY_MINUS_EXPENSE ∧ series ≠ TREASURY_3M_FRED_SERIES))
                (RouteCompileError ("the three-month Treasury strategy requires " +:+ TREASURY_3M_FRED_SERIES));
          _ ← raise_if (match assoc_get "fred" symbols with
                        | Some explicit => negb (bool_decide (upper (strip explicit) = series))
                        | None => false
                        end)
                (RouteCompileError "FRED provider binding must match IncomePolicy.fred_series");
          Ok (dict_set "fred" series symbols)
        end
      else
        _ ← raise_if (is_some (assoc_get "fred" symbols))
              (RouteCompileError "FRED provider binding requires the Treasury proxy yield strategy");
        Ok symbols
    | None =>
      _ ← raise_if (is_some (assoc_get "fred" symbols) && is_some (md_income d))
            (RouteCompileError "FRED provider binding requires the Treasury proxy yield strategy");
      Ok symbols
    end;
  let pair := replace_char ":"%char "/"%char (md_symbol d) in
  let set_default := λ (provider : string) (items : list (string * string)),
    if is_some (assoc_get provider items) then items else dict_set provider pair items in
  Ok (if decide (md_asset_class d = FX) then set_default "alpha_vantage" (set_default "twelve_data" symbols)
      else symbols).

Definition instrument_route_input_from_definition (d : ManagedInstrumentDefinition) : result InstrumentRouteInput :=
  symbols ← route_symbols d;
  synthetic ←
    match md_synthetic d with
    | None => Ok None
    | Some r => Some <$> SyntheticRouteInput_init
        {| sr_operation := syn_operation r; sr_inputs := syn_inputs r;
           sr_max_skew_seconds := syn_max_skew_seconds r;
           sr_input_max_age_seconds := syn_input_max_age_seconds r |}
    end;
  InstrumentRouteInput_init
    {| ri_symbol := md_symbol d; ri_asset_class := EnumMember (md_asset_class d);
       ri_asset_type := md_asset_type d; ri_quote_poll_seconds := md_quote_poll_seconds d;
       ri_ownership := InstrumentOwnership_value (md_ownership d);
       ri_history_enabled := hp_enabled (md_history d);
       ri_history_poll_seconds := default (seconds 3600) (hp_poll_seconds (md_history d));
       ri_history_backfill_days := default 400 (hp_backfill_days (md_history d));
       ri_metadata_poll_seconds := seconds 21600;
       ri_dividend_strategy := md_income d ≫= in_dividend_strategy;
       ri_yield_strategy := EnumMember <$> income_yield d;
       ri_underlying_asset := income_underlying d;
       ri_reward_accrual_mode := RewardAccrualMode_value <$> income_accrual d;
       ri_provider_symbols := symbols;
       ri_routes := (λ route, (EnumMember (cr_capability route), cr_providers route)) <$> md_routes d;
       ri_synthetic := synthetic |}.

(** ** Plans *)

Record CompiledRoute := {
  rt_symbol : string;
  rt_capability : Capability;
  rt_providers : list string;
}.

Record CompiledInstrumentRoutes := {
  ci_symbol : string;
  ci_provider_symbols : list (string * string);
  ci_routes : capability_routes;
  ci_synthetic : option SyntheticRouteInput;
}.

Definition instrument_providers_for (i : CompiledInstrumentRoutes) (capability : Capability) : list string :=
  default [] (chain_for capability (ci_routes i)).

Record CreditEstimateLine := {
  ce_provider : string;
  ce_capability : Capability;
  ce_symbol : string;
  ce_requests_per_day : Z;
  ce_estimated_credits_per_day : decimal;
  ce_cycles_per_day : Z;
  ce_steady_state_requests_per_cycle : Z;
  ce_cold_start_requests : Z;
  ce_bases : list string;
  ce_committed : bool;
  ce_ownerships : list string;
  ce_quota_scopes : list string;
}.

Definition CreditEstimateLine_as_dict (l : CreditEstimateLine) : json :=
  JObject
    [("provider", JString (ce_provider l)); ("capability", JString (capability_value (ce_capability l)));
     ("symbol", JString (ce_symbol l)); ("requests_per_day", JInt (ce_requests_per_day l));
     ("estimated_credits_per_day", decimal_json (ce_estimated_credits_per_day l));
     ("cycles_per_day", JInt (ce_cycles_per_day l));
     ("steady_state_requests_per_cycle", JInt (ce_steady_state_requests_per_cycle l));
     ("cold_start_requests", JInt (ce_cold_start_requests l)); ("bases", text_list (ce_bases l));
     ("committed", JBool (ce_committed l)); ("ownerships", text_list (ce_ownerships l));
     ("quota_scopes", text_list (ce_quota_scopes l))].

(** Daily credits by provider, and by the quota scopes of a provider. *)
Abbreviation credits := (gmap string decimal).
Abbreviation scoped_credits := (gmap string (gmap string decimal)).

(** The budget of a provider, as the named values of its context. *)
Abbreviation budget_context := (list (string * list (string * json))).

Record CompiledRoutePlan := {
  rp_instruments : list (string * CompiledInstrumentRoutes);
  rp_routes : list CompiledRoute;
  rp_estimated_daily_credits : credits;
  rp_committed_daily_credits : credits;
  rp_committed_daily_credits_by_scope : scoped_credits;
  rp_worst_case_daily_credits : credits;
  rp_worst_case_daily_credits_by_scope : scoped_credits;
  rp_hard_capped_daily_credits : credits;
  rp_credit_estimates : list CreditEstimateLine;
  rp_credit_budget_context : budget_context;
}.

Definition plan_instrument (p : CompiledRoutePlan) (symbol : string) : option CompiledInstrumentRoutes :=
  assoc_get (normalize_symbol symbol) (rp_instruments p).

Definition plan_providers_for (p : CompiledRoutePlan) (symbol : string) (capability : Capability) : list string :=
  match plan_instrument p symbol with Some i => instrument_providers_for i capability | None => [] end.

Definition credits_json (m : credits) : json := JObject (prod_map id decimal_json <$> map_to_list m).
Definition scoped_json (m : scoped_credits) : json := JObject (prod_map id credits_json <$> map_to_list m).

Definition synthetic_json (r : SyntheticRouteInput) : json :=
  JObject
    [("operation", JString (operation_value (sr_operation r))); ("inputs", text_list (sr_inputs r));
     ("max_skew_seconds", seconds_json (sr_max_skew_seconds r));
     ("input_max_age_seconds", JArray (option_json seconds_json <$> sr_input_max_age_seconds r))].

Definition instrument_json (i : CompiledInstrumentRoutes) : json :=
  JObject
    [("symbol", JString (ci_symbol i));
     ("provider_symbols", JObject (prod_map id JString <$> ci_provider_symbols i));
     ("routes", JObject (prod_map capability_value text_list <$> ci_routes i));
     ("synthetic", option_json synthetic_json (ci_synthetic i))].

(** [CompiledRoutePlan.as_dict] without its fixed list of assumptions. *)
Definition plan_as_dict (p : CompiledRoutePlan) : json :=
  JObject
    [("instruments", JArray (instrument_json <$> (rp_instruments p).*2));
     ("estimated_daily_credits", credits_json (rp_estimated_daily_credits p));
     ("credit_plan", JObject
        [("activation_daily_credits", credits_json (rp_estimated_daily_credits p));
         ("committed_daily_credits", credits_json (rp_committed_daily_credits p));
         ("committed_daily_credits_by_scope", scoped_json (rp_committed_daily_credits_by_scope p));
         ("worst_case_daily_credits", credits_json (rp_worst_case_daily_credits p));
         ("worst_case_daily_credits_by_scope", scoped_json (rp_worst_case_daily_credits_by_scope p));
         ("hard_capped_daily_credits", credits_json (rp_hard_capped_daily_credits p));
         ("estimates", JArray (CreditEstimateLine_as_dict <$> rp_credit_estimates p));
         ("budgets", JObject (prod_map id JObject <$> rp_credit_budget_context p))])].

(** ** Chains *)

Definition configured_provider_names (settings : option ProviderSettings) : list string :=
  pd_name <$> List.filter (λ d, credentials_configured d settings) list_provider_descriptors.

(** [builtin_provider_policy(symbol).routes] *)
Definition shipped_routes (symbol : string) : capability_routes :=
  default [] (assoc_get (normalize_symbol symbol) BUILTIN_PROVIDER_ROUTES).

Definition requires_vendor_symbol (provider : string) : result bool :=
  d ← get_provider_descriptor provider;
  Ok (bool_decide (pd_kind d = MARKET_DATA) || bool_decide (provider = "fred")).

Definition is_staking (item : InstrumentRouteInput) : bool := contains "staking" (lower (ri_asset_type item)).

Definition staking_yield_candidates (item : InstrumentRouteInput) : list string :=
  match chain_for YIELD (default [] (assoc_get (ri_symbol item) BUILTIN_PROVIDER_ROUTES)) with
  | Some (provider :: chain) => provider :: chain
  | _ => if decide (ri_reward_accrual_mode item = Some "value_accruing") then ["staking_market_ratio_proxy"] else []
  end.

Definition symbol_parts (symbol : string) : string * string :=
  let p := split_once ":"%char symbol in (p.1, default "" p.2).

Definition recommended_candidates (item : InstrumentRouteInput) (capability : Capability) : list string :=
  if is_some (ri_synthetic item) && bool_decide (capability ∈ [QUOTE; HISTORY]) then ["synthetic"]
  else
    match ri_asset_class item with
    | CRYPTO =>
      match capability with
      | QUOTE | HISTORY => ["binance"; "okx"; "kraken"; "coingecko"]
      | YIELD => if is_staking item then staking_yield_candidates item else []
      | DIVIDEND => []
      end
    | EQUITY | BOND =>
      match capability with
      | QUOTE => ["alpaca"; "finnhub"; "twelve_data"; "alpha_vantage"]
      | HISTORY => ["alpaca"; "twelve_data"; "alpha_vantage"]
      | DIVIDEND => ["alpaca"]
      | YIELD => ["fred"]
      end
    | FX =>
      let '(base, quote) := symbol_parts (ri_symbol item) in
      if decide (base = "USD" ∨ quote = "USD") then ["twelve_data"; "alpha_vantage"] else ["synthetic_fx"]
    end.

Definition in_available (provider : string) (available : option (list string)) : bool :=
  match available with Some names => bool_decide (provider ∈ names) | None => true end.

Definition select_recommended (item : InstrumentRouteInput) (capability : Capability)
    (available : option (list string)) (selected : list string) (provider : string) : result (list string) :=
  d ← get_provider_descriptor provider;
  if negb (in_available provider available) then Ok selected
  else if negb (supports d (ri_asset_class item) capability) then Ok selected
  else
    vendor ← requires_vendor_symbol provider;
    if vendor && negb (is_some (assoc_get provider (ri_provider_symbols item))) then Ok selected
    else Ok (selected ++ [provider]).

Definition recommended_provider_chain (item : InstrumentRouteInput) (capability : Capability)
    (available_providers : option (list string)) : result (list string) :=
  let available := (λ names : list string, normalize_provider <$> names) <$> available_providers in
  fold_result (select_recommended item capability available) [] (recommended_candidates item capability).

Definition required_capabilities (item : InstrumentRouteInput) : list Capability :=
  [QUOTE] ++ (if ri_history_enabled item then [HISTORY] else []) ++
  (if is_some (ri_dividend_strategy item) ||
      bool_decide (ri_yield_strategy item = Some LATEST_DISTRIBUTION_ANNUALIZED) then [DIVIDEND] else []) ++
  (if bool_decide (ri_yield_strategy item ∉ [None; Some LATEST_DISTRIBUTION_ANNUALIZED]) then [YIELD] else []).

(** One provider of a chain: [None] when it is dropped. *)
Definition validate_provider (item : InstrumentRouteInput) (capability : Capability)
    (available : option (list string)) (drop_unconfigured : bool) (provider : string) : result (option string) :=
  let route := ri_symbol item +:+ "/" +:+ capability_value capability in
  let canonical := canonical_provider_name provider in
  _ ← raise_if (negb (bool_decide (canonical = provider)) &&
                (negb (bool_decide (ri_ownership item = "builtin")) ||
                 negb (bool_decide (provider ∈ default [] (chain_for capability (shipped_routes (ri_symbol item)))))))
        (RouteCompileError ("provider is not publicly selectable: " +:+ ri_symbol item +:+ "/" +:+ provider));
  d ← recompile (λ msg, msg) (get_provider_descriptor provider);
  _ ← raise_if (negb (supports d (ri_asset_class item) capability))
        (RouteCompileError ("provider " +:+ provider +:+ " is incompatible with " +:+ route));
  if negb (in_available provider available) && negb (in_available canonical available) then
    if drop_unconfigured then Ok None
    else Raise (RouteCompileError ("provider is not configured: " +:+ provider))
  else
    vendor ← requires_vendor_symbol provider;
    _ ← raise_if (vendor && negb (is_some (assoc_get provider (ri_provider_symbols item))))
          (RouteCompileError ("provider symbol is missing: " +:+ ri_symbol item +:+ "/" +:+ provider));
    _ ← raise_if (bool_decide (provider = "coingecko") && bool_decide (capability ∈ [QUOTE; HISTORY]) &&
                  negb (bool_decide ((symbol_parts (ri_symbol item)).2 ∈ COINGECKO_SUPPORTED_QUOTE_ASSETS)))
          (RouteCompileError ("CoinGecko route uses an unsupported quote asset: " +:+ ri_symbol item));
    if bool_decide (provider = "staking_market_ratio_proxy") &&
       negb (bool_decide (ri_reward_accrual_mode item = Some "value_accruing")) then
      if decide (ri_ownership item = "builtin") then Ok None
      else Raise (RouteCompileError ("market-ratio staking yield requires value_accruing rewards: " +:+
                                     ri_symbol item))
    else Ok (Some provider).

Definition validate_chain (item : InstrumentRouteInput) (capability : Capability) (providers : list string)
    (available : option (list string)) (max_chain_length : Z) (drop_unconfigured allow_empty : bool)
    : result (list string) :=
  let route := ri_symbol item +:+ "/" +:+ capability_value capability in
  let chain := normalize_provider <$> providers in
  _ ← raise_if (bool_decide (chain = [])) (RouteCompileError ("missing provider route: " +:+ route));
  _ ← raise_if (bool_decide (max_chain_length < Z.of_nat (length chain)))
        (RouteCompileError ("provider chain exceeds " +:+ pretty max_chain_length +:+ ": " +:+ route));
  _ ← raise_if (negb (bool_decide (NoDup chain)))
        (RouteCompileError ("provider chain contains duplicates: " +:+ route));
  selected ← fold_result (λ acc provider,
      choice ← validate_provider item capability available drop_unconfigured provider;
      Ok (acc ++ option_list choice)) [] chain;
  if decide (selected = []) then
    if allow_empty then Ok []
    else Raise (RouteCompileError ("no configured provider remains: " +:+ route))
  else
    _ ← raise_if (bool_decide ("synthetic" ∈ selected ∨ "synthetic_fx" ∈ selected) &&
                  negb (is_some (ri_synthetic item)) && negb (bool_decide ("synthetic_fx" ∈ chain)))
          (RouteCompileError ("synthetic route has no recipe: " +:+ ri_symbol item));
    _ ← raise_if (bool_decide ("synthetic_fx" ∈ selected) &&
                  bool_decide ((symbol_parts (ri_symbol item)).1 = "USD"))
          (RouteCompileError ("USD hub pairs must use direct providers: " +:+ route));
    _ ← raise_if (bool_decide ("synthetic_fx" ∈ selected) && is_some (ri_synthetic item))
          (RouteCompileError ("explicit synthetic recipes must use the synthetic provider: " +:+ ri_symbol item));
    Ok selected.

(** ** Dependencies *)

Abbreviation route_items := (list (string * InstrumentRouteInput)).

(** The closure [visit]: the symbols being visited and the depths found. *)
Fixpoint visit_depth (items : route_items) (maximum_depth : Z) (fuel : nat) (st : gset string * gmap string Z)
    (symbol : string) : result ((gset string * gmap string Z) * Z) :=
  match fuel with
  | O => Ok (st, 0)
  | S fuel' =>
    if decide (symbol ∈ st.1) then
      Raise (RouteCompileError ("synthetic dependency cycle includes " +:+ symbol))
    else
      match st.2 !! symbol, assoc_get symbol items with
      | Some n, _ => Ok (st, n)
      | None, None => Ok (st, 0)
      | None, Some item =>
        match ri_synthetic item with
        | None => Ok ((st.1, <[symbol := 0]> st.2), 0)
        | Some recipe =>
          r ← fold_result (λ (acc : (gset string * gmap string Z) * Z) dependency,
                _ ← raise_if (negb (is_some (assoc_get dependency items)))
                      (RouteCompileError ("synthetic input is not defined: " +:+ symbol +:+ " -> " +:+ dependency));
                d ← visit_depth items maximum_depth fuel' acc.1 dependency;
                Ok (d.1, acc.2 `max` d.2))
                (({[symbol]} ∪ st.1, st.2), 0) (sr_inputs recipe);
          let found := 1 + r.2 in
          _ ← raise_if (bool_decide (maximum_depth < found))
                (RouteCompileError ("synthetic dependency depth exceeds " +:+ pretty maximum_depth +:+ ": " +:+ symbol));
          Ok ((r.1.1 ∖ {[symbol]}, <[symbol := found]> r.1.2), found)
        end
      end
  end.

Definition visit_fuel (items : route_items) : nat := S (S (length items)).

Definition validate_synthetic_dependencies (items : route_items) (maximum_depth : Z) : result unit :=
  _ ← raise_if (bool_decide (maximum_depth ≤ 0)) (ValueError "maximum synthetic depth must be positive");
  _ ← fold_result (λ st (entry : string * InstrumentRouteInput),
        d ← visit_depth items maximum_depth (visit_fuel items) st entry.1; Ok d.1)
        (∅, ∅) items;
  Ok tt.

Definition builtin_ratio_policy (symbol : string) : option BuiltinStakingRatioPolicy :=
  next_where (λ p, sp_symbol p = symbol) BUILTIN_STAKING_RATIO_POLICIES.

Abbreviation compiled_items := (list (string * CompiledInstrumentRoutes)).

Definition history_of_route (compiled : compiled_items) (symbol : string) : list string :=
  match assoc_get symbol compiled with Some r => instrument_providers_for r HISTORY | None => [] end.

Definition check_ratio_dependency (items : route_items) (compiled : compiled_items)
    (entry : string * CompiledInstrumentRoutes) : result unit :=
  let symbol := entry.1 in
  if negb (bool_decide ("staking_market_ratio_proxy" ∈ instrument_providers_for entry.2 YIELD)) then Ok tt
  else
    let check_pairs := λ staking_pair underlying_pair : string,
      _ ← raise_if (negb (is_some (assoc_get staking_pair compiled) && is_some (assoc_get underlying_pair compiled)))
            (RouteCompileError ("market-ratio staking dependency is not active: " +:+ symbol));
      _ ← raise_if (bool_decide (history_of_route compiled staking_pair = []))
            (RouteCompileError ("market-ratio staking token requires a usable history route: " +:+ symbol));
      raise_if (bool_decide (history_of_route compiled underlying_pair = []))
        (RouteCompileError ("market-ratio staking underlying pair has no usable history route: " +:+
                            symbol +:+ " -> " +:+ underlying_pair)) in
    match builtin_ratio_policy symbol with
    | Some p =>
      let pairs := [sp_staking_pair p; sp_underlying_pair p] in
      if existsb (λ dependency, negb (is_some (assoc_get dependency items))) pairs then
        if forallb (λ dependency, is_some (assoc_get dependency BUILTIN_COINGECKO_COIN_IDS)) pairs then Ok tt
        else Raise (RouteCompileError ("built-in market-ratio dependency is unavailable: " +:+ symbol))
      else check_pairs (sp_staking_pair p) (sp_underlying_pair p)
    | None =>
      match assoc_get symbol items with
      | None => Raise (KeyError symbol)
      | Some item =>
        match ri_underlying_asset item with
        | None =>
          Raise (RouteCompileError ("market-ratio staking yield requires an underlying asset: " +:+ symbol))
        | Some asset => check_pairs symbol (asset +:+ ":" +:+ (symbol_parts symbol).2)
        end
      end
    end.

Definition validate_staking_ratio_dependencies (items : route_items) (compiled : compiled_items) : result unit :=
  _ ← map_result (check_ratio_dependency items compiled) compiled; Ok tt.

(** ** Credits *)

Definition poll_seconds (item : InstrumentRouteInput) (capability : Capability) : Z :=
  match capability with
  | QUOTE => ri_quote_poll_seconds item
  | HISTORY => ri_history_poll_seconds item
  | DIVIDEND | YIELD => ri_metadata_poll_seconds item
  end.

Definition ALPHA_VANTAGE_DEFAULT_FX_QUOTE_RESERVE_CREDITS : Z := 20.
Definition COINGECKO_SHARED_QUOTE_CACHE_SECONDS : Z := seconds 600.
Definition COINGECKO_DAILY_QUOTE_RESERVE_CREDITS : Z :=
  ceil_div SECONDS_PER_DAY COINGECKO_SHARED_QUOTE_CACHE_SECONDS + 1.
Definition BUILTIN_COINGECKO_NORMALIZATION_COIN_ID : string := "usd-coin".

(** A reserve leaves at least one credit of a positive limit. *)
Definition capped_reserve (reserve limit : Z) : Z := Z.min reserve (Z.max 0 (limit - 1)).

Definition credit_budget_context (settings : option ProviderSettings) : budget_context :=
  match settings with
  | None => []
  | Some s =>
    let twelve_limit := ps_twelve_daily_credits s in
    let twelve_reserve := capped_reserve (ps_twelve_fx_reserve_credits s) twelve_limit in
    let alpha_limit := ps_alpha_vantage_daily_credits s in
    let alpha_reserve := capped_reserve ALPHA_VANTAGE_DEFAULT_FX_QUOTE_RESERVE_CREDITS alpha_limit in
    let coingecko_limit := ps_coingecko_monthly_credits s / 31 in
    let coingecko_reserve := capped_reserve COINGECKO_DAILY_QUOTE_RESERVE_CREDITS coingecko_limit in
    [("twelve_data",
        [("period", JString "utc_day"); ("limit", JInt twelve_limit); ("daily_limit", JInt twelve_limit);
         ("reserved_for_fx", JInt twelve_reserve);
         ("available_outside_reserve", JInt (Z.max 0 (twelve_limit - twelve_reserve)))]);
     ("alpha_vantage",
        [("period", JString "utc_day"); ("limit", JInt alpha_limit); ("daily_limit", JInt alpha_limit);
         ("reserved_for_fx", JInt alpha_reserve);
         ("available_outside_reserve", JInt (Z.max 0 (alpha_limit - alpha_reserve)))]);
     ("coingecko",
        [("period", JString "rolling_month_safe_utc_day");
         ("monthly_limit", JInt (ps_coingecko_monthly_credits s)); ("daily_limit", JInt coingecko_limit);
         ("reserved_for_quotes", JInt coingecko_reserve);
         ("available_outside_reserve", JInt (Z.max 0 (coingecko_limit - coingecko_reserve)))]);
     ("finnhub",
        [("period", JString "minute"); ("limit", JInt (ps_finnhub_calls_per_minute s));
         ("daily_limit", JInt (ps_finnhub_calls_per_minute s * 1440))])]
  end.

Definition daily_credit_caps (settings : option ProviderSettings) : credits :=
  match settings with
  | None => ∅
  | Some s =>
    list_to_map
      [("twelve_data", dint (ps_twelve_daily_credits s));
       ("alpha_vantage", dint (ps_alpha_vantage_daily_credits s));
       ("coingecko", dint (ps_coingecko_monthly_credits s / 31));
       ("finnhub", dint (ps_finnhub_calls_per_minute s * 1440))]
  end.

(** How a demand turns into requests. *)
Inductive request_model := SINGLE | COLLECTOR_HISTORY.

#[export] Instance request_model_eq_dec : EqDecision request_model.
Proof. solve_decision. Defined.

Record CreditDemand := {
  dd_poll_seconds : Z;
  dd_history_backfill_days : Z;
  dd_request_model : request_model;
  dd_bases : gset string;
  dd_ownerships : gset string;
  dd_quota_scopes : gset string;
  dd_committed : bool;
}.

Record CreditRequestProfile := {
  pf_cycles_per_day : Z;
  pf_steady_state_requests_per_cycle : Z;
  pf_cold_start_requests : Z;
}.

Definition requests_per_day (p : CreditRequestProfile) : Z :=
  pf_cold_start_requests p + Z.max 0 (pf_cycles_per_day p - 1) * pf_steady_state_requests_per_cycle p.

Definition quota_scope (provider : string) (asset_class : AssetClass) : string :=
  if decide (canonical_provider_name provider = "twelve_data" ∧ asset_class = FX) then "fx_reserved"
  else "general".

Definition cycles_per_day (poll : Z) : Z := ceil_div SECONDS_PER_DAY poll.

Definition single_profile (poll : Z) : CreditRequestProfile :=
  {| pf_cycles_per_day := cycles_per_day poll; pf_steady_state_requests_per_cycle := 1;
     pf_cold_start_requests := 1 |}.

Definition page_bar_limit : Z := 5000.

Definition collector_history_profile (provider : string) (poll backfill_days : Z) : CreditRequestProfile :=
  if decide (canonical_provider_name provider = "alpha_vantage") then single_profile poll
  else
    let pages := foldl (λ (acc : Z * Z) (interval : Z * Z),
      let cold_bars := Z.max 1 (ceil_div (interval.2 * 86400) interval.1) in
      let steady_bars := Z.max 1 (ceil_div poll (seconds interval.1) + 2) in
      (acc.1 + ceil_div cold_bars page_bar_limit, acc.2 + ceil_div steady_bars page_bar_limit))
      (1, 1) [(60, Z.min 2 backfill_days); (300, Z.min 45 backfill_days)] in
    {| pf_cycles_per_day := cycles_per_day poll; pf_steady_state_requests_per_cycle := pages.2;
       pf_cold_start_requests := pages.1 |}.

Definition credit_request_profile (provider : string) (d : CreditDemand) : CreditRequestProfile :=
  match dd_request_model d with
  | COLLECTOR_HISTORY => collector_history_profile provider (dd_poll_seconds d) (dd_history_backfill_days d)
  | SINGLE => single_profile (dd_poll_seconds d)
  end.

(** The arguments of the closure [add]. *)
Record demand_request := {
  dr_provider : string;
  dr_capability : Capability;
  dr_symbol : string;
  dr_poll_seconds : Z;
  dr_basis : string;
  dr_asset_class : AssetClass;
  dr_ownership : string;
  dr_committed : bool;
  dr_history_backfill_days : Z;
  dr_request_model : request_model;
  dr_request_group : option string;
}.

Abbreviation demand_key := (string * Capability * string * string)%type.
Abbreviation credit_demands := (gmap demand_key CreditDemand).

Definition merge_demand (previous : CreditDemand) (scope : string) (r : demand_request) : CreditDemand :=
  {| dd_poll_seconds := Z.min (dd_poll_seconds previous) (dr_poll_seconds r);
     dd_history_backfill_days := Z.max (dd_history_backfill_days previous) (dr_history_backfill_days r);
     dd_request_model := if decide (dr_request_model r = COLLECTOR_HISTORY) then COLLECTOR_HISTORY
                         else dd_request_model previous;
     dd_bases := {[dr_basis r]} ∪ dd_bases previous;
     dd_ownerships := {[dr_ownership r]} ∪ dd_ownerships previous;
     dd_quota_scopes := {[scope]} ∪ dd_quota_scopes previous;
     dd_committed := dd_committed previous || dr_committed r |}.

Definition new_demand (scope : string) (r : demand_request) : CreditDemand :=
  {| dd_poll_seconds := dr_poll_seconds r; dd_history_backfill_days := dr_history_backfill_days r;
     dd_request_model := dr_request_model r; dd_bases := {[dr_basis r]}; dd_ownerships := {[dr_ownership r]};
     dd_quota_scopes := {[scope]}; dd_committed := dr_committed r |}.

Definition add_demand (demands : credit_demands) (r : demand_request) : result credit_demands :=
  d ← get_provider_descriptor (dr_provider r);
  if decide (is_zero (credit_cost d (dr_capability r))) then Ok demands
  else
    let provider := pd_name d in
    let key := (provider, dr_capability r, normalize_symbol (dr_symbol r),
                default (dr_basis r) (dr_request_group r)) in
    let scope := quota_scope provider (dr_asset_class r) in
    Ok (<[key := match demands !! key with
                 | Some previous => merge_demand previous scope r
                 | None => new_demand scope r
                 end]> demands).

(** [enumerate] *)
Definition enumerated {A} (l : list A) : list (nat * A) := zip (seq 0 (length l)) l.

Definition history_model (capability : Capability) : request_model :=
  if decide (capability = HISTORY) then COLLECTOR_HISTORY else SINGLE.

(** The requests of a chain whose first provider is the committed one. *)
Definition chain_requests (item : InstrumentRouteInput) (capability : Capability) (symbol : string)
    (poll : Z) (basis : string) (asset_class : AssetClass) (backfill_days : Z) (model : request_model)
    (group : option string) (providers : list string) : list demand_request :=
  (λ entry : nat * string,
     {| dr_provider := entry.2; dr_capability := capability; dr_symbol := symbol; dr_poll_seconds := poll;
        dr_basis := basis; dr_asset_class := asset_class; dr_ownership := ri_ownership item;
        dr_committed := bool_decide (entry.1 = O); dr_history_backfill_days := backfill_days;
        dr_request_model := model; dr_request_group := group |}) <$> enumerated providers.

Definition direct_requests (item : InstrumentRouteInput) (route : CompiledInstrumentRoutes) (symbol : string)
    : list demand_request :=
  concat ((λ entry : Capability * list string,
    chain_requests item entry.1 symbol (poll_seconds item entry.1) "direct_route" (ri_asset_class item)
      (ri_history_backfill_days item) (history_model entry.1) None entry.2) <$> ci_routes route).

Definition item_of (items : route_items) (symbol : string) : result InstrumentRouteInput :=
  match assoc_get symbol items with Some item => Ok item | None => Raise (KeyError symbol) end.

Definition synthetic_requests (items : route_items) (compiled : compiled_items) (item : InstrumentRouteInput)
    (route : CompiledInstrumentRoutes) (symbol : string) : result (list demand_request) :=
  match ri_synthetic item with
  | None => Ok []
  | Some recipe =>
    requests ← map_result (λ capability,
      if negb (bool_decide ("synthetic" ∈ instrument_providers_for route capability)) then Ok []
      else
        of_inputs ← map_result (λ dependency,
          match assoc_get dependency compiled with
          | None => Ok []
          | Some dependency_route =>
            match instrument_providers_for dependency_route capability with
            | [] => Ok []
            | providers =>
              dependency_item ← item_of items dependency;
              Ok (chain_requests item capability dependency (poll_seconds item capability)
                    ("synthetic_dependency:" +:+ symbol) (ri_asset_class dependency_item)
                    (ri_history_backfill_days item) (history_model capability) None providers)
            end
          end) (sr_inputs recipe);
        Ok (concat of_inputs)) [QUOTE; HISTORY];
    Ok (concat requests)
  end.

Definition fx_requests (available : option (list string)) (item : InstrumentRouteInput)
    (route : CompiledInstrumentRoutes) (symbol : string) : result (list demand_request) :=
  if negb (bool_decide (ri_asset_class item = FX)) then Ok []
  else
    requests ← map_result (λ entry : Capability * list string,
      if negb (existsb (λ provider, bool_decide (provider ∈ instrument_providers_for route entry.1)) entry.2)
      then Ok []
      else
        dependencies ← dynamic_fx_requirements symbol;
        let installed := List.filter (λ provider, in_available provider available) ["twelve_data"; "alpha_vantage"] in
        Ok (concat ((λ dependency,
          chain_requests item entry.1 dependency (poll_seconds item entry.1)
            ("fx_spoke_dependency:" +:+ symbol) FX (ri_history_backfill_days item) (history_model entry.1)
            (Some "fx_spoke_dependency") installed) <$> dependencies)))
      [(QUOTE, ["synthetic_fx"]); (HISTORY, ["synthetic_fx"; "synthetic_fx_history"])];
    Ok (concat requests).

(** The pairs the market-ratio yield of an instrument reads. *)
Definition ratio_dependencies (item : InstrumentRouteInput) (symbol : string) : list string :=
  match builtin_ratio_policy symbol with
  | Some p => [sp_staking_pair p; sp_underlying_pair p]
  | None =>
    match ri_underlying_asset item with
    | Some asset => [symbol; asset +:+ ":" +:+ (symbol_parts symbol).2]
    | None => []
    end
  end.

Definition ratio_requests (items : route_items) (compiled : compiled_items) (available : option (list string))
    (item : InstrumentRouteInput) (route : CompiledInstrumentRoutes) (symbol : string)
    : result (list demand_request) :=
  if negb (bool_decide ("staking_market_ratio_proxy" ∈ instrument_providers_for route YIELD)) then Ok []
  else
    let dependencies := ratio_dependencies item symbol in
    let internal := List.filter (λ dependency, negb (is_some (assoc_get dependency compiled))) dependencies in
    let request := λ dependency providers asset_class,
      chain_requests item HISTORY dependency (ri_metadata_poll_seconds item)
        ("staking_ratio_dependency:" +:+ symbol) asset_class 400 SINGLE None providers in
    match internal with
    | [] =>
      requests ← map_result (λ dependency,
        match history_of_route compiled dependency with
        | [] => Ok []
        | providers =>
          dependency_item ← item_of items dependency;
          Ok (request dependency providers (ri_asset_class dependency_item))
        end) dependencies;
      Ok (concat requests)
    | _ =>
      Ok (if in_available "coingecko" available
          then concat ((λ dependency, request dependency ["coingecko"] CRYPTO) <$> internal) else [])
    end.

Definition collect_demands (items : route_items) (compiled : compiled_items) (available : option (list string))
    : result credit_demands :=
  direct ← fold_result (λ demands (entry : string * CompiledInstrumentRoutes),
      item ← item_of items entry.1;
      fold_result add_demand demands (direct_requests item entry.2 entry.1)) ∅ compiled;
  fold_result (λ demands (entry : string * CompiledInstrumentRoutes),
      item ← item_of items entry.1;
      synthetic ← synthetic_requests items compiled item entry.2 entry.1;
      demands ← fold_result add_demand demands synthetic;
      fx ← fx_requests available item entry.2 entry.1;
      demands ← fold_result add_demand demands fx;
      ratio ← ratio_requests items compiled available item entry.2 entry.1;
      fold_result add_demand demands ratio) direct compiled.

(** ** The lines of the estimate *)

Definition COINGECKO_SIMPLE_PRICE_IDS_PER_REQUEST : nat := 250.
Definition COINGECKO_SIMPLE_PRICE_ID_CHARACTERS_PER_REQUEST : Z := 3500.

(** The batches of [coingecko_simple_price_id_batches]: those finished, the
    current one and its characters. *)
Definition batch_id (st : list (list string) * list string * Z) (coin_id : string)
    : result (list (list string) * list string * Z) :=
  let '(batches, current, characters) := st in
  let size := Z.of_nat (String.length coin_id) in
  _ ← raise_if (bool_decide (COINGECKO_SIMPLE_PRICE_ID_CHARACTERS_PER_REQUEST < size))
        (ValueError "CoinGecko coin ID exceeds the safe query length");
  let added := size + (if decide (current = []) then 0 else 1) in
  if decide (current ≠ [] ∧
             ((COINGECKO_SIMPLE_PRICE_IDS_PER_REQUEST ≤ length current)%nat ∨
              COINGECKO_SIMPLE_PRICE_ID_CHARACTERS_PER_REQUEST < characters + added))
  then Ok (batches ++ [current], [coin_id], size)
  else Ok (batches, current ++ [coin_id], characters + added).

Definition coingecko_simple_price_id_batches (coin_ids : list string) : result (list (list string)) :=
  let normalized := sorted_set (strip <$> List.filter (λ coin_id, truthy (strip coin_id)) coin_ids) in
  st ← fold_result batch_id ([], [], 0) normalized;
  let '(batches, current, _) := st in
  Ok (if decide (current = []) then batches else batches ++ [current]).

(** The coin ids of the shared quote batch. *)
Definition coingecko_coin_ids (items : route_items) (compiled : compiled_items) : result (gset string) :=
  routed ← map_result (λ entry : string * CompiledInstrumentRoutes,
    if existsb (λ chain : Capability * list string, bool_decide ("coingecko" ∈ chain.2)) (ci_routes entry.2) then
      item ← item_of items entry.1;
      Ok (option_list (assoc_get "coingecko" (ri_provider_symbols item)))
    else Ok []) compiled;
  let ratio := concat ((λ p,
    match assoc_get (sp_symbol p) compiled with
    | Some route =>
      if bool_decide ("staking_market_ratio_proxy" ∈ instrument_providers_for route YIELD) then
        omap (λ dependency, assoc_get dependency BUILTIN_COINGECKO_COIN_IDS) [sp_staking_pair p; sp_underlying_pair p]
      else []
    | None => []
    end) <$> BUILTIN_STAKING_RATIO_POLICIES) in
  Ok (list_to_set (BUILTIN_COINGECKO_NORMALIZATION_COIN_ID :: concat routed ++ ratio)).

Definition is_coingecko_quote (key : demand_key) : bool :=
  bool_decide (key.1.1.1 = "coingecko" ∧ key.1.1.2 = QUOTE).

Definition texts (s : gset string) : list string := sorted_texts (elements s).

(** The quotes of CoinGecko are one line: they share a batch request. *)
Definition coingecko_quote_line (items : route_items) (compiled : compiled_items)
    (shared : list CreditDemand) : result (list CreditEstimateLine) :=
  match shared with
  | [] => Ok []
  | d :: rest =>
    let access_interval := foldl (λ acc d', Z.min acc (dd_poll_seconds d')) (dd_poll_seconds d) rest in
    coin_ids ← coingecko_coin_ids items compiled;
    batches ← coingecko_simple_price_id_batches (elements coin_ids);
    let batch_count := Z.of_nat (length batches) in
    let refreshes := cycles_per_day (COINGECKO_SHARED_QUOTE_CACHE_SECONDS `max` access_interval) in
    let requests := refreshes * batch_count in
    descriptor ← get_provider_descriptor "coingecko";
    let bases := {["shared_batch_cache"; "shared_batch_count:" +:+ pretty batch_count]} ∪
                 ⋃ (dd_bases <$> shared) in
    Ok [{| ce_provider := "coingecko"; ce_capability := QUOTE; ce_symbol := "*";
           ce_requests_per_day := requests;
           ce_estimated_credits_per_day := dmul (dint requests) (pd_quote_credit_cost descriptor);
           ce_cycles_per_day := refreshes; ce_steady_state_requests_per_cycle := batch_count;
           ce_cold_start_requests := batch_count; ce_bases := texts bases;
           ce_committed := existsb dd_committed shared;
           ce_ownerships := texts (⋃ (dd_ownerships <$> shared));
           ce_quota_scopes := texts (⋃ (dd_quota_scopes <$> shared)) |}]
  end.

Definition demand_line (entry : demand_key * CreditDemand) : result CreditEstimateLine :=
  let '((provider, capability, symbol, _), d) := entry in
  descriptor ← get_provider_descriptor provider;
  let profile := credit_request_profile provider d in
  let requests := requests_per_day profile in
  Ok {| ce_provider := provider; ce_capability := capability; ce_symbol := symbol;
        ce_requests_per_day := requests;
        ce_estimated_credits_per_day := dmul (dint requests) (credit_cost descriptor capability);
        ce_cycles_per_day := pf_cycles_per_day profile;
        ce_steady_state_requests_per_cycle := pf_steady_state_requests_per_cycle profile;
        ce_cold_start_requests := pf_cold_start_requests profile; ce_bases := texts (dd_bases d);
        ce_committed := dd_committed d; ce_ownerships := texts (dd_ownerships d);
        ce_quota_scopes := texts (dd_quota_scopes d) |}.

(** Tuples of texts in lexicographic order. *)
Fixpoint compare_texts (a b : list string) : comparison :=
  match a, b with
  | [], [] => Eq
  | [], _ => Lt
  | _, [] => Gt
  | x :: a', y :: b' => match String.compare x y with Eq => compare_texts a' b' | c => c end
  end.

Definition key_texts (key : demand_key) : list string :=
  let '(provider, capability, symbol, group) := key in [provider; capability_value capability; symbol; group].

Definition line_texts (l : CreditEstimateLine) : list string :=
  [ce_provider l; capability_value (ce_capability l); ce_symbol l].

Definition estimate_lines (items : route_items) (compiled : compiled_items) (demands : credit_demands)
    : result (list CreditEstimateLine) :=
  let entries := sort_rows (λ a b : demand_key * CreditDemand, compare_texts (key_texts a.1) (key_texts b.1))
                   (map_to_list demands) in
  shared ← coingecko_quote_line items compiled (List.filter (λ e, is_coingecko_quote e.1) entries).*2;
  own ← map_result demand_line (List.filter (λ e, negb (is_coingecko_quote e.1)) entries);
  Ok (sort_rows (λ a b, compare_texts (line_texts a) (line_texts b)) (shared ++ own)).

(** [totals[provider] += credits] of a [defaultdict(Decimal)]. *)
Definition add_credits (key : string) (value : decimal) (m : credits) : credits :=
  <[key := dadd (default dzero (m !! key)) value]> m.

Definition total_credits (lines : list CreditEstimateLine) : credits :=
  foldl (λ m l, add_credits (ce_provider l) (ce_estimated_credits_per_day l) m) ∅ lines.

Definition scoped_total_credits (lines : list CreditEstimateLine) : scoped_credits :=
  foldl (λ m l,
    foldl (λ m scope,
      <[ce_provider l := add_credits scope (ce_estimated_credits_per_day l) (default ∅ (m !! ce_provider l))]> m)
      m (ce_quota_scopes l)) ∅ lines.

Definition committed_lines (lines : list CreditEstimateLine) : list CreditEstimateLine :=
  List.filter ce_committed lines.

Definition hard_capped (caps worst_case : credits) : credits :=
  map_imap (λ provider value, Some (match caps !! provider with Some cap => dmin value cap | None => value end))
    worst_case.

(** ** Compiling *)

(** The chain of one capability of an instrument: [None] where it has no route. *)
Definition compile_capability (available : option (list string)) (max_chain_length : Z)
    (drop_unconfigured strict : bool) (item : InstrumentRouteInput) (capability : Capability)
    : result (option (list string)) :=
  let explicit := chain_for capability (ri_routes item) in
  let builtin := bool_decide (ri_ownership item = "builtin") in
  candidates ← match explicit with
               | Some chain => Ok chain
               | None => recommended_provider_chain item capability available
               end;
  if bool_decide (candidates = []) && negb strict then Ok None
  else
    chain ← validate_chain item capability candidates available max_chain_length
              (drop_unconfigured && (negb (is_some explicit) || builtin)) (negb strict || builtin);
    Ok (if decide (chain = []) then None else Some chain).

Definition compile_item (available : option (list string)) (max_chain_length : Z)
    (drop_unconfigured strict : bool) (item : InstrumentRouteInput) : result (list (Capability * list string)) :=
  chains ← map_result (λ capability,
    chain ← compile_capability available max_chain_length drop_unconfigured strict item capability;
    Ok ((capability,.) <$> option_list chain)) (required_capabilities item);
  Ok (concat chains).

Definition add_item (items : route_items) (item : InstrumentRouteInput) : result route_items :=
  _ ← raise_if (is_some (assoc_get (ri_symbol item) items))
        (RouteCompileError ("duplicate instrument route definition: " +:+ ri_symbol item));
  Ok (items ++ [(ri_symbol item, item)]).

Definition compiled_item (item : InstrumentRouteInput) (routes : capability_routes)
    : string * CompiledInstrumentRoutes :=
  (ri_symbol item,
   {| ci_symbol := ri_symbol item; ci_provider_symbols := ri_provider_symbols item; ci_routes := routes;
      ci_synthetic := ri_synthetic item |}).

Definition flattened_routes (compiled : compiled_items) : list CompiledRoute :=
  concat ((λ entry : string * CompiledInstrumentRoutes,
    (λ chain : Capability * list string,
       {| rt_symbol := entry.1; rt_capability := chain.1; rt_providers := chain.2 |}) <$> ci_routes entry.2)
    <$> compiled).

Definition check_credit_limit (used : credits) (entry : string * decimal) : result unit :=
  let provider := normalize_provider entry.1 in
  _ ← raise_if (bool_decide (is_neg entry.2)) (ValueError ("credit limit cannot be negative: " +:+ provider));
  let spent := default dzero (used !! provider) in
  raise_if (bool_decide (dlt entry.2 spent))
    (RouteCompileError ("estimated daily credits exceed budget for " +:+ provider +:+ ": " +:+
                        decimal_str spent +:+ " > " +:+ decimal_str entry.2)).

Definition available_of (settings : option ProviderSettings) (available_providers : option (list string))
    : option (list string) :=
  match available_providers, settings with
  | Some names, _ => Some (normalize_provider <$> names)
  | None, Some _ => Some (configured_provider_names settings)
  | None, None => None
  end.

Definition compile_route_plan (definitions : list InstrumentRouteInput) (settings : option ProviderSettings)
    (available_providers : option (list string)) (max_chain_length maximum_synthetic_depth : Z)
    (daily_credit_limits : option (list (string * decimal))) (drop_unconfigured strict : bool)
    : result CompiledRoutePlan :=
  _ ← raise_if (bool_decide (max_chain_length ≤ 0)) (ValueError "maximum provider chain length must be positive");
  items ← fold_result add_item [] definitions;
  _ ← validate_synthetic_dependencies items maximum_synthetic_depth;
  let available := available_of settings available_providers in
  compiled ← map_result (λ entry : string * InstrumentRouteInput,
      routes ← compile_item available max_chain_length drop_unconfigured strict entry.2;
      Ok (compiled_item entry.2 routes)) items;
  _ ← validate_staking_ratio_dependencies items compiled;
  demands ← collect_demands items compiled available;
  lines ← estimate_lines items compiled demands;
  let worst_case := total_credits lines in
  let committed := total_credits (committed_lines lines) in
  _ ← match daily_credit_limits with
      | None => Ok []
      | Some limits => map_result (check_credit_limit committed) limits
      end;
  Ok {| rp_instruments := compiled; rp_routes := flattened_routes compiled;
        rp_estimated_daily_credits := committed; rp_committed_daily_credits := committed;
        rp_committed_daily_credits_by_scope := scoped_total_credits (committed_lines lines);
        rp_worst_case_daily_credits := worst_case;
        rp_worst_case_daily_credits_by_scope := scoped_total_credits lines;
        rp_hard_capped_daily_credits := hard_capped (daily_credit_caps settings) worst_case;
        rp_credit_estimates := lines; rp_credit_budget_context := credit_budget_context settings |}.

(** [compile_catalog_route_plan] with the arguments a generation is compiled with:
    its active definitions, dropping what is not configured. *)
Definition active_definitions (definitions : list ManagedInstrumentDefinition) : list ManagedInstrumentDefinition :=
  List.filter active definitions.

Definition bindings_by_provider (inputs : list InstrumentRouteInput) (plan : CompiledRoutePlan)
    : result (gmap string (gmap string string)) :=
  fold_result (λ m item,
    match plan_instrument plan (ri_symbol item) with
    | None => Raise (OtherError "AttributeError")
    | Some i =>
      let routed := concat (ci_routes i).*2 in
      Ok (foldl (λ m (binding : string * string),
            if decide (binding.1 ∈ routed)
            then <[binding.1 := <[ri_symbol item := binding.2]> (default ∅ (m !! binding.1))]> m else m)
            m (ri_provider_symbols item))
    end) ∅ inputs.

(** ** Incremental admission *)

Definition line_identity (l : CreditEstimateLine) : string * Capability * string * list string * list string :=
  (ce_provider l, ce_capability l, ce_symbol l, ce_bases l, ce_quota_scopes l).

(** The committed credits of a plan by identity, for a provider and, where one
    is given, a quota scope. *)
Definition committed_by_identity {I} `{Countable I} (identity : CreditEstimateLine → I)
    (wanted : CreditEstimateLine → bool) (lines : list CreditEstimateLine) : gmap I decimal :=
  foldl (λ m l,
    if ce_committed l && wanted l
    then <[identity l := dadd (default dzero (m !! identity l)) (ce_estimated_credits_per_day l)]> m else m) ∅ lines.

Definition wanted_line (provider : string) (scope : option string) (l : CreditEstimateLine) : bool :=
  bool_decide (ce_provider l = provider) &&
  match scope with Some s => bool_decide (s ∈ ce_quota_scopes l) | None => true end.

Definition retained_credits (active : option CompiledRoutePlan) (candidate : CompiledRoutePlan)
    (provider : string) (scope : option string) : decimal :=
  let totals := λ p, committed_by_identity line_identity (wanted_line provider scope) (rp_credit_estimates p) in
  let active_lines := match active with Some p => totals p | None => ∅ end in
  let candidate_lines := totals candidate in
  foldl dadd dzero
    ((λ entry : _ * decimal, dmin entry.2 (default dzero (candidate_lines !! entry.1))) <$> map_to_list active_lines).

(** An activation error: the credits committed and the credits allowed. *)
Record BudgetError := {
  be_provider : string;
  be_general : bool;
  be_value : decimal;
  be_allowed : decimal;
}.

Definition budget_limit (context : list (string * json)) (name : string) : option decimal :=
  match json_get name context with JInt n => Some (dint n) | _ => None end.

Definition incremental_credit_budget_errors (active : option CompiledRoutePlan) (candidate : CompiledRoutePlan)
    : list BudgetError :=
  let total_errors := omap (λ entry : string * list (string * json),
    limit ← budget_limit entry.2 "daily_limit";
    let allowed := dmax limit (retained_credits active candidate entry.1 None) in
    let value := default dzero (rp_committed_daily_credits candidate !! entry.1) in
    if decide (dlt allowed value)
    then Some {| be_provider := entry.1; be_general := false; be_value := value; be_allowed := allowed |}
    else None) (rp_credit_budget_context candidate) in
  let general_errors := option_list (
    context ← assoc_get "twelve_data" (rp_credit_budget_context candidate);
    limit ← budget_limit context "available_outside_reserve";
    let allowed := dmax limit (retained_credits active candidate "twelve_data" (Some "general")) in
    let value := default dzero (default ∅ (rp_committed_daily_credits_by_scope candidate !! "twelve_data") !! "general") in
    if decide (dlt allowed value)
    then Some {| be_provider := "twelve_data"; be_general := true; be_value := value; be_allowed := allowed |}
    else None) in
  total_errors ++ general_errors.
