(* ===== verification/CompilerFacts.v ===== *)
(** * Theorems on the route compiler

    Which chains a plan can contain, which dependencies of synthetic
    instruments are accepted, and what the credits of a plan add up to. *)

From S2P Require Import Prelude PyStr PyDecimal PyTime Graph Domain PluginApi Registry Wire Json Analytics Fx Policy.
From S2P Require Import Catalog CatalogFacts CatalogDocument Descriptors Compiler.
From Stdlib Require Import Ascii.

Local Open Scope string_scope.
Local Open Scope list_scope.
Local Open Scope Z_scope.

Lemma recompile_ok {A} text (m : result A) a : recompile text m = Ok a ↔ m = Ok a.
Proof.
  unfold recompile, reraise_value_error. destruct m as [b|e]; [done|].
  destruct (value_error e); split; done.
Qed.

(** ** Chains *)

(** A provider the compiler may route a capability of [item] to. *)
Record provider_allowed (item : InstrumentRouteInput) (capability : Capability) (available : option (list string))
    (provider : string) : Prop := {
  pa_supported : ∃ d, get_provider_descriptor provider = Ok d ∧
    supports d (ri_asset_class item) capability = true ∧
    (pd_kind d = MARKET_DATA ∨ provider = "fred" → is_Some (assoc_get provider (ri_provider_symbols item)));
  pa_available : in_available provider available = true ∨
    in_available (canonical_provider_name provider) available = true;
  pa_selectable : canonical_provider_name provider = provider ∨
    ri_ownership item = "builtin" ∧
    provider ∈ default [] (chain_for capability (shipped_routes (ri_symbol item)));
  pa_quote_asset : provider = "coingecko" → capability ∈ [QUOTE; HISTORY] →
    (symbol_parts (ri_symbol item)).2 ∈ COINGECKO_SUPPORTED_QUOTE_ASSETS;
  pa_accruing : provider = "staking_market_ratio_proxy" → ri_reward_accrual_mode item = Some "value_accruing";
}.

Lemma requires_vendor_ok provider b :
  requires_vendor_symbol provider = Ok b →
  ∃ d, get_provider_descriptor provider = Ok d ∧
       (b = true ↔ pd_kind d = MARKET_DATA ∨ provider = "fred").
Proof.
  unfold requires_vendor_symbol. intros (d & Hd & [= <-])%result_bind_ok. exists d. split; [done|].
  rewrite orb_true_iff, !bool_decide_eq_true. done.
Qed.

Lemma validate_provider_ok item capability available drop provider choice :
  validate_provider item capability available drop provider = Ok (Some choice) →
  choice = provider ∧ provider_allowed item capability available provider.
Proof.
  unfold validate_provider. intros [Hsel H]%raise_bind.
  apply result_bind_ok in H as (d & Hd%recompile_ok & [Hsup H]%raise_bind).
  destruct (_ && _) eqn:Hav in H; [by destruct drop|].
  apply result_bind_ok in H as (vendor & (d' & Hd' & Hvendor)%requires_vendor_ok & [Hsym [Hquote H]%raise_bind]%raise_bind).
  assert (d' = d) as -> by congruence.
  destruct (bool_decide (provider = "staking_market_ratio_proxy") && _) eqn:Hratio in H; [by case_decide|].
  injection H as <-. split; [done|]. apply negb_false_iff in Hsup.
  constructor.
  - exists d. split_and!; [done|done|]. intros Hk%Hvendor. subst vendor. cbn in Hsym.
    destruct (assoc_get provider _); [by eexists|done].
  - destruct (in_available provider available); [by left|]. right. cbn in Hav. by apply negb_false_iff in Hav.
  - destruct (decide (canonical_provider_name provider = provider)) as [|Hc]; [by left|]. right.
    rewrite bool_decide_eq_false_2 in Hsel by done. cbn in Hsel.
    apply orb_false_iff in Hsel as [?%negb_false_iff%bool_decide_eq_true ?%negb_false_iff%bool_decide_eq_true]. done.
  - intros Hp Hcap. rewrite !bool_decide_eq_true_2 in Hquote by done. cbn in Hquote.
    by apply negb_false_iff, bool_decide_eq_true in Hquote.
  - intros Hp. rewrite bool_decide_eq_true_2 in Hratio by done. cbn in Hratio.
    by apply negb_false_iff, bool_decide_eq_true in Hratio.
Qed.

(** The choices of a chain, in its order. *)
Lemma validate_choices item capability available drop chain : ∀ acc selected,
  fold_result (λ acc provider,
    choice ← validate_provider item capability available drop provider;
    Ok (acc ++ option_list choice)) acc chain = Ok selected →
  ∃ chosen, selected = acc ++ chosen ∧ chosen `sublist_of` chain ∧
            Forall (provider_allowed item capability available) chosen.
Proof.
  induction chain as [|p chain IH]; intros acc selected; cbn [fold_result].
  { intros [= <-]. exists []. by rewrite app_nil_r. }
  intros (acc' & (choice & Hp & [= <-])%result_bind_ok & H)%result_bind_ok.
  apply IH in H as (chosen & -> & Hsub & Hall). destruct choice as [q|]; cbn.
  - apply validate_provider_ok in Hp as [-> Hp]. exists (p :: chosen). rewrite <- app_assoc.
    split_and!; [done|by constructor|by constructor].
  - exists chosen. rewrite app_nil_r. split_and!; [done|by constructor|done].
Qed.

Record chain_allowed (item : InstrumentRouteInput) (capability : Capability) (available : option (list string))
    (max_chain_length : Z) (candidates chain : list string) : Prop := {
  ca_order : chain `sublist_of` (normalize_provider <$> candidates);
  ca_distinct : NoDup chain;
  ca_length : Z.of_nat (length chain) ≤ max_chain_length;
  ca_providers : Forall (provider_allowed item capability available) chain;
  ca_recipe : "synthetic" ∈ chain →
    is_Some (ri_synthetic item) ∨ "synthetic_fx" ∈ normalize_provider <$> candidates;
  ca_hub : "synthetic_fx" ∈ chain → (symbol_parts (ri_symbol item)).1 ≠ "USD" ∧ ri_synthetic item = None;
}.

Lemma validate_chain_ok item capability candidates available max_chain_length drop allow_empty chain :
  validate_chain item capability candidates available max_chain_length drop allow_empty = Ok chain →
  chain_allowed item capability available max_chain_length candidates chain ∧ (chain = [] → allow_empty = true).
Proof.
  unfold validate_chain. intros [Hne [Hlen [Hnd H]%raise_bind]%raise_bind]%raise_bind.
  apply bool_decide_eq_false in Hlen. apply negb_false_iff, bool_decide_eq_true in Hnd.
  apply result_bind_ok in H as (selected & (chosen & -> & Hsub & Hall)%validate_choices & H). cbn in H.
  case_decide as Hempty.
  { subst chosen. destruct allow_empty; [|done]. injection H as <-. split; [|done].
    constructor; [done|constructor|cbn; lia|done|by intros ?%elem_of_nil..]. }
  apply raise_bind in H as [Hrec [Husd [Hsyn [= <-]]%raise_bind]%raise_bind]. split; [|done].
  constructor; [done|by eapply sublist_NoDup| |done| |].
  - pose proof (sublist_length _ _ Hsub). lia.
  - intros Hs. rewrite bool_decide_eq_true_2 in Hrec by by left. cbn in Hrec.
    destruct (ri_synthetic item); [left; by eexists|right]. cbn in Hrec.
    by apply negb_false_iff, bool_decide_eq_true in Hrec.
  - intros Hfx. rewrite bool_decide_eq_true_2 in Husd, Hsyn by done. cbn in Husd, Hsyn.
    apply bool_decide_eq_false in Husd. by destruct (ri_synthetic item).
Qed.

(** The candidates of a capability: the explicit chain, or the recommended one. *)
Definition candidates_of (available : option (list string)) (item : InstrumentRouteInput) (capability : Capability)
    : result (list string) :=
  match chain_for capability (ri_routes item) with
  | Some chain => Ok chain
  | None => recommended_provider_chain item capability available
  end.

Lemma compile_capability_ok available max_chain_length drop strict item capability chain :
  compile_capability available max_chain_length drop strict item capability = Ok (Some chain) →
  chain ≠ [] ∧ ∃ candidates, candidates_of available item capability = Ok candidates ∧
  chain_allowed item capability available max_chain_length candidates chain.
Proof.
  unfold compile_capability. intros (candidates & Hc & H)%result_bind_ok.
  destruct (_ && negb strict); [done|]. apply result_bind_ok in H as (c & [Hok _]%validate_chain_ok & H).
  case_decide; [done|]. injection H as <-. split; [done|]. by exists candidates.
Qed.

(** Every required capability of a custom instrument is routed when the
    compilation is strict. *)
Lemma compile_capability_total available max_chain_length drop item capability o :
  ri_ownership item ≠ "builtin" →
  compile_capability available max_chain_length drop true item capability = Ok o → is_Some o.
Proof.
  intros Hown. unfold compile_capability. rewrite bool_decide_eq_false_2 by done.
  intros (candidates & Hc & H)%result_bind_ok. rewrite andb_false_r in H.
  apply result_bind_ok in H as (c & [_ Hempty]%validate_chain_ok & [= <-]).
  case_decide as Hnil; [by specialize (Hempty Hnil)|by eexists].
Qed.

Lemma chain_for_in c routes chain : chain_for c routes = Some chain → (c, chain) ∈ routes.
Proof.
  induction routes as [|[k w] l IH]; cbn; [done|]. case_decide; [intros [= <-]; subst; by left|right; auto].
Qed.

Lemma required_NoDup item : NoDup (required_capabilities item).
Proof.
  unfold required_capabilities. destruct (ri_history_enabled item), (is_some _ || _), (bool_decide _); cbn;
    repeat constructor; set_solver.
Qed.

Lemma compile_item_ok available max_chain_length drop strict item routes :
  compile_item available max_chain_length drop strict item = Ok routes →
  Forall (λ entry : Capability * list string,
            entry.1 ∈ required_capabilities item ∧
            compile_capability available max_chain_length drop strict item entry.1 = Ok (Some entry.2)) routes ∧
  (∀ capability, capability ∈ required_capabilities item →
     ∃ o, compile_capability available max_chain_length drop strict item capability = Ok o ∧
          chain_for capability routes = o).
Proof.
  unfold compile_item. intros (chains & Hc%map_result_ok & [= <-])%result_bind_ok.
  pose proof (required_NoDup item) as Hnd. revert chains Hc.
  induction (required_capabilities item) as [|c cs IH]; intros chains Hc.
  { apply Forall2_nil_inv_l in Hc as ->. split; [constructor|]. by intros c ?%elem_of_nil. }
  apply NoDup_cons in Hnd as [Hnin Hnd].
  apply Forall2_cons_inv_l in Hc as (entry & rest & (o & Ho & [= <-])%result_bind_ok & Hrest & ->).
  destruct (IH Hnd rest Hrest) as [Hall Htotal]. cbn [concat]. split.
  - apply Forall_app. split; [destruct o as [chain|]; constructor; [|constructor]|].
    + split; [by left|done].
    + eapply Forall_impl; [exact Hall|]. cbn. intros e [He ?]. split; [by right|done].
  - intros c' [->|Hc']%elem_of_cons.
    + exists o. split; [done|]. destruct o as [chain|]; cbn; [by rewrite decide_True|].
      destruct (chain_for c (concat rest)) as [w|] eqn:Hw; [|done]. apply chain_for_in in Hw.
      rewrite Forall_forall in Hall. apply Hall in Hw as [? _]. done.
    + destruct (Htotal c' Hc') as (o' & Ho' & Hch). exists o'. split; [done|].
      destruct o as [chain|]; cbn; [|done]. rewrite decide_False; [done|]. intros ->. done.
Qed.

(** ** Dependencies of synthetic instruments *)

Section dependencies.
Context (items : route_items) (D : Z).
Hypothesis HD : 0 < D.
Hypothesis Hinputs : ∀ x item r, assoc_get x items = Some item → ri_synthetic item = Some r → sr_inputs r ≠ [].

Definition reads_input (x y : string) : Prop :=
  ∃ item r, assoc_get x items = Some item ∧ ri_synthetic item = Some r ∧ y ∈ sr_inputs r.

Definition defined (x : string) : Prop := is_Some (assoc_get x items).

(** Everything a symbol depends on is defined. *)
Definition grounded (x : string) : Prop := ∀ y z, rtc reads_input x y → reads_input y z → defined z.

Definition settled (x : string) (n : Z) : Prop :=
  0 ≤ n ≤ D ∧ height reads_input x (Z.to_nat n) ∧ grounded x.

Definition memo_settled (m : gmap string Z) : Prop := ∀ x n, m !! x = Some n → settled x n.

(** What makes the compiler reject the definitions. *)
Definition faulty : Prop :=
  (∃ x y, reads_input x y ∧ ¬ defined y) ∨ ∃ x y, nsteps reads_input (S (Z.to_nat D)) x y.

Definition visit_post (st : gset string * gmap string Z) (symbol : string)
    (r : result ((gset string * gmap string Z) * Z)) : Prop :=
  match r with
  | Ok (st', n) => st'.1 = st.1 ∧ memo_settled st'.2 ∧ settled symbol n
  | Raise _ => (∀ v, v ∈ st.1 → tc reads_input v symbol) → faulty
  end.

Lemma no_inputs_settled x : (∀ y, ¬ reads_input x y) → settled x 0.
Proof.
  intros Hx. split_and!; [lia|lia| |].
  - split; [exists x; constructor|]. intros m y Hy. destruct Hy as [|m x z y Hr _]; [lia|by destruct (Hx z)].
  - intros y z Hy Hz. inversion Hy; subst; [by destruct (Hx z)|by edestruct Hx].
Qed.

Definition visit_input (fuel : nat) (symbol : string) (acc : (gset string * gmap string Z) * Z)
    (dependency : string) : result ((gset string * gmap string Z) * Z) :=
  _ ← raise_if (negb (is_some (assoc_get dependency items)))
        (RouteCompileError ("synthetic input is not defined: " +:+ symbol +:+ " -> " +:+ dependency));
  d ← visit_depth items D fuel acc.1 dependency;
  Ok (d.1, acc.2 `max` d.2).

(** The loop over the inputs, given the outcome of each visit. *)
Lemma visit_inputs_post fuel (visiting : gset string) symbol l :
  (∀ st y, st.1 = visiting → memo_settled st.2 → y ∈ l → visit_post st y (visit_depth items D fuel st y)) →
  (∀ y, y ∈ l → reads_input symbol y) →
  ∀ acc, acc.1.1 = visiting → memo_settled acc.1.2 → 0 ≤ acc.2 →
  match fold_result (visit_input fuel symbol) acc l with
  | Ok r => r.1.1 = visiting ∧ memo_settled r.1.2 ∧ acc.2 ≤ r.2 ∧
            (∀ y, y ∈ l → defined y ∧ ∃ m, settled y m ∧ m ≤ r.2) ∧
            (r.2 = acc.2 ∨ ∃ y, y ∈ l ∧ settled y r.2)
  | Raise _ => (∀ v, v ∈ visiting → rtc reads_input v symbol) → faulty
  end.
Proof.
  induction l as [|y l IH]; intros Hpost Hdep acc Hv Hm H0; cbn [fold_result].
  { split_and!; [done..|lia|intros y ?%elem_of_nil; done|by left]. }
  unfold visit_input at 2. destruct (assoc_get y items) as [item|] eqn:Hy; cbn [is_some negb raise_if mbind result_bind].
  2: { intros _. left. exists symbol, y. split; [apply Hdep; by left|]. unfold defined. rewrite Hy. by intros []. }
  pose proof (Hpost acc.1 y Hv Hm (list_elem_of_here _ _)) as Hvisit.
  destruct (visit_depth items D fuel acc.1 y) as [[st' n]|e]; cbn [mbind result_bind fst snd].
  - destruct Hvisit as (Hv' & Hm' & Hn). cbn [fst snd] in *.
    specialize (IH (λ st z H1 H2 H3, Hpost st z H1 H2 (list_elem_of_further _ _ _ H3))
                  (λ z H, Hdep z (list_elem_of_further _ _ _ H)) (st', acc.2 `max` n)).
    cbn [fst snd] in IH. specialize (IH ltac:(congruence) Hm' ltac:(lia)).
    destruct (fold_result _ _ l) as [r|e]; [|done].
    destruct IH as (H1 & H2 & H3 & H4 & H5). split_and!; [done|done|lia| |].
    + intros z [->|Hz]%elem_of_cons; [|auto]. split; [by eexists|]. exists n. split; [done|lia].
    + destruct H5 as [H5|(z & Hz & Hh)]; [|right; exists z; split; [by right|done]].
      destruct (decide (n ≤ acc.2)); [left; lia|]. right. exists y. split; [by left|].
      by replace r.2 with n by lia.
  - intros Hall. apply Hvisit. intros v Hin. rewrite Hv in Hin. eapply tc_rtc_l; [by apply Hall|].
    apply tc_once, Hdep. by left.
Qed.

Definition item_keys : gset string := list_to_set items.*1.

Lemma settled_step symbol item r n :
  assoc_get symbol items = Some item → ri_synthetic item = Some r → 0 ≤ n → 1 + n ≤ D →
  (∀ y, y ∈ sr_inputs r → defined y ∧ ∃ m, settled y m ∧ m ≤ n) →
  (∃ y, y ∈ sr_inputs r ∧ settled y n) → settled symbol (1 + n).
Proof.
  intros Hi Hr Hn HnD Hall (y & Hy & Hyn).
  assert (∀ z, reads_input symbol z ↔ z ∈ sr_inputs r) as Hdep.
  { intros z. split; [intros (i & r' & ? & ? & ?); congruence|intros Hz; by exists item, r]. }
  split_and!; [lia|done| |].
  - replace (Z.to_nat (1 + n)) with (S (Z.to_nat n)) by lia.
    apply (height_step reads_input symbol _ (sr_inputs r)); [by intros z ?%Hdep|by intros z ?%Hdep| |].
    + intros z Hz. destruct (Hall z Hz) as [_ (m & (? & Hh & _) & Hm)]. exists (Z.to_nat m). split; [done|lia].
    + exists y. split; [done|]. apply Hyn.
  - intros u v Hu Hv. inversion Hu as [|? w ? Hw Hwu]; subst; [by apply (Hall v), Hdep|].
    apply Hdep in Hw as [_ (m & (_ & _ & Hg) & _)]%Hall. by eapply Hg.
Qed.

Lemma visit_depth_post fuel : ∀ st symbol,
  (size (item_keys ∖ st.1) < fuel)%nat → memo_settled st.2 →
  visit_post st symbol (visit_depth items D fuel st symbol).
Proof.
  induction fuel as [|fuel IH]; intros st symbol Hf Hm; [lia|]. cbn [visit_depth].
  case_decide as Hvis.
  { intros Hall. right. destruct (tc_walks reads_input symbol (S (Z.to_nat D)) (Hall symbol Hvis)) as [y Hy].
    by exists symbol, y. }
  destruct (st.2 !! symbol) as [n|] eqn:Hmemo; [split_and!; [done|done|by apply Hm]|].
  destruct (assoc_get symbol items) as [item|] eqn:Hi.
  2: { split_and!; [done|done|]. apply no_inputs_settled. intros y (i & r & Hi' & _). congruence. }
  destruct (ri_synthetic item) as [r|] eqn:Hr.
  2: { assert (settled symbol 0) as Hs.
       { apply no_inputs_settled. intros y (i & r & Hi' & Hr' & _). congruence. }
       split_and!; [done| |done]. intros x n. cbn. rewrite lookup_insert.
       case_decide; [intros [= <-]; by subst|apply Hm]. }
  assert (size (item_keys ∖ ({[symbol]} ∪ st.1)) < size (item_keys ∖ st.1))%nat as Hdec.
  { apply (size_step (λ _, [])); [|done]. unfold item_keys. rewrite elem_of_list_to_set.
    apply assoc_get_key. by eexists. }
  pose proof (visit_inputs_post fuel ({[symbol]} ∪ st.1) symbol (sr_inputs r)) as Hloop.
  specialize (Hloop ltac:(intros st0 y E Hm0 _; apply IH; [rewrite E; lia|done])
    ltac:(intros y Hy; by exists item, r) (({[symbol]} ∪ st.1, st.2), 0) eq_refl Hm ltac:(cbn; lia)).
  unfold visit_input in Hloop. destruct (fold_result _ _ (sr_inputs r)) as [acc|e]; cbn [mbind result_bind].
  2: { intros Hall. apply Hloop. intros v [->%elem_of_singleton|Hv]%elem_of_union; [done|].
       by apply tc_rtc, Hall. }
  destruct acc as [[visited memo] deepest]. destruct Hloop as (Hv & Hm' & H0 & Hle & Hmax). cbn [fst snd] in *.
  assert (∃ y, y ∈ sr_inputs r ∧ settled y deepest) as Hdeepest.
  { destruct Hmax as [->|?]; [|done]. destruct (sr_inputs r) as [|y l] eqn:Hl; [by eapply Hinputs in Hl|].
    exists y. split; [by left|]. destruct (Hle y ltac:(by left)) as [_ (m & Hs & Hm0)].
    replace 0 with m; [done|]. destruct Hs as [? _]. lia. }
  case_bool_decide as Hlim; cbn [raise_if mbind result_bind].
  - intros _. right. destruct Hdeepest as (y & Hy & _ & [[z Hz] _] & _).
    destruct (nsteps_prefix reads_input (S (Z.to_nat D)) (S (Z.to_nat deepest)) symbol z ltac:(lia)) as [u Hu].
    { econstructor; [by exists item, r|done]. }
    by exists symbol, u.
  - assert (settled symbol (1 + deepest)) as Hs by (eapply settled_step; [done|done|lia|lia|done|done]).
    cbn [visit_post fst snd]. split_and!; [rewrite Hv; set_solver| |done].
    intros x n. rewrite lookup_insert. case_decide; [intros [= <-]; by subst|apply Hm'].
Qed.

(** The compiler decides whether the definitions are faulty. *)
Lemma validate_dependencies_spec :
  match validate_synthetic_dependencies items D with Ok _ => ¬ faulty | Raise _ => faulty end.
Proof.
  unfold validate_synthetic_dependencies. rewrite bool_decide_eq_false_2 by lia. cbn [raise_if mbind result_bind].
  assert (size item_keys < visit_fuel items)%nat as Hfuel.
  { unfold item_keys, visit_fuel. pose proof (size_list_le items.*1) as Hle. rewrite length_fmap in Hle. lia. }
  assert (∀ (l : route_items) st, st.1 = ∅ → memo_settled st.2 →
    match fold_result (λ st (entry : string * InstrumentRouteInput),
            d ← visit_depth items D (visit_fuel items) st entry.1; Ok d.1) st l with
    | Ok _ => ∀ x, x ∈ l.*1 → ∃ n, settled x n
    | Raise _ => faulty
    end) as Hall.
  { induction l as [|[x r] l IHl]; intros st Hst Hm; cbn [fold_result]; [by intros x ?%elem_of_nil|].
    pose proof (visit_depth_post (visit_fuel items) st x) as Hd. cbn [fst].
    rewrite Hst, difference_empty_L in Hd. specialize (Hd Hfuel Hm).
    destruct (visit_depth _ _ _ st x) as [[st' n]|e]; cbn [mbind result_bind]; [|apply Hd; set_solver].
    destruct Hd as (Hv & Hm' & Hs). specialize (IHl st' ltac:(congruence) Hm').
    cbn [fst]. destruct (fold_result _ st' l); [|done].
    intros y [->|Hy]%elem_of_cons; [by exists n|auto]. }
  assert (memo_settled ∅) as Hempty by (intros x n Hx; by rewrite lookup_empty in Hx).
  specialize (Hall items (∅, ∅) eq_refl Hempty). destruct (fold_result _ _ items); [|done]. cbn [mbind result_bind].
  assert (∀ x y, reads_input x y → ∃ n, settled x n) as Hx.
  { intros x y (item & r & Hi & _). apply Hall, assoc_get_key. by eexists. }
  intros [(x & y & Hxy & Hy)|(x & y & Hxy)].
  - apply Hy. destruct (Hx x y Hxy) as (n & _ & _ & Hg). by eapply Hg; [constructor|].
  - assert (∃ z, reads_input x z) as [z Hz] by (inversion Hxy; subst; by eexists).
    destruct (Hx x z Hz) as (n & Hn & [_ Hh] & _). specialize (Hh _ _ Hxy). lia.
Qed.

End dependencies.

(** ** Plans *)

Definition item_entry (item : InstrumentRouteInput) : string * InstrumentRouteInput := (ri_symbol item, item).

Lemma add_items_ok definitions : ∀ acc items,
  fold_result add_item acc definitions = Ok items →
  items = acc ++ (item_entry <$> definitions) ∧
  NoDup (ri_symbol <$> definitions) ∧ (∀ item, item ∈ definitions → ri_symbol item ∉ acc.*1).
Proof.
  induction definitions as [|d l IH]; intros acc items; cbn [fold_result].
  { intros [= <-]. rewrite app_nil_r. split_and!; [done|constructor|]. by intros i ?%elem_of_nil. }
  unfold add_item at 1. intros (acc' & [Hd [= <-]]%raise_bind & H)%result_bind_ok.
  apply IH in H as (-> & Hnd & Hfresh). rewrite <- app_assoc. cbn [app fmap list_fmap].
  rewrite fmap_app in Hfresh. cbn in Hfresh. split_and!; [done| |].
  - constructor; [|done]. intros (i & Hi & Hin)%list_elem_of_fmap.
    apply (Hfresh i Hin). rewrite <- Hi. apply elem_of_app. right. by left.
  - intros i [->|Hin]%elem_of_cons.
    + rewrite <- assoc_get_key. destruct (assoc_get _ _); [done|by intros []].
    + specialize (Hfresh i Hin). by intros ?; apply Hfresh, elem_of_app; left.
Qed.

Lemma assoc_get_NoDup {V} (l : list (string * V)) k v : NoDup l.*1 → (k, v) ∈ l → assoc_get k l = Some v.
Proof.
  induction l as [|[k' v'] l IH]; cbn; [by intros _ ?%elem_of_nil|].
  intros [Hk Hnd]%NoDup_cons [[= -> ->]|Hin]%elem_of_cons; [by rewrite decide_True|].
  case_decide as Heq; [|auto]. subst. destruct Hk. apply list_elem_of_fmap. by exists (k, v).
Qed.

(** The plan of a compilation that succeeds. *)
Lemma compile_route_plan_ok definitions settings available_providers chain_length depth limits drop strict plan :
  compile_route_plan definitions settings available_providers chain_length depth limits drop strict = Ok plan →
  let items := item_entry <$> definitions in
  let available := available_of settings available_providers in
  0 < chain_length ∧ NoDup (ri_symbol <$> definitions) ∧
  validate_synthetic_dependencies items depth = Ok tt ∧
  Forall2 (λ item (entry : string * CompiledInstrumentRoutes),
             ∃ routes, compile_item available chain_length drop strict item = Ok routes ∧
                       entry = compiled_item item routes) definitions (rp_instruments plan) ∧
  validate_staking_ratio_dependencies items (rp_instruments plan) = Ok tt ∧
  ∃ demands, collect_demands items (rp_instruments plan) available = Ok demands ∧
    estimate_lines items (rp_instruments plan) demands = Ok (rp_credit_estimates plan) ∧
    rp_worst_case_daily_credits plan = total_credits (rp_credit_estimates plan) ∧
    rp_committed_daily_credits plan = total_credits (committed_lines (rp_credit_estimates plan)) ∧
    rp_committed_daily_credits_by_scope plan = scoped_total_credits (committed_lines (rp_credit_estimates plan)) ∧
    rp_hard_capped_daily_credits plan = hard_capped (daily_credit_caps settings) (rp_worst_case_daily_credits plan) ∧
    rp_routes plan = flattened_routes (rp_instruments plan) ∧
    rp_credit_budget_context plan = credit_budget_context settings.
Proof.
  unfold compile_route_plan. intros [Hlen H]%raise_bind.
  apply result_bind_ok in H as (items & (-> & Hnd & _)%add_items_ok & H). cbn [app] in H.
  apply result_bind_ok in H as ([] & Hdep & H).
  apply result_bind_ok in H as (compiled & Hc & H). apply result_bind_ok in H as ([] & Hratio & H).
  apply result_bind_ok in H as (demands & Hdem & H). apply result_bind_ok in H as (lines & Hlines & H).
  apply result_bind_ok in H as (u & _ & [= <-]). cbn.
  apply bool_decide_eq_false in Hlen. split_and!; [lia|done|done| |done|by eauto 12].
  apply map_result_ok, Forall2_fmap_l in Hc. eapply Forall2_impl; [exact Hc|].
  intros item entry (routes & Hr & [= <-])%result_bind_ok. by exists routes.
Qed.

(** Where the plan has the routes of a definition. *)
Lemma plan_item definitions settings available_providers chain_length depth limits drop strict plan item :
  compile_route_plan definitions settings available_providers chain_length depth limits drop strict = Ok plan →
  item ∈ definitions →
  ∃ routes, compile_item (available_of settings available_providers) chain_length drop strict item = Ok routes ∧
    assoc_get (ri_symbol item) (rp_instruments plan) = Some (compiled_item item routes).2.
Proof.
  intros (_ & Hnd & _ & Hall & _)%compile_route_plan_ok Hin.
  assert ((rp_instruments plan).*1 = ri_symbol <$> definitions) as Hkeys.
  { clear Hnd Hin. induction Hall as [|d e l l' (r & _ & ->) _ IH]; [done|]. cbn. by rewrite IH. }
  apply list_elem_of_lookup in Hin as [k Hk].
  destruct (Forall2_lookup_l _ _ _ _ _ Hall Hk) as (entry & He & routes & Hr & ->).
  exists routes. split; [done|]. apply assoc_get_NoDup; [by rewrite Hkeys|]. by eapply list_elem_of_lookup_2.
Qed.

(** C12: every chain of a plan holds distinct, compatible, configured providers
    whose vendor symbols are bound, in the order of its candidates, and a
    strict compilation leaves no capability of a custom instrument without one. *)
Theorem compiled_plan_safe definitions settings available_providers chain_length depth limits drop strict plan item
    (Hplan : compile_route_plan definitions settings available_providers chain_length depth limits drop strict
             = Ok plan)
    (Hin : item ∈ definitions) :
  let available := available_of settings available_providers in
  ∃ compiled, assoc_get (ri_symbol item) (rp_instruments plan) = Some compiled ∧
    (∀ capability chain, chain_for capability (ci_routes compiled) = Some chain →
       capability ∈ required_capabilities item ∧ chain ≠ [] ∧
       ∃ candidates, candidates_of available item capability = Ok candidates ∧
         chain_allowed item capability available chain_length candidates chain) ∧
    (strict = true → ri_ownership item ≠ "builtin" → ∀ capability,
       capability ∈ required_capabilities item → instrument_providers_for compiled capability ≠ []).
Proof.
  cbv zeta. destruct (plan_item _ _ _ _ _ _ _ _ _ _ Hplan Hin) as (routes & Hr & Hlookup).
  eexists. split; [exact Hlookup|]. apply compile_item_ok in Hr as [Hall Htotal]. cbn [snd compiled_item ci_routes].
  rewrite Forall_forall in Hall.
  assert (∀ capability chain, chain_for capability routes = Some chain →
            capability ∈ required_capabilities item ∧
            compile_capability (available_of settings available_providers) chain_length drop strict item capability
              = Ok (Some chain)) as Hroute by (intros c chain Hc%chain_for_in; by apply Hall in Hc).
  split.
  - intros capability chain [Hreq Hc]%Hroute. split; [done|]. by eapply compile_capability_ok.
  - intros -> Hown capability Hreq. destruct (Htotal capability Hreq) as (o & Ho & Hchain).
    destruct (compile_capability_total _ _ _ _ _ _ Hown Ho) as [chain ->].
    unfold instrument_providers_for. cbn [ci_routes]. rewrite Hchain. cbn.
    by apply compile_capability_ok in Ho as [? _].
Qed.

(** A definition set with synthetic inputs is accepted as far as its inputs go
    exactly when they are all defined and no chain of them is longer than the
    limit, in particular when there is no cycle. *)
Theorem synthetic_dependencies_decided (items : route_items) (depth : Z)
    (Hinputs : ∀ x item r, assoc_get x items = Some item → ri_synthetic item = Some r → sr_inputs r ≠ []) :
  validate_synthetic_dependencies items depth = Ok tt ↔
  0 < depth ∧ (∀ x y, reads_input items x y → defined items y) ∧
  ¬ ∃ x y, nsteps (reads_input items) (S (Z.to_nat depth)) x y.
Proof.
  destruct (decide (0 < depth)) as [Hd|Hd].
  2: { split; [|by intros [? _]]. unfold validate_synthetic_dependencies.
       by rewrite bool_decide_eq_true_2 by lia. }
  pose proof (validate_dependencies_spec items depth Hd Hinputs) as Hspec.
  destruct (validate_synthetic_dependencies items depth) as [[]|e].
  - split; [intros _|done]. split_and!; [done| |intros Hlong; apply Hspec; by right].
    intros x y Hxy. destruct (decide (is_Some (assoc_get y items))) as [|Hn]; [done|].
    destruct Hspec. left. by exists x, y.
  - split; [done|]. intros (_ & Hdef & Hlong). destruct Hspec as [(x & y & Hxy & Hy)|?]; [|done].
    destruct Hy. by eapply Hdef.
Qed.

(** ** Credits *)

Definition exact_bound : Z := 10 ^ prec.

Lemma dec_fix_exact n : 0 ≤ n < exact_bound → dec_fix (Dec n 0) = dint n.
Proof.
  intros [H0 Hn]. destruct (decide (n = 0)) as [->|]; [done|]. unfold dec_fix. cbn [coef dexp].
  rewrite Z.abs_eq by lia. rewrite decide_True; [done|]. apply ndigits_le; [lia|done|done].
Qed.

Lemma dadd_dint a b : 0 ≤ a → 0 ≤ b → a + b < exact_bound → dadd (dint a) (dint b) = dint (a + b).
Proof.
  intros. unfold dadd, dmin_exp, dscale, dint. cbn [coef dexp]. change (Z.min 0 0) with 0.
  rewrite Z.sub_diag, Z.pow_0_r, !Z.mul_1_r. apply dec_fix_exact. lia.
Qed.

Lemma dlt_dint a b : dlt (dint a) (dint b) ↔ a < b.
Proof. unfold dlt, dmin_exp, dscale, dint. cbn [coef dexp]. change (10 ^ (0 - Z.min 0 0)) with 1. lia. Qed.

Lemma dle_dint a b : dle (dint a) (dint b) ↔ a ≤ b.
Proof. unfold dle, dmin_exp, dscale, dint. cbn [coef dexp]. change (10 ^ (0 - Z.min 0 0)) with 1. lia. Qed.

Lemma dmin_dint a b : dmin (dint a) (dint b) = dint (Z.min a b).
Proof. unfold dmin. case_decide as H; rewrite dlt_dint in H; f_equal; lia. Qed.

Lemma dmax_dint a b : dmax (dint a) (dint b) = dint (Z.max a b).
Proof. unfold dmax. case_decide as H; rewrite dlt_dint in H; f_equal; lia. Qed.

(** The credits of a line are its requests. *)
Definition line_exact (l : CreditEstimateLine) : Prop :=
  0 ≤ ce_requests_per_day l ∧ ce_estimated_credits_per_day l = dec_fix (dint (ce_requests_per_day l)).

Definition requests_of (lines : list CreditEstimateLine) : Z :=
  foldr (λ l acc, ce_requests_per_day l + acc) 0 lines.

Lemma requests_of_cons l lines : requests_of (l :: lines) = ce_requests_per_day l + requests_of lines.
Proof. done. Qed.

Lemma requests_of_nonneg lines : Forall line_exact lines → 0 ≤ requests_of lines.
Proof. induction 1 as [|l lines [? _] _ IH]; [done|]. rewrite requests_of_cons. lia. Qed.

Lemma requests_of_filter (f : CreditEstimateLine → bool) lines :
  Forall line_exact lines → 0 ≤ requests_of (List.filter f lines) ≤ requests_of lines.
Proof.
  induction 1 as [|l lines [? _] _ IH]; cbn [List.filter]; [done|].
  destruct (f l); rewrite !requests_of_cons; lia.
Qed.

Lemma filter_exact (f : CreditEstimateLine → bool) lines :
  Forall line_exact lines → Forall line_exact (List.filter f lines).
Proof. rewrite !Forall_forall. intros H l [Hl _]%elem_of_filter_bool. auto. Qed.

Section sums.
Context {K : Type} `{Countable K} (key : CreditEstimateLine → K).

Definition accumulate (m : gmap K decimal) (lines : list CreditEstimateLine) : gmap K decimal :=
  foldl (λ m l, <[key l := dadd (default dzero (m !! key l)) (ce_estimated_credits_per_day l)]> m) m lines.

Definition charged (k : K) (lines : list CreditEstimateLine) : Z :=
  requests_of (List.filter (λ l, bool_decide (key l = k)) lines).

Lemma charged_cons k l lines :
  charged k (l :: lines) = (if decide (key l = k) then ce_requests_per_day l else 0) + charged k lines.
Proof.
  unfold charged. cbn [List.filter]. destruct (decide (key l = k)) as [Hk|Hk].
  - rewrite bool_decide_eq_true_2 by done. by rewrite requests_of_cons.
  - by rewrite bool_decide_eq_false_2 by done.
Qed.

Lemma charged_bound k lines : Forall line_exact lines → 0 ≤ charged k lines ≤ requests_of lines.
Proof. apply requests_of_filter. Qed.

Lemma accumulate_exact lines : Forall line_exact lines → ∀ m base,
  (∀ k, 0 ≤ base k ∧ default dzero (m !! k) = dint (base k)) →
  (∀ k, base k + requests_of lines < exact_bound) →
  ∀ k, default dzero (accumulate m lines !! k) = dint (base k + charged k lines).
Proof.
  induction 1 as [|l lines [Hl Hc] Hlines IH]; intros m base Hm Hb k; cbn [accumulate foldl].
  { rewrite (proj2 (Hm k)). f_equal. cbn. lia. }
  pose proof (requests_of_nonneg _ Hlines) as Hpos. rewrite requests_of_cons in Hb.
  fold (accumulate (<[key l := dadd (default dzero (m !! key l)) (ce_estimated_credits_per_day l)]> m) lines).
  rewrite (IH _ (λ k, base k + if decide (key l = k) then ce_requests_per_day l else 0)).
  - rewrite charged_cons. f_equal. lia.
  - intros k'. destruct (Hm k') as [H0 Hk']. pose proof (Hb k') as Hbk. split; [case_decide; lia|].
    rewrite lookup_insert. case_decide as Heq; [|by rewrite Z.add_0_r].
    cbn. rewrite Heq, Hk', Hc. change (dec_fix (dint (ce_requests_per_day l)))
      with (dec_fix (Dec (ce_requests_per_day l) 0)). rewrite dec_fix_exact by lia.
    by apply dadd_dint; lia.
  - intros k'. specialize (Hb k'). case_decide; lia.
Qed.

Lemma accumulate_empty lines k :
  Forall line_exact lines → requests_of lines < exact_bound →
  default dzero (accumulate ∅ lines !! k) = dint (charged k lines).
Proof.
  intros Hl Hb. rewrite (accumulate_exact lines Hl ∅ (λ _, 0)); [f_equal; lia| |intros; lia].
  intros k'. by rewrite lookup_empty.
Qed.

Lemma accumulate_dom lines : ∀ m k, is_Some (accumulate m lines !! k) ↔ is_Some (m !! k) ∨ k ∈ key <$> lines.
Proof.
  induction lines as [|l lines IH]; intros m k; cbn.
  { rewrite elem_of_nil. tauto. }
  rewrite IH, lookup_insert, elem_of_cons. case_decide as Heq; [subst; naive_solver|naive_solver].
Qed.

(** The charges of distinct keys that cover the lines add up to all requests. *)
Lemma charged_total lines ks :
  NoDup ks → (∀ l, l ∈ lines → key l ∈ ks) →
  foldr (λ k acc, charged k lines + acc) 0 ks = requests_of lines.
Proof.
  intros Hnd. induction lines as [|l lines IH]; intros Hks.
  { clear. induction ks as [|k ks IH]; cbn; [done|]. cbn in IH. lia. }
  rewrite requests_of_cons. rewrite <- IH by (intros; apply Hks; by right).
  assert (key l ∈ ks) as Hk by (apply Hks; by left). clear IH Hks.
  assert (∀ ks, foldr (λ k acc, charged k (l :: lines) + acc) 0 ks
                = foldr (λ k acc, (if decide (key l = k) then ce_requests_per_day l else 0) + acc) 0 ks
                  + foldr (λ k acc, charged k lines + acc) 0 ks) as ->.
  { induction ks0 as [|k ks0 IH]; cbn [foldr]; [done|]. rewrite IH, charged_cons. lia. }
  f_equal. assert (∀ ks', key l ∉ ks' →
    foldr (λ k acc, (if decide (key l = k) then ce_requests_per_day l else 0) + acc) 0 ks' = 0) as Hzero.
  { induction ks' as [|k ks' IH]; cbn; [done|]. intros [? ?]%not_elem_of_cons. rewrite decide_False, IH by done. lia. }
  induction Hnd as [|k ks Hn Hnd IH]; [by apply elem_of_nil in Hk|]. cbn [foldr].
  apply elem_of_cons in Hk as [<-|Hk]; [rewrite decide_True, Hzero by done; lia|].
  rewrite decide_False, IH by (done || by intros <-). lia.
Qed.
End sums.

Lemma total_credits_accumulate lines : total_credits lines = accumulate ce_provider ∅ lines.
Proof. done. Qed.

(** *** The lines of a plan *)

Definition unit_cost (d : ProviderDescriptor) (c : Capability) : bool :=
  bool_decide (credit_cost d c = dint 0) || bool_decide (credit_cost d c = dint 1).

Lemma catalog_facts :
  forallb (λ e : string * ProviderDescriptor,
    bool_decide (assoc_get (canonical_provider_name e.1) PROVIDER_CATALOG = Some e.2) &&
    bool_decide (pd_name e.2 = e.1) && forallb (unit_cost e.2) all_capabilities) PROVIDER_CATALOG = true.
Proof. by vm_compute. Qed.

Lemma catalog_entry name d :
  assoc_get name PROVIDER_CATALOG = Some d →
  assoc_get (canonical_provider_name name) PROVIDER_CATALOG = Some d ∧ pd_name d = name ∧
  ∀ c, credit_cost d c = dint 0 ∨ credit_cost d c = dint 1.
Proof.
  intros Hd%assoc_get_in%list_elem_of_In.
  pose proof (proj1 (forallb_forall _ _) catalog_facts _ Hd) as He. cbn [fst snd] in He.
  apply andb_prop in He as [[Ha%bool_decide_eq_true Hn%bool_decide_eq_true]%andb_prop Hc].
  split_and!; [done|done|]. intros c. pose proof (proj1 (forallb_forall _ _) Hc c ltac:(by destruct c; cbn; auto)) as Hu.
  unfold unit_cost in Hu. rewrite orb_true_iff, !bool_decide_eq_true in Hu. done.
Qed.

Lemma descriptor_name_ok name d :
  get_provider_descriptor name = Ok d →
  get_provider_descriptor (pd_name d) = Ok d ∧ ∀ c, credit_cost d c = dint 0 ∨ credit_cost d c = dint 1.
Proof.
  unfold get_provider_descriptor. destruct (assoc_get (canonical_provider_name name) _) as [d'|] eqn:Hd; [|done].
  intros [= ->]. apply catalog_entry in Hd as (Hc & Hn & Hcost). by rewrite Hn, Hc.
Qed.

(** A demand is kept for what costs credits only. *)
Definition priced (key : demand_key) : Prop :=
  ∃ d, get_provider_descriptor key.1.1.1 = Ok d ∧ credit_cost d key.1.1.2 = dint 1.

Definition all_priced (demands : credit_demands) : Prop := ∀ key d, demands !! key = Some d → priced key.

Lemma add_demand_priced demands r demands' :
  all_priced demands → add_demand demands r = Ok demands' → all_priced demands'.
Proof.
  intros Hall. unfold add_demand. intros (d & Hd & H)%result_bind_ok.
  case_decide as Hz; [by injection H as <-|]. injection H as <-. intros key demand. rewrite lookup_insert.
  case_decide as Hk; [|by apply Hall]. intros _. subst key.
  destruct (descriptor_name_ok _ _ Hd) as [Hn Hcost]. exists d. split; [done|].
  destruct (Hcost (dr_capability r)) as [H0|]; [|done]. destruct Hz. by rewrite H0.
Qed.

Lemma add_demands_priced requests demands demands' :
  all_priced demands → fold_result add_demand demands requests = Ok demands' → all_priced demands'.
Proof. intros Hall. apply fold_result_ind; [|done]. intros m r m' _ ?. by apply add_demand_priced. Qed.

Lemma collect_demands_priced items compiled available demands :
  collect_demands items compiled available = Ok demands → all_priced demands.
Proof.
  unfold collect_demands. intros (direct & Hdirect & H)%result_bind_ok.
  assert (all_priced direct) as Hd.
  { revert Hdirect. apply fold_result_ind; [|by intros k d; rewrite lookup_empty].
    intros m e m' _ Hm (item & _ & He)%result_bind_ok. by eapply add_demands_priced. }
  revert H. apply fold_result_ind; [|done]. intros m e m' _ Hm (item & _ & He)%result_bind_ok.
  apply result_bind_ok in He as (s & _ & He). apply result_bind_ok in He as (m1 & H1%add_demands_priced & He); [|done].
  apply result_bind_ok in He as (f & _ & He). apply result_bind_ok in He as (m2 & H2%add_demands_priced & He); [|done].
  apply result_bind_ok in He as (q & _ & He). by eapply add_demands_priced.
Qed.

Lemma ceil_div_spec a b : 0 < b → a ≤ ceil_div a b * b < a + b.
Proof.
  intros Hb. unfold ceil_div. pose proof (Z.mod_pos_bound (- a) b Hb). pose proof (Z.div_mod (- a) b ltac:(lia)). nia.
Qed.

Lemma ceil_div_nonneg a b : 0 ≤ a → 0 < b → 0 ≤ ceil_div a b.
Proof. intros. pose proof (ceil_div_spec a b ltac:(done)). nia. Qed.

Lemma profile_nonneg provider d : 0 ≤ requests_per_day (credit_request_profile provider d).
Proof.
  unfold credit_request_profile, requests_per_day. destruct (dd_request_model d); cbn [single_profile
    pf_cycles_per_day pf_steady_state_requests_per_cycle pf_cold_start_requests]; [lia|].
  unfold collector_history_profile. case_decide; cbn [single_profile pf_cycles_per_day
    pf_steady_state_requests_per_cycle pf_cold_start_requests foldl fst snd]; [lia|].
  assert (∀ n, 0 ≤ ceil_div (Z.max 1 n) page_bar_limit) as Hp by (intros; apply ceil_div_nonneg; [lia|done]).
  pose proof (Hp (ceil_div (Z.min 2 (dd_history_backfill_days d) * 86400) 60)).
  pose proof (Hp (ceil_div (Z.min 45 (dd_history_backfill_days d) * 86400) 300)).
  pose proof (Hp (ceil_div (dd_poll_seconds d) (seconds 60) + 2)).
  pose proof (Hp (ceil_div (dd_poll_seconds d) (seconds 300) + 2)). nia.
Qed.

Lemma dmul_unit n : dmul (dint n) (dint 1) = dec_fix (dint n).
Proof. unfold dmul, dint. cbn [coef dexp]. by rewrite Z.mul_1_r. Qed.

Lemma elem_of_sort_rows {A} (order : A → A → comparison) l x : x ∈ sort_rows order l ↔ x ∈ l.
Proof. by rewrite sort_rows_perm. Qed.

Lemma estimate_lines_exact items compiled demands lines :
  all_priced demands → estimate_lines items compiled demands = Ok lines → Forall line_exact lines.
Proof.
  intros Hall. unfold estimate_lines.
  intros (shared & Hshared & (own & Hown%map_result_ok & [= <-])%result_bind_ok)%result_bind_ok.
  rewrite Forall_forall. intros l [Hl|Hl]%elem_of_sort_rows%elem_of_app.
  - unfold coingecko_quote_line in Hshared. destruct (_.*2) as [|d rest]; [by injection Hshared as <-; apply elem_of_nil in Hl|].
    apply result_bind_ok in Hshared as (ids & _ & H). apply result_bind_ok in H as (batches & _ & H).
    apply result_bind_ok in H as (desc & Hdesc & [= <-]). apply list_elem_of_singleton in Hl as ->. split; cbn [
      ce_requests_per_day ce_estimated_credits_per_day].
    + apply Z.mul_nonneg_nonneg; [|lia]. apply ceil_div_nonneg; [done|].
      assert (0 < COINGECKO_SHARED_QUOTE_CACHE_SECONDS) by done. lia.
    + assert (get_provider_descriptor "coingecko" = Ok desc) as Hd by done. vm_compute in Hd. injection Hd as <-.
      apply dmul_unit.
  - apply list_elem_of_lookup in Hl as [k Hk]. destruct (Forall2_lookup_r _ _ _ _ _ Hown Hk) as (e & He & Hline).
    apply list_elem_of_lookup_2, elem_of_filter_bool in He as [He%elem_of_sort_rows _].
    destruct e as [[[[provider capability] symbol] group] d]. apply elem_of_map_to_list in He.
    destruct (Hall _ _ He) as (desc & Hdesc & Hcost). cbn [fst snd] in Hdesc, Hcost.
    unfold demand_line in Hline. rewrite Hdesc in Hline. cbn [mbind result_bind] in Hline. injection Hline as <-.
    split; cbn [ce_requests_per_day ce_estimated_credits_per_day]; [apply profile_nonneg|].
    rewrite Hcost. apply dmul_unit.
Qed.

Lemma plan_lines_exact definitions settings available_providers chain_length depth limits drop strict plan :
  compile_route_plan definitions settings available_providers chain_length depth limits drop strict = Ok plan →
  Forall line_exact (rp_credit_estimates plan).
Proof.
  intros (_ & _ & _ & _ & _ & demands & Hd & Hl & _)%compile_route_plan_ok.
  eapply estimate_lines_exact; [by eapply collect_demands_priced|done].
Qed.

(** The credits of a plan: per provider the committed ones are those of the
    first providers of its chains, they never exceed the worst case, and the
    hard cap bounds the worst case by the configured limit. *)
Theorem plan_credits_accounted definitions settings available_providers chain_length depth limits drop strict plan
    (provider : string)
    (Hplan : compile_route_plan definitions settings available_providers chain_length depth limits drop strict
             = Ok plan)
    (Hbound : requests_of (rp_credit_estimates plan) < exact_bound) :
  let lines := rp_credit_estimates plan in
  default dzero (rp_committed_daily_credits plan !! provider)
    = dint (charged ce_provider provider (committed_lines lines)) ∧
  default dzero (rp_worst_case_daily_credits plan !! provider) = dint (charged ce_provider provider lines) ∧
  charged ce_provider provider (committed_lines lines) ≤ charged ce_provider provider lines ∧
  (∀ cap value, daily_credit_caps settings !! provider = Some cap →
     rp_hard_capped_daily_credits plan !! provider = Some value →
     dle value cap ∧ dle value (dint (charged ce_provider provider lines))).
Proof.
  pose proof (plan_lines_exact _ _ _ _ _ _ _ _ _ Hplan) as Hexact.
  apply compile_route_plan_ok in Hplan as (_ & _ & _ & _ & _ & demands & _ & _ & Hworst & Hcommitted & _ & Hhard & _).
  cbv zeta. set (lines := rp_credit_estimates plan) in *.
  pose proof (requests_of_filter ce_committed lines Hexact) as Hle.
  assert (default dzero (rp_worst_case_daily_credits plan !! provider) = dint (charged ce_provider provider lines)) as Hw.
  { rewrite Hworst, total_credits_accumulate. by apply accumulate_empty. }
  split_and!; [|done| |].
  - rewrite Hcommitted, total_credits_accumulate. apply accumulate_empty; [by apply filter_exact|].
    unfold committed_lines. lia.
  - clear Hw. clear -Hexact. induction Hexact as [|l lines [Hl _] _ IH]; [done|].
    unfold committed_lines in *. cbn [List.filter]. destruct (ce_committed l); rewrite !charged_cons; case_decide; lia.
  - intros cap value Hcap Hvalue. rewrite Hhard in Hvalue. unfold hard_capped in Hvalue.
    rewrite map_lookup_imap in Hvalue. destruct (rp_worst_case_daily_credits plan !! provider) as [w|] eqn:Hl; [|done].
    cbn in Hvalue, Hw. rewrite Hcap in Hvalue. injection Hvalue as <-. rewrite <- Hw.
    destruct (dmin_le w cap). done.
Qed.

(** ** Examples *)

(** An instrument of the administrator, quoted by CoinGecko. *)
Definition demo_route_input : InstrumentRouteInput :=
  {| ri_symbol := "ETH:USDC"; ri_asset_class := CRYPTO; ri_asset_type := "crypto_asset"; ri_quote_poll_seconds := seconds 2;
     ri_ownership := "custom"; ri_history_enabled := false; ri_history_poll_seconds := seconds 60;
     ri_history_backfill_days := 1; ri_metadata_poll_seconds := hours 6; ri_dividend_strategy := None;
     ri_yield_strategy := None; ri_underlying_asset := None; ri_reward_accrual_mode := None;
     ri_provider_symbols := [("coingecko", "ethereum")]; ri_routes := [(QUOTE, ["coingecko"])]; ri_synthetic := None |}.

Definition demo_route_plan : result CompiledRoutePlan :=
  compile_route_plan [demo_route_input] None (Some ["coingecko"]) 4 4 None true true.

Lemma compiled_plan_safe_witness : ∃ plan compiled, demo_route_plan = Ok plan ∧
  assoc_get "ETH:USDC" (rp_instruments plan) = Some compiled ∧ instrument_providers_for compiled QUOTE ≠ [].
Proof.
  assert (is_ok demo_route_plan) as [plan Hplan] by (eexists; vm_compute; reflexivity).
  destruct (compiled_plan_safe [demo_route_input] None (Some ["coingecko"]) 4 4 None true true plan demo_route_input
              Hplan ltac:(by left)) as (compiled & Hlookup & _ & Htotal).
  exists plan, compiled. split_and!; [done|exact Hlookup|]. apply Htotal; [done|by vm_compute|].
  vm_compute. by left.
Defined.
