(* ===== verification/CatalogRuntime.v ===== *)
(** * The catalogue runtime ([catalog_runtime.py])

    What an activation decides before it touches the service: which instruments
    changed, whether the credits of the new plan may be admitted, which
    collectors and providers can be kept, how long the shadow warm-up may take,
    whether what it fetched is fit to be served, and the error a job reports.
    Timeouts are rational numbers of seconds; the credits a float holds are the
    integers they come from. *)

From S2P Require Import Prelude PyStr PyDecimal PyTime PyIso Domain PluginApi Registry Wire Json Analytics Market.
From S2P Require Import Policy Router Service Catalog CatalogDocument CatalogEdits Descriptors Compiler.
From stdpp Require Import pretty.
From Stdlib Require Import Ascii QArith Qround.

Local Open Scope string_scope.
Local Open Scope list_scope.
Local Open Scope Z_scope.

Definition MAX_RETAINED_JOBS : nat := 100.
Definition WARM_CONCURRENCY : Z := 4.
Definition MAX_WARM_CONCURRENCY : Z := 32.
Definition WARM_TIMEOUT_MARGIN_SECONDS : Q := 15.

(** [model_dump_json] of pydantic, of the document of a model. *)
Class CatalogRuntimePrimitives := { rt_model_json : json → string }.

(** ** Failures *)

Record CreditBudgetViolation := {
  cv_provider : string;
  cv_proposed : decimal;
  cv_limit : decimal;
  cv_effective_limit : decimal;
  cv_grandfathered_unchanged : decimal;
  cv_scope : option string;
}.

Record ProviderBindingFailure := {
  bf_provider : string;
  bf_symbol : string;
  bf_code : string;
  bf_status : option Z;
}.

(** What a job can fail with: an ordinary exception, one of the catalogue's own,
    a group of failed tasks, or the cancellation of the job. *)
Inductive failure :=
| Plain (e : exn)
| CatalogRouteError (code symbol : string) (capability : Capability)
| CatalogBudgetError (violations : list CreditBudgetViolation)
| BindingVerificationError (failures : list ProviderBindingFailure)
| CatalogWarmError (symbol : string) (capability : Capability) (cause_type : string)
| ExceptionGroup (exceptions : list failure)
| TimedOut
| Cancelled.

(** The identity of a credit line: provider, capability, symbol, bases and quota scopes. *)
Abbreviation credit_identity := (string * Capability * string * list string * list string)%type.

(** The value of a task, or what it failed with. *)
Abbreviation attempt A := (A + failure)%type.

(** ** What changed *)

Section runtime.
Context `{CatalogRuntimePrimitives}.

Definition definition_fingerprint (d : ManagedInstrumentDefinition) : string := rt_model_json (definition_json d).

Definition changed_from (current : CatalogGeneration) (item : ManagedInstrumentDefinition) : bool :=
  match by_id current (md_id item) with
  | None => true
  | Some previous => negb (bool_decide (definition_fingerprint previous = definition_fingerprint item))
  end.

Definition changed_symbols (current target : CatalogGeneration) : list string :=
  md_symbol <$> List.filter (λ item, active item && changed_from current item) (cg_instruments target).

Record catalog_difference := {
  df_added : list string;
  df_changed : list string;
  df_archived_or_disabled : list string;
}.

Definition difference_step (current target : CatalogGeneration) (d : catalog_difference) (id : string)
    : catalog_difference :=
  let live := λ o : option ManagedInstrumentDefinition,
    match o with Some i => if active i then Some i else None | None => None end in
  match live (by_id current id), live (by_id target id) with
  | None, Some after => {| df_added := df_added d ++ [md_symbol after]; df_changed := df_changed d;
                           df_archived_or_disabled := df_archived_or_disabled d |}
  | Some before, None => {| df_added := df_added d; df_changed := df_changed d;
                            df_archived_or_disabled := df_archived_or_disabled d ++ [md_symbol before] |}
  | Some before, Some after =>
    if decide (definition_fingerprint before = definition_fingerprint after) then d
    else {| df_added := df_added d; df_changed := df_changed d ++ [md_symbol after];
            df_archived_or_disabled := df_archived_or_disabled d |}
  | None, None => d
  end.

Definition generation_ids (g : CatalogGeneration) : list string := md_id <$> cg_instruments g.

(** [_catalog_diff]; the counts are the lengths. *)
Definition catalog_diff (current target : CatalogGeneration) : catalog_difference :=
  foldl (difference_step current target) {| df_added := []; df_changed := []; df_archived_or_disabled := [] |}
    (sorted_set (generation_ids current ++ generation_ids target)).

Definition catalog_diff_json (d : catalog_difference) : json :=
  let count := λ l : list string, JInt (Z.of_nat (length l)) in
  JObject
    [("added", text_list (df_added d)); ("changed", text_list (df_changed d));
     ("archived_or_disabled", text_list (df_archived_or_disabled d));
     ("counts", JObject
        [("added", count (df_added d)); ("changed", count (df_changed d));
         ("archived_or_disabled", count (df_archived_or_disabled d));
         ("total", count (df_added d ++ df_changed d ++ df_archived_or_disabled d))])].

(** ** Credit admission *)

Definition credit_limits (s : ProviderSettings) : list (string * decimal) :=
  [("twelve_data", dint (ps_twelve_daily_credits s)); ("alpha_vantage", dint (ps_alpha_vantage_daily_credits s));
   ("coingecko", dint (ps_coingecko_monthly_credits s / 31));
   ("finnhub", dint (ps_finnhub_calls_per_minute s * 1440))].

Definition credit_line_identity (l : CreditEstimateLine) : string * Capability * string * list string * list string :=
  (ce_provider l, ce_capability l, ce_symbol l,
   sorted_texts (List.filter (λ basis, negb (startswith "shared_batch_count:" basis)) (ce_bases l)),
   sorted_texts (ce_quota_scopes l)).

Definition identity_provider (i : credit_identity) : string := i.1.1.1.1.
Definition identity_scopes (i : credit_identity) : list string := i.2.

(** The demand both plans commit to, by provider and by quota scope. *)
Definition retain_line (candidate_lines : gmap credit_identity decimal) (acc : credits * scoped_credits)
    (entry : credit_identity * decimal) : credits * scoped_credits :=
  match candidate_lines !! entry.1 with
  | None => acc
  | Some candidate_value =>
    let common := dmin entry.2 candidate_value in
    let provider := identity_provider entry.1 in
    (add_credits provider common acc.1,
     <[provider := foldl (λ m scope, add_credits scope common m) (default ∅ (acc.2 !! provider))
                     (identity_scopes entry.1)]> acc.2)
  end.

Definition retained_committed_credits (active candidate : CompiledRoutePlan) : credits * scoped_credits :=
  let totals := λ p, committed_by_identity credit_line_identity (λ _, true) (rp_credit_estimates p) in
  foldl (retain_line (totals candidate)) (∅, ∅) (map_to_list (totals active)).

Definition scoped_value (m : scoped_credits) (provider scope : string) : decimal :=
  default dzero (default ∅ (m !! provider) !! scope).

Record admission_context := {
  ac_retained : credits;
  ac_effective : credits;
  ac_retained_by_scope : scoped_credits;
  ac_effective_by_scope : scoped_credits;
}.

(** The credits of Twelve Data outside its reserve for currencies. *)
Definition twelve_general (s : ProviderSettings) : Z :=
  ps_twelve_daily_credits s - capped_reserve (ps_twelve_fx_reserve_credits s) (ps_twelve_daily_credits s).

Definition credit_admission_context (s : ProviderSettings) (active candidate : CompiledRoutePlan) : admission_context :=
  let '(retained, by_scope) := retained_committed_credits active candidate in
  {| ac_retained := retained;
     ac_effective := list_to_map ((λ e : string * decimal,
       (e.1, dmax e.2 (default dzero (retained !! e.1)))) <$> credit_limits s);
     ac_retained_by_scope := by_scope;
     ac_effective_by_scope :=
       {["twelve_data" := {["general" := dmax (dint (twelve_general s)) (scoped_value by_scope "twelve_data" "general")]}]} |}.

Definition incremental_budget_errors (s : ProviderSettings) (active candidate : CompiledRoutePlan)
    : list CreditBudgetViolation :=
  let c := credit_admission_context s active candidate in
  let totals := omap (λ e : string * decimal,
    let proposed := default dzero (rp_committed_daily_credits candidate !! e.1) in
    let effective := default dzero (ac_effective c !! e.1) in
    if decide (dlt effective proposed) then
      Some {| cv_provider := e.1; cv_proposed := proposed; cv_limit := e.2; cv_effective_limit := effective;
              cv_grandfathered_unchanged := default dzero (ac_retained c !! e.1); cv_scope := None |}
    else None) (credit_limits s) in
  let proposed := scoped_value (rp_committed_daily_credits_by_scope candidate) "twelve_data" "general" in
  let effective := scoped_value (ac_effective_by_scope c) "twelve_data" "general" in
  totals ++
  (if decide (dlt effective proposed) then
     [{| cv_provider := "twelve_data"; cv_proposed := proposed; cv_limit := dint (Z.max 0 (twelve_general s));
         cv_effective_limit := effective;
         cv_grandfathered_unchanged := scoped_value (ac_retained_by_scope c) "twelve_data" "general";
         cv_scope := Some "general" |}]
   else []).

(** ** Routes and providers *)

Definition require_changed_routes (generation : CatalogGeneration) (plan : CompiledRoutePlan) (changed : list string)
    : result (option failure) :=
  fold_result (λ found d,
    match found with
    | Some e => Ok (Some e)
    | None =>
      if negb (bool_decide (md_symbol d ∈ changed)) || negb (active d) then Ok None
      else
        input ← instrument_route_input_from_definition d;
        Ok (match find (λ c, bool_decide (plan_providers_for plan (md_symbol d) c = [])) (required_capabilities input) with
            | Some c => Some (CatalogRouteError "provider_route_missing" (md_symbol d) c)
            | None => None
            end)
    end) None (cg_instruments generation).

(** [_compile]: the registry of a generation and its plan.  [installed] are the
    names of the providers in the graph built from the settings. *)
Definition available_providers (installed : list string) : list string := installed ++ ["synthetic"].

Definition compile_generation (s : ProviderSettings) (installed : list string) (generation : CatalogGeneration)
    (strict : bool) : result (Registry * CompiledRoutePlan) :=
  registry ← to_registry generation;
  inputs ← map_result instrument_route_input_from_definition (active_definitions (cg_instruments generation));
  plan ← compile_route_plan inputs (Some s) (Some (available_providers installed)) MAX_PROVIDER_CHAIN_LENGTH
           MAXIMUM_SYNTHETIC_DEPTH None true strict;
  Ok (registry, plan).

Definition strict_runtime_validation (s : ProviderSettings) : bool := ps_production s && ps_background_enabled s.

Definition metadata_only_fields : list string := ["name"; "description"; "aliases"; "stale_after_seconds"].

Definition collector_definition_payload (d : ManagedInstrumentDefinition) : json :=
  JObject (List.filter (λ item : string * json, negb (existsb (String.eqb item.1) metadata_only_fields))
             (definition_items d)).

(** [{item.id: payload}] of the active definitions, as the list of its items
    without repeated keys. *)
Definition active_payloads (g : CatalogGeneration) : list (string * json) :=
  foldl (λ acc d, dict_set (md_id d) (collector_definition_payload d) acc) []
    (List.filter active (cg_instruments g)).

(** [a == b] for dictionaries of dumped values. *)
Definition dict_eqb (a b : list (string * json)) : bool :=
  bool_decide (length a = length b) &&
  forallb (λ item : string * json, match assoc_get item.1 b with Some v => json_eqb item.2 v | None => false end) a.

(** [plan.as_dict() == other.as_dict()]: equality of what the plans hold. *)
Definition can_reuse_coordinator (running : option coordinator) (runtime_revision : string)
    (runtime_plan : option json) (current target : CatalogGeneration) (plan : CompiledRoutePlan) : bool :=
  match running, runtime_plan with
  | Some c, Some snapshot =>
    co_running c && negb (is_some (co_fatal_error c)) && bool_decide (runtime_revision = cg_revision current) &&
    json_eqb snapshot (plan_as_dict plan) && dict_eqb (active_payloads current) (active_payloads target)
  | _, _ => false
  end.

Record footprint := {
  ft_symbol : string;
  ft_vendor_symbol : option string;
  ft_capabilities : list string;
  ft_policy : string;
}.

#[export] Instance footprint_eq_dec : EqDecision footprint.
Proof. solve_decision. Defined.

Definition provider_fields : list string :=
  ["symbol"; "base"; "quote"; "asset_class"; "asset_type"; "routes"; "provider_symbols"; "income"; "synthetic"].

Definition provider_policy (d : ManagedInstrumentDefinition) : string :=
  rt_model_json (JObject (List.filter (λ item : string * json, existsb (String.eqb item.1) provider_fields)
                            (definition_items d))).

Definition instrument_footprints (d : ManagedInstrumentDefinition) (i : CompiledInstrumentRoutes)
    : list (string * footprint) :=
  let routed := concat (ci_routes i).*2 in
  (λ provider,
     (provider,
      {| ft_symbol := ci_symbol i; ft_vendor_symbol := assoc_get provider (ci_provider_symbols i);
         ft_capabilities := sorted_texts (capability_value <$>
           (List.filter (λ e : Capability * list string, bool_decide (provider ∈ e.2)) (ci_routes i)).*1);
         ft_policy := provider_policy d |}))
    <$> dedup ((ci_provider_symbols i).*1 ++ routed).

Definition provider_runtime_footprints (g : CatalogGeneration) (plan : CompiledRoutePlan)
    : gmap string (list footprint) :=
  let records := foldl (λ m (entry : string * footprint),
    <[entry.1 := default [] (m !! entry.1) ++ [entry.2]]> m) ∅
    (concat ((λ i, match by_symbol g (ci_symbol i) with
                   | Some d => instrument_footprints d i
                   | None => []
                   end) <$> (rp_instruments plan).*2)) in
  sort_rows (λ a b, String.compare (ft_symbol a) (ft_symbol b)) <$> records.

Definition reusable_provider_names (current target : CatalogGeneration) (active_plan candidate_plan : CompiledRoutePlan)
    : list string :=
  let active := provider_runtime_footprints current active_plan in
  let candidate := provider_runtime_footprints target candidate_plan in
  sorted_texts (List.filter (λ provider, bool_decide (is_Some (active !! provider) ∧ active !! provider = candidate !! provider))
                  (map_to_list active).*1).

(** ** The shadow warm-up *)

Definition warm_capabilities (d : ManagedInstrumentDefinition) : list Capability :=
  [QUOTE] ++
  (if is_some (md_income d ≫= in_dividend_strategy) ||
      bool_decide (income_yield d = Some LATEST_DISTRIBUTION_ANNUALIZED) then [DIVIDEND] else []) ++
  (if bool_decide (income_yield d ∉ [None; Some LATEST_DISTRIBUTION_ANNUALIZED]) then [YIELD] else []).

(** What the plan reads of a provider object. *)
Record warm_provider := {
  wp_name : string;
  wp_routing_timeout_seconds : option Q;
  wp_minimum_request_interval_seconds : option Q;
}.

Definition positive_q (q : Q) : bool := negb (Qle_bool q 0).

Definition warm_provider_rate_per_minute (s : ProviderSettings) (p : warm_provider) : option Q :=
  let setting := assoc_get (wp_name p)
    [("alpaca", ps_alpaca_rest_calls_per_minute s); ("finnhub", ps_finnhub_calls_per_minute s);
     ("twelve_data", ps_twelve_calls_per_minute s)] in
  match setting with
  | Some value => if decide (0 < value) then Some (inject_Z value) else None
  | None =>
    match wp_minimum_request_interval_seconds p with
    | Some interval => if positive_q interval then Some (60 / interval)%Q else None
    | None => None
    end
  end.

Record WarmExecutionPlan := {
  we_symbol_count : Z;
  we_capability_operations : Z;
  we_worst_case_provider_attempts : Z;
  we_concurrency : Z;
  we_configured_timeout_seconds : Q;
  we_effective_timeout_seconds : Z;
  we_provider_attempts : list (string * Z);
  we_primary_operations : list (string * Z);
  we_provider_rate_floor_seconds : list (string * Z);
}.

Definition qmax (a b : Q) : Q := if Qle_bool a b then b else a.

(** The counters the loop over the symbols fills. *)
Record warm_totals := {
  wt_operations : Z;
  wt_attempts : list warm_provider;  (* every attempt, in order *)
  wt_primaries : list string;
  wt_total_timeout : Q;
  wt_maximum_timeout : Q;
}.

Definition attempt_timeout (router_timeout : Q) (p : warm_provider) : Q :=
  match wp_routing_timeout_seconds p with
  | Some t => if positive_q t then t else router_timeout
  | None => router_timeout
  end.

Definition warm_operation (router_timeout : Q) (t : warm_totals) (chain : list warm_provider) : warm_totals :=
  let timeouts := attempt_timeout router_timeout <$> chain in
  {| wt_operations := wt_operations t + 1; wt_attempts := wt_attempts t ++ chain;
     wt_primaries := wt_primaries t ++ (wp_name <$> option_list (head chain));
     wt_total_timeout := foldl Qplus (wt_total_timeout t) timeouts;
     wt_maximum_timeout := foldl qmax (wt_maximum_timeout t) timeouts |}.

Definition count_names (names : list string) : list (string * Z) :=
  (λ name, (name, Z.of_nat (length (List.filter (λ other, bool_decide (other = name)) names)))) <$> sorted_set names.

Definition seconds_q (microseconds : Z) : Q := microseconds # 1000000.

Definition warm_concurrency (symbols : nat) : Z :=
  Z.min MAX_WARM_CONCURRENCY (Z.max WARM_CONCURRENCY (ceil_div (Z.max 1 (Z.of_nat symbols)) 64)).

(** The seconds the rate of a provider needs for its attempts. *)
Definition rate_floor (s : ProviderSettings) (attempts : list warm_provider) (name : string) : option Q :=
  match List.filter (λ p, bool_decide (wp_name p = name)) attempts with
  | [] => None
  | p :: _ as own => (λ rate, inject_Z (Z.of_nat (length own)) * 60 / rate)%Q <$> warm_provider_rate_per_minute s p
  end.

(** [warm_timeout_seconds] *)
Definition warm_timeout_seconds (s : ProviderSettings) : Q := qmax 1 (seconds_q (ps_catalog_warm_timeout_seconds s)).

Definition warm_execution_plan (s : ProviderSettings) (router_timeout_seconds : option Q)
    (providers_for : string → Capability → list warm_provider) (generation : CatalogGeneration)
    (symbols : list string) : result WarmExecutionPlan :=
  let concurrency := warm_concurrency (length symbols) in
  let maximum := seconds_q (ps_provider_timeout_seconds s) in
  let router_timeout := match router_timeout_seconds with
                        | Some t => if Qeq_bool t 0 then maximum else t
                        | None => maximum
                        end in
  totals ← fold_result (λ t symbol,
      match by_symbol generation symbol with
      | None => Raise (KeyError symbol)
      | Some d => Ok (foldl (λ t c, warm_operation router_timeout t (providers_for symbol c)) t (warm_capabilities d))
      end)
      {| wt_operations := 0; wt_attempts := []; wt_primaries := []; wt_total_timeout := 0;
         wt_maximum_timeout := maximum |} symbols;
  let attempts := wt_attempts totals in
  let floors := omap (λ name, pair name <$> rate_floor s attempts name) (sorted_set (wp_name <$> attempts)) in
  let routing_floor := (wt_total_timeout totals / inject_Z concurrency)%Q in
  let highest_floor := foldl qmax 0%Q floors.*2 in
  let margin := (wt_maximum_timeout totals + WARM_TIMEOUT_MARGIN_SECONDS)%Q in
  let effective := qmax (warm_timeout_seconds s) (qmax (routing_floor + margin) (highest_floor + margin)) in
  Ok {| we_symbol_count := Z.of_nat (length symbols); we_capability_operations := wt_operations totals;
        we_worst_case_provider_attempts := Z.of_nat (length attempts); we_concurrency := concurrency;
        we_configured_timeout_seconds := warm_timeout_seconds s; we_effective_timeout_seconds := Qceiling effective;
        we_provider_attempts := count_names (wp_name <$> attempts);
        we_primary_operations := count_names (wt_primaries totals);
        we_provider_rate_floor_seconds := (λ e : string * Q, (e.1, Qceiling e.2)) <$> floors |}.

(** [_WarmRatePacer.acquire]: the next slot and how long to wait for this one. *)
Definition pacer_acquire (interval_seconds now next_at : Q) : Q * Q :=
  let scheduled := qmax now next_at in
  ((scheduled + interval_seconds)%Q, (scheduled - now)%Q).

(** ** What a warm-up fetched *)

Definition validate_quote (ny_wall : Z → Z) (d : ManagedInstrumentDefinition) (v : payload) (now : Z)
    : result ProviderQuote :=
  match v with
  | PQuote q =>
    _ ← raise_if (negb (bool_decide (pq_symbol q = md_symbol d)))
          (ValueError "quote provider returned the wrong symbol");
    _ ← raise_if (bool_decide (now + seconds 60 < pq_as_of q)) (ValueError "quote timestamp is in the future");
    let age := Z.max 0 (now - pq_as_of q) in
    status ← scheduled_market_status ny_wall (EnumMember (md_market_calendar d)) (Aware now);
    let provider_confirms_closed :=
      negb (bool_decide (md_market_calendar d = ALWAYS_OPEN)) && bool_decide (pq_market_status q = "closed") &&
      recent_status now (pq_market_status_as_of q) in
    _ ← raise_if (bool_decide (md_stale_after_seconds d < age) && negb (bool_decide (status = "closed")) &&
                  negb provider_confirms_closed) (ValueError "quote is too stale for activation");
    Ok q
  | _ => Raise (TypeError "quote provider returned an invalid domain value")
  end.

Definition validate_dividend (symbol : string) (v : payload) : result DividendEvent :=
  match v with
  | PDividend e =>
    _ ← raise_if (negb (bool_decide (de_symbol e = symbol)))
          (ValueError "dividend provider returned the wrong symbol");
    _ ← raise_if (negb (bool_decide (de_event_type e = "regular_cash")))
          (ValueError "latest mandatory dividend is not a regular cash event");
    Ok e
  | _ => Raise (TypeError "dividend provider returned an invalid domain value")
  end.

Definition validate_yield (se : settings) (symbol : string) (v : payload) (now : Z) : result YieldMetric :=
  match v with
  | PYield m =>
    _ ← raise_if (negb (bool_decide (ym_symbol m = symbol))) (ValueError "yield provider returned the wrong symbol");
    _ ← raise_if (bool_decide (now + seconds 60 < ym_as_of m)) (ValueError "yield timestamp is in the future");
    _ ← raise_if (bool_decide (default_yield_stale_after_seconds se m < now - ym_as_of m))
          (ValueError "yield metric is too stale for activation");
    Ok m
  | _ => Raise (TypeError "yield provider returned an invalid domain value")
  end.

(** [type(exc).__name__] *)
Definition failure_type (f : failure) : string :=
  match f with
  | Plain e => exn_class_name e
  | CatalogRouteError _ _ _ => "CatalogRouteError"
  | CatalogBudgetError _ => "CatalogBudgetError"
  | BindingVerificationError _ => "ProviderBindingVerificationError"
  | CatalogWarmError _ _ _ => "CatalogWarmError"
  | ExceptionGroup _ => "ExceptionGroup"
  | TimedOut => "TimeoutError"
  | Cancelled => "CancelledError"
  end.

(** [try: ... except CancelledError: raise; except Exception: raise CatalogWarmError] *)
Definition warm_capability {A} (symbol : string) (capability : Capability) (answer : attempt payload)
    (check : payload → result A) : attempt A :=
  match answer with
  | inr Cancelled => inr Cancelled
  | inr f => inr (CatalogWarmError symbol capability (failure_type f))
  | inl v =>
    match check v with
    | Ok a => inl a
    | Raise e => inr (CatalogWarmError symbol capability (exn_class_name e))
    end
  end.

(** What the graph of the candidate answers for a symbol; [None] where it has no
    route for the capability. *)
Record warm_answers := {
  wa_quote : attempt payload;
  wa_dividend : option (attempt payload);
  wa_yield : option (attempt payload);
}.

Definition routed_answer (missing : string) (answer : option (attempt payload)) : attempt payload :=
  default (inr (Plain (RouteCompileError missing))) answer.

Definition warm_metadata {A} (wanted : bool) (symbol : string) (capability : Capability) (answer : attempt payload)
    (check : payload → result A) : attempt (option A) :=
  if wanted then match warm_capability symbol capability answer check with inl a => inl (Some a) | inr f => inr f end
  else inl None.

(** One child of the warm-up; every validation reads the clock for itself. *)
Definition warm_one (ny_wall : Z → Z) (se : settings) (d : ManagedInstrumentDefinition) (answers : warm_answers)
    (now : Capability → Z) : attempt warmed_item :=
  let symbol := md_symbol d in
  let wants := λ c, bool_decide (c ∈ warm_capabilities d) in
  match warm_capability symbol QUOTE (wa_quote answers) (λ v, validate_quote ny_wall d v (now QUOTE)) with
  | inr f => inr f
  | inl quote =>
    match warm_metadata (wants DIVIDEND) symbol DIVIDEND
            (routed_answer "required dividend route is missing" (wa_dividend answers)) (validate_dividend symbol) with
    | inr f => inr f
    | inl dividend =>
      match warm_metadata (wants YIELD) symbol YIELD
              (routed_answer "required yield route is missing" (wa_yield answers))
              (λ v, validate_yield se symbol v (now YIELD)) with
      | inr f => inr f
      | inl yield_metric =>
        inl {| wi_symbol := symbol; wi_quote := quote; wi_dividend := dividend; wi_yield_metric := yield_metric |}
      end
    end
  end.

Definition warm_child (ny_wall : Z → Z) (se : settings) (generation : CatalogGeneration)
    (answers : string → warm_answers) (now : string → Capability → Z) (symbol : string) : attempt warmed_item :=
  match by_symbol generation symbol with
  | Some d => warm_one ny_wall se d (answers symbol) (now symbol)
  | None => inr (Plain (KeyError symbol))
  end.

(** What strikes the task that waits for the children. *)
Inductive interruption := Expired | JobCancelled.

(** How a task group goes: the children that came to an end of their own, in
    that order (the others were cancelled), and the interruption, if any. *)
Record warm_run := {
  wr_ended : list nat;
  wr_interrupted : option interruption;
}.

(** What a child leaves in [results]. *)
Definition warm_result (child : string → attempt warmed_item) (run : warm_run) (i : nat) (symbol : string)
    : option warmed_item :=
  if decide (i ∈ wr_ended run) then match child symbol with inl item => Some item | inr _ => None end else None.

(** What a child contributes to the exception of the group, which passes over
    children that were cancelled. *)
Definition warm_error (child : string → attempt warmed_item) (symbols : list string) (i : nat) : option failure :=
  match child <$> symbols !! i with
  | Some (inr Cancelled) | Some (inl _) | None => None
  | Some (inr f) => Some f
  end.

(** [_warm] after the plan: errors of children go before an interruption. *)
Definition warm (ny_wall : Z → Z) (se : settings) (generation : CatalogGeneration)
    (answers : string → warm_answers) (run : warm_run) (symbols : list string) (now : string → Capability → Z)
    : attempt (list warmed_item) :=
  let child := warm_child ny_wall se generation answers now in
  match omap (warm_error child symbols) (wr_ended run), wr_interrupted run with
  | [], None =>
    let results := imap (warm_result child run) symbols in
    if decide (Exists (λ item, item = None) results) then
      inr (Plain (NamedError "CatalogRuntimeError" "catalog warm-up completed without a result"))
    else inl (omap id results)
  | [], Some Expired => inr TimedOut
  | [], Some JobCancelled => inr Cancelled
  | failures, _ => inr (ExceptionGroup failures)
  end.

(** ** The error of a job *)

Fixpoint find_warm_error (f : failure) : option (string * Capability * string) :=
  match f with
  | CatalogWarmError symbol capability cause => Some (symbol, capability, cause)
  | ExceptionGroup l =>
    (fix go (l : list failure) : option (string * Capability * string) :=
       match l with
       | [] => None
       | f :: l' => match find_warm_error f with Some found => Some found | None => go l' end
       end) l
  | _ => None
  end.

Fixpoint take_while (f : ascii → bool) (s : string) : string * string :=
  match s with
  | "" => ("", "")
  | String c s' => if f c then let '(a, b) := take_while f s' in (String c a, b) else ("", s)
  end.

(** [SYMBOL] of the patterns: two runs of symbol characters around a colon. *)
Definition match_symbol (s : string) : option (string * string) :=
  let '(base, rest) := take_while tail_char s in
  match rest with
  | String c rest' =>
    let '(quote, after) := take_while tail_char rest' in
    if bool_decide (c = ":"%char) && truthy base && truthy quote then Some (base +:+ ":" +:+ quote, after) else None
  | "" => None
  end.

Definition match_provider (s : string) : option string :=
  match s with
  | String c s' =>
    if is_lower c then Some (String c (take_while (λ c, lower_or_digit c || bool_decide (c = "_"%char)) s').1) else None
  | "" => None
  end.

(** [SYMBOL/(quote|history|dividend|yield)] *)
Definition match_symbol_capability (s : string) : option (string * string) :=
  symbol ← match_symbol s;
  match symbol.2 with
  | String c after =>
    if decide (c = "/"%char) then
      pair symbol.1 <$> find (λ name, startswith name after) ["quote"; "history"; "dividend"; "yield"]
    else None
  | "" => None
  end.

(** [SYMBOL[/:]\s*PROVIDER] *)
Definition match_binding (s : string) : option (string * string) :=
  symbol ← match_symbol s;
  match symbol.2 with
  | String c after => if decide (c = "/"%char ∨ c = ":"%char) then pair symbol.1 <$> match_provider (lstrip after) else None
  | "" => None
  end.

Definition provider_not_configured : string := "provider is not configured: ".

Definition match_unconfigured (s : string) : option string :=
  if startswith provider_not_configured s
  then match_provider (String.substring (String.length provider_not_configured) (String.length s) s) else None.

(** [re.search]: the first position where the pattern matches. *)
Fixpoint search {A} (m : string → option A) (s : string) : option A :=
  match m s with
  | Some a => Some a
  | None => match s with String _ s' => search m s' | "" => None end
  end.

Definition safe_compile_context (message : string) : list (string * json) :=
  match search match_symbol_capability message with
  | Some (symbol, capability) =>
    [("code", JString "provider_route_invalid"); ("symbol", JString symbol); ("capability", JString capability)]
  | None =>
    match search match_binding message with
    | Some (symbol, provider) =>
      [("code", JString "provider_binding_invalid"); ("symbol", JString symbol); ("provider", JString provider)]
    | None =>
      match search match_unconfigured message with
      | Some provider => [("code", JString "provider_not_configured"); ("provider", JString provider)]
      | None =>
        let lowered := lower message in
        if contains "synthetic" lowered then [("code", JString "synthetic_route_invalid")]
        else if contains "treasury" lowered || contains "yield strategy" lowered || contains "dividend" lowered
        then [("code", JString "income_policy_invalid")]
        else [("code", JString "route_compile_failed")]
      end
    end
  end.

Definition violation_json (v : CreditBudgetViolation) : json :=
  JObject
    [("provider", JString (cv_provider v)); ("proposed", decimal_json (cv_proposed v));
     ("limit", decimal_json (cv_limit v)); ("effective_limit", decimal_json (cv_effective_limit v));
     ("grandfathered_unchanged", decimal_json (cv_grandfathered_unchanged v));
     ("scope", option_json JString (cv_scope v))].

Definition binding_failure_json (f : ProviderBindingFailure) : json :=
  JObject
    [("provider", JString (bf_provider f)); ("symbol", JString (bf_symbol f)); ("code", JString (bf_code f));
     ("status", option_json JInt (bf_status f))].

Definition safe_error (f : failure) (stage : string) (cancelled : bool) : list (string * json) :=
  let result :=
    [("code", JString (if cancelled then "catalog_activation_cancelled"
                       else match f with
                            | TimedOut => if decide (stage = "warming") then "catalog_warm_timeout"
                                          else "catalog_activation_failed"
                            | _ => "catalog_activation_failed"
                            end));
     ("message", JString (if cancelled then "catalog activation was cancelled during service shutdown"
                          else "catalog validation, warm-up, or activation failed"));
     ("type", JString (failure_type f)); ("stage", JString stage)] in
  match find_warm_error f with
  | Some (symbol, capability, cause) =>
    dict_update result
      [("code", JString "catalog_warm_failed"); ("symbol", JString symbol);
       ("capability", JString (capability_value capability)); ("cause_type", JString cause)]
  | None =>
    dict_update result
      match f with
      | CatalogRouteError code symbol capability =>
        [("code", JString code); ("symbol", JString symbol); ("capability", JString (capability_value capability))]
      | CatalogBudgetError violations =>
        [("code", JString "provider_credit_budget_exceeded"); ("budgets", JArray (violation_json <$> violations))]
      | BindingVerificationError failures =>
        [("code", JString "provider_binding_verification_failed");
         ("binding_failures", JArray (binding_failure_json <$> failures))]
      | Plain (NamedError cls message) =>
        if decide (cls = "RouteCompileError") then safe_compile_context message else []
      | _ => []
      end
  end.

End runtime.
