(* ===== verification/CatalogRuntimeFacts.v ===== *)
(** * Theorems on the catalogue runtime

    Credit admission: the demand a plan commits to, the part of it that the
    active plan already had, and what the comparison of the two admits.  Then
    what a warm-up lets through and how long it may take. *)

From S2P Require Import Prelude PyStr PyDecimal PyTime PyIso Domain PluginApi Registry Json Market Policy Router.
From S2P Require Import Service Catalog CatalogFacts CatalogDocument CatalogDemo Descriptors Compiler CompilerFacts.
From S2P Require Import CatalogRuntime.
From stdpp Require Import pretty.
From Stdlib Require Import QArith Qround.

Local Open Scope string_scope.
Local Open Scope list_scope.
Local Open Scope Z_scope.

(** ** Sums over lines *)

Definition sum_over {A} (f : A → Z) (l : list A) : Z := foldr (λ x acc, f x + acc) 0 l.

Lemma sum_over_le {A} (f g : A → Z) l : (∀ x, x ∈ l → f x ≤ g x) → sum_over f l ≤ sum_over g l.
Proof.
  induction l as [|x l IH]; cbn; [done|]. intros Hle.
  pose proof (Hle x ltac:(by left)). pose proof (IH ltac:(intros; apply Hle; by right)). unfold sum_over in *. lia.
Qed.

Lemma sum_over_ext {A} (f g : A → Z) l : (∀ x, x ∈ l → f x = g x) → sum_over f l = sum_over g l.
Proof. intros H. apply Z.le_antisymm; apply sum_over_le; intros x Hx; rewrite (H x Hx); done. Qed.

Lemma sum_over_nonneg {A} (f : A → Z) l : (∀ x, 0 ≤ f x) → 0 ≤ sum_over f l.
Proof. intros Hf. induction l as [|x l IH]; cbn; [done|]. specialize (Hf x). unfold sum_over in IH. lia. Qed.

Lemma sum_over_Permutation {A} (f : A → Z) l l' : l ≡ₚ l' → sum_over f l = sum_over f l'.
Proof. induction 1; cbn in *; unfold sum_over in *; lia. Qed.

(** The requests of the committed lines that satisfy [wanted]. *)
Definition committed_requests (wanted : CreditEstimateLine → bool) (p : CompiledRoutePlan) : Z :=
  requests_of (List.filter wanted (committed_lines (rp_credit_estimates p))).

Definition of_provider (provider : string) (l : CreditEstimateLine) : bool := bool_decide (ce_provider l = provider).

Definition in_scope (provider scope : string) (l : CreditEstimateLine) : bool :=
  bool_decide (ce_provider l = provider ∧ scope ∈ ce_quota_scopes l).

(** The requests a plan commits to under one identity. *)
Definition identity_requests (p : CompiledRoutePlan) (i : credit_identity) : Z :=
  charged credit_line_identity i (committed_lines (rp_credit_estimates p)).

Definition identities (p : CompiledRoutePlan) : list credit_identity :=
  remove_dups (credit_line_identity <$> committed_lines (rp_credit_estimates p)).

(** What both plans commit to, of the identities [wanted]: the part of the
    candidate's demand that is not new. *)
Definition common_requests (active candidate : CompiledRoutePlan) (i : credit_identity) : Z :=
  Z.min (identity_requests active i) (identity_requests candidate i).

Definition kept_requests (wanted : credit_identity → bool) (active candidate : CompiledRoutePlan) : Z :=
  sum_over (λ i, if wanted i then common_requests active candidate i else 0) (identities active).

Definition identity_of_provider (provider : string) (i : credit_identity) : bool :=
  bool_decide (identity_provider i = provider).

Definition identity_in_scope (provider scope : string) (i : credit_identity) : bool :=
  bool_decide (identity_provider i = provider ∧ scope ∈ identity_scopes i).

(** What a compiled plan guarantees of its estimate. *)
Record plan_exact (p : CompiledRoutePlan) : Prop := {
  pe_lines : Forall line_exact (rp_credit_estimates p);
  pe_scopes : Forall (λ l, NoDup (ce_quota_scopes l)) (rp_credit_estimates p);
  pe_bound : requests_of (rp_credit_estimates p) < exact_bound;
  pe_committed : rp_committed_daily_credits p = total_credits (committed_lines (rp_credit_estimates p));
  pe_by_scope : rp_committed_daily_credits_by_scope p
                = scoped_total_credits (committed_lines (rp_credit_estimates p));
}.

(** ** The demand by identity *)

Lemma committed_accumulate {I} `{Countable I} (identity : CreditEstimateLine → I) lines :
  committed_by_identity identity (λ _, true) lines = accumulate identity ∅ (committed_lines lines).
Proof.
  unfold committed_by_identity. generalize (∅ : gmap I decimal). induction lines as [|l lines IH]; intros m; [done|].
  cbn [foldl committed_lines List.filter]. rewrite andb_true_r. destruct (ce_committed l); apply IH.
Qed.

Lemma charged_filter {I} `{Countable I} (identity : CreditEstimateLine → I) (wanted : I → bool) i lines :
  charged identity i (List.filter (λ l, wanted (identity l)) lines)
  = if wanted i then charged identity i lines else 0.
Proof.
  induction lines as [|l lines IH]; [by destruct (wanted i)|]. cbn [List.filter].
  destruct (wanted (identity l)) eqn:Hl; rewrite ?charged_cons, IH; case_decide as Hi; subst; rewrite ?Hl;
    destruct (wanted _); lia.
Qed.

Section exact_plan.
Context (p : CompiledRoutePlan) (Hp : plan_exact p).

Lemma committed_exact : Forall line_exact (committed_lines (rp_credit_estimates p)).
Proof. apply filter_exact, Hp. Qed.

Lemma committed_bound : 0 ≤ requests_of (committed_lines (rp_credit_estimates p)) < exact_bound.
Proof.
  pose proof (requests_of_filter ce_committed _ (pe_lines _ Hp)). pose proof (pe_bound _ Hp).
  unfold committed_lines. lia.
Qed.

Lemma committed_requests_bound wanted : 0 ≤ committed_requests wanted p < exact_bound.
Proof. pose proof (requests_of_filter wanted _ committed_exact). pose proof committed_bound. unfold committed_requests. lia. Qed.

Lemma identity_requests_nonneg i : 0 ≤ identity_requests p i.
Proof. apply charged_bound, committed_exact. Qed.

Lemma identity_requests_bound i : identity_requests p i < exact_bound.
Proof. pose proof (charged_bound credit_line_identity i _ committed_exact). pose proof committed_bound. unfold identity_requests. lia. Qed.

Definition identity_credits : gmap credit_identity decimal :=
  committed_by_identity credit_line_identity (λ _, true) (rp_credit_estimates p).

Lemma identity_credits_lookup i : default dzero (identity_credits !! i) = dint (identity_requests p i).
Proof.
  unfold identity_credits. rewrite committed_accumulate. apply accumulate_empty; [apply committed_exact|apply committed_bound].
Qed.

Lemma identity_credits_keys : (map_to_list identity_credits).*1 ≡ₚ identities p.
Proof.
  apply NoDup_Permutation; [apply NoDup_fst_map_to_list|apply NoDup_remove_dups|]. intros i.
  unfold identities. rewrite elem_of_remove_dups, list_elem_of_fmap.
  unfold identity_credits. rewrite committed_accumulate. split.
  - intros ([i' v] & -> & Hv%elem_of_map_to_list). cbn.
    destruct (proj1 (accumulate_dom credit_line_identity _ ∅ i') (ex_intro _ _ Hv)) as [[? ?]|Hi]; [done|].
    exact Hi.
  - intros Hi.
    destruct (proj2 (accumulate_dom credit_line_identity _ ∅ i) (or_intror Hi)) as [v Hv].
    exists (i, v). split; [done|]. by apply elem_of_map_to_list.
Qed.

(** The identities partition the committed lines that satisfy a condition on
    the identity. *)
Lemma requests_by_identity (wanted : credit_identity → bool) :
  sum_over (λ i, if wanted i then identity_requests p i else 0) (identities p)
  = committed_requests (λ l, wanted (credit_line_identity l)) p.
Proof.
  unfold committed_requests, identity_requests, identities.
  set (lines := committed_lines (rp_credit_estimates p)).
  rewrite (sum_over_ext _ (λ i, charged credit_line_identity i
            (List.filter (λ l, wanted (credit_line_identity l)) lines))).
  2: { intros i _. by rewrite charged_filter. }
  apply (charged_total credit_line_identity); [apply NoDup_remove_dups|].
  intros l [Hl _]%elem_of_filter_bool. apply elem_of_remove_dups, list_elem_of_fmap. by exists l.
Qed.
End exact_plan.

(** ** What both plans commit to *)

Lemma sum_over_cons {A} (f : A → Z) x l : sum_over f (x :: l) = f x + sum_over f l.
Proof. done. Qed.

Lemma dmin_exact m k v a b :
  default dzero m = dint a → v = dint b → dmin v (default dzero m) = dint k → k = Z.min b a.
Proof. intros -> ->. rewrite dmin_dint. by intros [= <-]. Qed.

Lemma scoped_insert (m : scoped_credits) provider (row : credits) p s :
  scoped_value (<[provider := row]> m) p s = if decide (provider = p) then default dzero (row !! s) else scoped_value m p s.
Proof. unfold scoped_value. rewrite lookup_insert. by case_decide. Qed.

(** Adding one amount under every scope of a list. *)
Lemma add_scopes (v : Z) (scopes : list string) (m : credits) (base : string → Z) :
  NoDup scopes → 0 ≤ v → (∀ s, 0 ≤ base s ∧ default dzero (m !! s) = dint (base s)) →
  (∀ s, s ∈ scopes → base s + v < exact_bound) → ∀ s,
  default dzero (foldl (λ m scope, add_credits scope (dint v) m) m scopes !! s)
    = dint (base s + if decide (s ∈ scopes) then v else 0).
Proof.
  intros Hnd Hv. revert m base. induction Hnd as [|x scopes Hx Hnd IH]; intros m base Hm Hb s; cbn [foldl].
  { rewrite decide_False by apply not_elem_of_nil. rewrite (proj2 (Hm s)). f_equal. lia. }
  rewrite (IH _ (λ t, if decide (t = x) then base t + v else base t)).
  - destruct (decide (s = x)) as [->|Hs].
    + rewrite (decide_False (P := x ∈ scopes)) by done. rewrite (decide_True (P := x ∈ x :: scopes)) by by left.
      f_equal. lia.
    + f_equal. f_equal. apply decide_ext. rewrite elem_of_cons. tauto.
  - intros t. unfold add_credits. rewrite lookup_insert. destruct (Hm t) as [H0 Ht], (Hm x) as [Hx0 Hmx].
    destruct (decide (t = x)) as [->|Htx]; [rewrite decide_True by done|rewrite decide_False by congruence; done].
    split; [lia|]. cbn. rewrite Hmx. apply dadd_dint; [done|done|apply Hb; by left].
  - intros t Ht. rewrite decide_False by congruence. apply Hb. by right.
Qed.

Section retained.
Context (active candidate : CompiledRoutePlan) (Hactive : plan_exact active) (Hcandidate : plan_exact candidate).

Let common := common_requests active candidate.
Let retain := retain_line (identity_credits candidate).

(** What [retain_line] does to the two totals. *)
Definition kept_totals (acc : credits * scoped_credits) (total : string → Z) (scoped : string → string → Z) : Prop :=
  (∀ p, 0 ≤ total p ∧ default dzero (acc.1 !! p) = dint (total p)) ∧
  (∀ p s, 0 ≤ scoped p s ∧ scoped_value acc.2 p s = dint (scoped p s)).

Lemma common_nonneg i : 0 ≤ common i.
Proof. apply Z.min_glb; by apply identity_requests_nonneg. Qed.

Lemma retain_line_exact acc total scoped i v :
  kept_totals acc total scoped → NoDup (identity_scopes i) → v = dint (identity_requests active i) →
  total (identity_provider i) + common i < exact_bound →
  (∀ s, scoped (identity_provider i) s + common i < exact_bound) →
  kept_totals (retain acc (i, v))
    (λ p, total p + if identity_of_provider p i then common i else 0)
    (λ p s, scoped p s + if identity_in_scope p s i then common i else 0).
Proof.
  intros [Htotal Hscoped] Hnd -> Hbt Hbs. pose proof (common_nonneg i) as Hc0. unfold retain, retain_line. cbn [fst snd].
  pose proof (identity_credits_lookup candidate Hcandidate i) as Hcand.
  destruct (identity_credits candidate !! i) as [w|]; cbn in Hcand.
  2: { assert (common i = 0) as Hzero.
       { injection Hcand as Hcand. unfold common, common_requests. rewrite <- Hcand.
         pose proof (identity_requests_nonneg active Hactive i). lia. }
       rewrite Hzero. split; [intros p; destruct (identity_of_provider p i)|intros p s; destruct (identity_in_scope p s i)];
         rewrite Z.add_0_r; auto. }
  subst w. rewrite dmin_dint. fold (common_requests active candidate i). fold common. split; cbn [fst snd].
  - intros p. destruct (Htotal p) as [H0 Hp]. unfold identity_of_provider, add_credits. rewrite lookup_insert.
    destruct (decide (identity_provider i = p)) as [<-|Hne].
    + rewrite bool_decide_eq_true_2 by done. split; [lia|]. cbn. rewrite Hp. by apply dadd_dint.
    + rewrite bool_decide_eq_false_2, Z.add_0_r by done. done.
  - intros p s. destruct (Hscoped p s) as [H0 Hp]. rewrite scoped_insert. unfold identity_in_scope.
    destruct (decide (identity_provider i = p)) as [<-|Hne].
    + rewrite (add_scopes (common i) _ _ (scoped (identity_provider i))); [|done|done|apply Hscoped|by intros; apply Hbs].
      destruct (decide (s ∈ identity_scopes i)).
      * rewrite bool_decide_eq_true_2 by done. split; [lia|done].
      * rewrite bool_decide_eq_false_2 by (by intros [_ ?]). split; [lia|done].
    + rewrite bool_decide_eq_false_2, Z.add_0_r by (by intros [? _]). done.
Qed.

Lemma retain_lines_exact (l : list (credit_identity * decimal)) : ∀ acc total scoped,
  kept_totals acc total scoped →
  Forall (λ e, NoDup (identity_scopes e.1) ∧ e.2 = dint (identity_requests active e.1)) l →
  (∀ p, total p + sum_over common l.*1 < exact_bound) →
  (∀ p s, scoped p s + sum_over common l.*1 < exact_bound) →
  kept_totals (foldl retain acc l)
    (λ p, total p + sum_over (λ i, if identity_of_provider p i then common i else 0) l.*1)
    (λ p s, scoped p s + sum_over (λ i, if identity_in_scope p s i then common i else 0) l.*1).
Proof.
  induction l as [|[i v] l IH]; intros acc total scoped Hacc Hl Hbt Hbs.
  { cbn. destruct Hacc as [Ht Hs]. split; [intros p|intros p s]; rewrite Z.add_0_r; auto. }
  apply Forall_cons in Hl as [[Hnd Hv] Hl]. cbn [fst snd] in *.
  change (((i, v) :: l).*1) with (i :: l.*1) in *. setoid_rewrite sum_over_cons in Hbt. setoid_rewrite sum_over_cons in Hbs.
  pose proof (common_nonneg i) as Hc0. pose proof (sum_over_nonneg common l.*1 common_nonneg) as Hrest.
  cbn [foldl]. destruct (IH (retain acc (i, v))
    (λ p, total p + if identity_of_provider p i then common i else 0)
    (λ p s, scoped p s + if identity_in_scope p s i then common i else 0)) as [Ht Hs].
  - apply retain_line_exact; try done; [specialize (Hbt (identity_provider i)); lia|].
    intros s. specialize (Hbs (identity_provider i) s). lia.
  - done.
  - intros p. specialize (Hbt p). destruct (identity_of_provider p i); lia.
  - intros p s. specialize (Hbs p s). destruct (identity_in_scope p s i); lia.
  - split; [intros p; destruct (Ht p) as [? Hp]|intros p s; destruct (Hs p s) as [? Hp]];
      rewrite sum_over_cons, Z.add_assoc; done.
Qed.

Lemma scopes_NoDup i : i ∈ identities active → NoDup (identity_scopes i).
Proof.
  unfold identities. rewrite elem_of_remove_dups, list_elem_of_fmap. intros (l & -> & [Hl _]%elem_of_filter_bool).
  pose proof (pe_scopes _ Hactive) as Hs. rewrite Forall_forall in Hs.
  unfold identity_scopes, credit_line_identity. cbn [snd]. unfold sorted_texts. rewrite sort_rows_perm. by apply Hs.
Qed.

Lemma common_le i : common i ≤ identity_requests active i ∧ common i ≤ identity_requests candidate i.
Proof. unfold common, common_requests. lia. Qed.

(** The two totals the code keeps are those of the common demand. *)
Lemma retained_exact :
  let '(retained, by_scope) := retained_committed_credits active candidate in
  (∀ p, default dzero (retained !! p) = dint (kept_requests (identity_of_provider p) active candidate)) ∧
  (∀ p s, scoped_value by_scope p s = dint (kept_requests (identity_in_scope p s) active candidate)).
Proof.
  unfold retained_committed_credits. change (committed_by_identity credit_line_identity (λ _, true) (rp_credit_estimates candidate))
    with (identity_credits candidate).
  change (committed_by_identity credit_line_identity (λ _, true) (rp_credit_estimates active)) with (identity_credits active).
  fold retain. set (entries := map_to_list (identity_credits active)).
  pose proof (identity_credits_keys active) as Hkeys. fold entries in Hkeys.
  assert (sum_over common entries.*1 < exact_bound) as Hsum.
  { rewrite (sum_over_Permutation _ _ _ Hkeys). apply Z.le_lt_trans with (sum_over (identity_requests active) (identities active)).
    - apply sum_over_le. intros i _. apply common_le.
    - pose proof (requests_by_identity active (λ _, true)) as Hr. cbn in Hr. fold (identity_requests active) in Hr.
      unfold sum_over at 1. unfold sum_over in Hr. rewrite Hr. by apply committed_requests_bound. }
  destruct (retain_lines_exact entries (∅, ∅) (λ _, 0) (λ _ _, 0)) as [Ht Hs].
  - split; [intros p; cbn; by rewrite lookup_empty|intros p s; unfold scoped_value; cbn; by rewrite !lookup_empty].
  - apply Forall_forall. intros [i v] He. cbn [fst snd]. split.
    + apply scopes_NoDup. rewrite <- Hkeys. apply list_elem_of_fmap. by exists (i, v).
    + apply elem_of_map_to_list in He. pose proof (identity_credits_lookup active Hactive i) as Hi. by rewrite He in Hi.
  - done.
  - done.
  - destruct (foldl retain (∅, ∅) entries) as [retained by_scope]. cbn [fst snd] in *.
    split; [intros p; rewrite (proj2 (Ht p))|intros p s; rewrite (proj2 (Hs p s))]; f_equal;
      unfold kept_requests; by rewrite (sum_over_Permutation _ _ _ Hkeys).
Qed.

End retained.

(** ** The totals by scope *)

Lemma scoped_rows provider v scopes : ∀ (m : scoped_credits) p s,
  scoped_value (foldl (λ m scope, <[provider := add_credits scope v (default ∅ (m !! provider))]> m) m scopes) p s
  = if decide (provider = p) then default dzero (foldl (λ m scope, add_credits scope v m) (default ∅ (m !! provider)) scopes !! s)
    else scoped_value m p s.
Proof.
  induction scopes as [|x scopes IH]; intros m p s; cbn [foldl].
  { case_decide as Hp; [by subst|done]. }
  rewrite IH, lookup_insert_eq. case_decide as Hp; [done|]. rewrite scoped_insert. by rewrite decide_False.
Qed.

Lemma scoped_totals_exact lines : Forall line_exact lines → Forall (λ l, NoDup (ce_quota_scopes l)) lines →
  ∀ (m : scoped_credits) base, (∀ p s, 0 ≤ base p s ∧ scoped_value m p s = dint (base p s)) →
  (∀ p s, base p s + requests_of lines < exact_bound) → ∀ p s,
  scoped_value (foldl (λ m l,
    foldl (λ m scope,
      <[ce_provider l := add_credits scope (ce_estimated_credits_per_day l) (default ∅ (m !! ce_provider l))]> m)
      m (ce_quota_scopes l)) m lines) p s
  = dint (base p s + requests_of (List.filter (in_scope p s) lines)).
Proof.
  induction 1 as [|l lines [Hl Hv] Hlines IH]; intros Hscopes m base Hm Hb p s; cbn [foldl].
  { rewrite (proj2 (Hm p s)). f_equal. cbn. lia. }
  apply Forall_cons in Hscopes as [Hnd Hscopes]. pose proof (requests_of_nonneg _ Hlines) as Hrest.
  setoid_rewrite requests_of_cons in Hb.
  assert (ce_estimated_credits_per_day l = dint (ce_requests_per_day l)) as ->.
  { rewrite Hv. apply dec_fix_exact. destruct (Hm p s). specialize (Hb p s). lia. }
  set (add := λ p s, if in_scope p s l then ce_requests_per_day l else 0).
  rewrite (IH Hscopes _ (λ p s, base p s + add p s)).
  - unfold add. cbn [List.filter]. destruct (in_scope p s l); [rewrite requests_of_cons|]; f_equal; lia.
  - intros p' s'. destruct (Hm p' s') as [H0 Hp']. rewrite scoped_rows. unfold add, in_scope.
    destruct (decide (ce_provider l = p')) as [<-|Hne].
    2: { rewrite bool_decide_eq_false_2, Z.add_0_r by (by intros [? _]). done. }
    rewrite (add_scopes (ce_requests_per_day l) _ _ (base (ce_provider l))); [|done|done|apply Hm|].
    + destruct (decide (s' ∈ ce_quota_scopes l)).
      * rewrite bool_decide_eq_true_2 by done. split; [lia|done].
      * rewrite bool_decide_eq_false_2 by (by intros [_ ?]). split; [lia|done].
    + intros t _. specialize (Hb (ce_provider l) t). lia.
  - intros p' s'. unfold add. specialize (Hb p' s'). destruct (in_scope p' s' l); lia.
Qed.

Section committed_totals.
Context (p : CompiledRoutePlan) (Hp : plan_exact p).

Lemma committed_total provider :
  default dzero (rp_committed_daily_credits p !! provider) = dint (committed_requests (of_provider provider) p).
Proof.
  rewrite (pe_committed _ Hp), total_credits_accumulate.
  apply accumulate_empty; [by apply committed_exact|by apply committed_bound].
Qed.

Lemma committed_scope provider scope :
  scoped_value (rp_committed_daily_credits_by_scope p) provider scope
  = dint (committed_requests (in_scope provider scope) p).
Proof.
  rewrite (pe_by_scope _ Hp). unfold scoped_total_credits.
  rewrite (scoped_totals_exact _ (committed_exact p Hp)) with (base := λ _ _, 0); [done| | |].
  - apply Forall_forall. intros l [Hl _]%elem_of_filter_bool.
    pose proof (pe_scopes _ Hp) as Hs. rewrite Forall_forall in Hs. by apply Hs.
  - intros. unfold scoped_value. by rewrite !lookup_empty.
  - intros. pose proof (committed_bound p Hp). lia.
Qed.

(** The identities of a provider hold what it commits to. *)
Lemma provider_identities provider :
  sum_over (λ i, if identity_of_provider provider i then identity_requests p i else 0) (identities p)
  = committed_requests (of_provider provider) p.
Proof. by rewrite requests_by_identity. Qed.

Lemma scope_identities provider scope :
  sum_over (λ i, if identity_in_scope provider scope i then identity_requests p i else 0) (identities p)
  = committed_requests (in_scope provider scope) p.
Proof.
  rewrite requests_by_identity by done. unfold committed_requests. f_equal.
  apply List.filter_ext. intros l. unfold identity_in_scope, in_scope. apply bool_decide_ext.
  unfold identity_scopes, identity_provider, credit_line_identity. cbn. unfold sorted_texts. by rewrite sort_rows_perm.
Qed.
End committed_totals.

(** ** Admission *)

Lemma texts_NoDup (x : gset string) : NoDup (texts x).
Proof. unfold texts, sorted_texts. rewrite sort_rows_perm. apply NoDup_elements. Qed.

Lemma estimate_lines_scopes items compiled demands lines :
  estimate_lines items compiled demands = Ok lines → Forall (λ l, NoDup (ce_quota_scopes l)) lines.
Proof.
  unfold estimate_lines. intros (shared & Hshared & (own & Hown%map_result_ok & [= <-])%result_bind_ok)%result_bind_ok.
  rewrite sort_rows_perm. apply Forall_app. split.
  - unfold coingecko_quote_line in Hshared. destruct (_.*2) as [|d rest]; [by injection Hshared as <-|].
    apply result_bind_ok in Hshared as (? & _ & H). apply result_bind_ok in H as (? & _ & H).
    apply result_bind_ok in H as (? & _ & [= <-]). repeat constructor. apply texts_NoDup.
  - apply Forall_forall. intros l Hl. apply list_elem_of_lookup in Hl as [k Hk].
    destruct (Forall2_lookup_r _ _ _ _ _ Hown Hk) as ([[[[? ?] ?] ?] d] & _ & H). cbn in H.
    apply result_bind_ok in H as (? & _ & [= <-]). apply texts_NoDup.
Qed.

Lemma compiled_plan_exact definitions settings available chain_length depth limits drop strict plan :
  compile_route_plan definitions settings available chain_length depth limits drop strict = Ok plan →
  requests_of (rp_credit_estimates plan) < exact_bound → plan_exact plan.
Proof.
  intros Hplan Hb. pose proof (plan_lines_exact _ _ _ _ _ _ _ _ _ Hplan) as Hl.
  apply compile_route_plan_ok in Hplan as (_ & _ & _ & _ & _ & demands & _ & He & _ & Hc & Hs & _).
  split; try done. by eapply estimate_lines_scopes.
Qed.

Lemma compiled_generation_exact s installed g strict r plan :
  compile_generation s installed g strict = Ok (r, plan) → requests_of (rp_credit_estimates plan) < exact_bound →
  plan_exact plan.
Proof.
  unfold compile_generation. intros (r' & _ & (inputs & _ & (p & Hp & [= <- <-])%result_bind_ok)%result_bind_ok)%result_bind_ok.
  by eapply compiled_plan_exact.
Qed.

Lemma omap_nil {A B} (f : A → option B) l : omap f l = [] ↔ ∀ x, x ∈ l → f x = None.
Proof.
  induction l as [|x l IH]; cbn; [split; [by intros _ ? ?%elem_of_nil|done]|].
  setoid_rewrite elem_of_cons. destruct (f x) eqn:Hx; [split; [done|intros H; specialize (H x ltac:(by left)); congruence]|].
  rewrite IH. naive_solver.
Qed.

Lemma kept_le wanted active candidate : plan_exact active → plan_exact candidate →
  kept_requests wanted active candidate
  ≤ sum_over (λ i, if wanted i then identity_requests active i else 0) (identities active).
Proof. intros. apply sum_over_le. intros i _. destruct (wanted i); [apply common_le|done]. Qed.

Lemma kept_same wanted active candidate : rp_credit_estimates candidate = rp_credit_estimates active →
  kept_requests wanted active candidate
  = sum_over (λ i, if wanted i then identity_requests active i else 0) (identities active).
Proof.
  intros He. apply sum_over_ext. intros i _. unfold common_requests, identity_requests. rewrite He. by rewrite Z.min_id.
Qed.

Definition limits_of (s : ProviderSettings) : list (string * Z) :=
  [("twelve_data", ps_twelve_daily_credits s); ("alpha_vantage", ps_alpha_vantage_daily_credits s);
   ("coingecko", ps_coingecko_monthly_credits s / 31); ("finnhub", ps_finnhub_calls_per_minute s * 1440)].

Lemma effective_limit s active candidate : plan_exact active → plan_exact candidate →
  (∀ provider limit, (provider, limit) ∈ limits_of s →
     default dzero (ac_effective (credit_admission_context s active candidate) !! provider)
     = dint (limit `max` kept_requests (identity_of_provider provider) active candidate)) ∧
  scoped_value (ac_effective_by_scope (credit_admission_context s active candidate)) "twelve_data" "general"
  = dint (twelve_general s `max` kept_requests (identity_in_scope "twelve_data" "general") active candidate).
Proof.
  intros Ha Hc. pose proof (retained_exact active candidate Ha Hc) as Hr. unfold credit_admission_context.
  destruct (retained_committed_credits active candidate) as [retained by_scope]. destruct Hr as [Hr Hs].
  cbn [ac_effective ac_effective_by_scope]. split.
  - intros provider limit Hin. cbn -[dmax dint identity_of_provider]. unfold limits_of in Hin.
    repeat (apply elem_of_cons in Hin as [[= -> ->]|Hin]); [..|by apply elem_of_nil in Hin];
      repeat (rewrite lookup_insert_eq || rewrite lookup_insert_ne by done); cbn -[dmax dint identity_of_provider];
      rewrite Hr; apply dmax_dint.
  - unfold scoped_value at 1. rewrite lookup_singleton_eq. cbn -[dmax dint]. rewrite lookup_singleton_eq.
    cbn -[dmax dint]. rewrite Hs. apply dmax_dint.
Qed.

(** The limits a candidate has to respect, and the demand it may keep. *)
Definition within_limits (s : ProviderSettings) (active candidate : CompiledRoutePlan) : Prop :=
  (∀ provider limit, (provider, limit) ∈ limits_of s →
     committed_requests (of_provider provider) candidate
     ≤ limit `max` kept_requests (identity_of_provider provider) active candidate) ∧
  committed_requests (in_scope "twelve_data" "general") candidate
  ≤ twelve_general s `max` kept_requests (identity_in_scope "twelve_data" "general") active candidate.

Lemma budget_errors_within s active candidate : plan_exact active → plan_exact candidate →
  incremental_budget_errors s active candidate = [] ↔ within_limits s active candidate.
Proof.
  intros Ha Hc. destruct (effective_limit s active candidate Ha Hc) as [He Hg].
  unfold incremental_budget_errors, within_limits. rewrite app_nil, omap_nil.
  assert (credit_limits s = (λ e : string * Z, (e.1, dint e.2)) <$> limits_of s) as -> by done.
  f_equiv.
  - split.
    + intros H provider limit Hin. specialize (H (provider, dint limit)). cbn [fst snd] in H.
      rewrite (He _ _ Hin), (committed_total candidate Hc) in H. destruct (decide _) as [|Hlt] in H.
      * discriminate H. apply list_elem_of_fmap. by exists (provider, limit).
      * rewrite dlt_dint in Hlt. lia.
    + intros H e ([provider limit] & -> & Hin)%list_elem_of_fmap. cbn [fst snd].
      rewrite (He _ _ Hin), (committed_total candidate Hc), decide_False; [done|].
      rewrite dlt_dint. specialize (H _ _ Hin). lia.
  - rewrite Hg, (committed_scope candidate Hc). destruct (decide _) as [Hlt|Hlt]; rewrite dlt_dint in Hlt; split; try done; lia.
Qed.

(** C9: credit admission is exact.  A candidate passes iff for every metered
    provider, and for the general scope of Twelve Data, what it commits to per
    day is within the configured limit or within the demand it shares with the
    active plan under the same identities.  What is shared never exceeds what
    the active plan commits to, so beyond the limit the demand on a provider
    cannot grow; and a candidate with the estimate of the active plan always
    passes, even above limits that were lowered since. *)
Theorem credit_admission_exact s installed current target strict r_active r_candidate active candidate
    (Hactive : compile_generation s installed current false = Ok (r_active, active))
    (Hcandidate : compile_generation s installed target strict = Ok (r_candidate, candidate))
    (Hba : requests_of (rp_credit_estimates active) < exact_bound)
    (Hbc : requests_of (rp_credit_estimates candidate) < exact_bound) :
  (incremental_budget_errors s active candidate = [] ↔ within_limits s active candidate) ∧
  (∀ provider, kept_requests (identity_of_provider provider) active candidate
               ≤ committed_requests (of_provider provider) active) ∧
  (rp_credit_estimates candidate = rp_credit_estimates active → incremental_budget_errors s active candidate = []).
Proof.
  pose proof (compiled_generation_exact _ _ _ _ _ _ Hactive Hba) as Ha.
  pose proof (compiled_generation_exact _ _ _ _ _ _ Hcandidate Hbc) as Hc.
  pose proof (budget_errors_within s active candidate Ha Hc) as Hiff. split_and!; [done| |].
  - intros provider. rewrite <- (provider_identities active provider). by apply kept_le.
  - intros Hsame. apply Hiff. unfold within_limits. setoid_rewrite (kept_same _ _ _ Hsame).
    setoid_rewrite (provider_identities active). rewrite (scope_identities active).
    unfold committed_requests. rewrite Hsame. split; [intros|]; lia.
Qed.

(** *** A concrete admission *)

Definition demo_settings : ProviderSettings := {|
  ps_production := true; ps_background_enabled := true; ps_provider_timeout_seconds := seconds 8;
  ps_catalog_warm_timeout_seconds := seconds 180; ps_twelve_daily_credits := 790;
  ps_twelve_fx_reserve_credits := 765; ps_twelve_calls_per_minute := 8; ps_alpha_vantage_daily_credits := 25;
  ps_alpaca_stream_symbol_limit := 30; ps_alpaca_rest_calls_per_minute := 180; ps_finnhub_calls_per_minute := 60;
  ps_coingecko_monthly_credits := 310; ps_alpaca_api_key := None; ps_alpaca_api_secret := None;
  ps_twelve_data_api_key := None; ps_alpha_vantage_api_key := None; ps_finnhub_api_key := None;
  ps_coingecko_api_key := Some "key"; ps_fred_api_key := None; ps_ethereum_rpc_urls := [];
  ps_binance_api_key := None; ps_binance_api_secret := None |}.

(** An instrument that CoinGecko quotes. *)
Definition demo_metered : ManagedInstrumentDefinition :=
  {| md_id := md_id demo_custom; md_symbol := md_symbol demo_custom; md_base := md_base demo_custom;
     md_quote := md_quote demo_custom; md_name := md_name demo_custom; md_description := md_description demo_custom;
     md_asset_class := CRYPTO; md_asset_type := md_asset_type demo_custom; md_price_basis := md_price_basis demo_custom;
     md_change_basis := md_change_basis demo_custom; md_ownership := CUSTOM; md_enabled := true; md_archived := false;
     md_aliases := []; md_market_calendar := ALWAYS_OPEN; md_quote_poll_seconds := seconds 2;
     md_stale_after_seconds := seconds 10;
     md_history := {| hp_enabled := false; hp_poll_seconds := None; hp_backfill_days := None |};
     md_routes := [{| cr_capability := QUOTE; cr_providers := ["coingecko"] |}];
     md_provider_symbols := [{| psb_provider := "coingecko"; psb_symbol := "ethereum" |}];
     md_income := None; md_synthetic := None |}.

Definition demo_generation (l : list ManagedInstrumentDefinition) : CatalogGeneration :=
  {| cg_revision := ""; cg_instruments := l |}.

Definition demo_compile (l : list ManagedInstrumentDefinition) (strict : bool) : result (Registry * CompiledRoutePlan) :=
  compile_generation demo_settings ["coingecko"] (demo_generation l) strict.

Definition demo_plan : Registry * CompiledRoutePlan :=
  match demo_compile [demo_metered] true with
  | Ok p => p
  | Raise _ => (empty_registry, {| rp_instruments := []; rp_routes := []; rp_estimated_daily_credits := ∅;
      rp_committed_daily_credits := ∅; rp_committed_daily_credits_by_scope := ∅; rp_worst_case_daily_credits := ∅;
      rp_worst_case_daily_credits_by_scope := ∅; rp_hard_capped_daily_credits := ∅; rp_credit_estimates := [];
      rp_credit_budget_context := [] |})
  end.

(** CoinGecko is used above its limit: the same plan may be activated again. *)
Lemma credit_admission_exact_witness :
  10 < committed_requests (of_provider "coingecko") demo_plan.2 ∧
  incremental_budget_errors demo_settings demo_plan.2 demo_plan.2 = [].
Proof.
  split; [by vm_compute|].
  apply (credit_admission_exact demo_settings ["coingecko"] (demo_generation [demo_metered])
           (demo_generation [demo_metered]) true demo_plan.1 demo_plan.1 demo_plan.2 demo_plan.2);
    by vm_compute.
Defined.

(** ** What a warm-up lets through *)

Section warm.
Context (ny_wall : Z → Z) (se : settings).






End warm.



(** ** The plan of a warm-up *)

Lemma qmax_spec a b : (a <= qmax a b /\ b <= qmax a b)%Q.
Proof.
  unfold qmax. destruct (Qle_bool a b) eqn:H.
  - apply Qle_bool_iff in H. split; [done|apply Qle_refl].
  - split; [apply Qle_refl|]. apply Qlt_le_weak, Qnot_le_lt. intros Hab%Qle_bool_iff. congruence.
Qed.

Lemma qmax_fold l : ∀ a, (a <= foldl qmax a l)%Q ∧ ∀ x, x ∈ l → (x <= foldl qmax a l)%Q.
Proof.
  induction l as [|y l IH]; intros a; cbn [foldl]; [split; [apply Qle_refl|by intros ? ?%elem_of_nil]|].
  destruct (IH (qmax a y)) as [Ha Hl], (qmax_spec a y) as [Hay Hyy]. split; [by eapply Qle_trans|].
  intros x [->|Hx]%elem_of_cons; [by eapply Qle_trans|by apply Hl].
Qed.

(** What one attempt costs: the timeouts of all attempts add up to
    [wt_total_timeout], and none is longer than [wt_maximum_timeout]. *)
Definition totals_sound (router_timeout : Q) (t : warm_totals) : Prop :=
  (wt_total_timeout t == foldr Qplus 0 (attempt_timeout router_timeout <$> wt_attempts t))%Q ∧
  (∀ p, p ∈ wt_attempts t → (attempt_timeout router_timeout p <= wt_maximum_timeout t)%Q) ∧
  (length (wt_primaries t) <= Z.to_nat (wt_operations t))%nat ∧ 0 ≤ wt_operations t.

Lemma foldl_Qplus l : ∀ a, (foldl Qplus a l == a + foldr Qplus 0 l)%Q.
Proof. induction l as [|x l IH]; intros a; cbn; [by rewrite Qplus_0_r|]. rewrite IH. by rewrite Qplus_assoc. Qed.

Lemma foldr_Qplus_app l l' : (foldr Qplus 0 (l ++ l') == foldr Qplus 0 l + foldr Qplus 0 l')%Q.
Proof. induction l as [|x l IH]; cbn; [by rewrite Qplus_0_l|]. by rewrite IH, Qplus_assoc. Qed.

Lemma warm_operation_sound router_timeout t chain :
  totals_sound router_timeout t → totals_sound router_timeout (warm_operation router_timeout t chain).
Proof.
  intros (Hsum & Hmax & Hp & H0). unfold warm_operation.
  destruct (qmax_fold (attempt_timeout router_timeout <$> chain) (wt_maximum_timeout t)) as [Hm Hl].
  split_and!; cbn.
  - by rewrite foldl_Qplus, fmap_app, foldr_Qplus_app, Hsum.
  - intros p [Hin|Hin]%elem_of_app; [eapply Qle_trans; [by apply Hmax|done]|].
    apply Hl, list_elem_of_fmap. by exists p.
  - rewrite length_app, length_fmap. destruct chain; cbn; lia.
  - lia.
Qed.

(** Every attempt of every operation of the symbols, in order. *)
Definition planned_attempts (providers_for : string → Capability → list warm_provider) (generation : CatalogGeneration)
    (symbols : list string) : list warm_provider :=
  concat ((λ symbol, match by_symbol generation symbol with
                     | Some d => concat (providers_for symbol <$> warm_capabilities d)
                     | None => []
                     end) <$> symbols).

Lemma warm_operations_sound router_timeout providers_for generation symbols : ∀ t t',
  totals_sound router_timeout t →
  fold_result (λ t symbol,
      match by_symbol generation symbol with
      | None => Raise (KeyError symbol)
      | Some d => Ok (foldl (λ t c, warm_operation router_timeout t (providers_for symbol c)) t (warm_capabilities d))
      end) t symbols = Ok t' →
  totals_sound router_timeout t' ∧ wt_attempts t' = wt_attempts t ++ planned_attempts providers_for generation symbols.
Proof.
  induction symbols as [|symbol symbols IH]; intros t t' Ht; cbn [fold_result].
  { intros [= <-]. cbn. by rewrite app_nil_r. }
  intros (t1 & H1 & H)%result_bind_ok. unfold planned_attempts. cbn [fmap list_fmap concat].
  destruct (by_symbol generation symbol) as [d|]; [|done]. injection H1 as <-.
  assert (∀ cs t, totals_sound router_timeout t →
    totals_sound router_timeout (foldl (λ t c, warm_operation router_timeout t (providers_for symbol c)) t cs) ∧
    wt_attempts (foldl (λ t c, warm_operation router_timeout t (providers_for symbol c)) t cs)
    = wt_attempts t ++ concat (providers_for symbol <$> cs)) as Hops.
  { clear. induction cs as [|c cs IH]; intros t Ht; cbn; [by rewrite app_nil_r|].
    destruct (IH _ (warm_operation_sound router_timeout t (providers_for symbol c) Ht)) as [Hs Ha].
    split; [done|]. rewrite Ha. cbn. by rewrite <- app_assoc. }
  destruct (Hops (warm_capabilities d) t Ht) as [Hs Ha]. destruct (IH _ _ Hs H) as [Hs' Ha'].
  split; [done|]. rewrite Ha', Ha, <- app_assoc. done.
Qed.

Lemma warm_concurrency_bounds n :
  4 ≤ warm_concurrency n ≤ 32 ∧ (Z.of_nat n ≤ 64 * warm_concurrency n ∨ warm_concurrency n = 32).
Proof.
  unfold warm_concurrency, WARM_CONCURRENCY, MAX_WARM_CONCURRENCY.
  pose proof (ceil_div_spec (Z.max 1 (Z.of_nat n)) 64 ltac:(done)). lia.
Qed.

Lemma Qle_ceiling_trans x y : (x <= y)%Q → (x <= inject_Z (Qceiling y))%Q.
Proof. intros H. eapply Qle_trans; [exact H|apply Qle_ceiling]. Qed.

Definition router_timeout_of (s : ProviderSettings) (router_timeout_seconds : option Q) : Q :=
  match router_timeout_seconds with
  | Some t => if Qeq_bool t 0 then seconds_q (ps_provider_timeout_seconds s) else t
  | None => seconds_q (ps_provider_timeout_seconds s)
  end.

(** C11: the deadline of a warm-up is sized for the work it may have to do.  Its
    concurrency lies between 4 and 32, with at most 64 symbols per slot until
    the maximum is reached.  The deadline is never below the configured one; it
    leaves room for every attempt of every fallback chain to run into its
    timeout, spread over the slots, plus the longest single attempt and the
    margin; and it leaves room for the rate of every provider that has one. *)
Theorem warm_deadline_sufficient s router_timeout_seconds providers_for generation symbols plan
    (Hplan : warm_execution_plan s router_timeout_seconds providers_for generation symbols = Ok plan) :
  let attempts := planned_attempts providers_for generation symbols in
  let router_timeout := router_timeout_of s router_timeout_seconds in
  let deadline := inject_Z (we_effective_timeout_seconds plan) in
  we_worst_case_provider_attempts plan = Z.of_nat (length attempts) ∧
  4 ≤ we_concurrency plan ≤ 32 ∧
  (Z.of_nat (length symbols) ≤ 64 * we_concurrency plan ∨ we_concurrency plan = 32) ∧
  (we_configured_timeout_seconds plan <= deadline)%Q ∧
  ∃ longest : Q,
    (∀ p, p ∈ attempts → (attempt_timeout router_timeout p <= longest)%Q) ∧
    (foldr Qplus 0 (attempt_timeout router_timeout <$> attempts) / inject_Z (we_concurrency plan)
       + (longest + WARM_TIMEOUT_MARGIN_SECONDS) <= deadline)%Q ∧
    (∀ p floor, p ∈ attempts → rate_floor s attempts (wp_name p) = Some floor →
       (floor + (longest + WARM_TIMEOUT_MARGIN_SECONDS) <= deadline)%Q).
Proof.
  cbv zeta. unfold warm_execution_plan in Hplan. fold (router_timeout_of s router_timeout_seconds) in Hplan.
  apply result_bind_ok in Hplan as (t & Ht & [= <-]).
  apply warm_operations_sound in Ht as [(Hsum & Hmax & _ & _) Hattempts].
  2: { split_and!; cbn; [done|by intros ? ?%elem_of_nil|lia|done]. }
  cbn [wt_attempts app] in Hattempts. rewrite Hattempts in *. clear Hattempts.
  set (attempts := planned_attempts providers_for generation symbols) in *.
  cbn [we_worst_case_provider_attempts we_concurrency we_configured_timeout_seconds we_effective_timeout_seconds].
  destruct (warm_concurrency_bounds (length symbols)) as [Hc Hs]. split_and!; try done; try lia.
  { apply Qle_ceiling_trans, qmax_spec. }
  exists (wt_maximum_timeout t). split_and!; [done| |].
  - apply Qle_ceiling_trans. eapply Qle_trans; [|apply qmax_spec].
    eapply Qle_trans; [|apply (proj1 (qmax_spec _ _))]. rewrite <- Hsum. apply Qle_refl.
  - intros p floor Hp Hfloor. apply Qle_ceiling_trans. eapply Qle_trans; [|apply qmax_spec]. eapply Qle_trans; [|apply qmax_spec].
    apply Qplus_le_compat; [|apply Qle_refl]. apply qmax_fold. apply list_elem_of_fmap. exists (wp_name p, floor).
    split; [done|]. apply list_elem_of_omap. exists (wp_name p). split; [|by rewrite Hfloor].
    unfold sorted_set. rewrite sort_rows_perm, elem_of_dedup. apply list_elem_of_fmap. by exists p.
Qed.

(** The first attempts of a warm-up of one symbol with two providers. *)
Lemma warm_deadline_sufficient_witness :
  ∃ plan, warm_execution_plan demo_settings None
    (λ _ _, [{| wp_name := "coingecko"; wp_routing_timeout_seconds := Some 30%Q;
                wp_minimum_request_interval_seconds := Some 20%Q |};
             {| wp_name := "kraken"; wp_routing_timeout_seconds := None;
                wp_minimum_request_interval_seconds := None |}])
    (demo_generation [demo_metered]) ["ETH:USDC"] = Ok plan ∧ we_worst_case_provider_attempts plan = 2.
Proof.
  eexists. split; [vm_compute; reflexivity|].
  eapply (λ H, proj1 (warm_deadline_sufficient demo_settings None
    (λ _ _, [{| wp_name := "coingecko"; wp_routing_timeout_seconds := Some 30%Q;
                wp_minimum_request_interval_seconds := Some 20%Q |};
             {| wp_name := "kraken"; wp_routing_timeout_seconds := None;
                wp_minimum_request_interval_seconds := None |}])
    (demo_generation [demo_metered]) ["ETH:USDC"] _ H)).
  vm_compute. reflexivity.
Defined.
