(* ===== verification/CatalogActivation.v ===== *)
(** * Activating a catalogue ([_commit_catalog_activation] of [service.py])

    The transaction that moves the file of the catalogue, the runtime
    generation and the collector together: the lease on the file, the prepared
    market state, the start of the new collector, the change of the file, the
    pointer, the release of the lease; and the handler that takes all of it back
    when something fails before that release.

    How what the service awaits ends (the start of a collector, the write of the
    file, a cancellation) is an argument.  Between two awaited steps other tasks
    run: each [pause] takes their steps from a list, over which the theorems
    quantify.  A collector is the part of [MarketDataCoordinator] that the
    handler reads or writes; its tasks are not modelled, and of
    [reconcile_generation] and [rollback_reconciliation] only what they do to the
    target.  A cancellation that strikes the handler while it waits for the file
    is not modelled either, nor the task that watches the new collector. *)

From S2P Require Import Prelude PyStr PyState PyDecimal PyTime Domain PluginApi Registry Runtime AdminAccount Cache.
From S2P Require Import ApiKeys Service ServiceFacts ServiceCandidate Catalog CatalogDocument CatalogStore CatalogEdits.
From S2P Require Import CatalogStoreFacts.

Local Open Scope string_scope.
Local Open Scope list_scope.
Local Open Scope Z_scope.

(** ** Collectors *)

Record collector_object := {
  cl_registry : Registry;
  cl_generation_id : string;
  cl_running : bool;
  cl_closed : bool;
}.

Definition set_target (target : Registry * string) (c : collector_object) : collector_object :=
  {| cl_registry := target.1; cl_generation_id := target.2; cl_running := cl_running c; cl_closed := cl_closed c |}.

Definition set_running (running : bool) (c : collector_object) : collector_object :=
  {| cl_registry := cl_registry c; cl_generation_id := cl_generation_id c; cl_running := running;
     cl_closed := cl_closed c |}.

Definition close_collector (c : collector_object) : collector_object :=
  {| cl_registry := cl_registry c; cl_generation_id := cl_generation_id c; cl_running := false; cl_closed := true |}.

(** [is_running]: the supervisor is there and not done; closing drops it. *)
Definition is_running (c : collector_object) : bool := cl_running c && negb (cl_closed c).

Definition target_of (c : collector_object) : Registry * string := (cl_registry c, cl_generation_id c).

(** ** The state of a run *)

(** What other tasks do while the service waits: requests on the store,
    publications, and collectors whose supervisor ends. *)
Record interference := {
  in_requests : list store_op;
  in_publications : list (RuntimeGeneration * nat * publication);
  in_ended : list nat;
}.

(** The store, the service with its collectors, and the variables of the
    method: the lease, whether the file was committed and with which snapshot,
    and the target a collector was taken from. *)
Record activation_run := {
  ar_store : InstrumentPolicyStore;
  ar_service : Service;
  ar_collectors : list collector_object;
  ar_coordinator : option nat;
  ar_others : list interference;
  ar_transition_token : option TransitionToken;
  ar_file_committed : bool;
  ar_file_snapshot : option catalog_snapshot_data;
  ar_previous_target : option (Registry * string);
  ar_reconciliation : option (Registry * string);
}.

Definition set_ar_store (v : InstrumentPolicyStore) (r : activation_run) : activation_run :=
  {| ar_store := v; ar_service := ar_service r; ar_collectors := ar_collectors r; ar_coordinator := ar_coordinator r;
     ar_others := ar_others r; ar_transition_token := ar_transition_token r;
     ar_file_committed := ar_file_committed r; ar_file_snapshot := ar_file_snapshot r;
     ar_previous_target := ar_previous_target r; ar_reconciliation := ar_reconciliation r |}.

Definition set_ar_service (v : Service) (r : activation_run) : activation_run :=
  {| ar_store := ar_store r; ar_service := v; ar_collectors := ar_collectors r; ar_coordinator := ar_coordinator r;
     ar_others := ar_others r; ar_transition_token := ar_transition_token r;
     ar_file_committed := ar_file_committed r; ar_file_snapshot := ar_file_snapshot r;
     ar_previous_target := ar_previous_target r; ar_reconciliation := ar_reconciliation r |}.

Definition set_ar_collectors (v : list collector_object) (r : activation_run) : activation_run :=
  {| ar_store := ar_store r; ar_service := ar_service r; ar_collectors := v; ar_coordinator := ar_coordinator r;
     ar_others := ar_others r; ar_transition_token := ar_transition_token r;
     ar_file_committed := ar_file_committed r; ar_file_snapshot := ar_file_snapshot r;
     ar_previous_target := ar_previous_target r; ar_reconciliation := ar_reconciliation r |}.

Definition set_ar_coordinator (v : option nat) (r : activation_run) : activation_run :=
  {| ar_store := ar_store r; ar_service := ar_service r; ar_collectors := ar_collectors r; ar_coordinator := v;
     ar_others := ar_others r; ar_transition_token := ar_transition_token r;
     ar_file_committed := ar_file_committed r; ar_file_snapshot := ar_file_snapshot r;
     ar_previous_target := ar_previous_target r; ar_reconciliation := ar_reconciliation r |}.

Definition set_ar_others (v : list interference) (r : activation_run) : activation_run :=
  {| ar_store := ar_store r; ar_service := ar_service r; ar_collectors := ar_collectors r;
     ar_coordinator := ar_coordinator r; ar_others := v; ar_transition_token := ar_transition_token r;
     ar_file_committed := ar_file_committed r; ar_file_snapshot := ar_file_snapshot r;
     ar_previous_target := ar_previous_target r; ar_reconciliation := ar_reconciliation r |}.

Definition set_ar_transition_token (v : option TransitionToken) (r : activation_run) : activation_run :=
  {| ar_store := ar_store r; ar_service := ar_service r; ar_collectors := ar_collectors r;
     ar_coordinator := ar_coordinator r; ar_others := ar_others r; ar_transition_token := v;
     ar_file_committed := ar_file_committed r; ar_file_snapshot := ar_file_snapshot r;
     ar_previous_target := ar_previous_target r; ar_reconciliation := ar_reconciliation r |}.

(** [file_snapshot = snapshot; file_committed = True] *)
Definition set_ar_committed (v : catalog_snapshot_data) (r : activation_run) : activation_run :=
  {| ar_store := ar_store r; ar_service := ar_service r; ar_collectors := ar_collectors r;
     ar_coordinator := ar_coordinator r; ar_others := ar_others r; ar_transition_token := ar_transition_token r;
     ar_file_committed := true; ar_file_snapshot := Some v;
     ar_previous_target := ar_previous_target r; ar_reconciliation := ar_reconciliation r |}.

Definition set_ar_previous_target (v : option (Registry * string)) (r : activation_run) : activation_run :=
  {| ar_store := ar_store r; ar_service := ar_service r; ar_collectors := ar_collectors r;
     ar_coordinator := ar_coordinator r; ar_others := ar_others r; ar_transition_token := ar_transition_token r;
     ar_file_committed := ar_file_committed r; ar_file_snapshot := ar_file_snapshot r;
     ar_previous_target := v; ar_reconciliation := ar_reconciliation r |}.

Definition set_ar_reconciliation (v : option (Registry * string)) (r : activation_run) : activation_run :=
  {| ar_store := ar_store r; ar_service := ar_service r; ar_collectors := ar_collectors r;
     ar_coordinator := ar_coordinator r; ar_others := ar_others r; ar_transition_token := ar_transition_token r;
     ar_file_committed := ar_file_committed r; ar_file_snapshot := ar_file_snapshot r;
     ar_previous_target := ar_previous_target r; ar_reconciliation := v |}.

(** How the steps of other code end. *)
Record cleanup_outcome := {
  cu_interrupted : bool;           (* the job is cancelled while it waits for the clean-up *)
  cu_stopped : result unit;        (* how the replaced collector stops *)
  cu_finalized : result unit;      (* how [finalize_reconciliation] ends *)
}.

Record activation_env := {
  en_lease_id : string;
  en_uuid : string;
  en_now : Z;
  en_published_at : Z;
  en_lease_interrupted : bool;
  en_restored : result (option restored_market);
  en_started : result unit;
  en_write : write_outcome;
  en_write_interrupted : bool;
  en_read_interrupted : bool;
  en_applied_interrupted : bool;
  en_reconciled : result unit;
  en_confirmed : result unit;
  en_cleanup : cleanup_outcome;
  en_rolled_back : result unit;
  en_stopped : result unit;
  en_restore_write : write_outcome;
}.

(** The arguments of [_commit_catalog_activation].  The catalogue and the plan
    of a generation are identities here, as in [Runtime]. *)
Record activation := {
  ac_operation : string;
  ac_expected_file_revision : string;
  ac_target_revision : string;
  ac_target : option Z;
  ac_registry : Registry;
  ac_route_plan : option Z;
  ac_generation_id : string;
  ac_warmed : list warmed_item;
  ac_candidate_coordinator : option nat;
  ac_reconcile_provider_names : option (list string);
}.

Section activation.
Context `{ServiceWorld, ManagedPrimitives}.
Context (catalog : Registry).

Definition run_others (i : interference) (r : activation_run) : activation_run :=
  set_ar_collectors (foldl (λ l k, alter (set_running false) k l) (ar_collectors r) (in_ended i))
    (set_ar_service (publish_mixed (in_publications i) (ar_service r))
       (set_ar_store (foldl (run_op catalog) (ar_store r) (in_requests i)) r)).

(** Waiting: the next of the other tasks' turns. *)
Definition pause : comp activation_run unit := modify (λ r,
  match ar_others r with
  | [] => r
  | i :: l => set_ar_others l (run_others i r)
  end).

Definition on_store {A} (m : comp InstrumentPolicyStore A) : comp activation_run A := λ r,
  let x := m (ar_store r) in (set_ar_store x.1 r, x.2).

Definition on_service {A} (m : comp Service A) : comp activation_run A := λ r,
  let x := m (ar_service r) in (set_ar_service x.1 r, x.2).

Definition interrupt (b : bool) : comp activation_run unit := lift (raise_if b CancelledError).

(** The collector a location holds, and a call that writes to it. *)
Definition collector_at (k : nat) : comp activation_run collector_object := λ r,
  match ar_collectors r !! k with
  | Some c => (r, Ok c)
  | None => (r, Raise (OtherError "AttributeError"))
  end.

Definition write_collector (k : nat) (f : collector_object → collector_object) : comp activation_run unit :=
  modify (λ r, set_ar_collectors (alter f k (ar_collectors r)) r).

(** [MarketDataCoordinator.adopt_generation] *)
Definition adopt_generation (k : nat) (target : Registry * string) : comp activation_run (Registry * string) :=
  c ← collector_at k;
  _ ← lift (raise_if (negb (is_running c) || cl_closed c)
              (RuntimeError "only a running collector can adopt a generation"));
  _ ← write_collector k (set_target target);
  mret (target_of c).

(** [stop]: a collector that is closed stays so; one that fails to stop has lost
    its supervisor. *)
Definition stop_collector (k : nat) (outcome : result unit) : comp activation_run unit :=
  c ← collector_at k;
  if cl_closed c then mret tt
  else
    match outcome with
    | Ok _ => write_collector k close_collector
    | Raise e => _ ← write_collector k (set_running false); raise e
    end.

(** The target that [reconcile_generation] sets; it takes its own steps back when
    it fails. *)
Definition reconcile_generation (k : nat) (target : Registry * string) (outcome : result unit)
    : comp activation_run (Registry * string) :=
  c ← collector_at k;
  _ ← lift outcome;
  _ ← write_collector k (set_target target);
  mret (target_of c).

(** [rollback_reconciliation]: the target is restored before its tasks are
    started again, which may fail. *)
Definition rollback_reconciliation (k : nat) (target : Registry * string) (outcome : result unit)
    : comp activation_run unit :=
  _ ← write_collector k (set_target target);
  lift outcome.

(** [except Exception: log]; a [CancelledError] is none. *)
Definition is_exception (e : exn) : bool :=
  match e with NamedError cls _ => negb (bool_decide (cls = "CancelledError")) | _ => true end.

Definition logged (m : comp activation_run unit) : comp activation_run unit :=
  try_except is_exception m (λ _, mret tt).

(** ** What the arguments mean *)

Definition reusing (a : activation) (previous_coordinator : option nat) : bool :=
  bool_decide (is_Some (ac_candidate_coordinator a) ∧ ac_candidate_coordinator a = previous_coordinator).

Definition reconciling (a : activation) (previous_coordinator : option nat) : bool :=
  bool_decide (is_Some (ac_reconcile_provider_names a) ∧ is_Some (ac_candidate_coordinator a) ∧
               is_Some previous_coordinator ∧ ac_candidate_coordinator a ≠ previous_coordinator).

Definition fresh_start (a : activation) (previous_coordinator : option nat) : bool :=
  bool_decide (is_Some (ac_candidate_coordinator a)) && negb (reusing a previous_coordinator) &&
  negb (reconciling a previous_coordinator).

Definition active_coordinator (a : activation) (previous_coordinator : option nat) : option nat :=
  if reconciling a previous_coordinator then previous_coordinator else ac_candidate_coordinator a.

(** The symbols of the new registry that the old one lacks. *)
Definition retained_symbols (a : activation) (previous : RuntimeGeneration) : list string :=
  sorted_set (List.filter (λ x, bool_decide (x ∉ Registry.symbols (gn_registry previous)))
                (Registry.symbols (ac_registry a))).

(** The request on the file. *)
Definition file_transition (a : activation) : result catalog_edit :=
  if decide (ac_operation a = "activate") then Ok (ActivateStaged (Some (ac_target_revision a)))
  else if decide (ac_operation a = "rollback") then Ok Rollback
  else Raise (ValueError "unsupported catalog activation operation").

(** ** Up to the change of the file *)

Definition acquire_lease (a : activation) (e : activation_env) : comp activation_run TransitionToken :=
  token ← on_store (capture_transition catalog (ac_expected_file_revision a) (en_lease_id e));
  _ ← modify (set_ar_transition_token (Some token));
  _ ← pause;
  _ ← interrupt (en_lease_interrupted e);
  mret token.

(** The storage is asked only when symbols come back. *)
Definition prepare_candidate (a : activation) (e : activation_env) (previous : RuntimeGeneration)
    : comp activation_run nat :=
  let retained := retained_symbols a previous in
  restored ← (if decide (retained = []) then mret None else lift (en_restored e));
  _ ← pause;
  on_service (prepare_runtime_state (ac_registry a) (ac_warmed a) retained restored (en_now e) (en_published_at e)).

Definition start_candidate (a : activation) (e : activation_env) (previous_coordinator : option nat)
    : comp activation_run unit :=
  match ac_candidate_coordinator a with
  | Some k =>
    if fresh_start a previous_coordinator then
      _ ← collector_at k;
      _ ← write_collector k (set_running true);
      _ ← pause;
      lift (en_started e)
    else mret tt
  | None => mret tt
  end.

(** The file takes the target; the interruption is raised once the write ended. *)
Definition move_file (a : activation) (e : activation_env) (token : TransitionToken)
    : comp activation_run catalog_snapshot_data :=
  request ← lift (file_transition a);
  snapshot ← on_store (edit catalog request (ac_expected_file_revision a) (Some token) (en_write e));
  _ ← modify (set_ar_committed snapshot);
  _ ← pause;
  _ ← interrupt (en_write_interrupted e);
  mret snapshot.

(** What is on disk is what was warmed. *)
Definition confirm_file (a : activation) (e : activation_env) (snapshot : catalog_snapshot_data)
    : comp activation_run unit :=
  _ ← interrupt (en_read_interrupted e);
  active ← on_store (active_generation catalog);
  _ ← lift (raise_if (negb (bool_decide (cg_revision active = ac_target_revision a)))
              (RuntimeError "persisted catalog does not match the warmed generation"));
  _ ← pause;
  _ ← lift (raise_if (negb (truthy (sd_revision snapshot)))
              (RuntimeError "catalog commit did not return an exact file revision"));
  _ ← interrupt (en_applied_interrupted e);
  _ ← on_store (mark_runtime_applied catalog (Some (sd_revision snapshot)));
  pause.

(** ** The pointer *)

Definition hand_over (a : activation) (e : activation_env) (previous_coordinator : option nat)
    : comp activation_run unit :=
  let target := (ac_registry a, ac_generation_id a) in
  match ac_candidate_coordinator a, previous_coordinator with
  | Some k, _ =>
    if reusing a previous_coordinator then
      former ← adopt_generation k target;
      modify (set_ar_previous_target (Some former))
    else
      match previous_coordinator with
      | Some p =>
        if reconciling a previous_coordinator then
          former ← reconcile_generation p target (en_reconciled e);
          _ ← modify (set_ar_reconciliation (Some former));
          pause
        else mret tt
      | None => mret tt
      end
  | None, _ => mret tt
  end.

(** The assignments between the change of the file and the release of the lease;
    nothing else runs meanwhile. *)
Definition switch (a : activation) (e : activation_env) (loc : nat) (coordinator : option nat)
    : comp activation_run unit :=
  _ ← on_service (activate_runtime_generation (ac_registry a) (ac_target_revision a) (ac_target a)
                    (ac_route_plan a) (Some loc) (Some (ac_generation_id a)) (en_uuid e) (en_now e));
  _ ← on_service (bind_runtime_state loc);
  _ ← modify (set_ar_coordinator coordinator);
  on_service (modify (set_sv_collector_start_error None)).

Definition confirm_reconciliation (e : activation_env) : comp activation_run unit :=
  token ← gets ar_reconciliation;
  match token with
  | Some _ => _ ← pause; lift (en_confirmed e)
  | None => mret tt
  end.

Definition release_lease (snapshot : catalog_snapshot_data) : comp activation_run unit :=
  token ← gets ar_transition_token;
  _ ← on_store (commit_transition token (sd_revision snapshot));
  modify (set_ar_transition_token None).

(** ** After the release *)

(** What leaves the [try] around a clean-up that is shielded from the
    cancellation of the job: its own failure is logged, unless the job was
    cancelled, and a clean-up that was cancelled is raised. *)
Definition cleanup_escape (interrupted : bool) (outcome : result unit) : result unit :=
  match outcome with
  | Ok _ => Ok tt
  | Raise err => if interrupted || negb (is_exception err) then Raise err else Ok tt
  end.

(** The error of a computation, as a value. *)
Definition error_of (m : comp activation_run unit) : comp activation_run (option exn) := λ r,
  ((m r).1, Ok (match (m r).2 with Ok _ => None | Raise err => Some err end)).

(** [_retire_coordinator]: only a cancellation of the stop is raised again. *)
Definition retire_coordinator (k : nat) (stopped : result unit) : comp activation_run unit :=
  stop_error ← error_of (stop_collector k stopped);
  running ← gets (λ r, match ar_collectors r !! k with Some c => is_running c | None => false end);
  _ ← lift (raise_if running (RuntimeError "retired collector remained active after forced shutdown"));
  match stop_error with
  | Some err => lift (raise_if (negb (is_exception err)) err)
  | None => mret tt
  end.

(** A reconciliation that is being finalized can no longer be rolled back. *)
Definition clean_up (a : activation) (e : activation_env) (previous_coordinator : option nat)
    : comp activation_run unit :=
  token ← gets ar_reconciliation;
  match token with
  | Some _ =>
    _ ← modify (set_ar_reconciliation None);
    _ ← pause;
    lift (cleanup_escape (cu_interrupted (en_cleanup e)) (cu_finalized (en_cleanup e)))
  | None =>
    match previous_coordinator with
    | Some p =>
      if decide (active_coordinator a previous_coordinator = Some p) then mret tt
      else
        _ ← pause;
        outcome ← error_of (retire_coordinator p (cu_stopped (en_cleanup e)));
        lift (cleanup_escape (cu_interrupted (en_cleanup e))
                match outcome with None => Ok tt | Some err => Raise err end)
    | None => mret tt
    end
  end.

Definition finalize_locally (a : activation) (loc : nat) : comp activation_run unit :=
  on_service (try_except is_exception
    (_ ← publish_warmed_history (ac_warmed a);
     _ ← retain_symbols loc (Registry.symbols (ac_registry a));
     persist_warmed_instruments loc (ac_warmed a))
    (λ _, modify (set_sv_storage_ready false))).

(** The body of the [try]: up to the release, and after it. *)
Definition commit_body (a : activation) (e : activation_env) (previous : RuntimeGeneration)
    (previous_coordinator : option nat) : comp activation_run nat :=
  token ← acquire_lease a e;
  loc ← prepare_candidate a e previous;
  _ ← start_candidate a e previous_coordinator;
  snapshot ← move_file a e token;
  _ ← confirm_file a e snapshot;
  _ ← hand_over a e previous_coordinator;
  _ ← switch a e loc (active_coordinator a previous_coordinator);
  _ ← confirm_reconciliation e;
  _ ← release_lease snapshot;
  mret loc.

(** ** The handler *)

Definition restore_generation (previous : RuntimeGeneration) (e : activation_env) : comp activation_run unit :=
  current ← on_service (gets capture_generation);
  if decide (gn_generation_id current = gn_generation_id previous) then mret tt
  else
    _ ← on_service (λ s,
          let m := activate (sv_generations s) (gn_registry previous) (gn_revision previous) (gn_catalog previous)
                     (gn_route_plan previous) (gn_data_state previous) (Some (gn_generation_id previous))
                     (en_uuid e) (en_now e) in
          (set_sv_generations m.1 s, Ok tt));
    loc ← on_service (g ← gets capture_generation; state_for_generation g);
    on_service (bind_runtime_state loc).

Definition restore_history (previous : RuntimeGeneration) : comp activation_run unit :=
  on_service (modify (λ s,
    set_sv_history (HistoryCache.retain_symbols (sv_history s) (Registry.symbols (gn_registry previous))).1 s)).

(** The target goes back to the collector that adopted it; assigned where the
    collector does not run any more. *)
Definition restore_target (a : activation) (previous_coordinator : option nat) : comp activation_run unit :=
  former ← gets ar_previous_target;
  match ac_candidate_coordinator a, former with
  | Some k, Some target =>
    if reusing a previous_coordinator
    then try_except is_exception (_ ← adopt_generation k target; mret tt) (λ _, write_collector k (set_target target))
    else mret tt
  | _, _ => mret tt
  end.

Definition restore_reconciliation (e : activation_env) (previous_coordinator : option nat) : comp activation_run unit :=
  token ← gets ar_reconciliation;
  match token, previous_coordinator with
  | Some target, Some p => _ ← pause; logged (rollback_reconciliation p target (en_rolled_back e))
  | _, _ => mret tt
  end.

Definition stop_candidate (a : activation) (e : activation_env) (previous_coordinator : option nat)
    : comp activation_run unit :=
  match ac_candidate_coordinator a with
  | Some k =>
    if decide (Some k = previous_coordinator) then mret tt
    else _ ← pause; logged (stop_collector k (en_stopped e))
  | None => mret tt
  end.

Definition restore_file (e : activation_env) : comp activation_run unit :=
  r ← gets id;
  match ar_transition_token r, ar_file_snapshot r with
  | Some token, Some snapshot =>
    if ar_file_committed r then
      logged (_ ← pause;
              restored ← on_store (restore_transition catalog (Some token) (sd_revision snapshot) (en_restore_write e));
              _ ← pause;
              _ ← on_store (mark_runtime_applied catalog (Some (sd_revision restored)));
              modify (set_ar_transition_token None))
    else mret tt
  | _, _ => mret tt
  end.

Definition abort_lease : comp activation_run unit :=
  token ← gets ar_transition_token;
  match token with
  | Some t =>
    logged (_ ← pause;
            _ ← on_store (abort_transition (Some t));
            modify (set_ar_transition_token None))
  | None => mret tt
  end.

Definition take_back (a : activation) (e : activation_env) (previous : RuntimeGeneration)
    (previous_coordinator : option nat) (start_error : option exn) : comp activation_run unit :=
  _ ← restore_generation previous e;
  _ ← restore_history previous;
  _ ← restore_target a previous_coordinator;
  _ ← restore_reconciliation e previous_coordinator;
  _ ← modify (set_ar_coordinator previous_coordinator);
  _ ← on_service (modify (set_sv_collector_start_error start_error));
  _ ← stop_candidate a e previous_coordinator;
  _ ← restore_file e;
  abort_lease.

(** [_commit_catalog_activation] *)
Definition commit_catalog_activation (a : activation) (e : activation_env) : comp activation_run unit :=
  previous ← on_service (gets capture_generation);
  previous_coordinator ← gets ar_coordinator;
  start_error ← on_service (gets sv_collector_start_error);
  try_except (λ _, true)
    (loc ← commit_body a e previous previous_coordinator;
     _ ← clean_up a e previous_coordinator;
     finalize_locally a loc)
    (λ err, _ ← take_back a e previous previous_coordinator start_error; raise err).

End activation.
