(* ===== verification/CatalogActivationFacts.v ===== *)
(** * Theorems on the activation of a catalogue

    The activation is a transaction over three resources that fail apart: the
    file, the runtime generation and the collector.  Whatever step fails, and
    whatever other tasks do meanwhile, either all three move to the target or
    all three stay, as long as the write of the file and the clean-up after the
    commit behave; where they do not, two theorems show what is left behind. *)

From S2P Require Import Prelude PyStr PyState PyDecimal PyTime Domain PluginApi Registry Runtime AdminAccount Cache.
From S2P Require Import ApiKeys Service ServiceFacts ServiceCandidate Catalog CatalogDocument CatalogStore CatalogEdits.
From S2P Require Import CatalogDemo CatalogDocumentFacts CatalogStoreFacts CatalogActivation.

Local Open Scope string_scope.
Local Open Scope list_scope.
Local Open Scope Z_scope.

(** ** What a step keeps *)

Lemma run_bind_eq {A B} (m : comp activation_run A) (k : A → comp activation_run B) r :
  (m ≫= k) r = match (m r).2 with Ok x => k x (m r).1 | Raise e => ((m r).1, Raise e) end.
Proof. apply comp_bind_eq. Qed.

Lemma same_store r : set_ar_store (ar_store r) r = r.
Proof. by destruct r. Qed.

Lemma reading_ext `{ManagedPrimitives} catalog s s' :
  ps_path s' = ps_path s → ps_parent_mode s' = ps_parent_mode s → reading catalog s' = reading catalog s.
Proof. unfold reading. by intros -> ->. Qed.

Lemma capture_transition_raises `{ManagedPrimitives} catalog rev id s err :
  (capture_transition catalog rev id s).2 = Raise err → (capture_transition catalog rev id s).1 = s.
Proof.
  unfold capture_transition. rewrite comp_bind_eq. cbn [gets fst snd]. rewrite comp_bind_eq. unfold lift. cbn [fst snd].
  destruct (raise_if _ _); [|done]. rewrite comp_bind_eq, read_locked_eq. cbn [fst snd].
  destruct (reading catalog s) as [[c d]|]; [|done]. rewrite comp_bind_eq. unfold assert_content. cbn [fst snd].
  by destruct (raise_if _ _).
Qed.

(** ** What fails with an exception *)

(** A computation that raises nothing but exceptions, of which a cancellation is none. *)
Definition only_exceptions {S A} (m : comp S A) : Prop := ∀ s err, (m s).2 = Raise err → is_exception err = true.

Lemma only_bind {S A B} (m : comp S A) (k : A → comp S B) :
  only_exceptions m → (∀ x, only_exceptions (k x)) → only_exceptions (m ≫= k).
Proof.
  intros Hm Hk s err. rewrite comp_bind_eq. destruct (m s).2 eqn:E; [apply Hk|]. intros [= ->]. by eapply Hm.
Qed.

Lemma only_ok {S A} (m : comp S A) : (∀ s, is_ok (m s).2) → only_exceptions m.
Proof. intros Hm s err Herr. destruct (Hm s). congruence. Qed.

Lemma only_for_each {S A} (f : A → comp S unit) l : (∀ x, only_exceptions (f x)) → only_exceptions (for_each f l).
Proof. intros Hf. induction l; [by apply only_ok; intros; eexists|]. by apply only_bind. Qed.

Lemma only_warm_point item : only_exceptions (lift (S := Service) (warm_point item)).
Proof.
  intros s err. unfold lift, warm_point, PricePoint_init. cbn. destruct (bool_decide (float_representable _)); cbn; [|by intros [= <-]].
  destruct (bool_decide (is_pos _)); cbn; [done|by intros [= <-]].
Qed.

Lemma only_history_add p : only_exceptions (history_add p).
Proof.
  intros s err. unfold history_add, HistoryCache.add. repeat case_decide; cbn; try done. by intros [= <-].
Qed.

Ltac only_raises :=
  repeat first
    [ apply only_bind; [|intros ?] | apply only_for_each; intros ? | apply only_warm_point | apply only_history_add
    | by (apply only_ok; intros ?; eexists) | by (intros ? ? [= <-]) | progress case_match ].

Lemma only_finalization `{ServiceWorld} loc symbols warmed :
  only_exceptions (_ ← publish_warmed_history warmed; _ ← retain_symbols loc symbols; persist_warmed_instruments loc warmed).
Proof.
  unfold publish_warmed_history, retain_symbols, persist_warmed_instruments, persist_warmed_item, persist_yield_metric.
  only_raises.
Qed.

Ltac destruct_is_Some := match goal with Hs : is_Some None |- _ => by destruct Hs end.

Section transaction.
Context `{ServiceWorld, ManagedPrimitives}.
Context (catalog : Registry) (a : activation) (e : activation_env) (r0 : activation_run).

Let previous : RuntimeGeneration := capture_generation (ar_service r0).
Let pc : option nat := ar_coordinator r0.
Let s0 : InstrumentPolicyStore := ar_store r0.
Let lease : string := en_lease_id e.

(** The state in which the method is called: its variables are fresh, the
    generation that serves has a market state, the new one has an id of its
    own, the directory of the file is protected, and nobody else uses the id of
    the lease. *)
Record startable : Prop := {
  sa_token : ar_transition_token r0 = None;
  sa_committed : ar_file_committed r0 = false;
  sa_snapshot : ar_file_snapshot r0 = None;
  sa_previous_target : ar_previous_target r0 = None;
  sa_reconciliation : ar_reconciliation r0 = None;
  sa_state : ∃ loc, gn_data_state previous = Some loc ∧ (loc < length (sv_states (ar_service r0)))%nat;
  sa_previous_id : truthy (gn_generation_id previous) = true;
  sa_target_id : truthy (ac_generation_id a) = true;
  sa_fresh_id : ac_generation_id a ≠ gn_generation_id previous;
  sa_parent : writable_by_others (ps_parent_mode s0) = false;
  sa_others : Forall (λ i, Forall (foreign lease) (in_requests i)) (ar_others r0);
}.

(** What the theorems ask of the outcomes.  A digest has 64 characters.  The
    write of the target either happens or leaves the file alone, what it writes
    can be read back, and the write that restores succeeds; what stops, rolls back
    or finalizes a collector fails with an exception, not with a second
    cancellation, and the last not when the job is cancelled meanwhile. *)
Record orderly : Prop := {
  or_digest : ∀ text, String.length (cp_sha256 text) = 64%nat;
  or_write : ∀ err, en_write e ≠ WriteFailed true err;
  or_read_back : ∀ content doc request updated content',
    reading catalog s0 = Ok (content, doc) → file_transition a = Ok request →
    edited catalog request doc = Ok updated → serialize_catalog_document updated = Ok content' →
    is_ok (load_catalog_document content' catalog);
  or_restore : en_restore_write e = Written;
  or_rolled_back : ∀ err, en_rolled_back e = Raise err → is_exception err = true;
  or_stopped : ∀ err, en_stopped e = Raise err → is_exception err = true;
  or_retired : ∀ err, cu_stopped (en_cleanup e) = Raise err → is_exception err = true;
  or_finalized : ∀ err, cu_finalized (en_cleanup e) = Raise err →
    is_exception err = true ∧ cu_interrupted (en_cleanup e) = false;
}.

Hypothesis Hstart : startable.
Hypothesis Horder : orderly.

(** *** The file *)

(** A request that one of the other tasks makes. *)
Definition allowed (op : store_op) : Prop := foreign lease op ∧ op ∈ concat (in_requests <$> ar_others r0).

Lemma others_allowed : Forall (λ i, Forall allowed (in_requests i)) (ar_others r0).
Proof.
  apply Forall_forall. intros i Hi. apply Forall_forall. intros op Hop. split.
  - pose proof (sa_others Hstart) as Ho. rewrite Forall_forall in Ho. specialize (Ho i Hi). rewrite Forall_forall in Ho. by apply Ho.
  - apply list_elem_of_In, in_concat. exists (in_requests i). split; [|by apply list_elem_of_In].
    apply list_elem_of_In, list_elem_of_fmap. by exists i.
Qed.


(** Before the lease is released: nothing happened, or the lease is held and
    the file is the former one or what the snapshot describes. *)
Definition lease_state (r : activation_run) : Prop :=
  match ar_transition_token r with
  | None => ar_store r = s0 ∧ ar_file_committed r = false
  | Some t =>
    ps_transition_id (ar_store r) = Some lease ∧ tk_lease_id t = lease ∧ ps_transition_id s0 = None ∧
    ps_parent_mode (ar_store r) = ps_parent_mode s0 ∧ tk_revision t = revision (tk_content t) ∧
    (∃ doc, reading catalog s0 = Ok (tk_content t, doc)) ∧
    if ar_file_committed r
    then ∃ snap c, ar_file_snapshot r = Some snap ∧ sd_revision snap = revision c ∧
                   read_bytes (ps_path (ar_store r)) MAX_CATALOG_FILE_BYTES = Ok c
    else ps_path (ar_store r) = ps_path s0
  end.

(** After the release only the other tasks change the file; what the handler
    still does is to note the applied revision and to drop a lease. *)
Definition settling (op : store_op) : Prop :=
  op ∈ concat (in_requests <$> ar_others r0) ∨ match op with OpApplied _ | OpAbort _ => True | _ => False end.

Definition since (P : InstrumentPolicyStore → Prop) (s : InstrumentPolicyStore) : Prop :=
  ∃ released requests, P released ∧ Forall settling requests ∧ s = foldl (run_op catalog) released requests.

Definition file_restored : InstrumentPolicyStore → Prop :=
  since (λ s, ps_transition_id s = ps_transition_id s0 ∧ reading catalog s = reading catalog s0).

(** *** The collector *)

Definition target_at (r : activation_run) (k : nat) : option (Registry * string) :=
  target_of <$> ar_collectors r !! k.

(** The collector that serves has its former target, or the variable of the
    method that will give it back. *)
Definition collectors_state (r : activation_run) : Prop :=
  (reusing a pc = false → ar_previous_target r = None) ∧ (reconciling a pc = false → ar_reconciliation r = None) ∧
  ∀ p, pc = Some p →
  match (if reusing a pc then ar_previous_target r else ar_reconciliation r) with
  | Some target => target_at r0 p = Some target ∧ is_Some (target_at r p)
  | None => target_at r p = target_at r0 p
  end.

(** *** The whole *)

Record undoable (r : activation_run) : Prop := {
  ud_generation : sv_generations (ar_service r) = sv_generations (ar_service r0) ∨
                  gn_generation_id (capture_generation (ar_service r)) = ac_generation_id a;
  ud_states : (length (sv_states (ar_service r0)) ≤ length (sv_states (ar_service r)))%nat;
  ud_lease : lease_state r;
  ud_collectors : collectors_state r;
  ud_others : Forall (λ i, Forall allowed (in_requests i)) (ar_others r);
}.

(** Before the switch. *)
Definition unswitched (r : activation_run) : Prop :=
  undoable r ∧ sv_generations (ar_service r) = sv_generations (ar_service r0).

Lemma undoable_start : unswitched r0.
Proof.
  split; [|done]. split; [by left|done| | |apply others_allowed].
  - unfold lease_state. rewrite (sa_token Hstart). split; [done|apply Hstart].
  - unfold collectors_state. rewrite (sa_previous_target Hstart), (sa_reconciliation Hstart).
    split_and!; [done..|]. intros p _. by destruct (reusing a pc).
Qed.

(** *** Waiting *)

Definition quiet_locals (r r' : activation_run) : Prop :=
  ar_coordinator r' = ar_coordinator r ∧ ar_transition_token r' = ar_transition_token r ∧
  ar_file_committed r' = ar_file_committed r ∧ ar_file_snapshot r' = ar_file_snapshot r ∧
  ar_previous_target r' = ar_previous_target r ∧ ar_reconciliation r' = ar_reconciliation r.

Lemma ended_keeps {A} (f : collector_object → A) ended : (∀ c, f (set_running false c) = f c) →
  ∀ (l : list collector_object) k,
  f <$> foldl (λ l k, alter (set_running false) k l) l ended !! k = f <$> l !! k.
Proof.
  intros Hf. induction ended as [|j ended IH]; intros l k; [done|]. cbn [foldl]. rewrite IH.
  destruct (decide (j = k)) as [->|Hj]; [|by rewrite list_lookup_alter_ne].
  rewrite list_lookup_alter_eq. destruct (l !! k); cbn; [by rewrite Hf|done].
Qed.

(** What the turns of other tasks leave. *)
Record turned (r r' : activation_run) : Prop := {
  tu_locals : quiet_locals r r';
  tu_generations : sv_generations (ar_service r') = sv_generations (ar_service r);
  tu_states : length (sv_states (ar_service r')) = length (sv_states (ar_service r));
  tu_targets : ∀ k, target_at r' k = target_at r k;
  tu_closed : ∀ k, cl_closed <$> ar_collectors r' !! k = cl_closed <$> ar_collectors r !! k;
  tu_store : ∃ requests, Forall allowed requests ∧ ar_store r' = foldl (run_op catalog) (ar_store r) requests;
  tu_others : Forall (λ i, Forall allowed (in_requests i)) (ar_others r');
}.

Lemma pause_turned r : Forall (λ i, Forall allowed (in_requests i)) (ar_others r) →
  ∃ r', pause catalog r = (r', Ok tt) ∧ turned r r'.
Proof.
  intros Ho. unfold pause, modify. eexists. split; [done|]. destruct (ar_others r) as [|i l] eqn:E.
  { split; [done..| |by rewrite E]. exists []. done. }
  apply Forall_cons in Ho as [Hi Hl]. unfold run_others. cbn.
  split; cbn; [done|apply mixed_keeps|apply mixed_keeps| | |by exists (in_requests i)|done].
  all: intros k; by apply ended_keeps.
Qed.

(** With the lease held the file stays as it is. *)
Lemma turned_store r r' t :
  turned r r' → ar_transition_token r = Some t → ps_transition_id (ar_store r) = Some lease →
  ps_transition_id (ar_store r') = Some lease ∧ ps_parent_mode (ar_store r') = ps_parent_mode (ar_store r) ∧
  ps_path (ar_store r') = ps_path (ar_store r).
Proof.
  intros [_ _ _ _ _ (requests & Hf & ->) _] _ Hid.
  assert (Forall (foreign lease) requests) as Hf' by (eapply Forall_impl; [exact Hf|]; by intros op [? _]).
  destruct (harmless_steps catalog lease requests (ar_store r) Hid) as (H1 & H2 & H3); [|by auto].
  eapply Forall_impl; [exact Hf'|]. by intros op [? _].
Qed.

Lemma turned_undoable r r' : turned r r' → is_Some (ar_transition_token r) → undoable r → undoable r'.
Proof.
  intros Ht [t Htok] [Hg Hs Hl Hc Ho]. pose proof Ht as [(Hco & Htk & Hfc & Hfs & Hpt & Hre) Hg' Hs' Htg _ _ Ho'].
  split; [|lia| | |done].
  - unfold capture_generation in *. by rewrite Hg'.
  - unfold lease_state in *. rewrite Htk, Htok in *. destruct Hl as (Hid & Hlease & Hfree & Hmode & Hrev & Hread & Hfile).
    destruct (turned_store _ _ t Ht Htok Hid) as (Hid' & Hmode' & Hpath'). rewrite Hfc, Hfs, Hpath'.
    split_and!; try done. congruence.
  - destruct Hc as (H1 & H2 & H3). unfold collectors_state. rewrite Hpt, Hre. split_and!; [done..|].
    intros p Hp. specialize (H3 p Hp). destruct (if reusing a pc then _ else _); by rewrite Htg.
Qed.

Lemma turned_unswitched r r' : turned r r' → is_Some (ar_transition_token r) → unswitched r → unswitched r'.
Proof. intros Ht Htok [Hu Hg]. split; [by eapply turned_undoable|]. by rewrite (tu_generations _ _ Ht). Qed.

(** *** The steps of the body *)

(** A computation of the body: with the lease [t] held it keeps what can be
    taken back, and establishes [Q] when it returns. *)
Definition held (t : TransitionToken) (r : activation_run) : Prop := unswitched r ∧ ar_transition_token r = Some t.

Lemma wp_pause r (Q : activation_run → result unit → Prop) :
  Forall (λ i, Forall allowed (in_requests i)) (ar_others r) →
  (∀ r', turned r r' → Q r' (Ok tt)) → wp (pause catalog) Q r.
Proof. intros Ho HQ. destruct (pause_turned r Ho) as (r' & Hp & Ht). unfold wp. rewrite Hp. by apply HQ. Qed.

Lemma turned_held t r r' : turned r r' → held t r → held t r'.
Proof.
  intros Ht [Hu Htok]. split; [eapply turned_unswitched; [done|by eexists|done]|].
  destruct (tu_locals _ _ Ht) as (_ & -> & _). done.
Qed.

Lemma held_others t r : held t r → Forall (λ i, Forall allowed (in_requests i)) (ar_others r).
Proof. intros [[[] _] _]. done. Qed.

Lemma wp_collector_at k r (Q : activation_run → result collector_object → Prop) :
  (∀ c, ar_collectors r !! k = Some c → Q r (Ok c)) →
  (ar_collectors r !! k = None → ∀ err, is_exception err = true → Q r (Raise err)) → wp (collector_at k) Q r.
Proof. intros H1 H2. unfold wp, collector_at. destruct (ar_collectors r !! k); [by apply H1|by apply H2]. Qed.

(** A write that leaves the target of a collector. *)
Lemma alter_target f k r j : (∀ c, target_of (f c) = target_of c) →
  target_at (set_ar_collectors (alter f k (ar_collectors r)) r) j = target_at r j.
Proof.
  intros Hf. unfold target_at. cbn. destruct (decide (k = j)) as [->|Hj]; [|by rewrite list_lookup_alter_ne].
  rewrite list_lookup_alter_eq. destruct (ar_collectors r !! j); cbn; [by rewrite Hf|done].
Qed.

Lemma retarget_undoable l r : (∀ k, target_of <$> l !! k = target_at r k) →
  undoable r → undoable (set_ar_collectors l r).
Proof.
  intros Hl [Hg Hs Hlease (H1 & H2 & H3) Ho]. split; [done..| |done]. split_and!; [done..|].
  intros p Hp. specialize (H3 p Hp). change (target_at (set_ar_collectors l r) p) with (target_of <$> l !! p).
  rewrite Hl. done.
Qed.

Lemma retarget_held t l r : (∀ k, target_of <$> l !! k = target_at r k) → held t r → held t (set_ar_collectors l r).
Proof. intros Hl [[Hu Hg] Htok]. split; [split; [by apply retarget_undoable|done]|done]. Qed.

Lemma acquire_lease_wp :
  wp (acquire_lease catalog a e)
    (λ r res, match res with Ok t => held t r ∧ ar_file_committed r = false | Raise _ => unswitched r end) r0.
Proof.
  unfold acquire_lease. apply wp_bind. unfold wp at 1, on_store. cbn [fst snd].
  destruct (capture_transition catalog _ _ (ar_store r0)) as [s' res] eqn:Hcap. destruct res as [t|err]; cbn [fst snd].
  2: { pose proof (capture_transition_raises catalog (ac_expected_file_revision a) (en_lease_id e) (ar_store r0) err) as Hs.
       rewrite Hcap in Hs. cbn in Hs. rewrite Hs by done. rewrite same_store. apply undoable_start. }
  destruct (capture_transition_ok _ _ _ _ _ _ Hcap) as (Hfree & -> & content & doc & Hr & _ & ->).
  apply wp_bind, wp_modify. apply wp_bind. set (t := {| tk_content := content |}).
  set (r1 := set_ar_transition_token _ _).
  assert (held t r1 ∧ ar_file_committed r1 = false) as [Hh Hc].
  { pose proof undoable_start as [[_ _ _ Hcol Hoth] _]. subst r1. split; [|apply Hstart]. split; [|done]. split; [|done].
    split; [by left|done| |done|done]. unfold lease_state. cbn. rewrite (sa_committed Hstart).
    split_and!; try done. by exists doc. }
  apply wp_pause; [by eapply held_others|]. intros r2 Ht. pose proof (turned_held _ _ _ Ht Hh) as Hh2.
  assert (ar_file_committed r2 = false) by (destruct (tu_locals _ _ Ht) as (_ & _ & -> & _); done).
  apply wp_bind. unfold interrupt. apply wp_lift. destruct (raise_if _ _) as [[]|]; [|apply Hh2]. by apply wp_ret.
Qed.

Lemma prepare_candidate_wp t r : held t r → ar_file_committed r = false →
  wp (prepare_candidate catalog a e previous)
    (λ r' res, held t r' ∧ ar_file_committed r' = false) r.
Proof.
  intros Hh Hc. unfold prepare_candidate. apply wp_bind.
  assert (∀ m : result (option restored_market), wp (if decide (retained_symbols a previous = []) then mret None else lift m)
            (λ r' res, r' = r) r) as Hrest by (intros m; by case_decide).
  eapply wp_mono; [|apply Hrest]. intros ? [restored|] ->; [|done]. apply wp_bind, wp_pause; [by eapply held_others|].
  intros r1 Ht. pose proof (turned_held _ _ _ Ht Hh) as [[[Hg Hs Hl Hcol Ho] Hgen] Htok].
  assert (ar_file_committed r1 = false) by (destruct (tu_locals _ _ Ht) as (_ & _ & -> & _); done).
  unfold wp, on_service. cbn [fst snd].
  set (retained := retained_symbols a previous).
  pose proof (prepare_apart (ar_service r1) (list_to_set retained) (ac_registry a) (ac_warmed a) retained restored
                (en_now e) (en_published_at e) eq_refl) as [Hgens _ _ _ Hstates _].
  split; [|done]. split; [|done]. split; [|cbn; congruence]. split; [left; cbn; congruence| |done|done|done].
  cbn. etransitivity; [exact Hs|]. apply not_lt. intros Hlt.
  set (n := length (sv_states _)) in Hlt. specialize (Hstates n Hlt). unfold state_at in Hstates.
  destruct (lookup_lt_is_Some_2 (sv_states (ar_service r1)) n Hlt) as [st Hst]. rewrite Hst in Hstates.
  apply lookup_lt_Some in Hstates. lia.
Qed.

Lemma start_candidate_wp t r : held t r → ar_file_committed r = false →
  wp (start_candidate catalog a e pc) (λ r' res, held t r' ∧ ar_file_committed r' = false) r.
Proof.
  intros Hh Hc. unfold start_candidate. destruct (ac_candidate_coordinator a) as [k|]; [|done].
  destruct (fresh_start a pc); [|done]. apply wp_bind, wp_collector_at; [|done]. intros c _.
  apply wp_bind, wp_modify. set (r1 := set_ar_collectors _ r).
  assert (held t r1) as Hh1 by (apply retarget_held; [|done]; intros j; by apply (alter_target (set_running true) k r j)).
  apply wp_bind, wp_pause; [by eapply held_others|]. intros r2 Ht. apply wp_lift.
  split; [by eapply turned_held|]. destruct (tu_locals _ _ Ht) as (_ & _ & -> & _). done.
Qed.

(** *** The file moves *)

Lemma held_lease t r : held t r →
  ps_transition_id (ar_store r) = Some lease ∧ tk_lease_id t = lease ∧ ps_transition_id s0 = None ∧
  ps_parent_mode (ar_store r) = ps_parent_mode s0 ∧ writable_by_others (ps_parent_mode (ar_store r)) = false ∧
  (ar_file_committed r = false → ps_path (ar_store r) = ps_path s0).
Proof.
  intros [[[_ _ Hl _ _] _] Htok]. unfold lease_state in Hl. rewrite Htok in Hl.
  destruct Hl as (H1 & H2 & H3 & H4 & _ & _ & H5). split_and!; try done; [by rewrite H4; apply Hstart|].
  intros Hc. by rewrite Hc in H5.
Qed.

(** A store with the same file and lease. *)
Lemma held_store t r s' : held t r → ps_transition_id s' = ps_transition_id (ar_store r) →
  ps_parent_mode s' = ps_parent_mode (ar_store r) → ps_path s' = ps_path (ar_store r) → held t (set_ar_store s' r).
Proof.
  intros [[[Hg Hs Hl Hc Ho] Hgen] Htok] H1 H2 H3. split; [|done]. split; [|done]. split; try done.
  unfold lease_state in *. cbn. rewrite Htok in *. by rewrite H1, H2, H3.
Qed.

Lemma edit_file t r request : held t r → ar_file_committed r = false → file_transition a = Ok request →
  let x := edit catalog request (ac_expected_file_revision a) (Some t) (en_write e) (ar_store r) in
  (x.1 = ar_store r ∧ ∃ err, x.2 = Raise err) ∨
  ∃ snap c, x.2 = Ok snap ∧ x.1 = written c (ar_store r) ∧ sd_revision snap = revision c ∧
            read_bytes (ps_path x.1) MAX_CATALOG_FILE_BYTES = Ok c.
Proof.
  intros Hh Hc Hreq. cbv zeta. destruct (held_lease t r Hh) as (Hid & Htl & _ & Hmode & Hparent & Hpath).
  specialize (Hpath Hc). unfold edit.
  set (token := match request with ActivateStaged _ | Rollback => Some t | _ => None end).
  destruct (replace_document catalog (ac_expected_file_revision a) token (en_write e) (edited catalog request) (ar_store r))
    as [s' res] eqn:E. cbn [fst snd].
  destruct (replace_document_cases _ _ _ _ _ _ _ _ E) as [[-> [err ->]]|(content & doc & updated & content' & Had & _)];
    [left; eauto|].
  rewrite (replace_document_admitted catalog _ _ _ _ _ _ _ _ _ Had) in E. destruct Had as [Hr _ _ Hf Hser].
  rewrite (reading_ext catalog s0 (ar_store r) Hpath Hmode) in Hr.
  destruct (en_write e) as [|[] err] eqn:Hw; [|by destruct (or_write Horder err)|left; injection E as <- <-; eauto].
  destruct (or_read_back Horder content doc request updated content' Hr Hreq Hf Hser) as [[doc' stale] Hload].
  pose proof (serialized _ _ Hser) as (_ & Hsize & _).
  pose proof (reading_written catalog (ar_store r) content' doc' stale Hparent Hsize Hload) as Hread.
  rewrite catalog_snapshot_eq, Hread in E. injection E as <- <-. right. do 2 eexists. split_and!; [done..|].
  by destruct (reading_path _ _ _ _ Hread) as (_ & _ & ?).
Qed.

Definition moved (t : TransitionToken) (snap : catalog_snapshot_data) (r : activation_run) : Prop :=
  held t r ∧ ar_file_committed r = true ∧ ar_file_snapshot r = Some snap.

Lemma turned_moved t snap r r' : turned r r' → moved t snap r → moved t snap r'.
Proof.
  intros Ht (Hh & Hc & Hs). destruct (tu_locals _ _ Ht) as (_ & _ & Hc' & Hs' & _). split_and!; [|congruence..].
  by eapply turned_held.
Qed.

Lemma moved_unswitched t snap r : moved t snap r → unswitched r.
Proof. by intros [[? _] _]. Qed.

Lemma move_file_wp t r : held t r → ar_file_committed r = false →
  wp (move_file catalog a e t)
    (λ r' res, match res with Ok snap => moved t snap r' | Raise _ => unswitched r' end) r.
Proof.
  intros Hh Hc. unfold move_file. apply wp_bind, wp_lift. destruct (file_transition a) as [request|] eqn:Hreq; [|apply Hh].
  apply wp_bind. unfold wp at 1, on_store. cbn [fst snd].
  destruct (edit_file t r request Hh Hc Hreq) as [[-> [err ->]]|(snap & c & -> & Hst & Hrev & Hbytes)].
  { rewrite same_store. apply Hh. }
  apply wp_bind, wp_modify. set (x := edit _ _ _ _ _ _) in *. set (r1 := set_ar_committed _ _).
  assert (moved t snap r1) as Hm.
  { destruct Hh as [[[Hg Hs Hl Hcol Ho] Hgen] Htok]. split; [|done]. split; [|done]. split; [|done]. split; try done.
    unfold lease_state in *. cbn. rewrite Htok in *. destruct Hl as (H1 & H2 & H3 & H4 & H5 & H6 & _).
    rewrite Hst in *. split_and!; try done. by exists snap, c. }
  apply wp_bind, wp_pause; [eapply held_others, Hm|]. intros r2 Ht. pose proof (turned_moved _ _ _ _ Ht Hm) as Hm2.
  apply wp_bind. unfold interrupt. apply wp_lift. destruct (raise_if _ _) as [[]|]; [by apply wp_ret|].
  by eapply moved_unswitched.
Qed.

(** The active generation on disk is the target. *)
Definition confirmed (r : activation_run) : Prop :=
  ∃ c doc, reading catalog (ar_store r) = Ok (c, doc) ∧ cg_revision (cd_active doc) = ac_target_revision a.

Lemma turned_confirmed t r r' : turned r r' → held t r → confirmed r → confirmed r'.
Proof.
  intros Ht Hh (c & doc & Hr & Hrev). exists c, doc. split; [|done].
  destruct (held_lease t r Hh) as (Hid & _). destruct (turned_store r r' t Ht ltac:(apply Hh) Hid) as (_ & Hm & Hp).
  by rewrite (reading_ext catalog (ar_store r)).
Qed.

Lemma mark_runtime_applied_keeps rev s :
  let s' := (mark_runtime_applied catalog rev s).1 in
  ps_transition_id s' = ps_transition_id s ∧ ps_parent_mode s' = ps_parent_mode s ∧ ps_path s' = ps_path s.
Proof.
  cbv zeta. unfold mark_runtime_applied. rewrite comp_bind_eq, read_file_eq. cbn [fst snd].
  destruct (read_bytes _ _) as [c|]; [|done]. rewrite comp_bind_eq. unfold lift. cbn [fst snd].
  destruct (raise_if _ _); [|done]. rewrite comp_bind_eq. cbn [fst snd].
  by destruct (load_catalog_document c catalog).
Qed.

Lemma confirm_file_wp t snap r : moved t snap r →
  wp (confirm_file catalog a e snap)
    (λ r' res, match res with Ok _ => moved t snap r' ∧ confirmed r' | Raise _ => unswitched r' end) r.
Proof.
  intros Hm. pose proof (moved_unswitched _ _ _ Hm) as Hu. unfold confirm_file.
  apply wp_bind. unfold interrupt at 1. apply wp_lift. destruct (raise_if _ _) as [[]|]; [|done].
  apply wp_bind. unfold wp at 1, on_store, active_generation. rewrite comp_bind_eq, read_locked_eq. cbn [fst snd].
  destruct (reading catalog (ar_store r)) as [[c doc]|] eqn:Hr; cbn [fst snd mret comp_ret]; rewrite same_store; [|done].
  apply wp_bind, wp_lift. destruct (bool_decide (cg_revision (cd_active doc) = ac_target_revision a)) eqn:Hrev;
    cbn [negb raise_if]; [|done]. apply bool_decide_eq_true in Hrev.
  assert (confirmed r) as Hcon by (by exists c, doc).
  apply wp_bind, wp_pause; [eapply held_others, Hm|]. intros r1 Ht1.
  pose proof (turned_confirmed t _ _ Ht1 ltac:(apply Hm) Hcon) as Hcon1. pose proof (turned_moved _ _ _ _ Ht1 Hm) as Hm1.
  pose proof (moved_unswitched _ _ _ Hm1) as Hu1.
  apply wp_bind, wp_lift. destruct (raise_if _ _) as [[]|]; [|done].
  apply wp_bind. unfold interrupt at 1. apply wp_lift. destruct (raise_if _ _) as [[]|]; [|done].
  apply wp_bind. unfold wp at 1, on_store. cbn [fst snd].
  destruct (mark_runtime_applied_keeps (Some (sd_revision snap)) (ar_store r1)) as (K1 & K2 & K3).
  set (x := mark_runtime_applied _ _ _) in *. set (r2 := set_ar_store x.1 r1).
  assert (moved t snap r2) as Hm2 by (destruct Hm1 as (Hh1 & ? & ?); split_and!; [by apply held_store|done|done]).
  assert (confirmed r2) as Hcon2.
  { destruct Hcon1 as (c1 & doc1 & Hr1 & Hrev1). exists c1, doc1. split; [|done]. subst r2. cbn. by rewrite (reading_ext catalog (ar_store r1)). }
  destruct x.2 as [[]|]; [|by eapply moved_unswitched].
  apply wp_pause; [eapply held_others, Hm2|]. intros r3 Ht3. split; [by eapply turned_moved|].
  eapply turned_confirmed; [done|apply Hm2|done].
Qed.

(** *** The pointer moves *)

(** The running collector that goes on serving has the new target. *)
Definition handed (r : activation_run) : Prop :=
  ∀ k, active_coordinator a pc = Some k → reusing a pc = true ∨ reconciling a pc = true →
  target_at r k = Some (ac_registry a, ac_generation_id a).

Lemma turned_handed r r' : turned r r' → handed r → handed r'.
Proof. intros Ht Hh k Hk Hor. rewrite (tu_targets _ _ Ht). by apply Hh. Qed.

Lemma reusing_reconciling : reusing a pc = true → reconciling a pc = false.
Proof.
  unfold reusing, reconciling. rewrite bool_decide_eq_true, bool_decide_eq_false. intros [_ Heq] (_ & _ & _ & Hne). done.
Qed.

(** The file has moved and what is on disk was confirmed. *)
Definition ready (t : TransitionToken) (snap : catalog_snapshot_data) (r : activation_run) : Prop :=
  moved t snap r ∧ confirmed r.

Lemma turned_ready t snap r r' : turned r r' → ready t snap r → ready t snap r'.
Proof. intros Ht [Hm Hc]. split; [by eapply turned_moved|]. eapply turned_confirmed; [done|apply Hm|done]. Qed.

(** A collector takes the new target, and a variable keeps the former one. *)
Lemma retarget_ready t snap r r' k former :
  ready t snap r → pc = Some k → former = target_at r0 k → is_Some former →
  (if reusing a pc then ar_previous_target r' else ar_reconciliation r') = former →
  (reusing a pc = false → ar_previous_target r' = None) → (reconciling a pc = false → ar_reconciliation r' = None) →
  ar_store r' = ar_store r → ar_service r' = ar_service r → ar_transition_token r' = ar_transition_token r →
  ar_file_committed r' = ar_file_committed r → ar_file_snapshot r' = ar_file_snapshot r → ar_others r' = ar_others r →
  is_Some (target_at r' k) → ready t snap r'.
Proof.
  intros [(([[Hg Hs Hl Hc Ho] Hgen] & Htok) & Hfc & Hfs) Hcon] Hpc Hformer [x Hx] Hvar Hv1 Hv2 E1 E2 E3 E4 E5 E6 Hk.
  assert (lease_state r') as Hl' by (unfold lease_state in *; by rewrite E1, E3, E4, E5).
  split; [|by unfold confirmed; rewrite E1]. split_and!; [|congruence..]. split; [|congruence]. split; [|by rewrite E2].
  split; [left; by rewrite E2|by rewrite E2|done| |by rewrite E6]. split_and!; [done..|]. intros p Hp.
  assert (p = k) as -> by congruence. rewrite Hvar, Hx. split; [by rewrite <- Hformer|done].
Qed.

Lemma wp_adopt k target r (Q : activation_run → result (Registry * string) → Prop) :
  (∀ err, is_exception err = true → Q r (Raise err)) →
  (∀ c, ar_collectors r !! k = Some c → Q (set_ar_collectors (alter (set_target target) k (ar_collectors r)) r) (Ok (target_of c))) →
  wp (adopt_generation k target) Q r.
Proof.
  intros Hraise Hok. unfold adopt_generation. apply wp_bind, wp_collector_at; [|by auto]. intros c Hc.
  apply wp_bind, wp_lift. destruct (negb _ || _); [by apply Hraise|]. apply wp_bind, wp_modify, wp_ret. by apply Hok.
Qed.

Lemma alter_target_eq target k r c : ar_collectors r !! k = Some c →
  target_at (set_ar_collectors (alter (set_target target) k (ar_collectors r)) r) k = Some target.
Proof. intros Hc. unfold target_at. cbn. rewrite list_lookup_alter_eq, Hc. cbn. by destruct target. Qed.

(** Where nothing was taken from a collector, it has its former target. *)
Lemma untouched_target t r p : held t r → pc = Some p →
  (if reusing a pc then ar_previous_target r else ar_reconciliation r) = None → target_at r p = target_at r0 p.
Proof. intros [[[_ _ _ (_ & _ & Hc) _] _] _] Hp Hnone. specialize (Hc p Hp). by rewrite Hnone in Hc. Qed.

Lemma hand_over_wp t snap r : ready t snap r → ar_previous_target r = None → ar_reconciliation r = None →
  wp (hand_over catalog a e pc)
    (λ r' res, match res with Ok _ => ready t snap r' ∧ handed r' | Raise _ => unswitched r' end) r.
Proof.
  intros Hr Hnone1 Hnone2. pose proof (moved_unswitched _ _ _ (proj1 Hr)) as Hu. unfold hand_over.
  assert (reusing a pc = false → reconciling a pc = false → handed r) as Hno by (intros ? ? k _ [?|?]; congruence).
  destruct (ac_candidate_coordinator a) as [k|] eqn:Hcand.
  2: { split; [done|]. apply Hno; unfold reusing, reconciling; apply bool_decide_eq_false; rewrite Hcand; intros Hb;
       destruct_and?; by destruct_is_Some. }
  destruct (reusing a pc) eqn:Hreu.
  - pose proof (reusing_reconciling Hreu) as Hrec.
    assert (pc = Some k) as Hpc by (unfold reusing in Hreu; apply bool_decide_eq_true in Hreu; rewrite Hcand in Hreu; by destruct Hreu).
    apply wp_bind, wp_adopt; [done|]. intros c Hc. apply wp_modify.
    pose proof (untouched_target t r k (proj1 (proj1 Hr)) Hpc ltac:(by rewrite Hreu)) as Htarget.
    set (r' := set_ar_previous_target _ _).
    assert (target_at r' k = Some (ac_registry a, ac_generation_id a)) as Hk by (eapply alter_target_eq; done).
    split; [|intros j Hj _; unfold active_coordinator in Hj; rewrite Hrec, Hcand in Hj; by injection Hj as <-].
    apply (retarget_ready t snap r r' k (Some (target_of c))); rewrite ?Hreu; try done.
    rewrite <- Htarget. unfold target_at. by rewrite Hc.
  - destruct pc as [p|] eqn:Hpc; [|split; [done|]; apply Hno; [done|]; unfold reconciling; rewrite bool_decide_eq_false; intros Hb; destruct_and?; by destruct_is_Some].
    destruct (reconciling a (Some p)) eqn:Hrec; [|split; [done|by apply Hno]].
    apply wp_bind. unfold reconcile_generation. apply wp_bind, wp_collector_at; [|done]. intros c Hc.
    apply wp_bind, wp_lift. destruct (en_reconciled e) as [[]|]; [|done]. apply wp_bind, wp_modify, wp_ret.
    apply wp_bind, wp_modify.
    pose proof (untouched_target t r p (proj1 (proj1 Hr)) Hpc ltac:(by rewrite Hpc, Hreu)) as Htarget.
    set (r' := set_ar_reconciliation _ _).
    assert (target_at r' p = Some (ac_registry a, ac_generation_id a)) as Hk by (eapply alter_target_eq; done).
    assert (ready t snap r') as Hr'.
    { apply (retarget_ready t snap r r' p (Some (target_of c))); rewrite ?Hpc, ?Hreu; try done; [|by rewrite Hrec].
      rewrite <- Htarget. unfold target_at. by rewrite Hc. }
    apply wp_pause; [eapply held_others, Hr'|]. intros r2 Ht. split; [by eapply turned_ready|].
    eapply turned_handed; [done|]. intros j Hj _. unfold active_coordinator in Hj. rewrite Hpc, Hrec in Hj. by injection Hj as <-.
Qed.

Definition target_generation (loc : nat) (g : RuntimeGeneration) : Prop :=
  gn_generation_id g = ac_generation_id a ∧ gn_registry g = ac_registry a ∧ gn_revision g = ac_target_revision a ∧
  gn_catalog g = ac_target a ∧ gn_route_plan g = ac_route_plan a ∧ gn_data_state g = Some loc.

(** The target serves. *)
Definition serving (loc : nat) (r : activation_run) : Prop :=
  target_generation loc (capture_generation (ar_service r)) ∧ ar_coordinator r = active_coordinator a pc ∧ handed r.

Lemma turned_serving loc r r' : turned r r' → serving loc r → serving loc r'.
Proof.
  intros Ht (Hg & Hc & Hh). split_and!; [|by destruct (tu_locals _ _ Ht) as (-> & _)|by eapply turned_handed].
  unfold capture_generation. by rewrite (tu_generations _ _ Ht).
Qed.

Record switched (t : TransitionToken) (snap : catalog_snapshot_data) (loc : nat) (r : activation_run) : Prop := {
  sw_undoable : undoable r;
  sw_token : ar_transition_token r = Some t;
  sw_committed : ar_file_committed r = true;
  sw_snapshot : ar_file_snapshot r = Some snap;
  sw_confirmed : confirmed r;
  sw_serving : serving loc r;
}.

Lemma turned_switched t snap loc r r' : turned r r' → switched t snap loc r → switched t snap loc r'.
Proof.
  intros Ht [Hu Htok Hfc Hfs Hcon Hserve]. pose proof (tu_locals _ _ Ht) as (_ & Htk & Hfc' & Hfs' & _).
  split; [eapply turned_undoable; [done|by eexists|done]|congruence..| |by eapply turned_serving].
  destruct Hcon as (c & doc & Hr & Hrev). exists c, doc. split; [|done].
  pose proof (ud_lease _ Hu) as Hl. unfold lease_state in Hl. rewrite Htok in Hl. destruct Hl as (Hid & _).
  destruct (turned_store r r' t Ht Htok Hid) as (_ & Hm & Hp). by rewrite (reading_ext catalog (ar_store r)).
Qed.

Lemma switch_wp t snap loc r : ready t snap r → handed r →
  wp (switch a e loc (active_coordinator a pc)) (λ r' res, res = Ok tt ∧ switched t snap loc r') r.
Proof.
  intros [(([[Hg Hs Hl Hc Ho] Hgen] & Htok) & Hfc & Hfs) Hcon] Hh. unfold switch.
  unfold wp, on_service, activate_runtime_generation, swap_generation, bind_runtime_state, modify, mbind, comp_bind.
  cbn. split; [done|].
  pose proof (sa_target_id Hstart) as Hid.
  split; try done; [|split; [|split; [done|intros k Hk Hor; by apply Hh]]].
  - split; try done. right. cbn. by rewrite Hid.
  - unfold target_generation. cbn. by rewrite Hid.
Qed.

Lemma confirm_reconciliation_wp t snap loc r : switched t snap loc r →
  wp (confirm_reconciliation catalog e)
    (λ r' res, match res with Ok _ => switched t snap loc r' | Raise _ => undoable r' end) r.
Proof.
  intros Hsw. unfold confirm_reconciliation. apply wp_bind, wp_gets. destruct (ar_reconciliation r); [|by apply wp_ret].
  apply wp_bind, wp_pause; [apply Hsw|]. intros r' Ht. apply wp_lift.
  pose proof (turned_switched _ _ _ _ _ Ht Hsw) as Hsw'. destruct (en_confirmed e); [done|apply Hsw'].
Qed.

(** The lease is released with the target on disk and serving. *)
Record committed (loc : nat) (r : activation_run) : Prop := {
  cm_token : ar_transition_token r = None;
  cm_released : ps_transition_id (ar_store r) = None;
  cm_confirmed : confirmed r;
  cm_serving : serving loc r;
  cm_others : Forall (λ i, Forall allowed (in_requests i)) (ar_others r);
}.

Lemma commit_transition_ok t s c rev :
  ps_transition_id s = Some (tk_lease_id t) → read_bytes (ps_path s) MAX_CATALOG_FILE_BYTES = Ok c → rev = revision c →
  commit_transition (Some t) rev s = (set_transition None s, Ok tt).
Proof.
  intros Hid Hc ->. unfold commit_transition. rewrite comp_bind_eq, assert_transition_eq, Hid.
  rewrite bool_decide_eq_true_2 by (split; [by eexists|done]). cbn [negb raise_if fst snd].
  rewrite comp_bind_eq, read_file_eq, Hc. cbn [fst snd]. rewrite comp_bind_eq. unfold assert_content, lift. cbn [fst snd].
  unfold hmac_compare_revision. rewrite !bool_decide_eq_true_2 by (done || apply (or_digest Horder)). done.
Qed.

Lemma release_lease_wp t snap loc r : switched t snap loc r →
  wp (release_lease snap) (λ r' res, res = Ok tt ∧ committed loc r') r.
Proof.
  intros [Hu Htok Hfc Hfs Hcon Hserve]. pose proof (ud_lease _ Hu) as Hl. unfold lease_state in Hl.
  rewrite Htok, Hfc in Hl. destruct Hl as (Hid & Hlease & _ & _ & _ & _ & snap' & c & Hs & Hrev & Hbytes).
  rewrite Hfs in Hs. injection Hs as <-. unfold release_lease. apply wp_bind, wp_gets. rewrite Htok.
  apply wp_bind. unfold wp at 1, on_store. rewrite (commit_transition_ok t (ar_store r) c) by congruence.
  cbn [fst snd]. apply wp_modify. split; [done|]. split; [done|done| |exact Hserve|apply Hu].
  destruct Hcon as (c' & doc & Hr & Hrev'). exists c', doc. split; [|done].
  cbn. by rewrite (reading_ext catalog (ar_store r)).
Qed.

(** *** The variables of the reconciliation *)

Definition plain (r : activation_run) : Prop := ar_previous_target r = None ∧ ar_reconciliation r = None.

Lemma plain_modify f : (∀ r, ar_previous_target (f r) = ar_previous_target r ∧ ar_reconciliation (f r) = ar_reconciliation r) →
  keeps plain (modify f).
Proof. intros Hf r Hr. unfold plain in *. cbn. by destruct (Hf r) as [-> ->]. Qed.

Lemma plain_pause : keeps plain (pause catalog).
Proof. apply plain_modify. intros r. by destruct (ar_others r). Qed.

Lemma plain_pure {A} (m : comp activation_run A) : (∀ r, (m r).1 = r) → keeps plain m.
Proof. apply keeps_pure. Qed.

Ltac keep_plain :=
  repeat first
    [ apply keeps_bind; [|intros ?] | apply plain_pause | by apply plain_modify | by apply keeps_pure
    | by (intros ? [? ?]) | progress case_match ].

Lemma plain_collector_at k : keeps plain (collector_at k).
Proof. apply plain_pure. intros r. unfold collector_at. by destruct (_ !! k). Qed.

Lemma plain_prefix :
  keeps plain (acquire_lease catalog a e) ∧ keeps plain (prepare_candidate catalog a e previous) ∧
  keeps plain (start_candidate catalog a e pc) ∧ (∀ t, keeps plain (move_file catalog a e t)) ∧
  (∀ snap, keeps plain (confirm_file catalog a e snap)).
Proof.
  split_and!; unfold acquire_lease, prepare_candidate, start_candidate, move_file, confirm_file, interrupt, write_collector;
    intros; keep_plain; try apply plain_collector_at; keep_plain; case_decide; keep_plain.
Qed.

(** *** The body *)

Lemma wp_plain {A} (m : comp activation_run A) Q r :
  keeps plain m → plain r → wp m Q r → wp m (λ r' res, Q r' res ∧ plain r') r.
Proof. intros Hk Hp Hm. split; [done|by apply Hk]. Qed.

Lemma body_wp :
  wp (commit_body catalog a e previous pc)
    (λ r res, match res with Ok loc => committed loc r | Raise _ => undoable r end) r0.
Proof.
  destruct plain_prefix as (P1 & P2 & P3 & P4 & P5). unfold commit_body.
  assert (plain r0) as Hp0 by (split; apply Hstart).
  apply wp_bind. eapply wp_mono; [|apply wp_plain; [exact P1|exact Hp0|]; apply acquire_lease_wp].
  intros r1 [t|err] [H1 Hp1]; [|apply H1]. destruct H1 as [Hh1 Hc1].
  apply wp_bind. eapply wp_mono; [|apply wp_plain; [exact P2|exact Hp1|]; apply (prepare_candidate_wp t r1 Hh1 Hc1)].
  intros r2 [loc|err] [[Hh2 Hc2] Hp2]; [|apply Hh2].
  apply wp_bind. eapply wp_mono; [|apply wp_plain; [exact P3|exact Hp2|]; apply (start_candidate_wp t r2 Hh2 Hc2)].
  intros r3 [[]|err] [[Hh3 Hc3] Hp3]; [|apply Hh3].
  apply wp_bind. eapply wp_mono; [|apply wp_plain; [apply P4|exact Hp3|]; apply (move_file_wp t r3 Hh3 Hc3)].
  intros r4 [snap|err] [H4 Hp4]; [|apply H4].
  apply wp_bind. eapply wp_mono; [|apply wp_plain; [apply P5|exact Hp4|]; apply (confirm_file_wp t snap r4 H4)].
  intros r5 [[]|err] [H5 [Hp5 Hp5']]; [|apply H5].
  apply wp_bind. eapply wp_mono; [|apply (hand_over_wp t snap r5 H5 Hp5 Hp5')].
  intros r6 [[]|err]; [intros [Hr6 Hh6]|by intros [? _]].
  apply wp_bind. eapply wp_mono; [|apply (switch_wp t snap loc r6 Hr6 Hh6)]. intros r7 res7 [-> H7].
  apply wp_bind. eapply wp_mono; [|apply (confirm_reconciliation_wp t snap loc r7 H7)]. intros r8 [[]|err] H8; [|done].
  apply wp_bind. eapply wp_mono; [|apply (release_lease_wp t snap loc r8 H8)]. intros r9 res9 [-> H9]. by apply wp_ret.
Qed.

(** *** The handler *)

Definition former_generation (g : RuntimeGeneration) : Prop :=
  gn_generation_id g = gn_generation_id previous ∧ gn_registry g = gn_registry previous ∧
  gn_revision g = gn_revision previous ∧ gn_catalog g = gn_catalog previous ∧
  gn_route_plan g = gn_route_plan previous ∧ gn_data_state g = gn_data_state previous.

Definition file_state (r : activation_run) : Prop :=
  match ar_transition_token r with Some _ => lease_state r | None => file_restored (ar_store r) end.

Lemma since_now (P : InstrumentPolicyStore → Prop) s : P s → since P s.
Proof. intros HP. by exists s, []. Qed.

Lemma lease_state_file r : lease_state r → file_state r.
Proof.
  unfold file_state. destruct (ar_transition_token r) as [t|] eqn:Htok; [done|]. unfold lease_state. rewrite Htok.
  intros [-> _]. by apply since_now.
Qed.

Lemma since_requests P s requests : Forall settling requests → since P s → since P (foldl (run_op catalog) s requests).
Proof.
  intros Hf (released & l & HP & Hl & ->). exists released, (l ++ requests).
  split_and!; [done|by apply Forall_app|by rewrite foldl_app].
Qed.

Lemma since_op P s op : settling op → since P s → since P (run_op catalog s op).
Proof. intros Hop. apply (since_requests P s [op]). by constructor. Qed.

Lemma turned_since P r r' : turned r r' → since P (ar_store r) → since P (ar_store r').
Proof.
  intros Ht Hs. destruct (tu_store _ _ Ht) as (requests & Hf & ->). apply since_requests; [|done].
  eapply Forall_impl; [exact Hf|]. intros op [_ Hop]. by left.
Qed.

Lemma turned_lease r r' : turned r r' → is_Some (ar_transition_token r) → lease_state r → lease_state r'.
Proof.
  intros Ht [t Htok]. destruct (tu_locals _ _ Ht) as (_ & Htk & Hfc & Hfs & _). unfold lease_state.
  rewrite Htk, Hfc, Hfs, Htok. intros (Hid & Hrest). destruct (turned_store r r' t Ht Htok Hid) as (H1 & H2 & H3).
  by rewrite H1, H2, H3.
Qed.

Lemma turned_file r r' : turned r r' → file_state r → file_state r'.
Proof.
  intros Ht. unfold file_state. destruct (tu_locals _ _ Ht) as (_ & -> & _).
  destruct (ar_transition_token r) eqn:Htok; [apply turned_lease; [done|by eexists]|by apply turned_since].
Qed.

(** What the steps of the handler keep once the generation is back. *)
Record back (r : activation_run) : Prop := {
  bk_generation : former_generation (capture_generation (ar_service r));
  bk_file : file_state r;
  bk_others : Forall (λ i, Forall allowed (in_requests i)) (ar_others r);
}.

Lemma turned_back r r' : turned r r' → back r → back r'.
Proof.
  intros Ht [Hg Hf Ho]. split; [|by eapply turned_file|apply Ht].
  unfold capture_generation in *. by rewrite (tu_generations _ _ Ht).
Qed.

Lemma wp_on_service {A} (m : comp Service A) r (Q : activation_run → result A → Prop) :
  Q (set_ar_service (m (ar_service r)).1 r) (m (ar_service r)).2 → wp (on_service m) Q r.
Proof. done. Qed.

Lemma wp_service_gets {A} (f : Service → A) r (Q : activation_run → result A → Prop) :
  Q r (Ok (f (ar_service r))) → wp (on_service (gets f)) Q r.
Proof. by destruct r. Qed.

(** A step on the service that leaves its generations. *)
Lemma service_back s' r : sv_generations s' = sv_generations (ar_service r) → back r → back (set_ar_service s' r).
Proof. intros Hg [Hb Hf Ho]. split; [|done..]. unfold capture_generation in *. cbn. by rewrite Hg. Qed.

Lemma restore_generation_wp r : undoable r →
  wp (restore_generation previous e) (λ r' res, res = Ok tt ∧ back r' ∧ collectors_state r') r.
Proof.
  intros [Hg Hs Hl Hc Ho]. unfold restore_generation. apply wp_bind, wp_service_gets.
  case_decide as Hid.
  - apply wp_ret. split; [done|]. split; [|done]. split; [|by apply lease_state_file|done]. destruct Hg as [Hg|Hg].
    + unfold capture_generation. by rewrite Hg.
    + exfalso. apply (sa_fresh_id Hstart). congruence.
  - pose proof (sa_previous_id Hstart) as Hprev. destruct (sa_state Hstart) as (loc & Hloc & Hlt).
    apply wp_bind, wp_on_service. cbn [fst snd]. set (r1 := set_ar_service _ r).
    assert (former_generation (capture_generation (ar_service r1))) as Hformer
      by (unfold former_generation; cbn; by rewrite Hprev).
    assert (back r1) as Hb by (split; [done|by apply (lease_state_file r)|done]).
    apply wp_bind, wp_on_service. rewrite comp_bind_eq. cbn [gets fst snd].
    assert (state_for_generation (capture_generation (ar_service r1)) (ar_service r1) = (ar_service r1, Ok loc)) as Hstate.
    { destruct Hformer as (_ & _ & _ & _ & _ & Hdata). unfold state_for_generation. rewrite Hdata, Hloc.
      rewrite decide_True; [done|]. apply lookup_lt_is_Some_2. cbn. lia. }
    rewrite Hstate. cbn [fst snd]. apply wp_on_service. cbn [bind_runtime_state modify fst snd].
    split; [done|]. split; [|exact Hc]. apply service_back; [done|]. by apply service_back.
Qed.

(** A step that only fails with exceptions ends with its effect, logged or not. *)
Lemma wp_logged m (P : activation_run → Prop) r :
  wp m (λ r' res, P r' ∧ ∀ err, res = Raise err → is_exception err = true) r → wp (logged m) (λ r' res, res = Ok tt ∧ P r') r.
Proof.
  intros Hm. apply wp_try. eapply wp_mono; [|exact Hm]. intros r' [[]|err] [HP He]; [done|]. by rewrite (He err eq_refl).
Qed.

Lemma wp_logged_any m (P : activation_run → Prop) r : wp m (λ r' _, P r') r → wp (logged m) (λ r' _, P r') r.
Proof. intros Hm. apply wp_try. eapply wp_mono; [|exact Hm]. intros r' [[]|err] HP; [done|]. by destruct (is_exception err). Qed.

Definition former_target (r : activation_run) : Prop := ∀ p, pc = Some p → target_at r p = target_at r0 p.

Lemma turned_collectors r r' : turned r r' → collectors_state r → collectors_state r'.
Proof.
  intros Ht (H1 & H2 & H3). destruct (tu_locals _ _ Ht) as (_ & _ & _ & _ & Hpt & Hre). unfold collectors_state.
  rewrite Hpt, Hre. split_and!; [done..|]. intros p Hp. specialize (H3 p Hp).
  destruct (if reusing a pc then _ else _); by rewrite (tu_targets _ _ Ht).
Qed.

Lemma turned_former r r' : turned r r' → former_target r → former_target r'.
Proof. intros Ht Hf p Hp. rewrite (tu_targets _ _ Ht). by apply Hf. Qed.

Lemma collectors_back l r : back r → back (set_ar_collectors l r).
Proof. by intros [Hg Hf Ho]. Qed.

Lemma restore_target_wp r : back r → collectors_state r →
  wp (restore_target a pc) (λ r' res, res = Ok tt ∧ back r' ∧
    if reusing a pc then former_target r' ∧ ar_reconciliation r' = None else collectors_state r') r.
Proof.
  intros Hb Hc. unfold restore_target. apply wp_bind, wp_gets. destruct (reusing a pc) eqn:Hreu.
  2: { by destruct (ac_candidate_coordinator a), (ar_previous_target r). }
  pose proof Hc as (_ & Hrec & Hp). specialize (Hrec (reusing_reconciling Hreu)). rewrite Hreu in Hp.
  unfold reusing in Hreu. apply bool_decide_eq_true in Hreu as [[k Hk] Hpc]. rewrite Hk in *.
  specialize (Hp k (eq_sym Hpc)). destruct (ar_previous_target r) as [target|] eqn:Hprev.
  2: { apply wp_ret. split_and!; [done..| |done]. intros p Hpp. by assert (p = k) as -> by congruence. }
  destruct Hp as [Hformer Hsome]. assert (∃ c, ar_collectors r !! k = Some c) as [c Hcl].
  { unfold target_at in Hsome. destruct (ar_collectors r !! k) as [c|]; [by exists c|by destruct Hsome]. }
  assert (∀ r', r' = set_ar_collectors (alter (set_target target) k (ar_collectors r)) r →
            back r' ∧ former_target r' ∧ ar_reconciliation r' = None) as Hdone.
  { intros r' ->. split_and!; [by apply collectors_back| |done]. intros p Hpp. assert (p = k) as -> by congruence.
    rewrite Hformer. by eapply alter_target_eq. }
  apply wp_try, wp_bind, wp_adopt.
  - intros err ->. apply wp_modify. split; [done|by apply Hdone].
  - intros c' _. apply wp_ret. split; [done|by apply Hdone].
Qed.

(** Everything but the file and the candidate is as before. *)
Record undone (r : activation_run) : Prop := {
  un_back : back r;
  un_target : former_target r;
  un_coordinator : ar_coordinator r = pc;
}.

Lemma turned_undone r r' : turned r r' → undone r → undone r'.
Proof.
  intros Ht [Hb Hf Hc]. split; [by eapply turned_back|by eapply turned_former|].
  by destruct (tu_locals _ _ Ht) as (-> & _).
Qed.

Lemma restore_reconciliation_wp r :
  back r → (if reusing a pc then former_target r ∧ ar_reconciliation r = None else collectors_state r) →
  wp (restore_reconciliation catalog e pc) (λ r' res, res = Ok tt ∧ back r' ∧ former_target r') r.
Proof.
  intros Hb Hc. unfold restore_reconciliation. apply wp_bind, wp_gets.
  destruct (reusing a pc) eqn:Hreu; [destruct Hc as [Hf ->]; by apply wp_ret|].
  destruct Hc as (_ & _ & Hp). rewrite Hreu in Hp. destruct (ar_reconciliation r) as [target|]; [|by apply wp_ret].
  destruct pc as [p|] eqn:Hpc; [|apply wp_ret; split_and!; [done..|]; intros q Hq; congruence].
  destruct (Hp p eq_refl) as [Hformer Hsome].
  apply wp_bind, wp_pause; [apply Hb|]. intros r1 Ht. apply wp_logged. unfold rollback_reconciliation.
  apply wp_bind, wp_modify. apply wp_lift. split; [|apply Horder].
  split; [by eapply collectors_back, turned_back|]. intros q Hq. assert (q = p) as -> by congruence.
  rewrite <- (tu_targets _ _ Ht) in Hsome. unfold target_at in Hsome.
  destruct (ar_collectors r1 !! p) as [c|] eqn:Hcl; [|by destruct Hsome]. rewrite Hformer. by eapply alter_target_eq.
Qed.

(** A candidate of its own is closed, as far as the collector stops. *)
Definition candidate_closed (r : activation_run) : Prop :=
  ∀ k c, ac_candidate_coordinator a = Some k → Some k ≠ pc → is_ok (en_stopped e) →
  ar_collectors r !! k = Some c → cl_closed c = true.

(** A collector that was stopped, or could not be, keeps its target and runs no more. *)
Lemma stop_collector_wp k outcome r :
  wp (stop_collector k outcome) (λ r' res, ∃ l, r' = set_ar_collectors l r ∧
    (∀ j, target_of <$> l !! j = target_at r j) ∧
    (∀ c, l !! k = Some c → is_running c = false ∧ (is_ok outcome → cl_closed c = true)) ∧
    ∀ err, res = Raise err → outcome = Raise err ∨ is_exception err = true) r.
Proof.
  assert (r = set_ar_collectors (ar_collectors r) r) as Hsame by (by destruct r).
  unfold stop_collector. apply wp_bind, wp_collector_at; [intros c Hc|intros Hc err He].
  - destruct (cl_closed c) eqn:Hclosed.
    + apply wp_ret. exists (ar_collectors r). split_and!; [done..| |done]. intros c' Hc'. assert (c' = c) as -> by congruence.
      unfold is_running. by rewrite Hclosed, andb_false_r.
    + assert (∀ f, (∀ c, target_of (f c) = target_of c) → is_running (f c) = false → (is_ok outcome → cl_closed (f c) = true) →
                let l := alter f k (ar_collectors r) in (∀ j, target_of <$> l !! j = target_at r j) ∧
                ∀ c, l !! k = Some c → is_running c = false ∧ (is_ok outcome → cl_closed c = true)) as Hf.
      { intros f Hf1 Hf2 Hf3. split; [intros j; by apply (alter_target f k r j)|].
        intros c' Hc'. rewrite list_lookup_alter_eq, Hc in Hc'. by injection Hc' as <-. }
      destruct outcome as [[]|err].
      * apply wp_modify. destruct (Hf close_collector) as [? ?]; try done. eexists. by split_and!.
      * apply wp_bind, wp_modify, wp_raise. destruct (Hf (set_running false)) as [? ?]; try done; [by intros [? ?]|].
        eexists. split_and!; [done..|]. intros ? [= <-]. by left.
  - exists (ar_collectors r). split_and!; [done..| |]; [intros c' Hc'; congruence|]. intros ? [= <-]. by right.
Qed.

Lemma stop_candidate_wp r : undone r →
  wp (stop_candidate catalog a e pc) (λ r' res, res = Ok tt ∧ undone r' ∧ candidate_closed r') r.
Proof.
  intros Hu. unfold stop_candidate. destruct (ac_candidate_coordinator a) as [k|] eqn:Hk.
  2: { apply wp_ret. split_and!; [done..|]. intros k c Hk'. congruence. }
  case_decide as Heq; [apply wp_ret; split_and!; [done..|]; intros j c Hj; congruence|].
  apply wp_bind, wp_pause; [apply Hu|]. intros r1 Ht. pose proof (turned_undone _ _ Ht Hu) as [Hb Hf Hco].
  apply wp_logged. eapply wp_mono; [|apply stop_collector_wp]. intros r2 res (l & -> & Htarget & Hstopped & Hraise).
  split; [split|].
  - split; [by apply collectors_back| |done]. intros p Hp. rewrite <- Hf by done. apply Htarget.
  - intros j c Hj _ Hok Hc. assert (j = k) as -> by congruence. by apply (Hstopped c).
  - intros err Herr. destruct (Hraise err Herr) as [Hst|]; [by apply (or_stopped Horder)|done].
Qed.

(** What is back when the file is dealt with. *)
Record settled (r : activation_run) : Prop := {
  se_generation : former_generation (capture_generation (ar_service r));
  se_coordinator : ar_coordinator r = pc;
  se_target : former_target r;
  se_closed : candidate_closed r;
  se_others : Forall (λ i, Forall allowed (in_requests i)) (ar_others r);
}.

Lemma turned_settled r r' : turned r r' → settled r → settled r'.
Proof.
  intros Ht [Hg Hc Hf Hcl Ho]. split.
  - unfold capture_generation in *. by rewrite (tu_generations _ _ Ht).
  - by destruct (tu_locals _ _ Ht) as (-> & _).
  - by eapply turned_former.
  - intros k c Hk Hne Hok Hc'. pose proof (tu_closed _ _ Ht k) as Heq. rewrite Hc' in Heq.
    destruct (ar_collectors r !! k) as [c0|] eqn:Hc0; [|done]. injection Heq as ->. by apply (Hcl k c0).
  - apply Ht.
Qed.

(** A step on the file. *)
Lemma settled_frame r r' : ar_service r' = ar_service r → ar_coordinator r' = ar_coordinator r →
  ar_collectors r' = ar_collectors r → ar_others r' = ar_others r → settled r → settled r'.
Proof.
  intros E1 E2 E3 E4 [Hg Hc Hf Hcl Ho]. unfold former_target, candidate_closed, target_at in *.
  split; unfold former_target, candidate_closed, target_at; by rewrite ?E1, ?E2, ?E3, ?E4.
Qed.

Definition file_at_rest (r : activation_run) : Prop :=
  file_restored (ar_store r) ∨ is_Some (ar_transition_token r) ∧ lease_state r ∧ ar_file_committed r = false.

(** The writing back takes the lease with it. *)
Lemma lease_restored r t snap : lease_state r → ar_transition_token r = Some t → ar_file_committed r = true →
  ar_file_snapshot r = Some snap →
  wp (on_store (restore_transition catalog (Some t) (sd_revision snap) Written))
    (λ r' res, is_ok res ∧ file_restored (ar_store r') ∧ ar_service r' = ar_service r ∧
               ar_collectors r' = ar_collectors r ∧ ar_coordinator r' = ar_coordinator r ∧ ar_others r' = ar_others r) r.
Proof.
  intros Hl Htok Hfc Hfs. unfold lease_state in Hl. rewrite Htok, Hfc in Hl.
  destruct Hl as (Hid & Hlease & Hfree & Hmode & Htoken & [doc Hr] & snap' & c & Hs & Hrev & Hbytes).
  rewrite Hfs in Hs. injection Hs as <-. destruct (reading_path _ _ _ _ Hr) as ([stale Hload] & _ & _).
  destruct (restore_transition_ok catalog t (ar_store r) doc stale c (sd_revision snap)) as [Heq Hread]; try done.
  - congruence.
  - rewrite Hmode. apply Hstart.
  - by eapply reading_size.
  - rewrite Hrev. unfold hmac_compare_revision. rewrite !bool_decide_eq_true_2 by (done || apply (or_digest Horder)). done.
  - unfold wp, on_store. rewrite Heq. cbn [fst snd]. split_and!; [by eexists| |done..]. apply since_now. split; [by rewrite Hfree|].
    cbn [ar_store set_ar_store]. etransitivity; [exact Hread|done].
Qed.

Lemma restore_file_wp r : settled r → file_state r →
  wp (restore_file catalog e)
    (λ r' res, settled r' ∧ match res with Ok _ => file_at_rest r' | Raise _ => file_restored (ar_store r') end) r.
Proof.
  intros Hs Hf. unfold restore_file. apply wp_bind, wp_gets. change (id r) with r. unfold file_state in Hf.
  destruct (ar_transition_token r) as [t|] eqn:Htok; [|apply wp_ret; split; [done|by left]].
  destruct (ar_file_committed r) eqn:Hfc; [|].
  2: { destruct (ar_file_snapshot r); apply wp_ret; (split; [done|]); right; (split; [by eexists|done]). }
  destruct (ar_file_snapshot r) as [snap|] eqn:Hfs.
  2: { exfalso. unfold lease_state in Hf. rewrite Htok, Hfc in Hf. destruct Hf as (_ & _ & _ & _ & _ & _ & ? & ? & ? & _). congruence. }
  eapply wp_mono with (Q := λ r' _, settled r' ∧ file_restored (ar_store r')).
  { intros r' [[]|err] [? ?]; [|done]. split; [done|by left]. }
  apply wp_logged_any, wp_bind, wp_pause; [apply Hs|]. intros r1 Ht1. destruct (tu_locals _ _ Ht1) as (_ & Htk & Hfc' & Hfs' & _).
  rewrite (or_restore Horder). apply wp_bind. eapply wp_mono; [|apply (lease_restored r1 t snap)]; try congruence.
  2: { eapply turned_lease; [done|by eexists|done]. }
  intros r2 res2 ([restored ->] & Hrest & E1 & E2 & E3 & E4).
  assert (settled r2) as Hs2 by (apply (settled_frame r1); [done..|by eapply turned_settled]).
  apply wp_bind, wp_pause; [apply Hs2|]. intros r3 Ht3. pose proof (turned_since _ _ _ Ht3 Hrest) as Hrest3.
  apply wp_bind. unfold wp at 1, on_store. cbn [fst snd].
  assert (file_restored (mark_runtime_applied catalog (Some (sd_revision restored)) (ar_store r3)).1) as Hrest4
    by (apply (since_op _ _ (OpApplied _)); [by right|done]).
  set (r4 := set_ar_store _ r3).
  assert (settled r4) as Hs4 by (apply (settled_frame r3); [done..|by eapply turned_settled]).
  destruct (mark_runtime_applied _ _ _).2; [apply wp_modify|]; (split; [by apply (settled_frame r4)|done]).
Qed.

Lemma abort_lease_wp r : settled r → file_at_rest r →
  wp (abort_lease catalog) (λ r' _, settled r' ∧ file_restored (ar_store r')) r.
Proof.
  intros Hs Hf. unfold abort_lease. apply wp_bind, wp_gets. destruct (ar_transition_token r) as [t|] eqn:Htok.
  2: { apply wp_ret. split; [done|]. destruct Hf as [?|[Hsome _]]; [done|]. rewrite Htok in Hsome. by destruct Hsome. }
  apply wp_logged_any, wp_bind, wp_pause; [apply Hs|]. intros r1 Ht. pose proof (turned_settled _ _ Ht Hs) as Hs1.
  apply wp_bind. unfold wp at 1, on_store. cbn [fst snd]. set (x := abort_transition (Some t) (ar_store r1)).
  assert (file_restored x.1) as Hx.
  { destruct Hf as [Hf|(_ & Hl & Hfc)]; [apply (since_op _ _ (OpAbort (Some t))); [by right|by eapply turned_since]|].
    pose proof (turned_lease _ _ Ht ltac:(by eexists) Hl) as Hl1. destruct (tu_locals _ _ Ht) as (_ & Htk & Hfc' & _).
    unfold lease_state in Hl1. rewrite Htk, Htok, Hfc', Hfc in Hl1. destruct Hl1 as (Hid & Hlease & Hfree & Hmode & _ & _ & Hpath).
    subst x. unfold abort_transition. rewrite comp_bind_eq, assert_transition_eq, Hid.
    rewrite bool_decide_eq_true_2 by (split; [by eexists|cbn; by rewrite Hlease]). cbn [negb raise_if fst snd modify].
    apply since_now. split; [by rewrite Hfree|]. by apply reading_ext. }
  set (r2 := set_ar_store x.1 r1). assert (settled r2) as Hs2 by (by apply (settled_frame r1)).
  destruct x.2; [apply wp_modify|]; (split; [by apply (settled_frame r2)|done]).
Qed.

Lemma undone_settled r : undone r → candidate_closed r → settled r.
Proof. by intros [[Hg _ Ho] Hf Hc]. Qed.

(** The handler ends with the former generation, target and file, even where it
    raises an exception of its own. *)
Lemma take_back_wp r start_error : undoable r →
  wp (take_back catalog a e previous pc start_error) (λ r' _, settled r' ∧ file_restored (ar_store r')) r.
Proof.
  intros Hu. unfold take_back. apply wp_bind. eapply wp_mono; [|apply (restore_generation_wp r Hu)].
  intros r1 res1 (-> & Hb1 & Hc1). apply wp_bind, wp_on_service. cbn [modify fst snd]. set (r2 := set_ar_service _ r1).
  assert (back r2) as Hb2 by (by apply service_back).
  apply wp_bind. eapply wp_mono; [|apply (restore_target_wp r2 Hb2 Hc1)]. intros r3 res3 (-> & Hb3 & Hc3).
  apply wp_bind. eapply wp_mono; [|apply (restore_reconciliation_wp r3 Hb3 Hc3)]. intros r4 res4 (-> & Hb4 & Hf4).
  apply wp_bind, wp_modify. apply wp_bind, wp_on_service. cbn [modify fst snd]. set (r5 := set_ar_service _ _).
  assert (undone r5) as Hu5 by (split; [destruct Hb4 as [Hg Hf Ho]; by split|done|done]).
  apply wp_bind. eapply wp_mono; [|apply (stop_candidate_wp r5 Hu5)]. intros r6 res6 (-> & Hu6 & Hcl6).
  apply wp_bind. eapply wp_mono; [|apply (restore_file_wp r6 (undone_settled _ Hu6 Hcl6))]; [|apply Hu6].
  intros r7 [[]|err] [Hs7 Hf7]; [by apply abort_lease_wp|done].
Qed.

(** *** After the commit *)

(** The file held the target when the lease was released. *)
Definition file_moved : InstrumentPolicyStore → Prop :=
  since (λ s, ps_transition_id s = None ∧
    ∃ c doc, reading catalog s = Ok (c, doc) ∧ cg_revision (cd_active doc) = ac_target_revision a).

Record activated (loc : nat) (r : activation_run) : Prop := {
  av_serving : serving loc r;
  av_file : file_moved (ar_store r);
  av_token : ar_transition_token r = None;
  av_others : Forall (λ i, Forall allowed (in_requests i)) (ar_others r);
}.

Lemma committed_activated loc r : committed loc r → activated loc r.
Proof. intros [Ht Hid Hc Hs Ho]. split; [done|by apply since_now|done|done]. Qed.

Lemma turned_activated loc r r' : turned r r' → activated loc r → activated loc r'.
Proof.
  intros Ht [Hs Hf Htok Ho]. split; [by eapply turned_serving|by eapply turned_since| |apply Ht].
  by destruct (tu_locals _ _ Ht) as (_ & -> & _).
Qed.

(** The replaced collector keeps its target and the job goes on. *)
Lemma retire_coordinator_wp p r :
  wp (error_of (retire_coordinator p (cu_stopped (en_cleanup e)))) (λ r' res, res = Ok None ∧
    ∃ l, r' = set_ar_collectors l r ∧ ∀ j, target_of <$> l !! j = target_at r j) r.
Proof.
  enough (wp (retire_coordinator p (cu_stopped (en_cleanup e))) (λ r' res, res = Ok tt ∧
    ∃ l, r' = set_ar_collectors l r ∧ ∀ j, target_of <$> l !! j = target_at r j) r) as [Hres Hl].
  { unfold wp, error_of. cbn [fst snd]. by rewrite Hres. }
  unfold retire_coordinator. apply wp_bind.
  destruct (stop_collector_wp p (cu_stopped (en_cleanup e)) r) as (l & Hr' & Htarget & Hstopped & Hraise).
  unfold wp at 1, error_of. cbn [fst snd]. rewrite Hr'. apply wp_bind, wp_gets, wp_bind, wp_lift.
  assert (match l !! p with Some c => is_running c | None => false end = false) as Hrun
    by (destruct (l !! p) as [c|] eqn:Hc; [by apply (Hstopped c)|done]).
  cbn [ar_collectors set_ar_collectors]. rewrite Hrun. cbn [raise_if].
  destruct (stop_collector p _ r).2 as [|err]; [apply wp_ret|apply wp_lift].
  - split; [done|]. by exists l.
  - assert (is_exception err = true) as -> by (destruct (Hraise err eq_refl); [by apply (or_retired Horder)|done]).
    split; [done|]. by exists l.
Qed.

Lemma clean_up_wp loc r : activated loc r →
  wp (clean_up catalog a e pc) (λ r' res, res = Ok tt ∧ activated loc r') r.
Proof.
  intros Ha. unfold clean_up. apply wp_bind, wp_gets. destruct (ar_reconciliation r).
  - apply wp_bind, wp_modify. assert (activated loc (set_ar_reconciliation None r)) as Ha1 by (by destruct Ha).
    apply wp_bind, wp_pause; [apply Ha|]. intros r1 Ht. apply wp_lift. split; [|by eapply turned_activated].
    unfold cleanup_escape. destruct (cu_finalized (en_cleanup e)) as [[]|err] eqn:Hfin; [done|].
    by destruct (or_finalized Horder err Hfin) as [-> ->].
  - destruct pc as [p|] eqn:Hpc; [|by apply wp_ret]. case_decide; [by apply wp_ret|].
    apply wp_bind, wp_pause; [apply Ha|]. intros r1 Ht. pose proof (turned_activated _ _ _ Ht Ha) as [(Hg & Hc & Hh) Hf Htok Ho].
    apply wp_bind. eapply wp_mono; [|apply retire_coordinator_wp]. intros r2 res (-> & l & -> & Htarget). apply wp_lift.
    split; [done|]. split; [|done..]. split_and!; [done..|]. intros k Hk Hor. rewrite <- (Hh k Hk Hor). apply Htarget.
Qed.

Lemma finalize_locally_wp loc r : activated loc r →
  wp (finalize_locally a loc) (λ r' res, res = Ok tt ∧ activated loc r') r.
Proof.
  intros Ha. unfold finalize_locally. apply wp_on_service.
  enough (wp (try_except is_exception
           (_ ← publish_warmed_history (ac_warmed a); _ ← retain_symbols loc (Registry.symbols (ac_registry a));
            persist_warmed_instruments loc (ac_warmed a)) (λ _, modify (set_sv_storage_ready false)))
           (λ s' res, res = Ok tt ∧ sv_generations s' = sv_generations (ar_service r)) (ar_service r)) as [Hres Hgen].
  { split; [done|]. destruct Ha as [(Hg & Hc & Hh) Hf Ht Ho]. split; [|done..]. split_and!; [|done..].
    unfold capture_generation in *. cbn [ar_service set_ar_service]. by rewrite Hgen. }
  set (G := (sv_generations (ar_service r), length (sv_states (ar_service r)))).
  pose proof (generations_finalize G loc (Registry.symbols (ac_registry a)) (ac_warmed a) (ar_service r) (conj eq_refl eq_refl)) as [Hg _].
  pose proof (only_finalization loc (Registry.symbols (ac_registry a)) (ac_warmed a) (ar_service r)) as Honly.
  apply wp_try. unfold wp. destruct (_ (ar_service r)).2 as [[]|err]; [done|]. by rewrite (Honly err eq_refl).
Qed.

Lemma commit_wp :
  wp (commit_catalog_activation catalog a e)
    (λ r res, match res with Ok _ => ∃ loc, activated loc r | Raise _ => settled r ∧ file_restored (ar_store r) end) r0.
Proof.
  unfold commit_catalog_activation. apply wp_bind, wp_service_gets. apply wp_bind, wp_gets. apply wp_bind, wp_service_gets.
  apply wp_try, wp_bind. eapply wp_mono; [|apply body_wp]. intros r1 [loc|err] H1.
  2: { apply wp_bind. eapply wp_mono; [|by apply take_back_wp]. intros r2 [[]|err'] H2; [by apply wp_raise|done]. }
  apply wp_bind. eapply wp_mono; [|by apply (clean_up_wp loc), committed_activated]. intros r2 res2 [-> H2].
  eapply wp_mono; [|by apply (finalize_locally_wp loc)]. intros r3 res3 [-> H3]. by exists loc.
Qed.

End transaction.

(** C7: an activation moves the file, the runtime generation and the collector
    together or not at all, whichever step of it fails or is cancelled, and
    whatever other tasks do on the file, on the market data and with collectors
    while it waits.  When it returns, the runtime serves the target with the new
    market state, the collector in charge works for it, the lease was released
    with the target as the active generation of the file, and only requests of
    other tasks came after; when it raises, the former generation serves, the
    former collector is in charge with its former target, a candidate collector
    that could be stopped is closed, and the file had its former content and
    lease when it was let go.  It starts with fresh variables, a target of another
    identity than the generation that serves, a directory of the file that others
    cannot write, and a lease that no other task knows ([startable]); digests
    have 64 characters.  Four ways to fail are outside the claim ([orderly]): the write of the target raises
    although it replaced the file; what it wrote cannot be read back; the write
    that restores the former file fails; and stopping, rolling back or retiring
    a collector is itself cancelled, or the job is cancelled while finalizing
    one fails.  [torn_write_parts] and [cancelled_retirement_parts] show that
    the parts can come apart then. *)
Theorem activation_atomic `{ServiceWorld, ManagedPrimitives} (catalog : Registry) (a : activation)
    (e : activation_env) (r0 : activation_run) (Hstart : startable a e r0) (Horder : orderly catalog a e r0) :
  let x := commit_catalog_activation catalog a e r0 in
  match x.2 with
  | Ok _ => ∃ loc, activated catalog a e r0 loc x.1
  | Raise _ => settled a e r0 x.1 ∧ file_restored catalog r0 (ar_store x.1)
  end.
Proof. exact (commit_wp catalog a e r0 Hstart Horder). Qed.

(** ** Examples *)

Definition demo_grown : Registry :=
  ok_or empty_registry (build_registry
    [{| ip_plugin_id := "demo"; ip_version := "1";
        ip_instruments := [demo_instrument; {| is_symbol := "ETH:USDC"; is_base := "ETH"; is_quote := "USDC"; is_name := "Ether";
          is_description := "Ether in USD Coin"; is_asset_class := CRYPTO; is_asset_type := "crypto_asset";
          is_price_basis := "spot_market"; is_change_basis := "unadjusted_market_price"; is_yield_strategy := None;
          is_dividend_strategy := None; is_reward_accrual_mode := None; is_underlying_asset := None; is_aliases := [];
          is_market_calendar := ALWAYS_OPEN; is_stale_after_seconds := seconds 10; is_quote_poll_seconds := 250000;
          is_history_enabled := true; is_history_poll_seconds := None |}];
        ip_has_installer := true; ip_provider_bindings := []; ip_synthetic_recipes := [] |}]).

Definition demo_serving : Service :=
  set_sv_generations
    {| gm_current := {| gn_generation_id := "g1"; gn_revision := cg_revision demo_base; gn_registry := demo_registry;
                        gn_activated_at := 0; gn_catalog := None; gn_route_plan := None; gn_data_state := Some 0%nat |} |}
    demo_service.

Definition demo_collector (running : bool) : collector_object :=
  {| cl_registry := demo_registry; cl_generation_id := "g1"; cl_running := running; cl_closed := false |}.

(** An administrator tries to drop the staged generation meanwhile. *)
Definition demo_others : list interference :=
  [{| in_requests := [OpEdit Rollback "" None Written]; in_publications := []; in_ended := [] |}].

Definition demo_run : activation_run :=
  {| ar_store := demo_store; ar_service := demo_serving; ar_collectors := [demo_collector true; demo_collector false];
     ar_coordinator := Some 0%nat; ar_others := demo_others; ar_transition_token := None; ar_file_committed := false;
     ar_file_snapshot := None; ar_previous_target := None; ar_reconciliation := None |}.

(** A candidate of its own, to the staged generation. *)
Definition demo_activation : activation :=
  {| ac_operation := "activate"; ac_expected_file_revision := @revision demo_managed (demo_text demo_stored);
     ac_target_revision := cg_revision demo_staged; ac_target := None; ac_registry := demo_grown; ac_route_plan := None;
     ac_generation_id := "g2"; ac_warmed := []; ac_candidate_coordinator := Some 1%nat;
     ac_reconcile_provider_names := None |}.

Definition demo_env (write : write_outcome) (cleanup : cleanup_outcome) : activation_env :=
  {| en_lease_id := "lease"; en_uuid := "uuid"; en_now := 0; en_published_at := 0; en_lease_interrupted := false;
     en_restored := Ok None; en_started := Ok tt; en_write := write; en_write_interrupted := false;
     en_read_interrupted := false; en_applied_interrupted := false; en_reconciled := Ok tt; en_confirmed := Ok tt;
     en_cleanup := cleanup; en_rolled_back := Ok tt; en_stopped := Ok tt; en_restore_write := Written |}.

Definition demo_commit (write : write_outcome) (cleanup : cleanup_outcome) : activation_run * result unit :=
  @commit_catalog_activation demo_world demo_managed demo_registry demo_activation (demo_env write cleanup) demo_run.

Definition retired : cleanup_outcome := {| cu_interrupted := false; cu_stopped := Ok tt; cu_finalized := Ok tt |}.

Lemma demo_startable write cleanup : startable demo_activation (demo_env write cleanup) demo_run.
Proof.
  split; try reflexivity; [exists 0%nat; split; [done|cbn; lia]|discriminate|].
  by repeat constructor.
Qed.

Lemma ok_inj {A} (x y : A) : Ok x = Ok y → x = y.
Proof. by intros [= ->]. Qed.

Lemma demo_read_back content doc request updated content' :
  @reading demo_managed demo_registry demo_store = Ok (content, doc) → file_transition demo_activation = Ok request →
  @edited demo_managed demo_registry request doc = Ok updated →
  @serialize_catalog_document demo_managed updated = Ok content' →
  is_ok (@load_catalog_document demo_managed content' demo_registry).
Proof.
  rewrite demo_reading. intros [<- <-]%ok_inj%pair_equal_spec <-%ok_inj Hf Hser.
  assert (@edited demo_managed demo_registry (ActivateStaged (Some (cg_revision demo_staged))) demo_stored = Ok demo_activated)
    as Hact by (vm_compute; reflexivity).
  cbn [ac_target_revision demo_activation] in Hf. rewrite Hact in Hf. apply ok_inj in Hf as <-.
  destruct (serialized _ _ Hser) as (-> & _). exists (demo_activated, false). exact demo_load_activated.
Qed.

Lemma demo_orderly : @orderly demo_managed demo_registry demo_activation (demo_env Written retired) demo_run.
Proof.
  split.
  - exact demo_digest_length.
  - intros err Heq. discriminate Heq.
  - exact demo_read_back.
  - reflexivity.
  - intros err Heq. discriminate Heq.
  - intros err Heq. discriminate Heq.
  - intros err Heq. discriminate Heq.
  - intros err Heq. discriminate Heq.
Qed.

Lemma activation_atomic_witness :
  ∃ loc, @activated demo_managed demo_registry demo_activation (demo_env Written retired) demo_run loc
           (demo_commit Written retired).1.
Proof.
  pose proof (@activation_atomic demo_world demo_managed demo_registry demo_activation (demo_env Written retired) demo_run
                (demo_startable Written retired) demo_orderly) as Hatomic. cbv zeta in Hatomic.
  assert ((demo_commit Written retired).2 = Ok tt) as Hok by (vm_compute; reflexivity).
  unfold demo_commit in *. rewrite Hok in Hatomic. exact Hatomic.
Defined.

(** What is left where file and runtime part: the activation fails, the former
    generation serves with the former collector, the lease is gone, and the
    target is the active generation of the file. *)
Definition parted (x : activation_run * result unit) : bool :=
  let r := x.1 in
  match x.2 with Ok _ => false | Raise _ => true end &&
  bool_decide (gn_generation_id (capture_generation (ar_service r)) = "g1") &&
  bool_decide (ar_coordinator r = Some 0%nat) && bool_decide (ps_transition_id (ar_store r) = None) &&
  match @reading demo_managed demo_registry (ar_store r) with
  | Ok (_, doc) => bool_decide (cg_revision (cd_active doc) = ac_target_revision demo_activation)
  | Raise _ => false
  end.

(** A write of the file that fails after the file was replaced (the directory
    cannot be synchronised) counts as no change of the file: the handler only
    drops the lease, and the file keeps the target that the runtime left. *)
Theorem torn_write_parts : parted (demo_commit (WriteFailed true (OtherError "OSError")) retired) = true.
Proof. vm_compute. reflexivity. Qed.

(** A retirement that is cancelled (the job is cancelled once more while it joins
    the retirement it was shielded from) is raised to the handler, after the
    lease was released: the runtime is rolled back and the new collector stopped,
    but the file is not. *)
Theorem cancelled_retirement_parts :
  parted (demo_commit Written {| cu_interrupted := true; cu_stopped := Raise CancelledError; cu_finalized := Ok tt |}) = true.
Proof. vm_compute. reflexivity. Qed.
