(* ===== verification/CatalogJobs.v ===== *)
(** * The jobs of the catalogue runtime ([_run_job] of [catalog_runtime.py])

    The table of activation jobs, and the job itself: it validates the target,
    prepares a collector, warms it up, decides which collector goes on, and has
    the service commit.  A job is a computation on the run of the activation, the
    table and its own variables, and fails with a [failure].  How what it awaits
    ends is an argument; at every await other tasks take a turn, and the job may
    be cancelled at one of them. *)

From S2P Require Import Prelude PyStr PyState PyDecimal PyTime PyIso Domain PluginApi Registry Runtime Wire Json.
From S2P Require Import Analytics AdminAccount Cache Router Service ServiceCandidate Catalog CatalogDocument CatalogStore.
From S2P Require Import CatalogEdits CatalogStoreFacts Descriptors Compiler CatalogRuntime CatalogActivation.
From Stdlib Require Import QArith.

Local Open Scope string_scope.
Local Open Scope list_scope.
Local Open Scope Z_scope.

(** ** The table *)

Inductive CatalogJobState := QUEUED | VALIDATING | WARMING | ACTIVATING | SUCCEEDED | FAILED | CANCELLED.

Definition CatalogJobState_value (s : CatalogJobState) : string :=
  match s with
  | QUEUED => "queued" | VALIDATING => "validating" | WARMING => "warming" | ACTIVATING => "activating"
  | SUCCEEDED => "succeeded" | FAILED => "failed" | CANCELLED => "cancelled"
  end.

Record CatalogActivationJob := {
  cj_job_id : string;
  cj_operation : string;
  cj_requested_revision : string;
  cj_target_generation_revision : string;
  cj_state : CatalogJobState;
  cj_created_at : Z;
  cj_updated_at : Z;
  cj_changed_symbols : list string;
  cj_collector_handoff : option string;
  cj_binding_verification : option json;
  cj_warm_plan : option WarmExecutionPlan;
  cj_error : option (list (string * json));
}.

(** [CatalogActivationJob.update] *)
Definition update (now : Z) (state : CatalogJobState) (j : CatalogActivationJob) : CatalogActivationJob :=
  {| cj_job_id := cj_job_id j; cj_operation := cj_operation j; cj_requested_revision := cj_requested_revision j;
     cj_target_generation_revision := cj_target_generation_revision j; cj_state := state;
     cj_created_at := cj_created_at j; cj_updated_at := now; cj_changed_symbols := cj_changed_symbols j;
     cj_collector_handoff := cj_collector_handoff j; cj_binding_verification := cj_binding_verification j;
     cj_warm_plan := cj_warm_plan j; cj_error := cj_error j |}.

(** The assignments to the fields that report on a job. *)
Definition report (changed : list string) (handoff : option string) (verification : option json)
    (plan : option WarmExecutionPlan) (error : option (list (string * json))) (j : CatalogActivationJob)
    : CatalogActivationJob :=
  {| cj_job_id := cj_job_id j; cj_operation := cj_operation j; cj_requested_revision := cj_requested_revision j;
     cj_target_generation_revision := cj_target_generation_revision j; cj_state := cj_state j;
     cj_created_at := cj_created_at j; cj_updated_at := cj_updated_at j; cj_changed_symbols := changed;
     cj_collector_handoff := handoff; cj_binding_verification := verification; cj_warm_plan := plan;
     cj_error := error |}.

Definition set_changed_symbols (v : list string) (j : CatalogActivationJob) : CatalogActivationJob :=
  report v (cj_collector_handoff j) (cj_binding_verification j) (cj_warm_plan j) (cj_error j) j.
Definition set_handoff (v : string) (j : CatalogActivationJob) : CatalogActivationJob :=
  report (cj_changed_symbols j) (Some v) (cj_binding_verification j) (cj_warm_plan j) (cj_error j) j.
Definition set_verification (v : json) (j : CatalogActivationJob) : CatalogActivationJob :=
  report (cj_changed_symbols j) (cj_collector_handoff j) (Some v) (cj_warm_plan j) (cj_error j) j.
Definition set_warm_plan (v : WarmExecutionPlan) (j : CatalogActivationJob) : CatalogActivationJob :=
  report (cj_changed_symbols j) (cj_collector_handoff j) (cj_binding_verification j) (Some v) (cj_error j) j.
Definition set_error (v : list (string * json)) (j : CatalogActivationJob) : CatalogActivationJob :=
  report (cj_changed_symbols j) (cj_collector_handoff j) (cj_binding_verification j) (cj_warm_plan j) (Some v) j.

(** [_jobs] in the order of insertion, and the id of the last job with whether
    its task is done. *)
Record job_table := {
  jt_jobs : list (string * CatalogActivationJob);
  jt_active_task : option (string * bool);
}.

Definition no_jobs : job_table := {| jt_jobs := []; jt_active_task := None |}.

Definition busy (t : job_table) : bool :=
  match jt_active_task t with Some (_, done) => negb done | None => false end.

(** [popitem(last=False)] while there are too many. *)
Definition retained_jobs (jobs : list (string * CatalogActivationJob)) : list (string * CatalogActivationJob) :=
  drop (length jobs - MAX_RETAINED_JOBS) jobs.

(** [_request_job]; the task starts when its creator waits. *)
Definition request_job (operation expected_revision target_revision job_id : string) (now : Z)
    : comp job_table CatalogActivationJob := λ t,
  if busy t then
    (t, Raise (NamedError "CatalogActivationBusyError" "an instrument activation job is already running"))
  else
    let job := {| cj_job_id := job_id; cj_operation := operation; cj_requested_revision := expected_revision;
                  cj_target_generation_revision := target_revision; cj_state := QUEUED; cj_created_at := now;
                  cj_updated_at := now; cj_changed_symbols := []; cj_collector_handoff := None;
                  cj_binding_verification := None; cj_warm_plan := None; cj_error := None |} in
    ({| jt_jobs := retained_jobs (dict_set job_id job (jt_jobs t)); jt_active_task := Some (job_id, false) |}, Ok job).

(** [job] *)
Definition find_job (t : job_table) (job_id : string) : result CatalogActivationJob :=
  match assoc_get job_id (jt_jobs t) with
  | Some j => Ok j
  | None => Raise (NamedError "CatalogJobNotFoundError" "instrument catalog job was not found")
  end.

(** An assignment to a field of a job, which the table and its task share. *)
Definition change_job (job_id : string) (f : CatalogActivationJob → CatalogActivationJob) (t : job_table) : job_table :=
  {| jt_jobs := (λ entry : string * CatalogActivationJob,
       if decide (entry.1 = job_id) then (entry.1, f entry.2) else entry) <$> jt_jobs t;
     jt_active_task := jt_active_task t |}.

Definition task_done (t : job_table) : job_table :=
  {| jt_jobs := jt_jobs t; jt_active_task := (λ x : string * bool, (x.1, true)) <$> jt_active_task t |}.

(** [WarmExecutionPlan.as_dict] *)
Definition WarmExecutionPlan_as_dict (p : WarmExecutionPlan) : json :=
  let counts := λ l : list (string * Z), JObject ((λ e, (e.1, JInt e.2)) <$> l) in
  JObject
    [("symbol_count", JInt (we_symbol_count p)); ("capability_operations", JInt (we_capability_operations p));
     ("worst_case_provider_attempts", JInt (we_worst_case_provider_attempts p));
     ("concurrency", JInt (we_concurrency p));
     ("configured_timeout_seconds", JFloat (Some (we_configured_timeout_seconds p)));
     ("effective_timeout_seconds", JFloat (Some (inject_Z (we_effective_timeout_seconds p))));
     ("provider_attempts", counts (we_provider_attempts p));
     ("primary_operations", counts (we_primary_operations p));
     ("provider_rate_floor_seconds",
      JObject ((λ e, (e.1, JFloat (Some (inject_Z e.2)))) <$> we_provider_rate_floor_seconds p))].

(** [CatalogActivationJob.as_dict] *)
Definition CatalogActivationJob_as_dict (j : CatalogActivationJob) : json :=
  let nullable := λ {A} (f : A → json) (o : option A), match o with Some a => f a | None => JNull end in
  JObject
    [("job_id", JString (cj_job_id j)); ("operation", JString (cj_operation j));
     ("requested_revision", JString (cj_requested_revision j));
     ("target_generation_revision", JString (cj_target_generation_revision j));
     ("state", JString (CatalogJobState_value (cj_state j)));
     ("created_at", JString (isoformat (cj_created_at j) +:+ "Z"));
     ("updated_at", JString (isoformat (cj_updated_at j) +:+ "Z"));
     ("changed_symbols", JArray (JString <$> cj_changed_symbols j));
     ("collector_handoff", nullable JString (cj_collector_handoff j));
     ("binding_verification", nullable id (cj_binding_verification j));
     ("warm_plan", nullable WarmExecutionPlan_as_dict (cj_warm_plan j));
     ("error", nullable JObject (cj_error j))].

(** ** A job *)

(** The run of the activation, the table, and the variables of [_run_job]. *)
Record job_run := {
  jr_run : activation_run;
  jr_table : job_table;
  jr_stage : string;
  jr_candidate : option nat;
  jr_graph : bool;                (* the graph that the method still has to close *)
}.

Definition set_jr_run (v : activation_run) (r : job_run) : job_run :=
  {| jr_run := v; jr_table := jr_table r; jr_stage := jr_stage r; jr_candidate := jr_candidate r; jr_graph := jr_graph r |}.
Definition set_jr_table (v : job_table) (r : job_run) : job_run :=
  {| jr_run := jr_run r; jr_table := v; jr_stage := jr_stage r; jr_candidate := jr_candidate r; jr_graph := jr_graph r |}.
Definition set_jr_stage (v : string) (r : job_run) : job_run :=
  {| jr_run := jr_run r; jr_table := jr_table r; jr_stage := v; jr_candidate := jr_candidate r; jr_graph := jr_graph r |}.
Definition set_jr_candidate (v : option nat) (r : job_run) : job_run :=
  {| jr_run := jr_run r; jr_table := jr_table r; jr_stage := jr_stage r; jr_candidate := v; jr_graph := jr_graph r |}.
Definition set_jr_graph (v : bool) (r : job_run) : job_run :=
  {| jr_run := jr_run r; jr_table := jr_table r; jr_stage := jr_stage r; jr_candidate := jr_candidate r; jr_graph := v |}.

(** A computation of the job, which fails with a [failure]. *)
Definition task (A : Type) : Type := job_run → job_run * attempt A.

#[export] Instance task_ret : MRet task := λ A x r, (r, inl x).
#[export] Instance task_bind : MBind task := λ A B k m r,
  match (m r).2 with inl x => k x (m r).1 | inr f => ((m r).1, inr f) end.

Definition fail {A} (f : failure) : task A := λ r, (r, inr f).
Definition look {A} (f : job_run → A) : task A := λ r, (r, inl (f r)).
Definition assign (f : job_run → job_run) : task unit := λ r, (f r, inl tt).

(** The exception of a call, as a failure of the job. *)
Definition failure_of (e : exn) : failure := if is_exception e then Plain e else Cancelled.

Definition result_attempt {A} (m : result A) : attempt A :=
  match m with Ok a => inl a | Raise e => inr (failure_of e) end.

Definition given {A} (m : attempt A) : task A := λ r, (r, m).

Definition on_run {A} (m : comp activation_run A) : task A := λ r,
  let x := m (jr_run r) in (set_jr_run x.1 r, result_attempt x.2).

(** Where a job waits before it commits. *)
Inductive wait_point := AtTarget | AtCompile | AtActive | AtClose | AtRecheck | AtPrepare | AtVerify | AtWarm.

#[export] Instance wait_point_eq_dec : EqDecision wait_point.
Proof. solve_decision. Defined.

(** How the steps of other code end, and the inputs of a job. *)
Record job_env := {
  je_job_id : string;
  je_target : CatalogGeneration;
  je_generation_id : string;
  je_clock : CatalogJobState → Z;
  je_settings : ProviderSettings;
  je_installed : list string;
  je_cancelled_at : option wait_point;
  je_graph : attempt unit;                       (* the construction of the graph of the target *)
  je_active_graph : attempt unit;                (* and of that of the active generation *)
  je_closed : attempt unit;
  je_graph_closed : attempt unit;
  je_prepared : attempt unit;
  je_verified : attempt json;
  je_router_timeout : option Q;
  je_providers_for : string → Capability → list warm_provider;
  je_answers : string → warm_answers;
  je_warm_run : warm_run;
  je_warmed_at : string → Capability → Z;
  je_fatal_error : option exn;
  je_can_reconcile : list string → bool;
  je_plan_of : Z → json;                         (* [as_dict] of the plan with an identity *)
  je_target_identity : Z;
  je_plan_identity : Z;
  je_audited : attempt unit;                     (* the audit of a success *)
  je_reported : attempt unit;                    (* and of a failure *)
  je_candidate_stopped : result unit;
  je_activation : activation_env;
}.

Section job.
Context `{ServiceWorld, ManagedPrimitives, CatalogRuntimePrimitives}.
Context (registry : Registry) (o : job_env).

(** *** Waiting *)

Definition wait (p : wait_point) : task unit :=
  _ ← on_run (pause registry);
  if decide (je_cancelled_at o = Some p) then fail Cancelled else mret tt.

(** [await m]: the result is there when the other tasks have had their turn. *)
Definition await {A} (p : wait_point) (m : task A) : task A :=
  x ← m; _ ← wait p; mret x.

Definition change (f : CatalogActivationJob → CatalogActivationJob) : task unit :=
  assign (λ r, set_jr_table (change_job (je_job_id o) f (jr_table r)) r).

Definition enter (state : CatalogJobState) : task unit := change (update (je_clock o state) state).

Definition stage (v : string) : task unit := assign (set_jr_stage v).

(** *** Validation *)

(** The job of the task, which the table holds as long as it runs. *)
Definition this_job : task CatalogActivationJob := λ r, (r, result_attempt (find_job (jr_table r) (je_job_id o))).

Definition assert_target (p : wait_point) : task unit :=
  job ← this_job;
  await p (on_run (on_store (assert_runtime_target registry (cj_requested_revision job) (cj_operation job)
                               (cg_revision (je_target o))))).

(** [_compile] in its thread, with the construction of the graph. *)
Definition compiled (p : wait_point) (generation : CatalogGeneration) (strict : bool) (graph : attempt unit)
    : task (Registry * CompiledRoutePlan) :=
  await p (x ← given (result_attempt (compile_generation (je_settings o) (je_installed o) generation strict));
           _ ← given graph;
           mret x).

Definition require_routes (plan : CompiledRoutePlan) (changed : list string) : task unit :=
  missing ← given (result_attempt (require_changed_routes (je_target o) plan changed));
  match missing with Some f => fail f | None => mret tt end.

(** What a validated job knows. *)
Record validated := {
  va_current : CatalogGeneration;
  va_registry : Registry;
  va_plan : CompiledRoutePlan;
  va_active_plan : CompiledRoutePlan;
  va_changed : list string;
}.

Definition validate_job : task validated :=
  _ ← enter VALIDATING;
  _ ← assert_target AtTarget;
  current ← on_run (on_store (active_generation registry));
  target ← compiled AtCompile (je_target o) (strict_runtime_validation (je_settings o)) (je_graph o);
  _ ← assign (set_jr_graph true);
  let changed := changed_symbols current (je_target o) in
  _ ← require_routes target.2 changed;
  active ← compiled AtActive current false (je_active_graph o);
  _ ← await AtClose (given (je_closed o));
  match incremental_budget_errors (je_settings o) active.2 target.2 with
  | [] =>
    _ ← change (set_changed_symbols changed);
    mret {| va_current := current; va_registry := target.1; va_plan := target.2; va_active_plan := active.2;
            va_changed := changed |}
  | violations => fail (CatalogBudgetError violations)
  end.

(** *** Preparation *)

(** [MarketDataCoordinator(...)]: the graph belongs to the collector now. *)
Definition new_collector (v : validated) : task nat := λ r,
  let k := length (ar_collectors (jr_run r)) in
  let c := {| cl_registry := va_registry v; cl_generation_id := je_generation_id o; cl_running := false;
              cl_closed := false |} in
  (set_jr_graph false (set_jr_candidate (Some k)
     (set_jr_run (set_ar_collectors (ar_collectors (jr_run r) ++ [c]) (jr_run r)) r)), inl k).

Definition prepare_job (v : validated) : task nat :=
  candidate ← new_collector v;
  _ ← stage "preparing_collectors";
  _ ← assert_target AtRecheck;
  _ ← await AtPrepare (given (je_prepared o));
  _ ← stage "verifying_bindings";
  verification ← await AtVerify (given (je_verified o));
  _ ← change (set_verification verification);
  mret candidate.

(** *** The warm-up *)

Definition warm_job (v : validated) : task (list warmed_item) :=
  plan ← given (result_attempt (warm_execution_plan (je_settings o) (je_router_timeout o) (je_providers_for o)
                                  (je_target o) (va_changed v)));
  _ ← change (set_warm_plan plan);
  _ ← enter WARMING;
  _ ← stage "warming";
  se ← look (λ r, sv_settings (ar_service (jr_run r)));
  warmed ← await AtWarm (given (warm sw_ny_wall se (je_target o) (je_answers o) (je_warm_run o) (va_changed v)
                                  (je_warmed_at o)));
  _ ← enter ACTIVATING;
  _ ← stage "activating";
  mret warmed.

(** *** Which collector goes on *)

Definition serving_collector (r : job_run) : option collector_object :=
  ar_coordinator (jr_run r) ≫= λ k, ar_collectors (jr_run r) !! k.

Definition reuse_coordinator (v : validated) (r : job_run) : bool :=
  let g := capture_generation (ar_service (jr_run r)) in
  ps_background_enabled (je_settings o) &&
  can_reuse_coordinator
    ((λ c, {| co_running := is_running c; co_fatal_error := je_fatal_error o |}) <$> serving_collector r)
    (gn_revision g) (je_plan_of o <$> gn_route_plan g) (va_current v) (je_target o) (va_plan v).

(** [_can_reconcile_coordinator] *)
Definition can_reconcile_coordinator (v : validated) (names : list string) (r : job_run) : bool :=
  let g := capture_generation (ar_service (jr_run r)) in
  match serving_collector r, gn_route_plan g with
  | Some c, Some plan =>
    bool_decide (gn_revision g = cg_revision (va_current v)) &&
    json_eqb (je_plan_of o plan) (plan_as_dict (va_active_plan v)) && is_running c && negb (cl_closed c) &&
    je_can_reconcile o names
  | _, _ => false
  end.

Record hand_off := {
  ho_coordinator : option nat;
  ho_names : option (list string);
  ho_label : string;
}.

Definition choose_collector (v : validated) (candidate : nat) (r : job_run) : hand_off :=
  let names := reusable_provider_names (va_current v) (je_target o) (va_active_plan v) (va_plan v) in
  if reuse_coordinator v r then
    {| ho_coordinator := ar_coordinator (jr_run r); ho_names := None; ho_label := "reused_metadata_only" |}
  else if ps_background_enabled (je_settings o) && can_reconcile_coordinator v names r then
    {| ho_coordinator := Some candidate; ho_names := Some names; ho_label := "reconciled" |}
  else if ps_background_enabled (je_settings o) then
    {| ho_coordinator := Some candidate; ho_names := None; ho_label := "reconnected" |}
  else {| ho_coordinator := None; ho_names := None; ho_label := "disabled" |}.

Definition activation_of (job : CatalogActivationJob) (v : validated) (warmed : list warmed_item) (h : hand_off)
    : activation :=
  {| ac_operation := cj_operation job; ac_expected_file_revision := cj_requested_revision job;
     ac_target_revision := cg_revision (je_target o); ac_target := Some (je_target_identity o);
     ac_registry := va_registry v; ac_route_plan := Some (je_plan_identity o);
     ac_generation_id := je_generation_id o; ac_warmed := warmed; ac_candidate_coordinator := ho_coordinator h;
     ac_reconcile_provider_names := ho_names h |}.

Definition commit_job (v : validated) (candidate : nat) (warmed : list warmed_item) : task unit :=
  h ← look (choose_collector v candidate);
  _ ← change (set_handoff (ho_label h));
  job ← this_job;
  _ ← on_run (commit_catalog_activation registry (activation_of job v warmed h) (je_activation o));
  if decide (ho_coordinator h = Some candidate ∧ ho_names h = None) then assign (set_jr_candidate None) else mret tt.

(** [_audit]: an exception of the sink is logged. *)
Definition audit (sink : attempt unit) : task unit :=
  _ ← on_run (pause registry);
  match sink with inr Cancelled => fail Cancelled | _ => mret tt end.

(** The body of the [try]. *)
Definition job_body : task unit :=
  v ← validate_job;
  candidate ← prepare_job v;
  warmed ← warm_job v;
  _ ← commit_job v candidate warmed;
  _ ← enter SUCCEEDED;
  audit (je_audited o).

(** *** The handlers *)

Definition job_failed (f : failure) : task unit :=
  at_stage ← look jr_stage;
  let cancelled := match f with Cancelled => true | _ => false end in
  _ ← change (set_error (safe_error f at_stage cancelled));
  _ ← enter (if cancelled then CANCELLED else FAILED);
  _ ← audit (je_reported o);
  if cancelled then fail f else mret tt.

(** The [finally] clause. *)
Definition release_job : task unit :=
  candidate ← look jr_candidate;
  _ ← match candidate with
      | Some k => _ ← on_run (pause registry); on_run (stop_collector k (je_candidate_stopped o))
      | None => mret tt
      end;
  graph ← look jr_graph;
  if graph : bool then (_ ← on_run (pause registry); given (je_graph_closed o)) else mret tt.

(** [_run_job], and its task that is done. *)
Definition run_job : task unit := λ r,
  let x := job_body r in
  let y := match x.2 with inl _ => x | inr f => job_failed f x.1 end in
  let z := release_job y.1 in
  (set_jr_table (task_done (jr_table z.1)) z.1, match z.2 with inl _ => y.2 | inr f => inr f end).

(** ** The requests *)

Definition on_table {A} (m : comp job_table A) : task A := λ r,
  let x := m (jr_table r) in (set_jr_table x.1 r, result_attempt x.2).

Definition request_of (operation missing expected_revision job_id : string) (now : Z)
    (target : comp InstrumentPolicyStore (option CatalogGeneration)) : task CatalogActivationJob :=
  _ ← on_run (on_store (assert_revision expected_revision));
  _ ← on_run (pause registry);
  generation ← on_run (on_store target);
  match generation with
  | None => fail (Plain (NamedError "CatalogRuntimeError" missing))
  | Some g => on_table (request_job operation expected_revision (cg_revision g) job_id now)
  end.

Definition request_activation (expected_revision job_id : string) (now : Z) : task CatalogActivationJob :=
  request_of "activate" "there is no staged catalog to activate" expected_revision job_id now
    (staged_generation registry).

Definition request_rollback (expected_revision job_id : string) (now : Z) : task CatalogActivationJob :=
  request_of "rollback" "there is no last-known-good catalog" expected_revision job_id now
    (last_known_good_generation registry).

End job.
