(* ===== verification/CatalogJobsFacts.v ===== *)
(** * Theorems on the jobs of the catalogue runtime

    The table keeps at most a hundred jobs and always the one that runs; and a
    job ends in exactly one of three states, which tell whether the service moved
    to the target: with everything the validation and the warm-up ask for, or
    with file, generation and collector as they were. *)

From S2P Require Import Prelude PyStr PyState PyDecimal PyTime Domain PluginApi Registry Runtime Json Analytics.
From S2P Require Import AdminAccount Cache Router Service ServiceFacts ServiceCandidate Catalog CatalogFacts CatalogDocument.
From S2P Require Import CatalogStore CatalogEdits CatalogDemo CatalogDocumentFacts CatalogStoreFacts Descriptors Compiler.
From S2P Require Import CatalogRuntime CatalogRuntimeFacts CatalogActivation CatalogActivationFacts CatalogJobs.
From Stdlib Require Import QArith.

Local Open Scope string_scope.
Local Open Scope list_scope.
Local Open Scope Z_scope.

(** ** The table *)

(** At most a hundred jobs under distinct ids, among them the one that runs. *)
Record table_ok (t : job_table) : Prop := {
  to_bounded : (length (jt_jobs t) ≤ MAX_RETAINED_JOBS)%nat;
  to_distinct : NoDup (jt_jobs t).*1;
  to_running : ∀ id, jt_active_task t = Some (id, false) → ∃ j, find_job t id = Ok j;
}.

Inductive job_step (t : job_table) : job_table → Prop :=
| step_request operation expected target id now : id ∉ (jt_jobs t).*1 →
    job_step t (request_job operation expected target id now t).1
| step_change id f : job_step t (change_job id f t)
| step_done : job_step t (task_done t).

Lemma assoc_get_change id f k l :
  assoc_get k ((λ entry : string * CatalogActivationJob, if decide (entry.1 = id) then (entry.1, f entry.2) else entry) <$> l)
  = if decide (k = id) then f <$> assoc_get k l else assoc_get k l.
Proof.
  induction l as [|[n j] l IH]; [by case_decide|]. cbn. destruct (decide (n = id)) as [->|Hn]; cbn.
  - destruct (decide (id = k)) as [->|]; [by rewrite decide_True|exact IH].
  - destruct (decide (n = k)) as [->|]; [by rewrite decide_False|exact IH].
Qed.

Lemma dict_set_new {A} key (value : A) l : key ∉ l.*1 → dict_set key value l = l ++ [(key, value)].
Proof.
  induction l as [|[k v] l IH]; [done|]. cbn. intros Hn. apply not_elem_of_cons in Hn as [Hne Hn].
  rewrite decide_False by done. by rewrite IH.
Qed.

Lemma assoc_get_last {A} key (value : A) l : key ∉ l.*1 → assoc_get key (l ++ [(key, value)]) = Some value.
Proof.
  induction l as [|[k v] l IH]; cbn; [by rewrite decide_True|]. intros Hn. apply not_elem_of_cons in Hn as [Hne Hn].
  rewrite decide_False by done. by apply IH.
Qed.

Lemma table_step t t' : job_step t t' → table_ok t → table_ok t'.
Proof.
  intros Hstep [Hb Hd Hr]. destruct Hstep as [operation expected target id now Hnew|id f|].
  - unfold request_job. destruct (busy t); [done|]. cbn [fst]. rewrite dict_set_new by done. unfold retained_jobs.
    set (job := {| cj_job_id := id |}). set (l := jt_jobs t) in *. rewrite length_app. cbn [length].
    split; cbn [jt_jobs jt_active_task].
    + rewrite length_drop, length_app. cbn. unfold MAX_RETAINED_JOBS. lia.
    + rewrite fmap_drop. eapply sublist_NoDup; [|apply sublist_drop]. rewrite fmap_app. apply NoDup_app. split_and!; [done| |apply NoDup_singleton].
      intros k Hk ->%list_elem_of_singleton. done.
    + intros k [= <-]. exists job. unfold find_job. cbn [jt_jobs].
      rewrite drop_app_le by (unfold MAX_RETAINED_JOBS in *; lia). rewrite assoc_get_last; [done|].
      intros Hin. apply Hnew. rewrite fmap_drop in Hin. by eapply subseteq_drop.
  - unfold change_job. split; cbn [jt_jobs jt_active_task].
    + by rewrite length_fmap.
    + rewrite <- list_fmap_compose. erewrite list_fmap_ext; [exact Hd|]. intros i [k j] _. cbn. by case_decide.
    + intros k Hk. destruct (Hr k Hk) as [j Hj]. unfold find_job in *. cbn [jt_jobs]. rewrite assoc_get_change.
      destruct (assoc_get k (jt_jobs t)) as [j'|]; [|done]. case_decide; cbn; by eexists.
  - unfold task_done. split; cbn [jt_jobs jt_active_task]; [done..|]. intros k Hk. by destruct (jt_active_task t).
Qed.

(** Whatever requests and assignments come, the table stays small and the job
    that runs can be asked for: it is never the one that is dropped. *)
Theorem running_job_found (t : job_table) (Hreach : rtc job_step no_jobs t) :
  (length (jt_jobs t) ≤ 100)%nat ∧ (busy t = true → ∃ id j, jt_active_task t = Some (id, false) ∧ find_job t id = Ok j).
Proof.
  assert (table_ok t) as [Hb _ Hr].
  { eapply (rtc_ind_r (λ t, table_ok t)); [| |exact Hreach].
    - split; cbn; [unfold MAX_RETAINED_JOBS; lia|constructor|done].
    - intros t1 t2 _ Hs H1. by eapply table_step. }
  split; [done|]. unfold busy. destruct (jt_active_task t) as [[id []]|] eqn:E; try done. intros _.
  destruct (Hr id eq_refl) as [j Hj]. by exists id, j.
Qed.

(** ** A request leaves the directory of the file *)

Lemma run_op_mode `{ManagedPrimitives} catalog s op : ps_parent_mode (run_op catalog s op) = ps_parent_mode s.
Proof.
  assert (∀ A (m : comp InstrumentPolicyStore A), keeps (λ x, ps_parent_mode x = ps_parent_mode s) m →
            ps_parent_mode (m s).1 = ps_parent_mode s) as Hkeep by (intros A m Hm; by apply Hm).
  destruct op; cbn [run_op]; apply Hkeep;
    unfold edit, replace_document, capture_transition, commit_transition, abort_transition, restore_transition,
      persist_migration, mark_runtime_applied, write_locked, read_locked, read_file, check_path, assert_transition,
      catalog_snapshot, read_locked, read_file, check_path;
    repeat first
      [ apply keeps_bind; [|intros ?] | apply keeps_when | by apply keeps_pure | by apply keeps_modify
      | by (intros ? ?) | progress case_match ].
Qed.

Lemma run_ops_mode `{ManagedPrimitives} catalog ops : ∀ s,
  ps_parent_mode (foldl (run_op catalog) s ops) = ps_parent_mode s.
Proof. induction ops as [|op ops IH]; intros s; [done|]. cbn [foldl]. by rewrite IH, run_op_mode. Qed.

(** ** Reasoning about tasks *)

Definition twp {A} (m : task A) (Q : job_run → attempt A → Prop) (r : job_run) : Prop := Q (m r).1 (m r).2.

Lemma twp_ret {A} (x : A) Q r : Q r (inl x) → twp (mret x) Q r.
Proof. done. Qed.

Lemma twp_fail {A} f (Q : job_run → attempt A → Prop) r : Q r (inr f) → twp (fail f) Q r.
Proof. done. Qed.

Lemma twp_look {A} (f : job_run → A) Q r : Q r (inl (f r)) → twp (look f) Q r.
Proof. done. Qed.

Lemma twp_assign f Q r : Q (f r) (inl tt) → twp (assign f) Q r.
Proof. done. Qed.

Lemma twp_given {A} (m : attempt A) Q r : Q r m → twp (given m) Q r.
Proof. done. Qed.

Lemma twp_bind {A B} (m : task A) (k : A → task B) Q r :
  twp m (λ r' res, match res with inl x => twp (k x) Q r' | inr f => Q r' (inr f) end) r → twp (m ≫= k) Q r.
Proof. unfold twp, mbind, task_bind. by destruct (m r).2. Qed.

Lemma twp_mono {A} (m : task A) (Q R : job_run → attempt A → Prop) r :
  (∀ r' res, Q r' res → R r' res) → twp m Q r → twp m R r.
Proof. unfold twp. auto. Qed.

Lemma twp_run {A} (m : comp activation_run A) (Q : job_run → attempt A → Prop) r :
  wp m (λ a res, Q (set_jr_run a r) (result_attempt res)) (jr_run r) → twp (on_run m) Q r.
Proof. done. Qed.

(** ** A job *)

Section job.
Context `{ServiceWorld, ManagedPrimitives, CatalogRuntimePrimitives}.
Context (registry : Registry) (o : job_env) (r0 : job_run) (j0 : CatalogActivationJob).

Let run0 : activation_run := jr_run r0.
Let e : activation_env := je_activation o.
Let id : string := je_job_id o.

(** Nothing but the turns of other tasks happened to the service and the file:
    the state in which the job commits, if it gets there. *)
Record undisturbed (r : activation_run) : Prop := {
  ud_locals : quiet_locals run0 r;
  ud_generations : sv_generations (ar_service r) = sv_generations (ar_service run0);
  ud_heap : length (sv_states (ar_service r)) = length (sv_states (ar_service run0));
  ud_targets : ∀ k, (k < length (ar_collectors run0))%nat → target_at r k = target_at run0 k;
  ud_store : ∃ requests, Forall (λ op, op ∈ concat (in_requests <$> ar_others run0)) requests ∧
               ar_store r = foldl (run_op registry) (ar_store run0) requests;
  ud_turns : ∃ turns, ar_others run0 = turns ++ ar_others r;
}.

(** The state in which the job starts: the one an activation may start in, with
    the job in the table and the collector in charge among the collectors. *)
Record job_startable : Prop := {
  js_locals : ar_transition_token run0 = None ∧ ar_file_committed run0 = false ∧ ar_file_snapshot run0 = None ∧
              ar_previous_target run0 = None ∧ ar_reconciliation run0 = None;
  js_state : ∃ loc, gn_data_state (capture_generation (ar_service run0)) = Some loc ∧
               (loc < length (sv_states (ar_service run0)))%nat;
  js_previous_id : truthy (gn_generation_id (capture_generation (ar_service run0))) = true;
  js_target_id : truthy (je_generation_id o) = true;
  js_fresh_id : je_generation_id o ≠ gn_generation_id (capture_generation (ar_service run0));
  js_parent : writable_by_others (ps_parent_mode (ar_store run0)) = false;
  js_others : Forall (λ i, Forall (foreign (en_lease_id e)) (in_requests i)) (ar_others run0);
  js_serving : ∀ k, ar_coordinator run0 = Some k → (k < length (ar_collectors run0))%nat;
  js_job : find_job (jr_table r0) id = Ok j0;
  js_running : jt_active_task (jr_table r0) = Some (id, false);
  js_graph : jr_candidate r0 = None;
}.

Hypothesis Hstart : job_startable.
Hypothesis Horder : ∀ a r, undisturbed r → ac_target_revision a = cg_revision (je_target o) → orderly registry a e r.

Lemma undisturbed_refl : undisturbed run0.
Proof. split; try done; [by exists []|by exists []]. Qed.

Lemma undisturbed_pause r : undisturbed r → wp (pause registry) (λ r' res, res = Ok tt ∧ undisturbed r') r.
Proof.
  intros [Hl Hg Hh Ht (requests & Hr & Hs) (turns & Hturns)]. unfold wp, pause, modify. cbn [fst snd]. split; [done|].
  destruct (ar_others r) as [|i l] eqn:Eo; [split; try done; [by exists requests|by exists turns; rewrite Eo]|].
  unfold run_others. split; cbn.
  - destruct Hl as (? & ? & ? & ? & ? & ?). by split_and!.
  - by rewrite (proj1 (mixed_keeps _ _)).
  - by rewrite (proj2 (mixed_keeps _ _)).
  - intros k Hk. unfold target_at. cbn. rewrite ended_keeps by done. by apply Ht.
  - exists (requests ++ in_requests i). split; [|by rewrite Hs, foldl_app]. apply Forall_app. split; [done|].
    apply Forall_forall. intros op Hop. apply list_elem_of_In, in_concat. exists (in_requests i).
    split; [|by apply list_elem_of_In]. apply list_elem_of_In, list_elem_of_fmap. exists i. split; [done|].
    rewrite Hturns. set_solver.
  - exists (turns ++ [i]). by rewrite Hturns, <- app_assoc.
Qed.

(** The job in the table, with what was asked for. *)
Definition same_request (j : CatalogActivationJob) : Prop :=
  cj_job_id j = cj_job_id j0 ∧ cj_operation j = cj_operation j0 ∧
  cj_requested_revision j = cj_requested_revision j0 ∧
  cj_target_generation_revision j = cj_target_generation_revision j0.

Definition in_table (P : CatalogActivationJob → Prop) (t : job_table) : Prop :=
  (∃ j, find_job t id = Ok j ∧ same_request j ∧ P j) ∧ jt_active_task t = Some (id, false).

Lemma in_table_change (P Q : CatalogActivationJob → Prop) f t :
  (∀ j, same_request j → P j → same_request (f j) ∧ Q (f j)) → in_table P t → in_table Q (change_job id f t).
Proof.
  intros Hf [(j & Hj & Hsame & HP) Hact]. split; [|done]. exists (f j). split; [|by apply Hf].
  unfold find_job, change_job in *. cbn [jt_jobs]. rewrite assoc_get_change, decide_True by done.
  destruct (assoc_get id (jt_jobs t)) as [j'|]; [|done]. cbn. by injection Hj as ->.
Qed.

(** Before the commit. *)
Definition waiting (r : job_run) : Prop := undisturbed (jr_run r) ∧ in_table (λ _, True) (jr_table r).

Lemma waiting_start : waiting r0.
Proof.
  split; [exact undisturbed_refl|]. split; [|apply Hstart]. exists j0. split; [apply Hstart|]. done.
Qed.

Lemma waiting_change r f (Q : job_run → attempt unit → Prop) : (∀ j, same_request j → same_request (f j)) → waiting r →
  (∀ r', waiting r' → Q r' (inl tt)) → twp (change o f) Q r.
Proof.
  intros Hf [Hu Ht] HQ. unfold change. apply twp_assign, HQ. split; [done|]. cbn.
  by eapply in_table_change; [|exact Ht]; auto.
Qed.

Lemma waiting_wait p r : waiting r → twp (wait registry o p) (λ r' _, waiting r') r.
Proof.
  intros [Hu Ht]. unfold wait. apply twp_bind, twp_run. eapply wp_mono; [|by apply undisturbed_pause].
  intros a res [-> Ha]. cbn [result_attempt]. assert (waiting (set_jr_run a r)) by done. by case_decide.
Qed.

Lemma waiting_await {A} p (m : task A) r (P : attempt A → Prop) :
  twp m (λ r' res, waiting r' ∧ P res) r → (∀ f, P (inr f)) →
  twp (await registry o p m) (λ r' res, waiting r' ∧ P res) r.
Proof.
  intros Hm HP. unfold await. apply twp_bind. eapply twp_mono; [|exact Hm]. intros r1 [x|f] [Hw Hx]; [|done].
  apply twp_bind. eapply twp_mono; [|by apply waiting_wait]. intros r2 [[]|f] Hw2; [by apply twp_ret|done].
Qed.

(** *** Validation *)

(** A query of the store. *)
Lemma waiting_query {A} (m : comp InstrumentPolicyStore A) r : (∀ s, (m s).1 = s) → waiting r →
  twp (on_run (on_store m)) (λ r' res, r' = r ∧ res = result_attempt (m (ar_store (jr_run r))).2) r.
Proof.
  intros Hm [Hu Ht]. apply twp_run. unfold wp, on_store. cbn [fst snd]. rewrite Hm, same_store. by destruct r.
Qed.

Lemma target_query expected operation revision s : (assert_runtime_target registry expected operation revision s).1 = s.
Proof.
  unfold assert_runtime_target. rewrite comp_bind_eq, read_locked_eq. cbn [fst snd].
  destruct (reading registry s) as [[c d]|]; [|done]. rewrite comp_bind_eq. unfold lift at 1. cbn [fst snd].
  destruct (assert_content _ _); [|done]. rewrite comp_bind_eq. unfold lift at 1. cbn [fst snd].
  by destruct (if decide _ then _ else _).
Qed.

Lemma active_query s : active_generation registry s = (s, match reading registry s with Ok x => Ok (cd_active x.2) | Raise err => Raise err end).
Proof. unfold active_generation. rewrite comp_bind_eq, read_locked_eq. cbn [fst snd]. by destruct (reading registry s) as [[c d]|]. Qed.

Lemma assert_target_wp p r : waiting r → twp (assert_target registry o p) (λ r' _, waiting r') r.
Proof.
  intros Hw. unfold assert_target. apply twp_bind. unfold twp at 1, this_job. cbn [fst snd].
  destruct (find_job (jr_table r) (je_job_id o)) as [job|]; [|done]. cbn [result_attempt].
  eapply twp_mono; [|apply (waiting_await p _ r (λ _, True)); [|done]]; [by intros ? ? [? _]|].
  eapply twp_mono; [|by apply waiting_query; [apply target_query|]]. by intros r' res [-> _].
Qed.

Lemma compiled_wp p generation strict graph r : waiting r →
  twp (compiled registry o p generation strict graph)
    (λ r' res, waiting r' ∧ ∀ x, res = inl x → compile_generation (je_settings o) (je_installed o) generation strict = Ok x) r.
Proof.
  intros Hw. unfold compiled. apply (waiting_await p _ r (λ res, ∀ x, res = inl x → _ = Ok x)); [|by intros].
  apply twp_bind, twp_given. destruct (compile_generation _ _ _ _) as [x|]; cbn [result_attempt]; [|done].
  apply twp_bind, twp_given. destruct graph as [[]|]; [|done]. apply twp_ret. by split; [|intros ? [= <-]].
Qed.

(** What a job that goes on to prepare has checked, against a generation that
    was active on disk. *)
Record passed (v : validated) : Prop := {
  pa_current : ∃ r c doc, undisturbed r ∧ reading registry (ar_store r) = Ok (c, doc) ∧ cd_active doc = va_current v;
  pa_changed : va_changed v = changed_symbols (va_current v) (je_target o);
  pa_target : compile_generation (je_settings o) (je_installed o) (je_target o)
                (strict_runtime_validation (je_settings o)) = Ok (va_registry v, va_plan v);
  pa_active : ∃ rg, compile_generation (je_settings o) (je_installed o) (va_current v) false = Ok (rg, va_active_plan v);
  pa_routes : require_changed_routes (je_target o) (va_plan v) (va_changed v) = Ok None;
  pa_budget : incremental_budget_errors (je_settings o) (va_active_plan v) (va_plan v) = [];
}.

Lemma validate_job_wp r : waiting r →
  twp (validate_job registry o) (λ r' res, waiting r' ∧ ∀ v, res = inl v → passed v) r.
Proof.
  intros Hw. unfold validate_job. apply twp_bind, waiting_change; [by intros|done|]. intros r1 Hw1.
  apply twp_bind. eapply twp_mono; [|by apply assert_target_wp]. intros r2 [[]|f] Hw2; [|done].
  apply twp_bind. eapply twp_mono; [|by apply waiting_query; [intros s; by rewrite active_query|]]. intros r2' res [-> ->].
  rewrite active_query. cbn [snd]. destruct (reading registry (ar_store (jr_run r2))) as [[c doc]|] eqn:Hr; cbn [result_attempt]; [|done].
  apply twp_bind. eapply twp_mono; [|by apply compiled_wp]. intros r3 [[rg plan]|f] [Hw3 Hplan]; [|done]. specialize (Hplan _ eq_refl).
  apply twp_bind, twp_assign. set (r4 := set_jr_graph true r3). assert (waiting r4) as Hw4 by exact Hw3.
  apply twp_bind. unfold require_routes. apply twp_bind, twp_given. cbn [fst snd].
  destruct (require_changed_routes _ _ _) as [[f|]|] eqn:Hroutes; cbn [result_attempt]; [done| |done]. apply twp_ret.
  apply twp_bind. eapply twp_mono; [|by apply compiled_wp]. intros r5 [[rg' active]|f] [Hw5 Hactive]; [|done]. specialize (Hactive _ eq_refl).
  apply twp_bind. eapply twp_mono; [|apply (waiting_await AtClose _ r5 (λ _, True)); [|done]]; [|by apply twp_given].
  intros r6 [[]|f] [Hw6 _]; [|done]. destruct (incremental_budget_errors _ _ _) eqn:Hbudget; [|done].
  apply twp_bind, waiting_change; [by intros|done|]. intros r7 Hw7. apply twp_ret. split; [done|]. intros v [= <-].
  split; cbn; try done; [|by exists rg']. exists (jr_run r2), c, doc. by destruct Hw2.
Qed.

(** *** Preparation and warm-up *)

Lemma prepare_job_wp v r : waiting r → twp (prepare_job registry o v) (λ r' _, waiting r') r.
Proof.
  intros [Hu Ht]. unfold prepare_job. apply twp_bind. unfold twp at 1, new_collector. cbn [fst snd].
  set (r1 := set_jr_graph _ _). assert (waiting r1) as Hw1.
  { split; [|done]. destruct Hu as [Hl Hg Hh Htg Hs Ho]. split; try done. intros k Hk. rewrite <- (Htg k Hk).
    unfold target_at. cbn. destruct (decide (k < length (ar_collectors (jr_run r)))%nat) as [Hlt|Hge].
    - by rewrite lookup_app_l.
    - pose proof (Htg k Hk) as Heq. unfold target_at in Heq. rewrite (lookup_ge_None_2 (ar_collectors (jr_run r))) in Heq by lia.
      destruct (lookup_lt_is_Some_2 _ _ Hk) as [c Hc]. by rewrite Hc in Heq. }
  apply twp_bind, twp_assign. apply twp_bind. eapply twp_mono; [|by apply assert_target_wp]. intros r2 [[]|f] Hw2; [|done].
  apply twp_bind. eapply twp_mono; [|apply (waiting_await AtPrepare _ r2 (λ _, True)); [|done]]; [|by apply twp_given].
  intros r3 [[]|f] [Hw3 _]; [|done]. apply twp_bind, twp_assign. set (r3' := set_jr_stage _ r3).
  assert (waiting r3') as Hw3' by exact Hw3.
  apply twp_bind. eapply twp_mono; [|apply (waiting_await AtVerify _ r3' (λ _, True)); [|done]]; [|by apply twp_given].
  intros r4 [verification|f] [Hw4 _]; [|done]. apply twp_bind, waiting_change; [by intros|done|]. by intros.
Qed.

Definition warmed_up (v : validated) (warmed : list warmed_item) : Prop :=
  ∃ se, warm sw_ny_wall se (je_target o) (je_answers o) (je_warm_run o) (va_changed v) (je_warmed_at o) = inl warmed.

Lemma warm_job_wp v r : waiting r →
  twp (warm_job registry o v) (λ r' res, waiting r' ∧ ∀ warmed, res = inl warmed → warmed_up v warmed) r.
Proof.
  intros Hw. unfold warm_job. apply twp_bind, twp_given. destruct (warm_execution_plan _ _ _ _ _); cbn [result_attempt]; [|done].
  apply twp_bind, waiting_change; [by intros|done|]. intros r1 Hw1.
  apply twp_bind, waiting_change; [by intros|done|]. intros r2 Hw2. apply twp_bind, twp_assign.
  apply twp_bind, twp_look. set (r3 := set_jr_stage _ r2). assert (waiting r3) as Hw3 by exact Hw2.
  set (se := sv_settings _). set (m := warm _ _ _ _ _ _ _).
  apply twp_bind. eapply twp_mono; [|apply (waiting_await AtWarm _ r3 (λ res, ∀ warmed, res = inl warmed → m = inl warmed)); [|by intros]].
  2: { apply twp_given. split; [done|]. by intros. }
  intros r4 [warmed|f] [Hw4 Hm]; [|done]. specialize (Hm _ eq_refl).
  apply twp_bind, waiting_change; [by intros|done|]. intros r5 Hw5. apply twp_bind, twp_assign, twp_ret.
  split; [exact Hw5|]. intros warmed' [= <-]. by exists se.
Qed.

(** *** The commit *)

Lemma undisturbed_capture r : undisturbed r →
  capture_generation (ar_service r) = capture_generation (ar_service run0).
Proof. intros Hu. unfold capture_generation. by rewrite (ud_generations _ Hu). Qed.

Lemma undisturbed_startable r a : undisturbed r → ac_generation_id a = je_generation_id o → startable a e r.
Proof.
  intros Hu Hid. pose proof Hu as [(_ & Htk & Hfc & Hfs & Hpt & Hre) Hg Hh _ (requests & _ & Hs) (turns & Hturns)].
  destruct (js_locals Hstart) as (L1 & L2 & L3 & L4 & L5).
  pose proof (undisturbed_capture r Hu) as Hcap.
  split; rewrite ?Htk, ?Hfc, ?Hfs, ?Hpt, ?Hre, ?Hcap, ?Hid; try apply Hstart; try done.
  - destruct (js_state Hstart) as (loc & Hloc & Hlt). exists loc. split; [done|]. by rewrite Hh.
  - rewrite Hs, run_ops_mode. apply Hstart.
  - pose proof (js_others Hstart) as Ho. rewrite Hturns in Ho. by apply Forall_app in Ho as [_ ?].
Qed.

(** The service moved: the job committed from an undisturbed state what it had
    validated and warmed up. *)
Definition moved (r : activation_run) : Prop :=
  ∃ rc v candidate warmed job loc, undisturbed (jr_run rc) ∧ passed v ∧ warmed_up v warmed ∧ same_request job ∧
    activated registry (activation_of o job v warmed (choose_collector o v candidate rc)) e (jr_run rc) loc r.

(** The service did not move: generation, collector and file are those of an
    undisturbed state. *)
Definition unmoved (r : activation_run) : Prop :=
  ∃ r1, undisturbed r1 ∧ former_generation r1 (capture_generation (ar_service r)) ∧
    ar_coordinator r = ar_coordinator run0 ∧ former_target run0 r ∧ file_restored registry r1 (ar_store r) ∧
    Forall (λ i, Forall (allowed e r1) (in_requests i)) (ar_others r).

Lemma undisturbed_target r : undisturbed r → former_target run0 r.
Proof. intros Hu p Hp. apply Hu. by apply Hstart. Qed.

Lemma undisturbed_unmoved r : undisturbed r → unmoved r.
Proof.
  intros Hu. exists r. split_and!; [done|done|by destruct (ud_locals _ Hu)|by apply undisturbed_target|by apply since_now|].
  set (a := {| ac_operation := ""; ac_expected_file_revision := ""; ac_target_revision := ""; ac_target := None;
               ac_registry := registry; ac_route_plan := None; ac_generation_id := je_generation_id o; ac_warmed := [];
               ac_candidate_coordinator := None; ac_reconcile_provider_names := None |}).
  by apply (others_allowed a), undisturbed_startable.
Qed.

Lemma commit_job_wp v candidate warmed r : waiting r → passed v → warmed_up v warmed →
  twp (commit_job registry o v candidate warmed)
    (λ r' res, in_table (λ _, True) (jr_table r') ∧
       match res with inl _ => moved (jr_run r') | inr _ => unmoved (jr_run r') end) r.
Proof.
  intros Hw Hv Hwarm. unfold commit_job. apply twp_bind, twp_look. set (h := choose_collector o v candidate r).
  apply twp_bind. unfold change. apply twp_assign. set (r1 := set_jr_table _ r).
  assert (in_table (λ _, True) (jr_table r1)) as Ht1 by (by eapply in_table_change; [|apply Hw]).
  apply twp_bind. unfold twp at 1, this_job. cbn [fst snd]. pose proof Ht1 as [(job & Hjob & Hsame & _) _].
  change (je_job_id o) with id. rewrite Hjob. cbn [result_attempt].
  apply twp_bind, twp_run. destruct Hw as [Hu _].
  set (a := activation_of o job v warmed h).
  pose proof (commit_wp registry a e (jr_run r) (undisturbed_startable (jr_run r) a Hu eq_refl) (Horder a (jr_run r) Hu eq_refl))
    as Hcommit.
  change (jr_run r1) with (jr_run r). eapply wp_mono; [|exact Hcommit]. intros r' [[]|err] Hr'; cbn [result_attempt].
  - destruct Hr' as [loc Hr']. assert (moved r') by (by exists r, v, candidate, warmed, job, loc).
    case_decide; [by apply twp_assign|by apply twp_ret].
  - split; [done|]. destruct Hr' as [[Hg Hc Hf _ Ho] Hfile]. exists (jr_run r). split_and!; [done|done| | |done|done].
    + etransitivity; [exact Hc|]. by destruct (ud_locals _ Hu).
    + intros p Hp. etransitivity; [apply Hf; by destruct (ud_locals _ Hu) as (-> & _)|]. by apply undisturbed_target.
Qed.

(** *** After the commit *)

(** What the service is does not depend on the turns of other tasks, nor on a
    collector that is stopped. *)
Lemma turned_targets r r' rt : turned registry e rt r r' → former_target run0 r → former_target run0 r'.
Proof. intros Ht Hf p Hp. rewrite (tu_targets _ _ _ _ _ Ht). by apply Hf. Qed.

Lemma moved_pause r : moved r → wp (pause registry) (λ r' res, res = Ok tt ∧ moved r') r.
Proof.
  intros (rc & v & candidate & warmed & job & loc & Hu & Hv & Hw & Hsame & Ha).
  destruct (pause_turned registry e (jr_run rc) r) as (r' & Heq & Ht); [apply Ha|].
  unfold wp. rewrite Heq. cbn [fst snd]. split; [done|]. exists rc, v, candidate, warmed, job, loc. split_and!; [done..|].
  by eapply turned_activated.
Qed.

Lemma unmoved_pause r : unmoved r → wp (pause registry) (λ r' res, res = Ok tt ∧ unmoved r') r.
Proof.
  intros (r1 & Hu & Hg & Hc & Hf & Hfile & Ho). destruct (pause_turned registry e r1 r Ho) as (r' & Heq & Ht).
  unfold wp. rewrite Heq. cbn [fst snd]. split; [done|]. exists r1. split_and!; [done| | | | |apply Ht].
  - unfold capture_generation in *. by rewrite (tu_generations _ _ _ _ _ Ht).
  - by destruct (tu_locals _ _ _ _ _ Ht) as (-> & _).
  - by eapply turned_targets.
  - by eapply turned_since.
Qed.

Lemma moved_collectors l r : (∀ k, target_of <$> l !! k = target_at r k) → moved r → moved (set_ar_collectors l r).
Proof.
  intros Hl (rc & v & candidate & warmed & job & loc & Hu & Hv & Hw & Hsame & Ha).
  exists rc, v, candidate, warmed, job, loc. split_and!; [done..|]. destruct Ha as [(Hg & Hc & Hh) Hf Ht Ho].
  split; [|done..]. split_and!; [done..|]. intros k Hk Hor. rewrite <- (Hh k Hk Hor). apply Hl.
Qed.

Lemma unmoved_collectors l r : (∀ k, target_of <$> l !! k = target_at r k) → unmoved r → unmoved (set_ar_collectors l r).
Proof.
  intros Hl (r1 & Hu & Hg & Hc & Hf & Hfile & Ho). exists r1. split_and!; [done..| |done|done].
  intros p Hp. rewrite <- (Hf p Hp). apply Hl.
Qed.

(** How the service ended up, which the rest of the job leaves. *)
Definition stands (P : activation_run → Prop) : Prop :=
  (∀ r, P r → wp (pause registry) (λ r' res, res = Ok tt ∧ P r') r) ∧
  ∀ l r, (∀ k, target_of <$> l !! k = target_at r k) → P r → P (set_ar_collectors l r).

Lemma moved_stands : stands moved.
Proof. split; [apply moved_pause|apply moved_collectors]. Qed.

Lemma unmoved_stands : stands unmoved.
Proof. split; [apply unmoved_pause|apply unmoved_collectors]. Qed.

(** The job is in a state, and the service stands as [P] says. *)
Definition ended (P : activation_run → Prop) (state : CatalogJobState) (r : job_run) : Prop :=
  P (jr_run r) ∧ in_table (λ j, cj_state j = state) (jr_table r).

Lemma pause_ended P state r : stands P → ended P state r →
  twp (on_run (pause registry)) (λ r' res, res = inl tt ∧ ended P state r') r.
Proof.
  intros [HP _] [Hr Ht]. apply twp_run. eapply wp_mono; [|by apply HP]. intros r' res [-> Hr']. by split.
Qed.

Lemma audit_ended P state sink r : stands P → ended P state r →
  twp (audit registry sink) (λ r' res, ended P state r' ∧ ∀ f, res = inr f → f = Cancelled ∧ sink = inr Cancelled) r.
Proof.
  intros HP Hr. unfold audit. apply twp_bind. eapply twp_mono; [|by eapply pause_ended]. intros r1 res [-> Hr1].
  destruct sink as [|[]]; first [by apply twp_ret|by apply twp_fail; split; [|intros ? [= <-]]].
Qed.

Lemma enter_ended P state r : P (jr_run r) → in_table (λ _, True) (jr_table r) →
  twp (enter o state) (λ r' res, res = inl tt ∧ ended P state r') r.
Proof.
  intros HP Ht. unfold enter, change. apply twp_assign. split; [done|]. split; [done|].
  by eapply in_table_change; [|exact Ht].
Qed.

Lemma release_ended P state r : stands P → ended P state r →
  twp (release_job registry o) (λ r' _, ended P state r') r.
Proof.
  intros HP Hr. unfold release_job. apply twp_bind, twp_look. apply twp_bind.
  eapply twp_mono with (Q := λ r' _, ended P state r').
  2: { destruct (jr_candidate r) as [k|]; [|by apply twp_ret]. apply twp_bind.
       eapply twp_mono; [|by eapply pause_ended]. intros r1 res [-> [Hr1 Ht1]]. apply twp_run.
       eapply wp_mono; [|apply stop_collector_wp]. intros r2 res2 (l & -> & Hl & _ & _). split; [by apply HP|done]. }
  intros r1 [[]|f] Hr1; [|done]. apply twp_bind, twp_look. destruct (jr_graph r1); [|by apply twp_ret].
  apply twp_bind. eapply twp_mono; [|by eapply pause_ended]. intros r2 res [-> Hr2]. by apply twp_given.
Qed.

Lemma in_table_weaken (P : CatalogActivationJob → Prop) t : in_table P t → in_table (λ _, True) t.
Proof. intros [(j & Hj & Hs & _) Hact]. split; [|done]. by exists j. Qed.

Lemma job_failed_ended P f r : stands P → P (jr_run r) → in_table (λ _, True) (jr_table r) →
  twp (job_failed registry o f) (λ r' _, ended P (if f is Cancelled then CANCELLED else FAILED) r') r.
Proof.
  intros HP Hr Ht. unfold job_failed. apply twp_bind, twp_look. apply twp_bind. unfold change. apply twp_assign.
  set (r1 := set_jr_table _ r). assert (in_table (λ _, True) (jr_table r1)) as Ht1 by (by eapply in_table_change; [|exact Ht]).
  apply twp_bind. eapply twp_mono; [|by eapply (enter_ended P)]. intros r2 res [-> Hr2].
  assert (ended P (if f is Cancelled then CANCELLED else FAILED) r2) as Hr2' by (by destruct f).
  apply twp_bind. eapply twp_mono; [|by eapply audit_ended]. intros r3 [[]|g] [Hr3 _]; [|done]. by destruct f.
Qed.

Lemma job_body_wp :
  twp (job_body registry o) (λ r res,
    match res with
    | inl _ => ended moved SUCCEEDED r
    | inr f => in_table (λ _, True) (jr_table r) ∧
               (unmoved (jr_run r) ∨ (f = Cancelled ∧ je_audited o = inr Cancelled ∧ moved (jr_run r)))
    end) r0.
Proof.
  unfold job_body. apply twp_bind. eapply twp_mono; [|apply validate_job_wp, waiting_start].
  assert (∀ r, waiting r → in_table (λ _, True) (jr_table r) ∧ ∀ f, unmoved (jr_run r) ∨
            (f = Cancelled ∧ je_audited o = inr Cancelled ∧ moved (jr_run r))) as Hfail
    by (intros r [Hu Ht]; split; [done|]; left; by apply undisturbed_unmoved).
  intros r1 [v|f] [Hw1 Hv]; [|by apply Hfail in Hw1 as [? ?]]. specialize (Hv v eq_refl).
  apply twp_bind. eapply twp_mono; [|by apply prepare_job_wp]. intros r2 [candidate|f] Hw2; [|by apply Hfail in Hw2 as [? ?]].
  apply twp_bind. eapply twp_mono; [|by apply (warm_job_wp v)]. intros r3 [warmed|f] [Hw3 Hwarm]; [|by apply Hfail in Hw3 as [? ?]].
  apply twp_bind. eapply twp_mono; [|by apply commit_job_wp; [| |by apply Hwarm]]. intros r4 [[]|f] [Ht4 Hm4]; [|by split; [|left]].
  apply twp_bind. eapply twp_mono; [|by eapply (enter_ended moved)]. intros r5 res [-> Hr5].
  eapply twp_mono; [|eapply audit_ended; [apply moved_stands|exact Hr5]]. intros r6 [[]|f] [[Hm6 Ht6] Hf]; [done|].
  split; [by eapply in_table_weaken|]. right. by destruct (Hf f eq_refl).
Qed.

(** What the state of a job tells. *)
Definition tells (state : CatalogJobState) (r : activation_run) : Prop :=
  match state with
  | SUCCEEDED => moved r
  | FAILED => unmoved r
  | CANCELLED => unmoved r ∨ (je_audited o = inr Cancelled ∧ moved r)
  | _ => False
  end.

Lemma tells_stands state : stands (tells state).
Proof.
  destruct moved_stands as [M1 M2], unmoved_stands as [U1 U2].
  destruct state; cbn [tells]; try (by split); split.
  - intros r [Hr|[Ha Hr]].
    + eapply wp_mono; [|by apply U1]. intros r' res [-> ?]. by split; [|left].
    + eapply wp_mono; [|by apply M1]. intros r' res [-> ?]. by split; [|right].
  - intros l r Hl [Hr|[Ha Hr]]; [left; by apply U2|right; split; [done|by apply M2]].
Qed.

Lemma run_job_tells :
  let x := run_job registry o r0 in
  busy (jr_table x.1) = false ∧
  ∃ j, find_job (jr_table x.1) id = Ok j ∧ same_request j ∧ tells (cj_state j) (jr_run x.1).
Proof.
  cbv zeta. unfold run_job. set (x := job_body registry o r0). set (y := match x.2 with inl _ => x | inr f => _ end).
  assert (∃ state, ended (tells state) state y.1) as [state Hy].
  { pose proof job_body_wp as Hbody. unfold twp in Hbody. fold x in Hbody. subst y. destruct x.2 as [[]|f]; [by exists SUCCEEDED|].
    destruct Hbody as [Ht Hf]. set (state := if f is Cancelled then CANCELLED else FAILED). exists state.
    assert (tells state (jr_run x.1)) as Htells.
    { destruct Hf as [Hu|(-> & Ha & Hm)]; [|by right]. subst state. destruct f; try done. by left. }
    pose proof (job_failed_ended (tells state) f x.1 (tells_stands state) Htells Ht) as Hfail.
    subst state. by destruct f. }
  pose proof (release_ended _ _ _ (tells_stands state) Hy) as [Hz [(j & Hj & Hs & Hstate) Hact]].
  set (z := release_job registry o y.1) in *. cbn [fst jr_table set_jr_table jr_run].
  split; [unfold busy, task_done; cbn [jt_active_task]; by rewrite Hact|]. exists j. split_and!; [done|done|]. by rewrite Hstate.
Qed.

End job.

(** C8: a job settles, and its state tells the truth.  When its task is done the
    runtime takes the next job, and the job can be asked for in one of three
    states.  It succeeded: the service moved to the target, every required route
    of a changed instrument is there, the budgets allow the plan against that of
    the generation that was active, and every changed instrument was warmed up.
    It failed: generation, collector and file are as they were, but for the
    requests of other tasks.  It was cancelled: the same, except when the
    cancellation struck the audit of a success, which leaves the target active.
    The job waits in the table with its task running, without a candidate graph,
    and the rest is ready for an activation ([job_startable]); the ways to fail
    that the atomicity of its activation excludes are excluded here too
    ([orderly]): a write of the target that raises although it replaced the file
    or cannot be read back, a restoring write that fails, a stop, rollback or
    retirement of a collector that is itself cancelled, and a cancellation of the
    job while finalizing a collector fails. *)
Theorem job_settles `{ServiceWorld, ManagedPrimitives, CatalogRuntimePrimitives} (registry : Registry)
    (o : job_env) (r0 : job_run) (j0 : CatalogActivationJob) (Hstart : job_startable o r0 j0)
    (Horder : ∀ a r, undisturbed registry r0 r → ac_target_revision a = cg_revision (je_target o) →
                orderly registry a (je_activation o) r) :
  let x := run_job registry o r0 in
  busy (jr_table x.1) = false ∧
  ∃ j, find_job (jr_table x.1) (je_job_id o) = Ok j ∧ same_request j0 j ∧ tells registry o r0 j0 (cj_state j) (jr_run x.1).
Proof. exact (run_job_tells registry o r0 j0 Hstart Horder). Qed.

(** ** Examples *)

Definition demo_runtime : CatalogRuntimePrimitives := {| rt_model_json := demo_dumps |}.

Definition demo_answer : ProviderQuote :=
  {| pq_symbol := "ETH:USDC"; pq_price := dint 2000; pq_as_of := 0; pq_provider := "kraken"; pq_feed := "rest";
     pq_price_basis := "spot_market"; pq_market_status := "open"; pq_is_derived := false; pq_components := [];
     pq_fallback_level := 0; pq_license_scope := "personal"; pq_coverage := None; pq_market_status_as_of := None |}.

Definition demo_job_env (audited : attempt unit) : job_env :=
  {| je_job_id := "job"; je_target := demo_staged; je_generation_id := "g2"; je_clock := λ _, 0;
     je_settings := demo_settings; je_installed := ["kraken"; "binance"; "okx"; "coingecko"]; je_cancelled_at := None; je_graph := inl tt;
     je_active_graph := inl tt; je_closed := inl tt; je_graph_closed := inl tt; je_prepared := inl tt;
     je_verified := inl JNull; je_router_timeout := None; je_providers_for := λ _ _, []; 
     je_answers := λ _, {| wa_quote := inl (PQuote demo_answer); wa_dividend := None; wa_yield := None |};
     je_warm_run := {| wr_ended := [0%nat]; wr_interrupted := None |}; je_warmed_at := λ _ _, 0; je_fatal_error := None; je_can_reconcile := λ _, false;
     je_plan_of := λ _, JNull; je_target_identity := 1; je_plan_identity := 1; je_audited := audited;
     je_reported := inl tt; je_candidate_stopped := Ok tt; je_activation := demo_env Written retired |}.

Definition demo_requested : job_table * result CatalogActivationJob :=
  request_job "activate" (@revision demo_managed (demo_text demo_stored)) (cg_revision demo_staged) "job" 0 no_jobs.

Definition demo_job : job_run :=
  {| jr_run := {| ar_store := demo_store; ar_service := demo_serving; ar_collectors := [demo_collector true];
                  ar_coordinator := Some 0%nat; ar_others := []; ar_transition_token := None;
                  ar_file_committed := false; ar_file_snapshot := None; ar_previous_target := None;
                  ar_reconciliation := None |};
     jr_table := demo_requested.1; jr_stage := "validating"; jr_candidate := None; jr_graph := false |}.

Abbreviation demo_job_done audited :=
  (@run_job demo_world demo_managed demo_runtime demo_registry (demo_job_env audited) demo_job).

Definition demo_queued : CatalogActivationJob := ok_or (update 0 QUEUED (Build_CatalogActivationJob "" "" "" "" QUEUED 0 0 [] None None None None)) demo_requested.2.

Lemma demo_job_startable audited : job_startable (demo_job_env audited) demo_job demo_queued.
Proof.
  split; try reflexivity.
  - by split_and!.
  - exists 0%nat. split; [done|cbn; lia].
  - discriminate.
  - constructor.
  - intros k [= <-]. cbn. lia.
Qed.

(** Nobody else asks anything of the file. *)
Lemma demo_undisturbed r : @undisturbed demo_managed demo_registry demo_job r → ar_store r = demo_store.
Proof.
  intros Hu. destruct (ud_store _ _ _ Hu) as (requests & Hr & ->). destruct requests as [|op requests]; [done|].
  apply Forall_cons in Hr as [Hin _]. by apply not_elem_of_nil in Hin.
Qed.

Lemma demo_job_orderly audited a r : @undisturbed demo_managed demo_registry demo_job r →
  ac_target_revision a = cg_revision demo_staged →
  @orderly demo_managed demo_registry a (je_activation (demo_job_env audited)) r.
Proof.
  intros Hu Hrev. split.
  - exact demo_digest_length.
  - intros err Heq. discriminate Heq.
  - rewrite (demo_undisturbed r Hu). unfold file_transition. rewrite Hrev.
    intros content doc request updated content' Hr. case_decide; [intros <-%ok_inj|case_decide; [intros <-%ok_inj|by intros]].
    + exact (demo_read_back content doc _ updated content' Hr eq_refl).
    + rewrite demo_reading in Hr. apply ok_inj, pair_equal_spec in Hr as [<- <-]. intros Hf. discriminate Hf.
  - reflexivity.
  - intros err Heq. discriminate Heq.
  - intros err Heq. discriminate Heq.
  - intros err Heq. discriminate Heq.
  - intros err Heq. discriminate Heq.
Qed.

Definition state_of (x : job_run * attempt unit) (job_id : string) : result CatalogJobState :=
  cj_state <$> find_job (jr_table x.1) job_id.

Lemma succeeded_moved `{ServiceWorld, ManagedPrimitives, CatalogRuntimePrimitives} rg o r0 j0 (x : job_run * attempt unit) :
  state_of x (je_job_id o) = Ok SUCCEEDED →
  (∃ j, find_job (jr_table x.1) (je_job_id o) = Ok j ∧ same_request j0 j ∧ tells rg o r0 j0 (cj_state j) (jr_run x.1)) →
  moved rg o r0 j0 (jr_run x.1).
Proof. unfold state_of. intros Hs (j & Hj & _ & Ht). rewrite Hj in Hs. apply ok_inj in Hs. by rewrite Hs in Ht. Qed.

Lemma job_settles_witness :
  @moved demo_world demo_managed demo_runtime demo_registry (demo_job_env (inl tt)) demo_job demo_queued
    (jr_run (demo_job_done (inl tt)).1).
Proof.
  apply succeeded_moved; [vm_compute; reflexivity|].
  exact (proj2 (@job_settles demo_world demo_managed demo_runtime demo_registry (demo_job_env (inl tt)) demo_job demo_queued
                  (demo_job_startable (inl tt)) (demo_job_orderly (inl tt)))).
Defined.

(** A cancellation that strikes the audit of a success is reported as that of the
    activation, with the target serving. *)
Theorem cancelled_audit_misreports :
  state_of (demo_job_done (inr Cancelled)) "job" = Ok CANCELLED ∧
  gn_generation_id (capture_generation (ar_service (jr_run (demo_job_done (inr Cancelled)).1))) = "g2".
Proof. split; vm_compute; reflexivity. Qed.
